(* ===== verification/_CoqProject ===== *)
-Q . S2P
Prelude.v
Store.v
Rbtree.v
RbtreeRep.v
RbtreeInsert.v
RbtreeUnlink.v
RbtreeDelete.v
RbtreeLife.v
Crc32.v
Resolver.v
ResolverSpec.v
Ring.v
Queue.v
SList.v
HList.v
Checksum.v
ChecksumStream.v
ChecksumMd.v
ChecksumSha256.v
ChecksumSha512.v
ChecksumRounds.v
GChecksum.v
Hmac.v
Base64.v
Hash.v
HashRep.v
HashOps.v
HashSpec.v
HashLoops.v
HashScript.v
EvTime.v
Ev.v
EvPending.v
EvHeap.v
EvTimer.v
EvReify.v
EvLoop.v
EvIo.v
EvIoRep.v
EvIoOps.v
EvIoEvents.v
EvIoReify.v
EvEpoll.v
EvEpollOk.v
EvPoll.v
EvWakeup.v
EvClient.v
EvIteration.v
Utf8.v
Utf8Char.v
Utf8Valid.v
Utf8Nav.v
Utf8Search.v
Utf8Convert.v
Utf8Scan.v
Utf16Scan.v
Utf8ConvertOk.v
Utf8Repair.v
Date.v
DateCalendar.v
DateRep.v
DateOps.v
DateArith.v
DateCalls.v
DateScript.v
DateLaws.v
Tree.v
TreeRep.v
TreeBalance.v
TreeUnlink.v
TreeRead.v
TreeInsert.v
TreeRemove.v
TreeMachine.v
TreeLimits.v
Pattern.v
PatternMatch.v
PatternOk.v
PatternSpec.v
PatternLaws.v
