(* ===== verification/Prelude.v ===== *)
(** * A verification library for the C code of this repository

    The repository collects C libraries: the intrusive containers of nginx and
    of the Linux kernel (src/Queue, src/Rbtree, src/SList), GLib 2.56.1
    (src/glib-2.56.1), the event loop libev 4.15 (src/libev-4.15), and two C++
    libraries on top of it. This development models the containers, the hash
    table, the balanced tree, the codecs, the dates and the glob patterns of
    GLib, and the timers, io watchers and epoll backend of libev, and proves them
    correct. Definitions keep the names of the C
    functions; the comment above a definition says where it departs from the
    text of the code.

    ** The shape of a model

    - Integers of C are [Z] with their wrap-around written out ([u32], [s32],
      ... below); bytes are integers below 256; times of libev are IEEE 754
      doubles (EvTime).
    - Code that walks and changes linked objects runs in the store monad of
      Store: a [cmd H A] maps a store to a result and a new store, or to [None]
      where the code would dereference a pointer that is not allocated. [wp] is
      its total-correctness logic, so that a proof of [wp c Q h] shows that [c]
      neither faults nor runs out of its loop budget.
    - Code on arrays is a function to [option]: [None] stands for an access
      outside an array, a failed assertion, or a loop that exceeds its budget.
      The theorems conclude [Some], hence no such thing happens.
    - Loops take a budget ([fuel]). Every theorem either quantifies over all
      budgets above a stated bound or the definition computes one that the
      theorem shows to suffice: [walk_fuel n], 2 log2 (n + 1) + 2, for walks
      over a red-black tree of [n] nodes; the number of members for lists; the
      number of slots for the probe sequence of a hash table; the number of
      elements for a heap.
    - Contracts are refinement theorems against abstract machines: sequences
      for lists, finite maps for hash table and timers, queues for pending
      events. The machines run scripts of operations; the theorem says that
      whenever the machine can run a script, the code can, with the same
      results, and ends in a state that stands for the machine's.

    ** Shared files

    - Prelude (this file): machine integers, bit lemmas, arrays, hints.
    - Store: the monad, its logic and its automation.
    - Ring: circular lists as [world]s of rings, and the interface
      [RingOps]/[RingLaws] that both list libraries implement.

    ** Red-black tree: src/Rbtree/ngx_rbtree.c, ngx_rbtree.h

    Rbtree has the operations (one side-parametrised definition for each pair
    of mirrored branches). RbtreeRep has abstract trees, zippers and the
    relation [tree_at] between stores and trees; RbtreeInsert, RbtreeUnlink and
    RbtreeDelete prove insertion and deletion; [InsertCallback] is the contract
    between ngx_rbtree_insert and the insertion callback stored in a tree.
    RbtreeLife has the histories of a tree and concrete trees. The theorems: insertion and deletion keep the red-black discipline and the
    search order and touch nothing else; the timer callback orders keys across
    the overflow of the clock; every history of a tree is safe.

    ** CRC-32 and name resolver: src/Rbtree/ngx_crc32.[ch], test.c

    Crc32 proves the tables against the shift register, and that bursts of four
    bytes are detected. Resolver and ResolverSpec model the program of test.c,
    a client of tree and checksum: names of fewer than 128 characters that are
    inserted are found, whatever collides, and all nodes are freed.

    ** Queue and list: src/Queue/ngx_queue.[ch], src/SList/list.h, demo.c

    Queue and SList define the operations on a store of link objects and prove
    them to implement sequences, and further: sorting is stable, splitting and
    joining are inverse, the middle is found, removal while traversing is safe.
    HList has the second kind of list of list.h, with one pointer in the head
    and back pointers to pointers, and refines its operations and traversals to
    lists.

    ** Hash table: src/glib-2.56.1/glib/ghash.c

    Hash has the table with its arrays, tombstones, resizing, iterators and the
    destroy functions (whose calls are recorded as events). HashRep has probing,
    the invariant [table_ok] and the finite map of a table; HashOps (with
    resizing), HashSpec and HashLoops prove the operations; HashScript has the
    contract: a table is a finite map on classes of equal keys, gives up every
    key and value exactly once, and iterators meet every entry once. The bound
    of 2^29 entries keeps the size computations of the code below 2^31.

    ** UTF-8: src/glib-2.56.1/glib/gutf8.c, gstrfuncs.c

    Utf8 has the reference encoding ([encode], arithmetic on 31-bit characters),
    the loop combinator [iter], and the functions on characters; Utf8Search the
    searches, Utf8Convert conversions, reversal and repair. A buffer is the list
    of its bytes, a pointer an index; [place s p t] says that the rest of the
    buffer at [p] is [t]. Utf8Char proves what decoding answers on any bytes,
    Utf8Valid the grammar of RFC 3629, validation and the encoder, Utf8Nav the
    movement by characters, Utf8Scan, Utf16Scan and Utf8ConvertOk the
    conversions, Utf8Repair reversal and repair. The theorems are exact for any
    bytes where the code checks its input, and otherwise for any text of
    characters between any other bytes; all show that no read or write leaves
    its buffer. The budget of a loop is the length of the buffer or the distance
    to go; the conversions are for inputs below 2^31 / 6 items, as their
    counters are ints.

    ** Base64: src/glib-2.56.1/glib/gbase64.c

    Base64 has encoder and decoder with their saved states, the theorems on
    round trips, on RFC 4648, on decoding in place and on buffer sizes.

    ** Checksums: src/glib-2.56.1/glib/gchecksum.c, ghmac.c

    Checksum has MD5, SHA-1, SHA-256, SHA-384 and SHA-512. ChecksumRounds has the
    hash functions of RFC 1321 and FIPS 180-4, written apart from the code, with
    constants and initial values from the roots of primes, and proves the
    transformations equal to their rounds;
    ChecksumStream, ChecksumMd, ChecksumSha256 and ChecksumSha512 prove that any
    division of a message gives the hash of the padded message (and exhibit the
    lost carries of two counters); GChecksum and Hmac prove the objects.

    ** Dates: src/glib-2.56.1/glib/gdate.c, gdate.h

    Date has the functions that do not depend on the locale, on a store of GDate
    objects: the functions fill the second representation of a date through
    pointers to const, so two pointers to one date matter. The store counts the
    warnings of g_return_if_fail. Memory for a new or a local date is found by a
    parameter ([Placement]), which also says what garbage it holds. DateCalendar
    has the reference, counting days from 1 January of year 1, and the arithmetic
    of the formulas; DateRep the relation [rep] of an object to a day, the logic
    [acts] on abstract states and the machine of days, DateOps, DateArith and
    DateCalls the proofs for each function; DateScript the contract for
    clients, programs that use the results of calls; DateLaws its consequences.
    The theorems: any client within years 1 to 65535 gets what the machine of days
    says; the formulas agree with counting; moves can be
    undone; and the ends of the range are not checked, a bug. The loop of
    g_date_compare has a budget of two rounds, shown to be enough.

    ** Glob patterns: src/glib-2.56.1/glib/gpattern.c

    Pattern has the compilation of a pattern to its canonical form and kind, the
    matching with its search for the places behind a star, and [glob], the naive
    matching of characters. PatternMatch proves the matching of bytes against
    [glob], in particular that giving up once the next star has been reached
    loses nothing; PatternOk the canonical form and the bounds on the length of
    a match; PatternSpec the five kinds of match, and that canonical patterns
    with the same matches are equal, PatternLaws the contract: every
    way of matching decides [glob], and equality of specifications is that of
    the sets they match. The recursion of the matching has the length of the
    pattern as its depth, a loop the length of its buffer. Patterns are shorter
    than 2^30 bytes, as four times their length is counted in 32 bits.

    ** Balanced tree: src/glib-2.56.1/glib/gtree.c

    Tree has the threaded AVL tree on a store of nodes: a child pointer without a
    child leads to the node before or behind. Mirrored branches are one
    definition with a side. The path arrays of 40 elements are lists, and a write
    outside is an error. TreeRep has abstract trees, zippers, and [focus]: the
    store is a tree in a hole of a context, with links and balances for an older
    height of the hole, apart from nodes that have been taken out. TreeBalance
    proves the formulas of the rotations and the loop that restores the balance,
    for insertion and removal at once ([due] says what the loop may meet);
    TreeUnlink walks along threads and the ways to take a node out; TreeRead the
    order, searches and traversals; TreeInsert and TreeRemove the two large
    functions; TreeMachine the contract: a tree is a sorted list of entries with
    a reference count, and the destroy functions are called for what leaves it;
    TreeLimits that the height is logarithmic, and a bug: with 433494436 nodes
    the path arrays are too short. Below that number no array is left, as the
    height is at most 40, the bound of all loops along a path; other loops have
    the number of nodes as their budget.

    ** Event loop: src/libev-4.15/ev.c, ev.h, ev_vars.h, ev_epoll.c

    Ev has watchers, arrays, queues of pending events, the 4-heap, timers and
    their processing; EvIo the table of file descriptors, io watchers and
    fd_reify; EvEpoll the epoll backend. The record [ev_loop] has the fields of
    ev_vars.h that they use. EvPending (with the growing arrays), EvHeap, EvTimer
    and EvReify prove the layers of the timers, EvLoop their contract: the
    assertions of ev_verify hold, expired timers are taken in order, and every
    callback runs exactly once. EvIoRep has the invariant of the io watchers
    ([io_ok]: a chain of active watchers for every descriptor, and the list of
    changed descriptors), EvIoOps and EvIoEvents the operations and the machine
    on which scripts of calls act.

    fd_reify is proved against an interface, the class [Backend] of EvIoReify:
    what backend_modify is asked to do, whatever it does when it can not watch a
    descriptor, and what it keeps of the others. EvEpollOk makes epoll_modify an
    instance of it. The kernel is a parameter: [Kernel] has its state, epoll_ctl,
    and for the theorems the registrations and the calls made so far;
    [KernelLaws] is what the manual of epoll_ctl says: a call concerns one
    descriptor only, a failed call changes nothing, EEXIST and ENOENT tell
    whether the descriptor is registered, and EPERM that its file does not
    support epoll. Any call may fail. A descriptor is [in_step] if it is
    registered, if at all, for the events that epoll_modify has noted, and in
    the list of always ready ones if it has the mark for EPERM; a failed call or
    the bug of epoll_poll described below puts it out of step. EvWakeup has an
    instance, a table of registrations where one descriptor is a regular file,
    one is not open, and one cannot be modified. EvPoll proves epoll_poll.

    The theorems: scripts of calls on timers and io watchers act as specified
    (EvClient). After any of them, with descriptors closed and opened meanwhile,
    fd_reify registers what is in step, gives up exactly what the kernel refuses,
    and keeps the rest in step; epoll_poll wakes up exactly whom it should,
    events of older generations nobody, and drops a report only with postfork
    set; epoll_fork, the answer to that, repairs everything; an always ready
    descriptor whose watcher pauses is forgotten until then, a bug of epoll_poll
    (EvWakeup). An iteration of the loop delivers exactly the events that are
    due, by priority (EvIteration).

    Bounds: arrays of up to 2^25 elements grow without overflow; a loop holds
    fewer than 2^24 timers and descriptors below 2^23. The budget of a walk along
    a chain is the number of watchers, that of fd_reify twice the number of
    descriptors, since one that is given up is visited again.

    ** Not modelled

    - Pointers are abstract addresses; container_of, offsetof and casts between
      a member and its structure are the identity. Allocation succeeds unless a
      definition has a parameter for its failure. There is no concurrency:
      atomic reference counts are plain counters.
    - Callbacks given to the hash table are pure functions; the callbacks of
      libev may change the loop through the model's own operations.
    - Of libev: periodic timers, the array watchers (prepare, check, idle, fork,
      cleanup, async), signals, child, stat and embed watchers, and ev_run, which
      calls the modelled functions in a loop; epoll_init and
      epoll_destroy, the growth of the buffer for events, and errors of
      epoll_wait other than EINTR, for which the code calls ev_syserr; the rest
      of loop_fork (the pipe of async watchers); poll and select.
    - Of gdate.c: parsing and formatting, which depend on the locale
      (g_date_set_parse, g_date_strftime).
    - Of gtree.c: the code for debugging (g_tree_node_check, g_tree_dump), which
      is not compiled; functions that change the tree while it is traversed.
    - Of gpattern.c: g_pattern_spec_free, which only gives memory back.
    - Of GLib: everything not named above, first of all the main loop, threads,
      memory, input and output (operating system), Unicode tables (generated),
      pcre, gnulib and libcharset (third-party), and GObject and GIO. Natural
      continuations are gsequence.c, gnode.c and gvariant. A GString is
      the list of its bytes: gstring.c is not modelled.
    - libevwork and libtinyredis are C++. *)
From stdpp Require Export base tactics list gmap.
From Stdlib Require Export ZArith Lia.

#[global] Open Scope Z_scope.

(** * Hint databases of the development *)

(** [c_int]: bounds of machine integers; [c_wp]: rules of the store logic. *)
Create HintDb c_int discriminated.
Create HintDb c_wp discriminated.

(** * Machine integers *)

Declare Scope c_scope.
Delimit Scope c_scope with C.

(** The value of an unsigned [w]-bit C object after an assignment of [x]. *)
Definition wrap (w x : Z) : Z := x mod 2 ^ w.

(** The value of a signed (two's complement) [w]-bit object after a
    conversion of [x]. *)
Definition swrap (w x : Z) : Z := (x + 2 ^ (w - 1)) mod 2 ^ w - 2 ^ (w - 1).

Abbreviation u8 := (wrap 8).
Abbreviation u16 := (wrap 16).
Abbreviation u32 := (wrap 32).
Abbreviation u64 := (wrap 64).
Abbreviation s32 := (swrap 32).
Abbreviation s64 := (swrap 64).

Notation "x '.&' y" := (Z.land x y) (at level 40, left associativity) : c_scope.
Notation "x '.|' y" := (Z.lor x y) (at level 50, left associativity) : c_scope.
Notation "x '.^' y" := (Z.lxor x y) (at level 45, left associativity) : c_scope.
Notation "x '.<<' y" := (Z.shiftl x y) (at level 38, left associativity) : c_scope.
Notation "x '.>>' y" := (Z.shiftr x y) (at level 38, left associativity) : c_scope.

(** [in_u w x]: [x] is a value of an unsigned [w]-bit type. *)
Definition in_u (w x : Z) : Prop := 0 <= x < 2 ^ w.

#[export] Instance in_u_dec w x : Decision (in_u w x).
Proof. unfold in_u. apply _. Defined.

Lemma wrap_in_u w x : 0 <= w -> in_u w (wrap w x).
Proof. intros. apply Z.mod_pos_bound. lia. Qed.

Lemma wrap_id w x : in_u w x -> wrap w x = x.
Proof. intros. by apply Z.mod_small. Qed.

Lemma wrap_wrap w x : 0 <= w -> wrap w (wrap w x) = wrap w x.
Proof. intros. by apply wrap_id, wrap_in_u. Qed.

Lemma pow2_half w : 0 < w -> 2 ^ w = 2 * 2 ^ (w - 1).
Proof. intros. rewrite <- Z.pow_succ_r by lia. f_equal. lia. Qed.

Lemma swrap_bounds w x : 0 < w -> - 2 ^ (w - 1) <= swrap w x < 2 ^ (w - 1).
Proof.
  intros. unfold swrap. pose proof (pow2_half w).
  pose proof (Z.mod_pos_bound (x + 2 ^ (w - 1)) (2 ^ w)). lia.
Qed.

Lemma swrap_id w x : 0 < w -> - 2 ^ (w - 1) <= x < 2 ^ (w - 1) -> swrap w x = x.
Proof.
  intros. unfold swrap. pose proof (pow2_half w). rewrite Z.mod_small; lia.
Qed.

#[export] Hint Resolve wrap_in_u swrap_bounds : c_int.

(** * Bit-level lemmas *)

Lemma testbit_above w x i : in_u w x -> w <= i -> Z.testbit x i = false.
Proof.
  intros [? Hx] ?. destruct (decide (x = 0)) as [->|]; [apply Z.testbit_0_l|].
  destruct (decide (w < 0)); [rewrite Z.pow_neg_r in Hx; lia|].
  apply Z.bits_above_log2; [done|].
  apply Z.lt_le_trans with w; [|done]. apply Z.log2_lt_pow2; lia.
Qed.

Lemma in_u_of_testbit w x :
  0 <= w -> 0 <= x -> (forall i, w <= i -> Z.testbit x i = false) -> in_u w x.
Proof.
  intros Hw Hx Hb. split; [done|].
  replace x with (x mod 2 ^ w); [by apply Z.mod_pos_bound; lia|].
  apply Z.bits_inj'. intros i Hi. destruct (decide (i < w)).
  - rewrite Z.mod_pow2_bits_low by lia. done.
  - rewrite Z.mod_pow2_bits_high by lia. rewrite Hb by lia. done.
Qed.

Lemma in_u_lor w x y : 0 <= w -> in_u w x -> in_u w y -> in_u w (Z.lor x y).
Proof.
  intros Hw Hx Hy. apply in_u_of_testbit; [done| |].
  - apply Z.lor_nonneg. unfold in_u in *. lia.
  - intros i Hi. by rewrite Z.lor_spec, (testbit_above w x), (testbit_above w y).
Qed.

Lemma in_u_lxor w x y : 0 <= w -> in_u w x -> in_u w y -> in_u w (Z.lxor x y).
Proof.
  intros Hw Hx Hy. apply in_u_of_testbit; [done| |].
  - apply Z.lxor_nonneg. unfold in_u in *. lia.
  - intros i Hi. by rewrite Z.lxor_spec, (testbit_above w x), (testbit_above w y).
Qed.

Lemma in_u_land_l w x y : 0 <= w -> in_u w x -> in_u w (Z.land x y).
Proof.
  intros Hw Hx. apply in_u_of_testbit; [done| |].
  - apply Z.land_nonneg. unfold in_u in *. lia.
  - intros i Hi. by rewrite Z.land_spec, (testbit_above w x).
Qed.

#[export] Hint Resolve in_u_lor in_u_lxor in_u_land_l : c_int.

Lemma lor_add_disjoint x y : Z.land x y = 0 -> Z.lor x y = x + y.
Proof. intros H. rewrite <- (Z.add_lor_land x y), H. lia. Qed.

(** Disjoint bit fields: the [or] of a shifted high part and a low part. *)
Lemma lor_shiftl_add w hi lo :
  0 <= w -> in_u w lo -> Z.lor (Z.shiftl hi w) lo = hi * 2 ^ w + lo.
Proof.
  intros Hw Hlo. rewrite <- Z.shiftl_mul_pow2 by done. apply lor_add_disjoint.
  apply Z.bits_inj'. intros i Hi. rewrite Z.land_spec, Z.testbit_0_l.
  destruct (decide (i < w)).
  - by rewrite Z.shiftl_spec_low.
  - rewrite (testbit_above w lo) by (done || lia). by rewrite andb_false_r.
Qed.

(** * Enumerating small integer ranges *)

(** A boolean property that holds of every integer of [lo, lo+n) by
    computation holds of the range. *)
Definition forall_range (lo : Z) (n : nat) (P : Z -> bool) : bool :=
  forallb P (seqZ lo (Z.of_nat n)).

Lemma forall_range_spec lo n P :
  forall_range lo n P = true -> forall x, lo <= x < lo + Z.of_nat n -> P x = true.
Proof.
  unfold forall_range. rewrite forallb_forall. intros H x Hx. apply H.
  apply list_elem_of_In, elem_of_seqZ. lia.
Qed.

(** * Lists *)

Section list_lemmas.
Context {A : Type}.
Implicit Types l : list A.

Lemma NoDup_middle l1 l2 x :
  NoDup (l1 ++ x :: l2) <-> (x ∉ l1 ++ l2) /\ NoDup (l1 ++ l2).
Proof. rewrite <- Permutation_middle. apply NoDup_cons. Qed.

Lemma lookup_app_mid l1 x l2 : (l1 ++ x :: l2) !! length l1 = Some x.
Proof. by rewrite lookup_app_r, Nat.sub_diag by lia. Qed.
End list_lemmas.

(** * Arrays *)

(** Array accesses: [None] out of range. *)
Definition array_get {A} (l : list A) (i : Z) : option A := if i <? 0 then None else l !! Z.to_nat i.
Definition array_set {A} (l : list A) (i : Z) (v : A) : option (list A) :=
  if decide (0 <= i < Z.of_nat (length l)) then Some (<[Z.to_nat i := v]> l) else None.

Section array_lemmas.
Context {A : Type}.
Implicit Types l : list A.

Lemma array_get_Some l i x : array_get l i = Some x -> 0 <= i < Z.of_nat (length l) /\ l !! Z.to_nat i = Some x.
Proof.
  unfold array_get. destruct (Z.ltb_spec i 0); [done|]. intros Hx. split; [|done].
  apply lookup_lt_Some in Hx. lia.
Qed.

Lemma array_get_range l i : 0 <= i < Z.of_nat (length l) -> exists x, array_get l i = Some x.
Proof.
  intros Hi. unfold array_get. destruct (Z.ltb_spec i 0); [lia|]. apply lookup_lt_is_Some_2. lia.
Qed.

Lemma array_set_Some l i x : 0 <= i < Z.of_nat (length l) -> array_set l i x = Some (<[Z.to_nat i := x]> l).
Proof. intros. unfold array_set. by rewrite decide_True. Qed.

Lemma array_get_insert l i j x :
  0 <= i < Z.of_nat (length l) -> array_get (<[Z.to_nat i := x]> l) j = if decide (i = j) then Some x else array_get l j.
Proof.
  intros Hi. unfold array_get. destruct (Z.ltb_spec j 0); [by rewrite decide_False by lia|].
  case_decide as E; [subst; apply list_lookup_insert_eq; lia|]. apply list_lookup_insert_ne. lia.
Qed.

Lemma array_get_app_l l l' i : i < Z.of_nat (length l) -> array_get (l ++ l') i = array_get l i.
Proof.
  intros Hi. unfold array_get. destruct (Z.ltb_spec i 0); [done|]. rewrite lookup_app_l by lia. done.
Qed.
End array_lemmas.
