(* ===== verification/Store.v ===== *)
(** Stores of linked C objects, and a small total-correctness logic for the
    code that walks and updates them.

    A C function that works on heap objects is a [cmd H A]: it maps the store
    [H] to a result and a new store, or to [None] when it dereferences a
    pointer that is not allocated (NULL included) or exhausts its loop budget.
    [wp c Q h] states that [c] started in [h] does neither and ends with a
    result and a store that satisfy [Q]. *)
From S2P Require Import Prelude.

(** Addresses; [NULL] is never allocated. *)
Abbreviation loc := Z.
Definition NULL : loc := 0.

Definition cmd (H A : Type) : Type := H -> option (A * H).

Section cmd.
Context {H : Type}.

#[export] Instance cmd_ret : MRet (cmd H) := fun A a h => Some (a, h).
#[export] Instance cmd_bind : MBind (cmd H) :=
  fun A B f c h => match c h with Some (a, h') => f a h' | None => None end.

Definition fault {A} : cmd H A := fun _ => None.

Definition wp {A} (c : cmd H A) (Q : A -> H -> Prop) (h : H) : Prop :=
  match c h with Some (a, h') => Q a h' | None => False end.

Lemma wp_ret {A} (a : A) (Q : A -> H -> Prop) h : Q a h -> wp (mret a) Q h.
Proof. done. Qed.

Lemma wp_bind {A B} (c : cmd H A) (f : A -> cmd H B) Q h :
  wp c (fun a h' => wp (f a) Q h') h -> wp (mbind f c) Q h.
Proof. unfold wp, mbind, cmd_bind. by destruct (c h) as [[]|]. Qed.

Lemma wp_assoc {A B C} (c : cmd H A) (f : A -> cmd H B) (g : B -> cmd H C) Q h :
  wp (mbind g (mbind f c)) Q h -> wp (mbind (fun a => mbind g (f a)) c) Q h.
Proof. unfold wp, mbind, cmd_bind. by destruct (c h) as [[]|]. Qed.

Lemma wp_mono {A} (c : cmd H A) (Q Q' : A -> H -> Prop) h :
  wp c Q h -> (forall a h', Q a h' -> Q' a h') -> wp c Q' h.
Proof. unfold wp. destruct (c h) as [[]|]; eauto. Qed.

Lemma wp_run {A} (c : cmd H A) Q h :
  wp c Q h -> exists a h', c h = Some (a, h') /\ Q a h'.
Proof. unfold wp. destruct (c h) as [[]|]; [eauto|done]. Qed.

(** A loop whose body either ends with a result or continues with a new
    loop state; [fuel] bounds the number of rounds. *)
Fixpoint loop {S A} (fuel : nat) (body : S -> cmd H (S + A)) (s : S) : cmd H A :=
  match fuel with
  | O => fault
  | Datatypes.S fuel =>
      r ← body s;
      match r with
      | inl s' => loop fuel body s'
      | inr a => mret a
      end
  end.

(** The loop rule: an invariant with a measure that every further round
    decreases. *)
Lemma wp_loop {S A} (I : nat -> S -> H -> Prop) (body : S -> cmd H (S + A)) Q :
  (forall n s h, I n s h ->
     wp (body s) (fun r h' => match r with
                              | inl s' => exists m, (m < n)%nat /\ I m s' h'
                              | inr a => Q a h'
                              end) h) ->
  forall n fuel s h, (n < fuel)%nat -> I n s h -> wp (loop fuel body s) Q h.
Proof.
  intros Hbody n fuel. revert n.
  induction fuel as [|fuel IH]; intros n s h Hn HI; [lia|].
  cbn [loop]. apply wp_bind. eapply wp_mono; [by apply Hbody|].
  intros [s'|a] h'; [|done]. intros (m & ? & ?). apply (IH m); [lia|done].
Qed.
End cmd.

#[export] Hint Resolve wp_ret wp_bind : c_wp.
#[global] Arguments fault {_ _} _ /.
#[global] Typeclasses Opaque cmd.

(** * Stores of records *)

(** A store type [H] that holds objects of type [R] at addresses. *)
Class HasMem (H R : Type) := {
  mem_of : H -> gmap loc R;
  set_mem : gmap loc R -> H -> H;
  mem_of_set_mem m h : mem_of (set_mem m h) = m;
}.

#[export] Instance gmap_has_mem R : HasMem (gmap loc R) R :=
  {| mem_of := fun m => m; set_mem := fun m _ => m; mem_of_set_mem m h := eq_refl |}.

Section mem.
Context {H R : Type} `{!HasMem H R}.

(** [p->f], for [f] a projection of the record. *)
Definition rd {A} (f : R -> A) (p : loc) : cmd H A :=
  fun h => match mem_of h !! p with Some r => Some (f r, h) | None => None end.

(** [p->f = v], for [g] the record update. *)
Definition wr (g : R -> R) (p : loc) : cmd H unit :=
  fun h => match mem_of h !! p with
           | Some r => Some (tt, set_mem (<[p := g r]> (mem_of h)) h)
           | None => None
           end.

Lemma wp_rd {A} (f : R -> A) p Q h r :
  mem_of h !! p = Some r -> Q (f r) h -> wp (rd f p) Q h.
Proof. unfold wp, rd. intros ->. done. Qed.

Lemma wp_wr (g : R -> R) p (Q : unit -> H -> Prop) h r :
  mem_of h !! p = Some r -> Q tt (set_mem (<[p := g r]> (mem_of h)) h) ->
  wp (wr g p) Q h.
Proof. unfold wp, wr. intros ->. done. Qed.
End mem.

#[global] Arguments rd {_ _ _ _} _ _ _ /.

(** * Proof automation *)

(** Run through the binds of a command. *)
Ltac wp_seq :=
  repeat match goal with
  | |- wp (mbind _ _) _ _ => apply wp_bind
  | |- wp (mret _) _ _ => apply wp_ret
  | |- wp ((fun _ => _) _) _ _ => cbv beta
  end.

Ltac wp_step tac :=
  match goal with
  | |- wp (mbind _ _) _ _ => apply wp_bind
  | |- wp (mret _) _ _ => apply wp_ret
  | |- wp (rd _ _) _ _ => eapply wp_rd; [solve [tac] | cbn beta iota]
  | |- wp (wr _ _) _ _ => eapply wp_wr; [solve [tac] | cbn beta iota]
  end.
