(* ===== verification/Rbtree.v ===== *)
(** The intrusive red-black tree of src/Rbtree (ngx_rbtree.h, ngx_rbtree.c):
    the operations on a store of nodes.

    A tree lives in a store of node objects that are linked by [left], [right]
    and [parent] addresses; the empty subtree is the address of the shared
    sentinel node. *)
From S2P Require Import Prelude Store.

(** * Data *)

(** struct ngx_rbtree_node_s *)
Record node := Node {
  key : Z;         (** unsigned int *)
  left : loc;
  right : loc;
  parent : loc;
  color : Z;       (** u_char, 0: black, 1: red *)
  data : Z;        (** u_char *)
}.

Definition set_key v n := Node v (left n) (right n) (parent n) (color n) (data n).
Definition set_left v n := Node (key n) v (right n) (parent n) (color n) (data n).
Definition set_right v n := Node (key n) (left n) v (parent n) (color n) (data n).
Definition set_parent v n := Node (key n) (left n) (right n) v (color n) (data n).
Definition set_color v n := Node (key n) (left n) (right n) (parent n) v (data n).

(** struct ngx_rbtree_s, with the store its pointers refer to. The [insert]
    callback of the struct is an argument of [ngx_rbtree_insert]. *)
Record rbstate := RbState {
  nodes : gmap loc node;
  root : loc;
  sentinel : loc;
}.

#[export] Instance rbstate_has_mem : HasMem rbstate node :=
  {| mem_of := nodes;
     set_mem := fun m s => RbState m (root s) (sentinel s);
     mem_of_set_mem m s := eq_refl |}.

Abbreviation rb := (cmd rbstate).

(** A child field, [left] or [right]; a pair of an address and a side stands
    for the C pointer [&p->left] or [&p->right]. *)
Inductive side := SLeft | SRight.

#[export] Instance side_eq_dec : EqDecision side.
Proof. solve_decision. Defined.

Definition opp (d : side) : side := match d with SLeft => SRight | SRight => SLeft end.
Definition child (d : side) : node -> loc :=
  match d with SLeft => left | SRight => right end.
Definition set_child (d : side) : loc -> node -> node :=
  match d with SLeft => set_left | SRight => set_right end.

(** * Primitive accesses *)

Definition get_root : rb loc := fun s => Some (root s, s).
Definition set_root (p : loc) : rb unit :=
  fun s => Some (tt, RbState (nodes s) p (sentinel s)).

Definition ngx_rbt_red (p : loc) : rb unit := wr (set_color 1) p.
Definition ngx_rbt_black (p : loc) : rb unit := wr (set_color 0) p.
Definition ngx_rbt_is_red (p : loc) : rb bool := rd (fun n => negb (color n =? 0)) p.
Definition ngx_rbt_is_black (p : loc) : rb bool :=
  r ← ngx_rbt_is_red p; mret (negb r).
Definition ngx_rbt_copy_color (p1 p2 : loc) : rb unit :=
  c ← rd color p2; wr (set_color c) p1.

(** ngx_rbtree_init: the sentinel is blackened and becomes the root. *)
Definition ngx_rbtree_init (m : gmap loc node) (s : loc) : option rbstate :=
  match ngx_rbt_black s (RbState m NULL s) with
  | Some (_, st) => Some (RbState (nodes st) s s)
  | None => None
  end.

Definition ngx_rbtree_min (fuel : nat) (p s : loc) : rb loc :=
  loop fuel (fun p =>
    l ← rd left p;
    if decide (l = s) then mret (inr p) else mret (inl l)) p.

(** * Rotations *)

Definition ngx_rbtree_left_rotate (s p : loc) : rb unit :=
  temp ← rd right p;
  tl ← rd left temp;
  _ ← wr (set_right tl) p;
  _ ← (if decide (tl = s) then mret tt else wr (set_parent p) tl);
  pp ← rd parent p;
  _ ← wr (set_parent pp) temp;
  r ← get_root;
  _ ← (if decide (p = r) then set_root temp
       else ppl ← rd left pp;
            if decide (p = ppl) then wr (set_left temp) pp
            else wr (set_right temp) pp);
  _ ← wr (set_left p) temp;
  wr (set_parent temp) p.

Definition ngx_rbtree_right_rotate (s p : loc) : rb unit :=
  temp ← rd left p;
  tr ← rd right temp;
  _ ← wr (set_left tr) p;
  _ ← (if decide (tr = s) then mret tt else wr (set_parent p) tr);
  pp ← rd parent p;
  _ ← wr (set_parent pp) temp;
  r ← get_root;
  _ ← (if decide (p = r) then set_root temp
       else ppr ← rd right pp;
            if decide (p = ppr) then wr (set_right temp) pp
            else wr (set_left temp) pp);
  _ ← wr (set_right p) temp;
  wr (set_parent temp) p.

(** * Insertion *)

(** An insertion callback: root, new node and sentinel. *)
Definition ngx_rbtree_insert_pt : Type := loc -> loc -> loc -> rb unit.

(** The descent of the callbacks, which differ in the comparison [goes_left]
    of the new node with the current node. *)
Definition insert_descend (goes_left : loc -> loc -> rb bool) (fuel : nat) : ngx_rbtree_insert_pt :=
  fun temp p s =>
    '(temp, d) ← loop fuel (fun temp =>
      l ← goes_left p temp;
      let d := if (l : bool) then SLeft else SRight in
      c ← rd (child d) temp;
      if decide (c = s) then mret (inr (temp, d)) else mret (inl c)) temp;
    _ ← wr (set_child d p) temp;
    _ ← wr (set_parent temp) p;
    _ ← wr (set_left s) p;
    _ ← wr (set_right s) p;
    ngx_rbt_red p.

(** [node->key < temp->key] *)
Definition key_less (a b : Z) : bool := a <? b.
(** [(ngx_rbtree_key_int_t) (node->key - temp->key) < 0] *)
Definition timer_less (a b : Z) : bool := s32 (u32 (a - b)) <? 0.


(** The comparison of the keys of two nodes. *)
Definition keys_less (less : Z -> Z -> bool) (p temp : loc) : rb bool :=
  kp ← rd key p;
  kt ← rd key temp;
  mret (less kp kt).

Definition ngx_rbtree_insert_value : nat -> ngx_rbtree_insert_pt :=
  insert_descend (keys_less key_less).
Definition ngx_rbtree_insert_timer_value : nat -> ngx_rbtree_insert_pt :=
  insert_descend (keys_less timer_less).

(** The rotation towards side [d]. *)
Definition rotate (d : side) : loc -> loc -> rb unit :=
  match d with SLeft => ngx_rbtree_left_rotate | SRight => ngx_rbtree_right_rotate end.

(** One round of the re-balancing loop of ngx_rbtree_insert, for the branch
    where the parent is the [d] child of the grandparent. The two branches of
    the C loop are mirror images. *)
Definition insert_fix_side (s : loc) (d : side) (p : loc) : rb loc :=
  pp ← rd parent p;
  gp ← rd parent pp;
  temp ← rd (child (opp d)) gp;
  tr ← ngx_rbt_is_red temp;
  if (tr : bool) then
    _ ← ngx_rbt_black pp;
    _ ← ngx_rbt_black temp;
    _ ← ngx_rbt_red gp;
    mret gp
  else
    ppo ← rd (child (opp d)) pp;
    p ← (if decide (p = ppo) then
           _ ← rotate d s pp;
           mret pp
         else mret p);
    pp ← rd parent p;
    _ ← ngx_rbt_black pp;
    gp ← rd parent pp;
    _ ← ngx_rbt_red gp;
    _ ← rotate (opp d) s gp;
    mret p.

Definition insert_fixup (fuel : nat) (s p : loc) : rb unit :=
  loop fuel (fun p =>
    r ← get_root;
    if decide (p = r) then mret (inr tt) else
    pp ← rd parent p;
    pr ← ngx_rbt_is_red pp;
    if negb pr then mret (inr tt) else
    gp ← rd parent pp;
    gl ← rd left gp;
    p ← insert_fix_side s (if decide (pp = gl) then SLeft else SRight) p;
    mret (inl p)) p.

Definition ngx_rbtree_insert (ins : ngx_rbtree_insert_pt) (fuel : nat) (p : loc) : rb unit :=
  fun st =>
    let s := sentinel st in
    (r ← get_root;
     if decide (r = s) then
       _ ← wr (set_parent NULL) p;
       _ ← wr (set_left s) p;
       _ ← wr (set_right s) p;
       _ ← ngx_rbt_black p;
       set_root p
     else
       _ ← ins r p s;
       _ ← insert_fixup fuel s p;
       r ← get_root;
       ngx_rbt_black r) st.

(** * Deletion *)

(** [ngx_rbt_is_black(w->left) && ngx_rbt_is_black(w->right)] *)
Definition children_black (w : loc) : rb bool :=
  w_l ← rd left w;
  l_black ← ngx_rbt_is_black w_l;
  if (l_black : bool) then
    w_r ← rd right w;
    ngx_rbt_is_black w_r
  else mret false.

(** One round of the fix-up loop of ngx_rbtree_delete once the sibling [w] is
    black, for the branch where [temp] is the [d] child of its parent; the
    result is the next [temp]. *)
Definition delete_fix_black (s : loc) (d : side) (temp w : loc) : rb loc :=
  both ← children_black w;
  if (both : bool) then
    _ ← ngx_rbt_red w;
    rd parent temp
  else
    w_o ← rd (child (opp d)) w;
    o_black ← ngx_rbt_is_black w_o;
    w ← (if (o_black : bool) then
           w_d ← rd (child d) w;
           _ ← ngx_rbt_black w_d;
           _ ← ngx_rbt_red w;
           _ ← rotate (opp d) s w;
           tp ← rd parent temp;
           rd (child (opp d)) tp
         else mret w);
    tp ← rd parent temp;
    _ ← ngx_rbt_copy_color w tp;
    _ ← ngx_rbt_black tp;
    w_o ← rd (child (opp d)) w;
    _ ← ngx_rbt_black w_o;
    _ ← rotate d s tp;
    get_root.

(** A whole round: a red sibling is first rotated away. *)
Definition delete_fix_side (s : loc) (d : side) (temp : loc) : rb loc :=
  tp ← rd parent temp;
  w ← rd (child (opp d)) tp;
  w_red ← ngx_rbt_is_red w;
  w ← (if (w_red : bool) then
         _ ← ngx_rbt_black w;
         _ ← ngx_rbt_red tp;
         _ ← rotate d s tp;
         tp ← rd parent temp;
         rd (child (opp d)) tp
       else mret w);
  delete_fix_black s d temp w.

Definition delete_fixup (fuel : nat) (s temp : loc) : rb unit :=
  temp ← loop fuel (fun temp =>
    r ← get_root;
    if decide (temp = r) then mret (inr temp) else
    b ← ngx_rbt_is_black temp;
    if negb b then mret (inr temp) else
    tp ← rd parent temp;
    tl ← rd left tp;
    temp ← delete_fix_side s (if decide (temp = tl) then SLeft else SRight) temp;
    mret (inl temp)) temp;
  ngx_rbt_black temp.

(** The choice of the node to unlink, [subst], and of its only possible
    child, [temp]. *)
Definition delete_select (fuel : nat) (s p : loc) : rb (loc * loc) :=
  l ← rd left p;
  if decide (l = s) then
    r ← rd right p; mret (p, r)
  else
    r ← rd right p;
    if decide (r = s) then mret (p, l)
    else
      subst ← ngx_rbtree_min fuel r s;
      sl ← rd left subst;
      temp ← (if decide (sl = s) then rd right subst else rd left subst);
      mret (subst, temp).

(** The debug writes that erase the links of the deleted node. *)
Definition delete_erase (p : loc) : rb unit :=
  _ ← wr (set_left NULL) p;
  _ ← wr (set_right NULL) p;
  _ ← wr (set_parent NULL) p;
  wr (set_key 0) p.

(** [subst] takes the place, the links and the colour of [p]. *)
Definition delete_substitute (s p subst : loc) : rb unit :=
  nl ← rd left p;
  _ ← wr (set_left nl) subst;
  nr ← rd right p;
  _ ← wr (set_right nr) subst;
  np ← rd parent p;
  _ ← wr (set_parent np) subst;
  _ ← ngx_rbt_copy_color subst p;
  r ← get_root;
  _ ← (if decide (p = r) then set_root subst
       else
         npl ← rd left np;
         if decide (p = npl) then wr (set_left subst) np
         else wr (set_right subst) np);
  sl ← rd left subst;
  _ ← (if decide (sl = s) then mret tt else wr (set_parent subst) sl);
  sr ← rd right subst;
  if decide (sr = s) then mret tt else wr (set_parent subst) sr.

(** The part of ngx_rbtree_delete for a node [subst] that is not the root. *)
Definition delete_inner (fuel : nat) (s p subst temp : loc) : rb unit :=
  red ← ngx_rbt_is_red subst;
  sp ← rd parent subst;
  spl ← rd left sp;
  _ ← (if decide (subst = spl) then wr (set_left temp) sp
       else wr (set_right temp) sp);
  _ ← (if decide (subst = p) then wr (set_parent sp) temp
       else
         _ ← wr (set_parent (if decide (sp = p) then subst else sp)) temp;
         delete_substitute s p subst);
  _ ← delete_erase p;
  if (red : bool) then mret tt else delete_fixup fuel s temp.

Definition ngx_rbtree_delete (fuel : nat) (p : loc) : rb unit :=
  fun st =>
    let s := sentinel st in
    ('(subst, temp) ← delete_select fuel s p;
     r ← get_root;
     if decide (subst = r) then
       _ ← set_root temp;
       _ ← ngx_rbt_black temp;
       delete_erase p
     else delete_inner fuel s p subst temp) st.
