(* ===== verification/RbtreeRep.v ===== *)
(** Abstract trees of Rbtree.v: the tree a store represents, zippers, the
    red-black discipline, and the effect of the primitive pointer operations
    (recolouring, rotation) on the represented tree. *)
From S2P Require Import Prelude Store Rbtree.

(** * Abstract trees *)

(** The identity of a node: its address and the fields no operation moves. *)
Record item := Item { iloc : loc; ikey : Z; idata : Z }.

#[export] Instance item_eq_dec : EqDecision item.
Proof. solve_decision. Defined.

Inductive tree :=
| E
| T (l : tree) (i : item) (red : bool) (r : tree).

(** [mkT d a i c b]: the tree whose [d] child is [a] and other child [b]. *)
Definition mkT (d : side) (a : tree) (i : item) (c : bool) (b : tree) : tree :=
  match d with SLeft => T a i c b | SRight => T b i c a end.

Fixpoint inorder (t : tree) : list item :=
  match t with E => [] | T l i _ r => inorder l ++ i :: inorder r end.

Definition is_red (t : tree) : bool := match t with E => false | T _ _ c _ => c end.
Definition blacken (t : tree) : tree := match t with E => E | T l i _ r => T l i false r end.

(** A step of a zipper: the hole is the [d] child of node [i]. *)
Record frame := Frame { fside : side; fitem : item; fred : bool; fsib : tree }.
Abbreviation ctx := (list frame).

Definition fill (f : frame) (t : tree) : tree :=
  mkT (fside f) t (fitem f) (fred f) (fsib f).
Fixpoint plug (C : ctx) (t : tree) : tree :=
  match C with [] => t | f :: C => plug C (fill f t) end.

Fixpoint pre (C : ctx) : list item :=
  match C with
  | [] => []
  | f :: C => pre C ++ match fside f with
                       | SLeft => []
                       | SRight => inorder (fsib f) ++ [fitem f]
                       end
  end.
Fixpoint post (C : ctx) : list item :=
  match C with
  | [] => []
  | f :: C => match fside f with
              | SLeft => fitem f :: inorder (fsib f)
              | SRight => []
              end ++ post C
  end.

Lemma inorder_plug C t : inorder (plug C t) = pre C ++ inorder t ++ post C.
Proof.
  revert t. induction C as [|[[] i c sib] C IH]; intros t; simpl.
  - by rewrite app_nil_r.
  - rewrite IH. simpl. by rewrite app_nil_r, <- !app_assoc.
  - rewrite IH. simpl. by rewrite <- !app_assoc.
Qed.

Lemma plug_app C C' t : plug (C ++ C') t = plug C' (plug C t).
Proof. revert t. induction C as [|f C IH]; intros t; simpl; auto. Qed.

Lemma inorder_mkT d a i c b :
  inorder (mkT d a i c b) =
  match d with SLeft => inorder a ++ i :: inorder b | SRight => inorder b ++ i :: inorder a end.
Proof. by destruct d. Qed.

Lemma inorder_rotate d a x cx cx' b y cy cy' c :
  inorder (mkT d a x cx (mkT d b y cy c)) = inorder (mkT d (mkT d a x cx' b) y cy' c).
Proof. destruct d; simpl; by rewrite <- app_assoc. Qed.

(** * Representation in a store *)

Definition loc_of (s : loc) (t : tree) : loc :=
  match t with E => s | T _ i _ _ => iloc i end.

(** The node object of a tree node. *)
Definition obj (i : item) (l r par : loc) (c : bool) : node :=
  Node (ikey i) l r par (if c then 1 else 0) (idata i).
Definition objd (d : side) (i : item) (a b par : loc) (c : bool) : node :=
  match d with SLeft => obj i a b par c | SRight => obj i b a par c end.

Section rep.
Variable (m : gmap loc node) (s : loc).

Fixpoint rep (t : tree) (par : loc) : Prop :=
  match t with
  | E => True
  | T l i c r =>
      m !! iloc i = Some (obj i (loc_of s l) (loc_of s r) par c) /\
      rep l (iloc i) /\ rep r (iloc i)
  end.

Definition par_of (par0 : loc) (C : ctx) : loc :=
  match C with [] => par0 | f :: _ => iloc (fitem f) end.

(** The nodes of the path, whose hole holds the address [h]. *)
Fixpoint repc (par0 : loc) (C : ctx) (h : loc) : Prop :=
  match C with
  | [] => True
  | f :: C =>
      m !! iloc (fitem f) =
        Some (objd (fside f) (fitem f) h (loc_of s (fsib f)) (par_of par0 C) (fred f)) /\
      rep (fsib f) (iloc (fitem f)) /\
      repc par0 C (iloc (fitem f))
  end.

Lemma rep_mkT d a i c b par :
  rep (mkT d a i c b) par <->
  m !! iloc i = Some (objd d i (loc_of s a) (loc_of s b) par c) /\
  rep a (iloc i) /\ rep b (iloc i).
Proof. destruct d; simpl; tauto. Qed.

Lemma loc_of_mkT d a i c b : loc_of s (mkT d a i c b) = iloc i.
Proof. by destruct d. Qed.

Lemma rep_plug par0 C t :
  rep (plug C t) par0 <-> rep t (par_of par0 C) /\ repc par0 C (loc_of s t).
Proof.
  revert t. induction C as [|f C IH]; intros t; simpl; [tauto|].
  rewrite IH. unfold fill. rewrite rep_mkT, loc_of_mkT. simpl. tauto.
Qed.
End rep.

Lemma loc_of_plug s C t t' :
  loc_of s t = loc_of s t' -> loc_of s (plug C t) = loc_of s (plug C t').
Proof.
  revert t t'. induction C as [|f C IH]; intros t t' H; simpl; [done|].
  apply IH. unfold fill. by rewrite !loc_of_mkT.
Qed.

Lemma loc_of_plug_cons s f C t :
  exists i, loc_of s (plug (f :: C) t) = iloc i /\ i ∈ fitem <$> f :: C.
Proof.
  revert f t. induction C as [|g C IH]; intros f t.
  - exists (fitem f). simpl. unfold fill. rewrite loc_of_mkT. set_solver.
  - destruct (IH g (fill f t)) as (i & Hi & Hin). exists i. split; [exact Hi|set_solver].
Qed.

Definition locs (t : tree) : list loc := iloc <$> inorder t.
Fixpoint clocs (C : ctx) : list loc :=
  match C with [] => [] | f :: C => iloc (fitem f) :: locs (fsib f) ++ clocs C end.

Lemma locs_mkT d a i c b x : x ∈ locs (mkT d a i c b) <-> x = iloc i \/ x ∈ locs a \/ x ∈ locs b.
Proof. unfold locs. destruct d; simpl; rewrite fmap_app; set_solver. Qed.

Lemma locs_plug C t : locs (plug C t) ≡ₚ locs t ++ clocs C.
Proof.
  revert t. induction C as [|f C IH]; intros t; simpl; [by rewrite app_nil_r|].
  rewrite IH. unfold fill, locs. rewrite inorder_mkT.
  destruct (fside f); rewrite fmap_app, fmap_cons; solve_Permutation.
Qed.

Lemma locs_mkT_perm d a i c b : locs (mkT d a i c b) ≡ₚ iloc i :: locs a ++ locs b.
Proof.
  unfold locs. rewrite inorder_mkT. destruct d; rewrite fmap_app, fmap_cons; solve_Permutation.
Qed.

Lemma clocs_items C i : i ∈ fitem <$> C -> iloc i ∈ clocs C.
Proof. induction C as [|f C IH]; simpl; set_solver. Qed.

Lemma locs_T_perm l i c r : locs (T l i c r) ≡ₚ iloc i :: locs l ++ locs r.
Proof. apply (locs_mkT_perm SLeft). Qed.

Lemma loc_of_ne s t x : x ∉ locs t -> s <> x -> loc_of s t <> x.
Proof.
  destruct t as [|l i c r]; simpl; [done|]. rewrite locs_T_perm, not_elem_of_cons. intuition congruence.
Qed.

Section frame_lemmas.
Context (m m' : gmap loc node) (s : loc).

Lemma rep_frame t par :
  (forall x, x ∈ locs t -> m' !! x = m !! x) -> rep m s t par -> rep m' s t par.
Proof.
  unfold locs. revert par. induction t as [|l IHl i c r IHr]; intros par H; simpl; [done|].
  simpl in H. rewrite fmap_app in H. intros (? & ? & ?).
  rewrite H by set_solver. split_and!; [done| |].
  - apply IHl; [|done]. intros; apply H; set_solver.
  - apply IHr; [|done]. intros; apply H; set_solver.
Qed.

Lemma repc_frame par0 C h :
  (forall x, x ∈ clocs C -> m' !! x = m !! x) -> repc m s par0 C h -> repc m' s par0 C h.
Proof.
  revert h. induction C as [|f C IH]; intros h H; simpl; [done|].
  simpl in H. intros (? & ? & ?). rewrite H by set_solver. split_and!; [done| |].
  - eapply rep_frame; [|done]. intros; apply H; set_solver.
  - apply IH; [|done]. intros; apply H; set_solver.
Qed.
End frame_lemmas.

(** What the operations may touch: the sentinel, the addresses of the tree and
    of the nodes handed to it ([owned]), and the rest of the store, [others]. *)
Record env := Env { esent : loc; owned : list loc; others : gmap loc node }.

(** [tree_at e st sn par0 t]: the state [st] represents the tree [t]. [sn] is
    the sentinel object; [par0] is the [parent] field of the root, which the
    code never reads; nothing outside [owned] differs from [others]. *)
Record tree_at (e : env) (st : rbstate) (sn : node) (par0 : loc) (t : tree) : Prop := TreeAt {
  ta_sent : sentinel st = esent e;
  ta_root : root st = loc_of (esent e) t;
  ta_rep : rep (nodes st) (esent e) t par0;
  ta_nodup : NoDup (locs t);
  ta_owned : forall x, x ∈ locs t -> x ∈ owned e;
  ta_fresh : esent e ∉ locs t;
  ta_sent_owned : esent e ∈ owned e;
  ta_sentinel : nodes st !! esent e = Some sn;
  ta_black : color sn = 0;
  ta_others : forall x, x ∉ owned e -> nodes st !! x = others e !! x;
}.

(** The red-black discipline: [rbt t c n] - [t] has root colour [c], black
    height [n], and no red node has a red child. *)
Inductive rbt : tree -> bool -> nat -> Prop :=
| rbt_E : rbt E false 0
| rbt_red l i r n : rbt l false n -> rbt r false n -> rbt (T l i true r) true n
| rbt_black l i r n cl cr :
    rbt l cl n -> rbt r cr n -> rbt (T l i false r) false (S n).

(** A context whose hole may hold a tree of black height [n]. *)
Definition black_top (C : ctx) : Prop := match C with f :: _ => fred f = false | [] => False end.
Inductive ctx_ok : ctx -> nat -> Prop :=
| ctx_nil n : ctx_ok [] n
| ctx_red d i sib C n :
    rbt sib false n -> ctx_ok C n -> black_top C -> ctx_ok (Frame d i true sib :: C) n
| ctx_black d i sib C n cs :
    rbt sib cs n -> ctx_ok C (S n) -> ctx_ok (Frame d i false sib :: C) n.

Lemma rbt_mkT_red d a i b n : rbt a false n -> rbt b false n -> rbt (mkT d a i true b) true n.
Proof. destruct d; by constructor. Qed.
Lemma rbt_mkT_black d a i b n ca cb :
  rbt a ca n -> rbt b cb n -> rbt (mkT d a i false b) false (S n).
Proof. destruct d; by econstructor. Qed.
Lemma rbt_color t c n : rbt t c n -> is_red t = c.
Proof. by inversion 1. Qed.
Lemma rbt_blacken t c n : rbt t c n -> exists n', rbt (blacken t) false n'.
Proof. inversion 1; subst; simpl; eauto using rbt. Qed.

Create HintDb rbt discriminated.
#[export] Hint Constructors rbt ctx_ok : rbt.
#[export] Hint Resolve rbt_mkT_red rbt_mkT_black : rbt.

(** Plugging a tree into a context it fits. *)
Lemma rbt_plug C t c n :
  rbt t c n -> ctx_ok C n -> (c = true -> black_top C) -> exists n', rbt (plug C t) false n'.
Proof.
  intros Ht HC. revert t c Ht. induction HC as [n|d i sib C n Hs HC IH Hb|d i sib C n cs Hs HC IH];
    intros t c Ht Hc; simpl; unfold fill; simpl.
  - destruct c; [by destruct Hc|eauto].
  - destruct c; [by specialize (Hc eq_refl)|]. apply (IH _ true); eauto with rbt.
  - apply (IH _ false); eauto with rbt. done.
Qed.

(** * Heights *)

Fixpoint height (t : tree) : nat :=
  match t with E => 0 | T l _ _ r => S (Nat.max (height l) (height r)) end.
Fixpoint size (t : tree) : nat :=
  match t with E => 0 | T l _ _ r => S (size l + size r) end.

Lemma size_inorder t : length (inorder t) = size t.
Proof. induction t; simpl; [done|]. rewrite length_app; simpl. lia. Qed.

Lemma rbt_size t c n : rbt t c n -> (2 ^ n <= S (size t))%nat.
Proof. induction 1; simpl; lia. Qed.

Lemma rbt_height t c n : rbt t c n -> (height t <= 2 * n + (if c then 1 else 0))%nat.
Proof. induction 1; simpl; try lia. destruct cl, cr; lia. Qed.

Lemma rbt_height_log t c n :
  rbt t c n -> (height t <= 2 * Nat.log2 (S (size t)) + 1)%nat.
Proof.
  intros H. pose proof (rbt_height _ _ _ H). pose proof (rbt_size _ _ _ H) as Hs.
  apply Nat.log2_le_mono in Hs. rewrite Nat.log2_pow2 in Hs by lia. destruct c; lia.
Qed.

Lemma plug_height C t : (length C + height t <= height (plug C t))%nat.
Proof.
  revert t. induction C as [|f C IH]; intros t; simpl; [lia|].
  etrans; [|apply IH]. unfold fill, mkT. destruct (fside f); simpl; lia.
Qed.

(** * Reading and writing a represented tree *)

Lemma ta_facts e st sn par0 t L :
  tree_at e st sn par0 t -> locs t ≡ₚ L -> NoDup L /\ esent e ∉ L.
Proof.
  intros H HL. split; [eapply NoDup_Permutation_proper; [symmetry; exact HL|]|rewrite <- HL];
    apply H.
Qed.

(** Normal form of a list of addresses: its trees' nodes, up to order. *)
Ltac perm_tac :=
  rewrite ?locs_plug, ?locs_mkT_perm, ?locs_T_perm; cbn [clocs fitem fsib];
  rewrite ?locs_mkT_perm, ?locs_T_perm; try change (locs E) with (@nil loc); solve_Permutation.

(** Pairwise distinctness of the addresses of [L], a reordering of the nodes of
    the tree of [H], as separate hypotheses. *)
Ltac tree_facts H L :=
  let N := fresh "Hnd" in let F := fresh "Hfresh" in
  destruct (ta_facts _ _ _ _ _ L H ltac:(perm_tac)) as [N F];
  repeat (rewrite NoDup_cons in N);
  rewrite ?not_elem_of_cons, ?not_elem_of_app in N;
  rewrite ?not_elem_of_cons, ?not_elem_of_app in F;
  destruct_and? N; destruct_and? F.

(** Split the absence of an address from the nodes of a tree. *)
Ltac split_notin Hx :=
  rewrite ?locs_plug, ?locs_mkT_perm, ?locs_T_perm in Hx;
  cbn [clocs fitem fsib] in Hx; rewrite ?locs_mkT_perm, ?locs_T_perm in Hx;
  repeat first [rewrite not_elem_of_cons in Hx | rewrite not_elem_of_app in Hx];
  destruct_and? Hx.

(** The store agrees with its update outside the updated addresses. *)
Ltac frame_tac :=
  let x := fresh "x" in let Hx := fresh "Hx" in
  intros x Hx; split_notin Hx;
  rewrite ?lookup_insert_ne by congruence; done.

(** Symbolic execution of pointer code on a store written as a chain of
    insertions; [neq] facts come from the context. *)
Ltac lookup_tac :=
  cbn [mem_of set_mem rbstate_has_mem nodes root sentinel];
  repeat match goal with
  | |- <[?i := _]> _ !! ?i = _ => rewrite lookup_insert_eq; reflexivity
  | |- <[?i := _]> _ !! ?j = _ =>
      rewrite lookup_insert_ne by congruence
  end; eassumption.

Ltac run1 :=
  cbn beta iota;
  match goal with
  | |- wp (mbind _ _) _ _ => apply wp_bind
  | |- wp (mret _) _ _ => apply wp_ret
  | |- wp (rd _ _) _ _ => eapply wp_rd; [lookup_tac|cbn]
  | |- wp (wr _ _) _ _ => eapply wp_wr; [lookup_tac|cbn]
  | |- wp get_root _ _ => unfold wp at 1; cbn [get_root root]
  | |- wp (set_root _) _ _ => unfold wp at 1; cbn [set_root]
  | |- wp (if decide ?P then _ else _) _ _ =>
      let Hd := fresh "Hd" in
      destruct (decide P) as [Hd|Hd];
      [try (exfalso; congruence)|try (exfalso; congruence)]
  end.
Ltac run := repeat run1.

Section access.
Context (e : env).

(** Rebuilding the invariant after an operation that keeps the set of nodes
    and writes to nodes of the tree only. *)
Lemma tree_at_update st sn par0 t st' par0' t' :
  tree_at e st sn par0 t -> locs t' ≡ₚ locs t ->
  sentinel st' = sentinel st -> root st' = loc_of (esent e) t' ->
  rep (nodes st') (esent e) t' par0' ->
  (forall x, x ∉ locs t -> nodes st' !! x = nodes st !! x) ->
  tree_at e st' sn par0' t'.
Proof.
  intros [Hs Hr _ Hnd Ho Hf Hso Hsn Hblk Hoth] Hp Hs' Hr' Hrep Hfr.
  constructor; rewrite ?Hs', ?Hp; auto.
  - setoid_rewrite Hp. done.
  - by rewrite Hfr.
  - intros x Hx. rewrite Hfr; auto.
Qed.

Lemma ta_focus st sn par0 C t :
  tree_at e st sn par0 (plug C t) ->
  rep (nodes st) (esent e) t (par_of par0 C) /\
  repc (nodes st) (esent e) par0 C (loc_of (esent e) t).
Proof. intros H. apply rep_plug, (ta_rep _ _ _ _ _ H). Qed.

Lemma ta_node st sn par0 C d a i c b :
  tree_at e st sn par0 (plug C (mkT d a i c b)) ->
  nodes st !! iloc i =
    Some (objd d i (loc_of (esent e) a) (loc_of (esent e) b) (par_of par0 C) c).
Proof. intros H%ta_focus. destruct H as [[? ?]%rep_mkT ?]. done. Qed.

(** Any subtree root, the sentinel included, has the colour of the tree. *)
Lemma ta_color st sn par0 C t :
  tree_at e st sn par0 (plug C t) ->
  exists n, nodes st !! loc_of (esent e) t = Some n /\
            color n = if is_red t then 1 else 0.
Proof.
  intros H. destruct t as [|l i c r]; simpl.
  - eexists. split; [apply (ta_sentinel _ _ _ _ _ H)|apply (ta_black _ _ _ _ _ H)].
  - eexists. split; [apply (ta_node _ _ _ C SLeft l i c r H)|done].
Qed.

Lemma loc_of_sent_inv st sn par0 C t :
  tree_at e st sn par0 (plug C t) -> loc_of (esent e) t = esent e -> t = E.
Proof.
  intros H. destruct t as [|l i c r]; [done|]. simpl. intros Heq. exfalso.
  apply (ta_fresh _ _ _ _ _ H). rewrite locs_plug. unfold locs. simpl.
  rewrite fmap_app. set_solver.
Qed.

Lemma wp_is_red st sn par0 C t p (Q : bool -> rbstate -> Prop) :
  tree_at e st sn par0 (plug C t) -> p = loc_of (esent e) t ->
  Q (is_red t) st -> wp (ngx_rbt_is_red p) Q st.
Proof.
  intros H -> HQ. destruct (ta_color _ _ _ _ _ H) as (n & Hn & Hc).
  eapply wp_rd; [exact Hn|]. rewrite Hc. by destruct (is_red t).
Qed.

Lemma wp_is_black st sn par0 C t p (Q : bool -> rbstate -> Prop) :
  tree_at e st sn par0 (plug C t) -> p = loc_of (esent e) t ->
  Q (negb (is_red t)) st -> wp (ngx_rbt_is_black p) Q st.
Proof. intros H -> HQ. apply wp_bind. eapply wp_is_red; eauto. Qed.

Lemma wp_get_root st sn par0 t (Q : loc -> rbstate -> Prop) :
  tree_at e st sn par0 t -> Q (loc_of (esent e) t) st -> wp get_root Q st.
Proof. intros H HQ. unfold wp, get_root. by rewrite (ta_root _ _ _ _ _ H). Qed.

(** Recolouring the node in focus. *)
Lemma wp_recolor st sn par0 C d a i c (c' : bool) b p v (Q : unit -> rbstate -> Prop) :
  tree_at e st sn par0 (plug C (mkT d a i c b)) ->
  p = iloc i -> v = (if c' then 1 else 0) ->
  (forall st', tree_at e st' sn par0 (plug C (mkT d a i c' b)) -> Q tt st') ->
  wp (wr (set_color v) p) Q st.
Proof.
  intros H -> -> HQ. pose proof (ta_node _ _ _ _ _ _ _ _ _ H) as Hn.
  eapply wp_wr; [exact Hn|]. apply HQ. clear HQ.
  tree_facts H (iloc i :: locs a ++ locs b ++ clocs C).
  destruct (ta_focus _ _ _ _ _ H) as [(_ & Ha & Hb)%rep_mkT HC]. rewrite loc_of_mkT in HC.
  eapply tree_at_update; [exact H|..]; simpl.
  - by rewrite !locs_plug, !locs_mkT_perm.
  - done.
  - rewrite (ta_root _ _ _ _ _ H). apply loc_of_plug. by rewrite !loc_of_mkT.
  - apply rep_plug. rewrite rep_mkT, loc_of_mkT. split_and!.
    + rewrite lookup_insert_eq. by destruct d.
    + eapply rep_frame; [|done]. frame_tac.
    + eapply rep_frame; [|done]. frame_tac.
    + eapply repc_frame; [|done]. frame_tac.
  - frame_tac.
Qed.

(** The root of the whole tree is not a node strictly below the top. *)
Lemma root_not_focus st sn par0 f C d a x c b :
  tree_at e st sn par0 (plug (f :: C) (mkT d a x c b)) ->
  loc_of (esent e) (plug (f :: C) (mkT d a x c b)) <> iloc x.
Proof.
  intros H Heq. destruct (loc_of_plug_cons (esent e) f C (mkT d a x c b)) as (i & Hi & Hin).
  apply clocs_items in Hin. rewrite Hi in Heq.
  tree_facts H (iloc x :: locs a ++ locs b ++ clocs (f :: C)). congruence.
Qed.

Ltac rotate_run H HQ :=
  cbn -[plug] in *; unfold ngx_rbtree_left_rotate, ngx_rbtree_right_rotate; run;
  apply HQ; eapply tree_at_update;
  [exact H|perm_tac|done
  |cbn -[plug]; first [done | congruence
                      | etrans; [eassumption|]; cbn [plug]; apply loc_of_plug;
                        unfold fill; by rewrite !loc_of_mkT]
  |rewrite rep_plug; cbn; split_and!;
   first [done | lookup_tac | eapply rep_frame; [|eassumption]; cbn; frame_tac
         | eapply repc_frame; [|eassumption]; cbn; frame_tac]
  |cbn -[plug]; frame_tac].

(** Rotation of the node in focus towards side [d]. *)
Lemma wp_rotate st sn par0 C d a x cx b y cy c s p (Q : unit -> rbstate -> Prop) :
  tree_at e st sn par0 (plug C (mkT d a x cx (mkT d b y cy c))) ->
  s = esent e -> p = iloc x ->
  (forall st', tree_at e st' sn par0 (plug C (mkT d (mkT d a x cx b) y cy c)) -> Q tt st') ->
  wp (rotate d s p) Q st.
Proof.
  intros H -> -> HQ.
  destruct (ta_focus _ _ _ _ _ H) as [(Hx & Ha & (Hy & Hb & Hc)%rep_mkT)%rep_mkT HC].
  rewrite loc_of_mkT in Hx, HC.
  pose proof (ta_root _ _ _ _ _ H) as Hroot.
  destruct C as [|[df fi fc fs] C], b as [|bl bi bc br].
  - tree_facts H (iloc x :: iloc y :: locs a ++ locs c).
    assert (root st = iloc x) by (rewrite Hroot; simpl; apply loc_of_mkT).
    destruct d; rotate_run H HQ.
  - destruct Hb as (Hb & Hbl & Hbr).
    tree_facts H (iloc x :: iloc y :: iloc bi :: locs a ++ locs bl ++ locs br ++ locs c).
    assert (root st = iloc x) by (rewrite Hroot; simpl; apply loc_of_mkT).
    destruct d; rotate_run H HQ.
  - destruct HC as (Hf & Hfs & HC).
    tree_facts H (iloc x :: iloc y :: iloc fi :: locs a ++ locs c ++ locs fs ++ clocs C).
    assert (root st <> iloc x) by (rewrite Hroot; eapply root_not_focus; exact H).
    assert (loc_of (esent e) fs <> iloc x) by (apply loc_of_ne; done).
    destruct d, df; rotate_run H HQ.
  - destruct Hb as (Hb & Hbl & Hbr). destruct HC as (Hf & Hfs & HC).
    tree_facts H (iloc x :: iloc y :: iloc fi :: iloc bi :: locs a ++ locs bl ++ locs br
                  ++ locs c ++ locs fs ++ clocs C).
    assert (root st <> iloc x) by (rewrite Hroot; eapply root_not_focus; exact H).
    assert (loc_of (esent e) fs <> iloc x) by (apply loc_of_ne; done).
    destruct d, df; rotate_run H HQ.
Qed.

(** Reading the links of the node in focus. *)
Lemma wp_rd_parent st sn par0 C d a i c b p (Q : loc -> rbstate -> Prop) :
  tree_at e st sn par0 (plug C (mkT d a i c b)) -> p = iloc i ->
  Q (par_of par0 C) st -> wp (rd parent p) Q st.
Proof.
  intros H -> HQ. eapply wp_rd; [exact (ta_node _ _ _ _ _ _ _ _ _ H)|]. by destruct d.
Qed.

Lemma wp_rd_child st sn par0 C d a i c b p (Q : loc -> rbstate -> Prop) :
  tree_at e st sn par0 (plug C (mkT d a i c b)) -> p = iloc i ->
  Q (loc_of (esent e) a) st -> wp (rd (child d) p) Q st.
Proof.
  intros H -> HQ. eapply wp_rd; [exact (ta_node _ _ _ _ _ _ _ _ _ H)|]. by destruct d.
Qed.

Lemma wp_rd_other st sn par0 C d a i c b p (Q : loc -> rbstate -> Prop) :
  tree_at e st sn par0 (plug C (mkT d a i c b)) -> p = iloc i ->
  Q (loc_of (esent e) b) st -> wp (rd (child (opp d)) p) Q st.
Proof.
  intros H -> HQ. eapply wp_rd; [exact (ta_node _ _ _ _ _ _ _ _ _ H)|]. by destruct d.
Qed.

Lemma wp_rd_key st sn par0 C d a i c b p (Q : Z -> rbstate -> Prop) :
  tree_at e st sn par0 (plug C (mkT d a i c b)) -> p = iloc i ->
  Q (ikey i) st -> wp (rd key p) Q st.
Proof.
  intros H -> HQ. eapply wp_rd; [exact (ta_node _ _ _ _ _ _ _ _ _ H)|]. by destruct d.
Qed.

Lemma wp_rd_color st sn par0 C d a i c b p (Q : Z -> rbstate -> Prop) :
  tree_at e st sn par0 (plug C (mkT d a i c b)) -> p = iloc i ->
  Q (if c then 1 else 0) st -> wp (rd color p) Q st.
Proof.
  intros H -> HQ. eapply wp_rd; [exact (ta_node _ _ _ _ _ _ _ _ _ H)|]. by destruct d.
Qed.

(** Two nodes of one tree in different places have different addresses. *)
Lemma focus_root_inv st sn par0 C d a i c b :
  tree_at e st sn par0 (plug C (mkT d a i c b)) ->
  iloc i = loc_of (esent e) (plug C (mkT d a i c b)) -> C = [].
Proof.
  intros H Heq. destruct C as [|f C]; [done|]. exfalso.
  eapply root_not_focus; [exact H|done].
Qed.

(** Which child of its parent the focus is. *)
Lemma focus_side st sn par0 d f C t :
  fside f = d -> tree_at e st sn par0 (plug (f :: C) t) ->
  loc_of (esent e) (match d with SLeft => t | SRight => fsib f end) =
  loc_of (esent e) t -> d = SLeft \/ t = E.
Proof.
  intros Hd H Heq. destruct d; [by left|right].
  destruct t as [|l i c r]; [done|exfalso]. simpl in Heq.
  tree_facts H (iloc i :: iloc (fitem f) :: locs (fsib f) ++ locs l ++ locs r ++ clocs C).
  eapply loc_of_ne; [| |exact Heq]; done.
Qed.
End access.

Lemma mkT_opp d a i c b : mkT d a i c b = mkT (opp d) b i c a.
Proof. by destruct d. Qed.
Lemma opp_opp d : opp (opp d) = d.
Proof. by destruct d. Qed.
Lemma plug_other d i c sib C t :
  plug (Frame d i c sib :: C) t = plug (Frame (opp d) i c t :: C) sib.
Proof. simpl. unfold fill. simpl. by rewrite mkT_opp. Qed.
Lemma plug_up d i c sib C t : plug (Frame d i c sib :: C) t = plug C (mkT d t i c sib).
Proof. done. Qed.

(** Equality of in-order listings of plugged trees. *)
Ltac inorder_tac :=
  rewrite ?plug_up, ?inorder_plug;
  repeat match goal with d : side |- _ => destruct d end;
  cbn; repeat (rewrite <- app_assoc; cbn); rewrite ?app_nil_r; reflexivity.

(** One access of a represented tree: [H] is its representation. *)
Ltac step_with lem H := apply wp_bind; eapply lem; [exact H|done|]; cbn [par_of fitem].
Ltac recolor_with c H :=
  apply wp_bind; eapply (wp_recolor _ _ _ _ _ _ _ _ _ c); [exact H|done|done|].
