(* ===== verification/RbtreeInsert.v ===== *)
(** ngx_rbtree_insert keeps the red-black discipline and adds its node at the
    place its callback chooses. *)
From stdpp Require Import sorting.
From S2P Require Import Prelude Store Rbtree RbtreeRep.

(** * Re-balancing *)

Section fixup.
Context (e : env) (sn : node) (par0 : loc).
Abbreviation s := (esent e).
Abbreviation at_ st t := (tree_at e st sn par0 t).

(** The loop invariant of the re-balancing loop: everything is in order but
    for the colour of the parent of the red node [p]. *)
Definition fix_inv (L : list item) (k : nat) (p : loc) (st : rbstate) : Prop :=
  exists C l i r n,
    at_ st (plug C (T l i true r)) /\ p = iloc i /\
    rbt l false n /\ rbt r false n /\ ctx_ok C n /\
    k = length C /\ inorder (plug C (T l i true r)) = L.

Lemma fix_inv_intro L st d C a i b n :
  at_ st (plug C (mkT d a i true b)) -> rbt a false n -> rbt b false n -> ctx_ok C n ->
  inorder (plug C (mkT d a i true b)) = L -> fix_inv L (length C) (iloc i) st.
Proof. intros. destruct d; [exists C, a, i, b, n|exists C, b, i, a, n]; by split_and!. Qed.

(** The uncle is red: recolour and move up to the grandparent. *)
Lemma fix_red_uncle L st d d1 l i r n p psib ga g u gb C :
  at_ st (plug C (mkT d (mkT d1 (T l i true r) p true psib) g false (T ga u true gb))) ->
  rbt (T l i true r) true n -> rbt psib false n ->
  rbt (T ga u true gb) true n -> ctx_ok C (S n) ->
  inorder (plug C (mkT d (mkT d1 (T l i true r) p true psib) g false (T ga u true gb))) = L ->
  wp (insert_fix_side s d (iloc i)) (fix_inv L (length C)) st.
Proof.
  intros H HX Hp Hg HC HL. unfold insert_fix_side.
  assert (at_ st (plug (Frame d1 p true psib :: Frame d g false (T ga u true gb) :: C)
                    (mkT SLeft l i true r))) as H0 by exact H.
  assert (at_ st (plug (Frame d g false (T ga u true gb) :: C)
                    (mkT d1 (T l i true r) p true psib))) as H1 by exact H.
  step_with wp_rd_parent H0.
  step_with wp_rd_parent H1.
  step_with wp_rd_other H.
  assert (at_ st (plug (Frame (opp d) g false (mkT d1 (T l i true r) p true psib) :: C)
                    (T ga u true gb))) as H2 by (rewrite plug_up, <- mkT_opp; exact H).
  step_with wp_is_red H2.
  recolor_with false H1.
  clear st H H0 H1 H2. intros st H.
  assert (at_ st (plug (Frame (opp d) g false (mkT d1 (T l i true r) p false psib) :: C)
                    (mkT SLeft ga u true gb))) as H2 by (rewrite plug_up, <- mkT_opp; exact H).
  recolor_with false H2.
  clear st H H2. intros st H. rewrite plug_up, <- mkT_opp in H.
  recolor_with true H.
  clear st H. intros st H. apply wp_ret.
  inversion Hg; subst.
  eapply fix_inv_intro; [exact H|by eauto with rbt..|exact HC|].
  inorder_tac.
Qed.

(** The uncle is black and the node an outer child: one rotation. *)
Lemma fix_outer L st d X p psib g gsib n C :
  at_ st (plug C (mkT d (mkT d X p true psib) g false gsib)) ->
  rbt X true n -> rbt psib false n -> rbt gsib false n -> ctx_ok C (S n) ->
  inorder (plug C (mkT d (mkT d X p true psib) g false gsib)) = L ->
  wp (pp ← rd parent (loc_of s X);
      _ ← ngx_rbt_black pp;
      gp ← rd parent pp;
      _ ← ngx_rbt_red gp;
      _ ← rotate (opp d) s gp;
      mret (loc_of s X)) (fix_inv L (S (length C))) st.
Proof.
  intros H HX Hp Hg HC HL. inversion HX as [|l i r m Hl Hr|]; subst.
  assert (at_ st (plug (Frame d p true psib :: Frame d g false gsib :: C)
                    (mkT SLeft l i true r))) as H0 by exact H.
  assert (at_ st (plug (Frame d g false gsib :: C)
                    (mkT d (T l i true r) p true psib))) as H1 by exact H.
  step_with wp_rd_parent H0.
  recolor_with false H1.
  clear H0 H1 H. clear st. intros st H.
  step_with wp_rd_parent H. rewrite plug_up in H.
  recolor_with true H.
  clear st H. intros st H. rewrite mkT_opp, (mkT_opp d _ p) in H.
  apply wp_bind. eapply wp_rotate; [exact H|done|done|].
  clear st H. intros st H. apply wp_ret.
  change (S (length C)) with (length (Frame d p false (mkT d psib g true gsib) :: C)).
  eapply (fix_inv_intro _ _ SLeft _ l i r n); [|done..| |].
  - rewrite plug_up, mkT_opp, (mkT_opp d _ g). exact H.
  - eauto with rbt.
  - inorder_tac.
Qed.

(** The uncle is black. *)
Lemma fix_black_uncle L st d d1 X p psib g gsib n C :
  at_ st (plug C (mkT d (mkT d1 X p true psib) g false gsib)) ->
  rbt X true n -> rbt psib false n -> rbt gsib false n -> ctx_ok C (S n) ->
  inorder (plug C (mkT d (mkT d1 X p true psib) g false gsib)) = L ->
  wp (insert_fix_side s d (loc_of s X)) (fix_inv L (S (length C))) st.
Proof.
  intros H HX Hp Hg HC HL. unfold insert_fix_side.
  inversion HX as [|l i r m Hl Hr|]; subst.
  assert (at_ st (plug (Frame d1 p true psib :: Frame d g false gsib :: C)
                    (mkT SLeft l i true r))) as H0 by exact H.
  assert (at_ st (plug (Frame d g false gsib :: C)
                    (mkT d1 (T l i true r) p true psib))) as H1 by exact H.
  assert (at_ st (plug (Frame (opp d) g false (mkT d1 (T l i true r) p true psib) :: C)
                    gsib)) as H2 by (rewrite plug_up, <- mkT_opp; exact H).
  step_with wp_rd_parent H0.
  step_with wp_rd_parent H1.
  step_with wp_rd_other H.
  step_with wp_is_red H2. rewrite (rbt_color _ _ _ Hg).
  destruct (decide (d1 = d)) as [->|Hd].
  - (* outer child *)
    step_with wp_rd_other H1.
    apply wp_bind. rewrite decide_False.
    + apply wp_ret. by eapply (fix_outer _ _ _ (T l i true r)); [exact H|..].
    + tree_facts H0 (iloc i :: iloc p :: iloc g :: locs l ++ locs r ++ locs psib ++ locs gsib ++ clocs C).
      intros Heq. by apply (loc_of_ne s psib (iloc i)).
  - (* inner child *)
    assert (d1 = opp d) as -> by (by destruct d, d1).
    step_with wp_rd_child H1.
    apply wp_bind. rewrite decide_True by done.
    assert (exists a b, T l i true r = mkT d a i true b /\ rbt a false n /\ rbt b false n)
      as (a & b & Hab & Ha & Hb) by (destruct d; [exists l, r|exists r, l]; done).
    rewrite Hab in *. rewrite <- mkT_opp in H1.
    apply wp_bind. eapply wp_rotate; [exact H1|done|done|]. clear H H0 H1 H2. clear st. intros st H. apply wp_ret.
    assert (loc_of s (mkT d psib p true a) = iloc p) as <- by apply loc_of_mkT.
    eapply (fix_outer _ _ d _ i b g gsib n C); [|by eauto with rbt..|inorder_tac]. 
    exact H.
Qed.

Lemma is_left_child st d i a g c b C :
  at_ st (plug C (mkT d a g c b)) -> loc_of s a = iloc i -> a <> E ->
  (if decide (iloc i = loc_of s (match d with SLeft => a | SRight => b end))
   then SLeft else SRight) = d.
Proof.
  intros H Hi Ha. destruct a as [|l j c' r]; [done|]. simpl in Hi. destruct d.
  - by rewrite decide_True.
  - rewrite decide_False; [done|]. intros Heq. rewrite <- Hi in Heq.
    tree_facts H (iloc g :: iloc j :: locs l ++ locs r ++ locs b ++ clocs C).
    by apply (loc_of_ne s b (iloc j)).
Qed.

Lemma wp_rd_left st C d a g c b p (Q : loc -> rbstate -> Prop) :
  at_ st (plug C (mkT d a g c b)) -> p = iloc g ->
  Q (loc_of s (match d with SLeft => a | SRight => b end)) st -> wp (rd left p) Q st.
Proof.
  intros H -> HQ. eapply wp_rd; [exact (ta_node _ _ _ _ _ _ _ _ _ _ H)|]. by destruct d.
Qed.

Lemma wp_insert_fixup L k p st fuel :
  fix_inv L k p st -> (k < fuel)%nat ->
  wp (insert_fixup fuel s p)
     (fun _ st' => exists t n, at_ st' t /\ inorder t = L /\ rbt (blacken t) false n) st.
Proof.
  intros Hinv Hk. unfold insert_fixup.
  apply (wp_loop (fun k p st => fix_inv L k p st)) with (n := k); [|done|done].
  clear. intros k p st (C & l & i & r & n & H & -> & Hl & Hr & HC & -> & HL).
  apply wp_bind. eapply wp_get_root; [exact H|].
  destruct (decide _) as [Heq|Hne].
  { apply wp_ret. eapply (focus_root_inv e _ _ _ _ SLeft) in Heq as ->; [|exact H].
    exists (T l i true r), (S n). simpl. eauto with rbt. }
  destruct HC as [n|d1 p psib C n Hp HC Htop|d1 p psib C n cs Hp HC]; [done|..].
  - (* red parent *)
    destruct C as [|[d g gc gsib] C]; [done|]. simpl in Htop. subst gc.
    assert (at_ st (plug (Frame d1 p true psib :: Frame d g false gsib :: C)
                      (mkT SLeft l i true r))) as H0 by exact H.
    assert (at_ st (plug (Frame d g false gsib :: C) (mkT d1 (T l i true r) p true psib)))
      as H1 by exact H.
    assert (at_ st (plug C (mkT d (mkT d1 (T l i true r) p true psib) g false gsib)))
      as H2 by exact H.
    step_with wp_rd_parent H0.
    apply wp_bind. eapply wp_is_red; [exact H1|by rewrite loc_of_mkT|].
    assert (is_red (mkT d1 (T l i true r) p true psib) = true) as -> by (by destruct d1).
    cbn [negb]. step_with wp_rd_parent H1. step_with wp_rd_left H2.
    erewrite is_left_child; [|exact H2|by rewrite loc_of_mkT|by destruct d1].
    apply wp_bind. inversion HC as [| |? ? ? ? ? cs Hg HC']; subst.
    destruct cs.
    + inversion Hg; subst. eapply wp_mono.
      { eapply fix_red_uncle; [exact H2|by eauto with rbt..|reflexivity]. }
      intros p' st' Hinv. apply wp_ret. eexists. split; [|exact Hinv]. simpl. lia.
    + eapply wp_mono.
      { eapply (fix_black_uncle _ _ d d1 (T l i true r));
          [exact H2|by eauto with rbt..|reflexivity]. }
      intros p' st' Hinv. apply wp_ret. eexists. split; [|exact Hinv]. simpl. lia.
  - (* black parent *)
    assert (at_ st (plug (Frame d1 p false psib :: C) (mkT SLeft l i true r))) as H0 by exact H.
    assert (at_ st (plug C (mkT d1 (T l i true r) p false psib))) as H1 by exact H.
    step_with wp_rd_parent H0.
    apply wp_bind. eapply wp_is_red; [exact H1|by rewrite loc_of_mkT|].
    assert (is_red (mkT d1 (T l i true r) p false psib) = false) as -> by (by destruct d1).
    apply wp_ret.
    assert (exists n', rbt (plug (Frame d1 p false psib :: C) (T l i true r)) false n')
      as [n' Hn'] by (by eapply (rbt_plug _ _ true n); eauto with rbt).
    destruct (rbt_blacken _ _ _ Hn') as [n'' ?]. eauto.
Qed.
End fixup.

(** * Insertion callbacks *)

(** The path of a search that goes left at the nodes where [P] holds. *)
Definition descends (P : item -> bool) (C : ctx) : Prop :=
  Forall (fun f => fside f = if P (fitem f) then SLeft else SRight) C.

(** The node object handed to an insertion: allocated, and not in the tree. *)
Record fresh_node (e : env) (st : rbstate) (i : item) (t : tree) : Prop := FreshNode {
  fn_owned : iloc i ∈ owned e;
  fn_not_sent : iloc i <> esent e;
  fn_not_in : iloc i ∉ locs t;
  fn_object : exists l r p c, nodes st !! iloc i = Some (Node (ikey i) l r p c (idata i));
}.

(** What ngx_rbtree_insert expects of the [insert] callback of a tree: it
    attaches the node as a red leaf, at the place that the order [less] of the
    callback determines; [ok] is what the callback expects of the items. *)
Class InsertCallback (ok : item -> Prop) (less : item -> item -> bool)
    (ins : nat -> ngx_rbtree_insert_pt) : Prop :=
  insert_callback : forall fuel e st sn par0 t i (Q : unit -> rbstate -> Prop),
    tree_at e st sn par0 t -> t <> E -> (height t <= fuel)%nat -> fresh_node e st i t ->
    ok i -> Forall ok (inorder t) ->
    (forall st' C, C <> [] -> plug C E = t -> descends (less i) C ->
       tree_at e st' sn par0 (plug C (T E i true E)) -> Q tt st') ->
    wp (ins fuel (loc_of (esent e) t) (iloc i) (esent e)) Q st.

Lemma tree_at_grow e st sn par0 t i st' par0' t' :
  tree_at e st sn par0 t -> fresh_node e st i t -> locs t' ≡ₚ iloc i :: locs t ->
  sentinel st' = sentinel st -> root st' = loc_of (esent e) t' ->
  rep (nodes st') (esent e) t' par0' ->
  (forall x, x ∉ iloc i :: locs t -> nodes st' !! x = nodes st !! x) ->
  tree_at e st' sn par0' t'.
Proof.
  intros [Hs Hr _ Hnd Ho Hf Hso Hsn Hblk Hoth] [Hio His Hin _] Hp Hs' Hr' Hrep Hfr.
  constructor; rewrite ?Hs', ?Hp; auto.
  - by constructor.
  - setoid_rewrite Hp. intros x [->|?]%elem_of_cons; auto.
  - rewrite not_elem_of_cons. by split; [congruence|].
  - rewrite Hfr; [done|]. rewrite not_elem_of_cons. by split; [congruence|].
  - intros x Hx. rewrite Hfr; [auto|]. rewrite not_elem_of_cons. split; [congruence|auto].
Qed.

(** Attaching a red leaf in an empty place below a node. *)
Lemma attach_leaf e st sn par0 d f C i (Q : unit -> rbstate -> Prop) :
  fside f = d -> tree_at e st sn par0 (plug (f :: C) E) -> fresh_node e st i (plug (f :: C) E) ->
  (forall st', tree_at e st' sn par0 (plug (f :: C) (T E i true E)) -> Q tt st') ->
  wp (_ ← wr (set_child d (iloc i)) (iloc (fitem f));
      _ ← wr (set_parent (iloc (fitem f))) (iloc i);
      _ ← wr (set_left (esent e)) (iloc i);
      _ ← wr (set_right (esent e)) (iloc i);
      ngx_rbt_red (iloc i)) Q st.
Proof.
  intros <- H Hfn HQ.
  destruct f as [d fi fc fs]. cbn [fside fitem] in *.
  assert (tree_at e st sn par0 (plug C (mkT d E fi fc fs))) as H1 by exact H.
  destruct (ta_focus _ _ _ _ _ _ H1) as [(Hf & _ & Hfs)%rep_mkT HC]. rewrite loc_of_mkT in HC.
  pose proof (ta_root _ _ _ _ _ H) as Hroot.
  pose proof (fn_not_in _ _ _ _ Hfn) as Hin. pose proof (fn_not_sent _ _ _ _ Hfn) as His.
  destruct (fn_object _ _ _ _ Hfn) as (l & r & p & c & Hi).
  rewrite locs_plug in Hin. cbn [clocs fitem fsib] in Hin. change (locs E) with (@nil loc) in Hin.
  cbn [app] in Hin.
  tree_facts H1 (iloc fi :: locs fs ++ clocs C).
  rewrite not_elem_of_cons, not_elem_of_app in Hin. destruct Hin as (? & ? & ?).
  unfold ngx_rbt_red. destruct d; cbn -[plug] in *; run; apply HQ.
  all: eapply tree_at_grow;
    [exact H|exact Hfn|perm_tac|done
    |cbn -[plug]; rewrite Hroot; cbn [plug]; apply loc_of_plug; unfold fill; by rewrite !loc_of_mkT
    |rewrite rep_plug; cbn; split_and!;
     first [done|lookup_tac|eapply rep_frame; [|eassumption]; frame_tac
           |eapply repc_frame; [|eassumption]; frame_tac]
    |cbn -[plug]; frame_tac].
Qed.

(** The descent, for a comparison of two nodes that computes [less]. *)
Lemma wp_insert_descend goes_left (less : item -> item -> bool) fuel e st sn par0 t i
    (Q : unit -> rbstate -> Prop) :
  tree_at e st sn par0 t -> t <> E -> (height t <= fuel)%nat -> fresh_node e st i t ->
  (forall C a j c b, plug C (T a j c b) = t ->
     wp (goes_left (iloc i) (iloc j)) (fun r st' => st' = st /\ r = less i j) st) ->
  (forall st' C, C <> [] -> plug C E = t -> descends (less i) C ->
     tree_at e st' sn par0 (plug C (T E i true E)) -> Q tt st') ->
  wp (insert_descend goes_left fuel (loc_of (esent e) t) (iloc i) (esent e)) Q st.
Proof.
  intros H HE Hfuel Hfn Hcmp HQ. unfold insert_descend. apply wp_bind.
  set (P := less i).
  apply (wp_loop (fun k temp st' => st' = st /\ exists C u, plug C u = t /\ u <> E /\
           temp = loc_of (esent e) u /\ k = pred (height u) /\ descends P C))
    with (n := pred (height t)).
  - intros k temp st' (-> & C & u & Hu & HuE & -> & -> & Hd).
    destruct u as [|a j c b]; [done|]. subst t. simpl.
    apply wp_bind. eapply wp_mono; [by eapply Hcmp|]. intros r st' [-> ->].
    set (d := if less i j then SLeft else SRight).
    set (g := match d with SLeft => b | SRight => a end).
    set (v := match d with SLeft => a | SRight => b end).
    assert (T a j c b = mkT d v j c g) as Hmk by (subst g v; by destruct d).
    apply wp_bind. eapply wp_rd_child; [rewrite Hmk in H; exact H|done|].
    assert (plug (Frame d j c g :: C) v = plug C (T a j c b)) as Hpl by (by rewrite Hmk).
    assert (descends P (Frame d j c g :: C)) as Hd'.
    { constructor; [|done]. simpl. subst d P. simpl. done. }
    destruct (decide _) as [Heq|Hne]; apply wp_ret.
    + eapply (loc_of_sent_inv e _ _ _ (Frame d j c g :: C)) in Heq; [|by rewrite Hpl].
      rewrite Heq in Hpl. rewrite <- Hpl in H, Hfn.
      eapply (attach_leaf _ _ _ _ d (Frame d j c g)); [done|exact H|exact Hfn|].
      intros st' Ht'. by eapply HQ; [|exact Hpl| |exact Ht'].
    + assert (v <> E) as Hv by (intros HvE; apply Hne; by rewrite HvE).
      exists (pred (height v)). split.
      * assert (height v < S (height a `max` height b))%nat by (subst v; destruct d; simpl; lia).
        destruct v; [done|]. simpl in *. lia.
      * split; [done|]. exists (Frame d j c g :: C), v. by split_and!.
  - destruct t; [done|simpl in *; lia].
  - split; [done|]. exists [], t. split_and!; try done. constructor.
Qed.

(** The insertion order of the two callbacks of ngx_rbtree.c. *)
Definition value_less (i j : item) : bool := key_less (ikey i) (ikey j).
Definition timer_item_less (i j : item) : bool := timer_less (ikey i) (ikey j).

(** Callbacks that compare the keys expect nothing of the items. *)
Definition any_item (_ : item) : Prop := True.

Lemma any_items l : Forall any_item l.
Proof. by apply Forall_true. Qed.

Lemma keys_less_callback lessk :
  InsertCallback any_item (fun i j => lessk (ikey i) (ikey j)) (insert_descend (keys_less lessk)).
Proof.
  intros fuel e st sn par0 t i Q H HE Hfuel Hfn _ _ HQ.
  eapply (wp_insert_descend _ (fun i j => lessk (ikey i) (ikey j))); try done.
  intros C a j c b <-. destruct (fn_object _ _ _ _ Hfn) as (l & r & p & c' & Hi).
  apply wp_bind. eapply wp_rd; [exact Hi|].
  apply wp_bind. eapply (wp_rd_key _ _ _ _ _ SLeft); [exact H|done|]. by apply wp_ret.
Qed.

#[export] Instance insert_value_callback : InsertCallback any_item value_less ngx_rbtree_insert_value.
Proof. apply keys_less_callback. Qed.

#[export] Instance insert_timer_value_callback :
  InsertCallback any_item timer_item_less ngx_rbtree_insert_timer_value.
Proof. apply keys_less_callback. Qed.

(** * The insertion as a whole *)

(** A well-formed red-black tree in the store. *)
Definition rbtree (e : env) (st : rbstate) (t : tree) : Prop :=
  (exists sn par0, tree_at e st sn par0 t) /\ (exists n, rbt t false n).

(** Writing to, allocating or freeing an object that is in no tree. *)
Lemma rbtree_outside e st t m p :
  rbtree e st t -> p ∈ owned e -> p <> esent e -> p ∉ locs t ->
  (forall x, x <> p -> m !! x = nodes st !! x) ->
  rbtree e (RbState m (root st) (sentinel st)) t.
Proof.
  intros [(sn & par0 & H) Hn] Ho Hp Hni Hm. split; [|done]. exists sn, par0.
  destruct H as [Hsn Hr Hrep Hnd Hown Hf Hso Hsent Hblk Hoth]. constructor; simpl; try done.
  - eapply rep_frame; [|exact Hrep]. intros x Hx. apply Hm. congruence.
  - by rewrite Hm.
  - intros x Hx. rewrite Hm by congruence. auto.
Qed.

(** A budget for walks over a red-black tree of [n] nodes. *)
Definition walk_fuel (n : nat) : nat := 2 * Nat.log2 (S n) + 2.

Lemma rbtree_height e st t : rbtree e st t -> (S (height t) <= walk_fuel (size t))%nat.
Proof. intros [_ [n H]]. apply rbt_height_log in H. unfold walk_fuel. lia. Qed.

Lemma pre_post_of_plug C t : plug C E = t -> inorder t = pre C ++ post C.
Proof. intros <-. by rewrite inorder_plug. Qed.

(** The converse of [rbt_plug]: every place of a red-black tree fits. *)
Lemma rbt_unplug C t n :
  rbt (plug C t) false n -> exists ct m, rbt t ct m /\ ctx_ok C m /\ (ct = true -> black_top C).
Proof.
  revert t. induction C as [|f C IH]; intros t H; simpl in *.
  - exists false, n. split_and!; [done|constructor|done].
  - apply IH in H as (ct & m & Ht & HC & Hb). destruct f as [d i fc sib]. unfold fill in Ht.
    simpl in *. destruct d; simpl in Ht; inversion Ht; subst;
      (do 2 eexists; split; [eassumption|]); (split; [|done]);
      (apply ctx_red || eapply ctx_black); eauto.
Qed.

Lemma wp_ngx_rbtree_insert ok less ins `{!InsertCallback ok less ins} fuel e st t i :
  rbtree e st t -> fresh_node e st i t -> (walk_fuel (size t) <= fuel)%nat ->
  ok i -> Forall ok (inorder t) ->
  wp (ngx_rbtree_insert (ins fuel) fuel (iloc i))
     (fun _ st' => exists t' C, rbtree e st' t' /\ plug C E = t /\ descends (less i) C /\
        inorder t' = pre C ++ i :: post C) st.
Proof.
  intros Ht Hfn Hfuel Hoki Hoks. pose proof (rbtree_height _ _ _ Ht) as Hh.
  destruct Ht as [(sn & par0 & H) [n Hrb]].
  unfold wp, ngx_rbtree_insert. rewrite (ta_sent _ _ _ _ _ H).
  match goal with |- match ?c st with _ => _ end => change (wp c
     (fun _ st' => exists t' C, rbtree e st' t' /\ plug C E = t /\ descends (less i) C /\
        inorder t' = pre C ++ i :: post C) st) end.
  apply wp_bind. eapply wp_get_root; [exact H|].
  destruct (decide _) as [Hr|Hr].
  - apply (loc_of_sent_inv e st sn par0 []) in Hr; [|exact H]. subst t.
    destruct (fn_object _ _ _ _ Hfn) as (l & r & p & c & Hi).
    unfold ngx_rbt_black. run. exists (T E i false E), []. split_and!; try done; [|constructor].
    split; [|exists 1%nat; eauto with rbt]. exists sn, NULL.
    eapply tree_at_grow; [exact H|exact Hfn|perm_tac|done|done| |].
    + cbn. split_and!; try done. lookup_tac.
    + cbn. frame_tac.
  - apply wp_bind. eapply (insert_callback (less := less)); [exact H|by intros ->|lia|exact Hfn|exact Hoki|exact Hoks|].
    intros st' C HC HCt Hd H'.
    pose proof (plug_height C E) as HhC. rewrite HCt in HhC.
    destruct (rbt_unplug C E n) as (ct & m & HE & Hok & _); [by rewrite HCt|].
    inversion HE; subst.
    apply wp_bind. eapply wp_mono.
    { eapply wp_insert_fixup; [eapply (fix_inv_intro _ _ _ _ _ SLeft C E i E 0)|];
        eauto with rbt. simpl in *. lia. }
    clear H Hr Hfn. clear st st' H'. intros [] st (t' & n' & H & Hin & Hrb').
    apply wp_bind. eapply wp_get_root; [exact H|].
    destruct t' as [|l j c r]; [by rewrite inorder_plug in Hin; destruct (pre C)|].
    eapply (wp_recolor e st sn par0 [] SLeft l j c false r); [exact H|done|done|].
    intros st' H'. exists (T l j false r), C. split_and!; [|done|done|].
    + split; eauto.
    + change (inorder (T l j c r) = pre C ++ i :: post C).
      rewrite Hin, inorder_plug. done.
Qed.

(** * Search order *)

(** Where [P] only grows along the listing, a descent by [P] splits the
    listing into the items without and with [P]. *)
Lemma descends_split (P : item -> bool) C :
  StronglySorted (fun a b => P a = true -> P b = true) (pre C ++ post C) -> descends P C ->
  Forall (fun j => P j = false) (pre C) /\ Forall (fun j => P j = true) (post C).
Proof.
  intros HS HD. induction HD as [|f C Hf HD IH]; simpl in *; [done|].
  destruct f as [d j c sib]. simpl in *.
  rewrite !StronglySorted_app in HS. rewrite !StronglySorted_app in IH.
  destruct d, (P j) eqn:HPj; try done; simpl in *;
    rewrite ?app_nil_r, ?StronglySorted_cons, ?StronglySorted_app in *;
    rewrite ?Forall_app, ?Forall_cons, ?Forall_forall in *.
  - destruct HS as (Hx & ? & Hy & (Hj & ?) & ?). destruct IH as [IH1 IH2]; set_solver.
  - destruct HS as (Hx & (? & ? & Hs & ? & ?) & ?). destruct IH as [IH1 IH2]; [set_solver|].
    split; [|done]. split; [done|]. split; [|by split; [|set_solver]].
    intros x Hxs. apply not_true_is_false. intros HPx.
    by rewrite (Hs x j) in HPj; [|done|set_solver|].
Qed.

Section ordered.
Context (rank : item -> Z).

Definition by_rank (l : list item) : Prop := StronglySorted (fun a b => rank a <= rank b) l.

(** A callback whose comparison agrees with a rank inserts after every item
    of the same or a lower rank and before every item of a higher rank. *)
Lemma insert_by_rank less C i :
  (forall j, j ∈ pre C ++ post C -> less i j = (rank i <? rank j)) ->
  by_rank (pre C ++ post C) -> descends (less i) C ->
  Forall (fun j => rank j <= rank i) (pre C) /\ Forall (fun j => rank i < rank j) (post C) /\
  by_rank (pre C ++ i :: post C).
Proof.
  unfold by_rank. intros Hless HS HD.
  destruct (descends_split (less i) C) as [H1 H2]; [|done|].
  { clear HD. induction HS as [|a l HS IH Ha]; constructor.
    - apply IH. set_solver.
    - rewrite !Forall_forall in *. intros b Hb. rewrite !Hless by set_solver.
      specialize (Ha b Hb). rewrite !Z.ltb_lt. lia. }
  assert (Forall (fun j => rank j <= rank i) (pre C)) as Hpre.
  { rewrite !Forall_forall in *. intros j Hj. specialize (H1 j Hj).
    rewrite Hless, Z.ltb_ge in H1 by set_solver. done. }
  assert (Forall (fun j => rank i < rank j) (post C)) as Hpost.
  { rewrite !Forall_forall in *. intros j Hj. specialize (H2 j Hj).
    rewrite Hless, Z.ltb_lt in H2 by set_solver. done. }
  split_and!; [done..|].
  rewrite StronglySorted_app in HS |- *. rewrite StronglySorted_cons.
  rewrite !Forall_forall in *. destruct HS as (Hx & ? & ?). split_and!; try done.
  - intros x y Hxp [->|Hy]%elem_of_cons; [by apply Hpre|by apply Hx].
  - intros y Hy. specialize (Hpost y Hy). lia.
Qed.
End ordered.

(** Timer keys: 32-bit clock values inside a window of half the clock range. *)
Definition timer_rank (base : Z) (i : item) : Z := u32 (ikey i - base).
Definition in_window (base : Z) (i : item) : Prop := timer_rank base i < 2 ^ 31.

Lemma timer_less_rank base a b :
  u32 (a - base) < 2 ^ 31 -> u32 (b - base) < 2 ^ 31 ->
  timer_less a b = (u32 (a - base) <? u32 (b - base)).
Proof.
  intros Ha Hb. unfold timer_less, swrap, wrap in *.
  assert ((a - b) mod 2 ^ 32 = ((a - base) mod 2 ^ 32 - (b - base) mod 2 ^ 32) mod 2 ^ 32) as ->.
  { rewrite <- Zminus_mod. f_equal. lia. }
  pose proof (Z.mod_pos_bound (a - base) (2 ^ 32)). pose proof (Z.mod_pos_bound (b - base) (2 ^ 32)).
  set (x := (a - base) mod 2 ^ 32) in *. set (y := (b - base) mod 2 ^ 32) in *.
  destruct (Z.ltb_spec x y); [apply Z.ltb_lt|apply Z.ltb_ge]; Z.div_mod_to_equations; lia.
Qed.

(** * Properties *)

(** C1: inserting with ngx_rbtree_insert_value into a red-black search tree
    neither dereferences a wild pointer nor loops (the budget is logarithmic in
    the size), and gives a red-black search tree that holds the node behind
    every node of the same or a smaller key and before every larger one; no
    object outside [owned] changes. *)
Theorem insert_value_correct fuel e st t i :
  rbtree e st t -> fresh_node e st i t -> (walk_fuel (size t) <= fuel)%nat ->
  by_rank ikey (inorder t) ->
  exists st' t' l1 l2,
    ngx_rbtree_insert (ngx_rbtree_insert_value fuel) fuel (iloc i) st = Some (tt, st') /\
    rbtree e st' t' /\
    inorder t = l1 ++ l2 /\ inorder t' = l1 ++ i :: l2 /\ by_rank ikey (inorder t') /\
    Forall (fun j => ikey j <= ikey i) l1 /\ Forall (fun j => ikey i < ikey j) l2.
Proof.
  intros H Hfn Hfuel HS.
  pose proof (wp_ngx_rbtree_insert _ value_less _ _ _ _ _ _ H Hfn Hfuel I (any_items _)) as Hwp.
  apply wp_run in Hwp as ([] & st' & Hrun & t' & C & Ht' & HC & Hd & Hin).
  apply pre_post_of_plug in HC. rewrite HC in HS.
  destruct (insert_by_rank ikey value_less C i) as (? & ? & ?); [done|done|done|].
  exists st', t', (pre C), (post C). rewrite Hin. by split_and!.
Qed.

(** the same for the timer callback: it orders a window of 32-bit clock
    values correctly across the overflow of the clock. *)
Theorem insert_timer_correct base fuel e st t i :
  rbtree e st t -> fresh_node e st i t -> (walk_fuel (size t) <= fuel)%nat ->
  by_rank (timer_rank base) (inorder t) -> Forall (in_window base) (i :: inorder t) ->
  exists st' t' l1 l2,
    ngx_rbtree_insert (ngx_rbtree_insert_timer_value fuel) fuel (iloc i) st = Some (tt, st') /\
    rbtree e st' t' /\
    inorder t = l1 ++ l2 /\ inorder t' = l1 ++ i :: l2 /\ by_rank (timer_rank base) (inorder t') /\
    Forall (fun j => timer_rank base j <= timer_rank base i) l1 /\
    Forall (fun j => timer_rank base i < timer_rank base j) l2.
Proof.
  intros H Hfn Hfuel HS Hw.
  pose proof (wp_ngx_rbtree_insert _ timer_item_less _ _ _ _ _ _ H Hfn Hfuel I (any_items _)) as Hwp.
  apply wp_run in Hwp as ([] & st' & Hrun & t' & C & Ht' & HC & Hd & Hin).
  apply pre_post_of_plug in HC. rewrite HC in *.
  destruct (insert_by_rank (timer_rank base) timer_item_less C i) as (? & ? & ?); [|done|done|].
  { intros j Hj. rewrite Forall_cons, Forall_forall in Hw. destruct Hw as [Hwi Hwj].
    apply timer_less_rank; [exact Hwi|exact (Hwj j Hj)]. }
  exists st', t', (pre C), (post C). rewrite Hin. by split_and!.
Qed.
