(* ===== verification/RbtreeUnlink.v ===== *)
(** The pieces of ngx_rbtree_delete: the fix-up loop, the unlinking of a node
    from its parent, the substitution of one node for another. *)
From stdpp Require Import sorting.
From S2P Require Import Prelude Store Rbtree RbtreeRep RbtreeInsert.

(** * The fix-up loop *)

Section fixup.
Context (e : env) (sn : node) (par0 : loc).
Abbreviation s := (esent e).
Abbreviation at_ st t := (tree_at e st sn par0 t).

(** The parent field of the hole is right even when the hole is empty: the
    sentinel then stands in for the missing node. *)
Definition hole_ok (C : ctx) (t : tree) : Prop := t = E -> C <> [] -> parent sn = par_of par0 C.

(** The subtree in the hole misses one black level, or is red and can be
    blackened to make up for it. *)
Definition short (t : tree) (n : nat) : Prop :=
  rbt t false n \/ (is_red t = true /\ rbt (blacken t) false (S n)).

Definition del_inv (L : list item) (k : nat) (temp : loc) (st : rbstate) : Prop :=
  exists C t n,
    at_ st (plug C t) /\ temp = loc_of s t /\ short t n /\ ctx_ok C (S n) /\ hole_ok C t /\
    k = (if is_red t then 0 else S (length C))%nat /\ inorder (plug C t) = L.

Lemma wp_rd_hole st C t p (Q : loc -> rbstate -> Prop) :
  at_ st (plug C t) -> (t = E -> parent sn = par_of par0 C) -> p = loc_of s t -> C <> [] ->
  Q (par_of par0 C) st -> wp (rd parent p) Q st.
Proof.
  intros H Hh -> HC HQ. destruct t as [|l i c r].
  - eapply wp_rd; [apply (ta_sentinel _ _ _ _ _ H)|]. by rewrite Hh.
  - by eapply (wp_rd_parent _ _ _ _ _ SLeft).
Qed.

Lemma short_color t n : short t n -> is_red t = false -> rbt t false n.
Proof. intros [|[? _]]; [done|congruence]. Qed.

Lemma rbt_false_T t n : rbt t false (S n) -> forall d, exists a i b ca cb,
  t = mkT d a i false b /\ rbt a ca n /\ rbt b cb n.
Proof.
  inversion 1; subst. intros d. destruct d; repeat eexists; eauto.
Qed.

Lemma rbt_true_T t n : rbt t true n -> forall d, exists a i b,
  t = mkT d a i true b /\ rbt a false n /\ rbt b false n.
Proof. inversion 1; subst. intros d. destruct d; repeat eexists; eauto. Qed.

(** Outside of the parent [p] of colour [c] of the hole. *)
Definition outer_ok (c : bool) (C : ctx) (n : nat) : Prop :=
  if c then ctx_ok C n /\ black_top C else ctx_ok C (S n).

Definition del_next (L : list item) (c : bool) (C : ctx) (temp : loc) (st : rbstate) : Prop :=
  exists k, del_inv L k temp st /\ (k <= 1 \/ (c = false /\ k <= S (length C)))%nat.

(** The last case: a red outer nephew; one rotation ends the loop. *)
Lemma del_far L st d t p c a w b n ca C temp :
  at_ st (plug C (mkT d t p c (mkT d a w false b))) -> temp = loc_of s t ->
  (t = E -> parent sn = iloc p) ->
  rbt t false n -> rbt a ca n -> rbt b true n -> outer_ok c C (S n) ->
  inorder (plug C (mkT d t p c (mkT d a w false b))) = L ->
  wp (tp ← rd parent temp;
      _ ← ngx_rbt_copy_color (iloc w) tp;
      _ ← ngx_rbt_black tp;
      w_o ← rd (child (opp d)) (iloc w);
      _ ← ngx_rbt_black w_o;
      _ ← rotate d s tp;
      get_root) (del_next L c C) st.
Proof.
  intros H -> Hh Ht Ha Hb HC HL.
  assert (at_ st (plug (Frame d p c (mkT d a w false b) :: C) t)) as H0 by exact H.
  apply wp_bind. eapply wp_rd_hole; [exact H0|exact Hh|done|done|]. cbn [par_of fitem].
  unfold ngx_rbt_copy_color. apply wp_bind. step_with wp_rd_color H.
  rewrite (mkT_opp d t) in H.
  assert (at_ st (plug (Frame (opp d) p c t :: C) (mkT d a w false b))) as H1 by exact H.
  eapply (wp_recolor _ _ _ _ _ _ _ _ _ c); [exact H1|done|done|].
  clear st H H0 H1. intros st H. rewrite plug_up in H.
  recolor_with false H. clear st H. intros st H.
  assert (at_ st (plug (Frame (opp d) p false t :: C) (mkT d a w c b))) as H1 by exact H.
  step_with wp_rd_other H1.
  destruct (rbt_true_T _ _ Hb d) as (b1 & j & b2 & -> & Hb1 & Hb2).
  rewrite (mkT_opp d a) in H1.
  assert (at_ st (plug (Frame (opp d) w c a :: Frame (opp d) p false t :: C) (mkT d b1 j true b2)))
    as H2 by exact H1.
  rewrite loc_of_mkT. recolor_with false H2. clear st H H1 H2. intros st H.
  rewrite !plug_up, <- (mkT_opp d a w c), <- (mkT_opp d t) in H.
  apply wp_bind. eapply wp_rotate; [exact H|done|done|]. clear st H. intros st H.
  eapply wp_get_root; [exact H|].
  assert (exists m, rbt (plug C (mkT d (mkT d t p false a) w c (mkT d b1 j false b2))) false m)
    as [m Hm].
  { destruct c; simpl in HC.
    - destruct HC as [HC Htop]. apply (rbt_plug _ _ true (S n)); eauto with rbt.
    - apply (rbt_plug _ _ false (S (S n))); eauto with rbt. done. }
  eexists. split; [|left; shelve].
  exists [], (plug C (mkT d (mkT d t p false a) w c (mkT d b1 j false b2))), m.
  split_and!; [exact H|done|by left|constructor|by intros _ []|reflexivity|].
  - rewrite <- HL. inorder_tac.
  Unshelve. rewrite (rbt_color _ _ _ Hm). simpl. lia.
Qed.

Lemma wp_children_black st K d a w c b (Q : bool -> rbstate -> Prop) :
  at_ st (plug K (mkT d a w c b)) -> Q (negb (is_red a) && negb (is_red b)) st ->
  wp (children_black (iloc w)) Q st.
Proof.
  intros H HQ. unfold children_black.
  assert (exists l r, mkT d a w c b = T l w c r /\
            negb (is_red l) && negb (is_red r) = negb (is_red a) && negb (is_red b))
    as (l & r & Heq & Hlr).
  { destruct d; [by exists a, b|exists b, a]. split; [done|apply andb_comm]. }
  rewrite Heq in H. rewrite <- Hlr in HQ. clear Heq Hlr.
  assert (at_ st (plug (Frame SLeft w c r :: K) l)) as Hl by exact H.
  assert (at_ st (plug (Frame SRight w c l :: K) r)) as Hr by exact H.
  pose proof (ta_node e st sn par0 K SLeft l w c r H) as Hw.
  apply wp_bind. eapply wp_rd; [exact Hw|]. cbn.
  apply wp_bind. eapply wp_is_black; [exact Hl|done|].
  destruct (is_red l); cbn [negb andb] in HQ |- *; [by apply wp_ret|].
  apply wp_bind. eapply wp_rd; [exact Hw|]. cbn.
  eapply wp_is_black; [exact Hr|done|exact HQ].
Qed.

(** A black sibling with black children: redden it and move up. *)
Lemma del_both_black L st d t p c a w b n C :
  at_ st (plug C (mkT d t p c (mkT d a w false b))) ->
  (t = E -> parent sn = iloc p) ->
  rbt t false n -> rbt a false n -> rbt b false n -> outer_ok c C (S n) ->
  inorder (plug C (mkT d t p c (mkT d a w false b))) = L ->
  wp (_ ← ngx_rbt_red (iloc w); rd parent (loc_of s t)) (del_next L c C) st.
Proof.
  intros H Hh Ht Ha Hb HC HL. rewrite mkT_opp in H.
  assert (at_ st (plug (Frame (opp d) p c t :: C) (mkT d a w false b))) as H1 by exact H.
  recolor_with true H1. clear st H H1. intros st H. rewrite plug_up, <- mkT_opp in H.
  assert (at_ st (plug (Frame d p c (mkT d a w true b) :: C) t)) as H0 by exact H.
  eapply wp_rd_hole; [exact H0|exact Hh|done|done|]. cbn [par_of fitem].
  assert (is_red (mkT d t p c (mkT d a w true b)) = c) as Hc by (by destruct d).
  eexists. split.
  - exists C, (mkT d t p c (mkT d a w true b)), (if c then n else S n). split_and!.
    + exact H.
    + by rewrite loc_of_mkT.
    + destruct c; [right; split; [done|]|left; by eauto with rbt].
      destruct d; simpl; eauto using rbt.
    + destruct c; [exact (proj1 HC)|exact HC].
    + by destruct d.
    + done.
    + rewrite <- HL. inorder_tac.
  - rewrite Hc. destruct c; [left|right]; lia.
Qed.

(** A black sibling. *)
Lemma del_black L st d t p c a w b n ca cb C :
  at_ st (plug C (mkT d t p c (mkT d a w false b))) ->
  (t = E -> parent sn = iloc p) ->
  rbt t false n -> rbt a ca n -> rbt b cb n -> outer_ok c C (S n) ->
  inorder (plug C (mkT d t p c (mkT d a w false b))) = L ->
  wp (delete_fix_black s d (loc_of s t) (iloc w)) (del_next L c C) st.
Proof.
  intros H Hh Ht Ha Hb HC HL. unfold delete_fix_black.
  assert (at_ st (plug (Frame (opp d) p c t :: C) (mkT d a w false b))) as H1
    by (rewrite plug_up, <- mkT_opp; exact H).
  apply wp_bind. eapply wp_children_black; [exact H1|].
  rewrite (rbt_color _ _ _ Ha), (rbt_color _ _ _ Hb).
  destruct (negb ca && negb cb) eqn:Hboth.
  { apply andb_prop in Hboth as [->%negb_true_iff ->%negb_true_iff].
    by eapply del_both_black. }
  assert (at_ st (plug (Frame (opp d) w false a :: Frame (opp d) p c t :: C) b)) as Hb1
    by (rewrite plug_up, <- mkT_opp; exact H1).
  step_with wp_rd_other H1. step_with wp_is_black Hb1. rewrite (rbt_color _ _ _ Hb).
  destruct cb; cbn [negb]; apply wp_bind; [apply wp_ret; by eapply del_far|].
  destruct ca; [|done]. clear Hb1.
  destruct (rbt_true_T _ _ Ha d) as (a1 & j & a2 & -> & Ha1 & Ha2).
  step_with wp_rd_child H1. rewrite loc_of_mkT.
  assert (at_ st (plug (Frame d w false b :: Frame (opp d) p c t :: C) (mkT d a1 j true a2)))
    as H2 by exact H1.
  recolor_with false H2. clear st H H1 H2. intros st H. rewrite plug_up in H.
  recolor_with true H. clear st H. intros st H.
  rewrite mkT_opp, (mkT_opp d a1) in H.
  apply wp_bind. eapply wp_rotate; [exact H|done|done|]. clear st H. intros st H.
  rewrite plug_up, <- !mkT_opp in H.
  assert (at_ st (plug (Frame d p c (mkT d a1 j false (mkT d a2 w true b)) :: C) t)) as H0
    by exact H.
  apply wp_bind. eapply wp_rd_hole; [exact H0|exact Hh|done|done|]. cbn [par_of fitem].
  eapply wp_rd_other; [exact H|done|]. rewrite loc_of_mkT.
  eapply del_far; [exact H|done|exact Hh|eauto with rbt..|exact HC|].
  rewrite <- HL. inorder_tac.
Qed.

(** A whole round. *)
Lemma del_side L st d t p c sib n csib C :
  at_ st (plug (Frame d p c sib :: C) t) -> hole_ok (Frame d p c sib :: C) t ->
  rbt t false n -> rbt sib csib (S n) -> (c = true -> csib = false) -> outer_ok c C (S n) ->
  inorder (plug (Frame d p c sib :: C) t) = L ->
  wp (delete_fix_side s d (loc_of s t))
     (fun temp st' => exists k, (k < S (S (length C)))%nat /\ del_inv L k temp st') st.
Proof.
  intros H Hh Ht Hs Hc HC HL. unfold delete_fix_side.
  assert (t = E -> parent sn = iloc p) as Hp by (intros HE; by apply (Hh HE)).
  apply wp_bind. eapply wp_rd_hole; [exact H|exact Hp|done|done|]. cbn [par_of fitem].
  rewrite plug_up in H, HL.
  assert (at_ st (plug (Frame (opp d) p c t :: C) sib)) as H1
    by (rewrite plug_up, <- mkT_opp; exact H).
  step_with wp_rd_other H. step_with wp_is_red H1. rewrite (rbt_color _ _ _ Hs).
  apply wp_bind. destruct csib.
  - destruct c; [by specialize (Hc eq_refl)|]. simpl in HC.
    destruct (rbt_true_T _ _ Hs d) as (a & w & b & -> & Ha & Hb). rewrite loc_of_mkT.
    recolor_with false H1. clear st H H1. intros st H. rewrite plug_up, <- mkT_opp in H.
    recolor_with true H. clear st H. intros st H.
    apply wp_bind. eapply wp_rotate; [exact H|done|done|]. clear st H. intros st H.
    assert (at_ st (plug (Frame d p true a :: Frame d w false b :: C) t)) as H0 by exact H.
    apply wp_bind. eapply wp_rd_hole; [exact H0|exact Hp|done|done|]. cbn [par_of fitem].
    assert (at_ st (plug (Frame d w false b :: C) (mkT d t p true a))) as H1 by exact H.
    eapply wp_rd_other; [exact H1|done|].
    destruct (rbt_false_T _ _ Ha d) as (x & w' & y & cx & cy & -> & Hx & Hy).
    rewrite loc_of_mkT. eapply wp_mono.
    { eapply del_black; [exact H1|exact Hp|exact Ht|exact Hx|exact Hy| |reflexivity].
      split; [|done]. by eapply ctx_black. }
    intros temp st' (k & Hk & Hk'). exists k. split; [destruct Hk' as [|[? _]]; [lia|done]|].
    destruct Hk as (C' & t' & n' & ? & ? & ? & ? & ? & ? & Hin).
    exists C', t', n'. split_and!; try done. rewrite Hin, <- HL. inorder_tac.
  - apply wp_ret.
    destruct (rbt_false_T _ _ Hs d) as (x & w' & y & cx & cy & -> & Hx & Hy).
    rewrite loc_of_mkT. eapply wp_mono.
    { eapply del_black; [exact H|exact Hp|exact Ht|exact Hx|exact Hy|exact HC|exact HL]. }
    intros temp st' (k & Hk & Hk'). exists k. split; [lia|done].
Qed.

Lemma short_done C t n :
  short t n -> ctx_ok C (S n) -> is_red t = true \/ C = [] ->
  exists m, rbt (plug C (blacken t)) false m.
Proof.
  intros [Ht|[Hr Ht]] HC Hex.
  - destruct Hex as [Hr| ->]; [by rewrite (rbt_color _ _ _ Ht) in Hr|]. simpl.
    by apply rbt_blacken in Ht.
  - eapply rbt_plug; [exact Ht|exact HC|done].
Qed.

Lemma wp_blacken st C t (Q : unit -> rbstate -> Prop) :
  at_ st (plug C t) -> (forall st', at_ st' (plug C (blacken t)) -> Q tt st') ->
  wp (ngx_rbt_black (loc_of s t)) Q st.
Proof.
  intros H HQ. destruct t as [|l i c r].
  - pose proof (ta_sentinel _ _ _ _ _ H) as Hs. eapply wp_wr; [exact Hs|]. apply HQ.
    assert (set_color 0 sn = sn) as ->.
    { pose proof (ta_black _ _ _ _ _ H). by destruct sn; simpl in *; subst. }
    simpl. rewrite insert_id by done. by destruct st.
  - by eapply (wp_recolor _ _ _ _ _ SLeft l i c false r).
Qed.

Lemma focus_root_any st C t :
  at_ st (plug C t) -> loc_of s t = loc_of s (plug C t) -> C = [].
Proof.
  intros H Heq. destruct t as [|l i c r].
  - destruct C as [|f C]; [done|]. simpl in Heq. symmetry in Heq.
    apply (loc_of_sent_inv e st sn par0 []) in Heq; [|exact H]. exfalso.
    assert (length (inorder (plug (f :: C) E)) = 0)%nat as Hl by (cbn [plug]; by rewrite Heq).
    rewrite inorder_plug, length_app in Hl. destruct f as [[] ? ? ?]; simpl in Hl;
      rewrite !length_app in Hl; simpl in Hl; lia.
  - by eapply (focus_root_inv e _ _ _ _ SLeft).
Qed.

Lemma wp_delete_fixup L k temp st fuel :
  del_inv L k temp st -> (k < fuel)%nat ->
  wp (delete_fixup fuel s temp)
     (fun _ st' => exists t n, at_ st' t /\ inorder t = L /\ rbt t false n) st.
Proof.
  intros Hinv Hk. unfold delete_fixup. apply wp_bind.
  apply (wp_loop (fun k p st => del_inv L k p st)) with (n := k); [|done|done].
  clear. intros k temp st (C & t & n & H & -> & Hs & HC & Hh & -> & HL).
  assert (is_red t = true \/ C = [] ->
          wp (ngx_rbt_black (loc_of s t))
             (fun _ st' => exists t n, at_ st' t /\ inorder t = L /\ rbt t false n) st) as Hend.
  { intros Hex. destruct (short_done _ _ _ Hs HC Hex) as [m Hm].
    eapply wp_blacken; [exact H|]. intros st' H'. exists (plug C (blacken t)), m.
    split_and!; [done| |done]. rewrite <- HL, !inorder_plug. by destruct t. }
  apply wp_bind. eapply wp_get_root; [exact H|].
  destruct (decide _) as [Heq|Hne].
  { apply wp_ret, Hend. right. by eapply focus_root_any. }
  apply wp_bind. eapply wp_is_black; [exact H|done|].
  destruct (is_red t) eqn:Hr; cbn [negb]; [by apply wp_ret, Hend; left|]. clear Hend.
  destruct C as [|[d p c sib] C]; [done|].
  apply wp_bind. eapply wp_rd_hole; [exact H|by intros HE; apply Hh|done|done|].
  cbn [par_of fitem].
  assert (at_ st (plug C (mkT d t p c sib))) as H1 by exact H.
  step_with wp_rd_left H1.
  assert (exists csib, rbt sib csib (S n) /\ (c = true -> csib = false) /\ outer_ok c C (S n))
    as (csib & Hsib & Hcs & Hout) by (inversion HC; subst; eexists; split_and!; simpl; try eassumption; by split_and?).
  assert ((if decide (loc_of s t = loc_of s (match d with SLeft => t | SRight => sib end))
           then SLeft else SRight) = d) as ->.
  { destruct d; [by rewrite decide_True|]. rewrite decide_False; [done|]. intros Heq.
    destruct t as [|l i c' r].
    - symmetry in Heq. apply (loc_of_sent_inv e st sn par0 (Frame SLeft p c E :: C)) in Heq;
        [|exact H]. subst sib. inversion Hsib.
    - tree_facts H1 (iloc p :: iloc i :: locs l ++ locs r ++ locs sib ++ clocs C).
      symmetry in Heq. by apply (loc_of_ne s sib (iloc i)) in Heq. }
  apply wp_bind. eapply wp_mono.
  { eapply del_side; [exact H|exact Hh|by apply short_color|exact Hsib|exact Hcs|exact Hout|exact HL]. }
  intros temp' st' (k & Hk & Hinv). apply wp_ret. exists k. split; [exact Hk|exact Hinv].
Qed.
End fixup.

(** * Unlinking a node *)

Lemma in_focus z t : z ∈ inorder t -> exists C l c r, t = plug C (T l z c r).
Proof.
  induction t as [|l IHl i c r IHr]; simpl; [by intros ?%elem_of_nil|].
  intros [Hz|[->|Hz]%elem_of_cons]%elem_of_app.
  - destruct (IHl Hz) as (C & a & c' & b & ->). exists (C ++ [Frame SLeft i c r]), a, c', b.
    by rewrite plug_app.
  - by exists [], l, c, r.
  - destruct (IHr Hz) as (C & a & c' & b & ->). exists (C ++ [Frame SRight i c l]), a, c', b.
    by rewrite plug_app.
Qed.

Definition all_left (D : ctx) : Prop := Forall (fun f => fside f = SLeft) D.

Lemma wp_min e st sn par0 K r fuel (Q : loc -> rbstate -> Prop) :
  tree_at e st sn par0 (plug K r) -> r <> E -> (height r <= fuel)%nat ->
  (forall D y cy t1, r = plug D (T E y cy t1) -> all_left D -> Q (iloc y) st) ->
  wp (ngx_rbtree_min fuel (loc_of (esent e) r) (esent e)) Q st.
Proof.
  intros H HE Hf HQ. unfold ngx_rbtree_min.
  apply (wp_loop (fun k p st' => st' = st /\ exists D u, r = plug D u /\ u <> E /\ all_left D /\
           p = loc_of (esent e) u /\ k = pred (height u))) with (n := pred (height r)).
  - intros k p st' (-> & D & u & Hr & HuE & HD & -> & ->).
    destruct u as [|a i c b]; [done|].
    assert (tree_at e st sn par0 (plug (Frame SLeft i c b :: D ++ K) a)) as H1.
    { cbn [plug]. unfold fill. simpl. rewrite plug_app. by rewrite <- Hr. }
    apply wp_bind. eapply (wp_rd_child _ _ _ _ (D ++ K) SLeft a i c b); [exact H1|done|].
    destruct (decide _) as [Ha|Ha]; apply wp_ret.
    + apply (loc_of_sent_inv e st sn par0 _ a) in H1; [subst a|done]. by eapply HQ.
    + destruct a as [|al j cj ar] eqn:Heq; [done|]. rewrite <- Heq in *.
      exists (pred (height a)). split; [rewrite Heq; simpl; lia|]. split; [done|].
      exists (Frame SLeft i c b :: D), a. split_and!; [exact Hr|by rewrite Heq|by constructor|done..].
  - destruct r; [done|simpl in *; lia].
  - split; [done|]. exists [], r. split_and!; try done. constructor.
Qed.

Lemma tree_at_shrink e st sn par0 t z st' sn' par0' t' :
  tree_at e st sn par0 t -> locs t ≡ₚ iloc z :: locs t' ->
  sentinel st' = sentinel st -> root st' = loc_of (esent e) t' ->
  rep (nodes st') (esent e) t' par0' ->
  nodes st' !! esent e = Some sn' -> color sn' = 0 ->
  (forall x, x ∉ esent e :: locs t -> nodes st' !! x = nodes st !! x) ->
  tree_at e st' sn' par0' t'.
Proof.
  intros [Hs Hr _ Hnd Ho Hf Hso Hsn Hblk Hoth] Hp Hs' Hr' Hrep Hsn' Hc' Hfr.
  rewrite Hp in Hf. setoid_rewrite Hp in Ho.
  assert (NoDup (iloc z :: locs t')) as Hnd' by (eapply NoDup_Permutation_proper; [symmetry|]; done).
  rewrite not_elem_of_cons in Hf. rewrite NoDup_cons in Hnd'. destruct Hf, Hnd'.
  constructor; rewrite ?Hs'; auto.
  - intros x Hx. apply Ho. by right.
  - intros x Hx. rewrite Hfr; [auto|]. rewrite not_elem_of_cons, Hp. split; [congruence|].
    intros Hin. by apply Hx, Ho.
Qed.

(** A node that was taken out of the tree and can be erased. *)
Record unlinked (e : env) (st : rbstate) (z : item) (t : tree) : Prop := Unlinked {
  ul_owned : iloc z ∈ owned e;
  ul_not_sent : iloc z <> esent e;
  ul_not_in : iloc z ∉ locs t;
  ul_object : exists l r p c, nodes st !! iloc z = Some (Node (ikey z) l r p c (idata z));
}.

Definition erased (st : rbstate) (z : item) : Prop :=
  exists c, nodes st !! iloc z = Some (Node 0 NULL NULL NULL c (idata z)).

Lemma wp_erase e st sn par0 t z (Q : unit -> rbstate -> Prop) :
  tree_at e st sn par0 t -> unlinked e st z t ->
  (forall st', tree_at e st' sn par0 t -> erased st' z -> Q tt st') ->
  wp (delete_erase (iloc z)) Q st.
Proof.
  intros H [Ho Hns Hni (l & r & p & c & Hz)] HQ. unfold delete_erase. run. apply HQ.
  - destruct H as [Hs Hr Hrep Hnd Ho' Hf Hso Hsn Hblk Hoth]. constructor; simpl; try done.
    + eapply rep_frame; [|exact Hrep]. frame_tac.
    + lookup_tac.
    + intros x Hx. rewrite !lookup_insert_ne by congruence. auto.
  - exists c. simpl. by rewrite lookup_insert_eq.
Qed.

(** The child field of the parent that refers to the node in focus. *)
Lemma wp_replace_child e st sn par0 df fi fc fs K u p v (Q : unit -> rbstate -> Prop) :
  tree_at e st sn par0 (plug (Frame df fi fc fs :: K) u) -> u <> E -> p = loc_of (esent e) u ->
  Q tt (RbState (<[iloc fi := objd df fi v (loc_of (esent e) fs) (par_of par0 K) fc]> (nodes st))
          (root st) (sentinel st)) ->
  wp (spl ← rd left (iloc fi);
      if decide (p = spl) then wr (set_left v) (iloc fi)
      else wr (set_right v) (iloc fi)) Q st.
Proof.
  intros H HE -> HQ. destruct u as [|ul i c ur]; [done|]. clear HE. rewrite plug_up in H.
  pose proof (ta_node _ _ _ _ _ _ _ _ _ _ H) as Hf.
  tree_facts H (iloc fi :: iloc i :: locs ul ++ locs ur ++ locs fs ++ clocs K).
  assert (loc_of (esent e) fs <> iloc i) by (by apply loc_of_ne).
  destruct df; cbn in *; run; exact HQ.
Qed.

(** The object of the root of a subtree after its parent field is written. *)
Lemma rep_reparent m s t p q n :
  rep m s t p -> t <> E -> NoDup (locs t) -> m !! loc_of s t = Some n ->
  rep (<[loc_of s t := set_parent q n]> m) s t q.
Proof.
  destruct t as [|l i c r]; [done|]. simpl. intros (Hi & Hl & Hr) _ Hnd Hn.
  rewrite Hi in Hn. injection Hn as <-. rewrite locs_T_perm in Hnd.
  rewrite NoDup_cons, not_elem_of_app in Hnd. destruct Hnd as [[? ?] ?].
  split_and!; [by rewrite lookup_insert_eq| |]; (eapply rep_frame; [|eassumption]; frame_tac).
Qed.

(** What is left after [subst], a node [y] with an empty child, is unlinked
    from its parent [fi] and its other child [t1] gets the parent field [q]. *)
Record cut (e : env) (st : rbstate) (par0 : loc) (df : side) (fi : item) (fc : bool)
    (fs : tree) (K : ctx) (y : item) (t1 : tree) (q : loc) (st' : rbstate) (sn' : node) : Prop := Cut {
  cut_sent : sentinel st' = sentinel st;
  cut_root : root st' = root st;
  cut_node : nodes st' !! iloc fi =
    Some (objd df fi (loc_of (esent e) t1) (loc_of (esent e) fs) (par_of par0 K) fc);
  cut_sib : rep (nodes st') (esent e) fs (iloc fi);
  cut_ctx : repc (nodes st') (esent e) par0 K (iloc fi);
  cut_sub : rep (nodes st') (esent e) t1 q;
  cut_sn : nodes st' !! esent e = Some sn';
  cut_black : color sn' = 0;
  cut_hole : t1 = E -> parent sn' = q;
  cut_y : nodes st' !! iloc y = nodes st !! iloc y;
  cut_frame : forall x, x <> esent e -> x <> iloc fi -> x ∉ locs t1 -> nodes st' !! x = nodes st !! x;
}.

Lemma wp_cut e st sn par0 df fi fc fs K d y cy t1 q (Q : unit -> rbstate -> Prop) :
  let st1 := RbState (<[iloc fi := objd df fi (loc_of (esent e) t1) (loc_of (esent e) fs)
                                     (par_of par0 K) fc]> (nodes st)) (root st) (sentinel st) in
  tree_at e st sn par0 (plug (Frame df fi fc fs :: K) (mkT d E y cy t1)) ->
  (forall st' sn', cut e st par0 df fi fc fs K y t1 q st' sn' -> Q tt st') ->
  wp (wr (set_parent q) (loc_of (esent e) t1)) Q st1.
Proof.
  intros st1 H HQ. rewrite plug_up in H.
  destruct (ta_focus _ _ _ _ _ _ H) as [(Hf & (Hy & _ & Ht1)%rep_mkT & Hfs)%rep_mkT HK].
  rewrite !loc_of_mkT in *.
  tree_facts H (iloc fi :: iloc y :: locs t1 ++ locs fs ++ clocs K).
  pose proof (ta_sentinel _ _ _ _ _ H) as Hsn. pose proof (ta_black _ _ _ _ _ H).
  assert (NoDup (locs t1)) as Hnd1 by (by rewrite !NoDup_app in *; tauto).
  destruct t1 as [|l i c r].
  - cbn [loc_of] in *. eapply wp_wr; [subst st1; lookup_tac|]. eapply (HQ _ (set_parent q sn)).
    subst st1. constructor; cbn; try done; try lookup_tac.
    + eapply rep_frame; [|exact Hfs]. frame_tac.
    + eapply repc_frame; [|exact HK]. frame_tac.
    + by rewrite !lookup_insert_ne by congruence.
    + intros. by rewrite !lookup_insert_ne by congruence.
  - assert (iloc i ∈ locs (T l i c r)) as Hi by (rewrite locs_T_perm; by left).
    assert (iloc i <> iloc fi) by congruence. assert (iloc i <> iloc y) by congruence.
    assert (iloc i <> esent e) by congruence.
    assert (iloc i ∉ locs fs /\ iloc i ∉ clocs K) as [? ?].
    { rewrite !NoDup_app in *. set_solver. }
    simpl in Ht1. destruct Ht1 as (Hi1 & Hl & Hr).
    assert (nodes st1 !! iloc i = Some (obj i (loc_of (esent e) l) (loc_of (esent e) r) (iloc y) c))
      as Hi2 by (subst st1; lookup_tac).
    eapply wp_wr; [exact Hi2|]. eapply (HQ _ sn).
    subst st1. constructor; cbn [nodes root sentinel set_mem mem_of rbstate_has_mem loc_of];
      try done; try lookup_tac.
    + eapply rep_frame; [|exact Hfs]. frame_tac.
    + eapply repc_frame; [|exact HK]. frame_tac.
    + apply (rep_reparent _ _ (T l i c r) (iloc y)); try done.
      eapply (rep_frame (nodes st)); [|done].
      intros x Hx. rewrite lookup_insert_ne; [done|congruence].
    + by rewrite !lookup_insert_ne by congruence.
    + intros. by rewrite !lookup_insert_ne by congruence.
Qed.

(** * Substituting a node *)

(** Distinctness and freshness of a list of addresses, one fact at a time. *)
Ltac addr_facts N F :=
  rewrite ?NoDup_cons in N;
  repeat first [rewrite not_elem_of_cons in N | rewrite not_elem_of_app in N];
  repeat first [rewrite not_elem_of_cons in F | rewrite not_elem_of_app in F];
  destruct_and? N; destruct_and? F.

Ltac front_facts N F L :=
  let N' := fresh "Hnd" in
  assert (NoDup L) as N' by (eapply NoDup_Permutation_proper; [|exact N]; solve_Permutation);
  addr_facts N' F.

(** [y] takes the place of [z]: the state that delete_substitute leaves. *)
Record substituted (e : env) (st : rbstate) (par0 : loc) (t : tree) (L : list loc)
    (st' : rbstate) : Prop := Substituted {
  sb_sent : sentinel st' = sentinel st;
  sb_root : root st' = loc_of (esent e) t;
  sb_rep : rep (nodes st') (esent e) t par0;
  sb_sn : nodes st' !! esent e = nodes st !! esent e;
  sb_frame : forall x, x ∉ L -> nodes st' !! x = nodes st !! x;
}.

Ltac substitute_run HQ Hroot :=
  cbn -[plug locs] in *; run; apply HQ; constructor;
  [done
  |cbn -[plug]; first [done | etrans; [exact Hroot|]; cbn [plug]; apply loc_of_plug;
                             unfold fill; by rewrite !loc_of_mkT]
  |rewrite rep_plug; cbn; split_and!;
   first [done | lookup_tac | rewrite ?lookup_insert_ne by congruence; rewrite lookup_insert_eq;
                              unfold obj, set_color, set_parent, set_left, set_right; simpl; congruence
         | eapply rep_frame; [|eassumption]; cbn; frame_tac
         | eapply repc_frame; [|eassumption]; cbn; frame_tac]
  |cbn [nodes]; by rewrite !lookup_insert_ne by congruence
  |cbn [nodes]; try change (locs E) with (@nil loc); frame_tac].

Lemma wp_substitute e st par0 C l z c r' y q1 q2 ny sn (Q : unit -> rbstate -> Prop) :
  root st = loc_of (esent e) (plug C (T l z c r')) ->
  nodes st !! iloc z = Some (obj z (loc_of (esent e) l) (loc_of (esent e) r') (par_of par0 C) c) ->
  rep (nodes st) (esent e) l q1 -> rep (nodes st) (esent e) r' q2 ->
  repc (nodes st) (esent e) par0 C (iloc z) ->
  nodes st !! iloc y = Some ny -> key ny = ikey y -> data ny = idata y ->
  nodes st !! esent e = Some sn -> l <> E ->
  NoDup (iloc y :: iloc z :: locs l ++ locs r' ++ clocs C) ->
  esent e ∉ (iloc y :: iloc z :: locs l ++ locs r' ++ clocs C) ->
  (forall st', substituted e st par0 (plug C (T l y c r'))
                 (iloc y :: locs l ++ locs r' ++ clocs C) st' -> Q tt st') ->
  wp (delete_substitute (esent e) (iloc z) (iloc y)) Q st.
Proof.
  intros Hroot Hz Hl Hr HC Hy Hk Hdat Hsn HE Hnd Hfr HQ.
  destruct l as [|ll i ci lr]; [done|]. clear HE. simpl in Hl. destruct Hl as (Hi & Hll & Hlr).
  rewrite locs_T_perm in Hnd, Hfr. simpl in Hnd, Hfr.
  assert (C <> [] -> root st <> iloc z) as Hrz.
  { intros HCn. rewrite Hroot. destruct C as [|f C]; [done|].
    destruct (loc_of_plug_cons (esent e) f C (T (T ll i ci lr) z c r')) as (j & Hj & Hin).
    apply clocs_items in Hin. rewrite Hj. addr_facts Hnd Hfr. congruence. }
  unfold delete_substitute, ngx_rbt_copy_color.
  destruct r' as [|rl k ck rr], C as [|[df fi fc fs] C];
    cbn [clocs fitem fsib] in Hnd, Hfr, HQ; rewrite ?locs_T_perm in Hnd, Hfr;
    try change (locs E) with (@nil loc) in *;
    try (assert (root st <> iloc z) by (by apply Hrz)); clear Hrz.
  - addr_facts Hnd Hfr. assert (root st = iloc z) by exact Hroot. substitute_run HQ Hroot.
  - front_facts Hnd Hfr (iloc y :: iloc z :: iloc i :: iloc fi :: locs ll ++ locs lr ++
                         locs fs ++ clocs C).
    assert (loc_of (esent e) fs <> iloc z) by (by apply loc_of_ne).
    destruct HC as (Hf & Hfs & HC). destruct df; substitute_run HQ Hroot.
  - front_facts Hnd Hfr (iloc y :: iloc z :: iloc i :: iloc k :: locs ll ++ locs lr ++
                         locs rl ++ locs rr).
    assert (root st = iloc z) by exact Hroot.
    destruct Hr as (Hk' & Hrl & Hrr). substitute_run HQ Hroot.
  - front_facts Hnd Hfr (iloc y :: iloc z :: iloc i :: iloc k :: iloc fi :: locs ll ++ locs lr ++
                         locs rl ++ locs rr ++ locs fs ++ clocs C).
    assert (loc_of (esent e) fs <> iloc z) by (by apply loc_of_ne).
    destruct Hr as (Hk' & Hrl & Hrr). destruct HC as (Hf & Hfs & HC).
    destruct df; substitute_run HQ Hroot.
Qed.
