(* ===== verification/RbtreeDelete.v ===== *)
(** ngx_rbtree_delete keeps the red-black discipline and removes exactly its
    node. *)
From stdpp Require Import sorting.
From S2P Require Import Prelude Store Rbtree RbtreeRep RbtreeInsert RbtreeUnlink.

(** * The deletion as a whole *)

(** The environment in which the erased node is no longer touched. *)
Definition narrow (e : env) (z : item) (st : rbstate) : env :=
  Env (esent e) (filter (fun x => x <> iloc z) (owned e)) (nodes st).

Lemma tree_at_narrow e st sn par0 t z :
  tree_at e st sn par0 t -> iloc z ∉ locs t -> iloc z <> esent e ->
  tree_at (narrow e z st) st sn par0 t.
Proof.
  intros [Hs Hr Hrep Hnd Ho Hf Hso Hsn Hblk Hoth] Hz Hze. constructor; simpl; try done.
  - intros x Hx. apply list_elem_of_filter. split; [congruence|auto].
  - apply list_elem_of_filter. by split.
Qed.

Lemma tree_at_widen e st0 sn0 par00 t0 z st sn par0 t :
  tree_at e st0 sn0 par00 t0 -> tree_at (narrow e z st0) st sn par0 t ->
  tree_at e st sn par0 t /\ nodes st !! iloc z = nodes st0 !! iloc z.
Proof.
  intros [_ _ _ _ _ _ Hso0 _ _ Hoth0] [Hs Hr Hrep Hnd Ho Hf Hso Hsn Hblk Hoth].
  simpl in *. split.
  - constructor; simpl; try done.
    + intros x Hx. by apply Ho, list_elem_of_filter in Hx as [_ ?].
    + intros x Hx. rewrite Hoth, Hoth0; [done|done|]. by intros [_ ?]%list_elem_of_filter.
  - apply Hoth. by intros [? _]%list_elem_of_filter.
Qed.

Section delete.
Context (e : env) (z : item) (fuel : nat).
Abbreviation s := (esent e).

Definition deleted (L : list item) (st' : rbstate) : Prop :=
  exists t', rbtree e st' t' /\ inorder t' = L /\ erased st' z.

(** Erasing the node and re-balancing from the hole [subst] left. *)
Lemma del_finish st sn par0 K d y cy t1 m :
  tree_at e st sn par0 (plug K t1) -> unlinked e st z (plug K t1) ->
  (t1 = E -> K <> [] -> parent sn = par_of par0 K) ->
  rbt (mkT d E y cy t1) cy m -> ctx_ok K m -> (cy = true -> black_top K) ->
  (S (length K) < fuel)%nat ->
  wp (_ ← delete_erase (iloc z);
      if cy then mret tt else delete_fixup fuel s (loc_of s t1))
     (fun _ => deleted (inorder (plug K t1))) st.
Proof.
  intros H Hul Hh Hy HK Htop Hfuel. apply wp_bind. eapply wp_erase; [exact H|exact Hul|].
  clear H. intros st' H Her. destruct cy.
  - apply wp_ret. destruct (rbt_true_T _ _ Hy d) as (a & i & b & Heq & Ha & Hb).
    assert (a = E /\ b = t1) as [-> ->] by (destruct d; simpl in Heq; by simplify_eq).
    inversion Ha; subst m. assert (t1 = E) as -> by (by inversion Hb).
    destruct (rbt_plug K E false 0) as [n Hn]; [constructor|done|done|].
    exists (plug K E). split_and!; [split; eauto|done|done].
  - assert (exists m' ct, m = S m' /\ rbt t1 ct m') as (m' & ct & -> & Ht1).
    { destruct d; inversion Hy; subst; eauto. }
    pose proof (ul_not_in _ _ _ _ Hul). pose proof (ul_not_sent _ _ _ _ Hul).
    eapply wp_mono.
    { eapply (wp_delete_fixup (narrow e z st')).
      - exists K, t1, m'. split_and!; [by apply tree_at_narrow|done| |exact HK|exact Hh|done|done].
        destruct ct; [right|by left]. inversion Ht1; subst. split; [done|]. simpl. eauto using rbt.
      - destruct (is_red t1); lia. }
    intros [] st2 (t & n & Ht & HL & Hn).
    destruct (tree_at_widen _ _ _ _ _ _ _ _ _ _ H Ht) as [Ht' Hz].
    exists t. split_and!; [split; eauto|done|]. unfold erased. by rewrite Hz.
Qed.

(** The node itself is unlinked: one of its children is empty. *)
Lemma del_self st sn par0 df fi fc fs K d c t1 m :
  tree_at e st sn par0 (plug (Frame df fi fc fs :: K) (mkT d E z c t1)) ->
  rbt (mkT d E z c t1) c m -> ctx_ok (Frame df fi fc fs :: K) m ->
  (c = true -> black_top (Frame df fi fc fs :: K)) -> (S (S (length K)) < fuel)%nat ->
  wp (delete_inner fuel s (iloc z) (iloc z) (loc_of s t1))
     (fun _ => deleted (inorder (plug (Frame df fi fc fs :: K) t1))) st.
Proof.
  intros H Hrb HK Htop Hfuel. unfold delete_inner.
  apply wp_bind. eapply wp_is_red; [exact H|by rewrite loc_of_mkT|].
  rewrite (rbt_color _ _ _ Hrb).
  step_with wp_rd_parent H. apply wp_assoc, wp_bind.
  eapply wp_replace_child; [exact H|by destruct d|by rewrite loc_of_mkT|].
  rewrite decide_True by done.
  apply wp_bind. eapply wp_cut; [exact H|]. intros st' sn' Hc.
  pose proof H as H'. rewrite plug_up in H'.
  tree_facts H' (iloc fi :: iloc z :: locs t1 ++ locs fs ++ clocs K).
  assert (tree_at e st' sn' par0 (plug (Frame df fi fc fs :: K) t1)) as Ht.
  { eapply (tree_at_shrink _ _ _ _ _ z); [exact H|perm_tac|apply Hc| |  |apply Hc|apply Hc|].
    - rewrite (cut_root _ _ _ _ _ _ _ _ _ _ _ _ _ Hc), (ta_root _ _ _ _ _ H).
      rewrite !plug_up. apply loc_of_plug. by rewrite !loc_of_mkT.
    - rewrite plug_up. apply rep_plug. rewrite rep_mkT, loc_of_mkT. split_and!; apply Hc.
    - intros x Hx. rewrite plug_up in Hx. split_notin Hx.
      by apply (cut_frame _ _ _ _ _ _ _ _ _ _ _ _ _ Hc). }
  eapply (del_finish _ _ _ (Frame df fi fc fs :: K)); [exact Ht| | |exact Hrb|exact HK|exact Htop|exact Hfuel].
  - split.
    + apply (ta_owned _ _ _ _ _ H). rewrite plug_up, locs_plug, !locs_mkT_perm. set_solver.
    + congruence.
    + rewrite locs_plug. cbn [clocs fitem fsib]. rewrite !not_elem_of_app, not_elem_of_cons, not_elem_of_app.
      intuition congruence.
    + rewrite (cut_y _ _ _ _ _ _ _ _ _ _ _ _ _ Hc), (ta_node _ _ _ _ _ _ _ _ _ _ H).
      destruct d; repeat eexists.
  - intros HE _. apply (cut_hole _ _ _ _ _ _ _ _ _ _ _ _ _ Hc HE).
Qed.

(** After the cut of [y] the place of [z] is intact, up to the parent field
    of the right subtree. *)
Lemma cut_parts st st' sn' par0 D C l c df fi fc fs K y t1 q :
  D ++ Frame SRight z c l :: C = Frame df fi fc fs :: K ->
  (q = iloc fi \/ D = []) ->
  cut e st par0 df fi fc fs K y t1 q st' sn' ->
  nodes st' !! iloc z =
    Some (obj z (loc_of s l) (loc_of s (plug D t1)) (par_of par0 C) c) /\
  rep (nodes st') s l (iloc z) /\
  (exists q2, rep (nodes st') s (plug D t1) q2) /\
  repc (nodes st') s par0 C (iloc z).
Proof.
  intros HK Hq Hc. destruct D as [|f D]; simpl in HK; simplify_eq.
  - pose proof (cut_node _ _ _ _ _ _ _ _ _ _ _ _ _ Hc). split_and!; eauto; try apply Hc.
    exists q. apply Hc.
  - destruct Hq as [->|]; [|done].
    assert (rep (nodes st') s (plug C (T l z c (plug (Frame df fi fc fs :: D) t1))) par0) as Hrep.
    { change (T l z c ?x) with (fill (Frame SRight z c l) x).
      change (plug C (fill ?f ?t)) with (plug (f :: C) t).
      rewrite <- plug_app. cbn [app]. rewrite plug_up. apply rep_plug.
      rewrite rep_mkT, loc_of_mkT. split_and!; apply Hc. }
    apply rep_plug in Hrep as [(? & ? & ?) ?]. split_and!; eauto.
Qed.

Lemma ctx_ok_rename D d i j c sib C n :
  ctx_ok (D ++ Frame d i c sib :: C) n -> ctx_ok (D ++ Frame d j c sib :: C) n.
Proof.
  revert n. induction D as [|f D IH]; intros n; simpl; inversion 1; subst; eauto using ctx_ok.
  apply ctx_red; auto. by destruct D.
Qed.

Lemma pre_all_left D : all_left D -> pre D = [].
Proof. induction 1 as [|f D Hf HD IH]; simpl; [done|]. by rewrite IH, Hf. Qed.

(** Another node [y], the leftmost one of the right subtree, is unlinked and
    takes the place of [z]. *)
Lemma del_subst st sn par0 C l c D y cy t1 m :
  let r := plug D (T E y cy t1) in
  let K := D ++ Frame SRight y c l :: C in
  tree_at e st sn par0 (plug C (T l z c r)) -> l <> E -> all_left D ->
  rbt (T E y cy t1) cy m -> ctx_ok (D ++ Frame SRight z c l :: C) m ->
  (cy = true -> black_top (D ++ Frame SRight z c l :: C)) -> (S (length K) < fuel)%nat ->
  wp (delete_inner fuel s (iloc z) (iloc y) (loc_of s t1))
     (fun _ => deleted (pre C ++ inorder l ++ inorder r ++ post C)) st.
Proof.
  intros r K H HE HD Hrb HK Htop Hfuel. unfold delete_inner.
  set (r' := plug D t1).
  assert (locs r ≡ₚ iloc y :: locs r') as Hlr by (subst r r'; rewrite !locs_plug, locs_T_perm; done).
  destruct (ta_facts _ _ _ _ _ (iloc y :: iloc z :: locs l ++ locs r' ++ clocs C) H) as [Hnd Hfr].
  { rewrite locs_plug, locs_T_perm, Hlr. solve_Permutation. }
  assert (exists df fi fc fs K', D ++ Frame SRight z c l :: C = Frame df fi fc fs :: K' /\
            iloc fi = par_of (iloc z) D /\
            (if decide (iloc fi = iloc z) then iloc y else iloc fi) = par_of (iloc y) D /\
            (par_of (iloc y) D = iloc fi \/ D = []))
    as (df & fi & fc & fs & K' & HK0 & Hfi & Hq & HqD).
  { destruct D as [|[df fi fc fs] D]; simpl.
    - exists SRight, z, c, l, C. rewrite decide_True by done. by split_and!; [..|right].
    - exists df, fi, fc, fs, (D ++ Frame SRight z c l :: C). split_and!; [done|done| |by left].
      rewrite decide_False; [done|]. intros Heq. subst r'.
      rewrite locs_plug in Hnd. simpl in Hnd. rewrite Heq in Hnd.
      rewrite !NoDup_cons in Hnd.
      repeat first [rewrite not_elem_of_cons in Hnd | rewrite not_elem_of_app in Hnd]. tauto. }
  assert (tree_at e st sn par0 (plug (Frame df fi fc fs :: K') (mkT SLeft E y cy t1))) as H0.
  { rewrite <- HK0, plug_app. exact H. }
  apply wp_bind. eapply wp_is_red; [exact H0|done|]. cbn [is_red mkT].
  step_with wp_rd_parent H0. apply wp_assoc, wp_bind.
  eapply wp_replace_child; [exact H0|done|done|].
  rewrite decide_False by (rewrite !NoDup_cons, not_elem_of_cons in Hnd; tauto). rewrite Hq.
  apply wp_bind, wp_bind. eapply wp_cut; [exact H0|]. intros st' sn' Hc.

  destruct (cut_parts _ _ _ _ _ _ _ _ _ _ _ _ _ _ _ _ HK0 HqD Hc)
    as (Hz & Hl & (q2 & Hr') & HC). fold r' in Hz, Hr'.
  pose proof (ta_node _ _ _ _ _ _ _ _ _ _ H0) as Hy0.
  assert (root st' = loc_of s (plug C (T l z c r'))) as Hroot.
  { rewrite (cut_root _ _ _ _ _ _ _ _ _ _ _ _ _ Hc), (ta_root _ _ _ _ _ H).
    by apply loc_of_plug. }
  eapply (wp_substitute e st' par0 C l z c r' y); [exact Hroot|exact Hz|exact Hl|exact Hr'|exact HC
    |rewrite (cut_y _ _ _ _ _ _ _ _ _ _ _ _ _ Hc); exact Hy0|done|done|apply Hc|exact HE
    |exact Hnd|exact Hfr|].
  intros st2 Hs2.
  assert (forall x, x <> s -> x ∉ iloc y :: iloc z :: locs l ++ locs r' ++ clocs C ->
            nodes st2 !! x = nodes st !! x) as Hframe.
  { assert (iloc fi ∈ iloc z :: locs r').
    { rewrite Hfi. subst r'. rewrite locs_plug. destruct D; simpl; [by left|set_solver]. }
    assert (forall x, x ∈ locs t1 -> x ∈ locs r').
    { intros x ?. subst r'. rewrite locs_plug. set_solver. }
    clear - Hs2 Hc H1 H2. intros x Hxs Hx. rewrite (sb_frame _ _ _ _ _ _ Hs2) by set_solver.
    apply (cut_frame _ _ _ _ _ _ _ _ _ _ _ _ _ Hc); [done|set_solver|set_solver]. }
  assert (plug C (T l y c r') = plug K t1) as HpK by (subst K; by rewrite plug_app).
  assert (tree_at e st2 sn' par0 (plug K t1)) as Ht2.
  { rewrite <- HpK. eapply (tree_at_shrink _ _ _ _ _ z); [exact H| | |apply Hs2|apply Hs2| |apply Hc|].
    - rewrite !locs_plug, !locs_T_perm, Hlr. solve_Permutation.
    - rewrite (sb_sent _ _ _ _ _ _ Hs2). apply Hc.
    - rewrite (sb_sn _ _ _ _ _ _ Hs2). apply Hc.
    - intros x Hx. rewrite not_elem_of_cons, locs_plug, locs_T_perm, Hlr in Hx.
      apply Hframe; [by destruct Hx|]. set_solver. }
  assert (par_of par0 K = par_of (iloc y) D) as HpK2 by (by destruct D).
  eapply wp_mono.
  { eapply (del_finish st2 sn' par0 K SLeft y cy t1 m); [exact Ht2| | |exact Hrb| | |exact Hfuel].
    - rewrite <- HpK. split.
      + apply (ta_owned _ _ _ _ _ H). rewrite locs_plug, locs_T_perm. set_solver.
      + clear - Hfr. set_solver.
      + clear - Hnd. rewrite locs_plug, locs_T_perm. rewrite !NoDup_cons in Hnd. set_solver.
      + rewrite (sb_frame _ _ _ _ _ _ Hs2); [rewrite Hz; by repeat eexists|].
        clear - Hnd. rewrite !NoDup_cons in Hnd. set_solver.
    - intros HE' _. rewrite HpK2. by apply Hc.
    - by eapply ctx_ok_rename.
    - intros Hcy. specialize (Htop Hcy). by destruct D. }
  intros [] st3 (t3 & Ht3 & Hin & Her). exists t3. split_and!; [done| |done].
  rewrite Hin, <- HpK. subst r r'. rewrite !inorder_plug. simpl. rewrite !inorder_plug.
  rewrite (pre_all_left _ HD). cbn. repeat (rewrite <- app_assoc; cbn). done.
Qed.

(** The root goes: its only child becomes the root. *)
Lemma del_root st sn par0 d c t1 :
  tree_at e st sn par0 (mkT d E z c t1) -> (exists n, rbt (mkT d E z c t1) false n) ->
  wp (_ ← set_root (loc_of s t1);
      _ ← ngx_rbt_black (loc_of s t1);
      delete_erase (iloc z)) (fun _ => deleted (inorder t1)) st.
Proof.
  intros H [n Hn]. apply wp_bind. unfold wp at 1, set_root. simpl.
  destruct (ta_focus _ _ _ _ [] _ H) as [(Hz & _ & Ht1)%rep_mkT _].
  tree_facts H (iloc z :: locs t1).
  set (st0 := RbState (nodes st) (loc_of s t1) (sentinel st)).
  assert (tree_at e st0 sn (iloc z) t1) as Hst0.
  { eapply (tree_at_shrink _ _ _ _ _ z); [exact H|perm_tac|done|done|exact Ht1| | |done].
    - apply (ta_sentinel _ _ _ _ _ H).
    - apply (ta_black _ _ _ _ _ H). }
  assert (iloc z <> s) as Hzs by congruence.
  apply wp_bind.
  eapply (wp_blacken (narrow e z st0) sn (iloc z) _ [] t1); [by apply tree_at_narrow|].
  intros st' [H' Hz']%(tree_at_widen _ _ _ _ _ _ _ _ _ _ Hst0). simpl in H', Hz'.
  assert (inorder (blacken t1) = inorder t1) as Hin by (by destruct t1).
  eapply wp_erase; [exact H'| |].
  - split; [|done| |].
    + apply (ta_owned _ _ _ _ _ H). rewrite locs_mkT_perm. by left.
    + unfold locs. by rewrite Hin.
    + rewrite Hz', Hz. destruct d; by repeat eexists.
  - intros st2 Hst2 Her. exists (blacken t1). split_and!; [|done|done]. split; [eauto|].
    destruct d; inversion Hn; subst; by eapply rbt_blacken.
Qed.

(** The node has an empty child. *)
Lemma del_simple st sn par0 C d c t1 :
  tree_at e st sn par0 (plug C (mkT d E z c t1)) -> (exists n, rbt (plug C (mkT d E z c t1)) false n) ->
  (S (S (length C)) <= fuel)%nat ->
  wp (r ← get_root;
      if decide (iloc z = r) then
        _ ← set_root (loc_of s t1);
        _ ← ngx_rbt_black (loc_of s t1);
        delete_erase (iloc z)
      else delete_inner fuel s (iloc z) (iloc z) (loc_of s t1))
     (fun _ => deleted (pre C ++ inorder t1 ++ post C)) st.
Proof.
  intros H [n Hn] Hfuel. apply wp_bind. eapply wp_get_root; [exact H|].
  destruct (decide _) as [Hr|Hr].
  - apply (focus_root_inv e st sn par0 C d) in Hr as ->; [|exact H]. cbn [plug] in *.
    change (pre [] ++ inorder t1 ++ post []) with (inorder t1 ++ []). rewrite app_nil_r.
    eapply del_root; eauto.
  - destruct C as [|[df fi fc fs] K]; [by cbn [plug] in Hr; rewrite loc_of_mkT in Hr|].
    destruct (rbt_unplug _ _ _ Hn) as (ct & m & Ht & HK & Htop).
    assert (ct = c) as -> by (apply rbt_color in Ht; by destruct d).
    rewrite <- inorder_plug. eapply del_self; [exact H|exact Ht|exact HK|exact Htop|simpl in *; lia].
Qed.
End delete.

(** Writes of ngx_rbtree_delete when the node itself is unlinked. *)
Lemma wp_ngx_rbtree_delete e fuel st z C l c r :
  rbtree e st (plug C (T l z c r)) -> (walk_fuel (size (plug C (T l z c r))) <= fuel)%nat ->
  wp (ngx_rbtree_delete fuel (iloc z))
     (fun _ => deleted e z (pre C ++ inorder l ++ inorder r ++ post C)) st.
Proof.
  intros Ht Hfuel. pose proof (rbtree_height _ _ _ Ht) as Hh.
  destruct Ht as [(sn & par0 & H) [n Hn]].
  pose proof (plug_height C (T l z c r)) as HhC. simpl in HhC.
  unfold wp at 1, ngx_rbtree_delete. rewrite (ta_sent _ _ _ _ _ H).
  match goal with |- match ?cm st with _ => _ end => change (wp cm
     (fun _ => deleted e z (pre C ++ inorder l ++ inorder r ++ post C)) st) end.
  apply wp_bind. unfold delete_select.
  apply wp_bind. eapply (wp_rd_child _ _ _ _ C SLeft l z c r); [exact H|done|].
  destruct (decide _) as [Hl|Hl].
  { apply (loc_of_sent_inv e st sn par0 (Frame SLeft z c r :: C)) in Hl as ->; [|exact H].
    apply wp_bind. eapply (wp_rd_child e st sn par0 C SRight r z c E); [exact H|done|].
    apply wp_ret. by eapply (del_simple _ _ _ _ _ _ _ SLeft c r); [exact H|eauto|lia]. }
  apply wp_bind. eapply (wp_rd_child e st sn par0 C SRight r z c l); [exact H|done|].
  destruct (decide _) as [Hr|Hr].
  { apply (loc_of_sent_inv e st sn par0 (Frame SRight z c l :: C)) in Hr as ->; [|exact H].
    apply wp_ret. eapply wp_mono.
    - eapply (del_simple _ _ _ _ _ _ _ SRight c l); [exact H|eauto|lia].
    - intros [] st' Hd. exact Hd. }
  assert (l <> E) as HlE by (intros ->; done). assert (r <> E) as HrE by (intros ->; done).
  apply wp_bind. eapply (wp_min e st sn par0 (Frame SRight z c l :: C) r); [exact H|done|lia|].
  intros D y cy t1 -> HD.
  assert (tree_at e st sn par0 (plug (D ++ Frame SRight z c l :: C) (T E y cy t1))) as Hy
    by (rewrite plug_app; exact H).
  apply wp_bind. eapply (wp_rd_child e st sn par0 _ SLeft E y cy t1); [exact Hy|done|].
  rewrite decide_True by done.
  apply wp_bind. eapply (wp_rd_child e st sn par0 _ SRight t1 y cy E); [exact Hy|done|].
  apply wp_ret, wp_bind. eapply wp_get_root; [exact H|].
  rewrite decide_False.
  - destruct (rbt_unplug (D ++ Frame SRight z c l :: C) (T E y cy t1) n)
      as (ct & m & Ht & HK & Htop); [by rewrite plug_app|].
    assert (ct = cy) as -> by (by apply rbt_color in Ht).
    eapply del_subst; [exact H|exact HlE|exact HD|exact Ht|exact HK|exact Htop|].
    pose proof (plug_height D (T E y cy t1)). simpl in *. rewrite length_app. simpl. lia.
  - intros Heq. change (plug C (T l z c (plug D (T E y cy t1))))
      with (plug (Frame SRight z c l :: C) (plug D (T E y cy t1))) in Heq.
    rewrite <- plug_app in Heq. apply (focus_root_inv e st sn par0 _ SLeft) in Heq; [|exact Hy].
    by destruct D.
Qed.

(** * Properties *)

Lemma by_rank_delete rank l1 z l2 : by_rank rank (l1 ++ z :: l2) -> by_rank rank (l1 ++ l2).
Proof.
  unfold by_rank. rewrite !StronglySorted_app, StronglySorted_cons.
  intros (Hx & ? & ? & ?). split_and!; [|done..]. intros x y ??. apply Hx; [done|by right].
Qed.

(** C2: deleting a node of a red-black tree with ngx_rbtree_delete neither
    dereferences a wild pointer nor loops (the budget is logarithmic in the
    size); it gives a red-black tree whose listing is the old one without the
    node (so any search order is kept), erases the node's links, and changes
    no object outside [owned]. *)
Theorem delete_correct e fuel st t z :
  rbtree e st t -> z ∈ inorder t -> (walk_fuel (size t) <= fuel)%nat ->
  exists st' l1 l2,
    ngx_rbtree_delete fuel (iloc z) st = Some (tt, st') /\
    inorder t = l1 ++ z :: l2 /\ deleted e z (l1 ++ l2) st' /\
    (forall rank, by_rank rank (inorder t) -> by_rank rank (l1 ++ l2)).
Proof.
  intros Ht Hz Hfuel. destruct (in_focus _ _ Hz) as (C & l & c & r & ->).
  pose proof (wp_ngx_rbtree_delete _ _ _ _ _ _ _ _ Ht Hfuel) as Hwp.
  apply wp_run in Hwp as ([] & st' & Hrun & Hd).
  assert (inorder (plug C (T l z c r)) = (pre C ++ inorder l) ++ z :: (inorder r ++ post C)) as Hin0.
  { rewrite inorder_plug. simpl. by rewrite <- !app_assoc. }
  exists st', (pre C ++ inorder l), (inorder r ++ post C). rewrite Hin0.
  split_and!; [done..| |].
  - by rewrite <- app_assoc.
  - intros rank. apply by_rank_delete.
Qed.
