(* ===== verification/RbtreeLife.v ===== *)
(** The life of a tree: every state that clients reach from ngx_rbtree_init by
    inserting nodes, deleting nodes and writing to nodes outside the tree is a
    red-black search tree of the nodes inserted and not yet deleted. At the end,
    concrete trees on which the hypotheses of the theorems hold. *)
From stdpp Require Import sorting.
From S2P Require Import Prelude Store Rbtree RbtreeRep RbtreeInsert RbtreeUnlink RbtreeDelete.

Section life.
Context (e : env).

(** A client may change a node object it owns while it is in no tree. *)
Definition client_write (st : rbstate) (p : loc) (n : node) : rbstate :=
  RbState (<[p := n]> (nodes st)) (root st) (sentinel st).

(** [reached st l]: [st] is reachable, and the clients of the tree have the
    items [l] in it. The budget of the loops is any one that is large enough
    for the number of nodes. *)
Inductive reached : rbstate -> list item -> Prop :=
| reach_init m st :
    (forall x, x ∉ owned e -> m !! x = others e !! x) -> esent e ∈ owned e ->
    ngx_rbtree_init m (esent e) = Some st -> reached st []
| reach_write st l p n :
    reached st l -> p ∈ owned e -> p <> esent e -> p ∉ iloc <$> l ->
    reached (client_write st p n) l
| reach_insert st l fuel i n st' :
    reached st l -> iloc i ∈ owned e -> iloc i <> esent e -> iloc i ∉ iloc <$> l ->
    nodes st !! iloc i = Some n -> key n = ikey i -> data n = idata i ->
    (walk_fuel (length l) <= fuel)%nat ->
    ngx_rbtree_insert (ngx_rbtree_insert_value fuel) fuel (iloc i) st = Some (tt, st') ->
    reached st' (i :: l)
| reach_delete st l fuel i st' :
    reached st l -> i ∈ l -> (walk_fuel (length l) <= fuel)%nat ->
    ngx_rbtree_delete fuel (iloc i) st = Some (tt, st') ->
    forall l', i :: l' ≡ₚ l -> reached st' l'.

Definition search_tree (st : rbstate) (l : list item) : Prop :=
  exists t, rbtree e st t /\ by_rank ikey (inorder t) /\ inorder t ≡ₚ l.

Lemma init_empty m st :
  (forall x, x ∉ owned e -> m !! x = others e !! x) -> esent e ∈ owned e ->
  ngx_rbtree_init m (esent e) = Some st -> search_tree st [].
Proof.
  intros Hm Ho. unfold ngx_rbtree_init, ngx_rbt_black, wr. simpl.
  destruct (m !! esent e) as [sn|] eqn:Hsn; [|done]. intros [= <-].
  exists E. split; [|split; [constructor|done]]. split; [|exists 0%nat; constructor].
  exists (set_color 0 sn), NULL. constructor; simpl; try done.
  - constructor.
  - by intros x ?%not_elem_of_nil.
  - apply not_elem_of_nil.
  - by rewrite lookup_insert_eq.
  - intros x Hx. rewrite lookup_insert_ne by congruence. auto.
Qed.

Lemma write_keeps st l p n :
  search_tree st l -> p ∈ owned e -> p <> esent e -> p ∉ iloc <$> l ->
  search_tree (client_write st p n) l.
Proof.
  intros (t & Ht & Hs & Hl) Ho Hp Hni. exists t. split; [|by split].
  apply (rbtree_outside _ _ _ _ p); try done; unfold locs; [by rewrite Hl|].
  intros x Hx. by apply lookup_insert_ne.
Qed.

Lemma insert_keeps st l fuel i n st' :
  search_tree st l -> iloc i ∈ owned e -> iloc i <> esent e -> iloc i ∉ iloc <$> l ->
  nodes st !! iloc i = Some n -> key n = ikey i -> data n = idata i ->
  (walk_fuel (length l) <= fuel)%nat ->
  ngx_rbtree_insert (ngx_rbtree_insert_value fuel) fuel (iloc i) st = Some (tt, st') ->
  search_tree st' (i :: l).
Proof.
  intros (t & Ht & Hs & Hl) Ho Hi Hni Hn Hk Hd Hfuel Hrun.
  rewrite <- Hl in Hni, Hfuel. rewrite size_inorder in Hfuel.
  assert (fresh_node e st i t) as Hfn.
  { split; try done. destruct n. simpl in *. subst. by repeat eexists. }
  pose proof (wp_ngx_rbtree_insert _ value_less _ _ _ _ _ _ Ht Hfn Hfuel I (any_items _)) as Hwp.
  unfold wp in Hwp. rewrite Hrun in Hwp. destruct Hwp as (t' & C & Ht' & HC & HD & Hin).
  apply pre_post_of_plug in HC. rewrite HC in Hs.
  destruct (insert_by_rank ikey value_less C i) as (_ & _ & Hs'); [done|done|done|].
  exists t'. split; [done|]. rewrite Hin. split; [done|].
  rewrite <- Hl, HC. solve_Permutation.
Qed.

Lemma delete_keeps st l fuel i st' l' :
  search_tree st l -> i ∈ l -> (walk_fuel (length l) <= fuel)%nat ->
  ngx_rbtree_delete fuel (iloc i) st = Some (tt, st') -> i :: l' ≡ₚ l ->
  search_tree st' l'.
Proof.
  intros (t & Ht & Hs & Hl) Hi Hfuel Hrun Hl'.
  rewrite <- Hl in Hi, Hfuel. rewrite size_inorder in Hfuel.
  destruct (in_focus _ _ Hi) as (C & tl & c & tr & ->).
  pose proof (wp_ngx_rbtree_delete _ _ _ _ _ _ _ _ Ht Hfuel) as Hwp.
  unfold wp in Hwp. rewrite Hrun in Hwp. destruct Hwp as (t' & Ht' & Hin & _).
  rewrite inorder_plug in Hs, Hl. cbn [inorder] in Hs, Hl.
  exists t'. split; [done|]. rewrite Hin. split.
  - rewrite app_assoc. apply (by_rank_delete ikey _ i). by rewrite <- !app_assoc in *.
  - apply (Permutation_cons_inv (a := i)). rewrite Hl', <- Hl. solve_Permutation.
Qed.

Lemma reached_search_tree st l : reached st l -> search_tree st l.
Proof.
  induction 1; eauto using init_empty, write_keeps, insert_keeps, delete_keeps.
Qed.
End life.

(** * Properties *)

(** C3: along every history of ngx_rbtree_init, client writes to nodes outside
    the tree, insertions and deletions, the tree stays a red-black search tree
    of exactly the nodes inserted and not yet deleted; and each deletion and
    insertion a client may issue next ends, within its budget. *)
Theorem history_correct e st l :
  reached e st l ->
  search_tree e st l /\
  (forall i, i ∈ l -> exists st', ngx_rbtree_delete (walk_fuel (length l)) (iloc i) st = Some (tt, st')) /\
  (forall i n, iloc i ∈ owned e -> iloc i <> esent e -> iloc i ∉ iloc <$> l ->
     nodes st !! iloc i = Some n -> key n = ikey i -> data n = idata i ->
     exists st', ngx_rbtree_insert (ngx_rbtree_insert_value (walk_fuel (length l)))
                   (walk_fuel (length l)) (iloc i) st = Some (tt, st')).
Proof.
  intros H%reached_search_tree. split; [done|].
  destruct H as (t & Ht & _ & Hl). 
  assert (length l = size t) as -> by (by rewrite <- Hl, size_inorder). split.
  - intros i Hi. rewrite <- Hl in Hi. destruct (in_focus _ _ Hi) as (C & tl & c & tr & ->).
    pose proof (wp_ngx_rbtree_delete _ _ _ _ _ _ _ _ Ht (le_n _)) as Hwp.
    apply wp_run in Hwp as ([] & st' & Hrun & _). eauto.
  - intros i n Ho Hi Hni Hn Hk Hd. rewrite <- Hl in Hni.
    assert (fresh_node e st i t) as Hfn.
    { split; try done. destruct n. simpl in *. subst. by repeat eexists. }
    pose proof (wp_ngx_rbtree_insert _ value_less _ _ _ _ _ _ Ht Hfn (le_n _) I (any_items _)) as Hwp.
    apply wp_run in Hwp as ([] & st' & Hrun & _). eauto.
Qed.

(** ngx_rbtree_min, called on the root of a search tree that holds nodes,
    ends within the logarithmic budget, leaves the store unchanged and returns
    a node with the smallest key of all. *)
Theorem min_correct e fuel st l :
  search_tree e st l -> l <> [] -> (walk_fuel (length l) <= fuel)%nat ->
  exists i, i ∈ l /\ Forall (fun j => ikey i <= ikey j) l /\
    ngx_rbtree_min fuel (root st) (sentinel st) st = Some (iloc i, st).
Proof.
  intros (t & Ht & Hs & Hl) HE Hfuel. pose proof (rbtree_height _ _ _ Ht).
  rewrite <- Hl, size_inorder in Hfuel.
  assert (t <> E) as HtE by (intros ->; by apply Permutation_nil_l in Hl).
  destruct Ht as [(sn & par0 & H') [n Hn]].
  rewrite (ta_root _ _ _ _ _ H'), (ta_sent _ _ _ _ _ H').
  assert (wp (ngx_rbtree_min fuel (loc_of (esent e) t) (esent e))
            (fun p st' => st' = st /\ exists i k, inorder t = i :: k /\ p = iloc i) st) as Hwp.
  { eapply (wp_min e st sn par0 []); [exact H'|exact HtE|lia|]. intros D y cy t1 -> HD.
    split; [done|]. exists y, (inorder t1 ++ post D).
    by rewrite inorder_plug, (pre_all_left _ HD). }
  apply wp_run in Hwp as (p & st' & Hrun & -> & i & k & Hin & ->).
  unfold by_rank in Hs. rewrite Hin in Hs, Hl. apply StronglySorted_cons in Hs as [Hi _].
  exists i. rewrite <- Hl. split_and!; [set_solver| |done]. by constructor.
Qed.

Definition demo_item (p : loc) : item := Item p (10 * p) 7.
Definition demo_env : env := Env 1 [1; 2; 3; 4; 5] ∅.
Definition demo_tree : tree :=
  T (T E (demo_item 2) true E) (demo_item 3) false (T E (demo_item 4) true E).
Definition demo_new : node := Node 50 0 0 0 0 7.

(** The sentinel, the nodes of [demo_tree], and a fresh node at address 5. *)
Definition demo_nodes : gmap loc node :=
  <[1 := Node 0 0 0 0 0 0]> (<[2 := obj (demo_item 2) 1 1 3 true]>
  (<[3 := obj (demo_item 3) 2 4 0 false]> (<[4 := obj (demo_item 4) 1 1 3 true]>
  (<[5 := demo_new]> ∅)))).
Definition demo_state : rbstate := RbState demo_nodes 3 1.

Lemma demo_rbtree : rbtree demo_env demo_state demo_tree.
Proof.
  split.
  - exists (Node 0 0 0 0 0 0), 0. split; try done.
    + apply (bool_decide_unpack _). by vm_compute.
    + intros x Hx. vm_compute in Hx. vm_compute. set_solver.
    + apply (bool_decide_unpack _). by vm_compute.
    + apply (bool_decide_unpack _). by vm_compute.
    + intros x Hx. simpl in Hx. rewrite !not_elem_of_cons in Hx. destruct_and? Hx.
      unfold demo_state, demo_nodes. simpl. by rewrite !lookup_insert_ne by congruence.
  - exists 1%nat. unfold demo_tree. repeat econstructor.
Qed.

Lemma demo_fresh : fresh_node demo_env demo_state (demo_item 5) demo_tree.
Proof.
  split; [apply (bool_decide_unpack _); by vm_compute|done| |by repeat eexists].
  apply (bool_decide_unpack _). by vm_compute.
Qed.

Lemma demo_ordered : by_rank ikey (inorder demo_tree).
Proof. repeat constructor; simpl; lia. Qed.

Lemma demo_timer_ordered : by_rank (timer_rank (2 ^ 32 - 5)) (inorder demo_tree).
Proof. repeat constructor; vm_compute; discriminate. Qed.

(** An empty store of the three addresses, and the state after
    ngx_rbtree_init and one insertion. *)
Definition demo_store : gmap loc node :=
  <[1 := Node 0 0 0 0 9 0]> (<[2 := Node 20 0 0 0 0 7]> ∅).
Definition demo_life_env : env := Env 1 [1; 2] ∅.
Definition demo_init : option rbstate := ngx_rbtree_init demo_store 1.

Lemma demo_reached :
  exists st, (s ← demo_init; ngx_rbtree_insert (ngx_rbtree_insert_value 4) 4 2 s) = Some (tt, st) /\
    reached demo_life_env st [demo_item 2].
Proof.
  eexists. split; [reflexivity|].
  eapply (reach_insert _ _ _ 4 (demo_item 2));
    [eapply (reach_init _ demo_store); [|apply (bool_decide_unpack _); by vm_compute|reflexivity]
    |apply (bool_decide_unpack _); by vm_compute|done|apply not_elem_of_nil|reflexivity|done|done
    |vm_compute; lia|reflexivity].
  intros x Hx. simpl in Hx. rewrite !not_elem_of_cons in Hx. destruct_and? Hx.
  unfold demo_store. by rewrite !lookup_insert_ne by congruence.
Qed.

(** * Witnesses *)

Lemma insert_value_correct_witness :
  exists st' t' l1 l2,
    ngx_rbtree_insert (ngx_rbtree_insert_value 10) 10 5 demo_state = Some (tt, st') /\
    rbtree demo_env st' t' /\ inorder demo_tree = l1 ++ l2 /\
    inorder t' = l1 ++ demo_item 5 :: l2 /\ by_rank ikey (inorder t') /\
    Forall (fun j => ikey j <= 50) l1 /\ Forall (fun j => 50 < ikey j) l2.
Proof.
  apply (insert_value_correct 10 demo_env demo_state demo_tree (demo_item 5));
    [apply demo_rbtree|apply demo_fresh|vm_compute; lia|apply demo_ordered].
Defined.

Lemma insert_timer_correct_witness :
  exists st' t' l1 l2,
    ngx_rbtree_insert (ngx_rbtree_insert_timer_value 10) 10 5 demo_state = Some (tt, st') /\
    rbtree demo_env st' t' /\ inorder demo_tree = l1 ++ l2 /\
    inorder t' = l1 ++ demo_item 5 :: l2 /\ by_rank (timer_rank (2 ^ 32 - 5)) (inorder t') /\
    Forall (fun j => timer_rank (2 ^ 32 - 5) j <= timer_rank (2 ^ 32 - 5) (demo_item 5)) l1 /\
    Forall (fun j => timer_rank (2 ^ 32 - 5) (demo_item 5) < timer_rank (2 ^ 32 - 5) j) l2.
Proof.
  apply (insert_timer_correct (2 ^ 32 - 5) 10 demo_env demo_state demo_tree (demo_item 5));
    [apply demo_rbtree|apply demo_fresh|vm_compute; lia|apply demo_timer_ordered|].
  repeat constructor; vm_compute; done.
Defined.

Lemma delete_correct_witness :
  exists st' l1 l2,
    ngx_rbtree_delete 10 3 demo_state = Some (tt, st') /\
    inorder demo_tree = l1 ++ demo_item 3 :: l2 /\
    deleted demo_env (demo_item 3) (l1 ++ l2) st' /\
    (forall rank, by_rank rank (inorder demo_tree) -> by_rank rank (l1 ++ l2)).
Proof.
  apply (delete_correct demo_env 10 demo_state demo_tree (demo_item 3));
    [apply demo_rbtree|apply (bool_decide_unpack _); by vm_compute|vm_compute; lia].
Defined.

Lemma min_correct_witness :
  exists i, i ∈ inorder demo_tree /\ Forall (fun j => ikey i <= ikey j) (inorder demo_tree) /\
    ngx_rbtree_min 10 3 1 demo_state = Some (iloc i, demo_state).
Proof.
  apply (min_correct demo_env 10 demo_state); [|done|vm_compute; lia].
  exists demo_tree. split_and!; [apply demo_rbtree|apply demo_ordered|done].
Defined.

Lemma history_correct_witness :
  exists st, search_tree demo_life_env st [demo_item 2].
Proof.
  destruct demo_reached as (st & _ & H). exists st.
  apply (history_correct demo_life_env st [demo_item 2] H).
Defined.
