(* ===== verification/Crc32.v ===== *)
(** The checksum of src/Rbtree/ngx_crc32.h and ngx_crc32.c: CRC-32 by tables of
    16 and of 256 words, against the shift register that the tables abbreviate,
    and the errors it detects. *)
From S2P Require Import Prelude.

Local Open Scope c_scope.

(** * The code *)

Definition ngx_crc32_table16 : list Z :=
  [0x00000000; 0x1db71064; 0x3b6e20c8; 0x26d930ac; 0x76dc4190; 0x6b6b51f4;
   0x4db26158; 0x5005713c; 0xedb88320; 0xf00f9344; 0xd6d6a3e8; 0xcb61b38c;
   0x9b64c2b0; 0x86d3d2d4; 0xa00ae278; 0xbdbdf21c].

Definition ngx_crc32_table256 : list Z :=
  [0x00000000; 0x77073096; 0xee0e612c; 0x990951ba; 0x076dc419; 0x706af48f;
   0xe963a535; 0x9e6495a3; 0x0edb8832; 0x79dcb8a4; 0xe0d5e91e; 0x97d2d988;
   0x09b64c2b; 0x7eb17cbd; 0xe7b82d07; 0x90bf1d91; 0x1db71064; 0x6ab020f2;
   0xf3b97148; 0x84be41de; 0x1adad47d; 0x6ddde4eb; 0xf4d4b551; 0x83d385c7;
   0x136c9856; 0x646ba8c0; 0xfd62f97a; 0x8a65c9ec; 0x14015c4f; 0x63066cd9;
   0xfa0f3d63; 0x8d080df5; 0x3b6e20c8; 0x4c69105e; 0xd56041e4; 0xa2677172;
   0x3c03e4d1; 0x4b04d447; 0xd20d85fd; 0xa50ab56b; 0x35b5a8fa; 0x42b2986c;
   0xdbbbc9d6; 0xacbcf940; 0x32d86ce3; 0x45df5c75; 0xdcd60dcf; 0xabd13d59;
   0x26d930ac; 0x51de003a; 0xc8d75180; 0xbfd06116; 0x21b4f4b5; 0x56b3c423;
   0xcfba9599; 0xb8bda50f; 0x2802b89e; 0x5f058808; 0xc60cd9b2; 0xb10be924;
   0x2f6f7c87; 0x58684c11; 0xc1611dab; 0xb6662d3d; 0x76dc4190; 0x01db7106;
   0x98d220bc; 0xefd5102a; 0x71b18589; 0x06b6b51f; 0x9fbfe4a5; 0xe8b8d433;
   0x7807c9a2; 0x0f00f934; 0x9609a88e; 0xe10e9818; 0x7f6a0dbb; 0x086d3d2d;
   0x91646c97; 0xe6635c01; 0x6b6b51f4; 0x1c6c6162; 0x856530d8; 0xf262004e;
   0x6c0695ed; 0x1b01a57b; 0x8208f4c1; 0xf50fc457; 0x65b0d9c6; 0x12b7e950;
   0x8bbeb8ea; 0xfcb9887c; 0x62dd1ddf; 0x15da2d49; 0x8cd37cf3; 0xfbd44c65;
   0x4db26158; 0x3ab551ce; 0xa3bc0074; 0xd4bb30e2; 0x4adfa541; 0x3dd895d7;
   0xa4d1c46d; 0xd3d6f4fb; 0x4369e96a; 0x346ed9fc; 0xad678846; 0xda60b8d0;
   0x44042d73; 0x33031de5; 0xaa0a4c5f; 0xdd0d7cc9; 0x5005713c; 0x270241aa;
   0xbe0b1010; 0xc90c2086; 0x5768b525; 0x206f85b3; 0xb966d409; 0xce61e49f;
   0x5edef90e; 0x29d9c998; 0xb0d09822; 0xc7d7a8b4; 0x59b33d17; 0x2eb40d81;
   0xb7bd5c3b; 0xc0ba6cad; 0xedb88320; 0x9abfb3b6; 0x03b6e20c; 0x74b1d29a;
   0xead54739; 0x9dd277af; 0x04db2615; 0x73dc1683; 0xe3630b12; 0x94643b84;
   0x0d6d6a3e; 0x7a6a5aa8; 0xe40ecf0b; 0x9309ff9d; 0x0a00ae27; 0x7d079eb1;
   0xf00f9344; 0x8708a3d2; 0x1e01f268; 0x6906c2fe; 0xf762575d; 0x806567cb;
   0x196c3671; 0x6e6b06e7; 0xfed41b76; 0x89d32be0; 0x10da7a5a; 0x67dd4acc;
   0xf9b9df6f; 0x8ebeeff9; 0x17b7be43; 0x60b08ed5; 0xd6d6a3e8; 0xa1d1937e;
   0x38d8c2c4; 0x4fdff252; 0xd1bb67f1; 0xa6bc5767; 0x3fb506dd; 0x48b2364b;
   0xd80d2bda; 0xaf0a1b4c; 0x36034af6; 0x41047a60; 0xdf60efc3; 0xa867df55;
   0x316e8eef; 0x4669be79; 0xcb61b38c; 0xbc66831a; 0x256fd2a0; 0x5268e236;
   0xcc0c7795; 0xbb0b4703; 0x220216b9; 0x5505262f; 0xc5ba3bbe; 0xb2bd0b28;
   0x2bb45a92; 0x5cb36a04; 0xc2d7ffa7; 0xb5d0cf31; 0x2cd99e8b; 0x5bdeae1d;
   0x9b64c2b0; 0xec63f226; 0x756aa39c; 0x026d930a; 0x9c0906a9; 0xeb0e363f;
   0x72076785; 0x05005713; 0x95bf4a82; 0xe2b87a14; 0x7bb12bae; 0x0cb61b38;
   0x92d28e9b; 0xe5d5be0d; 0x7cdcefb7; 0x0bdbdf21; 0x86d3d2d4; 0xf1d4e242;
   0x68ddb3f8; 0x1fda836e; 0x81be16cd; 0xf6b9265b; 0x6fb077e1; 0x18b74777;
   0x88085ae6; 0xff0f6a70; 0x66063bca; 0x11010b5c; 0x8f659eff; 0xf862ae69;
   0x616bffd3; 0x166ccf45; 0xa00ae278; 0xd70dd2ee; 0x4e048354; 0x3903b3c2;
   0xa7672661; 0xd06016f7; 0x4969474d; 0x3e6e77db; 0xaed16a4a; 0xd9d65adc;
   0x40df0b66; 0x37d83bf0; 0xa9bcae53; 0xdebb9ec5; 0x47b2cf7f; 0x30b5ffe9;
   0xbdbdf21c; 0xcabac28a; 0x53b39330; 0x24b4a3a6; 0xbad03605; 0xcdd70693;
   0x54de5729; 0x23d967bf; 0xb3667a2e; 0xc4614ab8; 0x5d681b02; 0x2a6f2b94;
   0xb40bbe37; 0xc30c8ea1; 0x5a05df1b; 0x2d02ef8d].

(** The words [ngx_crc32_table_short] points to when the program starts. *)
Definition ngx_crc32_table_short : list Z := ngx_crc32_table16.

(** [while (len--)] over the bytes at [p]: [None] if it leaves the buffer. *)
Fixpoint crc_loop (round : Z -> Z -> option Z) (len : nat) (p : list Z) (crc : Z) : option Z :=
  match len with
  | O => Some crc
  | S len =>
      match p with
      | [] => None
      | c :: p => crc ← round crc c; crc_loop round len p crc
      end
  end.

Definition short_round (table_short : list Z) (crc c : Z) : option Z :=
  t ← array_get table_short ((crc .^ (c .& 0xf)) .& 0xf);
  let crc := t .^ (crc .>> 4) in
  t ← array_get table_short ((crc .^ (c .>> 4)) .& 0xf);
  Some (t .^ (crc .>> 4)).

Definition long_round (crc c : Z) : option Z :=
  t ← array_get ngx_crc32_table256 ((crc .^ c) .& 0xff);
  Some (t .^ (crc .>> 8)).

Definition ngx_crc32_init : Z := 0xffffffff.
Definition ngx_crc32_final (crc : Z) : Z := crc .^ 0xffffffff.

Definition ngx_crc32_short (table_short p : list Z) (len : nat) : option Z :=
  crc ← crc_loop (short_round table_short) len p 0xffffffff;
  Some (crc .^ 0xffffffff).

Definition ngx_crc32_long (p : list Z) (len : nat) : option Z :=
  crc ← crc_loop long_round len p 0xffffffff;
  Some (crc .^ 0xffffffff).

Definition ngx_crc32_update (crc : Z) (p : list Z) (len : nat) : option Z :=
  crc_loop long_round len p crc.

(** The new contents of the short table, and the result; [calloc_ok]: calloc
    gives memory. *)
Definition ngx_crc32_table_init (calloc_ok : bool) (table_short : list Z) : Z * list Z :=
  if calloc_ok then (0, ngx_crc32_table16) else (-1, table_short).

(** * The shift register *)

(** One step of the register with the generator polynomial 0xedb88320. *)
Definition crc_bit (r : Z) : Z :=
  if Z.testbit r 0 then (r .>> 1) .^ 0xedb88320 else r .>> 1.

Definition crc_bits (n : nat) (r : Z) : Z := Nat.iter n crc_bit r.
Definition crc_byte (r c : Z) : Z := crc_bits 8 (r .^ c).
Definition crc_register (m : list Z) (r : Z) : Z := fold_left crc_byte m r.
Definition crc32 (m : list Z) : Z := crc_register m 0xffffffff .^ 0xffffffff.

(** The check value of the published parameters of this CRC. *)
Example crc32_check : crc32 [49; 50; 51; 52; 53; 54; 55; 56; 57] = 0xcbf43926.
Proof. vm_compute. reflexivity. Qed.

(** The register steps are linear. *)
Lemma crc_bit_lxor a b : crc_bit (a .^ b) = crc_bit a .^ crc_bit b.
Proof.
  unfold crc_bit. rewrite Z.lxor_spec, Z.shiftr_lxor.
  destruct (Z.testbit a 0), (Z.testbit b 0); cbn [xorb];
    apply Z.bits_inj'; intros i _; rewrite !Z.lxor_spec;
    destruct (Z.testbit (a .>> 1) i), (Z.testbit (b .>> 1) i), (Z.testbit 0xedb88320 i); done.
Qed.

Lemma crc_bits_lxor n a b : crc_bits n (a .^ b) = crc_bits n a .^ crc_bits n b.
Proof. unfold crc_bits. induction n as [|n IH]; [done|]. by rewrite !Nat.iter_succ, IH, crc_bit_lxor. Qed.

Lemma crc_bits_add n k a : crc_bits (n + k) a = crc_bits n (crc_bits k a).
Proof. apply Nat.iter_add. Qed.

(** Bits that enter at the top are shifted out unchanged. *)
Lemma crc_bits_shiftl n a : crc_bits n (a .<< Z.of_nat n) = a.
Proof.
  unfold crc_bits. induction n as [|n IH]; [apply Z.shiftl_0_r|].
  rewrite Nat.iter_succ_r. etrans; [|exact IH]. f_equal. unfold crc_bit.
  rewrite Z.shiftl_spec_low, Z.shiftr_shiftl_r by lia. 
  replace (1 - Z.of_nat (S n)) with (- Z.of_nat n) by lia. apply Z.shiftr_opp_r.
Qed.

(** Shifting [n] bits out at once: the low bits go through the register. *)
Lemma crc_bits_split n r :
  crc_bits n r = crc_bits n (r .& Z.ones (Z.of_nat n)) .^ (r .>> Z.of_nat n).
Proof.
  rewrite <- (crc_bits_shiftl n (r .>> Z.of_nat n)). rewrite <- crc_bits_lxor. f_equal.
  apply Z.bits_inj'. intros i Hi. rewrite Z.lxor_spec, Z.land_spec, Z.testbit_ones_nonneg by lia.
  destruct (Z.ltb_spec i (Z.of_nat n)).
  - rewrite Z.shiftl_spec_low by done. by rewrite andb_true_r, xorb_false_r.
  - rewrite Z.shiftl_spec, Z.shiftr_spec by lia. rewrite andb_false_r. cbn [xorb]. f_equal. lia.
Qed.

(** * The tables *)

(** The entries of the tables are the register's answers to low bits. *)
Lemma table16_entries i : 0 <= i < 16 -> array_get ngx_crc32_table16 i = Some (crc_bits 4 i).
Proof.
  intros Hi. refine (bool_decide_eq_true_1 _ _). revert i Hi.
  apply (forall_range_spec 0 16 (fun i => bool_decide (array_get ngx_crc32_table16 i = Some (crc_bits 4 i)))).
  vm_compute. reflexivity.
Qed.

Lemma table256_entries i : 0 <= i < 256 -> array_get ngx_crc32_table256 i = Some (crc_bits 8 i).
Proof.
  intros Hi. refine (bool_decide_eq_true_1 _ _). revert i Hi.
  apply (forall_range_spec 0 256 (fun i => bool_decide (array_get ngx_crc32_table256 i = Some (crc_bits 8 i)))).
  vm_compute. reflexivity.
Qed.

Lemma land_ones_range x w : 0 <= w -> 0 <= x .& Z.ones w < 2 ^ w.
Proof. intros. rewrite Z.land_ones by done. apply Z.mod_pos_bound. lia. Qed.

Lemma byte_shiftr c : 0 <= c < 256 -> c .>> 8 = 0.
Proof. intros. rewrite Z.shiftr_div_pow2 by lia. apply Z.div_small. done. Qed.

Lemma long_round_spec r c : 0 <= c < 256 -> long_round r c = Some (crc_byte r c).
Proof.
  intros Hc. unfold long_round, crc_byte. change 0xff with (Z.ones 8).
  rewrite table256_entries by (apply (land_ones_range _ 8); lia). cbn [mbind option_bind].
  f_equal. rewrite (crc_bits_split 8 (r .^ c)). f_equal. change (Z.of_nat 8) with 8.
  by rewrite Z.shiftr_lxor, (byte_shiftr c), Z.lxor_0_r.
Qed.

Lemma short_round_spec r c :
  0 <= c < 256 -> short_round ngx_crc32_table16 r c = Some (crc_byte r c).
Proof.
  intros Hc. unfold short_round, crc_byte. change 0xf with (Z.ones 4).
  rewrite table16_entries by (apply (land_ones_range _ 4); lia). cbn [mbind option_bind].
  assert (crc_bits 4 ((r .^ (c .& Z.ones 4)) .& Z.ones 4) .^ (r .>> 4)
          = crc_bits 4 (r .^ (c .& Z.ones 4))) as ->.
  { rewrite (crc_bits_split 4 (r .^ _)). f_equal. change (Z.of_nat 4) with 4.
    rewrite Z.shiftr_lxor, Z.shiftr_land. change (Z.ones 4 .>> 4) with 0.
    by rewrite Z.land_0_r, Z.lxor_0_r. }
  rewrite table16_entries by (apply (land_ones_range _ 4); lia). cbn [mbind option_bind].
  f_equal. change 8%nat with (4 + 4)%nat. rewrite crc_bits_add.
  assert (crc_bits 4 (r .^ c) = crc_bits 4 (r .^ (c .& Z.ones 4)) .^ (c .>> 4)) as ->.
  { rewrite !crc_bits_lxor, Z.lxor_assoc. f_equal. apply (crc_bits_split 4). }
  set (x := crc_bits 4 (r .^ (c .& Z.ones 4))).
  rewrite (crc_bits_split 4 (x .^ _)). f_equal. change (Z.of_nat 4) with 4.
  rewrite Z.shiftr_lxor, Z.shiftr_shiftr by lia. change (4 + 4) with 8.
  by rewrite (byte_shiftr c), Z.lxor_0_r by done.
Qed.

Definition bytes (m : list Z) : Prop := Forall (fun c => 0 <= c < 256) m.

Lemma crc_loop_spec round m rest r :
  (forall r c, 0 <= c < 256 -> round r c = Some (crc_byte r c)) -> bytes m ->
  crc_loop round (length m) (m ++ rest) r = Some (crc_register m r).
Proof.
  intros Hround Hm. revert r. induction Hm as [|c m Hc Hm IH]; intros r; [done|].
  cbn [length app crc_loop]. rewrite Hround by done. cbn [mbind option_bind]. apply IH.
Qed.

(** A message that arrives in pieces. *)
Definition updates (r : Z) (ms : list (list Z)) : option Z :=
  foldl (fun r p => c ← r; ngx_crc32_update c p (length p)) (Some r) ms.

Lemma updates_spec ms r : bytes (concat ms) -> updates r ms = Some (crc_register (concat ms) r).
Proof.
  revert r. induction ms as [|p ms IH]; intros r Hm; [done|].
  cbn [concat] in Hm |- *. apply Forall_app in Hm as [Hp Hms].
  change (updates r (p :: ms))
    with (foldl (fun r p => c ← r; ngx_crc32_update c p (length p)) (ngx_crc32_update r p (length p)) ms).
  unfold ngx_crc32_update at 2. rewrite <- (app_nil_r p) at 2.
  rewrite crc_loop_spec; [|apply long_round_spec|done].
  etrans; [exact (IH _ Hms)|]. unfold crc_register. by rewrite fold_left_app.
Qed.

(** * Ranges and injectivity *)

Lemma crc_bit_range r : in_u 32 r -> in_u 32 (crc_bit r).
Proof.
  intros Hr. assert (in_u 32 (r .>> 1)).
  { unfold in_u in *. rewrite Z.shiftr_div_pow2 by lia. change (2 ^ 1) with 2.
    Z.div_mod_to_equations; lia. }
  unfold crc_bit. destruct (Z.testbit r 0); [|done]. apply in_u_lxor; done.
Qed.

Lemma crc_bits_range n r : in_u 32 r -> in_u 32 (crc_bits n r).
Proof. intros Hr. induction n as [|n IH]; [done|]. apply crc_bit_range, IH. Qed.

Lemma byte_word c : 0 <= c < 256 -> in_u 32 c.
Proof. unfold in_u. lia. Qed.

Lemma crc_byte_range r c : in_u 32 r -> 0 <= c < 256 -> in_u 32 (crc_byte r c).
Proof. intros. apply crc_bits_range, in_u_lxor; [lia|done|by apply byte_word]. Qed.

Lemma crc_register_range m r : in_u 32 r -> bytes m -> in_u 32 (crc_register m r).
Proof.
  intros Hr Hm. revert r Hr. induction Hm as [|c m Hc Hm IH]; intros r Hr; [done|].
  apply IH. by apply crc_byte_range.
Qed.

(** A step can be undone: the generator has its top bit set. *)
Lemma crc_bit_zero r : in_u 32 r -> crc_bit r = 0 -> r = 0.
Proof.
  intros Hr H. unfold crc_bit in H. destruct (Z.testbit r 0) eqn:Hb.
  - assert (Z.testbit ((r .>> 1) .^ 0xedb88320) 31 = true) as H1.
    { rewrite Z.lxor_spec, Z.shiftr_spec by lia.
      rewrite (testbit_above 32 r) by (done || lia). reflexivity. }
    by rewrite H, Z.testbit_0_l in H1.
  - rewrite Z.shiftr_div_pow2 in H by lia. change (2 ^ 1) with 2 in H.
    rewrite Z.bit0_odd, Zodd_mod, Z.eqb_neq in Hb.
    Z.div_mod_to_equations; lia.
Qed.

Lemma crc_bits_zero n r : in_u 32 r -> crc_bits n r = 0 -> r = 0.
Proof.
  intros Hr. induction n as [|n IH]; [done|]. intros H.
  apply IH, (crc_bit_zero (crc_bits n r)); [by apply crc_bits_range|exact H].
Qed.

(** The register does not confuse two states. *)
Lemma crc_register_lxor m r r' :
  crc_register m r .^ crc_register m r' = crc_bits (8 * length m) (r .^ r').
Proof.
  revert r r'. induction m as [|c m IH]; intros r r'; [done|].
  change (crc_register m (crc_byte r c) .^ crc_register m (crc_byte r' c)
          = crc_bits (8 * S (length m)) (r .^ r')).
  rewrite IH. replace (8 * S (length m))%nat with (8 * length m + 8)%nat by lia.
  rewrite crc_bits_add. f_equal. unfold crc_byte. rewrite <- crc_bits_lxor. f_equal.
  apply Z.bits_inj'. intros i _. rewrite !Z.lxor_spec.
  destruct (Z.testbit r i), (Z.testbit r' i), (Z.testbit c i); done.
Qed.

(** The bytes of a word, the first byte lowest. *)
Fixpoint le_word (w : list Z) : Z :=
  match w with [] => 0 | c :: w => c .^ (le_word w .<< 8) end.

Lemma crc_register_word w r : crc_register w r = crc_bits (8 * length w) (r .^ le_word w).
Proof.
  revert r. induction w as [|c w IH]; intros r; [by rewrite Z.lxor_0_r|].
  change (crc_register w (crc_byte r c) = crc_bits (8 * S (length w)) (r .^ le_word (c :: w))).
  rewrite IH. replace (8 * S (length w))%nat with (8 * length w + 8)%nat by lia.
  rewrite crc_bits_add. f_equal. cbn [le_word]. rewrite <- Z.lxor_assoc.
  rewrite (crc_bits_lxor 8 (r .^ c)). f_equal. symmetry. apply (crc_bits_shiftl 8).
Qed.

Lemma le_word_nonneg w : bytes w -> 0 <= le_word w.
Proof.
  induction 1 as [|c w Hc Hw IH]; [done|]. cbn. apply Z.lxor_nonneg.
  rewrite Z.shiftl_nonneg. lia.
Qed.

Lemma le_word_cons c w : bytes (c :: w) -> le_word (c :: w) = le_word w * 2 ^ 8 + c.
Proof.
  intros [Hc Hw]%Forall_cons. cbn [le_word]. rewrite Z.lxor_comm.
  rewrite <- (lor_shiftl_add 8) by (unfold in_u; lia).
  apply Z.bits_inj'. intros i Hi. rewrite Z.lxor_spec, Z.lor_spec.
  destruct (decide (i < 8)).
  - by rewrite Z.shiftl_spec_low.
  - rewrite (testbit_above 8 c i) by (unfold in_u; lia). by destruct (Z.testbit _ i).
Qed.

Lemma le_word_range w : bytes w -> (length w <= 4)%nat -> in_u 32 (le_word w).
Proof.
  intros Hw Hl. assert (0 <= le_word w < 2 ^ (8 * Z.of_nat (length w))) as [? Hlt].
  { clear Hl. induction Hw as [|c w Hc Hw IH]; [done|].
    rewrite le_word_cons by (by constructor). cbn [length].
    replace (8 * Z.of_nat (S (length w))) with (8 * Z.of_nat (length w) + 8) by lia.
    rewrite Z.pow_add_r by lia. lia. }
  split; [done|]. eapply Z.lt_le_trans; [exact Hlt|]. apply Z.pow_le_mono_r; lia.
Qed.

Lemma le_word_inj w w' :
  bytes w -> bytes w' -> length w = length w' -> le_word w = le_word w' -> w = w'.
Proof.
  intros Hw. revert w'. induction Hw as [|c w Hc Hw IH]; intros [|c' w'] Hw' Hl H; try done.
  rewrite !le_word_cons in H by (done || by constructor). apply Forall_cons in Hw' as [Hc' Hw'].
  assert (c = c' /\ le_word w = le_word w') as [-> Hww] by (change (2 ^ 8) with 256 in H; lia).
  f_equal. apply IH; [done|by injection Hl|done].
Qed.

(** * Properties *)

(** C5: with either table, whole or in pieces, the code computes the CRC-32 of
    the bytes it is given: the shift register of the generator 0xedb88320,
    preset to ones, complemented in the end. No access leaves a table, and
    ngx_crc32_table_init changes no result. *)
Theorem crc32_correct m rest calloc_ok :
  bytes m ->
  ngx_crc32_short ngx_crc32_table_short (m ++ rest) (length m) = Some (crc32 m) /\
  ngx_crc32_short (snd (ngx_crc32_table_init calloc_ok ngx_crc32_table_short))
    (m ++ rest) (length m) = Some (crc32 m) /\
  ngx_crc32_long (m ++ rest) (length m) = Some (crc32 m) /\
  (forall ms, concat ms = m ->
     ngx_crc32_final <$> updates ngx_crc32_init ms = Some (crc32 m)) /\
  in_u 32 (crc32 m).
Proof.
  intros Hm.
  assert (ngx_crc32_short ngx_crc32_table16 (m ++ rest) (length m) = Some (crc32 m)) as Hs.
  { unfold ngx_crc32_short. rewrite crc_loop_spec; [done|apply short_round_spec|done]. }
  split_and!; [exact Hs|by destruct calloc_ok| | |].
  - unfold ngx_crc32_long. rewrite crc_loop_spec; [done|apply long_round_spec|done].
  - intros ms <-. by rewrite updates_spec.
  - apply in_u_lxor; [lia| |done]. apply crc_register_range; [done|done].
Qed.

Lemma crc32_correct_witness :
  ngx_crc32_short ngx_crc32_table_short ([98; 97; 105; 100; 117] ++ [0]) 5
    = Some (crc32 [98; 97; 105; 100; 117]).
Proof. apply (crc32_correct [98; 97; 105; 100; 117] [0] true). repeat constructor; lia. Defined.

(** the checksums of two messages of one length that differ only within
    four consecutive bytes are different. *)
Theorem crc32_detects_bursts a w w' b :
  bytes (a ++ w ++ b) -> bytes w' -> length w = length w' -> (length w <= 4)%nat -> w <> w' ->
  exists x y,
    ngx_crc32_long (a ++ w ++ b) (length (a ++ w ++ b)) = Some x /\
    ngx_crc32_long (a ++ w' ++ b) (length (a ++ w' ++ b)) = Some y /\ x <> y.
Proof.
  intros Hm Hw' Hl Hl4 Hne.
  unfold bytes in Hm. rewrite !Forall_app in Hm. destruct Hm as (Ha & Hw & Hb).
  assert (forall m, bytes m -> ngx_crc32_long m (length m) = Some (crc32 m)) as Hrun.
  { intros m Hm. unfold ngx_crc32_long. rewrite <- (app_nil_r m) at 2.
    rewrite crc_loop_spec; [done|apply long_round_spec|done]. }
  exists (crc32 (a ++ w ++ b)), (crc32 (a ++ w' ++ b)).
  split_and!; [apply Hrun; unfold bytes; by rewrite !Forall_app..|].
  intros H. unfold crc32 in H. apply (f_equal (fun x => x .^ 0xffffffff)) in H.
  rewrite !Z.lxor_assoc, Z.lxor_nilpotent, !Z.lxor_0_r in H.
  unfold crc_register in H. rewrite !fold_left_app in H.
  change (fold_left crc_byte) with crc_register in H.
  set (r := crc_register a 0xffffffff) in H.
  assert (in_u 32 r) as Hr by (apply crc_register_range; done).
  rewrite <- Z.lxor_eq_0_iff, crc_register_lxor in H. apply crc_bits_zero in H.
  2: { apply in_u_lxor; [lia|apply crc_register_range; done..]. }
  rewrite !crc_register_word, <- Hl, <- crc_bits_lxor in H. apply crc_bits_zero in H.
  2: { repeat apply in_u_lxor; try done; apply le_word_range; by rewrite <- ?Hl. }
  apply Hne, le_word_inj; [done..|]. apply Z.lxor_eq_0_iff.
  rewrite <- H. apply Z.bits_inj'. intros i _. rewrite !Z.lxor_spec.
  destruct (Z.testbit r i), (Z.testbit (le_word w) i), (Z.testbit (le_word w') i); done.
Qed.

Lemma crc32_detects_bursts_witness :
  exists x y,
    ngx_crc32_long ([98] ++ [97; 105] ++ [100; 117]) 5 = Some x /\
    ngx_crc32_long ([98] ++ [105; 97] ++ [100; 117]) 5 = Some y /\ x <> y.
Proof.
  apply (crc32_detects_bursts [98] [97; 105] [105; 97] [100; 117]);
    [repeat constructor; lia..|done|simpl; lia|done].
Defined.
