(* ===== verification/Resolver.v ===== *)
(** The name resolver of src/Rbtree/test.c: the client of the red-black tree.
    Nodes carry a name behind their tree links; the tree is ordered by the
    CRC-32 of the names and, where checksums agree, by the names. *)
From S2P Require Import Prelude Store Rbtree Crc32.

(** * Data *)

(** The part of struct ngx_resolver_node_s behind its tree node. *)
Record resolver_name := ResolverName {
  name : list Z;   (** u_char name[128] *)
  nlen : Z;        (** u_short *)
}.

(** struct ngx_resolver_s, with the nodes on the heap: their tree nodes are in
    the store of the tree, their names in [names], at the same addresses. *)
Record resolver := Resolver {
  name_rbtree : rbstate;
  names : gmap loc resolver_name;
}.

(** * Strings *)

(** A C string is given by its characters before the terminating zero. *)
Definition name_size : nat := 128.

(** The characters copied, filled up with zeros; a long source leaves no zero. *)
Definition strncpy (s : list Z) (n : nat) : list Z := take n (s ++ replicate n 0).

(** The index of the first zero; [None]: it is not in the array. *)
Fixpoint strlen (s : list Z) : option nat :=
  match s with
  | [] => None
  | c :: s => if c =? 0 then Some O else S <$> strlen s
  end.

(** memcmp, of which the code uses the sign: [None] if an array is too short. *)
Definition memcmp (s1 s2 : list Z) (n : nat) : option Z :=
  if decide (n <= length s1 /\ n <= length s2)%nat then
    Some (match list_compare Z.compare (take n s1) (take n s2) with
          | Lt => -1 | Eq => 0 | Gt => 1
          end)
  else None.

Definition ngx_memn2cmp (s1 s2 : list Z) (n1 n2 : nat) : option Z :=
  let '(n, z) := if decide (n1 <= n2)%nat then (n1, -1) else (n2, 1) in
  m ← memcmp s1 s2 n;
  Some (if negb (m =? 0) || (n1 =? n2)%nat then m else z).

(** * The tree of names *)

Section callback.
Context (names : gmap loc resolver_name).

(** [node] goes to the left of [temp]. *)
Definition resolver_goes_left (node temp : loc) : rb bool :=
  kn ← rd key node;
  kt ← rd key temp;
  if kn <? kt then mret true
  else if kt <? kn then mret false
  else
    match names !! node, names !! temp with
    | Some rn, Some rn_temp =>
        match ngx_memn2cmp (name rn) (name rn_temp) (Z.to_nat (nlen rn)) (Z.to_nat (nlen rn_temp)) with
        | Some m => mret (m <? 0)
        | None => fault
        end
    | _, _ => fault
    end.

Definition ngx_resolver_rbtree_insert_value : nat -> ngx_rbtree_insert_pt :=
  insert_descend resolver_goes_left.
End callback.

(** The global resolver: its sentinel is at [sentinel] in the store [m]. *)
Definition init (m : gmap loc node) (sentinel : loc) : option resolver :=
  t ← ngx_rbtree_init m sentinel;
  Some (Resolver t ∅).

Section operations.
Context (ngx_crc32_table_short : list Z) (fuel : nat).

(** [p]: the address calloc gives, or NULL. *)
Definition insert (p : loc) (s : list Z) (r : resolver) : option resolver :=
  if decide (p = NULL) then None else
  let buf := strncpy s name_size in
  len ← strlen buf;
  let nlen := u16 (Z.of_nat len) in
  key ← ngx_crc32_short ngx_crc32_table_short buf (Z.to_nat nlen);
  let t := name_rbtree r in
  let m := <[p := Node key 0 0 0 0 0]> (nodes t) in
  let names := <[p := ResolverName buf nlen]> (names r) in
  '(_, t) ← ngx_rbtree_insert (ngx_resolver_rbtree_insert_value names fuel) fuel p
              (RbState m (root t) (sentinel t));
  Some (Resolver t names).

(** The node whose name is [s], or NULL. *)
Definition lookup_loop (names : gmap loc resolver_name) (s : list Z) (hash : Z) (sentinel : loc) :
    loc -> rb loc :=
  loop fuel (fun node =>
    if decide (node = sentinel) then mret (inr NULL) else
    k ← rd key node;
    if hash <? k then l ← rd left node; mret (inl l)
    else if k <? hash then r ← rd right node; mret (inl r)
    else
      match names !! node with
      | Some rn =>
          match ngx_memn2cmp s (name rn) (length s) (Z.to_nat (nlen rn)) with
          | Some rc =>
              if rc =? 0 then mret (inr node)
              else l ← rd (if rc <? 0 then left else right) node; mret (inl l)
          | None => fault
          end
      | None => fault
      end).

Definition ngx_resolver_lookup_name (r : resolver) (s : list Z) (hash : Z) : option loc :=
  let t := name_rbtree r in
  fst <$> lookup_loop (names r) s hash (sentinel t) (root t) t.

(** [free(rn)], of an allocated node. *)
Definition free_node (p : loc) (r : resolver) : option resolver :=
  let t := name_rbtree r in
  match nodes t !! p, names r !! p with
  | Some _, Some _ =>
      Some (Resolver (RbState (delete p (nodes t)) (root t) (sentinel t)) (delete p (names r)))
  | _, _ => None
  end.

(** [rounds]: the number of nodes bounds the rounds of the loop. *)
Fixpoint deinit (rounds : nat) (r : resolver) : option resolver :=
  match rounds with
  | O => None
  | S rounds =>
      let t := name_rbtree r in
      if decide (root t = sentinel t) then Some r else
      '(rn, t) ← ngx_rbtree_min fuel (root t) (sentinel t) t;
      '(_, t) ← ngx_rbtree_delete fuel rn t;
      r ← free_node rn (Resolver t (names r));
      deinit rounds r
  end.

End operations.

(** The demonstration: three insertions at the addresses that calloc gives, a
    search and the release of the tree; the result of the search. *)
Definition amazon : list Z := [97; 109; 97; 122; 111; 110].
Definition baidu : list Z := [98; 97; 105; 100; 117].
Definition google : list Z := [103; 111; 111; 103; 108; 101].

Definition main (fuel : nat) (calloc_ok : bool) (m : gmap loc node) (sentinel p1 p2 p3 : loc) :
    option (loc * resolver) :=
  let '(_, table) := ngx_crc32_table_init calloc_ok ngx_crc32_table_short in
  r ← init m sentinel;
  r ← insert table fuel p1 amazon r;
  r ← insert table fuel p2 baidu r;
  r ← insert table fuel p3 google r;
  hash ← ngx_crc32_short table baidu (length baidu);
  p ← ngx_resolver_lookup_name fuel r baidu hash;
  r ← deinit fuel fuel r;
  Some (p, r).

Example main_run :
  fst <$> main 10 true (<[1 := Node 0 0 0 0 0 0]> ∅) 1 2 3 4 = Some 3.
Proof. vm_compute. reflexivity. Qed.
