(* ===== verification/ResolverSpec.v ===== *)
(** The contract of the resolver of src/Rbtree/test.c: the nodes inserted can
    be found by their names, and nothing else can; the release of the tree
    frees every node. *)
From stdpp Require Import sorting.
From S2P Require Import Prelude Store Rbtree RbtreeRep RbtreeInsert RbtreeUnlink RbtreeDelete RbtreeLife Crc32 Resolver.

(** * Strings *)

(** The characters of a C string. *)
Definition cstring (s : list Z) : Prop := Forall (fun c => 1 <= c < 256) s.

Lemma cstring_bytes s : cstring s -> bytes s.
Proof. intros H. eapply Forall_impl; [exact H|]. simpl. lia. Qed.

Definition cmp_int (c : comparison) : Z := match c with Lt => -1 | Eq => 0 | Gt => 1 end.
Abbreviation cmp_str := (list_compare Z.compare).

Lemma cmp_str_take_l a b :
  (length a <= length b)%nat ->
  cmp_str a b = match cmp_str a (take (length a) b) with
                | Eq => if (length a =? length b)%nat then Eq else Lt
                | c => c
                end.
Proof.
  revert b. induction a as [|x a IH]; intros [|y b] Hl; simpl in *; try done; try lia.
  destruct (x ?= y); try done. apply IH. lia.
Qed.

Lemma cmp_str_take_r a b :
  (length b < length a)%nat ->
  cmp_str a b = match cmp_str (take (length b) a) b with Eq => Gt | c => c end.
Proof.
  revert b. induction a as [|x a IH]; intros [|y b] Hl; simpl in *; try done; try lia.
  destruct (x ?= y); try done. apply IH. lia.
Qed.

(** ngx_memn2cmp compares strings, whatever follows them in the arrays. *)
Lemma ngx_memn2cmp_spec a b r1 r2 :
  ngx_memn2cmp (a ++ r1) (b ++ r2) (length a) (length b) = Some (cmp_int (cmp_str a b)).
Proof.
  unfold ngx_memn2cmp, memcmp. case_decide as Hl.
  - rewrite decide_True by (rewrite !length_app; lia). cbn [mbind option_bind].
    rewrite take_app_length, take_app_le by done. rewrite (cmp_str_take_l a b) by done.
    destruct (cmp_str a _); try done. simpl. by destruct (length a =? length b)%nat.
  - rewrite decide_True by (rewrite !length_app; lia). cbn [mbind option_bind].
    rewrite take_app_length, take_app_le by lia. rewrite (cmp_str_take_r a b) by lia.
    destruct (cmp_str _ b); try done. simpl. destruct (Nat.eqb_spec (length a) (length b)); [lia|done].
Qed.

(** Strings of at most [w] characters as numbers, in the same order. *)
Fixpoint string_rank (w : nat) (s : list Z) : Z :=
  match w with
  | O => 0
  | S w => match s with [] => 0 | c :: s => c * 256 ^ Z.of_nat w + string_rank w s end
  end.

Lemma string_rank_range w s : cstring s -> 0 <= string_rank w s < 256 ^ Z.of_nat w.
Proof.
  revert s. induction w as [|w IH]; intros s Hs; [done|].
  assert (0 < 256 ^ Z.of_nat w) by lia.
  rewrite Nat2Z.inj_succ, Z.pow_succ_r by lia.
  destruct Hs as [|c s Hc Hs]; simpl; [lia|]. specialize (IH s Hs). nia.
Qed.

Lemma string_rank_compare w a b :
  cstring a -> cstring b -> (length a <= w)%nat -> (length b <= w)%nat ->
  (string_rank w a ?= string_rank w b) = cmp_str a b.
Proof.
  revert a b. induction w as [|w IH]; intros a b Ha Hb Hla Hlb.
  { destruct a, b; simpl in *; try done; lia. }
  assert (0 < 256 ^ Z.of_nat w) by lia.
  destruct Ha as [|x a Hx Ha], Hb as [|y b Hy Hb];
    cbn [string_rank list_compare length] in *; [done|..].
  - pose proof (string_rank_range w b Hb). rewrite Z.compare_lt_iff. nia.
  - pose proof (string_rank_range w a Ha). rewrite Z.compare_gt_iff. nia.
  - pose proof (string_rank_range w a Ha). pose proof (string_rank_range w b Hb).
    destruct (Z.compare_spec x y) as [->|?|?].
    + rewrite <- IH by (done || lia). apply Zcompare_plus_compat.
    + rewrite Z.compare_lt_iff. nia.
    + rewrite Z.compare_gt_iff. nia.
Qed.

Lemma cmp_str_eq a b : cmp_str a b = Eq <-> a = b.
Proof.
  revert b. induction a as [|x a IH]; intros [|y b]; simpl; try done.
  destruct (Z.compare_spec x y) as [->|?|?]; [rewrite IH|..]; split; intros Hab; simplify_eq; try done; lia.
Qed.

(** The array of a string that fits. *)
Lemma strlen_app s r : cstring s -> strlen (s ++ 0 :: r) = Some (length s).
Proof.
  induction 1 as [|c s Hc Hs IH]; [done|]. simpl. destruct (Z.eqb_spec c 0); [lia|]. by rewrite IH.
Qed.

Lemma strncpy_fits s n :
  (length s < n)%nat -> exists r, strncpy s n = s ++ 0 :: r.
Proof.
  intros Hl. unfold strncpy. rewrite take_app_ge by lia.
  destruct (n - length s)%nat as [|k] eqn:Hk; [lia|]. 
  exists (replicate k 0). f_equal. rewrite take_replicate.
  replace (S k `min` n)%nat with (S k) by lia. done.
Qed.

(** * The order of the tree *)

Section order.
Context (e : env) (nm : loc -> list Z) (w : nat).

(** The items of a resolver: the node at [p] has the name [nm p]. *)
Definition resolver_item (p : loc) : item := Item p (crc32 (nm p)) 0.

Definition hash_rank (hash : Z) (s : list Z) : Z := hash * 256 ^ Z.of_nat w + string_rank w s.
Definition rank (i : item) : Z := hash_rank (ikey i) (nm (iloc i)).
Definition rank_less (i j : item) : bool := rank i <? rank j.

(** A node that the callback can compare: its name is in memory. *)
Definition named (names : gmap loc resolver_name) (i : item) : Prop :=
  cstring (nm (iloc i)) /\ (length (nm (iloc i)) < name_size)%nat /\ (name_size <= w)%nat /\
  names !! iloc i = Some (ResolverName (strncpy (nm (iloc i)) name_size)
                            (Z.of_nat (length (nm (iloc i))))).

Lemma hash_rank_compare h h' a b :
  cstring a -> cstring b -> (length a <= w)%nat -> (length b <= w)%nat ->
  (hash_rank h a ?= hash_rank h' b) = match h ?= h' with Eq => cmp_str a b | c => c end.
Proof.
  intros Ha Hb Hla Hlb. unfold hash_rank.
  pose proof (string_rank_range w a Ha). pose proof (string_rank_range w b Hb).
  destruct (Z.compare_spec h h') as [->|?|?].
  - rewrite Zcompare_plus_compat. by apply string_rank_compare.
  - rewrite Z.compare_lt_iff. nia.
  - rewrite Z.compare_gt_iff. nia.
Qed.

Lemma cmp_int_ltb c : (cmp_int c <? 0) = match c with Lt => true | _ => false end.
Proof. by destruct c. Qed.

Lemma ltb_compare x y : (x <? y) = match x ?= y with Lt => true | _ => false end.
Proof. done. Qed.

#[export] Instance resolver_callback names :
  InsertCallback (named names) rank_less (ngx_resolver_rbtree_insert_value names).
Proof.
  intros fuel st0 st sn par0 t i Q H HE Hfuel Hfn Hi Ht HQ.
  eapply (wp_insert_descend _ rank_less); try done. clear HQ Q.
  intros C a j c b Hjt. destruct (fn_object _ _ _ _ Hfn) as (l & r & p & c' & Hobj).
  assert (named names j) as Hj.
  { rewrite Forall_forall in Ht. apply Ht. rewrite <- Hjt, inorder_plug. simpl. set_solver. }
  rewrite <- Hjt in H. clear Ht Hjt.
  destruct Hi as (His & Hil & Hw & Hin), Hj as (Hjs & Hjl & _ & Hjn).
  unfold resolver_goes_left, rank_less, rank.
  apply wp_bind. eapply wp_rd; [exact Hobj|].
  apply wp_bind. eapply (wp_rd_key _ _ _ _ _ SLeft); [exact H|done|]. cbn [key].
  rewrite (ltb_compare (hash_rank _ _)), hash_rank_compare by (done || lia).
  rewrite Hin, Hjn. cbn [name nlen]. rewrite !Nat2Z.id.
  destruct (strncpy_fits _ _ Hil) as [r1 ->], (strncpy_fits _ _ Hjl) as [r2 ->].
  rewrite ngx_memn2cmp_spec, cmp_int_ltb.
  destruct (Z.ltb_spec (ikey i) (ikey j)) as [Hk|Hk].
  { rewrite (proj2 (Z.compare_lt_iff _ _)) by done. by apply wp_ret. }
  destruct (Z.ltb_spec (ikey j) (ikey i)) as [Hk'|Hk'].
  { rewrite (proj2 (Z.compare_gt_iff _ _)) by done. by apply wp_ret. }
  rewrite (proj2 (Z.compare_eq_iff _ _)) by lia. by apply wp_ret.
Qed.
End order.

(** * The operations *)

Section resolver.
Context (e : env) (nm : loc -> list Z) (w : nat).

(** [l]: the addresses of the nodes in the tree. *)
Definition resolver_inv (r : resolver) (l : list loc) : Prop :=
  exists t, rbtree e (name_rbtree r) t /\ by_rank (rank nm w) (inorder t) /\
    inorder t ≡ₚ resolver_item nm <$> l /\ Forall (named nm w (names r)) (inorder t) /\
    (forall p, p ∈ l <-> is_Some (names r !! p)) /\ NULL ∉ l.

Lemma resolver_locs t l : inorder t ≡ₚ resolver_item nm <$> l -> locs t ≡ₚ l.
Proof. unfold locs. intros ->. rewrite <- list_fmap_compose. by rewrite list_fmap_id. Qed.

Lemma init_inv m r :
  (forall x, x ∉ owned e -> m !! x = others e !! x) -> esent e ∈ owned e ->
  init m (esent e) = Some r -> resolver_inv r [].
Proof.
  intros Hm Ho. unfold init. destruct (ngx_rbtree_init m (esent e)) as [st|] eqn:Hst; [|done].
  intros [= <-]. destruct (init_empty e m st Hm Ho Hst) as (t & Ht & _ & Hin).
  exists t. split; [done|]. apply Permutation_nil_r in Hin. rewrite Hin.
  split_and!; [constructor..| |apply not_elem_of_nil].
  intros p. cbn [names]. rewrite elem_of_nil, lookup_empty, <- not_eq_None_Some. naive_solver.
Qed.

(** A node that can be inserted next: its address is the client's, and its
    name fits. *)
Record insertable (p : loc) (l : list loc) : Prop := Insertable {
  in_owned : p ∈ owned e;
  in_not_null : p <> NULL;
  in_not_sent : p <> esent e;
  in_new : p ∉ l;
  in_cstring : cstring (nm p);
  in_fits : (length (nm p) < name_size)%nat;
}.

Lemma insert_inv fuel p r l :
  resolver_inv r l -> insertable p l -> (name_size <= w)%nat -> (walk_fuel (length l) <= fuel)%nat ->
  exists r', insert ngx_crc32_table16 fuel p (nm p) r = Some r' /\ resolver_inv r' (p :: l).
Proof.
  intros (t & Ht & Hs & Hin & Hn & Hdom & Hnull) [Ho H0 Hp Hl Hc Hfit] Hw Hfuel.
  pose proof (resolver_locs _ _ Hin) as Hlocs. rewrite <- Hlocs in Hl, Hfuel.
  unfold locs in Hfuel. rewrite length_fmap, size_inorder in Hfuel.
  unfold insert. rewrite decide_False by done.
  destruct (strncpy_fits _ _ Hfit) as [rest Hbuf]. rewrite Hbuf, strlen_app by done.
  cbn [mbind option_bind]. rewrite wrap_id by (unfold in_u, name_size in *; lia).
  rewrite Nat2Z.id. unfold ngx_crc32_short.
  rewrite (crc_loop_spec _ _ _ _ short_round_spec) by (by apply cstring_bytes).
  cbn [mbind option_bind]. fold (crc32 (nm p)). rewrite <- Hbuf.
  set (m := <[p := _]> (nodes _)). set (ns := <[p := _]> (names r)).
  assert (rbtree e (RbState m (root (name_rbtree r)) (sentinel (name_rbtree r))) t) as Ht'.
  { apply (rbtree_outside _ _ _ _ p); try done. intros x Hx. by apply lookup_insert_ne. }
  assert (Forall (named nm w ns) (inorder t)) as Hn'.
  { rewrite Forall_forall in Hn |- *. intros i Hi. destruct (Hn i Hi) as (? & ? & ? & Hni).
    split_and!; try done. subst ns. rewrite lookup_insert_ne; [done|]. intros ->.
    apply Hl. by apply list_elem_of_fmap_2. }
  assert (named nm w ns (resolver_item nm p)) as Hnp.
  { split_and!; try done. subst ns. cbn [resolver_item iloc]. by rewrite lookup_insert_eq. }
  assert (fresh_node e (RbState m (root (name_rbtree r)) (sentinel (name_rbtree r))) (resolver_item nm p) t) as Hfn.
  { split; try done. simpl. subst m. rewrite lookup_insert_eq. by repeat eexists. }
  pose proof (wp_ngx_rbtree_insert (named nm w ns) (rank_less nm w)
                (ngx_resolver_rbtree_insert_value ns) _ _ _ _ _ Ht' Hfn Hfuel Hnp Hn') as Hwp.
  apply wp_run in Hwp as ([] & st' & Hrun & t' & C & Ht2 & HC & HD & Hin').
  cbn [resolver_item iloc] in Hrun. rewrite Hrun. cbn [mbind option_bind].
  eexists. split; [reflexivity|]. apply pre_post_of_plug in HC. rewrite HC in *.
  destruct (insert_by_rank (rank nm w) (rank_less nm w) C (resolver_item nm p)) as (_ & _ & Hs');
    [done|done|done|].
  exists t'. cbn [name_rbtree names]. rewrite Hin'. split_and!; [done|done| | | |].
  - rewrite fmap_cons, <- Hin. solve_Permutation.
  - apply Forall_app. apply Forall_app in Hn' as [??]. by split; [|constructor].
  - intros q. subst ns. rewrite elem_of_cons, Hdom.
    destruct (decide (q = p)) as [->|Hq]; [rewrite lookup_insert_eq|rewrite lookup_insert_ne by done];
      naive_solver.
  - by apply not_elem_of_cons.
Qed.

(** In a sorted listing, the items on either side of one of them. *)
Lemma by_rank_sides rk k (x : list item) j y k' :
  by_rank rk (k ++ (x ++ j :: y) ++ k') ->
  (forall i, i ∈ x -> rk i <= rk j) /\ (forall i, i ∈ y -> rk j <= rk i).
Proof.
  unfold by_rank. rewrite !StronglySorted_app, StronglySorted_cons.
  intros (_ & _ & _ & (Hx & _ & Hy & _) & _). rewrite Forall_forall in Hy.
  split; [|exact Hy]. intros i Hi. apply Hx; [done|]. by left.
Qed.

Definition found (target : Z) (t : tree) (p : loc) : Prop :=
  (p = NULL /\ forall i, i ∈ inorder t -> rank nm w i <> target) \/
  (exists i, i ∈ inorder t /\ p = iloc i /\ rank nm w i = target).

(** The search has come to the subtree at [p], of height [k]. *)
Definition searching (target : Z) (t : tree) (k : nat) (p : loc) : Prop :=
  exists C u, plug C u = t /\ p = loc_of (esent e) u /\ k = height u /\
    forall i, i ∈ inorder t -> rank nm w i = target -> i ∈ inorder u.

Lemma searching_child d target st sn par0 C a j c b :
  let t := plug C (T a j c b) in
  tree_at e st sn par0 t -> by_rank (rank nm w) (inorder t) ->
  (forall i, i ∈ inorder t -> rank nm w i = target -> i ∈ inorder (T a j c b)) ->
  match d with SLeft => target < rank nm w j | SRight => rank nm w j < target end ->
  wp (rd (child d) (iloc j))
     (fun p st' => exists k, (k < height (T a j c b))%nat /\ st' = st /\ searching target t k p) st.
Proof.
  intros t H Hs Hall Hd. subst t. rewrite inorder_plug in Hs.
  apply by_rank_sides in Hs as [Hleft Hright]. destruct d.
  - eapply (wp_rd_child _ _ _ _ C SLeft a j c b); [exact H|done|].
    exists (height a). split; [simpl; lia|]. split; [done|]. exists (Frame SLeft j c b :: C), a.
    split_and!; try done. intros i Hi Hr. specialize (Hall i Hi Hr). simpl in Hall.
    apply elem_of_app in Hall as [?|[->|Hib]%elem_of_cons]; [done|lia|].
    specialize (Hright i Hib). lia.
  - eapply (wp_rd_child _ _ _ _ C SRight b j c a); [exact H|done|].
    exists (height b). split; [simpl; lia|]. split; [done|]. exists (Frame SRight j c a :: C), b.
    split_and!; try done. intros i Hi Hr. specialize (Hall i Hi Hr). simpl in Hall.
    apply elem_of_app in Hall as [Hia|[->|?]%elem_of_cons]; [|lia|done].
    specialize (Hleft i Hia). lia.
Qed.

Lemma wp_lookup fuel ns t st q hash :
  rbtree e st t -> by_rank (rank nm w) (inorder t) -> Forall (named nm w ns) (inorder t) ->
  cstring q -> (length q <= w)%nat -> (height t < fuel)%nat ->
  wp (lookup_loop fuel ns q hash (esent e) (loc_of (esent e) t))
     (fun p st' => st' = st /\ found (hash_rank w hash q) t p) st.
Proof.
  intros [(sn & par0 & H) _] Hs Hn Hq Hlq Hfuel. unfold lookup_loop.
  set (target := hash_rank w hash q).
  apply (wp_loop (fun k p st' => st' = st /\ searching target t k p)) with (n := height t);
    [|done|split; [done|]; by exists [], t].
  intros k p st' (-> & C & u & <- & -> & -> & Hall).
  case_decide as Hp.
  { apply (loc_of_sent_inv _ _ _ _ _ _ H) in Hp as ->. apply wp_ret. split; [done|]. left.
    split; [done|]. intros i Hi Hr. by destruct (not_elem_of_nil _ (Hall i Hi Hr)). }
  destruct u as [|a j c b]; [done|]. cbn [loc_of].
  assert (j ∈ inorder (plug C (T a j c b))) as Hj by (rewrite inorder_plug; simpl; set_solver).
  rewrite Forall_forall in Hn. destruct (Hn j Hj) as (Hjs & Hjl & Hw & Hjn).
  assert ((target ?= rank nm w j) = match hash ?= ikey j with
                                    | Eq => cmp_str q (nm (iloc j)) | c => c end) as Hcmp.
  { apply hash_rank_compare; (done || lia). }
  pose proof (fun d => searching_child d target _ _ _ _ _ _ _ _ H Hs Hall) as Hgo.
  pose proof (Hgo SLeft) as Hgo_left. pose proof (Hgo SRight) as Hgo_right.
  cbn [child] in Hgo_left, Hgo_right.
  apply wp_bind. eapply (wp_rd_key _ _ _ _ _ SLeft); [exact H|done|].
  destruct (Z.ltb_spec hash (ikey j)) as [Hk|Hk].
  { apply wp_bind. eapply wp_mono; [apply Hgo_left|intros; by apply wp_ret].
    rewrite (proj2 (Z.compare_lt_iff hash _) Hk) in Hcmp. by apply Z.compare_lt_iff. }
  destruct (Z.ltb_spec (ikey j) hash) as [Hk'|Hk'].
  { apply wp_bind. eapply wp_mono; [apply Hgo_right|intros; by apply wp_ret].
    rewrite (proj2 (Z.compare_gt_iff hash _) Hk') in Hcmp. by apply Z.compare_gt_iff. }
  rewrite (proj2 (Z.compare_eq_iff hash _)) in Hcmp by lia.
  rewrite Hjn. cbn [name nlen]. rewrite Nat2Z.id.
  destruct (strncpy_fits _ _ Hjl) as [rest ->].
  rewrite <- (app_nil_r q) at 1. rewrite ngx_memn2cmp_spec.
  destruct (cmp_str q (nm (iloc j))) eqn:Hc; cbn [cmp_int Z.eqb Z.ltb Z.compare].
  - apply wp_ret. split; [done|]. right. exists j. split_and!; [done|done|].
    symmetry. by apply Z.compare_eq_iff.
  - apply wp_bind. eapply wp_mono; [apply Hgo_left|intros; by apply wp_ret].
    by apply Z.compare_lt_iff.
  - apply wp_bind. eapply wp_mono; [apply Hgo_right|intros; by apply wp_ret].
    by apply Z.compare_gt_iff.
Qed.

Lemma found_spec t l q p :
  inorder t ≡ₚ resolver_item nm <$> l -> Forall (fun p => cstring (nm p) /\ (length (nm p) <= w)%nat) l ->
  cstring q -> (length q <= w)%nat -> found (hash_rank w (crc32 q) q) t p ->
  (p = NULL /\ q ∉ nm <$> l) \/ (p ∈ l /\ nm p = q).
Proof.
  intros Hin Hl Hq Hlq. rewrite Forall_forall in Hl.
  assert (forall p, p ∈ l -> rank nm w (resolver_item nm p) = hash_rank w (crc32 q) q -> nm p = q) as Heq.
  { intros x Hx Hr. destruct (Hl x Hx). apply Z.compare_eq_iff in Hr. unfold rank in Hr.
    rewrite hash_rank_compare in Hr by done. simpl in Hr.
    destruct (Z.compare_spec (crc32 (nm x)) (crc32 q)); [|done..]. by apply cmp_str_eq. }
  intros [[-> Hno]|(i & Hi & -> & Hr)].
  - left. split; [done|]. intros (x & -> & Hx)%list_elem_of_fmap.
    apply (Hno (resolver_item nm x)); [|done]. rewrite Hin. by apply list_elem_of_fmap_2.
  - right. rewrite Hin in Hi. apply list_elem_of_fmap in Hi as (x & -> & Hx). simpl. auto.
Qed.
(** One round of the release: the first node is deleted and freed. *)
Lemma release_first fuel r l :
  resolver_inv r l -> l <> [] -> (walk_fuel (length l) <= fuel)%nat ->
  exists p st r' l', ngx_rbtree_min fuel (root (name_rbtree r)) (sentinel (name_rbtree r))
                       (name_rbtree r) = Some (p, name_rbtree r) /\
    ngx_rbtree_delete fuel p (name_rbtree r) = Some (tt, st) /\
    free_node p (Resolver st (names r)) = Some r' /\ resolver_inv r' l' /\ l ≡ₚ p :: l'.
Proof.
  intros (t & Ht & Hs & Hin & Hn & Hdom & Hnull) Hl Hfuel.
  pose proof (resolver_locs _ _ Hin) as Hlocs.
  assert (length l = size t) as Hlen by (by rewrite <- size_inorder, Hin, length_fmap).
  pose proof (rbtree_height _ _ _ Ht). rewrite Hlen in Hfuel.
  assert (t <> E) as HtE by (intros ->; by destruct l).
  pose proof Ht as [(sn & par0 & H') [n Hrb]].
  rewrite (ta_root _ _ _ _ _ H'), (ta_sent _ _ _ _ _ H').
  assert (wp (ngx_rbtree_min fuel (loc_of (esent e) t) (esent e))
            (fun p st => st = name_rbtree r /\ exists i, i ∈ inorder t /\ p = iloc i) (name_rbtree r)) as Hwp.
  { eapply (wp_min e _ sn par0 []); [exact H'|exact HtE|lia|]. intros D y cy t1 -> _.
    split; [done|]. exists y. split; [|done]. rewrite inorder_plug. simpl. set_solver. }
  apply wp_run in Hwp as (p & st1 & Hmin & -> & z & Hz & ->).
  destruct (in_focus _ _ Hz) as (C & a & c & b & ->).
  pose proof (wp_ngx_rbtree_delete _ _ _ _ _ _ _ _ Ht Hfuel) as Hwp.
  apply wp_run in Hwp as ([] & st' & Hdel & t' & Ht' & Hin' & cz & Hz').
  assert (inorder (plug C (T a z c b)) = (pre C ++ inorder a) ++ z :: (inorder b ++ post C)) as Hin0
    by (rewrite inorder_plug; simpl; by rewrite <- !app_assoc).
  assert (l ≡ₚ iloc z :: locs t') as Hl'.
  { rewrite <- Hlocs. unfold locs. rewrite Hin0, Hin', !fmap_app, fmap_cons, !fmap_app. solve_Permutation. }
  assert (NoDup l) as Hnd by (rewrite <- Hlocs; apply H').
  rewrite Hl' in Hnd. apply NoDup_cons in Hnd as [Hzl Hnd].
  assert (is_Some (names r !! iloc z)) as [nz Hnz] by (apply Hdom; rewrite Hl'; by left).
  exists (iloc z), st'. eexists. exists (locs t'). split_and!; [done|done| | |done].
  { unfold free_node. cbn [name_rbtree names]. by rewrite Hz', Hnz. }
  exists t'. cbn [name_rbtree names].
  assert (Forall (fun i => i = resolver_item nm (iloc i) /\ named nm w (names r) i) (inorder t')) as Hitems.
  { rewrite Forall_forall in Hn |- *. intros i Hi.
    assert (i ∈ inorder (plug C (T a z c b))) as Hi0
      by (rewrite Hin0; rewrite Hin' in Hi; set_solver).
    split; [|by apply Hn]. rewrite Hin in Hi0. by apply list_elem_of_fmap in Hi0 as (x & -> & _). }
  rewrite Forall_forall in Hitems. split_and!.
  - eapply (rbtree_outside _ _ _ _ (iloc z)); [exact Ht'| | |exact Hzl|].
    + apply (ta_owned _ _ _ _ _ H'). rewrite Hlocs, Hl'. by left.
    + intros Heq. apply (ta_fresh _ _ _ _ _ H'). rewrite <- Heq, Hlocs, Hl'. by left.
    + intros x Hx. by apply lookup_delete_ne.
  - rewrite Hin0 in Hs. rewrite Hin', app_assoc. apply (by_rank_delete _ _ z).
    exact Hs.
  - unfold locs. rewrite <- list_fmap_compose. apply reflexive_eq.
    rewrite <- (list_fmap_id (inorder t')) at 1. apply list_fmap_ext. intros k i Hi.
    apply Hitems. by apply list_elem_of_lookup_2 in Hi.
  - apply Forall_forall. intros i Hi. destruct (Hitems i Hi) as (_ & ? & ? & ? & Hni).
    split_and!; try done. rewrite lookup_delete_ne; [done|]. intros Heq. apply Hzl. rewrite Heq.
    by apply list_elem_of_fmap_2.
  - intros q. destruct (decide (q = iloc z)) as [->|Hq].
    + rewrite lookup_delete_eq. split; [done|]. by intros [? ?].
    + rewrite lookup_delete_ne by done. rewrite <- Hdom, Hl', elem_of_cons. naive_solver.
  - rewrite Hl' in Hnull. set_solver.
Qed.

Lemma deinit_inv fuel rounds r l :
  resolver_inv r l -> (length l < rounds)%nat -> (walk_fuel (length l) <= fuel)%nat ->
  exists r', deinit fuel rounds r = Some r' /\ resolver_inv r' [].
Proof.
  revert r l. induction rounds as [|rounds IH]; intros r l Hr Hl Hfuel; [lia|].
  cbn [deinit]. destruct (decide (l = [])) as [->|Hne].
  - pose proof Hr as (t & [(sn & par0 & H) _] & _ & Hin & _).
    apply Permutation_nil_r in Hin. destruct t as [|a i c b]; [|simpl in Hin; by destruct (inorder a)].
    rewrite (ta_root _ _ _ _ _ H), (ta_sent _ _ _ _ _ H), decide_True by done. eauto.
  - destruct (release_first fuel r l Hr Hne Hfuel) as (p & st & r' & l' & Hmin & Hdel & Hfree & Hr' & Hl').
    pose proof Hr as (t & [(sn & par0 & H) _] & _ & Hin & _).
    rewrite decide_False.
    2: { rewrite (ta_root _ _ _ _ _ H), (ta_sent _ _ _ _ _ H). intros Heq.
         apply (loc_of_sent_inv _ _ _ _ [] _ H) in Heq as ->. apply Hne.
         destruct l; [done|]. symmetry in Hin. by apply Permutation_nil_r in Hin. }
    rewrite Hmin. cbn [mbind option_bind]. rewrite Hdel. cbn [mbind option_bind].
    rewrite Hfree. cbn [mbind option_bind].
    assert (length l = S (length l')) as Hlen by (by rewrite Hl').
    apply (IH r' l'); [done|lia|]. etrans; [|exact Hfuel]. rewrite Hlen. unfold walk_fuel.
    pose proof (Nat.log2_le_mono (S (length l')) (S (S (length l')))). lia.
Qed.

(** Inserting the nodes [l], each with its name, the last one of [l] first. *)
Definition inserts (fuel : nat) (l : list loc) (r : resolver) : option resolver :=
  foldr (fun p r => r ← r; insert ngx_crc32_table16 fuel p (nm p) r) (Some r) l.
End resolver.

(** * Property *)

(** C4: the nodes of distinct addresses and with names of fewer than 128
    characters can all be inserted into a new resolver; a search for any name
    then finds a node of that name if there is one, and NULL if there is none,
    whatever checksums and names collide; the release of the tree ends, leaves
    it empty and frees every node. No memory fault occurs, and the loops stay
    within a logarithmic budget for each walk. *)
Theorem resolver_correct e nm m r0 l fuel rounds :
  (forall x, x ∉ owned e -> m !! x = others e !! x) -> esent e ∈ owned e ->
  init m (esent e) = Some r0 ->
  NoDup l ->
  Forall (fun p => p ∈ owned e /\ p <> NULL /\ p <> esent e /\
            cstring (nm p) /\ (length (nm p) < name_size)%nat) l ->
  (walk_fuel (length l) <= fuel)%nat -> (length l < rounds)%nat ->
  exists r r',
    inserts nm fuel l r0 = Some r /\
    (forall q, cstring q -> exists p,
       ngx_resolver_lookup_name fuel r q (crc32 q) = Some p /\
       ((p = NULL /\ q ∉ nm <$> l) \/ (p ∈ l /\ nm p = q))) /\
    deinit fuel rounds r = Some r' /\
    root (name_rbtree r') = sentinel (name_rbtree r') /\ names r' = ∅.
Proof.
  intros Hm Ho Hinit Hnd Hl Hfuel Hrounds.
  assert (forall w, (name_size <= w)%nat -> exists r, inserts nm fuel l r0 = Some r /\ resolver_inv e nm w r l) as Hins.
  { intros w Hw. clear Hrounds. induction l as [|p l IH]; [by eauto using init_inv|].
    apply Forall_cons in Hl as [(?&?&?&?&?) Hl]. apply NoDup_cons in Hnd as [Hp Hnd].
    assert (walk_fuel (length l) <= fuel)%nat as Hfuel'.
    { etrans; [|exact Hfuel]. unfold walk_fuel. cbn [length].
      pose proof (Nat.log2_le_mono (S (length l)) (S (S (length l)))). lia. }
    destruct (IH Hnd Hl Hfuel') as (r & Hr & Hinv).
    destruct (insert_inv e nm w fuel p r l Hinv) as (r' & Hr' & Hinv'); [by split|done|done|].
    exists r'. split; [|done]. cbn [inserts foldr]. fold (inserts nm fuel l r0). by rewrite Hr. }
  destruct (Hins name_size (le_n _)) as (r & Hr & Hinv).
  destruct (deinit_inv e nm name_size fuel rounds r l Hinv) as (r' & Hr' & Hinv'); [done|done|].
  exists r, r'. split_and!; [done| |done| |].
  - intros q Hq. set (w := Nat.max name_size (length q)).
    destruct (Hins w) as (r1 & Hr1 & t & Ht & Hs & Hin & Hn & _); [lia|].
    rewrite Hr in Hr1. injection Hr1 as <-. pose proof (rbtree_height _ _ _ Ht).
    assert (length l = size t) as Hlen by (by rewrite <- size_inorder, Hin, length_fmap).
    pose proof Ht as [(sn & par0 & H') _].
    pose proof (wp_lookup e nm w fuel (names r) t _ q (crc32 q) Ht Hs Hn Hq) as Hwp.
    apply wp_run in Hwp as (p & st & Hrun & -> & Hfound); [|lia|rewrite Hlen in Hfuel; lia].
    exists p. unfold ngx_resolver_lookup_name.
    rewrite (ta_root _ _ _ _ _ H'), (ta_sent _ _ _ _ _ H'), Hrun. split; [done|].
    eapply found_spec; [exact Hin| |exact Hq| |exact Hfound]; [|lia].
    eapply Forall_impl; [exact Hl|]. simpl. intros ? (?&?&?&?&?). split; [done|lia].
  - destruct Hinv' as (t & [(sn & par0 & H) _] & _ & Hin & _).
    apply Permutation_nil_r in Hin. destruct t as [|a i c b]; [|simpl in Hin; by destruct (inorder a)].
    by rewrite (ta_root _ _ _ _ _ H), (ta_sent _ _ _ _ _ H).
  - destruct Hinv' as (_ & _ & _ & _ & _ & Hdom & _). apply map_eq. intros x.
    rewrite lookup_empty. apply eq_None_not_Some. rewrite <- Hdom. apply not_elem_of_nil.
Qed.

(** A name of 128 or more characters fills the array, and [strlen] then reads
    behind its end. *)
Lemma long_name_unterminated table fuel p s r :
  cstring s -> (name_size <= length s)%nat -> insert table fuel p s r = None.
Proof.
  intros Hs Hl. unfold insert. case_decide; [done|].
  assert (forall k, cstring k -> strlen k = None) as Hno.
  { induction 1 as [|c k Hc Hk IH]; [done|]. simpl. destruct (Z.eqb_spec c 0); [lia|]. by rewrite IH. }
  unfold strncpy. rewrite take_app_le by done. by rewrite Hno by (by apply Forall_take).
Qed.

(** * Witness *)

Definition demo_names (p : loc) : list Z :=
  if decide (p = 2) then amazon else if decide (p = 3) then baidu else google.
Definition demo_heap : gmap loc node := {[ 1 := Node 0 0 0 0 0 0 ]}.
Definition demo_resolver : resolver :=
  Resolver (RbState {[ 1 := Node 0 0 0 0 0 0 ]} 1 1) ∅.

Lemma resolver_correct_witness :
  exists r r',
    inserts demo_names 10 [4; 3; 2] demo_resolver = Some r /\
    (forall q, cstring q -> exists p,
       ngx_resolver_lookup_name 10 r q (crc32 q) = Some p /\
       ((p = NULL /\ q ∉ demo_names <$> [4; 3; 2]) \/ (p ∈ [4; 3; 2] /\ demo_names p = q))) /\
    deinit 10 10 r = Some r' /\ root (name_rbtree r') = sentinel (name_rbtree r') /\ names r' = ∅.
Proof.
  apply (resolver_correct (Env 1 [1; 2; 3; 4] ∅) demo_names demo_heap demo_resolver [4; 3; 2] 10 10).
  - intros x Hx. cbn [others]. unfold demo_heap. rewrite lookup_empty, lookup_singleton_ne; [done|].
    intros <-. apply Hx. by left.
  - by left.
  - reflexivity.
  - apply (bool_decide_unpack _). by vm_compute.
  - unfold cstring. rewrite Forall_forall. intros p Hp.
    assert (p = 4 \/ p = 3 \/ p = 2) as [-> | [-> | ->]] by set_solver;
      (split_and!; [set_solver|done|done|repeat constructor; lia|vm_compute; lia]).
  - vm_compute. lia.
  - simpl. lia.
Defined.
