(* ===== verification/Ring.v ===== *)
(** Circular doubly linked lists with a sentinel: the objects and the abstract
    state shared by src/Queue (ngx_queue) and src/SList (list.h).

    A store of link objects is seen as a [world]: rings, each a sentinel with
    the members that follow it, and loose objects that are in no ring.

    Client scripts: what a list implementation promises to its clients, the
    abstract machine on sequences that clients may reason with, and the
    refinement between the two. [RingOps] is implemented by Queue.v (ngx_queue)
    and by SList.v (list.h). *)
From S2P Require Import Prelude Store.

(** struct ngx_queue_s and struct list_head *)
Record link := Link { prev : loc; next : loc }.

Definition set_prev v n := Link v (next n).
Definition set_next v n := Link (prev n) v.

Abbreviation lcmd := (cmd (gmap loc link)).

(** [p->next], [p->prev] as partial functions of the store. *)
Definition nx (m : gmap loc link) (x : loc) : option loc := next <$> m !! x.
Definition pv (m : gmap loc link) (x : loc) : option loc := prev <$> m !! x.

Section rules.
Implicit Types m : gmap loc link.

Lemma wp_rd_next m p v (Q : loc -> gmap loc link -> Prop) :
  nx m p = Some v -> Q v m -> wp (rd next p) Q m.
Proof.
  unfold nx. intros Hp HQ. destruct (m !! p) as [n|] eqn:Hm; [|done].
  injection Hp as <-. by eapply wp_rd.
Qed.

Lemma wp_rd_prev m p v (Q : loc -> gmap loc link -> Prop) :
  pv m p = Some v -> Q v m -> wp (rd prev p) Q m.
Proof.
  unfold pv. intros Hp HQ. destruct (m !! p) as [n|] eqn:Hm; [|done].
  injection Hp as <-. by eapply wp_rd.
Qed.

(** A write, seen through [nx] and [pv]. *)
Lemma wp_wr_next m p v w (Q : unit -> gmap loc link -> Prop) :
  nx m p = Some w ->
  (forall m', (forall x, nx m' x = if decide (x = p) then Some v else nx m x) ->
     (forall x, pv m' x = pv m x) -> (forall x, x <> p -> m' !! x = m !! x) -> Q tt m') ->
  wp (wr (set_next v) p) Q m.
Proof.
  unfold nx, pv. intros Hp HQ. destruct (m !! p) as [n|] eqn:Hm; [|done].
  eapply wp_wr; [exact Hm|]. simpl. apply HQ.
  - intros x. destruct (decide (x = p)) as [->|]; [by rewrite lookup_insert_eq|].
    by rewrite lookup_insert_ne.
  - intros x. destruct (decide (x = p)) as [->|]; [by rewrite lookup_insert_eq, Hm|].
    by rewrite lookup_insert_ne.
  - intros x Hx. by rewrite lookup_insert_ne.
Qed.

Lemma wp_wr_prev m p v w (Q : unit -> gmap loc link -> Prop) :
  nx m p = Some w ->
  (forall m', (forall x, pv m' x = if decide (x = p) then Some v else pv m x) ->
     (forall x, nx m' x = nx m x) -> (forall x, x <> p -> m' !! x = m !! x) -> Q tt m') ->
  wp (wr (set_prev v) p) Q m.
Proof.
  unfold nx, pv. intros Hp HQ. destruct (m !! p) as [n|] eqn:Hm; [|done].
  eapply wp_wr; [exact Hm|]. simpl. apply HQ.
  - intros x. destruct (decide (x = p)) as [->|]; [by rewrite lookup_insert_eq|].
    by rewrite lookup_insert_ne.
  - intros x. destruct (decide (x = p)) as [->|]; [by rewrite lookup_insert_eq, Hm|].
    by rewrite lookup_insert_ne.
  - intros x Hx. by rewrite lookup_insert_ne.
Qed.
End rules.

(** * Segments *)

Definition edge (m : gmap loc link) (a b : loc) : Prop := nx m a = Some b /\ pv m b = Some a.

(** [seg m a l b]: following [next] from [a] meets [l], then [b], and [prev]
    leads back. *)
Fixpoint seg (m : gmap loc link) (a : loc) (l : list loc) (b : loc) : Prop :=
  match l with [] => edge m a b | x :: l => edge m a x /\ seg m x l b end.

(** A non-empty list with its first and its last member. *)
Definition ends (l : list loc) (f e : loc) : Prop :=
  (exists l', l = f :: l') /\ (exists l', l = l' ++ [e]).

Lemma ends_cases l : l = [] \/ exists f e, ends l f e.
Proof.
  destruct l as [|f l]; [by left|right]. destruct (exists_last (l := f :: l)) as (l' & e & Hl); [done|].
  exists f, e. split; eauto.
Qed.

Lemma ends_in l f e : ends l f e -> f ∈ l /\ e ∈ l.
Proof. intros [[? ->] [? H]]. split; [set_solver|]. rewrite H. set_solver. Qed.

Section seg.
Implicit Types m : gmap loc link.

Lemma seg_app m a l1 x l2 b : seg m a (l1 ++ x :: l2) b <-> seg m a l1 x /\ seg m x l2 b.
Proof. revert a. induction l1 as [|y l1 IH]; intros a; simpl; [tauto|]. rewrite IH. tauto. Qed.

Lemma seg_of_ends m a l b f e : ends l f e -> seg m a l b -> edge m a f /\ edge m e b.
Proof.
  intros [[? ->] [l' Hl']] H. split; [by destruct H|].
  rewrite Hl' in H. by apply seg_app in H as [_ H].
Qed.

Lemma seg_frame m m' a l b :
  seg m a l b -> (forall x, x ∈ a :: l -> nx m' x = nx m x) ->
  (forall x, x ∈ b :: l -> pv m' x = pv m x) -> seg m' a l b.
Proof.
  revert a. induction l as [|y l IH]; intros a; simpl; unfold edge.
  - intros [??] Hn Hp. rewrite Hn, Hp by set_solver. done.
  - intros [[??] ?] Hn Hp. rewrite Hn, Hp by set_solver. split; [done|].
    apply IH; [done| |]; intros; [apply Hn|apply Hp]; set_solver.
Qed.

(** The same members between other end points. *)
Lemma seg_ends m m' a l b a' b' f e :
  ends l f e -> seg m a l b -> NoDup l -> edge m' a' f -> edge m' e b' ->
  (forall x, x ∈ l -> x <> e -> nx m' x = nx m x) ->
  (forall x, x ∈ l -> x <> f -> pv m' x = pv m x) -> seg m' a' l b'.
Proof.
  intros [[l1 ->] [l2 Hl]] H Hnd Hf Hl' Hn Hp. split; [done|]. destruct H as [_ H].
  destruct l1 as [|z l _] using rev_ind.
  { destruct l2 as [|y []]; [|done..]. by injection Hl as ->. }
  change (f :: l ++ [z]) with ((f :: l) ++ [z]) in Hl. apply app_inj_tail in Hl as [_ ->].
  apply seg_app in H as [H _]. apply NoDup_cons in Hnd as [Hy Hnd].
  apply NoDup_app in Hnd as (_ & Hz & _). apply seg_app. split; [|done].
  apply (seg_frame m); [done|intros x Hx; apply Hn|intros x Hx; apply Hp]; set_solver.
Qed.

(** The object before a member. *)
Lemma seg_prev m a l b : seg m a l b -> pv m b = Some (List.last l a).
Proof.
  destruct l as [|y l _] using rev_ind; [by intros []|].
  rewrite last_last. intros [_ [_ H]]%seg_app. exact H.
Qed.

(** The cycle that remains when the object [x] at its start is bypassed. *)
Lemma cycle_of_unlinked m m' x y k e :
  seg m x (y :: k) x -> (exists l, y :: k = l ++ [e]) -> NoDup (y :: k) -> edge m' e y ->
  (forall z, z ∈ y :: k -> z <> e -> nx m' z = nx m z) ->
  (forall z, z ∈ y :: k -> z <> y -> pv m' z = pv m z) -> seg m' y k y.
Proof.
  intros [_ Hs] [l He] Hnd Hy Hn Hp. destruct k as [|z k _] using rev_ind.
  { destruct l as [|? []]; injection He as <-; try done. }
  rewrite app_comm_cons in He. apply app_inj_tail in He as [_ ->].
  apply seg_app in Hs as [Hs _]. apply NoDup_cons in Hnd as [Hyk [Hk1 [Hek _]]%NoDup_app].
  apply seg_app. split; [|done].
  apply (seg_frame m); [done|intros w Hw; apply Hn|intros w Hw; apply Hp]; set_solver.
Qed.
End seg.

(** * Worlds *)

Abbreviation ring := (loc * list loc)%type.

Definition addrs (R : list ring) : list loc := R ≫= fun r => r.1 :: r.2.

(** [world O m F R]: the store [m] holds the rings [R], each at its sentinel,
    and the loose objects [F], all at different addresses; at every other
    address it is as [O]. *)
Record world (O m : gmap loc link) (F : list loc) (R : list ring) : Prop := World {
  w_loose : forall x, x ∈ F -> is_Some (m !! x);
  w_rings : forall h l, (h, l) ∈ R -> seg m h l h;
  w_nodup : NoDup (F ++ addrs R);
  w_others : forall x, x ∉ F ++ addrs R -> m !! x = O !! x;
}.

Lemma addrs_app R1 R2 : addrs (R1 ++ R2) = addrs R1 ++ addrs R2.
Proof. apply bind_app. Qed.

Lemma addrs_cons r R : addrs (r :: R) = r.1 :: r.2 ++ addrs R.
Proof. done. Qed.

Lemma elem_of_addrs x h l R : (h, l) ∈ R -> x ∈ h :: l -> x ∈ addrs R.
Proof. intros HR Hx. apply list_elem_of_bind. by exists (h, l). Qed.

Lemma seg_alloc m a l b x : seg m a l b -> x ∈ a :: l -> exists v, nx m x = Some v.
Proof.
  revert a. induction l as [|y l IH]; intros a H Hx.
  - apply list_elem_of_singleton in Hx as ->. destruct H as [H _]. eauto.
  - destruct H as [[H _] Hs]. apply elem_of_cons in Hx as [->|Hx]; eauto.
Qed.

Lemma seg_prev_alloc m a l b x : seg m a l b -> x ∈ b :: l -> exists v, pv m x = Some v.
Proof.
  revert a. induction l as [|y l IH]; intros a H Hx.
  - apply list_elem_of_singleton in Hx as ->. destruct H as [_ H]. eauto.
  - destruct H as [[_ H] Hs]. apply elem_of_cons in Hx as [->|[->|Hx]%elem_of_cons]; [|eauto|];
      apply (IH _ Hs); set_solver.
Qed.

Lemma seg_ends_alloc m a l b f e :
  ends l f e -> seg m a l b -> exists v w, nx m f = Some v /\ pv m e = Some w.
Proof.
  intros He Hs. destruct (ends_in _ _ _ He).
  destruct (seg_alloc _ _ _ _ f Hs) as [v ?]; [set_solver|].
  destruct (seg_prev_alloc _ _ _ _ e Hs) as [w ?]; [set_solver|eauto].
Qed.

Section world.
Context (O m : gmap loc link) (F : list loc) (R : list ring).
Hypothesis HW : world O m F R.

Lemma world_loose_nx x : x ∈ F -> exists v, nx m x = Some v.
Proof. intros Hx. destruct (w_loose _ _ _ _ HW x Hx) as [n Hn]. exists (next n). unfold nx. by rewrite Hn. Qed.

Lemma world_perm F' R' : F ≡ₚ F' -> R ≡ₚ R' -> world O m F' R'.
Proof.
  intros HF HR. destruct HW as [Hl Hr Hn Ho].
  assert (F ++ addrs R ≡ₚ F' ++ addrs R') as HP by (unfold addrs; by rewrite HF, HR).
  split.
  - intros x. rewrite <- HF. auto.
  - intros h l. rewrite <- HR. auto.
  - by rewrite <- HP.
  - intros x. rewrite <- HP. auto.
Qed.
End world.

(** An operation on some of the rings and loose objects of a world, which
    writes to no other object. *)
Lemma world_step O m m' F F' A A' R :
  world O m F (A ++ R) ->
  (forall x, x ∉ F ++ addrs A -> m' !! x = m !! x) ->
  (forall x, is_Some (nx m x) -> is_Some (nx m' x)) ->
  (forall h l, (h, l) ∈ A' -> seg m' h l h) ->
  F' ++ addrs A' ≡ₚ F ++ addrs A ->
  world O m' F' (A' ++ R).
Proof.
  intros [Hl Hr Hnd Ho] Hfr Hal HA Hp. rewrite addrs_app in Hnd, Ho.
  assert (NoDup ((F ++ addrs A) ++ addrs R)) as Hnd' by (by rewrite <- app_assoc).
  assert (forall x, x ∈ F ++ addrs A -> is_Some (nx m x)) as Hall.
  { intros x [Hx|Hx]%elem_of_app; [apply fmap_is_Some; by apply Hl|].
    apply list_elem_of_bind in Hx as ([h l] & Hx & HR). simpl in Hx.
    destruct (seg_alloc m h l h x) as [v Hv]; [apply Hr; set_solver|done|eauto]. }
  split.
  - intros x Hx. apply (fmap_is_Some next), Hal, Hall. rewrite <- Hp. set_solver.
  - intros h l [HhA|HhR]%elem_of_app; [by apply HA|].
    assert (forall x, x ∈ h :: l -> m' !! x = m !! x) as Hsame.
    { intros x Hx. apply Hfr. intros Hx'. apply NoDup_app in Hnd' as (_ & Hd & _).
      apply (Hd x Hx'). by eapply elem_of_addrs. }
    eapply seg_frame; [apply Hr; set_solver|..]; intros x Hx; unfold nx, pv; rewrite Hsame; set_solver.
  - rewrite addrs_app, app_assoc, Hp. done.
  - intros x. rewrite addrs_app, app_assoc, Hp. intros Hx. rewrite Hfr by set_solver.
    apply Ho. by rewrite app_assoc.
Qed.

(** * Proof automation *)

(** Run straight-line link code; every write leaves the equations of the new
    store, by which [nx] and [pv] of later stores reduce to the first one. *)
Ltac link_eval :=
  repeat match goal with
  | H : forall x, nx ?m x = _ |- context [nx ?m ?y] => rewrite (H y)
  | H : forall x, pv ?m x = _ |- context [pv ?m ?y] => rewrite (H y)
  | |- context [decide (?x = ?x)] => rewrite (decide_True (P := x = x)) by reflexivity
  | |- context [decide (?x = ?y)] =>
      first [rewrite (decide_False (P := x = y)) by congruence
            |rewrite (decide_True (P := x = y)) by congruence
            |destruct (decide (x = y)); try (exfalso; congruence)]
  end.
Ltac link_solve := link_eval; try eassumption; try congruence; eauto.

Ltac link_run1 :=
  cbn beta iota;
  match goal with
  | |- wp (mbind _ _) _ _ => apply wp_bind
  | |- wp (mret _) _ _ => apply wp_ret
  | |- wp (rd next _) _ _ => eapply wp_rd_next; [solve [link_solve]|]
  | |- wp (rd prev _) _ _ => eapply wp_rd_prev; [solve [link_solve]|]
  | |- wp (wr (set_next _) _) _ _ =>
      eapply wp_wr_next; [solve [link_solve]|];
      let m := fresh "m" in let Hn := fresh "Hn" in let Hp := fresh "Hp" in
      let Hf := fresh "Hfr" in intros m Hn Hp Hf
  | |- wp (wr (set_prev _) _) _ _ =>
      eapply wp_wr_prev; [solve [link_solve]|];
      let m := fresh "m" in let Hn := fresh "Hn" in let Hp := fresh "Hp" in
      let Hf := fresh "Hfr" in intros m Hp Hn Hf
  end.
Ltac link_run := repeat link_run1.

(** * Preparing and closing the proof of an operation *)

(** What a ring of a world gives: distinctness, and its end edges. *)
Lemma world_ring O m F h l R :
  world O m F ((h, l) :: R) ->
  h ∉ l /\ NoDup l /\
  (l = [] /\ nx m h = Some h /\ pv m h = Some h \/
   exists f e vf ve, ends l f e /\ seg m h l h /\ f ∈ l /\ e ∈ l /\ f <> h /\ e <> h /\
     nx m h = Some f /\ pv m f = Some h /\ nx m e = Some h /\ pv m h = Some e /\
     nx m f = Some vf /\ pv m e = Some ve).
Proof.
  intros [_ Hr Hn _]. assert (seg m h l h) as Hs by (apply Hr; set_solver).
  rewrite addrs_cons in Hn. simpl in Hn. apply NoDup_app in Hn as (_ & _ & Hn).
  apply NoDup_cons in Hn as [? [? _]%NoDup_app].
  assert (h ∉ l) by set_solver. split_and!; [done..|].
  destruct (ends_cases l) as [->|(f & e & He)]; [left; by destruct Hs|right].
  destruct (seg_of_ends _ _ _ _ _ _ He Hs) as [[??] [??]].
  destruct (ends_in _ _ _ He) as [??].
  destruct (seg_alloc _ _ _ _ f Hs) as [vf ?]; [set_solver|].
  destruct (seg_prev_alloc _ _ _ _ e Hs) as [ve ?]; [set_solver|].
  exists f, e, vf, ve. split_and!; try done; congruence.
Qed.

(** The two parts of a ring around a member. *)
Lemma world_parts O m F h l1 q l2 R :
  world O m F ((h, l1 ++ q :: l2) :: R) ->
  seg m h l1 q /\ seg m q l2 h /\ h <> q /\ h ∉ l1 /\ h ∉ l2 /\ q ∉ l1 /\ q ∉ l2 /\
  NoDup l1 /\ NoDup l2 /\ (forall x, x ∈ l1 -> x ∉ l2).
Proof.
  intros H. destruct (world_ring _ _ _ _ _ _ H) as (Hh & Hnd & _).
  destruct H as [_ Hr _ _]. assert (seg m h (l1 ++ q :: l2) h) as Hs by (apply Hr; set_solver).
  apply seg_app in Hs as [??]. apply NoDup_app in Hnd as (? & Hd & [? ?]%NoDup_cons).
  split_and!; set_solver.
Qed.

(** Two rings of a world. *)
Lemma world_pair O m F h l n k R :
  world O m F ((h, l) :: (n, k) :: R) ->
  seg m h l h /\ seg m n k n /\ h <> n /\ h ∉ l /\ h ∉ k /\ n ∉ l /\ n ∉ k /\
  NoDup l /\ NoDup k /\ (forall x, x ∈ l -> x ∉ k).
Proof.
  intros [_ Hr Hn _]. assert (seg m h l h) by (apply Hr; set_solver).
  assert (seg m n k n) by (apply Hr; set_solver).
  rewrite !addrs_cons in Hn. simpl in Hn. apply NoDup_app in Hn as (_ & _ & Hn).
  apply NoDup_cons in Hn as [Hh (? & Hd & Hn)%NoDup_app]. apply NoDup_cons in Hn as [? [? _]%NoDup_app].
  split_and!; set_solver.
Qed.

(** A loose object of a world is in no ring. *)
Lemma world_loose O m x F h l R :
  world O m (x :: F) ((h, l) :: R) -> x <> h /\ x ∉ l /\ exists v, nx m x = Some v.
Proof.
  intros H. split_and!; [..|eapply world_loose_nx; [done|set_solver]];
    destruct H as [_ _ Hn _]; rewrite addrs_cons in Hn; simpl in Hn; apply NoDup_cons in Hn;
    set_solver.
Qed.

(** Any member may serve as the sentinel of its ring. *)
Lemma world_rotate O m F h l1 p l2 R :
  world O m F ((h, l1 ++ p :: l2) :: R) -> world O m F ((p, l2 ++ h :: l1) :: R).
Proof.
  intros [Hl Hr Hn Ho].
  assert (F ++ addrs ((p, l2 ++ h :: l1) :: R) ≡ₚ F ++ addrs ((h, l1 ++ p :: l2) :: R)) as HP.
  { rewrite !addrs_cons. simpl. solve_Permutation. }
  split; [done| |by rewrite HP|intros x; rewrite HP; auto].
  intros h' l' [[= -> ->]|?]%elem_of_cons; [|apply Hr; set_solver].
  apply seg_app. apply and_comm, seg_app, Hr. set_solver.
Qed.

(** A ring may be given up. *)
Lemma world_loosen O m F h l R : world O m F ((h, l) :: R) -> world O m (F ++ h :: l) R.
Proof.
  intros [Hl Hr Hn Ho].
  assert ((F ++ h :: l) ++ addrs R = F ++ addrs ((h, l) :: R)) as HP by (by rewrite <- app_assoc).
  split; [|intros; apply Hr; set_solver|by rewrite HP|by rewrite HP].
  intros x [Hx|Hx]%elem_of_app; [by apply Hl|].
  destruct (seg_alloc m h l h x) as [v Hv]; [apply Hr; set_solver|done|].
  unfold nx in Hv. destruct (m !! x); [eauto|done].
Qed.

(** The loose objects and the rings in another order. *)
Lemma world_loose_perm O m F F' R : F ≡ₚ F' -> world O m F R -> world O m F' R.
Proof. intros HF HW. by eapply world_perm. Qed.

(** The frame conditions of [world_step] after [link_run]. *)
Ltac split_absent Hy :=
  rewrite ?addrs_cons in Hy; try change (addrs []) with (@nil loc) in Hy; cbn [fst snd] in Hy;
  repeat first [rewrite not_elem_of_app in Hy | rewrite not_elem_of_cons in Hy];
  destruct_and? Hy.
Ltac link_frame :=
  let y := fresh "y" in let Hy := fresh "Hy" in
  intros y Hy; split_absent Hy;
  repeat match goal with
  | H : forall x, x <> ?p -> ?m !! x = _ |- ?m !! y = _ => rewrite H by first [congruence | set_solver]
  end; reflexivity.
Ltac link_alloc :=
  let y := fresh "y" in intros y ?; link_eval; eauto.

(** [ring_step O m F F' A A']: close an operation by [world_step]; what is left
    are the segments of the new rings [A']. *)
Ltac ring_step O m F F' A A' :=
  eapply (world_step O m _ F F' A A');
  [eassumption|link_frame|link_alloc|
  |rewrite ?addrs_cons; try change (addrs []) with (@nil loc); cbn [fst snd]; solve_Permutation];
  let h' := fresh "h" in let l' := fresh "l" in let H := fresh "H" in
  intros h' l' H; rewrite ?elem_of_cons in H; destruct_or? H;
  [injection H as -> ->..|by apply not_elem_of_nil in H].

Ltac edge_tac := split; link_solve.
Ltac seg_ends_tac :=
  eapply seg_ends; [eassumption..|edge_tac|edge_tac| |];
  let x := fresh "x" in let Hx := fresh "Hx" in intros x Hx ?;
  try match goal with H : forall y, y ∈ _ -> y ∉ _ |- _ => pose proof (H x Hx) end;
  link_solve.

(** Case analysis on the ring at the head of a world. *)
Ltac start H :=
  try (pose proof (world_loose _ _ _ _ _ _ _ H) as (? & ? & ? & ?));
  pose proof (world_ring _ _ _ _ _ _ H)
    as (? & ? & [(Hnil & ? & ?)|(f & e & ? & ? & He & Hseg & ? & ? & ? & ? & ? & ? & ? & ? & ? & ?)]);
  try (discriminate Hnil); try match type of Hnil with ?l = [] => subst l end.

(** The end edges of the part of a ring between [a] and [b]. *)
Ltac part_ends l Hseg f e He :=
  let Hl := fresh "Hl" in
  destruct (ends_cases l) as [Hl|(f & e & He)];
  [subst l; destruct Hseg as [? ?]
  |destruct (seg_of_ends _ _ _ _ _ _ He Hseg) as [[? ?] [? ?]];
   pose proof (ends_in _ _ _ He) as [? ?];
   destruct (seg_ends_alloc _ _ _ _ _ _ He Hseg) as (? & ? & ? & ?)].

(** * The interface *)

(** The operations of an implementation, as commands on the link store. *)
Class RingOps := {
  rop_init : loc -> lcmd unit;
  rop_push_front : loc -> loc -> lcmd unit;   (** ring, new member *)
  rop_push_back : loc -> loc -> lcmd unit;    (** ring, new member *)
  rop_insert_after : loc -> loc -> lcmd unit; (** member, new member *)
  rop_remove : loc -> lcmd unit;
  rop_join : loc -> loc -> lcmd unit;         (** ring, ring appended to it *)
}.

(** Their laws. *)
Class RingLaws `(Ops : RingOps) : Prop := {
  law_init O m x F R (Q : unit -> gmap loc link -> Prop) :
    world O m (x :: F) R ->
    (forall m', world O m' F ((x, []) :: R) -> Q tt m') -> wp (rop_init x) Q m;
  law_push_front O m x F h l R (Q : unit -> gmap loc link -> Prop) :
    world O m (x :: F) ((h, l) :: R) ->
    (forall m', world O m' F ((h, x :: l) :: R) -> Q tt m') -> wp (rop_push_front h x) Q m;
  law_push_back O m x F h l R (Q : unit -> gmap loc link -> Prop) :
    world O m (x :: F) ((h, l) :: R) ->
    (forall m', world O m' F ((h, l ++ [x]) :: R) -> Q tt m') -> wp (rop_push_back h x) Q m;
  law_insert_after O m x F h l1 p l2 R (Q : unit -> gmap loc link -> Prop) :
    world O m (x :: F) ((h, l1 ++ p :: l2) :: R) ->
    (forall m', world O m' F ((h, l1 ++ p :: x :: l2) :: R) -> Q tt m') ->
    wp (rop_insert_after p x) Q m;
  law_remove O m x F h l1 l2 R (Q : unit -> gmap loc link -> Prop) :
    world O m F ((h, l1 ++ x :: l2) :: R) ->
    (forall m', world O m' (x :: F) ((h, l1 ++ l2) :: R) -> Q tt m') -> wp (rop_remove x) Q m;
  law_join O m F h l n k R (Q : unit -> gmap loc link -> Prop) :
    world O m F ((h, l) :: (n, k) :: R) ->
    (forall m', world O m' (n :: F) ((h, l ++ k) :: R) -> Q tt m') -> wp (rop_join h n) Q m;
}.

(** * Scripts and the abstract machine *)

Inductive rop :=
| Init (x : loc)
| PushFront (h x : loc)
| PushBack (h x : loc)
| InsertAfter (p x : loc)
| Remove (x : loc)
| Join (h n : loc).

(** An abstract state: the loose objects and the rings, as sequences. *)
Abbreviation astate := (list loc * list ring)%type.

Inductive astep : rop -> astate -> astate -> Prop :=
| astep_init x F R : astep (Init x) (x :: F, R) (F, (x, []) :: R)
| astep_push_front h x l F R : astep (PushFront h x) (x :: F, (h, l) :: R) (F, (h, x :: l) :: R)
| astep_push_back h x l F R : astep (PushBack h x) (x :: F, (h, l) :: R) (F, (h, l ++ [x]) :: R)
| astep_insert_after h l1 p l2 x F R :
    astep (InsertAfter p x) (x :: F, (h, l1 ++ p :: l2) :: R) (F, (h, l1 ++ p :: x :: l2) :: R)
| astep_remove x h l1 l2 F R :
    astep (Remove x) (F, (h, l1 ++ x :: l2) :: R) (x :: F, (h, l1 ++ l2) :: R)
| astep_join h l n k F R : astep (Join h n) (F, (h, l) :: (n, k) :: R) (n :: F, (h, l ++ k) :: R)
| astep_perm op F1 F2 R1 R2 F R :
    F1 ≡ₚ F2 -> R1 ≡ₚ R2 -> astep op (F2, R2) (F, R) -> astep op (F1, R1) (F, R).

Inductive asteps : list rop -> astate -> astate -> Prop :=
| asteps_nil s : asteps [] s s
| asteps_cons op ops s1 s2 s3 : astep op s1 s2 -> asteps ops s2 s3 -> asteps (op :: ops) s1 s3.

Section script.
Context `{RingLaws}.

Definition run_op (op : rop) : lcmd unit :=
  match op with
  | Init x => rop_init x
  | PushFront h x => rop_push_front h x
  | PushBack h x => rop_push_back h x
  | InsertAfter p x => rop_insert_after p x
  | Remove x => rop_remove x
  | Join h n => rop_join h n
  end.

Fixpoint run_script (ops : list rop) : lcmd unit :=
  match ops with
  | [] => mret tt
  | op :: ops => _ ← run_op op; run_script ops
  end.

Lemma wp_run_op O m op s s' (Q : unit -> gmap loc link -> Prop) :
  astep op s s' -> world O m s.1 s.2 ->
  (forall m', world O m' s'.1 s'.2 -> Q tt m') -> wp (run_op op) Q m.
Proof.
  intros Hstep. revert m. induction Hstep; simpl; intros m HW HQ.
  - by eapply law_init.
  - by eapply law_push_front.
  - by eapply law_push_back.
  - by eapply law_insert_after.
  - by eapply law_remove.
  - by eapply law_join.
  - apply IHHstep; [|done]. by eapply world_perm.
Qed.

(** Whatever the abstract machine can do, the implementation does. *)
Lemma run_script_refines O m ops s s' :
  asteps ops s s' -> world O m s.1 s.2 ->
  exists m', run_script ops m = Some (tt, m') /\ world O m' s'.1 s'.2.
Proof.
  intros Hsteps HW.
  enough (wp (run_script ops) (fun _ m' => world O m' s'.1 s'.2) m) as Hwp.
  { apply wp_run in Hwp as ([] & m' & ? & ?). eauto. }
  revert m HW. induction Hsteps as [s|op ops s1 s2 s3 Hstep _ IH]; simpl; intros m HW.
  - by apply wp_ret.
  - apply wp_bind. by eapply wp_run_op.
Qed.
End script.
