(* ===== verification/Queue.v ===== *)
(** The queue of src/Queue (ngx_queue.h, ngx_queue.c): a circular doubly linked
    list of link objects, embedded in the members, with a sentinel. *)
From stdpp Require Import sorting.
From S2P Require Import Prelude Store Ring.

(** * Operations *)

Definition ngx_queue_init (q : loc) : lcmd unit :=
  _ ← wr (set_prev q) q;
  wr (set_next q) q.

Definition ngx_queue_empty (h : loc) : lcmd bool :=
  p ← rd prev h; mret (bool_decide (h = p)).

Definition ngx_queue_insert_head (h x : loc) : lcmd unit :=
  hn ← rd next h;
  _ ← wr (set_next hn) x;
  xn ← rd next x;
  _ ← wr (set_prev x) xn;
  _ ← wr (set_prev h) x;
  wr (set_next x) h.

Definition ngx_queue_insert_after := ngx_queue_insert_head.

Definition ngx_queue_insert_tail (h x : loc) : lcmd unit :=
  hp ← rd prev h;
  _ ← wr (set_prev hp) x;
  xp ← rd prev x;
  _ ← wr (set_next x) xp;
  _ ← wr (set_next h) x;
  wr (set_prev x) h.

Definition ngx_queue_head (h : loc) : lcmd loc := rd next h.
Definition ngx_queue_last (h : loc) : lcmd loc := rd prev h.
Definition ngx_queue_sentinel (h : loc) : loc := h.
Definition ngx_queue_next (q : loc) : lcmd loc := rd next q.
Definition ngx_queue_prev (q : loc) : lcmd loc := rd prev q.

(** The macro of the builds without NGX_DEBUG. *)
Definition ngx_queue_remove (x : loc) : lcmd unit :=
  xn ← rd next x;
  xp ← rd prev x;
  _ ← wr (set_prev xp) xn;
  xp ← rd prev x;
  xn ← rd next x;
  wr (set_next xn) xp.

(** The macro of the builds with NGX_DEBUG. *)
Definition ngx_queue_remove_debug (x : loc) : lcmd unit :=
  _ ← ngx_queue_remove x;
  _ ← wr (set_prev NULL) x;
  wr (set_next NULL) x.

Definition ngx_queue_split (h q n : loc) : lcmd unit :=
  hp ← rd prev h;
  _ ← wr (set_prev hp) n;
  np ← rd prev n;
  _ ← wr (set_next n) np;
  _ ← wr (set_next q) n;
  qp ← rd prev q;
  _ ← wr (set_prev qp) h;
  hp ← rd prev h;
  _ ← wr (set_next h) hp;
  wr (set_prev n) q.

Definition ngx_queue_add (h n : loc) : lcmd unit :=
  nn ← rd next n;
  hp ← rd prev h;
  _ ← wr (set_next nn) hp;
  nn ← rd next n;
  hp ← rd prev h;
  _ ← wr (set_prev hp) nn;
  np ← rd prev n;
  _ ← wr (set_prev np) h;
  hp ← rd prev h;
  wr (set_next h) hp.

(** ngx_queue_middle: one pointer runs at twice the speed of the other. *)
Definition ngx_queue_middle (fuel : nat) (queue : loc) : lcmd loc :=
  middle ← ngx_queue_head queue;
  lst ← ngx_queue_last queue;
  if decide (middle = lst) then mret middle
  else
    next ← ngx_queue_head queue;
    loop fuel (fun '(middle, next) =>
      middle ← ngx_queue_next middle;
      next ← ngx_queue_next next;
      lst ← ngx_queue_last queue;
      if decide (next = lst) then mret (inr middle)
      else
        next ← ngx_queue_next next;
        lst ← ngx_queue_last queue;
        if decide (next = lst) then mret (inr middle)
        else mret (inl (middle, next))) (middle, next).

(** ngx_queue_sort, for a comparison [cmp] of members. *)
Definition sort_place (cmp : loc -> loc -> Z) (fuel : nat) (queue q prev : loc) : lcmd loc :=
  loop fuel (fun prev =>
    if cmp prev q <=? 0 then mret (inr prev)
    else
      prev ← ngx_queue_prev prev;
      if decide (prev = ngx_queue_sentinel queue) then mret (inr prev)
      else mret (inl prev)) prev.

Definition ngx_queue_sort (cmp : loc -> loc -> Z) (fuel : nat) (queue : loc) : lcmd unit :=
  q ← ngx_queue_head queue;
  lst ← ngx_queue_last queue;
  if decide (q = lst) then mret tt
  else
    q ← ngx_queue_next q;
    loop fuel (fun q =>
      if decide (q = ngx_queue_sentinel queue) then mret (inr tt)
      else
        prev ← ngx_queue_prev q;
        next ← ngx_queue_next q;
        _ ← ngx_queue_remove q;
        prev ← sort_place cmp fuel queue q prev;
        _ ← ngx_queue_insert_after prev q;
        mret (inl next)) q.

(** * The effect of the operations on a world *)

Section ops.
Context (O : gmap loc link).

Lemma wp_init m x F R (Q : unit -> gmap loc link -> Prop) :
  world O m (x :: F) R ->
  (forall m', world O m' F ((x, []) :: R) -> Q tt m') -> wp (ngx_queue_init x) Q m.
Proof.
  intros H HQ. unfold ngx_queue_init.
  destruct (world_loose_nx _ _ _ _ H x) as [v ?]; [set_solver|].
  link_run. apply HQ. ring_step O m (x :: F) F (@nil ring) [(x, @nil loc)]. edge_tac.
Qed.

Lemma wp_insert_head m x F h l R (Q : unit -> gmap loc link -> Prop) :
  world O m (x :: F) ((h, l) :: R) ->
  (forall m', world O m' F ((h, x :: l) :: R) -> Q tt m') -> wp (ngx_queue_insert_head h x) Q m.
Proof.
  intros H HQ. unfold ngx_queue_insert_head. start H.
  - link_run. apply HQ. ring_step O m (x :: F) F [(h, @nil loc)] [(h, [x])].
    split; edge_tac.
  - assert (x <> f) by congruence. link_run. apply HQ.
    ring_step O m (x :: F) F [(h, l)] [(h, x :: l)]. split; [edge_tac|seg_ends_tac].
Qed.

Lemma wp_insert_after m x F h l1 p l2 R (Q : unit -> gmap loc link -> Prop) :
  world O m (x :: F) ((h, l1 ++ p :: l2) :: R) ->
  (forall m', world O m' F ((h, l1 ++ p :: x :: l2) :: R) -> Q tt m') ->
  wp (ngx_queue_insert_after p x) Q m.
Proof.
  intros H HQ. apply world_rotate in H. eapply wp_insert_head; [exact H|].
  intros m' H'. apply HQ. by apply (world_rotate _ _ _ _ (x :: l2)) in H'.
Qed.

Lemma wp_insert_tail m x F h l R (Q : unit -> gmap loc link -> Prop) :
  world O m (x :: F) ((h, l) :: R) ->
  (forall m', world O m' F ((h, l ++ [x]) :: R) -> Q tt m') -> wp (ngx_queue_insert_tail h x) Q m.
Proof.
  intros H HQ. unfold ngx_queue_insert_tail. start H.
  - link_run. apply HQ. ring_step O m (x :: F) F [(h, @nil loc)] [(h, [x])].
    split; edge_tac.
  - assert (x <> e) by congruence. link_run. apply HQ.
    ring_step O m (x :: F) F [(h, l)] [(h, l ++ [x])]. apply seg_app.
    split; [seg_ends_tac|edge_tac].
Qed.

(** Unlinking the object at which a ring starts leaves the cycle of the
    others. *)
Lemma wp_remove_start m x F y k R (Q : unit -> gmap loc link -> Prop) :
  world O m F ((x, y :: k) :: R) ->
  (forall m', world O m' (x :: F) ((y, k) :: R) -> Q tt m') -> wp (ngx_queue_remove x) Q m.
Proof.
  intros H HQ. unfold ngx_queue_remove. start H.
  destruct He as [[k' Hk] He]. injection Hk as <- <-. link_run. apply HQ.
  ring_step O m F (x :: F) [(x, y :: k)] [(y, k)].
  eapply cycle_of_unlinked; [exact Hseg|exact He|done|edge_tac|..]; intros ? ? ?; link_solve.
Qed.

Lemma wp_remove m x F h l1 l2 R (Q : unit -> gmap loc link -> Prop) :
  world O m F ((h, l1 ++ x :: l2) :: R) ->
  (forall m', world O m' (x :: F) ((h, l1 ++ l2) :: R) -> Q tt m') -> wp (ngx_queue_remove x) Q m.
Proof.
  intros H HQ. apply world_rotate in H. destruct l2 as [|y l2]; simpl in H.
  - eapply wp_remove_start; [exact H|]. rewrite app_nil_r in HQ. exact HQ.
  - eapply wp_remove_start; [exact H|]. intros m' H'. by apply HQ, world_rotate.
Qed.

Lemma wp_split m n F h l1 q l2 R (Q : unit -> gmap loc link -> Prop) :
  world O m (n :: F) ((h, l1 ++ q :: l2) :: R) ->
  (forall m', world O m' F ((h, l1) :: (n, q :: l2) :: R) -> Q tt m') ->
  wp (ngx_queue_split h q n) Q m.
Proof.
  intros H HQ. unfold ngx_queue_split.
  pose proof (world_parts _ _ _ _ _ _ _ _ H) as (Hs1 & Hs2 & ? & ? & ? & ? & ? & ? & ? & ?).
  pose proof (world_loose _ _ _ _ _ _ _ H) as (? & Hn & v & ?).
  rewrite not_elem_of_app, not_elem_of_cons in Hn. destruct Hn as (? & ? & ?).
  part_ends l1 Hs1 f1 e1 He1; part_ends l2 Hs2 f2 e2 He2.
  - link_run. apply HQ. ring_step O m (n :: F) F [(h, [q])] [(h, @nil loc); (n, [q])].
    + edge_tac.
    + split; edge_tac.
  - link_run. apply HQ. ring_step O m (n :: F) F [(h, q :: l2)] [(h, @nil loc); (n, q :: l2)].
    + edge_tac.
    + split; [edge_tac|seg_ends_tac].
  - link_run. apply HQ. ring_step O m (n :: F) F [(h, l1 ++ [q])] [(h, l1); (n, [q])].
    + seg_ends_tac.
    + split; edge_tac.
  - assert (e1 ∉ l2) by auto. assert (f1 ∉ l2) by auto.
    link_run. apply HQ. ring_step O m (n :: F) F [(h, l1 ++ q :: l2)] [(h, l1); (n, q :: l2)].
    + seg_ends_tac.
    + split; [edge_tac|seg_ends_tac].
Qed.

Lemma wp_add m F h l n k R (Q : unit -> gmap loc link -> Prop) :
  world O m F ((h, l) :: (n, k) :: R) ->
  (forall m', world O m' (n :: F) ((h, l ++ k) :: R) -> Q tt m') -> wp (ngx_queue_add h n) Q m.
Proof.
  intros H HQ. unfold ngx_queue_add.
  pose proof (world_pair _ _ _ _ _ _ _ _ H) as (Hs1 & Hs2 & ? & ? & ? & ? & ? & ? & ? & ?).
  part_ends l Hs1 f1 e1 He1; part_ends k Hs2 f2 e2 He2.
  - link_run. apply HQ. ring_step O m F (n :: F) [(h, @nil loc); (n, @nil loc)] [(h, @nil loc)].
    edge_tac.
  - link_run. apply HQ. ring_step O m F (n :: F) [(h, @nil loc); (n, k)] [(h, k)].
    seg_ends_tac.
  - link_run. apply HQ. ring_step O m F (n :: F) [(h, l); (n, @nil loc)] [(h, l ++ [])].
    rewrite app_nil_r. seg_ends_tac.
  - assert (e1 ∉ k) by auto. assert (f1 ∉ k) by auto.
    link_run. apply HQ. ring_step O m F (n :: F) [(h, l); (n, k)] [(h, l ++ k)].
    pose proof He2 as [[k' Hk] _]. rewrite Hk. apply seg_app. split; [seg_ends_tac|].
    apply (proj2 (A := edge m3 e1 f2)). change (seg m3 e1 (f2 :: k') h). rewrite <- Hk.
    seg_ends_tac.
Qed.

(** * Walking a ring *)

Lemma seg_next m a l b i x y :
  seg m a l b -> l !! i = Some x -> (l ++ [b]) !! S i = Some y -> nx m x = Some y.
Proof.
  revert a i. induction l as [|z l IH]; intros a i; [done|]. intros [_ H] Hx Hy.
  destruct i as [|i]; simpl in *; [|by eapply IH].
  injection Hx as <-. destruct l as [|w l]; simpl in *; injection Hy as <-; apply H.
Qed.

Lemma wp_middle m F h l R fuel :
  world O m F ((h, l) :: R) -> (length l < fuel)%nat ->
  ngx_queue_middle fuel h m = Some (default h (l !! (length l / 2)%nat), m).
Proof.
  intros H Hfuel. pose proof (world_ring _ _ _ _ _ _ H) as (Hh & Hnd & Hl).
  enough (wp (ngx_queue_middle fuel h)
            (fun x m' => x = default h (l !! (length l / 2)%nat) /\ m' = m) m) as Hwp.
  { apply wp_run in Hwp as (? & ? & ? & -> & ->). done. }
  unfold ngx_queue_middle, ngx_queue_head, ngx_queue_last, ngx_queue_next.
  destruct Hl as [(-> & ? & ?)|(f & e & vf & ve & [[l1 Hl1] [l2 Hl2]] & Hs & ? & ? & ? & ? & ? & ? & ? & ? & ? & ?)].
  { link_run. by rewrite decide_True by done. }
  link_run. destruct (decide (f = e)) as [->|Hfe].
  { destruct l1 as [|y l1 _] using rev_ind; [subst; simpl; by apply wp_ret|].
    rewrite Hl2 in Hl1. rewrite app_comm_cons in Hl1. apply app_inj_tail in Hl1 as [-> ->].
    rewrite Hl2, <- app_comm_cons, NoDup_cons in Hnd. set_solver. }
  link_run.
  assert (l !! pred (length l) = Some e) as Hlast.
  { rewrite Hl2, length_app. simpl. replace (pred (length l2 + 1)) with (length l2) by lia.
    apply lookup_app_mid. }
  assert (1 < length l)%nat as Hlen.
  { rewrite Hl1 in *. destruct l1; [|simpl; lia]. simpl in Hlast. congruence. }
  assert (forall i, (S i < length l)%nat -> exists x y, l !! i = Some x /\ l !! S i = Some y /\
            nx m x = Some y /\ (y = e <-> S i = pred (length l))) as Hstep.
  { intros i Hi. destruct (lookup_lt_is_Some_2 l i) as [x Hx]; [lia|].
    destruct (lookup_lt_is_Some_2 l (S i)) as [y Hy]; [lia|]. exists x, y. split_and!; [done..| |].
    - eapply seg_next; [done..|]. by rewrite lookup_app_l.
    - split; [|intros Hi'; congruence]. intros ->. by eapply NoDup_lookup. }
  apply (wp_loop (fun k '(mid, nxt) m' => m' = m /\ exists i, (2 * i < pred (length l))%nat /\
           k = (length l - 2 * i)%nat /\ l !! i = Some mid /\ l !! (2 * i)%nat = Some nxt))
    with (n := length l); [|done|split; [done|]; exists 0%nat; rewrite Hl1; rewrite Hl1 in Hlen; simpl in *; split_and!; [lia|lia|done|done]].
  intros k [mid nxt] m' (-> & i & Hi & -> & Hmid & Hnxt).
  destruct (Hstep i) as (x & mid' & Hx & Hmid' & ? & _); [lia|].
  destruct (Hstep (2 * i)%nat) as (y & n1 & Hy & Hn1 & ? & He1); [lia|].
  assert (x = mid) as -> by congruence. assert (y = nxt) as -> by congruence.
  link_run. destruct (decide (n1 = e)) as [Hd|Hd].
  { apply wp_ret. split; [|done]. apply He1 in Hd.
    replace (length l / 2)%nat with (S i); [by rewrite Hmid'|].
    apply (Nat.div_unique _ 2 _ 0); lia. }
  destruct (Hstep (S (2 * i))) as (y & n2 & Hy' & Hn2 & ? & He2); [lia|].
  assert (y = n1) as -> by congruence.
  link_run. destruct (decide (n2 = e)) as [Hd'|Hd']; apply wp_ret.
  - split; [|done]. apply He2 in Hd'.
    replace (length l / 2)%nat with (S i); [by rewrite Hmid'|].
    apply (Nat.div_unique _ 2 _ 1); lia.
  - exists (length l - 2 * S i)%nat. split; [lia|]. split; [done|]. exists (S i).
    split_and!; [lia|done|done|]. by replace (2 * S i)%nat with (S (S (2 * i))) by lia.
Qed.
End ops.

(** * Sorting *)

(** The reference: insertion of [q] behind the last member that is not
    greater, in a list that is held in reverse. *)
Section sorting.
Context (cmp : loc -> loc -> Z).

Fixpoint rinsert (q : loc) (rl : list loc) : list loc :=
  match rl with
  | [] => [q]
  | p :: rl' => if cmp p q <=? 0 then q :: rl else p :: rinsert q rl'
  end.

Definition insert_sorted (q : loc) (l : list loc) : list loc := reverse (rinsert q (reverse l)).
Definition insertion_sort (l : list loc) : list loc :=
  foldl (fun acc q => insert_sorted q acc) [] l.

Lemma rinsert_all q rl : Forall (fun p => 0 < cmp p q) rl -> rinsert q rl = rl ++ [q].
Proof. induction 1 as [|p rl Hp _ IH]; simpl; [done|]. destruct (Z.leb_spec (cmp p q) 0); [lia|by rewrite IH]. Qed.

Lemma rinsert_at q rl p rl' :
  Forall (fun p => 0 < cmp p q) rl -> cmp p q <= 0 -> rinsert q (rl ++ p :: rl') = rl ++ q :: p :: rl'.
Proof.
  intros H Hp. induction H as [|a rl Ha _ IH]; simpl.
  - by destruct (Z.leb_spec (cmp p q) 0); [|lia].
  - destruct (Z.leb_spec (cmp a q) 0); [lia|by rewrite IH].
Qed.

(** The place of an insertion: the part in front of [q] is empty or ends with
    a member not greater than [q]; every member behind is greater. *)
Definition placed (q : loc) (d1 d2 : list loc) : Prop :=
  Forall (fun p => 0 < cmp p q) d2 /\ forall d p, d1 = d ++ [p] -> cmp p q <= 0.

Lemma insert_sorted_placed q d1 d2 : placed q d1 d2 -> insert_sorted q (d1 ++ d2) = d1 ++ q :: d2.
Proof.
  unfold insert_sorted. intros [H2 H1]. rewrite reverse_app.
  assert (Forall (fun p => 0 < cmp p q) (reverse d2)) as H2' by (by apply Forall_reverse).
  destruct d1 as [|p d1 _] using rev_ind.
  - rewrite app_nil_r, rinsert_all by done. by rewrite reverse_snoc, reverse_involutive.
  - rewrite reverse_snoc. rewrite rinsert_at; [|done|by eapply H1].
    rewrite reverse_app, !reverse_cons, !reverse_involutive. by rewrite <- !app_assoc.
Qed.

Lemma placed_exists q l : exists d1 d2, l = d1 ++ d2 /\ placed q d1 d2.
Proof.
  induction l as [|p l (d1 & d2 & -> & H2 & H1)] using rev_ind.
  - exists [], []. split; [done|]. split; [done|]. by intros [] ?.
  - destruct (decide (cmp p q <= 0)) as [Hp|Hp].
    + exists ((d1 ++ d2) ++ [p]), []. split; [by rewrite app_nil_r|]. split; [done|].
      intros d p' Heq. apply app_inj_tail in Heq as [_ <-]. done.
    + exists d1, (d2 ++ [p]). split; [by rewrite app_assoc|]. split; [|done].
      apply Forall_app. split; [done|]. constructor; [lia|done].
Qed.

Lemma insert_sorted_perm q l : insert_sorted q l ≡ₚ q :: l.
Proof.
  destruct (placed_exists q l) as (d1 & d2 & -> & H). rewrite insert_sorted_placed by done.
  solve_Permutation.
Qed.

Lemma insertion_sort_perm l : insertion_sort l ≡ₚ l.
Proof.
  unfold insertion_sort. induction l as [|q l IH] using rev_ind; [done|].
  rewrite foldl_app. simpl. rewrite insert_sorted_perm, IH. solve_Permutation.
Qed.

Lemma insertion_sort_snoc l q : insertion_sort (l ++ [q]) = insert_sorted q (insertion_sort l).
Proof. unfold insertion_sort. by rewrite foldl_app. Qed.

(** [before l a b]: an occurrence of [a] stands in front of one of [b]. *)
Definition before (l : list loc) (a b : loc) : Prop :=
  exists l1 l2, l = l1 ++ l2 /\ a ∈ l1 /\ b ∈ l2.

Lemma before_snoc l q a b : before (l ++ [q]) a b <-> before l a b \/ (a ∈ l /\ b = q).
Proof.
  split.
  - intros (l1 & l2 & Heq & Ha & Hb). destruct l2 as [|z l2 _] using rev_ind; [by apply not_elem_of_nil in Hb|].
    rewrite app_assoc in Heq. apply app_inj_tail in Heq as [-> <-].
    apply elem_of_app in Hb as [Hb| ->%list_elem_of_singleton]; [|right; set_solver].
    left. by exists l1, l2.
  - intros [(l1 & l2 & -> & Ha & Hb)|[Ha ->]].
    + exists l1, (l2 ++ [q]). split; [by rewrite app_assoc|set_solver].
    + exists l, [q]. set_solver.
Qed.

Lemma before_insert l1 q l2 a b : before (l1 ++ l2) a b -> before (l1 ++ q :: l2) a b.
Proof.
  intros (k1 & k2 & Heq & Ha & Hb). apply app_eq_app in Heq as (k & [[-> ->]|[-> ->]]).
  - exists k1, (k ++ q :: l2). rewrite app_assoc. set_solver.
  - exists (l1 ++ q :: k), k2. split; [by rewrite <- app_assoc|]. set_solver.
Qed.

Lemma insert_sorted_before q l a b : before l a b -> before (insert_sorted q l) a b.
Proof.
  destruct (placed_exists q l) as (d1 & d2 & -> & H). rewrite insert_sorted_placed by done.
  apply before_insert.
Qed.

Lemma insert_sorted_behind q l a : a ∈ l -> cmp a q <= 0 -> before (insert_sorted q l) a q.
Proof.
  destruct (placed_exists q l) as (d1 & d2 & -> & H). rewrite insert_sorted_placed by done.
  destruct H as [H2 _]. rewrite Forall_forall in H2. intros [Ha|Ha]%elem_of_app Hc.
  - exists d1, (q :: d2). set_solver.
  - specialize (H2 a Ha). lia.
Qed.

(** Stability. *)
Lemma insertion_sort_stable l a b : before l a b -> cmp a b <= 0 -> before (insertion_sort l) a b.
Proof.
  induction l as [|q l IH] using rev_ind.
  { intros (l1 & l2 & Hnil & Ha & _). symmetry in Hnil. apply app_eq_nil in Hnil as [-> _].
    by apply not_elem_of_nil in Ha. }
  rewrite before_snoc, insertion_sort_snoc. intros [Hb|[Ha ->]] Hc.
  - apply insert_sorted_before; auto.
  - apply insert_sorted_behind; [|done]. by rewrite insertion_sort_perm.
Qed.

Lemma insertion_sort_sorted l :
  (forall a b, cmp a b <= 0 \/ cmp b a <= 0) ->
  (forall a b c, cmp a b <= 0 -> cmp b c <= 0 -> cmp a c <= 0) ->
  StronglySorted (fun a b => cmp a b <= 0) (insertion_sort l).
Proof.
  intros Htot Htr. induction l as [|q l IH] using rev_ind; [constructor|].
  rewrite insertion_sort_snoc. destruct (placed_exists q (insertion_sort l)) as (d1 & d2 & Hd & H).
  rewrite Hd in *. rewrite insert_sorted_placed by done. destruct H as [H2 H1].
  rewrite StronglySorted_app in IH |- *. rewrite StronglySorted_cons. destruct IH as (Hx & Hs1 & Hs2).
  assert (Forall (fun y => cmp q y <= 0) d2) as Hq.
  { eapply Forall_impl; [exact H2|]. intros y Hy. simpl in *. destruct (Htot q y); [done|lia]. }
  assert (forall x, x ∈ d1 -> cmp x q <= 0) as Hd1.
  { destruct d1 as [|p d1 _] using rev_ind; [by intros ? ?%not_elem_of_nil|].
    specialize (H1 d1 p eq_refl). intros x [Hx1| ->%list_elem_of_singleton]%elem_of_app; [|done].
    apply (Htr _ p); [|done]. apply StronglySorted_app in Hs1 as (Hs1 & _ & _). apply Hs1; set_solver. }
  split_and!; [|done..]. intros x y Hx1 [->|Hy]%elem_of_cons; [by apply Hd1|by apply Hx].
Qed.
End sorting.

Section sort.
Context (O : gmap loc link) (cmp : loc -> loc -> Z).

(** The backward walk stops at the place of the insertion. *)
Lemma wp_sort_place m F h d p rest R q fuel (Q : loc -> gmap loc link -> Prop) :
  world O m F ((h, (d ++ [p]) ++ rest) :: R) -> (length d < fuel)%nat ->
  (forall e1 e2, placed cmp q e1 e2 -> d ++ [p] = e1 ++ e2 -> Q (List.last e1 h) m) ->
  wp (sort_place cmp fuel h q p) Q m.
Proof.
  intros H Hfuel HQ. unfold sort_place.
  apply (wp_loop (fun n p' m' => m' = m /\ exists d1 d2, n = length d1 /\
           d ++ [p] = d1 ++ p' :: d2 /\ Forall (fun x => 0 < cmp x q) d2))
    with (n := length d); [|done|by split; [|exists d, []]].
  intros n p' m' (-> & d1 & d2 & -> & Hd & H2).
  destruct (Z.leb_spec (cmp p' q) 0) as [Hp|Hp].
  - apply wp_ret. rewrite <- (last_last d1 p' h). apply (HQ _ d2); [|by rewrite <- app_assoc].
    split; [done|]. intros d' y Heq. by apply app_inj_tail in Heq as [_ <-].
  - rewrite Hd, <- app_assoc in H. simpl in H.
    pose proof (world_parts _ _ _ _ _ _ _ _ H) as (Hs1 & _ & _ & Hh & _).
    apply seg_prev in Hs1. unfold ngx_queue_prev, ngx_queue_sentinel. link_run.
    assert (Forall (fun x => 0 < cmp x q) (p' :: d2)) as H2' by (by constructor).
    destruct d1 as [|x d1 _] using rev_ind.
    + rewrite decide_True by done. apply wp_ret. apply (HQ [] (p' :: d2)); [|done].
      split; [done|]. by intros [] ?.
    + rewrite last_last, decide_False by set_solver. apply wp_ret. exists (length d1).
      rewrite length_app. split; [simpl; lia|]. split; [done|]. exists d1, (p' :: d2).
      by rewrite Hd, <- app_assoc.
Qed.

(** One round of the outer loop. *)
Lemma wp_sort_round {A} m F h l q rest R fuel (K : loc -> lcmd A) (Q : A -> gmap loc link -> Prop) :
  world O m F ((h, l ++ q :: rest) :: R) -> l <> [] -> (length l <= fuel)%nat ->
  (forall m', world O m' F ((h, insert_sorted cmp q l ++ rest) :: R) -> wp (K (hd h rest)) Q m') ->
  wp (prev ← ngx_queue_prev q;
      next ← ngx_queue_next q;
      _ ← ngx_queue_remove q;
      prev ← sort_place cmp fuel h q prev;
      _ ← ngx_queue_insert_after prev q;
      K next) Q m.
Proof.
  intros H Hl Hfuel HQ. destruct l as [|p d _] using rev_ind; [done|].
  pose proof (world_parts _ _ _ _ _ _ _ _ H) as (Hs1 & Hs2 & _).
  apply seg_prev in Hs1. rewrite last_last in Hs1.
  assert (nx m q = Some (hd h rest)) as Hnext by (destruct rest; apply Hs2).
  unfold ngx_queue_prev, ngx_queue_next. link_run.
  eapply wp_remove; [exact H|]. intros m1 H1. apply wp_bind.
  rewrite length_app in Hfuel. simpl in Hfuel.
  eapply wp_sort_place; [exact H1|lia|]. intros e1 e2 He Heq. rewrite Heq in *. apply wp_bind.
  assert (forall m', world O m' F ((h, e1 ++ q :: e2 ++ rest) :: R) ->
            wp (K (hd h rest)) Q m') as HQ'.
  { intros m' H'. apply HQ. rewrite insert_sorted_placed by done. by rewrite <- app_assoc. }
  destruct e1 as [|x e1 _] using rev_ind; simpl in H1.
  - eapply wp_insert_head; [exact H1|exact HQ'].
  - rewrite last_last. rewrite <- !app_assoc in H1. simpl in H1.
    eapply wp_insert_after; [exact H1|]. intros m' H'. apply HQ'. by rewrite <- app_assoc.
Qed.

Lemma wp_sort m F h l R fuel (Q : unit -> gmap loc link -> Prop) :
  world O m F ((h, l) :: R) -> (length l < fuel)%nat ->
  (forall m', world O m' F ((h, insertion_sort cmp l) :: R) -> Q tt m') ->
  wp (ngx_queue_sort cmp fuel h) Q m.
Proof.
  intros H Hfuel HQ. unfold ngx_queue_sort, ngx_queue_head, ngx_queue_last.
  assert (pv m h = Some (List.last l h)) as Hlast.
  { eapply seg_prev, (w_rings _ _ _ _ H). set_solver. }
  assert (nx m h = Some (hd h l)) as Hfirst.
  { assert (seg m h l h) as Hs by (apply (w_rings _ _ _ _ H); set_solver). destruct l; apply Hs. }
  pose proof (world_ring _ _ _ _ _ _ H) as (Hh & Hnd & _).
  link_run. destruct l as [|x [|y l]].
  { rewrite decide_True by done. by apply wp_ret, HQ. }
  { rewrite decide_True by done. by apply wp_ret, HQ. }
  change (List.last (x :: y :: l) h) with (List.last (y :: l) h).
  rewrite decide_False; cycle 1.
  { simpl hd. intros Hx. apply NoDup_cons in Hnd as [Hx' _]. apply Hx'. rewrite Hx.
    destruct (exists_last (l := y :: l)) as (k & z & ->); [done|]. rewrite last_last. set_solver. }
  assert (nx m x = Some y) as Hnx.
  { assert (seg m h (x :: y :: l) h) as (_ & Hs & _) by (apply (w_rings _ _ _ _ H); set_solver). apply Hs. }
  unfold ngx_queue_next, ngx_queue_sentinel. link_run.
  apply (wp_loop (fun n q m' => exists done todo, n = length todo /\ done ++ todo = x :: y :: l /\
           done <> [] /\ q = hd h todo /\
           world O m' F ((h, insertion_sort cmp done ++ todo) :: R)))
    with (n := length (y :: l)); [|simpl in *; lia|by exists [x], (y :: l)].
  intros n q m' (done & todo & -> & Hdt & Hne & -> & H').
  destruct todo as [|q todo]; simpl.
  { rewrite decide_True by done. rewrite app_nil_r in *. subst done. by apply wp_ret, HQ. }
  assert (h ∉ done ++ q :: todo) as Hh' by (by rewrite Hdt).
  rewrite decide_False by set_solver.
  assert (length (done ++ q :: todo) = S (S (length l))) as Hlen by (by rewrite Hdt).
  rewrite length_app in Hlen. simpl in Hlen.
  pose proof (Permutation_length (insertion_sort_perm cmp done)) as Hslen.
  simpl in Hfuel.   eapply (wp_sort_round _ _ _ _ _ _ _ _ (fun next => mret (inl next))); [exact H'| |lia|].
  { intros Hnil. rewrite Hnil in Hslen. by destruct done. }
  intros m2 H2. apply wp_ret. exists (length todo). split; [lia|].
  exists (done ++ [q]), todo. split_and!; [done|by rewrite <- app_assoc|by destruct done|done|].
  by rewrite insertion_sort_snoc.
Qed.
End sort.

(** * The interface *)

#[export] Instance queue_ops : RingOps := {
  rop_init := ngx_queue_init;
  rop_push_front := ngx_queue_insert_head;
  rop_push_back := ngx_queue_insert_tail;
  rop_insert_after := ngx_queue_insert_after;
  rop_remove := ngx_queue_remove;
  rop_join := ngx_queue_add;
}.

#[export] Instance queue_laws : RingLaws queue_ops.
Proof.
  split; intros; [eapply wp_init|eapply wp_insert_head|eapply wp_insert_tail|eapply wp_insert_after
    |eapply wp_remove|eapply wp_add]; eauto.
Qed.

(** * Properties *)

(** C6: the ngx_queue macros implement sequences: every script of
    initialisations, insertions, removals and concatenations that the abstract
    machine on sequences can run is run without a fault by the macros, with the
    same queues as the result; no object outside the world is touched. *)
Theorem queue_refines O m ops s s' :
  asteps ops s s' -> world O m s.1 s.2 ->
  exists m', run_script (Ops := queue_ops) ops m = Some (tt, m') /\ world O m' s'.1 s'.2.
Proof. apply run_script_refines. Qed.

(** A split and its inverse *)
Lemma split_add O m n F h l1 q l2 R :
  world O m (n :: F) ((h, l1 ++ q :: l2) :: R) ->
  exists m1, ngx_queue_split h q n m = Some (tt, m1) /\
    world O m1 F ((h, l1) :: (n, q :: l2) :: R) /\
    exists m2, ngx_queue_add h n m1 = Some (tt, m2) /\
      world O m2 (n :: F) ((h, l1 ++ q :: l2) :: R).
Proof.
  intros H. pose proof (wp_split O m n F h l1 q l2 R
    (fun _ m1 => world O m1 F ((h, l1) :: (n, q :: l2) :: R)) H (fun _ H => H)) as Hwp.
  apply wp_run in Hwp as ([] & m1 & Hr1 & H1). exists m1. split_and!; [done..|].
  pose proof (wp_add O m1 F h l1 n (q :: l2) R
    (fun _ m2 => world O m2 (n :: F) ((h, l1 ++ q :: l2) :: R)) H1 (fun _ H => H)) as Hwp.
  apply wp_run in Hwp as ([] & m2 & Hr2 & H2). eauto.
Qed.

(** ngx_queue_middle of a queue of 2n+1 members returns member n+1, of a
    queue of 2n members the first one of the second half (and the sentinel of
    an empty queue), within as many rounds as there are members; and
    ngx_queue_split cuts a queue at any member, that one for instance, into two
    queues, the second of which starts with it; ngx_queue_add undoes it. *)
Theorem middle_split_correct O m n F h l R fuel :
  world O m (n :: F) ((h, l) :: R) -> (length l < fuel)%nat ->
  ngx_queue_middle fuel h m = Some (default h (l !! (length l / 2)%nat), m) /\
  forall l1 q l2, l = l1 ++ q :: l2 ->
    exists m1, ngx_queue_split h q n m = Some (tt, m1) /\
      world O m1 F ((h, l1) :: (n, q :: l2) :: R) /\
      exists m2, ngx_queue_add h n m1 = Some (tt, m2) /\
        world O m2 (n :: F) ((h, l1 ++ q :: l2) :: R).
Proof.
  intros H Hfuel. split; [by eapply wp_middle|]. intros l1 q l2 ->. by apply split_add.
Qed.

(** C7: ngx_queue_sort with a comparison that is a total preorder ends, and
    sorts the queue stably: a permutation, in order, that keeps the order of
    members the comparison does not separate. *)
Theorem sort_correct O cmp m F h l R fuel :
  (forall a b, cmp a b <= 0 \/ cmp b a <= 0) ->
  (forall a b c, cmp a b <= 0 -> cmp b c <= 0 -> cmp a c <= 0) ->
  world O m F ((h, l) :: R) -> (length l < fuel)%nat ->
  exists m' l', ngx_queue_sort cmp fuel h m = Some (tt, m') /\ world O m' F ((h, l') :: R) /\
    l' ≡ₚ l /\ StronglySorted (fun a b => cmp a b <= 0) l' /\
    (forall a b, before l a b -> cmp a b <= 0 -> before l' a b).
Proof.
  intros Htot Htr H Hfuel.
  pose proof (wp_sort O cmp m F h l R fuel
    (fun _ m' => world O m' F ((h, insertion_sort cmp l) :: R)) H Hfuel (fun _ H => H)) as Hwp.
  apply wp_run in Hwp as ([] & m' & Hrun & H'). exists m', (insertion_sort cmp l).
  split_and!; [done|done|apply insertion_sort_perm|by apply insertion_sort_sorted|].
  intros a b. apply insertion_sort_stable.
Qed.

(** * A concrete queue: the sentinel 1 with the members 4, 2, 3, and the loose
    object 9. *)
Definition demo_links : gmap loc link :=
  <[1 := Link 3 4]> (<[4 := Link 1 2]> (<[2 := Link 4 3]> (<[3 := Link 2 1]> (<[9 := Link 0 0]> ∅)))).

Lemma demo_world : world ∅ demo_links [9] [(1, [4; 2; 3])].
Proof.
  split.
  - intros x ->%list_elem_of_singleton. by eexists.
  - intros h l [= -> ->]%list_elem_of_singleton. by vm_compute.
  - apply (bool_decide_unpack _). by vm_compute.
  - intros x Hx. simpl in Hx. rewrite !not_elem_of_cons in Hx. destruct Hx as (?&?&?&?&?&_).
    unfold demo_links. by rewrite !lookup_insert_ne by congruence.
Qed.

Lemma queue_refines_witness :
  exists m', run_script (Ops := queue_ops) [Remove 2; PushFront 1 2; PushBack 1 9] demo_links = Some (tt, m') /\
    world ∅ m' [] [(1, [2; 4; 3; 9])].
Proof.
  apply (queue_refines ∅ demo_links _ ([9], [(1, [4; 2; 3])]) ([], [(1, [2; 4; 3; 9])]));
    [|apply demo_world].
  eapply asteps_cons; [apply (astep_remove 2 1 [4] [3] [9] [])|].
  eapply asteps_cons; [apply (astep_push_front 1 2 [4; 3] [9] [])|].
  eapply asteps_cons; [apply (astep_push_back 1 9 [2; 4; 3] [] [])|].
  apply asteps_nil.
Defined.

Lemma middle_split_correct_witness :
  ngx_queue_middle 9 1 demo_links = Some (2, demo_links) /\
  exists m1, ngx_queue_split 1 2 9 demo_links = Some (tt, m1) /\
    world ∅ m1 [] [(1, [4]); (9, [2; 3])] /\
    exists m2, ngx_queue_add 1 9 m1 = Some (tt, m2) /\ world ∅ m2 [9] [(1, [4; 2; 3])].
Proof.
  destruct (middle_split_correct ∅ demo_links 9 [] 1 [4; 2; 3] [] 9) as [Hm Hs]; [apply demo_world|simpl; lia|].
  split; [exact Hm|exact (Hs [4] 2 [3] eq_refl)].
Defined.

Lemma sort_correct_witness :
  exists m' l', ngx_queue_sort Z.sub 9 1 demo_links = Some (tt, m') /\
    world ∅ m' [9] [(1, l')] /\ l' ≡ₚ [4; 2; 3] /\ StronglySorted (fun a b => a - b <= 0) l' /\
    (forall a b, before [4; 2; 3] a b -> a - b <= 0 -> before l' a b).
Proof.
  apply (sort_correct ∅ Z.sub demo_links [9] 1 [4; 2; 3] [] 9);
    [lia|lia|apply demo_world|simpl; lia].
Defined.
