(* ===== verification/SList.v ===== *)
(** The doubly linked list of src/SList/list.h (struct list_head): operations
    on single entries, on whole lists, and the traversals. *)
From S2P Require Import Prelude Store Ring.

(** * Operations on entries *)

Definition LIST_POISON1 : loc := 0x00100100.
Definition LIST_POISON2 : loc := 0x00200200.

Definition INIT_LIST_HEAD (list : loc) : lcmd unit :=
  _ ← wr (set_next list) list;
  wr (set_prev list) list.

Definition __list_add (new prev next : loc) : lcmd unit :=
  _ ← wr (set_prev new) next;
  _ ← wr (set_next next) new;
  _ ← wr (set_prev prev) new;
  wr (set_next new) prev.

Definition list_add (new head : loc) : lcmd unit :=
  n ← rd next head; __list_add new head n.

Definition list_add_tail (new head : loc) : lcmd unit :=
  p ← rd prev head; __list_add new p head.

Definition __list_del (prev next : loc) : lcmd unit :=
  _ ← wr (set_prev prev) next;
  wr (set_next next) prev.

(** The two arguments are read before the call. *)
Definition list_unlink (entry : loc) : lcmd unit :=
  p ← rd prev entry;
  n ← rd next entry;
  __list_del p n.

Definition list_del (entry : loc) : lcmd unit :=
  _ ← list_unlink entry;
  _ ← wr (set_next LIST_POISON1) entry;
  wr (set_prev LIST_POISON2) entry.

Definition list_replace (old new : loc) : lcmd unit :=
  on ← rd next old;
  _ ← wr (set_next on) new;
  nn ← rd next new;
  _ ← wr (set_prev new) nn;
  op ← rd prev old;
  _ ← wr (set_prev op) new;
  np ← rd prev new;
  wr (set_next new) np.

Definition list_replace_init (old new : loc) : lcmd unit :=
  _ ← list_replace old new;
  INIT_LIST_HEAD old.

Definition list_del_init (entry : loc) : lcmd unit :=
  _ ← list_unlink entry;
  INIT_LIST_HEAD entry.

Definition list_move (list head : loc) : lcmd unit :=
  _ ← list_unlink list;
  list_add list head.

Definition list_move_tail (list head : loc) : lcmd unit :=
  _ ← list_unlink list;
  list_add_tail list head.

(** * Tests *)

Definition list_is_last (list head : loc) : lcmd bool :=
  n ← rd next list; mret (bool_decide (n = head)).

Definition list_empty (head : loc) : lcmd bool :=
  n ← rd next head; mret (bool_decide (n = head)).

Definition list_empty_careful (head : loc) : lcmd bool :=
  next ← rd next head;
  if decide (next = head) then
    p ← rd prev head; mret (bool_decide (next = p))
  else mret false.

Definition list_is_singular (head : loc) : lcmd bool :=
  e ← list_empty head;
  if (e : bool) then mret false
  else
    n ← rd next head;
    p ← rd prev head;
    mret (bool_decide (n = p)).

(** * Operations on whole lists *)

Definition __list_cut_position (list head entry : loc) : lcmd unit :=
  new_first ← rd next entry;
  hn ← rd next head;
  _ ← wr (set_next hn) list;
  ln ← rd next list;
  _ ← wr (set_prev list) ln;
  _ ← wr (set_prev entry) list;
  _ ← wr (set_next list) entry;
  _ ← wr (set_next new_first) head;
  wr (set_prev head) new_first.

Definition list_cut_position (list head entry : loc) : lcmd unit :=
  e ← list_empty head;
  if (e : bool) then mret tt
  else
    s ← list_is_singular head;
    other ← (if (s : bool) then
               n ← rd next head;
               mret (bool_decide (n <> entry /\ head <> entry))
             else mret false);
    if (other : bool) then mret tt
    else if decide (entry = head) then INIT_LIST_HEAD list
    else __list_cut_position list head entry.

Definition __list_splice (list prev next : loc) : lcmd unit :=
  first ← rd Ring.next list;
  last ← rd Ring.prev list;
  _ ← wr (set_prev prev) first;
  _ ← wr (set_next first) prev;
  _ ← wr (set_next next) last;
  wr (set_prev last) next.

(** The splice of list_splice and list_splice_init, of list_splice_tail and
    list_splice_tail_init. *)
Definition list_splice (list head : loc) : lcmd unit :=
  e ← list_empty list;
  if (e : bool) then mret tt
  else n ← rd next head; __list_splice list head n.

Definition list_splice_tail (list head : loc) : lcmd unit :=
  e ← list_empty list;
  if (e : bool) then mret tt
  else p ← rd prev head; __list_splice list p head.

Definition list_splice_init (list head : loc) : lcmd unit :=
  e ← list_empty list;
  if (e : bool) then mret tt
  else
    n ← rd next head;
    _ ← __list_splice list head n;
    INIT_LIST_HEAD list.

Definition list_splice_tail_init (list head : loc) : lcmd unit :=
  e ← list_empty list;
  if (e : bool) then mret tt
  else
    p ← rd prev head;
    _ ← __list_splice list p head;
    INIT_LIST_HEAD list.

(** * Traversals *)

(** list_for_each: the body may not remove the entry under the cursor. *)
Definition list_for_each (fuel : nat) (head : loc) (body : loc -> lcmd unit) : lcmd unit :=
  pos ← rd next head;
  loop fuel (fun pos =>
    _ ← rd next pos;
    if decide (pos = head) then mret (inr tt)
    else
      _ ← body pos;
      n ← rd next pos;
      mret (inl n)) pos.

(** list_for_each_safe: the next entry is read before the body runs. *)
Definition list_for_each_safe (fuel : nat) (head : loc) (body : loc -> lcmd unit) : lcmd unit :=
  pos ← rd next head;
  n ← rd next pos;
  loop fuel (fun '(pos, n) =>
    if decide (pos = head) then mret (inr tt)
    else
      _ ← body pos;
      n' ← rd next n;
      mret (inl (n, n'))) (pos, n).

(** The loop of SList/demo.c that removes the entries [p] selects. *)
Definition delete_matching (p : loc -> bool) (fuel : nat) (head : loc) : lcmd unit :=
  list_for_each_safe fuel head (fun pos => if p pos then list_del pos else mret tt).

(** * The effect of the operations on a world *)

Section ops.
Context (O : gmap loc link).

Lemma wp_INIT_LIST_HEAD m x F R (Q : unit -> gmap loc link -> Prop) :
  world O m (x :: F) R ->
  (forall m', world O m' F ((x, []) :: R) -> Q tt m') -> wp (INIT_LIST_HEAD x) Q m.
Proof.
  intros H HQ. unfold INIT_LIST_HEAD.
  destruct (world_loose_nx _ _ _ _ H x) as [v ?]; [set_solver|].
  link_run. apply HQ. ring_step O m (x :: F) F (@nil ring) [(x, @nil loc)]. edge_tac.
Qed.

Lemma wp_list_add m x F h l R (Q : unit -> gmap loc link -> Prop) :
  world O m (x :: F) ((h, l) :: R) ->
  (forall m', world O m' F ((h, x :: l) :: R) -> Q tt m') -> wp (list_add x h) Q m.
Proof.
  intros H HQ. unfold list_add, __list_add. start H.
  - link_run. apply HQ. ring_step O m (x :: F) F [(h, @nil loc)] [(h, [x])].
    split; edge_tac.
  - assert (x <> f) by congruence. link_run. apply HQ.
    ring_step O m (x :: F) F [(h, l)] [(h, x :: l)]. split; [edge_tac|seg_ends_tac].
Qed.

Lemma wp_list_add_tail m x F h l R (Q : unit -> gmap loc link -> Prop) :
  world O m (x :: F) ((h, l) :: R) ->
  (forall m', world O m' F ((h, l ++ [x]) :: R) -> Q tt m') -> wp (list_add_tail x h) Q m.
Proof.
  intros H HQ. unfold list_add_tail, __list_add. start H.
  - link_run. apply HQ. ring_step O m (x :: F) F [(h, @nil loc)] [(h, [x])].
    split; edge_tac.
  - assert (x <> e) by congruence. link_run. apply HQ.
    ring_step O m (x :: F) F [(h, l)] [(h, l ++ [x])]. apply seg_app.
    split; [seg_ends_tac|edge_tac].
Qed.

Lemma wp_list_add_after m x F h l1 p l2 R (Q : unit -> gmap loc link -> Prop) :
  world O m (x :: F) ((h, l1 ++ p :: l2) :: R) ->
  (forall m', world O m' F ((h, l1 ++ p :: x :: l2) :: R) -> Q tt m') -> wp (list_add x p) Q m.
Proof.
  intros H HQ. apply world_rotate in H. eapply wp_list_add; [exact H|].
  intros m' H'. apply HQ. by apply (world_rotate _ _ _ _ (x :: l2)) in H'.
Qed.

Lemma wp_unlink_start m x F y k R (Q : unit -> gmap loc link -> Prop) :
  world O m F ((x, y :: k) :: R) ->
  (forall m', world O m' (x :: F) ((y, k) :: R) -> Q tt m') -> wp (list_unlink x) Q m.
Proof.
  intros H HQ. unfold list_unlink, __list_del. start H.
  destruct He as [[k' Hk] He]. injection Hk as <- <-. link_run. apply HQ.
  ring_step O m F (x :: F) [(x, y :: k)] [(y, k)].
  eapply cycle_of_unlinked; [exact Hseg|exact He|done|edge_tac|..]; intros ? ? ?; link_solve.
Qed.

Lemma wp_unlink m x F h l1 l2 R (Q : unit -> gmap loc link -> Prop) :
  world O m F ((h, l1 ++ x :: l2) :: R) ->
  (forall m', world O m' (x :: F) ((h, l1 ++ l2) :: R) -> Q tt m') -> wp (list_unlink x) Q m.
Proof.
  intros H HQ. apply world_rotate in H. destruct l2 as [|y l2]; simpl in H.
  - eapply wp_unlink_start; [exact H|]. rewrite app_nil_r in HQ. exact HQ.
  - eapply wp_unlink_start; [exact H|]. intros m' H'. by apply HQ, world_rotate.
Qed.

(** Writes to a loose object. *)
Lemma wp_scribble m x F R (f : link -> link) (Q : unit -> gmap loc link -> Prop) :
  world O m (x :: F) R -> (forall m', world O m' (x :: F) R -> Q tt m') -> wp (wr f x) Q m.
Proof.
  intros H HQ. destruct (w_loose _ _ _ _ H x) as [n Hn]; [set_solver|].
  eapply wp_wr; [exact Hn|]. apply HQ. simpl.
  eapply (world_step O m _ (x :: F) (x :: F) [] []); [exact H| | | |done].
  - intros y Hy. rewrite lookup_insert_ne by set_solver. done.
  - intros y. unfold nx. destruct (decide (y = x)) as [->|].
    + rewrite lookup_insert_eq. by eexists.
    + by rewrite lookup_insert_ne.
  - by intros h l ?%not_elem_of_nil.
Qed.

Lemma wp_list_del m x F h l1 l2 R (Q : unit -> gmap loc link -> Prop) :
  world O m F ((h, l1 ++ x :: l2) :: R) ->
  (forall m', world O m' (x :: F) ((h, l1 ++ l2) :: R) -> Q tt m') -> wp (list_del x) Q m.
Proof.
  intros H HQ. unfold list_del. apply wp_bind. eapply wp_unlink; [exact H|]. intros m1 H1.
  apply wp_bind. eapply wp_scribble; [exact H1|]. intros m2 H2.
  eapply wp_scribble; [exact H2|exact HQ].
Qed.

Lemma wp_list_del_init m x F h l1 l2 R (Q : unit -> gmap loc link -> Prop) :
  world O m F ((h, l1 ++ x :: l2) :: R) ->
  (forall m', world O m' F ((x, []) :: (h, l1 ++ l2) :: R) -> Q tt m') -> wp (list_del_init x) Q m.
Proof.
  intros H HQ. unfold list_del_init. apply wp_bind. eapply wp_unlink; [exact H|]. intros m1 H1.
  eapply wp_INIT_LIST_HEAD; [exact H1|exact HQ].
Qed.

(** The entry may come from the target ring itself or from another one. *)
Lemma wp_list_move m x F h l1 l2 R g k R' (Q : unit -> gmap loc link -> Prop) :
  world O m F ((h, l1 ++ x :: l2) :: R) -> (h, l1 ++ l2) :: R ≡ₚ (g, k) :: R' ->
  (forall m', world O m' F ((g, x :: k) :: R') -> Q tt m') -> wp (list_move x g) Q m.
Proof.
  intros H HR HQ. unfold list_move. apply wp_bind. eapply wp_unlink; [exact H|]. intros m1 H1.
  eapply wp_list_add; [|exact HQ]. by eapply world_perm.
Qed.

Lemma wp_list_move_tail m x F h l1 l2 R g k R' (Q : unit -> gmap loc link -> Prop) :
  world O m F ((h, l1 ++ x :: l2) :: R) -> (h, l1 ++ l2) :: R ≡ₚ (g, k) :: R' ->
  (forall m', world O m' F ((g, k ++ [x]) :: R') -> Q tt m') -> wp (list_move_tail x g) Q m.
Proof.
  intros H HR HQ. unfold list_move_tail. apply wp_bind. eapply wp_unlink; [exact H|]. intros m1 H1.
  eapply wp_list_add_tail; [|exact HQ]. by eapply world_perm.
Qed.

(** A new object takes the place of the sentinel of a ring. *)
Lemma wp_replace_head m new F old l R (Q : unit -> gmap loc link -> Prop) :
  world O m (new :: F) ((old, l) :: R) ->
  (forall m', world O m' (old :: F) ((new, l) :: R) -> Q tt m') -> wp (list_replace old new) Q m.
Proof.
  intros H HQ. unfold list_replace. start H.
  - link_run. apply HQ. ring_step O m (new :: F) (old :: F) [(old, @nil loc)] [(new, @nil loc)].
    edge_tac.
  - assert (new <> f) by congruence. assert (new <> e) by congruence. link_run. apply HQ.
    ring_step O m (new :: F) (old :: F) [(old, l)] [(new, l)]. seg_ends_tac.
Qed.

Lemma wp_list_replace m new F h l1 old l2 R (Q : unit -> gmap loc link -> Prop) :
  world O m (new :: F) ((h, l1 ++ old :: l2) :: R) ->
  (forall m', world O m' (old :: F) ((h, l1 ++ new :: l2) :: R) -> Q tt m') ->
  wp (list_replace old new) Q m.
Proof.
  intros H HQ. apply world_rotate in H. eapply wp_replace_head; [exact H|].
  intros m' H'. by apply HQ, world_rotate.
Qed.

(** * Whole lists *)

Lemma ring_hd m F h l R : world O m F ((h, l) :: R) -> nx m h = Some (hd h l) /\ pv m h = Some (List.last l h).
Proof.
  intros H. assert (seg m h l h) as Hs by (apply (w_rings _ _ _ _ H); set_solver).
  split; [destruct l; apply Hs|by eapply seg_prev].
Qed.

Lemma hd_eq_nil (h : loc) l : h ∉ l -> (hd h l = h <-> l = []).
Proof. destruct l; simpl; [done|]. rewrite not_elem_of_cons. split; [intuition congruence|done]. Qed.

Lemma last_eq_nil (h : loc) l : h ∉ l -> (List.last l h = h <-> l = []).
Proof.
  destruct l as [|x l _] using rev_ind; [done|]. rewrite last_last, not_elem_of_app.
  split; [set_solver|by destruct l].
Qed.

Lemma run_list_empty m F h l R :
  world O m F ((h, l) :: R) -> list_empty h m = Some (bool_decide (l = []), m).
Proof.
  intros H. destruct (ring_hd _ _ _ _ _ H) as [Hn _].
  destruct (world_ring _ _ _ _ _ _ H) as (Hh & _ & _).
  unfold nx in Hn. unfold list_empty, mbind, cmd_bind, mret, cmd_ret, rd. simpl.
  destruct (m !! h); [|done]. injection Hn as ->. do 2 f_equal.
  apply bool_decide_ext. by apply hd_eq_nil.
Qed.

Lemma wp_list_empty m F h l R (Q : bool -> gmap loc link -> Prop) :
  world O m F ((h, l) :: R) -> Q (bool_decide (l = [])) m -> wp (list_empty h) Q m.
Proof. intros H HQ. unfold wp. by rewrite (run_list_empty _ _ _ _ _ H). Qed.

Lemma wp_list_empty_careful m F h l R (Q : bool -> gmap loc link -> Prop) :
  world O m F ((h, l) :: R) -> Q (bool_decide (l = [])) m -> wp (list_empty_careful h) Q m.
Proof.
  intros H HQ. destruct (ring_hd _ _ _ _ _ H) as [Hn Hp].
  destruct (world_ring _ _ _ _ _ _ H) as (Hh & _ & _). unfold list_empty_careful. link_run.
  destruct (decide (hd h l = h)) as [Hd|Hd]; link_run; rewrite hd_eq_nil in Hd by done.
  - subst l. rewrite bool_decide_true in HQ by done. by rewrite bool_decide_true by done.
  - by rewrite bool_decide_false in HQ.
Qed.

Lemma wp_list_is_singular m F h l R (Q : bool -> gmap loc link -> Prop) :
  world O m F ((h, l) :: R) -> Q (bool_decide (length l = 1%nat)) m -> wp (list_is_singular h) Q m.
Proof.
  intros H HQ. destruct (ring_hd _ _ _ _ _ H) as [Hn Hp].
  destruct (world_ring _ _ _ _ _ _ H) as (Hh & Hnd & _). unfold list_is_singular.
  apply wp_bind. eapply wp_list_empty; [exact H|].
  destruct l as [|x l]; [by apply wp_ret|]. rewrite bool_decide_false by done. link_run.
  erewrite bool_decide_ext; [exact HQ|]. destruct l as [|y l _] using rev_ind; [done|].
  rewrite app_comm_cons, last_last, length_app. simpl. split; [|lia]. intros ->.
  apply NoDup_cons in Hnd as [Hy _]. set_solver.
Qed.

Lemma wp_cut_position m n F h l1 e l2 R (Q : unit -> gmap loc link -> Prop) :
  world O m (n :: F) ((h, l1 ++ e :: l2) :: R) ->
  (forall m', world O m' F ((h, l2) :: (n, l1 ++ [e]) :: R) -> Q tt m') ->
  wp (list_cut_position n h e) Q m.
Proof.
  intros H HQ. unfold list_cut_position.
  apply wp_bind. eapply wp_list_empty; [exact H|]. rewrite bool_decide_false by (by destruct l1).
  apply wp_bind. eapply wp_list_is_singular; [exact H|].
  pose proof (world_parts _ _ _ _ _ _ _ _ H) as (Hs1 & Hs2 & ? & ? & ? & ? & ? & ? & ? & ?).
  pose proof (world_loose _ _ _ _ _ _ _ H) as (? & Hn & v & ?).
  rewrite not_elem_of_app, not_elem_of_cons in Hn. destruct Hn as (? & ? & ?).
  apply wp_bind. apply (wp_mono _ (fun b m' => m' = m /\ b = false)).
  { case_bool_decide as Hlen; [|by apply wp_ret].
    destruct l1; [|by rewrite length_app in Hlen; simpl in *; lia]. destruct Hs1 as [? ?].
    link_run. split; [done|]. apply bool_decide_false. tauto. }
  intros b m' [-> ->]. rewrite decide_False by congruence. unfold __list_cut_position.
  part_ends l1 Hs1 f1 e1 He1; part_ends l2 Hs2 f2 e2 He2.
  - link_run. apply HQ. ring_step O m (n :: F) F [(h, [e])] [(h, @nil loc); (n, [e])].
    + edge_tac.
    + split; edge_tac.
  - link_run. apply HQ. ring_step O m (n :: F) F [(h, e :: l2)] [(h, l2); (n, [e])].
    + seg_ends_tac.
    + split; edge_tac.
  - link_run. apply HQ. ring_step O m (n :: F) F [(h, l1 ++ [e])] [(h, @nil loc); (n, l1 ++ [e])].
    + edge_tac.
    + apply seg_app. split; [seg_ends_tac|edge_tac].
  - assert (e1 ∉ l2) by auto. assert (f1 ∉ l2) by auto.
    link_run. apply HQ. ring_step O m (n :: F) F [(h, l1 ++ e :: l2)] [(h, l2); (n, l1 ++ [e])].
    + seg_ends_tac.
    + apply seg_app. split; [seg_ends_tac|edge_tac].
Qed.

(** The head itself as cut point: nothing is moved. *)
Lemma wp_cut_position_head m n F h x l R (Q : unit -> gmap loc link -> Prop) :
  world O m (n :: F) ((h, x :: l) :: R) ->
  (forall m', world O m' F ((n, []) :: (h, x :: l) :: R) -> Q tt m') ->
  wp (list_cut_position n h h) Q m.
Proof.
  intros H HQ. unfold list_cut_position.
  apply wp_bind. eapply wp_list_empty; [exact H|]. rewrite bool_decide_false by done.
  apply wp_bind. eapply wp_list_is_singular; [exact H|].
  destruct (ring_hd _ _ _ _ _ H) as [Hn _].
  apply wp_bind. apply (wp_mono _ (fun b m' => m' = m /\ b = false)).
  { case_bool_decide; link_run; (split; [done|]); try done. apply bool_decide_false. tauto. }
  intros b m' [-> ->]. rewrite decide_True by done. eapply wp_INIT_LIST_HEAD; [exact H|exact HQ].
Qed.

Lemma wp___list_splice m F h l n k R (Q : unit -> gmap loc link -> Prop) :
  world O m F ((h, l) :: (n, k) :: R) -> k <> [] ->
  (forall m', world O m' (n :: F) ((h, k ++ l) :: R) -> Q tt m') ->
  wp (x ← rd next h; __list_splice n h x) Q m.
Proof.
  intros H Hk HQ. unfold __list_splice.
  pose proof (world_pair _ _ _ _ _ _ _ _ H) as (Hs1 & Hs2 & ? & ? & ? & ? & ? & ? & ? & ?).
  part_ends l Hs1 f1 e1 He1; part_ends k Hs2 f2 e2 He2; try done.
  - link_run. apply HQ. ring_step O m F (n :: F) [(h, @nil loc); (n, k)] [(h, k ++ [])].
    rewrite app_nil_r. seg_ends_tac.
  - assert (e1 ∉ k) by auto. assert (f1 ∉ k) by auto.
    link_run. apply HQ. ring_step O m F (n :: F) [(h, l); (n, k)] [(h, k ++ l)].
    pose proof He1 as [[l' Hl] _]. rewrite Hl. apply seg_app. split; [seg_ends_tac|].
    apply (proj2 (A := edge m3 e2 f1)). change (seg m3 e2 (f1 :: l') h). rewrite <- Hl.
    seg_ends_tac.
Qed.

Lemma wp___list_splice_tail m F h l n k R (Q : unit -> gmap loc link -> Prop) :
  world O m F ((h, l) :: (n, k) :: R) -> k <> [] ->
  (forall m', world O m' (n :: F) ((h, l ++ k) :: R) -> Q tt m') ->
  wp (x ← rd prev h; __list_splice n x h) Q m.
Proof.
  intros H Hk HQ. unfold __list_splice.
  pose proof (world_pair _ _ _ _ _ _ _ _ H) as (Hs1 & Hs2 & ? & ? & ? & ? & ? & ? & ? & ?).
  part_ends l Hs1 f1 e1 He1; part_ends k Hs2 f2 e2 He2; try done.
  - link_run. apply HQ. ring_step O m F (n :: F) [(h, @nil loc); (n, k)] [(h, k)].
    seg_ends_tac.
  - assert (e1 ∉ k) by auto. assert (f1 ∉ k) by auto.
    link_run. apply HQ. ring_step O m F (n :: F) [(h, l); (n, k)] [(h, l ++ k)].
    pose proof He2 as [[k' Hk'] _]. rewrite Hk'. apply seg_app. split; [seg_ends_tac|].
    apply (proj2 (A := edge m3 e1 f2)). change (seg m3 e1 (f2 :: k') h). rewrite <- Hk'.
    seg_ends_tac.
Qed.

(** The four splices. *)
Lemma wp_list_splice m F h l n k R (Q : unit -> gmap loc link -> Prop) :
  world O m F ((h, l) :: (n, k) :: R) ->
  (forall m', world O m' (n :: F) ((h, k ++ l) :: R) -> Q tt m') -> wp (list_splice n h) Q m.
Proof.
  intros H HQ. unfold list_splice. apply wp_bind.
  assert (world O m F ((n, k) :: (h, l) :: R)) as H' by (eapply world_perm; [exact H|done|constructor]).
  eapply wp_list_empty; [exact H'|]. destruct k as [|y k].
  - apply wp_ret, HQ. eapply world_loose_perm; [|by apply world_loosen in H']. solve_Permutation.
  - rewrite bool_decide_false by done. by eapply wp___list_splice.
Qed.

Lemma wp_list_splice_tail m F h l n k R (Q : unit -> gmap loc link -> Prop) :
  world O m F ((h, l) :: (n, k) :: R) ->
  (forall m', world O m' (n :: F) ((h, l ++ k) :: R) -> Q tt m') -> wp (list_splice_tail n h) Q m.
Proof.
  intros H HQ. unfold list_splice_tail. apply wp_bind.
  assert (world O m F ((n, k) :: (h, l) :: R)) as H' by (eapply world_perm; [exact H|done|constructor]).
  eapply wp_list_empty; [exact H'|]. destruct k as [|y k].
  - apply wp_ret, HQ. rewrite app_nil_r.
    eapply world_loose_perm; [|by apply world_loosen in H']. solve_Permutation.
  - rewrite bool_decide_false by done. by eapply wp___list_splice_tail.
Qed.

Lemma wp_list_splice_init m F h l n k R (Q : unit -> gmap loc link -> Prop) :
  world O m F ((h, l) :: (n, k) :: R) ->
  (forall m', world O m' F ((n, []) :: (h, k ++ l) :: R) -> Q tt m') -> wp (list_splice_init n h) Q m.
Proof.
  intros H HQ. unfold list_splice_init. apply wp_bind.
  assert (world O m F ((n, k) :: (h, l) :: R)) as H' by (eapply world_perm; [exact H|done|constructor]).
  eapply wp_list_empty; [exact H'|]. destruct k as [|y k]; [by apply wp_ret, HQ|].
  rewrite bool_decide_false by done.
  apply (wp_assoc (rd next h) (fun x => __list_splice n h x) (fun _ => INIT_LIST_HEAD n)), wp_bind.
  eapply wp___list_splice; [exact H|done|]. intros m1 H1. by eapply wp_INIT_LIST_HEAD.
Qed.

Lemma wp_list_splice_tail_init m F h l n k R (Q : unit -> gmap loc link -> Prop) :
  world O m F ((h, l) :: (n, k) :: R) ->
  (forall m', world O m' F ((n, []) :: (h, l ++ k) :: R) -> Q tt m') ->
  wp (list_splice_tail_init n h) Q m.
Proof.
  intros H HQ. unfold list_splice_tail_init. apply wp_bind.
  assert (world O m F ((n, k) :: (h, l) :: R)) as H' by (eapply world_perm; [exact H|done|constructor]).
  eapply wp_list_empty; [exact H'|].
  destruct k as [|y k]; [rewrite app_nil_r in HQ; by apply wp_ret, HQ|].
  rewrite bool_decide_false by done.
  apply (wp_assoc (rd prev h) (fun x => __list_splice n x h) (fun _ => INIT_LIST_HEAD n)), wp_bind.
  eapply wp___list_splice_tail; [exact H|done|]. intros m1 H1. by eapply wp_INIT_LIST_HEAD.
Qed.

(** * Traversals *)

(** The entry behind the first [todo] entries of a ring. *)
Lemma ring_next m F h l1 x l2 R :
  world O m F ((h, l1 ++ x :: l2) :: R) -> nx m x = Some (hd h l2).
Proof.
  intros H. destruct (world_parts _ _ _ _ _ _ _ _ H) as (_ & Hs & _). destruct l2; apply Hs.
Qed.

(** list_for_each visits each entry once, in order, for any body that leaves
    the ring as it is. *)
Lemma wp_list_for_each m F h l R fuel body (I : list loc -> gmap loc link -> Prop)
    (Q : unit -> gmap loc link -> Prop) :
  world O m F ((h, l) :: R) -> (length l < fuel)%nat -> I [] m ->
  (forall l1 x l2 m, l = l1 ++ x :: l2 -> world O m F ((h, l) :: R) -> I l1 m ->
     wp (body x) (fun _ m' => world O m' F ((h, l) :: R) /\ I (l1 ++ [x]) m') m) ->
  (forall m', world O m' F ((h, l) :: R) -> I l m' -> Q tt m') ->
  wp (list_for_each fuel h body) Q m.
Proof.
  intros H Hfuel HI Hbody HQ. unfold list_for_each.
  destruct (ring_hd _ _ _ _ _ H) as [Hn _]. link_run.
  apply (wp_loop (fun n pos m => exists l1 l2, n = length l2 /\ l = l1 ++ l2 /\ pos = hd h l2 /\
            world O m F ((h, l) :: R) /\ I l1 m))
    with (n := length l); [|done|by exists [], l].
  clear m H Hn HI. intros n pos m (l1 & l2 & -> & Hl & -> & H & HI).
  destruct (ring_hd _ _ _ _ _ H) as [Hn _].
  destruct (world_ring _ _ _ _ _ _ H) as (Hh & _). destruct l2 as [|x l2]; simpl.
  - link_run. rewrite decide_True by done. apply wp_ret, HQ; [done|].
    rewrite app_nil_r in Hl. by rewrite Hl.
  - assert (nx m x = Some (hd h l2)) as Hx by (rewrite Hl in H; by eapply ring_next).
    link_run. rewrite decide_False by set_solver. apply wp_bind.
    eapply wp_mono; [by eapply Hbody|]. intros [] m' [H' HI'].
    assert (nx m' x = Some (hd h l2)) as Hx' by (rewrite Hl in H'; by eapply ring_next).
    link_run. exists (length l2). split; [simpl; lia|].
    exists (l1 ++ [x]), l2. split_and!; [done|by rewrite <- app_assoc|done|done|done].
Qed.

(** Removal of the selected entries during list_for_each_safe: what the loop
    keeps, for the part [l1] of the list that the cursor has passed. *)
Section delete_matching.
Context (p : loc -> bool) (F : list loc) (h : loc) (l : list loc) (R : list ring).

Definition kept (l : list loc) : list loc := List.filter (fun x => negb (p x)) l.

Definition del_inv (k : nat) (s : loc * loc) (m : gmap loc link) : Prop :=
  exists l1 l2 F', k = length l2 /\ l = l1 ++ l2 /\ s.1 = hd h l2 /\
    s.2 = match l2 with [] => hd h (kept l1) | _ :: t => hd h t end /\
    F' ≡ₚ List.filter p l1 ++ F /\ world O m F' ((h, kept l1 ++ l2) :: R).

(** The step of the cursor behind an entry that has been dealt with. *)
Lemma del_inv_next m F' l1 x l2 :
  l = l1 ++ x :: l2 -> F' ≡ₚ List.filter p (l1 ++ [x]) ++ F ->
  world O m F' ((h, kept (l1 ++ [x]) ++ l2) :: R) ->
  wp (n ← rd next (hd h l2); mret (inl (hd h l2, n) : (loc * loc) + unit))
     (fun r m2 => match r with
                  | inl s' => exists k, (k < length (x :: l2))%nat /\ del_inv k s' m2
                  | inr _ => False
                  end) m.
Proof.
  intros Hl HF H. apply wp_bind.
  apply (wp_rd_next _ _ (match l2 with [] => hd h (kept (l1 ++ [x])) | _ :: t => hd h t end)).
  - destruct l2 as [|y l2]; simpl; [|by eapply ring_next].
    rewrite app_nil_r in H. by apply ring_hd in H as [H _].
  - apply wp_ret. exists (length l2). split; [simpl; lia|]. exists (l1 ++ [x]), l2, F'.
    split_and!; [done|by rewrite <- app_assoc|done..].
Qed.

Lemma wp_delete_matching m fuel (Q : unit -> gmap loc link -> Prop) :
  world O m F ((h, l) :: R) -> (length l < fuel)%nat ->
  (forall m' F', F' ≡ₚ List.filter p l ++ F -> world O m' F' ((h, kept l) :: R) -> Q tt m') ->
  wp (delete_matching p fuel h) Q m.
Proof.
  intros H Hfuel HQ. unfold delete_matching, list_for_each_safe.
  destruct (ring_hd _ _ _ _ _ H) as [Hn _]. link_run.
  apply (wp_rd_next _ _ (match l with [] => hd h [] | _ :: t => hd h t end)).
  { destruct l as [|x l']; [done|]. by apply (ring_next _ _ _ []) in H. }
  apply (wp_loop del_inv) with (n := length l); [|done|exists [], l, F; by split_and!].
  clear m H Hn. intros k [pos n] m (l1 & l2 & F' & -> & Hl & Hpos & Hn & HF & H). simpl in Hpos, Hn.
  destruct (world_ring _ _ _ _ _ _ H) as (Hh & _). destruct l2 as [|x l2]; simpl in Hpos; subst pos n.
  { rewrite decide_True by done. rewrite app_nil_r in Hl, H. apply wp_ret. subst l1. by eapply HQ. }
  rewrite decide_False by set_solver. apply wp_bind.
  pose proof (List.filter_app p l1 [x]) as Hf. simpl in Hf.
  pose proof (List.filter_app (fun x => negb (p x)) l1 [x] : kept (l1 ++ [x]) = _) as Hk. simpl in Hk.
  destruct (p x); simpl in Hk.
  - eapply wp_list_del; [exact H|]. intros m' H'.
    eapply wp_mono; [eapply (del_inv_next _ (x :: F') l1); [exact Hl| |]|by intros []].
    + rewrite Hf, HF. solve_Permutation.
    + rewrite Hk, app_nil_r. exact H'.
  - apply wp_ret. eapply wp_mono; [eapply (del_inv_next _ F' l1); [exact Hl| |]|by intros []].
    + by rewrite Hf, HF, app_nil_r.
    + rewrite Hk, <- app_assoc. exact H.
Qed.
End delete_matching.
End ops.

(** * The interface *)

#[export] Instance list_ops : RingOps := {
  rop_init := INIT_LIST_HEAD;
  rop_push_front h x := list_add x h;
  rop_push_back h x := list_add_tail x h;
  rop_insert_after p x := list_add x p;
  rop_remove := list_del;
  rop_join h n := list_splice_tail n h;
}.

#[export] Instance list_laws : RingLaws list_ops.
Proof.
  split; intros; [eapply wp_INIT_LIST_HEAD|eapply wp_list_add|eapply wp_list_add_tail
    |eapply wp_list_add_after|eapply wp_list_del|eapply wp_list_splice_tail]; eauto.
Qed.

(** * Properties *)

(** C8: the list.h operations implement sequences, as the ngx_queue macros do:
    they run every script the abstract machine can run, without a fault and
    with the same lists as the result. *)
Theorem slist_refines O m ops s s' :
  asteps ops s s' -> world O m s.1 s.2 ->
  exists m', run_script (Ops := list_ops) ops m = Some (tt, m') /\ world O m' s'.1 s'.2.
Proof. apply run_script_refines. Qed.

(** list_cut_position moves the initial part of a list, up to and including
    the given entry, to a new list; splicing it back (list_splice_init) restores
    the list and leaves the new head initialised. *)
Theorem cut_splice_correct O m n F h l1 e l2 R :
  world O m (n :: F) ((h, l1 ++ e :: l2) :: R) ->
  exists m1, list_cut_position n h e m = Some (tt, m1) /\
    world O m1 F ((h, l2) :: (n, l1 ++ [e]) :: R) /\
    exists m2, list_splice_init n h m1 = Some (tt, m2) /\
      world O m2 F ((n, []) :: (h, l1 ++ e :: l2) :: R).
Proof.
  intros H. pose proof (wp_cut_position O m n F h l1 e l2 R
    (fun _ m1 => world O m1 F ((h, l2) :: (n, l1 ++ [e]) :: R)) H (fun _ H => H)) as Hwp.
  apply wp_run in Hwp as ([] & m1 & Hr1 & H1). exists m1. split_and!; [done..|].
  pose proof (wp_list_splice_init O m1 F h l2 n (l1 ++ [e]) R
    (fun _ m2 => world O m2 F ((n, []) :: (h, (l1 ++ [e]) ++ l2) :: R)) H1 (fun _ H => H)) as Hwp.
  apply wp_run in Hwp as ([] & m2 & Hr2 & H2). exists m2. rewrite <- app_assoc in H2. done.
Qed.

(** list_move and list_move_tail take an entry out of its list and put it at
    the front or the back of a list, the same one or another. *)
Theorem move_correct O m x F h l1 l2 R g k R' :
  world O m F ((h, l1 ++ x :: l2) :: R) -> (h, l1 ++ l2) :: R ≡ₚ (g, k) :: R' ->
  (exists m', list_move x g m = Some (tt, m') /\ world O m' F ((g, x :: k) :: R')) /\
  (exists m', list_move_tail x g m = Some (tt, m') /\ world O m' F ((g, k ++ [x]) :: R')).
Proof.
  intros H HR. split.
  - pose proof (wp_list_move O m x F h l1 l2 R g k R'
      (fun _ m' => world O m' F ((g, x :: k) :: R')) H HR (fun _ H => H)) as Hwp.
    apply wp_run in Hwp as ([] & m' & ? & ?). eauto.
  - pose proof (wp_list_move_tail O m x F h l1 l2 R g k R'
      (fun _ m' => world O m' F ((g, k ++ [x]) :: R')) H HR (fun _ H => H)) as Hwp.
    apply wp_run in Hwp as ([] & m' & ? & ?). eauto.
Qed.

(** Removing the entries that a predicate selects while traversing the list
    with list_for_each_safe neither follows a poisoned link nor loops: it ends
    with exactly the other entries in the list, in their order. *)
Theorem delete_matching_correct O m F h l R fuel p :
  world O m F ((h, l) :: R) -> (length l < fuel)%nat ->
  exists m' F', delete_matching p fuel h m = Some (tt, m') /\
    F' ≡ₚ List.filter p l ++ F /\ world O m' F' ((h, kept p l) :: R).
Proof.
  intros H Hfuel. pose proof (wp_delete_matching O p F h l R m fuel
    (fun _ m' => exists F', F' ≡ₚ List.filter p l ++ F /\ world O m' F' ((h, kept p l) :: R))
    H Hfuel (fun m' F' HF H' => ex_intro _ F' (conj HF H'))) as Hwp.
  apply wp_run in Hwp as ([] & m' & ? & F' & ? & ?). eauto 6.
Qed.

(** * A concrete list: the head 1 with the entries 4, 2, 3, and the loose
    object 9. *)
Definition demo_list : gmap loc link :=
  <[1 := Link 3 4]> (<[4 := Link 1 2]> (<[2 := Link 4 3]> (<[3 := Link 2 1]> (<[9 := Link 0 0]> ∅)))).

Lemma demo_list_world : world ∅ demo_list [9] [(1, [4; 2; 3])].
Proof.
  split.
  - intros x ->%list_elem_of_singleton. by eexists.
  - intros h l [= -> ->]%list_elem_of_singleton. by vm_compute.
  - apply (bool_decide_unpack _). by vm_compute.
  - intros x Hx. simpl in Hx. rewrite !not_elem_of_cons in Hx. destruct Hx as (?&?&?&?&?&_).
    unfold demo_list. by rewrite !lookup_insert_ne by congruence.
Qed.

Lemma slist_refines_witness :
  exists m', run_script (Ops := list_ops) [Init 9; Remove 2; PushBack 9 2; Join 1 9] demo_list = Some (tt, m') /\
    world ∅ m' [9] [(1, [4; 3; 2])].
Proof.
  apply (slist_refines ∅ demo_list _ ([9], [(1, [4; 2; 3])]) ([9], [(1, [4; 3; 2])]));
    [|apply demo_list_world].
  eapply asteps_cons; [apply (astep_init 9 [] [(1, [4; 2; 3])])|].
  eapply asteps_cons; [eapply astep_perm;
    [done|apply perm_swap|apply (astep_remove 2 1 [4] [3] [] [(9, [])])]|].
  eapply asteps_cons; [eapply astep_perm;
    [done|apply perm_swap|apply (astep_push_back 9 2 [] [] [(1, [4; 3])])]|].
  eapply asteps_cons; [eapply astep_perm;
    [done|apply perm_swap|apply (astep_join 1 [4; 3] 9 [2] [] [])]|].
  apply asteps_nil.
Defined.

Lemma cut_splice_correct_witness :
  exists m1, list_cut_position 9 1 2 demo_list = Some (tt, m1) /\
    world ∅ m1 [] [(1, [3]); (9, [4; 2])] /\
    exists m2, list_splice_init 9 1 m1 = Some (tt, m2) /\
      world ∅ m2 [] [(9, []); (1, [4; 2; 3])].
Proof. apply (cut_splice_correct ∅ demo_list 9 [] 1 [4] 2 [3] []). apply demo_list_world. Defined.

Lemma move_correct_witness :
  (exists m', list_move 2 1 demo_list = Some (tt, m') /\ world ∅ m' [9] [(1, [2; 4; 3])]) /\
  (exists m', list_move_tail 2 1 demo_list = Some (tt, m') /\ world ∅ m' [9] [(1, [4; 3; 2])]).
Proof.
  apply (move_correct ∅ demo_list 2 [9] 1 [4] [3] [] 1 [4; 3] []); [apply demo_list_world|done].
Defined.

Lemma delete_matching_correct_witness :
  exists m' F', delete_matching (fun x => x =? 2) 9 1 demo_list = Some (tt, m') /\
    F' ≡ₚ [2; 9] /\ world ∅ m' F' [(1, [4; 3])].
Proof.
  apply (delete_matching_correct ∅ demo_list [9] 1 [4; 2; 3] [] 9 (fun x => x =? 2));
    [apply demo_list_world|simpl; lia].
Defined.
