(* ===== verification/HList.v ===== *)
(** The hash-chain lists of src/SList/list.h (struct hlist_head and struct
    hlist_node): doubly linked lists whose back pointers lead to the pointer
    before, and whose heads have one pointer.

    A store holds heads and nodes; a back pointer is the name of a cell, a
    [first] or a [next]. The theorem refines scripts of calls to lists. *)
From S2P Require Import Prelude Store.

Open Scope c_scope.

(** * Data *)

(** &h->first and &n->next *)
Inductive hcell := FirstOf (h : loc) | NextOf (n : loc).

#[export] Instance hcell_eq_dec : EqDecision hcell.
Proof. solve_decision. Defined.

(** struct hlist_node **, with the poison of list.h *)
Inductive pointer := Nowhere | Cell (c : hcell) | Poison2.

Record hlist_head := Head { first : loc }.
Record hlist_node := Node { next : loc; pprev : pointer }.

Record hstore := HStore { heads : gmap loc hlist_head; hnodes : gmap loc hlist_node }.

#[export] Instance heads_mem : HasMem hstore hlist_head := {|
  mem_of := heads; set_mem m w := HStore m (hnodes w); mem_of_set_mem m w := eq_refl;
|}.
#[export] Instance hnodes_mem : HasMem hstore hlist_node := {|
  mem_of := hnodes; set_mem m w := HStore (heads w) m; mem_of_set_mem m w := eq_refl;
|}.

Definition set_first (v : loc) (h : hlist_head) : hlist_head := Head v.
Definition set_next (v : loc) (n : hlist_node) : hlist_node := Node v (pprev n).
Definition set_pprev (p : pointer) (n : hlist_node) : hlist_node := Node (next n) p.

Definition POISON1 : loc := 0x00100100.

(** *p = v *)
Definition assign (p : pointer) (v : loc) : cmd hstore unit :=
  match p with
  | Cell (FirstOf h) => wr (set_first v) h
  | Cell (NextOf n) => wr (set_next v) n
  | Nowhere | Poison2 => fault
  end.

Definition is_null (p : pointer) : bool := match p with Nowhere => true | _ => false end.

(** * Operations *)

Definition INIT_HLIST_HEAD (h : loc) : cmd hstore unit := wr (set_first NULL) h.

Definition INIT_HLIST_NODE (h : loc) : cmd hstore unit :=
  _ ← wr (set_next NULL) h;
  wr (set_pprev Nowhere) h.

Definition hlist_unhashed (h : loc) : cmd hstore bool := p ← rd pprev h; mret (is_null p).

Definition hlist_empty (h : loc) : cmd hstore bool := f ← rd first h; mret (bool_decide (f = NULL)).

Definition __hlist_del (n : loc) : cmd hstore unit :=
  nx ← rd next n;
  pp ← rd pprev n;
  _ ← assign pp nx;
  if decide (nx = NULL) then mret tt else wr (set_pprev pp) nx.

Definition hlist_del (n : loc) : cmd hstore unit :=
  _ ← __hlist_del n;
  _ ← wr (set_next POISON1) n;
  wr (set_pprev Poison2) n.

Definition hlist_del_init (n : loc) : cmd hstore unit :=
  u ← hlist_unhashed n;
  if u : bool then mret tt
  else
    _ ← __hlist_del n;
    INIT_HLIST_NODE n.

Definition hlist_add_head (n h : loc) : cmd hstore unit :=
  f ← rd first h;
  _ ← wr (set_next f) n;
  _ ← (if decide (f = NULL) then mret tt else wr (set_pprev (Cell (NextOf n))) f);
  _ ← wr (set_first n) h;
  wr (set_pprev (Cell (FirstOf h))) n.

Definition hlist_add_before (n nx : loc) : cmd hstore unit :=
  pp ← rd pprev nx;
  _ ← wr (set_pprev pp) n;
  _ ← wr (set_next nx) n;
  _ ← wr (set_pprev (Cell (NextOf n))) nx;
  pp ← rd pprev n;
  assign pp n.

(** [nx] comes behind [n]. *)
Definition hlist_add_after (n nx : loc) : cmd hstore unit :=
  v ← rd next n;
  _ ← wr (set_next v) nx;
  _ ← wr (set_next nx) n;
  _ ← wr (set_pprev (Cell (NextOf n))) nx;
  v ← rd next nx;
  if decide (v = NULL) then mret tt else wr (set_pprev (Cell (NextOf nx))) v.

Definition hlist_move_list (old new : loc) : cmd hstore unit :=
  f ← rd first old;
  _ ← wr (set_first f) new;
  f ← rd first new;
  _ ← (if decide (f = NULL) then mret tt else wr (set_pprev (Cell (FirstOf new))) f);
  wr (set_first NULL) old.

(** ** Traversals, with a value that the body updates; prefetch reads a link. *)
Definition hbudget : cmd hstore nat := fun w => Some (S (size (hnodes w)), w).

Section traversals.
Context {A : Type} (body : loc -> A -> cmd hstore A).

Definition walk_from (pos : loc) (a : A) : cmd hstore A :=
  n ← hbudget;
  loop n (fun '(pos, a) =>
    if decide (pos = NULL) then mret (inr a)
    else
      _ ← rd next pos;
      a ← body pos a;
      pos ← rd next pos;
      mret (inl (pos, a))) (pos, a).

Definition hlist_for_each (head : loc) (a : A) : cmd hstore A := pos ← rd first head; walk_from pos a.

(** The entries are at the addresses of their nodes. *)
Definition hlist_for_each_entry (head : loc) (a : A) : cmd hstore A := pos ← rd first head; walk_from pos a.
Definition hlist_for_each_entry_continue (pos : loc) (a : A) : cmd hstore A := pos ← rd next pos; walk_from pos a.
Definition hlist_for_each_entry_from (pos : loc) (a : A) : cmd hstore A := walk_from pos a.

(** The next node is read before the body runs. *)
Definition hlist_for_each_safe (head : loc) (a : A) : cmd hstore A :=
  pos ← rd first head;
  n ← hbudget;
  loop n (fun '(pos, a) =>
    if decide (pos = NULL) then mret (inr a)
    else
      nx ← rd next pos;
      a ← body pos a;
      mret (inl (nx, a))) (pos, a).
Definition hlist_for_each_entry_safe : loc -> A -> cmd hstore A := hlist_for_each_safe.
End traversals.

(** * The machine *)

(** What is known of a node that is in no list: it has been initialised, taken
    out by hlist_del, or neither. *)
Inductive status := Clean | Poisoned | Raw.

#[export] Instance status_eq_dec : EqDecision status.
Proof. solve_decision. Defined.

(** Heads with their lists, heads without contents, nodes in no list *)
Record hstate := HState { chains : list (loc * list loc); raw_heads : list loc; loose : gmap loc status }.

Definition members (R : list (loc * list loc)) : list loc := R ≫= snd.

Inductive hop :=
| InitHead (h : loc)
| InitNode (x : loc)
| Unhashed (x : loc)
| Empty (h : loc)
| Del (x : loc)
| DelInit (x : loc)
| AddHead (x h : loc)
| AddBefore (x n : loc)
| AddAfter (n x : loc)
| MoveList (old new : loc)
| Walk (h : loc)
| WalkAfter (x : loc)
| WalkFrom (x : loc)
| Sweep (p : loc -> bool) (h : loc).

Inductive hanswer := HDone | HFlag (b : bool) | HNodes (l : list loc).

Definition collect (x : loc) (l : list loc) : cmd hstore (list loc) := mret (l ++ [x]).
Definition sweep (p : loc -> bool) (x : loc) (_ : unit) : cmd hstore unit := if p x then hlist_del x else mret tt.

Definition hexec (o : hop) : cmd hstore hanswer :=
  match o with
  | InitHead h => _ ← INIT_HLIST_HEAD h; mret HDone
  | InitNode x => _ ← INIT_HLIST_NODE x; mret HDone
  | Unhashed x => b ← hlist_unhashed x; mret (HFlag b)
  | Empty h => b ← hlist_empty h; mret (HFlag b)
  | Del x => _ ← hlist_del x; mret HDone
  | DelInit x => _ ← hlist_del_init x; mret HDone
  | AddHead x h => _ ← hlist_add_head x h; mret HDone
  | AddBefore x n => _ ← hlist_add_before x n; mret HDone
  | AddAfter n x => _ ← hlist_add_after n x; mret HDone
  | MoveList old new => _ ← hlist_move_list old new; mret HDone
  | Walk h => l ← hlist_for_each collect h []; mret (HNodes l)
  | WalkAfter x => l ← hlist_for_each_entry_continue collect x []; mret (HNodes l)
  | WalkFrom x => l ← hlist_for_each_entry_from collect x []; mret (HNodes l)
  | Sweep p h => _ ← hlist_for_each_entry_safe (sweep p) h tt; mret HDone
  end.

Fixpoint hexec_all (ops : list hop) : cmd hstore (list hanswer) :=
  match ops with
  | [] => mret []
  | o :: ops => a ← hexec o; l ← hexec_all ops; mret (a :: l)
  end.

(** Functions on lists: a node before, or behind, another one; those behind *)
Definition put_before (x n : loc) (l : list loc) : list loc := l ≫= fun y => if decide (y = n) then [x; y] else [y].
Definition put_after (n x : loc) (l : list loc) : list loc := l ≫= fun y => if decide (y = n) then [y; x] else [y].
Definition drop_node (x : loc) (l : list loc) : list loc := filter (fun y => y <> x) l.
Fixpoint behind (x : loc) (l : list loc) : list loc :=
  match l with [] => [] | y :: l => if decide (y = x) then l else behind x l end.

Definition chain_of (h : loc) (R : list (loc * list loc)) : option (list loc) :=
  snd <$> (list_find (fun e => e.1 = h) R ≫= fun p => Some p.2).
Definition on_chain (h : loc) (f : list loc -> list loc) (R : list (loc * list loc)) : list (loc * list loc) :=
  (fun e => if decide (e.1 = h) then (e.1, f e.2) else e) <$> R.
Definition on_chains (f : list loc -> list loc) (R : list (loc * list loc)) : list (loc * list loc) :=
  (fun e => (e.1, f e.2)) <$> R.

(** [None] where the caller breaks a rule: a node that is to be added has to be
    in no list, the target of hlist_move_list empty. *)
Definition hstep (o : hop) (S : hstate) : option (hanswer * hstate) :=
  let '(HState R raw F) := S in
  match o with
  | InitHead h =>
      if decide (h ∈ raw) then Some (HDone, HState ((h, []) :: R) (filter (fun y => y <> h) raw) F)
      else if decide (chain_of h R = Some []) then Some (HDone, S) else None
  | InitNode x => if F !! x then Some (HDone, HState R raw (<[x := Clean]> F)) else None
  | Unhashed x =>
      if decide (x ∈ members R) then Some (HFlag false, S)
      else match F !! x with
           | Some Clean => Some (HFlag true, S)
           | Some Poisoned => Some (HFlag false, S)
           | _ => None
           end
  | Empty h => match chain_of h R with Some l => Some (HFlag (bool_decide (l = [])), S) | None => None end
  | Del x => if decide (x ∈ members R) then Some (HDone, HState (on_chains (drop_node x) R) raw (<[x := Poisoned]> F)) else None
  | DelInit x =>
      if decide (x ∈ members R) then Some (HDone, HState (on_chains (drop_node x) R) raw (<[x := Clean]> F))
      else if decide (F !! x = Some Clean) then Some (HDone, S) else None
  | AddHead x h =>
      match F !! x, chain_of h R with
      | Some _, Some _ => Some (HDone, HState (on_chain h (cons x) R) raw (delete x F))
      | _, _ => None
      end
  | AddBefore x n =>
      if decide (n ∈ members R) then
        if F !! x then Some (HDone, HState (on_chains (put_before x n) R) raw (delete x F)) else None
      else None
  | AddAfter n x =>
      if decide (n ∈ members R) then
        if F !! x then Some (HDone, HState (on_chains (put_after n x) R) raw (delete x F)) else None
      else None
  | MoveList old new =>
      match chain_of old R, chain_of new R with
      | Some l, Some [] =>
          if decide (old = new) then None
          else Some (HDone, HState (on_chain new (fun _ => l) (on_chain old (fun _ => []) R)) raw F)
      | _, _ => None
      end
  | Walk h => match chain_of h R with Some l => Some (HNodes l, S) | None => None end
  | WalkAfter x => if decide (x ∈ members R) then Some (HNodes (R ≫= fun e => behind x e.2), S) else None
  | WalkFrom x => if decide (x ∈ members R) then Some (HNodes (x :: (R ≫= fun e => behind x e.2)), S) else None
  | Sweep p h =>
      match chain_of h R with
      | Some l =>
          Some (HDone, HState (on_chain h (filter (fun x => p x = false)) R) raw
            (foldr (fun x => <[x := Poisoned]>) F (filter (fun x => p x = true) l)))
      | None => None
      end
  end.

Fixpoint hrun (ops : list hop) (S : hstate) : option (list hanswer * hstate) :=
  match ops with
  | [] => Some ([], S)
  | o :: ops => '(a, S) ← hstep o S; '(l, S) ← hrun ops S; Some (a :: l, S)
  end.

(** * Cells *)

Definition cell (w : hstore) (c : hcell) : option loc :=
  match c with FirstOf h => first <$> heads w !! h | NextOf n => next <$> hnodes w !! n end.
Definition back (w : hstore) (n : loc) : option pointer := pprev <$> hnodes w !! n.

Lemma cell_back w n : is_Some (cell w (NextOf n)) <-> is_Some (back w n).
Proof. unfold cell, back. by rewrite !fmap_is_Some. Qed.

Section run.
Context (w : hstore).

Lemma wp_rd_hnext n v (Q : loc -> hstore -> Prop) : cell w (NextOf n) = Some v -> Q v w -> wp (rd next n) Q w.
Proof. intros (r & Hr & ->)%fmap_Some HQ. by eapply wp_rd. Qed.

Lemma wp_rd_first h v (Q : loc -> hstore -> Prop) : cell w (FirstOf h) = Some v -> Q v w -> wp (rd first h) Q w.
Proof. intros (r & Hr & ->)%fmap_Some HQ. by eapply wp_rd. Qed.

Lemma wp_rd_pprev n v (Q : pointer -> hstore -> Prop) : back w n = Some v -> Q v w -> wp (rd pprev n) Q w.
Proof. intros (r & Hr & ->)%fmap_Some HQ. by eapply wp_rd. Qed.

(** What a write leaves *)
Definition wrote (c : hcell) (v : loc) (w' : hstore) : Prop :=
  (forall c', cell w' c' = if decide (c' = c) then Some v else cell w c') /\ (forall n, back w' n = back w n).
Definition wrote_back (n : loc) (p : pointer) (w' : hstore) : Prop :=
  (forall c', cell w' c' = cell w c') /\ (forall n', back w' n' = if decide (n' = n) then Some p else back w n').

Lemma wp_wr_hnext n v (Q : unit -> hstore -> Prop) :
  is_Some (cell w (NextOf n)) -> (forall w', wrote (NextOf n) v w' -> Q tt w') -> wp (wr (set_next v) n) Q w.
Proof.
  intros [_ (r & Hr & _)%fmap_Some] HQ. eapply wp_wr; [exact Hr|]. apply HQ. split.
  - intros [h|m]; cbn; [by rewrite decide_False|]. destruct (decide (m = n)) as [->|Hne].
    + by rewrite decide_True, lookup_insert_eq.
    + rewrite decide_False by congruence. by rewrite lookup_insert_ne.
  - intros m. unfold back. cbn. destruct (decide (m = n)) as [->|Hne]; [by rewrite lookup_insert_eq, Hr|by rewrite lookup_insert_ne].
Qed.

Lemma wp_wr_first h v (Q : unit -> hstore -> Prop) :
  is_Some (cell w (FirstOf h)) -> (forall w', wrote (FirstOf h) v w' -> Q tt w') -> wp (wr (set_first v) h) Q w.
Proof.
  intros [_ (r & Hr & _)%fmap_Some] HQ. eapply wp_wr; [exact Hr|]. apply HQ. split; [|done].
  intros [m|m]; cbn; [|by rewrite decide_False]. destruct (decide (m = h)) as [->|Hne].
  - by rewrite decide_True, lookup_insert_eq.
  - rewrite decide_False by congruence. by rewrite lookup_insert_ne.
Qed.

Lemma wp_wr_pprev n p (Q : unit -> hstore -> Prop) :
  is_Some (back w n) -> (forall w', wrote_back n p w' -> Q tt w') -> wp (wr (set_pprev p) n) Q w.
Proof.
  intros [_ (r & Hr & _)%fmap_Some] HQ. eapply wp_wr; [exact Hr|]. apply HQ. split.
  - intros [h|m]; cbn; [done|]. destruct (decide (m = n)) as [->|Hne]; [by rewrite lookup_insert_eq, Hr|by rewrite lookup_insert_ne].
  - intros m. unfold back. cbn. destruct (decide (m = n)) as [->|Hne]; [by rewrite lookup_insert_eq|by rewrite lookup_insert_ne].
Qed.

Lemma wp_assign c v (Q : unit -> hstore -> Prop) :
  is_Some (cell w c) -> (forall w', wrote c v w' -> Q tt w') -> wp (assign (Cell c) v) Q w.
Proof. destruct c; [apply wp_wr_first|apply wp_wr_hnext]. Qed.
End run.

(** * Edges *)

(** A cell and what it points to; the back pointer of that leads to the cell. *)
Abbreviation edge := (hcell * loc)%type.

Fixpoint edges (c : hcell) (l : list loc) : list edge :=
  match l with [] => [(c, NULL)] | x :: l => (c, x) :: edges (NextOf x) l end.
Definition all_edges (R : list (loc * list loc)) : list edge := R ≫= fun e => edges (FirstOf e.1) e.2.

(** The edges of a list up to the cell at its end *)
Fixpoint prefix_edges (c : hcell) (l : list loc) : list edge :=
  match l with [] => [] | x :: l => (c, x) :: prefix_edges (NextOf x) l end.
Fixpoint end_cell (c : hcell) (l : list loc) : hcell := match l with [] => c | x :: l => end_cell (NextOf x) l end.

Lemma edges_app c l l' : edges c (l ++ l') = prefix_edges c l ++ edges (end_cell c l) l'.
Proof. revert c. induction l as [|x l IH]; intros c; [done|]. cbn. by rewrite IH. Qed.

Lemma edges_hd c l : exists E, edges c l = (c, List.hd NULL l) :: E.
Proof. destruct l as [|x l]; by eexists. Qed.

Lemma edges_sources c l : (edges c l).*1 = c :: (NextOf <$> l).
Proof. revert c. induction l as [|x l IH]; intros c; [done|]. cbn. by rewrite IH. Qed.

Lemma edges_targets c l : (edges c l).*2 = l ++ [NULL].
Proof. revert c. induction l as [|x l IH]; intros c; [done|]. cbn. by rewrite IH. Qed.

Lemma all_edges_app R1 R2 : all_edges (R1 ++ R2) = all_edges R1 ++ all_edges R2.
Proof. apply bind_app. Qed.

Lemma members_app R1 R2 : members (R1 ++ R2) = members R1 ++ members R2.
Proof. apply bind_app. Qed.

Lemma all_sources R : (all_edges R).*1 ≡ₚ (FirstOf <$> R.*1) ++ (NextOf <$> members R).
Proof.
  induction R as [|[h l] R IH]; [done|]. unfold all_edges, members in *. cbn. rewrite fmap_app, edges_sources, IH, !fmap_app.
  cbn. solve_Permutation.
Qed.

Lemma all_targets R : NULL ∉ members R -> filter (fun v => v <> NULL) (all_edges R).*2 = members R.
Proof.
  induction R as [|[h l] R IH]; [done|]. unfold all_edges, members in *. cbn. intros Hn. apply not_elem_of_app in Hn as [Hl HR].
  rewrite fmap_app, edges_targets, !filter_app, IH by done. cbn. rewrite app_nil_r. f_equal.
  clear -Hl. induction l as [|x l IH]; [done|]. apply not_elem_of_cons in Hl as [Hx Hl]. rewrite filter_cons_True by done. by rewrite IH.
Qed.

(** * The state of the code *)

Definition loose_ok (w : hstore) (x : loc) (s : status) : Prop :=
  is_Some (back w x) /\
  match s with
  | Clean => cell w (NextOf x) = Some NULL /\ back w x = Some Nowhere
  | Poisoned => back w x = Some Poison2
  | Raw => True
  end.

Definition good (w : hstore) (E : list edge) : Prop :=
  forall c v, (c, v) ∈ E -> cell w c = Some v /\ (v <> NULL -> back w v = Some (Cell c)).

(** Addresses are distinct. *)
Record distinct_state (S : hstate) : Prop := {
  ds_heads : NoDup ((chains S).*1 ++ raw_heads S);
  ds_members : NoDup (NULL :: members (chains S));
  ds_loose x : x ∈ NULL :: members (chains S) -> loose S !! x = None;
}.

Record hrel (w : hstore) (S : hstate) : Prop := {
  hr_good : good w (all_edges (chains S));
  hr_raw h : h ∈ raw_heads S -> is_Some (cell w (FirstOf h));
  hr_loose x s : loose S !! x = Some s -> loose_ok w x s;
  hr_distinct : distinct_state S;
}.

(** The edges of a state have one source and one target each. *)
Lemma sources_nodup S : distinct_state S -> NoDup (all_edges (chains S)).*1.
Proof.
  intros [H1 H2 _]. rewrite all_sources. apply NoDup_cons in H2 as [_ H2]. apply NoDup_app in H1 as (H1 & _ & _). apply NoDup_app. split_and!.
  - apply NoDup_fmap_2; [by intros ?? [=]|done].
  - intros c (h & -> & _)%list_elem_of_fmap (n & Hn & _)%list_elem_of_fmap. done.
  - apply NoDup_fmap_2; [by intros ?? [=]|done].
Qed.

Lemma targets_nodup S : distinct_state S -> NoDup (filter (fun v => v <> NULL) (all_edges (chains S)).*2).
Proof. intros [_ H2 _]. apply NoDup_cons in H2 as [Hn H2]. by rewrite all_targets. Qed.

(** An edge and the others *)
Record alone (E : list edge) (c : hcell) (v : loc) : Prop := {
  al_cell c' v' : (c', v') ∈ E -> c' <> c;
  al_target c' v' : (c', v') ∈ E -> v <> NULL -> v' <> v;
}.

Lemma edge_alone S c v E : distinct_state S -> all_edges (chains S) ≡ₚ (c, v) :: E -> alone E c v.
Proof.
  intros Hd HE. pose proof (sources_nodup S Hd) as H1. pose proof (targets_nodup S Hd) as H2. rewrite HE in H1, H2. change (NoDup (c :: E.*1)) in H1. change (NoDup (filter (fun v => v <> NULL) (v :: E.*2))) in H2.
  apply NoDup_cons in H1 as [H1 _]. split.
  - intros c' v' Hin ->. apply H1. by apply (list_elem_of_fmap_2 fst) in Hin.
  - intros c' v' Hin Hv ->. rewrite filter_cons_True in H2 by done. apply NoDup_cons in H2 as [H2 _]. apply H2.
    apply list_elem_of_filter. split; [done|]. by apply (list_elem_of_fmap_2 snd) in Hin.
Qed.

(** ** Changes of edges *)

Lemma good_perm w E E' : E ≡ₚ E' -> good w E -> good w E'.
Proof. intros HE H c v. rewrite <- HE. apply H. Qed.

(** The other edges stay. *)
Lemma good_frame w w' E (cs : list hcell) (vs : list loc) :
  good w E -> (forall c v, (c, v) ∈ E -> c ∉ cs /\ (v <> NULL -> v ∉ vs)) ->
  (forall c, c ∉ cs -> cell w' c = cell w c) -> (forall v, v ∉ vs -> back w' v = back w v) -> good w' E.
Proof.
  intros H HE Hc Hb c v Hin. destruct (H c v Hin) as [H1 H2]. destruct (HE c v Hin) as [H3 H4].
  split; [by rewrite Hc|]. intros Hv. rewrite Hb by auto. auto.
Qed.

Lemma good_cons w c v E : good w ((c, v) :: E) <-> cell w c = Some v /\ (v <> NULL -> back w v = Some (Cell c)) /\ good w E.
Proof.
  split.
  - intros H. destruct (H c v) as [H1 H2]; [by left|]. split_and!; [done|done|]. intros c' v' Hin. apply H. by right.
  - intros (H1 & H2 & H) c' v' [[= -> ->]|Hin]%elem_of_cons; [done|by apply H].
Qed.

(** * Places in the lists *)

Lemma edges_at R1 h A B R2 : exists E,
  all_edges (R1 ++ (h, A ++ B) :: R2) ≡ₚ (end_cell (FirstOf h) A, List.hd NULL B) :: E /\
  forall x, all_edges (R1 ++ (h, A ++ x :: B) :: R2) ≡ₚ (end_cell (FirstOf h) A, x) :: (NextOf x, List.hd NULL B) :: E.
Proof.
  set (c := end_cell (FirstOf h) A).
  assert (HB : exists K, forall c', edges c' B = (c', List.hd NULL B) :: K).
  { destruct B as [|b B]; [by exists []|by exists (edges (NextOf b) B)]. }
  destruct HB as [K HK]. exists (all_edges R1 ++ prefix_edges (FirstOf h) A ++ K ++ all_edges R2).
  assert (Hat : forall l, all_edges (R1 ++ (h, A ++ l) :: R2) ≡ₚ all_edges R1 ++ prefix_edges (FirstOf h) A ++ edges c l ++ all_edges R2).
  { intros l. rewrite all_edges_app. unfold all_edges at 2. cbn. rewrite edges_app. fold (all_edges R2). by rewrite <- app_assoc. }
  split; [|intros x]; rewrite Hat; [rewrite HK|cbn; rewrite HK]; cbn; solve_Permutation.
Qed.

Lemma members_at R1 h l R2 : members (R1 ++ (h, l) :: R2) ≡ₚ l ++ members R1 ++ members R2.
Proof. rewrite members_app. unfold members at 2. cbn. fold (members R2). solve_Permutation. Qed.

Lemma end_cell_app c l x : end_cell c (l ++ [x]) = NextOf x.
Proof. revert c. induction l as [|y l IH]; intros c; [done|]. apply IH. Qed.

Lemma member_split x R : x ∈ members R -> exists R1 h A B R2, R = R1 ++ (h, A ++ x :: B) :: R2.
Proof.
  intros ([h l] & Hx & HR)%list_elem_of_bind. apply list_elem_of_split in HR as (R1 & R2 & ->).
  apply list_elem_of_split in Hx as (A & B & HAB). cbn in HAB. subst l. by exists R1, h, A, B, R2.
Qed.

(** A function that changes only the list of [n] *)
Lemma on_chains_at f n R1 h A B R2 :
  (forall l, n ∉ l -> f l = l) -> NoDup (members (R1 ++ (h, A ++ n :: B) :: R2)) ->
  on_chains f (R1 ++ (h, A ++ n :: B) :: R2) = R1 ++ (h, f (A ++ n :: B)) :: R2 /\ n ∉ A /\ n ∉ B.
Proof.
  intros Hf HN. rewrite members_at in HN. apply NoDup_app in HN as (HAB & Hd & _).
  assert (Hid : forall R, (forall y, y ∈ members R -> y <> n) -> on_chains f R = R).
  { intros R HR. induction R as [|[h' l] R IH]; [done|]. unfold on_chains, members in *. cbn in *. rewrite IH, Hf; [done|..].
    - intros Hn. apply (HR n); [apply elem_of_app; by left|done].
    - intros y Hy. apply HR, elem_of_app. by right. }
  assert (Hn : n ∉ members R1 ++ members R2) by (apply Hd, elem_of_app; right; by left). rewrite not_elem_of_app in Hn.
  split.
  - unfold on_chains in *. rewrite fmap_app, fmap_cons. cbn. rewrite (Hid R1), (Hid R2); [done|..]; intros y Hy ->; by destruct Hn.
  - apply NoDup_app in HAB as (_ & HA & HB). apply NoDup_cons in HB as [HB _]. split; [|done].
    intros HnA. apply (HA n HnA). by left.
Qed.

Lemma chain_split h l R : NoDup R.*1 -> chain_of h R = Some l -> exists R1 R2, R = R1 ++ (h, l) :: R2 /\
  forall f, on_chain h f R = R1 ++ (h, f l) :: R2.
Proof.
  intros HN H. unfold chain_of in H. destruct (list_find _ R) as [[i [h' l']]|] eqn:E; [|done]. cbn in H. injection H as ->.
  apply list_find_Some in E as (Hi & Heq & _). cbn in Heq. subst h'. apply list_elem_of_split_length in Hi as (R1 & R2 & -> & _).
  exists R1, R2. split; [done|]. intros f. unfold on_chain. rewrite fmap_app, fmap_cons. cbn. rewrite decide_True by done.
  rewrite fmap_app in HN. apply NoDup_app in HN as (_ & H1 & H2). cbn in H2. apply NoDup_cons in H2 as [H2 _].
  assert (Hid : forall R, h ∉ R.*1 -> (fun e : loc * list loc => if decide (e.1 = h) then (h, f e.2) else e) <$> R = R).
  { induction R as [|[h' l'] R IH]; intros Hh; [done|]. cbn in *. apply not_elem_of_cons in Hh as [Hh Hh']. by rewrite decide_False, IH. }
  f_equal; [|f_equal].
  - transitivity ((fun e : loc * list loc => if decide (e.1 = h) then (h, f e.2) else e) <$> R1).
    + apply list_fmap_ext. intros i' [h' l'] _. cbn. case_decide; congruence.
    + apply Hid. intros Hh. apply (H1 h Hh). cbn. by left.
  - transitivity ((fun e : loc * list loc => if decide (e.1 = h) then (h, f e.2) else e) <$> R2).
    + apply list_fmap_ext. intros i' [h' l'] _. cbn. case_decide; congruence.
    + by apply Hid.
Qed.

Lemma put_before_at x n A B : n ∉ A -> n ∉ B -> put_before x n (A ++ n :: B) = A ++ x :: n :: B.
Proof.
  intros HA HB. unfold put_before. rewrite bind_app. cbn. rewrite decide_True by done.
  assert (Hid : forall l : list loc, n ∉ l -> (l ≫= fun y => if decide (y = n) then [x; y] else [y]) = l).
  { induction l as [|y l IH]; intros Hy; [done|]. apply not_elem_of_cons in Hy as [Hy Hl]. cbn. rewrite decide_False by congruence. cbn. by rewrite IH. }
  by rewrite (Hid A), (Hid B).
Qed.

Lemma put_before_id x n l : n ∉ l -> put_before x n l = l.
Proof.
  induction l as [|y l IH]; intros Hy; [done|]. apply not_elem_of_cons in Hy as [Hy Hl]. unfold put_before in *. cbn.
  rewrite decide_False by congruence. cbn. by rewrite IH.
Qed.

Lemma put_after_id x n l : n ∉ l -> put_after n x l = l.
Proof.
  induction l as [|y l IH]; intros Hy; [done|]. apply not_elem_of_cons in Hy as [Hy Hl]. unfold put_after in *. cbn.
  rewrite decide_False by congruence. cbn. by rewrite IH.
Qed.

Lemma put_after_at x n A B : n ∉ A -> n ∉ B -> put_after n x (A ++ n :: B) = (A ++ [n]) ++ x :: B.
Proof.
  intros HA HB. pose proof (put_after_id x n A HA) as H1. pose proof (put_after_id x n B HB) as H2. unfold put_after in *.
  rewrite bind_app. cbn. by rewrite decide_True, H1, H2, <- app_assoc.
Qed.

Lemma drop_node_id x l : x ∉ l -> drop_node x l = l.
Proof.
  induction l as [|y l IH]; intros Hy; [done|]. apply not_elem_of_cons in Hy as [Hy Hl]. unfold drop_node in *.
  rewrite filter_cons_True by congruence. by rewrite IH.
Qed.

Lemma drop_node_at x A B : x ∉ A -> x ∉ B -> drop_node x (A ++ x :: B) = A ++ B.
Proof.
  intros HA HB. unfold drop_node. rewrite filter_app, filter_cons_False by (intros H; by apply H).
  fold (drop_node x A) (drop_node x B). by rewrite !drop_node_id.
Qed.

Lemma behind_at x A B : x ∉ A -> behind x (A ++ x :: B) = B.
Proof.
  induction A as [|a A IH]; cbn; [by rewrite decide_True|]. intros [Ha HA]%not_elem_of_cons. rewrite decide_False by congruence. auto.
Qed.

Lemma behind_none x l : x ∉ l -> behind x l = [].
Proof. induction l as [|y l IH]; [done|]. intros [Hy Hl]%not_elem_of_cons. cbn. rewrite decide_False by congruence. auto. Qed.

(** * What the operations do to cells *)

(** Only the cells [cs] and the back pointers of [vs] change. *)
Record changed (w w' : hstore) (cs : list hcell) (vs : list loc) : Prop := {
  ch_cell c : c ∉ cs -> cell w' c = cell w c;
  ch_back v : v ∉ vs -> back w' v = back w v;
  ch_alive c : is_Some (cell w c) -> is_Some (cell w' c);
}.

Lemma changed_refl w cs vs : changed w w cs vs.
Proof. by split. Qed.

Lemma changed_trans w w1 w2 cs vs : changed w w1 cs vs -> changed w1 w2 cs vs -> changed w w2 cs vs.
Proof.
  intros [H1 H2 H3] [H4 H5 H6]. split.
  - intros c Hc. by rewrite H4, H1.
  - intros v Hv. by rewrite H5, H2.
  - auto.
Qed.

Lemma changed_one w w' c c' x y : changed w w' [c] [y] -> changed w w' [c; c'] [x; y].
Proof.
  intros [H1 H2 H3]. split; [| |exact H3].
  - intros d. rewrite not_elem_of_cons. intros [? _]. apply H1. by rewrite list_elem_of_singleton.
  - intros v. rewrite not_elem_of_cons. intros [_ ?]. by apply H2.
Qed.

Lemma wrote_changed w c v w' cs vs : wrote w c v w' -> c ∈ cs -> changed w w' cs vs.
Proof.
  intros [Hc Hb] Hin. split.
  - intros c' Hc'. rewrite Hc, decide_False; [done|]. by intros ->.
  - intros n _. apply Hb.
  - intros c' Hs. rewrite Hc. case_decide; [by eexists|done].
Qed.

Lemma wrote_back_changed w n p w' cs vs : wrote_back w n p w' -> n ∈ vs -> changed w w' cs vs.
Proof.
  intros [Hc Hb] Hin. split.
  - intros c _. apply Hc.
  - intros v Hv. rewrite Hb, decide_False; [done|]. by intros ->.
  - intros c Hs. by rewrite Hc.
Qed.

Lemma changed_alive_back w w' cs vs n : changed w w' cs vs -> is_Some (back w n) -> is_Some (back w' n).
Proof. intros H Hn. apply cell_back, (ch_alive _ _ _ _ H), cell_back, Hn. Qed.

(** Evaluation of cells and back pointers after writes *)
Ltac heval :=
  repeat match goal with
  | H : wrote _ _ _ ?w |- context [cell ?w ?c] => rewrite (proj1 H c)
  | H : wrote _ _ _ ?w |- context [back ?w ?n] => rewrite (proj2 H n)
  | H : wrote_back _ _ _ ?w |- context [cell ?w ?c] => rewrite (proj1 H c)
  | H : wrote_back _ _ _ ?w |- context [back ?w ?n] => rewrite (proj2 H n)
  | |- context [decide (?x = ?x)] => rewrite (decide_True (P := x = x)) by reflexivity
  | |- context [decide (?x = ?y)] => rewrite (decide_False (P := x = y)) by congruence
  end.
Ltac hsolve := heval; first [eassumption|done|by eexists|by apply cell_back; heval; first [eassumption|by eexists]].
Ltac hstep :=
  cbv beta iota;
  match goal with
  | |- wp (mbind _ _) _ _ => apply wp_bind
  | |- wp (mret _) _ _ => apply wp_ret
  | |- wp (rd next _) _ _ => eapply wp_rd_hnext; [hsolve|]
  | |- wp (rd first _) _ _ => eapply wp_rd_first; [hsolve|]
  | |- wp (rd pprev _) _ _ => eapply wp_rd_pprev; [hsolve|]
  | |- wp (wr (set_next _) _) _ _ => eapply wp_wr_hnext; [hsolve|]
  | |- wp (wr (set_first _) _) _ _ => eapply wp_wr_first; [hsolve|]
  | |- wp (wr (set_pprev _) _) _ _ => eapply wp_wr_pprev; [hsolve|]
  | |- wp (assign (Cell _) _) _ _ => eapply wp_assign; [hsolve|]
  | |- forall w', wrote _ _ _ w' -> _ => let w' := fresh "w" in let H := fresh "Hw" in intros w' H
  | |- forall w', wrote_back _ _ _ w' -> _ => let w' := fresh "w" in let H := fresh "Hw" in intros w' H
  | |- wp (if decide (?x = ?y) then _ else _) _ _ => first [rewrite (decide_False (P := x = y)) by congruence|rewrite (decide_True (P := x = y)) by congruence]
  end.
Ltac hin := repeat first [by apply list_elem_of_here|apply list_elem_of_further].
Ltac hchanged :=
  repeat match goal with
  | H : wrote ?w _ _ ?w1 |- changed ?w ?w2 _ _ => eapply changed_trans; [eapply wrote_changed; [exact H|hin]|]
  | H : wrote_back ?w _ _ ?w1 |- changed ?w ?w2 _ _ => eapply changed_trans; [eapply wrote_back_changed; [exact H|hin]|]
  end; apply changed_refl.

(** The cell [c] leads past [x]. *)
Lemma wp_bypass w c x y (Q : unit -> hstore -> Prop) :
  cell w c = Some x -> cell w (NextOf x) = Some y -> back w x = Some (Cell c) -> (y <> NULL -> is_Some (back w y)) -> c <> NextOf x ->
  (forall w', changed w w' [c] [y] -> cell w' c = Some y -> (y <> NULL -> back w' y = Some (Cell c)) -> Q tt w') ->
  wp (__hlist_del x) Q w.
Proof.
  intros Hc Hn Hb Hy Hne HQ. unfold __hlist_del. repeat hstep. destruct (decide (y = NULL)) as [->|Hy0].
  - repeat hstep. apply HQ; [hchanged|hsolve|done].
  - specialize (Hy Hy0). repeat hstep. apply HQ; [hchanged|hsolve|intros _; hsolve].
Qed.

Lemma wp_hlist_del w c x y (Q : unit -> hstore -> Prop) :
  cell w c = Some x -> cell w (NextOf x) = Some y -> back w x = Some (Cell c) -> (y <> NULL -> is_Some (back w y)) -> c <> NextOf x -> x <> y ->
  (forall w', changed w w' [c; NextOf x] [x; y] -> cell w' c = Some y -> (y <> NULL -> back w' y = Some (Cell c)) ->
     loose_ok w' x Poisoned -> Q tt w') ->
  wp (hlist_del x) Q w.
Proof.
  intros Hc Hn Hb Hy Hne Hxy HQ. unfold hlist_del. apply wp_bind. eapply wp_bypass; [done..|]. intros w1 Hch Hc1 Hb1.
  assert (Hx1 : is_Some (back w1 x)) by (eapply changed_alive_back; [exact Hch|by eexists]).
  pose proof (proj2 (cell_back w1 x) Hx1) as Hx2. repeat hstep. apply HQ.
  - apply (changed_trans _ w1); [|hchanged]. by apply changed_one.
  - hsolve.
  - intros Hy0. heval. auto.
  - split; heval; [by eexists|done].
Qed.

Lemma wp_del_init w c x y (Q : unit -> hstore -> Prop) :
  cell w c = Some x -> cell w (NextOf x) = Some y -> back w x = Some (Cell c) -> (y <> NULL -> is_Some (back w y)) -> c <> NextOf x -> x <> y ->
  (forall w', changed w w' [c; NextOf x] [x; y] -> cell w' c = Some y -> (y <> NULL -> back w' y = Some (Cell c)) ->
     loose_ok w' x Clean -> Q tt w') ->
  wp (hlist_del_init x) Q w.
Proof.
  intros Hc Hn Hb Hy Hne Hxy HQ. unfold hlist_del_init, hlist_unhashed. repeat hstep. cbn [is_null]. repeat hstep.
  eapply wp_bypass; [done..|]. intros w1 Hch Hc1 Hb1.
  assert (Hx1 : is_Some (back w1 x)) by (eapply changed_alive_back; [exact Hch|by eexists]).
  pose proof (proj2 (cell_back w1 x) Hx1) as Hx2. unfold INIT_HLIST_NODE. repeat hstep. apply HQ.
  - apply (changed_trans _ w1); [|hchanged]. by apply changed_one.
  - hsolve.
  - intros Hy0. heval. auto.
  - split; heval; [by eexists|]. split; hsolve.
Qed.

(** [x] comes between the cell [c] and what it led to. *)
Definition inserted (w : hstore) (c : hcell) (x y : loc) (w' : hstore) : Prop :=
  changed w w' [c; NextOf x] [x; y] /\ cell w' c = Some x /\ cell w' (NextOf x) = Some y /\ back w' x = Some (Cell c) /\
  (y <> NULL -> back w' y = Some (Cell (NextOf x))).

Lemma wp_add_head w h x y (Q : unit -> hstore -> Prop) :
  cell w (FirstOf h) = Some y -> (y <> NULL -> is_Some (back w y)) -> is_Some (back w x) -> x <> y ->
  (forall w', inserted w (FirstOf h) x y w' -> Q tt w') -> wp (hlist_add_head x h) Q w.
Proof.
  intros Hc Hy Hx Hxy HQ. pose proof (proj2 (cell_back w x) Hx) as Hx2. unfold hlist_add_head. repeat hstep.
  destruct (decide (y = NULL)) as [->|Hy0].
  - repeat hstep. apply HQ. split_and!; [hchanged|hsolve|hsolve|hsolve|done].
  - specialize (Hy Hy0). repeat hstep. apply HQ. split_and!; [hchanged|hsolve|hsolve|hsolve|intros _; hsolve].
Qed.

Lemma wp_add_before w c x y (Q : unit -> hstore -> Prop) :
  cell w c = Some y -> back w y = Some (Cell c) -> is_Some (back w x) -> x <> y -> c <> NextOf x ->
  (forall w', inserted w c x y w' -> Q tt w') -> wp (hlist_add_before x y) Q w.
Proof.
  intros Hc Hy Hx Hxy Hcx HQ. pose proof (proj2 (cell_back w x) Hx) as Hx2. unfold hlist_add_before. repeat hstep.
  apply HQ. split_and!; [hchanged|hsolve|hsolve|hsolve|intros _; hsolve].
Qed.

Lemma wp_add_after w n x y (Q : unit -> hstore -> Prop) :
  cell w (NextOf n) = Some y -> (y <> NULL -> is_Some (back w y)) -> is_Some (back w x) -> x <> y -> n <> x ->
  (forall w', inserted w (NextOf n) x y w' -> Q tt w') -> wp (hlist_add_after n x) Q w.
Proof.
  intros Hc Hy Hx Hxy Hnx HQ. pose proof (proj2 (cell_back w x) Hx) as Hx2. unfold hlist_add_after. repeat hstep.
  destruct (decide (y = NULL)) as [->|Hy0].
  - repeat hstep. apply HQ. split_and!; [hchanged|hsolve|hsolve|hsolve|done].
  - specialize (Hy Hy0). repeat hstep. apply HQ. split_and!; [hchanged|hsolve|hsolve|hsolve|intros _; hsolve].
Qed.

Lemma wp_move_list w old new y (Q : unit -> hstore -> Prop) :
  cell w (FirstOf old) = Some y -> is_Some (cell w (FirstOf new)) -> (y <> NULL -> is_Some (back w y)) -> old <> new ->
  (forall w', changed w w' [FirstOf old; FirstOf new] [y] -> cell w' (FirstOf old) = Some NULL -> cell w' (FirstOf new) = Some y ->
     (y <> NULL -> back w' y = Some (Cell (FirstOf new))) -> Q tt w') ->
  wp (hlist_move_list old new) Q w.
Proof.
  intros Hc Hn Hy Hne HQ. unfold hlist_move_list. repeat hstep. destruct (decide (y = NULL)) as [->|Hy0].
  - repeat hstep. apply HQ; [hchanged|hsolve|hsolve|done].
  - specialize (Hy Hy0). repeat hstep. apply HQ; [hchanged|hsolve|hsolve|intros _; hsolve].
Qed.

(** * States after an operation *)

Lemma hrel_step w w' S S' cs vs :
  hrel w S -> changed w w' cs vs -> good w' (all_edges (chains S')) ->
  (forall h, h ∈ raw_heads S' -> h ∈ raw_heads S) ->
  (forall x s, loose S' !! x = Some s -> loose_ok w' x s \/ (loose S !! x = Some s /\ NextOf x ∉ cs /\ x ∉ vs)) ->
  distinct_state S' -> hrel w' S'.
Proof.
  intros [H1 H2 H3 H4] Hch Hg Hraw Hloose Hd. split; [done| | |done].
  - intros h Hh. apply (ch_alive _ _ _ _ Hch), H2, Hraw, Hh.
  - intros x s Hx. destruct (Hloose x s Hx) as [|(Hold & Hcs & Hvs)]; [done|]. destruct (H3 x s Hold) as [Ha Hs]. split.
    + eapply changed_alive_back; [exact Hch|done].
    + rewrite (ch_cell _ _ _ _ Hch) by done. by rewrite (ch_back _ _ _ _ Hch).
Qed.

(** What is known at an edge *)
Lemma edge_at w S c v E :
  hrel w S -> all_edges (chains S) ≡ₚ (c, v) :: E -> cell w c = Some v /\ (v <> NULL -> back w v = Some (Cell c)) /\ alone E c v /\ good w E.
Proof.
  intros H HE. pose proof (good_perm _ _ _ HE (hr_good _ _ H)) as Hg. apply good_cons in Hg as (H1 & H2 & Hg).
  split_and!; [done|done|by eapply edge_alone; [apply H|]|done].
Qed.

Lemma good_rest w w' E cs vs :
  good w E -> changed w w' cs vs -> (forall c' v', (c', v') ∈ E -> c' ∉ cs /\ (v' <> NULL -> v' ∉ vs)) -> good w' E.
Proof. intros Hg Hch HE. eapply good_frame; [exact Hg|exact HE|apply Hch|apply Hch]. Qed.

(** Sources and targets are heads and members. *)
Lemma edge_source R c v : (c, v) ∈ all_edges R -> forall x, c = NextOf x -> x ∈ members R.
Proof.
  intros Hin x ->. apply (list_elem_of_fmap_2 fst) in Hin. rewrite all_sources in Hin.
  apply elem_of_app in Hin as [(h & E & _)%list_elem_of_fmap|(n & E & Hn)%list_elem_of_fmap]; [done|]. by injection E as <-.
Qed.

Lemma edge_target R c v : (c, v) ∈ all_edges R -> v <> NULL -> v ∈ members R.
Proof.
  intros ([h l] & Hin & HR)%list_elem_of_bind Hv. apply list_elem_of_bind. exists (h, l). split; [|done]. cbn in *.
  apply (list_elem_of_fmap_2 snd) in Hin. rewrite edges_targets in Hin. apply elem_of_app in Hin as [|Hin%list_elem_of_singleton]; done.
Qed.

Section delete.
Context (w : hstore) (R R' : list (loc * list loc)) (raw : list loc) (F : gmap loc status) (c : hcell) (x y : loc) (E : list edge).
Hypothesis Hrel : hrel w (HState R raw F).
Hypothesis Hold : all_edges R ≡ₚ (c, x) :: (NextOf x, y) :: E.
Hypothesis Hnew : all_edges R' ≡ₚ (c, y) :: E.
Hypothesis Hmem : members R ≡ₚ x :: members R'.
Hypothesis Hheads : R'.*1 = R.*1.

Lemma delete_facts :
  cell w c = Some x /\ cell w (NextOf x) = Some y /\ back w x = Some (Cell c) /\ (y <> NULL -> is_Some (back w y)) /\
  c <> NextOf x /\ x <> y /\ x <> NULL.
Proof.
  destruct (edge_at w _ c x _ Hrel Hold) as (H1 & H2 & [H3 H4] & H5). apply good_cons in H5 as (H6 & H7 & _).
  pose proof (ds_members _ (hr_distinct _ _ Hrel)) as HN. cbn in HN. rewrite Hmem in HN.
  assert (Hx : x <> NULL) by (apply NoDup_cons in HN as [HN _]; apply not_elem_of_cons in HN as [HN _]; congruence).
  split_and!; [done|done|by apply H2| |intros Ec; by apply (H3 (NextOf x) y (list_elem_of_here _ _))| |done].
  - intros Hy. rewrite H7 by done. by eexists.
  - intros Ey. by apply (H4 (NextOf x) y (list_elem_of_here _ _)).
Qed.

Lemma hrel_deleted w' s :
  changed w w' [c; NextOf x] [x; y] -> cell w' c = Some y -> (y <> NULL -> back w' y = Some (Cell c)) -> loose_ok w' x s ->
  hrel w' (HState R' raw (<[x := s]> F)).
Proof.
  intros Hch Hc Hy Hx. destruct delete_facts as (_ & _ & _ & _ & _ & Hxy & Hx0).
  destruct (edge_at w _ c x _ Hrel Hold) as (_ & _ & [H1 H2] & H3). apply good_cons in H3 as (_ & _ & H3).
  assert (Hold2 : all_edges R ≡ₚ (NextOf x, y) :: (c, x) :: E) by (rewrite Hold; solve_Permutation).
  destruct (edge_at w _ _ y _ Hrel Hold2) as (_ & _ & [H4 H5] & _).
  pose proof (hr_distinct _ _ Hrel) as [Hd1 Hd2 Hd3]. cbn in Hd1, Hd2, Hd3.
  eapply (hrel_step w w' (HState R raw F) _ [c; NextOf x] [x; y]); [done|done|..]; cbn [chains raw_heads loose].
  - eapply good_perm; [symmetry; exact Hnew|]. apply good_cons. split_and!; [done|done|].
    eapply good_rest; [exact H3|exact Hch|]. intros c' v' Hin. split.
    + rewrite !not_elem_of_cons. split_and!; [by apply (H1 c' v'); right|by apply (H4 c' v'); right|apply not_elem_of_nil].
    + intros Hv'. rewrite !not_elem_of_cons. split_and!; [by apply (H2 c' v'); [right|]| |apply not_elem_of_nil].
      intros ->. apply (H5 c' y); [by right|done|done].
  - done.
  - intros z t [[-> ->]|[Hne Hz]]%lookup_insert_Some; [by left|]. right.
    assert (Hzm : z ∉ NULL :: members R) by (intros Hin; by rewrite (Hd3 z Hin) in Hz). rewrite not_elem_of_cons in Hzm.
    split; [done|]. rewrite !not_elem_of_cons. split_and!; try apply not_elem_of_nil; try congruence.
    + intros Ec. destruct Hzm as [_ Hzm]. apply Hzm. apply (edge_source R c x); [rewrite Hold; by left|by rewrite <- Ec].
    + intros ->. destruct Hzm as [Hy0 Hzm]. apply Hzm. apply (edge_target R (NextOf x)); [rewrite Hold2; by left|congruence].
  - split; cbn.
    + by rewrite Hheads.
    + rewrite Hmem in Hd2. apply NoDup_cons in Hd2 as [Hn Hd2]. apply NoDup_cons in Hd2 as [_ Hd2]. apply NoDup_cons.
      split; [|done]. intros Hin. apply Hn. by right.
    + intros z Hz. rewrite lookup_insert_ne.
      * apply Hd3. apply elem_of_cons in Hz as [->|Hz]; [by left|]. right. rewrite Hmem. by right.
      * intros <-. apply elem_of_cons in Hz as [|Hz]; [done|]. rewrite Hmem in Hd2. apply NoDup_cons in Hd2 as [_ Hd2].
        by apply NoDup_cons in Hd2 as [Hd2 _].
Qed.
End delete.

Section insert.
Context (w : hstore) (R R' : list (loc * list loc)) (raw : list loc) (F : gmap loc status) (c : hcell) (x y : loc) (s : status) (E : list edge).
Hypothesis Hrel : hrel w (HState R raw F).
Hypothesis Hold : all_edges R ≡ₚ (c, y) :: E.
Hypothesis Hnew : all_edges R' ≡ₚ (c, x) :: (NextOf x, y) :: E.
Hypothesis Hmem : members R' ≡ₚ x :: members R.
Hypothesis Hheads : R'.*1 = R.*1.
Hypothesis Hx : F !! x = Some s.

Lemma insert_facts :
  cell w c = Some y /\ (y <> NULL -> back w y = Some (Cell c)) /\ is_Some (back w x) /\ x <> y /\ c <> NextOf x /\ x <> NULL /\ x ∉ members R.
Proof.
  clear Hnew Hmem Hheads R'.
  destruct (edge_at w _ c y _ Hrel Hold) as (H1 & H2 & _ & _). destruct (hr_loose _ _ Hrel x s Hx) as [Hb _].
  assert (Hxm : x ∉ NULL :: members R).
  { intros Hin. pose proof (ds_loose _ (hr_distinct _ _ Hrel) x Hin) as E0. cbn in E0. congruence. }
  rewrite not_elem_of_cons in Hxm. destruct Hxm as [Hx0 Hxm]. split_and!; try done.
  - intros <-. apply Hxm. apply (edge_target R c x); [rewrite Hold; by left|done].
  - intros Ec. apply Hxm. by apply (edge_source R c y); [rewrite Hold; by left|].
Qed.

Lemma hrel_inserted w' : inserted w c x y w' -> hrel w' (HState R' raw (delete x F)).
Proof.
  intros (Hch & Hc & Hn & Hbx & Hby). destruct insert_facts as (_ & _ & _ & Hxy & Hcx & Hx0 & Hxm).
  destruct (edge_at w _ c y _ Hrel Hold) as (_ & _ & [H1 H2] & H3).
  pose proof (hr_distinct _ _ Hrel) as [Hd1 Hd2 Hd3]. cbn in Hd1, Hd2, Hd3.
  eapply (hrel_step w w' (HState R raw F) _ [c; NextOf x] [x; y]); [done|done|..]; cbn [chains raw_heads loose].
  - eapply good_perm; [symmetry; exact Hnew|]. rewrite !good_cons. split_and!; try done.
    eapply good_rest; [exact H3|exact Hch|]. intros c' v' Hin.
    assert (HinR : (c', v') ∈ all_edges R) by (rewrite Hold; by right). split.
    + rewrite !not_elem_of_cons. split_and!; [by apply (H1 c' v')| |apply not_elem_of_nil].
      intros ->. apply Hxm. by eapply edge_source.
    + intros Hv'. rewrite !not_elem_of_cons. split_and!; [| |apply not_elem_of_nil].
      * intros ->. apply Hxm. by eapply edge_target.
      * intros ->. by apply (H2 c' y).
  - done.
  - intros z t [Hne Hz]%lookup_delete_Some. right.
    assert (Hzm : z ∉ NULL :: members R) by (intros Hin; by rewrite (Hd3 z Hin) in Hz). rewrite not_elem_of_cons in Hzm.
    split; [done|]. rewrite !not_elem_of_cons. split_and!; try apply not_elem_of_nil; try congruence.
    + intros Ec. destruct Hzm as [_ Hzm]. apply Hzm. apply (edge_source R c y); [rewrite Hold; by left|by rewrite <- Ec].
    + intros ->. destruct Hzm as [Hy0 Hzm]. apply Hzm. apply (edge_target R c); [rewrite Hold; by left|congruence].
  - split; cbn.
    + by rewrite Hheads.
    + rewrite Hmem. apply NoDup_cons in Hd2 as [Hn2 Hd2]. apply NoDup_cons. split; [|by apply NoDup_cons].
      rewrite not_elem_of_cons. split; [congruence|done].
    + intros z Hz. destruct (decide (z = x)) as [->|Hzx]; [apply lookup_delete_eq|]. rewrite lookup_delete_ne by congruence.
      apply Hd3. apply elem_of_cons in Hz as [->|Hz]; [by left|]. rewrite Hmem in Hz. apply elem_of_cons in Hz as [|Hz]; [done|by right].
Qed.
End insert.

(** * The places of the operations *)

Lemma on_chains_heads f R : (on_chains f R).*1 = R.*1.
Proof. unfold on_chains. rewrite <- list_fmap_compose. by apply list_fmap_ext. Qed.

Lemma members_nodup w S : hrel w S -> NoDup (members (chains S)).
Proof. intros H. pose proof (ds_members _ (hr_distinct _ _ H)) as HN. by apply NoDup_cons in HN as [_ HN]. Qed.

Lemma heads_nodup w S : hrel w S -> NoDup (chains S).*1.
Proof. intros H. pose proof (ds_heads _ (hr_distinct _ _ H)) as HN. by apply NoDup_app in HN as [HN _]. Qed.

Lemma delete_place R x : NoDup (members R) -> x ∈ members R -> exists c y E,
  all_edges R ≡ₚ (c, x) :: (NextOf x, y) :: E /\ all_edges (on_chains (drop_node x) R) ≡ₚ (c, y) :: E /\
  members R ≡ₚ x :: members (on_chains (drop_node x) R).
Proof.
  intros HN Hx. destruct (member_split x R Hx) as (R1 & h & A & B & R2 & ->).
  destruct (on_chains_at (drop_node x) x R1 h A B R2 (drop_node_id x) HN) as (-> & HA & HB). rewrite drop_node_at by done.
  destruct (edges_at R1 h A B R2) as (E & E1 & E2). do 3 eexists. split_and!; [apply E2|exact E1|].
  rewrite !members_at. solve_Permutation.
Qed.

Lemma before_place R x n : NoDup (members R) -> n ∈ members R -> exists c E,
  all_edges R ≡ₚ (c, n) :: E /\ all_edges (on_chains (put_before x n) R) ≡ₚ (c, x) :: (NextOf x, n) :: E /\
  members (on_chains (put_before x n) R) ≡ₚ x :: members R.
Proof.
  intros HN Hn. destruct (member_split n R Hn) as (R1 & h & A & B & R2 & ->).
  destruct (on_chains_at (put_before x n) n R1 h A B R2 (put_before_id x n) HN) as (-> & HA & HB). rewrite put_before_at by done.
  destruct (edges_at R1 h A (n :: B) R2) as (E & E1 & E2). do 2 eexists. split_and!; [apply E1|apply E2|].
  rewrite !members_at. solve_Permutation.
Qed.

Lemma after_place R n x : NoDup (members R) -> n ∈ members R -> exists y E,
  all_edges R ≡ₚ (NextOf n, y) :: E /\ all_edges (on_chains (put_after n x) R) ≡ₚ (NextOf n, x) :: (NextOf x, y) :: E /\
  members (on_chains (put_after n x) R) ≡ₚ x :: members R.
Proof.
  intros HN Hn. destruct (member_split n R Hn) as (R1 & h & A & B & R2 & ->).
  destruct (on_chains_at (put_after n x) n R1 h A B R2 (put_after_id x n) HN) as (-> & HA & HB). rewrite put_after_at by done.
  destruct (edges_at R1 h (A ++ [n]) B R2) as (E & E1 & E2). rewrite end_cell_app in E1, E2.
  exists (List.hd NULL B), E. rewrite <- app_assoc in E1. split_and!; [apply E1|apply E2|]. rewrite !members_at. solve_Permutation.
Qed.

Lemma head_place R x h l : NoDup R.*1 -> chain_of h R = Some l -> exists y E,
  y = List.hd NULL l /\ all_edges R ≡ₚ (FirstOf h, y) :: E /\ all_edges (on_chain h (cons x) R) ≡ₚ (FirstOf h, x) :: (NextOf x, y) :: E /\
  members (on_chain h (cons x) R) ≡ₚ x :: members R /\ (on_chain h (cons x) R).*1 = R.*1.
Proof.
  intros HN Hh. destruct (chain_split h l R HN Hh) as (R1 & R2 & -> & Hon). rewrite Hon.
  destruct (edges_at R1 h [] l R2) as (E & E1 & E2). exists (List.hd NULL l), E. split_and!; [done|apply E1|apply E2| |].
  - rewrite !members_at. solve_Permutation.
  - by rewrite !fmap_app.
Qed.

(** ** The operations on states *)

Section operations.
Context (w : hstore) (R : list (loc * list loc)) (raw : list loc) (F : gmap loc status).
Hypothesis Hrel : hrel w (HState R raw F).

Lemma wp_del_state x (Q : unit -> hstore -> Prop) :
  x ∈ members R -> (forall w', hrel w' (HState (on_chains (drop_node x) R) raw (<[x := Poisoned]> F)) -> Q tt w') -> wp (hlist_del x) Q w.
Proof.
  intros Hx HQ. destruct (delete_place R x (members_nodup _ _ Hrel) Hx) as (c & y & E & H1 & H2 & H3).
  destruct (delete_facts w R _ raw F c x y E Hrel H1 H3) as (? & ? & ? & ? & ? & ? & _).
  eapply wp_hlist_del; [done..|]. intros w' Hch Hc Hy Hl. apply HQ.
  by apply (hrel_deleted w R _ raw F c x y E Hrel H1 H2 H3 (on_chains_heads _ _)).
Qed.

Lemma wp_del_init_state x (Q : unit -> hstore -> Prop) :
  x ∈ members R -> (forall w', hrel w' (HState (on_chains (drop_node x) R) raw (<[x := Clean]> F)) -> Q tt w') -> wp (hlist_del_init x) Q w.
Proof.
  intros Hx HQ. destruct (delete_place R x (members_nodup _ _ Hrel) Hx) as (c & y & E & H1 & H2 & H3).
  destruct (delete_facts w R _ raw F c x y E Hrel H1 H3) as (? & ? & ? & ? & ? & ? & _).
  eapply wp_del_init; [done..|]. intros w' Hch Hc Hy Hl. apply HQ.
  by apply (hrel_deleted w R _ raw F c x y E Hrel H1 H2 H3 (on_chains_heads _ _)).
Qed.

Lemma wp_add_head_state x h l s (Q : unit -> hstore -> Prop) :
  F !! x = Some s -> chain_of h R = Some l -> (forall w', hrel w' (HState (on_chain h (cons x) R) raw (delete x F)) -> Q tt w') ->
  wp (hlist_add_head x h) Q w.
Proof.
  intros Hx Hh HQ. destruct (head_place R x h l (heads_nodup _ _ Hrel) Hh) as (y & E & _ & H1 & H2 & H3 & H4).
  destruct (insert_facts w R raw F (FirstOf h) x y s E Hrel H1 Hx) as (? & Hy & ? & ? & _ & _ & _).
  eapply wp_add_head; [done|intros Hy0; rewrite (Hy Hy0); by eexists|done|done|]. intros w' Hi. apply HQ.
  by apply (hrel_inserted w R _ raw F (FirstOf h) x y s E Hrel H1 H2 H3 H4 Hx).
Qed.

Lemma wp_add_before_state x n s (Q : unit -> hstore -> Prop) :
  F !! x = Some s -> n ∈ members R -> (forall w', hrel w' (HState (on_chains (put_before x n) R) raw (delete x F)) -> Q tt w') ->
  wp (hlist_add_before x n) Q w.
Proof.
  intros Hx Hn HQ. destruct (before_place R x n (members_nodup _ _ Hrel) Hn) as (c & E & H1 & H2 & H3).
  destruct (insert_facts w R raw F c x n s E Hrel H1 Hx) as (? & Hy & ? & ? & ? & _ & _).
  pose proof (ds_members _ (hr_distinct _ _ Hrel)) as HN. cbn in HN. apply NoDup_cons in HN as [HN _].
  eapply wp_add_before; [done|apply Hy; by intros ->|done|done|done|]. intros w' Hi. apply HQ.
  by apply (hrel_inserted w R _ raw F c x n s E Hrel H1 H2 H3 (on_chains_heads _ _) Hx).
Qed.

Lemma wp_add_after_state x n s (Q : unit -> hstore -> Prop) :
  F !! x = Some s -> n ∈ members R -> (forall w', hrel w' (HState (on_chains (put_after n x) R) raw (delete x F)) -> Q tt w') ->
  wp (hlist_add_after n x) Q w.
Proof.
  intros Hx Hn HQ. destruct (after_place R n x (members_nodup _ _ Hrel) Hn) as (y & E & H1 & H2 & H3).
  destruct (insert_facts w R raw F (NextOf n) x y s E Hrel H1 Hx) as (? & Hy & ? & ? & ? & _ & _).
  eapply wp_add_after; [done|intros Hy0; rewrite (Hy Hy0); by eexists|done|done|congruence|]. intros w' Hi. apply HQ.
  by apply (hrel_inserted w R _ raw F (NextOf n) x y s E Hrel H1 H2 H3 (on_chains_heads _ _) Hx).
Qed.
End operations.

(** ** Heads and nodes that are initialised *)

Lemma hrel_same w w' S : hrel w S -> (forall c, cell w' c = cell w c) -> (forall n, back w' n = back w n) -> hrel w' S.
Proof.
  intros [H1 H2 H3 H4] Hc Hb. split; [| | |done].
  - intros c v Hin. rewrite Hc, Hb. by apply H1.
  - intros h Hh. rewrite Hc. auto.
  - intros x s Hx. destruct (H3 x s Hx) as [Ha Hs]. split; [by rewrite Hb|]. by rewrite Hc, Hb.
Qed.

Lemma chain_of_cons h h' l R : chain_of h ((h', l) :: R) = if decide (h' = h) then Some l else chain_of h R.
Proof. unfold chain_of. cbn. case_decide; [done|]. by destruct (list_find _ R) as [[i e]|]. Qed.

Lemma chain_of_on_chain h h' f R : h <> h' -> chain_of h (on_chain h' f R) = chain_of h R.
Proof.
  intros Hne. induction R as [|[h1 l1] R IH]; [done|]. unfold on_chain in *. cbn [fmap list_fmap fst snd].
  case_decide as Hd; rewrite !chain_of_cons, IH; [|done]. cbn in Hd. subst h1. by rewrite !decide_False by congruence.
Qed.

Section operations2.
Context (w : hstore) (R : list (loc * list loc)) (raw : list loc) (F : gmap loc status).
Hypothesis Hrel : hrel w (HState R raw F).

Lemma head_cell h l : chain_of h R = Some l -> cell w (FirstOf h) = Some (List.hd NULL l) /\
  (List.hd NULL l <> NULL -> is_Some (back w (List.hd NULL l))).
Proof.
  intros Hh. destruct (chain_split h l R (heads_nodup _ _ Hrel) Hh) as (R1 & R2 & HR & _).
  destruct (edges_at R1 h [] l R2) as (E & E1 & _). cbn in E1. rewrite <- HR in E1.
  destruct (edge_at w _ _ _ _ Hrel E1) as (H1 & H2 & _). split; [done|]. intros Hy. rewrite H2 by done. by eexists.
Qed.

Lemma wp_init_raw h (Q : unit -> hstore -> Prop) :
  h ∈ raw -> (forall w', hrel w' (HState ((h, []) :: R) (filter (fun y => y <> h) raw) F) -> Q tt w') -> wp (INIT_HLIST_HEAD h) Q w.
Proof.
  intros Hh HQ. pose proof (hr_distinct _ _ Hrel) as [Hd1 Hd2 Hd3]. cbn in Hd1, Hd2, Hd3.
  apply NoDup_app in Hd1 as (Hn1 & Hn2 & Hn3). apply wp_wr_first; [by apply (hr_raw _ _ Hrel)|]. intros w' Hw. apply HQ.
  assert (Hch : changed w w' [FirstOf h] []) by hchanged.
  eapply (hrel_step w w' (HState R raw F) _ [FirstOf h] []); [done|done|..]; cbn [chains raw_heads loose].
  - unfold all_edges. cbn. fold (all_edges R). apply good_cons. split_and!; [hsolve|done|].
    eapply good_rest; [apply (hr_good _ _ Hrel)|exact Hch|]. cbn. intros c v Hin. split; [|intros _; apply not_elem_of_nil].
    rewrite list_elem_of_singleton. intros ->. apply (list_elem_of_fmap_2 fst) in Hin. rewrite all_sources in Hin.
    apply elem_of_app in Hin as [(h' & [= <-] & Hh')%list_elem_of_fmap|(n & [=] & _)%list_elem_of_fmap]. by apply (Hn2 h).
  - by intros y [_ Hy]%list_elem_of_filter.
  - intros x s Hx. right. split_and!; [done| |apply not_elem_of_nil]. by rewrite list_elem_of_singleton.
  - split; cbn; [|done|done]. apply NoDup_cons. split.
    + rewrite not_elem_of_app. split; [intros Hin; by apply (Hn2 h)|]. by intros [? _]%list_elem_of_filter.
    + apply NoDup_app. split_and!; [done| |by apply NoDup_filter]. intros y Hy [_ Hy']%list_elem_of_filter. by apply (Hn2 y).
Qed.

Lemma wp_init_again h (Q : unit -> hstore -> Prop) :
  chain_of h R = Some [] -> (forall w', hrel w' (HState R raw F) -> Q tt w') -> wp (INIT_HLIST_HEAD h) Q w.
Proof.
  intros Hh HQ. destruct (head_cell h [] Hh) as [Hc _]. cbn [List.hd] in Hc. apply wp_wr_first; [by eexists|]. intros w' [Hw1 Hw2]. apply HQ.
  eapply hrel_same; [exact Hrel| |done]. intros c. rewrite Hw1. case_decide; congruence.
Qed.

Lemma loose_outside x s : F !! x = Some s -> x <> NULL /\ x ∉ members R.
Proof.
  intros Hx. rewrite <- not_elem_of_cons. intros Hin. pose proof (ds_loose _ (hr_distinct _ _ Hrel) x Hin) as E. cbn in E. congruence.
Qed.

Lemma wp_init_node x s (Q : unit -> hstore -> Prop) :
  F !! x = Some s -> (forall w', hrel w' (HState R raw (<[x := Clean]> F)) -> Q tt w') -> wp (INIT_HLIST_NODE x) Q w.
Proof.
  intros Hx HQ. destruct (hr_loose _ _ Hrel x s Hx) as [Hb _]. pose proof (proj2 (cell_back w x) Hb) as Hc.
  destruct (loose_outside x s Hx) as [Hx0 Hxm]. unfold INIT_HLIST_NODE. repeat hstep. apply HQ.
  assert (Hch : changed w w1 [NextOf x] [x]) by hchanged.
  eapply (hrel_step w w1 (HState R raw F) _ [NextOf x] [x]); [done|done|..]; cbn [chains raw_heads loose].
  - eapply good_rest; [apply (hr_good _ _ Hrel)|exact Hch|]. cbn. intros c v Hin. rewrite !list_elem_of_singleton. split.
    + intros ->. apply Hxm. by eapply edge_source.
    + intros Hv ->. apply Hxm. by eapply edge_target.
  - done.
  - intros z t [[<- <-]|[Hne Hz]]%lookup_insert_Some.
    + left. split; heval; [by eexists|]. split; hsolve.
    + right. rewrite !list_elem_of_singleton. split_and!; congruence.
  - pose proof (hr_distinct _ _ Hrel) as [Hd1 Hd2 Hd3]. split; cbn in *; [done|done|]. intros z Hz. rewrite lookup_insert_ne; [by apply Hd3|].
    intros <-. apply elem_of_cons in Hz as [|]; done.
Qed.

Lemma move_place old new l : chain_of old R = Some l -> chain_of new R = Some [] -> old <> new -> exists E,
  let R' := on_chain new (fun _ => l) (on_chain old (fun _ => []) R) in let y := List.hd NULL l in
  all_edges R ≡ₚ (FirstOf old, y) :: (FirstOf new, NULL) :: E /\ all_edges R' ≡ₚ (FirstOf old, NULL) :: (FirstOf new, y) :: E /\
  members R' ≡ₚ members R /\ R'.*1 = R.*1.
Proof.
  intros Ho Hn Hne. cbv zeta. pose proof (heads_nodup _ _ Hrel) as HN. cbn in HN.
  destruct (chain_split old l R HN Ho) as (R1 & R2 & HR & Hon). pose proof (Hon (fun _ => [])) as HonE. rewrite HonE.
  assert (Hn' : chain_of new (R1 ++ (old, []) :: R2) = Some []) by (rewrite <- HonE, chain_of_on_chain by congruence; done).
  assert (Hheads : (R1 ++ (old, []) :: R2).*1 = R.*1) by (rewrite HR, !fmap_app; done).
  destruct (chain_split new [] (R1 ++ (old, []) :: R2)) as (S1 & S2 & HS & HonS); [by rewrite Hheads|done|]. rewrite HonS.
  destruct (edges_at R1 old [] l R2) as (E1 & HE1 & _). destruct (edges_at S1 new [] l S2) as (E2 & HE2 & _). cbn in HE1, HE2.
  assert (HK : exists K, forall c, edges c l = (c, List.hd NULL l) :: K) by (destruct l as [|x l]; [by exists []|by exists (edges (NextOf x) l)]).
  destruct HK as [K HK].
  assert (Hgen : forall T1 h k T2, all_edges (T1 ++ (h, k) :: T2) ≡ₚ edges (FirstOf h) k ++ all_edges (T1 ++ T2)).
  { intros T1 h k T2. rewrite !all_edges_app. unfold all_edges at 2. cbn. fold (all_edges T2). solve_Permutation. }
  pose proof (Hgen R1 old [] R2) as G1. rewrite HS, Hgen in G1. cbn in G1.
  assert (HZ : exists Z, all_edges (R1 ++ R2) ≡ₚ (FirstOf new, NULL) :: Z).
  { apply elem_of_Permutation. assert (Hin : (FirstOf new, NULL) ∈ (FirstOf old, NULL) :: all_edges (R1 ++ R2)) by (rewrite <- G1; by left).
    apply elem_of_cons in Hin as [[=]|Hin]; [congruence|done]. }
  destruct HZ as [Z HZ]. exists (K ++ Z). split_and!.
  - rewrite HR, Hgen, HK, HZ. cbn. solve_Permutation.
  - rewrite Hgen, HK. cbn. rewrite HZ in G1.
    assert (G2 : all_edges (S1 ++ S2) ≡ₚ (FirstOf old, NULL) :: Z).
    { apply (Permutation_cons_inv (a := (FirstOf new, NULL))). rewrite G1. solve_Permutation. }
    rewrite G2. solve_Permutation.
  - rewrite HR, !members_at. f_equiv. transitivity (members (S1 ++ (new, []) :: S2)); [by rewrite members_at|].
    rewrite <- HS. by rewrite members_at.
  - rewrite <- Hheads, HS, !fmap_app. done.
Qed.

Lemma wp_move_state old new l (Q : unit -> hstore -> Prop) :
  chain_of old R = Some l -> chain_of new R = Some [] -> old <> new ->
  (forall w', hrel w' (HState (on_chain new (fun _ => l) (on_chain old (fun _ => []) R)) raw F) -> Q tt w') ->
  wp (hlist_move_list old new) Q w.
Proof.
  intros Ho Hn Hne HQ. destruct (head_cell old l Ho) as [Hc Hy]. destruct (head_cell new [] Hn) as [Hc' _].
  destruct (move_place old new l Ho Hn Hne) as (E & H1 & H2 & H3 & H4). set (y := List.hd NULL l) in *.
  eapply wp_move_list; [exact Hc|by eexists|exact Hy|done|]. intros w' Hch Hco Hcn Hby. apply HQ.
  destruct (edge_at w _ _ _ _ Hrel H1) as (_ & _ & [A1 A2] & G1). apply good_cons in G1 as (_ & _ & G1).
  assert (H1' : all_edges R ≡ₚ (FirstOf new, NULL) :: (FirstOf old, y) :: E) by (rewrite H1; solve_Permutation).
  destruct (edge_at w _ _ _ _ Hrel H1') as (_ & _ & [A3 _] & _).
  pose proof (hr_distinct _ _ Hrel) as [Hd1 Hd2 Hd3]. cbn in Hd1, Hd2, Hd3.
  eapply (hrel_step w w' (HState R raw F) _ [FirstOf old; FirstOf new] [y]); [done|done|..]; cbn [chains raw_heads loose].
  - eapply good_perm; [symmetry; exact H2|]. rewrite !good_cons. split_and!; try done.
    eapply good_rest; [exact G1|exact Hch|]. intros c v Hin. split.
    + rewrite !not_elem_of_cons. split_and!; [by apply (A1 c v); right|by apply (A3 c v); right|apply not_elem_of_nil].
    + intros Hv. rewrite list_elem_of_singleton. intros ->. by apply (A2 c y); [right| |].
  - done.
  - intros x s Hx. right. destruct (loose_outside x s Hx) as [Hx0 Hxm]. split_and!; [done| |].
    + rewrite !not_elem_of_cons. split_and!; [done|done|apply not_elem_of_nil].
    + rewrite list_elem_of_singleton. intros ->. apply Hxm. apply (edge_target R (FirstOf old)); [rewrite H1; by left|done].
  - split; cbn; [by rewrite H4|by rewrite H3|]. intros x Hx. apply Hd3. by rewrite <- H3.
Qed.
End operations2.

(** ** Traversals *)

Lemma wp_hbudget w (Q : nat -> hstore -> Prop) : Q (S (size (hnodes w))) w -> wp hbudget Q w.
Proof. done. Qed.

Lemma nodes_size w l : NoDup l -> (forall x, x ∈ l -> is_Some (back w x)) -> (length l <= size (hnodes w))%nat.
Proof.
  intros HN H. rewrite <- size_dom, <- (size_list_to_set (C := gset loc) l) by done. apply subseteq_size.
  intros x Hx. apply elem_of_list_to_set in Hx. apply elem_of_dom. destruct (H x Hx) as [_ (n & Hn & _)%fmap_Some]. by eexists.
Qed.

Section walks.
Context (w : hstore) (S : hstate).
Hypothesis Hrel : hrel w S.

Lemma member_alive x : x ∈ members (chains S) -> is_Some (back w x) /\ x <> NULL.
Proof.
  intros Hx. destruct (delete_place (chains S) x (members_nodup _ _ Hrel) Hx) as (c & y & E & H1 & _).
  pose proof (ds_members _ (hr_distinct _ _ Hrel)) as HN. apply NoDup_cons in HN as [HN _].
  assert (Hx0 : x <> NULL) by (by intros ->). destruct (edge_at w S c x _ Hrel H1) as (_ & H2 & _). rewrite H2 by done. split; [by eexists|done].
Qed.

Lemma suffix_alive R1 h A B R2 : chains S = R1 ++ (h, A ++ B) :: R2 ->
  NoDup B /\ forall x, x ∈ B -> is_Some (back w x) /\ x <> NULL.
Proof.
  intros HR. pose proof (members_nodup _ _ Hrel) as HN. split.
  - rewrite HR, members_at in HN. apply NoDup_app in HN as (HN & _ & _). by apply NoDup_app in HN as (_ & _ & HN).
  - intros x Hx. apply member_alive. rewrite HR, members_at. apply elem_of_app. left. apply elem_of_app. by right.
Qed.

Lemma next_cell R1 h A x B R2 : chains S = R1 ++ (h, A ++ x :: B) :: R2 -> cell w (NextOf x) = Some (List.hd NULL B).
Proof.
  intros HR. destruct (edges_at R1 h A B R2) as (E & _ & HE). specialize (HE x). rewrite <- HR in HE.
  assert (HE' : all_edges (chains S) ≡ₚ (NextOf x, List.hd NULL B) :: (end_cell (FirstOf h) A, x) :: E) by (rewrite HE; solve_Permutation).
  exact (proj1 (edge_at w S _ _ _ Hrel HE')).
Qed.

Lemma wp_walk_from R1 h A B R2 a (Q : list loc -> hstore -> Prop) :
  chains S = R1 ++ (h, A ++ B) :: R2 -> Q (a ++ B) w -> wp (walk_from collect (List.hd NULL B) a) Q w.
Proof.
  intros HR HQ. destruct (suffix_alive R1 h A B R2 HR) as [HN Halive].
  unfold walk_from. apply wp_bind, wp_hbudget.
  pose proof (nodes_size w B HN (fun x Hx => proj1 (Halive x Hx))) as Hn.
  assert (Hf : (length B < Datatypes.S (size (hnodes w)))%nat) by lia. revert Hf. generalize (Datatypes.S (size (hnodes w))). clear HN Hn.
  revert A a HR HQ Halive. induction B as [|x B IH]; intros A a HR HQ Halive n Hf; (destruct n as [|n]; [cbn in Hf; lia|]); cbn [loop List.hd]; apply wp_bind.
  - rewrite decide_True by done. apply wp_ret, wp_ret. by rewrite app_nil_r in HQ.
  - destruct (Halive x) as [_ Hx0]; [by left|]. rewrite decide_False by done. pose proof (next_cell R1 h A x B R2 HR) as Hx.
    apply wp_bind. eapply wp_rd_hnext; [exact Hx|]. apply wp_bind. unfold collect. apply wp_ret. apply wp_bind.
    eapply wp_rd_hnext; [exact Hx|]. apply wp_ret. apply (IH (A ++ [x])).
    + by rewrite <- app_assoc.
    + by rewrite <- app_assoc.
    + intros z Hz. apply Halive. by right.
    + cbn in Hf. lia.
Qed.
End walks.

Lemma foldr_poison F x l : foldr (fun x => <[x := Poisoned]>) (<[x := Poisoned]> F) l = <[x := Poisoned]> (foldr (fun x => <[x := Poisoned]>) F l : gmap loc status).
Proof.
  induction l as [|y l IH]; [done|]. cbn. rewrite IH. destruct (decide (x = y)) as [->|Hne]; [by rewrite !insert_insert_eq|by rewrite insert_insert_ne].
Qed.

(** The loop that takes out the nodes selected by [p] *)
Lemma wp_sweep p raw R1 h R2 w K B F n (Q : unit -> hstore -> Prop) :
  hrel w (HState (R1 ++ (h, K ++ B) :: R2) raw F) -> (length B < n)%nat ->
  (forall w', hrel w' (HState (R1 ++ (h, K ++ filter (fun x => p x = false) B) :: R2) raw
     (foldr (fun x => <[x := Poisoned]>) F (filter (fun x => p x = true) B))) -> Q tt w') ->
  wp (loop n (fun '(pos, a) =>
    if decide (pos = NULL) then mret (inr a)
    else
      nx ← rd next pos;
      a ← sweep p pos a;
      mret (inl (nx, a))) (List.hd NULL B, tt)) Q w.
Proof.
  revert w K F n Q. induction B as [|x B IH]; intros w K F n Q Hrel Hn HQ; (destruct n as [|n]; [cbn in Hn; lia|]); cbn [loop List.hd]; apply wp_bind.
  - rewrite decide_True by done. apply wp_ret, wp_ret, HQ. done.
  - destruct (suffix_alive w _ Hrel R1 h K (x :: B) R2 eq_refl) as [_ Halive]. destruct (Halive x) as [_ Hx0]; [by left|].
    rewrite decide_False by done. apply wp_bind. eapply wp_rd_hnext; [by apply (next_cell w _ Hrel R1 h K x B R2)|]. apply wp_bind. unfold sweep.
    cbn [length] in Hn. rewrite !filter_cons in HQ. destruct (p x) eqn:Ep.
    + eapply wp_del_state; [exact Hrel| |].
      { rewrite members_at. apply elem_of_app. left. apply elem_of_app. right. by left. }
      intros w1 Hrel1. apply wp_ret.
      destruct (on_chains_at (drop_node x) x R1 h K B R2 (drop_node_id x) (members_nodup _ _ Hrel)) as (E & HK & HB).
      rewrite E, drop_node_at in Hrel1 by done. eapply IH; [exact Hrel1|lia|]. intros w2 Hrel2. apply HQ.
      rewrite decide_False by congruence. rewrite decide_True by done. cbn [foldr]. by rewrite foldr_poison in Hrel2.
    + apply wp_ret, wp_ret. eapply (IH w (K ++ [x])); [by rewrite <- app_assoc|lia|]. intros w2 Hrel2. apply HQ.
      rewrite decide_True by done. rewrite decide_False by congruence. by rewrite <- app_assoc in Hrel2.
Qed.

(** * The contract *)

Lemma behind_member R x : NoDup (members R) -> forall R1 h A B R2, R = R1 ++ (h, A ++ x :: B) :: R2 -> R ≫= (fun e => behind x e.2) = B.
Proof.
  intros HN R1 h A B R2 ->. rewrite members_at in HN. apply NoDup_app in HN as (HAB & Hd & _).
  assert (Hx : x ∉ members R1 ++ members R2) by (apply Hd, elem_of_app; right; by left). rewrite not_elem_of_app in Hx.
  assert (Hnone : forall R, x ∉ members R -> R ≫= (fun e : loc * list loc => behind x e.2) = []).
  { induction R as [|[h' l] R IH]; [done|]. unfold members in *. cbn. intros [Hl HR]%not_elem_of_app. by rewrite behind_none, IH. }
  rewrite bind_app. cbn. rewrite (Hnone R1), (Hnone R2) by tauto. rewrite behind_at; [by rewrite app_nil_r|].
  apply NoDup_app in HAB as (_ & HA & _). intros HxA. apply (HA x HxA). by left.
Qed.

Lemma wp_hexec w S o a S' (Q : hanswer -> hstore -> Prop) :
  hrel w S -> hstep o S = Some (a, S') -> (forall w', hrel w' S' -> Q a w') -> wp (hexec o) Q w.
Proof.
  intros Hrel Hstep HQ. destruct S as [R raw F]. destruct o; cbn [hexec hstep] in *; apply wp_bind.
  - destruct (decide (h ∈ raw)); [|destruct (decide (chain_of h R = Some [])); [|done]]; injection Hstep as <- <-.
    + eapply wp_init_raw; [exact Hrel|done|]. intros w' Hw. by apply wp_ret, HQ.
    + eapply wp_init_again; [exact Hrel|done|]. intros w' Hw. by apply wp_ret, HQ.
  - destruct (F !! x) as [s|] eqn:Ex; [|done]. injection Hstep as <- <-. eapply wp_init_node; [exact Hrel|exact Ex|].
    intros w' Hw. by apply wp_ret, HQ.
  - unfold hlist_unhashed. apply wp_bind. destruct (decide (x ∈ members R)) as [Hx|Hx].
    + injection Hstep as <- <-. destruct (delete_place R x (members_nodup _ _ Hrel) Hx) as (c & y & E & H1 & _ & H3).
      destruct (delete_facts w R _ raw F c x y E Hrel H1 H3) as (_ & _ & Hb & _). eapply wp_rd_pprev; [exact Hb|]. by apply wp_ret, wp_ret, HQ.
    + destruct (F !! x) as [[]|] eqn:Ex; try done; injection Hstep as <- <-; destruct (hr_loose _ _ Hrel x _ Ex) as [_ Hs].
      * eapply wp_rd_pprev; [apply Hs|]. by apply wp_ret, wp_ret, HQ.
      * eapply wp_rd_pprev; [apply Hs|]. by apply wp_ret, wp_ret, HQ.
  - destruct (chain_of h R) as [l|] eqn:Eh; [|done]. injection Hstep as <- <-. destruct (head_cell w R raw F Hrel h l Eh) as [Hc _].
    unfold hlist_empty. apply wp_bind. eapply wp_rd_first; [exact Hc|]. apply wp_ret, wp_ret.
    replace (bool_decide (List.hd NULL l = NULL)) with (bool_decide (l = [])); [by apply HQ|]. apply bool_decide_ext.
    destruct l as [|x l]; [done|]. cbn. split; [done|]. intros Hx0. exfalso. destruct (chain_split h _ R (heads_nodup _ _ Hrel) Eh) as (R1 & R2 & HR & _).
    destruct (suffix_alive w _ Hrel R1 h [] (x :: l) R2) as [_ Ha]; [done|]. destruct (Ha x) as [_ Hx]; [by left|done].
  - destruct (decide (x ∈ members R)); [|done]. injection Hstep as <- <-. eapply wp_del_state; [exact Hrel|done|]. intros w' Hw. by apply wp_ret, HQ.
  - destruct (decide (x ∈ members R)) as [Hx|Hx].
    + injection Hstep as <- <-. eapply wp_del_init_state; [exact Hrel|done|]. intros w' Hw. by apply wp_ret, HQ.
    + destruct (decide (F !! x = Some Clean)) as [Ex|]; [|done]. injection Hstep as <- <-. destruct (hr_loose _ _ Hrel x _ Ex) as [_ [_ Hb]].
      unfold hlist_del_init, hlist_unhashed. apply wp_bind, wp_bind. eapply wp_rd_pprev; [exact Hb|]. by apply wp_ret, wp_ret, wp_ret, HQ.
  - destruct (F !! x) as [s|] eqn:Ex; [|done]. destruct (chain_of h R) as [l|] eqn:Eh; [|done]. injection Hstep as <- <-.
    eapply wp_add_head_state; [exact Hrel|done|done|]. intros w' Hw. by apply wp_ret, HQ.
  - destruct (decide (n ∈ members R)); [|done]. destruct (F !! x) as [s|] eqn:Ex; [|done]. injection Hstep as <- <-.
    eapply wp_add_before_state; [exact Hrel|done|done|]. intros w' Hw. by apply wp_ret, HQ.
  - destruct (decide (n ∈ members R)); [|done]. destruct (F !! x) as [s|] eqn:Ex; [|done]. injection Hstep as <- <-.
    eapply wp_add_after_state; [exact Hrel|done|done|]. intros w' Hw. by apply wp_ret, HQ.
  - destruct (chain_of old R) as [l|] eqn:Eo; [|done]. destruct (chain_of new R) as [[|]|] eqn:En; [|done|done].
    destruct (decide (old = new)); [done|]. injection Hstep as <- <-. eapply wp_move_state; [exact Hrel|done|done|done|]. intros w' Hw. by apply wp_ret, HQ.
  - destruct (chain_of h R) as [l|] eqn:Eh; [|done]. injection Hstep as <- <-. destruct (head_cell w R raw F Hrel h l Eh) as [Hc _].
    destruct (chain_split h l R (heads_nodup _ _ Hrel) Eh) as (R1 & R2 & HR & _). unfold hlist_for_each. apply wp_bind. eapply wp_rd_first; [exact Hc|].
    eapply (wp_walk_from w _ Hrel R1 h [] l R2); [done|]. by apply wp_ret, HQ.
  - destruct (decide (x ∈ members R)) as [Hx|]; [|done]. injection Hstep as <- <-. destruct (member_split x R Hx) as (R1 & h & A & B & R2 & HR).
    rewrite (behind_member R x (members_nodup _ _ Hrel) R1 h A B R2 HR) in HQ. unfold hlist_for_each_entry_continue. apply wp_bind.
    eapply wp_rd_hnext; [by apply (next_cell w _ Hrel R1 h A x B R2)|].
    eapply (wp_walk_from w _ Hrel R1 h (A ++ [x]) B R2); [cbn; by rewrite <- app_assoc|]. by apply wp_ret, HQ.
  - destruct (decide (x ∈ members R)) as [Hx|]; [|done]. injection Hstep as <- <-. destruct (member_split x R Hx) as (R1 & h & A & B & R2 & HR).
    rewrite (behind_member R x (members_nodup _ _ Hrel) R1 h A B R2 HR) in HQ. unfold hlist_for_each_entry_from.
    apply (wp_walk_from w _ Hrel R1 h A (x :: B) R2); [done|]. by apply wp_ret, HQ.
  - destruct (chain_of h R) as [l|] eqn:Eh; [|done]. injection Hstep as <- <-. destruct (head_cell w R raw F Hrel h l Eh) as [Hc _].
    destruct (chain_split h l R (heads_nodup _ _ Hrel) Eh) as (R1 & R2 & HR & Hon). rewrite Hon in HQ.
    unfold hlist_for_each_entry_safe, hlist_for_each_safe. apply wp_bind. eapply wp_rd_first; [exact Hc|].
    destruct (suffix_alive w _ Hrel R1 h [] l R2 HR) as [HN Ha]. pose proof (nodes_size w l HN (fun x Hx => proj1 (Ha x Hx))) as Hn.
    apply wp_bind, wp_hbudget. eapply (wp_sweep p raw R1 h R2 w [] l F); [cbn [app]; by rewrite <- HR|lia|]. intros w' Hw. by apply wp_ret, HQ.
Qed.

(** C9: Every script of calls on hlists that the machine of lists can run, the
    code can run, with the same answers: nodes are initialised, added at the
    head, before and behind others, taken out in both ways, whole lists are
    moved, and lists are walked, also while nodes are taken out. *)
Theorem hlist_refines w S ops l S' :
  hrel w S -> hrun ops S = Some (l, S') -> exists w', hexec_all ops w = Some (l, w') /\ hrel w' S'.
Proof.
  intros Hrel Hrun. cut (wp (hexec_all ops) (fun l' w' => l' = l /\ hrel w' S') w).
  { intros (l' & w' & E & -> & Hw)%wp_run. by exists w'. }
  revert w S l Hrel Hrun. induction ops as [|o ops IH]; intros w S l Hrel Hrun; cbn [hexec_all hrun] in *.
  - injection Hrun as <- <-. by apply wp_ret.
  - destruct (hstep o S) as [[a S1]|] eqn:E1; [|done]. cbn in Hrun. destruct (hrun ops S1) as [[l1 S2]|] eqn:E2; [|done].
    cbn in Hrun. injection Hrun as <- <-. apply wp_bind. eapply wp_hexec; [exact Hrel|exact E1|]. intros w1 Hw1.
    apply wp_bind. eapply wp_mono; [by eapply IH|]. intros l' w2 [-> Hw2]. by apply wp_ret.
Qed.

(** * A concrete script *)

(** Memory that nothing is known of, but for the addresses *)
Lemma hrel_raw w (hs xs : list loc) :
  NoDup hs -> NULL ∉ xs -> (forall h, h ∈ hs -> is_Some (heads w !! h)) -> (forall x, x ∈ xs -> is_Some (hnodes w !! x)) ->
  hrel w (HState [] hs (list_to_map ((fun x => (x, Raw)) <$> xs))).
Proof.
  intros HN H0 Hh Hx. split; cbn.
  - intros c v Hin. by apply not_elem_of_nil in Hin.
  - intros h [r Hr]%Hh. cbn. by rewrite Hr.
  - intros x s (y & [= -> ->] & [r Hr]%Hx)%elem_of_list_to_map_2%list_elem_of_fmap. split; [|done]. unfold back. by rewrite Hr.
  - split; cbn; [done|apply NoDup_singleton|]. intros x ->%list_elem_of_singleton. apply not_elem_of_list_to_map_1.
    rewrite <- list_fmap_compose. unfold compose. cbn. by rewrite list_fmap_id.
Qed.

Definition demo_store : hstore :=
  HStore (<[1 := Head 77]> (<[2 := Head 78]> ∅))
    (foldr (fun x => <[x := Node 79 Nowhere]>) ∅ [10; 11; 12; 13; 14]).

Definition demo_script : list hop :=
  [InitHead 1; InitHead 2; Empty 1; InitNode 13; Unhashed 13; AddHead 10 1; AddHead 11 1; AddBefore 12 11; AddAfter 10 13; Walk 1;
   AddBefore 14 10; Del 11; Unhashed 11; DelInit 12; DelInit 12; WalkFrom 10; WalkAfter 14; MoveList 1 2; AddHead 12 1;
   Sweep (fun x => x =? 10) 2; Walk 1; Walk 2; Empty 1].

Definition demo_answers : list hanswer :=
  [HDone; HDone; HFlag true; HDone; HFlag true; HDone; HDone; HDone; HDone; HNodes [12; 11; 10; 13];
   HDone; HDone; HFlag false; HDone; HDone; HNodes [10; 13]; HNodes [10; 13]; HDone; HDone;
   HDone; HNodes [12]; HNodes [14; 13]; HFlag false].

Lemma hlist_refines_witness :
  exists w', hexec_all demo_script demo_store = Some (demo_answers, w') /\
    hrel w' (HState [(2, [14; 13]); (1, [12])] [] (<[10 := Poisoned]> (<[11 := Poisoned]> ∅))).
Proof.
  apply (hlist_refines demo_store (HState [] [1; 2] (list_to_map ((fun x => (x, Raw)) <$> [10; 11; 12; 13; 14])))).
  - apply hrel_raw.
    + apply (bool_decide_unpack _). by vm_compute.
    + apply (bool_decide_unpack _). by vm_compute.
    + intros h Hh. repeat (apply elem_of_cons in Hh as [->|Hh]; [by eexists|]). by apply not_elem_of_nil in Hh.
    + intros x Hx. repeat (apply elem_of_cons in Hx as [->|Hx]; [by eexists|]). by apply not_elem_of_nil in Hx.
  - vm_compute. reflexivity.
Defined.
