(* ===== verification/Checksum.v ===== *)
(** The checksums of src/glib-2.56.1/glib/gchecksum.c: MD5, SHA-1, SHA-256,
    SHA-384 and SHA-512, and the GChecksum object.

    Words are integers kept in range by [u32] and [u64]; buffers are lists of
    bytes. The model is that of a little-endian machine: [md5_byte_reverse] is
    empty and [sha_byte_reverse] swaps the bytes of every word. *)
From S2P Require Import Prelude.

Open Scope c_scope.

(** * Words in memory *)

Definition byte_at (data : list Z) (i : nat) : Z := data !!! i.

(** The words of a buffer, as a little-endian machine loads and stores them. *)
Definition load_le32 (data : list Z) (i : nat) : Z :=
  byte_at data i .| (byte_at data (i + 1) .<< 8) .|
  (byte_at data (i + 2) .<< 16) .| (byte_at data (i + 3) .<< 24).

Definition words_le32 (n : nat) (data : list Z) : list Z :=
  (fun k => load_le32 data (4 * k)) <$> seq 0 n.

Definition store_le32 (w : Z) : list Z := [u8 w; u8 (w .>> 8); u8 (w .>> 16); u8 (w .>> 24)].

Definition bytes_le32 (ws : list Z) : list Z := ws ≫= store_le32.

(** memcpy (data + off, bytes, length of bytes) *)
Definition memcpy (data : list Z) (off : nat) (bytes : list Z) : list Z :=
  take off data ++ bytes ++ drop (off + length bytes) data.

Definition memset (data : list Z) (off : nat) (v : Z) (n : nat) : list Z :=
  memcpy data off (replicate n v).

(** GUINT32_SWAP_LE_BE *)
Definition swap32 (v : Z) : Z :=
  ((v .& 0x000000ff) .<< 24) .| ((v .& 0x0000ff00) .<< 8) .|
  ((v .& 0x00ff0000) .>> 8) .| ((v .& 0xff000000) .>> 24).

(** sha_byte_reverse on the first [n] words. *)
Definition sha_byte_reverse (ws : list Z) (n : nat) : list Z :=
  (swap32 <$> take n ws) ++ drop n ws.

(** * Register files

    The transformations name their working variables by position: the C code
    unrolls the rounds and renames the variables from one line to the next. *)
Definition rA : nat := 0.
Definition rB : nat := 1.
Definition rC : nat := 2.
Definition rD : nat := 3.
Definition rE : nat := 4.
Definition rF : nat := 5.
Definition rG : nat := 6.
Definition rH : nat := 7.

(** The final additions [buf[i] += r[i]]. *)
Definition add_into (w : Z) (buf regs : list Z) : list Z :=
  zip_with (fun x y => wrap w (x + y)) buf regs.

(** * The sums with 64-byte blocks *)

(** Md5sum, Sha1sum and Sha256sum. *)
Record sum32 := Sum32 {
  buf : list Z;       (** guint32 [] *)
  bits0 : Z;          (** guint32 *)
  bits1 : Z;          (** guint32 *)
  data : list Z;      (** guchar [64] *)
  digest : list Z;    (** guchar [] *)
}.

Definition set_buf v s := Sum32 v (bits0 s) (bits1 s) (data s) (digest s).
Definition set_bits v0 v1 s := Sum32 (buf s) v0 v1 (data s) (digest s).
Definition set_data v s := Sum32 (buf s) (bits0 s) (bits1 s) v (digest s).
Definition set_digest v s := Sum32 (buf s) (bits0 s) (bits1 s) (data s) v.

(** ** MD5 *)

Definition MD5_DATASIZE : nat := 64.

Definition md5_sum_init (md5 : sum32) : sum32 :=
  set_bits 0 0 (set_buf [0x67452301; 0xefcdab89; 0x98badcfe; 0x10325476] md5).

Definition md5_F1 (x y z : Z) : Z := z .^ (x .& (y .^ z)).
Definition md5_F2 (x y z : Z) : Z := md5_F1 z x y.
Definition md5_F3 (x y z : Z) : Z := x .^ y .^ z.
Definition md5_F4 (x y z : Z) : Z := y .^ (x .| u32 (Z.lnot z)).

(** md5_step (f, w, x, y, z, in[k] + t, s) *)
Definition md5_step (f : Z -> Z -> Z -> Z) (w x y z : nat) (k : nat) (t s : Z)
    (inp : list Z) (r : list Z) : list Z :=
  let v := u32 (r !!! w + (f (r !!! x) (r !!! y) (r !!! z) + u32 (inp !!! k + t))) in
  let v := u32 (v .<< s) .| (v .>> (32 - s)) in
  <[w := u32 (v + r !!! x)]> r.

Definition md5_lines : list (list Z -> list Z -> list Z) := [
  md5_step md5_F1 rA rB rC rD 0 0xd76aa478 7;
  md5_step md5_F1 rD rA rB rC 1 0xe8c7b756 12;
  md5_step md5_F1 rC rD rA rB 2 0x242070db 17;
  md5_step md5_F1 rB rC rD rA 3 0xc1bdceee 22;
  md5_step md5_F1 rA rB rC rD 4 0xf57c0faf 7;
  md5_step md5_F1 rD rA rB rC 5 0x4787c62a 12;
  md5_step md5_F1 rC rD rA rB 6 0xa8304613 17;
  md5_step md5_F1 rB rC rD rA 7 0xfd469501 22;
  md5_step md5_F1 rA rB rC rD 8 0x698098d8 7;
  md5_step md5_F1 rD rA rB rC 9 0x8b44f7af 12;
  md5_step md5_F1 rC rD rA rB 10 0xffff5bb1 17;
  md5_step md5_F1 rB rC rD rA 11 0x895cd7be 22;
  md5_step md5_F1 rA rB rC rD 12 0x6b901122 7;
  md5_step md5_F1 rD rA rB rC 13 0xfd987193 12;
  md5_step md5_F1 rC rD rA rB 14 0xa679438e 17;
  md5_step md5_F1 rB rC rD rA 15 0x49b40821 22;
  md5_step md5_F2 rA rB rC rD 1 0xf61e2562 5;
  md5_step md5_F2 rD rA rB rC 6 0xc040b340 9;
  md5_step md5_F2 rC rD rA rB 11 0x265e5a51 14;
  md5_step md5_F2 rB rC rD rA 0 0xe9b6c7aa 20;
  md5_step md5_F2 rA rB rC rD 5 0xd62f105d 5;
  md5_step md5_F2 rD rA rB rC 10 0x02441453 9;
  md5_step md5_F2 rC rD rA rB 15 0xd8a1e681 14;
  md5_step md5_F2 rB rC rD rA 4 0xe7d3fbc8 20;
  md5_step md5_F2 rA rB rC rD 9 0x21e1cde6 5;
  md5_step md5_F2 rD rA rB rC 14 0xc33707d6 9;
  md5_step md5_F2 rC rD rA rB 3 0xf4d50d87 14;
  md5_step md5_F2 rB rC rD rA 8 0x455a14ed 20;
  md5_step md5_F2 rA rB rC rD 13 0xa9e3e905 5;
  md5_step md5_F2 rD rA rB rC 2 0xfcefa3f8 9;
  md5_step md5_F2 rC rD rA rB 7 0x676f02d9 14;
  md5_step md5_F2 rB rC rD rA 12 0x8d2a4c8a 20;
  md5_step md5_F3 rA rB rC rD 5 0xfffa3942 4;
  md5_step md5_F3 rD rA rB rC 8 0x8771f681 11;
  md5_step md5_F3 rC rD rA rB 11 0x6d9d6122 16;
  md5_step md5_F3 rB rC rD rA 14 0xfde5380c 23;
  md5_step md5_F3 rA rB rC rD 1 0xa4beea44 4;
  md5_step md5_F3 rD rA rB rC 4 0x4bdecfa9 11;
  md5_step md5_F3 rC rD rA rB 7 0xf6bb4b60 16;
  md5_step md5_F3 rB rC rD rA 10 0xbebfbc70 23;
  md5_step md5_F3 rA rB rC rD 13 0x289b7ec6 4;
  md5_step md5_F3 rD rA rB rC 0 0xeaa127fa 11;
  md5_step md5_F3 rC rD rA rB 3 0xd4ef3085 16;
  md5_step md5_F3 rB rC rD rA 6 0x04881d05 23;
  md5_step md5_F3 rA rB rC rD 9 0xd9d4d039 4;
  md5_step md5_F3 rD rA rB rC 12 0xe6db99e5 11;
  md5_step md5_F3 rC rD rA rB 15 0x1fa27cf8 16;
  md5_step md5_F3 rB rC rD rA 2 0xc4ac5665 23;
  md5_step md5_F4 rA rB rC rD 0 0xf4292244 6;
  md5_step md5_F4 rD rA rB rC 7 0x432aff97 10;
  md5_step md5_F4 rC rD rA rB 14 0xab9423a7 15;
  md5_step md5_F4 rB rC rD rA 5 0xfc93a039 21;
  md5_step md5_F4 rA rB rC rD 12 0x655b59c3 6;
  md5_step md5_F4 rD rA rB rC 3 0x8f0ccc92 10;
  md5_step md5_F4 rC rD rA rB 10 0xffeff47d 15;
  md5_step md5_F4 rB rC rD rA 1 0x85845dd1 21;
  md5_step md5_F4 rA rB rC rD 8 0x6fa87e4f 6;
  md5_step md5_F4 rD rA rB rC 15 0xfe2ce6e0 10;
  md5_step md5_F4 rC rD rA rB 6 0xa3014314 15;
  md5_step md5_F4 rB rC rD rA 13 0x4e0811a1 21;
  md5_step md5_F4 rA rB rC rD 4 0xf7537e82 6;
  md5_step md5_F4 rD rA rB rC 11 0xbd3af235 10;
  md5_step md5_F4 rC rD rA rB 2 0x2ad7d2bb 15;
  md5_step md5_F4 rB rC rD rA 9 0xeb86d391 21].

Definition md5_transform (buf inp : list Z) : list Z :=
  add_into 32 buf (foldl (fun r line => line inp r) buf md5_lines).

(** The call [md5_transform (md5->buf, md5->u.data32)]. *)
Definition md5_process (md5 : sum32) : sum32 :=
  set_buf (md5_transform (buf md5) (words_le32 16 (data md5))) md5.

(** ** SHA-1 *)

Definition sha1_sum_init (sha1 : sum32) : sum32 :=
  set_bits 0 0 (set_buf [0x67452301; 0xEFCDAB89; 0x98BADCFE; 0x10325476; 0xC3D2E1F0] sha1).

Definition sha1_f1 (x y z : Z) : Z := z .^ (x .& (y .^ z)).
Definition sha1_f2 (x y z : Z) : Z := x .^ y .^ z.
Definition sha1_f3 (x y z : Z) : Z := (x .& y) .| (z .& (x .| y)).
Definition sha1_f4 (x y z : Z) : Z := x .^ y .^ z.

Definition K1 : Z := 0x5A827999.
Definition K2 : Z := 0x6ED9EBA1.
Definition K3 : Z := 0x8F1BBCDC.
Definition K4 : Z := 0xCA62C1D6.

Definition ROTL (n x : Z) : Z := u32 (x .<< n) .| (x .>> (32 - n)).

(** An argument of a sub-round that reads, or first updates, the words [W]. *)
Definition operand : Type := list Z -> Z * list Z.

Definition word (i : nat) : operand := fun W => (W !!! i, W).

(** [expand (W, i)]: the assigned index is [i & 15]. *)
Definition expand (i : nat) : operand := fun W =>
  let at_ j := W !!! Z.to_nat (Z.land j 15) in
  let i := Z.of_nat i in
  let v := ROTL 1 (at_ i .^ at_ (i - 14) .^ at_ (i - 8) .^ at_ (i - 3)) in
  (v, <[Z.to_nat (Z.land i 15) := v]> W).

Definition subRound (a b c d e : nat) (f : Z -> Z -> Z -> Z) (k : Z) (x : operand)
    (s : list Z * list Z) : list Z * list Z :=
  let (r, W) := s in
  let (v, W) := x W in
  let r := <[e := u32 (r !!! e + (ROTL 5 (r !!! a) + f (r !!! b) (r !!! c) (r !!! d) + k + v))]> r in
  let r := <[b := ROTL 30 (r !!! b)]> r in
  (r, W).

Definition sha1_lines : list (list Z * list Z -> list Z * list Z) := [
  subRound rA rB rC rD rE sha1_f1 K1 (word 0);
  subRound rE rA rB rC rD sha1_f1 K1 (word 1);
  subRound rD rE rA rB rC sha1_f1 K1 (word 2);
  subRound rC rD rE rA rB sha1_f1 K1 (word 3);
  subRound rB rC rD rE rA sha1_f1 K1 (word 4);
  subRound rA rB rC rD rE sha1_f1 K1 (word 5);
  subRound rE rA rB rC rD sha1_f1 K1 (word 6);
  subRound rD rE rA rB rC sha1_f1 K1 (word 7);
  subRound rC rD rE rA rB sha1_f1 K1 (word 8);
  subRound rB rC rD rE rA sha1_f1 K1 (word 9);
  subRound rA rB rC rD rE sha1_f1 K1 (word 10);
  subRound rE rA rB rC rD sha1_f1 K1 (word 11);
  subRound rD rE rA rB rC sha1_f1 K1 (word 12);
  subRound rC rD rE rA rB sha1_f1 K1 (word 13);
  subRound rB rC rD rE rA sha1_f1 K1 (word 14);
  subRound rA rB rC rD rE sha1_f1 K1 (word 15);
  subRound rE rA rB rC rD sha1_f1 K1 (expand 16);
  subRound rD rE rA rB rC sha1_f1 K1 (expand 17);
  subRound rC rD rE rA rB sha1_f1 K1 (expand 18);
  subRound rB rC rD rE rA sha1_f1 K1 (expand 19);
  subRound rA rB rC rD rE sha1_f2 K2 (expand 20);
  subRound rE rA rB rC rD sha1_f2 K2 (expand 21);
  subRound rD rE rA rB rC sha1_f2 K2 (expand 22);
  subRound rC rD rE rA rB sha1_f2 K2 (expand 23);
  subRound rB rC rD rE rA sha1_f2 K2 (expand 24);
  subRound rA rB rC rD rE sha1_f2 K2 (expand 25);
  subRound rE rA rB rC rD sha1_f2 K2 (expand 26);
  subRound rD rE rA rB rC sha1_f2 K2 (expand 27);
  subRound rC rD rE rA rB sha1_f2 K2 (expand 28);
  subRound rB rC rD rE rA sha1_f2 K2 (expand 29);
  subRound rA rB rC rD rE sha1_f2 K2 (expand 30);
  subRound rE rA rB rC rD sha1_f2 K2 (expand 31);
  subRound rD rE rA rB rC sha1_f2 K2 (expand 32);
  subRound rC rD rE rA rB sha1_f2 K2 (expand 33);
  subRound rB rC rD rE rA sha1_f2 K2 (expand 34);
  subRound rA rB rC rD rE sha1_f2 K2 (expand 35);
  subRound rE rA rB rC rD sha1_f2 K2 (expand 36);
  subRound rD rE rA rB rC sha1_f2 K2 (expand 37);
  subRound rC rD rE rA rB sha1_f2 K2 (expand 38);
  subRound rB rC rD rE rA sha1_f2 K2 (expand 39);
  subRound rA rB rC rD rE sha1_f3 K3 (expand 40);
  subRound rE rA rB rC rD sha1_f3 K3 (expand 41);
  subRound rD rE rA rB rC sha1_f3 K3 (expand 42);
  subRound rC rD rE rA rB sha1_f3 K3 (expand 43);
  subRound rB rC rD rE rA sha1_f3 K3 (expand 44);
  subRound rA rB rC rD rE sha1_f3 K3 (expand 45);
  subRound rE rA rB rC rD sha1_f3 K3 (expand 46);
  subRound rD rE rA rB rC sha1_f3 K3 (expand 47);
  subRound rC rD rE rA rB sha1_f3 K3 (expand 48);
  subRound rB rC rD rE rA sha1_f3 K3 (expand 49);
  subRound rA rB rC rD rE sha1_f3 K3 (expand 50);
  subRound rE rA rB rC rD sha1_f3 K3 (expand 51);
  subRound rD rE rA rB rC sha1_f3 K3 (expand 52);
  subRound rC rD rE rA rB sha1_f3 K3 (expand 53);
  subRound rB rC rD rE rA sha1_f3 K3 (expand 54);
  subRound rA rB rC rD rE sha1_f3 K3 (expand 55);
  subRound rE rA rB rC rD sha1_f3 K3 (expand 56);
  subRound rD rE rA rB rC sha1_f3 K3 (expand 57);
  subRound rC rD rE rA rB sha1_f3 K3 (expand 58);
  subRound rB rC rD rE rA sha1_f3 K3 (expand 59);
  subRound rA rB rC rD rE sha1_f4 K4 (expand 60);
  subRound rE rA rB rC rD sha1_f4 K4 (expand 61);
  subRound rD rE rA rB rC sha1_f4 K4 (expand 62);
  subRound rC rD rE rA rB sha1_f4 K4 (expand 63);
  subRound rB rC rD rE rA sha1_f4 K4 (expand 64);
  subRound rA rB rC rD rE sha1_f4 K4 (expand 65);
  subRound rE rA rB rC rD sha1_f4 K4 (expand 66);
  subRound rD rE rA rB rC sha1_f4 K4 (expand 67);
  subRound rC rD rE rA rB sha1_f4 K4 (expand 68);
  subRound rB rC rD rE rA sha1_f4 K4 (expand 69);
  subRound rA rB rC rD rE sha1_f4 K4 (expand 70);
  subRound rE rA rB rC rD sha1_f4 K4 (expand 71);
  subRound rD rE rA rB rC sha1_f4 K4 (expand 72);
  subRound rC rD rE rA rB sha1_f4 K4 (expand 73);
  subRound rB rC rD rE rA sha1_f4 K4 (expand 74);
  subRound rA rB rC rD rE sha1_f4 K4 (expand 75);
  subRound rE rA rB rC rD sha1_f4 K4 (expand 76);
  subRound rD rE rA rB rC sha1_f4 K4 (expand 77);
  subRound rC rD rE rA rB sha1_f4 K4 (expand 78);
  subRound rB rC rD rE rA sha1_f4 K4 (expand 79)].

(** The sub-rounds work on the words of the caller's buffer. *)
Definition sha1_transform (buf inp : list Z) : list Z * list Z :=
  let (r, W) := foldl (fun s line => line s) (buf, inp) sha1_lines in
  (add_into 32 buf r, W).

(** [sha_byte_reverse (sha1->data, ...); sha1_transform (sha1->buf, sha1->data)]
    with the first [n] words reversed. *)
Definition sha1_reverse_transform (n : nat) (sha1 : sum32) : sum32 :=
  let (b, W) := sha1_transform (buf sha1) (sha_byte_reverse (words_le32 16 (data sha1)) n) in
  set_data (bytes_le32 W) (set_buf b sha1).

Definition sha1_process : sum32 -> sum32 := sha1_reverse_transform 16.

(** ** The common update of MD5 and SHA-1 *)

Section update.
Context (process : sum32 -> sum32).

(** The loop over whole 64-byte chunks, and the remaining bytes. *)
Fixpoint update_chunks (fuel : nat) (s : sum32) (bytes : list Z) : sum32 :=
  match fuel with
  | S fuel =>
      if decide (64 <= length bytes)%nat then
        let s := set_data (memcpy (data s) 0 (take 64 bytes)) s in
        update_chunks fuel (process s) (drop 64 bytes)
      else set_data (memcpy (data s) 0 bytes) s
  | O => s
  end.

Definition sum_update (s : sum32) (bytes : list Z) : sum32 :=
  let len := Z.of_nat (length bytes) in
  let bit := bits0 s in
  let b0 := u32 (bit + u32 (u32 len .<< 3)) in
  let b1 := if b0 <? bit then u32 (bits1 s + 1) else bits1 s in
  let b1 := u32 (b1 + (len .>> 29)) in
  let s := set_bits b0 b1 s in
  let have := Z.to_nat ((bit .>> 3) .& 0x3f) in
  let fuel := S (length bytes / 64) in
  if decide (have = 0)%nat then update_chunks fuel s bytes
  else
    let need := (64 - have)%nat in
    if decide (length bytes < need)%nat then set_data (memcpy (data s) have bytes) s
    else
      let s := set_data (memcpy (data s) have (take need bytes)) s in
      update_chunks fuel (process s) (drop need bytes).
End update.

Definition md5_sum_update : sum32 -> list Z -> sum32 := sum_update md5_process.
Definition sha1_sum_update : sum32 -> list Z -> sum32 := sum_update sha1_process.

Definition md5_sum_close (md5 : sum32) : sum32 :=
  let count := Z.to_nat ((bits0 md5 .>> 3) .& 0x3F) in
  let md5 := set_data (memcpy (data md5) count [0x80]) md5 in
  let p := S count in
  let count := (MD5_DATASIZE - 1 - count)%nat in
  let md5 :=
    if decide (count < 8)%nat then
      let md5 := set_data (memset (data md5) p 0 count) md5 in
      let md5 := md5_process md5 in
      set_data (memset (data md5) 0 0 (MD5_DATASIZE - 8)) md5
    else set_data (memset (data md5) p 0 (count - 8)) md5 in
  let md5 := set_data (memcpy (data md5) 56 (store_le32 (bits0 md5))) md5 in
  let md5 := set_data (memcpy (data md5) 60 (store_le32 (bits1 md5))) md5 in
  let md5 := md5_process md5 in
  let md5 := set_digest (take 16 (bytes_le32 (buf md5))) md5 in
  set_data (replicate 64 0) (set_buf (replicate 4 0) md5).

Definition sha1_sum_close (sha1 : sum32) : sum32 :=
  let count := Z.to_nat ((bits0 sha1 .>> 3) .& 0x3f) in
  let sha1 := set_data (memcpy (data sha1) count [0x80]) sha1 in
  let data_p := S count in
  let count := (64 - 1 - count)%nat in
  let sha1 :=
    if decide (count < 8)%nat then
      let sha1 := set_data (memset (data sha1) data_p 0 count) sha1 in
      let sha1 := sha1_process sha1 in
      set_data (memset (data sha1) 0 0 (64 - 8)) sha1
    else set_data (memset (data sha1) data_p 0 (count - 8)) sha1 in
  let sha1 := set_data (memcpy (data sha1) 56 (store_le32 (bits1 sha1))) sha1 in
  let sha1 := set_data (memcpy (data sha1) 60 (store_le32 (bits0 sha1))) sha1 in
  let sha1 := sha1_reverse_transform 14 sha1 in
  let sha1 := set_buf (sha_byte_reverse (buf sha1) 5) sha1 in
  let sha1 := set_digest (take 20 (bytes_le32 (buf sha1))) sha1 in
  set_data (replicate 64 0) (set_buf (replicate 5 0) sha1).

(** ** SHA-256 *)

Definition sha256_sum_init (sha256 : sum32) : sum32 :=
  set_bits 0 0 (set_buf [0x6a09e667; 0xbb67ae85; 0x3c6ef372; 0xa54ff53a; 0x510e527f; 0x9b05688c; 0x1f83d9ab; 0x5be0cd19] sha256).

Definition GET_UINT32 (b : list Z) (i : nat) : Z :=
  (byte_at b i .<< 24) .| (byte_at b (i + 1) .<< 16) .|
  (byte_at b (i + 2) .<< 8) .| byte_at b (i + 3).

Definition PUT_UINT32 (n : Z) : list Z := [u8 (n .>> 24); u8 (n .>> 16); u8 (n .>> 8); u8 n].

Definition SHR32 (x n : Z) : Z := (x .& 0xFFFFFFFF) .>> n.
Definition ROTR32 (x n : Z) : Z := SHR32 x n .| u32 (x .<< (32 - n)).
Definition sha256_S0 (x : Z) : Z := ROTR32 x 7 .^ ROTR32 x 18 .^ SHR32 x 3.
Definition sha256_S1 (x : Z) : Z := ROTR32 x 17 .^ ROTR32 x 19 .^ SHR32 x 10.
Definition sha256_S2 (x : Z) : Z := ROTR32 x 2 .^ ROTR32 x 13 .^ ROTR32 x 22.
Definition sha256_S3 (x : Z) : Z := ROTR32 x 6 .^ ROTR32 x 11 .^ ROTR32 x 25.
Definition sha256_F0 (x y z : Z) : Z := (x .& y) .| (z .& (x .| y)).
Definition sha256_F1 (x y z : Z) : Z := z .^ (x .& (y .^ z)).

(** R(t) *)
Definition schedule256 (t : nat) : operand := fun W =>
  let v := u32 (sha256_S1 (W !!! (t - 2)%nat) + W !!! (t - 7)%nat +
                sha256_S0 (W !!! (t - 15)%nat) + W !!! (t - 16)%nat) in
  (v, <[t := v]> W).

Definition sha256_P (a b c d e f g h : nat) (x : operand) (K : Z)
    (s : list Z * list Z) : list Z * list Z :=
  let (r, W) := s in
  let (v, W) := x W in
  let temp1 := u32 (r !!! h + sha256_S3 (r !!! e) + sha256_F1 (r !!! e) (r !!! f) (r !!! g) + K + v) in
  let temp2 := u32 (sha256_S2 (r !!! a) + sha256_F0 (r !!! a) (r !!! b) (r !!! c)) in
  let r := <[d := u32 (r !!! d + temp1)]> r in
  let r := <[h := u32 (temp1 + temp2)]> r in
  (r, W).

Definition sha256_lines : list (list Z * list Z -> list Z * list Z) := [
  sha256_P rA rB rC rD rE rF rG rH (word 0) 0x428A2F98;
  sha256_P rH rA rB rC rD rE rF rG (word 1) 0x71374491;
  sha256_P rG rH rA rB rC rD rE rF (word 2) 0xB5C0FBCF;
  sha256_P rF rG rH rA rB rC rD rE (word 3) 0xE9B5DBA5;
  sha256_P rE rF rG rH rA rB rC rD (word 4) 0x3956C25B;
  sha256_P rD rE rF rG rH rA rB rC (word 5) 0x59F111F1;
  sha256_P rC rD rE rF rG rH rA rB (word 6) 0x923F82A4;
  sha256_P rB rC rD rE rF rG rH rA (word 7) 0xAB1C5ED5;
  sha256_P rA rB rC rD rE rF rG rH (word 8) 0xD807AA98;
  sha256_P rH rA rB rC rD rE rF rG (word 9) 0x12835B01;
  sha256_P rG rH rA rB rC rD rE rF (word 10) 0x243185BE;
  sha256_P rF rG rH rA rB rC rD rE (word 11) 0x550C7DC3;
  sha256_P rE rF rG rH rA rB rC rD (word 12) 0x72BE5D74;
  sha256_P rD rE rF rG rH rA rB rC (word 13) 0x80DEB1FE;
  sha256_P rC rD rE rF rG rH rA rB (word 14) 0x9BDC06A7;
  sha256_P rB rC rD rE rF rG rH rA (word 15) 0xC19BF174;
  sha256_P rA rB rC rD rE rF rG rH (schedule256 16) 0xE49B69C1;
  sha256_P rH rA rB rC rD rE rF rG (schedule256 17) 0xEFBE4786;
  sha256_P rG rH rA rB rC rD rE rF (schedule256 18) 0x0FC19DC6;
  sha256_P rF rG rH rA rB rC rD rE (schedule256 19) 0x240CA1CC;
  sha256_P rE rF rG rH rA rB rC rD (schedule256 20) 0x2DE92C6F;
  sha256_P rD rE rF rG rH rA rB rC (schedule256 21) 0x4A7484AA;
  sha256_P rC rD rE rF rG rH rA rB (schedule256 22) 0x5CB0A9DC;
  sha256_P rB rC rD rE rF rG rH rA (schedule256 23) 0x76F988DA;
  sha256_P rA rB rC rD rE rF rG rH (schedule256 24) 0x983E5152;
  sha256_P rH rA rB rC rD rE rF rG (schedule256 25) 0xA831C66D;
  sha256_P rG rH rA rB rC rD rE rF (schedule256 26) 0xB00327C8;
  sha256_P rF rG rH rA rB rC rD rE (schedule256 27) 0xBF597FC7;
  sha256_P rE rF rG rH rA rB rC rD (schedule256 28) 0xC6E00BF3;
  sha256_P rD rE rF rG rH rA rB rC (schedule256 29) 0xD5A79147;
  sha256_P rC rD rE rF rG rH rA rB (schedule256 30) 0x06CA6351;
  sha256_P rB rC rD rE rF rG rH rA (schedule256 31) 0x14292967;
  sha256_P rA rB rC rD rE rF rG rH (schedule256 32) 0x27B70A85;
  sha256_P rH rA rB rC rD rE rF rG (schedule256 33) 0x2E1B2138;
  sha256_P rG rH rA rB rC rD rE rF (schedule256 34) 0x4D2C6DFC;
  sha256_P rF rG rH rA rB rC rD rE (schedule256 35) 0x53380D13;
  sha256_P rE rF rG rH rA rB rC rD (schedule256 36) 0x650A7354;
  sha256_P rD rE rF rG rH rA rB rC (schedule256 37) 0x766A0ABB;
  sha256_P rC rD rE rF rG rH rA rB (schedule256 38) 0x81C2C92E;
  sha256_P rB rC rD rE rF rG rH rA (schedule256 39) 0x92722C85;
  sha256_P rA rB rC rD rE rF rG rH (schedule256 40) 0xA2BFE8A1;
  sha256_P rH rA rB rC rD rE rF rG (schedule256 41) 0xA81A664B;
  sha256_P rG rH rA rB rC rD rE rF (schedule256 42) 0xC24B8B70;
  sha256_P rF rG rH rA rB rC rD rE (schedule256 43) 0xC76C51A3;
  sha256_P rE rF rG rH rA rB rC rD (schedule256 44) 0xD192E819;
  sha256_P rD rE rF rG rH rA rB rC (schedule256 45) 0xD6990624;
  sha256_P rC rD rE rF rG rH rA rB (schedule256 46) 0xF40E3585;
  sha256_P rB rC rD rE rF rG rH rA (schedule256 47) 0x106AA070;
  sha256_P rA rB rC rD rE rF rG rH (schedule256 48) 0x19A4C116;
  sha256_P rH rA rB rC rD rE rF rG (schedule256 49) 0x1E376C08;
  sha256_P rG rH rA rB rC rD rE rF (schedule256 50) 0x2748774C;
  sha256_P rF rG rH rA rB rC rD rE (schedule256 51) 0x34B0BCB5;
  sha256_P rE rF rG rH rA rB rC rD (schedule256 52) 0x391C0CB3;
  sha256_P rD rE rF rG rH rA rB rC (schedule256 53) 0x4ED8AA4A;
  sha256_P rC rD rE rF rG rH rA rB (schedule256 54) 0x5B9CCA4F;
  sha256_P rB rC rD rE rF rG rH rA (schedule256 55) 0x682E6FF3;
  sha256_P rA rB rC rD rE rF rG rH (schedule256 56) 0x748F82EE;
  sha256_P rH rA rB rC rD rE rF rG (schedule256 57) 0x78A5636F;
  sha256_P rG rH rA rB rC rD rE rF (schedule256 58) 0x84C87814;
  sha256_P rF rG rH rA rB rC rD rE (schedule256 59) 0x8CC70208;
  sha256_P rE rF rG rH rA rB rC rD (schedule256 60) 0x90BEFFFA;
  sha256_P rD rE rF rG rH rA rB rC (schedule256 61) 0xA4506CEB;
  sha256_P rC rD rE rF rG rH rA rB (schedule256 62) 0xBEF9A3F7;
  sha256_P rB rC rD rE rF rG rH rA (schedule256 63) 0xC67178F2].

Definition sha256_transform (buf data : list Z) : list Z :=
  let W := ((fun k => GET_UINT32 data (4 * k)) <$> seq 0 16) ++ replicate 48 0 in
  add_into 32 buf (foldl (fun s line => line s) (buf, W) sha256_lines).1.

Fixpoint sha256_chunks (fuel : nat) (s : sum32) (input : list Z) : sum32 * list Z :=
  match fuel with
  | S fuel =>
      if decide (64 <= length input)%nat then
        sha256_chunks fuel (set_buf (sha256_transform (buf s) (take 64 input)) s) (drop 64 input)
      else (s, input)
  | O => (s, input)
  end.

Definition sha256_sum_update (s : sum32) (input : list Z) : sum32 :=
  if decide (length input = 0)%nat then s
  else
    let len := Z.of_nat (length input) in
    let have := Z.to_nat (bits0 s .& 0x3F) in
    let fill := (64 - have)%nat in
    let b0 := u32 (bits0 s + len) in
    let b0 := b0 .& 0xFFFFFFFF in
    let b1 := if b0 <? len then u32 (bits1 s + 1) else bits1 s in
    let s := set_bits b0 b1 s in
    let '(s, input, have) :=
      if decide (0 < have /\ fill <= length input)%nat then
        let s := set_data (memcpy (data s) have (take fill input)) s in
        (set_buf (sha256_transform (buf s) (data s)) s, drop fill input, 0%nat)
      else (s, input, have) in
    let '(s, input) := sha256_chunks (S (length input / 64)) s input in
    if decide (length input = 0)%nat then s
    else set_data (memcpy (data s) have input) s.

Definition sha256_padding : list Z := 0x80 :: replicate 63 0.

Definition sha256_sum_close (sha256 : sum32) : sum32 :=
  let high := (bits0 sha256 .>> 29) .| u32 (bits1 sha256 .<< 3) in
  let low := u32 (bits0 sha256 .<< 3) in
  let msglen := PUT_UINT32 high ++ PUT_UINT32 low in
  let last := bits0 sha256 .& 0x3F in
  let padn := if last <? 56 then 56 - last else 120 - last in
  let sha256 := sha256_sum_update sha256 (take (Z.to_nat padn) sha256_padding) in
  let sha256 := sha256_sum_update sha256 msglen in
  set_digest (buf sha256 ≫= PUT_UINT32) sha256.

(** * SHA-384 and SHA-512 *)

(** Sha512sum *)
Record sum64 := Sum64 {
  H64 : list Z;          (** guint64 [8] *)
  block : list Z;      (** guint8 [128] *)
  block_len : Z;       (** guint8 *)
  data_len0 : Z;       (** guint64 *)
  data_len1 : Z;       (** guint64 *)
  digest64 : list Z;
}.

Definition SHA2_BLOCK_LEN : nat := 128.

Definition sha384_sum_init (s : sum64) : sum64 :=
  Sum64 [0xcbbb9d5dc1059ed8; 0x629a292a367cd507; 0x9159015a3070dd17; 0x152fecd8f70e5939; 0x67332667ffc00b31; 0x8eb44a8768581511; 0xdb0c2e0d64f98fa7; 0x47b5481dbefa4fa4] (block s) 0 0 0 (digest64 s).
Definition sha512_sum_init (s : sum64) : sum64 :=
  Sum64 [0x6a09e667f3bcc908; 0xbb67ae8584caa73b; 0x3c6ef372fe94f82b; 0xa54ff53a5f1d36f1; 0x510e527fade682d1; 0x9b05688c2b3e6c1f; 0x1f83d9abfb41bd6b; 0x5be0cd19137e2179] (block s) 0 0 0 (digest64 s).

Definition Ch (x y z : Z) : Z := (x .& y) .^ (u64 (Z.lnot x) .& z).
Definition Maj (x y z : Z) : Z := (x .& y) .^ (x .& z) .^ (y .& z).
Definition SHR64 (n x : Z) : Z := x .>> n.
Definition ROTR64 (n x : Z) : Z := SHR64 n x .| u64 (x .<< (64 - n)).
Definition SIGMA0 (x : Z) : Z := ROTR64 28 x .^ ROTR64 34 x .^ ROTR64 39 x.
Definition SIGMA1 (x : Z) : Z := ROTR64 14 x .^ ROTR64 18 x .^ ROTR64 41 x.
Definition sigma0 (x : Z) : Z := ROTR64 1 x .^ ROTR64 8 x .^ SHR64 7 x.
Definition sigma1 (x : Z) : Z := ROTR64 19 x .^ ROTR64 61 x .^ SHR64 6 x.

Definition PUT_UINT64 (n : Z) : list Z :=
  [u8 (n .>> 56); u8 (n .>> 48); u8 (n .>> 40); u8 (n .>> 32);
   u8 (n .>> 24); u8 (n .>> 16); u8 (n .>> 8); u8 n].

Definition SHA2_K : list Z :=
  [0x428a2f98d728ae22; 0x7137449123ef65cd;
   0xb5c0fbcfec4d3b2f; 0xe9b5dba58189dbbc;
   0x3956c25bf348b538; 0x59f111f1b605d019;
   0x923f82a4af194f9b; 0xab1c5ed5da6d8118;
   0xd807aa98a3030242; 0x12835b0145706fbe;
   0x243185be4ee4b28c; 0x550c7dc3d5ffb4e2;
   0x72be5d74f27b896f; 0x80deb1fe3b1696b1;
   0x9bdc06a725c71235; 0xc19bf174cf692694;
   0xe49b69c19ef14ad2; 0xefbe4786384f25e3;
   0x0fc19dc68b8cd5b5; 0x240ca1cc77ac9c65;
   0x2de92c6f592b0275; 0x4a7484aa6ea6e483;
   0x5cb0a9dcbd41fbd4; 0x76f988da831153b5;
   0x983e5152ee66dfab; 0xa831c66d2db43210;
   0xb00327c898fb213f; 0xbf597fc7beef0ee4;
   0xc6e00bf33da88fc2; 0xd5a79147930aa725;
   0x06ca6351e003826f; 0x142929670a0e6e70;
   0x27b70a8546d22ffc; 0x2e1b21385c26c926;
   0x4d2c6dfc5ac42aed; 0x53380d139d95b3df;
   0x650a73548baf63de; 0x766a0abb3c77b2a8;
   0x81c2c92e47edaee6; 0x92722c851482353b;
   0xa2bfe8a14cf10364; 0xa81a664bbc423001;
   0xc24b8b70d0f89791; 0xc76c51a30654be30;
   0xd192e819d6ef5218; 0xd69906245565a910;
   0xf40e35855771202a; 0x106aa07032bbd1b8;
   0x19a4c116b8d2d0c8; 0x1e376c085141ab53;
   0x2748774cdf8eeb99; 0x34b0bcb5e19b48a8;
   0x391c0cb3c5c95a63; 0x4ed8aa4ae3418acb;
   0x5b9cca4f7763e373; 0x682e6ff3d6b2b8a3;
   0x748f82ee5defb2fc; 0x78a5636f43172f60;
   0x84c87814a1f0ab72; 0x8cc702081a6439ec;
   0x90befffa23631e28; 0xa4506cebde82bde9;
   0xbef9a3f7b2c67915; 0xc67178f2e372532b;
   0xca273eceea26619c; 0xd186b8c721c0c207;
   0xeada7dd6cde0eb1e; 0xf57d4f7fee6ed178;
   0x06f067aa72176fba; 0x0a637dc5a2c898a6;
   0x113f9804bef90dae; 0x1b710b35131c471b;
   0x28db77f523047d84; 0x32caab7b40c72493;
   0x3c9ebe0a15c9bebc; 0x431d67c49c100d4c;
   0x4cc5d4becb3e42b6; 0x597f299cfc657e2a;
   0x5fcb6fab3ad6faec; 0x6c44198c4a475817].

(** The words M[i] of a block. *)
Definition sha512_word (data : list Z) (i : nat) : Z :=
  let p := (i * 8)%nat in
  (byte_at data (p + 0) .<< 56) .| (byte_at data (p + 1) .<< 48) .|
  (byte_at data (p + 2) .<< 40) .| (byte_at data (p + 3) .<< 32) .|
  (byte_at data (p + 4) .<< 24) .| (byte_at data (p + 5) .<< 16) .|
  (byte_at data (p + 6) .<< 8) .| byte_at data (p + 7).

(** The message schedule: [W] is filled from index 0 upwards. *)
Definition sha512_schedule (M : list Z) : list Z :=
  foldl (fun W t =>
    W ++ [if decide (t < 16)%nat then M !!! t
          else u64 (sigma1 (W !!! (t - 2)%nat) + W !!! (t - 7)%nat +
                    sigma0 (W !!! (t - 15)%nat) + W !!! (t - 16)%nat)]) [] (seq 0 80).

Definition sha512_round (W : list Z) (r : list Z) (t : nat) : list Z :=
  match r with
  | [a; b; c; d; e; f; g; h] =>
      let T1 := u64 (h + SIGMA1 e + Ch e f g + SHA2_K !!! t + W !!! t) in
      let T2 := u64 (SIGMA0 a + Maj a b c) in
      [u64 (T1 + T2); a; b; c; u64 (d + T1); e; f; g]
  | _ => r
  end.

Definition sha512_transform (H data : list Z) : list Z :=
  let M := sha512_word data <$> seq 0 16 in
  let W := sha512_schedule M in
  add_into 64 H (foldl (sha512_round W) H (seq 0 80)).

Fixpoint sha512_chunks (fuel : nat) (s : sum64) (rest : list Z) : sum64 * list Z :=
  match fuel with
  | S fuel =>
      if decide (SHA2_BLOCK_LEN <= length rest)%nat then
        let blk := memcpy (block s) 0 (take SHA2_BLOCK_LEN rest) in
        sha512_chunks fuel
          (Sum64 (sha512_transform (H64 s) blk) blk (block_len s) (data_len0 s) (data_len1 s) (digest64 s))
          (drop SHA2_BLOCK_LEN rest)
      else (s, rest)
  | O => (s, rest)
  end.

Definition sha512_sum_update (s : sum64) (buffer : list Z) : sum64 :=
  if decide (length buffer = 0)%nat then s
  else
    let len := Z.of_nat (length buffer) in
    let d0 := u64 (data_len0 s + u64 (len * 8)) in
    let d1 := if d0 <? len then u64 (data_len1 s + 1) else data_len1 s in
    let s := Sum64 (H64 s) (block s) (block_len s) d0 d1 (digest64 s) in
    let block_left := (SHA2_BLOCK_LEN - Z.to_nat (block_len s))%nat in
    let '(s, rest) :=
      if decide (0 < block_left)%nat then
        let fill_len := Nat.min block_left (length buffer) in
        let blk := memcpy (block s) (Z.to_nat (block_len s)) (take fill_len buffer) in
        let bl := u8 (block_len s + Z.of_nat fill_len) in
        let s := Sum64 (H64 s) blk bl (data_len0 s) (data_len1 s) (digest64 s) in
        ((if decide (bl = 128) then
            Sum64 (sha512_transform (H64 s) blk) blk 0 (data_len0 s) (data_len1 s) (digest64 s)
          else s), drop fill_len buffer)
      else (s, buffer) in
    let '(s, rest) := sha512_chunks (S (length rest / SHA2_BLOCK_LEN)) s rest in
    if decide (0 < length rest)%nat then
      Sum64 (H64 s) (memcpy (block s) 0 rest) (u8 (Z.of_nat (length rest)))
        (data_len0 s) (data_len1 s) (digest64 s)
    else s.

Definition sha512_sum_close (s : sum64) : sum64 :=
  let l := block_len s * 8 in
  let zeros := 896 - (l + 1) in
  let zeros := if zeros <? 0 then zeros + 128 * 8 else zeros in
  let zeros := zeros - 7 in
  let pad := 0x80 :: replicate (Z.to_nat (zeros / 8)) 0 ++
             PUT_UINT64 (data_len1 s) ++ PUT_UINT64 (data_len0 s) in
  let s := sha512_sum_update s pad in
  Sum64 (H64 s) (block s) (block_len s) (data_len0 s) (data_len1 s) (H64 s ≫= PUT_UINT64).
