(* ===== verification/ChecksumStream.v ===== *)
(** Block hashing of a message that arrives in pieces: what the update and
    close functions of Checksum.v compute, as a function of the whole message.
    Words and bytes: the loads, stores and byte swaps of Checksum.v as arithmetic,
    and the ranges of the words the transformations produce. *)
From S2P Require Import Prelude Checksum.

(** * Messages as blocks *)

Fixpoint take_blocks (n B : nat) (l : list Z) : list (list Z) :=
  match n with O => [] | S n => take B l :: take_blocks n B (drop B l) end.

(** The whole blocks of [l]. *)
Definition blocks (B : nat) (l : list Z) : list (list Z) := take_blocks (length l / B) B l.

(** The reference: a compression function [f] folded over the blocks of the
    padded message. *)
Definition md_hash (f : list Z -> list Z -> list Z) (B : nat) (iv : list Z)
    (pad : nat -> list Z) (msg : list Z) : list Z :=
  foldl f iv (blocks B (msg ++ pad (length msg))).

Section absorb.
Context (f : list Z -> list Z -> list Z) (B : nat) (iv : list Z).
Hypothesis HB : (0 < B)%nat.
Implicit Types bs : list (list Z).

(** After the message [msg], the chaining value is [h] and the bytes [r] wait
    for the rest of their block. *)
Definition absorbed (h r msg : list Z) : Prop :=
  exists bs, Forall (fun b => length b = B) bs /\ msg = concat bs ++ r /\ (length r < B)%nat /\
    h = foldl f iv bs.

Lemma length_blocks bs : Forall (fun b => length b = B) bs -> length (concat bs) = (length bs * B)%nat.
Proof. induction 1; simpl; [done|]. rewrite length_app. lia. Qed.

Lemma blocks_concat bs r :
  Forall (fun b => length b = B) bs -> (length r < B)%nat -> blocks B (concat bs ++ r) = bs.
Proof.
  intros Hbs Hr. unfold blocks. rewrite length_app, length_blocks by done.
  replace ((length bs * B + length r) / B)%nat with (length bs).
  - induction Hbs as [|b bs Hb _ IH]; simpl; [done|]. rewrite <- app_assoc.
    rewrite take_app_length', drop_app_length' by done. by rewrite IH.
  - rewrite Nat.div_add_l by lia. rewrite Nat.div_small by done. lia.
Qed.

Lemma absorbed_nil : absorbed iv [] [].
Proof. exists []. split_and!; [constructor|done|simpl; lia|done]. Qed.

Lemma absorbed_more h r msg b :
  absorbed h r msg -> (length r + length b < B)%nat -> absorbed h (r ++ b) (msg ++ b).
Proof.
  intros (bs & Hbs & -> & Hr & ->) Hb. exists bs. rewrite length_app.
  split_and!; [done|by rewrite app_assoc|done|done].
Qed.

Lemma absorbed_block h r msg b :
  absorbed h r msg -> (length r + length b = B)%nat -> absorbed (f h (r ++ b)) [] (msg ++ b).
Proof.
  intros (bs & Hbs & -> & Hr & ->) Hb. exists (bs ++ [r ++ b]). split_and!.
  - apply Forall_app. split; [done|]. constructor; [by rewrite length_app|constructor].
  - rewrite concat_app. simpl. by rewrite !app_nil_r, app_assoc.
  - simpl. lia.
  - by rewrite foldl_app.
Qed.

Lemma absorbed_rest h r msg : absorbed h r msg -> length r = (length msg mod B)%nat.
Proof.
  intros (bs & Hbs & -> & Hr & _). rewrite length_app, length_blocks by done.
  rewrite Nat.add_comm, Nat.Div0.mod_add, Nat.mod_small; done.
Qed.

Lemma absorbed_hash h msg pad :
  absorbed h [] (msg ++ pad (length msg)) -> md_hash f B iv pad msg = h.
Proof.
  intros (bs & Hbs & Heq & _ & ->). unfold md_hash. rewrite Heq, blocks_concat; [done|done|simpl; lia].
Qed.
End absorb.

(** * Copies into a buffer *)

Lemma length_memcpy d off bs :
  (off + length bs <= length d)%nat -> length (memcpy d off bs) = length d.
Proof. intros. unfold memcpy. rewrite !length_app, length_take, length_drop. lia. Qed.

Lemma take_memcpy d off bs n :
  n = (off + length bs)%nat -> (n <= length d)%nat -> take n (memcpy d off bs) = take off d ++ bs.
Proof.
  intros -> Hn. unfold memcpy. rewrite app_assoc. apply take_app_length'.
  rewrite length_app, length_take. lia.
Qed.

Lemma memcpy_all d off bs :
  length d = (off + length bs)%nat -> memcpy d off bs = take off d ++ bs.
Proof.
  intros Hd. unfold memcpy. rewrite drop_ge by lia. by rewrite app_nil_r.
Qed.

(** * The 64-bit counter in two words *)

Lemma two_words lo hi :
  0 <= lo < 2 ^ 32 -> lo + 2 ^ 32 * (hi mod 2 ^ 32) = (lo + 2 ^ 32 * hi) mod 2 ^ 64.
Proof. intros. Z.div_mod_to_equations. lia. Qed.

(** The carry out of the low word shows as an overflow. *)
Lemma low_word_carry b y :
  0 <= b < 2 ^ 32 -> 0 <= y < 2 ^ 32 ->
  b + y = (b + y) mod 2 ^ 32 + 2 ^ 32 * (if (b + y) mod 2 ^ 32 <? b then 1 else 0).
Proof. intros. destruct (Z.ltb_spec ((b + y) mod 2 ^ 32) b); Z.div_mod_to_equations; lia. Qed.

(** The update of the counter: the bytes' bit length, with the carry and the
    high bits of the byte count added to the second word. *)
Lemma counter_update b0 b1 len :
  0 <= len -> in_u 32 b0 -> in_u 32 b1 ->
  let c0 := u32 (b0 + u32 (Z.shiftl (u32 len) 3)) in
  let c1 := if c0 <? b0 then u32 (b1 + 1) else b1 in
  c0 + 2 ^ 32 * u32 (c1 + Z.shiftr len 29) = (b0 + 2 ^ 32 * b1 + 8 * len) mod 2 ^ 64.
Proof.
  intros Hlen H0 H1 c0 c1. unfold in_u in *.
  rewrite Z.shiftr_div_pow2 by lia.
  assert (8 * len = 8 * (len mod 2 ^ 29) + 2 ^ 32 * (len / 2 ^ 29)) as Hl.
  { pose proof (Z.div_mod len (2 ^ 29)). lia. }
  pose proof (Z.mod_pos_bound len (2 ^ 29) ltac:(lia)) as Hy.
  set (y := 8 * (len mod 2 ^ 29)) in *.
  assert (c0 = (b0 + y) mod 2 ^ 32) as Hc0.
  { subst c0. unfold wrap. rewrite Z.shiftl_mul_pow2 by lia. change (2 ^ 3) with 8.
    rewrite Z.mul_mod_idemp_l by lia. rewrite Z.add_mod_idemp_r by lia.
    rewrite (Z.mul_comm len), Hl, Z.add_assoc, (Z.mul_comm (2 ^ 32)). apply Z_mod_plus_full. }
  pose proof (low_word_carry b0 y H0 ltac:(lia)) as Hcarry. rewrite <- Hc0 in Hcarry.
  assert (u32 (c1 + len / 2 ^ 29) = (b1 + (if c0 <? b0 then 1 else 0) + len / 2 ^ 29) mod 2 ^ 32) as ->.
  { subst c1. unfold wrap. destruct (c0 <? b0); [by rewrite Z.add_mod_idemp_l|by rewrite Z.add_0_r]. }
  rewrite two_words by (rewrite Hc0; apply Z.mod_pos_bound; lia). f_equal. lia.
Qed.

(** The number of waiting bytes, from the counter. *)
Lemma counter_have b0 b1 n :
  0 <= n -> in_u 32 b0 -> b0 + 2 ^ 32 * b1 = (8 * n) mod 2 ^ 64 ->
  Z.land (Z.shiftr b0 3) 0x3f = n mod 64.
Proof.
  intros Hn H0 Hc. unfold in_u in *. change 0x3f with (Z.ones 6).
  rewrite Z.land_ones, Z.shiftr_div_pow2 by lia. change (2 ^ 3) with 8. change (2 ^ 6) with 64.
  Z.div_mod_to_equations. lia.
Qed.

(** * MD5 and SHA-1: the common update *)

(** The 64-bit counter of message bits. *)
Definition counted (s : sum32) (n : Z) : Prop :=
  in_u 32 (bits0 s) /\ in_u 32 (bits1 s) /\
  bits0 s + 2 ^ 32 * bits1 s = (8 * n) mod 2 ^ 64.

(** A block buffer. *)
Definition buffer (d : list Z) : Prop := length d = 64%nat /\ Forall (in_u 8) d.

Lemma buffer_memcpy d off bs :
  buffer d -> (off + length bs <= 64)%nat -> Forall (in_u 8) bs -> buffer (memcpy d off bs).
Proof.
  intros [Hl Hb] Ho Hbs. split; [by rewrite length_memcpy by lia|].
  unfold memcpy. rewrite !Forall_app. split_and!; [by apply Forall_take|done|by apply Forall_drop].
Qed.

(** What a block step does: it compresses the data buffer into the chaining
    value, and may leave any bytes in the buffer. *)
Class Process (process : sum32 -> sum32) (f : list Z -> list Z -> list Z) : Prop := {
  process_buf s : buffer (data s) -> buf (process s) = f (buf s) (data s);
  process_data s : buffer (data s) -> buffer (data (process s));
  process_bits0 s : bits0 (process s) = bits0 s;
  process_bits1 s : bits1 (process s) = bits1 s;
}.

Section update.
Context (process : sum32 -> sum32) (f : list Z -> list Z -> list Z) `{!Process process f}.
Context (iv : list Z).

(** A chaining value and a buffer that have absorbed the message [msg]. *)
Definition taken (s : sum32) (msg : list Z) : Prop :=
  buffer (data s) /\ exists r, absorbed f 64 iv (buf s) r msg /\ take (length r) (data s) = r.

Definition holds (s : sum32) (msg : list Z) : Prop :=
  taken s msg /\ counted s (Z.of_nat (length msg)).

Lemma update_chunks_ok fuel s bytes msg :
  buffer (data s) -> absorbed f 64 iv (buf s) [] msg -> Forall (in_u 8) bytes ->
  (length bytes / 64 < fuel)%nat ->
  let s' := update_chunks process fuel s bytes in
  taken s' (msg ++ bytes) /\ bits0 s' = bits0 s /\ bits1 s' = bits1 s.
Proof.
  revert s bytes msg. induction fuel as [|fuel IH]; intros s bytes msg Hd Ha Hb Hf; [lia|].
  cbn [update_chunks]. destruct (decide (64 <= length bytes)%nat) as [Hl|Hl].
  - set (s1 := set_data _ s).
    assert (length (take 64 bytes) = 64%nat) as Ht by (rewrite length_take; lia).
    assert (data s1 = take 64 bytes) as Hd1.
    { subst s1. simpl. destruct Hd. rewrite memcpy_all by lia. done. }
    assert (buffer (data s1)) as Hd2 by (rewrite Hd1; split; [done|by apply Forall_take]).
    destruct (IH (process s1) (drop 64 bytes) (msg ++ take 64 bytes)) as (Htk & Hb0 & Hb1).
    + by apply process_data.
    + rewrite process_buf, Hd1 by done. by apply (absorbed_block f 64 iv ltac:(lia) _ []).
    + by apply Forall_drop.
    + rewrite length_drop. apply Nat.div_lt_upper_bound; [lia|].
      pose proof (Nat.div_mod_eq (length bytes) 64).
      pose proof (Nat.mod_upper_bound (length bytes) 64). lia.
    + rewrite <- app_assoc, take_drop in Htk.
      by rewrite Hb0, Hb1, process_bits0, process_bits1.
  - simpl. split_and!; [|done..]. split; [apply buffer_memcpy; [done|simpl; lia|done]|].
    exists bytes. split; [apply (absorbed_more f 64 iv _ []); [done|simpl; lia]|].
    destruct Hd. simpl. by rewrite take_memcpy by lia.
Qed.

(** The bytes of [msg] that wait in the buffer. *)
Lemma holds_waiting s msg :
  holds s msg -> exists r, absorbed f 64 iv (buf s) r msg /\ take (length r) (data s) = r /\
    Z.to_nat (Z.land (Z.shiftr (bits0 s) 3) 0x3f) = length r /\ (length r < 64)%nat.
Proof.
  intros ((Hd & r & Hr & Ht) & H0 & H1 & Hc). exists r. split_and!; [done..| |by destruct Hr as (? & ? & ? & ? & _)].
  rewrite (counter_have _ _ _ (Nat2Z.is_nonneg _) H0 Hc).
  assert (length r = (length msg mod 64)%nat) as -> by (eapply (absorbed_rest f); [|exact Hr]; lia).
  by rewrite <- (Nat2Z.id (_ mod _)), Nat2Z.inj_mod.
Qed.

Lemma sum_update_ok s msg bytes :
  holds s msg -> Forall (in_u 8) bytes -> holds (sum_update process s bytes) (msg ++ bytes).
Proof.
  intros Hs Hb. destruct (holds_waiting _ _ Hs) as (r & Hr & Ht & Hhave & Hr64).
  destruct Hs as ((Hd & _) & H0 & H1 & Hc). unfold sum_update. rewrite Hhave.
  set (b0 := u32 (bits0 s + _)). set (b1 := u32 (_ + Z.shiftr _ _)). set (s1 := set_bits b0 b1 s).
  assert (forall s', bits0 s' = b0 -> bits1 s' = b1 ->
            counted s' (Z.of_nat (length (msg ++ bytes)))) as Hcount.
  { intros s' E0 E1. unfold counted. rewrite E0, E1. split_and!; [apply wrap_in_u; lia..|].
    subst b0 b1. rewrite counter_update by (done || lia).
    rewrite Hc, Z.add_mod_idemp_l by lia. f_equal. rewrite length_app. lia. }
  assert (buffer (data s1)) as Hd1 by done.
  destruct (decide _) as [Hz|Hz].
  { apply nil_length_inv in Hz as ->.
    destruct (update_chunks_ok (S (length bytes / 64)) s1 bytes msg) as (? & ? & ?); [done|done|done|lia|].
    split; [done|by apply Hcount]. }
  set (need := (64 - length r)%nat). destruct (decide _) as [Hn|Hn].
  - split; [|by apply Hcount]. split; [apply buffer_memcpy; [done|lia|done]|].
    exists (r ++ bytes). split; [apply absorbed_more; [done|lia]|].
    simpl. rewrite length_app. destruct Hd. rewrite take_memcpy by lia. by rewrite Ht.
  - assert (length (take need bytes) = need) as Hl by (rewrite length_take; lia).
    set (s2 := set_data _ s1). assert (data s2 = r ++ take need bytes) as Hd2.
    { subst s2. simpl. destruct Hd. rewrite memcpy_all by lia. by rewrite Ht. }
    assert (buffer (data s2)) as Hb2.
    { apply buffer_memcpy; [done|lia|by apply Forall_take]. }
    destruct (update_chunks_ok (S (length bytes / 64)) (process s2) (drop need bytes)
      (msg ++ take need bytes)) as (Htk & Hb0 & Hb1).
    + by apply process_data.
    + rewrite process_buf, Hd2 by done. apply absorbed_block; [lia|done|lia].
    + by apply Forall_drop.
    + rewrite length_drop. pose proof (Nat.div_le_mono (length bytes - need) (length bytes) 64). lia.
    + rewrite <- app_assoc, take_drop in Htk. split; [done|]. apply Hcount.
      * by rewrite Hb0, process_bits0.
      * by rewrite Hb1, process_bits1.
Qed.

(** A message that arrives in pieces. *)
Lemma sum_updates_ok s msg pieces :
  holds s msg -> Forall (Forall (in_u 8)) pieces ->
  holds (foldl (sum_update process) s pieces) (msg ++ concat pieces).
Proof.
  revert s msg. induction pieces as [|b pieces IH]; intros s msg Hs Hp; simpl.
  - by rewrite app_nil_r.
  - apply Forall_cons in Hp as [Hb Hp]. rewrite app_assoc. apply IH; [|done]. by apply sum_update_ok.
Qed.

(** * Closing *)

(** The padding that md5_sum_close and sha1_sum_close write before the length:
    one byte 0x80 and zeros up to 56 modulo 64. *)
Definition close_pad (s : sum32) : sum32 :=
  let count := Z.to_nat (Z.land (Z.shiftr (bits0 s) 3) 0x3F) in
  let s := set_data (memcpy (data s) count [0x80]) s in
  let p := S count in
  let count := (64 - 1 - count)%nat in
  if decide (count < 8)%nat then
    let s := set_data (memset (data s) p 0 count) s in
    let s := process s in
    set_data (memset (data s) 0 0 (64 - 8)) s
  else set_data (memset (data s) p 0 (count - 8)) s.

Definition md_zeros (n : nat) : nat := ((119 - n mod 64) mod 64)%nat.

Lemma buffer_memset d off n : buffer d -> (off + n <= 64)%nat -> buffer (memset d off 0 n).
Proof.
  intros Hd Hn. apply buffer_memcpy; [done|by rewrite length_replicate|].
  apply Forall_replicate. unfold in_u. lia.
Qed.

Lemma close_pad_ok s msg :
  holds s msg -> let s' := close_pad s in
  buffer (data s') /\ bits0 s' = bits0 s /\ bits1 s' = bits1 s /\
  absorbed f 64 iv (buf s') (take 56 (data s')) (msg ++ 0x80 :: replicate (md_zeros (length msg)) 0).
Proof.
  intros Hs. destruct (holds_waiting _ _ Hs) as (r & Hr & Ht & Hhave & Hr64).
  destruct Hs as ((Hd & _) & _). unfold close_pad. rewrite Hhave.
  assert (length r = (length msg mod 64)%nat) as Hlr by (eapply (absorbed_rest f); [|exact Hr]; lia).
  unfold md_zeros. rewrite <- Hlr. set (d1 := memcpy (data s) (length r) [0x80]).
  assert (buffer d1) as Hd1 by (apply buffer_memcpy; [done|simpl; lia|repeat constructor; unfold in_u; lia]).
  assert (take (S (length r)) d1 = r ++ [0x80]) as Ht1.
  { destruct Hd. subst d1. rewrite take_memcpy by (simpl; lia). by rewrite Ht. }
  cbn -[Nat.sub Nat.modulo memset]. destruct (decide _) as [Hc|Hc]; cbn [data buf bits0 bits1 set_data].
  - set (d2 := memset d1 _ 0 _). assert (buffer d2) as Hd2 by (apply buffer_memset; [done|lia]).
    assert (d2 = (r ++ [0x80]) ++ replicate (63 - length r) 0) as Hd2e.
    { subst d2. unfold memset. rewrite memcpy_all; [by rewrite Ht1|].
      rewrite length_replicate. destruct Hd1. lia. }
    set (s2 := set_data d2 _). assert (buffer (data (process s2))) as Hd3 by (by apply process_data).
    split_and!; [by apply buffer_memset; [|lia]|by rewrite process_bits0|by rewrite process_bits1|].
    destruct Hd3 as [Hd3 _]. unfold memset at 1. rewrite take_memcpy by (rewrite ?length_replicate; lia).
    rewrite process_buf by done. change (take 0 (data (process s2))) with (@nil Z).
    replace ((119 - length r) mod 64)%nat with ((63 - length r) + 56)%nat
      by (apply (Nat.mod_unique _ _ 0); lia).
    rewrite replicate_add, app_comm_cons, app_assoc. apply absorbed_more; [|simpl; lia].
    simpl data. rewrite Hd2e. rewrite <- app_assoc. simpl. apply absorbed_block; [lia|done|].
    simpl. rewrite length_replicate. lia.
  - set (d2 := memset d1 _ 0 _). assert (buffer d2) as Hd2 by (apply buffer_memset; [done|lia]).
    split_and!; [done..|].
    replace ((119 - length r) mod 64)%nat with (55 - length r)%nat by (apply (Nat.mod_unique _ _ 1); lia).
    assert (take 56 d2 = r ++ 0x80 :: replicate (55 - length r) 0) as ->.
    { subst d2. unfold memset. rewrite take_memcpy.
      - rewrite Ht1. rewrite <- app_assoc. simpl. do 3 f_equal. lia.
      - rewrite length_replicate. lia.
      - destruct Hd1. lia. }
    apply absorbed_more; [done|]. simpl. rewrite length_replicate. lia.
Qed.

(** The last block: 8 bytes of length behind the padding. *)
Lemma close_block s msg len8 :
  holds s msg -> length len8 = 8%nat -> Forall (in_u 8) len8 ->
  let s' := set_data (take 56 (data (close_pad s)) ++ len8) (close_pad s) in
  buffer (data s') /\
  buf (process s') =
    md_hash f 64 iv (fun n => 0x80 :: replicate (md_zeros n) 0 ++ len8) msg.
Proof.
  intros Hs Hl Hb. destruct (close_pad_ok s msg Hs) as ([Hd1 Hd2] & _ & _ & Ha).
  set (s' := set_data _ _). assert (buffer (data s')) as Hd.
  { split; simpl; [rewrite length_app, length_take; lia|].
    apply Forall_app. split; [by apply Forall_take|done]. }
  split; [done|]. rewrite process_buf by done. symmetry. apply absorbed_hash; [lia|].
  rewrite app_comm_cons, app_assoc. simpl buf. simpl data.
  apply absorbed_block; [lia|done|]. rewrite length_take. lia.
Qed.
End update.

(** * A message for the theorems *)

(** An object as it is allocated, and the message "abc" in two pieces. *)
Definition sum_blank : sum32 := Sum32 [] 0 0 (replicate 64 0) [].
Definition abc_pieces : list (list Z) := [[97]; []; [98; 99]].

Lemma sum_blank_buffer : buffer (data sum_blank).
Proof. split; [done|]. apply Forall_replicate. unfold in_u. lia. Qed.
Lemma abc_pieces_bytes : Forall (Forall (in_u 8)) abc_pieces.
Proof. repeat constructor; done. Qed.

Open Scope c_scope.

(** The [k] low bytes of [v], low byte first. *)
Definition bytes_le (k : nat) (v : Z) : list Z := (fun i => u8 (v .>> (8 * i))) <$> seqZ 0 (Z.of_nat k).
Definition bytes_be (k : nat) (v : Z) : list Z := reverse (bytes_le k v).

Lemma in_u_shiftl w x s : 0 <= s -> in_u w x -> in_u (w + s) (x .<< s).
Proof.
  unfold in_u. intros Hs [Hx Hw]. rewrite Z.shiftl_mul_pow2 by done.
  destruct (decide (0 <= w)); [|rewrite Z.pow_neg_r in Hw; lia].
  rewrite Z.pow_add_r by lia. nia.
Qed.

(** Four bytes joined by shifts and ors are a number in base 256. *)
Lemma lor_bytes b0 b1 b2 b3 :
  in_u 8 b0 -> in_u 8 b1 -> in_u 8 b2 -> in_u 8 b3 ->
  b0 .| (b1 .<< 8) .| (b2 .<< 16) .| (b3 .<< 24) =
  b0 + 2 ^ 8 * b1 + 2 ^ 16 * b2 + 2 ^ 24 * b3.
Proof.
  intros H0 H1 H2 H3. unfold in_u in *.
  rewrite (Z.lor_comm b0), lor_shiftl_add by (unfold in_u; lia).
  rewrite (Z.lor_comm _ (b2 .<< 16)), lor_shiftl_add by (unfold in_u; lia).
  rewrite (Z.lor_comm _ (b3 .<< 24)), lor_shiftl_add by (unfold in_u; lia). lia.
Qed.

Lemma lor_bytes_be b0 b1 b2 b3 :
  in_u 8 b0 -> in_u 8 b1 -> in_u 8 b2 -> in_u 8 b3 ->
  (b3 .<< 24) .| (b2 .<< 16) .| (b1 .<< 8) .| b0 =
  b0 + 2 ^ 8 * b1 + 2 ^ 16 * b2 + 2 ^ 24 * b3.
Proof.
  intros. rewrite <- lor_bytes by done.
  rewrite (Z.lor_comm _ b0), (Z.lor_comm _ (b1 .<< 8)), (Z.lor_comm _ (b2 .<< 16)).
  by rewrite !Z.lor_assoc.
Qed.

Lemma land_byte v k : 0 <= k -> v .& (255 .<< k) = ((v / 2 ^ k) mod 2 ^ 8) .<< k.
Proof.
  intros Hk. rewrite <- Z.shiftr_div_pow2, <- Z.land_ones by lia. change (Z.ones 8) with 255.
  apply Z.bits_inj'. intros i Hi. rewrite Z.land_spec. destruct (decide (i < k)).
  - rewrite !Z.shiftl_spec_low by done. by rewrite andb_false_r.
  - rewrite !Z.shiftl_spec by lia. rewrite Z.land_spec, Z.shiftr_spec by lia.
    by replace (i - k + k) with i by lia.
Qed.

Lemma shiftr_div x k : 0 <= k -> x .>> k = x / 2 ^ k.
Proof. apply Z.shiftr_div_pow2. Qed.

(** GUINT32_SWAP_LE_BE of the bytes of a word. *)
Lemma swap32_bytes b0 b1 b2 b3 :
  in_u 8 b0 -> in_u 8 b1 -> in_u 8 b2 -> in_u 8 b3 ->
  swap32 (b0 + 2 ^ 8 * b1 + 2 ^ 16 * b2 + 2 ^ 24 * b3) = b3 + 2 ^ 8 * b2 + 2 ^ 16 * b1 + 2 ^ 24 * b0.
Proof.
  intros H0 H1 H2 H3. set (v := _ + 2 ^ 24 * b3). unfold swap32.
  change 0x000000ff with (255 .<< 0). change 0x0000ff00 with (255 .<< 8).
  change 0x00ff0000 with (255 .<< 16). change 0xff000000 with (255 .<< 24).
  rewrite !land_byte by lia. unfold in_u in *.
  replace ((v / 2 ^ 0) mod 2 ^ 8) with b0 by (subst v; Z.div_mod_to_equations; lia).
  replace ((v / 2 ^ 8) mod 2 ^ 8) with b1 by (subst v; Z.div_mod_to_equations; lia).
  replace ((v / 2 ^ 16) mod 2 ^ 8) with b2 by (subst v; Z.div_mod_to_equations; lia).
  replace ((v / 2 ^ 24) mod 2 ^ 8) with b3 by (subst v; Z.div_mod_to_equations; lia).
  rewrite Z.shiftl_0_r. rewrite (Z.shiftr_shiftl_l b2 16 8), (Z.shiftr_shiftl_l b3 24 24) by lia.
  rewrite (Z.shiftl_shiftl b1) by lia. simpl (8 + 8). simpl (16 - 8). simpl (24 - 24).
  rewrite Z.shiftl_0_r. rewrite lor_bytes_be by (unfold in_u; lia). lia.
Qed.

Lemma bytes_split v :
  in_u 32 v -> exists b0 b1 b2 b3, in_u 8 b0 /\ in_u 8 b1 /\ in_u 8 b2 /\ in_u 8 b3 /\
    v = b0 + 2 ^ 8 * b1 + 2 ^ 16 * b2 + 2 ^ 24 * b3 /\
    u8 v = b0 /\ u8 (v .>> 8) = b1 /\ u8 (v .>> 16) = b2 /\ u8 (v .>> 24) = b3.
Proof.
  intros Hv. exists (u8 v), (u8 (v .>> 8)), (u8 (v .>> 16)), (u8 (v .>> 24)).
  split_and!; try (apply wrap_in_u; lia); try done.
  rewrite !shiftr_div by lia. unfold wrap, in_u in *. Z.div_mod_to_equations. lia.
Qed.

Lemma store_swap32 v : in_u 32 v -> store_le32 (swap32 v) = PUT_UINT32 v.
Proof.
  intros Hv. destruct (bytes_split v Hv) as (b0 & b1 & b2 & b3 & H0 & H1 & H2 & H3 & -> & E0 & E1 & E2 & E3).
  unfold PUT_UINT32. rewrite E0, E1, E2, E3, swap32_bytes by done.
  unfold store_le32. rewrite !shiftr_div by lia. unfold wrap, in_u in *.
  repeat f_equal; Z.div_mod_to_equations; lia.
Qed.

Lemma load_store_le32 v : in_u 32 v -> load_le32 (store_le32 v) 0 = v.
Proof.
  intros Hv. destruct (bytes_split v Hv) as (b0 & b1 & b2 & b3 & H0 & H1 & H2 & H3 & Hv' & E0 & E1 & E2 & E3).
  unfold load_le32, store_le32, byte_at. simpl. rewrite E0, E1, E2, E3. by rewrite lor_bytes.
Qed.

Lemma get_put_uint32 v : in_u 32 v -> GET_UINT32 (PUT_UINT32 v) 0 = v.
Proof.
  intros Hv. destruct (bytes_split v Hv) as (b0 & b1 & b2 & b3 & H0 & H1 & H2 & H3 & Hv' & E0 & E1 & E2 & E3).
  unfold GET_UINT32, PUT_UINT32, byte_at. simpl. rewrite E0, E1, E2, E3. by rewrite lor_bytes_be.
Qed.

Lemma byte_at_in_u d i : Forall (in_u 8) d -> in_u 8 (byte_at d i).
Proof.
  intros Hd. unfold byte_at. destruct (d !! i) as [x|] eqn:Hx.
  - rewrite (list_lookup_total_correct _ _ _ Hx). by eapply Forall_lookup_1.
  - rewrite list_lookup_total_alt, Hx. simpl. unfold in_u, inhabitant. simpl. lia.
Qed.

Lemma get_uint32_range d i : Forall (in_u 8) d -> in_u 32 (GET_UINT32 d i).
Proof.
  intros Hd. unfold GET_UINT32. rewrite lor_bytes_be by (by apply byte_at_in_u).
  pose proof (byte_at_in_u d i Hd). pose proof (byte_at_in_u d (i + 1) Hd).
  pose proof (byte_at_in_u d (i + 2) Hd). pose proof (byte_at_in_u d (i + 3) Hd).
  unfold in_u in *. lia.
Qed.

(** A byte-swapped little-endian load is a big-endian load. *)
Lemma swap_load_le32 d i : Forall (in_u 8) d -> swap32 (load_le32 d i) = GET_UINT32 d i.
Proof.
  intros Hd. unfold load_le32, GET_UINT32.
  rewrite lor_bytes, lor_bytes_be by (by apply byte_at_in_u).
  rewrite swap32_bytes by (by apply byte_at_in_u). lia.
Qed.

Lemma store_le32_bytes v : Forall (in_u 8) (store_le32 v).
Proof. unfold store_le32. repeat constructor; apply wrap_in_u; lia. Qed.
Lemma PUT_UINT32_bytes v : Forall (in_u 8) (PUT_UINT32 v).
Proof. unfold PUT_UINT32. repeat constructor; apply wrap_in_u; lia. Qed.

Lemma bytes_le32_bytes ws : Forall (in_u 8) (bytes_le32 ws).
Proof. unfold bytes_le32. induction ws; simpl; [constructor|]. repeat (constructor; [apply wrap_in_u; lia|]). done. Qed.
Lemma length_bytes_le32 ws : length (bytes_le32 ws) = (4 * length ws)%nat.
Proof.
  induction ws as [|w ws IH]; [done|].
  change (bytes_le32 (w :: ws)) with (store_le32 w ++ bytes_le32 ws).
  rewrite length_app, IH. simpl. lia.
Qed.

Lemma add_into_range w buf r : 0 <= w -> Forall (in_u w) (add_into w buf r).
Proof.
  intros Hw. unfold add_into. revert r. induction buf as [|x buf IH]; intros [|y r]; simpl; try constructor.
  - by apply wrap_in_u.
  - apply IH.
Qed.

(** The stored length: two little-endian, or two big-endian words. *)
Lemma length_le b0 b1 n :
  in_u 32 b0 -> in_u 32 b1 -> b0 + 2 ^ 32 * b1 = n mod 2 ^ 64 ->
  store_le32 b0 ++ store_le32 b1 = bytes_le 8 n.
Proof.
  intros H0 H1 Hn. unfold bytes_le, store_le32.
  change (seqZ 0 (Z.of_nat 8)) with [0; 1; 2; 3; 4; 5; 6; 7].
  cbn [fmap list_fmap app]. rewrite !shiftr_div by lia.
  unfold wrap, in_u in *.
  repeat match goal with |- _ :: _ = _ :: _ => f_equal end; Z.div_mod_to_equations; lia.
Qed.

Lemma length_be b0 b1 n :
  in_u 32 b0 -> in_u 32 b1 -> b0 + 2 ^ 32 * b1 = n mod 2 ^ 64 ->
  PUT_UINT32 b1 ++ PUT_UINT32 b0 = bytes_be 8 n.
Proof. intros H0 H1 Hn. unfold bytes_be. by rewrite <- (length_le b0 b1). Qed.
