(* ===== verification/ChecksumMd.v ===== *)
(** MD5 and SHA-1 as hash functions of whole messages: init, any sequence of
    updates and close compute the iterated compression of the padded message. *)
From S2P Require Import Prelude Checksum ChecksumStream.

(** * Compression functions on blocks of bytes *)

Definition md5_compress (h blk : list Z) : list Z := md5_transform h (words_le32 16 blk).

Definition words_be32 (n : nat) (blk : list Z) : list Z :=
  (fun k => GET_UINT32 blk (4 * k)) <$> seq 0 n.
Definition sha1_compress (h blk : list Z) : list Z := (sha1_transform h (words_be32 16 blk)).1.

(** * References *)

Definition md5_pad (n : nat) : list Z :=
  0x80 :: replicate (md_zeros n) 0 ++ bytes_le 8 (8 * Z.of_nat n).
Definition sha1_pad (n : nat) : list Z :=
  0x80 :: replicate (md_zeros n) 0 ++ bytes_be 8 (8 * Z.of_nat n).

Definition md5_iv : list Z := buf (md5_sum_init (Sum32 [] 0 0 [] [])).
Definition sha1_iv : list Z := buf (sha1_sum_init (Sum32 [] 0 0 [] [])).

Definition md5_hash (msg : list Z) : list Z :=
  take 16 (bytes_le32 (md_hash md5_compress 64 md5_iv md5_pad msg)).
Definition sha1_hash (msg : list Z) : list Z :=
  take 20 (md_hash sha1_compress 64 sha1_iv sha1_pad msg ≫= PUT_UINT32).

(** * The block steps *)

#[export] Instance md5_process_ok : Process md5_process md5_compress.
Proof. split; by intros. Qed.

Lemma reverse_words_le d n :
  Forall (in_u 8) d -> swap32 <$> words_le32 n d = words_be32 n d.
Proof.
  intros Hd. unfold words_le32, words_be32. rewrite <- list_fmap_compose.
  apply list_fmap_ext. intros i k _. simpl. by apply swap_load_le32.
Qed.

Lemma length_words_le n d : length (words_le32 n d) = n.
Proof. unfold words_le32. by rewrite length_fmap, length_seq. Qed.

(** The sub-rounds keep the number of words. *)
Definition keeps_words (g : list Z * list Z -> list Z * list Z) : Prop :=
  forall s, length (g s).2 = length s.2.

Lemma subRound_words a b c d e f k i : keeps_words (subRound a b c d e f k (word i)).
Proof. by intros []. Qed.
Lemma subRound_expand a b c d e f k i : keeps_words (subRound a b c d e f k (expand i)).
Proof. intros []. simpl. by rewrite length_insert. Qed.

Lemma sha1_lines_words : Forall keeps_words sha1_lines.
Proof.
  unfold sha1_lines.
  repeat (apply Forall_cons; split;
    [match goal with
     | |- keeps_words (subRound _ _ _ _ _ _ _ (word _)) => apply subRound_words
     | |- keeps_words (subRound _ _ _ _ _ _ _ (expand _)) => apply subRound_expand
     end|]).
  by apply Forall_nil.
Qed.

Lemma foldl_words l s :
  Forall keeps_words l -> length (foldl (fun s line => line s) s l).2 = length s.2.
Proof.
  intros Hl. revert s. induction Hl as [|g l Hg _ IH]; intros s; [done|].
  cbn [foldl]. by rewrite IH, Hg.
Qed.

Lemma sha1_transform_words h W : length (sha1_transform h W).2 = length W.
Proof.
  unfold sha1_transform. pose proof (foldl_words _ (h, W) sha1_lines_words) as Hf.
  destruct (foldl _ _ _) as [r W']. exact Hf.
Qed.

#[export] Instance sha1_process_ok : Process sha1_process sha1_compress.
Proof.
  split; [| |by intros; unfold sha1_process, sha1_reverse_transform; destruct (sha1_transform _ _)..].
  - intros s [_ Hd]. unfold sha1_process, sha1_reverse_transform, sha1_compress.
    unfold sha_byte_reverse. rewrite take_ge, drop_ge by (by rewrite length_words_le).
    rewrite app_nil_r, reverse_words_le by done. by destruct (sha1_transform _ _).
  - intros s [Hl _]. unfold sha1_process, sha1_reverse_transform.
    destruct (sha1_transform _ _) as [b W] eqn:Ht. simpl. split; [|apply bytes_le32_bytes].
    rewrite length_bytes_le32. change W with (b, W).2. rewrite <- Ht, sha1_transform_words.
    unfold sha_byte_reverse. by rewrite take_ge, drop_ge, app_nil_r, length_fmap, length_words_le
      by (by rewrite length_words_le).
Qed.

(** A fresh object. *)
Lemma init_holds f iv s :
  buffer (data s) -> buf s = iv -> bits0 s = 0 -> bits1 s = 0 -> holds f iv s [].
Proof.
  intros Hd Hb H0 H1. split.
  - split; [done|]. exists []. rewrite Hb. split; [apply absorbed_nil; lia|done].
  - unfold counted. rewrite H0, H1. unfold in_u. done || (split_and!; [lia|lia|done]).
Qed.

(** * Closing *)

(** The two copies of the length words fill the last 8 bytes. *)
Lemma memcpy_last8 d x y :
  length d = 64%nat -> length x = 4%nat -> length y = 4%nat ->
  memcpy (memcpy d 56 x) 60 y = take 56 d ++ x ++ y.
Proof.
  intros Hd Hx Hy. rewrite memcpy_all by (rewrite length_memcpy; lia).
  rewrite take_memcpy by lia. by rewrite <- app_assoc.
Qed.

#[local] Opaque md5_process memset memcpy bytes_le32.
Lemma md5_close_shape s :
  digest (md5_sum_close s) = take 16 (bytes_le32 (buf (md5_process
    (set_data (memcpy (memcpy (data (close_pad md5_process s)) 56 (store_le32 (bits0 (close_pad md5_process s))))
                 60 (store_le32 (bits1 (close_pad md5_process s))))
       (close_pad md5_process s))))).
Proof.
  unfold md5_sum_close, close_pad. change (MD5_DATASIZE - 1)%nat with (64 - 1)%nat. cbv zeta.
  case_decide; reflexivity.
Qed.
#[local] Transparent md5_process memset memcpy bytes_le32.

Lemma md5_close_hash s msg :
  holds md5_compress md5_iv s msg -> digest (md5_sum_close s) = md5_hash msg.
Proof.
  intros Hs. destruct (close_pad_ok md5_process _ _ s msg Hs) as (Hd & Hb0 & Hb1 & _).
  rewrite md5_close_shape.
  destruct Hs as [Ht (H0 & H1 & Hc)]. rewrite memcpy_last8 by (apply Hd || done).
  rewrite Hb0, Hb1, (length_le _ _ (8 * Z.of_nat (length msg))) by done.
  unfold md5_hash. do 2 f_equal.
  pose proof (close_block md5_process md5_compress md5_iv s msg (bytes_le 8 (8 * Z.of_nat (length msg)))) as Hcl.
  destruct Hcl as [_ ->]; [by split| |unfold bytes_le; apply Forall_fmap, Forall_forall; intros; apply wrap_in_u; lia|done].
  done.
Qed.

(** The words of the last SHA-1 block: the bytes up to the length are
    reversed, the length words are stored as they are. *)
Lemma sha1_last_words d b0 b1 :
  length d = 56%nat -> Forall (in_u 8) d -> in_u 32 b0 -> in_u 32 b1 ->
  sha_byte_reverse (words_le32 16 (d ++ store_le32 b1 ++ store_le32 b0)) 14 =
  words_be32 16 (d ++ PUT_UINT32 b1 ++ PUT_UINT32 b0).
Proof.
  intros Hl Hd H0 H1.
  assert (forall x k, (k < 14)%nat -> load_le32 (d ++ x) (4 * k) = load_le32 d (4 * k) /\
            GET_UINT32 (d ++ x) (4 * k) = GET_UINT32 d (4 * k)) as Hpre.
  { intros x k Hk. unfold load_le32, GET_UINT32, byte_at.
    split; rewrite !lookup_total_app_l by lia; done. }
  assert (forall x j, byte_at (d ++ x) (56 + j) = byte_at x j) as Hpost.
  { intros x j. unfold byte_at. rewrite lookup_total_app_r by lia. f_equal. lia. }
  assert (forall x j, load_le32 (d ++ x) (56 + j) = load_le32 x j /\
            GET_UINT32 (d ++ x) (56 + j) = GET_UINT32 x j) as Hload.
  { intros x j. unfold load_le32, GET_UINT32. rewrite <- !Nat.add_assoc, !Hpost. done. }
  assert (forall x, words_le32 16 (d ++ x) = words_le32 14 d ++ [load_le32 x 0; load_le32 x 4]) as Hle.
  { intros x. unfold words_le32. change (seq 0 16) with (seq 0 14 ++ [14; 15]%nat). rewrite fmap_app. f_equal.
    - apply list_fmap_ext. intros i k [-> Hk]%lookup_seq. by apply Hpre.
    - destruct (Hload x 0%nat) as [<- _], (Hload x 4%nat) as [<- _]. done. }
  assert (forall x, words_be32 16 (d ++ x) = words_be32 14 d ++ [GET_UINT32 x 0; GET_UINT32 x 4]) as Hbe.
  { intros x. unfold words_be32. change (seq 0 16) with (seq 0 14 ++ [14; 15]%nat). rewrite fmap_app. f_equal.
    - apply list_fmap_ext. intros i k [-> Hk]%lookup_seq. by apply Hpre.
    - destruct (Hload x 0%nat) as [_ <-], (Hload x 4%nat) as [_ <-]. done. }
  rewrite Hle, Hbe. unfold sha_byte_reverse.
  rewrite take_app_length', drop_app_length' by (by rewrite length_words_le).
  rewrite reverse_words_le by done. f_equal.
  change (load_le32 (store_le32 b1 ++ store_le32 b0) 4) with (load_le32 (store_le32 b0) 0).
  change (load_le32 (store_le32 b1 ++ store_le32 b0) 0) with (load_le32 (store_le32 b1) 0).
  change (GET_UINT32 (PUT_UINT32 b1 ++ PUT_UINT32 b0) 4) with (GET_UINT32 (PUT_UINT32 b0) 0).
  change (GET_UINT32 (PUT_UINT32 b1 ++ PUT_UINT32 b0) 0) with (GET_UINT32 (PUT_UINT32 b1) 0).
  by rewrite !load_store_le32, !get_put_uint32 by done.
Qed.

(** The digest bytes: the five words, byte-swapped and stored. *)
Lemma sha1_digest_bytes ws :
  Forall (in_u 32) ws ->
  take 20 (bytes_le32 (sha_byte_reverse ws 5)) = take 20 (ws ≫= PUT_UINT32).
Proof.
  intros Hws. unfold sha_byte_reverse, bytes_le32.
  do 5 (destruct ws as [|? ws]; [cbn -[store_le32 PUT_UINT32 swap32]; by rewrite ?store_swap32 by done|];
        apply Forall_cons in Hws as [? Hws]).
  cbn -[store_le32 PUT_UINT32 swap32]. rewrite !store_swap32 by done. done.
Qed.

Lemma sha1_compress_range h blk : Forall (in_u 32) (sha1_compress h blk).
Proof.
  unfold sha1_compress, sha1_transform. destruct (foldl _ _ _). simpl. apply add_into_range. lia.
Qed.

Lemma sha1_close_hash s msg :
  holds sha1_compress sha1_iv s msg -> digest (sha1_sum_close s) = sha1_hash msg.
Proof.
  intros Hs. destruct (close_pad_ok sha1_process _ _ s msg Hs) as (Hd & Hb0 & Hb1 & _).
  set (s1 := close_pad sha1_process s) in *.
  assert (digest (sha1_sum_close s) =
    take 20 (bytes_le32 (sha_byte_reverse (buf (sha1_reverse_transform 14
      (set_data (memcpy (memcpy (data s1) 56 (store_le32 (bits1 s1))) 60 (store_le32 (bits0 s1))) s1))) 5)))
    as -> by done.
  pose proof Hs as [_ (H0 & H1 & Hc)]. destruct Hd as [Hd1 Hd2].
  rewrite memcpy_last8, Hb0, Hb1 by done.
  set (d := take 56 (data s1)).
  assert (length d = 56%nat) as Hd by (subst d; rewrite length_take; lia).
  assert (Forall (in_u 8) d) as Hdb by (by apply Forall_take).
  assert (buf (sha1_reverse_transform 14 (set_data (d ++ store_le32 (bits1 s) ++ store_le32 (bits0 s)) s1)) =
    sha1_compress (buf s1) (d ++ PUT_UINT32 (bits1 s) ++ PUT_UINT32 (bits0 s))) as ->.
  { unfold sha1_reverse_transform, sha1_compress. cbn [buf data set_data set_buf].
    rewrite sha1_last_words by done. by destruct (sha1_transform _ _). }
  rewrite sha1_digest_bytes by apply sha1_compress_range. unfold sha1_hash. f_equal. f_equal.
  rewrite (length_be _ _ (8 * Z.of_nat (length msg))) by done.
  destruct (close_block sha1_process sha1_compress sha1_iv s msg (bytes_be 8 (8 * Z.of_nat (length msg))))
    as [Hbuf Hcl]; [done|done| |].
  { unfold bytes_be, bytes_le. apply Forall_reverse, Forall_fmap, Forall_forall. intros. apply wrap_in_u. lia. }
  rewrite process_buf in Hcl by done. exact Hcl.
Qed.

(** * Properties *)

(** MD5 and SHA-1 over any division of a message into pieces: initialising,
    updating with the pieces and closing gives the digest of the whole message,
    padded with 0x80, zeros and its 64-bit bit length, little-endian for MD5 and
    big-endian for SHA-1. *)
Theorem md_streaming s pieces :
  buffer (data s) -> Forall (Forall (in_u 8)) pieces ->
  digest (md5_sum_close (foldl md5_sum_update (md5_sum_init s) pieces)) = md5_hash (concat pieces) /\
  digest (sha1_sum_close (foldl sha1_sum_update (sha1_sum_init s) pieces)) = sha1_hash (concat pieces).
Proof.
  intros Hd Hp. split.
  - apply md5_close_hash. apply (sum_updates_ok md5_process _ _ _ []); [|done]. by apply init_holds.
  - apply sha1_close_hash. apply (sum_updates_ok sha1_process _ _ _ []); [|done]. by apply init_holds.
Qed.

(** * The theorems at a message *)

Lemma md_streaming_witness :
  digest (md5_sum_close (foldl md5_sum_update (md5_sum_init sum_blank) abc_pieces)) =
  [0x90; 0x01; 0x50; 0x98; 0x3c; 0xd2; 0x4f; 0xb0; 0xd6; 0x96; 0x3f; 0x7d; 0x28; 0xe1; 0x7f; 0x72] /\
  digest (sha1_sum_close (foldl sha1_sum_update (sha1_sum_init sum_blank) abc_pieces)) =
  [0xa9; 0x99; 0x3e; 0x36; 0x47; 0x06; 0x81; 0x6a; 0xba; 0x3e; 0x25; 0x71; 0x78; 0x50; 0xc2; 0x6c;
   0x9c; 0xd0; 0xd8; 0x9d].
Proof.
  destruct (md_streaming sum_blank abc_pieces sum_blank_buffer abc_pieces_bytes) as [-> ->]. split; vm_compute; reflexivity.
Defined.
