(* ===== verification/ChecksumSha256.v ===== *)
(** SHA-256 as a hash function of whole messages, and the limit of its byte
    counter. *)
From S2P Require Import Prelude Checksum ChecksumStream ChecksumMd.

Open Scope c_scope.

(** * References *)

Definition sha256_iv : list Z := buf (sha256_sum_init (Sum32 [] 0 0 [] [])).
Definition sha256_hash (msg : list Z) : list Z :=
  md_hash sha256_transform 64 sha256_iv sha1_pad msg ≫= PUT_UINT32.

(** The two counter words count bytes. *)
Definition counted_bytes (s : sum32) (n : Z) : Prop :=
  in_u 32 (bits0 s) /\ in_u 32 (bits1 s) /\ bits0 s + 2 ^ 32 * bits1 s = n mod 2 ^ 64.

Definition holds256 (s : sum32) (msg : list Z) : Prop :=
  taken sha256_transform sha256_iv s msg /\ counted_bytes s (Z.of_nat (length msg)).

(** A piece whose size fits the 32-bit counter word. *)
Definition piece_ok (b : list Z) : Prop := Forall (in_u 8) b /\ Z.of_nat (length b) < 2 ^ 32.

(** * The update *)

Lemma land_mask32 x : in_u 32 x -> x .& 0xFFFFFFFF = x.
Proof.
  intros Hx. change 0xFFFFFFFF with (Z.ones 32). rewrite Z.land_ones by lia. by apply Z.mod_small.
Qed.

Lemma counter256 b0 b1 len :
  0 <= len < 2 ^ 32 -> in_u 32 b0 -> in_u 32 b1 ->
  let c0 := u32 (b0 + len) .& 0xFFFFFFFF in
  let c1 := if c0 <? len then u32 (b1 + 1) else b1 in
  in_u 32 c0 /\ in_u 32 c1 /\ c0 + 2 ^ 32 * c1 = (b0 + 2 ^ 32 * b1 + len) mod 2 ^ 64.
Proof.
  intros Hlen H0 H1 c0 c1. subst c1 c0. rewrite land_mask32 by (apply wrap_in_u; lia).
  split; [apply wrap_in_u; lia|]. unfold wrap, in_u in *.
  destruct (Z.ltb_spec ((b0 + len) mod 2 ^ 32) len); split; Z.div_mod_to_equations; lia.
Qed.

Lemma sha256_chunks_ok fuel s input msg :
  absorbed sha256_transform 64 sha256_iv (buf s) [] msg -> (length input / 64 < fuel)%nat ->
  exists rest h, sha256_chunks fuel s input = (set_buf h s, rest) /\ (length rest < 64)%nat /\
    (exists k, rest = drop k input) /\
    absorbed sha256_transform 64 sha256_iv h rest (msg ++ input).
Proof.
  revert s input msg. induction fuel as [|fuel IH]; intros s input msg Ha Hf; [lia|].
  cbn [sha256_chunks]. destruct (decide (64 <= length input)%nat) as [Hl|Hl].
  - destruct (IH (set_buf (sha256_transform (buf s) (take 64 input)) s) (drop 64 input)
      (msg ++ take 64 input)) as (rest & h & -> & Hr & [k ->] & Hab).
    + apply (absorbed_block sha256_transform 64 sha256_iv ltac:(lia) _ []); [done|].
      rewrite length_take. cbn [length]. lia.
    + rewrite length_drop. apply Nat.div_lt_upper_bound; [lia|].
      pose proof (Nat.div_mod_eq (length input) 64).
      pose proof (Nat.mod_upper_bound (length input) 64). lia.
    + rewrite drop_drop in *. exists (drop (64 + k) input), h. split_and!; [done|done|by exists (64 + k)%nat|].
      rewrite <- app_assoc, take_drop in Hab. exact Hab.
  - exists input, (buf s). split_and!; [by destruct s|lia|by exists 0%nat|].
    apply (absorbed_more sha256_transform 64 sha256_iv _ []); [done|simpl; lia].
Qed.

Lemma waiting256 s msg :
  holds256 s msg -> exists r, absorbed sha256_transform 64 sha256_iv (buf s) r msg /\
    take (length r) (data s) = r /\ Z.to_nat (bits0 s .& 0x3F) = length r /\ (length r < 64)%nat.
Proof.
  intros ((Hd & r & Hr & Ht) & H0 & H1 & Hc). exists r.
  split_and!; [done|done| |by destruct Hr as (? & ? & ? & ? & _)].
  assert (length r = (length msg mod 64)%nat) as -> by (eapply absorbed_rest; [|exact Hr]; lia).
  change 0x3F with (Z.ones 6). rewrite Z.land_ones by lia. change (2 ^ 6) with 64.
  rewrite <- (Nat2Z.id (_ mod _)), Nat2Z.inj_mod. f_equal. unfold in_u in *.
  change (Z.of_nat 64) with 64. Z.div_mod_to_equations. lia.
Qed.

Lemma sha256_update_ok s msg b :
  holds256 s msg -> piece_ok b -> holds256 (sha256_sum_update s b) (msg ++ b).
Proof.
  intros Hs [Hb Hlen]. destruct (waiting256 _ _ Hs) as (r & Hr & Ht & Hhave & Hr64).
  pose proof Hs as ((Hd & _) & H0 & H1 & Hc). unfold sha256_sum_update.
  destruct (decide _) as [Hz|Hz]; [apply nil_length_inv in Hz as ->; by rewrite app_nil_r|].
  rewrite Hhave. set (c0 := u32 _ .& _). set (c1 := if c0 <? _ then _ else _).
  destruct (counter256 (bits0 s) (bits1 s) (Z.of_nat (length b))) as (Hc0 & Hc1 & Hcc); [lia|done|done|].
  fold c0 in Hc0, Hcc. fold c1 in Hc1, Hcc.
  assert (forall h d g, counted_bytes (Sum32 h c0 c1 d g) (Z.of_nat (length (msg ++ b)))) as Hcount.
  { intros h d g. split_and!; [done..|]. simpl. rewrite Hcc, Hc, Z.add_mod_idemp_l by lia.
    f_equal. rewrite length_app. lia. }
  set (fill := (64 - length r)%nat). set (s1 := set_bits c0 c1 s). destruct Hd as [Hd1 Hd2].
  destruct (decide (0 < length r /\ fill <= length b)%nat) as [[Hr0 Hfill]|Hno].
  - (* the waiting block is completed *)
    assert (length (take fill b) = fill) as Hl by (rewrite length_take; lia).
    set (s2 := set_data _ s1). assert (data s2 = r ++ take fill b) as Hd3.
    { subst s2. simpl. rewrite memcpy_all by lia. by rewrite Ht. }
    destruct (sha256_chunks_ok (S (length (drop fill b) / 64))
      (set_buf (sha256_transform (buf s2) (data s2)) s2) (drop fill b) (msg ++ take fill b))
      as (rest & h & -> & Hrest & [k Hk] & Hab); [|lia|].
    { rewrite Hd3. apply absorbed_block; [lia|done|lia]. }
    rewrite <- app_assoc, take_drop in Hab.
    assert (Forall (in_u 8) rest) as Hrb by (rewrite Hk; by apply Forall_drop, Forall_drop).
    assert (buffer (data s2)) as Hbs2.
    { apply buffer_memcpy; [done|lia|by apply Forall_take]. }
    destruct (decide (length rest = 0)%nat) as [Hz'|Hz'].
    + apply nil_length_inv in Hz' as ->. split; [|apply Hcount]. split; [done|]. by exists [].
    + split; [|apply Hcount]. split; [apply buffer_memcpy; [done|lia|done]|].
      exists rest. split; [done|]. cbn [data set_data set_buf]. destruct Hbs2. by rewrite take_memcpy by lia.
  - destruct (decide (length r = 0)%nat) as [Hr0|Hr0].
    + (* no byte was waiting *)
      apply nil_length_inv in Hr0 as ->.
      destruct (sha256_chunks_ok (S (length b / 64)) s1 b msg) as (rest & h & -> & Hrest & [k Hk] & Hab);
        [done|lia|].
      assert (Forall (in_u 8) rest) as Hrb by (rewrite Hk; by apply Forall_drop).
      destruct (decide (length rest = 0)%nat) as [Hz'|Hz'].
      * apply nil_length_inv in Hz' as ->. split; [|apply Hcount]. split; [done|]. by exists [].
      * split; [|apply Hcount]. split; [apply buffer_memcpy; [done|simpl; lia|done]|].
        exists rest. split; [done|]. cbn [data set_data set_buf s1 set_bits]. simpl length.
        by rewrite take_memcpy by lia.
    + (* the piece does not complete the waiting block *)
      assert (sha256_chunks (S (length b / 64)) s1 b = (s1, b)) as ->.
      { cbn [sha256_chunks]. by rewrite decide_False by lia. }
      rewrite decide_False by done. split; [|apply Hcount].
      split; [apply buffer_memcpy; [done|lia|done]|]. exists (r ++ b). split.
      * apply absorbed_more; [done|lia].
      * rewrite length_app. cbn [data set_data s1 set_bits]. rewrite take_memcpy by lia. by rewrite Ht.
Qed.

Lemma sha256_updates_ok s msg pieces :
  holds256 s msg -> Forall piece_ok pieces ->
  holds256 (foldl sha256_sum_update s pieces) (msg ++ concat pieces).
Proof.
  revert s msg. induction pieces as [|b pieces IH]; intros s msg Hs Hp; simpl.
  - by rewrite app_nil_r.
  - apply Forall_cons in Hp as [Hb Hp]. rewrite app_assoc. apply IH; [|done]. by apply sha256_update_ok.
Qed.

(** * Closing *)

(** The bit length, from the byte counter. *)
Lemma bit_length b0 b1 n :
  in_u 32 b0 -> in_u 32 b1 -> b0 + 2 ^ 32 * b1 = n mod 2 ^ 64 ->
  PUT_UINT32 ((b0 .>> 29) .| u32 (b1 .<< 3)) ++ PUT_UINT32 (u32 (b0 .<< 3)) = bytes_be 8 (8 * n).
Proof.
  intros H0 H1 Hn. rewrite !Z.shiftl_mul_pow2, shiftr_div by lia. change (2 ^ 3) with 8.
  assert (u32 (b1 * 8) = (b1 mod 2 ^ 29) .<< 3) as ->.
  { rewrite Z.shiftl_mul_pow2 by lia. unfold wrap, in_u in *. Z.div_mod_to_equations. lia. }
  unfold in_u in *. rewrite Z.lor_comm, lor_shiftl_add by (unfold in_u; Z.div_mod_to_equations; lia).
  unfold wrap. apply length_be; unfold in_u; Z.div_mod_to_equations; lia.
Qed.

Lemma sha256_close_hash s msg :
  holds256 s msg -> digest (sha256_sum_close s) = sha256_hash msg.
Proof.
  intros Hs. unfold sha256_sum_close. pose proof Hs as [_ (H0 & H1 & Hc)].
  rewrite (bit_length _ _ _ H0 H1 Hc). cbn [digest set_digest].
  set (last := bits0 s .& 0x3F). set (padn := if last <? 56 then _ else _).
  assert (0 <= last < 64 /\ last = Z.of_nat (length msg mod 64)) as [Hlast Hlm].
  { subst last. change 0x3F with (Z.ones 6). rewrite Z.land_ones by lia. rewrite Nat2Z.inj_mod.
    change (2 ^ 6) with 64. change (Z.of_nat 64) with 64. unfold in_u in *.
    split; Z.div_mod_to_equations; lia. }
  assert (take (Z.to_nat padn) sha256_padding = 0x80 :: replicate (md_zeros (length msg)) 0) as Hpad.
  { unfold sha256_padding. replace (Z.to_nat padn) with (S (md_zeros (length msg))).
    - cbn [take]. rewrite take_replicate. do 2 f_equal.
      assert (md_zeros (length msg) < 64)%nat by (apply Nat.mod_upper_bound; lia). lia.
    - subst padn. unfold md_zeros. destruct (Z.ltb_spec last 56).
      + replace ((119 - length msg mod 64) mod 64)%nat with (55 - length msg mod 64)%nat
          by (apply (Nat.mod_unique _ _ 1); lia). lia.
      + replace ((119 - length msg mod 64) mod 64)%nat with (119 - length msg mod 64)%nat
          by (apply (Nat.mod_unique _ _ 0); lia). lia. }
  rewrite Hpad. set (len8 := bytes_be 8 _).
  assert (Forall (in_u 8) len8) as Hl8.
  { unfold len8, bytes_be, bytes_le. apply Forall_reverse, Forall_fmap, Forall_forall. intros. apply wrap_in_u. lia. }
  assert (holds256 (sha256_sum_update (sha256_sum_update s (0x80 :: replicate (md_zeros (length msg)) 0)) len8)
    ((msg ++ 0x80 :: replicate (md_zeros (length msg)) 0) ++ len8)) as [(_ & r & Hr & _) _].
  { assert (md_zeros (length msg) < 64)%nat by (apply Nat.mod_upper_bound; lia).
    apply sha256_update_ok; [apply sha256_update_ok; [done|]|]; split.
    - constructor; [unfold in_u; lia|apply Forall_replicate; unfold in_u; lia].
    - cbn [length]. rewrite length_replicate. lia.
    - done.
    - done. }
  unfold sha256_hash. f_equal. symmetry. apply absorbed_hash; [lia|].
  assert (r = []) as ->.
  { apply nil_length_inv. rewrite (absorbed_rest sha256_transform 64 sha256_iv ltac:(lia) _ _ _ Hr).
    rewrite !length_app. cbn [length]. rewrite length_replicate. change (length len8) with 8%nat.
    unfold md_zeros. pose proof (Nat.div_mod_eq (length msg) 64).
    pose proof (Nat.mod_upper_bound (length msg) 64 ltac:(lia)).
    pose proof (Nat.div_mod_eq (119 - length msg mod 64) 64).
    pose proof (Nat.mod_upper_bound (119 - length msg mod 64) 64 ltac:(lia)).
    symmetry. apply (Nat.mod_unique _ _ (length msg / 64 + 2 - (119 - length msg mod 64) / 64)); lia. }
  by rewrite <- app_assoc in Hr.
Qed.

(** The block buffer stays one. *)
Lemma sha256_close_buffer s msg : holds256 s msg -> buffer (data (sha256_sum_close s)).
Proof.
  intros Hs. unfold sha256_sum_close. cbn [data set_digest].
  assert (forall t m b, holds256 t m -> piece_ok b -> holds256 (sha256_sum_update t b) (m ++ b)) as Hu
    by (intros; by apply sha256_update_ok).
  eapply Hu in Hs; [eapply Hu in Hs; [by destruct Hs as [[Hd _] _]|]|].
  - split; [|done]. apply Forall_app. split; apply PUT_UINT32_bytes.
  - split.
    + apply Forall_take. constructor; [unfold in_u; lia|]. apply Forall_replicate. unfold in_u. lia.
    + rewrite length_take. unfold sha256_padding. cbn [length]. rewrite length_replicate. lia.
Qed.

(** * Properties *)

(** SHA-256 over any division of a message into pieces of less than 4 GiB
    gives the digest of the whole message, padded with 0x80, zeros and its
    64-bit big-endian bit length. *)
Theorem sha256_streaming s pieces :
  buffer (data s) -> Forall piece_ok pieces ->
  digest (sha256_sum_close (foldl sha256_sum_update (sha256_sum_init s) pieces)) =
  sha256_hash (concat pieces).
Proof.
  intros Hd Hp. apply sha256_close_hash. apply (sha256_updates_ok _ []); [|done].
  split; [|by split_and!]. split; [done|]. exists []. split; [apply absorbed_nil; lia|done].
Qed.

(** The number of bytes the two counter words stand for. *)
Definition byte_count (s : sum32) : Z := bits0 s + 2 ^ 32 * bits1 s.

(** The limit on the size of a piece is needed: sha256_sum_update adds at
    most one to the high counter word, so a fresh object that is fed a single
    piece of 8 GiB counts 4 GiB, while two pieces of 4 GiB are counted in
    full. *)
Theorem sha256_counter_loss s b :
  Z.of_nat (length b) = 2 ^ 32 ->
  byte_count (sha256_sum_update (sha256_sum_init s) (b ++ b)) = Z.of_nat (length b) /\
  byte_count (sha256_sum_update (sha256_sum_update (sha256_sum_init s) b) b) = Z.of_nat (length (b ++ b)).
Proof.
  intros Hb. set (s0 := sha256_sum_init s).
  assert (forall t x, (0 < length x)%nat ->
            bits0 (sha256_sum_update t x) = u32 (bits0 t + Z.of_nat (length x)) .& 0xFFFFFFFF /\
            bits1 (sha256_sum_update t x) =
              if u32 (bits0 t + Z.of_nat (length x)) .& 0xFFFFFFFF <? Z.of_nat (length x)
              then u32 (bits1 t + 1) else bits1 t) as Hbits.
  { intros t x Hx. unfold sha256_sum_update. rewrite decide_False by lia.
    assert (forall fuel t input, bits0 (sha256_chunks fuel t input).1 = bits0 t /\
              bits1 (sha256_chunks fuel t input).1 = bits1 t) as Hch.
    { induction fuel as [|fuel IH]; intros u input; simpl; [done|].
      destruct (decide _); [|done]. destruct (IH (set_buf (sha256_transform (buf u) (take 64 input)) u) (drop 64 input)).
      done. }
    destruct (decide (_ /\ _)%nat) as [?|?];
      (destruct (sha256_chunks _ _ _) as [u rest] eqn:He;
       match type of He with sha256_chunks ?f ?v ?i = _ => pose proof (Hch f v i) as Hu end;
       rewrite He in Hu; simpl in Hu; destruct (decide _); simpl; exact Hu). }
  assert (0 < length b)%nat by lia.
  destruct (Hbits s0 (b ++ b)) as [E0 E1]; [rewrite length_app; lia|].
  destruct (Hbits s0 b) as [F0 F1]; [lia|].
  destruct (Hbits (sha256_sum_update s0 b) b) as [G0 G1]; [lia|].
  rewrite length_app, Nat2Z.inj_add, Hb in E0, E1. rewrite Hb in F0, F1, G0, G1.
  unfold byte_count. rewrite length_app, Nat2Z.inj_add, Hb, E0, E1, G0, G1, F0, F1. by vm_compute.
Qed.

(** * The theorems at a message *)

Lemma abc_pieces_ok : Forall piece_ok abc_pieces.
Proof. repeat constructor; done. Qed.

Lemma sha256_streaming_witness :
  digest (sha256_sum_close (foldl sha256_sum_update (sha256_sum_init sum_blank) abc_pieces)) =
  sha256_hash [97; 98; 99].
Proof. exact (sha256_streaming sum_blank abc_pieces sum_blank_buffer abc_pieces_ok). Defined.

(** A piece of 4 GiB. *)
Lemma sha256_counter_loss_witness :
  let b := replicate (Z.to_nat (2 ^ 32)) 0 in
  byte_count (sha256_sum_update (sha256_sum_init sum_blank) (b ++ b)) = Z.of_nat (length b) /\
  byte_count (sha256_sum_update (sha256_sum_update (sha256_sum_init sum_blank) b) b) =
    Z.of_nat (length (b ++ b)).
Proof.
  exact (sha256_counter_loss sum_blank (replicate (Z.to_nat (2 ^ 32)) 0)
    (eq_trans (f_equal Z.of_nat (length_replicate (Z.to_nat (2 ^ 32)) 0)) (Z2Nat.id (2 ^ 32) ltac:(lia)))).
Defined.
