(* ===== verification/ChecksumSha512.v ===== *)
(** SHA-384 and SHA-512 as hash functions of whole messages, and the limit of
    their bit counter. *)
From S2P Require Import Prelude Checksum ChecksumStream.

Open Scope c_scope.

(** * References *)

Definition sha384_iv : list Z := H64 (sha384_sum_init (Sum64 [] [] 0 0 0 [])).
Definition sha512_iv : list Z := H64 (sha512_sum_init (Sum64 [] [] 0 0 0 [])).

(** 0x80, zeros up to 112 modulo 128, and the 128-bit big-endian bit length. *)
Definition sha512_zeros (n : nat) : nat := ((239 - n mod 128) mod 128)%nat.
Definition sha512_pad (n : nat) : list Z :=
  0x80 :: replicate (sha512_zeros n) 0 ++ bytes_be 16 (8 * Z.of_nat n).

Definition sha512_hash_from (iv msg : list Z) : list Z :=
  md_hash sha512_transform 128 iv sha512_pad msg ≫= PUT_UINT64.

Section stream.
Context (iv : list Z).

(** A sum object that has absorbed [msg], as long as the message is so short
    that the low counter word suffices. *)
Record holds512 (s : sum64) (msg : list Z) : Prop := Holds512 {
  h5_block : length (block s) = 128%nat;
  h5_absorbed : exists r, absorbed sha512_transform 128 iv (H64 s) r msg /\
    take (length r) (block s) = r /\ block_len s = Z.of_nat (length r);
  h5_count : data_len0 s = 8 * Z.of_nat (length msg) /\ data_len1 s = 0;
  h5_short : 8 * Z.of_nat (length msg) < 2 ^ 64;
}.

Lemma sha512_chunks_ok fuel s rest msg :
  length (block s) = 128%nat -> absorbed sha512_transform 128 iv (H64 s) [] msg ->
  (length rest / 128 < fuel)%nat ->
  exists s' r, sha512_chunks fuel s rest = (s', r) /\ (length r < 128)%nat /\
    length (block s') = 128%nat /\ block_len s' = block_len s /\
    data_len0 s' = data_len0 s /\ data_len1 s' = data_len1 s /\
    absorbed sha512_transform 128 iv (H64 s') r (msg ++ rest).
Proof.
  revert s rest msg. induction fuel as [|fuel IH]; intros s rest msg Hd Ha Hf; [lia|].
  cbn [sha512_chunks]. unfold SHA2_BLOCK_LEN. destruct (decide (128 <= length rest)%nat) as [Hl|Hl].
  - assert (length (take 128 rest) = 128%nat) as Ht by (rewrite length_take; lia).
    assert (memcpy (block s) 0 (take 128 rest) = take 128 rest) as ->
      by (rewrite memcpy_all by lia; done).
    edestruct (IH (Sum64 (sha512_transform (H64 s) (take 128 rest)) (take 128 rest) (block_len s)
      (data_len0 s) (data_len1 s) (digest64 s)) (drop 128 rest) (msg ++ take 128 rest))
      as (s' & r & Hs' & Hr & Hb & Hbl & Hl0 & Hl1 & Hab); [done| | |].
    + by apply (absorbed_block sha512_transform 128 iv ltac:(lia) _ []).
    + rewrite length_drop. apply Nat.div_lt_upper_bound; [lia|].
      pose proof (Nat.div_mod_eq (length rest) 128).
      pose proof (Nat.mod_upper_bound (length rest) 128). lia.
    + rewrite <- app_assoc, take_drop in Hab. exists s', r. by split_and!.
  - exists s, rest. split_and!; try done; [lia|].
    apply (absorbed_more sha512_transform 128 iv _ []); [done|simpl; lia].
Qed.

Lemma sha512_update_ok s msg b :
  holds512 s msg -> 8 * Z.of_nat (length (msg ++ b)) < 2 ^ 64 ->
  holds512 (sha512_sum_update s b) (msg ++ b).
Proof.
  intros Hs Hshort. unfold sha512_sum_update.
  destruct (decide _) as [Hz|Hz]; [apply nil_length_inv in Hz as ->; by rewrite app_nil_r|].
  destruct Hs as [Hb (r & Hr & Ht & Hbl) [Hc0 Hc1] _].
  assert (length r < 128)%nat as Hr128 by (by destruct Hr as (? & ? & ? & ? & _)).
  rewrite length_app in Hshort.
  assert (u64 (data_len0 s + u64 (Z.of_nat (length b) * 8)) = 8 * Z.of_nat (length (msg ++ b))) as ->.
  { rewrite Hc0, length_app. rewrite !wrap_id; unfold in_u; try rewrite wrap_id; unfold in_u; lia. }
  rewrite length_app. destruct (Z.ltb_spec (8 * Z.of_nat (length msg + length b)) (Z.of_nat (length b))) as [|_];
    [lia|].
  rewrite <- length_app. set (n := 8 * Z.of_nat (length (msg ++ b))).
  unfold SHA2_BLOCK_LEN. cbn [H64 block block_len data_len0 data_len1 digest64]. rewrite Hbl, Nat2Z.id.
  rewrite decide_True by lia.
  set (fill := Nat.min (128 - length r) (length b)).
  assert (length (take fill b) = fill) as Hlf by (rewrite length_take; lia).
  set (blk := memcpy (block s) (length r) (take fill b)).
  assert (length blk = 128%nat) as Hblk by (subst blk; rewrite length_memcpy; lia).
  assert (u8 (Z.of_nat (length r) + Z.of_nat fill) = Z.of_nat (length r + fill)) as ->.
  { rewrite wrap_id; unfold in_u; lia. }
  destruct (decide (Z.of_nat (length r + fill) = 128)) as [Hfull|Hpart].
  - assert (blk = r ++ take fill b) as ->.
    { subst blk. rewrite memcpy_all by lia. by rewrite Ht. }
    edestruct (sha512_chunks_ok (S (length (drop fill b) / 128))
      (Sum64 (sha512_transform (H64 s) (r ++ take fill b)) (r ++ take fill b) 0 n (data_len1 s) (digest64 s))
      (drop fill b) (msg ++ take fill b)) as (s' & rest & -> & Hrest & Hb' & Hbl' & Hl0 & Hl1 & Hab); [done| |lia|].
    { apply absorbed_block; [lia|done|lia]. }
    rewrite <- app_assoc, take_drop in Hab. simpl in Hbl', Hl0, Hl1.
    destruct (decide (0 < length rest)%nat) as [Hp|Hp].
    + split; cbn [H64 block block_len data_len0 data_len1 digest64].
      * rewrite length_memcpy by lia. done.
      * exists rest. split_and!; [done|by rewrite take_memcpy by lia|rewrite wrap_id; unfold in_u; lia].
      * by rewrite Hl0, Hl1.
      * by rewrite length_app.
    + assert (rest = []) as -> by (apply nil_length_inv; lia). split; [done| | |by rewrite length_app].
      * exists []. by rewrite Hbl'.
      * by rewrite Hl0, Hl1.
  - assert (fill = length b) as Hfb by lia.
    assert (drop fill b = []) as -> by (apply drop_ge; lia).
    assert (forall t, sha512_chunks (S (length (@nil Z) / 128)) t [] = (t, [])) as -> by done.
    rewrite decide_False by (cbn [length]; lia). split; cbn [H64 block block_len data_len0 data_len1 digest64].
    + done.
    + exists (r ++ b). rewrite length_app. split_and!.
      * apply absorbed_more; [done|lia].
      * subst blk. rewrite take_memcpy by lia. rewrite Ht. f_equal. apply take_ge. lia.
      * lia.
    + done.
    + by rewrite length_app.
Qed.

Lemma sha512_updates_ok s msg pieces :
  holds512 s msg -> 8 * Z.of_nat (length (msg ++ concat pieces)) < 2 ^ 64 ->
  holds512 (foldl sha512_sum_update s pieces) (msg ++ concat pieces).
Proof.
  revert s msg. induction pieces as [|b pieces IH]; intros s msg Hs Hp; simpl in *.
  - by rewrite app_nil_r.
  - rewrite app_assoc in *. apply IH; [|done]. apply sha512_update_ok; [done|].
    rewrite length_app in Hp. lia.
Qed.
End stream.

(** * Closing *)

Lemma length_be64 n :
  0 <= n < 2 ^ 64 -> PUT_UINT64 0 ++ PUT_UINT64 n = bytes_be 16 n.
Proof.
  intros Hn. unfold bytes_be, bytes_le.
  change (seqZ 0 (Z.of_nat 16)) with [0; 1; 2; 3; 4; 5; 6; 7; 8; 9; 10; 11; 12; 13; 14; 15].
  cbn [fmap list_fmap reverse rev_append app PUT_UINT64].
  unfold PUT_UINT64. cbn [app]. rewrite !shiftr_div by lia. unfold wrap.
  repeat match goal with |- _ :: _ = _ :: _ => f_equal end; try reflexivity;
    try (Z.div_mod_to_equations; lia).
Qed.

Lemma sha512_zeros_spec r :
  (r < 128)%nat ->
  let zeros := 896 - (Z.of_nat r * 8 + 1) in
  let zeros := if zeros <? 0 then zeros + 128 * 8 else zeros in
  Z.to_nat ((zeros - 7) / 8) = ((239 - r) mod 128)%nat.
Proof.
  intros Hr zeros0 zeros. subst zeros zeros0. destruct (Z.ltb_spec (896 - (Z.of_nat r * 8 + 1)) 0).
  - replace ((239 - r) mod 128)%nat with (239 - r)%nat by (apply (Nat.mod_unique _ _ 0); lia).
    Z.div_mod_to_equations. lia.
  - replace ((239 - r) mod 128)%nat with (111 - r)%nat by (apply (Nat.mod_unique _ _ 1); lia).
    Z.div_mod_to_equations. lia.
Qed.

Lemma sha512_close_hash iv s msg :
  holds512 iv s msg -> 8 * (Z.of_nat (length msg) + 256) < 2 ^ 64 ->
  digest64 (sha512_sum_close s) = sha512_hash_from iv msg /\
  length (block (sha512_sum_close s)) = 128%nat.
Proof.
  intros Hs Hshort. pose proof Hs as [Hb (r & Hr & Ht & Hbl) [Hc0 Hc1] _].
  unfold sha512_sum_close. rewrite Hbl, Hc0, Hc1.
  pose proof (absorbed_rest sha512_transform 128 iv ltac:(lia) _ _ _ Hr) as Hlr.
  assert (length r < 128)%nat as Hr128 by (by destruct Hr as (? & ? & ? & ? & _)).
  rewrite sha512_zeros_spec by done. rewrite length_be64 by lia.
  assert (((239 - length r) mod 128)%nat = sha512_zeros (length msg)) as -> by (by rewrite Hlr).
  change (0x80 :: replicate (sha512_zeros (length msg)) 0 ++ bytes_be 16 (8 * Z.of_nat (length msg)))
    with (sha512_pad (length msg)).
  assert (length (sha512_pad (length msg)) = S (sha512_zeros (length msg)) + 16)%nat as Hlp.
  { unfold sha512_pad. cbn [length]. rewrite length_app, length_replicate. done. }
  assert (sha512_zeros (length msg) < 128)%nat as Hz by (apply Nat.mod_upper_bound; lia).
  destruct (sha512_update_ok iv s msg (sha512_pad (length msg)) Hs) as [Hblk (r' & Hr' & _) _ _].
  { rewrite length_app. lia. }
  cbn [digest64 block]. split; [|exact Hblk].
  unfold sha512_hash_from. f_equal. symmetry. apply absorbed_hash; [lia|].
  assert (r' = []) as ->; [|done].
  apply nil_length_inv. rewrite (absorbed_rest sha512_transform 128 iv ltac:(lia) _ _ _ Hr').
  rewrite length_app, Hlp. unfold sha512_zeros. rewrite <- Hlr.
  pose proof (Nat.div_mod_eq (length msg) 128). rewrite <- Hlr in *.
  pose proof (Nat.div_mod_eq (239 - length r) 128).
  pose proof (Nat.mod_upper_bound (239 - length r) 128 ltac:(lia)).
  symmetry. apply (Nat.mod_unique _ _ (length msg / 128 + 2 - (239 - length r) / 128)); lia.
Qed.

(** * Properties *)

(** SHA-384 and SHA-512 over any division of a message of less than 2^61 -
    256 bytes into pieces give the hash of the whole message, padded with 0x80,
    zeros and its 128-bit big-endian bit length. *)
Theorem sha512_streaming s pieces :
  length (block s) = 128%nat -> 8 * (Z.of_nat (length (concat pieces)) + 256) < 2 ^ 64 ->
  digest64 (sha512_sum_close (foldl sha512_sum_update (sha512_sum_init s) pieces)) =
    sha512_hash_from sha512_iv (concat pieces) /\
  digest64 (sha512_sum_close (foldl sha512_sum_update (sha384_sum_init s) pieces)) =
    sha512_hash_from sha384_iv (concat pieces).
Proof.
  intros Hb Hshort. split; eapply sha512_close_hash; try done;
    (apply (sha512_updates_ok _ _ []); [|simpl; lia]);
    (split; [done| |done|done]); exists []; (split; [apply absorbed_nil; lia|done]).
Qed.

(** The number of bits the two counter words stand for. *)
Definition bit_count (s : sum64) : Z := data_len0 s + 2 ^ 64 * data_len1 s.

(** The bit counter of SHA-384 and SHA-512 loses its carry: with 2^64 - 8
    bits counted, two more bytes make the low word wrap to 8 while the high
    word keeps its value, because the code compares the new low word with the
    byte count instead of the bit count. *)
Theorem sha512_carry_loss s b :
  data_len0 s = 2 ^ 64 - 8 -> length b = 2%nat ->
  bit_count (sha512_sum_update s b) = bit_count s + 8 * Z.of_nat (length b) - 2 ^ 64.
Proof.
  intros Hs Hb. assert (data_len0 (sha512_sum_update s b) = 8 /\
    data_len1 (sha512_sum_update s b) = data_len1 s) as [H0 H1];
    [|unfold bit_count; rewrite H0, H1, Hs, Hb; lia].
  unfold sha512_sum_update. rewrite decide_False by lia. rewrite Hs, Hb.
  change (u64 (2 ^ 64 - 8 + u64 (Z.of_nat 2 * 8))) with 8. change (8 <? Z.of_nat 2) with false.
  cbn match. cbn [H64 block block_len data_len0 data_len1 digest64].
  assert (forall fuel t rest, data_len0 (sha512_chunks fuel t rest).1 = data_len0 t /\
            data_len1 (sha512_chunks fuel t rest).1 = data_len1 t) as Hch.
  { induction fuel as [|fuel IH]; intros t rest; simpl; [done|]. destruct (decide _); [|done].
    match goal with |- context [sha512_chunks fuel ?u ?r] => destruct (IH u r) as [-> ->] end. done. }
  destruct (decide _);
    [destruct (decide (_ = 128))|];
    (match goal with |- context [sha512_chunks ?f ?u ?r] =>
       pose proof (Hch f u r) as Hu; destruct (sha512_chunks f u r) as [v rest'] end;
     simpl in Hu; destruct Hu as [Hu0 Hu1]; destruct (decide _); simpl; rewrite ?Hu0, ?Hu1; done).
Qed.

(** * The theorems at a message *)

Definition sum64_blank : sum64 := Sum64 (replicate 8 0) (replicate 128 0) 0 0 0 [].

Lemma sha512_streaming_witness :
  digest64 (sha512_sum_close (foldl sha512_sum_update (sha512_sum_init sum64_blank) abc_pieces)) =
    sha512_hash_from sha512_iv [97; 98; 99] /\
  digest64 (sha512_sum_close (foldl sha512_sum_update (sha384_sum_init sum64_blank) abc_pieces)) =
    sha512_hash_from sha384_iv [97; 98; 99].
Proof. exact (sha512_streaming sum64_blank abc_pieces eq_refl eq_refl). Defined.

(** The object after 2^61 - 1 zero bytes, but for the hash value. *)
Definition sum64_full : sum64 :=
  Sum64 (replicate 8 0) (replicate 128 0) 127 (2 ^ 64 - 8) 0 [].

Lemma sha512_carry_loss_witness :
  bit_count (sha512_sum_update sum64_full [1; 2]) = bit_count sum64_full + 8 * 2 - 2 ^ 64.
Proof. exact (sha512_carry_loss sum64_full [1; 2] eq_refl eq_refl). Defined.
