(* ===== verification/ChecksumRounds.v ===== *)
(** The unrolled transformations of Checksum.v against the round loops of the
    standards: RFC 1321 (MD5) and FIPS 180-4 (SHA-1, SHA-256). The code renames
    its working variables from line to line, keeps the SHA-1 schedule in a
    circular buffer of 16 words, and uses cheaper forms of the selection and
    majority functions. *)
From S2P Require Import Prelude Checksum ChecksumStream ChecksumMd ChecksumSha256 ChecksumSha512.

Open Scope c_scope.

(** * Bitwise identities *)

Lemma not32_testbit x i : 0 <= i -> Z.testbit (u32 (Z.lnot x)) i = (i <? 32) && negb (Z.testbit x i).
Proof.
  intros Hi. unfold wrap. destruct (Z.ltb_spec i 32).
  - rewrite Z.mod_pow2_bits_low by lia. by rewrite Z.lnot_spec.
  - by rewrite Z.mod_pow2_bits_high by lia.
Qed.

(** Equality of words, bit by bit; words in range have no bit from 32 on. *)
Ltac bitwise :=
  apply Z.bits_inj'; let i := fresh "i" in let Hi := fresh "Hi" in intros i Hi;
  rewrite ?Z.lxor_spec, ?Z.lor_spec, ?Z.land_spec, ?Z.lxor_spec, ?Z.lor_spec, ?not32_testbit by done;
  destruct (Z.ltb_spec i 32);
  repeat match goal with
  | H : in_u 32 ?x |- context [Z.testbit ?x i] =>
      rewrite (testbit_above 32 x i H) by done
  end;
  repeat match goal with |- context [Z.testbit ?x i] => destruct (Z.testbit x i) end; reflexivity.

Lemma select_eq x y z :
  in_u 32 x -> in_u 32 y -> in_u 32 z -> z .^ (x .& (y .^ z)) = (x .& y) .^ (u32 (Z.lnot x) .& z).
Proof. intros. bitwise. Qed.

Lemma select_or_eq x y z :
  in_u 32 x -> in_u 32 y -> in_u 32 z -> z .^ (x .& (y .^ z)) = (x .& y) .| (u32 (Z.lnot x) .& z).
Proof. intros. bitwise. Qed.

Lemma majority_eq x y z :
  in_u 32 x -> in_u 32 y -> in_u 32 z -> (x .& y) .| (z .& (x .| y)) = (x .& y) .^ (x .& z) .^ (y .& z).
Proof. intros. bitwise. Qed.

Lemma in_u_shiftr w x s : 0 <= s -> in_u w x -> in_u w (x .>> s).
Proof.
  unfold in_u. intros Hs Hx. rewrite Z.shiftr_div_pow2 by done.
  pose proof (Z.pow_pos_nonneg 2 s ltac:(lia) Hs).
  split; [apply Z.div_pos; lia|]. apply Z.div_lt_upper_bound; [lia|]. nia.
Qed.

(** * MD5: RFC 1321 *)

Definition md5_T : list Z :=
  [0xd76aa478; 0xe8c7b756; 0x242070db; 0xc1bdceee;
   0xf57c0faf; 0x4787c62a; 0xa8304613; 0xfd469501;
   0x698098d8; 0x8b44f7af; 0xffff5bb1; 0x895cd7be;
   0x6b901122; 0xfd987193; 0xa679438e; 0x49b40821;
   0xf61e2562; 0xc040b340; 0x265e5a51; 0xe9b6c7aa;
   0xd62f105d; 0x02441453; 0xd8a1e681; 0xe7d3fbc8;
   0x21e1cde6; 0xc33707d6; 0xf4d50d87; 0x455a14ed;
   0xa9e3e905; 0xfcefa3f8; 0x676f02d9; 0x8d2a4c8a;
   0xfffa3942; 0x8771f681; 0x6d9d6122; 0xfde5380c;
   0xa4beea44; 0x4bdecfa9; 0xf6bb4b60; 0xbebfbc70;
   0x289b7ec6; 0xeaa127fa; 0xd4ef3085; 0x04881d05;
   0xd9d4d039; 0xe6db99e5; 0x1fa27cf8; 0xc4ac5665;
   0xf4292244; 0x432aff97; 0xab9423a7; 0xfc93a039;
   0x655b59c3; 0x8f0ccc92; 0xffeff47d; 0x85845dd1;
   0x6fa87e4f; 0xfe2ce6e0; 0xa3014314; 0x4e0811a1;
   0xf7537e82; 0xbd3af235; 0x2ad7d2bb; 0xeb86d391].

(** The auxiliary functions F, G, H, I; the word and the shift of round [i]. *)
Definition md5_aux (i : nat) (x y z : Z) : Z :=
  match (i / 16)%nat with
  | 0%nat => (x .& y) .| (u32 (Z.lnot x) .& z)
  | 1%nat => (x .& z) .| (y .& u32 (Z.lnot z))
  | 2%nat => x .^ y .^ z
  | _ => y .^ (x .| u32 (Z.lnot z))
  end.
Definition md5_index (i : nat) : nat :=
  match (i / 16)%nat with
  | 0%nat => i
  | 1%nat => (5 * i + 1) mod 16
  | 2%nat => (3 * i + 5) mod 16
  | _ => (7 * i) mod 16
  end.
Definition md5_shift (i : nat) : Z :=
  nth (i mod 4) (nth (i / 16) [[7; 12; 17; 22]; [5; 9; 14; 20]; [4; 11; 16; 23]; [6; 10; 15; 21]] []) 0.

Definition rotl32 (s x : Z) : Z := u32 (x .<< s) .| (x .>> (32 - s)).

(** [a = b + ((a + F(b, c, d) + X[k] + T[i]) <<< s)], then a rotation of the
    names. *)
Definition md5_round (X : list Z) (r : list Z) (i : nat) : list Z :=
  match r with
  | [a; b; c; d] =>
      [d; u32 (b + rotl32 (md5_shift i) (u32 (a + md5_aux i b c d + X !!! md5_index i + md5_T !!! i))); b; c]
  | _ => r
  end.

Definition md5_rounds (h X : list Z) : list Z := foldl (md5_round X) h (seq 0 64).

(** The lines of the code, by number. *)
Definition md5_fn (i : nat) : Z -> Z -> Z -> Z :=
  match (i / 16)%nat with 0%nat => md5_F1 | 1%nat => md5_F2 | 2%nat => md5_F3 | _ => md5_F4 end.
Definition md5_line (i : nat) : list Z -> list Z -> list Z :=
  md5_step (md5_fn i) ((4 - i mod 4) mod 4) ((5 - i mod 4) mod 4) ((6 - i mod 4) mod 4)
    ((7 - i mod 4) mod 4) (md5_index i) (md5_T !!! i) (md5_shift i).

Lemma md5_lines_eq : md5_lines = md5_line <$> seq 0 64.
Proof. reflexivity. Qed.

(** The registers in the order that line [i] names them. *)
Definition view (n i : nat) (r : list Z) : list Z :=
  (fun j => r !!! ((j + (n - i mod n)) mod n)%nat) <$> seq 0 n.

Lemma md5_fn_aux i x y z :
  in_u 32 x -> in_u 32 y -> in_u 32 z -> md5_fn i x y z = md5_aux i x y z.
Proof.
  intros. unfold md5_fn, md5_aux. destruct (i / 16)%nat as [|[|[|]]]; [by apply select_or_eq| |done..].
  unfold md5_F2, md5_F1. rewrite (select_or_eq z x y) by done.
  by rewrite (Z.land_comm z x), (Z.land_comm _ y).
Qed.

Lemma rotl32_in_u s x : 0 <= s <= 32 -> in_u 32 x -> in_u 32 (rotl32 s x).
Proof. intros. apply in_u_lor; [lia|apply wrap_in_u; lia|apply in_u_shiftr; [lia|done]]. Qed.

(** Addition wraps the same whether intermediate sums are wrapped or not. *)
Lemma u32_add_r a b : u32 (a + u32 b) = u32 (a + b).
Proof. unfold wrap. by rewrite Z.add_mod_idemp_r by lia. Qed.
Lemma u32_add_l a b : u32 (u32 a + b) = u32 (a + b).
Proof. unfold wrap. by rewrite Z.add_mod_idemp_l by lia. Qed.

Lemma total_range r i : Forall (in_u 32) r -> in_u 32 (r !!! i).
Proof.
  intros Hr. destruct (r !! i) as [x|] eqn:Hx.
  - rewrite (list_lookup_total_correct _ _ _ Hx). by eapply Forall_lookup_1.
  - rewrite list_lookup_total_alt, Hx. unfold in_u, inhabitant. simpl. lia.
Qed.

(** The words a step leaves alone stay in range. *)
Lemma view_range n i r : Forall (in_u 32) r -> Forall (in_u 32) (view n i r).
Proof.
  intros Hr. unfold view. apply Forall_fmap, Forall_forall. intros j _. by apply total_range.
Qed.

Lemma md5_step_view k f t s X r w x y z kk :
  Forall (in_u 32) r -> length r = 4%nat -> (k < 4)%nat ->
  w = ((4 - k) mod 4)%nat -> x = ((5 - k) mod 4)%nat -> y = ((6 - k) mod 4)%nat -> z = ((7 - k) mod 4)%nat ->
  view 4 (S k) (md5_step f w x y z kk t s X r) =
  match view 4 k r with
  | [a; b; c; d] => [d; u32 (b + rotl32 s (u32 (a + f b c d + X !!! kk + t))); b; c]
  | v => v
  end.
Proof.
  intros Hr Hl Hk -> -> -> ->.
  destruct r as [|r0 [|r1 [|r2 [|r3 []]]]]; try done. unfold md5_step, view, rotl32.
  assert (forall w fx kx, u32 (w + (fx + u32 (kx + t))) = u32 (w + fx + kx + t)) as Hs.
  { intros. rewrite Z.add_assoc, u32_add_r. f_equal. lia. }
  destruct k as [|[|[|[|]]]]; [cbn; rewrite Hs, Z.add_comm; reflexivity..|lia].
Qed.

Lemma view_0 n r : length r = n -> view n 0 r = r.
Proof.
  intros Hl. unfold view. apply list_eq. intros j. rewrite list_lookup_fmap.
  destruct (decide (j < n)%nat) as [Hj|Hj].
  - rewrite lookup_seq_lt by done. simpl. rewrite Nat.Div0.mod_0_l, Nat.sub_0_r.
    replace ((j + n) mod n)%nat with j.
    + destruct (lookup_lt_is_Some_2 r j) as [x Hx]; [lia|]. by rewrite (list_lookup_total_correct _ _ _ Hx).
    + rewrite <- (Nat.mul_1_l n) at 1. rewrite Nat.Div0.mod_add, Nat.mod_small; done.
  - rewrite lookup_seq_ge by lia. simpl. symmetry. apply lookup_ge_None_2. lia.
Qed.

Lemma view_mod n i r : n <> 0%nat -> view n i r = view n (i mod n) r.
Proof. intros Hn. unfold view. apply list_fmap_ext. intros j x _. by rewrite Nat.Div0.mod_mod. Qed.

Lemma view_S_mod n i r : (1 < n)%nat -> view n (S i) r = view n (S (i mod n)) r.
Proof.
  intros Hn. unfold view. apply list_fmap_ext. intros j x _. do 4 f_equal.
  rewrite <- (Nat.add_1_r i), <- (Nat.add_1_r (i mod n)). by rewrite Nat.Div0.add_mod_idemp_l.
Qed.

Lemma md5_line_round i X r :
  Forall (in_u 32) r -> length r = 4%nat ->
  view 4 (S i) (md5_line i X r) = md5_round X (view 4 i r) i.
Proof.
  intros Hr Hl. rewrite view_S_mod, (view_mod 4 i r) by lia. unfold md5_line.
  erewrite md5_step_view; [|done|done|apply Nat.mod_upper_bound; lia|done..].
  pose proof (view_range 4 (i mod 4) r Hr) as Hv. unfold md5_round.
  destruct (view 4 (i mod 4) r) as [|a [|b [|c [|d []]]]]; try done.
  rewrite !Forall_cons in Hv. destruct Hv as (? & ? & ? & ? & _). by rewrite md5_fn_aux.
Qed.

Lemma md5_line_keeps i X r :
  Forall (in_u 32) r -> length r = 4%nat ->
  Forall (in_u 32) (md5_line i X r) /\ length (md5_line i X r) = 4%nat.
Proof.
  intros Hr Hl. unfold md5_line, md5_step. rewrite length_insert. split; [|done].
  apply Forall_insert; [done|]. apply wrap_in_u. lia.
Qed.

(** A sequence of numbered lines that simulates a loop of rounds. *)
Lemma lines_simulate {S R} (line : nat -> S -> S) (round : R -> nat -> R)
    (sim : nat -> S -> R -> Prop) (s : S) (r : R) n :
  sim 0%nat s r ->
  (forall i s r, (i < n)%nat -> sim i s r -> sim (Datatypes.S i) (line i s) (round r i)) ->
  sim n (foldl (fun s g => g s) s (line <$> seq 0 n)) (foldl round r (seq 0 n)).
Proof.
  intros H0 Hstep.
  assert (forall k, (k <= n)%nat ->
            sim k (foldl (fun s g => g s) s (line <$> seq 0 k)) (foldl round r (seq 0 k))) as H; [|by apply H].
  induction k as [|k IH]; intros Hk; [done|].
  rewrite seq_S, fmap_app, !foldl_app. simpl. apply Hstep; [lia|]. apply IH. lia.
Qed.

Lemma foldl_args {A B} (l : list (A -> B -> B)) (a : A) (b : B) :
  foldl (fun r line => line a r) b l = foldl (fun r g => g r) b ((fun line => line a) <$> l).
Proof. revert b. induction l as [|g l IH]; intros b; [done|]. apply IH. Qed.

(** The unrolled md5_transform computes the 64 rounds of RFC 1321 and adds
    them to the chaining value. *)
Lemma md5_transform_ok h X :
  Forall (in_u 32) h -> length h = 4%nat ->
  md5_transform h X = add_into 32 h (md5_rounds h X).
Proof.
  intros Hh Hl. unfold md5_transform, md5_rounds. f_equal.
  rewrite foldl_args, md5_lines_eq, <- list_fmap_compose.
  assert (forall r, length r = 4%nat -> view 4 64 r = r) as Hv.
  { intros [|a [|b [|c [|d []]]]]; try done. }
  destruct (lines_simulate (fun i r => md5_line i X r) (md5_round X)
    (fun i s r => (Forall (in_u 32) s /\ length s = 4%nat) /\ r = view 4 i s) h h 64) as [[_ Hlen] Hr].
  - split; [done|]. by destruct h as [|a [|b [|c [|d []]]]].
  - intros i s r _ [[Hs Hsl] ->]. split; [by apply md5_line_keeps|]. symmetry. by apply md5_line_round.
  - rewrite Hr, Hv; [done|]. exact Hlen.
Qed.

(** * SHA-1: FIPS 180-4 *)

(** The message schedule of 80 words. *)
Definition sha1_schedule (M : list Z) : list Z :=
  foldl (fun W t =>
    W ++ [if decide (t < 16)%nat then M !!! t
          else rotl32 1 (W !!! (t - 3)%nat .^ W !!! (t - 8)%nat .^ W !!! (t - 14)%nat .^ W !!! (t - 16)%nat)])
    [] (seq 0 80).

Definition sha1_ft (t : nat) (x y z : Z) : Z :=
  match (t / 20)%nat with
  | 0%nat => (x .& y) .^ (u32 (Z.lnot x) .& z)
  | 2%nat => (x .& y) .^ (x .& z) .^ (y .& z)
  | _ => x .^ y .^ z
  end.
Definition sha1_Kt (t : nat) : Z := nth (t / 20) [0x5a827999; 0x6ed9eba1; 0x8f1bbcdc; 0xca62c1d6] 0.

Definition sha1_round (W : list Z) (r : list Z) (t : nat) : list Z :=
  match r with
  | [a; b; c; d; e] =>
      [u32 (rotl32 5 a + sha1_ft t b c d + e + sha1_Kt t + W !!! t); a; rotl32 30 b; c; d]
  | _ => r
  end.

Definition sha1_rounds (h M : list Z) : list Z := foldl (sha1_round (sha1_schedule M)) h (seq 0 80).

(** The lines of the code, by number. *)
Definition sha1_fn (t : nat) : Z -> Z -> Z -> Z :=
  match (t / 20)%nat with 0%nat => sha1_f1 | 1%nat => sha1_f2 | 2%nat => sha1_f3 | _ => sha1_f4 end.
Definition sha1_line (t : nat) : list Z * list Z -> list Z * list Z :=
  subRound ((5 - t mod 5) mod 5) ((6 - t mod 5) mod 5) ((7 - t mod 5) mod 5) ((8 - t mod 5) mod 5)
    ((9 - t mod 5) mod 5) (sha1_fn t) (sha1_Kt t) (if decide (t < 16)%nat then word t else expand t).

Lemma sha1_lines_eq : sha1_lines = sha1_line <$> seq 0 80.
Proof. reflexivity. Qed.

Lemma sha1_fn_ft t x y z :
  in_u 32 x -> in_u 32 y -> in_u 32 z -> sha1_fn t x y z = sha1_ft t x y z.
Proof.
  intros. unfold sha1_fn, sha1_ft.
  destruct (t / 20)%nat as [|[|[|]]]; [by apply select_eq|done|by apply majority_eq|done].
Qed.

Lemma subRound_view k f K x r W v W' a b c d e :
  length r = 5%nat -> (k < 5)%nat -> x W = (v, W') ->
  a = ((5 - k) mod 5)%nat -> b = ((6 - k) mod 5)%nat -> c = ((7 - k) mod 5)%nat ->
  d = ((8 - k) mod 5)%nat -> e = ((9 - k) mod 5)%nat ->
  (subRound a b c d e f K x (r, W)).2 = W' /\
  view 5 (S k) (subRound a b c d e f K x (r, W)).1 =
  match view 5 k r with
  | [a; b; c; d; e] => [u32 (rotl32 5 a + f b c d + e + K + v); a; rotl32 30 b; c; d]
  | v => v
  end.
Proof.
  intros Hl Hk Hx -> -> -> -> ->. unfold subRound. rewrite Hx. split; [done|].
  destruct r as [|r0 [|r1 [|r2 [|r3 [|r4 []]]]]]; try done. unfold view, rotl32, ROTL.
  assert (forall e A F, u32 (e + (A + F + K + v)) = u32 (A + F + e + K + v)) as Hs by (intros; f_equal; lia).
  destruct k as [|[|[|[|[|]]]]]; [cbn; rewrite Hs; reflexivity..|lia].
Qed.

(** The schedule holds its defining equations. *)
Lemma foldl_grow (g : list Z -> nat -> Z) n t :
  (t < n)%nat ->
  foldl (fun W t => W ++ [g W t]) [] (seq 0 n) !!! t = g (foldl (fun W t => W ++ [g W t]) [] (seq 0 t)) t /\
  (forall j, (j < t)%nat -> foldl (fun W t => W ++ [g W t]) [] (seq 0 t) !!! j =
                            foldl (fun W t => W ++ [g W t]) [] (seq 0 n) !!! j).
Proof.
  set (w k := foldl (fun W t => W ++ [g W t]) [] (seq 0 k)).
  assert (forall k, w (S k) = w k ++ [g (w k) k]) as HS.
  { intros k. subst w. cbn beta. by rewrite seq_S, foldl_app. }
  assert (forall k, length (w k) = k) as Hlen.
  { induction k as [|k IH]; [done|]. rewrite HS, length_app, IH. simpl. lia. }
  assert (forall k m j, (j < k)%nat -> (k <= m)%nat -> w m !!! j = w k !!! j) as Hpre.
  { intros k m j Hj Hm. induction Hm as [|m Hm IH]; [done|].
    rewrite HS, lookup_total_app_l by (rewrite Hlen; lia). done. }
  intros Ht. split.
  - change (w n !!! t = g (w t) t). rewrite (Hpre (S t) n) by lia.
    rewrite HS, lookup_total_app_r by (rewrite Hlen; lia). by rewrite Hlen, Nat.sub_diag.
  - intros j Hj. symmetry. apply Hpre; lia.
Qed.

Lemma sha1_schedule_eq M t :
  (t < 80)%nat ->
  sha1_schedule M !!! t =
    if decide (t < 16)%nat then M !!! t
    else rotl32 1 (sha1_schedule M !!! (t - 3)%nat .^ sha1_schedule M !!! (t - 8)%nat .^
                   sha1_schedule M !!! (t - 14)%nat .^ sha1_schedule M !!! (t - 16)%nat).
Proof.
  intros Ht. unfold sha1_schedule.
  destruct (foldl_grow (fun W t => if decide (t < 16)%nat then M !!! t
          else rotl32 1 (W !!! (t - 3)%nat .^ W !!! (t - 8)%nat .^ W !!! (t - 14)%nat .^ W !!! (t - 16)%nat))
    80 t Ht) as [-> Hpre].
  destruct (decide (t < 16)%nat) as [|Hge]; [done|]. by rewrite !Hpre by lia.
Qed.

(** The circular buffer of the words [t - 16 .. t - 1]. *)
Definition window (M : list Z) (t : nat) (W : list Z) : Prop :=
  length W = 16%nat /\
  forall j, (j < Nat.max t 16)%nat -> (Nat.max t 16 <= j + 16)%nat ->
    W !!! (j mod 16)%nat = sha1_schedule M !!! j.

Lemma land15 j : 0 <= j -> Z.to_nat (Z.land j 15) = (Z.to_nat j mod 16)%nat.
Proof.
  intros Hj. change 15 with (Z.ones 4). rewrite Z.land_ones by lia. change (2 ^ 4) with (Z.of_nat 16).
  rewrite <- (Z2Nat.id j) at 1 by done. rewrite <- Nat2Z.inj_mod. apply Nat2Z.id.
Qed.

Lemma window_expand M t W :
  (16 <= t)%nat -> (t < 80)%nat -> window M t W ->
  exists W', expand t W = (sha1_schedule M !!! t, W') /\ window M (S t) W'.
Proof.
  intros H16 H80 [Hl HW]. unfold expand.
  assert (forall i k, (0 < i <= 16)%nat -> k = Z.of_nat i ->
            W !!! Z.to_nat (Z.land (Z.of_nat t - k) 15) = sha1_schedule M !!! (t - i)%nat) as Hread.
  { intros i k Hi ->. rewrite land15 by lia. replace (Z.to_nat (Z.of_nat t - Z.of_nat i)) with (t - i)%nat by lia.
    apply HW; lia. }
  assert (W !!! Z.to_nat (Z.land (Z.of_nat t) 15) = sha1_schedule M !!! (t - 16)%nat) as Hread0.
  { rewrite land15, Nat2Z.id by lia. rewrite <- (HW (t - 16)%nat) by lia. f_equal.
    replace t with (t - 16 + 1 * 16)%nat at 1 by lia. apply Nat.Div0.mod_add. }
  assert (ROTL 1 (W !!! Z.to_nat (Z.land (Z.of_nat t) 15) .^ W !!! Z.to_nat (Z.land (Z.of_nat t - 14) 15) .^
            W !!! Z.to_nat (Z.land (Z.of_nat t - 8) 15) .^ W !!! Z.to_nat (Z.land (Z.of_nat t - 3) 15)) =
          sha1_schedule M !!! t) as ->.
  { rewrite Hread0, (Hread 14%nat 14), (Hread 8%nat 8), (Hread 3%nat 3) by lia.
    rewrite (sha1_schedule_eq M t) by done. rewrite decide_False by lia. unfold rotl32, ROTL.
    assert (forall x y z w, x .^ y .^ z .^ w = w .^ z .^ y .^ x) as ->; [|done].
    intros. rewrite (Z.lxor_comm _ w), (Z.lxor_comm _ z), (Z.lxor_comm x y), !Z.lxor_assoc. done. }
  eexists. split; [done|]. rewrite land15, Nat2Z.id by lia. split; [by rewrite length_insert|].
  intros j Hj1 Hj2. destruct (decide (j = t)) as [->|Hne].
  - rewrite list_lookup_total_insert_eq; [done|]. rewrite Hl. apply Nat.mod_upper_bound. lia.
  - rewrite list_lookup_total_insert_ne.
    + apply HW; lia.
    + intros Heq. pose proof (Nat.div_mod_eq t 16). pose proof (Nat.div_mod_eq j 16). lia.
Qed.

Lemma window_word M t W :
  (t < 16)%nat -> window M t W ->
  word t W = (sha1_schedule M !!! t, W) /\ window M (S t) W.
Proof.
  intros Ht [Hl HW]. replace (Nat.max t 16) with 16%nat in HW by lia. split.
  - unfold word. rewrite <- (HW t) by lia. by rewrite Nat.mod_small.
  - split; [done|]. by replace (Nat.max (S t) 16) with 16%nat by lia.
Qed.

(** The unrolled sha1_transform, with its circular buffer, computes the 80
    rounds of FIPS 180-4 over the expanded message schedule. *)
Lemma sha1_transform_ok h M :
  Forall (in_u 32) h -> length h = 5%nat -> length M = 16%nat ->
  (sha1_transform h M).1 = add_into 32 h (sha1_rounds h M).
Proof.
  intros Hh Hl HM. unfold sha1_transform, sha1_rounds. rewrite sha1_lines_eq.
  assert (forall r, length r = 5%nat -> view 5 80 r = r) as Hv.
  { intros [|a [|b [|c [|d [|e []]]]]]; try done. }
  destruct (lines_simulate sha1_line (sha1_round (sha1_schedule M))
    (fun t s r => (Forall (in_u 32) s.1 /\ length s.1 = 5%nat /\ window M t s.2) /\ r = view 5 t s.1)
    (h, M) h 80) as [(_ & Hlen & _) Hr].
  - split; [|by destruct h as [|a [|b [|c [|d [|e []]]]]]]. split_and!; [done|done|].
    split; [done|]. intros j Hj _. cbn [snd]. change (Nat.max 0 16) with 16%nat in Hj. rewrite sha1_schedule_eq by lia.
    rewrite decide_True by lia. rewrite Nat.mod_small; [done|lia].
  - intros t [r W] r' Ht [(Hr & Hrl & HW) ->]. cbn [fst snd] in *.
    assert (exists W', (if decide (t < 16)%nat then word t else expand t) W = (sha1_schedule M !!! t, W') /\
              window M (S t) W') as (W' & Hop & HW').
    { destruct (decide (t < 16)%nat); [|apply window_expand; [lia|done|done]].
      exists W. by apply window_word. }
    destruct (subRound_view (t mod 5) (sha1_fn t) (sha1_Kt t) _ r W _ W' _ _ _ _ _ Hrl
      (Nat.mod_upper_bound t 5 ltac:(lia)) Hop eq_refl eq_refl eq_refl eq_refl eq_refl) as [Hw Hview].
    fold (sha1_line t) in Hw, Hview. split.
    + rewrite Hw. split_and!; [| |done]; unfold sha1_line, subRound; rewrite Hop; simpl.
      * apply Forall_insert; [apply Forall_insert; [done|apply wrap_in_u; lia]|].
        apply (rotl32_in_u 30); [lia|]. apply total_range. apply Forall_insert; [done|apply wrap_in_u; lia].
      * by rewrite !length_insert.
    + rewrite view_S_mod by lia. rewrite Hview, (view_mod 5 t) by lia.
      pose proof (view_range 5 (t mod 5) r Hr) as Hv'. unfold sha1_round.
      destruct (view 5 (t mod 5) r) as [|a [|b [|c [|d [|e []]]]]]; try done.
      rewrite !Forall_cons in Hv'. destruct Hv' as (? & ? & ? & ? & ? & _). by rewrite sha1_fn_ft.
  - destruct (foldl _ _ (sha1_line <$> seq 0 80)) as [r W] eqn:Hf. cbn [fst snd] in *. by rewrite Hr, Hv.
Qed.

(** * SHA-256: FIPS 180-4 *)

Definition rotr32 (n x : Z) : Z := (x .>> n) .| u32 (x .<< (32 - n)).
Definition big_sigma0 (x : Z) : Z := rotr32 2 x .^ rotr32 13 x .^ rotr32 22 x.
Definition big_sigma1 (x : Z) : Z := rotr32 6 x .^ rotr32 11 x .^ rotr32 25 x.
Definition small_sigma0 (x : Z) : Z := rotr32 7 x .^ rotr32 18 x .^ (x .>> 3).
Definition small_sigma1 (x : Z) : Z := rotr32 17 x .^ rotr32 19 x .^ (x .>> 10).
Definition ch32 (x y z : Z) : Z := (x .& y) .^ (u32 (Z.lnot x) .& z).
Definition maj32 (x y z : Z) : Z := (x .& y) .^ (x .& z) .^ (y .& z).

Definition is_prime (n : nat) : bool :=
  forallb (fun d => negb (Nat.eqb (n mod d) 0)) (seq 2 (n - 2)).
Definition primes_below (n : nat) : list nat := List.filter is_prime (seq 2 (n - 2)).

(** The integer part of the cube root of [x], bit by bit from bit [n] down. *)
Definition cube_root (n : nat) (x : Z) : Z :=
  foldl (fun r i => let r' := r + 2 ^ Z.of_nat i in if r' ^ 3 <=? x then r' else r) 0 (reverse (seq 0 (S n))).

(** The first 32 bits of the fractional parts of the cube roots of the first 64
    primes. *)
Definition sha256_K : list Z :=
  (fun p => u32 (cube_root 35 (Z.of_nat p * 2 ^ 96))) <$> primes_below 312.

Definition sha256_next (M W : list Z) (t : nat) : Z :=
  if decide (t < 16)%nat then M !!! t
  else u32 (small_sigma1 (W !!! (t - 2)%nat) + W !!! (t - 7)%nat +
            small_sigma0 (W !!! (t - 15)%nat) + W !!! (t - 16)%nat).
Definition sha256_schedule (M : list Z) : list Z :=
  foldl (fun W t => W ++ [sha256_next M W t]) [] (seq 0 64).

Definition sha256_round (W : list Z) (r : list Z) (t : nat) : list Z :=
  match r with
  | [a; b; c; d; e; f; g; h] =>
      let T1 := h + big_sigma1 e + ch32 e f g + sha256_K !!! t + W !!! t in
      let T2 := big_sigma0 a + maj32 a b c in
      [u32 (T1 + T2); a; b; c; u32 (d + T1); e; f; g]
  | _ => r
  end.

Definition sha256_rounds (h M : list Z) : list Z :=
  foldl (sha256_round (sha256_schedule M)) h (seq 0 64).

(** The lines of the code, by number. *)
Definition sha256_line (t : nat) : list Z * list Z -> list Z * list Z :=
  sha256_P ((8 - t mod 8) mod 8) ((9 - t mod 8) mod 8) ((10 - t mod 8) mod 8) ((11 - t mod 8) mod 8)
    ((12 - t mod 8) mod 8) ((13 - t mod 8) mod 8) ((14 - t mod 8) mod 8) ((15 - t mod 8) mod 8)
    (if decide (t < 16)%nat then word t else schedule256 t) (sha256_K !!! t).

Lemma sha256_lines_eq : sha256_lines = sha256_line <$> seq 0 64.
Proof.
  let l := eval vm_compute in sha256_K in assert (sha256_K = l) as E by (vm_compute; reflexivity).
  unfold sha256_line. rewrite E. reflexivity.
Qed.

#[local] Opaque sha256_K.

Lemma shr32_range x n : in_u 32 x -> SHR32 x n = x .>> n.
Proof.
  intros Hx. unfold SHR32. change 0xFFFFFFFF with (Z.ones 32). rewrite Z.land_ones by lia.
  f_equal. by apply Z.mod_small.
Qed.

Lemma sigma_eqs x :
  in_u 32 x -> sha256_S0 x = small_sigma0 x /\ sha256_S1 x = small_sigma1 x /\
    sha256_S2 x = big_sigma0 x /\ sha256_S3 x = big_sigma1 x.
Proof.
  intros Hx. unfold sha256_S0, sha256_S1, sha256_S2, sha256_S3, ROTR32.
  by rewrite !shr32_range by done.
Qed.

Lemma sha256_P_view k x r W v W' K a b c d e f g h :
  Forall (in_u 32) r -> length r = 8%nat -> (k < 8)%nat -> x W = (v, W') ->
  a = ((8 - k) mod 8)%nat -> b = ((9 - k) mod 8)%nat -> c = ((10 - k) mod 8)%nat ->
  d = ((11 - k) mod 8)%nat -> e = ((12 - k) mod 8)%nat -> f = ((13 - k) mod 8)%nat ->
  g = ((14 - k) mod 8)%nat -> h = ((15 - k) mod 8)%nat ->
  (sha256_P a b c d e f g h x K (r, W)).2 = W' /\
  view 8 (S k) (sha256_P a b c d e f g h x K (r, W)).1 =
  match view 8 k r with
  | [a; b; c; d; e; f; g; h] =>
      let T1 := h + sha256_S3 e + sha256_F1 e f g + K + v in
      let T2 := sha256_S2 a + sha256_F0 a b c in
      [u32 (T1 + T2); a; b; c; u32 (d + T1); e; f; g]
  | v => v
  end.
Proof.
  intros Hr Hl Hk Hx -> -> -> -> -> -> -> ->. unfold sha256_P. rewrite Hx. split; [done|].
  destruct r as [|r0 [|r1 [|r2 [|r3 [|r4 [|r5 [|r6 [|r7 []]]]]]]]]; try done. unfold view.
  destruct k as [|[|[|[|[|[|[|[|]]]]]]]];
    [cbn -[sha256_S2 sha256_S3 sha256_F0 sha256_F1 wrap];
     rewrite u32_add_l, !u32_add_r; reflexivity..|lia].
Qed.

(** The schedule is filled from the left. *)
Definition filled (M : list Z) (t : nat) (W : list Z) : Prop :=
  length W = 64%nat /\ forall j, (j < Nat.max t 16)%nat -> W !!! j = sha256_schedule M !!! j.

Lemma sha256_schedule_eq M t :
  (t < 64)%nat -> sha256_schedule M !!! t = sha256_next M (sha256_schedule M) t.
Proof.
  intros Ht. unfold sha256_schedule. destruct (foldl_grow (sha256_next M) 64 t Ht) as [-> Hpre].
  unfold sha256_next. destruct (decide (t < 16)%nat) as [|Hge]; [done|]. by rewrite !Hpre by lia.
Qed.

Lemma sha256_schedule_range M j : Forall (in_u 32) M -> (j < 64)%nat -> in_u 32 (sha256_schedule M !!! j).
Proof.
  intros HM Hj. rewrite sha256_schedule_eq by done. unfold sha256_next.
  destruct (decide _); [by apply total_range|apply wrap_in_u; lia].
Qed.

Lemma filled_step M t W :
  Forall (in_u 32) M -> (t < 64)%nat -> filled M t W ->
  exists W', (if decide (t < 16)%nat then word t else schedule256 t) W = (sha256_schedule M !!! t, W') /\
    filled M (S t) W'.
Proof.
  intros HM Ht [Hl HW]. destruct (decide (t < 16)%nat) as [Hlt|Hge].
  - exists W. unfold word. rewrite HW by lia. split; [done|]. split; [done|]. intros j Hj. apply HW. lia.
  - unfold schedule256. rewrite !HW by lia.
    destruct (sigma_eqs (sha256_schedule M !!! (t - 2)%nat)) as (_ & -> & _); [apply sha256_schedule_range; [done|lia]|].
    destruct (sigma_eqs (sha256_schedule M !!! (t - 15)%nat)) as (-> & _); [apply sha256_schedule_range; [done|lia]|].
    rewrite (sha256_schedule_eq M t) by done. unfold sha256_next at 1. rewrite decide_False by done.
    eexists. split; [done|]. split; [by rewrite length_insert|]. intros j Hj.
    destruct (decide (j = t)) as [->|Hne].
    + rewrite list_lookup_total_insert_eq by lia. rewrite (sha256_schedule_eq M t) by done. unfold sha256_next.
      by rewrite decide_False by done.
    + rewrite list_lookup_total_insert_ne by done. apply HW. lia.
Qed.

Lemma sha256_line_step t r W M :
  Forall (in_u 32) M -> (t < 64)%nat -> Forall (in_u 32) r -> length r = 8%nat -> filled M t W ->
  let s := sha256_line t (r, W) in
  (Forall (in_u 32) s.1 /\ length s.1 = 8%nat /\ filled M (S t) s.2) /\
  view 8 (S t) s.1 = sha256_round (sha256_schedule M) (view 8 t r) t.
Proof.
  intros HM Ht Hr Hrl HW. destruct (filled_step M t W HM Ht HW) as (W' & Hop & HW').
  destruct (sha256_P_view (t mod 8) _ r W _ W' (sha256_K !!! t) _ _ _ _ _ _ _ _ Hr Hrl
    (Nat.mod_upper_bound t 8 ltac:(lia)) Hop eq_refl eq_refl eq_refl eq_refl eq_refl eq_refl eq_refl eq_refl)
    as [Hw Hview].
  fold (sha256_line t) in Hw, Hview. cbn zeta. split.
  - rewrite Hw. split_and!; [| |done]; unfold sha256_line, sha256_P; rewrite Hop; cbn [fst].
    + repeat (apply Forall_insert; [|apply wrap_in_u; lia]). done.
    + by rewrite !length_insert.
  - rewrite view_S_mod by lia. rewrite Hview, (view_mod 8 t) by lia.
    pose proof (view_range 8 (t mod 8) r Hr) as Hv. unfold sha256_round.
    destruct (view 8 (t mod 8) r) as [|a [|b [|c [|d [|e [|f [|g [|h []]]]]]]]]; try done.
    rewrite !Forall_cons in Hv. destruct Hv as (? & ? & ? & ? & ? & ? & ? & ? & _).
    unfold sha256_F0, sha256_F1. rewrite select_eq, majority_eq by done.
    destruct (sigma_eqs a) as (_ & _ & -> & _); [done|]. by destruct (sigma_eqs e) as (_ & _ & _ & ->).
Qed.

(** The unrolled sha256_transform computes the 64 rounds of FIPS 180-4 over
    the expanded message schedule of the block's big-endian words. *)
Lemma sha256_transform_ok h blk :
  Forall (in_u 32) h -> length h = 8%nat -> Forall (in_u 8) blk ->
  sha256_transform h blk =
    add_into 32 h (sha256_rounds h ((fun k => GET_UINT32 blk (4 * k)) <$> seq 0 16)).
Proof.
  intros Hh Hl Hblk. unfold sha256_transform, sha256_rounds. rewrite sha256_lines_eq. f_equal.
  set (M := _ <$> seq 0 16).
  assert (Forall (in_u 32) M) as HM.
  { subst M. apply Forall_fmap, Forall_forall. intros k _.
    change (in_u 32 (GET_UINT32 blk (4 * k)%nat)). apply get_uint32_range, Hblk. }
  assert (length M = 16%nat) as HlM by (subst M; by rewrite length_fmap, length_seq).
  clearbody M.
  assert (forall r, length r = 8%nat -> view 8 64 r = r) as Hv.
  { intros [|a [|b [|c [|d [|e [|f [|g [|i []]]]]]]]]; try done. }
  destruct (lines_simulate sha256_line (sha256_round (sha256_schedule M))
    (fun t s r => (Forall (in_u 32) s.1 /\ length s.1 = 8%nat /\ filled M t s.2) /\ r = view 8 t s.1)
    (h, M ++ replicate 48 0) h 64) as [(_ & Hlen & _) Hr].
  - split; [|symmetry; by apply view_0]. split_and!; [done|done|].
    split; [cbn [snd]; by rewrite length_app, HlM|]. intros j Hj. cbn [snd]. change (Nat.max 0 16) with 16%nat in Hj.
    rewrite sha256_schedule_eq by lia. unfold sha256_next. rewrite decide_True by lia.
    rewrite lookup_total_app_l by lia. reflexivity.
  - intros t [r W] r' Ht [(Hr & Hrl & HW) ->]. cbn [fst snd] in *.
    destruct (sha256_line_step t r W M HM Ht Hr Hrl HW) as [? <-]. done.
  - by rewrite Hr, Hv.
Qed.

(** * Lengths *)

Lemma length_md_hash f B iv pad msg :
  (forall h b, length (f h b) = length h) -> length (md_hash f B iv pad msg) = length iv.
Proof.
  intros Hf. unfold md_hash. generalize (blocks B (msg ++ pad (length msg))).
  intros bs. revert iv. induction bs as [|b bs IH]; intros iv; simpl; [done|]. by rewrite IH.
Qed.

Lemma length_add_into w x y : length x = length y -> length (add_into w x y) = length x.
Proof. intros. unfold add_into. by apply length_zip_with_l_eq. Qed.

(** A fold of steps that keep a length. *)
Lemma foldl_length {A B} (l : list A) (step : B -> A -> B) (len : B -> nat) (b : B) :
  (forall b a, len (step b a) = len b) -> len (foldl step b l) = len b.
Proof. intros Hs. revert b. induction l as [|a l IH]; intros b; simpl; [done|]. by rewrite IH, Hs. Qed.

Lemma md5_compress_length h b : length (md5_compress h b) = length h.
Proof.
  unfold md5_compress, md5_transform. apply length_add_into. symmetry.
  rewrite md5_lines_eq. generalize (seq 0 64) as l. intros l. revert h.
  induction l as [|i l IH]; intros h; [done|]. cbn [fmap list_fmap foldl]. rewrite IH.
  unfold md5_line, md5_step. apply length_insert.
Qed.

Lemma lines_length (line : nat -> list Z * list Z -> list Z * list Z) (l : list nat) s :
  (forall t s, length (line t s).1 = length s.1) ->
  length (foldl (fun s g => g s) s (line <$> l)).1 = length s.1.
Proof.
  intros Hl. revert s. induction l as [|t l IH]; intros s; [done|].
  cbn [fmap list_fmap foldl]. by rewrite IH.
Qed.

Lemma sha1_compress_length h b : length (sha1_compress h b) = length h.
Proof.
  unfold sha1_compress, sha1_transform. rewrite sha1_lines_eq.
  pose proof (lines_length sha1_line (seq 0 80) (h, words_be32 16 b)) as Hl.
  destruct (foldl _ _ _) as [r W']. cbn [fst] in *. apply length_add_into. symmetry. apply Hl.
  intros t [r' W]. unfold sha1_line, subRound. destruct (_ W) as [v W'']. cbn [fst].
  by rewrite !length_insert.
Qed.

Lemma sha256_transform_length h b : length (sha256_transform h b) = length h.
Proof.
  unfold sha256_transform. rewrite sha256_lines_eq. apply length_add_into. symmetry.
  apply (lines_length sha256_line (seq 0 64) (h, _)).
  intros t [r' W]. unfold sha256_line, sha256_P. destruct (_ W) as [v W'']. cbn [fst].
  by rewrite !length_insert.
Qed.

Lemma sha512_transform_length h b : length (sha512_transform h b) = length h.
Proof.
  unfold sha512_transform. apply length_add_into. symmetry. apply (foldl_length _ _ length).
  intros r t. by destruct r as [|? [|? [|? [|? [|? [|? [|? [|? []]]]]]]]].
Qed.

(** * SHA-512: FIPS 180-4 *)

Definition rotr64 (n x : Z) : Z := (x .>> n) .| u64 (x .<< (64 - n)).
Definition big_sigma0_64 (x : Z) : Z := rotr64 28 x .^ rotr64 34 x .^ rotr64 39 x.
Definition big_sigma1_64 (x : Z) : Z := rotr64 14 x .^ rotr64 18 x .^ rotr64 41 x.
Definition small_sigma0_64 (x : Z) : Z := rotr64 1 x .^ rotr64 8 x .^ (x .>> 7).
Definition small_sigma1_64 (x : Z) : Z := rotr64 19 x .^ rotr64 61 x .^ (x .>> 6).
Definition ch64 (x y z : Z) : Z := (x .& y) .^ (u64 (Z.lnot x) .& z).
Definition maj64 (x y z : Z) : Z := (x .& y) .^ (x .& z) .^ (y .& z).

(** The first 64 bits of the fractional parts of the cube roots of the first 80
    primes. *)
Definition sha512_K : list Z :=
  (fun p => u64 (cube_root 67 (Z.of_nat p * 2 ^ 192))) <$> primes_below 410.

Definition sha512_words (M : list Z) : list Z :=
  foldl (fun W t =>
    W ++ [if decide (t < 16)%nat then M !!! t
          else u64 (small_sigma1_64 (W !!! (t - 2)%nat) + W !!! (t - 7)%nat +
                    small_sigma0_64 (W !!! (t - 15)%nat) + W !!! (t - 16)%nat)]) [] (seq 0 80).

Definition sha512_turn (W : list Z) (r : list Z) (t : nat) : list Z :=
  match r with
  | [a; b; c; d; e; f; g; h] =>
      let T1 := h + big_sigma1_64 e + ch64 e f g + sha512_K !!! t + W !!! t in
      let T2 := big_sigma0_64 a + maj64 a b c in
      [u64 (T1 + T2); a; b; c; u64 (d + T1); e; f; g]
  | _ => r
  end.

Definition sha512_rounds (h M : list Z) : list Z := foldl (sha512_turn (sha512_words M)) h (seq 0 80).

Lemma sha512_K_table : SHA2_K = sha512_K.
Proof. vm_compute. reflexivity. Qed.

#[local] Opaque sha512_K.

Lemma u64_add_idemp a b : u64 (u64 a + u64 b) = u64 (a + b) /\ u64 (a + u64 b) = u64 (a + b).
Proof. unfold wrap. by rewrite Z.add_mod_idemp_l, Z.add_mod_idemp_r by lia. Qed.

Lemma sha512_round_turn W r t : sha512_round W r t = sha512_turn W r t.
Proof.
  destruct r as [|a [|b [|c [|d [|e [|f [|g [|h []]]]]]]]]; try done.
  unfold sha512_round, sha512_turn. cbv zeta. rewrite (proj1 (u64_add_idemp _ _)), (proj2 (u64_add_idemp _ _)).
  by rewrite sha512_K_table.
Qed.

Lemma sha512_schedule_words M : sha512_schedule M = sha512_words M.
Proof.
  unfold sha512_schedule, sha512_words. generalize (seq 0 80). intros ts. f_equal.
Qed.

Lemma sha512_transform_ok h blk :
  sha512_transform h blk = add_into 64 h (sha512_rounds h (sha512_word blk <$> seq 0 16)).
Proof.
  assert (forall ts W r, foldl (sha512_round W) r ts = foldl (sha512_turn W) r ts) as Hturns.
  { induction ts as [|t ts IH]; intros W r; [done|]. cbn [foldl]. by rewrite sha512_round_turn, IH. }
  unfold sha512_transform, sha512_rounds. cbv zeta. rewrite Hturns, sha512_schedule_words. reflexivity.
Qed.

(** * The hash functions of the standards *)

(** What RFC 1321 and FIPS 180-4 have in common: the order of the bytes of a
    word, the bytes of a word, the initial value, the rounds over the sixteen
    words of a block, and the bytes of the result. *)
Record hash_standard := HashStandard {
  hs_little : bool;
  hs_word : nat;
  hs_init : list Z;
  hs_rounds : list Z -> list Z -> list Z;
  hs_size : nat;
}.

Definition hs_block (s : hash_standard) : nat := 16 * hs_word s.

(** A number from its bytes, the most significant one first. *)
Definition value_be (l : list Z) : Z := foldl (fun v b => 256 * v + b) 0 l.
Definition word_value (s : hash_standard) (l : list Z) : Z := value_be (if hs_little s then reverse l else l).
Definition number_bytes (s : hash_standard) (n : nat) (v : Z) : list Z := if hs_little s then bytes_le n v else bytes_be n v.

(** 0x80, zeros, and the bit length in two words, up to a multiple of a block. *)
Definition hs_pad (s : hash_standard) (n : nat) : list Z :=
  let B := hs_block s in let L := (2 * hs_word s)%nat in
  0x80 :: replicate ((2 * B - 1 - L - n mod B) mod B) 0 ++ number_bytes s L (8 * Z.of_nat n).

Definition hs_compress (s : hash_standard) (h blk : list Z) : list Z :=
  zip_with (fun x y => (x + y) mod 2 ^ (8 * Z.of_nat (hs_word s))) h
    (hs_rounds s h (word_value s <$> blocks (hs_word s) blk)).

Definition hash_by (s : hash_standard) (msg : list Z) : list Z :=
  take (hs_size s) (foldl (hs_compress s) (hs_init s) (blocks (hs_block s) (msg ++ hs_pad s (length msg))) ≫= number_bytes s (hs_word s)).

(** The first 64 bits, or [w] bits, of the fractional part of a square root *)
Definition root_bits (w : Z) (p : nat) : Z := Z.sqrt (Z.of_nat p * 2 ^ (2 * w)) mod 2 ^ w.

(** 01 23 45 67 89 ab cd ef and back, as little-endian words *)
Definition md5_start : list Z := [0x67452301; 0xefcdab89; 0x98badcfe; 0x10325476].

Definition md5_standard : hash_standard := HashStandard true 4 md5_start md5_rounds 16.
Definition sha1_standard : hash_standard := HashStandard false 4 (md5_start ++ [0xc3d2e1f0]) sha1_rounds 20.
Definition sha256_standard : hash_standard :=
  HashStandard false 4 (root_bits 32 <$> take 8 (primes_below 54)) sha256_rounds 32.
Definition sha384_standard : hash_standard :=
  HashStandard false 8 (root_bits 64 <$> drop 8 (primes_below 54)) sha512_rounds 48.
Definition sha512_standard : hash_standard :=
  HashStandard false 8 (root_bits 64 <$> take 8 (primes_below 54)) sha512_rounds 64.

Lemma initial_values :
  md5_iv = hs_init md5_standard /\ sha1_iv = hs_init sha1_standard /\ sha256_iv = hs_init sha256_standard.
Proof. vm_compute. done. Qed.

(** ** The code computes them *)

Lemma take_blocks_map n B l :
  take_blocks n B l = (fun k => take B (drop (k * B) l)) <$> seq 0 n.
Proof.
  revert l. induction n as [|n IH]; intros l; [done|]. cbn [take_blocks seq fmap list_fmap Nat.mul]. f_equal.
  rewrite IH, <- fmap_S_seq, <- list_fmap_compose. apply list_fmap_ext. intros i k _. cbn. by rewrite drop_drop.
Qed.

Lemma blocks_spec B l : (0 < B)%nat -> Forall (in_u 8) l -> Forall (fun b => length b = B /\ Forall (in_u 8) b) (blocks B l).
Proof.
  intros HB Hl. unfold blocks. rewrite take_blocks_map. apply Forall_fmap, Forall_forall. intros k [_ Hk]%elem_of_seq. cbn.
  split; [|by apply Forall_take, Forall_drop]. rewrite length_take, length_drop.
  pose proof (Nat.mul_div_le (length l) B ltac:(lia)). apply Nat.min_l. nia.
Qed.

Lemma fold_blocks f g (inv : list Z -> Prop) B h l :
  (0 < B)%nat -> Forall (in_u 8) l -> inv h ->
  (forall h b, inv h -> length b = B -> Forall (in_u 8) b -> f h b = g h b /\ inv (f h b)) ->
  foldl f h (blocks B l) = foldl g h (blocks B l) /\ inv (foldl f h (blocks B l)).
Proof.
  intros HB Hl Hh Hf. pose proof (blocks_spec B l HB Hl) as Hbs. revert h Hh.
  induction Hbs as [|b bs [Hb1 Hb2] _ IH]; intros h Hh; [done|]. cbn [foldl].
  destruct (Hf h b Hh Hb1 Hb2) as [E Hi]. rewrite <- E. by apply IH.
Qed.

(** A word that is put together from bytes, from the top *)
Lemma lor_byte v b s : 8 <= s -> in_u 8 b -> (v .<< s) .| (b .<< (s - 8)) = (256 * v + b) .<< (s - 8).
Proof.
  intros Hs Hb. replace (v .<< s) with ((v .<< 8) .<< (s - 8)) by (rewrite Z.shiftl_shiftl by lia; f_equal; lia).
  rewrite <- Z.shiftl_lor. f_equal. rewrite (lor_shiftl_add 8) by (done || lia). change (2 ^ 8) with 256. lia.
Qed.

Lemma list4 (l : list Z) : length l = 4%nat -> exists a b c d, l = [a; b; c; d].
Proof. destruct l as [|a [|b [|c [|d []]]]]; try done. intros _. by exists a, b, c, d. Qed.

Lemma byte_at_block n k B (l : list Z) : (k < B)%nat -> byte_at l (n * B + k) = byte_at (take B (drop (n * B) l)) k.
Proof.
  intros Hk. unfold byte_at. rewrite !list_lookup_total_alt, lookup_take_lt by done. by rewrite lookup_drop.
Qed.

Lemma block_words B (get : list Z -> nat -> Z) (value : list Z -> Z) blk :
  (0 < B)%nat -> length blk = (16 * B)%nat -> Forall (in_u 8) blk ->
  (forall k, (k < 16)%nat -> let b := take B (drop (k * B) blk) in length b = B -> Forall (in_u 8) b -> get blk k = value b) ->
  get blk <$> seq 0 16 = value <$> blocks B blk.
Proof.
  intros HB Hl Hb Hget. unfold blocks. rewrite Hl, Nat.div_mul, take_blocks_map, <- list_fmap_compose by lia.
  apply list_fmap_ext. intros i k [-> Hk]%lookup_seq. cbn. apply Hget; [lia| |by apply Forall_take, Forall_drop].
  rewrite length_take, length_drop, Hl. nia.
Qed.

Lemma md5_words blk :
  length blk = 64%nat -> Forall (in_u 8) blk -> words_le32 16 blk = word_value md5_standard <$> blocks 4 blk.
Proof.
  intros Hl Hb. apply (block_words 4 (fun l k => load_le32 l (4 * k)) _ blk); [lia|done|done|]. intros k Hk b Hlb Hbb.
  unfold load_le32. replace (4 * k)%nat with (k * 4 + 0)%nat by lia. rewrite <- !Nat.add_assoc, !(byte_at_block k _ 4) by lia. fold b.
  destruct (list4 b Hlb) as (x & y & z & w & ->). rewrite !Forall_cons in Hbb. destruct Hbb as (? & ? & ? & ? & _).
  unfold byte_at. cbn. rewrite lor_bytes by done. lia.
Qed.

Lemma sha_words32 s blk :
  hs_little s = false -> length blk = 64%nat -> Forall (in_u 8) blk ->
  (fun k => GET_UINT32 blk (4 * k)) <$> seq 0 16 = word_value s <$> blocks 4 blk.
Proof.
  intros Hs Hl Hb. apply (block_words 4 (fun l k => GET_UINT32 l (4 * k)) _ blk); [lia|done|done|]. intros k Hk b Hlb Hbb.
  unfold GET_UINT32, word_value. rewrite Hs. replace (4 * k)%nat with (k * 4 + 0)%nat by lia. rewrite <- !Nat.add_assoc, !(byte_at_block k _ 4) by lia. fold b.
  destruct (list4 b Hlb) as (x & y & z & w & ->). rewrite !Forall_cons in Hbb. destruct Hbb as (? & ? & ? & ? & _).
  unfold byte_at. cbn. rewrite lor_bytes_be by done. lia.
Qed.

Lemma sha_words64 s blk :
  hs_little s = false -> length blk = 128%nat -> Forall (in_u 8) blk ->
  sha512_word blk <$> seq 0 16 = word_value s <$> blocks 8 blk.
Proof.
  intros Hs Hl Hb. apply (block_words 8 sha512_word _ blk); [lia|done|done|]. intros k Hk b Hlb Hbb.
  unfold sha512_word, word_value. cbv zeta. rewrite Hs, !(byte_at_block k _ 8) by lia. fold b.
  destruct b as [|b0 [|b1 [|b2 [|b3 [|b4 [|b5 [|b6 [|b7 []]]]]]]]]; try done.
  rewrite !Forall_cons in Hbb. destruct Hbb as (H0 & H1 & H2 & H3 & H4 & H5 & H6 & H7 & _).
  unfold byte_at, value_be. cbn [lookup_total list_lookup_total foldl].
  pose proof (lor_byte b0 b1 56 ltac:(lia) H1) as E. change (56 - 8) with 48 in E. rewrite E. clear E.
  match goal with |- context [(?v .<< 48) .| (b2 .<< 40)] => rewrite (lor_byte v b2 48 ltac:(lia) H2 : _ .| (b2 .<< 40) = _ .<< 40) end.
  match goal with |- context [(?v .<< 40) .| (b3 .<< 32)] => rewrite (lor_byte v b3 40 ltac:(lia) H3 : _ .| (b3 .<< 32) = _ .<< 32) end.
  match goal with |- context [(?v .<< 32) .| (b4 .<< 24)] => rewrite (lor_byte v b4 32 ltac:(lia) H4 : _ .| (b4 .<< 24) = _ .<< 24) end.
  match goal with |- context [(?v .<< 24) .| (b5 .<< 16)] => rewrite (lor_byte v b5 24 ltac:(lia) H5 : _ .| (b5 .<< 16) = _ .<< 16) end.
  match goal with |- context [(?v .<< 16) .| (b6 .<< 8)] => rewrite (lor_byte v b6 16 ltac:(lia) H6 : _ .| (b6 .<< 8) = _ .<< 8) end.
  rewrite lor_shiftl_add by (done || lia). lia.
Qed.

Lemma number_pad s n : Forall (in_u 8) (hs_pad s n).
Proof.
  unfold hs_pad. constructor; [unfold in_u; lia|]. apply Forall_app. split; [apply Forall_replicate; unfold in_u; lia|].
  assert (Forall (in_u 8) (bytes_le (2 * hs_word s) (8 * Z.of_nat n))) as H.
  { unfold bytes_le. apply Forall_fmap, Forall_forall. intros i _. apply wrap_in_u. lia. }
  unfold number_bytes, bytes_be. destruct (hs_little s); [done|]. by apply Forall_reverse.
Qed.

Lemma bind_same {A} (f g : A -> list Z) l : (forall a, f a = g a) -> l ≫= f = l ≫= g.
Proof. intros Hf. induction l as [|a l IH]; [done|]. cbn [mbind list_bind]. by rewrite Hf, IH. Qed.

#[local] Opaque md5_rounds sha1_rounds sha256_rounds sha512_rounds.

(** Words in range, in the right number *)
Definition chaining (w : Z) (n : nat) (h : list Z) : Prop := Forall (in_u w) h /\ length h = n.

Lemma chaining_init w n s : bool_decide (Forall (fun x => 0 <= x < 2 ^ w) (hs_init s)) = true -> length (hs_init s) = n -> chaining w n (hs_init s).
Proof. intros H Hl. split; [by apply bool_decide_eq_true in H|done]. Qed.

(** A hash function by its compression function, padding and bytes of words *)
Lemma hash_by_code s f iv pad (put : Z -> list Z) n msg :
  (0 < hs_word s)%nat -> chaining (8 * Z.of_nat (hs_word s)) n (hs_init s) -> iv = hs_init s ->
  (forall k, pad k = hs_pad s k) -> (forall v, put v = number_bytes s (hs_word s) v) ->
  (forall h b, chaining (8 * Z.of_nat (hs_word s)) n h -> length b = hs_block s -> Forall (in_u 8) b ->
     f h b = hs_compress s h b /\ length (f h b) = length h) ->
  Forall (in_u 8) msg -> take (hs_size s) (md_hash f (hs_block s) iv pad msg ≫= put) = hash_by s msg.
Proof.
  intros Hw Hinit -> Hpad Hput Hf Hmsg. unfold hash_by, md_hash. rewrite Hpad.
  rewrite (proj1 (fold_blocks f (hs_compress s) (chaining (8 * Z.of_nat (hs_word s)) n) (hs_block s) (hs_init s) (msg ++ hs_pad s (length msg))
    ltac:(unfold hs_block; lia) ltac:(apply Forall_app; split; [done|apply number_pad]) Hinit
    ltac:(intros h b Hh Hb1 Hb2; destruct (Hf h b Hh Hb1 Hb2) as [E El]; split; [done|]; split;
      [rewrite E; apply (add_into_range (8 * Z.of_nat (hs_word s))); lia|rewrite El; apply Hh]))).
  f_equal. by apply bind_same.
Qed.

Lemma md5_hash_standard msg : Forall (in_u 8) msg -> md5_hash msg = hash_by md5_standard msg.
Proof.
  apply (hash_by_code md5_standard md5_compress md5_iv md5_pad store_le32 4); [cbn; lia| |apply initial_values|done|done|].
  - apply chaining_init; by vm_compute.
  - intros h b [Hh Hl] Hb Hbb. split; [|apply md5_compress_length]. unfold md5_compress. rewrite md5_transform_ok by done.
    rewrite md5_words by done. reflexivity.
Qed.

Lemma sha1_hash_standard msg : Forall (in_u 8) msg -> sha1_hash msg = hash_by sha1_standard msg.
Proof.
  apply (hash_by_code sha1_standard sha1_compress sha1_iv sha1_pad PUT_UINT32 5); [cbn; lia| |apply initial_values|done|done|].
  - apply chaining_init; by vm_compute.
  - intros h b [Hh Hl] Hb Hbb. split; [|apply sha1_compress_length]. unfold sha1_compress.
    rewrite sha1_transform_ok by (done || by unfold words_be32; rewrite length_fmap, length_seq).
    unfold words_be32. rewrite (sha_words32 sha1_standard) by done. reflexivity.
Qed.

Lemma sha256_hash_standard msg : Forall (in_u 8) msg -> take 32 (sha256_hash msg) = hash_by sha256_standard msg.
Proof.
  apply (hash_by_code sha256_standard sha256_transform sha256_iv sha1_pad PUT_UINT32 8); [cbn; lia| |apply initial_values|done|done|].
  - apply chaining_init; by vm_compute.
  - intros h b [Hh Hl] Hb Hbb. split; [|apply sha256_transform_length]. rewrite sha256_transform_ok by done.
    rewrite (sha_words32 sha256_standard) by done. reflexivity.
Qed.

Lemma sha512_hash_standard (s : hash_standard) iv msg :
  hs_little s = false -> hs_word s = 8%nat -> hs_rounds s = sha512_rounds -> iv = hs_init s ->
  chaining 64 8 (hs_init s) -> Forall (in_u 8) msg -> take (hs_size s) (sha512_hash_from iv msg) = hash_by s msg.
Proof.
  intros Hs Hw Hrounds -> Hc. unfold sha512_hash_from. replace 128%nat with (hs_block s) by (unfold hs_block; by rewrite Hw).
  apply (hash_by_code s sha512_transform (hs_init s) sha512_pad PUT_UINT64 8); rewrite ?Hw; [lia|done|done| | |].
  - intros k. unfold hs_pad, number_bytes, hs_block. by rewrite Hs, Hw.
  - intros v. unfold number_bytes. by rewrite Hs.
  - intros h b [Hh Hl] Hb Hbb. split; [|apply sha512_transform_length]. rewrite sha512_transform_ok.
    unfold hs_block in Hb. rewrite Hw in Hb. rewrite (sha_words64 s) by done. unfold hs_compress. rewrite Hrounds, Hw. reflexivity.
Qed.

(** * Properties *)

(** C24: the unrolled transformations are those of the standards: md5_transform
    computes the 64 rounds of RFC 1321, sha1_transform, with its circular buffer,
    the 80 and sha256_transform the 64 rounds of FIPS 180-4 over the expanded
    message schedule of a block, and each adds them to the chaining value. *)
Theorem transforms_standard h :
  (forall X, Forall (in_u 32) h -> length h = 4%nat -> md5_transform h X = add_into 32 h (md5_rounds h X)) /\
  (forall M, Forall (in_u 32) h -> length h = 5%nat -> length M = 16%nat ->
     (sha1_transform h M).1 = add_into 32 h (sha1_rounds h M)) /\
  (forall blk, Forall (in_u 32) h -> length h = 8%nat -> Forall (in_u 8) blk ->
     sha256_transform h blk = add_into 32 h (sha256_rounds h ((fun k => GET_UINT32 blk (4 * k)) <$> seq 0 16))).
Proof. split_and!; intros x; [apply md5_transform_ok|apply sha1_transform_ok|apply sha256_transform_ok]. Qed.

(** * The theorems at a block *)

Definition abc_block : list Z := [97; 98; 99; 0x80] ++ replicate 59 0 ++ [24].

Lemma init_words : Forall (in_u 32) md5_iv /\ Forall (in_u 32) sha1_iv /\ Forall (in_u 32) sha256_iv.
Proof. split_and!; repeat (constructor; [unfold in_u; lia|]); constructor. Qed.

Lemma abc_block_bytes : Forall (in_u 8) abc_block.
Proof. unfold abc_block. repeat (constructor; [unfold in_u; lia|]). constructor. Qed.

Lemma transforms_standard_witness :
  md5_transform md5_iv (words_le32 16 abc_block) =
  add_into 32 md5_iv (md5_rounds md5_iv (words_le32 16 abc_block)) /\
  (sha1_transform sha1_iv (words_be32 16 abc_block)).1 =
  add_into 32 sha1_iv (sha1_rounds sha1_iv (words_be32 16 abc_block)) /\
  sha256_transform sha256_iv abc_block =
  add_into 32 sha256_iv (sha256_rounds sha256_iv ((fun k => GET_UINT32 abc_block (4 * k)) <$> seq 0 16)).
Proof.
  exact (conj
    (proj1 (transforms_standard md5_iv) (words_le32 16 abc_block) (proj1 init_words) eq_refl) (conj
    (proj1 (proj2 (transforms_standard sha1_iv)) (words_be32 16 abc_block) (proj1 (proj2 init_words)) eq_refl eq_refl)
    (proj2 (proj2 (transforms_standard sha256_iv)) abc_block (proj2 (proj2 init_words)) eq_refl abc_block_bytes))).
Defined.
