(* ===== verification/GChecksum.v ===== *)
(** The GChecksum object of src/glib-2.56.1/glib/gchecksum.c: a checksum of a
    chosen type that is open for updates until its digest is taken. *)
From S2P Require Import Prelude Checksum ChecksumStream ChecksumMd ChecksumSha256 ChecksumSha512 ChecksumRounds.

Open Scope c_scope.

(** * The object *)

(** The enum of gchecksum.h, in its order. *)
Inductive GChecksumType :=
| G_CHECKSUM_MD5 | G_CHECKSUM_SHA1 | G_CHECKSUM_SHA256 | G_CHECKSUM_SHA512 | G_CHECKSUM_SHA384.

#[export] Instance GChecksumType_eq_dec : EqDecision GChecksumType.
Proof. solve_decision. Defined.

(** The value of the enum; [None] where IS_VALID_TYPE fails. *)
Definition checksum_type (v : Z) : option GChecksumType :=
  if decide (v = 0) then Some G_CHECKSUM_MD5
  else if decide (v = 1) then Some G_CHECKSUM_SHA1
  else if decide (v = 2) then Some G_CHECKSUM_SHA256
  else if decide (v = 3) then Some G_CHECKSUM_SHA512
  else if decide (v = 4) then Some G_CHECKSUM_SHA384
  else None.

(** struct _GChecksum. Of the union, every type uses one member only: [sum_32]
    stands for md5, sha1 and sha256, [sum_64] for sha512. *)
Record GChecksum := MkChecksum {
  ctype : GChecksumType;
  digest_str : option (list Z);
  sum_32 : sum32;
  sum_64 : sum64;
}.

Definition with_sum32 s c := MkChecksum (ctype c) (digest_str c) s (sum_64 c).
Definition with_sum64 s c := MkChecksum (ctype c) (digest_str c) (sum_32 c) s.
Definition with_str v c := MkChecksum (ctype c) v (sum_32 c) (sum_64 c).

(** * Operations *)

Definition hex_digits : list Z :=
  [48; 49; 50; 51; 52; 53; 54; 55; 56; 57; 97; 98; 99; 100; 101; 102].

Definition digest_to_string (digest : list Z) (digest_len : nat) : list Z :=
  take digest_len digest ≫= fun byte =>
    [hex_digits !!! Z.to_nat (byte .>> 4); hex_digits !!! Z.to_nat (byte .& 0xf)].

Definition type_length (t : GChecksumType) : nat :=
  match t with
  | G_CHECKSUM_MD5 => 16 | G_CHECKSUM_SHA1 => 20 | G_CHECKSUM_SHA256 => 32
  | G_CHECKSUM_SHA384 => 48 | G_CHECKSUM_SHA512 => 64
  end.
Definition g_checksum_type_get_length (v : Z) : Z :=
  match checksum_type v with Some t => Z.of_nat (type_length t) | None => -1 end.

Definition g_checksum_reset (c : GChecksum) : GChecksum :=
  let c := with_str None c in
  match ctype c with
  | G_CHECKSUM_MD5 => with_sum32 (md5_sum_init (sum_32 c)) c
  | G_CHECKSUM_SHA1 => with_sum32 (sha1_sum_init (sum_32 c)) c
  | G_CHECKSUM_SHA256 => with_sum32 (sha256_sum_init (sum_32 c)) c
  | G_CHECKSUM_SHA384 => with_sum64 (sha384_sum_init (sum_64 c)) c
  | G_CHECKSUM_SHA512 => with_sum64 (sha512_sum_init (sum_64 c)) c
  end.

(** g_slice_new0: the object is allocated zeroed. *)
Definition zeroed (t : GChecksumType) : GChecksum :=
  MkChecksum t None (Sum32 [] 0 0 (replicate 64 0) [])
    (Sum64 (replicate 8 0) (replicate 128 0) 0 0 0 []).

Definition checksum_new (t : GChecksumType) : GChecksum := g_checksum_reset (zeroed t).
Definition g_checksum_new (v : Z) : option GChecksum :=
  match checksum_type v with Some t => Some (checksum_new t) | None => None end.

Definition g_checksum_copy (c : GChecksum) : GChecksum := c.

(** The bytes of an argument [data] of the given length, -1 for a string that
    ends at its first NUL. *)
Fixpoint until_nul (data : list Z) : list Z :=
  match data with [] => [] | b :: data => if decide (b = 0) then [] else b :: until_nul data end.
Definition sized (data : list Z) (length : Z) : list Z :=
  if length <? 0 then until_nul data else take (Z.to_nat length) data.

(** A closed checksum is left as it is (with a warning in the log). *)
Definition g_checksum_update (c : GChecksum) (data : list Z) (length : Z) : GChecksum :=
  let data := sized data length in
  match digest_str c with
  | Some _ => c
  | None =>
      match ctype c with
      | G_CHECKSUM_MD5 => with_sum32 (md5_sum_update (sum_32 c) data) c
      | G_CHECKSUM_SHA1 => with_sum32 (sha1_sum_update (sum_32 c) data) c
      | G_CHECKSUM_SHA256 => with_sum32 (sha256_sum_update (sum_32 c) data) c
      | G_CHECKSUM_SHA384 | G_CHECKSUM_SHA512 => with_sum64 (sha512_sum_update (sum_64 c) data) c
      end
  end.

(** The close functions, with the string of the digest. *)
Definition checksum_close (c : GChecksum) : GChecksum * list Z :=
  match ctype c with
  | G_CHECKSUM_MD5 =>
      let s := md5_sum_close (sum_32 c) in (with_sum32 s c, digest_to_string (digest s) 16)
  | G_CHECKSUM_SHA1 =>
      let s := sha1_sum_close (sum_32 c) in (with_sum32 s c, digest_to_string (digest s) 20)
  | G_CHECKSUM_SHA256 =>
      let s := sha256_sum_close (sum_32 c) in (with_sum32 s c, digest_to_string (digest s) 32)
  | G_CHECKSUM_SHA384 =>
      let s := sha512_sum_close (sum_64 c) in (with_sum64 s c, digest_to_string (digest64 s) 48)
  | G_CHECKSUM_SHA512 =>
      let s := sha512_sum_close (sum_64 c) in (with_sum64 s c, digest_to_string (digest64 s) 64)
  end.

Definition g_checksum_get_string (c : GChecksum) : list Z * GChecksum :=
  match digest_str c with
  | Some str => (str, c)
  | None => let (c, str) := checksum_close c in (str, with_str (Some str) c)
  end.

(** The md5_sum_digest family: the first bytes of the stored digest. *)
Definition sum_digest (c : GChecksum) : list Z :=
  match ctype c with
  | G_CHECKSUM_MD5 => take 16 (digest (sum_32 c))
  | G_CHECKSUM_SHA1 => take 20 (digest (sum_32 c))
  | G_CHECKSUM_SHA256 => take 32 (digest (sum_32 c))
  | G_CHECKSUM_SHA384 => take 48 (digest64 (sum_64 c))
  | G_CHECKSUM_SHA512 => take 64 (digest64 (sum_64 c))
  end.

(** The bytes stored in the caller's buffer of [room] bytes; [None] where the
    precondition check fails and nothing is stored. *)
Definition g_checksum_get_digest (c : GChecksum) (room : nat) : option (list Z) * GChecksum :=
  if decide (type_length (ctype c) <= room)%nat then
    match digest_str c with
    | Some _ => (Some (sum_digest c), c)
    | None => let (c, str) := checksum_close c in (Some (sum_digest c), with_str (Some str) c)
    end
  else (None, c).

Definition g_compute_checksum_for_data (v : Z) (data : list Z) (length : Z) : option (list Z) :=
  match g_checksum_new v with
  | None => None
  | Some c => Some (g_checksum_get_string (g_checksum_update c data length)).1
  end.

Definition g_compute_checksum_for_string (v : Z) (str : list Z) (len : Z) : option (list Z) :=
  match checksum_type v with
  | None => None
  | Some _ =>
      let len := if len <? 0 then Z.of_nat (length (until_nul str)) else len in
      g_compute_checksum_for_data v str len
  end.

(** * What the object computes *)

(** The digest of a message, by type. *)
Definition hash_of (t : GChecksumType) (msg : list Z) : list Z :=
  take (type_length t)
    match t with
    | G_CHECKSUM_MD5 => md5_hash msg
    | G_CHECKSUM_SHA1 => sha1_hash msg
    | G_CHECKSUM_SHA256 => sha256_hash msg
    | G_CHECKSUM_SHA384 => sha512_hash_from sha384_iv msg
    | G_CHECKSUM_SHA512 => sha512_hash_from sha512_iv msg
    end.

(** The text of a digest, by the code *)
Definition hex_text (bytes : list Z) : list Z := digest_to_string bytes (length bytes).

(** ** The standards *)

Definition standard (t : GChecksumType) : hash_standard :=
  match t with
  | G_CHECKSUM_MD5 => md5_standard
  | G_CHECKSUM_SHA1 => sha1_standard
  | G_CHECKSUM_SHA256 => sha256_standard
  | G_CHECKSUM_SHA384 => sha384_standard
  | G_CHECKSUM_SHA512 => sha512_standard
  end.

(** Lower-case hexadecimal *)
Definition hex_digit (d : Z) : Z := if d <? 10 then 48 + d else 87 + d.
Definition hex (bytes : list Z) : list Z := bytes ≫= fun b => [hex_digit (b / 16); hex_digit (b mod 16)].

(** Messages within the limits of the counters of every type. *)
Definition msg_ok (msg : list Z) : Prop := 8 * (Z.of_nat (length msg) + 256) < 2 ^ 64.

(** An open checksum that has absorbed [msg]. *)
Definition is_open (c : GChecksum) (msg : list Z) : Prop :=
  digest_str c = None /\ buffer (data (sum_32 c)) /\ length (block (sum_64 c)) = 128%nat /\
  match ctype c with
  | G_CHECKSUM_MD5 => holds md5_compress md5_iv (sum_32 c) msg
  | G_CHECKSUM_SHA1 => holds sha1_compress sha1_iv (sum_32 c) msg
  | G_CHECKSUM_SHA256 => holds256 (sum_32 c) msg
  | G_CHECKSUM_SHA384 => holds512 sha384_iv (sum_64 c) msg
  | G_CHECKSUM_SHA512 => holds512 sha512_iv (sum_64 c) msg
  end.

(** A closed checksum of [msg]. *)
Definition is_closed (c : GChecksum) (msg : list Z) : Prop :=
  digest_str c = Some (hex_text (hash_of (ctype c) msg)) /\ sum_digest c = hash_of (ctype c) msg.

(** ** Lengths and ranges of digests *)

Lemma length_bind_const {A} (f : A -> list Z) (l : list A) n :
  (forall a, length (f a) = n) -> length (l ≫= f) = (length l * n)%nat.
Proof.
  intros Hf. induction l as [|a l IH]; [done|]. change ((a :: l) ≫= f) with (f a ++ (l ≫= f)).
  rewrite length_app, Hf, IH. simpl. lia.
Qed.

Lemma length_hash_of t msg : length (hash_of t msg) = type_length t.
Proof.
  unfold hash_of. rewrite length_take. apply Nat.min_l. destruct t; cbn [type_length].
  - unfold md5_hash. rewrite length_take, length_bytes_le32, length_md_hash by apply md5_compress_length.
    done.
  - unfold sha1_hash. rewrite length_take, (length_bind_const _ _ 4) by done.
    rewrite length_md_hash by apply sha1_compress_length. done.
  - unfold sha256_hash. rewrite (length_bind_const _ _ 4) by done.
    rewrite length_md_hash by apply sha256_transform_length. done.
  - unfold sha512_hash_from. rewrite (length_bind_const _ _ 8) by done.
    rewrite length_md_hash by apply sha512_transform_length. done.
  - unfold sha512_hash_from. rewrite (length_bind_const _ _ 8) by done.
    rewrite length_md_hash by apply sha512_transform_length. simpl. lia.
Qed.

Lemma bind_bytes {A} (f : A -> list Z) l :
  (forall a, Forall (in_u 8) (f a)) -> Forall (in_u 8) (l ≫= f).
Proof.
  intros Hf. induction l as [|a l IH]; [constructor|]. change ((a :: l) ≫= f) with (f a ++ (l ≫= f)).
  by apply Forall_app.
Qed.

Lemma PUT_UINT64_bytes v : Forall (in_u 8) (PUT_UINT64 v).
Proof. unfold PUT_UINT64. repeat constructor; apply wrap_in_u; lia. Qed.

Lemma hash_of_bytes t msg : Forall (in_u 8) (hash_of t msg).
Proof.
  unfold hash_of. apply Forall_take. destruct t.
  - apply Forall_take, bytes_le32_bytes.
  - apply Forall_take, bind_bytes, PUT_UINT32_bytes.
  - apply bind_bytes, PUT_UINT32_bytes.
  - apply bind_bytes, PUT_UINT64_bytes.
  - apply bind_bytes, PUT_UINT64_bytes.
Qed.

Lemma hash_of_piece t msg : piece_ok (hash_of t msg).
Proof. split; [apply hash_of_bytes|]. rewrite length_hash_of. destruct t; simpl; lia. Qed.

Lemma hash_of_standard t msg : Forall (in_u 8) msg -> hash_of t msg = hash_by (standard t) msg.
Proof.
  intros Hm. unfold hash_of. destruct t; cbn [type_length standard].
  - rewrite <- md5_hash_standard by done. unfold md5_hash. by rewrite take_take.
  - rewrite <- sha1_hash_standard by done. unfold sha1_hash. by rewrite take_take.
  - by apply sha256_hash_standard.
  - apply (sha512_hash_standard sha512_standard); [done|done|done|by vm_compute|by apply chaining_init; vm_compute|done].
  - apply (sha512_hash_standard sha384_standard); [done|done|done|by vm_compute|by apply chaining_init; vm_compute|done].
Qed.

Lemma hex_text_hex l : Forall (in_u 8) l -> hex_text l = hex l.
Proof.
  intros Hl. unfold hex_text, digest_to_string. rewrite firstn_all. induction Hl as [|b l Hb _ IH]; [done|].
  assert (forall d, 0 <= d < 16 -> hex_digits !!! Z.to_nat d = hex_digit d) as Hd.
  { intros d Hd. assert (d = Z.of_nat (Z.to_nat d)) as E by lia. assert (Z.to_nat d < 16)%nat as Hn by lia. rewrite E, Nat2Z.id. revert Hn.
    generalize (Z.to_nat d) as n. intros n Hn. do 16 (destruct n as [|n]; [done|]). lia. }
  unfold in_u in Hb. unfold hex in *. cbn [mbind list_bind]. rewrite IH. change 0xf with (Z.ones 4).
  rewrite Z.shiftr_div_pow2, Z.land_ones by done. change (2 ^ 4) with 16.
  by rewrite !Hd by (Z.div_mod_to_equations; lia).
Qed.

#[local] Opaque md5_sum_close sha1_sum_close sha256_sum_close sha512_sum_close.
#[local] Opaque md5_hash sha1_hash sha256_hash sha512_hash_from.

Lemma reset_open c :
  buffer (data (sum_32 c)) -> length (block (sum_64 c)) = 128%nat ->
  is_open (g_checksum_reset c) [] /\ ctype (g_checksum_reset c) = ctype c.
Proof.
  intros Hb32 Hb64. destruct c as [t str s32 s64]. simpl in Hb32, Hb64.
  assert (forall iv s, H64 s = iv -> length (block s) = 128%nat -> block_len s = 0 ->
            data_len0 s = 0 -> data_len1 s = 0 -> holds512 iv s []) as Hinit.
  { intros iv s Hi Hb Hl H0 H1. split; [done| |by rewrite H0, H1|done].
    exists []. rewrite Hi, Hl. split; [apply absorbed_nil; lia|done]. }
  assert (holds256 (sha256_sum_init s32) []) as H256.
  { split; [|by split_and!]. split; [done|]. exists []. split; [apply absorbed_nil; lia|done]. }
  destruct t; (split; [split_and!; try done|done]);
    first [by apply init_holds|by apply Hinit|done].
Qed.

Lemma zeroed_ok t : buffer (data (sum_32 (zeroed t))) /\ length (block (sum_64 (zeroed t))) = 128%nat.
Proof.
  split; [|done]. split; [done|]. simpl. repeat (constructor; [unfold in_u; lia|]). constructor.
Qed.

Lemma new_open t : is_open (checksum_new t) [] /\ ctype (checksum_new t) = t.
Proof. destruct (zeroed_ok t). by apply reset_open. Qed.

Lemma sum_update_keeps process f `{!Process process f} iv s msg b :
  holds f iv s msg -> Forall (in_u 8) b -> buffer (data (sum_update process s b)).
Proof. intros Hs Hb. by destruct (sum_update_ok process f iv s msg b Hs Hb) as [[? _] _]. Qed.

(** Feeding an open checksum. *)
Lemma update_open c msg b :
  is_open c msg -> piece_ok b -> 8 * Z.of_nat (length (msg ++ b)) < 2 ^ 64 ->
  is_open (g_checksum_update c b (Z.of_nat (length b))) (msg ++ b) /\
  ctype (g_checksum_update c b (Z.of_nat (length b))) = ctype c.
Proof.
  intros (Hstr & Hb32 & Hb64 & Hs) [Hb Hlen] Hshort. unfold g_checksum_update, sized. rewrite Hstr.
  destruct (Z.ltb_spec (Z.of_nat (length b)) 0); [lia|]. rewrite Nat2Z.id, firstn_all.
  destruct c as [t str s32 s64]. simpl in *. subst str.
  destruct t; (split; [|done]); (split; [done|]).
  - split; [by apply (sum_update_keeps md5_process md5_compress md5_iv _ msg)|].
    split; [done|]. by apply (sum_update_ok md5_process md5_compress md5_iv).
  - split; [by apply (sum_update_keeps sha1_process sha1_compress sha1_iv _ msg)|].
    split; [done|]. by apply (sum_update_ok sha1_process sha1_compress sha1_iv).
  - assert (holds256 (sha256_sum_update s32 b) (msg ++ b)) as Hu by (by apply sha256_update_ok).
    split; [by destruct Hu as [[? _] _]|]. by split.
  - split; [done|]. pose proof (sha512_update_ok sha512_iv s64 msg b Hs Hshort) as Hu.
    split; [apply Hu|exact Hu].
  - split; [done|]. pose proof (sha512_update_ok sha384_iv s64 msg b Hs Hshort) as Hu.
    split; [apply Hu|exact Hu].
Qed.

Lemma digest_to_string_take l n : digest_to_string l n = hex_text (take n l).
Proof. unfold hex_text, digest_to_string. by rewrite firstn_all. Qed.

(** The buffers an object is allocated with. *)
Definition well_sized (c : GChecksum) : Prop :=
  buffer (data (sum_32 c)) /\ length (block (sum_64 c)) = 128%nat.

Lemma zero_buffer : buffer (replicate 64 0).
Proof. split; [done|]. apply Forall_replicate. unfold in_u. lia. Qed.

(** Closing. *)
Lemma close_open c msg :
  is_open c msg -> msg_ok msg ->
  (checksum_close c).2 = hex_text (hash_of (ctype c) msg) /\
  sum_digest (checksum_close c).1 = hash_of (ctype c) msg /\
  ctype (checksum_close c).1 = ctype c /\ well_sized (checksum_close c).1.
Proof.
  intros (Hstr & Hb32 & Hb64 & Hs) Hshort. unfold checksum_close, sum_digest, hash_of, well_sized.
  destruct c as [t str s32 s64]. simpl in *.
  destruct t; cbn [fst snd ctype with_sum32 with_sum64 sum_32 sum_64]; rewrite digest_to_string_take.
  - rewrite (md5_close_hash _ _ Hs). split_and!; [done..|apply zero_buffer|done].
  - rewrite (sha1_close_hash _ _ Hs). split_and!; [done..|apply zero_buffer|done].
  - rewrite (sha256_close_hash _ _ Hs). split_and!; [done..| |done]. by apply (sha256_close_buffer _ msg).
  - destruct (sha512_close_hash _ _ _ Hs Hshort) as [-> Hl]. by split_and!.
  - destruct (sha512_close_hash _ _ _ Hs Hshort) as [-> Hl]. by split_and!.
Qed.

Lemma get_string_open c msg :
  is_open c msg -> msg_ok msg ->
  (g_checksum_get_string c).1 = hex_text (hash_of (ctype c) msg) /\
  is_closed (g_checksum_get_string c).2 msg /\ ctype (g_checksum_get_string c).2 = ctype c.
Proof.
  intros Ho Hm. destruct (close_open c msg Ho Hm) as (Hstr & Hdig & Ht & Hw).
  unfold g_checksum_get_string. destruct Ho as [-> _].
  destruct (checksum_close c) as [c' str] eqn:He. simpl in *. subst str.
  split; [done|]. split; [|done]. split; simpl; [by rewrite Ht|]. rewrite Ht, <- Hdig.
  by destruct c'.
Qed.

Lemma get_digest_open c msg room :
  is_open c msg -> msg_ok msg -> (type_length (ctype c) <= room)%nat ->
  (g_checksum_get_digest c room).1 = Some (hash_of (ctype c) msg) /\
  is_closed (g_checksum_get_digest c room).2 msg /\ ctype (g_checksum_get_digest c room).2 = ctype c /\
  well_sized (g_checksum_get_digest c room).2.
Proof.
  intros Ho Hm Hroom. destruct (close_open c msg Ho Hm) as (Hstr & Hdig & Ht & Hw).
  unfold g_checksum_get_digest. rewrite decide_True by done. destruct Ho as [-> _].
  destruct (checksum_close c) as [c' str] eqn:He. simpl in *. subst str. rewrite Hdig.
  split; [done|]. split; [|split; [done|exact Hw]]. split; simpl; [by rewrite Ht|]. rewrite Ht, <- Hdig.
  by destruct c'.
Qed.

(** The pieces of a message, within the limits. *)
Definition feed (c : GChecksum) (pieces : list (list Z)) : GChecksum :=
  foldl (fun c b => g_checksum_update c b (Z.of_nat (length b))) c pieces.

Lemma feed_open c msg pieces :
  is_open c msg -> Forall piece_ok pieces -> msg_ok (msg ++ concat pieces) ->
  is_open (feed c pieces) (msg ++ concat pieces) /\ ctype (feed c pieces) = ctype c.
Proof.
  revert c msg. induction pieces as [|b pieces IH]; intros c msg Ho Hp Hm; simpl in *.
  - by rewrite app_nil_r.
  - apply Forall_cons in Hp as [Hb Hp]. rewrite app_assoc in *.
    destruct (update_open c msg b) as [Ho' Ht]; [done|done| |].
    + unfold msg_ok in Hm. rewrite length_app in Hm. lia.
    + rewrite <- Ht. by apply IH.
Qed.

(** * Properties *)

(** C22: a GChecksum of any type that is fed a message in pieces returns the hash
    of the whole message that RFC 1321 or FIPS 180-4 defines, as lower-case
    hexadecimal, and as bytes for every buffer that has room for them; a smaller
    buffer gets nothing, and the object stays open. Taking the digest closes it:
    later updates change nothing, and both results can be read again. Pieces are
    shorter than 2^32 bytes and messages than 2^61 - 256. *)
Theorem checksum_object_correct t pieces :
  Forall piece_ok pieces -> msg_ok (concat pieces) ->
  let c := feed (checksum_new t) pieces in
  let D := hash_by (standard t) (concat pieces) in
  let '(str, c1) := g_checksum_get_string c in
  str = hex D /\
  forall room,
    if decide (length D <= room)%nat then
      let '(dig, c2) := g_checksum_get_digest c room in
      dig = Some D /\
      forall c', c' = c1 \/ c' = c2 ->
        (forall b n, g_checksum_update c' b n = c') /\
        g_checksum_get_string c' = (str, c') /\
        (forall room', (length D <= room')%nat -> g_checksum_get_digest c' room' = (dig, c'))
    else g_checksum_get_digest c room = (None, c).
Proof.
  intros Hp Hm c D. destruct (new_open t) as [Hn Ht].
  destruct (feed_open (checksum_new t) [] pieces Hn Hp Hm) as [Ho Ht']. fold c in Ho, Ht'.
  rewrite Ht in Ht'. simpl in Ho.
  assert (hash_of t (concat pieces) = D) as HD.
  { apply hash_of_standard. clear -Hp. induction Hp as [|b bs [Hb _] _ IH]; [constructor|]. by apply Forall_app. }
  assert (length D = type_length t) as Hl by (rewrite <- HD; apply length_hash_of).
  assert (hex_text D = hex D) as Hh by (apply hex_text_hex; rewrite <- HD; apply hash_of_bytes).
  destruct (get_string_open c _ Ho Hm) as (Hs & Hc1 & Ht1). rewrite Ht', HD, Hh in Hs. rewrite Ht' in Ht1.
  destruct (g_checksum_get_string c) as [str c1]. cbn [fst snd] in *. split; [done|]. intros room.
  destruct (decide _) as [Hroom|Hroom]; [|unfold g_checksum_get_digest; by rewrite Ht', decide_False by lia].
  destruct (get_digest_open c _ room Ho Hm) as (Hd & Hc2 & Ht2 & _); [rewrite Ht'; lia|]. rewrite Ht', HD in Hd. rewrite Ht' in Ht2.
  destruct (g_checksum_get_digest c room) as [dig c2]. cbn [fst snd] in *. split; [done|].
  assert (forall c', is_closed c' (concat pieces) -> ctype c' = t ->
    (forall b n, g_checksum_update c' b n = c') /\ g_checksum_get_string c' = (str, c') /\
    (forall room', (length D <= room')%nat -> g_checksum_get_digest c' room' = (dig, c'))) as Hcl.
  { intros c' [Hstr Hdig] Htc. rewrite Htc, HD in Hstr, Hdig. rewrite Hh in Hstr.
    unfold g_checksum_update, g_checksum_get_string, g_checksum_get_digest. rewrite Hstr, Htc, Hs, Hd.
    split_and!; [done|done|]. intros room' Hr. by rewrite decide_True, Hdig by lia. }
  intros c' [-> | ->]; by apply Hcl.
Qed.

(** SHA-512 of "abc", after FIPS 180-4, in pieces. *)
Definition sha512_abc : list Z :=
  bytes_be 64 0xddaf35a193617abacc417349ae20413112e6fa4e89a97ea20a9eeee64b55d39a2192992a274fc1a836ba3c23a3feebbd454d4423643ce80e2a9ac94fa54ca49f.

Lemma checksum_object_correct_witness :
  (g_checksum_get_string (feed (checksum_new G_CHECKSUM_SHA512) abc_pieces)).1 = hex sha512_abc /\
  (g_checksum_get_digest (feed (checksum_new G_CHECKSUM_SHA512) abc_pieces) 64).1 = Some sha512_abc.
Proof.
  pose proof (checksum_object_correct G_CHECKSUM_SHA512 abc_pieces abc_pieces_ok eq_refl) as H. cbv zeta in H.
  assert (hash_by (standard G_CHECKSUM_SHA512) (concat abc_pieces) = sha512_abc) as E by (vm_compute; reflexivity).
  rewrite E in H. destruct (g_checksum_get_string _) as [str c1]. destruct H as [-> H]. specialize (H 64%nat).
  rewrite decide_True in H by (vm_compute; lia). destruct (g_checksum_get_digest _ _) as [dig c2]. destruct H as [-> _]. by split.
Defined.
