(* ===== verification/Hmac.v ===== *)
(** Keyed digests: the GHmac object of src/glib-2.56.1/glib/ghmac.c, built from
    two GChecksum objects. *)
From S2P Require Import Prelude Checksum ChecksumStream ChecksumMd ChecksumSha256 ChecksumSha512 ChecksumRounds GChecksum.

Open Scope c_scope.

(** * The object *)

(** struct _GHmac *)
Record GHmac := MkHmac {
  ref_count : Z;
  digest_type : GChecksumType;
  digesti : GChecksum;
  digesto : GChecksum;
}.

Definition block_size (t : GChecksumType) : nat :=
  match t with
  | G_CHECKSUM_MD5 | G_CHECKSUM_SHA1 | G_CHECKSUM_SHA256 => 64
  | G_CHECKSUM_SHA384 | G_CHECKSUM_SHA512 => 128
  end.

(** [pad[i] = v ^ buffer[i]] *)
Definition xor_pad (v : Z) (buffer : list Z) : list Z := (fun b => v .^ b) <$> buffer.

Definition hmac_new (t : GChecksumType) (key : list Z) : GHmac :=
  let inner := checksum_new t in
  let outer := checksum_new t in
  let bs := block_size t in
  let buffer := replicate bs 0 in
  let '(inner, buffer) :=
    if decide (bs < length key)%nat then
      let inner := g_checksum_update inner key (Z.of_nat (length key)) in
      let (dig, inner) := g_checksum_get_digest inner bs in
      (g_checksum_reset inner, memcpy buffer 0 (default [] dig))
    else (inner, memcpy buffer 0 key) in
  let inner := g_checksum_update inner (xor_pad 0x36 buffer) (Z.of_nat bs) in
  let outer := g_checksum_update outer (xor_pad 0x5c buffer) (Z.of_nat bs) in
  MkHmac 1 t inner outer.

Definition g_hmac_new (v : Z) (key : list Z) : option GHmac :=
  match checksum_type v with Some t => Some (hmac_new t key) | None => None end.

Definition g_hmac_copy (h : GHmac) : GHmac :=
  MkHmac 1 (digest_type h) (g_checksum_copy (digesti h)) (g_checksum_copy (digesto h)).

Definition g_hmac_ref (h : GHmac) : GHmac :=
  MkHmac (ref_count h + 1) (digest_type h) (digesti h) (digesto h).

(** [None]: the object is freed. *)
Definition g_hmac_unref (h : GHmac) : option GHmac :=
  if decide (ref_count h - 1 = 0) then None
  else Some (MkHmac (ref_count h - 1) (digest_type h) (digesti h) (digesto h)).

Definition g_hmac_update (h : GHmac) (data : list Z) (length : Z) : GHmac :=
  MkHmac (ref_count h) (digest_type h) (g_checksum_update (digesti h) data length) (digesto h).

Definition g_hmac_get_digest (h : GHmac) (room : nat) : option (list Z) * GHmac :=
  let len := type_length (digest_type h) in
  if decide (len <= room)%nat then
    let (d, i) := g_checksum_get_digest (digesti h) len in
    let o := g_checksum_update (digesto h) (default [] d) (Z.of_nat len) in
    let (d, o) := g_checksum_get_digest o room in
    (d, MkHmac (ref_count h) (digest_type h) i o)
  else (None, h).

Definition g_hmac_get_string (h : GHmac) : list Z * GHmac :=
  let (_, h) := g_hmac_get_digest h (type_length (digest_type h)) in
  let (str, o) := g_checksum_get_string (digesto h) in
  (str, MkHmac (ref_count h) (digest_type h) (digesti h) o).

Definition g_compute_hmac_for_data (v : Z) (key data : list Z) (length : Z) : option (list Z) :=
  match g_hmac_new v key with
  | None => None
  | Some h => Some (g_hmac_get_string (g_hmac_update h data length)).1
  end.

(** * Lengths and ranges of digests *)

(** * The construction of RFC 2104 *)

(** The key as a block: hashed if it is longer, and filled up with zeros. *)
Definition hmac_key (t : GChecksumType) (key : list Z) : list Z :=
  let k := if decide (block_size t < length key)%nat then hash_of t key else key in
  k ++ replicate (block_size t - length k) 0.

Definition hmac (t : GChecksumType) (key msg : list Z) : list Z :=
  let k := hmac_key t key in
  hash_of t (xor_pad 0x5c k ++ hash_of t (xor_pad 0x36 k ++ msg)).

Lemma type_length_block t : (type_length t <= block_size t)%nat.
Proof. destruct t; simpl; lia. Qed.

Lemma memcpy_zeros n k : (length k <= n)%nat -> memcpy (replicate n 0) 0 k = k ++ replicate (n - length k) 0.
Proof. intros Hk. unfold memcpy. simpl. by rewrite drop_replicate. Qed.

Lemma length_hmac_key t key : length (hmac_key t key) = block_size t.
Proof.
  unfold hmac_key. rewrite length_app, length_replicate.
  destruct (decide _); [rewrite length_hash_of; pose proof (type_length_block t)|]; lia.
Qed.

Lemma hmac_key_bytes t key : Forall (in_u 8) key -> Forall (in_u 8) (hmac_key t key).
Proof.
  intros Hk. unfold hmac_key. apply Forall_app. split; [|apply Forall_replicate; unfold in_u; lia].
  destruct (decide _); [apply hash_of_bytes|done].
Qed.

Lemma xor_pad_piece v t key :
  in_u 8 v -> Forall (in_u 8) key -> piece_ok (xor_pad v (hmac_key t key)).
Proof.
  intros Hv Hk. unfold xor_pad. split.
  - apply Forall_fmap. eapply Forall_impl; [by apply hmac_key_bytes|]. intros b Hb. simpl.
    by apply in_u_lxor; [lia| |].
  - rewrite length_fmap, length_hmac_key. destruct t; simpl; lia.
Qed.

(** The two checksums of a new object have absorbed the two pads. *)
Lemma hmac_new_ok t key :
  piece_ok key -> let h := hmac_new t key in
  digest_type h = t /\ ref_count h = 1 /\
  is_open (digesti h) (xor_pad 0x36 (hmac_key t key)) /\ ctype (digesti h) = t /\
  is_open (digesto h) (xor_pad 0x5c (hmac_key t key)) /\ ctype (digesto h) = t.
Proof.
  intros Hkey. destruct (new_open t) as [Hn Ht].
  assert (forall c k v, is_open c [] -> ctype c = t -> k = hmac_key t key -> in_u 8 v ->
    is_open (g_checksum_update c (xor_pad v k) (Z.of_nat (block_size t))) (xor_pad v (hmac_key t key)) /\
    ctype (g_checksum_update c (xor_pad v k) (Z.of_nat (block_size t))) = t) as Hpad.
  { intros c k v Ho Hc -> Hv. destruct Hkey as [Hkb _].
    assert (block_size t = length (xor_pad v (hmac_key t key))) as ->
      by (unfold xor_pad; by rewrite length_fmap, length_hmac_key).
    destruct (update_open c [] (xor_pad v (hmac_key t key)) Ho) as [Ho' Hc'];
      [by apply xor_pad_piece| |by rewrite Hc'].
    simpl. unfold xor_pad. rewrite length_fmap, length_hmac_key. destruct t; simpl; lia. }
  unfold hmac_new. destruct (decide (block_size t < length key)%nat) as [Hlong|Hshort].
  - destruct (update_open (checksum_new t) [] key Hn Hkey) as [Hu Hut].
    { destruct Hkey as [_ Hl]. simpl. lia. }
    simpl app in Hu. set (c := g_checksum_update (checksum_new t) key _) in *. rewrite Ht in Hut.
    assert (msg_ok key) as Hmk by (destruct Hkey as [_ Hl]; unfold msg_ok; lia).
    destruct (get_digest_open c key (block_size t) Hu Hmk) as (Hd & _ & Hct & Hw32 & Hw64).
    { rewrite Hut. apply type_length_block. }
    destruct (g_checksum_get_digest c (block_size t)) as [dig c'] eqn:Hdig. cbn [fst snd] in *. subst dig.
    rewrite Hut in *. cbn [default].
    destruct (reset_open c' Hw32 Hw64) as [Hr Hrt]. rewrite Hct in Hrt.
    set (k := memcpy (replicate (block_size t) 0) 0 (hash_of t key)).
    assert (k = hmac_key t key) as Hk.
    { unfold k, hmac_key. rewrite decide_True by done. apply memcpy_zeros. rewrite length_hash_of.
      apply type_length_block. }
    change (memcpy _ _ (default [] (Some (hash_of t key)))) with k.
    destruct (Hpad _ k 0x36 Hr Hrt Hk) as [Hi Hit]; [unfold in_u; lia|].
    destruct (Hpad _ k 0x5c Hn Ht Hk) as [Ho Hot]; [unfold in_u; lia|]. by split_and!.
  - set (k := memcpy (replicate (block_size t) 0) 0 key).
    assert (k = hmac_key t key) as Hk.
    { unfold k, hmac_key. rewrite decide_False by done. apply memcpy_zeros. lia. }
    destruct (Hpad _ k 0x36 Hn Ht Hk) as [Hi Hit]; [unfold in_u; lia|].
    destruct (Hpad _ k 0x5c Hn Ht Hk) as [Ho Hot]; [unfold in_u; lia|]. by split_and!.
Qed.

(** The pieces of a message. *)
Definition hmac_feed (h : GHmac) (pieces : list (list Z)) : GHmac :=
  foldl (fun h b => g_hmac_update h b (Z.of_nat (length b))) h pieces.

Lemma hmac_feed_eq h pieces :
  hmac_feed h pieces = MkHmac (ref_count h) (digest_type h) (feed (digesti h) pieces) (digesto h).
Proof. revert h. induction pieces as [|b pieces IH]; intros [n t i o]; [done|]. simpl. by rewrite IH. Qed.

(** Messages within the limits, with room for the pad in front. *)
Definition hmac_msg_ok (msg : list Z) : Prop := 8 * (Z.of_nat (length msg) + 512) < 2 ^ 64.

(** The inner digest of an object that was fed a message, and what the outer
    checksum has absorbed once it is added. *)
Lemma hmac_outer t key pieces :
  piece_ok key -> Forall piece_ok pieces -> hmac_msg_ok (concat pieces) ->
  let h := hmac_feed (hmac_new t key) pieces in
  let k := hmac_key t key in
  let inner := hash_of t (xor_pad 0x36 k ++ concat pieces) in
  digest_type h = t /\
  (g_checksum_get_digest (digesti h) (type_length t)).1 = Some inner /\
  is_open (g_checksum_update (digesto h) inner (Z.of_nat (type_length t))) (xor_pad 0x5c k ++ inner) /\
  ctype (g_checksum_update (digesto h) inner (Z.of_nat (type_length t))) = t /\
  msg_ok (xor_pad 0x5c k ++ inner).
Proof.
  intros Hkey Hp Hm. destruct (hmac_new_ok t key Hkey) as (Hdt & _ & Hi & Hit & Ho & Hot).
  cbv zeta. rewrite hmac_feed_eq. cbn [digest_type digesti digesto].
  assert (forall v, length (xor_pad v (hmac_key t key)) = block_size t) as Hlen
    by (intros; unfold xor_pad; by rewrite length_fmap, length_hmac_key).
  assert (block_size t <= 128)%nat as Hbs by (destruct t; simpl; lia).
  destruct (feed_open _ _ pieces Hi Hp) as [Hf Hft].
  { unfold hmac_msg_ok in Hm. unfold msg_ok. rewrite length_app, Hlen. lia. }
  rewrite Hit in Hft.
  destruct (get_digest_open _ _ (type_length t) Hf) as (Hd & _).
  { unfold hmac_msg_ok in Hm. unfold msg_ok. rewrite length_app, Hlen. lia. }
  { by rewrite Hft. }
  rewrite Hft in Hd. set (inner := hash_of t (xor_pad 0x36 (hmac_key t key) ++ concat pieces)) in *.
  assert (length inner = type_length t) as Hli by apply length_hash_of.
  pose proof (type_length_block t) as Htl.
  destruct (update_open _ _ inner Ho) as [Hu Hut].
  { apply hash_of_piece. }
  { rewrite length_app, Hlen. lia. }
  rewrite Hli in Hu, Hut. rewrite Hot in Hut. split; [done|]. split; [done|]. split; [done|].
  split; [done|]. unfold msg_ok. rewrite length_app, Hlen. lia.
Qed.

(** ** RFC 2104 *)

(** H(K xor opad, H(K xor ipad, text)), with the key [K] hashed if it is longer
    than a block of H, and filled up with zeros. *)
Definition rfc2104 (s : hash_standard) (key text : list Z) : list Z :=
  let B := hs_block s in
  let K := if decide (B < length key)%nat then hash_by s key else key in
  let K := K ++ replicate (B - length K) 0 in
  let ipad := replicate B 0x36 in
  let opad := replicate B 0x5c in
  hash_by s (zip_with Z.lxor K opad ++ hash_by s (zip_with Z.lxor K ipad ++ text)).

Lemma block_size_standard t : block_size t = hs_block (standard t).
Proof. by destruct t. Qed.

Lemma zip_xor_pad v l n : length l = n -> zip_with Z.lxor l (replicate n v) = xor_pad v l.
Proof.
  intros <-. unfold xor_pad. induction l as [|x l IH]; [done|]. cbn [length replicate zip_with fmap list_fmap].
  rewrite Z.lxor_comm. f_equal. exact IH.
Qed.

Lemma hmac_rfc2104 t key msg :
  Forall (in_u 8) key -> Forall (in_u 8) msg -> hmac t key msg = rfc2104 (standard t) key msg.
Proof.
  intros Hk Hm. unfold rfc2104. rewrite <- block_size_standard. cbv zeta.
  rewrite <- (hash_of_standard t key) by done. change (let k := if decide _ then _ else _ in _) with (hmac_key t key).
  set (k := (if decide (block_size t < length key)%nat then hash_of t key else key) ++ _).
  change k with (hmac_key t key).
  assert (forall v, in_u 8 v -> Forall (in_u 8) (xor_pad v (hmac_key t key))) as Hx.
  { intros v Hv. unfold xor_pad. apply Forall_fmap. eapply Forall_impl; [by apply hmac_key_bytes|]. intros b Hb. cbn. by apply in_u_lxor. }
  rewrite !zip_xor_pad by apply length_hmac_key. unfold hmac. cbv zeta.
  rewrite !hash_of_standard; [done|apply Forall_app; split; [apply Hx; unfold in_u; lia|done]|].
  apply Forall_app. split; [apply Hx; unfold in_u; lia|apply hash_of_bytes].
Qed.

(** * Properties *)

(** C23: a GHmac that is created with any key of bytes and fed a message in
    pieces returns the digest that RFC 2104 defines for the key and the whole
    message, over the hash function of RFC 1321 or FIPS 180-4: as bytes, for
    every buffer that has room for them, and as lower-case hexadecimal. Key and
    pieces are shorter than 2^32 bytes, messages than 2^61 - 512. *)
Theorem hmac_object_correct t key pieces room :
  piece_ok key -> Forall piece_ok pieces -> hmac_msg_ok (concat pieces) ->
  let h := hmac_feed (hmac_new t key) pieces in
  let D := rfc2104 (standard t) key (concat pieces) in
  (length D <= room)%nat ->
  (g_hmac_get_digest h room).1 = Some D /\ (g_hmac_get_string h).1 = hex D.
Proof.
  intros Hkey Hp Hm h D. assert (hmac t key (concat pieces) = D) as HD.
  { apply hmac_rfc2104; [apply Hkey|]. clear -Hp. induction Hp as [|b bs [Hb _] _ IH]; [constructor|]. by apply Forall_app. }
  rewrite <- HD. unfold hmac at 1. rewrite length_hash_of. intros Hroom.
  rewrite <- hex_text_hex by apply hash_of_bytes.
  destruct (hmac_outer t key pieces Hkey Hp Hm) as (Hdt & Hd & Hu & Hut & Hmo). fold h in Hdt, Hd, Hu, Hut.
  unfold g_hmac_get_string, g_hmac_get_digest. rewrite Hdt, !decide_True by done.
  destruct (g_checksum_get_digest (digesti h) (type_length t)) as [d i]. cbn [fst] in Hd. subst d.
  cbn [default]. unfold hmac, hex_text.
  set (o := g_checksum_update _ _ _) in *.
  destruct (get_digest_open o _ room Hu Hmo) as (Hd1 & _); [by rewrite Hut|].
  destruct (get_digest_open o _ (type_length t) Hu Hmo) as (_ & Hc & Hct & _); [by rewrite Hut|].
  rewrite Hut in Hct.
  destruct (g_checksum_get_digest o room) as [d1 o1]. destruct (g_checksum_get_digest o _) as [d2 o2].
  cbn [fst snd digesto] in *. rewrite Hut in Hd1. split; [done|].
  destruct Hc as [Hstr _]. unfold g_checksum_get_string. rewrite Hstr. cbn [fst]. by rewrite Hct.
Qed.

(** The second test case of RFC 2202. *)
Definition jefe : list Z := [0x4a; 0x65; 0x66; 0x65].
Definition what_do_ya : list (list Z) :=
  [[119; 104; 97; 116; 32; 100; 111; 32; 121; 97; 32; 119; 97; 110; 116; 32];
   [102; 111; 114; 32; 110; 111; 116; 104; 105; 110; 103; 63]].

Lemma hmac_object_correct_witness :
  (g_hmac_get_digest (hmac_feed (hmac_new G_CHECKSUM_MD5 jefe) what_do_ya) 16).1 =
    Some [0x75; 0x0c; 0x78; 0x3e; 0x6a; 0xb0; 0xb5; 0x03; 0xea; 0xa8; 0x6e; 0x31; 0x0a; 0x5d; 0xb7; 0x38].
Proof.
  assert (piece_ok jefe /\ Forall piece_ok what_do_ya) as [Hk Hp].
  { split; repeat constructor; done. }
  destruct (hmac_object_correct G_CHECKSUM_MD5 jefe what_do_ya 16 Hk Hp eq_refl) as [-> _]; [vm_compute; lia|].
  vm_compute. reflexivity.
Defined.
