(* ===== verification/Base64.v ===== *)
(** Base64: the incremental encoder and decoder of
    src/glib-2.56.1/glib/gbase64.c. *)
From S2P Require Import Prelude.

Open Scope c_scope.

(** * Encoding *)

Definition base64_alphabet : list Z :=
  [65; 66; 67; 68; 69; 70; 71; 72; 73; 74; 75; 76; 77; 78; 79; 80;
   81; 82; 83; 84; 85; 86; 87; 88; 89; 90; 97; 98; 99; 100; 101; 102;
   103; 104; 105; 106; 107; 108; 109; 110; 111; 112; 113; 114; 115; 116; 117; 118;
   119; 120; 121; 122; 48; 49; 50; 51; 52; 53; 54; 55; 56; 57; 43; 47].

(** [base64_alphabet [ i ]] *)
Definition code (i : Z) : Z := base64_alphabet !!! Z.to_nat i.

(** The [save] word as its bytes: the number of bytes saved, and the bytes. *)
Record saved := Saved { save0 : nat; save1 : Z; save2 : Z }.

(** The state of an encoder: the groups on the line, and the saved bytes. *)
Record encoder := Encoder { state : Z; save : saved }.

Definition encoder0 : encoder := Encoder 0 (Saved 0 0 0).

(** The body of the loop, from the label skip2 on: the text and the number of
    groups on the line. *)
Definition encode_group (break_lines : bool) (already c1 c2 c3 : Z) : list Z * Z :=
  let text := [code (c1 .>> 2); code ((c2 .>> 4) .| ((c1 .& 0x3) .<< 4));
               code (((c2 .& 0x0f) .<< 2) .| (c3 .>> 6)); code (c3 .& 0x3f)] in
  if break_lines then
    let already := already + 1 in
    if 19 <=? already then (text ++ [10], 0) else (text, already)
  else (text, already).

(** The loop: [inptr < inend] while more than two bytes are left. *)
Fixpoint encode_loop (break_lines : bool) (already : Z) (inp : list Z) : list Z * Z * list Z :=
  match inp with
  | c1 :: c2 :: c3 :: inp =>
      let (text, already) := encode_group break_lines already c1 c2 c3 in
      let '(out, already, rest) := encode_loop break_lines already inp in
      (text ++ out, already, rest)
  | _ => ([], already, inp)
  end.

(** The bytes that are left go to the slots behind those saved. *)
Definition save_rest (s : saved) (rest : list Z) : saved :=
  foldl (fun s c =>
    match save0 s with
    | O => Saved 1 c (save2 s)
    | _ => Saved 2 (save1 s) c
    end) s rest.

Definition g_base64_encode_step (inp : list Z) (break_lines : bool) (e : encoder) : list Z * encoder :=
  if decide (length inp = 0)%nat then ([], e)
  else if decide (2 < length inp + save0 (save e))%nat then
    let enter c1 c2 c3 inp :=
      let (text, already) := encode_group break_lines (state e) c1 c2 c3 in
      let '(out, already, rest) := encode_loop break_lines already inp in
      (text ++ out, already, rest) in
    let '(out, already, rest) :=
      match save0 (save e), inp with
      | 1%nat, c2 :: c3 :: inp => enter (save1 (save e)) c2 c3 inp
      | 2%nat, c3 :: inp => enter (save1 (save e)) (save2 (save e)) c3 inp
      | _, _ => encode_loop break_lines (state e) inp
      end in
    (out, Encoder already (save_rest (Saved 0 (save1 (save e)) (save2 (save e))) rest))
  else ([], Encoder (state e) (save_rest (save e) inp)).

Definition g_base64_encode_close (break_lines : bool) (e : encoder) : list Z * encoder :=
  let c1 := save1 (save e) in
  let c2 := save2 (save e) in
  let text :=
    match save0 (save e) with
    | 2%nat => [code (c1 .>> 2); code ((c2 .>> 4) .| ((c1 .& 0x3) .<< 4)); code ((c2 .& 0x0f) .<< 2); 61]
    | 1%nat => let c2 := 0 in [code (c1 .>> 2); code ((c2 .>> 4) .| ((c1 .& 0x3) .<< 4)); 61; 61]
    | _ => []
    end in
  (text ++ (if break_lines then [10] else []), encoder0).

Definition g_base64_encode (data : list Z) : list Z :=
  let (out, e) := g_base64_encode_step data false encoder0 in
  let (out', _) := g_base64_encode_close false e in
  out ++ out'.

(** * Decoding *)

Definition mime_base64_rank : list Z :=
  [255; 255; 255; 255; 255; 255; 255; 255; 255; 255; 255; 255; 255; 255; 255; 255;
   255; 255; 255; 255; 255; 255; 255; 255; 255; 255; 255; 255; 255; 255; 255; 255;
   255; 255; 255; 255; 255; 255; 255; 255; 255; 255; 255; 62; 255; 255; 255; 63;
   52; 53; 54; 55; 56; 57; 58; 59; 60; 61; 255; 255; 255; 0; 255; 255;
   255; 0; 1; 2; 3; 4; 5; 6; 7; 8; 9; 10; 11; 12; 13; 14;
   15; 16; 17; 18; 19; 20; 21; 22; 23; 24; 25; 255; 255; 255; 255; 255;
   255; 26; 27; 28; 29; 30; 31; 32; 33; 34; 35; 36; 37; 38; 39; 40;
   41; 42; 43; 44; 45; 46; 47; 48; 49; 50; 51; 255; 255; 255; 255; 255;
   255; 255; 255; 255; 255; 255; 255; 255; 255; 255; 255; 255; 255; 255; 255; 255;
   255; 255; 255; 255; 255; 255; 255; 255; 255; 255; 255; 255; 255; 255; 255; 255;
   255; 255; 255; 255; 255; 255; 255; 255; 255; 255; 255; 255; 255; 255; 255; 255;
   255; 255; 255; 255; 255; 255; 255; 255; 255; 255; 255; 255; 255; 255; 255; 255;
   255; 255; 255; 255; 255; 255; 255; 255; 255; 255; 255; 255; 255; 255; 255; 255;
   255; 255; 255; 255; 255; 255; 255; 255; 255; 255; 255; 255; 255; 255; 255; 255;
   255; 255; 255; 255; 255; 255; 255; 255; 255; 255; 255; 255; 255; 255; 255; 255;
   255; 255; 255; 255; 255; 255; 255; 255; 255; 255; 255; 255; 255; 255; 255; 255].

Definition rank (c : Z) : Z := mime_base64_rank !!! Z.to_nat c.

(** The local variables of the loop. *)
Record decoding := Decoding { d_v : Z; d_i : Z; last0 : Z; last1 : Z }.

(** One round of the loop: the bytes it stores, and the variables. *)
Definition decode_char (d : decoding) (c : Z) : list Z * decoding :=
  if rank c =? 0xff then ([], d)
  else
    let last1' := last0 d in
    let last0' := c in
    let v := u32 (d_v d .<< 6) .| rank c in
    let i := d_i d + 1 in
    if i =? 4 then
      ([u8 (v .>> 16)] ++ (if last1' =? 61 then [] else [u8 (v .>> 8)]) ++
       (if last0' =? 61 then [] else [u8 v]), Decoding v 0 last0' last1')
    else ([], Decoding v i last0' last1').

Fixpoint decode_loop (d : decoding) (inp : list Z) : list Z * decoding :=
  match inp with
  | [] => ([], d)
  | c :: inp =>
      let (out, d) := decode_char d c in
      let (out', d) := decode_loop d inp in
      (out ++ out', d)
  end.

(** The state between the steps of a decoder. *)
Record decoder := Decoder { dec_state : Z; dec_save : Z }.

Definition decoder0 : decoder := Decoder 0 0.

(** The sign of the state stands for a padding character at the end. *)
Definition decode_enter (s : decoder) : decoding :=
  if dec_state s <? 0 then Decoding (dec_save s) (- dec_state s) 61 0
  else Decoding (dec_save s) (dec_state s) 0 0.
Definition decode_leave (d : decoding) : decoder :=
  Decoder (if last0 d =? 61 then - d_i d else d_i d) (d_v d).

Definition g_base64_decode_step (inp : list Z) (s : decoder) : list Z * decoder :=
  if decide (length inp = 0)%nat then ([], s)
  else let (out, d) := decode_loop (decode_enter s) inp in (out, decode_leave d).

Definition g_base64_decode (text : list Z) : list Z := (g_base64_decode_step text decoder0).1.

(** ** Decoding in place *)

(** [*outptr++ = b], for each of the bytes. *)
Fixpoint store_bytes (mem : list Z) (out : nat) (bytes : list Z) : list Z * nat :=
  match bytes with
  | [] => (mem, out)
  | b :: bytes => store_bytes (<[out := b]> mem) (S out) bytes
  end.

(** The loop where [in] and [out] point to the same memory [mem]: the bytes are
    read at [inp] and stored at [out]. *)
Fixpoint decode_loop_mem (n : nat) (mem : list Z) (inp out : nat) (d : decoding) :
    list Z * nat * decoding :=
  match n with
  | O => (mem, out, d)
  | S n =>
      let (bytes, d) := decode_char d (mem !!! inp) in
      let (mem, out) := store_bytes mem out bytes in
      decode_loop_mem n mem (S inp) out d
  end.

(** The memory of the text and the length of the result; [None] where the
    precondition check fails. *)
Definition g_base64_decode_inplace (text : list Z) : option (list Z * nat) :=
  if decide (1 < length text)%nat then
    let '(mem, out, _) := decode_loop_mem (length text) text 0 0 (decode_enter decoder0) in
    Some (mem, out)
  else None.

Example encode_hello : g_base64_encode [104; 101; 108; 108; 111] = [97; 71; 86; 115; 98; 71; 56; 61].
Proof. reflexivity. Qed.
Example decode_hello : g_base64_decode [97; 71; 86; 115; 98; 71; 56; 61] = [104; 101; 108; 108; 111].
Proof. reflexivity. Qed.

(** * The encoding of RFC 4648 *)

(** Three bytes as a number of 24 bits, in four digits of six bits. *)
Definition digits (n : Z) : list Z :=
  [code (n / 2 ^ 18); code (n / 2 ^ 12 mod 64); code (n / 2 ^ 6 mod 64); code (n mod 64)].
Definition quad (c1 c2 c3 : Z) : list Z := digits (c1 * 2 ^ 16 + c2 * 2 ^ 8 + c3).

(** The whole groups of a message, and the bytes that are left. *)
Fixpoint quads (msg : list Z) : list (list Z) :=
  match msg with c1 :: c2 :: c3 :: msg => quad c1 c2 c3 :: quads msg | _ => [] end.
Fixpoint remainder (msg : list Z) : list Z :=
  match msg with _ :: _ :: _ :: msg => remainder msg | _ => msg end.

(** The last group: zeros for the missing bytes, '=' for the missing digits. *)
Definition last_quad (rest : list Z) : list Z :=
  match rest with
  | [c1] => take 2 (quad c1 0 0) ++ [61; 61]
  | [c1; c2] => take 3 (quad c1 c2 0) ++ [61]
  | _ => []
  end.

(** A line feed behind every nineteenth group, and at the end. *)
Definition line_feed (break_lines : bool) (k : nat) : list Z :=
  if break_lines && (Nat.eqb (S k mod 19) 0) then [10] else [].
Definition lines (break_lines : bool) (k : nat) (groups : list (list Z)) : list Z :=
  concat (imap (fun j g => g ++ line_feed break_lines (k + j)) groups).

Definition base64 (break_lines : bool) (msg : list Z) : list Z :=
  lines break_lines 0 (quads msg) ++ last_quad (remainder msg) ++ (if break_lines then [10] else []).

(** * Encoding computes it *)

Lemma split_or hi lo w : 0 <= w -> in_u w lo -> (hi .<< w) .| lo = hi * 2 ^ w + lo.
Proof. apply lor_shiftl_add. Qed.

(** The digits that the code picks out of the bytes. *)
Lemma group_digits c1 c2 c3 :
  in_u 8 c1 -> in_u 8 c2 -> in_u 8 c3 ->
  [code (c1 .>> 2); code ((c2 .>> 4) .| ((c1 .& 0x3) .<< 4));
   code (((c2 .& 0x0f) .<< 2) .| (c3 .>> 6)); code (c3 .& 0x3f)] = quad c1 c2 c3.
Proof.
  intros H1 H2 H3. unfold quad, digits, in_u in *.
  change 0x3 with (Z.ones 2). change 0x0f with (Z.ones 4). change 0x3f with (Z.ones 6).
  rewrite !Z.land_ones, !Z.shiftr_div_pow2 by lia.
  rewrite (Z.lor_comm (c2 / _)), !lor_shiftl_add by (unfold in_u; Z.div_mod_to_equations; lia).
  set (n := c1 * 2 ^ 16 + c2 * 2 ^ 8 + c3).
  assert (c1 / 2 ^ 2 = n / 2 ^ 18) as -> by (unfold n; Z.div_mod_to_equations; lia).
  assert (c1 mod 2 ^ 2 * 2 ^ 4 + c2 / 2 ^ 4 = n / 2 ^ 12 mod 64) as ->
    by (unfold n; Z.div_mod_to_equations; lia).
  assert (c2 mod 2 ^ 4 * 2 ^ 2 + c3 / 2 ^ 6 = n / 2 ^ 6 mod 64) as ->
    by (unfold n; Z.div_mod_to_equations; lia).
  assert (c3 mod 2 ^ 6 = n mod 64) as -> by (unfold n; Z.div_mod_to_equations; lia). done.
Qed.

Lemma lines_cons brk k g groups :
  lines brk k (g :: groups) = g ++ line_feed brk k ++ lines brk (S k) groups.
Proof.
  unfold lines. rewrite imap_cons. cbn [concat]. rewrite Nat.add_0_r, <- app_assoc. do 3 f_equal.
  apply imap_ext. intros. simpl. by rewrite Nat.add_succ_r.
Qed.

Lemma lines_app brk k groups groups' :
  lines brk k (groups ++ groups') = lines brk k groups ++ lines brk (k + length groups) groups'.
Proof.
  revert k. induction groups as [|g groups IH]; intros k; simpl.
  - by rewrite Nat.add_0_r.
  - rewrite !lines_cons, IH, <- !app_assoc. do 4 f_equal. lia.
Qed.

(** The counter of the groups on the line, for [k] groups written. *)
Definition on_line (brk : bool) (k : nat) : Z := if brk then Z.of_nat (k mod 19) else 0.

Lemma mod19_S k : (S k mod 19 = if decide (k mod 19 = 18) then 0 else S (k mod 19))%nat.
Proof.
  pose proof (Nat.div_mod_eq k 19). pose proof (Nat.mod_upper_bound k 19).
  destruct (decide _).
  - symmetry. apply (Nat.mod_unique _ _ (S (k / 19))); lia.
  - symmetry. apply (Nat.mod_unique _ _ (k / 19)); lia.
Qed.

Lemma encode_group_ok brk k c1 c2 c3 :
  in_u 8 c1 -> in_u 8 c2 -> in_u 8 c3 ->
  encode_group brk (on_line brk k) c1 c2 c3 = (quad c1 c2 c3 ++ line_feed brk k, on_line brk (S k)).
Proof.
  intros H1 H2 H3. unfold encode_group. rewrite group_digits by done.
  destruct brk; [|by rewrite app_nil_r]. unfold on_line, line_feed. cbn [andb].
  rewrite (mod19_S k). pose proof (Nat.mod_upper_bound k 19 ltac:(lia)).
  destruct (decide _) as [E|E].
  - rewrite E. done.
  - destruct (Z.leb_spec 19 (Z.of_nat (k mod 19) + 1)); [lia|].
    cbn [Nat.eqb]. rewrite app_nil_r. f_equal. lia.
Qed.

Lemma encode_loop_ok brk k msg :
  Forall (in_u 8) msg ->
  encode_loop brk (on_line brk k) msg =
    (lines brk k (quads msg), on_line brk (k + length (quads msg)), remainder msg).
Proof.
  revert k. induction msg as [msg IH] using (induction_ltof1 _ length); unfold ltof in IH; intros k H.
  destruct msg as [|c1 [|c2 [|c3 msg]]]; try (cbn; by rewrite Nat.add_0_r).
  apply Forall_cons in H as [H1 H]. apply Forall_cons in H as [H2 H]. apply Forall_cons in H as [H3 H].
  cbn [encode_loop quads remainder]. rewrite encode_group_ok by done.
  rewrite (IH msg) by (done || (simpl; lia)). cbn [length].
  rewrite lines_cons, <- app_assoc, Nat.add_succ_r. done.
Qed.

Lemma quads_length msg : length msg = (3 * length (quads msg) + length (remainder msg))%nat.
Proof.
  induction msg as [msg IH] using (induction_ltof1 _ length); unfold ltof in IH.
  destruct msg as [|c1 [|c2 [|c3 msg]]]; try done. cbn [quads remainder length].
  rewrite (IH msg) at 1 by (simpl; lia). lia.
Qed.

Lemma remainder_short msg : (length (remainder msg) < 3)%nat.
Proof.
  induction msg as [msg IH] using (induction_ltof1 _ length); unfold ltof in IH.
  destruct msg as [|c1 [|c2 [|c3 msg]]]; simpl; try lia. apply IH. simpl. lia.
Qed.

Lemma quads_app a b :
  quads (a ++ b) = quads a ++ quads (remainder a ++ b) /\ remainder (a ++ b) = remainder (remainder a ++ b).
Proof.
  induction a as [a IH] using (induction_ltof1 _ length); unfold ltof in IH.
  destruct a as [|c1 [|c2 [|c3 a]]]; try done.
  destruct (IH a) as [E1 E2]; [simpl; lia|]. cbn [app quads remainder]. by rewrite E1, E2.
Qed.

Lemma remainder_bytes msg : Forall (in_u 8) msg -> Forall (in_u 8) (remainder msg).
Proof.
  induction msg as [msg IH] using (induction_ltof1 _ length); unfold ltof in IH. intros H.
  destruct msg as [|c1 [|c2 [|c3 msg]]]; try exact H. apply (IH msg); [simpl; lia|].
  by do 3 apply Forall_cons in H as [_ H].
Qed.

(** The saved bytes are the bytes behind the last whole group. *)
Definition saves (s : saved) (rest : list Z) : Prop :=
  save0 s = length rest /\
  match rest with [] => True | [a] => save1 s = a | [a; b] => save1 s = a /\ save2 s = b | _ => False end.

Lemma save_rest_ok s r rest :
  saves s r -> (length (r ++ rest) < 3)%nat -> saves (save_rest s rest) (r ++ rest).
Proof.
  destruct s as [n a b]. intros [Hn Hr] Hl. simpl in Hn. subst n. unfold save_rest, saves.
  destruct r as [|x [|y []]], rest as [|u [|v []]]; simpl in *; try lia; try done; naive_solver.
Qed.

(** The encoder that has written the whole groups of [msg]. *)
Definition encodes (brk : bool) (e : encoder) (msg : list Z) : Prop :=
  state e = on_line brk (length (quads msg)) /\ saves (save e) (remainder msg).

(** A step on the saved bytes [r] is the loop on these and the new bytes. *)
Lemma encode_step_loop brk e r inp :
  saves (save e) r -> (length r < 3)%nat ->
  exists s, (length (remainder (r ++ inp)) < 3 -> saves s (remainder (r ++ inp)))%nat /\
    g_base64_encode_step inp brk e =
      let '(out, already, _) := encode_loop brk (state e) (r ++ inp) in (out, Encoder already s).
Proof.
  intros Hr Hl. unfold g_base64_encode_step. destruct (decide _) as [H0|H0].
  { apply nil_length_inv in H0 as ->. exists (save e). rewrite app_nil_r.
    destruct r as [|a [|b []]]; (split; [done|by destruct e])|| (simpl in Hl; lia). }
  pose proof Hr as [-> _]. destruct (decide _) as [H2|H2].
  - exists (save_rest (Saved 0 (save1 (save e)) (save2 (save e)))
      (encode_loop brk (state e) (r ++ inp)).2).
    split.
    + intros Hshort. assert (forall already msg, (encode_loop brk already msg).2 = remainder msg) as ->.
      { intros already msg. revert already.
        induction msg as [msg IH] using (induction_ltof1 _ length); unfold ltof in IH. intros already.
        destruct msg as [|c1 [|c2 [|c3 msg]]]; try done. cbn [encode_loop remainder].
        destruct (encode_group _ _ _ _ _) as [t a]. specialize (IH msg ltac:(simpl; lia) a).
        by destruct (encode_loop brk a msg) as [[? ?] ?]. }
      by apply (save_rest_ok _ []).
    + destruct Hr as [_ Hr]. destruct r as [|a [|b []]]; simpl in Hl, Hr; [..|lia].
      * by destruct (encode_loop _ _ _) as [[? ?] ?].
      * destruct inp as [|c2 [|c3 inp]]; [simpl in H2; lia..|]. subst a. cbn [length app encode_loop].
        destruct (encode_group _ _ _ _ _) as [t a]. by destruct (encode_loop _ _ _) as [[? ?] ?].
      * destruct inp as [|c3 inp]; [simpl in H2; lia..|]. destruct Hr as [-> ->]. cbn [length app encode_loop].
        destruct (encode_group _ _ _ _ _) as [t a']. by destruct (encode_loop _ _ _) as [[? ?] ?].
  - exists (save_rest (save e) inp). split.
    + intros _. assert (length (r ++ inp) < 3)%nat as Hlt by (rewrite length_app; lia).
      assert (remainder (r ++ inp) = r ++ inp) as ->.
      { destruct (r ++ inp) as [|? [|? [|? ?]]]; simpl in Hlt; try done. lia. }
      by apply save_rest_ok.
    + assert (length (r ++ inp) < 3)%nat as Hlt by (rewrite length_app; lia).
      destruct (r ++ inp) as [|? [|? [|? ?]]]; simpl in Hlt; try done. lia.
Qed.

Lemma encode_step_ok brk e msg inp :
  Forall (in_u 8) msg -> Forall (in_u 8) inp -> encodes brk e msg ->
  exists e' groups, g_base64_encode_step inp brk e = (lines brk (length (quads msg)) groups, e') /\
    quads (msg ++ inp) = quads msg ++ groups /\ encodes brk e' (msg ++ inp).
Proof.
  intros Hm Hi [Hst Hsv]. destruct (quads_app msg inp) as [Hq Hr].
  destruct (encode_step_loop brk e (remainder msg) inp Hsv (remainder_short msg)) as (s & Hs & ->).
  rewrite Hst, encode_loop_ok by (apply Forall_app; split; [by apply remainder_bytes|done]).
  eexists _, (quads (remainder msg ++ inp)). split; [done|]. split; [done|].
  split; cbn [state save]; [by rewrite Hq, length_app|].
  rewrite Hr. apply Hs, remainder_short.
Qed.

Lemma encode_close_ok brk e msg :
  Forall (in_u 8) msg -> encodes brk e msg ->
  g_base64_encode_close brk e =
    (last_quad (remainder msg) ++ (if brk then [10] else []), encoder0).
Proof.
  intros Hm [_ [Hn Hs]]. unfold g_base64_encode_close. rewrite Hn.
  pose proof (remainder_bytes msg Hm) as Hr.
  destruct (remainder msg) as [|a [|b [|? ?]]]; [done|..|done].
  - apply Forall_cons in Hr as [Ha _]. simpl in Hs. rewrite Hs. cbn [length last_quad].
    by rewrite <- group_digits by (done || (unfold in_u; lia)).
  - rewrite !Forall_cons in Hr. destruct Hr as (Ha & Hb & _), Hs as [-> ->]. cbn [length last_quad].
    rewrite <- group_digits by (done || (unfold in_u; lia)).
    change (0 .>> 6) with 0. by rewrite Z.lor_0_r.
Qed.

(** A message in pieces: the steps and the close. *)
Definition encode_feed (brk : bool) (s : list Z * encoder) (piece : list Z) : list Z * encoder :=
  let (out, e) := g_base64_encode_step piece brk s.2 in (s.1 ++ out, e).
Definition encode_pieces (brk : bool) (pieces : list (list Z)) : list Z * encoder :=
  let (out, e) := foldl (encode_feed brk) ([], encoder0) pieces in
  let (out', e) := g_base64_encode_close brk e in
  (out ++ out', e).

Lemma encode_feed_ok brk e msg pieces :
  Forall (in_u 8) msg -> Forall (Forall (in_u 8)) pieces -> encodes brk e msg ->
  exists e', foldl (encode_feed brk) (lines brk 0 (quads msg), e) pieces =
    (lines brk 0 (quads (msg ++ concat pieces)), e') /\ encodes brk e' (msg ++ concat pieces).
Proof.
  revert e msg. induction pieces as [|b pieces IH]; intros e msg Hm Hp He; cbn [foldl concat].
  { exists e. by rewrite app_nil_r. }
  apply Forall_cons in Hp as [Hb Hp].
  destruct (encode_step_ok brk e msg b Hm Hb He) as (e' & groups & Hrun & Hq & He').
  unfold encode_feed at 2. cbn [fst snd]. rewrite Hrun.
  replace (lines brk 0 (quads msg) ++ lines brk (length (quads msg)) groups)
    with (lines brk 0 (quads (msg ++ b))) by (by rewrite Hq, lines_app).
  destruct (IH e' (msg ++ b)) as (e'' & Hrun' & He''); [by apply Forall_app|done|done|].
  exists e''. by rewrite app_assoc.
Qed.

Lemma encode_pieces_ok brk pieces :
  Forall (Forall (in_u 8)) pieces -> encode_pieces brk pieces = (base64 brk (concat pieces), encoder0).
Proof.
  intros Hp. unfold encode_pieces.
  destruct (encode_feed_ok brk encoder0 [] pieces) as (e & Hrun & He); [done|done|by destruct brk|].
  change (lines brk 0 (quads [])) with (@nil Z) in Hrun. rewrite Hrun.
  rewrite (encode_close_ok brk e ([] ++ concat pieces)) by (done || by apply Forall_concat).
  done.
Qed.

(** * Decoding *)

Lemma rank_code x : 0 <= x < 64 -> rank (code x) = x /\ code x <> 61.
Proof.
  intros Hx.
  assert (forall_range 0 64 (fun x => (rank (code x) =? x) && negb (code x =? 61)) = true) as H by reflexivity.
  pose proof (forall_range_spec _ _ _ H x ltac:(lia)) as Hb. simpl in Hb.
  apply andb_true_iff in Hb as [H1 H2]. apply Z.eqb_eq in H1. apply negb_true_iff, Z.eqb_neq in H2. done.
Qed.

(** The characters that count. *)
Definition is_code (c : Z) : bool := negb (rank c =? 0xff).

Lemma decode_loop_app d a b :
  decode_loop d (a ++ b) =
    let (out, d) := decode_loop d a in let (out', d) := decode_loop d b in (out ++ out', d).
Proof.
  revert d. induction a as [|c a IH]; intros d; simpl; [by destruct (decode_loop d b)|].
  destruct (decode_char d c) as [o d']. rewrite IH. destruct (decode_loop d' a) as [o' d''].
  destruct (decode_loop d'' b) as [o'' d3]. by rewrite app_assoc.
Qed.

Lemma decode_loop_filter d text : decode_loop d text = decode_loop d (List.filter is_code text).
Proof.
  revert d. induction text as [|c text IH]; intros d; [done|]. cbn [decode_loop List.filter].
  destruct (is_code c) eqn:E; cbn [decode_loop].
  - destruct (decode_char d c) as [o d']. by rewrite IH.
  - unfold is_code in E. apply negb_false_iff in E. unfold decode_char. rewrite E, IH.
    by destruct (decode_loop d _).
Qed.

(** ** Steps *)

(** Two states of the loop that decode alike: the last character counts only
    within a group. *)
Definition same (d d' : decoding) : Prop :=
  d_v d = d_v d' /\ d_i d = d_i d' /\ 0 <= d_i d < 4 /\
  (d_i d <> 0 -> (last0 d =? 61) = (last0 d' =? 61)).

Lemma decode_char_same d d' c :
  same d d' -> (decode_char d c).1 = (decode_char d' c).1 /\ same (decode_char d c).2 (decode_char d' c).2.
Proof.
  destruct d as [v i l0 l1], d' as [v' i' l0' l1']. unfold same, decode_char. cbn [d_v d_i last0 last1].
  intros (<- & <- & Hi & Hl). destruct (rank c =? 0xff); [done|].
  destruct (Z.eqb_spec (i + 1) 4) as [E|E].
  - rewrite Hl by lia. cbn [fst snd d_v d_i last0]. split_and!; [done..| |done]. lia.
  - cbn [fst snd d_v d_i last0]. split_and!; [done..| | |done]; lia.
Qed.

Lemma decode_loop_same d d' text :
  same d d' -> (decode_loop d text).1 = (decode_loop d' text).1 /\ same (decode_loop d text).2 (decode_loop d' text).2.
Proof.
  revert d d'. induction text as [|c text IH]; intros d d' H; [done|]. cbn [decode_loop].
  destruct (decode_char_same d d' c H) as [Ho Hd].
  destruct (decode_char d c) as [o d1], (decode_char d' c) as [o' d1']. cbn [fst snd] in *.
  destruct (IH _ _ Hd) as [Ho' Hd']. destruct (decode_loop d1 text), (decode_loop d1' text).
  cbn [fst snd] in *. by subst.
Qed.

(** The state between two steps keeps what counts. *)
Lemma enter_leave d d' : same d d' -> same (decode_enter (decode_leave d)) d'.
Proof.
  destruct d as [v i l0 l1], d' as [v' i' l0' l1']. unfold same, decode_enter, decode_leave.
  cbn [d_v d_i last0 dec_state dec_save]. intros (<- & <- & Hi & Hl).
  destruct (l0 =? 61) eqn:E.
  - destruct (Z.ltb_spec (- i) 0); cbn [d_v d_i last0].
    + rewrite Z.opp_involutive. split_and!; [done..|lia|lia|]. intros. by rewrite <- Hl by lia.
    + split_and!; [done|lia|lia|lia|lia].
  - destruct (Z.ltb_spec i 0); [lia|]. cbn [d_v d_i last0].
    split_and!; [done..|lia|lia|]. intros. by rewrite <- Hl by lia.
Qed.

(** A text in pieces. *)
Definition decode_feed (s : list Z * decoder) (piece : list Z) : list Z * decoder :=
  let (out, d) := g_base64_decode_step piece s.2 in (s.1 ++ out, d).
Definition decode_pieces (pieces : list (list Z)) : list Z * decoder :=
  foldl decode_feed ([], decoder0) pieces.

Lemma decode_feed_ok s d pieces :
  same (decode_enter s.2) d ->
  exists s', foldl decode_feed s pieces = (s.1 ++ (decode_loop d (concat pieces)).1, s') /\
    same (decode_enter s') (decode_loop d (concat pieces)).2.
Proof.
  revert s d. induction pieces as [|b pieces IH]; intros [out s] d H; cbn [foldl concat fst snd] in *.
  { exists s. by rewrite app_nil_r. }
  unfold decode_feed at 2. cbn [fst snd]. unfold g_base64_decode_step.
  destruct (decide _) as [E|E].
  { apply nil_length_inv in E as ->. rewrite app_nil_r. by apply (IH (out, s)). }
  destruct (decode_loop_same _ _ b H) as [Ho Hd]. rewrite decode_loop_app.
  destruct (decode_loop (decode_enter s) b) as [o1 d1], (decode_loop d b) as [o2 d2].
  cbn [fst snd] in *. subst o2.
  destruct (IH (out ++ o1, decode_leave d1) d2) as (s' & Hrun & Hs'); [by apply enter_leave|].
  exists s'. rewrite Hrun. destruct (decode_loop d2 (concat pieces)). cbn [fst snd] in *.
  by rewrite app_assoc.
Qed.

(** ** Groups *)

(** The value of a character of the alphabet or of '='. *)
Lemma decode_shift v x : 0 <= x < 64 -> u32 (v .<< 6) .| x = (v * 64 + x) mod 2 ^ 32.
Proof.
  intros Hx. unfold wrap. rewrite Z.shiftl_mul_pow2 by lia. change (2 ^ 32) with (2 ^ 26 * 2 ^ 6).
  rewrite Z.mul_mod_distr_r by lia. rewrite <- Z.shiftl_mul_pow2, lor_shiftl_add by (unfold in_u; lia).
  change (2 ^ 6) with 64. Z.div_mod_to_equations. lia.
Qed.

(** Four characters of the values [x0] to [x3]: the bytes they give. *)
Lemma decode_four d c0 c1 c2 c3 rest :
  d_i d = 0 -> Forall (fun c => 0 <= rank c < 64) [c0; c1; c2; c3] ->
  let n := rank c0 * 2 ^ 18 + rank c1 * 2 ^ 12 + rank c2 * 2 ^ 6 + rank c3 in
  exists v, (decode_loop d (c0 :: c1 :: c2 :: c3 :: rest)) =
    let (out, d') := decode_loop (Decoding v 0 c3 c2) rest in
    ([n / 2 ^ 16] ++ (if c2 =? 61 then [] else [n / 2 ^ 8 mod 2 ^ 8]) ++
     (if c3 =? 61 then [] else [n mod 2 ^ 8]) ++ out, d').
Proof.
  intros Hi Hc n. rewrite !Forall_cons in Hc. destruct Hc as (H0 & H1 & H2 & H3 & _).
  assert (forall d c rest, 0 <= rank c < 64 -> d_i d + 1 <> 4 ->
    decode_loop d (c :: rest) =
      decode_loop (Decoding ((d_v d * 64 + rank c) mod 2 ^ 32) (d_i d + 1) c (last0 d)) rest) as Hstep.
  { intros d' c rest' Hr Hd. cbn [decode_loop]. unfold decode_char. rewrite decode_shift by done.
    destruct (Z.eqb_spec (rank c) 0xff); [lia|]. destruct (Z.eqb_spec (d_i d' + 1) 4); [done|].
    by destruct (decode_loop _ rest'). }
  do 3 (rewrite Hstep by (done || (cbn [d_i]; lia))). cbn [d_v d_i last0 decode_loop].
  unfold decode_char. cbn [d_v d_i last0]. rewrite decode_shift by done. rewrite Hi.
  destruct (Z.eqb_spec (rank c3) 0xff); [lia|]. change (0 + 1 + 1 + 1 + 1 =? 4) with true. cbn match.
  set (v := (_ * 64 + rank c3) mod 2 ^ 32). exists v.
  assert (v mod 2 ^ 24 = n) as Hv.
  { subst v n. generalize (d_v d) as w. intros w. Z.div_mod_to_equations. lia. }
  destruct (decode_loop _ rest) as [out d']. unfold wrap. rewrite !Z.shiftr_div_pow2 by lia.
  assert ((v / 2 ^ 16) mod 2 ^ 8 = n / 2 ^ 16) as -> by (rewrite <- Hv; Z.div_mod_to_equations; lia).
  assert ((v / 2 ^ 8) mod 2 ^ 8 = n / 2 ^ 8 mod 2 ^ 8) as -> by (rewrite <- Hv; Z.div_mod_to_equations; lia).
  assert (v mod 2 ^ 8 = n mod 2 ^ 8) as -> by (rewrite <- Hv; Z.div_mod_to_equations; lia).
  by destruct (c2 =? 61), (c3 =? 61).
Qed.

Lemma code_digit n k : is_code (code (n / k mod 64)) = true /\ rank (code (n / k mod 64)) = n / k mod 64 /\
  (code (n / k mod 64) =? 61) = false /\ 0 <= n / k mod 64 < 64.
Proof.
  pose proof (Z.mod_pos_bound (n / k) 64 ltac:(lia)) as Hx.
  destruct (rank_code _ Hx) as [Hr Hn]. unfold is_code. rewrite Hr. split_and!; [|done|by apply Z.eqb_neq|lia..].
  apply negb_true_iff, Z.eqb_neq. lia.
Qed.

(** A group of [m] digits, filled up with '='. *)
Lemma decode_padded d m n rest :
  d_i d = 0 -> 0 <= n < 2 ^ 24 -> (2 <= m <= 4)%nat ->
  ((m <= 3)%nat -> n mod 2 ^ 6 = 0) -> ((m <= 2)%nat -> n mod 2 ^ 12 = 0) ->
  exists d', d_i d' = 0 /\
    decode_loop d (take m (digits n) ++ replicate (4 - m) 61 ++ rest) =
      let (out, d'') := decode_loop d' rest in
      (take (m - 1) [n / 2 ^ 16; n / 2 ^ 8 mod 2 ^ 8; n mod 2 ^ 8] ++ out, d'').
Proof.
  intros Hi Hn Hm H3 H2. unfold digits.
  assert (n / 2 ^ 18 = n / 2 ^ 18 mod 64) as -> by (Z.div_mod_to_equations; lia).
  destruct (code_digit n (2 ^ 18)) as (_ & R0 & _ & B0), (code_digit n (2 ^ 12)) as (_ & R1 & _ & B1),
    (code_digit n (2 ^ 6)) as (_ & R2 & N2 & B2), (code_digit n 1) as (_ & R3 & N3 & B3).
  rewrite Z.div_1_r in *. change (rank 61) with 0 in *.
  assert (m = 2 \/ m = 3 \/ m = 4)%nat as [-> | [-> | ->]] by lia; cbn [take replicate Nat.sub app];
    match goal with |- context [decode_loop d (?c0 :: ?c1 :: ?c2 :: ?c3 :: rest)] =>
      destruct (decode_four d c0 c1 c2 c3 rest Hi) as [v Hv];
        [repeat constructor; change (rank 61) with 0 in *; lia|];
      exists (Decoding v 0 c3 c2); split; [done|]; rewrite Hv end;
    change (rank 61) with 0; rewrite ?R0, ?R1, ?R2, ?R3, ?N2, ?N3; change (61 =? 61) with true; cbn match;
    destruct (decode_loop _ rest) as [out d'']; cbn [take app].
  - specialize (H2 ltac:(lia)). do 2 f_equal. Z.div_mod_to_equations; lia.
  - specialize (H3 ltac:(lia)). do 2 f_equal; [|f_equal]; Z.div_mod_to_equations; lia.
  - do 2 f_equal; [|f_equal; [|f_equal]]; Z.div_mod_to_equations; lia.
Qed.

Lemma decode_text d msg :
  d_i d = 0 -> Forall (in_u 8) msg ->
  exists d', d_i d' = 0 /\
    decode_loop d (concat (quads msg) ++ last_quad (remainder msg)) = (msg, d').
Proof.
  revert d. induction msg as [msg IH] using (induction_ltof1 _ length); unfold ltof in IH.
  intros d Hi Hm. unfold in_u in Hm.
  destruct msg as [|c1 [|c2 [|c3 msg]]]; cbn [quads remainder concat last_quad app].
  - by exists d.
  - apply Forall_cons in Hm as [H1 _].
    destruct (decode_padded d 2 (c1 * 2 ^ 16 + 0 * 2 ^ 8 + 0) [] Hi) as (d' & Hd' & Hrun);
      [lia|lia|intros; Z.div_mod_to_equations; lia..|].
    exists d'. split; [done|]. unfold quad. rewrite app_nil_r in Hrun. etransitivity; [exact Hrun|].
    cbn. f_equal. f_equal. Z.div_mod_to_equations; lia.
  - rewrite !Forall_cons in Hm. destruct Hm as (H1 & H2 & _).
    destruct (decode_padded d 3 (c1 * 2 ^ 16 + c2 * 2 ^ 8 + 0) [] Hi) as (d' & Hd' & Hrun);
      [lia|lia|intros; Z.div_mod_to_equations; lia..|].
    exists d'. split; [done|]. unfold quad. rewrite app_nil_r in Hrun. etransitivity; [exact Hrun|].
    cbn. f_equal.
    f_equal; [|f_equal]; Z.div_mod_to_equations; lia.
  - rewrite !Forall_cons in Hm. destruct Hm as (H1 & H2 & H3 & Hm).
    set (rest := concat (quads msg) ++ last_quad (remainder msg)).
    destruct (decode_padded d 4 (c1 * 2 ^ 16 + c2 * 2 ^ 8 + c3) rest Hi) as (d' & Hd' & Hrun); [lia..|].
    destruct (IH msg ltac:(simpl; lia) d' Hd' Hm) as (d'' & Hd'' & Hrun'). fold rest in Hrun'.
    exists d''. split; [done|]. rewrite <- app_assoc. fold rest.
    change (quad c1 c2 c3 ++ rest) with (take 4 (digits (c1 * 2 ^ 16 + c2 * 2 ^ 8 + c3)) ++ replicate (4 - 4) 61 ++ rest).
    rewrite Hrun, Hrun'. cbn [take app Nat.sub]. f_equal.
    f_equal; [|f_equal; [|f_equal]]; Z.div_mod_to_equations; lia.
Qed.

(** The text without its line feeds. *)
Lemma code_chars n : 0 <= n < 2 ^ 24 -> Forall (fun c => is_code c = true) (digits n).
Proof.
  intros Hn. unfold digits.
  assert (n / 2 ^ 18 = n / 2 ^ 18 mod 64) as -> by (Z.div_mod_to_equations; lia).
  assert (n mod 64 = n / 1 mod 64) as -> by (by rewrite Z.div_1_r).
  repeat constructor; apply code_digit.
Qed.

Lemma filter_all {A} (p : A -> bool) l : Forall (fun x => p x = true) l -> List.filter p l = l.
Proof. induction 1 as [|x l Hx _ IH]; simpl; [done|]. by rewrite Hx, IH. Qed.

Lemma filter_lines brk k groups :
  Forall (Forall (fun c => is_code c = true)) groups ->
  List.filter is_code (lines brk k groups) = concat groups.
Proof.
  intros H. revert k. induction H as [|g groups Hg _ IH]; intros k; [done|].
  rewrite lines_cons, !List.filter_app, IH, filter_all by done. cbn [concat].
  unfold line_feed. by destruct (brk && _).
Qed.

Lemma quads_chars msg :
  Forall (in_u 8) msg ->
  Forall (Forall (fun c => is_code c = true)) (quads msg) /\
  Forall (fun c => is_code c = true) (last_quad (remainder msg)).
Proof.
  induction msg as [msg IH] using (induction_ltof1 _ length); unfold ltof in IH.
  intros Hm. unfold in_u in Hm.
  destruct msg as [|c1 [|c2 [|c3 msg]]]; cbn [quads remainder last_quad]; rewrite ?Forall_cons in Hm.
  - split; constructor.
  - split; [constructor|]. apply Forall_app. split; [apply Forall_take, code_chars; lia|by repeat constructor].
  - split; [constructor|]. apply Forall_app. split; [apply Forall_take, code_chars; lia|by repeat constructor].
  - destruct Hm as (H1 & H2 & H3 & Hm). destruct (IH msg ltac:(simpl; lia) Hm) as [Hq Hl].
    split; [|done]. constructor; [apply code_chars; lia|done].
Qed.

Lemma filter_base64 brk msg :
  Forall (in_u 8) msg ->
  List.filter is_code (base64 brk msg) = concat (quads msg) ++ last_quad (remainder msg).
Proof.
  intros Hm. destruct (quads_chars msg Hm) as [Hq Hl]. unfold base64.
  rewrite !List.filter_app, filter_lines, (filter_all _ (last_quad _)) by done.
  by destruct brk; rewrite app_nil_r.
Qed.

(** ** Sharing the memory *)

(** A group gives at most three bytes. *)
Lemma decode_char_count d c :
  0 <= d_i d < 4 ->
  0 <= d_i (decode_char d c).2 < 4 /\
  Z.of_nat (length (decode_char d c).1) + d_i (decode_char d c).2 <= d_i d + 1 /\
  exists n, (length (decode_char d c).1 <= 3 * n)%nat /\
    4 * Z.of_nat n + d_i (decode_char d c).2 <= d_i d + 1.
Proof.
  intros Hi. unfold decode_char. destruct (rank c =? 0xff); [|destruct (Z.eqb_spec (d_i d + 1) 4)].
  - simpl. split; [lia|]. split; [lia|]. exists 0%nat. lia.
  - cbn [fst snd d_i]. rewrite !length_app. cbn [length].
    split; [lia|]. split; [|exists 1%nat; split; [|lia]]; destruct (last0 d =? 61), (c =? 61); simpl; lia.
  - simpl. split; [lia|]. split; [lia|]. exists 0%nat. lia.
Qed.

Lemma store_bytes_ok mem out bytes :
  (out + length bytes <= length mem)%nat ->
  store_bytes mem out bytes =
    (take out mem ++ bytes ++ drop (out + length bytes) mem, (out + length bytes)%nat).
Proof.
  revert mem out. induction bytes as [|b bytes IH]; intros mem out Hl; cbn [store_bytes length] in *.
  { cbn [app]. by rewrite Nat.add_0_r, take_drop. }
  rewrite IH by (rewrite length_insert; lia). rewrite <- Nat.add_succ_comm. f_equal.
  rewrite (take_S_r _ _ b) by (apply list_lookup_insert_eq; lia).
  rewrite take_insert_ge, drop_insert_lt, <- app_assoc by lia. by rewrite Nat.add_succ_comm.
Qed.

(** The bytes that are still to be read are not touched. *)
Lemma decode_loop_mem_ok n mem inp out d :
  0 <= d_i d < 4 -> Z.of_nat out + d_i d <= Z.of_nat inp -> length mem = (inp + n)%nat ->
  let res := (decode_loop d (drop inp mem)).1 in
  let '(mem', out', _) := decode_loop_mem n mem inp out d in
  mem' = take out mem ++ res ++ drop (out + length res) mem /\ out' = (out + length res)%nat.
Proof.
  revert mem inp out d. induction n as [|n IH]; intros mem inp out d Hi Hout Hl.
  - rewrite (drop_ge mem inp) by lia. cbn [decode_loop decode_loop_mem fst length app].
    by rewrite Nat.add_0_r, take_drop.
  - cbn [decode_loop_mem]. destruct (lookup_lt_is_Some_2 mem inp) as [c Hc]; [lia|].
    rewrite (drop_S mem c inp Hc), (list_lookup_total_correct _ _ _ Hc). cbn [decode_loop].
    destruct (decode_char_count d c Hi) as (Hi' & Hcnt & _).
    destruct (decode_char d c) as [bytes d1]. cbn [fst snd] in *.
    rewrite store_bytes_ok by lia. set (mem1 := take out mem ++ _).
    assert (length mem1 = length mem) as Hl1.
    { unfold mem1. rewrite !length_app, length_take, length_drop. lia. }
    assert (drop (S inp) mem1 = drop (S inp) mem) as Hdrop.
    { unfold mem1. rewrite app_assoc, drop_app_ge, drop_drop by (rewrite length_app, length_take; lia).
      rewrite length_app, length_take. f_equal. lia. }
    specialize (IH mem1 (S inp) (out + length bytes)%nat d1 Hi' ltac:(lia) ltac:(lia)). cbn zeta in IH.
    rewrite Hdrop in IH. destruct (decode_loop_mem n mem1 _ _ d1) as [[mem' out'] d'].
    destruct (decode_loop d1 (drop (S inp) mem)) as [res d2]. cbn [fst] in *.
    destruct IH as [-> ->]. rewrite length_app, Nat.add_assoc. split; [|done].
    assert (length (take out mem ++ bytes) = out + length bytes)%nat as Hp
      by (rewrite length_app, length_take; lia).
    unfold mem1. rewrite !app_assoc, take_app_le, take_ge by lia.
    rewrite drop_app_ge, Hp, drop_drop by lia. rewrite <- !app_assoc. do 4 f_equal. lia.
Qed.

(** ** The sizes of the outputs *)

Lemma line_feeds brk k groups :
  Forall (fun g => length g = 4%nat) groups ->
  (length (lines brk k groups) <= 4 * length groups + (if brk then (k mod 19 + length groups) / 19 else 0))%nat.
Proof.
  intros H. revert k. induction H as [|g groups Hg _ IH]; intros k; [simpl; lia|].
  rewrite lines_cons, !length_app, Hg. cbn [length]. specialize (IH (S k)). unfold line_feed.
  destruct brk; [|simpl; lia]. cbn [andb]. pose proof (Nat.mod_upper_bound k 19 ltac:(lia)) as Hk.
  rewrite (mod19_S k) in *. destruct (decide _) as [E|E]; cbn [Nat.eqb length].
  - rewrite E in *. replace (18 + S (length groups))%nat with (1 * 19 + length groups)%nat by lia.
    rewrite Nat.div_add_l by lia. simpl in IH |- *. lia.
  - rewrite Nat.add_succ_r. simpl in IH |- *. lia.
Qed.

Lemma quads_four msg : Forall (fun g => length g = 4%nat) (quads msg).
Proof.
  induction msg as [msg IH] using (induction_ltof1 _ length); unfold ltof in IH.
  destruct msg as [|c1 [|c2 [|c3 msg]]]; constructor; [done|]. apply IH. simpl. lia.
Qed.

Lemma decode_loop_count d text :
  0 <= d_i d < 4 ->
  0 <= d_i (decode_loop d text).2 < 4 /\
  exists n, (length (decode_loop d text).1 <= 3 * n)%nat /\
    4 * Z.of_nat n + d_i (decode_loop d text).2 <= Z.of_nat (length text) + d_i d.
Proof.
  revert d. induction text as [|c text IH]; intros d Hi; cbn [decode_loop].
  { split; [done|]. exists 0%nat. simpl. lia. }
  destruct (decode_char_count d c Hi) as (Hi' & _ & n & Hn & Hc). destruct (decode_char d c) as [o d1].
  cbn [fst snd] in *. destruct (IH d1 Hi') as (Hi'' & n' & Hn' & Hc'). destruct (decode_loop d1 text) as [o' d2].
  cbn [fst snd length] in *. rewrite length_app. split; [done|]. exists (n + n')%nat. lia.
Qed.

(** * Properties *)

(** C21: the incremental encoder writes the Base64 text of RFC 4648 for the whole
    message, however it is divided into pieces, with a line feed behind every
    nineteenth group of four characters if lines are broken; closing it gives
    the state it started with. *)
Theorem encode_correct brk pieces :
  Forall (Forall (in_u 8)) pieces -> encode_pieces brk pieces = (base64 brk (concat pieces), encoder0).
Proof. apply encode_pieces_ok. Qed.

(** C20: decoding inverts encoding: a text that has the characters of an encoded
    message, with any other characters between them, decodes to the message,
    however both are divided into pieces, with no bytes left in the state. *)
Theorem encode_decode_roundtrip brk pieces text :
  Forall (Forall (in_u 8)) pieces ->
  List.filter is_code (concat text) = List.filter is_code (encode_pieces brk pieces).1 ->
  (decode_pieces text).1 = concat pieces /\ dec_state (decode_pieces text).2 = 0.
Proof.
  intros Hp Ht. rewrite encode_pieces_ok in Ht by done. cbn [fst] in Ht.
  assert (Forall (in_u 8) (concat pieces)) as Hm by (by apply Forall_concat).
  rewrite filter_base64 in Ht by done.
  destruct (decode_text (Decoding 0 0 0 0) (concat pieces) eq_refl Hm) as (d & Hd & Hrun).
  rewrite <- Ht, <- decode_loop_filter in Hrun.
  destruct (decode_feed_ok ([], decoder0) (Decoding 0 0 0 0) text) as (s & Hrun' & Hs); [by split_and!|].
  unfold decode_pieces. rewrite Hrun', Hrun in *. split; [done|]. cbn [snd] in *.
  destruct Hs as (_ & Hi & _). rewrite Hd in Hi. unfold decode_enter in Hi.
  destruct (Z.ltb_spec (dec_state s) 0); cbn [d_i] in Hi; lia.
Qed.

(** Decoding in place gives the bytes that decoding to a separate buffer
    gives, in front of the rest of the text: no character is overwritten before
    it is read. *)
Lemma decode_inplace_ok text :
  (1 < length text)%nat ->
  g_base64_decode_inplace text =
    Some (g_base64_decode text ++ drop (length (g_base64_decode text)) text, length (g_base64_decode text)).
Proof.
  intros Hl. unfold g_base64_decode_inplace, g_base64_decode, g_base64_decode_step.
  rewrite decide_True by done. rewrite decide_False by lia.
  pose proof (decode_loop_mem_ok (length text) text 0 0 (decode_enter decoder0)) as H. cbn zeta in H.
  specialize (H ltac:(simpl; lia) ltac:(simpl; lia) eq_refl). rewrite drop_0 in H.
  destruct (decode_loop_mem _ _ _ _ _) as [[mem out] d]. destruct (decode_loop _ text) as [res d'].
  destruct H as [-> ->]. done.
Qed.

(** The room that each function needs *)
Lemma encode_step_fits brk e msg inp :
  Forall (in_u 8) msg -> Forall (in_u 8) inp -> encodes brk e msg ->
  (length (g_base64_encode_step inp brk e).1 <=
     (length inp / 3 + 1) * 4 + 4 + (if brk then ((length inp / 3 + 1) * 4 + 4) / 72 + 1 else 0))%nat.
Proof.
  intros Hm Hi He.
  destruct (encode_step_ok brk e msg inp Hm Hi He) as (e' & groups & -> & Hq & _). cbn [fst].
  assert (Forall (fun g => length g = 4%nat) groups) as Hg.
  { pose proof (quads_four (msg ++ inp)) as H. rewrite Hq in H. by apply Forall_app in H as [_ H]. }
  assert (length groups <= length inp / 3 + 1)%nat as Hn.
  { pose proof (quads_length (msg ++ inp)) as H. rewrite Hq, !length_app in H.
    pose proof (quads_length msg). pose proof (remainder_short msg).
    pose proof (Nat.div_mod_eq (length inp) 3). pose proof (Nat.mod_upper_bound (length inp) 3 ltac:(lia)). lia. }
  pose proof (line_feeds brk (length (quads msg)) groups Hg) as Hl.
  pose proof (Nat.mod_upper_bound (length (quads msg)) 19 ltac:(lia)).
  set (g := (length inp / 3 + 1)%nat) in *. destruct brk; [|lia].
  assert ((length (quads msg) mod 19 + length groups) / 19 <= (g * 4 + 4) / 72 + 1)%nat; [|lia].
  replace ((g * 4 + 4) / 72 + 1)%nat with ((1 * 72 + (g * 4 + 4)) / 72)%nat
    by (rewrite Nat.div_add_l by lia; lia).
  transitivity ((18 + g) / 19)%nat; [apply Nat.Div0.div_le_mono; lia|].
  apply Nat.div_le_lower_bound; [lia|]. pose proof (Nat.div_mod_eq (18 + g) 19). lia.
Qed.

Lemma encode_fits inp : Forall (in_u 8) inp -> (length (g_base64_encode inp) < (length inp / 3 + 1) * 4 + 1)%nat.
Proof.
  intros Hi.
  assert (encode_pieces false [inp] = (g_base64_encode inp, encoder0)) as E.
  { unfold encode_pieces, encode_feed, g_base64_encode. cbn [foldl fst snd].
    destruct (g_base64_encode_step inp false encoder0) as [o e1]. cbn [app].
    assert ((g_base64_encode_close false e1).2 = encoder0) by done.
    by destruct (g_base64_encode_close false e1) as [o' e2]; cbn in *; subst. }
  rewrite encode_pieces_ok in E by (by constructor). injection E as <-.
  cbn [concat]. rewrite app_nil_r. unfold base64. rewrite app_nil_r, length_app.
  pose proof (line_feeds false 0 (quads inp) (quads_four inp)) as Hl. cbv match in Hl.
  pose proof (quads_length inp) as Hn. pose proof (remainder_short inp).
  assert (length (last_quad (remainder inp)) <= 4)%nat 
    by (destruct (remainder inp) as [|? [|? [|? ?]]]; unfold quad, digits; simpl; lia).
  pose proof (Nat.div_mod_eq (length inp) 3). pose proof (Nat.mod_upper_bound (length inp) 3 ltac:(lia)). lia.
Qed.

Lemma decode_step_fits inp s :
  0 <= d_i (decode_enter s) < 4 -> (length (g_base64_decode_step inp s).1 <= length inp / 4 * 3 + 3)%nat.
Proof.
  intros Hs.
  unfold g_base64_decode_step. destruct (decide _); [simpl; lia|].
  destruct (decode_loop_count _ inp Hs) as (Hi' & n' & Hn & Hc). destruct (decode_loop _ inp) as [out d].
  cbn [fst snd] in *. pose proof (Nat.div_mod_eq (length inp) 4).
  pose proof (Nat.mod_upper_bound (length inp) 4 ltac:(lia)). lia.
Qed.

Lemma decode_fits inp : (length (g_base64_decode inp) < length inp / 4 * 3 + 1)%nat.
Proof.
  unfold g_base64_decode, g_base64_decode_step. destruct (decide _); [simpl; lia|].
  destruct (decode_loop_count (decode_enter decoder0) inp) as (Hi' & n' & Hn & Hc); [simpl; lia|].
  destruct (decode_loop _ inp) as [out d]. cbn [fst snd] in *. change (d_i (decode_enter decoder0)) with 0 in Hc.
  pose proof (Nat.div_mod_eq (length inp) 4). pose proof (Nat.mod_upper_bound (length inp) 4 ltac:(lia)). lia.
Qed.

(** the buffers are used safely: decoding in place gives the bytes that
    decoding to a separate buffer gives, in front of the rest of the text, as no
    character is overwritten before it is read; and the outputs fit: a step of
    the encoder writes at most the (len / 3 + 1) * 4 + 4 bytes that its
    documentation asks for, and ((len / 3 + 1) * 4 + 4) / 72 + 1 more if lines
    are broken, in every state of an encoder; a step of the decoder writes at
    most (len / 4) * 3 + 3 bytes; and g_base64_encode and g_base64_decode fit
    what they allocate. *)
Theorem buffers_safe brk e msg inp s :
  Forall (in_u 8) msg -> Forall (in_u 8) inp -> encodes brk e msg -> 0 <= d_i (decode_enter s) < 4 ->
  (1 < length inp)%nat ->
  g_base64_decode_inplace inp =
    Some (g_base64_decode inp ++ drop (length (g_base64_decode inp)) inp, length (g_base64_decode inp)) /\
  (length (g_base64_encode_step inp brk e).1 <=
     (length inp / 3 + 1) * 4 + 4 + (if brk then ((length inp / 3 + 1) * 4 + 4) / 72 + 1 else 0))%nat /\
  (length (g_base64_encode inp) < (length inp / 3 + 1) * 4 + 1)%nat /\
  (length (g_base64_decode_step inp s).1 <= length inp / 4 * 3 + 3)%nat /\
  (length (g_base64_decode inp) < length inp / 4 * 3 + 1)%nat.
Proof.
  intros Hm Hi He Hs Hl. split_and!; [by apply decode_inplace_ok|by apply (encode_step_fits brk e msg)|by apply encode_fits|
    by apply decode_step_fits|apply decode_fits].
Qed.

(** * The theorems at a message *)

(** "hello" in two pieces, and its text in three with noise in between. *)
Definition hello_pieces : list (list Z) := [[104; 101]; [108; 108; 111]].
Definition hello_text : list (list Z) := [[97; 71; 32]; [86; 115; 98; 71; 10; 56]; [61; 10]].

Lemma hello_bytes : Forall (Forall (in_u 8)) hello_pieces.
Proof. repeat constructor; done. Qed.

Lemma encode_correct_witness :
  encode_pieces true hello_pieces = (base64 true [104; 101; 108; 108; 111], encoder0).
Proof. exact (encode_correct true hello_pieces hello_bytes). Defined.

Lemma encode_decode_roundtrip_witness :
  (decode_pieces hello_text).1 = concat hello_pieces /\ dec_state (decode_pieces hello_text).2 = 0.
Proof. exact (encode_decode_roundtrip true hello_pieces hello_text hello_bytes eq_refl). Defined.

(** The encoder after "he". *)
Definition after_he : encoder := Encoder 0 (Saved 2 104 101).
Definition hello_code : list Z := [97; 71; 86; 115; 98; 71; 56; 61].

Lemma buffers_safe_witness :
  g_base64_decode_inplace hello_code = Some ([104; 101; 108; 108; 111; 71; 56; 61], 5%nat) /\
  (length (g_base64_encode_step hello_code true after_he).1 <= 17)%nat.
Proof.
  destruct (buffers_safe true after_he [104; 101] hello_code decoder0) as (H1 & H2 & _).
  - repeat constructor; done.
  - repeat constructor; done.
  - by split.
  - simpl. lia.
  - simpl. lia.
  - split; [rewrite H1; reflexivity|exact H2].
Defined.
