(* ===== verification/Hash.v ===== *)
(** The hash table of src/glib-2.56.1/glib/ghash.c: open addressing with
    tombstones, arrays of hashes, keys and values, resizing.

    Pointers are numbers, [NULL] is 0. A table whose [values] array is the
    [keys] array itself has [values = None]. A definition gives [None] where
    the code would leave an array or would not end. Callbacks are pure
    functions; the calls of the destroy functions are listed as events, in
    order. *)
From S2P Require Import Prelude.

Open Scope c_scope.

(** * The table *)

Definition HASH_TABLE_MIN_SHIFT : Z := 3.
Definition UNUSED_HASH_VALUE : Z := 0.
Definition TOMBSTONE_HASH_VALUE : Z := 1.
Definition HASH_IS_UNUSED (h : Z) : bool := h =? UNUSED_HASH_VALUE.
Definition HASH_IS_TOMBSTONE (h : Z) : bool := h =? TOMBSTONE_HASH_VALUE.
Definition HASH_IS_REAL (h : Z) : bool := 2 <=? h.

Definition gpointer : Type := Z.
Definition null : gpointer := 0.

(** The functions a table is created with. *)
Record functions := Functions {
  hash_func : gpointer -> Z;
  key_equal_func : option (gpointer -> gpointer -> bool);
  key_destroy_func : bool;     (** set, or NULL *)
  value_destroy_func : bool;
}.

(** struct _GHashTable *)
Record GHashTable := MkTable {
  funcs : functions;
  size : Z; mod_ : Z; mask : Z;
  nnodes : Z; noccupied : Z;
  keys : list gpointer; hashes : list Z; values : option (list gpointer);
  ref_count : Z; version : Z;
}.

Definition with_shape sz md mk t :=
  MkTable (funcs t) sz md mk (nnodes t) (noccupied t) (keys t) (hashes t) (values t) (ref_count t) (version t).
Definition with_counts n o t :=
  MkTable (funcs t) (size t) (mod_ t) (mask t) n o (keys t) (hashes t) (values t) (ref_count t) (version t).
Definition with_arrays ks hs vs t :=
  MkTable (funcs t) (size t) (mod_ t) (mask t) (nnodes t) (noccupied t) ks hs vs (ref_count t) (version t).
Definition with_version v t :=
  MkTable (funcs t) (size t) (mod_ t) (mask t) (nnodes t) (noccupied t) (keys t) (hashes t) (values t) (ref_count t) v.
Definition with_refs n t :=
  MkTable (funcs t) (size t) (mod_ t) (mask t) (nnodes t) (noccupied t) (keys t) (hashes t) (values t) n (version t).

(** [hash_table->values], the keys if the pointers are equal. *)
Definition values_of (ks : list gpointer) (vs : option (list gpointer)) : list gpointer := default ks vs.

(** A call of a destroy function. *)
Inductive freed := FreeKey (key : gpointer) | FreeValue (value : gpointer).

(** A store to [keys[i]] and one to [values[i]], on the arrays they share. *)
Definition set_value (ks : list gpointer) (vs : option (list gpointer)) (i v : Z) :
    option (list gpointer * option (list gpointer)) :=
  match vs with
  | None => ks ← array_set ks i v; Some (ks, None)
  | Some vs => vs ← array_set vs i v; Some (ks, Some vs)
  end.

(** * Sizes *)

Definition prime_mod : list Z :=
  [1; 2; 3; 7; 13; 31; 61; 127;
   251; 509; 1021; 2039; 4093; 8191; 16381; 32749;
   65521; 131071; 262139; 524287; 1048573; 2097143; 4194301; 8388593;
   16777213; 33554393; 67108859; 134217689; 268435399; 536870909; 1073741789; 2147483647].

(** The loop of g_hash_table_set_shift. *)
Definition shift_mask (shift : Z) : Z :=
  Nat.iter (Z.to_nat shift) (fun mask => u32 (mask .<< 1) .| 1) 0.

Definition g_hash_table_set_shift (t : GHashTable) (shift : Z) : option GHashTable :=
  md ← array_get prime_mod shift;
  Some (with_shape (s32 (1 .<< shift)) md (shift_mask shift) t).

(** The loop ends for [n >= 0], after at most 31 rounds. *)
Fixpoint closest_shift (fuel : nat) (n i : Z) : option Z :=
  match fuel with
  | O => None
  | S fuel => if n =? 0 then Some i else closest_shift fuel (n .>> 1) (i + 1)
  end.
Definition g_hash_table_find_closest_shift (n : Z) : option Z := closest_shift 32 n 0.

Definition g_hash_table_set_shift_from_size (t : GHashTable) (size : Z) : option GHashTable :=
  shift ← g_hash_table_find_closest_shift size;
  g_hash_table_set_shift t (Z.max shift HASH_TABLE_MIN_SHIFT).

(** * Probing *)

Definition hash_value (f : functions) (key : gpointer) : Z :=
  let h := u32 (hash_func f key) in if HASH_IS_REAL h then h else 2.

Definition key_equal (f : functions) (node_key key : gpointer) : bool :=
  match key_equal_func f with Some eq => eq node_key key | None => node_key =? key end.

(** The loop of g_hash_table_lookup_node; [tomb] is the first tombstone. *)
Fixpoint probe (fuel : nat) (t : GHashTable) (key : gpointer) (hv node_index step : Z)
    (tomb : option Z) : option Z :=
  match fuel with
  | O => None
  | S fuel =>
      node_hash ← array_get (hashes t) node_index;
      let next tomb :=
        let step := u32 (step + 1) in
        probe fuel t key hv (u32 (node_index + step) .& mask t) step tomb in
      if HASH_IS_UNUSED node_hash then Some (default node_index tomb)
      else if node_hash =? hv then
        node_key ← array_get (keys t) node_index;
        if key_equal (funcs t) node_key key then Some node_index else next tomb
      else if HASH_IS_TOMBSTONE node_hash && bool_decide (tomb = None) then next (Some node_index)
      else next tomb
  end.

(** A probe that has not ended after [size] rounds has met every node it can
    meet, and does not end. *)
Definition g_hash_table_lookup_node (t : GHashTable) (key : gpointer) : option (Z * Z) :=
  if ref_count t <=? 0 then None
  else
    let hv := hash_value (funcs t) key in
    idx ← probe (S (Z.to_nat (size t))) t key hv (hv mod mod_ t) 0 None;
    Some (idx, hv).

(** * Nodes *)

Definition destroy (f : functions) (key value : option gpointer) : list freed :=
  (if key_destroy_func f then from_option (fun k => [FreeKey k]) [] key else []) ++
  (if value_destroy_func f then from_option (fun v => [FreeValue v]) [] value else []).

Definition g_hash_table_remove_node (t : GHashTable) (i : Z) (notify : bool) :
    option (GHashTable * list freed) :=
  key ← array_get (keys t) i;
  value ← array_get (values_of (keys t) (values t)) i;
  hs ← array_set (hashes t) i TOMBSTONE_HASH_VALUE;
  ks ← array_set (keys t) i null;
  '(ks, vs) ← set_value ks (values t) i null;
  let t := with_counts (nnodes t - 1) (noccupied t) (with_arrays ks hs vs t) in
  Some (t, if notify then destroy (funcs t) (Some key) (Some value) else []).

(** The events of the loop over the old arrays. *)
Definition destroy_all (f : functions) (hs ks vs : list Z) : list freed :=
  zip (zip hs ks) vs ≫= fun '(h, k, v) => if HASH_IS_REAL h then destroy f (Some k) (Some v) else [].

Definition zeros (n : Z) : list Z := replicate (Z.to_nat n) 0.

Definition g_hash_table_remove_all_nodes (t : GHashTable) (notify destruction : bool) :
    option (GHashTable * list freed) :=
  if nnodes t =? 0 then Some (t, [])
  else
    let t := with_counts 0 0 t in
    if negb notify || negb (key_destroy_func (funcs t) || value_destroy_func (funcs t)) then
      Some (if negb destruction then
              with_arrays (zeros (size t)) (zeros (size t)) ((fun _ => zeros (size t)) <$> values t) t
            else t, [])
    else
      let events := destroy_all (funcs t) (hashes t) (keys t) (values_of (keys t) (values t)) in
      t ← g_hash_table_set_shift t HASH_TABLE_MIN_SHIFT;
      let t := if negb destruction then with_arrays (zeros (size t)) (zeros (size t)) None t
               else with_arrays [] [] None t in
      Some (t, events).

(** * Resizing *)

(** The inner loop: the next unused index. *)
Fixpoint find_unused (fuel : nat) (hs : list Z) (mask hash_val step : Z) : option Z :=
  match fuel with
  | O => None
  | S fuel =>
      h ← array_get hs hash_val;
      if HASH_IS_UNUSED h then Some hash_val
      else let step := u32 (step + 1) in find_unused fuel hs mask (u32 (hash_val + step) .& mask) step
  end.

(** The new arrays. *)
Definition arrays : Type := list gpointer * list Z * option (list gpointer).

Definition resize_node (t : GHashTable) (new : arrays) (i : Z) : option arrays :=
  let '(new_keys, new_hashes, new_values) := new in
  node_hash ← array_get (hashes t) i;
  if negb (HASH_IS_REAL node_hash) then Some new
  else
    hash_val ← find_unused (S (Z.to_nat (size t))) new_hashes (mask t) (node_hash mod mod_ t) 0;
    key ← array_get (keys t) i;
    value ← array_get (values_of (keys t) (values t)) i;
    new_hashes ← array_set new_hashes hash_val node_hash;
    new_keys ← array_set new_keys hash_val key;
    '(new_keys, new_values) ← set_value new_keys new_values hash_val value;
    Some (new_keys, new_hashes, new_values).

Fixpoint resize_nodes (t : GHashTable) (new : arrays) (idxs : list Z) : option arrays :=
  match idxs with
  | [] => Some new
  | i :: idxs => new ← resize_node t new i; resize_nodes t new idxs
  end.

Definition g_hash_table_resize (t : GHashTable) : option GHashTable :=
  let old_size := size t in
  t ← g_hash_table_set_shift_from_size t (s32 (nnodes t * 2));
  let new := (zeros (size t), zeros (size t), (fun _ => zeros (size t)) <$> values t) in
  '(ks, hs, vs) ← resize_nodes t new (seqZ 0 old_size);
  Some (with_counts (nnodes t) (nnodes t) (with_arrays ks hs vs t)).

Definition g_hash_table_maybe_resize (t : GHashTable) : option GHashTable :=
  if ((s32 (nnodes t * 4) <? size t) && (1 .<< HASH_TABLE_MIN_SHIFT <? size t)) ||
     (size t <=? s32 (noccupied t + noccupied t ÷ 16))
  then g_hash_table_resize t else Some t.

(** * Creating *)

Definition g_hash_table_new_full (f : functions) : option GHashTable :=
  t ← g_hash_table_set_shift (MkTable f 0 0 0 0 0 [] [] None 1 0) HASH_TABLE_MIN_SHIFT;
  Some (with_arrays (zeros (size t)) (zeros (size t)) None t).

(** A NULL hash function stands for g_direct_hash. *)
Definition g_direct_hash (v : gpointer) : Z := u32 v.
Definition g_hash_table_new (hash : option (gpointer -> Z)) (equal : option (gpointer -> gpointer -> bool)) :
    option GHashTable :=
  g_hash_table_new_full (Functions (default g_direct_hash hash) equal false false).

(** * Operations *)

Definition g_hash_table_insert_node (t : GHashTable) (node_index key_hash : Z)
    (new_key new_value : gpointer) (keep_new_key reusing_key : bool) :
    option (bool * GHashTable * list freed) :=
  old_hash ← array_get (hashes t) node_index;
  let already_exists := HASH_IS_REAL old_hash in
  old_value ← array_get (values_of (keys t) (values t)) node_index;
  old_key ← array_get (keys t) node_index;
  let key_to_free := if already_exists then Some (if keep_new_key then old_key else new_key) else None in
  let value_to_free := if already_exists then Some old_value else None in
  hs ← (if already_exists then Some (hashes t) else array_set (hashes t) node_index key_hash);
  ks ← (if already_exists && negb keep_new_key then Some (keys t)
        else array_set (keys t) node_index new_key);
  key ← array_get ks node_index;
  let vs := match values t with None => if negb (key =? new_value) then Some ks else None | vs => vs end in
  '(ks, vs) ← set_value ks vs node_index new_value;
  let t := with_arrays ks hs vs t in
  t ← (if negb already_exists then
         let t := with_counts (nnodes t + 1) (noccupied t) t in
         t ← (if HASH_IS_UNUSED old_hash then
                g_hash_table_maybe_resize (with_counts (nnodes t) (noccupied t + 1) t)
              else Some t);
         Some (with_version (s32 (version t + 1)) t)
       else Some t);
  Some (negb already_exists, t,
        if already_exists then destroy (funcs t) (if negb reusing_key then key_to_free else None) value_to_free
        else []).

Definition g_hash_table_insert_internal (t : GHashTable) (key value : gpointer) (keep_new_key : bool) :
    option (bool * GHashTable * list freed) :=
  '(node_index, key_hash) ← g_hash_table_lookup_node t key;
  g_hash_table_insert_node t node_index key_hash key value keep_new_key false.

Definition g_hash_table_insert t key value := g_hash_table_insert_internal t key value false.
Definition g_hash_table_replace t key value := g_hash_table_insert_internal t key value true.
Definition g_hash_table_add t key := g_hash_table_insert_internal t key key true.

Definition g_hash_table_lookup (t : GHashTable) (key : gpointer) : option gpointer :=
  '(node_index, _) ← g_hash_table_lookup_node t key;
  h ← array_get (hashes t) node_index;
  if HASH_IS_REAL h then array_get (values_of (keys t) (values t)) node_index else Some null.

(** The inner option: TRUE with the stored key and the value, or FALSE. *)
Definition g_hash_table_lookup_extended (t : GHashTable) (key : gpointer) :
    option (option (gpointer * gpointer)) :=
  '(node_index, _) ← g_hash_table_lookup_node t key;
  h ← array_get (hashes t) node_index;
  if negb (HASH_IS_REAL h) then Some None
  else
    k ← array_get (keys t) node_index;
    v ← array_get (values_of (keys t) (values t)) node_index;
    Some (Some (k, v)).

Definition g_hash_table_contains (t : GHashTable) (key : gpointer) : option bool :=
  '(node_index, _) ← g_hash_table_lookup_node t key;
  h ← array_get (hashes t) node_index;
  Some (HASH_IS_REAL h).

Definition g_hash_table_remove_internal (t : GHashTable) (key : gpointer) (notify : bool) :
    option (bool * GHashTable * list freed) :=
  '(node_index, _) ← g_hash_table_lookup_node t key;
  h ← array_get (hashes t) node_index;
  if negb (HASH_IS_REAL h) then Some (false, t, [])
  else
    '(t, events) ← g_hash_table_remove_node t node_index notify;
    t ← g_hash_table_maybe_resize t;
    Some (true, with_version (s32 (version t + 1)) t, events).

Definition g_hash_table_remove t key := g_hash_table_remove_internal t key true.
Definition g_hash_table_steal t key := g_hash_table_remove_internal t key false.

Definition remove_or_steal_all (notify : bool) (t : GHashTable) : option (GHashTable * list freed) :=
  let t := if negb (nnodes t =? 0) then with_version (s32 (version t + 1)) t else t in
  '(t, events) ← g_hash_table_remove_all_nodes t notify false;
  t ← g_hash_table_maybe_resize t;
  Some (t, events).
Definition g_hash_table_remove_all := remove_or_steal_all true.
Definition g_hash_table_steal_all := remove_or_steal_all false.

Definition g_hash_table_size (t : GHashTable) : Z := u32 (nnodes t).

Definition g_hash_table_ref (t : GHashTable) : GHashTable := with_refs (ref_count t + 1) t.

(** [None] as the table: it has been freed. *)
Definition g_hash_table_unref (t : GHashTable) : option (option GHashTable * list freed) :=
  let t := with_refs (ref_count t - 1) t in
  if ref_count t =? 0 then
    '(_, events) ← g_hash_table_remove_all_nodes t true true;
    Some (None, events)
  else Some (Some t, []).

Definition g_hash_table_destroy (t : GHashTable) : option (option GHashTable * list freed) :=
  '(t, events) ← g_hash_table_remove_all t;
  '(r, events') ← g_hash_table_unref t;
  Some (r, events ++ events').

(** * Traversals *)

(** The node at an index, if it is real. *)
Definition node_at (t : GHashTable) (i : Z) : option (option (gpointer * gpointer)) :=
  h ← array_get (hashes t) i;
  k ← array_get (keys t) i;
  v ← array_get (values_of (keys t) (values t)) i;
  Some (if HASH_IS_REAL h then Some (k, v) else None).

(** The loop of g_hash_table_foreach_remove and g_hash_table_foreach_steal. *)
Fixpoint foreach_remove_loop (func : gpointer -> gpointer -> bool) (notify : bool) (idxs : list Z)
    (t : GHashTable) (deleted : Z) : option (GHashTable * Z * list freed) :=
  match idxs with
  | [] => Some (t, deleted, [])
  | i :: idxs =>
      node ← node_at t i;
      if from_option (fun '(k, v) => func k v) false node then
        '(t, events) ← g_hash_table_remove_node t i notify;
        '(t, deleted, events') ← foreach_remove_loop func notify idxs t (u32 (deleted + 1));
        Some (t, deleted, events ++ events')
      else foreach_remove_loop func notify idxs t deleted
  end.

Definition g_hash_table_foreach_remove_or_steal (t : GHashTable) (func : gpointer -> gpointer -> bool)
    (notify : bool) : option (Z * GHashTable * list freed) :=
  '(t, deleted, events) ← foreach_remove_loop func notify (seqZ 0 (size t)) t 0;
  t ← g_hash_table_maybe_resize t;
  Some (deleted, if 0 <? deleted then with_version (s32 (version t + 1)) t else t, events).

Definition g_hash_table_foreach_remove t func := g_hash_table_foreach_remove_or_steal t func true.
Definition g_hash_table_foreach_steal t func := g_hash_table_foreach_remove_or_steal t func false.

(** The calls of g_hash_table_foreach, in order. *)
Fixpoint foreach_loop (t : GHashTable) (idxs : list Z) : option (list (gpointer * gpointer)) :=
  match idxs with
  | [] => Some []
  | i :: idxs =>
      node ← node_at t i;
      calls ← foreach_loop t idxs;
      Some (match node with Some kv => kv :: calls | None => calls end)
  end.
Definition g_hash_table_foreach (t : GHashTable) : option (list (gpointer * gpointer)) :=
  foreach_loop t (seqZ 0 (size t)).

Fixpoint find_loop (t : GHashTable) (predicate : gpointer -> gpointer -> bool) (idxs : list Z) : option gpointer :=
  match idxs with
  | [] => Some null
  | i :: idxs =>
      node ← node_at t i;
      match node with
      | Some (k, v) => if predicate k v then Some v else find_loop t predicate idxs
      | None => find_loop t predicate idxs
      end
  end.
Definition g_hash_table_find (t : GHashTable) (predicate : gpointer -> gpointer -> bool) : option gpointer :=
  find_loop t predicate (seqZ 0 (size t)).

(** The lists are built from the front, by g_list_prepend. *)
Fixpoint prepend_loop (t : GHashTable) (pick : gpointer * gpointer -> gpointer) (idxs : list Z)
    (retval : list gpointer) : option (list gpointer) :=
  match idxs with
  | [] => Some retval
  | i :: idxs =>
      node ← node_at t i;
      prepend_loop t pick idxs (from_option (fun kv => pick kv :: retval) retval node)
  end.
Definition g_hash_table_get_keys (t : GHashTable) : option (list gpointer) :=
  prepend_loop t fst (seqZ 0 (size t)) [].
Definition g_hash_table_get_values (t : GHashTable) : option (list gpointer) :=
  prepend_loop t snd (seqZ 0 (size t)) [].

(** ** Iterators *)

(** RealIter, without the pointer to the table. *)
Record RealIter := MkIter { position : Z; iter_version : Z }.

Definition g_hash_table_iter_init (t : GHashTable) : RealIter := MkIter (-1) (version t).

(** The loop of g_hash_table_iter_next: the position, and the node there. *)
Fixpoint iter_seek (fuel : nat) (t : GHashTable) (position : Z) : option (Z * option (gpointer * gpointer)) :=
  match fuel with
  | O => None
  | S fuel =>
      let position := position + 1 in
      if size t <=? position then Some (position, None)
      else
        node ← node_at t position;
        match node with
        | Some kv => Some (position, Some kv)
        | None => iter_seek fuel t position
        end
  end.

(** FALSE is [None]; the checks of the version and of the position fail with
    FALSE and a message in the log. *)
Definition g_hash_table_iter_next (t : GHashTable) (ri : RealIter) :
    option (RealIter * option (gpointer * gpointer)) :=
  if bool_decide (iter_version ri = version t) && (position ri <? size t) then
    '(p, node) ← iter_seek (Z.to_nat (size t - position ri)) t (position ri);
    Some (MkIter p (iter_version ri), node)
  else Some (ri, None).

Definition iter_ok (t : GHashTable) (ri : RealIter) : bool :=
  bool_decide (iter_version ri = version t) && (0 <=? position ri) && (position ri <? size t).

Definition iter_remove_or_steal (t : GHashTable) (ri : RealIter) (notify : bool) :
    option (GHashTable * RealIter * list freed) :=
  if iter_ok t ri then
    '(t, events) ← g_hash_table_remove_node t (position ri) notify;
    Some (with_version (s32 (version t + 1)) t, MkIter (position ri) (s32 (iter_version ri + 1)), events)
  else Some (t, ri, []).
Definition g_hash_table_iter_remove t ri := iter_remove_or_steal t ri true.
Definition g_hash_table_iter_steal t ri := iter_remove_or_steal t ri false.

Definition g_hash_table_iter_replace (t : GHashTable) (ri : RealIter) (value : gpointer) :
    option (GHashTable * RealIter * list freed) :=
  if iter_ok t ri then
    node_hash ← array_get (hashes t) (position ri);
    key ← array_get (keys t) (position ri);
    '(_, t, events) ← g_hash_table_insert_node t (position ri) node_hash key value true true;
    Some (with_version (s32 (version t + 1)) t, MkIter (position ri) (s32 (iter_version ri + 1)), events)
  else Some (t, ri, []).

(** * Hash functions *)

(** The characters of the string, as bytes without the final NUL. *)
Definition g_str_hash (v : list Z) : Z :=
  foldl (fun h p => u32 (u32 (h .<< 5) + h + swrap 8 p)) 5381 v.
Definition g_str_equal (string1 string2 : list Z) : bool := bool_decide (string1 = string2).
Definition g_direct_equal (v1 v2 : gpointer) : bool := v1 =? v2.
Definition g_int_hash (v : Z) : Z := u32 v.
Definition g_int_equal (v1 v2 : Z) : bool := v1 =? v2.
Definition g_int64_hash (v : Z) : Z := u32 v.
Definition g_int64_equal (v1 v2 : Z) : bool := v1 =? v2.

(** A table with three keys, one of them removed. *)
Definition demo_functions : functions := Functions g_direct_hash None true true.
Definition demo_table : option GHashTable :=
  t ← g_hash_table_new_full demo_functions;
  '(_, t, _) ← g_hash_table_insert t 70 700;
  '(_, t, _) ← g_hash_table_insert t 7 71;
  '(_, t, _) ← g_hash_table_add t 14;
  '(_, t, _) ← g_hash_table_remove t 7;
  Some t.

Example demo_lookups :
  (t ← demo_table; a ← g_hash_table_lookup t 70; b ← g_hash_table_lookup t 7; c ← g_hash_table_lookup t 14;
   Some (a, b, c, nnodes t, noccupied t)) = Some (700, 0, 14, 2, 3).
Proof. reflexivity. Qed.
