(* ===== verification/HashRep.v ===== *)
(** Probing in the hash table of ghash.c, and the invariant: the probe sequence
    meets every index, g_hash_table_lookup_node finds a key or a place for it, and
    a table stands for a finite map. *)
From S2P Require Import Prelude Hash.

Open Scope c_scope.

(** * The probe sequence *)

(** The [n]-th index probed from the index [start] in a table of size [2 ^ s]:
    the steps grow by one, so the offsets are the triangular numbers. *)
Definition triangle (n : nat) : Z := Z.of_nat n * (Z.of_nat n + 1) / 2.
Definition pos (s start : Z) (n : nat) : Z := (start + triangle n) mod 2 ^ s.

Lemma triangle_S n : triangle (S n) = triangle n + Z.of_nat (S n).
Proof.
  unfold triangle. rewrite Nat2Z.inj_succ. generalize (Z.of_nat n) as x. intros x.
  replace (Z.succ x * (Z.succ x + 1)) with (x * (x + 1) + Z.succ x * 2) by lia.
  by rewrite Z.div_add by lia.
Qed.

Lemma triangle_double n : 2 * triangle n = Z.of_nat n * (Z.of_nat n + 1).
Proof. induction n as [|n IH]; [done|]. rewrite triangle_S. lia. Qed.

Lemma pos_range s start n : 0 <= s -> 0 <= pos s start n < 2 ^ s.
Proof. intros. apply Z.mod_pos_bound. lia. Qed.

(** A product of an odd and another number that a power of two divides. *)
Lemma odd_cancel s a b : 0 <= s -> Z.Odd a -> (2 ^ s | a * b) -> (2 ^ s | b).
Proof.
  intros Hs [j ->]. revert s Hs. apply (natlike_ind (fun s => (2 ^ s | (2 * j + 1) * b) -> (2 ^ s | b))).
  { intros _. apply Z.divide_1_l. }
  intros s Hs IH [k Hk]. rewrite Z.pow_succ_r in * by done.
  destruct IH as [q ->]; [exists (2 * k); lia|].
  assert ((2 * j + 1) * q = 2 * k) as Hq.
  { apply (Z.mul_reg_r _ _ (2 ^ s)); lia. }
  exists (k - j * q). assert (q = 2 * (k - j * q)) by lia. lia.
Qed.

Lemma pos_inj s start a b :
  0 <= s -> Z.of_nat a < 2 ^ s -> Z.of_nat b < 2 ^ s -> pos s start a = pos s start b -> a = b.
Proof.
  assert (forall a b, (b <= a)%nat -> 0 <= s -> Z.of_nat a < 2 ^ s ->
            pos s start a = pos s start b -> a = b) as Hle.
  { intros x y Hle Hs Hx Heq. unfold pos in Heq.
    assert ((2 ^ s | triangle x - triangle y)) as [k Hk].
    { apply Z.mod_divide; [lia|]. rewrite <- (Z.add_simpl_r (triangle x) start) at 1.
      replace (triangle x + start - start - triangle y) with ((start + triangle x) - (start + triangle y)) by lia.
      rewrite Zminus_mod, Heq, Z.sub_diag. apply Z.mod_0_l. lia. }
    pose proof (triangle_double x). pose proof (triangle_double y).
    set (u := Z.of_nat x) in *. set (v := Z.of_nat y) in *.
    assert ((u - v) * (u + v + 1) = k * 2 ^ (s + 1)) as Hprod.
    { rewrite Z.pow_add_r by lia. lia. }
    destruct (decide (u = v)) as [?|Hne]; [lia|]. exfalso.
    assert (2 ^ (s + 1) = 2 * 2 ^ s) as Hp by (rewrite Z.pow_add_r by lia; lia).
    assert (0 < u - v < 2 ^ (s + 1) /\ 0 < u + v + 1 < 2 ^ (s + 1)) as [? ?] by lia.
    destruct (Z.Even_or_Odd (u - v)) as [He|Ho].
    - assert (Z.Odd (u + v + 1)) as Ho by (destruct He as [j Hj]; exists (v + j); lia).
      assert ((2 ^ (s + 1) | u - v)) as Hd.
      { apply (odd_cancel _ (u + v + 1)); [lia|done|]. exists k. lia. }
      apply Z.divide_pos_le in Hd; lia.
    - assert ((2 ^ (s + 1) | u + v + 1)) as Hd.
      { apply (odd_cancel _ (u - v)); [lia|done|]. exists k. lia. }
      apply Z.divide_pos_le in Hd; lia. }
  intros Hs Ha Hb Heq. destruct (Nat.le_ge_cases b a); [by apply Hle|symmetry; by apply Hle].
Qed.

(** [2 ^ s] probes meet every index. *)
Lemma pos_surj s start i :
  0 <= s -> 0 <= i < 2 ^ s -> exists n, Z.of_nat n < 2 ^ s /\ pos s start n = i.
Proof.
  intros Hs Hi. set (l := pos s start <$> seq 0 (Z.to_nat (2 ^ s))).
  assert (NoDup l) as Hnd.
  { apply NoDup_fmap_2_strong; [|apply NoDup_seq]. intros a b Ha Hb. rewrite elem_of_seq in Ha, Hb.
    apply pos_inj; lia. }
  assert (l ⊆+ seqZ 0 (2 ^ s)) as Hsub.
  { apply NoDup_submseteq; [done|]. intros x [n [-> _]]%list_elem_of_fmap. apply elem_of_seqZ.
    pose proof (pos_range s start n Hs). lia. }
  assert (l ≡ₚ seqZ 0 (2 ^ s)) as Hperm.
  { apply submseteq_length_Permutation; [done|]. unfold l. rewrite length_fmap, length_seq, length_seqZ. lia. }
  assert (i ∈ l) as Hin by (rewrite Hperm; apply elem_of_seqZ; lia).
  apply list_elem_of_fmap in Hin as (n & -> & Hn). apply elem_of_seq in Hn. exists n. split; [lia|done].
Qed.

(** The code moves along the sequence. *)
Lemma pos_next s start n :
  3 <= s <= 30 -> Z.of_nat n < 2 ^ s ->
  u32 (Z.of_nat n + 1) = Z.of_nat (S n) /\
  u32 (pos s start n + Z.of_nat (S n)) .& (2 ^ s - 1) = pos s start (S n).
Proof.
  intros Hs Hn. pose proof (pos_range s start n ltac:(lia)) as Hp.
  assert (2 ^ s <= 2 ^ 30) by (apply Z.pow_le_mono_r; lia).
  assert (u32 (Z.of_nat n + 1) = Z.of_nat (S n)) as E.
  { rewrite wrap_id by (unfold in_u; lia). lia. }
  split; [done|]. rewrite wrap_id by (unfold in_u; lia).
  replace (2 ^ s - 1) with (Z.ones s) by (rewrite Z.ones_equiv; lia).
  rewrite Z.land_ones by lia. unfold pos at 1. rewrite Zplus_mod_idemp_l.
  unfold pos. rewrite triangle_S. f_equal. lia.
Qed.

(** What the documentation asks of the functions of a table: [key_equal_func]
    decides whether two keys are in the same class, and keys of the same class
    have the same hash. *)
Class KeyLaws {C} `{EqDecision C} (f : functions) (cls : gpointer -> C) : Prop := {
  key_equal_cls : forall a b, key_equal f a b = bool_decide (cls a = cls b);
  hash_cls : forall a b, cls a = cls b -> hash_func f a = hash_func f b;
}.

(** Keys that are compared as pointers. *)
#[export] Instance pointer_keys h b b' : KeyLaws (Functions h None b b') (fun k : gpointer => k).
Proof.
  split; [|congruence]. intros x y. unfold key_equal. simpl.
  destruct (Z.eqb_spec x y); [by rewrite bool_decide_true|by rewrite bool_decide_false].
Qed.

(** Keys that point to strings in a memory that does not change. *)
#[export] Instance string_keys (mem : gpointer -> list Z) b b' :
  KeyLaws (Functions (fun k => g_str_hash (mem k)) (Some (fun x y => g_str_equal (mem x) (mem y))) b b') mem.
Proof. split; [done|]. intros x y E. simpl. by rewrite E. Qed.

(** * Cells *)

(** Hash, key and value at an index. *)
Record cell := Cell { c_hash : Z; c_key : gpointer; c_value : gpointer }.

Definition blank : cell := Cell 0 0 0.

Definition real (c : cell) : bool := HASH_IS_REAL (c_hash c).
Definition pair_of (c : cell) : gpointer * gpointer := (c_key c, c_value c).

(** The entries of the table, in the order of their indices. *)
Definition entries (L : list cell) : list (gpointer * gpointer) := pair_of <$> List.filter real L.

(** The arrays hold the cells [L]. *)
Definition arrays_hold (ks : list gpointer) (hs : list Z) (vs : option (list gpointer)) (L : list cell) : Prop :=
  hs = c_hash <$> L /\ ks = c_key <$> L /\ values_of ks vs = c_value <$> L.

Definition at_ (L : list cell) (i : Z) : option cell := if i <? 0 then None else L !! Z.to_nat i.

Definition count (p : cell -> bool) (L : list cell) : Z := Z.of_nat (length (List.filter p L)).
Definition used (c : cell) : bool := negb (HASH_IS_UNUSED (c_hash c)).

Lemma at_Some L i c : at_ L i = Some c -> 0 <= i < Z.of_nat (length L) /\ L !! Z.to_nat i = Some c.
Proof.
  unfold at_. destruct (Z.ltb_spec i 0); [done|]. intros H'. pose proof (lookup_lt_Some _ _ _ H').
  split; [lia|done].
Qed.

Lemma at_range L i : 0 <= i < Z.of_nat (length L) -> exists c, at_ L i = Some c.
Proof.
  intros Hi. unfold at_. destruct (Z.ltb_spec i 0); [lia|]. apply lookup_lt_is_Some. lia.
Qed.

(** Reads and stores of the arrays. *)
Lemma array_get_fmap {A} (g : cell -> A) L i : array_get (g <$> L) i = g <$> at_ L i.
Proof. unfold array_get, at_. destruct (i <? 0); [done|]. apply list_lookup_fmap. Qed.

Lemma array_set_fmap {A} (g : cell -> A) L i c c' :
  at_ L i = Some c -> array_set (g <$> L) i (g c') = Some (g <$> <[Z.to_nat i := c']> L).
Proof.
  intros [Hi _]%at_Some. unfold array_set. rewrite length_fmap, decide_True by done. by rewrite list_fmap_insert.
Qed.

Lemma at_insert L i c' j :
  0 <= i < Z.of_nat (length L) ->
  at_ (<[Z.to_nat i := c']> L) j = if decide (i = j) then Some c' else at_ L j.
Proof.
  intros Hi. unfold at_. destruct (Z.ltb_spec j 0).
  - by rewrite decide_False by lia.
  - destruct (decide (i = j)) as [->|].
    + apply list_lookup_insert_eq. lia.
    + apply list_lookup_insert_ne. lia.
Qed.

(** A cell is replaced: what is filtered, and counted. *)
Lemma filter_insert (p : cell -> bool) L i c c' :
  at_ L i = Some c ->
  exists rest, List.filter p L ≡ₚ (if p c then [c] else []) ++ rest /\
    List.filter p (<[Z.to_nat i := c']> L) ≡ₚ (if p c' then [c'] else []) ++ rest.
Proof.
  intros [_ H]%at_Some. apply list_elem_of_split_length in H as (l1 & l2 & -> & Hn). rewrite Hn.
  exists (List.filter p l1 ++ List.filter p l2). rewrite insert_app_r_alt, Nat.sub_diag by done. simpl.
  rewrite !List.filter_app. simpl.
  destruct (p c), (p c'); split; simpl; (apply Permutation_app_comm || (by rewrite Permutation_middle) || done).
Qed.

Lemma entries_insert L i c c' :
  at_ L i = Some c ->
  exists rest, entries L ≡ₚ (if real c then [pair_of c] else []) ++ rest /\
    entries (<[Z.to_nat i := c']> L) ≡ₚ (if real c' then [pair_of c'] else []) ++ rest.
Proof.
  intros H. destruct (filter_insert real L i c c' H) as (rest & E & E'). exists (pair_of <$> rest).
  unfold entries. rewrite E, E', !fmap_app. by destruct (real c), (real c').
Qed.

Lemma count_insert p L i c c' :
  at_ L i = Some c ->
  count p (<[Z.to_nat i := c']> L) = count p L - Z.b2z (p c) + Z.b2z (p c').
Proof.
  intros H. destruct (filter_insert p L i c c' H) as (rest & E & E'). unfold count.
  rewrite E, E', !length_app. destruct (p c), (p c'); simpl; lia.
Qed.

Lemma elem_of_entries L kv : kv ∈ entries L <-> exists i c, at_ L i = Some c /\ real c = true /\ kv = pair_of c.
Proof.
  unfold entries. rewrite list_elem_of_fmap. split.
  - intros (c & -> & Hc). apply list_elem_of_In, filter_In in Hc as [Hc Hr].
    apply list_elem_of_In, list_elem_of_lookup in Hc as [i Hi]. exists (Z.of_nat i), c. split_and!; [|done..].
    unfold at_. destruct (Z.ltb_spec (Z.of_nat i) 0); [lia|]. by rewrite Nat2Z.id.
  - intros (i & c & [_ Hc]%at_Some & Hr & ->). exists c. split; [done|].
    apply list_elem_of_In, filter_In. split; [|done]. apply list_elem_of_In. by eapply list_elem_of_lookup_2.
Qed.

(** Of as many cells as there are, one is not used if fewer are. *)
Lemma count_lt L :
  count used L < Z.of_nat (length L) -> exists i c, at_ L i = Some c /\ HASH_IS_UNUSED (c_hash c) = true.
Proof.
  unfold count. intros H.
  assert (Exists (fun c => used c = false) L) as He.
  { induction L as [|c L IH]; simpl in H; [lia|]. destruct (used c) eqn:E; [|by left].
    right. apply IH. simpl in H. lia. }
  apply Exists_exists in He as (c & Hc & Hu). apply list_elem_of_lookup in Hc as [i Hi].
  exists (Z.of_nat i), c. split; [|by apply negb_false_iff].
  unfold at_. destruct (Z.ltb_spec (Z.of_nat i) 0); [lia|]. by rewrite Nat2Z.id.
Qed.

(** * The invariant *)

(** The size, modulus and mask of a table with [2 ^ s] indices. *)
Definition shaped (t : GHashTable) (s : Z) : Prop :=
  3 <= s <= 30 /\ size t = 2 ^ s /\ 0 < mod_ t <= 2 ^ s /\ mask t = 2 ^ s - 1.

(** The index [i] is met by the probes for the hash [hv] before an unused one. *)
Definition reach (s md : Z) (L : list cell) (hv i : Z) : Prop :=
  exists n, pos s (hv mod md) n = i /\
    forall m, (m < n)%nat -> exists c, at_ L (pos s (hv mod md) m) = Some c /\ used c = true.

Section keys.
Context {C : Type} `{EqDecision C} (cls : gpointer -> C) (f : functions) `{!KeyLaws f cls}.

(** Cells that are well placed: a hash is that of the key and is met by the
    probes for it, and no two entries have keys of the same class. *)
Record placed (s md : Z) (L : list cell) : Prop := Placed {
  pl_length : Z.of_nat (length L) = 2 ^ s;
  pl_hash : forall i c, at_ L i = Some c -> 0 <= c_hash c;
  pl_real : forall i c, at_ L i = Some c -> real c = true ->
    c_hash c = hash_value f (c_key c) /\ reach s md L (c_hash c) i;
  pl_distinct : NoDup (cls ∘ fst <$> entries L);
}.

(** A table that holds the cells [L]; [full] allows that no index is unused. *)
Record table_holds (t : GHashTable) (L : list cell) : Prop := TableHolds {
  th_funcs : funcs t = f;
  th_shape : exists s, shaped t s /\ placed s (mod_ t) L;
  th_arrays : arrays_hold (keys t) (hashes t) (values t) L;
  th_nnodes : nnodes t = count real L;
  th_noccupied : noccupied t = count used L;
  th_refs : 0 < ref_count t;
}.

Definition table_ok (t : GHashTable) (L : list cell) : Prop :=
  table_holds t L /\ noccupied t < size t.

Lemma hash_value_real k : 2 <= hash_value f k < 2 ^ 32.
Proof.
  unfold hash_value, HASH_IS_REAL. pose proof (wrap_in_u 32 (hash_func f k) ltac:(lia)) as [? ?].
  destruct (Z.leb_spec 2 (u32 (hash_func f k))); lia.
Qed.

Lemma hash_value_cls a b : cls a = cls b -> hash_value f a = hash_value f b.
Proof. intros E. unfold hash_value. by rewrite (hash_cls a b E). Qed.

Lemma real_used c : real c = true -> used c = true.
Proof.
  unfold real, used, HASH_IS_REAL, HASH_IS_UNUSED, UNUSED_HASH_VALUE. rewrite Z.leb_le. intros H.
  apply negb_true_iff, Z.eqb_neq. lia.
Qed.

(** * Looking a key up *)

(** What g_hash_table_lookup_node finds: the entry of the key, or a cell that
    is not real, where the key can be put. *)
Definition found (s md : Z) (L : list cell) (key : gpointer) (i : Z) : Prop :=
  exists c, at_ L i = Some c /\
    if real c then cls (c_key c) = cls key
    else (forall kv, kv ∈ entries L -> cls kv.1 <> cls key) /\ reach s md L (hash_value f key) i.

(** An unused index that probing meets at the [N]-th probe is met by the code. *)
Lemma probe_ok t s L key n N fuel tomb :
  shaped t s -> placed s (mod_ t) L -> arrays_hold (keys t) (hashes t) (values t) L -> funcs t = f ->
  let hv := hash_value f key in
  let p := pos s (hv mod mod_ t) in
  (n <= N)%nat -> Z.of_nat N < 2 ^ s -> (N - n < fuel)%nat ->
  (exists c, at_ L (p N) = Some c /\ used c = false) ->
  (forall m, (m < n)%nat -> exists c, at_ L (p m) = Some c /\ used c = true /\
     (real c = true -> cls (c_key c) <> cls key)) ->
  (forall j, tomb = Some j -> exists m c, (m < n)%nat /\ p m = j /\ at_ L j = Some c /\ real c = false) ->
  exists i, probe fuel t key hv (p n) (Z.of_nat n) tomb = Some i /\ found s (mod_ t) L key i.
Proof.
  intros Hsh Hpl (Hhs & Hks & _) Hf hv p. revert n tomb. induction fuel as [|fuel IH]; intros n tomb Hn HN Hfuel HU Hbef Ht; [lia|].
  pose proof Hsh as (Hs & Hsz & Hmd & Hmask).
  destruct (at_range L (p n)) as [c Hc].
  { rewrite (pl_length _ _ _ Hpl). apply pos_range. lia. }
  cbn [probe]. rewrite Hhs, array_get_fmap, Hc. cbn [option_fmap option_map mbind option_bind].
  change (fmap c_hash (Some c)) with (Some (c_hash c)). cbn [mbind option_bind].
  rewrite Hmask. destruct (pos_next s (hv mod mod_ t) n Hs ltac:(lia)) as [Hstep Hpos].
  rewrite Hstep. fold p in Hpos. rewrite Hpos.
  destruct (HASH_IS_UNUSED (c_hash c)) eqn:Hun.
  - exists (default (p n) tomb). split; [done|]. unfold found.
    assert (used c = false) as Huc by (unfold used; by rewrite Hun).
    assert (forall kv, kv ∈ entries L -> cls kv.1 <> cls key) as Hnone.
    { intros kv (i' & c' & Hc' & Hr' & ->)%elem_of_entries Hcls. simpl in Hcls.
      destruct (pl_real _ _ _ Hpl i' c' Hc' Hr') as [Hh (n' & Hn' & Hbef')].
      rewrite (hash_value_cls _ _ Hcls) in Hh. fold hv in Hh. rewrite Hh in Hn', Hbef'. fold p in Hn'.
      destruct (Nat.lt_trichotomy n' n) as [H' | [-> | H']].
      - destruct (Hbef n' H') as (c'' & Hc'' & _ & Hne). rewrite Hn' in Hc''. simplify_eq. by apply Hne.
      - rewrite Hn' in Hc. simplify_eq. by rewrite (real_used _ Hr') in Huc.
      - destruct (Hbef' n H') as (c'' & Hc'' & Hu''). fold p in Hc''. congruence. }
    assert (forall m, (m <= n)%nat -> reach s (mod_ t) L hv (p m)) as Hreach.
    { intros m Hm. exists m. split; [done|]. intros m' Hm'.
      destruct (Hbef m' ltac:(lia)) as (c' & ? & ? & _). eauto. }
    destruct tomb as [j|]; simpl.
    + destruct (Ht j eq_refl) as (m & c' & Hm & <- & Hc' & Hr). exists c'. split; [done|]. rewrite Hr.
      split; [done|]. apply Hreach. lia.
    + exists c. split; [done|]. destruct (real c) eqn:Hr; [by rewrite (real_used _ Hr) in Huc|].
      split; [done|]. by apply Hreach.
  - assert (used c = true) as Huc by (unfold used; by rewrite Hun).
    assert (n <> N) as HnN by (intros ->; destruct HU as (c' & Hc' & ?); congruence).
    assert (forall tomb', (tomb' = tomb \/ (tomb' = Some (p n) /\ real c = false)) ->
              (real c = true -> cls (c_key c) <> cls key) ->
              exists i, probe fuel t key hv (p (S n)) (Z.of_nat (S n)) tomb' = Some i /\ found s (mod_ t) L key i)
      as Hnext.
    { intros tomb' Htomb Hne. apply IH; [lia|done|lia|done| |].
      - intros m Hm. destruct (decide (m = n)) as [->|]; [by exists c|]. apply Hbef. lia.
      - intros j Hj. destruct Htomb as [-> | [-> Hr]].
        + destruct (Ht j Hj) as (m & c' & ? & ?). exists m, c'. split; [lia|done].
        + injection Hj as <-. exists n, c. split_and!; [lia|done..]. }
    destruct (Z.eqb_spec (c_hash c) hv) as [Hh|Hh].
    + assert (real c = true) as Hr.
      { unfold real, HASH_IS_REAL. rewrite Hh. apply Z.leb_le. apply hash_value_real. }
      rewrite Hks, array_get_fmap, Hc. change (fmap c_key (Some c)) with (Some (c_key c)). cbn [mbind option_bind].
      rewrite Hf, (key_equal_cls (c_key c) key). case_bool_decide as Hcls.
      * exists (p n). split; [done|]. exists c. by rewrite Hr.
      * apply Hnext; [by left|done].
    + assert (real c = true -> cls (c_key c) <> cls key) as Hne.
      { intros Hr Hcls. apply Hh. rewrite (proj1 (pl_real _ _ _ Hpl _ _ Hc Hr)). by apply hash_value_cls. }
      destruct (HASH_IS_TOMBSTONE (c_hash c)) eqn:Htb; simpl; [|apply Hnext; [by left|done]].
      case_bool_decide; simpl; [|apply Hnext; [by left|done]].
      apply Hnext; [right; split; [done|]|done].
      unfold HASH_IS_TOMBSTONE, TOMBSTONE_HASH_VALUE in Htb. apply Z.eqb_eq in Htb.
      unfold real, HASH_IS_REAL. by rewrite Htb.
Qed.

(** A well-formed table always ends a search, within its bounds. *)
Lemma lookup_node_ok t L key :
  table_ok t L ->
  exists i s, shaped t s /\ placed s (mod_ t) L /\
    g_hash_table_lookup_node t key = Some (i, hash_value f key) /\ found s (mod_ t) L key i.
Proof.
  intros [[Hf (s & Hsh & Hpl) Har Hn Ho Href0] Hlt].
  pose proof Hsh as (Hs & Hsz & Hmd & Hmask).
  destruct (count_lt L) as (i & c & Hc & Hu).
  { rewrite <- Ho, (pl_length _ _ _ Hpl). by rewrite <- Hsz. }
  pose proof (at_Some _ _ _ Hc) as [Hi _]. rewrite (pl_length _ _ _ Hpl) in Hi.
  destruct (pos_surj s (hash_value f key mod mod_ t) i ltac:(lia) Hi) as (N & HN & HposN).
  assert (pos s (hash_value f key mod mod_ t) 0 = hash_value f key mod mod_ t) as H0.
  { unfold pos, triangle. simpl. rewrite Z.add_0_r. apply Z.mod_small.
    pose proof (Z.mod_pos_bound (hash_value f key) (mod_ t)). lia. }
  destruct (probe_ok t s L key 0 N (S (Z.to_nat (size t))) None Hsh Hpl Har Hf) as (j & Hrun & Hfound);
    [lia|done|lia| | |done|].
  { rewrite HposN. exists c. split; [done|]. unfold used. by rewrite Hu. }
  { intros m Hm. lia. }
  exists j, s. split_and!; [done..| |done].
  unfold g_hash_table_lookup_node. rewrite H0 in Hrun. change (Z.of_nat 0) with 0 in Hrun.
  destruct (Z.leb_spec (ref_count t) 0); [lia|]. by rewrite Hf, Hrun.
Qed.
End keys.
