(* ===== verification/HashOps.v ===== *)
(** The operations of the hash table of ghash.c on cells: what they do to the
    invariant and to the finite map a table stands for. Resizing: the new arrays
    hold the same entries, without tombstones. *)
From S2P Require Import Prelude Hash HashRep.

Open Scope c_scope.

Lemma reach_mono s md L L' hv i :
  (forall j c, at_ L j = Some c -> used c = true -> exists c', at_ L' j = Some c' /\ used c' = true) ->
  reach s md L hv i -> reach s md L' hv i.
Proof.
  intros H (n & Hn & Hbef). exists n. split; [done|]. intros m Hm.
  destruct (Hbef m Hm) as (c & Hc & Hu). by eapply H.
Qed.

(** * Arrays *)

Lemma list_insert_same {A} (g : cell -> A) L i c (v : A) :
  at_ L i = Some c -> g c = v -> <[Z.to_nat i := v]> (g <$> L) = g <$> L.
Proof. intros [_ Hc]%at_Some <-. apply list_insert_id. by rewrite list_lookup_fmap, Hc. Qed.

(** A key and a value are stored, where the two arrays are one only if the
    values agree. *)
Lemma set_cell ks hs vs L i c c' :
  arrays_hold ks hs vs L -> at_ L i = Some c -> (vs = None -> c_key c' = c_value c') ->
  exists ks1 ks' vs', array_set ks i (c_key c') = Some ks1 /\ set_value ks1 vs i (c_value c') = Some (ks', vs') /\
    arrays_hold ks' (<[Z.to_nat i := c_hash c']> hs) vs' (<[Z.to_nat i := c']> L) /\ (vs' = None -> vs = None).
Proof.
  intros (-> & -> & Hv) Hc Hvs. rewrite (array_set_fmap c_key L i c c' Hc). eexists.
  destruct vs as [vs|]; simpl in Hv.
  - subst vs. eexists _, _. split; [done|]. simpl. rewrite (array_set_fmap c_value L i c c' Hc).
    split; [done|]. split; [|done]. split_and!; simpl; by rewrite ?list_fmap_insert.
  - pose proof (at_insert L i c' i (proj1 (at_Some _ _ _ Hc))) as Hi.
    rewrite decide_True in Hi by done.
    eexists _, _. split; [done|]. simpl. rewrite <- (Hvs eq_refl), (array_set_fmap c_key _ i c' c' Hi).
    split; [done|]. split; [|done].
    rewrite list_insert_insert_eq. split_and!; simpl; [by rewrite list_fmap_insert|done|].
    by rewrite !list_fmap_insert, (Hvs eq_refl), Hv.
Qed.

(** The step that gives a table with shared arrays an array of values. *)
Lemma unshare_cell ks hs L i c c' :
  arrays_hold ks hs None L -> at_ L i = Some c ->
  exists ks1 vs1, array_set ks i (c_key c') = Some ks1 /\ set_value ks1 (Some ks1) i (c_value c') = Some (ks1, Some vs1) /\
    arrays_hold ks1 (<[Z.to_nat i := c_hash c']> hs) (Some vs1) (<[Z.to_nat i := c']> L).
Proof.
  intros (-> & -> & Hv) Hc. simpl in Hv. rewrite (array_set_fmap c_key L i c c' Hc). eexists.
  pose proof (at_insert L i c' i (proj1 (at_Some _ _ _ Hc))) as Hi. rewrite decide_True in Hi by done.
  pose proof (array_set_fmap c_key _ i c' (Cell 0 (c_value c') 0) Hi) as Hset. simpl in Hset.
  eexists. split; [done|]. simpl. rewrite Hset. split; [done|]. rewrite list_insert_insert_eq.
  split_and!; simpl; rewrite ?list_fmap_insert; [done..|]. simpl. by rewrite Hv.
Qed.

(** * Cells in place *)

Section keys.
Context {C : Type} `{EqDecision C, !Countable C} (cls : gpointer -> C) (f : functions) `{!KeyLaws f cls}.

Notation placed := (placed cls f).

(** The finite map of the entries, by the class of the key. *)
Definition map_of (L : list cell) : gmap C (gpointer * gpointer) :=
  list_to_map ((fun kv => (cls kv.1, kv)) <$> entries L).

Lemma fst_classes l : ((fun kv : gpointer * gpointer => (cls kv.1, kv)) <$> l).*1 = cls ∘ fst <$> l.
Proof. by rewrite <- list_fmap_compose. Qed.

Lemma map_of_perm L l :
  NoDup (cls ∘ fst <$> l) -> entries L ≡ₚ l -> map_of L = list_to_map ((fun kv => (cls kv.1, kv)) <$> l).
Proof.
  intros Hnd Hp. unfold map_of. apply list_to_map_proper; [|by rewrite Hp].
  by rewrite fst_classes, Hp.
Qed.

(** The condition for a new entry: it replaces one of the same class, or there
    is none. *)
Definition fresh_or_same (L : list cell) (c c' : cell) : Prop :=
  if real c then cls (c_key c') = cls (c_key c)
  else forall kv, kv ∈ entries L -> cls kv.1 <> cls (c_key c').

Lemma placed_update s md L i c c' :
  placed s md L -> at_ L i = Some c -> 0 <= c_hash c' -> (used c = true -> used c' = true) ->
  (real c' = true -> c_hash c' = hash_value f (c_key c') /\ reach s md L (c_hash c') i /\ fresh_or_same L c c') ->
  placed s md (<[Z.to_nat i := c']> L).
Proof.
  intros [Hl Hh Hr Hd] Hc Hpos Hused Hreal. pose proof (proj1 (at_Some _ _ _ Hc)) as Hi.
  assert (forall j d, at_ L j = Some d -> used d = true ->
            exists d', at_ (<[Z.to_nat i := c']> L) j = Some d' /\ used d' = true) as Hmono.
  { intros j d Hj Hu. rewrite at_insert by done. destruct (decide (i = j)) as [<-|]; [|eauto].
    exists c'. split; [done|]. apply Hused. congruence. }
  split.
  - by rewrite length_insert.
  - intros j d. rewrite at_insert by done. destruct (decide (i = j)); [|apply Hh]. by intros [= <-].
  - intros j d. rewrite at_insert by done. destruct (decide (i = j)) as [<-|].
    + intros [= <-] H'. destruct (Hreal H') as (? & ? & _). split; [done|]. by apply (reach_mono _ _ L).
    + intros Hj H'. destruct (Hr j d Hj H') as [? ?]. split; [done|]. by apply (reach_mono _ _ L).
  - destruct (entries_insert L i c c' Hc) as (rest & E & E'). rewrite E'. rewrite E in Hd.
    destruct (real c') eqn:Hr'.
    + destruct (Hreal eq_refl) as (_ & _ & Hf). unfold fresh_or_same in Hf. destruct (real c); simpl in *.
      * unfold compose in *. cbn in *. by rewrite Hf.
      * constructor; [|done]. intros (kv & Hkv & Hin)%list_elem_of_fmap. simpl in Hkv.
        apply (Hf kv); [by rewrite E|done].
    + destruct (real c); simpl in *; [by apply NoDup_cons in Hd as [_ Hd]|done].
Qed.
(** The map with an entry replaced or added, and with one removed. *)
Lemma map_of_put s md L i c c' :
  placed s md L -> at_ L i = Some c -> real c' = true -> fresh_or_same L c c' ->
  map_of (<[Z.to_nat i := c']> L) = <[cls (c_key c') := pair_of c']> (map_of L).
Proof.
  intros [_ _ _ Hd] Hc Hr' Hf. destruct (entries_insert L i c c' Hc) as (rest & E & E').
  rewrite Hr' in E'. unfold fresh_or_same in Hf. rewrite E in Hd.
  assert (NoDup (cls ∘ fst <$> pair_of c' :: rest)) as Hd'.
  { destruct (real c); simpl in *; [unfold compose in *; cbn in *; by rewrite Hf|].
    constructor; [|done]. intros (kv & Hkv & Hin)%list_elem_of_fmap. simpl in Hkv.
    apply (Hf kv); [by rewrite E|done]. }
  rewrite (map_of_perm _ _ Hd' E'). simpl.
  assert (NoDup (cls ∘ fst <$> entries L)) as HdL by (by rewrite E).
  rewrite (map_of_perm L _ Hd E). destruct (real c); simpl; [|done].
  simpl in Hf. by rewrite Hf, insert_insert_eq.
Qed.

Lemma map_of_drop s md L i c c' :
  placed s md L -> at_ L i = Some c -> real c = true -> real c' = false ->
  map_of (<[Z.to_nat i := c']> L) = delete (cls (c_key c)) (map_of L).
Proof.
  intros [_ _ _ Hd] Hc Hr Hr'. destruct (entries_insert L i c c' Hc) as (rest & E & E').
  rewrite Hr' in E'. rewrite Hr in E. rewrite E in Hd.
  rewrite (map_of_perm L _ Hd E). cbn [app fmap list_fmap] in Hd. apply NoDup_cons in Hd as [Hn Hd]. rewrite (map_of_perm _ _ Hd E'). simpl.
  rewrite delete_insert_id; [done|]. apply not_elem_of_list_to_map. by rewrite fst_classes.
Qed.

Lemma elem_of_map_of s md L k kv :
  placed s md L -> map_of L !! k = Some kv <-> kv ∈ entries L /\ cls kv.1 = k.
Proof.
  intros Hpl. unfold map_of. rewrite <- elem_of_list_to_map
    by (rewrite fst_classes; apply (pl_distinct _ _ _ _ _ Hpl)).
  rewrite list_elem_of_fmap. split.
  - by intros (kv' & [= -> ->] & ?).
  - intros [? <-]. by exists kv.
Qed.

Lemma map_of_found s md L key i :
  placed s md L -> found cls f s md L key i ->
  exists c, at_ L i = Some c /\
    map_of L !! cls key = if real c then Some (pair_of c) else None.
Proof.
  intros Hpl (c & Hc & Hf). exists c. split; [done|]. destruct (real c) eqn:Hr.
  - apply (elem_of_map_of s md); [done|]. split; [|done]. apply elem_of_entries. by exists i, c.
  - destruct Hf as [Hf _]. apply eq_None_not_Some. intros [kv H]. apply (elem_of_map_of s md) in H as [? ?]; [|done].
    by apply (Hf kv).
Qed.

Lemma map_of_size s md L : placed s md L -> Z.of_nat (base.size (map_of L)) = count real L.
Proof.
  intros [_ _ _ Hd].
  assert (map_to_list (map_of L) ≡ₚ (fun kv => (cls kv.1, kv)) <$> entries L) as Hp.
  { unfold map_of. apply map_to_list_to_map. by rewrite fst_classes. }
  rewrite <- length_map_to_list, Hp, length_fmap. unfold entries, count. by rewrite length_fmap.
Qed.
End keys.

(** * Shapes *)

Lemma set_shift_ok t s :
  3 <= s <= 30 ->
  exists t', g_hash_table_set_shift t s = Some t' /\ shaped t' s /\
    t' = with_shape (2 ^ s) (mod_ t') (2 ^ s - 1) t.
Proof.
  intros Hs.
  assert (forall_range 3 28 (fun s =>
    match array_get prime_mod s with
    | Some md => (s32 (1 .<< s) =? 2 ^ s) && (0 <? md) && (md <=? 2 ^ s) && (shift_mask s =? 2 ^ s - 1)
    | None => false end) = true) as H by (vm_compute; reflexivity).
  pose proof (forall_range_spec _ _ _ H s ltac:(lia)) as Hb. cbv beta in Hb.
  unfold g_hash_table_set_shift. destruct (array_get prime_mod s) as [md|]; [|done].
  rewrite !andb_true_iff, !Z.eqb_eq, Z.ltb_lt, Z.leb_le in Hb. destruct Hb as [[[Hsz ?] ?] Hmask].
  rewrite Hsz, Hmask. exists (with_shape (2 ^ s) md (2 ^ s - 1) t). split; [reflexivity|].
  split; [|reflexivity]. unfold shaped. cbn [size mod_ mask with_shape]. lia.
Qed.

Lemma closest_shift_ok fuel n i :
  0 <= n < 2 ^ (Z.of_nat fuel - 1) ->
  exists k, closest_shift fuel n i = Some (i + k) /\ 0 <= k < Z.of_nat fuel /\ n < 2 ^ k.
Proof.
  revert n i. induction fuel as [|fuel IH]; intros n i [H0 Hn]; [simpl in Hn; lia|].
  cbn [closest_shift]. destruct (Z.eqb_spec n 0) as [->|Hne].
  { exists 0. rewrite Z.add_0_r. split_and!; [done|lia..]. }
  replace (Z.of_nat (S fuel) - 1) with (Z.of_nat fuel) in Hn by lia.
  assert (0 < Z.of_nat fuel) by (destruct fuel; simpl in *; lia).
  rewrite Z.shiftr_div_pow2 by lia. change (2 ^ 1) with 2.
  destruct (IH (n / 2) (i + 1)) as (k & -> & Hk & Hlt).
  { split; [by apply Z.div_pos|]. apply Z.div_lt_upper_bound; [lia|]. rewrite <- Z.pow_succ_r by lia.
    by replace (Z.succ (Z.of_nat fuel - 1)) with (Z.of_nat fuel) by lia. }
  exists (k + 1). rewrite Z.pow_add_r by lia. change (2 ^ 1) with 2.
  split_and!; [f_equal; lia|lia|lia|].
  pose proof (Z.div_mod n 2 ltac:(lia)). pose proof (Z.mod_pos_bound n 2 ltac:(lia)). lia.
Qed.

Lemma set_shift_from_size_ok t n :
  0 <= n < 2 ^ 30 ->
  exists t' s, g_hash_table_set_shift_from_size t n = Some t' /\ shaped t' s /\ n < 2 ^ s /\
    t' = with_shape (2 ^ s) (mod_ t') (2 ^ s - 1) t.
Proof.
  intros Hn. unfold g_hash_table_set_shift_from_size, g_hash_table_find_closest_shift.
  destruct (closest_shift_ok 31 n 0) as (k & Hk & Hr & Hlt); [simpl; lia|].
  assert (closest_shift 32 n 0 = Some (0 + k)) as ->.
  { clear Hr Hlt Hn. revert Hk. generalize (0 + k) as r. generalize 0 as i. revert n.
    change 32%nat with (S 31). generalize 31%nat as fuel.
    intros fuel n i r. revert n i. induction fuel as [|fuel IH]; intros n i; [done|]. cbn [closest_shift].
    destruct (n =? 0); [done|]. by apply IH. }
  cbn [mbind option_bind]. unfold HASH_TABLE_MIN_SHIFT.
  destruct (set_shift_ok t (Z.max (0 + k) 3)) as (t' & -> & Hsh & Heq); [lia|].
  exists t', (Z.max (0 + k) 3). split_and!; [done|done| |done].
  apply Z.lt_le_trans with (2 ^ k); [done|]. apply Z.pow_le_mono_r; lia.
Qed.

(** * Empty arrays *)

Definition blanks (n : Z) : list cell := replicate (Z.to_nat n) blank.

Lemma at_blanks n i c : at_ (blanks n) i = Some c -> c = blank.
Proof. intros [_ H]%at_Some. by apply lookup_replicate in H as [? _]. Qed.

Lemma filter_blanks p n : p blank = false -> List.filter p (blanks n) = [].
Proof.
  intros Hp. unfold blanks. induction (Z.to_nat n) as [|k IH]; [done|]. simpl. by rewrite Hp.
Qed.

Lemma arrays_hold_blanks n (vs : option (list gpointer)) :
  arrays_hold (zeros n) (zeros n) ((fun _ => zeros n) <$> vs) (blanks n).
Proof.
  unfold arrays_hold, blanks, zeros. rewrite !fmap_replicate. by destruct vs.
Qed.

(** * The new arrays *)

Section keys.
Context {C : Type} `{EqDecision C, !Countable C} (cls : gpointer -> C) (f : functions) `{!KeyLaws f cls}.

Notation placed := (placed cls f).

Lemma placed_blanks s md : 0 <= s -> placed s md (blanks (2 ^ s)).
Proof.
  intros Hs. split.
  - unfold blanks. rewrite length_replicate. lia.
  - intros i c ->%at_blanks. done.
  - intros i c ->%at_blanks. done.
  - unfold entries. rewrite filter_blanks by done. constructor.
Qed.

(** The inner loop of g_hash_table_resize finds the next unused index. *)
Lemma find_unused_ok s md L hv n N fuel :
  3 <= s <= 30 -> placed s md L ->
  let p := pos s (hv mod md) in
  (n <= N)%nat -> Z.of_nat N < 2 ^ s -> (N - n < fuel)%nat ->
  (exists c, at_ L (p N) = Some c /\ used c = false) ->
  (forall m, (m < n)%nat -> exists c, at_ L (p m) = Some c /\ used c = true) ->
  exists i c, find_unused fuel (c_hash <$> L) (2 ^ s - 1) (p n) (Z.of_nat n) = Some i /\
    at_ L i = Some c /\ used c = false /\ reach s md L hv i.
Proof.
  intros Hs Hpl p. revert n. induction fuel as [|fuel IH]; intros n Hn HN Hfuel HU Hbef; [lia|].
  destruct (at_range L (p n)) as [c Hc].
  { rewrite (pl_length _ _ _ _ _ Hpl). apply pos_range. lia. }
  cbn [find_unused]. rewrite array_get_fmap, Hc. change (fmap c_hash (Some c)) with (Some (c_hash c)).
  cbn [mbind option_bind]. destruct (pos_next s (hv mod md) n Hs ltac:(lia)) as [E1 E2].
  fold p in E2. rewrite E1, E2.
  destruct (HASH_IS_UNUSED (c_hash c)) eqn:Hun.
  - exists (p n), c. split_and!; [done|done|unfold used; by rewrite Hun|]. by exists n.
  - assert (used c = true) as Huc by (unfold used; by rewrite Hun).
    assert (n <> N) as HnN by (intros ->; destruct HU as (c' & Hc' & ?); congruence).
    apply IH; [lia|done|lia|done|].
    intros m Hm. destruct (decide (m = n)) as [->|]; [by exists c|]. apply Hbef. lia.
Qed.

(** The state of the loop over the old nodes, [L1] done: the new arrays hold
    the cells [L'] with the same entries. *)
Record resized (t : GHashTable) (s : Z) (L1 : list cell) (new : arrays) (L' : list cell) : Prop := Resized {
  rz_arrays : arrays_hold new.1.1 new.1.2 new.2 L';
  rz_shared : new.2 = None -> values t = None;
  rz_placed : placed s (mod_ t) L';
  rz_entries : entries L' ≡ₚ entries L1;
  rz_used : count used L' = count real L';
}.

Section loop.
Context (t : GHashTable) (s : Z) (L : list cell).
Hypothesis Hsh : shaped t s.
Hypothesis Har : arrays_hold (keys t) (hashes t) (values t) L.
Hypothesis Hreal : forall i c, at_ L i = Some c -> real c = true -> c_hash c = hash_value f (c_key c).
Hypothesis Hnd : NoDup (cls ∘ fst <$> entries L).
Hypothesis Hroom : count real L < 2 ^ s.

Lemma entries_app l1 l2 : entries (l1 ++ l2) = entries l1 ++ entries l2.
Proof. unfold entries. by rewrite List.filter_app, fmap_app. Qed.

Lemma entries_count l : Z.of_nat (length (entries l)) = count real l.
Proof. unfold entries, count. by rewrite length_fmap. Qed.

Lemma resize_node_ok L1 c L2 new L' :
  L = L1 ++ c :: L2 -> resized t s L1 new L' ->
  exists new' L'', resize_node t new (Z.of_nat (length L1)) = Some new' /\ resized t s (L1 ++ [c]) new' L''.
Proof.
  intros HL [Hnew Hvs Hpl Hent Hused]. destruct new as [[ks hs] vs]. cbn [fst snd] in *.
  pose proof Hsh as (Hs & Hsz & Hmd & Hmask). pose proof Har as (Hhs & Hks & Hval).
  assert (at_ L (Z.of_nat (length L1)) = Some c) as Hc.
  { unfold at_. destruct (Z.ltb_spec (Z.of_nat (length L1)) 0); [lia|]. rewrite Nat2Z.id, HL. apply lookup_app_mid. }
  unfold resize_node. rewrite Hhs, array_get_fmap, Hc. change (fmap c_hash (Some c)) with (Some (c_hash c)).
  cbn [mbind option_bind]. fold (real c). destruct (real c) eqn:Hr; cbn [negb].
  2:{ exists (ks, hs, vs), L'. split; [done|]. split; try done. rewrite Hent, entries_app.
      unfold entries at 3. simpl. by rewrite Hr, app_nil_r. }
  assert (entries (L1 ++ [c]) = entries L1 ++ [pair_of c]) as Hentc.
  { rewrite entries_app. unfold entries at 2. simpl. by rewrite Hr. }
  assert (count used L' < Z.of_nat (length L')) as Hlt.
  { rewrite Hused, <- entries_count, Hent, (pl_length _ _ _ _ _ Hpl).
    apply Z.lt_le_trans with (count real L); [|lia]. rewrite <- entries_count, HL.
    replace (L1 ++ c :: L2) with ((L1 ++ [c]) ++ L2) by (by rewrite <- app_assoc).
    rewrite entries_app, Hentc, !length_app. simpl. lia. }
  destruct (count_lt L' Hlt) as (j & d & Hd & Hun).
  pose proof (at_Some _ _ _ Hd) as [Hj _]. rewrite (pl_length _ _ _ _ _ Hpl) in Hj.
  destruct (pos_surj s (c_hash c mod mod_ t) j ltac:(lia) Hj) as (N & HN & HposN).
  assert (pos s (c_hash c mod mod_ t) 0 = c_hash c mod mod_ t) as H0.
  { unfold pos, triangle. simpl. rewrite Z.add_0_r. apply Z.mod_small.
    pose proof (Z.mod_pos_bound (c_hash c) (mod_ t)). lia. }
  destruct (find_unused_ok s (mod_ t) L' (c_hash c) 0 N (S (Z.to_nat (size t))) Hs Hpl) as (i & e & Hfind & He & Hue & Hreach);
    [lia|done|lia| |intros; lia|].
  { rewrite HposN. exists d. split; [done|]. unfold used. by rewrite Hun. }
  destruct Hnew as (Hnhs & Hnks & Hnval).
  rewrite Hmask, Hnhs. rewrite H0 in Hfind. change (Z.of_nat 0) with 0 in Hfind. rewrite Hfind.
  cbn [mbind option_bind]. rewrite Hks, array_get_fmap, Hc. change (fmap c_key (Some c)) with (Some (c_key c)).
  cbn [mbind option_bind]. rewrite <- Hks, Hval, array_get_fmap, Hc.
  change (fmap c_value (Some c)) with (Some (c_value c)). cbn [mbind option_bind].
  rewrite (array_set_fmap c_hash L' i e c He). cbn [mbind option_bind].
  destruct (set_cell ks hs vs L' i e c) as (ks1 & ks' & vs' & Hset1 & Hset2 & Hnew' & Hvs'); [done|done| |].
  { intros ->. specialize (Hvs eq_refl). rewrite Hvs, Hks in Hval. simpl in Hval.
    apply (f_equal (fun l => l !! length L1)) in Hval. rewrite !list_lookup_fmap, HL, lookup_app_mid in Hval.
    simpl in Hval. congruence. }
  rewrite Hset1. cbn [mbind option_bind]. rewrite Hset2. cbn [mbind option_bind].
  assert (real e = false) as Hre by (destruct (real e) eqn:E; [by rewrite (real_used _ E) in Hue|done]).
  exists (ks', <[Z.to_nat i := c_hash c]> hs, vs'), (<[Z.to_nat i := c]> L').
  split; [by rewrite Hnhs, list_fmap_insert|].
  assert (forall kv, kv ∈ entries L' -> cls kv.1 <> cls (c_key c)) as Hfresh.
  { intros kv Hkv Hcls. rewrite Hent in Hkv. rewrite HL in Hnd.
    replace (L1 ++ c :: L2) with ((L1 ++ [c]) ++ L2) in Hnd by (by rewrite <- app_assoc).
    rewrite entries_app, Hentc, !fmap_app in Hnd. apply NoDup_app in Hnd as [Hnd' _].
    apply NoDup_app in Hnd' as (_ & Hdis & _). apply (Hdis (cls kv.1)).
    - apply list_elem_of_fmap. by exists kv.
    - rewrite Hcls. by left. }
  split; cbn [fst snd].
  - done.
  - intros E. by apply Hvs, Hvs'.
  - apply (placed_update cls f s (mod_ t) L' i e c Hpl He).
    + unfold real, HASH_IS_REAL in Hr. apply Z.leb_le in Hr. lia.
    + by rewrite Hue.
    + intros _. split; [by eapply Hreal|]. split; [done|]. unfold fresh_or_same. by rewrite Hre.
  - destruct (entries_insert L' i e c He) as (rest & E & E'). rewrite Hre in E. rewrite Hr in E'.
    rewrite E', Hentc. rewrite E in Hent. simpl in *. rewrite Hent. by rewrite Permutation_app_comm.
  - rewrite !(count_insert _ L' i e c He), Hused, Hue, Hre, Hr, (real_used _ Hr). done.
Qed.

Lemma resize_nodes_ok L1 L2 new L' :
  L = L1 ++ L2 -> resized t s L1 new L' ->
  exists new' L'', resize_nodes t new (seqZ (Z.of_nat (length L1)) (Z.of_nat (length L2))) = Some new' /\
    resized t s L new' L''.
Proof.
  revert L1 new L'. induction L2 as [|c L2 IH]; intros L1 new L' HL Hrz.
  { rewrite app_nil_r in HL. subst L1. by exists new, L'. }
  destruct (resize_node_ok L1 c L2 new L' HL Hrz) as (new1 & L'1 & Hrun & Hrz1).
  destruct (IH (L1 ++ [c]) new1 L'1) as (new' & L'' & Hrun' & Hrz'); [by rewrite <- app_assoc|done|].
  exists new', L''. split; [|done]. cbn [length]. rewrite seqZ_cons by lia.
  cbn [resize_nodes]. rewrite Hrun. cbn [mbind option_bind]. rewrite <- Hrun'. f_equal.
  rewrite length_app. cbn [length]. f_equal; lia.
Qed.
End loop.

(** What stays the same when a table is resized. *)
Definition same_entries (t : GHashTable) (L : list cell) (t' : GHashTable) (L' : list cell) : Prop :=
  entries L' ≡ₚ entries L /\ nnodes t' = nnodes t /\ version t' = version t /\ ref_count t' = ref_count t.

Lemma same_entries_map t L t' L' :
  NoDup (cls ∘ fst <$> entries L) -> same_entries t L t' L' -> map_of cls L' = map_of cls L.
Proof. intros Hnd [E _]. by rewrite (map_of_perm cls L' (entries L) Hnd E). Qed.

Lemma count_bounds p L : 0 <= count p L <= Z.of_nat (length L).
Proof.
  unfold count. split; [lia|]. induction L as [|c L IH]; simpl; [lia|]. destruct (p c); simpl; lia.
Qed.

Lemma resize_ok t L :
  table_holds cls f t L -> nnodes t < 2 ^ 29 ->
  exists t' L', g_hash_table_resize t = Some t' /\ table_ok cls f t' L' /\ same_entries t L t' L' /\
    noccupied t' = nnodes t' /\ 2 * nnodes t' < size t'.
Proof.
  intros [Hf (s0 & Hsh0 & Hpl) Har Hn Ho Href0] Hmax. unfold g_hash_table_resize.
  pose proof (count_bounds real L) as [Hn0 _].
  rewrite swrap_id by lia.
  destruct (set_shift_from_size_ok t (nnodes t * 2)) as (t1 & s & -> & Hsh & Hroom & Heq); [lia|].
  cbn [mbind option_bind]. pose proof Hsh as (Hs & Hsz & Hmd & Hmask).
  assert (keys t1 = keys t /\ hashes t1 = hashes t /\ values t1 = values t /\ nnodes t1 = nnodes t /\
          version t1 = version t /\ ref_count t1 = ref_count t /\ funcs t1 = funcs t)
    as (Ek & Eh & Ev & En & Ever & Eref & Efun) by (rewrite Heq; done).
  destruct (resize_nodes_ok t1 s L Hsh) with (L1 := @nil cell) (L2 := L)
    (new := (zeros (size t1), zeros (size t1), (fun _ => zeros (size t1)) <$> values t1)) (L' := blanks (2 ^ s))
    as (new & L' & Hrun & [Hnew _ Hpl' Hent Hused]).
  - by rewrite Ek, Eh, Ev.
  - intros i c Hc Hr. by apply (proj1 (pl_real _ _ _ _ _ Hpl i c Hc Hr)).
  - apply (pl_distinct _ _ _ _ _ Hpl).
  - rewrite <- Hn. lia.
  - done.
  - split; cbn [fst snd].
    + rewrite Hsz. apply arrays_hold_blanks.
    + by destruct (values t1).
    + apply placed_blanks. lia.
    + unfold entries. by rewrite filter_blanks.
    + unfold count. by rewrite !filter_blanks.
  - assert (Z.of_nat (length L) = size t) as Hl.
    { rewrite (pl_length _ _ _ _ _ Hpl). by destruct Hsh0 as (_ & -> & _). }
    change (Z.of_nat (length [])) with 0 in Hrun. rewrite Hl in Hrun. rewrite Hrun.
    destruct new as [[ks hs] vs]. cbn [mbind option_bind fst snd] in *.
    eexists _, L'. split; [done|]. rewrite En.
    assert (count real L' = nnodes t) as Hn'.
    { rewrite Hn. unfold count. f_equal. apply Permutation_length in Hent. unfold entries in Hent.
      by rewrite !length_fmap in Hent. }
    split; [split; [split|]|]; cbn [funcs nnodes noccupied keys hashes values size mod_ with_counts with_arrays];
      [congruence| |done|by rewrite Hn'|by rewrite Hused, Hn'|by simpl; rewrite Eref| |].
    + exists s. split; [|done]. exact Hsh.
    + rewrite Hsz. lia.
    + split; [split_and!; [done|done|by simpl; rewrite Ever|by simpl; rewrite Eref]|].
      split; [done|]. simpl. rewrite Hsz. lia.
Qed.

(** g_hash_table_maybe_resize leaves an unused index. *)
Lemma maybe_resize_ok t L :
  table_holds cls f t L -> nnodes t < 2 ^ 29 ->
  exists t' L', g_hash_table_maybe_resize t = Some t' /\ table_ok cls f t' L' /\ same_entries t L t' L'.
Proof.
  intros Hok Hmax. unfold g_hash_table_maybe_resize.
  destruct (_ || _) eqn:Hb.
  { destruct (resize_ok t L Hok Hmax) as (t' & L' & H1 & H2 & H3 & _). by exists t', L'. }
  exists t, L. split; [done|]. split; [|by split_and!]. split; [done|].
  apply orb_false_iff in Hb as [_ Hb]. apply Z.leb_gt in Hb.
  destruct Hok as [_ (s & (Hs & Hsz & _) & Hpl) _ _ Ho _].
  pose proof (count_bounds used L) as Hc. rewrite (pl_length _ _ _ _ _ Hpl), <- Ho in Hc.
  assert (2 ^ s <= 2 ^ 30) by (apply Z.pow_le_mono_r; lia).
  assert (0 <= noccupied t ÷ 16 <= 2 ^ 26) as Hq.
  { rewrite Z.quot_div_nonneg by lia. split; [apply Z.div_pos; lia|]. apply Z.div_le_upper_bound; lia. }
  rewrite swrap_id in Hb by lia. lia.
Qed.
End keys.
