(* ===== verification/HashSpec.v ===== *)
(** The operations of the hash table of ghash.c on the finite map a table
    stands for. *)
From S2P Require Import Prelude Hash HashRep HashOps.

Open Scope c_scope.

Section keys.
Context {C : Type} `{EqDecision C, !Countable C} (cls : gpointer -> C) (f : functions) `{!KeyLaws f cls}.

Notation placed := (placed cls f).
Notation table_holds := (table_holds cls f).
Notation table_ok := (table_ok cls f).
Notation map_of := (map_of cls).

Definition tomb : cell := Cell 1 0 0.

(** A table with other arrays, of the same length, and counters. *)
Lemma holds_update t L i c c' ks vs n o :
  table_holds t L -> at_ L i = Some c ->
  (exists s, shaped t s /\ placed s (mod_ t) (<[Z.to_nat i := c']> L)) ->
  arrays_hold ks (<[Z.to_nat i := c_hash c']> (hashes t)) vs (<[Z.to_nat i := c']> L) ->
  n = nnodes t - Z.b2z (real c) + Z.b2z (real c') -> o = noccupied t - Z.b2z (used c) + Z.b2z (used c') ->
  table_holds (with_counts n o (with_arrays ks (<[Z.to_nat i := c_hash c']> (hashes t)) vs t)) (<[Z.to_nat i := c']> L).
Proof.
  intros [Hf _ Har Hn Ho Href0] Hc (s & Hsh & Hpl) Hnew -> ->. split; simpl; [done|by exists s|done| | |exact Href0].
  - rewrite Hn. by rewrite (count_insert _ L i c c' Hc).
  - rewrite Ho. by rewrite (count_insert _ L i c c' Hc).
Qed.

Lemma reads t L i c :
  table_holds t L -> at_ L i = Some c ->
  array_get (hashes t) i = Some (c_hash c) /\ array_get (keys t) i = Some (c_key c) /\
  array_get (values_of (keys t) (values t)) i = Some (c_value c).
Proof.
  intros [_ _ (Hh & Hk & Hv) _ _ _] Hc. by rewrite Hv, Hh, Hk, !array_get_fmap, Hc.
Qed.

Lemma array_set_hash t L i c h :
  table_holds t L -> at_ L i = Some c -> array_set (hashes t) i h = Some (<[Z.to_nat i := h]> (hashes t)).
Proof.
  intros [_ _ (Hh & _ & _) _ _ _] [Hi _]%at_Some. unfold array_set. rewrite Hh, length_fmap.
  by rewrite decide_True.
Qed.

(** g_hash_table_remove_node makes a tombstone. *)
Lemma remove_node_ok t L i c notify :
  table_ok t L -> at_ L i = Some c -> real c = true ->
  exists t', g_hash_table_remove_node t i notify =
      Some (t', if notify then destroy f (Some (c_key c)) (Some (c_value c)) else []) /\
    table_ok t' (<[Z.to_nat i := tomb]> L) /\
    map_of (<[Z.to_nat i := tomb]> L) = delete (cls (c_key c)) (map_of L) /\
    version t' = version t /\ ref_count t' = ref_count t /\ size t' = size t /\ nnodes t' = nnodes t - 1.
Proof.
  intros [Hok Hlt] Hc Hr. pose proof Hok as [Hf (s & Hsh & Hpl) Har Hn Ho Href0].
  destruct (reads t L i c Hok Hc) as (Rh & Rk & Rv). unfold g_hash_table_remove_node.
  rewrite Rk. cbn [mbind option_bind]. rewrite Rv. cbn [mbind option_bind].
  rewrite (array_set_hash t L i c _ Hok Hc). cbn [mbind option_bind].
  destruct (set_cell _ _ _ L i c tomb Har Hc) as (ks1 & ks' & vs' & Hk1 & Hv1 & Hnew & _); [done|].
  change (c_key tomb) with null in Hk1. rewrite Hk1. cbn [mbind option_bind].
  change (c_value tomb) with null in Hv1. rewrite Hv1. cbn [mbind option_bind].
  eexists. split; [by rewrite <- Hf|]. split; [split|].
  - apply (holds_update t L i c tomb); [done|done| |done|rewrite Hr; simpl; lia|rewrite (real_used _ Hr); simpl; lia].
    exists s. split; [done|]. by apply (placed_update cls f s (mod_ t) L i c tomb Hpl Hc).
  - simpl. done.
  - split_and!; [|done..]. by apply (map_of_drop cls f s (mod_ t) L i c tomb Hpl Hc).
Qed.

(** The map with a key and a value: [keep] tells whether a new key replaces one
    of its class. *)
Definition put (M : gmap C (gpointer * gpointer)) (keep : bool) (key value : gpointer) : gmap C (gpointer * gpointer) :=
  let k := match M !! cls key with Some (old, _) => if keep then key else old | None => key end in
  <[cls key := (k, value)]> M.

(** The events of a put. *)
Definition put_events (M : gmap C (gpointer * gpointer)) (keep reusing : bool) (key : gpointer) : list freed :=
  match M !! cls key with
  | Some (old, old_value) =>
      destroy f (if reusing then None else Some (if keep then old else key)) (Some old_value)
  | None => []
  end.

(** The stores of the key and the value, with the arrays made two if they were
    one and the value is not the key. *)
Lemma store_cell ks hs vs L i c d :
  arrays_hold ks hs vs L -> at_ L i = Some c ->
  exists ks1 ks' vs', array_set ks i (c_key d) = Some ks1 /\ array_get ks1 i = Some (c_key d) /\
    set_value ks1 (match vs with None => if negb (c_key d =? c_value d) then Some ks1 else None | Some l => Some l end)
      i (c_value d) = Some (ks', vs') /\
    arrays_hold ks' (<[Z.to_nat i := c_hash d]> hs) vs' (<[Z.to_nat i := d]> L).
Proof.
  intros Har Hc.
  assert (forall ks1, array_set ks i (c_key d) = Some ks1 -> array_get ks1 i = Some (c_key d)) as Hget.
  { destruct Har as (_ & -> & _). intros ks1. rewrite (array_set_fmap c_key L i c d Hc). intros [= <-].
    by rewrite array_get_fmap, at_insert, decide_True by (done || by apply at_Some in Hc as [? _]). }
  destruct vs as [vs|]; [|destruct (Z.eqb_spec (c_key d) (c_value d)) as [E|E]; simpl].
  - destruct (set_cell ks hs (Some vs) L i c d Har Hc) as (ks1 & ks' & vs' & H1 & H2 & H3 & _); [done|].
    exists ks1, ks', vs'. split_and!; auto.
  - destruct (set_cell ks hs None L i c d Har Hc) as (ks1 & ks' & vs' & H1 & H2 & H3 & _); [done|].
    exists ks1, ks', vs'. split_and!; auto.
  - destruct (unshare_cell ks hs L i c d Har Hc) as (ks1 & vs1 & H1 & H2 & H3).
    exists ks1, ks1, (Some vs1). split_and!; auto.
Qed.

(** g_hash_table_insert_node at an index that a search for the key has found. *)
Lemma insert_node_ok t L i s key value keep reusing :
  table_ok t L -> shaped t s -> placed s (mod_ t) L -> found cls f s (mod_ t) L key i -> nnodes t < 2 ^ 29 - 1 ->
  exists t' L', let M := map_of L in
    g_hash_table_insert_node t i (hash_value f key) key value keep reusing =
      Some (bool_decide (M !! cls key = None), t', put_events M keep reusing key) /\
    table_ok t' L' /\ map_of L' = put M keep key value /\ ref_count t' = ref_count t.
Proof.
  intros [Hok Hlt] Hsh Hpl Hfound Hmax. pose proof Hok as [Hf _ Har Hn Ho Href0].
  destruct (map_of_found cls f s (mod_ t) L key i Hpl Hfound) as (c & Hc & HM).
  destruct Hfound as (c' & Hc' & Hfd). assert (c' = c) as -> by congruence. clear Hc'.
  destruct (reads t L i c Hok Hc) as (Rh & Rk & Rv). unfold g_hash_table_insert_node, put, put_events.
  rewrite Rh. cbn [mbind option_bind]. rewrite Rv. cbn [mbind option_bind]. rewrite Rk. cbn [mbind option_bind].
  fold (real c). cbv zeta. rewrite HM.
  set (d := Cell (if real c then c_hash c else hash_value f key)
                 (if real c then if keep then key else c_key c else key) value).
  pose proof (hash_value_real f key) as Hhv.
  assert ((if real c then Some (hashes t) else array_set (hashes t) i (hash_value f key)) =
          Some (<[Z.to_nat i := c_hash d]> (hashes t))) as ->.
  { unfold d. destruct Har as (Hh & _ & _). destruct (real c); simpl; [|by rewrite (array_set_hash t L i c _ Hok Hc)].
    by rewrite Hh, (list_insert_same c_hash L i c). }
  assert ((if real c && negb keep then Some (keys t) else array_set (keys t) i key) =
          array_set (keys t) i (c_key d)) as ->.
  { unfold d. destruct (real c), keep; simpl; [done| |done..].
    destruct Har as (_ & -> & _). rewrite (array_set_fmap c_key L i c c Hc).
    rewrite list_fmap_insert. by rewrite (list_insert_same c_key L i c). }
  destruct (store_cell _ _ _ L i c d Har Hc) as (ks1 & ks' & vs' & H1 & H2 & H3 & Hnew).
  change (c_value d) with value in H3. cbn [mbind option_bind]. rewrite H1. cbn [mbind option_bind].
  rewrite H2. cbn [mbind option_bind]. rewrite H3. cbn [mbind option_bind].
  assert (real d = true) as Hrd.
  { unfold d. destruct (real c) eqn:Hr; [exact Hr|]. apply Z.leb_le. simpl. lia. }
  assert (fresh_or_same cls L c d) as Hfs.
  { unfold fresh_or_same, d. simpl. destruct (real c); [by destruct keep|apply Hfd]. }
  assert (placed s (mod_ t) (<[Z.to_nat i := d]> L)) as Hpl'.
  { apply (placed_update cls f s (mod_ t) L i c d Hpl Hc).
    - unfold real, HASH_IS_REAL in Hrd. apply Z.leb_le in Hrd. lia.
    - intros _. by apply real_used.
    - intros _. unfold d; simpl. destruct (real c) eqn:Hr; [|split; [done|]; split; [apply Hfd|exact Hfs]].
      destruct (pl_real _ _ _ _ _ Hpl i c Hc Hr) as [Hh ?]. split; [|done].
      rewrite Hh. apply (hash_value_cls cls f). by destruct keep. }
  assert (map_of (<[Z.to_nat i := d]> L) = <[cls key := (c_key d, value)]> (map_of L)) as Hmap.
  { rewrite (map_of_put cls f s (mod_ t) L i c d Hpl Hc Hrd Hfs). f_equal.
    unfold d; simpl. destruct (real c), keep; simpl; auto. }
  assert (forall n o, n = nnodes t - Z.b2z (real c) + 1 -> o = noccupied t - Z.b2z (used c) + 1 ->
    table_holds (with_counts n o (with_arrays ks' (<[Z.to_nat i := c_hash d]> (hashes t)) vs' t))
      (<[Z.to_nat i := d]> L)) as Hhold.
  { intros n o -> ->. apply (holds_update t L i c d); [done|done|by exists s|done|by rewrite Hrd|].
    by rewrite (real_used d Hrd). }
  destruct (real c) eqn:Hr; cbn [negb].
  - specialize (Hhold (nnodes t) (noccupied t)). rewrite (real_used c Hr) in Hhold.
    eexists _, _. split; [|split; [split; [apply Hhold; simpl; lia|exact Hlt]|]].
    + simpl. rewrite Hf. by destruct reusing, keep.
    + split; [|done]. rewrite Hmap. unfold d. simpl. by destruct keep.
  - assert (HASH_IS_UNUSED (c_hash c) = negb (used c)) as -> by (unfold used; by rewrite negb_involutive).
    destruct (used c); cbn [negb].
    + specialize (Hhold (nnodes t + 1) (noccupied t) ltac:(simpl; lia) ltac:(simpl; lia)).
      eexists _, _. split; [done|]. split; [split; [|exact Hlt]|].
      * destruct Hhold. by split.
      * split; [|done]. by rewrite Hmap.
    + specialize (Hhold (nnodes t + 1) (noccupied t + 1) ltac:(simpl; lia) ltac:(simpl; lia)).
      destruct (maybe_resize_ok cls f _ _ Hhold) as (t' & L' & Hrun & [Hok' Hlt'] & Hsame); [simpl; lia|].
      unfold with_counts, with_arrays in *. cbn [funcs size mod_ mask nnodes noccupied keys hashes values ref_count version] in *.
      rewrite Hrun. cbn [mbind option_bind]. eexists _, L'. split; [done|].
      assert (map_of L' = map_of (<[Z.to_nat i := d]> L)) as Hm.
      { apply (same_entries_map cls _ _ _ _ (pl_distinct _ _ _ _ _ Hpl') Hsame). }
      destruct Hsame as (_ & _ & _ & Href). split; [split|]; [by destruct Hok'; split|exact Hlt'|].
      split; [by rewrite Hm, Hmap|exact Href].
Qed.

(** * Reading operations *)

Lemma lookup_extended_ok t L key :
  table_ok t L -> g_hash_table_lookup_extended t key = Some (map_of L !! cls key).
Proof.
  intros Hok. destruct (lookup_node_ok cls f t L key Hok) as (i & s & Hsh & Hpl & Hrun & Hfound).
  destruct (map_of_found cls f s (mod_ t) L key i Hpl Hfound) as (c & Hc & HM).
  destruct (reads t L i c (proj1 Hok) Hc) as (Rh & Rk & Rv). unfold g_hash_table_lookup_extended.
  rewrite Hrun. cbn [mbind option_bind]. rewrite Rh. cbn [mbind option_bind]. fold (real c). rewrite HM.
  destruct (real c); cbn [negb]; [|done]. rewrite Rk. cbn [mbind option_bind]. by rewrite Rv.
Qed.

(** The other lookups, by the same search. *)
Lemma lookup_ok t L key :
  table_ok t L ->
  g_hash_table_lookup t key = Some (from_option snd null (map_of L !! cls key)) /\
  g_hash_table_contains t key = Some (bool_decide (map_of L !! cls key <> None)).
Proof.
  intros Hok. pose proof (lookup_extended_ok t L key Hok) as He.
  unfold g_hash_table_lookup_extended in He. unfold g_hash_table_lookup, g_hash_table_contains.
  destruct (g_hash_table_lookup_node t key) as [[i hv]|]; [|done]. cbn [mbind option_bind] in *.
  destruct (array_get (hashes t) i) as [h|]; [|done]. cbn [mbind option_bind] in *.
  destruct (HASH_IS_REAL h); cbn [negb] in He.
  - destruct (array_get (keys t) i) as [k|]; [|done]. cbn [mbind option_bind] in He.
    destruct (array_get (values_of _ _) i) as [v|]; [|done]. injection He as <-. done.
  - injection He as <-. done.
Qed.

Lemma size_ok t L : table_ok t L -> nnodes t < 2 ^ 29 -> g_hash_table_size t = Z.of_nat (base.size (map_of L)).
Proof.
  intros [[_ (s & _ & Hpl) _ Hn _ _] _] Hmax. rewrite (map_of_size cls f s (mod_ t) L Hpl), <- Hn.
  apply wrap_id. unfold in_u. pose proof (count_bounds real L). lia.
Qed.

(** * Removing *)

Lemma remove_ok t L key notify :
  table_ok t L -> nnodes t < 2 ^ 29 ->
  exists t' L', table_ok t' L' /\ ref_count t' = ref_count t /\
    match map_of L !! cls key with
    | Some (k, v) =>
        g_hash_table_remove_internal t key notify =
          Some (true, t', if notify then destroy f (Some k) (Some v) else []) /\
        map_of L' = delete (cls key) (map_of L)
    | None => g_hash_table_remove_internal t key notify = Some (false, t', []) /\ map_of L' = map_of L
    end.
Proof.
  intros Hok Hmax. destruct (lookup_node_ok cls f t L key Hok) as (i & s & Hsh & Hpl & Hrun & Hfound).
  destruct (map_of_found cls f s (mod_ t) L key i Hpl Hfound) as (c & Hc & HM).
  destruct (reads t L i c (proj1 Hok) Hc) as (Rh & _). unfold g_hash_table_remove_internal.
  rewrite Hrun. cbn [mbind option_bind]. rewrite Rh. cbn [mbind option_bind]. fold (real c). rewrite HM.
  destruct (real c) eqn:Hr; cbn [negb]; [|by exists t, L].
  destruct (remove_node_ok t L i c notify Hok Hc Hr) as (t1 & -> & [Hok1 Hlt1] & Hmap & _ & Href & _ & Hn1).
  cbn [mbind option_bind].
  destruct (maybe_resize_ok cls f t1 _ Hok1) as (t2 & L2 & -> & [Hok2 Hlt2] & Hsame); [lia|].
  cbn [mbind option_bind]. exists (with_version (s32 (version t2 + 1)) t2), L2.
  assert (map_of L2 = map_of (<[Z.to_nat i := tomb]> L)) as Hm.
  { destruct Hok1 as [_ (s1 & _ & Hpl1) _ _ _ _].
    apply (same_entries_map cls _ _ _ _ (pl_distinct _ _ _ _ _ Hpl1) Hsame). }
  split; [split; [by destruct Hok2; split|exact Hlt2]|]. destruct Hsame as (_ & _ & _ & Href2).
  split; [simpl; congruence|]. split; [done|]. rewrite Hm, Hmap. f_equal.
  destruct Hfound as (c' & Hc' & Hcls). assert (c' = c) as -> by congruence. by rewrite Hr in Hcls.
Qed.

(** The events of the destruction of entries. *)
Definition destroy_pairs (l : list (gpointer * gpointer)) : list freed :=
  l ≫= fun '(k, v) => destroy f (Some k) (Some v).

Lemma destroy_all_ok t L : table_ok t L ->
  destroy_all f (hashes t) (keys t) (values_of (keys t) (values t)) = destroy_pairs (entries L).
Proof.
  intros [[_ _ (-> & -> & ->) _ _ _] _]. unfold destroy_all, destroy_pairs, entries.
  induction L as [|c L IH]; [done|]. rewrite !fmap_cons. cbn [zip_with]. rewrite bind_cons, IH.
  cbn [List.filter]. unfold real at 2. by destruct (HASH_IS_REAL (c_hash c)); rewrite ?fmap_cons, ?bind_cons.
Qed.

Lemma entries_map t L : table_ok t L -> (map_to_list (map_of L)).*2 ≡ₚ entries L.
Proof.
  intros [[_ (s & _ & Hpl) _ _ _ _] _]. unfold map_of.
  rewrite map_to_list_to_map by (rewrite fst_classes; apply (pl_distinct _ _ _ _ _ Hpl)).
  rewrite <- list_fmap_compose. by rewrite list_fmap_id.
Qed.

Lemma blank_table t s (vs : option (list gpointer)) md :
  3 <= s <= 30 -> 0 < md <= 2 ^ s -> size t = 2 ^ s -> mask t = 2 ^ s - 1 -> mod_ t = md -> funcs t = f ->
  nnodes t = 0 -> noccupied t = 0 -> 0 < ref_count t -> keys t = zeros (2 ^ s) -> hashes t = zeros (2 ^ s) ->
  values t = (fun _ => zeros (2 ^ s)) <$> vs ->
  table_ok t (blanks (2 ^ s)).
Proof.
  intros Hs Hmd Hsz Hmask <- Hf Hn Ho Href Hk Hh Hv. split.
  - split; [done| | |rewrite Hn|rewrite Ho|exact Href]; [| |unfold count; by rewrite filter_blanks..].
    + exists s. split; [unfold shaped; lia|]. apply placed_blanks. lia.
    + rewrite Hk, Hh, Hv. apply (arrays_hold_blanks (2 ^ s) vs).
  - rewrite Ho, Hsz. lia.
Qed.

Lemma map_of_blanks n : map_of (blanks n) = ∅.
Proof. unfold map_of, entries. by rewrite filter_blanks. Qed.

Lemma remove_all_nodes_ok t L notify :
  table_ok t L ->
  exists t' L', table_ok t' L' /\ map_of L' = ∅ /\ ref_count t' = ref_count t /\ nnodes t' = 0 /\
    g_hash_table_remove_all_nodes t notify false =
      Some (t', if notify then destroy_pairs (entries L) else []).
Proof.
  intros Hok. pose proof Hok as [[Hf (s & Hsh & Hpl) Har Hn Ho Href0] Hlt]. pose proof Hsh as (Hs & Hsz & Hmd & Hmask).
  unfold g_hash_table_remove_all_nodes. destruct (Z.eqb_spec (nnodes t) 0) as [E|E].
  { assert (entries L = []) as He.
    { rewrite Hn in E. unfold count in E. unfold entries. destruct (List.filter real L); [done|simpl in E; lia]. }
    exists t, L. rewrite He. unfold map_of. rewrite He. split_and!; [done..|]. by destruct notify. }
  destruct (negb notify || _) eqn:Hb; cbn [negb].
  - exists (with_arrays (zeros (size t)) (zeros (size t)) ((fun _ => zeros (size t)) <$> values t) (with_counts 0 0 t)),
      (blanks (2 ^ s)).
    split; [|split; [apply map_of_blanks|]].
    + apply (blank_table _ s (values t) (mod_ t)); simpl; rewrite ?Hsz; done || lia.
    + split_and!; [done..|]. cbn [funcs with_counts] in Hb. rewrite Hf in Hb. f_equal. f_equal. destruct notify; [|done]. simpl in Hb.
      apply negb_true_iff, orb_false_iff in Hb as [E1 E2]. symmetry. unfold destroy_pairs, destroy. rewrite E1, E2.
      generalize (entries L). intros l. induction l as [|[k v] l IH]; [done|]. exact IH.
  - destruct (set_shift_ok (with_counts 0 0 t) HASH_TABLE_MIN_SHIFT) as (t1 & -> & Hsh1 & Heq); [done|].
    cbn [mbind option_bind]. pose proof Hsh1 as (Hs1 & Hsz1 & Hmd1 & Hmask1).
    exists (with_arrays (zeros (size t1)) (zeros (size t1)) None t1), (blanks (2 ^ 3)).
    assert (nnodes t1 = 0 /\ noccupied t1 = 0 /\ ref_count t1 = ref_count t /\ funcs t1 = f) as (En & Eo & Er & Ef).
    { by rewrite Heq. }
    split; [|split; [apply map_of_blanks|]].
    + apply (blank_table _ 3 None (mod_ t1)); simpl; rewrite ?Hsz1; done || lia.
    + split_and!; [done|done|]. do 2 f_equal. destruct notify; [|done]. simpl in *.
      by rewrite Hf, (destroy_all_ok t L Hok).
Qed.
End keys.
