(* ===== verification/HashLoops.v ===== *)
(** The traversals of the hash table of ghash.c: foreach, find, the lists of
    keys and values, removal while traversing, and iterators. *)
From S2P Require Import Prelude Hash HashRep HashOps HashSpec.

Open Scope c_scope.

Section keys.
Context {C : Type} `{EqDecision C, !Countable C} (cls : gpointer -> C) (f : functions) `{!KeyLaws f cls}.

Notation table_holds := (table_holds cls f).
Notation table_ok := (table_ok cls f).
Notation map_of := (map_of cls).

Lemma at_mid (L1 : list cell) c L2 : at_ (L1 ++ c :: L2) (Z.of_nat (length L1)) = Some c.
Proof.
  unfold at_. destruct (Z.ltb_spec (Z.of_nat (length L1)) 0); [lia|]. rewrite Nat2Z.id. apply lookup_app_mid.
Qed.

Lemma node_at_ok t L1 c L2 :
  table_holds t (L1 ++ c :: L2) ->
  node_at t (Z.of_nat (length L1)) = Some (if real c then Some (pair_of c) else None).
Proof.
  intros H. destruct (reads cls f t _ _ c H (at_mid L1 c L2)) as (Rh & Rk & Rv). unfold node_at.
  rewrite Rh. cbn [mbind option_bind]. rewrite Rk. cbn [mbind option_bind]. by rewrite Rv.
Qed.

Lemma entries_cons c L : entries (c :: L) = (if real c then [pair_of c] else []) ++ entries L.
Proof. unfold entries. simpl. by destruct (real c). Qed.

(** The indices that are left, when the cells [L1] are done. *)
Definition rest_of (L1 L2 : list cell) : list Z := seqZ (Z.of_nat (length L1)) (Z.of_nat (length L2)).

Lemma rest_of_cons L1 c L2 :
  rest_of L1 (c :: L2) = Z.of_nat (length L1) :: rest_of (L1 ++ [c]) L2.
Proof.
  unfold rest_of. cbn [length]. rewrite seqZ_cons by lia. f_equal. rewrite length_app. cbn [length].
  f_equal; lia.
Qed.

Lemma all_indices t L : table_holds t L -> seqZ 0 (size t) = rest_of [] L.
Proof.
  intros [_ (s & (_ & Hsz & _) & Hpl) _ _ _ _]. unfold rest_of.
  by rewrite (pl_length _ _ _ _ _ Hpl), <- Hsz.
Qed.

(** ** Reading traversals *)

Lemma foreach_loop_ok t L1 L2 :
  table_holds t (L1 ++ L2) -> foreach_loop t (rest_of L1 L2) = Some (entries L2).
Proof.
  revert L1. induction L2 as [|c L2 IH]; intros L1 H; [done|].
  rewrite rest_of_cons. cbn [foreach_loop]. rewrite (node_at_ok t L1 c L2 H). cbn [mbind option_bind].
  rewrite (IH (L1 ++ [c])) by (by rewrite <- app_assoc). cbn [mbind option_bind]. rewrite entries_cons.
  by destruct (real c).
Qed.

Lemma prepend_loop_ok t pick L1 L2 acc :
  table_holds t (L1 ++ L2) ->
  prepend_loop t pick (rest_of L1 L2) acc = Some (reverse (pick <$> entries L2) ++ acc).
Proof.
  revert L1 acc. induction L2 as [|c L2 IH]; intros L1 acc H; [done|].
  rewrite rest_of_cons. cbn [prepend_loop]. rewrite (node_at_ok t L1 c L2 H). cbn [mbind option_bind].
  rewrite (IH (L1 ++ [c])) by (by rewrite <- app_assoc). rewrite entries_cons.
  destruct (real c); simpl; [|done]. by rewrite reverse_cons, <- app_assoc.
Qed.

Lemma find_loop_ok t p L1 L2 :
  table_holds t (L1 ++ L2) ->
  find_loop t p (rest_of L1 L2) = Some (from_option snd null (List.find (fun kv => p kv.1 kv.2) (entries L2))).
Proof.
  revert L1. induction L2 as [|c L2 IH]; intros L1 H; [done|].
  rewrite rest_of_cons. cbn [find_loop]. rewrite (node_at_ok t L1 c L2 H). cbn [mbind option_bind].
  rewrite (IH (L1 ++ [c])) by (by rewrite <- app_assoc). rewrite entries_cons.
  destruct (real c); simpl; [|done]. by destruct (p _ _).
Qed.

(** ** Removing while traversing *)

Section remove.
Context (p : gpointer -> gpointer -> bool) (notify : bool).

Definition chosen (kv : gpointer * gpointer) : bool := p kv.1 kv.2.
Definition selected (c : cell) : bool := real c && chosen (pair_of c).
Definition sweep (L : list cell) : list cell := (fun c => if selected c then tomb else c) <$> L.

Lemma entries_sweep L : entries (sweep L) = List.filter (fun kv => negb (chosen kv)) (entries L).
Proof.
  induction L as [|c L IH]; [done|]. unfold sweep. rewrite fmap_cons, !entries_cons. fold (sweep L).
  rewrite IH, List.filter_app. f_equal. unfold selected. destruct (real c) eqn:Hr; simpl; [|by rewrite Hr].
  destruct (chosen _); simpl; [done|by rewrite Hr].
Qed.

Lemma foreach_remove_loop_ok t L1 L2 deleted :
  table_ok t (L1 ++ L2) -> 0 <= deleted -> deleted + count real L2 < 2 ^ 32 ->
  exists t', foreach_remove_loop p notify (rest_of L1 L2) t deleted =
      Some (t', deleted + Z.of_nat (length (List.filter chosen (entries L2))),
            if notify then destroy_pairs f (List.filter chosen (entries L2)) else []) /\
    table_ok t' (L1 ++ sweep L2) /\ ref_count t' = ref_count t /\ nnodes t' <= nnodes t.
Proof.
  revert t L1 deleted. induction L2 as [|c L2 IH]; intros t L1 deleted H H0 Hmax.
  { exists t. simpl. rewrite Z.add_0_r. split_and!; [by destruct notify|done|done|lia]. }
  rewrite rest_of_cons. cbn [foreach_remove_loop]. rewrite (node_at_ok t L1 c L2 (proj1 H)). cbn [mbind option_bind].
  assert (from_option (fun '(k, v) => p k v) false (if real c then Some (pair_of c) else None) = selected c) as ->
    by (unfold selected; by destruct (real c)).
  rewrite entries_cons, List.filter_app.
  assert (count real (c :: L2) = Z.b2z (real c) + count real L2) as Hcount.
  { unfold count. simpl. destruct (real c); simpl; lia. }
  pose proof (count_bounds real L2) as Hb.
  unfold selected. destruct (real c) eqn:Hr; simpl; [destruct (chosen (pair_of c)) eqn:Hch|].
  - destruct (remove_node_ok cls f t _ _ c notify H (at_mid L1 c L2) Hr) as (t1 & -> & Hok1 & _ & _ & Href & _ & Hn).
    cbn [mbind option_bind]. rewrite wrap_id by (unfold in_u; simpl in Hcount; lia).
    rewrite Nat2Z.id in Hok1. rewrite insert_app_r_alt, Nat.sub_diag in Hok1 by done. simpl in Hok1.
    destruct (IH t1 (L1 ++ [tomb]) (deleted + 1)) as (t2 & Hrun & Hok2 & Href2 & Hn2).
    { by rewrite <- app_assoc. } { lia. } { simpl in Hcount. lia. }
    exists t2. assert (rest_of (L1 ++ [c]) L2 = rest_of (L1 ++ [tomb]) L2) as ->
      by (unfold rest_of; by rewrite !length_app).
    rewrite Hrun. cbn [mbind option_bind]. rewrite <- app_assoc in Hok2. simpl. unfold selected.
    rewrite Hr, Hch. split_and!; [|done|congruence|lia]. do 2 f_equal; [f_equal; lia|].
    by destruct notify.
  - destruct (IH t (L1 ++ [c]) deleted) as (t2 & Hrun & Hok2 & Href2 & Hn2); [by rewrite <- app_assoc|lia|simpl in Hcount; lia|].
    exists t2. rewrite <- app_assoc in Hok2. simpl. unfold selected. rewrite Hr, Hch. split_and!; [exact Hrun|done..].
  - destruct (IH t (L1 ++ [c]) deleted) as (t2 & Hrun & Hok2 & Href2 & Hn2); [by rewrite <- app_assoc|lia|simpl in Hcount; lia|].
    exists t2. rewrite <- app_assoc in Hok2. simpl. unfold selected. rewrite Hr. split_and!; [exact Hrun|done..].
Qed.

(** The map without the chosen entries. *)
Lemma map_of_sweep t L :
  table_ok t L -> table_ok t (sweep L) \/ (exists t', table_ok t' (sweep L)) ->
  map_of (sweep L) = filter (fun '(_, kv) => chosen kv = false) (map_of L).
Proof.
  intros [[_ (s & _ & Hpl) _ _ _ _] _] Hok'.
  assert (exists s' md, placed cls f s' md (sweep L)) as (s' & md & Hpl').
  { destruct Hok' as [[[_ (s' & _ & ?) _ _ _ _] _] | [t' [[_ (s' & _ & ?) _ _ _ _] _]]]; eauto. }
  apply map_eq. intros k. apply option_eq. intros kv.
  rewrite map_lookup_filter_Some, (elem_of_map_of cls f s' md (sweep L)), (elem_of_map_of cls f s (mod_ t) L) by done.
  rewrite entries_sweep, list_elem_of_In, filter_In, <- list_elem_of_In, negb_true_iff. naive_solver.
Qed.

Lemma foreach_remove_ok t L :
  table_ok t L -> nnodes t < 2 ^ 29 ->
  exists t' L', table_ok t' L' /\ ref_count t' = ref_count t /\
    map_of L' = filter (fun '(_, kv) => chosen kv = false) (map_of L) /\
    g_hash_table_foreach_remove_or_steal t p notify =
      Some (Z.of_nat (length (List.filter chosen (entries L))), t',
            if notify then destroy_pairs f (List.filter chosen (entries L)) else []).
Proof.
  intros Hok Hmax. unfold g_hash_table_foreach_remove_or_steal. rewrite (all_indices t L (proj1 Hok)).
  pose proof Hok as [[_ _ _ Hn _ _] _].
  destruct (foreach_remove_loop_ok t [] L 0 Hok) as (t1 & -> & Hok1 & Href & Hn1); [done|lia|].
  cbn [mbind option_bind]. simpl app in Hok1.
  destruct (maybe_resize_ok cls f t1 _ (proj1 Hok1)) as (t2 & L2 & -> & [Hok2 Hlt2] & Hsame); [lia|].
  cbn [mbind option_bind].
  exists (if 0 <? 0 + Z.of_nat (length (List.filter chosen (entries L))) then with_version (s32 (version t2 + 1)) t2 else t2), L2.
  pose proof Hsame as (_ & _ & _ & Href2). split_and!; [| | |done].
  - destruct (0 <? _); [|by split]. split; [by destruct Hok2; split|exact Hlt2].
  - destruct (0 <? _); simpl; congruence.
  - rewrite <- (map_of_sweep t L Hok) by eauto. destruct Hok1 as [[_ (s & _ & Hpl) _ _ _ _] _].
    apply (same_entries_map cls _ _ _ _ (pl_distinct _ _ _ _ _ Hpl) Hsame).
Qed.

(** ** Iterators *)

Lemma iter_seek_ok t L1 L2 fuel :
  table_holds t (L1 ++ L2) -> (length L2 < fuel)%nat ->
  (entries L2 = [] /\ iter_seek fuel t (Z.of_nat (length L1) - 1) = Some (size t, None)) \/
  (exists L3 c L4, L2 = L3 ++ c :: L4 /\ real c = true /\ entries L3 = [] /\
     iter_seek fuel t (Z.of_nat (length L1) - 1) = Some (Z.of_nat (length (L1 ++ L3)), Some (pair_of c))).
Proof.
  revert L1 fuel. induction L2 as [|c L2 IH]; intros L1 [|fuel] H Hf; simpl in Hf; try lia.
  - left. split; [done|]. cbn [iter_seek]. rewrite Z.sub_add. rewrite app_nil_r in H.
    destruct H as [_ (s & (_ & Hsz & _) & Hpl) _ _ _ _]. rewrite (pl_length _ _ _ _ _ Hpl), <- Hsz.
    by rewrite Z.leb_refl.
  - cbn [iter_seek]. rewrite Z.sub_add. destruct (Z.leb_spec (size t) (Z.of_nat (length L1))) as [Hle|_].
    { destruct H as [_ (s & (_ & Hsz & _) & Hpl) _ _ _ _]. pose proof (pl_length _ _ _ _ _ Hpl) as Hl.
      rewrite length_app in Hl. simpl in Hl. lia. }
    rewrite (node_at_ok t L1 c L2 H). cbn [mbind option_bind]. destruct (real c) eqn:Hr.
    + right. exists [], c, L2. split_and!; [done..|by rewrite app_nil_r].
    + rewrite entries_cons, Hr. simpl app at 1 2.
      replace (Z.of_nat (length L1)) with (Z.of_nat (length (L1 ++ [c])) - 1) by (rewrite length_app; simpl; lia).
      destruct (IH (L1 ++ [c]) fuel) as [[He Hrun] | (L3 & d & L4 & -> & Hd & He & Hrun)];
        [by rewrite <- app_assoc|lia|by left|].
      right. exists (c :: L3), d, L4. split_and!; [done..|by rewrite entries_cons, Hr, He|].
      rewrite Hrun. by rewrite <- app_assoc.
Qed.

(** A client that visits the entries with an iterator, and removes the chosen
    ones through it. *)
Fixpoint iter_loop (fuel : nat) (t : GHashTable) (ri : RealIter) :
    option (GHashTable * list (gpointer * gpointer) * list freed) :=
  match fuel with
  | O => None
  | S fuel =>
      '(ri, node) ← g_hash_table_iter_next t ri;
      match node with
      | None => Some (t, [], [])
      | Some kv =>
          '(t, ri, events) ← (if chosen kv then iter_remove_or_steal t ri notify else Some (t, ri, []));
          '(t, visited, events') ← iter_loop fuel t ri;
          Some (t, kv :: visited, events ++ events')
      end
  end.

Lemma sweep_app l1 l2 : sweep (l1 ++ l2) = sweep l1 ++ sweep l2.
Proof. apply fmap_app. Qed.

Lemma sweep_none L : entries L = [] -> sweep L = L.
Proof.
  induction L as [|c L IH]; [done|]. rewrite entries_cons. unfold sweep. rewrite fmap_cons.
  unfold selected. destruct (real c); [done|]. intros H. f_equal. by apply IH.
Qed.

Lemma iter_loop_ok fuel t L1 L2 ri :
  table_ok t (L1 ++ L2) -> (length L2 < fuel)%nat ->
  iter_version ri = version t -> position ri = Z.of_nat (length L1) - 1 ->
  exists t', iter_loop fuel t ri =
      Some (t', entries L2, if notify then destroy_pairs f (List.filter chosen (entries L2)) else []) /\
    table_ok t' (L1 ++ sweep L2).
Proof.
  revert t L1 L2 ri. induction fuel as [|fuel IH]; intros t L1 L2 ri Hok Hf Hver Hpos; [lia|].
  cbn [iter_loop]. unfold g_hash_table_iter_next. rewrite bool_decide_true by done.
  pose proof Hok as [Hh _]. pose proof Hh as [_ (s & (_ & Hsz & _) & Hpl) _ _ _ _].
  pose proof (pl_length _ _ _ _ _ Hpl) as Hl. rewrite length_app in Hl.
  destruct (Z.ltb_spec (position ri) (size t)); [|lia]. simpl andb. cbv match.
  rewrite Hpos in *.
  destruct (iter_seek_ok t L1 L2 (Z.to_nat (size t - (Z.of_nat (length L1) - 1))) Hh)
    as [[He Hrun] | (L3 & c & L4 & -> & Hr & He & Hrun)]; [lia| |]; rewrite Hrun; cbn [mbind option_bind].
  - rewrite He, (sweep_none L2 He). exists t. by destruct notify.
  - rewrite entries_app, entries_cons, Hr, He, sweep_app, (sweep_none L3 He). simpl app.
    rewrite app_assoc in Hok.
    destruct (chosen (pair_of c)) eqn:Hch.
    + unfold iter_remove_or_steal, iter_ok. cbn [iter_version position]. rewrite bool_decide_true by done.
      rewrite length_app in Hl. simpl in Hl.
      destruct (Z.leb_spec 0 (Z.of_nat (length (L1 ++ L3)))); [|lia].
      destruct (Z.ltb_spec (Z.of_nat (length (L1 ++ L3))) (size t)); [|rewrite length_app in *; lia].
      simpl andb. cbv match.
      destruct (remove_node_ok cls f t _ _ c notify Hok (at_mid (L1 ++ L3) c L4) Hr)
        as (t1 & -> & [Hok1 Hlt1] & _ & Hver1 & _). cbn [mbind option_bind].
      rewrite Nat2Z.id, insert_app_r_alt, Nat.sub_diag in Hok1 by done. simpl in Hok1.
      destruct (IH (with_version (s32 (version t1 + 1)) t1) ((L1 ++ L3) ++ [tomb]) L4
        (MkIter (Z.of_nat (length (L1 ++ L3))) (s32 (iter_version ri + 1)))) as (t2 & Hrun2 & Hok2).
      { rewrite <- app_assoc. split; [by destruct Hok1; split|exact Hlt1]. }
      { rewrite length_app in Hf. simpl in Hf. lia. }
      { simpl. congruence. }
      { rewrite (length_app _ [tomb]). simpl. lia. }
      rewrite Hrun2. cbn [mbind option_bind]. exists t2. split.
      * simpl. rewrite Hch. by destruct notify.
      * change (sweep (c :: L4)) with ((if selected c then tomb else c) :: sweep L4).
        unfold selected at 1. rewrite Hr, Hch. cbn [andb]. by rewrite <- !app_assoc in Hok2.
    + destruct (IH t ((L1 ++ L3) ++ [c]) L4 (MkIter (Z.of_nat (length (L1 ++ L3))) (iter_version ri)))
        as (t2 & Hrun2 & Hok2).
      { by rewrite <- app_assoc. }
      { rewrite length_app in Hf. simpl in Hf. lia. }
      { done. }
      { rewrite (length_app _ [c]). simpl. lia. }
      cbn [mbind option_bind]. rewrite Hrun2. cbn [mbind option_bind]. exists t2. split.
      * simpl. by rewrite Hch.
      * change (sweep (c :: L4)) with ((if selected c then tomb else c) :: sweep L4).
        unfold selected at 1. rewrite Hr, Hch. cbn [andb]. by rewrite <- !app_assoc in Hok2.
Qed.
End remove.
End keys.
