(* ===== verification/HashScript.v ===== *)
(** The contract of the hash table of ghash.c: it implements a finite map from
    classes of keys to the stored key and value, and calls the destroy functions
    once for everything it gives up. *)
From S2P Require Import Prelude Hash HashRep HashOps HashSpec HashLoops.

Open Scope c_scope.

(** * Scripts *)

(** The calls of a client. *)
Inductive hop :=
| HInsert (key value : gpointer) | HReplace (key value : gpointer) | HAdd (key : gpointer)
| HRemove (key : gpointer) | HSteal (key : gpointer)
| HLookup (key : gpointer) | HLookupExtended (key : gpointer) | HContains (key : gpointer) | HSize
| HRemoveAll | HStealAll
| HForeachRemove (func : gpointer -> gpointer -> bool) | HForeachSteal (func : gpointer -> gpointer -> bool).

Inductive hres :=
| RBool (b : bool) | RPtr (p : gpointer) | RPair (kv : option (gpointer * gpointer)) | RNum (n : Z) | RUnit.

Definition run_op (t : GHashTable) (op : hop) : option (hres * GHashTable * list freed) :=
  let bool_op r := '(b, t, ev) ← r; Some (RBool b, t, ev) in
  let num_op r := '(n, t, ev) ← r; Some (RNum n, t, ev) in
  let unit_op r := '(t, ev) ← r; Some (RUnit, t, ev) in
  match op with
  | HInsert k v => bool_op (g_hash_table_insert t k v)
  | HReplace k v => bool_op (g_hash_table_replace t k v)
  | HAdd k => bool_op (g_hash_table_add t k)
  | HRemove k => bool_op (g_hash_table_remove t k)
  | HSteal k => bool_op (g_hash_table_steal t k)
  | HLookup k => v ← g_hash_table_lookup t k; Some (RPtr v, t, [])
  | HLookupExtended k => kv ← g_hash_table_lookup_extended t k; Some (RPair kv, t, [])
  | HContains k => b ← g_hash_table_contains t k; Some (RBool b, t, [])
  | HSize => Some (RNum (g_hash_table_size t), t, [])
  | HRemoveAll => unit_op (g_hash_table_remove_all t)
  | HStealAll => unit_op (g_hash_table_steal_all t)
  | HForeachRemove p => num_op (g_hash_table_foreach_remove t p)
  | HForeachSteal p => num_op (g_hash_table_foreach_steal t p)
  end.

Fixpoint run_ops (t : GHashTable) (ops : list hop) : option (list hres * GHashTable * list freed) :=
  match ops with
  | [] => Some ([], t, [])
  | op :: ops =>
      '(r, t, ev) ← run_op t op;
      '(rs, t, ev') ← run_ops t ops;
      Some (r :: rs, t, ev ++ ev')
  end.

(** Filtering, destroying and owning respect permutations. *)
#[export] Instance filter_perm {A} (p : A -> bool) : Proper (Permutation ==> Permutation) (List.filter p).
Proof.
  intros l l'. induction 1 as [|x l l' _ IH|x y l|l1 l2 l3 _ IH1 _ IH2]; simpl; [done| | |by rewrite IH1].
  - destruct (p x); by rewrite IH.
  - destruct (p x), (p y); try done. constructor.
Qed.

#[export] Instance destroy_pairs_perm f : Proper (Permutation ==> Permutation) (destroy_pairs f).
Proof. intros l l' E. unfold destroy_pairs. by rewrite E. Qed.

(** The keys and values of entries, as they are given up. *)
Definition owned (l : list (gpointer * gpointer)) : list freed := l ≫= fun '(k, v) => [FreeKey k; FreeValue v].

#[export] Instance owned_perm : Proper (Permutation ==> Permutation) owned.
Proof. intros l l' E. unfold owned. by rewrite E. Qed.

Lemma owned_app l l' : owned (l ++ l') = owned l ++ owned l'.
Proof. apply bind_app. Qed.

Section keys.
Context {C : Type} `{EqDecision C, !Countable C} (cls : gpointer -> C) (f : functions) `{!KeyLaws f cls}.

Notation table_ok := (table_ok cls f).
Notation map_of := (map_of cls).
Abbreviation state := (gmap C (gpointer * gpointer)).

(** * The specification *)

Definition pairs (M : state) : list (gpointer * gpointer) := (map_to_list M).*2.
Definition without (p : gpointer -> gpointer -> bool) (M : state) : state :=
  filter (fun '(_, kv) => chosen p kv = false) M.
Definition selection (p : gpointer -> gpointer -> bool) (M : state) : list (gpointer * gpointer) :=
  List.filter (chosen p) (pairs M).

Definition spec_remove (M : state) (k : gpointer) (notify : bool) : hres * state * list freed :=
  match M !! cls k with
  | Some (k', v) => (RBool true, delete (cls k) M, if notify then destroy f (Some k') (Some v) else [])
  | None => (RBool false, M, [])
  end.

Definition spec_put (M : state) (keep : bool) (k v : gpointer) : hres * state * list freed :=
  (RBool (bool_decide (M !! cls k = None)), put cls M keep k v, put_events cls f M keep false k).

Definition spec_foreach (M : state) (p : gpointer -> gpointer -> bool) (notify : bool) : hres * state * list freed :=
  (RNum (Z.of_nat (length (selection p M))), without p M,
   if notify then destroy_pairs f (selection p M) else []).

Definition spec_op (M : state) (op : hop) : hres * state * list freed :=
  match op with
  | HInsert k v => spec_put M false k v
  | HReplace k v => spec_put M true k v
  | HAdd k => spec_put M true k k
  | HRemove k => spec_remove M k true
  | HSteal k => spec_remove M k false
  | HLookup k => (RPtr (from_option snd null (M !! cls k)), M, [])
  | HLookupExtended k => (RPair (M !! cls k), M, [])
  | HContains k => (RBool (bool_decide (M !! cls k <> None)), M, [])
  | HSize => (RNum (Z.of_nat (base.size M)), M, [])
  | HRemoveAll => (RUnit, ∅, destroy_pairs f (pairs M))
  | HStealAll => (RUnit, ∅, [])
  | HForeachRemove p => spec_foreach M p true
  | HForeachSteal p => spec_foreach M p false
  end.

Fixpoint spec_ops (M : state) (ops : list hop) : list hres * state * list freed :=
  match ops with
  | [] => ([], M, [])
  | op :: ops =>
      let '(r, M, ev) := spec_op M op in
      let '(rs, M, ev') := spec_ops M ops in
      (r :: rs, M, ev ++ ev')
  end.

(** * Every operation implements it *)

(** A table that stands for a map. *)
Definition stands_for (t : GHashTable) (M : state) : Prop := exists L, table_ok t L /\ map_of L = M.

(** The arrays of a table hold a map; it may be that no index is unused. *)
Definition holds_map (t : GHashTable) (M : state) : Prop := exists L, table_holds cls f t L /\ map_of L = M.

(** An operation that gives [res] on the table does what [spec] says. *)
Definition implements (res : option (hres * GHashTable * list freed)) (spec : hres * state * list freed)
    (refs : Z) : Prop :=
  exists t' ev, res = Some (spec.1.1, t', ev) /\ stands_for t' spec.1.2 /\ ev ≡ₚ spec.2 /\ ref_count t' = refs.

Lemma nnodes_size t L : table_ok t L -> nnodes t = Z.of_nat (base.size (map_of L)).
Proof.
  intros [[_ (s & _ & Hpl) _ Hn _ _] _]. by rewrite (map_of_size cls f s (mod_ t) L Hpl).
Qed.

Lemma insert_ok t L k v keep :
  table_ok t L -> Z.of_nat (base.size (map_of L)) < 2 ^ 29 - 1 ->
  implements ('(b, t, ev) ← g_hash_table_insert_internal t k v keep; Some (RBool b, t, ev))
    (spec_put (map_of L) keep k v) (ref_count t).
Proof.
  intros Hok Hsz. rewrite <- (nnodes_size t L Hok) in Hsz.
  destruct (lookup_node_ok cls f t L k Hok) as (i & s & Hsh & Hpl & Hrun & Hfound).
  unfold g_hash_table_insert_internal. rewrite Hrun. cbn [mbind option_bind].
  destruct (insert_node_ok cls f t L i s k v keep false Hok Hsh Hpl Hfound Hsz) as (t' & L' & -> & Hok' & Hm & Href).
  cbn [mbind option_bind]. eexists t', _. split; [done|]. split; [by exists L'|done].
Qed.

Lemma run_remove_ok t L k notify :
  table_ok t L -> Z.of_nat (base.size (map_of L)) < 2 ^ 29 - 1 ->
  implements ('(b, t, ev) ← g_hash_table_remove_internal t k notify; Some (RBool b, t, ev))
    (spec_remove (map_of L) k notify) (ref_count t).
Proof.
  intros Hok Hsz. rewrite <- (nnodes_size t L Hok) in Hsz.
  destruct (remove_ok cls f t L k notify Hok) as (t' & L' & Hok' & Href & H); [lia|].
  unfold spec_remove. destruct (map_of L !! cls k) as [[k' v]|]; destruct H as [-> Hm]; cbn [mbind option_bind];
    (eexists t', _; split; [done|]; split; [by exists L'|done]).
Qed.

Lemma run_remove_all_ok t L notify :
  table_ok t L ->
  implements ('(t, ev) ← remove_or_steal_all notify t; Some (RUnit, t, ev))
    (RUnit, ∅, if notify then destroy_pairs f (pairs (map_of L)) else []) (ref_count t).
Proof.
  intros Hok. unfold remove_or_steal_all.
  set (t0 := if negb (nnodes t =? 0) then with_version (s32 (version t + 1)) t else t).
  assert (table_ok t0 L /\ ref_count t0 = ref_count t) as [Hok0 Href0].
  { unfold t0. destruct (negb _); [|done]. destruct Hok as [[] Hlt]. split; [|done]. split; [by split|exact Hlt]. }
  destruct (remove_all_nodes_ok cls f t0 L notify Hok0) as (t1 & L1 & [Hok1 Hlt1] & Hm1 & Href1 & Hn1 & ->).
  cbn [mbind option_bind].
  destruct (maybe_resize_ok cls f t1 L1 Hok1) as (t2 & L2 & -> & Hok2 & Hsame); [lia|]. cbn [mbind option_bind].
  eexists t2, _. split; [done|]. cbn [fst snd]. split_and!.
  - exists L2. split; [done|]. rewrite <- Hm1. destruct Hok1 as [_ (s & _ & Hpl) _ _ _ _].
    apply (same_entries_map cls _ _ _ _ (pl_distinct _ _ _ _ _ Hpl) Hsame).
  - destruct notify; [|done]. apply destroy_pairs_perm. symmetry. apply (entries_map cls f t L Hok).
  - destruct Hsame as (_ & _ & _ & ->). congruence.
Qed.

Lemma run_foreach_ok t L p notify :
  table_ok t L -> Z.of_nat (base.size (map_of L)) < 2 ^ 29 - 1 ->
  implements ('(n, t, ev) ← g_hash_table_foreach_remove_or_steal t p notify; Some (RNum n, t, ev))
    (spec_foreach (map_of L) p notify) (ref_count t).
Proof.
  intros Hok Hsz. rewrite <- (nnodes_size t L Hok) in Hsz.
  destruct (foreach_remove_ok cls f p notify t L Hok) as (t' & L' & Hok' & Href & Hm & ->); [lia|].
  cbn [mbind option_bind]. unfold spec_foreach.
  assert (selection p (map_of L) ≡ₚ List.filter (chosen p) (entries L)) as Hsel
    by apply filter_perm, (entries_map cls f t L Hok).
  eexists t', _. split; [cbn [fst]; rewrite (Permutation_length Hsel); reflexivity|].
  split; [by exists L'|]. split; [|done].
  destruct notify; [|done]. by apply destroy_pairs_perm.
Qed.

Lemma run_op_ok t M op :
  stands_for t M -> Z.of_nat (base.size M) < 2 ^ 29 - 1 -> implements (run_op t op) (spec_op M op) (ref_count t).
Proof.
  intros (L & Hok & <-) Hsz.
  assert (forall r, implements (Some (r, t, [])) (r, map_of L, []) (ref_count t)) as Hread.
  { intros r. exists t, []. split_and!; [done|by exists L|done|done]. }
  destruct op; cbn [run_op spec_op];
    try (by apply insert_ok); try (by apply run_remove_ok); try (by apply (run_remove_all_ok t L true));
    try (by apply (run_remove_all_ok t L false)); try (by apply run_foreach_ok).
  - destruct (lookup_ok cls f t L key Hok) as [-> _]. apply Hread.
  - rewrite (lookup_extended_ok cls f t L key Hok). apply Hread.
  - destruct (lookup_ok cls f t L key Hok) as [_ ->]. apply Hread.
  - rewrite (size_ok cls f t L Hok); [apply Hread|]. rewrite (nnodes_size t L Hok). lia.
Qed.

(** * Scripts of operations *)

(** The number of operations that can add an entry. *)
Definition puts (ops : list hop) : Z :=
  Z.of_nat (length (List.filter (fun op => match op with HInsert _ _ | HReplace _ _ | HAdd _ => true | _ => false end) ops)).

Lemma spec_op_size M op : Z.of_nat (base.size (spec_op M op).1.2) <= Z.of_nat (base.size M) + puts [op].
Proof.
  assert (forall keep k v, Z.of_nat (base.size (put cls M keep k v)) <= Z.of_nat (base.size M) + 1) as Hput.
  { intros keep k v. unfold put. destruct (M !! cls k) as [[old ov]|] eqn:E.
    - rewrite map_size_insert_Some by eauto. lia.
    - rewrite map_size_insert_None by done. lia. }
  destruct op; unfold puts; cbn [spec_op spec_put fst snd List.filter length];
    try (by apply Hput); try lia; try (rewrite map_size_empty; lia).
  - unfold spec_remove. destruct (M !! cls key) as [[k' v]|]; cbn [fst snd]; [|lia].
    pose proof (map_subseteq_size _ _ (delete_subseteq M (cls key))). lia.
  - unfold spec_remove. destruct (M !! cls key) as [[k' v]|]; cbn [fst snd]; [|lia].
    pose proof (map_subseteq_size _ _ (delete_subseteq M (cls key))). lia.
  - unfold spec_foreach, without. cbn [fst snd].
    pose proof (map_size_filter (fun '(_, kv) => chosen func kv = false) M). lia.
  - unfold spec_foreach, without. cbn [fst snd].
    pose proof (map_size_filter (fun '(_, kv) => chosen func kv = false) M). lia.
Qed.

Lemma puts_cons op ops : puts (op :: ops) = puts [op] + puts ops.
Proof. unfold puts. cbn [List.filter length]. destruct op; simpl; lia. Qed.

Lemma puts_nonneg ops : 0 <= puts ops.
Proof. unfold puts. lia. Qed.

Lemma run_ops_ok t M ops :
  stands_for t M -> Z.of_nat (base.size M) + puts ops < 2 ^ 29 - 1 ->
  exists t' ev, run_ops t ops = Some ((spec_ops M ops).1.1, t', ev) /\ stands_for t' (spec_ops M ops).1.2 /\
    ev ≡ₚ (spec_ops M ops).2 /\ ref_count t' = ref_count t.
Proof.
  revert t M. induction ops as [|op ops IH]; intros t M Hst Hsz.
  { exists t, []. by split_and!. }
  rewrite puts_cons in Hsz. pose proof (puts_nonneg ops). pose proof (puts_nonneg [op]).
  destruct (run_op_ok t M op Hst) as (t1 & ev1 & Hrun1 & Hst1 & Hev1 & Href1); [lia|].
  pose proof (spec_op_size M op) as Hle. cbn [run_ops spec_ops]. rewrite Hrun1. cbn [mbind option_bind].
  destruct (spec_op M op) as [[r1 M1] sev1]. cbn [fst snd] in *.
  destruct (IH t1 M1 Hst1) as (t2 & ev2 & Hrun2 & Hst2 & Hev2 & Href2); [lia|].
  rewrite Hrun2. cbn [mbind option_bind]. destruct (spec_ops M1 ops) as [[rs M2] sev2]. cbn [fst snd] in *.
  exists t2, (ev1 ++ ev2). split_and!; [done|done|by rewrite Hev1, Hev2|congruence].
Qed.

Lemma new_ok : exists t, g_hash_table_new_full f = Some t /\ stands_for t ∅ /\ ref_count t = 1.
Proof.
  unfold g_hash_table_new_full.
  destruct (set_shift_ok (MkTable f 0 0 0 0 0 [] [] None 1 0) HASH_TABLE_MIN_SHIFT) as (t & -> & Hsh & Heq); [done|].
  cbn [mbind option_bind]. pose proof Hsh as (Hs & Hsz & Hmd & Hmask). eexists. split; [done|].
  split; [|by rewrite Heq]. exists (blanks (2 ^ 3)). split; [|by rewrite map_of_blanks].
  apply (blank_table cls f _ 3 None (mod_ t)); simpl; rewrite ?Hsz; try done; by rewrite Heq.
Qed.

(** Giving the last reference up. *)
Lemma destroy_ok t M :
  stands_for t M -> ref_count t = 1 ->
  exists ev, g_hash_table_destroy t = Some (None, ev) /\ ev ≡ₚ destroy_pairs f (pairs M).
Proof.
  intros Hst Href. unfold g_hash_table_destroy, g_hash_table_remove_all.
  destruct Hst as (L & Hok & <-).
  destruct (run_remove_all_ok t L true Hok) as (t1 & ev & Hrun & (L1 & Hok1 & Hm1) & Hev & Href1).
  destruct (remove_or_steal_all true t) as [[t1' ev1]|]; [|done]. cbn [mbind option_bind] in *. injection Hrun as -> ->.
  unfold g_hash_table_unref. cbn [with_refs ref_count]. rewrite Href1, Href.
  unfold g_hash_table_remove_all_nodes. cbn [with_refs nnodes]. rewrite (nnodes_size t1 L1 Hok1), Hm1.
  cbn [fst snd]. rewrite map_size_empty. simpl. eexists. split; [done|]. by rewrite app_nil_r.
Qed.

(** * Ownership *)

(** The keys and values that an operation hands over to the table. *)
Definition handed (op : hop) : list freed :=
  match op with
  | HInsert k v | HReplace k v => [FreeKey k; FreeValue v]
  | HAdd k => [FreeKey k; FreeValue k]
  | _ => []
  end.

(** The operations that hand entries back to the client. *)
Definition steals (op : hop) : bool :=
  match op with HSteal _ | HStealAll | HForeachSteal _ => true | _ => false end.

Lemma pairs_empty : pairs ∅ = [].
Proof. unfold pairs. by rewrite map_to_list_empty. Qed.

Lemma pairs_insert M c kv :
  pairs (<[c := kv]> M) ≡ₚ kv :: pairs (delete c M).
Proof.
  unfold pairs. rewrite <- insert_delete_eq, map_to_list_insert by apply lookup_delete_eq. done.
Qed.

Lemma pairs_lookup M c kv : M !! c = Some kv -> pairs M ≡ₚ kv :: pairs (delete c M).
Proof. intros H. rewrite <- (pairs_insert M c kv). by rewrite insert_id. Qed.

Lemma filter_split {A} (p : A -> bool) l : l ≡ₚ List.filter p l ++ List.filter (fun x => negb (p x)) l.
Proof.
  induction l as [|x l IH]; [done|]. simpl. destruct (p x); simpl; rewrite IH at 1; [done|].
  apply Permutation_middle.
Qed.

Lemma pairs_without p M : pairs (without p M) ≡ₚ List.filter (fun kv => negb (chosen p kv)) (pairs M).
Proof.
  unfold without. induction M as [|c kv M Hc IH] using map_ind.
  { unfold pairs. by rewrite map_filter_empty, map_to_list_empty. }
  rewrite (pairs_insert M c kv), (delete_id M c Hc). simpl. destruct (chosen p kv) eqn:E; simpl.
  - rewrite map_filter_insert_False by congruence. by rewrite (delete_id M c Hc).
  - rewrite map_filter_insert_True by done. rewrite pairs_insert, delete_id; [by rewrite IH|].
    by apply map_lookup_filter_None_2; left.
Qed.

Section owner.
Hypothesis Hkey : key_destroy_func f = true.
Hypothesis Hvalue : value_destroy_func f = true.

Lemma destroy_pairs_owned l : destroy_pairs f l = owned l.
Proof.
  unfold destroy_pairs, owned. induction l as [|[k v] l IH]; [done|]. rewrite !bind_cons, IH.
  unfold destroy. by rewrite Hkey, Hvalue.
Qed.

(** Nothing is lost or given up twice. *)
Lemma spec_op_owned M op :
  steals op = false ->
  owned (pairs M) ++ handed op ≡ₚ (spec_op M op).2 ++ owned (pairs (spec_op M op).1.2).
Proof.
  assert (forall keep k v, owned (pairs M) ++ [FreeKey k; FreeValue v] ≡ₚ
            (spec_put M keep k v).2 ++ owned (pairs (spec_put M keep k v).1.2)) as Hput.
  { intros keep k v. unfold spec_put, put, put_events. cbn [fst snd].
    destruct (M !! cls k) as [[old ov]|] eqn:E.
    - rewrite (pairs_insert M), (pairs_lookup M _ _ E).
      unfold destroy. rewrite Hkey, Hvalue. destruct keep; simpl; solve_Permutation.
    - rewrite (pairs_insert M), delete_id by done. simpl. by rewrite Permutation_app_comm. }
  intros Hs. destruct op; try discriminate; cbn [spec_op fst snd handed]; try (apply Hput);
    rewrite ?app_nil_r; try done.
  - unfold spec_remove. destruct (M !! cls key) as [[k v]|] eqn:E; [|done]. cbn [fst snd].
    rewrite (pairs_lookup M _ _ E). unfold destroy. by rewrite Hkey, Hvalue.
  - by rewrite destroy_pairs_owned.
  - unfold spec_foreach. cbn [fst snd]. rewrite destroy_pairs_owned, <- owned_app. apply owned_perm.
    rewrite pairs_without. apply filter_split.
Qed.

Lemma spec_ops_owned M ops :
  Forall (fun op => steals op = false) ops ->
  owned (pairs M) ++ (ops ≫= handed) ≡ₚ (spec_ops M ops).2 ++ owned (pairs (spec_ops M ops).1.2).
Proof.
  intros Hs. revert M. induction Hs as [|op ops Hop _ IH]; intros M; [by rewrite app_nil_r|].
  rewrite bind_cons, app_assoc, (spec_op_owned M op Hop). cbn [spec_ops].
  destruct (spec_op M op) as [[r M1] ev1]. specialize (IH M1).
  destruct (spec_ops M1 ops) as [[rs M2] ev2]. cbn [fst snd] in *. by rewrite <- !app_assoc, IH.
Qed.
End owner.

(** * Properties *)

(** C10: from a new table, every sequence of insertions, replacements, additions,
    removals, steals, lookups and bulk removals ends, stays within the arrays,
    gives the results of a finite map from the classes of keys to the stored
    key and value, and makes the calls of the destroy functions that this map
    prescribes. *)
Theorem hash_refines ops :
  puts ops < 2 ^ 29 - 1 ->
  exists t0 t ev, g_hash_table_new_full f = Some t0 /\
    run_ops t0 ops = Some ((spec_ops ∅ ops).1.1, t, ev) /\ stands_for t (spec_ops ∅ ops).1.2 /\
    ev ≡ₚ (spec_ops ∅ ops).2.
Proof.
  intros Hp. destruct new_ok as (t0 & Hnew & Hst & _).
  destruct (run_ops_ok t0 ∅ ops Hst) as (t & ev & Hrun & Hst' & Hev & _); [by rewrite map_size_empty|].
  by exists t0, t, ev.
Qed.

(** C11: a table with destroy functions owns what is inserted: when the last
    reference is given up after any operations other than steals, the functions
    have been called exactly once for every key and every value that was handed
    over. *)
Theorem hash_ownership ops :
  key_destroy_func f = true -> value_destroy_func f = true -> Forall (fun op => steals op = false) ops ->
  puts ops < 2 ^ 29 - 1 ->
  exists t0 rs t ev ev', g_hash_table_new_full f = Some t0 /\ run_ops t0 ops = Some (rs, t, ev) /\
    g_hash_table_destroy t = Some (None, ev') /\ ev ++ ev' ≡ₚ (ops ≫= handed).
Proof.
  intros Hkey Hvalue Hs Hp. destruct new_ok as (t0 & Hnew & Hst & Href).
  destruct (run_ops_ok t0 ∅ ops Hst) as (t & ev & Hrun & Hst' & Hev & Href'); [by rewrite map_size_empty|].
  destruct (destroy_ok t _ Hst') as (ev' & Hd & Hev'); [congruence|].
  exists t0, (spec_ops ∅ ops).1.1, t, ev, ev'. split_and!; [done..|].
  rewrite Hev, Hev', (destroy_pairs_owned Hkey Hvalue), <- (spec_ops_owned Hkey Hvalue ∅ ops Hs).
  by rewrite pairs_empty.
Qed.

(** Searching a well-formed table ends: the triangular probe sequence meets
    an unused index within [size] probes, so g_hash_table_lookup_node returns
    the index of the key, or one where it can be put, and never leaves the
    arrays. *)
Theorem lookup_node_ends t M key :
  stands_for t M ->
  exists i h, g_hash_table_lookup_node t key = Some (i, hash_value f key) /\ 0 <= i < size t /\
    array_get (hashes t) i = Some h /\
    match M !! cls key with
    | Some (k, v) => HASH_IS_REAL h = true /\ array_get (keys t) i = Some k /\ cls k = cls key
    | None => HASH_IS_REAL h = false
    end.
Proof.
  intros (L & Hok & <-). destruct (lookup_node_ok cls f t L key Hok) as (i & s & Hsh & Hpl & Hrun & Hfound).
  destruct (map_of_found cls f s (mod_ t) L key i Hpl Hfound) as (c & Hc & HM).
  destruct (reads cls f t L i c (proj1 Hok) Hc) as (Rh & Rk & _).
  exists i, (c_hash c). split_and!; [done| | |done|].
  - apply at_Some in Hc as [? _]. lia.
  - destruct Hsh as (_ & -> & _). rewrite <- (pl_length _ _ _ _ _ Hpl). apply at_Some in Hc as [? _]. lia.
  - rewrite HM. fold (real c). destruct (real c) eqn:Hr; [|done]. split_and!; [done|done|].
    destruct Hfound as (c' & Hc' & Hcls). assert (c' = c) as -> by congruence. by rewrite Hr in Hcls.
Qed.

(** C12: resizing a table, even one without an unused index, keeps the map and
    leaves no tombstone, and the table is less than half full afterwards. From
    any such table g_hash_table_maybe_resize, which is called after every
    insertion and removal, keeps the map and leaves an unused index: the
    invariant that the searches need to end. *)
Theorem resize_correct t M :
  holds_map t M -> Z.of_nat (base.size M) < 2 ^ 29 ->
  (exists t', g_hash_table_resize t = Some t' /\ stands_for t' M /\ noccupied t' = nnodes t' /\
     2 * nnodes t' < size t') /\
  (exists t', g_hash_table_maybe_resize t = Some t' /\ stands_for t' M /\ noccupied t' < size t').
Proof.
  intros (L & Hok & <-) Hsz. pose proof Hok as [_ (s & _ & Hpl) _ Hn _ _].
  rewrite (map_of_size cls f s (mod_ t) L Hpl), <- Hn in Hsz.
  pose proof (pl_distinct _ _ _ _ _ Hpl) as Hnd. split.
  - destruct (resize_ok cls f t L Hok Hsz) as (t' & L' & Hrun & Hok' & Hsame & Ho & Hr).
    exists t'. split_and!; [done| |done|done]. exists L'. split; [done|]. apply (same_entries_map cls _ _ _ _ Hnd Hsame).
  - destruct (maybe_resize_ok cls f t L Hok Hsz) as (t' & L' & Hrun & Hok' & Hsame).
    exists t'. split_and!; [done| |apply (proj2 Hok')]. exists L'. split; [done|].
    apply (same_entries_map cls _ _ _ _ Hnd Hsame).
Qed.

(** C13: a client that visits a table with an iterator, and removes some of the
    entries through it, meets every entry exactly once and leaves the map
    without the removed entries. *)
Theorem iteration_correct t M p :
  stands_for t M ->
  exists t' visited ev, iter_loop p true (S (Z.to_nat (size t))) t (g_hash_table_iter_init t) = Some (t', visited, ev) /\
    visited ≡ₚ pairs M /\ ev ≡ₚ destroy_pairs f (selection p M) /\ stands_for t' (without p M).
Proof.
  intros (L & Hok & <-). pose proof Hok as [[_ (s & (_ & Hsz & _) & Hpl) _ _ _ _] _].
  destruct (iter_loop_ok cls f p true (S (Z.to_nat (size t))) t [] L (g_hash_table_iter_init t) Hok) as (t' & Hrun & Hok');
    [|done|done|].
  { rewrite Hsz, <- (pl_length _ _ _ _ _ Hpl), Nat2Z.id. lia. }
  eexists t', _, _. split; [done|]. split; [symmetry; apply (entries_map cls f t L Hok)|]. split.
  - apply destroy_pairs_perm, filter_perm. symmetry. apply (entries_map cls f t L Hok).
  - exists (sweep p L). split; [done|]. apply (map_of_sweep cls f p t L Hok). by right; exists t'.
Qed.
End keys.

(** * Instances *)

(** Keys compared as pointers: three keys, one of them removed. *)
Definition demo_ops : list hop := [HInsert 70 700; HInsert 7 71; HAdd 14; HRemove 7].
Definition demo_cls (k : gpointer) : gpointer := k.
Definition demo_map : gmap gpointer (gpointer * gpointer) := {[ 70 := (70, 700); 14 := (14, 14) ]}.

#[local] Instance demo_keys : KeyLaws demo_functions demo_cls := pointer_keys g_direct_hash true true.

Definition demo_run : option GHashTable :=
  t ← g_hash_table_new_full demo_functions; '(_, t, _) ← run_ops t demo_ops; Some t.

Lemma demo_stands : exists t, demo_run = Some t /\ stands_for demo_cls demo_functions t demo_map.
Proof.
  unfold demo_run.
  destruct (new_ok demo_cls demo_functions) as (t0 & -> & Hst & _). cbn [mbind option_bind].
  destruct (run_ops_ok demo_cls demo_functions t0 ∅ demo_ops Hst) as (t & ev & -> & Hst' & _); [done|].
  exists t. split; [done|].
  assert (demo_map = (spec_ops demo_cls demo_functions ∅ demo_ops).1.2) as -> by (vm_compute; reflexivity). exact Hst'.
Qed.

Lemma hash_refines_witness :
  exists t0 t ev, g_hash_table_new_full demo_functions = Some t0 /\
    run_ops t0 demo_ops = Some ([RBool true; RBool true; RBool true; RBool true], t, ev) /\
    stands_for demo_cls demo_functions t demo_map /\ ev ≡ₚ [FreeKey 7; FreeValue 71].
Proof. exact (hash_refines demo_cls demo_functions demo_ops ltac:(done)). Defined.

Lemma hash_ownership_witness :
  exists t0 rs t ev ev', g_hash_table_new_full demo_functions = Some t0 /\ run_ops t0 demo_ops = Some (rs, t, ev) /\
    g_hash_table_destroy t = Some (None, ev') /\
    ev ++ ev' ≡ₚ [FreeKey 70; FreeValue 700; FreeKey 7; FreeValue 71; FreeKey 14; FreeValue 14].
Proof.
  exact (hash_ownership demo_cls demo_functions demo_ops eq_refl eq_refl ltac:(by repeat constructor) ltac:(done)).
Defined.

Lemma lookup_node_ends_witness :
  exists t i h, demo_run = Some t /\ g_hash_table_lookup_node t 70 = Some (i, 70) /\ 0 <= i < size t /\
    array_get (hashes t) i = Some h /\ HASH_IS_REAL h = true /\ array_get (keys t) i = Some 70.
Proof.
  destruct demo_stands as (t & Ht & Hst). exists t.
  destruct (lookup_node_ends demo_cls demo_functions t demo_map 70 Hst) as (i & h & H1 & H2 & H3 & Hm).
  change (HASH_IS_REAL h = true /\ array_get (keys t) i = Some 70 /\ demo_cls 70 = demo_cls 70) in Hm.
  destruct Hm as (H4 & H5 & _). exists i, h. exact (conj Ht (conj H1 (conj H2 (conj H3 (conj H4 H5))))).
Defined.

(** Eight keys in a table of eight indices: the last of them is met by the
    seventh probe for its hash. *)
Definition full_keys : list gpointer := [7; 8; 2; 3; 4; 5; 6; 9].
Definition full_cells : list cell := (fun k => Cell k k (10 * k)) <$> full_keys.
Definition full_table : GHashTable :=
  MkTable demo_functions 8 7 7 8 8 full_keys full_keys (Some ((fun k => 10 * k) <$> full_keys)) 1 0.
Definition full_map : gmap gpointer (gpointer * gpointer) := list_to_map ((fun k => (k, (k, 10 * k))) <$> full_keys).

Lemma full_placed : placed demo_cls demo_functions 3 7 full_cells.
Proof.
  split; [done| | |apply (bool_decide_unpack _); by vm_compute].
  - intros i c [_ Hc]%at_Some. apply list_elem_of_lookup_2, list_elem_of_fmap in Hc as (k & -> & Hk). cbn.
    revert k Hk. apply (proj1 (Forall_forall (fun k => 0 <= k) full_keys)). repeat (constructor; [lia|]). constructor.
  - intros i c [Hi Hc]%at_Some _. change (Z.of_nat (length full_cells)) with 8 in Hi.
    assert (exists n, i = Z.of_nat n /\ (n < 8)%nat) as (n & -> & Hn) by (exists (Z.to_nat i); lia). rewrite Nat2Z.id in Hc.
    split; [do 8 (destruct n as [|n]; [by injection Hc as <-|]); lia|].
    exists (if decide (n = 7%nat) then 6%nat else 0%nat). split.
    + do 8 (destruct n as [|n]; [injection Hc as <-; by vm_compute|]). lia.
    + intros m Hm. do 7 (destruct n as [|n]; [vm_compute in Hm; lia|]). destruct n as [|n]; [|lia]. injection Hc as <-.
      vm_compute in Hm. do 6 (destruct m as [|m]; [eexists; by vm_compute|]). lia.
Qed.

Lemma full_holds : holds_map demo_cls demo_functions full_table full_map.
Proof.
  exists full_cells. split; [|by vm_compute]. split; try done. exists 3. split; [|exact full_placed].
  by split_and!.
Qed.

Lemma resize_correct_witness :
  exists t', noccupied full_table = size full_table /\ g_hash_table_maybe_resize full_table = Some t' /\
    stands_for demo_cls demo_functions t' full_map /\ noccupied t' < size t'.
Proof.
  destruct (resize_correct demo_cls demo_functions full_table full_map full_holds ltac:(by vm_compute)) as [_ (t' & H)].
  by exists t'.
Defined.

Lemma iteration_correct_witness :
  exists t t' visited ev, demo_run = Some t /\
    iter_loop (fun k _ => k =? 14) true (S (Z.to_nat (size t))) t (g_hash_table_iter_init t) = Some (t', visited, ev) /\
    visited ≡ₚ [(14, 14); (70, 700)] /\ ev ≡ₚ [FreeKey 14; FreeValue 14] /\
    stands_for demo_cls demo_functions t' {[ 70 := (70, 700) ]}.
Proof.
  destruct demo_stands as (t & Ht & Hst).
  destruct (iteration_correct demo_cls demo_functions t demo_map (fun k _ => k =? 14) Hst)
    as (t' & visited & ev & H1 & H2 & H3 & H4).
  exists t, t', visited, ev. split_and!; [done|done| |done|exact H4].
  rewrite H2. vm_compute. apply Permutation_swap.
Defined.
