(* ===== verification/EvTime.v ===== *)
(** Time stamps of the event loop of libev (src/libev-4.15/ev.h: ev_tstamp), an
    IEEE 754 double: its order, and when sums and differences are numbers. *)
From Stdlib Require Import SpecFloat.
From S2P Require Import Prelude.

(** * Doubles *)

Definition ev_tstamp : Type := spec_float.

Definition fadd : ev_tstamp -> ev_tstamp -> ev_tstamp := SFadd 53 1024.
Definition fsub : ev_tstamp -> ev_tstamp -> ev_tstamp := SFsub 53 1024.
Definition fle : ev_tstamp -> ev_tstamp -> bool := SFleb.
Definition flt : ev_tstamp -> ev_tstamp -> bool := SFltb.
Definition feq : ev_tstamp -> ev_tstamp -> bool := SFeqb.

(** The double nearest to an integer. *)
Definition of_int (n : Z) : ev_tstamp := binary_normalize 53 1024 n 0 false.

(** [0.], and the condition of [if (x)]. *)
Definition fzero : ev_tstamp := S754_zero false.
Definition nonzero (x : ev_tstamp) : bool := match x with S754_zero _ => false | _ => true end.

(** Values other than NaN, and finite values. *)
Definition number (x : ev_tstamp) : Prop := x <> S754_nan.
Definition finite (x : ev_tstamp) : Prop :=
  match x with S754_zero _ | S754_finite _ _ _ => True | _ => False end.

#[export] Instance number_dec x : Decision (number x).
Proof. destruct x; (by left) || (by right; intros H; apply H). Defined.
#[export] Instance finite_dec x : Decision (finite x).
Proof. destruct x; apply _. Defined.

Example quarter_plus_ten : fadd (SFdiv 53 1024 (of_int 1) (of_int 4)) (of_int 10) = SFdiv 53 1024 (of_int 41) (of_int 4).
Proof. reflexivity. Qed.

(** * The order *)

(** Numbers are ordered as these triples. *)
Definition key (x : ev_tstamp) : Z * Z * Z :=
  match x with
  | S754_zero _ | S754_nan => (0, 0, 0)
  | S754_infinity s => (if s then -2 else 2, 0, 0)
  | S754_finite false m e => (1, e, Z.pos m)
  | S754_finite true m e => (-1, - e, Z.neg m)
  end.

Definition key_le (a b : Z * Z * Z) : Prop :=
  let '(a1, a2, a3) := a in
  let '(b1, b2, b3) := b in
  a1 < b1 \/ (a1 = b1 /\ (a2 < b2 \/ (a2 = b2 /\ a3 <= b3))).

Definition key_compare (a b : Z * Z * Z) : comparison :=
  let '(a1, a2, a3) := a in
  let '(b1, b2, b3) := b in
  match a1 ?= b1 with
  | Eq => match a2 ?= b2 with Eq => a3 ?= b3 | c => c end
  | c => c
  end.

Lemma compare_key x y : number x -> number y -> SFcompare x y = Some (key_compare (key x) (key y)).
Proof.
  intros Hx Hy. destruct x as [sx|sx| |sx mx ex]; try done; destruct y as [sy|sy| |sy my ey]; try done;
    try (destruct sx; try done; destruct sy; done); try (destruct sx; done); try (destruct sy; done).
  destruct sx, sy; simpl; try done; change (Pos.compare_cont Eq mx my) with (mx ?= my)%positive.
  rewrite Z.compare_opp, (Z.compare_antisym ex ey). by destruct (ex ?= ey).
Qed.

Lemma key_compare_le a b : key_le a b <-> key_compare a b <> Gt.
Proof.
  destruct a as [[a1 a2] a3], b as [[b1 b2] b3]. simpl.
  destruct (Z.compare_spec a1 b1); [|split; [done|lia]|split; [lia|done]].
  destruct (Z.compare_spec a2 b2); [|split; [done|lia]|split; [lia|done]].
  destruct (Z.compare_spec a3 b3); split; try done; lia.
Qed.

Lemma fle_key x y : number x -> number y -> fle x y = true <-> key_le (key x) (key y).
Proof.
  intros Hx Hy. unfold fle, SFleb. rewrite (compare_key x y Hx Hy), key_compare_le.
  by destruct (key_compare _ _).
Qed.

Lemma key_compare_antisym a b : key_compare b a = CompOpp (key_compare a b).
Proof.
  destruct a as [[a1 a2] a3], b as [[b1 b2] b3]. simpl.
  rewrite (Z.compare_antisym a1 b1), (Z.compare_antisym a2 b2), (Z.compare_antisym a3 b3).
  destruct (a1 ?= b1), (a2 ?= b2), (a3 ?= b3); done.
Qed.

Lemma flt_fle x y : number x -> number y -> flt x y = negb (fle y x).
Proof.
  intros Hx Hy. unfold flt, fle, SFltb, SFleb. rewrite !compare_key by done.
  rewrite (key_compare_antisym (key x) (key y)). by destruct (key_compare _ _).
Qed.

Lemma fle_refl x : number x -> fle x x = true.
Proof. intros H. apply fle_key; [done..|]. destruct (key x) as [[a b] c]. simpl. lia. Qed.

Lemma feq_refl x : number x -> feq x x = true.
Proof.
  intros H. unfold feq, SFeqb. rewrite compare_key by done. destruct (key x) as [[a b] c]. simpl.
  by rewrite !Z.compare_refl.
Qed.

Lemma fle_trans x y z : number x -> number y -> number z -> fle x y = true -> fle y z = true -> fle x z = true.
Proof.
  intros Hx Hy Hz. rewrite !fle_key by done.
  destruct (key x) as [[a1 a2] a3], (key y) as [[b1 b2] b3], (key z) as [[c1 c2] c3]. simpl. lia.
Qed.

Lemma fle_total x y : number x -> number y -> fle x y = true \/ fle y x = true.
Proof.
  intros Hx Hy. rewrite !fle_key by done.
  destruct (key x) as [[a1 a2] a3], (key y) as [[b1 b2] b3]. simpl. lia.
Qed.

Lemma flt_le x y : number x -> number y -> flt x y = true -> fle x y = true.
Proof. intros Hx Hy. rewrite flt_fle, negb_true_iff by done. intros E. destruct (fle_total x y); congruence. Qed.

Lemma flt_irrefl x : flt x x = false.
Proof.
  destruct (decide (number x)) as [H|H]; [by rewrite flt_fle, fle_refl|].
  destruct x; try done; by exfalso; apply H.
Qed.

(** * Sums *)

Lemma finite_number x : finite x -> number x.
Proof. by destruct x. Qed.

Lemma shr_nonneg r e n : 0 <= shr_m r -> 0 <= shr_m (shr r e n).1.
Proof.
  assert (forall r, 0 <= shr_m r -> 0 <= shr_m (shr_1 r)) as H1.
  { intros [m b s]. simpl. destruct m as [|p|p]; [done| |done]. by destruct p. }
  destruct n as [|p|p]; [done| |done]. simpl. revert r. induction p as [p IH|p IH|]; intros r Hr; simpl; auto.
Qed.

Lemma round_number s m e : 0 <= m -> number (binary_round_aux 53 1024 s m e loc_Exact).
Proof.
  intros Hm. unfold binary_round_aux, shr_fexp.
  pose proof (shr_nonneg (shr_record_of_loc m loc_Exact) e (fexp 53 1024 (Zdigits2 m + e) - e) Hm) as H1.
  destruct (shr _ _ _) as [r1 e1]. simpl in H1.
  assert (0 <= round_nearest_even (shr_m r1) (loc_of_shr_record r1)) as H2.
  { destruct (loc_of_shr_record r1) as [|[]]; simpl; try lia. destruct (Z.even _); lia. }
  set (m2 := round_nearest_even _ _) in *.
  pose proof (shr_nonneg (shr_record_of_loc m2 loc_Exact) e1 (fexp 53 1024 (Zdigits2 m2 + e1) - e1) H2) as H3.
  destruct (shr _ _ _) as [r2 e2]. simpl in H3. destruct (shr_m r2) as [|p|p]; [done| |lia].
  by destruct (_ <=? _).
Qed.

Lemma normalize_number m e : number (binary_normalize 53 1024 m e false).
Proof.
  unfold binary_normalize, binary_round. destruct m; [done| |]; destruct (shl_align _ _ _); by apply round_number.
Qed.

(** Adding or subtracting a finite value never gives NaN. *)
Lemma fadd_number x y : number x -> finite y -> number (fadd x y).
Proof.
  destruct x as [sx|sx| |sx mx ex], y as [sy|sy| |sy my ey]; simpl; intros Hx Hy; try done; try (by destruct sx, sy).
  apply normalize_number.
Qed.

Lemma fsub_number x y : number x -> finite y -> number (fsub x y).
Proof.
  destruct x as [sx|sx| |sx mx ex], y as [sy|sy| |sy my ey]; simpl; intros Hx Hy; try done; try (by destruct sx, sy).
  apply normalize_number.
Qed.

Create HintDb ev_time discriminated.
#[export] Hint Resolve fle_refl finite_number fadd_number fsub_number : ev_time.
