(* ===== verification/Ev.v ===== *)
(** The event loop of libev (src/libev-4.15/ev.c): watchers, the queues of
    pending events, the heap of timers and the tables of file descriptors. The
    definitions follow the functions of ev.c as the build of this repository
    configures them: a 4-heap with cached times, and several loops. Watchers
    live in a memory from addresses; a failed assertion, an access outside an
    array and a watcher of a wrong type are [None]. *)
From S2P Require Import Prelude EvTime.

Open Scope c_scope.

(** * Data *)

(** Addresses of watchers. *)
Definition W : Type := Z.
Definition null : W := 0.

Definition EV_MINPRI : Z := -2.
Definition EV_MAXPRI : Z := 2.
Definition NUMPRI : Z := EV_MAXPRI - EV_MINPRI + 1.

Definition EV_READ : Z := 1.
Definition EV_WRITE : Z := 2.
Definition EV__IOFDSET : Z := 128.
Definition EV_TIMER : Z := 256.
Definition EV_ANFD_REIFY : Z := 1.

(** The types of watchers, with the fields behind the common ones. *)
Inductive watcher_body :=
| ev_timer (at_ repeat : ev_tstamp)
| ev_io (next : W) (fd events : Z)
| ev_prepare.

Record ev_watcher := Watcher { active : Z; pending : Z; priority : Z; body : watcher_body }.

Definition with_active a x := Watcher a (pending x) (priority x) (body x).
Definition with_pending p x := Watcher (active x) p (priority x) (body x).
Definition with_priority p x := Watcher (active x) (pending x) p (body x).
Definition with_body b x := Watcher (active x) (pending x) (priority x) b.

Definition ABSPRI (x : ev_watcher) : Z := priority x - EV_MINPRI.

(** A pending event, a file descriptor, an element of a heap. *)
Record ANPENDING := Pending { p_w : W; p_events : Z }.
Record ANFD := Anfd { head : W; fd_events : Z; reify : Z; emask : Z; egen : Z }.
Record ANHE := Anhe { he_at : ev_tstamp; he_w : W }.

(** The loop: the fields of ev_vars.h that the modelled operations use. *)
Record ev_loop := Loop {
  mem : gmap W ev_watcher;
  ev_rt_now : ev_tstamp;
  mn_now : ev_tstamp;
  rfeeds : list W;
  rfeedcnt : Z;
  pendings : list (list ANPENDING);
  pendingcnt : list Z;
  pendingpri : Z;
  activecnt : Z;
  anfds : list ANFD;
  fdchanges : list Z;
  fdchangecnt : Z;
  postfork : Z;
  epoll_eperms : list Z;
  epoll_epermcnt : Z;
  timers : list ANHE;
  timercnt : Z;
}.

Definition set_mem x l :=
  Loop x (ev_rt_now l) (mn_now l) (rfeeds l) (rfeedcnt l) (pendings l) (pendingcnt l) (pendingpri l) (activecnt l) (anfds l) (fdchanges l) (fdchangecnt l) (postfork l) (epoll_eperms l) (epoll_epermcnt l) (timers l) (timercnt l).
Definition set_ev_rt_now x l :=
  Loop (mem l) x (mn_now l) (rfeeds l) (rfeedcnt l) (pendings l) (pendingcnt l) (pendingpri l) (activecnt l) (anfds l) (fdchanges l) (fdchangecnt l) (postfork l) (epoll_eperms l) (epoll_epermcnt l) (timers l) (timercnt l).
Definition set_mn_now x l :=
  Loop (mem l) (ev_rt_now l) x (rfeeds l) (rfeedcnt l) (pendings l) (pendingcnt l) (pendingpri l) (activecnt l) (anfds l) (fdchanges l) (fdchangecnt l) (postfork l) (epoll_eperms l) (epoll_epermcnt l) (timers l) (timercnt l).
Definition set_rfeeds x l :=
  Loop (mem l) (ev_rt_now l) (mn_now l) x (rfeedcnt l) (pendings l) (pendingcnt l) (pendingpri l) (activecnt l) (anfds l) (fdchanges l) (fdchangecnt l) (postfork l) (epoll_eperms l) (epoll_epermcnt l) (timers l) (timercnt l).
Definition set_rfeedcnt x l :=
  Loop (mem l) (ev_rt_now l) (mn_now l) (rfeeds l) x (pendings l) (pendingcnt l) (pendingpri l) (activecnt l) (anfds l) (fdchanges l) (fdchangecnt l) (postfork l) (epoll_eperms l) (epoll_epermcnt l) (timers l) (timercnt l).
Definition set_pendings x l :=
  Loop (mem l) (ev_rt_now l) (mn_now l) (rfeeds l) (rfeedcnt l) x (pendingcnt l) (pendingpri l) (activecnt l) (anfds l) (fdchanges l) (fdchangecnt l) (postfork l) (epoll_eperms l) (epoll_epermcnt l) (timers l) (timercnt l).
Definition set_pendingcnt x l :=
  Loop (mem l) (ev_rt_now l) (mn_now l) (rfeeds l) (rfeedcnt l) (pendings l) x (pendingpri l) (activecnt l) (anfds l) (fdchanges l) (fdchangecnt l) (postfork l) (epoll_eperms l) (epoll_epermcnt l) (timers l) (timercnt l).
Definition set_pendingpri x l :=
  Loop (mem l) (ev_rt_now l) (mn_now l) (rfeeds l) (rfeedcnt l) (pendings l) (pendingcnt l) x (activecnt l) (anfds l) (fdchanges l) (fdchangecnt l) (postfork l) (epoll_eperms l) (epoll_epermcnt l) (timers l) (timercnt l).
Definition set_activecnt x l :=
  Loop (mem l) (ev_rt_now l) (mn_now l) (rfeeds l) (rfeedcnt l) (pendings l) (pendingcnt l) (pendingpri l) x (anfds l) (fdchanges l) (fdchangecnt l) (postfork l) (epoll_eperms l) (epoll_epermcnt l) (timers l) (timercnt l).
Definition set_anfds x l :=
  Loop (mem l) (ev_rt_now l) (mn_now l) (rfeeds l) (rfeedcnt l) (pendings l) (pendingcnt l) (pendingpri l) (activecnt l) x (fdchanges l) (fdchangecnt l) (postfork l) (epoll_eperms l) (epoll_epermcnt l) (timers l) (timercnt l).
Definition set_fdchanges x l :=
  Loop (mem l) (ev_rt_now l) (mn_now l) (rfeeds l) (rfeedcnt l) (pendings l) (pendingcnt l) (pendingpri l) (activecnt l) (anfds l) x (fdchangecnt l) (postfork l) (epoll_eperms l) (epoll_epermcnt l) (timers l) (timercnt l).
Definition set_fdchangecnt x l :=
  Loop (mem l) (ev_rt_now l) (mn_now l) (rfeeds l) (rfeedcnt l) (pendings l) (pendingcnt l) (pendingpri l) (activecnt l) (anfds l) (fdchanges l) x (postfork l) (epoll_eperms l) (epoll_epermcnt l) (timers l) (timercnt l).
Definition set_postfork x l :=
  Loop (mem l) (ev_rt_now l) (mn_now l) (rfeeds l) (rfeedcnt l) (pendings l) (pendingcnt l) (pendingpri l) (activecnt l) (anfds l) (fdchanges l) (fdchangecnt l) x (epoll_eperms l) (epoll_epermcnt l) (timers l) (timercnt l).
Definition set_epoll_eperms x l :=
  Loop (mem l) (ev_rt_now l) (mn_now l) (rfeeds l) (rfeedcnt l) (pendings l) (pendingcnt l) (pendingpri l) (activecnt l) (anfds l) (fdchanges l) (fdchangecnt l) (postfork l) x (epoll_epermcnt l) (timers l) (timercnt l).
Definition set_epoll_epermcnt x l :=
  Loop (mem l) (ev_rt_now l) (mn_now l) (rfeeds l) (rfeedcnt l) (pendings l) (pendingcnt l) (pendingpri l) (activecnt l) (anfds l) (fdchanges l) (fdchangecnt l) (postfork l) (epoll_eperms l) x (timers l) (timercnt l).
Definition set_timers x l :=
  Loop (mem l) (ev_rt_now l) (mn_now l) (rfeeds l) (rfeedcnt l) (pendings l) (pendingcnt l) (pendingpri l) (activecnt l) (anfds l) (fdchanges l) (fdchangecnt l) (postfork l) (epoll_eperms l) (epoll_epermcnt l) x (timercnt l).
Definition set_timercnt x l :=
  Loop (mem l) (ev_rt_now l) (mn_now l) (rfeeds l) (rfeedcnt l) (pendings l) (pendingcnt l) (pendingpri l) (activecnt l) (anfds l) (fdchanges l) (fdchangecnt l) (postfork l) (epoll_eperms l) (epoll_epermcnt l) (timers l) x.

(** The dummy that takes the place of an event that is not pending any more. *)
Definition pending_w : W := -1.

(** The watcher at an address, and its update. *)
Definition update (w : W) (g : ev_watcher -> ev_watcher) (l : ev_loop) : option ev_loop :=
  x ← mem l !! w; Some (set_mem (<[w := g x]> (mem l)) l).

(** * Growing arrays *)

Definition MALLOC_ROUND : Z := 4096.

Fixpoint double_size (fuel : nat) (cnt ncur : Z) : option Z :=
  match fuel with
  | O => None
  | S fuel => let ncur := s32 (ncur .<< 1) in if ncur <? cnt then double_size fuel cnt ncur else Some ncur
  end.

(** The size of a pointer is 8, and it has the type of an unsigned long. *)
Definition array_nextsize (elem cur cnt : Z) : option Z :=
  ncur ← double_size 32 cnt (s32 (cur + 1));
  Some (if MALLOC_ROUND - 8 * 4 <? u64 (s32 (elem * ncur)) then
          let ncur := s32 (ncur * elem) in
          let ncur := s32 (u64 (u64 (s32 (s32 (ncur + elem) + (MALLOC_ROUND - 1))) + 8 * 4) .&
                           u64 (Z.lnot (MALLOC_ROUND - 1))) in
          let ncur := s32 (u64 (u64 ncur - 8 * 4)) in
          ncur ÷ elem
        else ncur).

(** The elements that come with a larger array have the value [init]; the
    program does not read them before it writes them. *)
Definition array_needsize {A} (elem : Z) (base : list A) (cnt : Z) (init : A) : option (list A) :=
  let cur := Z.of_nat (length base) in
  if cur <? cnt then
    n ← array_nextsize elem cur cnt;
    Some (base ++ replicate (Z.to_nat (n - cur)) init)
  else Some base.

(** * Pending events *)

Definition ev_feed_event (w : W) (revents : Z) (l : ev_loop) : option ev_loop :=
  x ← mem l !! w;
  let pri := ABSPRI x in
  ps ← array_get (pendings l) pri;
  l ← (if negb (pending x =? 0) then
         p ← array_get ps (pending x - 1);
         ps ← array_set ps (pending x - 1) (Pending (p_w p) (p_events p .| revents));
         pss ← array_set (pendings l) pri ps;
         Some (set_pendings pss l)
       else
         cnt ← array_get (pendingcnt l) pri;
         cnts ← array_set (pendingcnt l) pri (cnt + 1);
         l ← update w (with_pending (cnt + 1)) (set_pendingcnt cnts l);
         ps ← array_needsize 16 ps (cnt + 1) (Pending null 0);
         ps ← array_set ps cnt (Pending w revents);
         pss ← array_set (pendings l) pri ps;
         Some (set_pendings pss l));
  Some (set_pendingpri (NUMPRI - 1) l).

Definition feed_reverse (w : W) (l : ev_loop) : option ev_loop :=
  fs ← array_needsize 8 (rfeeds l) (rfeedcnt l + 1) null;
  fs ← array_set fs (rfeedcnt l) w;
  Some (set_rfeedcnt (rfeedcnt l + 1) (set_rfeeds fs l)).

Fixpoint feed_reverse_loop (fuel : nat) (revents : Z) (l : ev_loop) : option ev_loop :=
  match fuel with
  | O => None
  | S fuel =>
      let l := set_rfeedcnt (rfeedcnt l - 1) l in
      w ← array_get (rfeeds l) (rfeedcnt l);
      l ← ev_feed_event w revents l;
      if rfeedcnt l =? 0 then Some l else feed_reverse_loop fuel revents l
  end.
Definition feed_reverse_done (revents : Z) (l : ev_loop) : option ev_loop :=
  feed_reverse_loop (Z.to_nat (rfeedcnt l)) revents l.

(** The loop of queue_events. *)
Fixpoint queue_events (events : list W) (type : Z) (l : ev_loop) : option ev_loop :=
  match events with
  | [] => Some l
  | w :: events => l ← ev_feed_event w type l; queue_events events type l
  end.

(** The pending element of a watcher is replaced. *)
Definition drop_pending (x : ev_watcher) (w : W) (l : ev_loop) : option (Z * ev_loop) :=
  ps ← array_get (pendings l) (ABSPRI x);
  p ← array_get ps (pending x - 1);
  ps ← array_set ps (pending x - 1) (Pending pending_w (p_events p));
  pss ← array_set (pendings l) (ABSPRI x) ps;
  l ← update w (with_pending 0) (set_pendings pss l);
  Some (p_events p, l).

Definition clear_pending (w : W) (l : ev_loop) : option ev_loop :=
  x ← mem l !! w;
  if negb (pending x =? 0) then '(_, l) ← drop_pending x w l; Some l else Some l.

Definition ev_clear_pending (w : W) (l : ev_loop) : option (Z * ev_loop) :=
  x ← mem l !! w;
  if negb (pending x =? 0) then drop_pending x w l else Some (0, l).

Definition ev_pending_count (l : ev_loop) : Z := u32 (foldr Z.add 0 (pendingcnt l)).

(** Calling the callbacks. [callback w revents l] is what the callback of the
    watcher [w] does to the loop; the result lists the calls. The dummy has the
    callback pendingcb, which does nothing. *)
Section invoke.
Context (callback : W -> Z -> ev_loop -> option ev_loop).

Definition EV_CB_INVOKE (p : ANPENDING) (l : ev_loop) : option (ev_loop * list (W * Z)) :=
  if p_w p =? pending_w then Some (l, [])
  else l ← callback (p_w p) (p_events p) l; Some (l, [(p_w p, p_events p)]).

(** The two loops of ev_invoke_pending: [pendingpri] is read again after every
    callback. *)
Fixpoint invoke_loop (fuel : nat) (l : ev_loop) : option (ev_loop * list (W * Z)) :=
  match fuel with
  | O => None
  | S fuel =>
      cnt ← array_get (pendingcnt l) (pendingpri l);
      if negb (cnt =? 0) then
        cnts ← array_set (pendingcnt l) (pendingpri l) (cnt - 1);
        ps ← array_get (pendings l) (pendingpri l);
        p ← array_get ps (cnt - 1);
        l ← update (p_w p) (with_pending 0) (set_pendingcnt cnts l);
        '(l, log) ← EV_CB_INVOKE p l;
        '(l, log') ← invoke_loop fuel l;
        Some (l, log ++ log')
      else if pendingpri l =? 0 then Some (l, [])
      else invoke_loop fuel (set_pendingpri (pendingpri l - 1) l)
  end.

Definition ev_invoke_pending (fuel : nat) (l : ev_loop) : option (ev_loop * list (W * Z)) :=
  invoke_loop fuel (set_pendingpri (NUMPRI - 1) l).
End invoke.

(** * The heap of timers *)

Definition DHEAP : Z := 4.
Definition HEAP0 : Z := DHEAP - 1.
Definition HPARENT (k : Z) : Z := (k - HEAP0 - 1) ÷ DHEAP + HEAP0.

Definition heap_memory : Type := list ANHE * gmap W ev_watcher.

(** [heap [k] = he; ev_active (ANHE_w (he)) = k]. *)
Definition heap_store (k : Z) (he : ANHE) (s : heap_memory) : option heap_memory :=
  heap ← array_set s.1 k he;
  x ← s.2 !! he_w he;
  Some (heap, <[he_w he := with_active k x]> s.2).

(** The child at [pos + j], if it is earlier than the one found. *)
Definition earlier (heap : list ANHE) (pos j : Z) (best : Z * ev_tstamp) : option (Z * ev_tstamp) :=
  he ← array_get heap (pos + j);
  Some (if flt (he_at he) best.2 then (pos + j, he_at he) else best).

(** The minimum child of [k], if it has children. *)
Definition min_child (heap : list ANHE) (N k : Z) : option (option (Z * ev_tstamp)) :=
  let E := N + HEAP0 in
  let pos := DHEAP * (k - HEAP0) + HEAP0 + 1 in
  if pos + DHEAP - 1 <? E then
    he ← array_get heap pos;
    best ← earlier heap pos 1 (pos, he_at he);
    best ← earlier heap pos 2 best;
    best ← earlier heap pos 3 best;
    Some (Some best)
  else if pos <? E then
    he ← array_get heap pos;
    best ← (if pos + 1 <? E then earlier heap pos 1 (pos, he_at he) else Some (pos, he_at he));
    best ← (if pos + 2 <? E then earlier heap pos 2 best else Some best);
    best ← (if pos + 3 <? E then earlier heap pos 3 best else Some best);
    Some (Some best)
  else Some None.

Fixpoint downheap_loop (fuel : nat) (N k : Z) (he : ANHE) (s : heap_memory) : option heap_memory :=
  match fuel with
  | O => None
  | S fuel =>
      best ← min_child s.1 N k;
      match best with
      | None => heap_store k he s
      | Some (minpos, minat) =>
          if fle (he_at he) minat then heap_store k he s
          else m ← array_get s.1 minpos; s ← heap_store k m s; downheap_loop fuel N minpos he s
      end
  end.
Definition downheap (N k : Z) (s : heap_memory) : option heap_memory :=
  he ← array_get s.1 k; downheap_loop (S (Z.to_nat (N + HEAP0))) N k he s.

Fixpoint upheap_loop (fuel : nat) (k : Z) (he : ANHE) (s : heap_memory) : option heap_memory :=
  match fuel with
  | O => None
  | S fuel =>
      let p := HPARENT k in
      if p =? k then heap_store k he s
      else
        hp ← array_get s.1 p;
        if fle (he_at hp) (he_at he) then heap_store k he s
        else s ← heap_store k hp s; upheap_loop fuel p he s
  end.
Definition upheap (k : Z) (s : heap_memory) : option heap_memory :=
  he ← array_get s.1 k; upheap_loop (S (Z.to_nat k)) k he s.

Definition adjustheap (N k : Z) (s : heap_memory) : option heap_memory :=
  up ← (if HEAP0 <? k then
          he ← array_get s.1 k; hp ← array_get s.1 (HPARENT k); Some (fle (he_at he) (he_at hp))
        else Some false);
  if (up : bool) then upheap k s else downheap N k s.

(** The loop of reheap. *)
Fixpoint reheap (idxs : list Z) (s : heap_memory) : option heap_memory :=
  match idxs with
  | [] => Some s
  | i :: idxs => s ← upheap (i + HEAP0) s; reheap idxs s
  end.

(** * Starting and stopping *)

Definition pri_adjust (x : ev_watcher) : ev_watcher :=
  let pri := priority x in
  let pri := if pri <? EV_MINPRI then EV_MINPRI else pri in
  let pri := if EV_MAXPRI <? pri then EV_MAXPRI else pri in
  with_priority pri x.

Definition ev_ref (l : ev_loop) : ev_loop := set_activecnt (activecnt l + 1) l.
Definition ev_unref (l : ev_loop) : ev_loop := set_activecnt (activecnt l - 1) l.

Definition ev_start (w : W) (act : Z) (l : ev_loop) : option ev_loop :=
  l ← update w (fun x => with_active act (pri_adjust x)) l;
  Some (ev_ref l).

Definition ev_stop (w : W) (l : ev_loop) : option ev_loop :=
  update w (with_active 0) (ev_unref l).

(** ** Timers *)

(** The times of an [ev_timer]. *)
Definition timer_of (x : ev_watcher) : option (ev_tstamp * ev_tstamp) :=
  match body x with ev_timer at_ repeat => Some (at_, repeat) | _ => None end.
Definition set_at (at_ : ev_tstamp) (x : ev_watcher) : ev_watcher :=
  match body x with ev_timer _ repeat => with_body (ev_timer at_ repeat) x | _ => x end.

(** A heap operation on the timers of the loop. *)
Definition on_timers (f : heap_memory -> option heap_memory) (l : ev_loop) : option ev_loop :=
  s ← f (timers l, mem l); Some (set_timers s.1 (set_mem s.2 l)).

(** [ANHE_w (timers [i]) = w; ANHE_at_cache (timers [i])]. *)
Definition timers_put (i : Z) (w : W) (l : ev_loop) : option ev_loop :=
  x ← mem l !! w;
  '(at_, _) ← timer_of x;
  ts ← array_set (timers l) i (Anhe at_ w);
  Some (set_timers ts l).

Definition ev_timer_start (w : W) (l : ev_loop) : option ev_loop :=
  x ← mem l !! w;
  if negb (active x =? 0) then Some l
  else
    '(at_, repeat) ← timer_of x;
    l ← update w (set_at (fadd at_ (mn_now l))) l;
    if negb (fle fzero repeat) then None
    else
      let l := set_timercnt (timercnt l + 1) l in
      let act := timercnt l + HEAP0 - 1 in
      l ← ev_start w act l;
      ts ← array_needsize 16 (timers l) (act + 1) (Anhe fzero null);
      l ← timers_put act w (set_timers ts l);
      on_timers (upheap act) l.

Definition ev_timer_stop (w : W) (l : ev_loop) : option ev_loop :=
  l ← clear_pending w l;
  x ← mem l !! w;
  if active x =? 0 then Some l
  else
    let act := active x in
    he ← array_get (timers l) act;
    if negb (he_w he =? w) then None
    else
      let l := set_timercnt (timercnt l - 1) l in
      l ← (if act <? timercnt l + HEAP0 then
             last ← array_get (timers l) (timercnt l + HEAP0);
             ts ← array_set (timers l) act last;
             on_timers (adjustheap (timercnt l) act) (set_timers ts l)
           else Some l);
      x ← mem l !! w;
      '(at_, _) ← timer_of x;
      l ← update w (set_at (fsub at_ (mn_now l))) l;
      ev_stop w l.

Definition ev_timer_again (w : W) (l : ev_loop) : option ev_loop :=
  l ← clear_pending w l;
  x ← mem l !! w;
  '(at_, repeat) ← timer_of x;
  if negb (active x =? 0) then
    if nonzero repeat then
      l ← update w (set_at (fadd (mn_now l) repeat)) l;
      l ← timers_put (active x) w l;
      on_timers (adjustheap (timercnt l) (active x)) l
    else ev_timer_stop w l
  else if nonzero repeat then
    l ← update w (set_at repeat) l;
    ev_timer_start w l
  else Some l.

Definition ev_timer_remaining (w : W) (l : ev_loop) : option ev_tstamp :=
  x ← mem l !! w;
  '(at_, _) ← timer_of x;
  Some (fsub at_ (if negb (active x =? 0) then mn_now l else fzero)).

(** The macro ev_timer_set of ev.h. *)
Definition ev_timer_set (w : W) (after repeat : ev_tstamp) (l : ev_loop) : option ev_loop :=
  update w (with_body (ev_timer after repeat)) l.

(** Rescheduling or stopping the timer at the root. *)
Definition timer_expire (l : ev_loop) : option ev_loop :=
  he ← array_get (timers l) HEAP0;
  let w := he_w he in
  x ← mem l !! w;
  '(at_, repeat) ← timer_of x;
  l ← (if nonzero repeat then
         let at_ := fadd at_ repeat in
         let at_ := if flt at_ (mn_now l) then mn_now l else at_ in
         l ← update w (set_at at_) l;
         if negb (flt fzero repeat) then None
         else
           l ← timers_put HEAP0 w l;
           on_timers (downheap (timercnt l) HEAP0) l
       else ev_timer_stop w l);
  feed_reverse w l.

(** [timercnt && ANHE_at (timers [HEAP0]) < mn_now]. *)
Definition timer_expired (l : ev_loop) : option bool :=
  if negb (timercnt l =? 0) then
    he ← array_get (timers l) HEAP0; Some (flt (he_at he) (mn_now l))
  else Some false.

Fixpoint timers_loop (fuel : nat) (l : ev_loop) : option ev_loop :=
  match fuel with
  | O => None
  | S fuel =>
      l ← timer_expire l;
      expired ← timer_expired l;
      if (expired : bool) then timers_loop fuel l else Some l
  end.

Definition timers_reify (l : ev_loop) : option ev_loop :=
  expired ← timer_expired l;
  if (expired : bool) then
    l ← timers_loop (Z.to_nat (timercnt l)) l;
    feed_reverse_done EV_TIMER l
  else Some l.

(** * Checking *)

(** The assertions of verify_watcher and verify_heap. *)
Definition verify_watcher (l : ev_loop) (w : W) (x : ev_watcher) : bool :=
  (0 <=? ABSPRI x) && (ABSPRI x <? NUMPRI) &&
  ((pending x =? 0) ||
   bool_decide ((ps ← array_get (pendings l) (ABSPRI x); p ← array_get ps (pending x - 1); Some (p_w p)) = Some w)).

Definition verify_element (l : ev_loop) (heap : list ANHE) (i : Z) : option bool :=
  he ← array_get heap i;
  hp ← array_get heap (HPARENT i);
  x ← mem l !! he_w he;
  '(at_, _) ← timer_of x;
  Some ((active x =? i) && ((i =? HEAP0) || fle (he_at hp) (he_at he)) && feq (he_at he) at_ &&
        verify_watcher l (he_w he) x).

Definition verify_heap (l : ev_loop) (heap : list ANHE) (N : Z) : option bool :=
  foldr (fun i r => ok ← verify_element l heap i; oks ← r; Some (ok && oks)) (Some true) (seqZ HEAP0 N).

(** A loop after loop_init, which zeroes it, with the watchers of the client. *)
Definition loop_init (rt_now now : ev_tstamp) (ws : gmap W ev_watcher) : ev_loop :=
  Loop (<[pending_w := Watcher 0 0 0 ev_prepare]> ws) rt_now now [] 0
    (replicate (Z.to_nat NUMPRI) []) (replicate (Z.to_nat NUMPRI) 0) 0 0 [] [] 0 0 [] 0 [] 0.
