(* ===== verification/EvPending.v ===== *)
(** The growing arrays of ev.c, where array_nextsize gives a size that is large
    enough, and the pending events: feeding, clearing and invoking refine queues
    of events, one for each priority. *)
From S2P Require Import Prelude EvTime Ev.

Open Scope c_scope.

(** * Sizes *)

Lemma double_size_ok fuel cnt n :
  0 < n <= cnt -> cnt <= 2 ^ 25 -> cnt < n * 2 ^ Z.of_nat fuel ->
  exists r, double_size fuel cnt n = Some r /\ cnt <= r <= 2 * cnt /\ n < r.
Proof.
  revert n. induction fuel as [|fuel IH]; intros n Hn Hcnt Hlt; [simpl in Hlt; lia|].
  cbn [double_size]. rewrite Z.shiftl_mul_pow2 by lia. rewrite swrap_id by lia.
  destruct (Z.ltb_spec (n * 2 ^ 1) cnt) as [H|H].
  - destruct (IH (n * 2 ^ 1)) as (r & -> & Hr & Hr'); [lia|lia| |].
    + rewrite Nat2Z.inj_succ, Z.pow_succ_r in Hlt by lia. lia.
    + exists r. split; [done|]. lia.
  - eexists. split; [done|]. lia.
Qed.

(** Rounding down to a multiple of MALLOC_ROUND. *)
Lemma round_down x : in_u 64 x -> x .& u64 (Z.lnot 4095) = x / 4096 * 4096.
Proof.
  intros Hx. unfold wrap. rewrite <- Z.land_ones by lia. rewrite Z.land_assoc, Z.land_ones by lia.
  change 4095 with (Z.ones 12). rewrite <- Z.ldiff_land, Z.ldiff_ones_r by lia.
  rewrite Z.shiftl_mul_pow2, Z.shiftr_div_pow2 by lia. change (2 ^ 12) with 4096.
  apply Z.mod_small. pose proof (Z.div_mod x 4096 ltac:(lia)). pose proof (Z.mod_pos_bound x 4096 ltac:(lia)).
  unfold in_u in Hx. lia.
Qed.

(** A size for [cnt] elements: all of them fit, and the memory for them is
    within an int. *)
Definition holds_all (elem cnt n : Z) : Prop := cnt <= n /\ elem * n < 2 ^ 31.

Lemma nextsize_ok elem cur cnt :
  0 < elem <= 16 -> 0 <= cur < cnt -> cnt <= 2 ^ 25 ->
  exists n, array_nextsize elem cur cnt = Some n /\ holds_all elem cnt n /\ cur < n.
Proof.
  intros He Hcur Hcnt. unfold array_nextsize. rewrite swrap_id by lia.
  destruct (double_size_ok 32 cnt (cur + 1)) as (r & -> & Hr & Hr'); [lia|done| |].
  { change (Z.of_nat 32) with 32. lia. }
  cbn [mbind option_bind]. eexists. split; [done|].
  assert (0 < r * elem <= 2 ^ 30) as Hb by nia.
  rewrite (Z.mul_comm elem r), !(swrap_id 32 (r * elem)), (wrap_id 64 (r * elem)) by (unfold in_u; lia).
  change (MALLOC_ROUND - 8 * 4) with 4064. destruct (Z.ltb_spec 4064 (r * elem)) as [Hbig|Hsmall].
  2:{ unfold holds_all. nia. }
  change (MALLOC_ROUND - 1) with 4095. rewrite !(swrap_id 32 (r * elem + elem)) by lia.
  rewrite (swrap_id 32 (r * elem + elem + 4095)), (wrap_id 64 (r * elem + elem + 4095)) by (unfold in_u; lia).
  rewrite (wrap_id 64 (_ + 8 * 4)) by (unfold in_u; lia). rewrite round_down by (unfold in_u; lia).
  set (x := r * elem + elem + 4095 + 8 * 4).
  pose proof (Z.div_mod x 4096 ltac:(lia)) as Hd. pose proof (Z.mod_pos_bound x 4096 ltac:(lia)) as Hm.
  assert (r * elem + elem + 32 <= x / 4096 * 4096 <= r * elem + elem + 4095 + 32) as Hx by lia.
  rewrite (swrap_id 32 (x / 4096 * 4096)), (wrap_id 64 (x / 4096 * 4096)) by (unfold in_u; lia).
  rewrite (wrap_id 64) by (unfold in_u; lia). rewrite swrap_id by lia.
  rewrite Z.quot_div_nonneg by lia. set (b := x / 4096 * 4096 - 8 * 4) in *.
  pose proof (Z.div_mod b elem ltac:(lia)). pose proof (Z.mod_pos_bound b elem ltac:(lia)).
  assert (r + 1 <= b / elem) by (apply Z.div_le_lower_bound; lia).
  assert (b <= 2 ^ 30 + 5000) by (unfold b; lia). clearbody b. unfold holds_all. split_and!; lia.
Qed.

(** array_nextsize ends, and gives a size that holds all the elements asked
    for, is larger than the old size and whose memory is within an int, for
    elements of at most 16 bytes and up to 2^25 of them. *)
Theorem array_nextsize_bounds elem cur cnt :
  0 < elem <= 16 -> 0 <= cur < cnt -> cnt <= 2 ^ 25 ->
  exists n, array_nextsize elem cur cnt = Some n /\ holds_all elem cnt n /\ cur < n.
Proof. apply nextsize_ok. Qed.

(** The sizes of the array of timers that 500 timers give. *)
Lemma array_nextsize_bounds_witness :
  exists n, array_nextsize 16 4 504 = Some n /\ holds_all 16 504 n /\ 4 < n.
Proof. apply (array_nextsize_bounds 16 4 504); lia. Defined.

(** An array that has grown. *)
Lemma needsize_replicate {A} elem (base : list A) cnt init :
  0 < elem <= 16 -> 0 <= cnt <= 2 ^ 25 ->
  exists k, array_needsize elem base cnt init = Some (base ++ replicate k init) /\
    cnt <= Z.of_nat (length (base ++ replicate k init)).
Proof.
  intros He Hcnt. unfold array_needsize. destruct (Z.ltb_spec (Z.of_nat (length base)) cnt) as [H|H].
  - destruct (nextsize_ok elem (Z.of_nat (length base)) cnt) as (n & -> & [Hn _] & Hn'); [done|lia|lia|].
    cbn [mbind option_bind]. eexists. split; [done|]. rewrite length_app, length_replicate. lia.
  - exists O. rewrite app_nil_r. split; [done|]. lia.
Qed.

Lemma needsize_ok {A} elem (base : list A) cnt init :
  0 < elem <= 16 -> 0 <= cnt <= 2 ^ 25 ->
  exists junk, array_needsize elem base cnt init = Some (base ++ junk) /\
    cnt <= Z.of_nat (length (base ++ junk)).
Proof.
  intros He Hcnt. destruct (needsize_replicate elem base cnt init He Hcnt) as (k & H1 & H2). eauto.
Qed.

(** * Queues of pending events *)

(** The events that are pending at a priority, the one that is invoked first
    last. *)
Definition queue : Type := list (W * Z).

Definition feed (w : W) (revents : Z) (st : queue) : queue :=
  if decide (w ∈ st.*1) then (fun p => if decide (p.1 = w) then (w, p.2 .| revents) else p) <$> st
  else st ++ [(w, revents)].

Definition unfeed (w : W) (st : queue) : queue := List.filter (fun p => negb (bool_decide (p.1 = w))) st.

(** * What the arrays hold *)

(** The elements of an array that are in use. *)
Definition stack (l : ev_loop) (pri : Z) : option (list ANPENDING) :=
  ps ← array_get (pendings l) pri;
  cnt ← array_get (pendingcnt l) pri;
  if decide (0 <= cnt <= Z.of_nat (length ps)) then Some (take (Z.to_nat cnt) ps) else None.

Definition live (p : ANPENDING) : option (W * Z) :=
  if decide (p_w p = pending_w) then None else Some (p_w p, p_events p).

Lemma live_cons p (q : list ANPENDING) :
  omap live (p :: q) = (if decide (p_w p = pending_w) then [] else [(p_w p, p_events p)]) ++ omap live q.
Proof. simpl. unfold live at 1. by case_decide. Qed.

(** Updates of a queue. *)
Lemma live_other w f (q : list ANPENDING) :
  (forall p, p ∈ q -> p_w p <> w) ->
  (fun p : W * Z => if decide (p.1 = w) then f p else p) <$> omap live q = omap live q.
Proof.
  intros H. induction q as [|p q IH]; [done|]. rewrite live_cons. case_decide as E; simpl.
  - apply IH. intros p' Hp'. apply H. by right.
  - rewrite decide_False by (apply H; by left). f_equal.
    apply IH. intros p' Hp'. apply H. by right.
Qed.

Lemma live_unfeed w (q : list ANPENDING) : (forall p, p ∈ q -> p_w p <> w) -> unfeed w (omap live q) = omap live q.
Proof.
  intros H. unfold unfeed. induction q as [|p q IH]; [done|]. rewrite live_cons. case_decide as E; simpl.
  - apply IH. intros p' Hp'. apply H. by right.
  - rewrite bool_decide_false by (apply H; by left). simpl. f_equal.
    apply IH. intros p' Hp'. apply H. by right.
Qed.

Lemma unfeed_app w st1 st2 : unfeed w (st1 ++ st2) = unfeed w st1 ++ unfeed w st2.
Proof. apply List.filter_app. Qed.

Lemma live_fst (q : list ANPENDING) w : w ∈ (omap live q).*1 -> exists p, p ∈ q /\ p_w p = w.
Proof.
  intros ([w' e] & -> & (p & Hp & Hl)%list_elem_of_omap)%list_elem_of_fmap. exists p. split; [done|].
  unfold live in Hl. case_decide; [done|]. by injection Hl.
Qed.

Section queues.
Context (l : ev_loop).

(** ** Accesses *)

Lemma stack_Some pri q :
  stack l pri = Some q ->
  exists ps, array_get (pendings l) pri = Some ps /\ array_get (pendingcnt l) pri = Some (Z.of_nat (length q)) /\
    ps = q ++ drop (length q) ps.
Proof.
  unfold stack. destruct (array_get (pendings l) pri) as [ps|]; [|done]. cbn [mbind option_bind].
  destruct (array_get (pendingcnt l) pri) as [cnt|]; [|done]. cbn [mbind option_bind].
  case_decide as Hc; [|done]. intros [= <-]. exists ps. split; [done|].
  assert (length (take (Z.to_nat cnt) ps) = Z.to_nat cnt) as Hl by (rewrite length_take; lia).
  rewrite Hl. split; [f_equal; lia|]. by rewrite take_drop.
Qed.

Lemma stack_intro l' pri q rest :
  array_get (pendings l') pri = Some (q ++ rest) -> array_get (pendingcnt l') pri = Some (Z.of_nat (length q)) ->
  stack l' pri = Some q.
Proof.
  intros H1 H2. unfold stack. rewrite H1. cbn [mbind option_bind]. rewrite H2. cbn [mbind option_bind].
  rewrite length_app, decide_True by lia. by rewrite Nat2Z.id, take_app_length.
Qed.

Lemma stack_same l' pri :
  array_get (pendings l') pri = array_get (pendings l) pri ->
  array_get (pendingcnt l') pri = array_get (pendingcnt l) pri -> stack l' pri = stack l pri.
Proof. intros H1 H2. unfold stack. by rewrite H1, H2. Qed.

(** Replacing an element. *)
Lemma stack_set pri q1 p q2 p' :
  stack l pri = Some (q1 ++ p :: q2) ->
  exists ps ps' pss, array_get (pendings l) pri = Some ps /\
    array_get ps (Z.of_nat (length q1)) = Some p /\
    array_set ps (Z.of_nat (length q1)) p' = Some ps' /\ array_set (pendings l) pri ps' = Some pss /\
    forall l', pendings l' = pss -> pendingcnt l' = pendingcnt l -> forall pri',
      stack l' pri' = if decide (pri' = pri) then Some (q1 ++ p' :: q2) else stack l pri'.
Proof.
  intros (ps & Hps & Hcnt & Heq)%stack_Some. rewrite <- app_assoc in Heq. simpl in Heq.
  pose proof (array_get_Some _ _ _ Hps) as [Hr _].
  set (rest := drop _ _) in Heq.
  assert (Z.of_nat (length q1) < Z.of_nat (length ps)) as Hl by (rewrite Heq, length_app; simpl; lia).
  exists ps, (q1 ++ p' :: q2 ++ rest), (<[Z.to_nat pri := q1 ++ p' :: q2 ++ rest]> (pendings l)).
  split_and!; [done| | | |].
  - unfold array_get. destruct (Z.ltb_spec (Z.of_nat (length q1)) 0); [lia|]. by rewrite Nat2Z.id, Heq, lookup_app_mid.
  - rewrite array_set_Some by lia. rewrite Nat2Z.id, Heq. rewrite insert_app_r_alt by lia. by rewrite Nat.sub_diag.
  - by apply array_set_Some.
  - intros l' E1 E2 pri'. case_decide as E.
    + subst pri'. apply (stack_intro _ _ _ rest).
      * rewrite E1, array_get_insert by done. rewrite decide_True by done. by rewrite <- app_assoc.
      * rewrite E2, Hcnt. by rewrite !length_app.
    + apply stack_same; [|by rewrite E2]. rewrite E1, array_get_insert by done. by rewrite decide_False by congruence.
Qed.

(** Adding an element. *)
Lemma stack_push pri q p' :
  stack l pri = Some q -> Z.of_nat (length q) < 2 ^ 25 ->
  exists ps cnts ps1 ps' pss, array_get (pendings l) pri = Some ps /\
    array_get (pendingcnt l) pri = Some (Z.of_nat (length q)) /\
    array_set (pendingcnt l) pri (Z.of_nat (length q) + 1) = Some cnts /\
    array_needsize 16 ps (Z.of_nat (length q) + 1) (Pending null 0) = Some ps1 /\
    array_set ps1 (Z.of_nat (length q)) p' = Some ps' /\ array_set (pendings l) pri ps' = Some pss /\
    forall l', pendings l' = pss -> pendingcnt l' = cnts -> forall pri',
      stack l' pri' = if decide (pri' = pri) then Some (q ++ [p']) else stack l pri'.
Proof.
  intros (ps & Hps & Hcnt & Heq)%stack_Some Hlt.
  pose proof (array_get_Some _ _ _ Hps) as [Hr _]. pose proof (array_get_Some _ _ _ Hcnt) as [Hr' _].
  destruct (needsize_ok 16 ps (Z.of_nat (length q) + 1) (Pending null 0)) as (junk & Hgrow & Hlen); [lia|lia|].
  set (rest := drop (length q) ps) in Heq.
  rewrite Heq, <- app_assoc in Hlen. rewrite length_app in Hlen.
  destruct (rest ++ junk) as [|x rest'] eqn:Hrest; [simpl in Hlen; lia|].
  exists ps, (<[Z.to_nat pri := Z.of_nat (length q) + 1]> (pendingcnt l)), (q ++ x :: rest'),
    (q ++ p' :: rest'), (<[Z.to_nat pri := q ++ p' :: rest']> (pendings l)).
  split_and!; [done|done|by apply array_set_Some| | |by apply array_set_Some|].
  - rewrite Hgrow. f_equal. rewrite Heq at 1. by rewrite <- app_assoc, Hrest.
  - rewrite array_set_Some by (rewrite length_app; simpl; lia). rewrite Nat2Z.id, insert_app_r_alt by lia.
    by rewrite Nat.sub_diag.
  - intros l' E1 E2 pri'. case_decide as E.
    + subst pri'. apply (stack_intro _ _ _ rest').
      * rewrite E1, array_get_insert by done. rewrite decide_True by done. by rewrite <- app_assoc.
      * rewrite E2, array_get_insert by done. rewrite decide_True by done. rewrite length_app. simpl. f_equal. lia.
    + apply stack_same; [rewrite E1|rewrite E2]; rewrite array_get_insert by done; by rewrite decide_False by congruence.
Qed.

(** Taking the last element. *)
Lemma stack_pop pri q p :
  stack l pri = Some (q ++ [p]) ->
  exists ps cnts, array_get (pendings l) pri = Some ps /\
    array_get (pendingcnt l) pri = Some (Z.of_nat (length q) + 1) /\
    array_set (pendingcnt l) pri (Z.of_nat (length q)) = Some cnts /\
    array_get ps (Z.of_nat (length q)) = Some p /\
    forall l', pendings l' = pendings l -> pendingcnt l' = cnts -> forall pri',
      stack l' pri' = if decide (pri' = pri) then Some q else stack l pri'.
Proof.
  intros (ps & Hps & Hcnt & Heq)%stack_Some.
  pose proof (array_get_Some _ _ _ Hcnt) as [Hr' _]. set (rest := drop _ _) in Heq.
  rewrite <- app_assoc in Heq. simpl in Heq.
  exists ps, (<[Z.to_nat pri := Z.of_nat (length q)]> (pendingcnt l)). split_and!; [done| |by apply array_set_Some| |].
  - rewrite Hcnt, length_app. simpl. f_equal. lia.
  - unfold array_get. destruct (Z.ltb_spec (Z.of_nat (length q)) 0); [lia|]. by rewrite Nat2Z.id, Heq, lookup_app_mid.
  - intros l' E1 E2 pri'. case_decide as E.
    + subst pri'. apply (stack_intro _ _ _ (p :: rest)); [by rewrite E1, Hps, Heq|].
      rewrite E2, array_get_insert by done. by rewrite decide_True.
    + apply stack_same; [by rewrite E1|]. rewrite E2, array_get_insert by done. by rewrite decide_False by congruence.
Qed.
End queues.

(** * The invariant *)

Definition queues : Type := Z -> queue.
Definition upd (P : queues) (pri : Z) (st : queue) : queues := fun i => if decide (i = pri) then st else P i.

Definition priority_ok (x : ev_watcher) : Prop := 0 <= ABSPRI x < NUMPRI.

Record pending_ok (l : ev_loop) (P : queues) : Prop := PendingOk {
  po_stack : forall pri, 0 <= pri < NUMPRI -> exists q, stack l pri = Some q /\ P pri = omap live q;
  po_entry : forall pri q j p, stack l pri = Some q -> q !! j = Some p -> p_w p <> pending_w ->
    exists x, mem l !! p_w p = Some x /\ pending x = Z.of_nat j + 1 /\ ABSPRI x = pri;
  po_watcher : forall w x, mem l !! w = Some x -> pending x <> 0 -> w <> pending_w /\ priority_ok x /\
    exists q j p, stack l (ABSPRI x) = Some q /\ q !! j = Some p /\ pending x = Z.of_nat j + 1 /\ p_w p = w;
  po_dummy : exists x, mem l !! pending_w = Some x;
}.

(** [pendingpri] is not below a priority in use. *)
Definition top_ok (l : ev_loop) : Prop :=
  0 <= pendingpri l < NUMPRI /\ forall pri, pendingpri l < pri < NUMPRI -> stack l pri = Some [].

(** Each stack has room for [n] elements. *)
Definition roomy (n : Z) (l : ev_loop) : Prop :=
  forall pri q, stack l pri = Some q -> Z.of_nat (length q) + n <= 2 ^ 25.

(** Only what concerns pending events differs. *)
Definition pending_frame (l l' : ev_loop) : Prop :=
  exists m pss cnts pri, l' = set_mem m (set_pendings pss (set_pendingcnt cnts (set_pendingpri pri l))) /\
    with_pending 0 <$> m = with_pending 0 <$> mem l.

Lemma pending_frame_refl l : pending_frame l l.
Proof. exists (mem l), (pendings l), (pendingcnt l), (pendingpri l). by destruct l. Qed.

Lemma pending_frame_trans l1 l2 l3 : pending_frame l1 l2 -> pending_frame l2 l3 -> pending_frame l1 l3.
Proof.
  intros (m & pss & cnts & pri & -> & E) (m' & pss' & cnts' & pri' & -> & E').
  exists m', pss', cnts', pri'. split; [by destruct l1|]. by rewrite E', <- E.
Qed.

(** A change of the pending mark of one watcher. *)
Lemma frame_update l w x n pss cnts pri :
  mem l !! w = Some x ->
  pending_frame l (set_mem (<[w := with_pending n x]> (mem l)) (set_pendings pss (set_pendingcnt cnts (set_pendingpri pri l)))).
Proof.
  intros Hx. eexists _, pss, cnts, pri. split; [done|]. rewrite fmap_insert. apply insert_id.
  by rewrite lookup_fmap, Hx.
Qed.

(** The element of a pending watcher splits its stack. *)
Lemma pending_split l P w x :
  pending_ok l P -> mem l !! w = Some x -> pending x <> 0 ->
  exists q1 e q2, stack l (ABSPRI x) = Some (q1 ++ Pending w e :: q2) /\ pending x = Z.of_nat (length q1) + 1 /\
    w <> pending_w /\ priority_ok x /\
    P (ABSPRI x) = omap live q1 ++ (w, e) :: omap live q2 /\
    (forall p, p ∈ q1 ++ q2 -> p_w p <> w).
Proof.
  intros Hok Hx Hp. destruct (po_watcher l P Hok w x Hx Hp) as (Hw & Hpri & q & j & p & Hq & Hj & Hpx & Hpw).
  destruct (list_elem_of_split_length q j p Hj) as (q1 & q2 & -> & ->). destruct p as [w' e]. simpl in Hpw. subst w'.
  exists q1, e, q2. split_and!; try done.
  - destruct (po_stack l P Hok (ABSPRI x) Hpri) as (q' & Hq' & ->). assert (q' = q1 ++ Pending w e :: q2) as -> by congruence.
    rewrite omap_app, live_cons. by rewrite decide_False.
  - intros p Hin Hpe. assert (exists j', (q1 ++ Pending w e :: q2) !! j' = Some p /\ j' <> length q1) as (j' & Hj' & Hne).
    { apply list_elem_of_lookup in Hin as [i Hi]. apply lookup_app_Some in Hi as [Hi|[Hge Hi]].
      - exists i. split; [by rewrite lookup_app_l by (by eapply lookup_lt_Some)|]. apply lookup_lt_Some in Hi. lia.
      - exists (S i). split; [|lia]. rewrite lookup_app_r by lia. by replace (S i - length q1)%nat with (S (i - length q1)) by lia. }
    destruct (po_entry l P Hok _ _ j' p Hq Hj') as (x' & Hx' & Hp' & _); [congruence|].
    rewrite Hpe in Hx'. assert (x' = x) as -> by congruence. lia.
Qed.

(** A watcher that is not pending has no element. *)
Lemma not_pending l P w x pri q p :
  pending_ok l P -> mem l !! w = Some x -> pending x = 0 -> w <> pending_w -> stack l pri = Some q -> p ∈ q -> p_w p <> w.
Proof.
  intros Hok Hx Hp Hw Hq [j Hj]%list_elem_of_lookup E.
  destruct (po_entry l P Hok pri q j p Hq Hj) as (x' & Hx' & Hp' & _); [congruence|].
  rewrite E in Hx'. assert (x' = x) as -> by congruence. lia.
Qed.

(** * Preservation *)

(** One watcher and one stack change: the element at [j] of the stack of [pri]
    is the one of [w], if the watcher is pending afterwards. *)
Lemma pending_update l P l' w x n pri q q' :
  pending_ok l P -> mem l !! w = Some x -> ABSPRI x = pri -> 0 <= pri < NUMPRI -> stack l pri = Some q ->
  mem l' = <[w := with_pending n x]> (mem l) ->
  (forall pri', stack l' pri' = if decide (pri' = pri) then Some q' else stack l pri') ->
  (forall j p, q' !! j = Some p -> p_w p <> w -> p_w p <> pending_w -> q !! j = Some p) ->
  (forall j p, q !! j = Some p -> p_w p <> w -> p_w p <> pending_w -> q' !! j = Some p) ->
  (forall j p, q' !! j = Some p -> p_w p = w -> w <> pending_w -> n = Z.of_nat j + 1) ->
  (n <> 0 -> w <> pending_w /\ exists j p, q' !! j = Some p /\ n = Z.of_nat j + 1 /\ p_w p = w) ->
  (forall pri' q'' p, pri' <> pri -> stack l pri' = Some q'' -> p ∈ q'' -> p_w p = w -> w = pending_w) ->
  pending_ok l' (upd P pri (omap live q')).
Proof.
  intros Hok Hx Hpri Hr Hq Hm Hst H1 H2 H3 H4 H5. split.
  - intros pri' Hr'. rewrite Hst. unfold upd. case_decide as E; [by exists q'|]. by apply (po_stack l P Hok).
  - intros pri' q'' j p. rewrite Hst, Hm. case_decide as E.
    + intros [= <-] Hj Hp. destruct (decide (p_w p = w)) as [Hw|Hw].
      * rewrite Hw, lookup_insert_eq. eexists. split; [done|]. split; [apply (H3 j p); congruence|]. simpl. by subst.
      * rewrite lookup_insert_ne by congruence. subst pri'. apply (po_entry l P Hok pri q j p Hq); auto.
    + intros Hq'' Hj Hp. rewrite lookup_insert_ne; [by apply (po_entry l P Hok pri' q'' j p)|].
      intros Hw. apply Hp. rewrite <- Hw. apply (H5 pri' q'' p E Hq''); [by eapply list_elem_of_lookup_2|done].
  - intros w' x'. rewrite Hm. destruct (decide (w' = w)) as [->|Hne].
    + rewrite lookup_insert_eq. intros [= <-] Hn. simpl in Hn. destruct (H4 Hn) as (Hw & j & p & Hj & Hnj & Hpw).
      split; [done|]. unfold priority_ok. change (ABSPRI (with_pending n x)) with (ABSPRI x). rewrite Hpri.
      split; [done|]. exists q', j, p. rewrite Hst, decide_True by done. done.
    + rewrite lookup_insert_ne by congruence. intros Hx' Hn.
      destruct (po_watcher l P Hok w' x' Hx' Hn) as (Hw & Hp & q'' & j & p & Hq'' & Hj & Hnj & Hpw).
      split; [done|]. split; [done|]. rewrite Hst. case_decide as E; [|by exists q'', j, p].
      exists q', j, p. split_and!; try done. rewrite E in Hq''. apply H2; [|congruence..]. congruence.
  - destruct (po_dummy l P Hok) as [y Hy]. rewrite Hm. destruct (decide (w = pending_w)) as [->|].
    + rewrite lookup_insert_eq. eauto.
    + rewrite lookup_insert_ne by done. eauto.
Qed.

Lemma live_replace q1 w e e' (q2 : list ANPENDING) :
  w <> pending_w -> (forall p, p ∈ q1 ++ q2 -> p_w p <> w) ->
  omap live (q1 ++ Pending w e :: q2) = omap live q1 ++ (w, e) :: omap live q2 /\
  feed w e' (omap live (q1 ++ Pending w e :: q2)) = omap live (q1 ++ Pending w (e .| e') :: q2) /\
  unfeed w (omap live (q1 ++ Pending w e :: q2)) = omap live (q1 ++ Pending pending_w e :: q2).
Proof.
  intros Hw Hne. assert (forall e, omap live (q1 ++ Pending w e :: q2) = omap live q1 ++ (w, e) :: omap live q2) as E.
  { intros e0. rewrite omap_app, live_cons. by rewrite decide_False. }
  split_and!; [done| |].
  - rewrite !E. unfold feed. rewrite decide_True.
    2:{ rewrite fmap_app, fmap_cons. apply elem_of_app. right. by left. }
    rewrite fmap_app, fmap_cons, !live_other; simpl; [by rewrite decide_True|..];
      intros p Hp; apply Hne; set_solver.
  - rewrite E, omap_app, live_cons, unfeed_app. unfold unfeed at 2. simpl. rewrite bool_decide_true by done. simpl.
    fold (unfeed w (omap live q2)). rewrite !live_unfeed; [done|..]; intros p Hp; apply Hne; set_solver.
Qed.

(** Replacing the element of a pending watcher. *)
Lemma pending_replace l P w x q1 e q2 e' l' n :
  pending_ok l P -> mem l !! w = Some x -> pending x <> 0 -> stack l (ABSPRI x) = Some (q1 ++ Pending w e :: q2) ->
  pending x = Z.of_nat (length q1) + 1 -> w <> pending_w -> priority_ok x -> (forall p, p ∈ q1 ++ q2 -> p_w p <> w) ->
  mem l' = <[w := with_pending n x]> (mem l) ->
  let w' := if n =? 0 then pending_w else w in
  n = 0 \/ n = pending x ->
  (forall pri', stack l' pri' = if decide (pri' = ABSPRI x) then Some (q1 ++ Pending w' e' :: q2) else stack l pri') ->
  pending_ok l' (upd P (ABSPRI x) (omap live (q1 ++ Pending w' e' :: q2))).
Proof.
  intros Hok Hx Hp Hq Hpx Hw Hpri Hne Hm w' Hn Hst.
  assert (forall p, p_w p <> w -> p_w p <> pending_w -> p_w p <> w') as Hw' by (intros; unfold w'; by destruct (n =? 0)).
  assert (forall (l1 l2 : list ANPENDING) a b j c, (l1 ++ a :: l2) !! j = Some c -> c <> a -> (l1 ++ b :: l2) !! j = Some c) as Hswap.
  { intros l1 l2 a b j c. rewrite !lookup_app. destruct (l1 !! j); [done|].
    destruct (j - length l1)%nat; [|done]. simpl. congruence. }
  apply (pending_update l P l' w x n (ABSPRI x) (q1 ++ Pending w e :: q2)); try done.
  - intros j p Hj Hpw Hpd. apply (Hswap q1 q2 (Pending w' e')); [done|]. intros ->. by apply (Hw' (Pending w' e')).
  - intros j p Hj Hpw Hpd. apply (Hswap q1 q2 (Pending w e)); [done|]. intros ->. done.
  - intros j p Hj Hpw _. destruct (decide (j = length q1)) as [->|Hj'].
    + rewrite lookup_app_mid in Hj. injection Hj as <-. simpl in Hpw. unfold w' in Hpw.
      destruct (Z.eqb_spec n 0); [by subst|]. lia.
    + exfalso. apply (Hne p); [|done]. rewrite lookup_app in Hj. destruct (q1 !! j) eqn:E.
      * injection Hj as <-. apply elem_of_app. left. by eapply list_elem_of_lookup_2.
      * apply lookup_ge_None in E. destruct (j - length q1)%nat eqn:Ej; [lia|]. simpl in Hj.
        apply elem_of_app. right. by eapply list_elem_of_lookup_2.
  - intros Hn0. split; [done|]. exists (length q1), (Pending w' e'). rewrite lookup_app_mid. split_and!; [done|lia|].
    unfold w'. simpl. by rewrite (proj2 (Z.eqb_neq n 0)).
  - intros pri' q'' p Hpp Hq'' Hin Hpw. exfalso. apply list_elem_of_lookup in Hin as [j Hj].
    destruct (po_entry l P Hok pri' q'' j p Hq'' Hj) as (x' & Hx' & _ & Hpri'); [congruence|]. congruence.
Qed.

(** ** Feeding *)

Definition fed (P : queues) (w : W) (pri revents : Z) : queues := upd P pri (feed w revents (P pri)).

Lemma feed_event_ok l P w x revents :
  pending_ok l P -> roomy 1 l -> mem l !! w = Some x -> w <> pending_w -> priority_ok x ->
  exists l', ev_feed_event w revents l = Some l' /\ pending_ok l' (fed P w (ABSPRI x) revents) /\
    pending_frame l l' /\ top_ok l' /\ forall n, roomy (n + 1) l -> roomy n l'.
Proof.
  intros Hok Hroom Hx Hw Hpri. unfold ev_feed_event. rewrite Hx. cbn [mbind option_bind].
  destruct (po_stack l P Hok (ABSPRI x) Hpri) as (q & Hq & HP).
  assert (forall l', pendingpri l' = NUMPRI - 1 -> top_ok l') as Htop.
  { intros l' E. split; rewrite E; unfold NUMPRI, EV_MAXPRI, EV_MINPRI; lia. }
  assert (forall l' q', (forall pri', stack l' pri' = if decide (pri' = ABSPRI x) then Some q' else stack l pri') ->
    (length q' <= S (length q))%nat -> forall n, roomy (n + 1) l -> roomy n l') as Hrm.
  { intros l' q' Hst Hlen n Hr pri' q''. rewrite Hst. case_decide as E; [|intros H; pose proof (Hr pri' q'' H); lia].
    intros [= <-]. pose proof (Hr _ q Hq). lia. }
  destruct (Z.eqb_spec (pending x) 0) as [Hp|Hp]; cbn [negb].
  - destruct (stack_push l (ABSPRI x) q (Pending w revents) Hq) as (ps & cnts & ps1 & ps' & pss & Hps & Hcnt & Hcnts & Hgrow & Hset & Hpss & Hst);
      [pose proof (Hroom _ q Hq); lia|].
    rewrite Hps. cbn [mbind option_bind]. rewrite Hcnt. cbn [mbind option_bind]. rewrite Hcnts. cbn [mbind option_bind].
    unfold update. cbn [mem set_pendingcnt]. rewrite Hx. cbn [mbind option_bind].
    rewrite Hgrow. cbn [mbind option_bind]. rewrite Hset. cbn [mbind option_bind pendings set_mem set_pendingcnt].
    rewrite Hpss. cbn [mbind option_bind]. eexists. split; [done|]. specialize (Hst (set_pendingpri (NUMPRI - 1) (set_pendings pss
      (set_mem (<[w:=with_pending (Z.of_nat (length q) + 1) x]> (mem l)) (set_pendingcnt cnts l)))) eq_refl eq_refl).
    assert (forall pri' q' p, stack l pri' = Some q' -> p ∈ q' -> p_w p <> w) as Hno.
    { intros pri' q' p Hq' Hin. by apply (not_pending l P w x pri' q' p Hok Hx Hp Hw Hq'). }
    split_and!; [|by apply (frame_update l w x _ pss cnts)|by apply Htop|by apply (Hrm _ _ Hst); rewrite length_app; simpl; lia].
    assert (feed w revents (P (ABSPRI x)) = omap live (q ++ [Pending w revents])) as Hfeed.
    { unfold feed. rewrite HP, omap_app. rewrite decide_False.
      - f_equal. simpl. unfold live. by rewrite decide_False.
      - intros (p & Hin & Hpw)%live_fst. by apply (Hno (ABSPRI x) q p). }
    unfold fed. rewrite Hfeed.
    apply (pending_update l P _ w x (Z.of_nat (length q) + 1) (ABSPRI x) q); try done.
    + intros j p Hj Hpw _. apply lookup_snoc_Some in Hj as [[_ Hj]|[_ <-]]; done.
    + intros j p Hj _ _. by apply lookup_app_l_Some.
    + intros j p Hj Hpw _. apply lookup_snoc_Some in Hj as [[_ Hj]|[-> _]]; [|done].
      exfalso. apply (Hno _ q p Hq); [by eapply list_elem_of_lookup_2|done].
    + intros _. split; [done|]. exists (length q), (Pending w revents). rewrite lookup_snoc_Some. auto.
    + intros pri' q' p _ Hq' Hin Hpw. exfalso. by apply (Hno pri' q' p).
  - destruct (pending_split l P w x Hok Hx Hp) as (q1 & e & q2 & Hq' & Hpx & _ & _ & HP' & Hne).
    assert (q = q1 ++ Pending w e :: q2) as -> by congruence.
    destruct (stack_set l (ABSPRI x) q1 _ q2 (Pending w (e .| revents)) Hq) as (ps & ps' & pss & Hps & Hget & Hset & Hpss & Hst).
    rewrite Hps. cbn [mbind option_bind]. rewrite Hpx. replace (Z.of_nat (length q1) + 1 - 1) with (Z.of_nat (length q1)) by lia.
    rewrite Hget. cbn [mbind option_bind p_w p_events]. rewrite Hset. cbn [mbind option_bind]. rewrite Hpss.
    cbn [mbind option_bind]. eexists. split; [done|].
    specialize (Hst (set_pendingpri (NUMPRI - 1) (set_pendings pss l)) eq_refl eq_refl).
    split_and!; [| |by apply Htop|by apply (Hrm _ _ Hst); rewrite !length_app; simpl; lia].
    + unfold fed. rewrite HP. destruct (live_replace q1 w e revents q2 Hw Hne) as (_ & -> & _).
      pose proof (pending_replace l P w x q1 e q2 (e .| revents) (set_pendingpri (NUMPRI - 1) (set_pendings pss l)) (pending x)) as H.
      cbv zeta in H. rewrite (proj2 (Z.eqb_neq _ _) Hp) in H. apply H; try done; [|by right].
      simpl. symmetry. apply insert_id. rewrite Hx. by destruct x.
    + exists (mem l), pss, (pendingcnt l), (NUMPRI - 1). by destruct l.
Qed.

(** ** Clearing *)

Definition cleared (P : queues) (w : W) (pri : Z) : queues := upd P pri (unfeed w (P pri)).

Lemma drop_pending_ok l P w x :
  pending_ok l P -> mem l !! w = Some x -> pending x <> 0 ->
  exists e l', drop_pending x w l = Some (e, l') /\ (w, e) ∈ P (ABSPRI x) /\
    pending_ok l' (cleared P w (ABSPRI x)) /\ pending_frame l l' /\ mem l' = <[w := with_pending 0 x]> (mem l) /\
    (top_ok l -> top_ok l') /\ forall n, roomy n l -> roomy n l'.
Proof.
  intros Hok Hx Hp. destruct (pending_split l P w x Hok Hx Hp) as (q1 & e & q2 & Hq & Hpx & Hw & Hpri & HP & Hne).
  unfold drop_pending. rewrite Hpx. replace (Z.of_nat (length q1) + 1 - 1) with (Z.of_nat (length q1)) by lia.
  destruct (stack_set l (ABSPRI x) q1 _ q2 (Pending pending_w e) Hq) as (ps & ps' & pss & -> & Hget & Hset & Hpss & Hst).
  cbn [mbind option_bind]. rewrite Hget. cbn [mbind option_bind p_events]. rewrite Hset. cbn [mbind option_bind].
  rewrite Hpss. cbn [mbind option_bind]. unfold update. cbn [mem set_pendings]. rewrite Hx. cbn [mbind option_bind].
  specialize (Hst (set_mem (<[w:=with_pending 0 x]> (mem l)) (set_pendings pss l)) eq_refl eq_refl).
  eexists e, _. split; [done|]. split_and!; [by rewrite HP; set_solver| | |done| |].
  - unfold cleared.
    destruct (po_stack l P Hok (ABSPRI x) Hpri) as (q & Hq' & ->). assert (q = q1 ++ Pending w e :: q2) as -> by congruence.
    destruct (live_replace q1 w e 0 q2 Hw Hne) as (_ & _ & ->).
    apply (pending_replace l P w x q1 e q2 e (set_mem (<[w:=with_pending 0 x]> (mem l)) (set_pendings pss l)) 0); try done. by left.
  - pose proof (frame_update l w x 0 pss (pendingcnt l) (pendingpri l) Hx) as Hfr. by destruct l.
  - intros [Ht Hem]. split; [done|]. simpl. intros pri' Hr. rewrite Hst. case_decide as E; [|by apply Hem].
    subst pri'. rewrite (Hem _ Hr) in Hq. by destruct q1.
  - intros n Hr pri' q'. rewrite Hst. case_decide as E; [|by apply Hr]. intros [= <-].
    pose proof (Hr _ _ Hq) as Hlen. rewrite length_app in *. simpl in *. lia.
Qed.

Lemma clear_pending_ok l P w x :
  pending_ok l P -> mem l !! w = Some x ->
  exists l', clear_pending w l = Some l' /\
    pending_ok l' (if pending x =? 0 then P else cleared P w (ABSPRI x)) /\ pending_frame l l' /\
    mem l' = <[w := with_pending 0 x]> (mem l) /\
    (top_ok l -> top_ok l') /\ forall n, roomy n l -> roomy n l'.
Proof.
  intros Hok Hx. unfold clear_pending. rewrite Hx. cbn [mbind option_bind].
  destruct (Z.eqb_spec (pending x) 0) as [Hp|Hp]; cbn [negb].
  - exists l. split_and!; try done; [apply pending_frame_refl|]. symmetry. apply insert_id. rewrite Hx. f_equal.
    destruct x. unfold with_pending. simpl in *. by subst.
  - destruct (drop_pending_ok l P w x Hok Hx Hp) as (e & l' & Hrun & _ & H1 & H2 & Hm & H3 & H4).
    rewrite Hrun. cbn [mbind option_bind]. by exists l'.
Qed.

(** ** Taking the last element *)

Lemma pop_ok l P pri q p :
  pending_ok l P -> top_ok l -> 0 <= pri < NUMPRI -> stack l pri = Some (q ++ [p]) ->
  exists cnts ps l', array_get (pendingcnt l) pri = Some (Z.of_nat (length q) + 1) /\
    array_set (pendingcnt l) pri (Z.of_nat (length q)) = Some cnts /\
    array_get (pendings l) pri = Some ps /\ array_get ps (Z.of_nat (length q)) = Some p /\
    update (p_w p) (with_pending 0) (set_pendingcnt cnts l) = Some l' /\
    pending_ok l' (upd P pri (omap live q)) /\ pending_frame l l' /\ pendingpri l' = pendingpri l /\ top_ok l' /\
    (forall n, roomy n l -> roomy n l') /\ forall pri', stack l' pri' = if decide (pri' = pri) then Some q else stack l pri'.
Proof.
  intros Hok [Ht Hem] Hpri Hq. destruct (stack_pop l pri q p Hq) as (ps & cnts & Hps & Hcnt & Hset & Hget & Hst).
  assert ((q ++ [p]) !! length q = Some p) as Hlast by (rewrite lookup_app_r, Nat.sub_diag by lia; done).
  assert (exists x, mem l !! p_w p = Some x /\
    (p_w p <> pending_w -> pending x = Z.of_nat (length q) + 1 /\ ABSPRI x = pri)) as (x & Hx & Hxp).
  { destruct (decide (p_w p = pending_w)) as [->|Hne].
    - destruct (po_dummy l P Hok) as [x Hx]. by exists x.
    - destruct (po_entry l P Hok pri _ _ p Hq Hlast Hne) as (x & Hx & Hp). by exists x. }
  exists cnts, ps. unfold update. cbn [mem set_pendingcnt]. rewrite Hx. cbn [mbind option_bind].
  eexists. split_and!; try done.
  - specialize (Hst (set_mem (<[p_w p:=with_pending 0 x]> (mem l)) (set_pendingcnt cnts l)) eq_refl eq_refl).
    split.
    + intros pri' Hr'. rewrite Hst. unfold upd. case_decide as E; [by exists q|]. by apply (po_stack l P Hok).
    + intros pri' q' j p' Hq' Hj Hp'.
      assert (exists q0, stack l pri' = Some q0 /\ q0 !! j = Some p' /\ (pri' = pri -> (j < length q)%nat)) as (q0 & Hq0 & Hj0 & Hlt).
      { rewrite Hst in Hq'. case_decide as E; [|by exists q'; split_and!].
        injection Hq' as ->. exists (q' ++ [p]). subst. split_and!; [done|by apply lookup_app_l_Some|].
        intros _. by eapply lookup_lt_Some. }
      destruct (po_entry l P Hok pri' q0 j p' Hq0 Hj0 Hp') as (x' & Hx' & Hpx' & Habs). simpl.
      rewrite lookup_insert_ne; [by exists x'|]. intros E. destruct Hxp as [Hxp1 Hxp2]; [congruence|].
      rewrite <- E in Hx'. assert (x' = x) as -> by congruence. specialize (Hlt ltac:(congruence)). lia.
    + intros w x'. simpl. destruct (decide (w = p_w p)) as [->|Hne].
      { rewrite lookup_insert_eq. intros [= <-]. done. }
      rewrite lookup_insert_ne by congruence. intros Hx' Hp'.
      destruct (po_watcher l P Hok w x' Hx' Hp') as (Hw & Hp'' & q0 & j & p' & Hq0 & Hj & Hpx' & Hpw).
      split; [done|]. split; [done|]. rewrite Hst. case_decide as E; [|by exists q0, j, p'].
      exists q, j, p'. split_and!; try done. rewrite E in Hq0. assert (q0 = q ++ [p]) as -> by congruence.
      apply lookup_snoc_Some in Hj as [[_ Hj]|[_ <-]]; [done|]. congruence.
    + destruct (po_dummy l P Hok) as [y Hy]. simpl. destruct (decide (pending_w = p_w p)) as [->|Hne].
      * rewrite lookup_insert_eq. eauto.
      * rewrite lookup_insert_ne by done. eauto.
  - pose proof (frame_update l (p_w p) x 0 (pendings l) cnts (pendingpri l) Hx) as Hfr. by destruct l.
  - split; [done|]. intros pri' Hr. rewrite (Hst (set_mem (<[p_w p:=with_pending 0 x]> (mem l)) (set_pendingcnt cnts l)) eq_refl eq_refl).
    case_decide as E; [|by apply Hem]. subst pri'. rewrite (Hem _ Hr) in Hq. by destruct q.
  - intros n Hr pri' q'. rewrite (Hst (set_mem (<[p_w p:=with_pending 0 x]> (mem l)) (set_pendingcnt cnts l)) eq_refl eq_refl).
    case_decide as E; [|by apply Hr]. intros [= <-]. pose proof (Hr _ _ Hq) as Hlen. rewrite length_app in Hlen. simpl in Hlen. lia.
  - by apply Hst.
Qed.

(** * Invoking *)

(** The last element of a queue. *)
Fixpoint split_last (st : queue) : option (queue * (W * Z)) :=
  match st with
  | [] => None
  | p :: st => match split_last st with Some (st', p') => Some (p :: st', p') | None => Some ([], p) end
  end.

Lemma split_last_snoc st p : split_last (st ++ [p]) = Some (st, p).
Proof. induction st as [|p' st IH]; [done|]. simpl. by rewrite IH. Qed.

(** The next event: the last one of the highest priority that has one. *)
Fixpoint next_at (pris : list Z) (P : queues) : option (Z * queue * (W * Z)) :=
  match pris with
  | [] => None
  | pri :: pris => match split_last (P pri) with Some (st, p) => Some (pri, st, p) | None => next_at pris P end
  end.
Definition next_event : queues -> option (Z * queue * (W * Z)) := next_at [4; 3; 2; 1; 0].

Section spec.
(** What the callback of a watcher does to the queues. *)
Context (after : W -> Z -> queues -> queues).

Fixpoint spec_invoke (n : nat) (P : queues) : option (queues * list (W * Z)) :=
  match n with
  | O => None
  | S n =>
      match next_event P with
      | None => Some (P, [])
      | Some (pri, st, (w, revents)) =>
          '(P, log) ← spec_invoke n (after w revents (upd P pri st));
          Some (P, (w, revents) :: log)
      end
  end.
End spec.

Section invoke.
Context (callback : W -> Z -> ev_loop -> option ev_loop) (after : W -> Z -> queues -> queues).
(** Any other condition that does not concern pending events. *)
Context (J : ev_loop -> Prop) (HJ : forall l l', pending_frame l l' -> J l -> J l').

Definition loop_ok (l : ev_loop) (P : queues) : Prop := pending_ok l P /\ top_ok l /\ J l.

Context (Hcallback : forall w revents l P, loop_ok l P ->
  exists l', callback w revents l = Some l' /\ loop_ok l' (after w revents P)).

Lemma empty_above l P : loop_ok l P -> forall pri, pendingpri l < pri < NUMPRI -> P pri = [].
Proof.
  intros (Hok & [Hr Hem] & _) pri Hpri. destruct (po_stack l P Hok pri) as (q & Hq & ->); [lia|].
  rewrite (Hem pri Hpri) in Hq. by injection Hq as <-.
Qed.

Lemma next_event_from l P pri st p :
  loop_ok l P -> pri = pendingpri l -> P pri = st ++ [p] -> next_event P = Some (pri, st, p).
Proof.
  intros Hok -> HP. pose proof (empty_above l P Hok) as He. destruct Hok as (_ & [Hr _] & _).
  unfold NUMPRI, EV_MAXPRI, EV_MINPRI in *. unfold next_event.
  assert (pendingpri l = 4 \/ pendingpri l = 3 \/ pendingpri l = 2 \/ pendingpri l = 1 \/ pendingpri l = 0) as H by lia.
  destruct H as [H|[H|[H|[H|H]]]]; rewrite H in *; simpl; rewrite ?He by lia; simpl; by rewrite HP, split_last_snoc.
Qed.

(** How the loops go on from [l]: they end, or come to the next event, or to a
    lower priority. *)
Definition ends (l : ev_loop) (P : queues) : Prop :=
  next_event P = None /\ exists fuel l', invoke_loop callback fuel l = Some (l', []) /\ loop_ok l' P.
Definition comes_to_event (l : ev_loop) (P : queues) : Prop :=
  exists pri st w revents l1, next_event P = Some (pri, st, (w, revents)) /\ loop_ok l1 (upd P pri st) /\
    forall l2 fuel l3 log, callback w revents l1 = Some l2 -> invoke_loop callback fuel l2 = Some (l3, log) ->
      exists fuel', invoke_loop callback fuel' l = Some (l3, (w, revents) :: log).
Definition comes_down (l : ev_loop) (P : queues) : Prop :=
  exists l1, pendingpri l1 = pendingpri l - 1 /\ 0 < pendingpri l /\ loop_ok l1 P /\
    forall fuel res, invoke_loop callback fuel l1 = Some res -> exists fuel', invoke_loop callback fuel' l = Some res.

Lemma invoke_empty l P :
  loop_ok l P -> stack l (pendingpri l) = Some [] -> ends l P \/ comes_down l P.
Proof.
  intros Hok Hq. pose proof Hok as (Hp & [Hr Hem] & Hj). pose proof (empty_above l P Hok) as He.
  destruct (stack_Some l _ _ Hq) as (_ & _ & Hcnt & _).
  destruct (po_stack l P Hp (pendingpri l) Hr) as (q & Hq' & HPq). assert (q = []) as -> by congruence.
  destruct (Z.eqb_spec (pendingpri l) 0) as [E|E].
  - left. split.
    + rewrite E in He, HPq. unfold next_event. simpl. unfold NUMPRI, EV_MAXPRI, EV_MINPRI in He.
      by rewrite !He, HPq by lia.
    + exists 1%nat, l. cbn [invoke_loop]. rewrite Hcnt. cbn [mbind option_bind]. simpl. by rewrite E.
  - right. exists (set_pendingpri (pendingpri l - 1) l). split_and!; [done|lia| |].
    + split; [by destruct Hp|]. split; [split; [simpl; lia|]|].
      * simpl. intros pri Hpri. destruct (decide (pri = pendingpri l)) as [->|]; [done|apply Hem; lia].
      * apply (HJ l); [|done]. exists (mem l), (pendings l), (pendingcnt l), (pendingpri l - 1). by destruct l.
    + intros fuel res Hrun. exists (S fuel). cbn [invoke_loop]. rewrite Hcnt. cbn [mbind option_bind]. simpl.
      by rewrite (proj2 (Z.eqb_neq _ _) E).
Qed.

Lemma invoke_one l P q p :
  loop_ok l P -> stack l (pendingpri l) = Some (q ++ [p]) ->
  exists l1, loop_ok l1 (upd P (pendingpri l) (omap live q)) /\ pendingpri l1 = pendingpri l /\
    stack l1 (pendingpri l) = Some q /\
    forall fuel, invoke_loop callback (S fuel) l =
      ('(l2, log) ← EV_CB_INVOKE callback p l1; '(l3, log') ← invoke_loop callback fuel l2; Some (l3, log ++ log')).
Proof.
  intros (Hp & Ht & Hj) Hq. pose proof Ht as [Hr _].
  destruct (pop_ok l P (pendingpri l) q p Hp Ht Hr Hq)
    as (cnts & ps & l1 & Hc & Hset & Hps & Hget & Hupd & Hok1 & Hfr & Hpp & Htop & _ & Hst).
  exists l1. split_and!; [split_and!; [done|done|by apply (HJ l)]|done|by rewrite Hst, decide_True|].
  intros fuel. cbn [invoke_loop]. rewrite Hc. cbn [mbind option_bind].
  rewrite (proj2 (Z.eqb_neq (Z.of_nat (length q) + 1) 0)) by lia. cbn [negb].
  replace (Z.of_nat (length q) + 1 - 1) with (Z.of_nat (length q)) by lia.
  rewrite Hset. cbn [mbind option_bind]. rewrite Hps. cbn [mbind option_bind]. rewrite Hget. cbn [mbind option_bind].
  by rewrite Hupd.
Qed.

Lemma loop_ok_same l P pri st : loop_ok l (upd P pri st) -> P pri = st -> loop_ok l P.
Proof.
  intros ([G1 G2 G3 G4] & G5 & G6) E. split; [split; try done|done]. intros pri' Hpri.
  destruct (G1 pri' Hpri) as (q & Hq & HP). exists q. split; [done|]. rewrite <- HP. unfold upd. case_decide; congruence.
Qed.

Lemma invoke_reach q l P :
  loop_ok l P -> stack l (pendingpri l) = Some q -> ends l P \/ comes_to_event l P \/ comes_down l P.
Proof.
  revert l. induction q as [|p q IH] using rev_ind; intros l Hok Hq.
  { destruct (invoke_empty l P Hok Hq); auto. }
  destruct (invoke_one l P q p Hok Hq) as (l1 & Hok1 & Hpp & Hq1 & Hstep).
  destruct (po_stack l P (proj1 Hok) _ (proj1 (proj1 (proj2 Hok)))) as (q' & Hq' & HPq).
  assert (q' = q ++ [p]) as -> by congruence. rewrite omap_app, live_cons, app_nil_r in HPq.
  unfold EV_CB_INVOKE in Hstep. destruct (Z.eqb_spec (p_w p) pending_w) as [E|E].
  - rewrite decide_True, app_nil_r in HPq by done. rewrite <- Hpp in Hq1.
    assert (forall fuel l2 log, invoke_loop callback fuel l1 = Some (l2, log) ->
      invoke_loop callback (S fuel) l = Some (l2, log)) as Hpass.
    { intros fuel l2 log Hf. rewrite Hstep. cbn [mbind option_bind]. by rewrite Hf. }
    destruct (IH l1 (loop_ok_same _ _ _ _ Hok1 HPq) Hq1)
      as [(Hn & fuel & l' & Hrun & Hok')|[(pri & st & w & ev & l2 & Hn & Hok' & Hrun)|(l2 & H1 & H2 & H3 & H4)]].
    + left. split; [done|]. exists (S fuel), l'. auto.
    + right. left. exists pri, st, w, ev, l2. split_and!; [done|done|]. intros l3 fuel l4 log Hcb Hf.
      destruct (Hrun l3 fuel l4 log Hcb Hf) as [fuel' Hf']. exists (S fuel'). auto.
    + right. right. exists l2. split_and!; [lia|lia|done|]. intros fuel [l3 log] Hf.
      destruct (H4 fuel _ Hf) as [fuel' Hf']. exists (S fuel'). auto.
  - rewrite decide_False in HPq by done. right. left.
    exists (pendingpri l), (omap live q), (p_w p), (p_events p), l1. split_and!; [by apply (next_event_from l)|done|].
    intros l2 fuel l3 log Hcb Hf. exists (S fuel). rewrite Hstep, Hcb. cbn [mbind option_bind]. by rewrite Hf.
Qed.

Lemma invoke_next n l P :
  loop_ok l P -> (Z.to_nat (pendingpri l) < n)%nat ->
  ends l P \/ comes_to_event l P.
Proof.
  revert l. induction n as [|n IH]; intros l Hok Hn; [lia|].
  pose proof Hok as (Hp & [Hr _] & _). destruct (po_stack l P Hp (pendingpri l) Hr) as (q & Hq & _).
  destruct (invoke_reach q l P Hok Hq) as [H|[H|(l1 & H1 & H2 & H3 & H4)]]; [by left|by right|].
  destruct (IH l1 H3) as [(Hnx & fuel & l' & Hrun & Hok')|(pri & st & w & ev & l2 & Hnx & Hok' & Hrun)]; [lia| |].
  - left. split; [done|]. destruct (H4 fuel _ Hrun) as [fuel' Hf]. by exists fuel', l'.
  - right. exists pri, st, w, ev, l2. split_and!; [done|done|]. intros l3 fuel l4 log Hcb Hf.
    destruct (Hrun l3 fuel l4 log Hcb Hf) as [fuel' Hf']. by apply (H4 fuel').
Qed.

Lemma invoke_ok n l P P' log :
  loop_ok l P -> spec_invoke after n P = Some (P', log) ->
  exists fuel l', invoke_loop callback fuel l = Some (l', log) /\ loop_ok l' P'.
Proof.
  revert l P P' log. induction n as [|n IH]; intros l P P' log Hok Hs; [done|]. cbn [spec_invoke] in Hs.
  destruct (invoke_next (S (Z.to_nat (pendingpri l))) l P Hok) as [(Hn & fuel & l' & Hrun & Hok')|(pri & st & w & ev & l1 & Hn & Hok1 & Hrun)];
    [lia| |]; rewrite Hn in Hs.
  - injection Hs as <- <-. by exists fuel, l'.
  - destruct (spec_invoke after n (after w ev (upd P pri st))) as [[P1 log1]|] eqn:Hs1; [|done].
    injection Hs as <- <-. destruct (Hcallback w ev l1 _ Hok1) as (l2 & Hcb & Hok2).
    destruct (IH l2 _ P1 log1 Hok2 Hs1) as (fuel & l3 & Hf & Hok3).
    destruct (Hrun l2 fuel l3 log1 Hcb Hf) as [fuel' Hf']. by exists fuel', l3.
Qed.

(** ev_invoke_pending starts at the highest priority. *)
Lemma invoke_pending_ok n l P P' log :
  pending_ok l P -> J l -> spec_invoke after n P = Some (P', log) ->
  exists fuel l', ev_invoke_pending callback fuel l = Some (l', log) /\ loop_ok l' P'.
Proof.
  intros Hok Hj Hs. unfold ev_invoke_pending. apply (invoke_ok n _ P); [|done]. split_and!.
  - by destruct Hok.
  - split; [done|]. simpl. unfold NUMPRI, EV_MAXPRI, EV_MINPRI. lia.
  - apply (HJ l); [|done]. exists (mem l), (pendings l), (pendingcnt l), (NUMPRI - 1). by destruct l.
Qed.
End invoke.

(** * A new loop *)

Lemma init_pending_ok rt now ws :
  map_Forall (fun _ x => pending x = 0) ws -> pending_ok (loop_init rt now ws) (fun _ => []).
Proof.
  intros Hws.
  assert (forall w x, mem (loop_init rt now ws) !! w = Some x -> pending x = 0) as Hall.
  { intros w x. simpl. destruct (decide (w = pending_w)) as [->|Hne]; [rewrite lookup_insert_eq; by intros [= <-]|].
    rewrite lookup_insert_ne by done. apply Hws. }
  assert (forall pri q, stack (loop_init rt now ws) pri = Some q -> q = []) as Hst.
  { intros pri q (ps & Hps & _ & Hq)%stack_Some. unfold loop_init in Hps. cbn [pendings] in Hps.
    apply array_get_Some in Hps as [_ Hps%lookup_replicate]. destruct Hps as [-> _]. by destruct q. }
  split.
  - intros pri Hp. exists []. split; [|done]. unfold NUMPRI, EV_MAXPRI, EV_MINPRI in Hp.
    assert (pri = 4 \/ pri = 3 \/ pri = 2 \/ pri = 1 \/ pri = 0) as H by lia. by destruct H as [->|[->|[->|[->| ->]]]].
  - intros pri q j p Hq. rewrite (Hst pri q Hq). by rewrite lookup_nil.
  - intros w x Hx Hp. by rewrite (Hall w x Hx) in Hp.
  - eexists. apply lookup_insert_eq.
Qed.

Lemma init_roomy rt now ws n : n <= 2 ^ 25 -> roomy n (loop_init rt now ws).
Proof.
  intros Hn pri q (ps & Hps & _ & Hq)%stack_Some. unfold loop_init in Hps. cbn [pendings] in Hps.
  apply array_get_Some in Hps as [_ [-> _]%lookup_replicate]. destruct q; [simpl; lia|done].
Qed.
