(* ===== verification/EvHeap.v ===== *)
(** The heap of ev.c: upheap, downheap, adjustheap and reheap move an element
    to its place, keep the others, and record the index of every element in
    its watcher. *)
From S2P Require Import Prelude EvTime Ev.

Open Scope c_scope.

(** * Indices *)

Definition in_heap (N i : Z) : Prop := HEAP0 <= i < N + HEAP0.

Lemma parent_range i : HEAP0 < i -> HEAP0 <= HPARENT i < i.
Proof.
  unfold HPARENT, HEAP0, DHEAP. intros. rewrite Z.quot_div_nonneg by lia.
  Z.to_euclidean_division_equations. lia.
Qed.

Lemma parent_children i k : HEAP0 < i -> HPARENT i = k <-> 4 * k - 8 <= i <= 4 * k - 5.
Proof.
  unfold HPARENT, HEAP0, DHEAP. intros. rewrite Z.quot_div_nonneg by lia.
  Z.to_euclidean_division_equations. lia.
Qed.

Lemma parent_root : HPARENT HEAP0 = HEAP0.
Proof. reflexivity. Qed.

(** * Order *)

(** The element [i] is not later than the element [j]. *)
Definition before (heap : list ANHE) (i j : Z) : Prop :=
  forall a b, array_get heap i = Some a -> array_get heap j = Some b -> fle (he_at a) (he_at b) = true.

(** A heap whose times are numbers, with distinct watchers. *)
Record heap_array (N : Z) (heap : list ANHE) : Prop := HeapArray {
  ha_length : 0 <= N /\ (0 < N -> N + HEAP0 <= Z.of_nat (length heap));
  ha_number : forall i a, in_heap N i -> array_get heap i = Some a -> number (he_at a);
  ha_distinct : forall i j a b, in_heap N i -> in_heap N j ->
    array_get heap i = Some a -> array_get heap j = Some b -> he_w a = he_w b -> i = j;
}.

(** The heap condition, for the elements other than [k] and its children; the
    children of [k] are not earlier than its parent. *)
Record ordered_but (N : Z) (k : Z) (heap : list ANHE) : Prop := OrderedBut {
  ob_order : forall i, in_heap N i -> i <> HEAP0 -> i <> k -> HPARENT i <> k -> before heap (HPARENT i) i;
  ob_bridge : forall i, in_heap N i -> i <> HEAP0 -> HPARENT i = k -> k <> HEAP0 -> before heap (HPARENT k) i;
}.

Definition ordered (N : Z) (heap : list ANHE) : Prop :=
  forall i, in_heap N i -> i <> HEAP0 -> before heap (HPARENT i) i.

(** The watchers of the elements other than [k] record their indices. *)
Definition indexed_but (N k : Z) (heap : list ANHE) (m : gmap W ev_watcher) : Prop :=
  forall i a, in_heap N i -> array_get heap i = Some a -> exists x, m !! he_w a = Some x /\ (i <> k -> active x = i).

Definition indexed (N : Z) (heap : list ANHE) (m : gmap W ev_watcher) : Prop :=
  forall i a, in_heap N i -> array_get heap i = Some a -> exists x, m !! he_w a = Some x /\ active x = i.

(** The elements are the same. *)
Definition same_elements (N : Z) (h h' : list ANHE) : Prop :=
  forall a, (exists i, in_heap N i /\ array_get h i = Some a) <-> (exists i, in_heap N i /\ array_get h' i = Some a).

(** Only the indices in watchers of the heap differ. *)
Definition reindexed (N : Z) (heap : list ANHE) (m m' : gmap W ev_watcher) : Prop :=
  with_active 0 <$> m' = with_active 0 <$> m /\
  forall w, (forall i a, in_heap N i -> array_get heap i = Some a -> he_w a <> w) -> m' !! w = m !! w.

(** What an operation that moves elements gives. *)
Definition moved (N : Z) (h : list ANHE) (m : gmap W ev_watcher) (res : option heap_memory) : Prop :=
  exists h' m', res = Some (h', m') /\ heap_array N h' /\ ordered N h' /\ indexed N h' m' /\
    same_elements N h h' /\ reindexed N h m m' /\ length h' = length h.

Lemma same_elements_refl N h : same_elements N h h.
Proof. done. Qed.
Lemma same_elements_trans N h1 h2 h3 : same_elements N h1 h2 -> same_elements N h2 h3 -> same_elements N h1 h3.
Proof. intros H1 H2 a. by rewrite (H1 a). Qed.

Lemma reindexed_trans N h h' m m' m'' :
  same_elements N h h' -> reindexed N h m m' -> reindexed N h' m' m'' -> reindexed N h m m''.
Proof.
  intros Hs [E1 H1] [E2 H2]. split; [by rewrite E2|]. intros w Hw. rewrite H2; [by apply H1|].
  intros i a Hi Ha. assert (exists j, in_heap N j /\ array_get h j = Some a) as (j & Hj & Hja)
    by (apply Hs; by exists i). by apply (Hw j a).
Qed.

(** An exchange of the elements [p] and [k]. *)
Definition exchange (h h' : list ANHE) (p k : Z) : Prop :=
  forall i, array_get h' i = if decide (i = p) then array_get h k else if decide (i = k) then array_get h p else array_get h i.

Lemma exchange_get h h' p k i :
  exchange h h' p k -> array_get h' i = array_get h (if decide (i = p) then k else if decide (i = k) then p else i).
Proof. intros E. rewrite (E i). by repeat case_decide. Qed.

Section exchange.
Context (N : Z) (h h' : list ANHE) (p k : Z) (Hex : exchange h h' p k).
Context (Hp : in_heap N p) (Hk : in_heap N k) (Hlen : length h' = length h).

Lemma exchange_elements : same_elements N h h'.
Proof.
  intros a. split; intros (i & Hi & Ha).
  - exists (if decide (i = p) then k else if decide (i = k) then p else i).
    split; [by repeat case_decide|]. rewrite (exchange_get _ _ _ _ _ Hex). rewrite <- Ha. f_equal.
    repeat case_decide; congruence.
  - rewrite (exchange_get _ _ _ _ _ Hex) in Ha. eexists. split; [|exact Ha]. by repeat case_decide.
Qed.

Lemma exchange_array : heap_array N h -> heap_array N h'.
Proof.
  intros [Hl Hn Hd]. split; [by rewrite Hlen| |].
  - intros i a Hi. rewrite (exchange_get _ _ _ _ _ Hex). apply Hn. by repeat case_decide.
  - intros i j a b Hi Hj. rewrite !(exchange_get _ _ _ _ _ Hex). intros Ha Hb E.
    assert ((if decide (i = p) then k else if decide (i = k) then p else i) =
            (if decide (j = p) then k else if decide (j = k) then p else j)) as Heq.
    { apply (Hd _ _ a b); try done; by repeat case_decide. }
    repeat case_decide; congruence.
Qed.
End exchange.

(** * Storing *)

Section store.
Context (N k : Z) (he : ANHE) (heap : list ANHE) (m : gmap W ev_watcher).
Let v := <[Z.to_nat k := he]> heap.
Context (Hk : in_heap N k) (Hv : heap_array N v) (Hidx : indexed_but N k v m).

Lemma virtual_length : length v = length heap.
Proof. apply length_insert. Qed.

Lemma index_range i : in_heap N i -> 0 <= i < Z.of_nat (length heap).
Proof. clear Hk. rewrite <- virtual_length. destruct Hv as [Hl _ _]. unfold in_heap, HEAP0, DHEAP in *. lia. Qed.

Lemma virtual_get i : array_get v i = if decide (k = i) then Some he else array_get heap i.
Proof. apply array_get_insert. by apply index_range. Qed.

Lemma indexed_store_other i a x :
  in_heap N i -> array_get v i = Some a -> m !! he_w a = Some x -> active x = i -> i <> k ->
  forall a0 i0, in_heap N i0 -> array_get v i0 = Some a0 -> i0 <> i -> he_w a0 <> he_w a.
Proof.
  intros Hi Ha _ _ _ a0 i0 Hi0 Ha0 Hne E. apply Hne. by apply (ha_distinct N v Hv i0 i a0 a).
Qed.

(** [a] is written to [k], and its watcher records [k]. *)
Lemma heap_store_ok j a :
  in_heap N j -> array_get v j = Some a ->
  exists m', heap_store k a (heap, m) = Some (<[Z.to_nat k := a]> heap, m') /\ reindexed N v m m' /\
    forall i b, in_heap N i -> array_get v i = Some b ->
      exists x, m' !! he_w b = Some x /\ (if decide (i = j) then active x = k else i <> k -> active x = i).
Proof.
  intros Hj Ha. destruct (Hidx j a Hj Ha) as (x & Hx & _). unfold heap_store. simpl.
  rewrite array_set_Some by (by apply index_range). cbn [mbind option_bind]. rewrite Hx. cbn [mbind option_bind].
  eexists. split; [done|]. split; [split|].
  - rewrite fmap_insert. simpl. apply insert_id. by rewrite lookup_fmap, Hx.
  - intros w Hw. apply lookup_insert_ne. by apply (Hw j).
  - intros i b Hi Hb. destruct (decide (i = j)) as [->|Hne].
    + assert (b = a) as -> by congruence. rewrite lookup_insert_eq. eexists. split; [done|]. done.
    + rewrite lookup_insert_ne; [by apply Hidx|]. intros E. apply Hne. by apply (ha_distinct N v Hv i j b a).
Qed.

(** The last store. *)
Lemma heap_store_last : ordered N v -> moved N v m (heap_store k he (heap, m)).
Proof.
  intros Hord. destruct (heap_store_ok k he Hk) as (m' & -> & Hre & Hact).
  { rewrite virtual_get. by rewrite decide_True. }
  exists v, m'. split_and!; try done. intros i a Hi Ha. destruct (Hact i a Hi Ha) as (x & Hx & Hact').
  exists x. split; [done|]. case_decide; [by subst|by apply Hact'].
Qed.

(** A store in a loop: the element of [p] moves to [k], and the one that is
    being placed to [p]. *)
Lemma heap_store_step p hp :
  in_heap N p -> p <> k -> array_get v p = Some hp ->
  exists m', heap_store k hp (heap, m) = Some (<[Z.to_nat k := hp]> heap, m') /\
    let v' := <[Z.to_nat p := he]> (<[Z.to_nat k := hp]> heap) in
    exchange v v' p k /\ length v' = length v /\ indexed_but N p v' m' /\ reindexed N v m m'.
Proof.
  intros Hp Hpk Hget. destruct (heap_store_ok p hp Hp Hget) as (m' & -> & Hre & Hact). exists m'. split; [done|].
  assert (exchange v (<[Z.to_nat p := he]> (<[Z.to_nat k := hp]> heap)) p k) as Hex.
  { intros i. rewrite array_get_insert by (rewrite length_insert; by apply index_range).
    rewrite array_get_insert by (by apply index_range). rewrite Hget, !virtual_get.
    repeat case_decide; congruence. }
  split_and!; [done|by unfold v; rewrite !length_insert| |done].
  intros i a Hi Ha. rewrite (exchange_get _ _ _ _ _ Hex) in Ha.
  destruct (Hact (if decide (i = p) then k else if decide (i = k) then p else i) a) as (x & Hx & Hact');
    [by repeat case_decide|done|].
  exists x. split; [done|]. repeat case_decide; subst; try done. by intros; apply Hact'.
Qed.
End store.

(** A step of a loop and what follows it. *)
Lemma moved_step N v v' m m' p k res :
  exchange v v' p k -> in_heap N p -> in_heap N k -> length v' = length v -> reindexed N v m m' ->
  moved N v' m' res -> moved N v m res.
Proof.
  intros Hex Hp Hk Hlen Hre (h' & m2 & -> & Ha & Ho & Hi & Hs & Hr & Hl).
  pose proof (exchange_elements N v v' p k Hex Hp Hk) as Hs0.
  exists h', m2. split_and!; try done; [by apply (same_elements_trans N v v')| |congruence].
  by apply (reindexed_trans N v v' m m').
Qed.

(** * Upwards *)

Section up.
Context (N : Z).

(** The element of [k] is not later than its children. *)
Definition above_children (k : Z) (v : list ANHE) : Prop :=
  forall i, in_heap N i -> i <> HEAP0 -> HPARENT i = k -> before v k i.

Lemma before_trans v i j l :
  heap_array N v -> in_heap N i -> in_heap N j -> in_heap N l -> before v i j -> before v j l -> before v i l.
Proof.
  intros Hv Hi Hj Hl H1 H2 a c Ha Hc.
  assert (exists b, array_get v j = Some b) as [b Hb].
  { apply array_get_range. destruct Hv as [? _ _]. unfold in_heap, HEAP0, DHEAP in *. lia. }
  apply (fle_trans _ (he_at b)); [| | |by apply H1|by apply H2];
    [by apply (ha_number N v Hv i)|by apply (ha_number N v Hv j)|by apply (ha_number N v Hv l)].
Qed.

Lemma exchange_before h h' p k i j i' j' :
  exchange h h' p k ->
  i' = (if decide (i = p) then k else if decide (i = k) then p else i) ->
  j' = (if decide (j = p) then k else if decide (j = k) then p else j) ->
  before h i' j' -> before h' i j.
Proof.
  intros Hex -> -> H a b. rewrite !(exchange_get _ _ _ _ _ Hex). apply H.
Qed.

Lemma up_exchange v v' k :
  in_heap N k -> k <> HEAP0 -> heap_array N v -> ordered_but N k v -> above_children k v ->
  before v k (HPARENT k) -> exchange v v' (HPARENT k) k ->
  ordered_but N (HPARENT k) v' /\ above_children (HPARENT k) v'.
Proof.
  intros Hk Hk0 Hv [Hord Hbr] Hup Hkp Hex. pose proof (parent_range k ltac:(unfold in_heap in Hk; lia)) as Hp.
  set (p := HPARENT k) in *. assert (in_heap N p) as Hpin by (unfold in_heap in *; lia).
  assert (forall i, in_heap N i -> i <> HEAP0 -> in_heap N (HPARENT i) /\ HPARENT i < i) as Hpar.
  { intros i Hi Hi0. pose proof (parent_range i ltac:(unfold in_heap in Hi; lia)). unfold in_heap in *. lia. }
  assert (before v p k -> True) as _ by done.
  split; [split|].
  - intros i Hi Hi0 Hip Hpi. destruct (Hpar i Hi Hi0) as [Hpin' Hlt].
    apply (exchange_before v v' p k _ _ (if decide (HPARENT i = k) then p else HPARENT i) i Hex);
      [by rewrite (decide_False (P := HPARENT i = p))| |].
    + rewrite decide_False by done. case_decide; [|done]. by subst i.
    + case_decide as E; [apply (Hbr i Hi Hi0 E Hk0)|]. apply (Hord i Hi Hi0); [|done]. by intros ->.
  - intros i Hi Hi0 Hpi Hp0. destruct (Hpar p Hpin Hp0) as [Hgin Hglt].
    apply (exchange_before v v' p k _ _ (HPARENT p) (if decide (i = k) then p else i) Hex).
    + rewrite !decide_False by lia. done.
    + rewrite (decide_False (P := i = p)) by (destruct (Hpar i Hi Hi0); lia). done.
    + case_decide as E.
      * apply (Hord p Hpin Hp0); lia.
      * apply (before_trans v _ p); try done; [apply (Hord p Hpin Hp0); lia|].
        rewrite <- Hpi. apply (Hord i Hi Hi0); [done|]. rewrite Hpi. lia.
  - intros i Hi Hi0 Hpi. destruct (Hpar i Hi Hi0) as [_ Hlt].
    apply (exchange_before v v' p k _ _ k (if decide (i = k) then p else i) Hex).
    + by rewrite decide_True.
    + rewrite (decide_False (P := i = p)) by lia. done.
    + case_decide as E; [done|]. apply (before_trans v _ p); try done.
      rewrite <- Hpi. apply (Hord i Hi Hi0); [done|]. rewrite Hpi. lia.
Qed.

Lemma up_done v k :
  ordered_but N k v -> above_children k v -> (k <> HEAP0 -> before v (HPARENT k) k) -> ordered N v.
Proof.
  intros [Hord _] Hup Hk i Hi Hi0. destruct (decide (i = k)) as [->|]; [by apply Hk|].
  destruct (decide (HPARENT i = k)) as [<-|]; [by apply Hup|by apply Hord].
Qed.

Lemma upheap_loop_ok fuel k he heap m :
  let v := <[Z.to_nat k := he]> heap in
  in_heap N k -> heap_array N v -> ordered_but N k v -> above_children k v -> indexed_but N k v m ->
  (Z.to_nat k < fuel)%nat -> moved N v m (upheap_loop fuel k he (heap, m)).
Proof.
  revert k heap m. induction fuel as [|fuel IH]; intros k heap m v Hk Hv Hob Hup Hidx Hfuel; [lia|].
  cbn [upheap_loop].
  assert (k <> HEAP0 -> HEAP0 <= HPARENT k < k) as Hp by (intros; apply parent_range; unfold in_heap in Hk; lia).
  destruct (Z.eqb_spec (HPARENT k) k) as [E|E].
  { apply heap_store_last; [done..|]. apply (up_done v k); [done..|]. lia. }
  assert (k <> HEAP0) as Hk0 by (intros ->; apply E, parent_root). specialize (Hp Hk0).
  assert (in_heap N (HPARENT k)) as Hpin by (unfold in_heap in *; lia).
  destruct (array_get_range heap (HPARENT k)) as [hp Hhp]; [by apply (index_range N k he heap Hv)|].
  cbn [fst]. rewrite Hhp. cbn [mbind option_bind].
  pose proof (virtual_get N k he heap Hk Hv) as Hget. fold v in Hget.
  assert (array_get v (HPARENT k) = Some hp) as Hvp by (rewrite Hget, decide_False by lia; done).
  assert (array_get v k = Some he) as Hvk by (rewrite Hget, decide_True by done; done).
  assert (number (he_at hp) /\ number (he_at he)) as [Hn1 Hn2]
    by (split; [by apply (ha_number N v Hv (HPARENT k))|by apply (ha_number N v Hv k)]).
  destruct (fle (he_at hp) (he_at he)) eqn:Hle.
  { apply heap_store_last; [done..|]. apply (up_done v k); [done..|]. intros _ a b Ha Hb. congruence. }
  destruct (heap_store_step N k he heap m Hk Hv Hidx (HPARENT k) hp Hpin ltac:(lia) Hvp)
    as (m' & -> & Hex & Hlen & Hidx' & Hre). cbn [mbind option_bind].
  assert (before v k (HPARENT k)) as Hkp.
  { intros a b Ha Hb. assert (a = he) as -> by congruence. assert (b = hp) as -> by congruence.
    destruct (fle_total (he_at hp) (he_at he)); congruence. }
  destruct (up_exchange v _ k Hk Hk0 Hv Hob Hup Hkp Hex) as [Hob' Hup'].
  eapply (moved_step N v _ m m' (HPARENT k) k); [exact Hex|done..|].
  apply IH; [done| |done..|unfold HEAP0, DHEAP in Hp; lia].
  by apply (exchange_array N v _ (HPARENT k) k Hex Hpin Hk Hlen).
Qed.

Lemma upheap_ok k heap m :
  in_heap N k -> heap_array N heap -> ordered_but N k heap -> above_children k heap -> indexed_but N k heap m ->
  moved N heap m (upheap k (heap, m)).
Proof.
  intros Hk Hv Hob Hup Hidx. unfold upheap. cbn [fst].
  destruct (array_get_range heap k) as [he Hhe].
  { destruct Hv as [? _ _]. unfold in_heap, HEAP0, DHEAP in *. lia. }
  rewrite Hhe. cbn [mbind option_bind].
  assert (<[Z.to_nat k := he]> heap = heap) as Hid by (apply array_get_Some in Hhe as [_ ?]; by apply list_insert_id).
  pose proof (upheap_loop_ok (S (Z.to_nat k)) k he heap m) as H. cbv zeta in H. rewrite Hid in H. apply H; try done. lia.
Qed.
End up.

(** * Downwards *)

Section down.
Context (N : Z).

(** The child [c] is the earliest of those of [k]. *)
Definition least_child (v : list ANHE) (k c : Z) : Prop :=
  in_heap N c /\ c <> HEAP0 /\ HPARENT c = k /\
  forall i, in_heap N i -> i <> HEAP0 -> HPARENT i = k -> before v c i.

(** A choice among the children before [pos + j]. *)
Definition chosen_before (heap : list ANHE) (pos j : Z) (best : Z * ev_tstamp) : Prop :=
  exists a, array_get heap best.1 = Some a /\ he_at a = best.2 /\ pos <= best.1 < pos + j /\
    forall i b, pos <= i < pos + j -> array_get heap i = Some b -> fle best.2 (he_at b) = true.

Lemma earlier_ok heap pos j best :
  heap_array N heap -> HEAP0 <= pos -> pos + j < N + HEAP0 -> 0 < j -> chosen_before heap pos j best ->
  exists best', earlier heap pos j best = Some best' /\ chosen_before heap pos (j + 1) best'.
Proof.
  intros Hv Hpos Hj Hj0 (a & Ha & Hat & Hr & Hmin). unfold earlier.
  destruct (array_get_range heap (pos + j)) as [b Hb].
  { destruct Hv as [? _ _]. unfold HEAP0, DHEAP in *. lia. }
  assert (in_heap N (pos + j)) as Hin by (unfold in_heap; lia).
  assert (number (he_at b)) as Hnb by (by apply (ha_number N heap Hv (pos + j))).
  assert (number best.2) as Hna.
  { rewrite <- Hat. apply (ha_number N heap Hv best.1); [|done]. unfold in_heap. lia. }
  rewrite Hb. cbn [mbind option_bind]. eexists. split; [done|]. destruct (flt (he_at b) best.2) eqn:Hlt.
  - exists b. cbn [fst snd]. split_and!; [done|done|lia|lia|]. intros i c Hi Hc.
    destruct (decide (i = pos + j)) as [->|]; [assert (c = b) as -> by congruence; by apply fle_refl|].
    apply (fle_trans _ best.2); [done|done| |by apply flt_le|apply (Hmin i c); [lia|done]].
    apply (ha_number N heap Hv i); [unfold in_heap; lia|done].
  - exists a. split_and!; [done|done|lia|lia|]. intros i c Hi Hc.
    destruct (decide (i = pos + j)) as [->|]; [|apply (Hmin i c); [lia|done]].
    assert (c = b) as -> by congruence. rewrite flt_fle, negb_false_iff in Hlt by done. done.
Qed.

Lemma chosen_first heap pos a :
  array_get heap pos = Some a -> number (he_at a) -> chosen_before heap pos 1 (pos, he_at a).
Proof.
  intros Ha Hn. exists a. cbn [fst snd]. split_and!; [done|done|lia|lia|]. intros i b Hi Hb.
  assert (i = pos) as -> by lia. assert (b = a) as -> by congruence. by apply fle_refl.
Qed.

(** The choice when the children from [j] on do not exist. *)
Lemma chosen_least heap k j best :
  0 <= j <= 4 -> (j = 4 \/ N + HEAP0 <= 4 * k - 8 + j) -> 4 * k - 8 + j <= N + HEAP0 -> HEAP0 <= k ->
  chosen_before heap (4 * k - 8) j best ->
  exists a, array_get heap best.1 = Some a /\ he_at a = best.2 /\ least_child heap k best.1.
Proof.
  intros Hj Hlast Hle Hk (a & Ha & Hat & Hr & Hmin). exists a. split_and!; [done|done|].
  unfold HEAP0, DHEAP in *.
  split; [unfold in_heap, HEAP0, DHEAP; lia|]. split; [unfold HEAP0, DHEAP; lia|].
  split; [apply parent_children; unfold HEAP0, DHEAP; lia|].
  intros i Hi Hi0 Hp. unfold in_heap, HEAP0, DHEAP in *. apply parent_children in Hp; [|unfold HEAP0, DHEAP; lia].
  intros x y Hx Hy. assert (x = a) as -> by congruence. rewrite Hat. apply (Hmin i y); [lia|done].
Qed.

Lemma min_child_ok heap k :
  in_heap N k -> heap_array N heap ->
  match min_child heap N k with
  | Some (Some (mp, at_)) => exists a, array_get heap mp = Some a /\ he_at a = at_ /\ least_child heap k mp
  | Some None => forall i, in_heap N i -> i <> HEAP0 -> HPARENT i <> k
  | None => False
  end.
Proof.
  intros Hk Hv. unfold min_child.
  replace (DHEAP * (k - HEAP0) + HEAP0 + 1) with (4 * k - 8) by (unfold HEAP0, DHEAP; lia).
  assert (HEAP0 <= k) as Hk0 by (unfold in_heap in Hk; lia).
  assert (HEAP0 <= 4 * k - 8) as Hpos by (unfold HEAP0, DHEAP in *; lia).
  assert (4 * k - 8 < N + HEAP0 ->
    exists a, array_get heap (4 * k - 8) = Some a /\ chosen_before heap (4 * k - 8) 1 (4 * k - 8, he_at a)) as Hfirst.
  { intros Hlt. destruct (array_get_range heap (4 * k - 8)) as [a Ha].
    { destruct Hv as [? _ _]. unfold HEAP0, DHEAP in *. lia. }
    exists a. split; [done|]. apply chosen_first; [done|]. apply (ha_number N heap Hv (4 * k - 8)); [unfold in_heap; lia|done]. }
  assert (forall j best, 0 < j -> 4 * k - 8 + j <= N + HEAP0 -> chosen_before heap (4 * k - 8) j best ->
    4 * k - 8 + j < N + HEAP0 ->
    exists best', earlier heap (4 * k - 8) j best = Some best' /\ chosen_before heap (4 * k - 8) (j + 1) best') as Hnext.
  { intros j best Hj _ Hc Hlt. by apply earlier_ok. }
  destruct (Z.ltb_spec (4 * k - 8 + DHEAP - 1) (N + HEAP0)) as [Hfast|Hslow]; unfold DHEAP in *.
  { destruct (Hfirst ltac:(lia)) as (a & -> & H1). cbn [mbind option_bind].
    destruct (Hnext 1 _ ltac:(lia) ltac:(lia) H1 ltac:(lia)) as (b1 & -> & H2). cbn [mbind option_bind].
    destruct (Hnext 2 _ ltac:(lia) ltac:(lia) H2 ltac:(lia)) as (b2 & -> & H3). cbn [mbind option_bind].
    destruct (Hnext 3 _ ltac:(lia) ltac:(lia) H3 ltac:(lia)) as (b3 & -> & H4). cbn [mbind option_bind].
    destruct b3 as [mp at_]. apply (chosen_least heap k 4 (mp, at_)); try lia. done. }
  destruct (Z.ltb_spec (4 * k - 8) (N + HEAP0)) as [Hsome|Hnone].
  - destruct (Hfirst ltac:(lia)) as (a & -> & H1). cbn [mbind option_bind].
    destruct (Z.ltb_spec (4 * k - 8 + 1) (N + HEAP0)) as [L1|L1]; cbn [mbind option_bind].
    2:{ rewrite !(proj2 (Z.ltb_ge _ _)) by lia. cbn [mbind option_bind].
        apply (chosen_least heap k 1 (4 * k - 8, he_at a)); try lia. done. }
    destruct (Hnext 1 _ ltac:(lia) ltac:(lia) H1 ltac:(lia)) as (b1 & -> & H2). cbn [mbind option_bind].
    destruct (Z.ltb_spec (4 * k - 8 + 2) (N + HEAP0)) as [L2|L2]; cbn [mbind option_bind].
    2:{ rewrite !(proj2 (Z.ltb_ge _ _)) by lia. cbn [mbind option_bind].
        destruct b1 as [mp at_]. apply (chosen_least heap k 2 (mp, at_)); try lia. done. }
    destruct (Hnext 2 _ ltac:(lia) ltac:(lia) H2 ltac:(lia)) as (b2 & -> & H3). cbn [mbind option_bind].
    rewrite !(proj2 (Z.ltb_ge _ _)) by lia. cbn [mbind option_bind].
    destruct b2 as [mp at_]. apply (chosen_least heap k 3 (mp, at_)); try lia. done.
  - intros i Hi Hi0 Hp. unfold in_heap, HEAP0, DHEAP in *.
    apply parent_children in Hp; unfold HEAP0, DHEAP in *; lia.
Qed.

Lemma down_exchange v v' k c :
  in_heap N k -> heap_array N v -> ordered_but N k v -> least_child v k c -> before v c k -> exchange v v' c k ->
  ordered_but N c v' /\ before v' (HPARENT c) c.
Proof.
  intros Hk Hv [Hord Hbr] (Hc & Hc0 & Hpc & Hmin) Hck Hex.
  assert (forall i, in_heap N i -> i <> HEAP0 -> in_heap N (HPARENT i) /\ HPARENT i < i) as Hpar.
  { intros i Hi Hi0. pose proof (parent_range i ltac:(unfold in_heap in Hi; lia)). unfold in_heap in *. lia. }
  destruct (Hpar c Hc Hc0) as [_ Hlt]. rewrite Hpc in Hlt.
  split; [split|].
  - intros i Hi Hi0 Hic Hpi. destruct (Hpar i Hi Hi0) as [_ Hli].
    apply (exchange_before v v' c k _ _ (if decide (HPARENT i = k) then c else HPARENT i) (if decide (i = k) then c else i) Hex).
    + by rewrite (decide_False (P := HPARENT i = c)).
    + by rewrite (decide_False (P := i = c)).
    + case_decide as E.
      * rewrite decide_False by lia. by apply Hmin.
      * case_decide as E'; [|by apply Hord]. subst i. by apply Hbr.
  - intros i Hi Hi0 Hpi Hcc. destruct (Hpar i Hi Hi0) as [_ Hli]. rewrite Hpc.
    apply (exchange_before v v' c k _ _ c i Hex).
    + by rewrite decide_False, decide_True by lia.
    + by rewrite !decide_False by lia.
    + rewrite <- Hpi. apply Hord; [done|done|lia|lia].
  - rewrite Hpc. apply (exchange_before v v' c k _ _ c k Hex); [|by rewrite decide_True|done].
    by rewrite decide_False, decide_True by lia.
Qed.

Lemma down_done v k :
  ordered_but N k v -> (k <> HEAP0 -> before v (HPARENT k) k) -> above_children N k v -> ordered N v.
Proof. intros Hob Hk Hup. by apply (up_done N v k). Qed.

Lemma downheap_loop_ok fuel k he heap m :
  let v := <[Z.to_nat k := he]> heap in
  in_heap N k -> heap_array N v -> ordered_but N k v -> (k <> HEAP0 -> before v (HPARENT k) k) ->
  indexed_but N k v m -> (Z.to_nat (N + HEAP0) < fuel + Z.to_nat k)%nat ->
  moved N v m (downheap_loop fuel N k he (heap, m)).
Proof.
  revert k heap m. induction fuel as [|fuel IH]; intros k heap m v Hk Hv Hob Hdn Hidx Hfuel.
  { unfold in_heap, HEAP0, DHEAP in *. lia. }
  cbn [downheap_loop fst].
  pose proof (virtual_get N k he heap Hk Hv) as Hget. fold v in Hget.
  assert (array_get v k = Some he) as Hvk by (rewrite Hget, decide_True by done; done).
  assert (number (he_at he)) as Hnhe by (by apply (ha_number N v Hv k)).
  assert (min_child heap N k = min_child v N k) as ->.
  { assert (forall i, k < i -> array_get v i = array_get heap i) as Hsame.
    { intros i Hi. rewrite Hget. by rewrite decide_False by lia. }
    unfold min_child, earlier. unfold in_heap, HEAP0, DHEAP in *. rewrite !Hsame by lia. done. }
  pose proof (min_child_ok v k Hk Hv) as Hmin. destruct (min_child v N k) as [[[c at_]|]|]; [| |done]; cbn [mbind option_bind].
  2:{ apply heap_store_last; [done..|]. apply (down_done v k); [done..|]. intros i Hi Hi0 Hp. by destruct (Hmin i Hi Hi0). }
  destruct Hmin as (a & Ha & <- & Hleast). pose proof Hleast as (Hc & Hc0 & Hpc & Hall).
  pose proof (parent_range c ltac:(unfold in_heap in Hc; lia)) as Hr. rewrite Hpc in Hr.
  assert (number (he_at a)) as Hna by (by apply (ha_number N v Hv c)).
  destruct (fle (he_at he) (he_at a)) eqn:Hle.
  { apply heap_store_last; [done..|]. apply (down_done v k); [done..|]. intros i Hi Hi0 Hp x y Hx Hy.
    assert (x = he) as -> by congruence. apply (fle_trans _ (he_at a)); [done|done| |done|by apply (Hall i Hi Hi0 Hp)].
    by apply (ha_number N v Hv i). }
  assert (array_get heap c = Some a) as -> by (rewrite Hget, decide_False in Ha by lia; done). cbn [mbind option_bind].
  destruct (heap_store_step N k he heap m Hk Hv Hidx c a Hc ltac:(lia) Ha) as (m' & -> & Hex & Hlen & Hidx' & Hre).
  cbn [mbind option_bind].
  assert (before v c k) as Hck.
  { intros x y Hx Hy. assert (x = a) as -> by congruence. assert (y = he) as -> by congruence.
    destruct (fle_total (he_at he) (he_at a)); congruence. }
  destruct (down_exchange v _ k c Hk Hv Hob Hleast Hck Hex) as [Hob' Hdn'].
  eapply (moved_step N v _ m m' c k); [exact Hex|done..|].
  apply IH; [done| |done..|unfold HEAP0, DHEAP in *; lia].
  by apply (exchange_array N v _ c k Hex Hc Hk Hlen).
Qed.

Lemma downheap_ok k heap m :
  in_heap N k -> heap_array N heap -> ordered_but N k heap -> (k <> HEAP0 -> before heap (HPARENT k) k) ->
  indexed_but N k heap m -> moved N heap m (downheap N k (heap, m)).
Proof.
  intros Hk Hv Hob Hdn Hidx. unfold downheap. cbn [fst].
  destruct (array_get_range heap k) as [he Hhe].
  { destruct Hv as [? _ _]. unfold in_heap, HEAP0, DHEAP in *. lia. }
  rewrite Hhe. cbn [mbind option_bind].
  assert (<[Z.to_nat k := he]> heap = heap) as Hid by (apply array_get_Some in Hhe as [_ ?]; by apply list_insert_id).
  pose proof (downheap_loop_ok (S (Z.to_nat (N + HEAP0))) k he heap m) as H. cbv zeta in H. rewrite Hid in H.
  apply H; try done. lia.
Qed.
End down.

(** * Changes of an element *)

Section change.
Context (N : Z).

Lemma adjustheap_ok k heap m :
  in_heap N k -> heap_array N heap -> ordered_but N k heap -> indexed_but N k heap m ->
  moved N heap m (adjustheap N k (heap, m)).
Proof.
  intros Hk Hv Hob Hidx. unfold adjustheap. cbn [fst].
  destruct (Z.ltb_spec HEAP0 k) as [Hlt|Hge]; cbn [mbind option_bind].
  2:{ apply downheap_ok; [done..| |done]. unfold in_heap in Hk. lia. }
  pose proof (parent_range k Hlt) as Hp.
  assert (in_heap N (HPARENT k)) as Hpin by (unfold in_heap in *; lia).
  assert (forall i, in_heap N i -> exists a, array_get heap i = Some a /\ number (he_at a)) as Hget.
  { intros i Hi. destruct (array_get_range heap i) as [a Ha].
    - destruct Hv as [? _ _]. unfold in_heap, HEAP0, DHEAP in *. lia.
    - exists a. split; [done|]. by apply (ha_number N heap Hv i). }
  destruct (Hget k Hk) as (he & Hhe & Hn1), (Hget _ Hpin) as (hp & Hhp & Hn2).
  rewrite Hhe. cbn [mbind option_bind]. rewrite Hhp. cbn [mbind option_bind].
  destruct (fle (he_at he) (he_at hp)) eqn:Hle.
  - apply upheap_ok; [done..| |done]. intros i Hi Hi0 Hpi.
    apply (before_trans N heap k (HPARENT k) i); try done.
    + intros a b Ha Hb. congruence.
    + apply (ob_bridge _ _ _ Hob); [done..|lia].
  - apply downheap_ok; [done..| |done]. intros _ a b Ha Hb.
    assert (a = hp) as -> by congruence. assert (b = he) as -> by congruence.
    destruct (fle_total (he_at he) (he_at hp)); congruence.
Qed.

(** The element of [k] is replaced, and the heap may become shorter. *)
Lemma ordered_replace N' k a heap :
  N' <= N -> in_heap N k -> heap_array N heap -> ordered N heap -> ordered_but N' k (<[Z.to_nat k := a]> heap).
Proof.
  intros HN Hk Hv Hord.
  assert (0 <= k < Z.of_nat (length heap)) as Hr.
  { destruct Hv as [? _ _]. unfold in_heap, HEAP0, DHEAP in *. lia. }
  assert (forall i j, i <> k -> j <> k -> before heap i j -> before (<[Z.to_nat k := a]> heap) i j) as Hsame.
  { intros i j Hi Hj H x y. rewrite !array_get_insert, !decide_False by done. apply H. }
  assert (forall i, in_heap N' i -> in_heap N i) as Hin by (unfold in_heap; lia).
  split.
  - intros i Hi Hi0 Hik Hpk. apply Hsame; [done..|]. apply Hord; auto.
  - intros i Hi Hi0 Hpi Hk0. pose proof (parent_range i ltac:(unfold in_heap in Hi; lia)).
    pose proof (parent_range k ltac:(unfold in_heap in Hk; lia)).
    apply Hsame; [lia|lia|]. apply (before_trans N heap _ k); auto; [unfold in_heap in *; lia|].
    rewrite <- Hpi. apply Hord; auto.
Qed.

(** An element is added behind the others. *)
Lemma ordered_grow heap k :
  k = N + HEAP0 -> ordered N heap -> ordered_but (N + 1) k heap /\ above_children (N + 1) k heap.
Proof.
  intros -> Hord. split; [split|].
  - intros i Hi Hi0 Hik Hpk. apply Hord; [|done]. unfold in_heap in *. lia.
  - intros i Hi Hi0 Hpi. pose proof (parent_range i ltac:(unfold in_heap in Hi; lia)). unfold in_heap in Hi. lia.
  - intros i Hi Hi0 Hpi. pose proof (parent_range i ltac:(unfold in_heap in Hi; lia)). unfold in_heap in Hi. lia.
Qed.

(** The root is the earliest element. *)
Lemma root_first heap i : heap_array N heap -> ordered N heap -> in_heap N i -> before heap HEAP0 i.
Proof.
  intros Hv Hord. revert i.
  assert (forall n i, (Z.to_nat i < n)%nat -> in_heap N i -> before heap HEAP0 i) as H; [|intros i; by apply (H (S (Z.to_nat i))); lia].
  intros n. induction n as [|n IH]; intros i Hn Hi; [lia|].
  destruct (decide (i = HEAP0)) as [->|Hi0].
  { intros a b Ha Hb. assert (b = a) as -> by congruence. apply fle_refl. by apply (ha_number N heap Hv HEAP0). }
  pose proof (parent_range i ltac:(unfold in_heap in Hi; lia)) as Hp.
  apply (before_trans N heap _ (HPARENT i)); try done; [unfold in_heap in *; lia..| |by apply Hord].
  apply IH; [unfold HEAP0, DHEAP in *; lia|unfold in_heap in *; lia].
Qed.
End change.
