(* ===== verification/EvTimer.v ===== *)
(** The timers of ev.c: starting, stopping and rescheduling keep the heap and
    the times in the watchers, and act on a map of timers. *)
From S2P Require Import Prelude EvTime Ev EvPending EvHeap.

Open Scope c_scope.

(** * The map of timers *)

(** Whether a timer is active, its time (relative, if it is not active), and
    its repeat value. *)
Record timer := Timer { t_active : bool; t_at : ev_tstamp; t_repeat : ev_tstamp }.

Definition timer_state (x : ev_watcher) : option timer :=
  '(at_, repeat) ← timer_of x; Some (Timer (bool_decide (active x <> 0)) at_ repeat).

Definition timer_map (l : ev_loop) : gmap W timer := omap timer_state (mem l).

(** * The invariant *)

(** The heap holds the active timers, other than [out]. *)
Record timers_but (out : option W) (l : ev_loop) : Prop := TimersBut {
  to_array : heap_array (timercnt l) (timers l);
  to_order : ordered (timercnt l) (timers l);
  to_entry : forall i a, in_heap (timercnt l) i -> array_get (timers l) i = Some a ->
    exists x repeat, mem l !! he_w a = Some x /\ active x = i /\ timer_of x = Some (he_at a, repeat);
  to_active : forall w x t, mem l !! w = Some x -> timer_of x = Some t -> active x <> 0 -> out <> Some w ->
    exists i a, in_heap (timercnt l) i /\ array_get (timers l) i = Some a /\ he_w a = w;
  to_out : forall i a, in_heap (timercnt l) i -> array_get (timers l) i = Some a -> out <> Some (he_w a);
  to_times : forall w x at_ repeat, mem l !! w = Some x -> timer_of x = Some (at_, repeat) ->
    number at_ /\ finite repeat /\ fle fzero repeat = true;
  to_user : forall w x t, mem l !! w = Some x -> timer_of x = Some t ->
    w <> pending_w /\ (active x <> 0 -> priority_ok x);
  to_now : finite (mn_now l);
}.
Arguments to_array {out} l.
Arguments to_order {out} l.
Arguments to_entry {out} l.
Arguments to_active {out} l.
Arguments to_out {out} l.
Arguments to_times {out} l.
Arguments to_user {out} l.
Arguments to_now {out} l.

Abbreviation timers_ok := (timers_but None).

(** The index of an active timer. *)
Lemma active_index l w x t :
  timers_ok l -> mem l !! w = Some x -> timer_of x = Some t -> active x <> 0 ->
  in_heap (timercnt l) (active x) /\ array_get (timers l) (active x) = Some (Anhe t.1 w).
Proof.
  intros Hok Hx Ht Ha. destruct (to_active l Hok w x t Hx Ht Ha) as (i & a & Hi & Hget & Hw); [done|].
  destruct (to_entry l Hok i a Hi Hget) as (x' & rep & Hx' & Hai & Ht'). rewrite Hw in Hx'.
  assert (x' = x) as -> by congruence. rewrite Hai. split; [done|]. rewrite Hget. f_equal.
  destruct a. simpl in *. rewrite Ht in Ht'. injection Ht' as ->. by subst.
Qed.

(** * Parts of the memory *)

(** The watchers that are not timers, without the mark of pending events. *)
Definition others (m : gmap W ev_watcher) : gmap W ev_watcher :=
  omap (fun x => match timer_of x with None => Some (with_pending 0 x) | Some _ => None end) m.

Lemma others_lookup m w x : timer_of x = None -> m !! w = Some x -> others m !! w = Some (with_pending 0 x).
Proof. intros Ht Hx. unfold others. rewrite lookup_omap, Hx. simpl. by rewrite Ht. Qed.

Lemma others_timer m w x : is_Some (timer_of x) -> m !! w = Some x -> others m !! w = None.
Proof. intros [t Ht] Hx. unfold others. rewrite lookup_omap, Hx. simpl. by rewrite Ht. Qed.

(** The timers, without the mark of pending events. *)
Definition clocks (m : gmap W ev_watcher) : gmap W ev_watcher :=
  omap (fun x => match timer_of x with Some _ => Some (with_pending 0 x) | None => None end) m.

Lemma clocks_lookup m w x t : timer_of x = Some t -> m !! w = Some x -> clocks m !! w = Some (with_pending 0 x).
Proof. intros Ht Hx. unfold clocks. rewrite lookup_omap, Hx. simpl. by rewrite Ht. Qed.

Lemma clocks_back m w y : clocks m !! w = Some y -> exists x, m !! w = Some x /\ is_Some (timer_of x) /\ y = with_pending 0 x.
Proof.
  unfold clocks. rewrite lookup_omap. destruct (m !! w) as [x|]; [|done]. simpl. destruct (timer_of x) as [t|] eqn:Ht; [|done].
  intros [= <-]. exists x. split_and!; [done|by eexists|done].
Qed.

(** Other watchers change. *)
Lemma clocks_same (m m' : gmap W ev_watcher) :
  (forall w, match m !! w, m' !! w with
             | Some x, Some x' => with_pending 0 x' = with_pending 0 x \/ (timer_of x = None /\ timer_of x' = None)
             | None, None => True
             | _, _ => False
             end) -> clocks m' = clocks m.
Proof.
  intros H. apply map_eq. intros w. specialize (H w). unfold clocks. rewrite !lookup_omap.
  destruct (m !! w) as [x|], (m' !! w) as [x'|]; try done. simpl. destruct H as [E|[-> ->]]; [|done].
  unfold timer_of. rewrite E. injection E as _ _ E3. by rewrite E3.
Qed.

Lemma clocks_insert m w x x' : m !! w = Some x -> timer_of x = None -> timer_of x' = None -> clocks (<[w := x']> m) = clocks m.
Proof.
  intros Hx Ht Ht'. apply clocks_same. intros w'. destruct (decide (w' = w)) as [->|Hne].
  - rewrite lookup_insert_eq, Hx. by right.
  - rewrite lookup_insert_ne by done. destruct (m !! w'); [by left|done].
Qed.

Lemma clocks_pending (m m' : gmap W ev_watcher) : with_pending 0 <$> m' = with_pending 0 <$> m -> clocks m' = clocks m.
Proof.
  intros E. apply clocks_same. intros w. apply (f_equal (lookup w)) in E. rewrite !lookup_fmap in E.
  destruct (m !! w) as [x|], (m' !! w) as [x'|]; try done. simpl in E. apply (inj Some) in E. by left.
Qed.

(** Timers change. *)
Lemma others_same (m m' : gmap W ev_watcher) :
  (forall w, match m !! w, m' !! w with
             | Some x, Some x' => with_pending 0 x' = with_pending 0 x \/ (is_Some (timer_of x) /\ is_Some (timer_of x'))
             | None, None => True
             | _, _ => False
             end) -> others m' = others m.
Proof.
  intros H. apply map_eq. intros w. specialize (H w). unfold others. rewrite !lookup_omap.
  destruct (m !! w) as [x|], (m' !! w) as [x'|]; try done. simpl. destruct H as [E|[[t ->] [t' ->]]]; [|done].
  unfold timer_of. rewrite E. injection E as _ _ E3. by rewrite E3.
Qed.

Lemma others_insert m w x x' : m !! w = Some x -> is_Some (timer_of x) -> is_Some (timer_of x') -> others (<[w := x']> m) = others m.
Proof.
  intros Hx Ht Ht'. apply others_same. intros w'. destruct (decide (w' = w)) as [->|Hne].
  - rewrite lookup_insert_eq, Hx. by right.
  - rewrite lookup_insert_ne by done. destruct (m !! w'); [by left|done].
Qed.

Lemma others_pending (m m' : gmap W ev_watcher) : with_pending 0 <$> m' = with_pending 0 <$> m -> others m' = others m.
Proof.
  intros E. apply others_same. intros w. apply (f_equal (lookup w)) in E. rewrite !lookup_fmap in E.
  destruct (m !! w) as [x|], (m' !! w) as [x'|]; try done. simpl in E. apply (inj Some) in E. by left.
Qed.

(** * Frames for timers *)

(** Watchers that differ in what the timers do not use. *)
Lemma timers_ok_mem l l' :
  timers_ok l -> timers l' = timers l -> timercnt l' = timercnt l -> mn_now l' = mn_now l ->
  clocks (mem l') = clocks (mem l) -> timers_ok l'.
Proof.
  intros [H1 H2 H3 H4 Hout H5 Hu H6] Et Ec En Em.
  assert (forall w x t, mem l !! w = Some x -> timer_of x = Some t -> exists x', mem l' !! w = Some x' /\
    active x' = active x /\ timer_of x' = timer_of x) as Hforth.
  { intros w x t Hx Ht. pose proof (clocks_lookup _ _ _ _ Ht Hx) as Hc. rewrite <- Em in Hc.
    destruct (clocks_back _ _ _ Hc) as (x' & Hx' & _ & E). exists x'. injection E as E1 E2 E3. unfold timer_of. by rewrite E1, E3. }
  assert (forall w x' t, mem l' !! w = Some x' -> timer_of x' = Some t -> exists x, mem l !! w = Some x /\
    active x = active x' /\ timer_of x = timer_of x' /\ priority x = priority x') as Hback.
  { intros w x' t Hx' Ht. pose proof (clocks_lookup _ _ _ _ Ht Hx') as Hc. rewrite Em in Hc.
    destruct (clocks_back _ _ _ Hc) as (x & Hx & _ & E). exists x. injection E as E1 E2 E3. unfold timer_of. by rewrite E1, E2, E3. }
  split; rewrite ?Et, ?Ec, ?En; try done.
  - intros i a Hi Ha. destruct (H3 i a Hi Ha) as (x & rep & Hx & Hai & Ht).
    destruct (Hforth _ _ _ Hx Ht) as (x' & Hx' & E1 & E2). exists x', rep. split_and!; [done|congruence..].
  - intros w x' t Hx' Ht Ha Hw. destruct (Hback _ _ _ Hx' Ht) as (x & Hx & E1 & E2 & _). apply (H4 w x t); congruence.
  - intros w x' at_ rep Hx' Ht. destruct (Hback _ _ _ Hx' Ht) as (x & Hx & E1 & E2 & _). apply (H5 w x at_ rep); congruence.
  - intros w x' t Hx' Ht. destruct (Hback _ _ _ Hx' Ht) as (x & Hx & E1 & E2 & E3).
    destruct (Hu w x t Hx) as [Hw Hp]; [congruence|]. split; [done|]. unfold priority_ok, ABSPRI in *. rewrite <- E1, <- E3. done.
Qed.

(** What the timers are about is the same. *)
Definition clock_frame (l l' : ev_loop) : Prop :=
  timers l' = timers l /\ timercnt l' = timercnt l /\ mn_now l' = mn_now l /\ rfeeds l' = rfeeds l /\
  rfeedcnt l' = rfeedcnt l /\ clocks (mem l') = clocks (mem l).

Lemma clock_frame_refl l : clock_frame l l.
Proof. done. Qed.

Lemma clock_frame_trans l1 l2 l3 : clock_frame l1 l2 -> clock_frame l2 l3 -> clock_frame l1 l3.
Proof. unfold clock_frame. intuition congruence. Qed.

Lemma clock_frame_pending l l' : pending_frame l l' -> clock_frame l l'.
Proof. intros (m & pss & cnts & pri & -> & E). split_and!; try done. by apply clocks_pending. Qed.

Lemma timers_frame l l' : pending_frame l l' -> timers_ok l -> timers_ok l'.
Proof.
  intros (m & pss & cnts & pri & -> & E) Hok. apply (timers_ok_mem l); try done. by apply clocks_pending.
Qed.

Lemma timer_map_clocks l : timer_map l = omap timer_state (clocks (mem l)).
Proof.
  apply map_eq. intros w. unfold timer_map, clocks. rewrite !lookup_omap. destruct (mem l !! w) as [x|]; [|done]. simpl.
  destruct (timer_of x) as [t|] eqn:Ht; simpl; unfold timer_state; [change (timer_of (with_pending 0 x)) with (timer_of x)|]; by rewrite Ht.
Qed.

Lemma timer_map_frame l l' : pending_frame l l' -> timer_map l' = timer_map l.
Proof. intros (m & pss & cnts & pri & -> & E). rewrite !timer_map_clocks. cbn [mem set_mem]. by rewrite (clocks_pending _ _ E). Qed.

(** Watchers that differ in what the queues do not use. *)
Lemma pending_ok_mem l l' P :
  pending_ok l P -> pendings l' = pendings l -> pendingcnt l' = pendingcnt l ->
  (forall w, match mem l !! w, mem l' !! w with
             | Some x, Some x' => pending x' = pending x /\ (pending x <> 0 -> priority x' = priority x)
             | None, None => True
             | _, _ => False
             end) -> pending_ok l' P.
Proof.
  intros [H1 H2 H3 H4] Ep Ec Em. assert (forall pri, stack l' pri = stack l pri) as Hst.
  { intros pri. by apply stack_same; rewrite ?Ep, ?Ec. }
  split.
  - intros pri Hr. rewrite Hst. by apply H1.
  - intros pri q j p. rewrite Hst. intros Hq Hj Hp. destruct (H2 pri q j p Hq Hj Hp) as (x & Hx & Hpx & Ha).
    specialize (Em (p_w p)). rewrite Hx in Em. destruct (mem l' !! p_w p) as [x'|]; [|done].
    destruct Em as [E1 E2]. exists x'. split_and!; [done|congruence|]. unfold ABSPRI in *. rewrite E2; [done|]. lia.
  - intros w x' Hx' Hp. specialize (Em w). rewrite Hx' in Em. destruct (mem l !! w) as [x|] eqn:Hx; [|done].
    destruct Em as [E1 E2]. rewrite E1 in Hp. specialize (E2 Hp).
    destruct (H3 w x Hx Hp) as (Hw & Hpri & q & j & p & Hq & Hj & Hpx & Hpw). unfold priority_ok, ABSPRI in *. rewrite E2.
    split; [done|]. split; [done|]. exists q, j, p. rewrite Hst. split_and!; [done..|congruence|done].
  - destruct H4 as [x Hx]. specialize (Em pending_w). rewrite Hx in Em. destruct (mem l' !! pending_w); [eauto|done].
Qed.

(** * Moving elements *)

(** The memory of a heap operation. *)
Lemma reindexed_lookup N h m m' w x' :
  reindexed N h m m' -> m' !! w = Some x' -> exists x, m !! w = Some x /\ with_active 0 x' = with_active 0 x.
Proof.
  intros [E _] Hx'. apply (f_equal (lookup w)) in E. rewrite !lookup_fmap, Hx' in E. simpl in E.
  destruct (m !! w) as [x|]; [|done]. apply (inj Some) in E. by exists x.
Qed.

Section move.
Context (N : Z) (h : list ANHE) (l : ev_loop) (out : option W).
Context (Hnow : finite (mn_now l)).
Context (Hentry : forall i a, in_heap N i -> array_get h i = Some a ->
  exists x repeat, mem l !! he_w a = Some x /\ active x <> 0 /\ timer_of x = Some (he_at a, repeat)).
Context (Hactive : forall w x t, mem l !! w = Some x -> timer_of x = Some t -> active x <> 0 -> out <> Some w ->
  exists i a, in_heap N i /\ array_get h i = Some a /\ he_w a = w).
Context (Hnot : forall i a, in_heap N i -> array_get h i = Some a -> out <> Some (he_w a)).
Context (Htimes : forall w x at_ repeat, mem l !! w = Some x -> timer_of x = Some (at_, repeat) ->
  number at_ /\ finite repeat /\ fle fzero repeat = true).
Context (Huser : forall w x t, mem l !! w = Some x -> timer_of x = Some t ->
  w <> pending_w /\ (active x <> 0 -> priority_ok x)).

Lemma moved_loop op :
  timers l = h -> timercnt l = N -> moved N h (mem l) (op (h, mem l)) ->
  exists l', on_timers op l = Some l' /\ timers_but out l' /\ timer_map l' = timer_map l /\
    exists h' m', l' = set_timers h' (set_mem m' l) /\ with_active 0 <$> m' = with_active 0 <$> mem l /\
      (forall w, out = Some w -> m' !! w = mem l !! w) /\ others m' = others (mem l).
Proof.
  intros Ht HN (h' & m' & Hop & Ha & Ho & Hi & Hs & Hr & Hl). unfold on_timers. rewrite Ht, Hop. cbn [mbind option_bind fst snd].
  eexists. split; [done|].
  assert (forall w x', m' !! w = Some x' -> exists x, mem l !! w = Some x /\ timer_of x' = timer_of x /\
            (active x' = 0 <-> active x = 0) /\ priority x' = priority x) as Hback.
  { intros w x' Hx'. destruct (reindexed_lookup _ _ _ _ _ _ Hr Hx') as (x & Hx & E). exists x. split; [done|].
    assert (timer_of x' = timer_of x) as Et by (unfold timer_of; by injection E as _ _ ->). split; [done|].
    split; [|by injection E].
    assert ((forall i a, in_heap N i -> array_get h i = Some a -> he_w a <> w) -> active x' = 0 <-> active x = 0) as Hout.
    { intros Hno. rewrite (proj2 Hr w Hno) in Hx'. by assert (x' = x) as -> by congruence. }
    destruct (decide (active x = 0)) as [E0|E0].
    - apply Hout. intros i a Hin Hget Hw. destruct (Hentry i a Hin Hget) as (y & rep & Hy & Hya & _). congruence.
    - destruct (timer_of x) as [t|] eqn:Htx.
      + destruct (decide (out = Some w)) as [Ho'|Ho'].
        { apply Hout. intros i a Hin Hget Hw. apply (Hnot i a Hin Hget). congruence. }
        destruct (Hactive w x t Hx Htx E0 Ho') as (i & a & Hin & Hget & Hw).
        destruct (proj1 (Hs a)) as (j & Hj & Hja); [by exists i|]. destruct (Hi j a Hj Hja) as (y & Hy & Hya).
        rewrite Hw in Hy. assert (y = x') as -> by congruence. unfold in_heap, HEAP0, DHEAP in Hj. split; lia.
      + apply Hout. intros i a Hin Hget Hw. destruct (Hentry i a Hin Hget) as (y & rep & Hy & _ & Hyt). congruence. }
  split; [split; cbn [timers timercnt mem mn_now set_timers set_mem]; rewrite ?HN; try done|].
  - intros i a Hin Hget. destruct (Hi i a Hin Hget) as (x' & Hx' & Hai).
    destruct (proj2 (Hs a)) as (j & Hj & Hja); [by exists i|]. destruct (Hentry j a Hj Hja) as (x & rep & Hx & _ & Htx).
    destruct (Hback _ _ Hx') as (y & Hy & Ey & _). exists x', rep. split_and!; [done|done|]. congruence.
  - intros w x' t Hx' Htx Hax Ho'. destruct (Hback _ _ Hx') as (x & Hx & Ex & Ea & _).
    destruct (Hactive w x t Hx) as (i & a & Hin & Hget & Hw); [congruence|tauto|done|].
    destruct (proj1 (Hs a)) as (j & Hj & Hja); [by exists i|]. by exists j, a.
  - intros i a Hin Hget. destruct (proj2 (Hs a)) as (j & Hj & Hja); [by exists i|]. by apply (Hnot j).
  - intros w x' at_ rep Hx' Htx. destruct (Hback _ _ Hx') as (x & Hx & Ex & _). apply (Htimes w x); congruence.
  - intros w x' t Hx' Htx. destruct (Hback _ _ Hx') as (x & Hx & Ex & Ea & Epr).
    destruct (Huser w x t Hx) as [Hw Hp]; [congruence|]. split; [done|]. unfold priority_ok, ABSPRI in *. rewrite Epr. tauto.
  - split; [|exists h', m'; split_and!; [done|apply Hr| |];
      [intros w Hw; apply Hr; intros i a Hin Hget E; apply (Hnot i a Hin Hget); congruence|]].
    2:{ apply others_same. intros w. destruct (m' !! w) as [x'|] eqn:Hx'.
        - destruct (Hback _ _ Hx') as (x & Hx & Ex & _). rewrite Hx. destruct (timer_of x) as [t|] eqn:Et; [right; by rewrite Ex|left].
          rewrite (proj2 Hr w) in Hx'; [congruence|]. intros i a Hin Hget E.
          destruct (Hentry i a Hin Hget) as (y & rep & Hy & _ & Hyt). congruence.
        - destruct Hr as [E _]. apply (f_equal (lookup w)) in E. rewrite !lookup_fmap, Hx' in E. by destruct (mem l !! w). }
    apply map_eq. intros w. unfold timer_map. rewrite !lookup_omap. simpl.
    destruct (m' !! w) as [x'|] eqn:Hx'; simpl.
    + destruct (Hback _ _ Hx') as (x & -> & Ex & Ea & _). simpl. unfold timer_state. rewrite Ex.
      destruct (timer_of x) as [[at_ rep]|]; [|done]. simpl. do 2 f_equal. apply bool_decide_ext. tauto.
    + destruct Hr as [E _]. apply (f_equal (lookup w)) in E. rewrite !lookup_fmap, Hx' in E. simpl in E.
      by destruct (mem l !! w).
Qed.
End move.

(** * Frames *)

(** What neither timers nor pending events change: also the watchers that are
    not timers, but for their marks. *)
Definition mask (l : ev_loop) : ev_loop :=
  set_mem (others (mem l)) (set_timers [] (set_timercnt 0 (set_activecnt 0 (set_pendings [] (set_pendingcnt [] (set_pendingpri 0 l)))))).

(** What timers do not change: pending events and [mask]. *)
Record timer_frame (l l' : ev_loop) : Prop := TimerFrame {
  tf_mask : mask l' = mask l;
  tf_pendings : pendings l' = pendings l;
  tf_cnt : pendingcnt l' = pendingcnt l;
  tf_pri : pendingpri l' = pendingpri l;
}.

Lemma timer_frame_intro l l' h m n c :
  others m = others (mem l) -> l' = set_timers h (set_timercnt n (set_activecnt c (set_mem m l))) -> timer_frame l l'.
Proof. intros E ->. split; try done. unfold mask. cbn [mem set_mem set_timers set_timercnt set_activecnt]. by rewrite E. Qed.

Lemma pending_mask l l' : pending_frame l l' -> mask l' = mask l.
Proof. intros (m & pss & cnts & pri & -> & E). unfold mask. cbn [mem set_mem]. rewrite (others_pending _ _ E). by destruct l. Qed.

Lemma frame_stack l l' pri : timer_frame l l' -> stack l' pri = stack l pri.
Proof. intros [_ E1 E2 _]. apply stack_same; congruence. Qed.

Lemma frame_top l l' : timer_frame l l' -> top_ok l -> top_ok l'.
Proof.
  intros Hf [Hr Hem]. split; rewrite (tf_pri _ _ Hf); [done|]. intros pri Hp. rewrite (frame_stack _ _ _ Hf). by apply Hem.
Qed.

Lemma frame_roomy l l' n : timer_frame l l' -> roomy n l -> roomy n l'.
Proof. intros Hf Hr pri q. rewrite (frame_stack _ _ _ Hf). apply Hr. Qed.

Lemma frame_now l l' : mask l' = mask l -> mn_now l' = mn_now l.
Proof. intros E. exact (f_equal mn_now E). Qed.

Lemma timer_frame_trans l1 l2 l3 : timer_frame l1 l2 -> timer_frame l2 l3 -> timer_frame l1 l3.
Proof. intros [] []. split; congruence. Qed.

Lemma update_ok l w x g : mem l !! w = Some x -> update w g l = Some (set_mem (<[w := g x]> (mem l)) l).
Proof. intros Hx. unfold update. by rewrite Hx. Qed.

(** The priorities of the watchers stay. *)
Definition same_priorities (l l' : ev_loop) : Prop := priority <$> mem l' = priority <$> mem l.

Lemma same_priorities_of (g : ev_watcher -> ev_watcher) l l' :
  (forall x, priority (g x) = priority x) -> g <$> mem l' = g <$> mem l -> same_priorities l l'.
Proof.
  intros Hg E. unfold same_priorities. apply (f_equal (fmap priority)) in E. rewrite <- !map_fmap_compose in E.
  rewrite !(map_fmap_ext (priority ∘ g) priority) in E; [done|..]; intros; apply Hg.
Qed.

Lemma same_priorities_insert l l' w x x' :
  mem l !! w = Some x -> priority x' = priority x -> mem l' = <[w := x']> (mem l) -> same_priorities l l'.
Proof.
  intros Hx E Em. unfold same_priorities. rewrite Em, fmap_insert, E. apply insert_id. by rewrite lookup_fmap, Hx.
Qed.

Lemma same_priorities_trans l1 l2 l3 : same_priorities l1 l2 -> same_priorities l2 l3 -> same_priorities l1 l3.
Proof. unfold same_priorities. congruence. Qed.

Lemma frame_priorities l l' : pending_frame l l' -> same_priorities l l'.
Proof. intros (m & pss & cnts & pri & -> & E). by apply (same_priorities_of (with_pending 0)). Qed.

(** The priorities of all watchers are in range. *)
Definition all_priorities (l : ev_loop) : Prop := forall w x, mem l !! w = Some x -> priority_ok x.

Lemma all_priorities_same l l' : same_priorities l l' -> all_priorities l -> all_priorities l'.
Proof.
  intros E H w x' Hx'. unfold same_priorities in E. apply (f_equal (lookup w)) in E. rewrite !lookup_fmap, Hx' in E.
  destruct (mem l !! w) as [x|] eqn:Hx; [|done]. simpl in E. injection E as E. specialize (H w x Hx).
  unfold priority_ok, ABSPRI in *. by rewrite E.
Qed.

(** The priority of a watcher. *)
Definition prio (l : ev_loop) (w : W) : Z := from_option ABSPRI 0 (mem l !! w).

Lemma prio_same l l' w : same_priorities l l' -> prio l' w = prio l w.
Proof.
  intros E. unfold same_priorities in E. apply (f_equal (lookup w)) in E. rewrite !lookup_fmap in E. unfold prio.
  destruct (mem l !! w) as [x|], (mem l' !! w) as [x'|]; try done. simpl in *. injection E as E. unfold ABSPRI. by rewrite E.
Qed.

(** Clearing a watcher that is not pending changes nothing. *)
Lemma pending_ok_cleared l P w x :
  pending_ok l P -> mem l !! w = Some x -> w <> pending_w -> priority_ok x -> pending x = 0 ->
  pending_ok l (cleared P w (ABSPRI x)).
Proof.
  intros Hok Hx Hw Hp H0. destruct (po_stack l P Hok (ABSPRI x) Hp) as (q & Hq & HP).
  assert (unfeed w (P (ABSPRI x)) = P (ABSPRI x)) as E.
  { rewrite HP. apply live_unfeed. intros p Hin. by apply (not_pending l P w x (ABSPRI x) q). }
  destruct Hok as [G1 G2 G3 G4]. split; try done. intros pri Hpri. destruct (G1 pri Hpri) as (q' & Hq' & HP').
  exists q'. split; [done|]. unfold cleared, upd. rewrite E. case_decide as E'; [by rewrite <- E'|done].
Qed.

(** A clearing of the queue, whether the watcher is pending or not. *)
Lemma cleared_either l l' P w x :
  pending_ok l P -> mem l !! w = Some x -> w <> pending_w -> priority_ok x ->
  (forall P0, pending_ok l P0 -> pending_ok l' (if pending x =? 0 then P0 else cleared P0 w (ABSPRI x))) ->
  pending_ok l' (cleared P w (prio l w)).
Proof.
  intros Hok Hx Hw Hp H. assert (prio l w = ABSPRI x) as -> by (unfold prio; by rewrite Hx).
  destruct (Z.eqb_spec (pending x) 0) as [E|E]; [|by apply H].
  apply H. by apply pending_ok_cleared.
Qed.


(** A change of one watcher that keeps its mark of pending events. *)
Lemma pending_ok_insert l P w x x' l' :
  pending_ok l P -> mem l !! w = Some x -> pendings l' = pendings l -> pendingcnt l' = pendingcnt l ->
  with_active 0 <$> mem l' = with_active 0 <$> <[w := x']> (mem l) ->
  pending x' = pending x -> (pending x <> 0 -> priority x' = priority x) -> pending_ok l' P.
Proof.
  intros Hok Hx Ep Ec Em E1 E2. apply (pending_ok_mem l); [done..|]. intros w'.
  apply (f_equal (lookup w')) in Em. rewrite !lookup_fmap in Em. destruct (decide (w' = w)) as [->|Hne].
  - rewrite lookup_insert_eq in Em. rewrite Hx. destruct (mem l' !! w) as [y|]; [|done]. simpl in Em.
    apply (inj Some) in Em. injection Em as G1 G2 _. split; [congruence|]. intros Hp. rewrite G2. auto.
  - rewrite lookup_insert_ne in Em by done. destruct (mem l !! w'), (mem l' !! w'); try done. simpl in Em.
    apply (inj Some) in Em. by injection Em as G1 G2 _.
Qed.

Lemma pri_adjust_same l P w x :
  pending_ok l P -> mem l !! w = Some x -> pending x <> 0 -> priority (pri_adjust x) = priority x.
Proof.
  intros Hok Hx Hp. destruct (po_watcher l P Hok w x Hx Hp) as (_ & Hpri & _).
  unfold priority_ok, ABSPRI, NUMPRI, pri_adjust, EV_MAXPRI, EV_MINPRI in *. simpl.
  destruct (Z.ltb_spec (priority x) (-2)); [lia|]. destruct (Z.ltb_spec 2 (priority x)); [lia|done].
Qed.

Lemma timer_map_lookup l w x t : mem l !! w = Some x -> timer_of x = Some t ->
  timer_map l !! w = Some (Timer (bool_decide (active x <> 0)) t.1 t.2).
Proof. intros Hx Ht. unfold timer_map. rewrite lookup_omap, Hx. simpl. unfold timer_state. rewrite Ht. by destruct t. Qed.

Lemma pri_adjust_ok x : priority_ok (pri_adjust x).
Proof.
  unfold priority_ok, ABSPRI, NUMPRI, pri_adjust, EV_MAXPRI, EV_MINPRI. simpl.
  destruct (Z.ltb_spec (priority x) (-2)); [simpl; lia|]. destruct (Z.ltb_spec 2 (priority x)); lia.
Qed.

Lemma set_at_marks x t :
  active (set_at t x) = active x /\ pending (set_at t x) = pending x /\ priority (set_at t x) = priority x.
Proof. unfold set_at. by destruct (body x). Qed.

(** * Starting *)

Section start.
Context (l : ev_loop) (P : queues) (w : W) (x : ev_watcher) (at_ repeat : ev_tstamp).
Context (Hok : timers_ok l) (Hp : pending_ok l P).
Context (Hx : mem l !! w = Some x) (Ht : timer_of x = Some (at_, repeat)) (Ha : active x = 0).

Let N := timercnt l + 1.
Let act := timercnt l + HEAP0.
Let at' := fadd at_ (mn_now l).
Let x1 := with_active act (pri_adjust (set_at at' x)).

Lemma timer_set_at t : timer_of (set_at t x) = Some (t, repeat).
Proof. unfold timer_of, set_at in *. destruct (body x); [|done..]. injection Ht as -> ->. done. Qed.

Lemma timer_of_start : timer_of x1 = Some (at', repeat).
Proof. exact (timer_set_at at'). Qed.

(** The array with the new element behind the others. *)
Lemma start_array junk :
  act < Z.of_nat (length (timers l ++ junk)) ->
  let h := <[Z.to_nat act := Anhe at' w]> (timers l ++ junk) in
  let m := <[w := x1]> (mem l) in
  heap_array N h /\ ordered_but N act h /\ above_children N act h /\
  (forall i a, in_heap N i -> array_get h i = Some a ->
     (i = act /\ a = Anhe at' w) \/ (in_heap (timercnt l) i /\ array_get (timers l) i = Some a /\ he_w a <> w)) /\
  indexed_but N act h m.
Proof.
  intros Hlen h m. destruct (to_array l Hok) as [[Hn0 Hn1] Hnum Hdist].
  assert (forall i, in_heap (timercnt l) i -> array_get h i = array_get (timers l) i) as Hold.
  { intros i Hi. unfold h. unfold in_heap, act, HEAP0, DHEAP in *. rewrite array_get_insert by lia.
    rewrite decide_False by lia. by apply array_get_app_l; lia. }
  assert (array_get h act = Some (Anhe at' w)) as Hnew.
  { unfold h. rewrite array_get_insert by (unfold act, HEAP0, DHEAP in *; lia). by rewrite decide_True. }
  assert (forall i a, in_heap N i -> array_get h i = Some a ->
     (i = act /\ a = Anhe at' w) \/ (in_heap (timercnt l) i /\ array_get (timers l) i = Some a /\ he_w a <> w)) as Hcase.
  { intros i a Hi Hget. destruct (decide (i = act)) as [->|Hne]; [left; split; congruence|right].
    assert (in_heap (timercnt l) i) as Hi' by (unfold in_heap, N, act in *; lia). rewrite Hold in Hget by done.
    split_and!; [done|done|]. intros E. destruct (to_entry l Hok i a Hi' Hget) as (y & rep & Hy & Hya & _).
    rewrite E in Hy. assert (y = x) as -> by congruence. unfold in_heap, HEAP0, DHEAP in Hi'. lia. }
  destruct (to_times l Hok w x at_ repeat Hx Ht) as (Hnat & Hfin & _).
  split_and!; [| | |exact Hcase|].
  - split.
    + unfold h, N in *. rewrite length_insert. unfold act in Hlen. lia.
    + intros i a Hi Hget. destruct (Hcase i a Hi Hget) as [[-> ->]|(Hi' & Hget' & _)]; [|by apply (Hnum i a)].
      apply fadd_number; [done|]. apply (to_now l Hok).
    + intros i j a b Hi Hj Hai Hbj E.
      destruct (Hcase i a Hi Hai) as [[-> ->]|(Hi' & Hget' & Hw)], (Hcase j b Hj Hbj) as [[-> ->]|(Hj' & Hgetj & Hwj)]; simpl in *.
      * done.
      * by destruct Hwj.
      * by destruct Hw.
      * by apply (Hdist i j a b).
  - apply ordered_grow; [unfold act; lia|]. intros i Hi Hi0. pose proof (to_order l Hok i Hi Hi0) as Hb.
    intros a b. rewrite !Hold; [apply Hb|done|]. pose proof (parent_range i ltac:(unfold in_heap in Hi; lia)).
    unfold in_heap in *. lia.
  - apply ordered_grow; [unfold act; lia|]. intros i Hi Hi0. pose proof (to_order l Hok i Hi Hi0) as Hb.
    intros a b. rewrite !Hold; [apply Hb|done|]. pose proof (parent_range i ltac:(unfold in_heap in Hi; lia)).
    unfold in_heap in *. lia.
  - intros i a Hi Hget. destruct (Hcase i a Hi Hget) as [[-> ->]|(Hi' & Hget' & Hw)]; unfold m; simpl.
    + rewrite lookup_insert_eq. by exists x1.
    + rewrite lookup_insert_ne by done. destruct (to_entry l Hok i a Hi' Hget') as (y & rep & Hy & Hya & _). by exists y.
Qed.

Lemma timer_start_ok :
  timercnt l < 2 ^ 24 ->
  exists l', ev_timer_start w l = Some l' /\ timers_ok l' /\ pending_ok l' P /\
    timer_map l' = <[w := Timer true at' repeat]> (timer_map l) /\ timer_frame l l' /\
    (priority_ok x -> same_priorities l l').
Proof.
  intros Hmax. unfold ev_timer_start. rewrite Hx. cbn [mbind option_bind]. rewrite Ha. cbn [negb Z.eqb].
  rewrite Ht. cbn [mbind option_bind]. rewrite (update_ok l w x _ Hx). cbn [mbind option_bind].
  destruct (to_times l Hok w x at_ repeat Hx Ht) as (Hnat & Hfin & ->). cbn [negb].
  destruct (to_array l Hok) as [[Hn0 Hn1] _ _].
  unfold ev_start. erewrite update_ok by (cbn [mem set_timercnt set_mem]; apply lookup_insert_eq).
  cbn [mbind option_bind mem set_timercnt set_mem timercnt timers ev_ref set_activecnt]. rewrite insert_insert_eq.
  replace (timercnt l + 1 + HEAP0 - 1) with act by (unfold act; lia). fold at' x1.
  destruct (needsize_ok 16 (timers l) (act + 1) (Anhe fzero null)) as (junk & Hgrow & Hlen);
    [lia|unfold act, HEAP0, DHEAP; lia|].
  rewrite Hgrow. cbn [mbind option_bind].
  destruct (start_array junk) as (Hv & Hob & Hup & Hcase & Hidx); [lia|].
  unfold timers_put, ev_ref. cbn [mem set_timers set_activecnt set_mem set_timercnt]. rewrite lookup_insert_eq. cbn [mbind option_bind].
  rewrite timer_of_start. cbn [mbind option_bind timers set_timers set_activecnt set_mem set_timercnt]. rewrite array_set_Some by (unfold act, HEAP0, DHEAP in *; lia).
  cbn [mbind option_bind].
  set (h := <[Z.to_nat act := Anhe at' w]> (timers l ++ junk)) in *.
  set (l4 := set_timers h _).
  assert (mem l4 = <[w := x1]> (mem l)) as Hm by done.
  destruct (moved_loop N h l4 None) with (op := upheap act) as (l' & Hrun & Hok' & Hmap & h' & m' & Heq & Em & _ & Eo).
  - apply (to_now l Hok).
  - intros i a Hi Hget. rewrite Hm. destruct (Hcase i a Hi Hget) as [[-> ->]|(Hi' & Hget' & Hw)]; simpl.
    + rewrite lookup_insert_eq. exists x1, repeat. split_and!; [done| |apply timer_of_start].
      simpl. unfold act, HEAP0, DHEAP. lia.
    + rewrite lookup_insert_ne by done. destruct (to_entry l Hok i a Hi' Hget') as (y & rep & Hy & Hya & Hyt).
      exists y, rep. split_and!; [done| |done]. unfold in_heap, HEAP0, DHEAP in Hi'. lia.
  - intros w' y t. rewrite Hm. destruct (decide (w' = w)) as [->|Hne].
    + intros _ _ _ _. exists act, (Anhe at' w). split_and!; [unfold in_heap, N, act; lia| |done].
      unfold h. rewrite array_get_insert by (unfold act, HEAP0, DHEAP in *; lia). by rewrite decide_True.
    + rewrite lookup_insert_ne by done. intros Hy Hyt Hya Hn. destruct (to_active l Hok w' y t Hy Hyt Hya Hn) as (i & a & Hi & Hget & Hw).
      exists i, a. split_and!; [unfold in_heap, N in *; lia| |done]. rewrite <- Hget. unfold h, in_heap, act, HEAP0, DHEAP in *.
      rewrite array_get_insert by lia. rewrite decide_False by lia. apply array_get_app_l. lia.
  - done.
  - intros w' y t rep. rewrite Hm. destruct (decide (w' = w)) as [->|Hne].
    + rewrite lookup_insert_eq. intros [= <-]. rewrite timer_of_start. intros [= <- <-].
      destruct (to_times l Hok w x at_ repeat Hx Ht) as (H1 & H2 & H3). split_and!; [|done|done].
      apply fadd_number; [done|]. apply (to_now l Hok).
    + rewrite lookup_insert_ne by done. apply (to_times l Hok).
  - intros w' y t. rewrite Hm. destruct (decide (w' = w)) as [->|Hne].
    + rewrite lookup_insert_eq. intros [= <-] _. split; [apply (to_user l Hok w x _ Hx Ht)|]. intros _. apply (pri_adjust_ok (set_at at' x)).
    + rewrite lookup_insert_ne by done. apply (to_user l Hok).
  - done.
  - done.
  - rewrite Hm. apply upheap_ok; try done. unfold in_heap, N, act. lia.
  - exists l'. split_and!; [done|done| | | |].
    + subst l'. apply (pending_ok_insert l P w x x1); [done|done|done|done|exact Em|..].
      { unfold x1, set_at. by destruct (body x). }
      intros Hpx. pose proof (pri_adjust_same l P w x Hp Hx Hpx) as E. unfold x1, set_at. destruct (body x); exact E.
    + rewrite Hmap. unfold timer_map. rewrite Hm.
      rewrite (omap_insert_Some _ _ _ _ (Timer true at' repeat)); [done|].
      unfold timer_state. rewrite timer_of_start. cbn [mbind option_bind]. rewrite bool_decide_true; [done|].
      simpl. unfold act, HEAP0, DHEAP. lia.
    + apply (timer_frame_intro l l' h' m' (timercnt l + 1) (activecnt l + 1)); [|by rewrite Heq; destruct l].
      rewrite Eo, Hm. by apply (others_insert _ _ x); [|rewrite Ht|rewrite timer_of_start].
    + intros Hpr. apply (same_priorities_trans _ l4); [|apply (same_priorities_of (with_active 0)); [done|]; by rewrite Heq].
      apply (same_priorities_insert l _ w x x1); [done| |done].
      unfold x1, priority_ok, ABSPRI, NUMPRI, EV_MAXPRI, EV_MINPRI in *. destruct (set_at_marks x at') as (_ & _ & E).
      unfold pri_adjust. simpl. rewrite E. unfold EV_MINPRI, EV_MAXPRI.
      destruct (Z.ltb_spec (priority x) (-2)); [lia|]. destruct (Z.ltb_spec 2 (priority x)); lia.
Qed.
End start.

(** * Changing an element *)

Section place.
Context (l : ev_loop) (Hok : timers_ok l).

Lemma heap_index i : in_heap (timercnt l) i -> 0 <= i < Z.of_nat (length (timers l)).
Proof. destruct (to_array l Hok) as [? _ _]. unfold in_heap, HEAP0, DHEAP in *. lia. Qed.

Lemma heap_get i : in_heap (timercnt l) i -> exists a, array_get (timers l) i = Some a.
Proof. intros Hi. by apply array_get_range, heap_index. Qed.

Lemma place_get k a i :
  in_heap (timercnt l) k ->
  array_get (<[Z.to_nat k := a]> (timers l)) i = if decide (k = i) then Some a else array_get (timers l) i.
Proof. intros Hk. by apply array_get_insert, heap_index. Qed.

(** Other watchers are at other indices. *)
Lemma other_index i j a b :
  in_heap (timercnt l) i -> in_heap (timercnt l) j -> array_get (timers l) i = Some a -> array_get (timers l) j = Some b ->
  i <> j -> he_w a <> he_w b.
Proof. intros Hi Hj Ha Hb Hne E. apply Hne. by apply (ha_distinct _ _ (to_array l Hok) i j a b). Qed.

Lemma place_array N' k a :
  0 <= N' <= timercnt l -> in_heap (timercnt l) k -> number (he_at a) ->
  (forall i b, in_heap N' i -> i <> k -> array_get (timers l) i = Some b -> he_w b <> he_w a) ->
  heap_array N' (<[Z.to_nat k := a]> (timers l)).
Proof.
  intros HN Hk Hnum Hne. destruct (to_array l Hok) as [[Hn0 Hn1] Hnums Hdist].
  assert (forall i, in_heap N' i -> in_heap (timercnt l) i) as Hin by (unfold in_heap; lia).
  split.
  - rewrite length_insert. lia.
  - intros i b Hi. rewrite place_get by done. case_decide; [by intros [= <-]|]. apply (Hnums i b); auto.
  - intros i j b c Hi Hj. rewrite !place_get by done. repeat case_decide; intros Hb Hc E; subst; try done.
    + injection Hb as <-. by destruct (Hne j c).
    + injection Hc as <-. by destruct (Hne i b).
    + apply (Hdist i j b c); auto.
Qed.

Lemma active_nonzero i a x : in_heap (timercnt l) i -> array_get (timers l) i = Some a -> mem l !! he_w a = Some x -> active x <> 0.
Proof.
  intros Hi Ha Hx. destruct (to_entry l Hok i a Hi Ha) as (y & rep & Hy & Hya & _).
  assert (y = x) as -> by congruence. unfold in_heap, HEAP0, DHEAP in Hi. lia.
Qed.

(** ** Removing *)

(** The removal of the element at [act] from the heap. *)
Definition heap_remove (act : Z) : option ev_loop :=
  let l := set_timercnt (timercnt l - 1) l in
  if act <? timercnt l + HEAP0 then
    last ← array_get (timers l) (timercnt l + HEAP0);
    ts ← array_set (timers l) act last;
    on_timers (adjustheap (timercnt l) act) (set_timers ts l)
  else Some l.

Lemma heap_remove_ok w x t :
  mem l !! w = Some x -> timer_of x = Some t -> active x <> 0 ->
  exists l', heap_remove (active x) = Some l' /\ timers_but (Some w) l' /\ timer_map l' = timer_map l /\
    exists h m, l' = set_timers h (set_mem m (set_timercnt (timercnt l - 1) l)) /\
      with_active 0 <$> m = with_active 0 <$> mem l /\ m !! w = mem l !! w /\ others m = others (mem l).
Proof.
  intros Hx Ht Ha. destruct (active_index l w x t Hok Hx Ht Ha) as [Hin Hget]. set (act := active x) in *.
  unfold heap_remove. cbn [timercnt set_timercnt timers]. set (N' := timercnt l - 1).
  assert (forall i b, in_heap (timercnt l) i -> array_get (timers l) i = Some b -> i <> act -> he_w b <> w) as Hother.
  { intros i b Hi Hb Hne. apply (other_index i act b (Anhe t.1 w)); done. }
  assert (forall i, in_heap N' i -> in_heap (timercnt l) i) as Hsub by (unfold in_heap, N'; lia).
  assert (forall h, (forall i b, in_heap N' i -> array_get h i = Some b ->
            exists j, in_heap (timercnt l) j /\ array_get (timers l) j = Some b /\ j <> act) ->
    forall i b, in_heap N' i -> array_get h i = Some b ->
      he_w b <> w /\ exists y rep, mem l !! he_w b = Some y /\ active y <> 0 /\ timer_of y = Some (he_at b, rep)) as Hentries.
  { intros h Hh i b Hi Hb. destruct (Hh i b Hi Hb) as (j & Hj & Hbj & Hne). split; [by apply (Hother j)|].
    destruct (to_entry l Hok j b Hj Hbj) as (y & rep & Hy & Hya & Hyt). exists y, rep. split_and!; [done| |done].
    by apply (active_nonzero j b). }
  destruct (Z.ltb_spec act (N' + HEAP0)) as [Hlt|Hge].
  - assert (in_heap (timercnt l) (N' + HEAP0)) as Hlast by (unfold in_heap, N' in *; lia).
    destruct (heap_get _ Hlast) as [last Hl]. rewrite Hl. cbn [mbind option_bind].
    rewrite array_set_Some by (by apply heap_index). cbn [mbind option_bind].
    set (h := <[Z.to_nat act := last]> (timers l)).
    assert (forall i b, in_heap N' i -> array_get h i = Some b ->
            exists j, in_heap (timercnt l) j /\ array_get (timers l) j = Some b /\ j <> act) as Hh.
    { intros i b Hi. unfold h. rewrite place_get by done. case_decide as E.
      - intros [= <-]. exists (N' + HEAP0). split_and!; [done|done|lia].
      - intros Hb. exists i. auto. }
    destruct (moved_loop N' h (set_timers h (set_timercnt N' l)) (Some w)) with (op := adjustheap N' act)
      as (l' & Hrun & Hok' & Hmap & h' & m' & Heq & Em & Hw & Eo).
    + apply (to_now l Hok).
    + intros i b Hi Hb. apply (Hentries h Hh i b Hi Hb).
    + intros w' y t' Hy Hyt Hya Hne. destruct (to_active l Hok w' y t' Hy Hyt Hya) as (i & b & Hi & Hb & <-); [done|].
      destruct (decide (i = act)) as [->|Hia]; [rewrite Hget in Hb; injection Hb as <-; by destruct Hne|].
      destruct (decide (i = N' + HEAP0)) as [->|Hil].
      * exists act, b. unfold h. rewrite place_get, decide_True by done. split_and!; [unfold in_heap in *; lia|congruence|done].
      * exists i, b. unfold h. rewrite place_get, decide_False by done. split_and!; [unfold in_heap, N' in *; lia|done|done].
    + intros i b Hi Hb [= E]. by apply (proj1 (Hentries h Hh i b Hi Hb)).
    + apply (to_times l Hok).
    + apply (to_user l Hok).
    + done.
    + done.
    + apply adjustheap_ok; [unfold in_heap in *; lia| | |].
      * apply place_array; [unfold in_heap, N', HEAP0, DHEAP in *; lia|done| |].
        { by apply (ha_number _ _ (to_array l Hok) (N' + HEAP0)). }
        intros i b Hi Hne Hb. apply (other_index i (N' + HEAP0) b last); auto. unfold in_heap in Hi. lia.
      * apply (ordered_replace (timercnt l)); [unfold N'; lia|done|apply (to_array l Hok)|apply (to_order l Hok)].
      * intros i b Hi Hb. unfold h in Hb. rewrite place_get in Hb by done. case_decide as E.
        -- injection Hb as <-. destruct (to_entry l Hok _ last Hlast Hl) as (y & rep & Hy & _). exists y. by split.
        -- destruct (to_entry l Hok i b (Hsub i Hi) Hb) as (y & rep & Hy & Hya & _). by exists y.
    + exists l'. split_and!; [done|done|done|]. exists h', m'. split_and!; [by rewrite Heq; destruct l|done|by apply Hw|done].
  - assert (act = N' + HEAP0) as Eact by (unfold in_heap, N' in *; lia).
    exists (set_timercnt N' l). split; [done|].
    assert (forall i b, in_heap N' i -> array_get (timers l) i = Some b ->
            exists j, in_heap (timercnt l) j /\ array_get (timers l) j = Some b /\ j <> act) as Hh.
    { intros i b Hi Hb. exists i. split_and!; [by apply Hsub|done|]. unfold in_heap in Hi. lia. }
    split; [|split; [done|]; exists (timers l), (mem l); split_and!; [by destruct l|done|done|done]].
    destruct (to_array l Hok) as [[Hn0 Hn1] Hnums Hdist]. split; simpl.
    + split; [unfold in_heap, N' in *; lia|intros i b Hi; by apply Hnums, Hsub|intros i j b c Hi Hj; apply Hdist; auto].
    + intros i Hi Hi0. apply (to_order l Hok); auto.
    + intros i b Hi Hb. apply (to_entry l Hok); auto.
    + intros w' y t' Hy Hyt Hya Hne. destruct (to_active l Hok w' y t' Hy Hyt Hya) as (i & b & Hi & Hb & <-); [done|].
      exists i, b. split_and!; [|done|done]. destruct (decide (i = act)) as [->|Hia]; [|unfold in_heap, N' in *; lia].
      rewrite Hget in Hb; injection Hb as <-; by destruct Hne.
    + intros i b Hi Hb [= E]. by apply (proj1 (Hentries (timers l) Hh i b Hi Hb)).
    + apply (to_times l Hok).
    + apply (to_user l Hok).
    + apply (to_now l Hok).
Qed.
End place.

(** A watcher that is not in the heap becomes inactive. *)
Lemma timers_close w l l' x' at_ repeat :
  timers_but (Some w) l -> timers l' = timers l -> timercnt l' = timercnt l -> mn_now l' = mn_now l ->
  mem l' = <[w := x']> (mem l) -> active x' = 0 -> timer_of x' = Some (at_, repeat) -> number at_ ->
  finite repeat -> fle fzero repeat = true -> w <> pending_w -> timers_ok l'.
Proof.
  intros [H1 H2 H3 H4 Hout H5 Hu H6] Et Ec En Em Ha Ht Hn Hf Hl Hwp. split; rewrite ?Et, ?Ec, ?En; try done.
  - intros i a Hi Hget. rewrite Em, lookup_insert_ne; [by apply H3|]. intros ->. by apply (Hout i a).
  - intros w' y t. rewrite Em. destruct (decide (w' = w)) as [->|Hne].
    + rewrite lookup_insert_eq. intros [= <-]. done.
    + rewrite lookup_insert_ne by done. intros Hy Hyt Hya _. apply (H4 w' y t); congruence.
  - intros w' y t rep. rewrite Em. destruct (decide (w' = w)) as [->|Hne].
    + rewrite lookup_insert_eq. intros [= <-] Hy. rewrite Ht in Hy. injection Hy as <- <-. done.
    + rewrite lookup_insert_ne by done. apply H5.
  - intros w' y t. rewrite Em. destruct (decide (w' = w)) as [->|Hne].
    + rewrite lookup_insert_eq. intros [= <-] _. done.
    + rewrite lookup_insert_ne by done. apply Hu.
Qed.

(** * Stopping *)

Lemma timer_set_at_of x at_ repeat t : timer_of x = Some (at_, repeat) -> timer_of (set_at t x) = Some (t, repeat).
Proof. intros Ht. unfold timer_of, set_at in *. destruct (body x); [|done..]. injection Ht as -> ->. done. Qed.

(** Stopping a timer that is not pending. *)
Lemma timer_stop_core l P w x at_ repeat :
  timers_ok l -> pending_ok l P -> mem l !! w = Some x -> timer_of x = Some (at_, repeat) -> active x <> 0 ->
  exists l', (l ← heap_remove l (active x);
      x ← mem l !! w; '(at_, _) ← timer_of x;
      l ← update w (set_at (fsub at_ (mn_now l))) l; ev_stop w l) = Some l' /\
    timers_ok l' /\ pending_ok l' P /\ timer_map l' = <[w := Timer false (fsub at_ (mn_now l)) repeat]> (timer_map l) /\
    timer_frame l l' /\ same_priorities l l'.
Proof.
  intros Hok Hp Hx Ht Ha. destruct (to_times l Hok w x at_ repeat Hx Ht) as (Hn & Hf & Hr).
  destruct (heap_remove_ok l Hok w x _ Hx Ht Ha) as (l1 & -> & Hok1 & Hmap & h & m & Heq & Em & Hmw & Eo).
  cbn [mbind option_bind]. assert (mem l1 !! w = Some x) as Hx1 by (rewrite Heq; simpl; congruence).
  rewrite Hx1. cbn [mbind option_bind]. rewrite Ht. cbn [mbind option_bind]. rewrite (update_ok l1 w x _ Hx1).
  cbn [mbind option_bind]. assert (mn_now l1 = mn_now l) as -> by (by rewrite Heq).
  unfold ev_stop. erewrite update_ok by (cbn [mem ev_unref set_activecnt set_mem]; apply lookup_insert_eq).
  cbn [mem ev_unref set_activecnt set_mem]. rewrite insert_insert_eq.
  set (x' := with_active 0 (set_at (fsub at_ (mn_now l)) x)).
  assert (timer_of x' = Some (fsub at_ (mn_now l), repeat)) as Ht'.
  { by apply (timer_set_at_of _ at_). }
  assert (number (fsub at_ (mn_now l))) as Hn' by (apply fsub_number; [done|apply (to_now l Hok)]).
  destruct (set_at_marks x (fsub at_ (mn_now l))) as (_ & E1 & E2).
  eexists. split; [done|]. split_and!.
  - apply (timers_close w l1 _ x' (fsub at_ (mn_now l)) repeat); try done. apply (to_user l Hok w x _ Hx Ht).
  - apply (pending_ok_insert l P w x x'); [done|done|by rewrite Heq..| |done|done].
    simpl. rewrite !fmap_insert. f_equal. by rewrite Heq.
  - rewrite <- Hmap. unfold timer_map. simpl. apply omap_insert_Some. unfold timer_state. by rewrite Ht'.
  - apply (timer_frame_intro l _ h (<[w := x']> m) (timercnt l - 1) (activecnt l - 1)); [|by rewrite Heq; destruct l].
    rewrite <- Eo. apply (others_insert _ _ x); [by rewrite Hmw|by rewrite Ht|by rewrite Ht'].
  - apply (same_priorities_trans _ l1).
    + apply (same_priorities_of (with_active 0)); [done|]. by rewrite Heq.
    + by apply (same_priorities_insert l1 _ w x x').
Qed.

Lemma timer_stop_ok l P w x at_ repeat :
  timers_ok l -> pending_ok l P -> mem l !! w = Some x -> timer_of x = Some (at_, repeat) ->
  exists l', ev_timer_stop w l = Some l' /\ timers_ok l' /\
    pending_ok l' (if pending x =? 0 then P else cleared P w (ABSPRI x)) /\
    timer_map l' = (if active x =? 0 then timer_map l
                    else <[w := Timer false (fsub at_ (mn_now l)) repeat]> (timer_map l)) /\
    mask l' = mask l /\ same_priorities l l' /\ (top_ok l -> top_ok l') /\ forall n, roomy n l -> roomy n l'.
Proof.
  intros Hok Hp Hx Ht. unfold ev_timer_stop.
  destruct (clear_pending_ok l P w x Hp Hx) as (l1 & -> & Hp1 & Hfr & Hm & Htop & Hroom). cbn [mbind option_bind].
  pose proof (timers_frame l l1 Hfr Hok) as Hok1. rewrite Hm, lookup_insert_eq. cbn [mbind option_bind].
  change (active (with_pending 0 x)) with (active x).
  assert (mem l1 !! w = Some (with_pending 0 x)) as Hx1 by (rewrite Hm; apply lookup_insert_eq).
  destruct (Z.eqb_spec (active x) 0) as [E|E].
  { exists l1. split_and!; try done; [by apply timer_map_frame|by apply pending_mask|by apply frame_priorities]. }
  destruct (active_index l1 w _ _ Hok1 Hx1 Ht E) as [_ Hget]. simpl in Hget. rewrite Hget. cbn [mbind option_bind he_w].
  rewrite Z.eqb_refl. cbn [negb].
  destruct (timer_stop_core l1 _ w _ at_ repeat Hok1 Hp1 Hx1 Ht E) as (l2 & Hrun & Hok2 & Hp2 & Hmap & Hfr2 & Hpri2).
  unfold heap_remove in Hrun. change (active (with_pending 0 x)) with (active x) in Hrun. rewrite Hrun.
  assert (mn_now l1 = mn_now l) as En by (by apply frame_now, pending_mask).
  exists l2. split_and!; [done|done|done| | | | |].
  - by rewrite Hmap, En, (timer_map_frame l l1 Hfr).
  - rewrite (tf_mask _ _ Hfr2). by apply pending_mask.
  - apply (same_priorities_trans _ l1); [by apply frame_priorities|done].
  - intros H. apply (frame_top l1 l2 Hfr2). auto.
  - intros n H. apply (frame_roomy l1 l2 n Hfr2). auto.
Qed.

(** * Rescheduling *)

(** The time of an active timer changes, in the watcher and in the heap. *)
Section reschedule.
Context (l : ev_loop) (w : W) (x : ev_watcher) (at_ repeat at' : ev_tstamp).
Context (Hok : timers_ok l).
Context (Hx : mem l !! w = Some x) (Ht : timer_of x = Some (at_, repeat)) (Ha : active x <> 0) (Hn : number at').

Let k := active x.
Let h := <[Z.to_nat k := Anhe at' w]> (timers l).
Let m := <[w := set_at at' x]> (mem l).

Lemma reschedule_heap :
  in_heap (timercnt l) k /\ heap_array (timercnt l) h /\ ordered_but (timercnt l) k h /\ indexed_but (timercnt l) k h m.
Proof.
  destruct (active_index l w x _ Hok Hx Ht Ha) as [Hk Hget]. simpl in Hget. fold k in Hk, Hget.
  assert (forall i b, in_heap (timercnt l) i -> i <> k -> array_get (timers l) i = Some b -> he_w b <> w) as Hne.
  { intros i b Hi Hik Hb. by apply (other_index l Hok i k b (Anhe at_ w)). }
  split_and!; [done| | |].
  - apply place_array; try done. destruct (to_array l Hok). unfold in_heap in Hk. lia.
  - apply (ordered_replace (timercnt l)); [lia|done|apply (to_array l Hok)|apply (to_order l Hok)].
  - intros i b Hi. unfold h, m. rewrite place_get by done. case_decide as E.
    + intros [= <-]. simpl. rewrite lookup_insert_eq. eexists. by split.
    + intros Hb. rewrite lookup_insert_ne by (intros E'; by apply (Hne i b)).
      destruct (to_entry l Hok i b Hi Hb) as (y & rep & Hy & Hya & _). by exists y.
Qed.

Lemma reschedule_ok op :
  moved (timercnt l) h m (op (timercnt l) (h, m)) ->
  exists l', (l ← update w (set_at at') l; l ← timers_put k w l; on_timers (op (timercnt l)) l) = Some l' /\ timers_ok l' /\
    timer_map l' = <[w := Timer true at' repeat]> (timer_map l) /\ timer_frame l l' /\
    same_priorities l l' /\ forall P, pending_ok l P -> pending_ok l' P.
Proof.
  intros Hmoved. destruct reschedule_heap as (Hk & Hv & Hob & Hidx).
  pose proof (timer_set_at_of x at_ repeat at' Ht) as Ht'. destruct (set_at_marks x at') as (Ea & Ep & Epr).
  rewrite (update_ok l w x _ Hx). cbn [mbind option_bind]. unfold timers_put. cbn [mem set_mem].
  rewrite lookup_insert_eq. cbn [mbind option_bind]. rewrite Ht'. cbn [mbind option_bind timers].
  rewrite array_set_Some by exact (heap_index l Hok k Hk). cbn [mbind option_bind]. cbn [timers]. fold h m.
  destruct (active_index l w x _ Hok Hx Ht Ha) as [_ Hget]. simpl in Hget. fold k in Hget.
  assert (forall i b, in_heap (timercnt l) i -> array_get h i = Some b -> (i = k /\ b = Anhe at' w) \/
    (i <> k /\ array_get (timers l) i = Some b /\ he_w b <> w)) as Hcase.
  { intros i b Hi. unfold h. rewrite place_get by done. case_decide as E; [intros [= <-]; by left|].
    intros Hb. right. split_and!; [done|done|]. by apply (other_index l Hok i k b (Anhe at_ w)). }
  destruct (moved_loop (timercnt l) h (set_timers h (set_mem m l)) None) with (op := op (timercnt l))
    as (l' & Hrun & Hok' & Hmap & h' & m' & Heq & Em & _ & Eo); simpl.
  - apply (to_now l Hok).
  - intros i b Hi Hb. destruct (Hcase i b Hi Hb) as [[-> ->]|(Hik & Hb' & Hw)]; unfold m; simpl.
    + rewrite lookup_insert_eq. exists (set_at at' x), repeat. by rewrite Ea.
    + rewrite lookup_insert_ne by done. destruct (to_entry l Hok i b Hi Hb') as (y & rep & Hy & _ & Hyt).
      exists y, rep. split_and!; [done| |done]. by apply (active_nonzero l Hok i b).
  - intros w' y t. unfold m. destruct (decide (w' = w)) as [->|Hne].
    + intros _ _ _ _. exists k, (Anhe at' w). split_and!; [done| |done]. unfold h. by rewrite (place_get l Hok k _ k Hk), decide_True.
    + rewrite lookup_insert_ne by done. intros Hy Hyt Hya Hno. destruct (to_active l Hok w' y t Hy Hyt Hya Hno) as (i & b & Hi & Hb & <-).
      exists i, b. split_and!; [done| |done]. unfold h. rewrite (place_get l Hok k _ i Hk), decide_False; [done|]. intros <-.
      rewrite Hget in Hb. by injection Hb as <-.
  - done.
  - intros w' y t rep. unfold m. destruct (decide (w' = w)) as [->|Hne].
    + rewrite lookup_insert_eq. intros [= <-]. rewrite Ht'. intros [= <- <-].
      destruct (to_times l Hok w x at_ repeat Hx Ht) as (_ & H2 & H3). done.
    + rewrite lookup_insert_ne by done. apply (to_times l Hok).
  - intros w' y t. unfold m. destruct (decide (w' = w)) as [->|Hne].
    + rewrite lookup_insert_eq. intros [= <-] _. destruct (to_user l Hok w x _ Hx Ht) as [Hw Hpr]. split; [done|].
      unfold priority_ok, ABSPRI in *. rewrite Ea, Epr. done.
    + rewrite lookup_insert_ne by done. apply (to_user l Hok).
  - done.
  - done.
  - exact Hmoved.
  - exists l'. split_and!; [exact Hrun|done| | | |].
    + rewrite Hmap. unfold timer_map. simpl. unfold m. rewrite (omap_insert_Some _ _ _ _ (Timer true at' repeat)); [done|].
      unfold timer_state. rewrite Ht'. cbn [mbind option_bind]. by rewrite bool_decide_true by (by rewrite Ea).
    + apply (timer_frame_intro l l' h' m' (timercnt l) (activecnt l)); [|by rewrite Heq; destruct l].
      rewrite Eo. unfold m. cbn [mem set_timers set_mem]. by apply (others_insert _ _ x); [|rewrite Ht|rewrite Ht'].
    + apply (same_priorities_trans _ (set_mem m l)).
      * by apply (same_priorities_insert l _ w x (set_at at' x)).
      * apply (same_priorities_of (with_active 0)); [done|]. by rewrite Heq.
    + intros P HP. subst l'. apply (pending_ok_insert l P w x (set_at at' x)); [done|done|done|done|exact Em|done|done].
Qed.
End reschedule.

Lemma timer_again_ok l P w x at_ repeat :
  timers_ok l -> pending_ok l P -> mem l !! w = Some x -> timer_of x = Some (at_, repeat) -> timercnt l < 2 ^ 24 ->
  exists l', ev_timer_again w l = Some l' /\ timers_ok l' /\
    pending_ok l' (if pending x =? 0 then P else cleared P w (ABSPRI x)) /\
    timer_map l' = (if nonzero repeat then
                      <[w := Timer true (if active x =? 0 then fadd repeat (mn_now l) else fadd (mn_now l) repeat) repeat]> (timer_map l)
                    else if active x =? 0 then timer_map l
                    else <[w := Timer false (fsub at_ (mn_now l)) repeat]> (timer_map l)) /\
    mask l' = mask l /\ (priority_ok x -> same_priorities l l') /\
    (top_ok l -> top_ok l') /\ forall n, roomy n l -> roomy n l'.
Proof.
  intros Hok Hp Hx Ht Hmax. unfold ev_timer_again.
  destruct (clear_pending_ok l P w x Hp Hx) as (l1 & -> & Hp1 & Hfr & Hm & Htop & Hroom). cbn [mbind option_bind].
  pose proof (timers_frame l l1 Hfr Hok) as Hok1. rewrite Hm, lookup_insert_eq. cbn [mbind option_bind].
  change (timer_of (with_pending 0 x)) with (timer_of x). rewrite Ht. cbn [mbind option_bind].
  change (active (with_pending 0 x)) with (active x).
  assert (mem l1 !! w = Some (with_pending 0 x)) as Hx1 by (rewrite Hm; apply lookup_insert_eq).
  assert (mn_now l1 = mn_now l) as En by (by apply frame_now, pending_mask).
  pose proof (to_times l Hok w x at_ repeat Hx Ht) as (Hnat & Hfin & Hpos).
  assert (forall l2, timer_frame l1 l2 -> mask l2 = mask l /\ (top_ok l -> top_ok l2) /\ forall n, roomy n l -> roomy n l2) as Hframe.
  { intros l2 Hfr2. split_and!.
    - rewrite (tf_mask _ _ Hfr2). by apply pending_mask.
    - intros H. apply (frame_top l1 l2 Hfr2). auto.
    - intros n H. apply (frame_roomy l1 l2 n Hfr2). auto. }
  destruct (Z.eqb_spec (active x) 0) as [E|E]; cbn [negb]; destruct (nonzero repeat) eqn:Hnz.
  - rewrite (update_ok l1 w _ _ Hx1). cbn [mbind option_bind].
    set (l2 := set_mem (<[w:=set_at repeat (with_pending 0 x)]> (mem l1)) l1).
    destruct (set_at_marks (with_pending 0 x) repeat) as (E1 & E2 & E3).
    pose proof (timer_set_at_of (with_pending 0 x) at_ repeat repeat Ht) as Ht2.
    assert (timers_ok l2) as Hok2.
    { apply (timers_close w l1 l2 (set_at repeat (with_pending 0 x)) repeat repeat); try done.
      - destruct Hok1 as [G1 G2 G3 G4 G5 G6 G7 G8]. split; try done.
        + intros w' y t Hy Hyt Hya Hw. apply (G4 w' y t Hy Hyt Hya). done.
        + intros i a Hi Hget [= E']. destruct (G3 i a Hi Hget) as (y & rep & Hy & Hya & _). rewrite <- E', Hx1 in Hy.
          injection Hy as <-. simpl in Hya. unfold in_heap, HEAP0, DHEAP in Hi. lia.
      - by rewrite E1.
      - by apply finite_number.
      - apply (to_user l Hok w x _ Hx Ht). }
    destruct (timer_start_ok l2 (if pending x =? 0 then P else cleared P w (ABSPRI x)) w
      (set_at repeat (with_pending 0 x)) repeat repeat) as (l3 & Hrun & Hok3 & Hp3 & Hmap & Hfr3 & Hpri3); try done.
    + by apply (pending_ok_insert l1 _ w (with_pending 0 x) (set_at repeat (with_pending 0 x))).
    + apply lookup_insert_eq.
    + by rewrite E1.
    + simpl. assert (timercnt l1 = timercnt l) as ->; [|done]. destruct Hfr as (mm & a & b & c & -> & _). done.
    + exists l3. rewrite Hrun. destruct (Hframe l3) as (F1 & F2 & F3).
      { apply (timer_frame_trans l1 l2); [|done].
        apply (timer_frame_intro l1 l2 (timers l1) (mem l2) (timercnt l1) (activecnt l1)); [|by destruct l1].
        by apply (others_insert _ _ (with_pending 0 x)); [|change (timer_of (with_pending 0 x)) with (timer_of x); rewrite Ht|rewrite Ht2]. }
      split_and!; try done.
      2:{ intros Hpr. apply (same_priorities_trans _ l1); [by apply frame_priorities|].
          apply (same_priorities_trans _ l2); [by apply (same_priorities_insert l1 l2 w (with_pending 0 x) (set_at repeat (with_pending 0 x)))|].
          apply Hpri3. unfold priority_ok, ABSPRI in *. by rewrite E3. }
      rewrite Hmap, <- (timer_map_frame l l1 Hfr), <- En.
      apply map_eq. intros w'. destruct (decide (w' = w)) as [->|Hne]; [by rewrite !lookup_insert_eq|].
      rewrite !lookup_insert_ne by done. unfold timer_map, l2. rewrite !lookup_omap. simpl. by rewrite lookup_insert_ne.
  - exists l1. split_and!; try done; [by apply timer_map_frame|by apply pending_mask|by intros; apply frame_priorities].
  - assert (number (fadd (mn_now l1) repeat)) as Hnum.
    { apply fadd_number; [|done]. apply finite_number. apply (to_now l1 Hok1). }
    destruct (reschedule_heap l1 w (with_pending 0 x) at_ repeat (fadd (mn_now l1) repeat) Hok1 Hx1 Ht E Hnum) as (Hk & Hv & Hob & Hidx).
    destruct (reschedule_ok l1 w (with_pending 0 x) at_ repeat (fadd (mn_now l1) repeat) Hok1 Hx1 Ht E Hnum
      (fun N => adjustheap N (active x))) as (l2 & Hrun & Hok2 & Hmap & Hfr2 & Hpri2 & Hpend).
    + by apply adjustheap_ok.
    + exists l2. destruct (Hframe l2 Hfr2) as (F1 & F2 & F3). split_and!; try done.
      * by apply Hpend.
      * by rewrite Hmap, (timer_map_frame l l1 Hfr), En.
      * intros _. apply (same_priorities_trans _ l1); [by apply frame_priorities|done].
  - destruct (timer_stop_ok l1 _ w _ at_ repeat Hok1 Hp1 Hx1 Ht) as (l2 & Hrun & Hok2 & Hp2 & Hmap & Hmask & Hpri2 & Htop2 & Hroom2).
    exists l2. simpl in Hp2, Hmap. rewrite (proj2 (Z.eqb_neq _ _) E) in Hmap. split_and!; try done; auto.
    + by rewrite Hmap, (timer_map_frame l l1 Hfr), En.
    + rewrite Hmask. by apply pending_mask.
    + intros _. apply (same_priorities_trans _ l1); [by apply frame_priorities|done].
Qed.
