(* ===== verification/EvReify.v ===== *)
(** Expired timers of ev.c: timers_reify makes them pending, in the order in
    which they are to be invoked, and stops or reschedules them. *)
From stdpp Require Import sorting.
From S2P Require Import Prelude EvTime Ev EvPending EvHeap EvTimer.

Open Scope c_scope.

(** * The timers that have expired *)

Definition is_late (now : ev_tstamp) (t : timer) : bool := t_active t && flt (t_at t) now.

Definition late (l : ev_loop) : gmap W timer := filter (fun wt => is_late (mn_now l) wt.2 = true) (timer_map l).

(** A timer after it has been processed. *)
Definition expire (now : ev_tstamp) (t : timer) : timer :=
  if is_late now t then
    if nonzero (t_repeat t) then
      let a := fadd (t_at t) (t_repeat t) in Timer true (if flt a now then now else a) (t_repeat t)
    else Timer false (fsub (t_at t) now) (t_repeat t)
  else t.

Lemma expire_not_late now t : is_late now (expire now t) = false.
Proof.
  unfold expire. destruct (is_late now t) eqn:E; [|done]. destruct (nonzero _); [|done]. unfold is_late. simpl.
  destruct (flt (fadd _ _) now) eqn:E'; [apply flt_irrefl|done].
Qed.

Lemma expire_expire now t : expire now (expire now t) = expire now t.
Proof. unfold expire at 1. by rewrite expire_not_late. Qed.

Lemma late_lookup l w t : late l !! w = Some t <-> timer_map l !! w = Some t /\ is_late (mn_now l) t = true.
Proof. unfold late. by rewrite map_lookup_filter_Some. Qed.

(** Expiring when nothing is late. *)
Lemma expire_none l : late l = ∅ -> expire (mn_now l) <$> timer_map l = timer_map l.
Proof.
  intros E. rewrite <- (map_fmap_id (timer_map l)) at 2. apply map_fmap_ext. intros w t Ht. unfold expire.
  destruct (is_late (mn_now l) t) eqn:Hl; [|done]. assert (late l !! w = Some t) as H by (by apply late_lookup).
  by rewrite E in H.
Qed.

(** The timer at the root is due first. *)
Lemma root_due l w t :
  timers_ok l -> timer_map l !! w = Some t -> t_active t = true ->
  timercnt l <> 0 /\ exists a, array_get (timers l) HEAP0 = Some a /\ fle (he_at a) (t_at t) = true.
Proof.
  intros Hok Hw Ha. unfold timer_map in Hw. rewrite lookup_omap in Hw. destruct (mem l !! w) as [x|] eqn:Hx; [|done].
  simpl in Hw. unfold timer_state in Hw. destruct (timer_of x) as [[at_ rep]|] eqn:Ht; [|done]. injection Hw as <-.
  simpl in *. apply bool_decide_eq_true in Ha. destruct (active_index l w x _ Hok Hx Ht Ha) as [Hin Hget].
  assert (in_heap (timercnt l) HEAP0) as H0 by (unfold in_heap in *; lia). split; [unfold in_heap in *; lia|].
  destruct (heap_get l Hok HEAP0 H0) as [a Hroot]. exists a. split; [done|].
  apply (root_first (timercnt l) (timers l) (active x) (to_array l Hok) (to_order l Hok) Hin _ _ Hroot Hget).
Qed.

Lemma expired_spec l :
  timers_ok l -> exists b, timer_expired l = Some b /\ (b = false -> late l = ∅) /\
    (b = true -> timercnt l <> 0 /\ exists a, array_get (timers l) HEAP0 = Some a /\ flt (he_at a) (mn_now l) = true).
Proof.
  intros Hok. unfold timer_expired.
  assert (number (mn_now l)) as Hnow by (apply finite_number, (to_now l Hok)).
  destruct (Z.eqb_spec (timercnt l) 0) as [E|E]; cbn [negb].
  - exists false. split_and!; [done| |done]. intros _. apply map_empty. intros w.
    destruct (late l !! w) as [t|] eqn:Hl; [|done]. apply late_lookup in Hl as [Hl [Ha _]%andb_prop].
    by destruct (root_due l w t Hok Hl Ha).
  - assert (in_heap (timercnt l) HEAP0) as H0.
    { destruct (to_array l Hok) as [? _ _]. unfold in_heap. lia. }
    destruct (heap_get l Hok HEAP0 H0) as [a Hroot]. rewrite Hroot. cbn [mbind option_bind]. eexists. split; [done|].
    assert (number (he_at a)) as Hn by (by apply (ha_number _ _ (to_array l Hok) HEAP0)).
    split; [|intros Hf; split; [done|by exists a]]. intros Hf. apply map_empty. intros w.
    destruct (late l !! w) as [t|] eqn:Hl; [|done]. apply late_lookup in Hl as [Hl Hlate].
    unfold is_late in Hlate. apply andb_prop in Hlate as [Ha Hlt].
    destruct (root_due l w t Hok Hl Ha) as (_ & a' & Hroot' & Hle). assert (a' = a) as -> by congruence.
    assert (number (t_at t)) as Hnt.
    { unfold timer_map in Hl. rewrite lookup_omap in Hl. destruct (mem l !! w) as [x|] eqn:Hx; [|done]. simpl in Hl.
      unfold timer_state in Hl. destruct (timer_of x) as [[at_ rep]|] eqn:Ht; [|done]. injection Hl as <-.
      apply (to_times l Hok w x at_ rep Hx Ht). }
    rewrite flt_fle, negb_false_iff in Hf by done. rewrite flt_fle, negb_true_iff in Hlt by done.
    by rewrite (fle_trans _ _ _ Hnow Hn Hnt Hf Hle) in Hlt.
Qed.

(** There are not more of them than active timers. *)
Lemma late_count l : timers_ok l -> Z.of_nat (size (late l)) <= timercnt l.
Proof.
  intros Hok. set (index := fun w => from_option active 0 (mem l !! w)).
  assert (forall w, w ∈ (map_to_list (late l)).*1 -> in_heap (timercnt l) (index w) /\
    exists a, array_get (timers l) (index w) = Some a /\ he_w a = w) as Hindex.
  { intros w ([w' t] & -> & Hl%elem_of_map_to_list)%list_elem_of_fmap. simpl.
    apply late_lookup in Hl as [Hl [Ha _]%andb_prop]. unfold timer_map in Hl. rewrite lookup_omap in Hl.
    unfold index. destruct (mem l !! w') as [x|] eqn:Hx; [|done]. simpl in *. unfold timer_state in Hl.
    destruct (timer_of x) as [[at_ rep]|] eqn:Ht; [|done]. injection Hl as <-. simpl in Ha. apply bool_decide_eq_true in Ha.
    destruct (active_index l w' x _ Hok Hx Ht Ha) as [Hin Hget]. split; [done|]. eexists. by split. }
  assert (length (index <$> (map_to_list (late l)).*1) <= length (seqZ HEAP0 (timercnt l)))%nat as Hlen.
  { apply submseteq_length, NoDup_submseteq.
    - apply NoDup_fmap_2_strong; [|apply NoDup_fst_map_to_list]. intros w w' Hw Hw' E.
      destruct (Hindex w Hw) as (_ & a & Ha & <-), (Hindex w' Hw') as (_ & a' & Ha' & <-). congruence.
    - intros i (w & -> & Hw)%list_elem_of_fmap. apply elem_of_seqZ. destruct (Hindex w Hw) as [Hin _].
      unfold in_heap in Hin. lia. }
  rewrite !length_fmap, length_map_to_list, length_seqZ in Hlen. destruct (to_array l Hok) as [? _ _]. lia.
Qed.

(** * The list of fed watchers *)

Definition rfed (l : ev_loop) : list W := take (Z.to_nat (rfeedcnt l)) (rfeeds l).
Definition rfeeds_ok (l : ev_loop) : Prop := 0 <= rfeedcnt l <= Z.of_nat (length (rfeeds l)).

Lemma rfed_length l : rfeeds_ok l -> Z.of_nat (length (rfed l)) = rfeedcnt l.
Proof. intros H. unfold rfed. rewrite length_take. unfold rfeeds_ok in H. lia. Qed.

Lemma feed_reverse_ok w l :
  rfeeds_ok l -> rfeedcnt l < 2 ^ 25 ->
  exists fs, feed_reverse w l = Some (set_rfeedcnt (rfeedcnt l + 1) (set_rfeeds fs l)) /\
    rfeeds_ok (set_rfeedcnt (rfeedcnt l + 1) (set_rfeeds fs l)) /\
    rfed (set_rfeedcnt (rfeedcnt l + 1) (set_rfeeds fs l)) = rfed l ++ [w].
Proof.
  intros Hok Hlt. unfold feed_reverse. unfold rfeeds_ok in *.
  destruct (needsize_ok 8 (rfeeds l) (rfeedcnt l + 1) null) as (junk & -> & Hlen); [lia|lia|]. cbn [mbind option_bind].
  rewrite array_set_Some by lia. cbn [mbind option_bind]. eexists. split; [done|]. cbn [rfeeds rfeedcnt set_rfeeds set_rfeedcnt].
  rewrite length_insert. split; [lia|]. unfold rfed. cbn [rfeeds rfeedcnt set_rfeeds set_rfeedcnt].
  replace (Z.to_nat (rfeedcnt l + 1)) with (S (Z.to_nat (rfeedcnt l))) by lia.
  rewrite (take_S_r _ _ w) by (apply list_lookup_insert_eq; lia). f_equal.
  rewrite take_insert_ge by lia. by rewrite take_app_le by lia.
Qed.

(** Watchers that can be fed. *)
Definition feedable (l : ev_loop) (w : W) : Prop :=
  w <> pending_w /\ exists x, mem l !! w = Some x /\ priority_ok x.

Lemma feedable_same l l' w : same_priorities l l' -> feedable l w -> feedable l' w.
Proof.
  intros E (Hw & x & Hx & Hp). split; [done|]. unfold same_priorities in E. apply (f_equal (lookup w)) in E.
  rewrite !lookup_fmap, Hx in E. simpl in E. destruct (mem l' !! w) as [x'|]; [|done]. exists x'. split; [done|].
  injection E as E. unfold priority_ok, ABSPRI in *. by rewrite E.
Qed.

(** Taking the fed watchers back, the last first. *)
Lemma feed_reverse_loop_ok revents ws l P :
  ws <> [] -> rfeeds_ok l -> rfed l = ws -> pending_ok l P -> roomy (Z.of_nat (length ws)) l ->
  Forall (feedable l) ws ->
  exists l', feed_reverse_loop (length ws) revents l = Some l' /\
    pending_ok l' (foldr (fun w P => fed P w (prio l w) revents) P ws) /\ rfeedcnt l' = 0 /\
    pending_frame (set_rfeedcnt 0 l) l' /\ top_ok l'.
Proof.
  revert l P. induction ws as [|w ws IH] using rev_ind; [done|]. intros l P _ Hrf Hrfed Hok Hroom Hfeed.
  pose proof (rfed_length l Hrf) as Hlen. rewrite Hrfed, length_app in Hlen. simpl in Hlen.
  rewrite length_app, Nat.add_comm. cbn [length plus feed_reverse_loop]. cbn [rfeedcnt rfeeds set_rfeedcnt].
  assert (array_get (rfeeds l) (rfeedcnt l - 1) = Some w) as Hget.
  { unfold array_get. destruct (Z.ltb_spec (rfeedcnt l - 1) 0); [lia|].
    assert (rfed l !! length ws = Some w) as Hl by (by rewrite Hrfed, lookup_app_r, Nat.sub_diag by lia).
    unfold rfed in Hl. apply lookup_take_Some in Hl as [Hl _]. rewrite <- Hl. f_equal. lia. }
  rewrite Hget. cbn [mbind option_bind].
  apply Forall_app in Hfeed as [Hws [Hw _]%Forall_cons]. destruct Hw as (Hwp & x & Hx & Hpx).
  set (l1 := set_rfeedcnt (rfeedcnt l - 1) l).
  assert (pending_ok l1 P) as Hok1 by (destruct Hok as [G1 G2 G3 G4]; by split).
  destruct (feed_event_ok l1 P w x revents Hok1) as (l2 & Hrun & Hok2 & Hfr & Htop & Hroom2); try done.
  { intros pri q Hq. pose proof (Hroom pri q Hq) as H. rewrite length_app in H. simpl in H. lia. }
  rewrite Hrun. cbn [mbind option_bind].
  assert (rfeedcnt l2 = rfeedcnt l - 1 /\ rfeeds l2 = rfeeds l) as [Ec Er].
  { destruct Hfr as (m & pss & cnts & pri & -> & _). done. }
  pose proof (frame_priorities _ _ Hfr) as Hpri.
  rewrite foldr_app. simpl. assert (prio l w = ABSPRI x) as -> by (unfold prio; by rewrite Hx).
  rewrite Ec. destruct (Z.eqb_spec (rfeedcnt l - 1) 0) as [E|E].
  - assert (ws = []) as -> by (destruct ws; [done|simpl in *; lia]). exists l2. split_and!; [done|done|lia| |done].
    unfold l1 in Hfr. by rewrite E in Hfr.
  - assert (rfed l2 = ws) as Hrfed2.
    { unfold rfed in *. rewrite Ec, Er. replace (Z.to_nat (rfeedcnt l - 1)) with (length ws) by lia.
      replace (Z.to_nat (rfeedcnt l)) with (length ws + 1)%nat in Hrfed by lia.
      pose proof (f_equal (take (length ws)) Hrfed) as H. by rewrite take_take, take_app_length, Nat.min_l in H by lia. }
    destruct (IH l2 (fed P w (ABSPRI x) revents)) as (l3 & Hrun3 & Hok3 & Hc3 & Hfr3 & Htop3); try done.
    + intros ->. simpl in Hlen. lia.
    + unfold rfeeds_ok in *. rewrite Ec, Er. lia.
    + apply Hroom2. intros pri q Hq. pose proof (Hroom pri q Hq) as H. rewrite length_app in H. simpl in H. lia.
    + eapply Forall_impl; [exact Hws|]. intros w' Hw'. apply (feedable_same l1 l2 w' Hpri). exact Hw'.
    + exists l3. split_and!; [done| |done| |done].
      * replace (foldr (fun w P => fed P w (prio l w) revents) (fed P w (ABSPRI x) revents) ws)
          with (foldr (fun w P => fed P w (prio l2 w) revents) (fed P w (ABSPRI x) revents) ws); [done|].
        apply foldr_ext; [|done|done]. intros w' P'. by rewrite (prio_same l1 l2 w' Hpri).
      * apply (pending_frame_trans _ (set_rfeedcnt 0 l2)); [|done].
        destruct Hfr as (m & pss & cnts & pri & -> & Em). exists m, pss, cnts, pri. by split; [by destruct l|].
Qed.

(** * Expiring *)

(** What stopping the timers among [fs] that do not repeat does to the queues. *)
Definition stop_queue (l : ev_loop) (P : queues) (wt : W * timer) : queues :=
  if nonzero (t_repeat wt.2) then P else cleared P wt.1 (prio l wt.1).
Definition stop_queues (l : ev_loop) (P : queues) (fs : list (W * timer)) : queues := foldl (stop_queue l) P fs.


(** What changes when timers expire, other than the heap, the timers and the
    queues: the list of fed watchers. *)
Definition rmask (l : ev_loop) : ev_loop := set_rfeeds [] (set_rfeedcnt 0 (mask l)).

Lemma rmask_mask l l' : mask l' = mask l -> rmask l' = rmask l.
Proof. intros E. exact (f_equal (fun l => set_rfeeds [] (set_rfeedcnt 0 l)) E). Qed.

Record expire_frame (l l' : ev_loop) : Prop := ExpireFrame {
  ef_now : mn_now l' = mn_now l;
  ef_priorities : same_priorities l l';
  ef_top : top_ok l -> top_ok l';
  ef_roomy : forall n, roomy n l -> roomy n l';
  ef_mask : rmask l' = rmask l;
}.

Lemma expire_frame_refl l : expire_frame l l.
Proof. by split. Qed.

Lemma expire_frame_trans l1 l2 l3 : expire_frame l1 l2 -> expire_frame l2 l3 -> expire_frame l1 l3.
Proof.
  intros [A1 A2 A3 A4 A5] [B1 B2 B3 B4 B5]. split; [congruence|by apply (same_priorities_trans _ l2)|auto|auto|congruence].
Qed.

(** The root is rescheduled or stopped, before it is fed. *)
Lemma expire_root_ok l P w x at_ repeat :
  timers_ok l -> pending_ok l P -> array_get (timers l) HEAP0 = Some (Anhe at_ w) -> active x = HEAP0 ->
  mem l !! w = Some x -> timer_of x = Some (at_, repeat) -> flt at_ (mn_now l) = true ->
  exists l', (if nonzero repeat then
         let at_ := fadd at_ repeat in
         let at_ := if flt at_ (mn_now l) then mn_now l else at_ in
         l ← update w (set_at at_) l;
         if negb (flt fzero repeat) then None
         else
           l ← timers_put HEAP0 w l;
           on_timers (downheap (timercnt l) HEAP0) l
       else ev_timer_stop w l) = Some l' /\
    timers_ok l' /\ pending_ok l' (stop_queue l P (w, Timer true at_ repeat)) /\
    timer_map l' = <[w := expire (mn_now l) (Timer true at_ repeat)]> (timer_map l) /\
    mask l' = mask l /\ expire_frame l l'.
Proof.
  intros Hok Hp Hroot Ha Hx Ht Hlt. destruct (to_times l Hok w x at_ repeat Hx Ht) as (Hn & Hf & Hpos).
  assert (active x <> 0) as Ha0 by (rewrite Ha; unfold HEAP0, DHEAP; lia).
  destruct (to_user l Hok w x _ Hx Ht) as [Hw Hprio]. specialize (Hprio Ha0).
  unfold stop_queue, expire, is_late. cbn [t_active t_at t_repeat fst snd andb]. rewrite Hlt.
  destruct (nonzero repeat) eqn:Hnz.
  - cbv zeta. set (at' := if flt (fadd at_ repeat) (mn_now l) then mn_now l else fadd at_ repeat).
    assert (number at') as Hn'.
    { unfold at'. destruct (flt (fadd at_ repeat) (mn_now l)); [apply finite_number, (to_now l Hok)|by apply fadd_number]. }
    assert (flt fzero repeat = true) as Hpos'.
    { rewrite flt_fle by (done || by apply finite_number). apply negb_true_iff. destruct repeat as [s|s| |s m e]; try done.
      by destruct s. }
    destruct (reschedule_heap l w x at_ repeat at' Hok Hx Ht Ha0 Hn') as (Hk & Hv & Hob & Hidx).
    destruct (reschedule_ok l w x at_ repeat at' Hok Hx Ht Ha0 Hn' (fun N => downheap N HEAP0))
      as (l' & Hrun & Hok' & Hmap & Hfr & Hpri & Hpend).
    { rewrite Ha in *. by apply downheap_ok. }
    exists l'. split_and!; [|done|by apply Hpend|done|apply (tf_mask _ _ Hfr)|].
    + rewrite Ha in Hrun. revert Hrun. rewrite (update_ok l w x _ Hx). cbn [mbind option_bind]. by rewrite Hpos'.
    + split; [by apply frame_now, (tf_mask _ _ Hfr)|done|by apply frame_top|by intros n; apply frame_roomy|apply rmask_mask, Hfr].
  - assert (prio l w = ABSPRI x) as -> by (unfold prio; by rewrite Hx).
    assert (exists P0, pending_ok l P0 /\ (if pending x =? 0 then P0 else cleared P0 w (ABSPRI x)) = cleared P w (ABSPRI x))
      as (P0 & Hp0 & EP).
    { destruct (Z.eqb_spec (pending x) 0) as [E|E]; [|by exists P].
      exists (cleared P w (ABSPRI x)). split; [|done]. by apply pending_ok_cleared. }
    destruct (timer_stop_ok l P0 w x at_ repeat Hok Hp0 Hx Ht) as (l' & Hrun & Hok' & Hp' & Hmap & Hmask & Hpri & Htop & Hroom).
    exists l'. rewrite (proj2 (Z.eqb_neq _ _) Ha0) in Hmap. rewrite EP in Hp'. split_and!; [done..|].
    split; [by apply frame_now|done|done|done|exact (rmask_mask _ _ Hmask)].
Qed.

Lemma rfeeds_mask l l' : mask l' = mask l -> rfeeds l' = rfeeds l /\ rfeedcnt l' = rfeedcnt l.
Proof. intros E. split; [exact (f_equal rfeeds E)|exact (f_equal rfeedcnt E)]. Qed.

Lemma map_to_list_late l w t l1 :
  timer_map l !! w = Some t -> is_late (mn_now l) t = true -> mn_now l1 = mn_now l ->
  timer_map l1 = <[w := expire (mn_now l) t]> (timer_map l) ->
  late l !! w = Some t /\ late l1 = delete w (late l).
Proof.
  intros Ht Hlate En Em. split; [by apply late_lookup|]. unfold late. rewrite Em, En.
  rewrite map_filter_insert_False by (simpl; by rewrite expire_not_late). by rewrite map_filter_delete.
Qed.

(** One round of the loop. *)
Lemma timer_expire_ok l P :
  timers_ok l -> pending_ok l P -> timer_expired l = Some true -> rfeeds_ok l -> rfeedcnt l < 2 ^ 25 ->
  exists l' w t, timer_expire l = Some l' /\ late l !! w = Some t /\ late l' = delete w (late l) /\
    (forall w' t', late l !! w' = Some t' -> fle (t_at t) (t_at t') = true) /\ feedable l w /\
    timers_ok l' /\ pending_ok l' (stop_queue l P (w, t)) /\
    timer_map l' = <[w := expire (mn_now l) t]> (timer_map l) /\
    rfeeds_ok l' /\ rfed l' = rfed l ++ [w] /\ expire_frame l l'.
Proof.
  intros Hok Hp Hexp Hrf Hlt. destruct (expired_spec l Hok) as (b & Hb & _ & Htrue).
  assert (b = true) as -> by congruence. destruct (Htrue eq_refl) as (Hcnt & [at_ w] & Hroot & Hlate). simpl in Hlate.
  assert (in_heap (timercnt l) HEAP0) as H0.
  { destruct (to_array l Hok) as [? _ _]. unfold in_heap. lia. }
  destruct (to_entry l Hok HEAP0 _ H0 Hroot) as (x & repeat & Hx & Ha & Ht). simpl in Hx, Ht.
  assert (active x <> 0) as Ha0 by (rewrite Ha; unfold HEAP0, DHEAP; lia).
  destruct (to_user l Hok w x _ Hx Ht) as [Hw Hprio].
  destruct (expire_root_ok l P w x at_ repeat Hok Hp Hroot Ha Hx Ht Hlate) as (l1 & Hrun & Hok1 & Hp1 & Hmap & Hmask & Hfr).
  assert (timer_map l !! w = Some (Timer true at_ repeat)) as Htm.
  { rewrite (timer_map_lookup l w x _ Hx Ht). simpl. by rewrite bool_decide_true. }
  destruct (rfeeds_mask l l1 Hmask) as [Er Ec].
  destruct (feed_reverse_ok w l1) as (fs & Hfeed & Hrf' & Hrfed'); [unfold rfeeds_ok in *; by rewrite Er, Ec|lia|].
  unfold timer_expire. rewrite Hroot. cbn [mbind option_bind he_w]. rewrite Hx. cbn [mbind option_bind].
  rewrite Ht. cbn [mbind option_bind]. cbv zeta in Hrun. rewrite Hrun. cbn [mbind option_bind]. rewrite Hfeed.
  set (l2 := set_rfeedcnt (rfeedcnt l1 + 1) (set_rfeeds fs l1)) in *.
  destruct (map_to_list_late l w (Timer true at_ repeat) l2) as [HL1 HL2]; [done|done|apply (ef_now _ _ Hfr)|exact Hmap|].
  exists l2, w, (Timer true at_ repeat). split_and!; [done|done|done| | |by destruct Hok1; split| |exact Hmap|done| |].
  - intros w' t' [Ht' [Ha' _]%andb_prop]%late_lookup. destruct (root_due l w' t' Hok Ht' Ha') as (_ & a & Hroot' & Hle).
    by assert (a = Anhe at_ w) as -> by congruence.
  - split; [done|]. exists x. auto.
  - destruct Hp1. by split.
  - rewrite Hrfed'. unfold rfed. by rewrite Er, Ec.
  - destruct Hfr as [F1 F2 F3 F4 F5]. by split.
Qed.

Lemma stop_queues_same l l1 P fs : same_priorities l l1 -> stop_queues l P fs = stop_queues l1 P fs.
Proof.
  intros E. unfold stop_queues. revert P. induction fs as [|wt fs IH]; intros P; [done|]. simpl. rewrite IH. f_equal.
  unfold stop_queue. by rewrite (prio_same l l1 _ E).
Qed.

(** The loop: all the expired timers, in the order of their times. *)
Definition earlier_timer (a b : W * timer) : Prop := fle (t_at a.2) (t_at b.2) = true.

Lemma timers_loop_ok n l P fuel :
  timers_ok l -> pending_ok l P -> timer_expired l = Some true -> rfeeds_ok l -> size (late l) = n -> (n <= fuel)%nat ->
  rfeedcnt l + Z.of_nat n < 2 ^ 25 ->
  exists l' fs, timers_loop fuel l = Some l' /\ fs ≡ₚ map_to_list (late l) /\ StronglySorted earlier_timer fs /\
    fs <> [] /\ Forall (feedable l) fs.*1 /\
    late l' = ∅ /\ timers_ok l' /\ pending_ok l' (stop_queues l P fs) /\
    timer_map l' = expire (mn_now l) <$> timer_map l /\
    rfeeds_ok l' /\ rfed l' = rfed l ++ fs.*1 /\ expire_frame l l'.
Proof.
  revert l P fuel. induction n as [|n IH]; intros l P fuel Hok Hp Hexp Hrf Hsize Hfuel Hroom;
    destruct (timer_expire_ok l P Hok Hp Hexp Hrf) as
      (l1 & w & t & Hrun & Hl & Hl1 & Hfirst & Hfeed & Hok1 & Hp1 & Hmap & Hrf1 & Hrfed1 & Hfr); try lia.
  { apply map_size_empty_inv in Hsize. by rewrite Hsize in Hl. }
  destruct fuel as [|fuel]; [lia|]. cbn [timers_loop]. rewrite Hrun. cbn [mbind option_bind].
  assert (size (late l1) = n) as Hsize1 by (rewrite Hl1, map_size_delete_Some by eauto; lia).
  assert (map_to_list (late l) ≡ₚ (w, t) :: map_to_list (late l1)) as Hlist.
  { rewrite Hl1. by rewrite <- map_to_list_delete. }
  pose proof (ef_now _ _ Hfr) as En.
  assert (expire (mn_now l) <$> timer_map l = expire (mn_now l1) <$> timer_map l1) as Emap.
  { rewrite En, Hmap, fmap_insert, expire_expire. rewrite <- fmap_insert. f_equal. symmetry. apply insert_id.
    by apply late_lookup. }
  assert (forall fs, stop_queues l (stop_queue l P (w, t)) fs = stop_queues l1 (stop_queue l P (w, t)) fs) as Hqueues.
  { intros fs. apply stop_queues_same, (ef_priorities _ _ Hfr). }
  destruct (expired_spec l1 Hok1) as (b & Hb & Hfalse & _). rewrite Hb. cbn [mbind option_bind]. destruct b.
  - assert (rfeedcnt l1 = rfeedcnt l + 1) as Ec.
    { pose proof (rfed_length l Hrf) as H1. pose proof (rfed_length l1 Hrf1) as H2. rewrite Hrfed1, length_app in H2.
      simpl in H2. lia. }
    destruct (IH l1 (stop_queue l P (w, t)) fuel) as
      (l' & fs & Hrun' & Hfs & Hsort & _ & Hall & Hnone & Hok' & Hp' & Hmap' & Hrf' & Hrfed' & Hfr'); try done; try lia.
    exists l', ((w, t) :: fs). split_and!; try done.
    + by rewrite Hlist, Hfs.
    + constructor; [done|]. apply List.Forall_forall. intros [w' t'] Hin%list_elem_of_In. apply (Hfirst w' t').
      assert ((w', t') ∈ map_to_list (late l)) as H by (rewrite Hlist, <- Hfs; by right).
      by apply elem_of_map_to_list in H.
    + constructor; [done|]. eapply Forall_impl; [exact Hall|]. intros w' (Hw' & x' & Hx' & Hpx'). split; [done|].
      pose proof (ef_priorities _ _ Hfr) as E. unfold same_priorities in E. apply (f_equal (lookup w')) in E.
      rewrite !lookup_fmap, Hx' in E. simpl in E. destruct (mem l !! w') as [x|]; [|done]. exists x. split; [done|].
      injection E as E. unfold priority_ok, ABSPRI in *. by rewrite <- E.
    + unfold stop_queues. simpl. fold (stop_queues l (stop_queue l P (w, t)) fs). by rewrite Hqueues.
    + congruence.
    + rewrite Hrfed', Hrfed1, <- app_assoc. done.
    + by apply (expire_frame_trans _ l1).
  - specialize (Hfalse eq_refl). exists l1, [(w, t)]. split_and!; try done.
    + rewrite Hlist, Hfalse. by rewrite map_to_list_empty.
    + constructor; constructor.
    + constructor; [exact Hfeed|constructor].
    + by rewrite Emap, (expire_none l1 Hfalse).
Qed.

(** * The queues afterwards *)

Definition expired_queues (l : ev_loop) (P : queues) (fs : list (W * timer)) : queues :=
  foldr (fun w P => fed P w (prio l w) EV_TIMER) (stop_queues l P fs) fs.*1.

(** Between the calls of the loop, no watcher is in [rfeeds]. *)
Record ready (l : ev_loop) (P : queues) : Prop := Ready {
  re_timers : timers_ok l;
  re_pending : pending_ok l P;
  re_rfeeds : rfeeds_ok l /\ rfeedcnt l = 0;
}.

Lemma timers_reify_ok l P :
  ready l P -> timercnt l < 2 ^ 24 -> roomy (2 ^ 24) l ->
  exists l' fs, timers_reify l = Some l' /\ fs ≡ₚ map_to_list (late l) /\ StronglySorted earlier_timer fs /\
    late l' = ∅ /\ timer_map l' = expire (mn_now l) <$> timer_map l /\ ready l' (expired_queues l P fs) /\
    mn_now l' = mn_now l /\ Forall (feedable l) fs.*1 /\ same_priorities l l' /\ rmask l' = rmask l.
Proof.
  intros [Hok Hp [Hrf Hc]] Hmax Hroom. unfold timers_reify. destruct (expired_spec l Hok) as (b & Hb & Hfalse & _).
  rewrite Hb. cbn [mbind option_bind]. destruct b.
  2:{ specialize (Hfalse eq_refl). exists l, []. rewrite Hfalse, map_to_list_empty, expire_none by done.
      split_and!; try done; by constructor. }
  pose proof (late_count l Hok) as Hcount.
  destruct (timers_loop_ok (size (late l)) l P (Z.to_nat (timercnt l))) as
    (l1 & fs & -> & Hfs & Hsort & Hne & Hall & Hnone & Hok1 & Hp1 & Hmap & Hrf1 & Hrfed & Hfr); try done; try lia.
  cbn [mbind option_bind]. assert (rfed l = []) as E0 by (unfold rfed; by rewrite Hc). rewrite E0 in Hrfed. simpl in Hrfed.
  pose proof (rfed_length l1 Hrf1) as Hlen. rewrite Hrfed in Hlen.
  assert (length fs.*1 = size (late l)) as Hlfs.
  { rewrite length_fmap, Hfs. apply length_map_to_list. }
  destruct (feed_reverse_loop_ok EV_TIMER fs.*1 l1 (stop_queues l P fs)) as (l2 & Hrun & Hp2 & Hc2 & Hfr2 & Htop2); try done.
  { intros E. apply Hne. by destruct fs. }
  { apply (ef_roomy _ _ Hfr). intros pri q Hq. pose proof (Hroom pri q Hq). lia. }
  { eapply Forall_impl; [exact Hall|]. intros w'. apply feedable_same, (ef_priorities _ _ Hfr). }
  unfold feed_reverse_done. replace (Z.to_nat (rfeedcnt l1)) with (length fs.*1) by lia. rewrite Hrun.
  pose proof (timer_map_frame _ _ Hfr2) as Em2. change (timer_map (set_rfeedcnt 0 l1)) with (timer_map l1) in Em2.
  pose proof (frame_priorities _ _ Hfr2) as Epr2. change (same_priorities l1 l2) in Epr2.
  assert (mn_now l2 = mn_now l) as En.
  { rewrite <- (ef_now _ _ Hfr). exact (frame_now (set_rfeedcnt 0 l1) l2 (pending_mask _ _ Hfr2)). }
  exists l2, fs. split_and!; try done.
  - rewrite <- Hnone. unfold late. by rewrite Em2, En, (ef_now _ _ Hfr).
  - by rewrite Em2.
  - split.
    + apply (timers_frame (set_rfeedcnt 0 l1)); [done|]. by destruct Hok1; split.
    + unfold expired_queues.
      replace (foldr (fun w P => fed P w (prio l w) EV_TIMER) (stop_queues l P fs) fs.*1)
        with (foldr (fun w P => fed P w (prio l1 w) EV_TIMER) (stop_queues l P fs) fs.*1); [done|].
      apply foldr_ext; [|done|done]. intros w' P'. by rewrite (prio_same l l1 w' (ef_priorities _ _ Hfr)).
    + split; [|done]. destruct (rfeeds_mask _ _ (pending_mask _ _ Hfr2)) as [Er Ec]. unfold rfeeds_ok. rewrite Er, Ec. simpl. lia.
  - by apply (same_priorities_trans _ l1); [apply (ef_priorities _ _ Hfr)|].
  - rewrite <- (ef_mask _ _ Hfr). exact (rmask_mask _ _ (pending_mask _ _ Hfr2)).
Qed.
