(* ===== verification/EvLoop.v ===== *)
(** The contract of the timers and pending events of ev.c: scripts of calls of a
    client, the processing of expired timers and the invocation of callbacks. *)
From stdpp Require Import sorting.
From S2P Require Import Prelude EvTime Ev EvPending EvHeap EvTimer EvReify.

Open Scope c_scope.

(** * Scripts of calls *)

Inductive call :=
| CSet (w : W) (after repeat : ev_tstamp) | CStart (w : W) | CStop (w : W) | CAgain (w : W)
| CFeed (w : W) (revents : Z) | CClear (w : W).

Definition run_call (c : call) (l : ev_loop) : option ev_loop :=
  match c with
  | CSet w after repeat => ev_timer_set w after repeat l
  | CStart w => ev_timer_start w l
  | CStop w => ev_timer_stop w l
  | CAgain w => ev_timer_again w l
  | CFeed w revents => ev_feed_event w revents l
  | CClear w => '(_, l) ← ev_clear_pending w l; Some l
  end.

Fixpoint run_calls (cs : list call) (l : ev_loop) : option ev_loop :=
  match cs with [] => Some l | c :: cs => l ← run_call c l; run_calls cs l end.

(** ** The specification *)

Definition state : Type := gmap W timer * queues.

Section spec.
(** The time, and the priorities of the watchers. *)
Context (now : ev_tstamp) (pri : W -> Z).

Definition stop_timer (t : timer) : timer :=
  if t_active t then Timer false (fsub (t_at t) now) (t_repeat t) else t.

Definition again_timer (t : timer) : timer :=
  if nonzero (t_repeat t) then
    Timer true (if t_active t then fadd now (t_repeat t) else fadd (t_repeat t) now) (t_repeat t)
  else stop_timer t.

Definition spec_call (c : call) (s : state) : state :=
  let '(M, P) := s in
  match c with
  | CSet w after repeat => (<[w := Timer false after repeat]> M, P)
  | CStart w => (alter (fun t => if t_active t then t else Timer true (fadd (t_at t) now) (t_repeat t)) w M, P)
  | CStop w => (alter stop_timer w M, cleared P w (pri w))
  | CAgain w => (alter again_timer w M, cleared P w (pri w))
  | CFeed w revents => (M, fed P w (pri w) revents)
  | CClear w => (M, cleared P w (pri w))
  end.

Definition spec_calls (cs : list call) (s : state) : state := foldl (fun s c => spec_call c s) s cs.

(** What the documentation asks of the calls: the times are numbers, a repeat
    value is finite and not negative, ev_timer_set is for inactive timers. *)
Definition call_ok (M : gmap W timer) (c : call) : bool :=
  match c with
  | CSet w after repeat =>
      bool_decide (number after) && bool_decide (finite repeat) && fle fzero repeat &&
      match M !! w with Some t => negb (t_active t) | None => false end
  | CStart w | CStop w | CAgain w | CFeed w _ | CClear w => bool_decide (is_Some (M !! w))
  end.

Fixpoint calls_ok (M : gmap W timer) (P : queues) (cs : list call) : bool :=
  match cs with
  | [] => true
  | c :: cs => call_ok M c && (let s := spec_call c (M, P) in calls_ok s.1 s.2 cs)
  end.
End spec.

(** ** Every call implements it *)

(** There are not more elements than timers. *)
Lemma heap_count l : timers_ok l -> timercnt l <= Z.of_nat (size (timer_map l)).
Proof.
  intros Hok. set (who := fun i => from_option he_w 0 (array_get (timers l) i)).
  assert (forall i, i ∈ seqZ HEAP0 (timercnt l) -> exists a, array_get (timers l) i = Some a /\ in_heap (timercnt l) i) as Hi.
  { intros i Hi%elem_of_seqZ. assert (in_heap (timercnt l) i) as Hin by (unfold in_heap; lia).
    destruct (heap_get l Hok i Hin) as [a Ha]. by exists a. }
  assert (length (who <$> seqZ HEAP0 (timercnt l)) <= length (map_to_list (timer_map l)).*1)%nat as Hlen.
  { apply submseteq_length, NoDup_submseteq.
    - apply NoDup_fmap_2_strong; [|apply NoDup_seqZ]. intros i j Hin Hjn E.
      destruct (Hi i Hin) as (a & Ha & Hri), (Hi j Hjn) as (b & Hb & Hrj). unfold who in E. rewrite Ha, Hb in E.
      by apply (ha_distinct _ _ (to_array l Hok) i j a b).
    - intros w (i & -> & Hin)%list_elem_of_fmap. destruct (Hi i Hin) as (a & Ha & Hri). unfold who. rewrite Ha. simpl.
      destruct (to_entry l Hok i a Hri Ha) as (x & rep & Hx & _ & Ht).
      apply list_elem_of_fmap. eexists (_, _). split; [done|]. apply elem_of_map_to_list.
      apply (timer_map_lookup l (he_w a) x _ Hx Ht). }
  rewrite !length_fmap, length_seqZ, length_map_to_list in Hlen. lia.
Qed.

(** A watcher in the map of timers. *)
Lemma timer_watcher l w t :
  timer_map l !! w = Some t -> exists x, mem l !! w = Some x /\ timer_of x = Some (t_at t, t_repeat t) /\
    t_active t = negb (active x =? 0).
Proof.
  unfold timer_map. rewrite lookup_omap. destruct (mem l !! w) as [x|]; [|done]. simpl. unfold timer_state.
  destruct (timer_of x) as [[at_ rep]|] eqn:Ht; [|done]. intros [= <-]. exists x. split; [done|]. split; [done|]. simpl.
  destruct (Z.eqb_spec (active x) 0); [by apply bool_decide_false; auto|by apply bool_decide_true].
Qed.

Lemma alter_insert (M : gmap W timer) w t g : M !! w = Some t -> alter g w M = <[w := g t]> M.
Proof.
  intros Ht. apply map_eq. intros w'. destruct (decide (w' = w)) as [->|Hne].
  - by rewrite lookup_alter_eq, Ht, lookup_insert_eq.
  - by rewrite lookup_alter_ne, lookup_insert_ne by done.
Qed.

(** The state of the loop between calls. *)
Record loop_state (l : ev_loop) (M : gmap W timer) (P : queues) : Prop := LoopState {
  ls_ready : ready l P;
  ls_map : timer_map l = M;
  ls_priorities : all_priorities l;
}.

Lemma ready_mask l l' P :
  rfeeds_ok l /\ rfeedcnt l = 0 -> mask l' = mask l -> timers_ok l' -> pending_ok l' P -> ready l' P.
Proof.
  intros [H1 H2] Hm Hok Hp. destruct (rfeeds_mask l l' Hm) as [Er Ec]. split; [done|done|]. unfold rfeeds_ok in *.
  by rewrite Er, Ec.
Qed.

(** What a call gives. *)
Definition call_gives (l : ev_loop) (s : state) (res : option ev_loop) : Prop :=
  exists l', res = Some l' /\ loop_state l' s.1 s.2 /\ mask l' = mask l /\ same_priorities l l' /\
    forall n, roomy (n + 1) l -> roomy n l'.

Lemma call_gives_intro l l' s :
  loop_state l' s.1 s.2 -> mask l' = mask l -> same_priorities l l' -> (forall n, roomy n l -> roomy n l') ->
  call_gives l s (Some l').
Proof.
  intros H1 H2 H3 H4. exists l'. split_and!; [done..|].
  intros n Hr. apply H4. intros pri q Hq. pose proof (Hr pri q Hq). lia.
Qed.

Lemma set_call_ok l M P w after repeat :
  loop_state l M P -> call_ok M (CSet w after repeat) = true ->
  call_gives l (spec_call (mn_now l) (prio l) (CSet w after repeat) (M, P)) (ev_timer_set w after repeat l).
Proof.
  intros [[Hok Hp Hrf] <- Hpri]. cbn [call_ok]. intros Hc.
  destruct (timer_map l !! w) as [t|] eqn:Hw; [|by rewrite andb_false_r in Hc].
  destruct (timer_watcher l w t Hw) as (x & Hx & Ht & Ha).
  apply andb_prop in Hc as [[[Hn%bool_decide_eq_true Hf%bool_decide_eq_true]%andb_prop Hle]%andb_prop Hact].
  rewrite Ha, negb_involutive in Hact. apply Z.eqb_eq in Hact.
  unfold ev_timer_set. rewrite (update_ok l w x _ Hx).
  assert (timer_frame l (set_mem (<[w := with_body (ev_timer after repeat) x]> (mem l)) l)) as Hfr.
  { apply (timer_frame_intro l _ (timers l) (<[w := with_body (ev_timer after repeat) x]> (mem l)) (timercnt l) (activecnt l)); [|by destruct l].
    by apply (others_insert _ _ x); [|rewrite Ht|]. }
  apply call_gives_intro; [|apply Hfr| |done].
  - split; [split; [| |done]| |].
    + apply (timers_close w l _ (with_body (ev_timer after repeat) x) after repeat); try done.
      * destruct Hok as [G1 G2 G3 G4 G5 G6 G7 G8]. split; try done.
        -- intros w' y t' Hy Hyt Hya _. by apply (G4 w' y t').
        -- intros i a Hi Hget [= E]. destruct (G3 i a Hi Hget) as (y & rep & Hy & Hya & _).
           rewrite <- E, Hx in Hy. injection Hy as <-. unfold in_heap, HEAP0, DHEAP in Hi. lia.
      * apply (to_user l Hok w x _ Hx Ht).
    + by apply (pending_ok_insert l P w x (with_body (ev_timer after repeat) x)).
    + unfold timer_map. simpl. apply omap_insert_Some. unfold timer_state. simpl. by rewrite Hact.
    + apply (all_priorities_same l); [|done]. by apply (same_priorities_insert l _ w x (with_body (ev_timer after repeat) x)).
  - by apply (same_priorities_insert l _ w x (with_body (ev_timer after repeat) x)).
Qed.

Lemma start_call_ok l M P w :
  loop_state l M P -> Z.of_nat (size M) < 2 ^ 24 -> is_Some (M !! w) ->
  call_gives l (spec_call (mn_now l) (prio l) (CStart w) (M, P)) (ev_timer_start w l).
Proof.
  intros [[Hok Hp Hrf] <- Hpri] Hsize [t Hw]. destruct (timer_watcher l w t Hw) as (x & Hx & Ht & Ha).
  cbn [spec_call]. rewrite (alter_insert _ w t _ Hw), Ha. destruct (Z.eqb_spec (active x) 0) as [E|E]; cbn [negb].
  - pose proof (heap_count l Hok) as Hcnt.
    destruct (timer_start_ok l P w x _ _ Hok Hp Hx Ht E) as (l' & -> & Hok' & Hp' & Hmap & Hfr & Hpr); [lia|].
    specialize (Hpr (Hpri w x Hx)).
    apply call_gives_intro; [|apply (tf_mask _ _ Hfr)|done|intros n; by apply frame_roomy].
    split; [|done|by apply (all_priorities_same l)]. by apply (ready_mask l); [|apply (tf_mask _ _ Hfr)| |].
  - unfold ev_timer_start. rewrite Hx. cbn [mbind option_bind]. rewrite (proj2 (Z.eqb_neq _ _) E). cbn [negb].
    apply call_gives_intro; [|done|done|done]. split; [done| |done]. symmetry. by apply insert_id.
Qed.

Lemma stop_call_ok l M P w :
  loop_state l M P -> is_Some (M !! w) ->
  call_gives l (spec_call (mn_now l) (prio l) (CStop w) (M, P)) (ev_timer_stop w l).
Proof.
  intros [[Hok Hp Hrf] <- Hpri] [t Hw]. destruct (timer_watcher l w t Hw) as (x & Hx & Ht & Ha).
  cbn [spec_call]. rewrite (alter_insert _ w t _ Hw).
  destruct (timer_stop_ok l P w x _ _ Hok Hp Hx Ht) as (l' & Hrun & Hok' & _ & Hmap & Hmask & Hpr & _ & Hroom).
  rewrite Hrun. apply call_gives_intro; [|done|done|done].
  split; [|cbn [fst snd]|by apply (all_priorities_same l)].
  - apply (ready_mask l); [done|done|done|].
    apply (cleared_either l l' P w x Hp Hx); [apply (to_user l Hok w x _ Hx Ht)|by apply (Hpri w)|].
    intros P0 HP0. destruct (timer_stop_ok l P0 w x _ _ Hok HP0 Hx Ht) as (l2 & Hrun2 & _ & Hp2 & _).
    assert (l2 = l') as -> by congruence. done.
  - rewrite Hmap. unfold stop_timer. rewrite Ha. destruct (active x =? 0); cbn [negb]; [symmetry; by apply insert_id|done].
Qed.

Lemma again_call_ok l M P w :
  loop_state l M P -> Z.of_nat (size M) < 2 ^ 24 -> is_Some (M !! w) ->
  call_gives l (spec_call (mn_now l) (prio l) (CAgain w) (M, P)) (ev_timer_again w l).
Proof.
  intros [[Hok Hp Hrf] <- Hpri] Hsize [t Hw]. destruct (timer_watcher l w t Hw) as (x & Hx & Ht & Ha).
  pose proof (heap_count l Hok) as Hcnt. assert (timercnt l < 2 ^ 24) as Hmax by lia.
  cbn [spec_call]. rewrite (alter_insert _ w t _ Hw).
  destruct (timer_again_ok l P w x _ _ Hok Hp Hx Ht Hmax) as (l' & Hrun & Hok' & _ & Hmap & Hmask & Hpr & _ & Hroom).
  specialize (Hpr (Hpri w x Hx)). rewrite Hrun. apply call_gives_intro; [|done|done|done].
  split; [|cbn [fst snd]|by apply (all_priorities_same l)].
  - apply (ready_mask l); [done|done|done|].
    apply (cleared_either l l' P w x Hp Hx); [apply (to_user l Hok w x _ Hx Ht)|by apply (Hpri w)|].
    intros P0 HP0. destruct (timer_again_ok l P0 w x _ _ Hok HP0 Hx Ht Hmax) as (l2 & Hrun2 & _ & Hp2 & _).
    assert (l2 = l') as -> by congruence. done.
  - rewrite Hmap. unfold again_timer, stop_timer. rewrite Ha.
    destruct (nonzero (t_repeat t)), (active x =? 0); cbn [negb]; try done; symmetry; by apply insert_id.
Qed.

Lemma frame_loop_state l l' M P P' :
  loop_state l M P -> pending_frame l l' -> pending_ok l' P' -> loop_state l' M P'.
Proof.
  intros [[Hok Hp Hrf] Hm Hpri] Hfr Hp'. split.
  - apply (ready_mask l); [done|by apply pending_mask|by apply (timers_frame l)|done].
  - rewrite <- Hm. by apply timer_map_frame.
  - apply (all_priorities_same l); [by apply frame_priorities|done].
Qed.

Lemma feed_call_ok l M P w revents :
  loop_state l M P -> roomy 1 l -> is_Some (M !! w) ->
  call_gives l (spec_call (mn_now l) (prio l) (CFeed w revents) (M, P)) (ev_feed_event w revents l).
Proof.
  intros Hls Hroom [t Hw]. pose proof Hls as [[Hok Hp Hrf] Hm Hpri]. rewrite <- Hm in Hw.
  destruct (timer_watcher l w t Hw) as (x & Hx & Ht & Ha).
  destruct (feed_event_ok l P w x revents Hp Hroom Hx) as (l' & -> & Hp' & Hfr & _ & Hr);
    [apply (to_user l Hok w x _ Hx Ht)|by apply (Hpri w)|].
  exists l'. split_and!; [done| |by apply pending_mask|by apply frame_priorities|done].
  apply (frame_loop_state l _ M P); [done|done|]. cbn [spec_call snd]. assert (prio l w = ABSPRI x) as -> by (unfold prio; by rewrite Hx).
  done.
Qed.

Lemma clear_call_ok l M P w :
  loop_state l M P -> is_Some (M !! w) ->
  call_gives l (spec_call (mn_now l) (prio l) (CClear w) (M, P)) ('(_, l) ← ev_clear_pending w l; Some l).
Proof.
  intros Hls [t Hw]. pose proof Hls as [[Hok Hp Hrf] Hm Hpri]. rewrite <- Hm in Hw.
  destruct (timer_watcher l w t Hw) as (x & Hx & Ht & Ha). destruct (to_user l Hok w x _ Hx Ht) as [Hwp _].
  assert (prio l w = ABSPRI x) as Eprio by (unfold prio; by rewrite Hx).
  unfold ev_clear_pending. rewrite Hx. cbn [mbind option_bind]. cbn [spec_call].
  destruct (Z.eqb_spec (pending x) 0) as [E|E]; cbn [negb mbind option_bind].
  - apply call_gives_intro; [|done|done|done]. apply (frame_loop_state l _ M P); [done|apply pending_frame_refl|].
    cbn [snd]. rewrite Eprio. apply pending_ok_cleared; try done. by apply (Hpri w).
  - destruct (drop_pending_ok l P w x Hp Hx E) as (e & l' & -> & _ & Hp' & Hfr & _ & _ & Hr). cbn [mbind option_bind].
    apply call_gives_intro; [|by apply pending_mask|by apply frame_priorities|done].
    apply (frame_loop_state l _ M P); [done|done|]. cbn [snd]. by rewrite Eprio.
Qed.

Lemma run_call_ok c l M P :
  loop_state l M P -> Z.of_nat (size M) < 2 ^ 24 -> roomy 1 l -> call_ok M c = true ->
  call_gives l (spec_call (mn_now l) (prio l) c (M, P)) (run_call c l).
Proof.
  intros Hls Hsize Hroom Hc. destruct c; cbn [run_call call_ok] in *; try apply bool_decide_eq_true in Hc.
  - by apply set_call_ok.
  - by apply start_call_ok.
  - by apply stop_call_ok.
  - by apply again_call_ok.
  - by apply feed_call_ok.
  - by apply clear_call_ok.
Qed.

(** The calls do not make new timers. *)
Lemma spec_call_size now pri c M P : call_ok M c = true -> size (spec_call now pri c (M, P)).1 = size M.
Proof.
  intros Hc. destruct c as [w after repeat|w|w|w|w e|w]; cbn [spec_call fst]; try done; rewrite <- ?size_dom, ?dom_alter_L; try done.
  rewrite !size_dom. cbn [call_ok] in Hc. destruct (M !! w) as [t|] eqn:Hw; [|by rewrite andb_false_r in Hc].
  apply map_size_insert_Some. eauto.
Qed.

Lemma spec_call_same now pri pri' c s : (forall w, pri' w = pri w) -> spec_call now pri' c s = spec_call now pri c s.
Proof. intros E. destruct s as [M P], c; cbn [spec_call]; by rewrite ?E. Qed.

Lemma spec_calls_same now pri pri' cs s : (forall w, pri' w = pri w) -> spec_calls now pri' cs s = spec_calls now pri cs s.
Proof.
  intros E. unfold spec_calls. revert s. induction cs as [|c cs IH]; intros s; [done|]. simpl.
  by rewrite IH, (spec_call_same now pri pri' c s E).
Qed.

Lemma calls_ok_same now pri pri' cs M P : (forall w, pri' w = pri w) -> calls_ok now pri' M P cs = calls_ok now pri M P cs.
Proof.
  intros E. revert M P. induction cs as [|c cs IH]; intros M P; [done|]. cbn [calls_ok].
  rewrite (spec_call_same now pri pri' c (M, P) E). cbv zeta. by rewrite IH.
Qed.

Lemma run_calls_ok cs l M P :
  loop_state l M P -> Z.of_nat (size M) < 2 ^ 24 -> roomy (Z.of_nat (length cs)) l ->
  calls_ok (mn_now l) (prio l) M P cs = true ->
  exists l', run_calls cs l = Some l' /\
    (let s := spec_calls (mn_now l) (prio l) cs (M, P) in loop_state l' s.1 s.2) /\
    same_priorities l l' /\ forall n, roomy (n + Z.of_nat (length cs)) l -> roomy n l'.
Proof.
  revert l M P. induction cs as [|c cs IH]; intros l M P Hls Hsize Hroom Hc.
  { exists l. split_and!; [done|done|done|]. intros n Hr. by rewrite Z.add_0_r in Hr. }
  cbn [calls_ok] in Hc. apply andb_prop in Hc as [Hc Hcs]. cbn [run_calls].
  assert (roomy 1 l) as H1 by (intros pri q Hq; pose proof (Hroom pri q Hq) as H; simpl in H; lia).
  destruct (run_call_ok c l M P Hls Hsize H1 Hc) as (l1 & -> & Hls1 & Emask & Epri & Hr). cbn [mbind option_bind].
  pose proof (frame_now _ _ Emask) as En.
  pose proof (spec_call_size (mn_now l) (prio l) c M P Hc) as Hs1.
  assert (forall w, prio l1 w = prio l w) as Eprio by (intros w; by apply prio_same).
  unfold spec_calls in *. cbn [foldl]. destruct (spec_call (mn_now l) (prio l) c (M, P)) as [M1 P1]. cbn [fst snd] in *.
  destruct (IH l1 M1 P1 Hls1) as (l2 & Hrun & H2 & Hsame & Hr2); [lia| | |].
  - apply Hr. intros pri q Hq. pose proof (Hroom pri q Hq) as H. simpl in H. lia.
  - rewrite En. by rewrite (calls_ok_same (mn_now l) (prio l)).
  - exists l2. split; [done|]. split; [|split; [by apply (same_priorities_trans _ l1)|]].
    2:{ intros n Hn. apply Hr2, Hr. replace (n + Z.of_nat (length cs) + 1) with (n + Z.of_nat (length (c :: cs))); [done|].
        simpl. lia. }
    rewrite En in H2. cbv zeta in H2.
    pose proof (spec_calls_same (mn_now l) (prio l) (prio l1) cs (M1, P1) Eprio) as E. unfold spec_calls in E. by rewrite E in H2.
Qed.

(** * The assertions of the heap *)

Lemma verify_element_ok l P i :
  timers_ok l -> pending_ok l P -> in_heap (timercnt l) i -> verify_element l (timers l) i = Some true.
Proof.
  intros Hok Hp Hi. unfold verify_element. destruct (heap_get l Hok i Hi) as [a Ha]. rewrite Ha. cbn [mbind option_bind].
  assert (in_heap (timercnt l) (HPARENT i)) as Hpi.
  { destruct (decide (i = HEAP0)) as [->|Hne]; [by rewrite parent_root|].
    pose proof (parent_range i ltac:(unfold in_heap in Hi; lia)). unfold in_heap in *. lia. }
  destruct (heap_get l Hok _ Hpi) as [hp Hhp]. rewrite Hhp. cbn [mbind option_bind].
  destruct (to_entry l Hok i a Hi Ha) as (x & rep & Hx & Hact & Ht). rewrite Hx. cbn [mbind option_bind].
  rewrite Ht. cbn [mbind option_bind]. do 2 f_equal. rewrite Hact, Z.eqb_refl. cbn [andb].
  assert ((i =? HEAP0) || fle (he_at hp) (he_at a) = true) as ->.
  { destruct (Z.eqb_spec i HEAP0) as [|Hne]; [done|]. by apply (to_order l Hok i Hi Hne). }
  rewrite feq_refl by (by apply (ha_number _ _ (to_array l Hok) i)). cbn [andb]. unfold verify_watcher.
  assert (active x <> 0) as Ha0 by (rewrite Hact; unfold in_heap, HEAP0, DHEAP in Hi; lia).
  destruct (to_user l Hok _ x _ Hx Ht) as [_ Hpri]. specialize (Hpri Ha0). unfold priority_ok in Hpri.
  rewrite (proj2 (Z.leb_le _ _)), (proj2 (Z.ltb_lt _ _)) by lia. cbn [andb].
  destruct (Z.eqb_spec (pending x) 0) as [|Hpx]; [done|]. cbn [orb]. apply bool_decide_eq_true.
  destruct (pending_split l P _ x Hp Hx Hpx) as (q1 & e & q2 & Hq & Hpe & _).
  destruct (stack_set l _ q1 _ q2 (Pending null 0) Hq) as (ps & _ & _ & Hps & Hget & _). rewrite Hps. cbn [mbind option_bind].
  rewrite Hpe. replace (Z.of_nat (length q1) + 1 - 1) with (Z.of_nat (length q1)) by lia. by rewrite Hget.
Qed.

Lemma verify_heap_ok l P : timers_ok l -> pending_ok l P -> verify_heap l (timers l) (timercnt l) = Some true.
Proof.
  intros Hok Hp. unfold verify_heap.
  assert (forall is_, (forall i, i ∈ is_ -> in_heap (timercnt l) i) ->
    foldr (fun i r => ok ← verify_element l (timers l) i; oks ← r; Some (ok && oks)) (Some true) is_ = Some true) as H.
  { intros is_. induction is_ as [|i is_ IH]; intros Hin; [done|]. cbn [foldr]. rewrite IH by (intros; apply Hin; by right).
    by rewrite (verify_element_ok l P) by (done || apply Hin; by left). }
  apply H. intros i Hi%elem_of_seqZ. unfold in_heap. lia.
Qed.

(** * Expired timers and their callbacks *)

Definition by_priority (l : ev_loop) (fs : list (W * timer)) : list (W * Z) :=
  [4; 3; 2; 1; 0] ≫= fun pri => (fun wt => (wt.1, EV_TIMER)) <$> List.filter (fun wt => prio l wt.1 =? pri) fs.

Lemma by_priority_perm l fs :
  Forall (feedable l) fs.*1 -> by_priority l fs ≡ₚ (fun wt => (wt.1, EV_TIMER)) <$> fs.
Proof.
  induction fs as [|wt fs IH]; [done|]. intros [(Hw & x & Hx & Hp) Hfs]%Forall_cons. rewrite fmap_cons, <- (IH Hfs).
  unfold priority_ok, NUMPRI, EV_MAXPRI, EV_MINPRI in Hp. assert (prio l wt.1 = ABSPRI x) as E by (unfold prio; by rewrite Hx).
  unfold by_priority. simpl. rewrite E.
  assert (ABSPRI x = 4 \/ ABSPRI x = 3 \/ ABSPRI x = 2 \/ ABSPRI x = 1 \/ ABSPRI x = 0) as H by lia.
  destruct H as [H|[H|[H|[H|H]]]]; rewrite H; simpl; solve_Permutation.
Qed.

(** The queues when nothing was pending before. *)
Lemma stop_queues_empty l P fs : (forall pri, P pri = []) -> forall pri, stop_queues l P fs pri = [].
Proof.
  unfold stop_queues. revert P. induction fs as [|wt fs IH]; intros P HP; [done|]. simpl. apply IH. intros pri.
  unfold stop_queue. destruct (nonzero _); [done|]. unfold cleared, upd. rewrite HP. by case_decide.
Qed.

Lemma fed_queues l P ws pri :
  (forall pri, P pri = []) -> NoDup ws ->
  foldr (fun w P => fed P w (prio l w) EV_TIMER) P ws pri =
    reverse ((fun w => (w, EV_TIMER)) <$> List.filter (fun w => prio l w =? pri) ws).
Proof.
  intros HP Hnd. revert pri. induction Hnd as [|w ws Hw Hnd IH]; intros pri; [by rewrite HP|]. simpl. unfold fed at 1, upd.
  destruct (Z.eqb_spec (prio l w) pri) as [E|E].
  - subst pri. rewrite decide_True by done. rewrite IH. rewrite fmap_cons, reverse_cons. unfold feed. rewrite decide_False; [done|].
    rewrite fmap_reverse, elem_of_reverse, <- list_fmap_compose. intros (w' & E & Hin)%list_elem_of_fmap. simpl in E. subst w'.
    apply list_elem_of_In, List.filter_In in Hin as [Hin _]. apply Hw. by apply list_elem_of_In.
  - rewrite decide_False by congruence. apply IH.
Qed.

Lemma filter_fst l pri (fs : list (W * timer)) :
  List.filter (fun w => prio l w =? pri) fs.*1 = (List.filter (fun wt => prio l wt.1 =? pri) fs).*1.
Proof. induction fs as [|wt fs IH]; [done|]. rewrite fmap_cons. cbn [List.filter]. rewrite IH. by destruct (prio l wt.1 =? pri). Qed.

(** Callbacks that leave the queues alone: everything is invoked. *)
Definition waiting (P : queues) : list (W * Z) := [4; 3; 2; 1; 0] ≫= fun pri => reverse (P pri).

Lemma spec_invoke_all n P :
  (length (waiting P) < n)%nat ->
  exists P', spec_invoke (fun _ _ P => P) n P = Some (P', waiting P) /\ forall pri, 0 <= pri < NUMPRI -> P' pri = [].
Proof.
  revert P. induction n as [|n IH]; intros P Hn; [lia|]. cbn [spec_invoke].
  assert (match next_event P with
          | None => waiting P = [] /\ forall pri, 0 <= pri < NUMPRI -> P pri = []
          | Some (pri, st, p) => waiting P = p :: waiting (upd P pri st)
          end) as Hnext.
  { unfold next_event. cbn [next_at].
    assert (forall st : queue, match split_last st with Some (st', p) => st = st' ++ [p] | None => st = [] end) as Hsplit.
    { intros st. destruct st as [|p st _] using rev_ind; [done|]. by rewrite split_last_snoc. }
    unfold waiting, upd. simpl. pose proof (Hsplit (P 4)) as H4. destruct (split_last (P 4)) as [[st p]|].
    { rewrite H4, reverse_app. by simpl. }
    pose proof (Hsplit (P 3)) as H3. destruct (split_last (P 3)) as [[st p]|]; [by rewrite H4, H3, reverse_app|].
    pose proof (Hsplit (P 2)) as H2. destruct (split_last (P 2)) as [[st p]|]; [by rewrite H4, H3, H2, reverse_app|].
    pose proof (Hsplit (P 1)) as H1. destruct (split_last (P 1)) as [[st p]|]; [by rewrite H4, H3, H2, H1, reverse_app|].
    pose proof (Hsplit (P 0)) as H0. destruct (split_last (P 0)) as [[st p]|]; [by rewrite H4, H3, H2, H1, H0, reverse_app|].
    rewrite H4, H3, H2, H1, H0. split; [done|]. intros pri Hpri. unfold NUMPRI, EV_MAXPRI, EV_MINPRI in Hpri.
    assert (pri = 4 \/ pri = 3 \/ pri = 2 \/ pri = 1 \/ pri = 0) as H by lia.
    by destruct H as [->|[->|[->|[->| ->]]]]. }
  destruct (next_event P) as [[[pri st] [w e]]|].
  - rewrite Hnext in *. destruct (IH (upd P pri st)) as (P' & Hs & HP'); [simpl in Hn; lia|]. exists P'. by rewrite Hs.
  - destruct Hnext as [-> HP]. by exists P.
Qed.

(** * A new loop, and the passing of time *)

(** A timer of the client before it is used. *)
Definition fresh (x : ev_watcher) : Prop :=
  active x = 0 /\ pending x = 0 /\ priority_ok x /\
  match timer_of x with Some (at_, repeat) => number at_ /\ finite repeat /\ fle fzero repeat = true | None => True end.

Lemma loop_init_ok rt now ws :
  finite now -> ws !! pending_w = None -> map_Forall (fun _ => fresh) ws ->
  loop_state (loop_init rt now ws) (omap timer_state ws) (fun _ => []).
Proof.
  intros Hnow Hnone Hws.
  assert (forall w x, mem (loop_init rt now ws) !! w = Some x -> fresh x /\ (timer_of x <> None -> w <> pending_w)) as Hall.
  { intros w x. simpl. destruct (decide (w = pending_w)) as [->|Hne].
    - rewrite lookup_insert_eq. intros [= <-]. done.
    - rewrite lookup_insert_ne by done. intros Hx. split; [by apply (Hws w)|done]. }
  split; [split; [split| |done]| |].
  - split; simpl; [unfold HEAP0, DHEAP; simpl; lia|intros i a Hi; unfold in_heap in Hi; lia|intros i j a b Hi; unfold in_heap in Hi; lia].
  - intros i Hi. unfold in_heap in Hi. simpl in Hi. lia.
  - intros i a Hi. unfold in_heap in Hi. simpl in Hi. lia.
  - intros w x t Hx Ht Ha. destruct (Hall w x Hx) as [[H _] _]. congruence.
  - done.
  - intros w x at_ rep Hx Ht. destruct (Hall w x Hx) as [(_ & _ & _ & H) _]. by rewrite Ht in H.
  - intros w x t Hx Ht. destruct (Hall w x Hx) as [(H & _) Hw]. split; [apply Hw; congruence|congruence].
  - done.
  - apply init_pending_ok. intros w x Hx. apply (Hws w x Hx).
  - unfold timer_map. simpl. rewrite omap_insert. simpl. apply map_eq. intros w.
    destruct (decide (w = pending_w)) as [->|Hne]; [by rewrite lookup_delete_eq, lookup_omap, Hnone|by rewrite lookup_delete_ne].
  - intros w x Hx. apply (Hall w x Hx).
Qed.

(** time_update sets the time of the loop. *)
Lemma set_now_ok l M P now : finite now -> loop_state l M P -> loop_state (set_mn_now now l) M P.
Proof. intros Hnow [[[] [] []] Hm Hpri]. by split; [split; [split|split|]| |]. Qed.

(** * Properties *)

(** Every sequence of calls that start, stop, restart and set timers and
    feed and clear events succeeds, and afterwards the assertions of verify_heap and
    verify_watcher hold: each element of the heap is not earlier than its
    parent, its cached time is that of its watcher, the watcher records its
    index, and a pending watcher is in the queue of its priority. *)
Theorem heap_invariant cs l M P :
  loop_state l M P -> Z.of_nat (size M) < 2 ^ 24 -> roomy (Z.of_nat (length cs)) l ->
  calls_ok (mn_now l) (prio l) M P cs = true ->
  exists l', run_calls cs l = Some l' /\ verify_heap l' (timers l') (timercnt l') = Some true.
Proof.
  intros H1 H2 H3 H4. destruct (run_calls_ok cs l M P H1 H2 H3 H4) as (l' & Hrun & Hls & _). exists l'. split; [done|].
  destruct Hls as [[Hok Hp _] _ _]. by eapply verify_heap_ok.
Qed.

(** C33: timers_reify ends. It takes exactly the timers whose time has come, in
    the order of their times, reschedules those that repeat to a time that is
    not in the past, stops the others, and leaves no expired timer in the heap. *)
Theorem timers_reify_correct l M P :
  loop_state l M P -> timercnt l < 2 ^ 24 -> roomy (2 ^ 24) l ->
  exists l' fs, timers_reify l = Some l' /\ fs ≡ₚ map_to_list (late l) /\ StronglySorted earlier_timer fs /\
    loop_state l' (expire (mn_now l) <$> M) (expired_queues l P fs) /\ late l' = ∅.
Proof.
  intros [Hready <- Hpri] Hmax Hroom.
  destruct (timers_reify_ok l P Hready Hmax Hroom) as (l' & fs & Hrun & Hfs & Hsort & Hnone & Hmap & Hready' & _ & _ & Hsame & _).
  exists l', fs. split_and!; [done..| |done]. split; [done|done|by apply (all_priorities_same l)].
Qed.

(** The callback of every timer whose time has come is called exactly once
    in an iteration of the loop, those of a higher priority first, and for each
    priority in the order of their times, when nothing was pending before and
    the callbacks leave the queues alone. *)
Theorem expired_timers_run callback l M P :
  loop_state l M P -> timercnt l < 2 ^ 24 -> roomy (2 ^ 24) l -> (forall pri, P pri = []) ->
  (forall w revents l P, loop_ok timers_ok l P -> exists l', callback w revents l = Some l' /\ loop_ok timers_ok l' P) ->
  exists l1 fs fuel l2, timers_reify l = Some l1 /\
    ev_invoke_pending callback fuel l1 = Some (l2, by_priority l fs) /\
    fs ≡ₚ map_to_list (late l) /\ StronglySorted earlier_timer fs /\
    by_priority l fs ≡ₚ (fun wt => (wt.1, EV_TIMER)) <$> map_to_list (late l) /\
    forall pri, 0 <= pri < NUMPRI -> omap live (default [] (stack l2 pri)) = [].
Proof.
  intros [Hready <- Hpri] Hmax Hroom HP Hcb.
  destruct (timers_reify_ok l P Hready Hmax Hroom) as (l1 & fs & Hrun & Hfs & Hsort & _ & _ & [Hok1 Hp1 _] & _ & Hfeed & _).
  assert (NoDup fs.*1) as Hnd by (rewrite Hfs; apply NoDup_fst_map_to_list).
  assert (waiting (expired_queues l P fs) = by_priority l fs) as Hw.
  { unfold waiting, by_priority. simpl. unfold expired_queues.
    rewrite !(fed_queues l _ fs.*1) by (done || by apply stop_queues_empty).
    by rewrite !reverse_involutive, !filter_fst, <- !list_fmap_compose. }
  destruct (spec_invoke_all (S (length (waiting (expired_queues l P fs)))) (expired_queues l P fs)) as (P' & Hs & HP'); [lia|].
  destruct (invoke_pending_ok callback (fun _ _ P => P) timers_ok timers_frame Hcb _ l1 _ P' _ Hp1 Hok1 Hs)
    as (fuel & l2 & Hinv & Hp2 & _).
  rewrite Hw in Hinv. exists l1, fs, fuel, l2. split_and!; [done..| |].
  - rewrite (by_priority_perm l fs Hfeed). by rewrite Hfs.
  - intros pri Hr. destruct (po_stack l2 P' Hp2 pri Hr) as (q & -> & HPq). simpl. rewrite <- HPq. by apply HP'.
Qed.

(** C34: ev_invoke_pending calls the callbacks in the order of the priorities,
    within a priority the one fed last first, also when callbacks feed and clear
    events: if that abstract process ends, so does the function, with the same
    calls. *)
Theorem invoke_refines callback after J n l P P' log :
  (forall l l', pending_frame l l' -> J l -> J l') ->
  pending_ok l P -> J l -> spec_invoke after n P = Some (P', log) ->
  (forall w revents l P, loop_ok J l P ->
     exists l', callback w revents l = Some l' /\ loop_ok J l' (after w revents P)) ->
  exists fuel l', ev_invoke_pending callback fuel l = Some (l', log) /\ loop_ok J l' P'.
Proof. intros HJ Hp Hok Hs Hcb. exact (invoke_pending_ok callback after J HJ Hcb n l P P' log Hp Hok Hs). Qed.

(** * Instances *)

(** Three timers: after 5 seconds, after 1 second and then every 2 seconds,
    after 3 seconds. *)
Definition demo_timer (after repeat : Z) : ev_watcher := Watcher 0 0 0 (ev_timer (of_int after) (of_int repeat)).
Definition demo_watchers : gmap W ev_watcher := {[ 1 := demo_timer 5 0; 2 := demo_timer 1 2; 3 := demo_timer 3 0 ]}.
Definition demo_loop : ev_loop := loop_init (of_int 100) (of_int 100) demo_watchers.
Definition demo_map : gmap W timer := omap timer_state demo_watchers.

Lemma demo_state : loop_state demo_loop demo_map (fun _ => []).
Proof.
  apply loop_init_ok; [done|done|]. intros w x Hx. unfold demo_watchers in Hx.
  apply lookup_insert_Some in Hx as [[_ <-]|[_ Hx]]; [done|].
  apply lookup_insert_Some in Hx as [[_ <-]|[_ Hx]]; [done|].
  by apply lookup_singleton_Some in Hx as [_ <-].
Qed.

Lemma demo_roomy n : n <= 2 ^ 25 -> roomy n demo_loop.
Proof. apply init_roomy. Qed.

Definition demo_calls : list call := [CStart 1; CStart 2; CStart 3; CStop 3; CFeed 1 EV_READ; CAgain 2].

Lemma heap_invariant_witness :
  exists l, run_calls demo_calls demo_loop = Some l /\ verify_heap l (timers l) (timercnt l) = Some true.
Proof.
  apply (heap_invariant demo_calls demo_loop demo_map (fun _ => [])).
  - apply demo_state.
  - done.
  - by apply demo_roomy.
  - vm_compute. reflexivity.
Defined.

(** Ten seconds after the timers were started. *)
Definition demo_started : gmap W timer :=
  {[ 1 := Timer true (of_int 105) (of_int 0); 2 := Timer true (of_int 101) (of_int 2); 3 := Timer true (of_int 103) (of_int 0) ]}.

Lemma demo_later :
  exists l, run_calls [CStart 1; CStart 2; CStart 3] demo_loop = Some l /\
    let l := set_mn_now (of_int 104) l in
    loop_state l demo_started (fun _ => []) /\ timercnt l < 2 ^ 24 /\ roomy (2 ^ 24) l /\ same_priorities demo_loop l.
Proof.
  destruct (run_calls_ok [CStart 1; CStart 2; CStart 3] demo_loop demo_map (fun _ => []))
    as (l & Hrun & Hls & Hsame & Hroom).
  - apply demo_state.
  - done.
  - by apply demo_roomy.
  - vm_compute. reflexivity.
  - exists l. split; [done|]. cbv zeta in *.
    set (s := spec_calls _ _ _ _) in Hls. assert (s.1 = demo_started) as E by (vm_compute; reflexivity).
    rewrite E in Hls. pose proof (heap_count l (re_timers _ _ (ls_ready _ _ _ Hls))) as Hc. rewrite (ls_map _ _ _ Hls) in Hc.
    assert (size demo_started = 3%nat) as Es by (vm_compute; reflexivity). rewrite Es in Hc.
    split_and!; [by apply set_now_ok|simpl; lia| |done].
    apply (Hroom (2 ^ 24)). apply demo_roomy. simpl. lia.
Qed.

Lemma timers_reify_correct_witness :
  exists l l1 fs, run_calls [CStart 1; CStart 2; CStart 3] demo_loop = Some l /\
    timers_reify (set_mn_now (of_int 104) l) = Some l1 /\ StronglySorted earlier_timer fs /\
    timer_map l1 = {[ 1 := Timer true (of_int 105) (of_int 0); 2 := Timer true (of_int 104) (of_int 2);
                      3 := Timer false (of_int (-1)) (of_int 0) ]}.
Proof.
  destruct demo_later as (l & Hrun & Hls & Hcnt & Hroom & _).
  destruct (timers_reify_correct _ _ _ Hls Hcnt Hroom) as (l1 & fs & Hrei & _ & Hsort & Hls1 & _).
  exists l, l1, fs. split; [exact Hrun|]. split; [exact Hrei|]. split; [exact Hsort|].
  rewrite (ls_map _ _ _ Hls1). vm_compute. reflexivity.
Defined.

Lemma expired_timers_run_witness :
  exists l l1 fuel l2 log, run_calls [CStart 1; CStart 2; CStart 3] demo_loop = Some l /\
    timers_reify (set_mn_now (of_int 104) l) = Some l1 /\
    ev_invoke_pending (fun _ _ l => Some l) fuel l1 = Some (l2, log) /\ log ≡ₚ [(2, EV_TIMER); (3, EV_TIMER)].
Proof.
  destruct demo_later as (l & Hrun & Hls & Hcnt & Hroom & _).
  destruct (expired_timers_run (fun _ _ l => Some l) _ _ _ Hls Hcnt Hroom) as (l1 & fs & fuel & l2 & H1 & H2 & _ & _ & H3 & _).
  - done.
  - intros w revents l' P H. exists l'. split; [reflexivity|exact H].
  - exists l, l1, fuel, l2, (by_priority (set_mn_now (of_int 104) l) fs).
    split; [exact Hrun|]. split; [exact H1|]. split; [exact H2|].
    rewrite H3. unfold late. rewrite (ls_map _ _ _ Hls). vm_compute. repeat constructor.
Defined.

Definition third : W := 3.

(** The callback of the watcher 2 clears the event of the watcher 3. *)
Definition clearing (w : W) (revents : Z) (l : ev_loop) : option ev_loop :=
  if w =? 2 then '(_, l) ← ev_clear_pending third l; Some l else Some l.
Definition clears (w : W) (revents : Z) (P : queues) : queues := if w =? 2 then cleared P third 2 else P.
Definition has_watcher (l : ev_loop) : Prop := exists x, mem l !! third = Some x /\ ABSPRI x = 2.

Lemma has_watcher_same l l' : same_priorities l l' -> has_watcher l -> has_watcher l'.
Proof.
  intros E (x & Hx & Hp). unfold same_priorities in E. apply (f_equal (lookup third)) in E. rewrite !lookup_fmap, Hx in E.
  unfold has_watcher. destruct (mem l' !! third) as [x'|]; [|done]. exists x'. split; [done|].
  simpl in E. injection E as E. unfold ABSPRI in *. congruence.
Qed.

Lemma clearing_ok w revents l1 P1 :
  loop_ok has_watcher l1 P1 -> exists l', clearing w revents l1 = Some l' /\ loop_ok has_watcher l' (clears w revents P1).
Proof.
  intros (Hp1 & Ht1 & x & Hx & Hpx). unfold clearing, clears.
  destruct (w =? 2); [|exists l1; split; [done|]; split_and!; [done|done|by exists x]].
  unfold ev_clear_pending. rewrite Hx. cbn [mbind option_bind].
  destruct (Z.eqb_spec (pending x) 0) as [E|E]; cbn [negb mbind option_bind].
  - exists l1. split; [done|]. split_and!; [|done|by exists x]. rewrite <- Hpx. apply pending_ok_cleared; try done.
    unfold priority_ok. by rewrite Hpx.
  - destruct (drop_pending_ok l1 P1 third x Hp1 Hx E) as (e & l2 & -> & _ & Hp2 & Hfr & _ & Htop & _). cbn [mbind option_bind].
    exists l2. split; [done|]. rewrite <- Hpx. split_and!; [done|by apply Htop|].
    apply (has_watcher_same l1); [by apply frame_priorities|by exists x].
Qed.

Lemma demo_has_watcher : has_watcher demo_loop.
Proof. by eexists. Qed.

Lemma invoke_refines_witness :
  exists l fuel l', run_calls [CFeed 3 EV_READ; CFeed 2 EV_WRITE; CFeed 1 EV_READ] demo_loop = Some l /\
    ev_invoke_pending clearing fuel l = Some (l', [(1, EV_READ); (2, EV_WRITE)]).
Proof.
  destruct (run_calls_ok [CFeed 3 EV_READ; CFeed 2 EV_WRITE; CFeed 1 EV_READ] demo_loop demo_map (fun _ => []))
    as (l & Hrun & Hls & Hsame & _).
  - apply demo_state.
  - done.
  - by apply demo_roomy.
  - vm_compute. reflexivity.
  - set (P := (spec_calls (mn_now demo_loop) (prio demo_loop) [CFeed 3 EV_READ; CFeed 2 EV_WRITE; CFeed 1 EV_READ]
                 (demo_map, fun _ => [])).2) in *.
    destruct (spec_invoke clears 4 P) as [[P' log]|] eqn:Hs; [|by vm_compute in Hs].
    assert (log = [(1, EV_READ); (2, EV_WRITE)]) as ->.
    { apply (f_equal (fmap snd)) in Hs. vm_compute in Hs. by injection Hs as <-. }
    destruct (invoke_refines clearing clears has_watcher 4 l P P' [(1, EV_READ); (2, EV_WRITE)]) as (fuel & l' & Hinv & _).
    + intros l1 l2 Hfr. by apply has_watcher_same, frame_priorities.
    + apply (re_pending _ _ (ls_ready _ _ _ Hls)).
    + apply (has_watcher_same demo_loop l Hsame). exact demo_has_watcher.
    + exact Hs.
    + apply clearing_ok.
    + exists l, fuel, l'. split; [exact Hrun|exact Hinv].
Defined.
