(* ===== verification/EvIo.v ===== *)
(** The io watchers of ev.c: the table of file descriptors with a chain of
    watchers for each, the list of changed descriptors, and fd_reify, which
    tells the backend. *)
From S2P Require Import Prelude EvTime Ev.

Open Scope c_scope.

Definition EV_ERROR : Z := -2147483648.

(** * Accesses *)

(** [next], [fd] and [events] of an [ev_io]. *)
Definition io_of (x : ev_watcher) : option (W * Z * Z) :=
  match body x with ev_io next fd events => Some (next, fd, events) | _ => None end.
Definition set_next (n : W) (x : ev_watcher) : ev_watcher :=
  match body x with ev_io _ fd events => with_body (ev_io n fd events) x | _ => x end.
Definition set_events (e : Z) (x : ev_watcher) : ev_watcher :=
  match body x with ev_io next fd _ => with_body (ev_io next fd e) x | _ => x end.

Definition with_head h (a : ANFD) := Anfd h (fd_events a) (reify a) (emask a) (egen a).
Definition with_events e (a : ANFD) := Anfd (head a) e (reify a) (emask a) (egen a).
Definition with_reify r (a : ANFD) := Anfd (head a) (fd_events a) r (emask a) (egen a).
Definition with_emask m (a : ANFD) := Anfd (head a) (fd_events a) (reify a) m (egen a).
Definition with_egen g (a : ANFD) := Anfd (head a) (fd_events a) (reify a) (emask a) g.

Definition anfd_update (fd : Z) (g : ANFD -> ANFD) (l : ev_loop) : option ev_loop :=
  a ← array_get (anfds l) fd;
  fs ← array_set (anfds l) fd (g a);
  Some (set_anfds fs l).

(** * Chains of watchers *)

Definition wlist_add (fd : Z) (w : W) (l : ev_loop) : option ev_loop :=
  a ← array_get (anfds l) fd;
  l ← update w (set_next (head a)) l;
  anfd_update fd (with_head w) l.

(** A pointer to a link: [None] is [&anfds[fd].head], [Some w] is [&w->next]. *)
Definition get_link (fd : Z) (c : option W) (l : ev_loop) : option W :=
  match c with
  | None => a ← array_get (anfds l) fd; Some (head a)
  | Some w => x ← mem l !! w; '(n, _, _) ← io_of x; Some n
  end.
Definition set_link (fd : Z) (c : option W) (n : W) (l : ev_loop) : option ev_loop :=
  match c with
  | None => anfd_update fd (with_head n) l
  | Some w => update w (set_next n) l
  end.

Fixpoint wlist_del_loop (fuel : nat) (fd : Z) (c : option W) (elem : W) (l : ev_loop) : option ev_loop :=
  match fuel with
  | O => None
  | S fuel =>
      p ← get_link fd c l;
      if p =? null then Some l
      else if p =? elem then n ← get_link fd (Some elem) l; set_link fd c n l
      else wlist_del_loop fuel fd (Some p) elem l
  end.

(** The number of watchers in the memory bounds the length of a chain. *)
Definition wlist_del (fd : Z) (elem : W) (l : ev_loop) : option ev_loop :=
  wlist_del_loop (S (size (mem l))) fd None elem l.

(** * Changes *)

Definition fd_change (fd flags : Z) (l : ev_loop) : option ev_loop :=
  a ← array_get (anfds l) fd;
  l ← anfd_update fd (with_reify (u8 (reify a .| flags))) l;
  if reify a =? 0 then
    let l := set_fdchangecnt (fdchangecnt l + 1) l in
    cs ← array_needsize 4 (fdchanges l) (fdchangecnt l) 0;
    cs ← array_set cs (fdchangecnt l - 1) fd;
    Some (set_fdchanges cs l)
  else Some l.

(** The macro ev_io_set of ev.h. *)
Definition ev_io_set (w : W) (fd events : Z) (l : ev_loop) : option ev_loop :=
  update w (fun x => match body x with
                     | ev_io next _ _ => with_body (ev_io next fd (events .| EV__IOFDSET)) x
                     | _ => x
                     end) l.

Definition ev_io_start (w : W) (l : ev_loop) : option ev_loop :=
  x ← mem l !! w;
  '(_, fd, events) ← io_of x;
  if negb (active x =? 0) then Some l
  else if fd <? 0 then None
  else if negb (events .& Z.lnot (EV__IOFDSET .| EV_READ .| EV_WRITE) =? 0) then None
  else
    l ← ev_start w 1 l;
    fs ← array_needsize 16 (anfds l) (fd + 1) (Anfd null 0 0 0 0);
    l ← wlist_add fd w (set_anfds fs l);
    n ← get_link fd (Some w) l;
    if n =? w then None
    else
      l ← fd_change fd (events .& EV__IOFDSET .| EV_ANFD_REIFY) l;
      update w (set_events (events .& Z.lnot EV__IOFDSET)) l.

Definition ev_io_stop (w : W) (l : ev_loop) : option ev_loop :=
  l ← clear_pending w l;
  x ← mem l !! w;
  if active x =? 0 then Some l
  else
    '(_, fd, _) ← io_of x;
    if negb ((0 <=? fd) && (fd <? Z.of_nat (length (anfds l)))) then None
    else
      l ← wlist_del fd w l;
      l ← ev_stop w l;
      fd_change fd EV_ANFD_REIFY l.

(** * Events on file descriptors *)

Fixpoint fd_event_loop (fuel : nat) (w : W) (revents : Z) (l : ev_loop) : option ev_loop :=
  match fuel with
  | O => None
  | S fuel =>
      if w =? null then Some l
      else
        x ← mem l !! w;
        '(_, _, events) ← io_of x;
        let ev := events .& revents in
        l ← (if negb (ev =? 0) then ev_feed_event w ev l else Some l);
        x ← mem l !! w;
        '(next, _, _) ← io_of x;
        fd_event_loop fuel next revents l
  end.

Definition fd_event_nocheck (fd revents : Z) (l : ev_loop) : option ev_loop :=
  a ← array_get (anfds l) fd;
  fd_event_loop (S (size (mem l))) (head a) revents l.

Definition fd_event (fd revents : Z) (l : ev_loop) : option ev_loop :=
  a ← array_get (anfds l) fd;
  if reify a =? 0 then fd_event_nocheck fd revents l else Some l.

Definition ev_feed_fd_event (fd revents : Z) (l : ev_loop) : option ev_loop :=
  if (0 <=? fd) && (fd <? Z.of_nat (length (anfds l))) then fd_event_nocheck fd revents l else Some l.

Fixpoint fd_kill_loop (fuel : nat) (fd : Z) (l : ev_loop) : option ev_loop :=
  match fuel with
  | O => None
  | S fuel =>
      a ← array_get (anfds l) fd;
      let w := head a in
      if w =? null then Some l
      else
        l ← ev_io_stop w l;
        l ← ev_feed_event w (EV_ERROR .| EV_READ .| EV_WRITE) l;
        fd_kill_loop fuel fd l
  end.
Definition fd_kill (fd : Z) (l : ev_loop) : option ev_loop := fd_kill_loop (S (size (mem l))) fd l.

(** * Telling the backend *)

(** [events |= (unsigned char)w->events] along a chain. *)
Fixpoint chain_events (fuel : nat) (w : W) (events : Z) (l : ev_loop) : option Z :=
  match fuel with
  | O => None
  | S fuel =>
      if w =? null then Some events
      else
        x ← mem l !! w;
        '(next, _, e) ← io_of x;
        chain_events fuel next (u8 (events .| u8 e)) l
  end.

Section backend.
(** The state of the kernel, and the function backend_modify of the loop. *)
Context {K : Type} (backend_modify : Z -> Z -> Z -> ev_loop * K -> option (ev_loop * K)).

(** The body of the loop of fd_reify. *)
Definition fd_reify_one (fd : Z) (s : ev_loop * K) : option (ev_loop * K) :=
  let '(l, k) := s in
  a ← array_get (anfds l) fd;
  let o_events := fd_events a in
  let o_reify := reify a in
  l ← anfd_update fd (fun a => with_events 0 (with_reify 0 a)) l;
  events ← chain_events (S (size (mem l))) (head a) 0 l;
  l ← anfd_update fd (with_events events) l;
  let o_reify := if negb (o_events =? events) then EV__IOFDSET else o_reify in
  if negb (o_reify .& EV__IOFDSET =? 0) then backend_modify fd o_events events (l, k) else Some (l, k).

(** [fdchangecnt] is read again in every round, since the backend may change
    descriptors. *)
Fixpoint fd_reify_loop (fuel : nat) (i : Z) (s : ev_loop * K) : option (ev_loop * K) :=
  match fuel with
  | O => None
  | S fuel =>
      if i <? fdchangecnt s.1 then
        fd ← array_get (fdchanges s.1) i;
        s ← fd_reify_one fd s;
        fd_reify_loop fuel (i + 1) s
      else Some (set_fdchangecnt 0 s.1, s.2)
  end.

(** Every descriptor is changed at most once, and once more if it is killed. *)
Definition fd_reify (s : ev_loop * K) : option (ev_loop * K) :=
  fd_reify_loop (S (2 * length (anfds s.1))) 0 s.
End backend.

(** After a fork every descriptor in use is registered anew. *)
Fixpoint rearm_loop (fds : list Z) (l : ev_loop) : option ev_loop :=
  match fds with
  | [] => Some l
  | fd :: fds =>
      a ← array_get (anfds l) fd;
      l ← (if negb (fd_events a =? 0) then
             l ← anfd_update fd (fun a => with_emask 0 (with_events 0 a)) l;
             fd_change fd (EV__IOFDSET .| EV_ANFD_REIFY) l
           else Some l);
      rearm_loop fds l
  end.
Definition fd_rearm_all (l : ev_loop) : option ev_loop :=
  rearm_loop (seqZ 0 (Z.of_nat (length (anfds l)))) l.

(** On EBADF: [invalid fd] is [!fd_valid (fd) && errno == EBADF]. *)
Fixpoint ebadf_loop (invalid : Z -> bool) (fds : list Z) (l : ev_loop) : option ev_loop :=
  match fds with
  | [] => Some l
  | fd :: fds =>
      a ← array_get (anfds l) fd;
      l ← (if negb (fd_events a =? 0) && invalid fd then fd_kill fd l else Some l);
      ebadf_loop invalid fds l
  end.
Definition fd_ebadf (invalid : Z -> bool) (l : ev_loop) : option ev_loop :=
  ebadf_loop invalid (seqZ 0 (Z.of_nat (length (anfds l)))) l.

(** On ENOMEM: the watchers of the largest descriptor in use are stopped. *)
Fixpoint enomem_loop (fds : list Z) (l : ev_loop) : option ev_loop :=
  match fds with
  | [] => Some l
  | fd :: fds =>
      a ← array_get (anfds l) fd;
      if negb (fd_events a =? 0) then fd_kill fd l else enomem_loop fds l
  end.
Definition fd_enomem (l : ev_loop) : option ev_loop :=
  enomem_loop (reverse (seqZ 0 (Z.of_nat (length (anfds l))))) l.
