(* ===== verification/EvIoRep.v ===== *)
(** The invariant of the io watchers of EvIo.v: for every file descriptor the
    chain of its active watchers, and the list of descriptors that changed. *)
From S2P Require Import Prelude EvTime Ev EvPending EvTimer EvIo.

Open Scope c_scope.

(** * Chains *)

(** The active watchers of each descriptor, the one started last first. *)
Definition chains : Type := Z -> list W.
Definition put (I : chains) (fd : Z) (ws : list W) : chains := fun i => if decide (i = fd) then ws else I i.

(** What the io operations use of the watchers: not the mark of pending events. *)
Definition bare (l : ev_loop) : gmap W ev_watcher := with_pending 0 <$> mem l.

Definition mask_of (m : gmap W ev_watcher) (w : W) : Z :=
  match x ← m !! w; io_of x with Some (_, _, e) => e | None => 0 end.

(** The events that some watcher of a chain waits for. *)
Definition interest (m : gmap W ev_watcher) (ws : list W) : Z :=
  foldr (fun w e => mask_of m w .| e) 0 ws.

Definition io_watcher (m : gmap W ev_watcher) (fd : Z) (w next : W) (e : Z) : Prop :=
  exists x, m !! w = Some x /\ body x = ev_io next fd e /\ active x = 1 /\ priority_ok x /\
    in_u 2 e /\ w <> null /\ w <> pending_w.

Fixpoint chain (m : gmap W ev_watcher) (fd : Z) (p : W) (ws : list W) : Prop :=
  match ws with
  | [] => p = null
  | w :: ws => p = w /\ exists next e, io_watcher m fd w next e /\ chain m fd next ws
  end.

Lemma bare_lookup l w x : mem l !! w = Some x -> bare l !! w = Some (with_pending 0 x).
Proof. intros H. unfold bare. by rewrite lookup_fmap, H. Qed.

Lemma bare_back l w x : bare l !! w = Some x -> exists y, mem l !! w = Some y /\ x = with_pending 0 y.
Proof. unfold bare. rewrite lookup_fmap. intros (y & Hy & ->)%fmap_Some. by exists y. Qed.

Lemma bare_io l w x : bare l !! w = Some x -> exists y, mem l !! w = Some y /\ body y = body x /\
  active y = active x /\ priority y = priority x.
Proof. intros (y & Hy & ->)%bare_back. by exists y. Qed.

Lemma io_of_body x n fd e : io_of x = Some (n, fd, e) <-> body x = ev_io n fd e.
Proof. unfold io_of. destruct (body x); split; intros E; try done; by injection E as -> -> ->. Qed.

Lemma chain_ext m m' fd p ws : (forall w, w ∈ ws -> m' !! w = m !! w) -> chain m fd p ws -> chain m' fd p ws.
Proof.
  revert p. induction ws as [|w ws IH]; intros p H; [done|]. intros [-> (n & e & (x & Hx & Hr) & Hc)].
  split; [done|]. exists n, e. split.
  - exists x. split; [|done]. rewrite <- Hx. apply H. by left.
  - apply IH; [|done]. intros w' Hw'. apply H. by right.
Qed.

Lemma chain_elem m fd p ws w : chain m fd p ws -> w ∈ ws -> exists n e, io_watcher m fd w n e.
Proof.
  revert p. induction ws as [|w' ws IH]; intros p Hc; [by intros ?%elem_of_nil|].
  destruct Hc as [-> (n & e & Hw & Hc)]. intros [->|Hin]%elem_of_cons; eauto.
Qed.

Lemma mask_of_io m fd w n e : io_watcher m fd w n e -> mask_of m w = e.
Proof. intros (x & Hx & Hb & _). unfold mask_of. rewrite Hx. cbn [mbind option_bind]. by rewrite (proj2 (io_of_body x n fd e)). Qed.

Lemma interest_ext m m' ws : (forall w, w ∈ ws -> m' !! w = m !! w) -> interest m' ws = interest m ws.
Proof.
  induction ws as [|w ws IH]; intros H; [done|]. simpl. rewrite IH by (intros; apply H; by right). f_equal.
  unfold mask_of. by rewrite H by (by left).
Qed.

Lemma interest_range m fd p ws : chain m fd p ws -> in_u 2 (interest m ws).
Proof.
  revert p. induction ws as [|w ws IH]; intros p Hc; [done|]. destruct Hc as [_ (n & e & Hw & Hc)]. simpl.
  apply in_u_lor; [done| |by eapply IH]. rewrite (mask_of_io _ _ _ _ _ Hw). by destruct Hw as (?&?&?&?&?&?&?).
Qed.

(** The loops over a chain have a large enough budget. *)
Lemma chain_size m fd p ws : chain m fd p ws -> NoDup ws -> (length ws <= size m)%nat.
Proof.
  intros Hc Hnd. rewrite <- length_map_to_list, <- (length_fmap fst (map_to_list m)).
  apply submseteq_length, NoDup_submseteq; [done|]. intros w Hw.
  destruct (chain_elem _ _ _ _ _ Hc Hw) as (n & e & x & Hx & _).
  apply list_elem_of_fmap. exists (w, x). split; [done|]. by apply elem_of_map_to_list.
Qed.

Lemma bare_size l : size (bare l) = size (mem l).
Proof. apply map_size_fmap. Qed.

Lemma in_u_mono w w' x : w <= w' -> in_u w x -> in_u w' x.
Proof. intros Hw [H1 H2]. split; [done|]. eapply Z.lt_le_trans; [exact H2|]. apply Z.pow_le_mono_r; lia. Qed.

Lemma chain_events_ok l fd p ws acc fuel :
  chain (bare l) fd p ws -> in_u 2 acc -> (length ws < fuel)%nat ->
  chain_events fuel p acc l = Some (acc .| interest (bare l) ws).
Proof.
  revert p acc fuel. induction ws as [|w ws IH]; intros p acc fuel Hc Ha Hf; (destruct fuel as [|fuel]; [simpl in Hf; lia|]).
  - simpl in Hc. subst p. cbn [chain_events interest foldr]. by rewrite Z.lor_0_r.
  - destruct Hc as [-> (n & e & Hw & Hc)]. pose proof Hw as (x & Hx & Hb & _ & _ & He & Hn & _).
    destruct (bare_io _ _ _ Hx) as (y & Hy & Ey & _). cbn [chain_events].
    rewrite (proj2 (Z.eqb_neq _ _)) by exact Hn. rewrite Hy. cbn [mbind option_bind].
    rewrite (proj2 (io_of_body y n fd e)) by congruence. cbn [interest foldr mbind option_bind].
    rewrite (mask_of_io _ _ _ _ _ Hw), Z.lor_assoc.
    rewrite (wrap_id 8 e) by (by apply (in_u_mono 2)).
    rewrite (wrap_id 8) by (apply (in_u_mono 2); [done|]; by apply in_u_lor).
    apply IH; [done|by apply in_u_lor|simpl in Hf; lia].
Qed.

(** * The invariant *)

(** [todo]: the descriptors that are marked as changed. *)
Record io_ok (m : gmap W ev_watcher) (fs : list ANFD) (I : chains) (todo : list Z) : Prop := IoOk {
  io_chain : forall fd a, array_get fs fd = Some a -> chain m fd (head a) (I fd);
  io_none : forall fd, array_get fs fd = None -> I fd = [];
  io_nodup : forall fd, NoDup (I fd);
  io_active : forall w x n fd e, m !! w = Some x -> body x = ev_io n fd e -> active x <> 0 -> w ∈ I fd;
  io_reify : forall fd a, array_get fs fd = Some a -> in_u 8 (reify a) /\ (reify a <> 0 <-> fd ∈ todo);
  io_todo : NoDup todo;
  io_range : forall fd, fd ∈ todo -> 0 <= fd < Z.of_nat (length fs);
  io_sync : forall fd a, array_get fs fd = Some a ->
    in_u 2 (fd_events a) /\ (reify a = 0 -> fd_events a = interest m (I fd));
}.

(** The watchers of a descriptor. *)
Lemma io_member m fs I todo fd w :
  io_ok m fs I todo -> w ∈ I fd -> exists a n e, array_get fs fd = Some a /\ io_watcher m fd w n e.
Proof.
  intros Hok Hw. destruct (array_get fs fd) as [a|] eqn:Ha.
  - destruct (chain_elem _ _ _ _ _ (io_chain _ _ _ _ Hok fd a Ha) Hw) as (n & e & H). by exists a, n, e.
  - rewrite (io_none _ _ _ _ Hok fd Ha) in Hw. by apply elem_of_nil in Hw.
Qed.

(** A watcher is in one chain. *)
Lemma io_one m fs I todo fd fd' w : io_ok m fs I todo -> w ∈ I fd -> w ∈ I fd' -> fd = fd'.
Proof.
  intros Hok H1 H2. destruct (io_member _ _ _ _ _ _ Hok H1) as (_ & n & e & _ & x & Hx & Hb & _).
  destruct (io_member _ _ _ _ _ _ Hok H2) as (_ & n' & e' & _ & x' & Hx' & Hb' & _). congruence.
Qed.

(** A table that is longer, its new entries zero. *)
Definition extends (fs fs' : list ANFD) (but : Z) : Prop :=
  forall fd, fd <> but -> array_get fs' fd = array_get fs fd \/
    (array_get fs fd = None /\ array_get fs' fd = Some (Anfd null 0 0 0 0)).

(** Changing the chain of one descriptor, which is then marked. *)
Lemma io_ok_put m fs I todo m' fs' fd ws a' :
  io_ok m fs I todo -> (forall w fd', fd' <> fd -> w ∈ I fd' -> m' !! w = m !! w) ->
  extends fs fs' fd -> (length fs <= length fs')%nat ->
  array_get fs' fd = Some a' -> chain m' fd (head a') ws -> NoDup ws ->
  (forall w x n fd' e, m' !! w = Some x -> body x = ev_io n fd' e -> active x <> 0 -> w ∈ put I fd ws fd') ->
  in_u 8 (reify a') -> reify a' <> 0 -> in_u 2 (fd_events a') ->
  io_ok m' fs' (put I fd ws) (if decide (fd ∈ todo) then todo else todo ++ [fd]).
Proof.
  intros Hok Hm Hext Hlen Ha' Hc Hnd Hact Hr8 Hr Hev.
  assert (forall i, i ∈ (if decide (fd ∈ todo) then todo else todo ++ [fd]) <-> i ∈ todo \/ i = fd) as Htodo.
  { intros i. case_decide; [|set_solver]. split; [by left|]. by intros [?| ->]. }
  split.
  - intros i a Hi. unfold put. destruct (decide (i = fd)) as [E|E]; [subst i; by replace a with a' by congruence|].
    destruct (Hext i E) as [Eq|[Hnone Heq]].
    + rewrite Eq in Hi. eapply chain_ext; [|by apply (io_chain _ _ _ _ Hok)]. intros w Hw. by apply (Hm w i).
    + rewrite Heq in Hi. injection Hi as <-. by rewrite (io_none _ _ _ _ Hok i Hnone).
  - intros i Hi. unfold put. destruct (decide (i = fd)) as [E|E]; [congruence|]. destruct (Hext i E) as [Eq|[Hnone Heq]]; [|congruence].
    rewrite Eq in Hi. by apply (io_none _ _ _ _ Hok).
  - intros i. unfold put. destruct (decide (i = fd)); [done|]. by apply (io_nodup _ _ _ _ Hok).
  - done.
  - intros i a Hi. rewrite Htodo. destruct (decide (i = fd)) as [->|E].
    + replace a with a' by congruence. split; [done|]. split; [by right|done].
    + destruct (Hext i E) as [Eq|[Hnone Heq]].
      * rewrite Eq in Hi. destruct (io_reify _ _ _ _ Hok i a Hi) as [H1 H2]. split; [done|]. rewrite H2. intuition.
      * rewrite Heq in Hi. injection Hi as <-. split; [done|]. split; [done|]. intros [Hi|?]; [|done].
        apply (io_range _ _ _ _ Hok) in Hi. destruct (array_get_range fs i Hi). congruence.
  - case_decide; [apply Hok|]. apply NoDup_app. split_and!; [apply Hok|set_solver|apply NoDup_singleton].
  - intros i [Hi| ->]%Htodo; [pose proof (io_range _ _ _ _ Hok i Hi); lia|]. by apply array_get_Some in Ha' as [? _].
  - intros i a Hi. unfold put. destruct (decide (i = fd)) as [->|E]; [replace a with a' by congruence; split; [done|by intros ?]|].
    destruct (Hext i E) as [Eq|[Hnone Heq]].
    + rewrite Eq in Hi. destruct (io_sync _ _ _ _ Hok i a Hi) as [H1 H2]. split; [done|]. intros H0. rewrite (H2 H0).
      symmetry. apply interest_ext. intros w Hw. by apply (Hm w i).
    + rewrite Heq in Hi. injection Hi as <-. split; [done|]. intros _. by rewrite (io_none _ _ _ _ Hok i Hnone).
Qed.
