(* ===== verification/EvIoOps.v ===== *)
(** The io watchers of EvIo.v: starting and stopping keep the invariant, and
    act on the chains of active watchers. *)
From S2P Require Import Prelude EvTime Ev EvPending EvTimer EvIo EvIoRep.

Open Scope c_scope.

(** * Frames *)

(** What the io operations do not change: also the timers, but for their marks. *)
Definition io_mask (l : ev_loop) : ev_loop :=
  set_mem (clocks (mem l)) (set_pendings [] (set_pendingcnt [] (set_pendingpri 0
    (set_activecnt 0 (set_anfds [] (set_fdchanges [] (set_fdchangecnt 0 l))))))).

(** What a backend notes of a descriptor. *)
Definition marks (l : ev_loop) (fd : Z) : Z * Z :=
  match array_get (anfds l) fd with Some a => (emask a, egen a) | None => (0, 0) end.

Record io_frame (l l' : ev_loop) : Prop := IoFrame {
  if_mask : io_mask l' = io_mask l;
  if_marks : forall fd, marks l' fd = marks l fd;
  if_priorities : same_priorities l l';
  if_length : (length (anfds l) <= length (anfds l'))%nat;
}.

Lemma io_frame_clock l l' : io_frame l l' -> clock_frame l l'.
Proof.
  intros [H _ _ _]. split_and!; [exact (f_equal timers H)|exact (f_equal timercnt H)|exact (f_equal mn_now H)|
    exact (f_equal rfeeds H)|exact (f_equal rfeedcnt H)|exact (f_equal mem H)].
Qed.

Lemma io_mask_mem l l' : clocks (mem l') = clocks (mem l) -> io_mask (set_mem ∅ l') = io_mask (set_mem ∅ l) -> io_mask l' = io_mask l.
Proof. intros E H. apply (f_equal (set_mem (clocks (mem l)))) in H. unfold io_mask in *. rewrite E. exact H. Qed.

(** A watcher that is not a timer changes. *)
Lemma io_mask_insert l w x x' :
  mem l !! w = Some x -> timer_of x = None -> timer_of x' = None -> io_mask (set_mem (<[w := x']> (mem l)) l) = io_mask l.
Proof. intros Hx Ht Ht'. apply io_mask_mem; [by apply (clocks_insert _ _ x)|by destruct l]. Qed.

Lemma no_timer x n fd e : body x = ev_io n fd e -> timer_of x = None.
Proof. unfold timer_of. by intros ->. Qed.

Lemma io_frame_refl l : io_frame l l.
Proof. by split. Qed.

Lemma io_frame_trans l1 l2 l3 : io_frame l1 l2 -> io_frame l2 l3 -> io_frame l1 l3.
Proof.
  intros [H1 H2 H3 H4] [G1 G2 G3 G4]. split; [congruence| |by eapply same_priorities_trans|lia].
  intros fd. by rewrite G2.
Qed.

Lemma pending_io_frame l l' : pending_frame l l' -> io_frame l l'.
Proof.
  intros Hf. split; [| |by apply frame_priorities|]; destruct Hf as (m & pss & cnts & pri & -> & E); [| by destruct l|done].
  unfold io_mask. cbn [mem set_mem]. rewrite (clocks_pending _ _ E). by destruct l.
Qed.

Lemma pending_bare l l' : pending_frame l l' -> bare l' = bare l.
Proof. intros (m & pss & cnts & pri & -> & E). exact E. Qed.

Lemma pending_changes l l' : pending_frame l l' ->
  anfds l' = anfds l /\ fdchanges l' = fdchanges l /\ fdchangecnt l' = fdchangecnt l.
Proof. by intros (m & pss & cnts & pri & -> & _). Qed.

(** * The table of descriptors *)

Lemma anfd_update_ok l fd g a :
  array_get (anfds l) fd = Some a ->
  anfd_update fd g l = Some (set_anfds (<[Z.to_nat fd := g a]> (anfds l)) l).
Proof.
  intros Ha. unfold anfd_update. rewrite Ha. cbn [mbind option_bind].
  by rewrite array_set_Some by (by apply array_get_Some in Ha as [? _]).
Qed.

Lemma get_insert (fs : list ANFD) fd a g :
  array_get fs fd = Some a -> array_get (<[Z.to_nat fd := g]> fs) fd = Some g.
Proof. intros [H _]%array_get_Some. rewrite array_get_insert by done. by rewrite decide_True. Qed.

Lemma get_insert_ne (fs : list ANFD) fd fd' a g :
  array_get fs fd = Some a -> fd' <> fd -> array_get (<[Z.to_nat fd := g]> fs) fd' = array_get fs fd'.
Proof. intros [H _]%array_get_Some Hne. rewrite array_get_insert by done. by rewrite decide_False. Qed.

(** A table whose entries for the other descriptors stay extends the old one. *)
Lemma extends_insert (fs : list ANFD) fd a g : array_get fs fd = Some a -> extends fs (<[Z.to_nat fd := g]> fs) fd.
Proof. intros Ha i Hi. left. by eapply get_insert_ne. Qed.

Lemma marks_insert l l' fd a a' :
  array_get (anfds l) fd = Some a -> anfds l' = <[Z.to_nat fd := a']> (anfds l) ->
  emask a' = emask a -> egen a' = egen a -> forall i, marks l' i = marks l i.
Proof.
  intros Ha Hl Em Eg i. unfold marks. rewrite Hl. destruct (decide (i = fd)) as [->|Hne].
  - rewrite (get_insert _ _ _ _ Ha), Ha. congruence.
  - by rewrite (get_insert_ne _ _ _ _ _ Ha Hne).
Qed.

(** * The list of changes *)

(** [cs]: the descriptors in the array of changes. *)
Definition changes (l : ev_loop) (cs : list Z) : Prop :=
  fdchangecnt l = Z.of_nat (length cs) /\ exists rest, fdchanges l = cs ++ rest.

(** The state after fd_change. *)
Lemma fd_change_ok l fd flags a cs :
  array_get (anfds l) fd = Some a -> changes l cs -> Z.of_nat (length cs) < 2 ^ 25 ->
  exists l', fd_change fd flags l = Some l' /\ mem l' = mem l /\
    pendings l' = pendings l /\ pendingcnt l' = pendingcnt l /\ pendingpri l' = pendingpri l /\
    anfds l' = <[Z.to_nat fd := with_reify (u8 (reify a .| flags)) a]> (anfds l) /\
    changes l' (if reify a =? 0 then cs ++ [fd] else cs) /\ io_frame l l'.
Proof.
  intros Ha [Hcnt [rest Hcs]] Hlen. unfold fd_change. rewrite Ha. cbn [mbind option_bind].
  rewrite (anfd_update_ok l fd _ a Ha). cbn [mbind option_bind].
  set (l1 := set_anfds _ l).
  assert (forall l', anfds l' = anfds l1 -> forall i, marks l' i = marks l i) as Hmarks.
  { intros l' Hl'. by apply (marks_insert l l' fd a _ Ha Hl'). }
  destruct (Z.eqb_spec (reify a) 0) as [E|E].
  - cbn [set_fdchangecnt fdchanges fdchangecnt l1 set_anfds]. rewrite Hcnt, Hcs.
    destruct (needsize_replicate 4 (cs ++ rest) (Z.of_nat (length cs) + 1) 0) as (k & -> & Hk); [lia|lia|].
    cbn [mbind option_bind]. rewrite array_set_Some by (rewrite Z.add_simpl_r; lia). cbn [mbind option_bind].
    eexists. split; [done|]. split_and!; try done.
    + split; [simpl; rewrite length_app; simpl; lia|]. cbn [fdchanges set_fdchanges].
      rewrite Z.add_simpl_r, Nat2Z.id. rewrite <- app_assoc in *.
      rewrite insert_app_r_alt, Nat.sub_diag by lia.
      destruct (rest ++ replicate k 0) as [|c rest'] eqn:Hr; [rewrite length_app in Hk; simpl in Hk; lia|].
      exists rest'. simpl. by rewrite <- app_assoc.
    + split; [by destruct l|by apply Hmarks|done|cbn [anfds set_anfds set_fdchanges set_fdchangecnt l1]; by rewrite length_insert].
  - eexists. split; [done|]. split_and!; try done; [split; [done|by exists rest]|].
    split; [by destruct l|by apply Hmarks|done|cbn [anfds set_anfds l1]; by rewrite length_insert].
Qed.

(** * Chains *)

Lemma bare_insert l w x y : bare (set_mem (<[w := x]> y) l) = <[w := with_pending 0 x]> (with_pending 0 <$> y).
Proof. unfold bare. simpl. apply fmap_insert. Qed.

Lemma update_bare l w g x :
  mem l !! w = Some x -> (forall x, with_pending 0 (g x) = g (with_pending 0 x)) ->
  exists l', update w g l = Some l' /\ l' = set_mem (<[w := g x]> (mem l)) l /\
    bare l' = <[w := g (with_pending 0 x)]> (bare l).
Proof.
  intros Hx Hg. eexists. split; [by apply update_ok|]. split; [done|]. by rewrite bare_insert, Hg.
Qed.

Lemma set_next_pending n x : with_pending 0 (set_next n x) = set_next n (with_pending 0 x).
Proof. unfold set_next. simpl. by destruct (body x). Qed.

Lemma set_next_io n x q fd e :
  body x = ev_io q fd e -> set_next n x = Watcher (active x) (pending x) (priority x) (ev_io n fd e).
Proof. unfold set_next. by intros ->. Qed.

(** A watcher without its link. *)
Definition no_next (x : ev_watcher) : ev_watcher := set_next null x.
Definition unlinked (l : ev_loop) : gmap W ev_watcher := no_next <$> mem l.

Lemma no_next_eq x y : no_next x = no_next y ->
  active x = active y /\ pending x = pending y /\ priority x = priority y /\
  forall n fd e, body x = ev_io n fd e -> exists n', body y = ev_io n' fd e.
Proof.
  unfold no_next, set_next. intros E. destruct x as [a p r b], y as [a' p' r' b']. simpl in *.
  destruct b, b'; simpl in *; injection E; intros; subst; (split_and!; [done..|]); intros ? ? ? Hb; try done.
  injection Hb; intros; subst. eauto.
Qed.

Lemma unlinked_back l l' w x' :
  unlinked l' = unlinked l -> mem l' !! w = Some x' -> exists x, mem l !! w = Some x /\ no_next x' = no_next x.
Proof.
  intros E Hx'. apply (f_equal (lookup w)) in E. unfold unlinked in E. rewrite !lookup_fmap, Hx' in E. simpl in E.
  destruct (mem l !! w) as [x|]; [|done]. apply (inj Some) in E. eauto.
Qed.

Lemma unlinked_insert l w x y m :
  mem l !! w = Some x -> no_next y = no_next x -> m = <[w := y]> (mem l) -> unlinked (set_mem m l) = unlinked l.
Proof. intros Hx E ->. unfold unlinked. simpl. rewrite fmap_insert, E. apply insert_id. by rewrite lookup_fmap, Hx. Qed.

Lemma timer_no_next x : timer_of (no_next x) = timer_of x.
Proof. unfold no_next, set_next, timer_of. destruct x as [a p r b]. by destruct b. Qed.

Lemma no_next_set n x : no_next (set_next n x) = no_next x.
Proof. unfold no_next, set_next. destruct x as [a p r b]. by destruct b. Qed.

(** The link of a watcher. *)
Lemma get_link_io l fd w n e : io_watcher (bare l) fd w n e -> get_link fd (Some w) l = Some n.
Proof.
  intros (x & Hx & Hb & _). destruct (bare_io _ _ _ Hx) as (y & Hy & Ey & _). unfold get_link. rewrite Hy. cbn [mbind option_bind].
  by rewrite (proj2 (io_of_body y n fd e)) by congruence.
Qed.

Definition link_before (c : option W) (ws : list W) : option W :=
  match last ws with Some w => Some w | None => c end.

Lemma link_before_cons c w ws : link_before c (w :: ws) = link_before (Some w) ws.
Proof. unfold link_before. destruct ws as [|w' ws]; [done|]. rewrite last_cons_cons. by destruct (last (w' :: ws)) eqn:E; [|apply last_None in E]. Qed.

Lemma wlist_del_loop_ok l fd c ws1 w ws2 p fuel :
  get_link fd c l = Some p -> chain (bare l) fd p (ws1 ++ w :: ws2) -> NoDup (ws1 ++ w :: ws2) ->
  (length ws1 < fuel)%nat ->
  exists n e, io_watcher (bare l) fd w n e /\ chain (bare l) fd n ws2 /\
    wlist_del_loop fuel fd c w l = set_link fd (link_before c ws1) n l.
Proof.
  revert c p fuel. induction ws1 as [|w1 ws1 IH]; intros c p fuel Hp Hc Hnd Hf;
    (destruct fuel as [|fuel]; [simpl in Hf; lia|]); destruct Hc as [-> (n & e & Hw & Hc)];
    cbn [wlist_del_loop]; rewrite Hp; cbn [mbind option_bind].
  - exists n, e. split_and!; [done|done|]. pose proof Hw as (x & _ & _ & _ & _ & _ & Hn & _).
    rewrite (proj2 (Z.eqb_neq _ _)) by exact Hn. rewrite Z.eqb_refl. by rewrite (get_link_io _ _ _ _ _ Hw).
  - apply NoDup_cons in Hnd as [Hw1 Hnd]. pose proof Hw as (x & _ & _ & _ & _ & _ & Hn & _).
    rewrite (proj2 (Z.eqb_neq _ _)) by exact Hn. rewrite (proj2 (Z.eqb_neq _ _)) by (intros ->; apply Hw1; set_solver).
    rewrite link_before_cons. apply (IH (Some w1) n); [by apply (get_link_io _ _ _ _ e)|done|done|simpl in Hf; lia].
Qed.

(** A watcher is unlinked: the link before it skips it. *)
Lemma chain_skip m fd p ws w1 w ws2 x n e n1 e1 :
  chain m fd p (ws ++ w1 :: w :: ws2) -> NoDup (ws ++ w1 :: w :: ws2) ->
  io_watcher m fd w n e -> m !! w1 = Some x -> body x = ev_io n1 fd e1 ->
  chain (<[w1 := set_next n x]> m) fd p (ws ++ w1 :: ws2).
Proof.
  revert p. induction ws as [|w' ws IH]; intros p Hc Hnd Hw Hx Hb.
  - destruct Hc as [-> (n1' & e1' & Hw1 & -> & n' & e' & Hw' & Hc)]. split; [done|]. exists n, e1'.
    pose proof Hw1 as (x' & Hx' & Hb' & Ha & Hp & He & Hn & Hpw). assert (x' = x) as -> by congruence. split.
    + eexists. split; [by rewrite lookup_insert_eq|]. rewrite (set_next_io _ _ _ _ _ Hb'). by split_and!.
    + assert (n' = n) as ->.
      { destruct Hw as (y & Hy & Hyb & _), Hw' as (y' & Hy' & Hyb' & _). congruence. }
      eapply chain_ext; [|exact Hc]. intros z Hz. apply lookup_insert_ne. intros ->. simpl in Hnd.
      rewrite !NoDup_cons in Hnd. set_solver.
  - destruct Hc as [-> (n' & e' & Hw' & Hc)]. simpl in Hnd. apply NoDup_cons in Hnd as [Hni Hnd].
    split; [done|]. exists n', e'. split; [|by apply IH].
    destruct Hw' as (y & Hy & Hr). exists y. split; [|done]. rewrite lookup_insert_ne; [done|]. intros ->. set_solver.
Qed.

(** wlist_del takes a watcher out of its chain. *)
Lemma wlist_del_ok l fd a ws1 w ws2 :
  array_get (anfds l) fd = Some a -> chain (bare l) fd (head a) (ws1 ++ w :: ws2) -> NoDup (ws1 ++ w :: ws2) ->
  exists l' a', wlist_del fd w l = Some l' /\ array_get (anfds l') fd = Some a' /\
    anfds l' = <[Z.to_nat fd := a']> (anfds l) /\ a' = with_head (head a') a /\
    chain (bare l') fd (head a') (ws1 ++ ws2) /\ (forall w', w' ∉ ws1 -> bare l' !! w' = bare l !! w') /\
    unlinked l' = unlinked l /\
    pendings l' = pendings l /\ pendingcnt l' = pendingcnt l /\ pendingpri l' = pendingpri l /\
    fdchanges l' = fdchanges l /\ fdchangecnt l' = fdchangecnt l /\ io_frame l l'.
Proof.
  intros Ha Hc Hnd. unfold wlist_del.
  destruct (wlist_del_loop_ok l fd None ws1 w ws2 (head a) (S (size (mem l)))) as (n & e & Hw & Hc2 & ->);
    [unfold get_link; by rewrite Ha|done|done| |].
  { pose proof (chain_size _ _ _ _ Hc Hnd) as Hs. rewrite bare_size, length_app in Hs. simpl in Hs. lia. }
  destruct ws1 as [|w1 ws1 _] using rev_ind.
  - cbn [link_before last set_link app]. rewrite (anfd_update_ok l fd _ a Ha).
    eexists _, (with_head n a). split; [done|]. split; [by apply (get_insert _ _ a)|]. split_and!; try done.
    + split; [by destruct l|by apply (marks_insert l _ fd a (with_head n a))|done|cbn [anfds set_anfds]; by rewrite length_insert].
  - unfold link_before. rewrite last_snoc. cbn [set_link]. rewrite <- app_assoc in *. cbn [app] in *.
    destruct (chain_elem _ _ _ _ w1 Hc) as (n1 & e1 & x & Hx & Hb & Ha1 & Hp1 & He1 & Hn1 & Hpw1); [set_solver|].
    destruct (bare_back _ _ _ Hx) as (y & Hy & ->). simpl in Hb.
    destruct (update_bare l w1 (set_next n) y Hy (set_next_pending n)) as (l' & -> & -> & Hbare).
    eexists _, a. split; [done|]. split; [done|]. rewrite Hbare. split_and!; try done.
    + simpl. symmetry. apply list_insert_id. by apply array_get_Some in Ha as [_ ?].
    + by destruct a.
    + eapply (chain_skip _ _ _ _ _ w ws2 _ n e); [exact Hc|done|done|done|exact Hb].
    + intros w' Hw'. apply lookup_insert_ne. intros ->. apply Hw'. set_solver.
    + by apply (unlinked_insert l w1 y (set_next n y)); [|apply no_next_set|].
    + split; [|done| |done].
      { apply (io_mask_insert l w1 y); [done|by apply (no_timer _ n1 fd e1)|by apply (no_timer _ n fd e1); rewrite (set_next_io _ _ _ _ _ Hb)]. }
      apply (same_priorities_of no_next); [intros x'; unfold no_next, set_next; by destruct (body x')|].
      by apply (unlinked_insert l w1 y (set_next n y)); [|apply no_next_set|].
Qed.

(** * The state of the io watchers *)

Record iow := IoW { i_fd : Z; i_events : Z; i_active : bool }.

Definition iow_of (x : ev_watcher) : option iow :=
  '(_, fd, e) ← io_of x; Some (IoW fd e (bool_decide (active x <> 0))).

Definition io_map (l : ev_loop) : gmap W iow := omap iow_of (mem l).

Lemma iow_of_body x n fd e : body x = ev_io n fd e -> iow_of x = Some (IoW fd e (bool_decide (active x <> 0))).
Proof. unfold iow_of, io_of. by intros ->. Qed.

Lemma io_map_lookup l w i : io_map l !! w = Some i ->
  exists x n, mem l !! w = Some x /\ body x = ev_io n (i_fd i) (i_events i) /\ i_active i = bool_decide (active x <> 0).
Proof.
  unfold io_map. rewrite lookup_omap. destruct (mem l !! w) as [x|]; [|done]. simpl. unfold iow_of, io_of.
  destruct (body x) as [| n fd e |] eqn:Hb; try done. intros [= <-]. by exists x, n.
Qed.

Lemma omap_fmap_ext {A B C} (g : A -> B) (f : A -> option C) (m m' : gmap W A) :
  (forall x y, g x = g y -> f x = f y) -> g <$> m' = g <$> m -> omap f m' = omap f m.
Proof.
  intros Hg E. apply map_eq. intros w. apply (f_equal (lookup w)) in E. rewrite !lookup_fmap in E. rewrite !lookup_omap.
  destruct (m !! w) as [x|], (m' !! w) as [x'|]; try done. simpl in *. apply (inj Some) in E. by apply Hg.
Qed.

Lemma io_map_pending l l' : pending_frame l l' -> io_map l' = io_map l.
Proof.
  intros (m & pss & cnts & pri & -> & E). apply (omap_fmap_ext (with_pending 0)); [|exact E].
  intros [a p r b] [a' p' r' b']. simpl. intros [= -> -> ->]. done.
Qed.

Lemma iow_no_next x : iow_of (no_next x) = iow_of x.
Proof. unfold iow_of, io_of, no_next, set_next. destruct x as [a p r b]. by destruct b. Qed.

Lemma io_map_unlinked l : io_map l = omap iow_of (unlinked l).
Proof.
  apply map_eq. intros w. unfold io_map, unlinked. rewrite !lookup_omap, lookup_fmap.
  destruct (mem l !! w) as [x|]; [|done]. simpl. by rewrite iow_no_next.
Qed.

(** The descriptors that may be used. *)
Definition fd_limit : Z := 2 ^ 23.

(** [done]: the entries of the array of changes that fd_reify has dealt with. *)
Record io_state (l : ev_loop) (I : chains) (done todo : list Z) (P : queues) : Prop := IoState {
  ios_ok : io_ok (bare l) (anfds l) I todo;
  ios_changes : changes l (done ++ todo);
  ios_pending : pending_ok l P;
  ios_priorities : all_priorities l;
  ios_limit : forall fd, I fd <> [] \/ fd ∈ todo -> fd < fd_limit;
  ios_done : Z.of_nat (length done) <= 2 ^ 24;
  ios_user : io_map l !! pending_w = None /\ io_map l !! null = None;
}.

(** There are not more changed descriptors than descriptors. *)
Lemma todo_length l I d todo P : io_state l I d todo P -> Z.of_nat (length todo) <= fd_limit.
Proof.
  intros Hs. assert (length todo <= length (seqZ 0 fd_limit))%nat as H; [|rewrite length_seqZ in H; unfold fd_limit in *; lia].
  apply submseteq_length, NoDup_submseteq; [apply (ios_ok _ _ _ _ _ Hs)|]. intros fd Hfd. apply elem_of_seqZ.
  pose proof (io_range _ _ _ _ (ios_ok _ _ _ _ _ Hs) fd Hfd). pose proof (ios_limit _ _ _ _ _ Hs fd (or_intror Hfd)). lia.
Qed.

Definition mark (fd : Z) (todo : list Z) : list Z := if decide (fd ∈ todo) then todo else todo ++ [fd].
Definition remove (w : W) (ws : list W) : list W := List.filter (fun w' => negb (bool_decide (w' = w))) ws.

Lemma remove_notin w ws : w ∉ ws -> remove w ws = ws.
Proof.
  induction ws as [|w' ws IH]; intros H; [done|]. unfold remove in *. simpl. rewrite bool_decide_false by set_solver.
  simpl. f_equal. apply IH. set_solver.
Qed.

Lemma remove_mid w ws1 ws2 : NoDup (ws1 ++ w :: ws2) -> remove w (ws1 ++ w :: ws2) = ws1 ++ ws2.
Proof.
  intros [Hni Hnd]%NoDup_middle. unfold remove. rewrite List.filter_app. simpl. rewrite bool_decide_true by done.
  simpl. rewrite <- List.filter_app. apply remove_notin. done.
Qed.

Lemma or_nonzero r f : in_u 8 r -> in_u 8 f -> f <> 0 -> in_u 8 (u8 (r .| f)) /\ u8 (r .| f) <> 0.
Proof.
  intros Hr Hf H0. assert (in_u 8 (r .| f)) as H by (by apply in_u_lor). rewrite wrap_id by done. split; [done|].
  rewrite Z.lor_eq_0_iff. tauto.
Qed.

(** The list of changes when a descriptor is marked. *)
Lemma mark_app (r : Z) fd d todo :
  (r <> 0 <-> fd ∈ todo) -> (if r =? 0 then (d ++ todo) ++ [fd] else d ++ todo) = d ++ mark fd todo.
Proof.
  intros H. unfold mark. destruct (Z.eqb_spec r 0) as [E|E]; case_decide as D; try done.
  - by apply H in D.
  - by rewrite <- app_assoc.
  - by apply H in E.
Qed.

(** The events that are noted in the table stay, and descriptors that are to be
    registered anew. *)
Definition noted_frame (l l' : ev_loop) : Prop :=
  forall fd a', array_get (anfds l') fd = Some a' -> fd_events a' <> 0 -> reify a' .& EV__IOFDSET = 0 ->
    exists a, array_get (anfds l) fd = Some a /\ fd_events a = fd_events a' /\ reify a .& EV__IOFDSET = 0.

Definition zero_anfd : ANFD := Anfd null 0 0 0 0.

Lemma noted_frame_same l l' : anfds l' = anfds l -> noted_frame l l'.
Proof. intros E fd a'. rewrite E. eauto. Qed.

Lemma noted_frame_trans l1 l2 l3 : noted_frame l1 l2 -> noted_frame l2 l3 -> noted_frame l1 l3.
Proof.
  intros H1 H2 fd a3 Ha3 He Hr. destruct (H2 fd a3 Ha3 He Hr) as (a2 & Ha2 & E2 & Hr2).
  destruct (H1 fd a2 Ha2) as (a1 & Ha1 & E1 & Hr1); [congruence|done|]. exists a1. by rewrite E1.
Qed.

Lemma noted_insert l l' fs fd a a' :
  array_get fs fd = Some a ->
  (forall i, array_get fs i = array_get (anfds l) i \/ (array_get (anfds l) i = None /\ array_get fs i = Some zero_anfd)) ->
  anfds l' = <[Z.to_nat fd := a']> fs -> fd_events a' = fd_events a ->
  (reify a' .& EV__IOFDSET = 0 -> reify a .& EV__IOFDSET = 0) -> noted_frame l l'.
Proof.
  intros Ha Hext E Ee Hr i b. rewrite E.
  assert (forall c, array_get fs i = Some c -> fd_events c <> 0 -> array_get (anfds l) i = Some c) as Hback.
  { intros c Hc He. destruct (Hext i) as [<-|[_ H]]; [done|]. rewrite H in Hc. by injection Hc as <-. }
  destruct (decide (i = fd)) as [->|Hne].
  - rewrite (get_insert _ _ a) by done. intros [= <-] He Hr'. exists a. split_and!; [apply Hback; congruence|done|auto].
  - rewrite (get_insert_ne _ _ _ a) by done. intros Hb He Hr'. exists b. by split_and!; [apply Hback| |].
Qed.

Lemma flags_grow r f : in_u 8 r -> in_u 8 f -> u8 (r .| f) .& EV__IOFDSET = 0 -> r .& EV__IOFDSET = 0.
Proof.
  intros Hr Hf. rewrite wrap_id by (by apply in_u_lor). rewrite Z.land_lor_distr_l, Z.lor_eq_0_iff. tauto.
Qed.

(** ** Stopping *)

Definition deactivate (i : iow) : iow := IoW (i_fd i) (i_events i) false.

(** The watcher [w] is not active any more; links may have changed. *)
Definition inactivated (w : W) (l l' : ev_loop) : Prop := unlinked l' = alter (with_active 0) w (unlinked l).

Lemma inactivated_lookup w l l' w' :
  inactivated w l l' ->
  match mem l !! w', mem l' !! w' with
  | Some x, Some x' => no_next x' = (if decide (w' = w) then with_active 0 (no_next x) else no_next x)
  | None, None => True
  | _, _ => False
  end.
Proof.
  intros E. apply (f_equal (lookup w')) in E. unfold unlinked in E. rewrite lookup_fmap in E. case_decide as D.
  - subst w'. rewrite lookup_alter_eq, lookup_fmap in E.
    destruct (mem l !! w) as [x|], (mem l' !! w) as [x'|]; try done. by apply (inj Some) in E.
  - rewrite lookup_alter_ne, lookup_fmap in E by done.
    destruct (mem l !! w') as [x|], (mem l' !! w') as [x'|]; try done. by apply (inj Some) in E.
Qed.

Lemma inactivated_io_map w l l' : inactivated w l l' -> io_map l' = alter deactivate w (io_map l).
Proof.
  intros E. rewrite !io_map_unlinked, E. apply map_eq. intros w'. rewrite lookup_omap. destruct (decide (w' = w)) as [->|D].
  - rewrite !lookup_alter_eq, lookup_omap. destruct (unlinked l !! w) as [x|]; [|done]. simpl.
    unfold iow_of, io_of. simpl. by destruct (body x).
  - by rewrite !lookup_alter_ne, lookup_omap by done.
Qed.

Lemma inactivated_pending w l l' P :
  inactivated w l l' -> pending_ok l P -> pendings l' = pendings l -> pendingcnt l' = pendingcnt l -> pending_ok l' P.
Proof.
  intros E Hp E1 E2. apply (pending_ok_mem l); [done..|]. intros w'. pose proof (inactivated_lookup w l l' w' E) as H.
  destruct (mem l !! w') as [x|], (mem l' !! w') as [x'|]; try done.
  assert (pending (no_next x') = pending (no_next x) /\ priority (no_next x') = priority (no_next x)) as [F1 F2]
    by (rewrite H; by case_decide).
  assert (forall y, pending (no_next y) = pending y /\ priority (no_next y) = priority y) as G
    by (intros y; unfold no_next, set_next; by destruct (body y)).
  destruct (G x), (G x'). split; congruence.
Qed.

(** An io watcher that is active afterwards was active before. *)
Lemma inactivated_active w l l' w' x' n f e :
  inactivated w l l' -> bare l' !! w' = Some x' -> body x' = ev_io n f e -> active x' <> 0 ->
  w' <> w /\ exists x n', bare l !! w' = Some x /\ body x = ev_io n' f e /\ active x <> 0.
Proof.
  intros E Hx' Hb Ha. destruct (bare_back _ _ _ Hx') as (y' & Hy' & ->). simpl in Hb, Ha.
  pose proof (inactivated_lookup w l l' w' E) as H. rewrite Hy' in H. destruct (mem l !! w') as [y|] eqn:Hy; [|done].
  case_decide as D.
  - exfalso. apply Ha. apply (f_equal active) in H. simpl in H. unfold no_next, set_next in H. by rewrite Hb in H.
  - split; [done|]. apply no_next_eq in H as (Ea & _ & _ & Hbody). destruct (Hbody _ _ _ Hb) as [n' Hb'].
    exists (with_pending 0 y), n'. split; [by apply bare_lookup|]. split; [done|]. simpl. congruence.
Qed.

(** The watcher leaves its chain, and is not active any more. *)
Lemma unlink_ok l fd a ws1 w ws2 :
  array_get (anfds l) fd = Some a -> chain (bare l) fd (head a) (ws1 ++ w :: ws2) -> NoDup (ws1 ++ w :: ws2) ->
  exists l' a', (l ← wlist_del fd w l; ev_stop w l) = Some l' /\
    anfds l' = <[Z.to_nat fd := a']> (anfds l) /\ a' = with_head (head a') a /\
    chain (bare l') fd (head a') (ws1 ++ ws2) /\ (forall w', w' ∉ ws1 ++ [w] -> bare l' !! w' = bare l !! w') /\
    inactivated w l l' /\
    pendings l' = pendings l /\ pendingcnt l' = pendingcnt l /\ pendingpri l' = pendingpri l /\
    fdchanges l' = fdchanges l /\ fdchangecnt l' = fdchangecnt l /\ io_frame l l'.
Proof.
  intros Ha Hc Hnd. pose proof Hnd as [Hni _]%NoDup_middle.
  destruct (wlist_del_ok l fd a ws1 w ws2 Ha Hc Hnd)
    as (l2 & a' & -> & Ha' & Hfs & Ea' & Hc' & Hsame & Hun & Hpe & Hpc & Hpp & Hcs & Hcc & Hfr).
  cbn [mbind option_bind]. destruct (chain_elem _ _ _ _ w Hc) as (n & e & x & Hx & Hbx & _); [set_solver|].
  destruct (bare_back _ _ _ Hx) as (y & Hy & ->).
  assert (exists y2, mem l2 !! w = Some y2) as [y2 Hy2].
  { apply (f_equal (lookup w)) in Hun. unfold unlinked in Hun. rewrite !lookup_fmap, Hy in Hun. simpl in Hun.
    destruct (mem l2 !! w); [eauto|done]. }
  unfold ev_stop. rewrite (update_ok _ w y2 _) by exact Hy2. eexists _, a'. split; [done|].
  assert (forall w', w' <> w -> bare (set_mem (<[w := with_active 0 y2]> (mem l2)) l2) !! w' = bare l2 !! w') as Hother.
  { intros w' Hw'. rewrite bare_insert. by apply lookup_insert_ne. }
  split_and!; try done.
  - eapply chain_ext; [|exact Hc']. intros w' Hw'. apply Hother. by intros ->.
  - intros w' Hw'. rewrite Hother by set_solver. apply Hsame. set_solver.
  - unfold inactivated. rewrite <- Hun. unfold unlinked. simpl. rewrite fmap_insert.
    assert (no_next (with_active 0 y2) = with_active 0 (no_next y2)) as -> by (unfold no_next, set_next; by destruct y2 as [? ? ? []]).
    symmetry. apply map_eq. intros w'. destruct (decide (w' = w)) as [->|D].
    + by rewrite lookup_alter_eq, lookup_insert_eq, lookup_fmap, Hy2.
    + by rewrite lookup_alter_ne, lookup_insert_ne by done.
  - eapply io_frame_trans; [exact Hfr|]. split; [|done| |done].
    { transitivity (io_mask (set_mem (<[w := with_active 0 y2]> (mem l2)) l2)); [by destruct l2|].
      destruct (unlinked_back l l2 w y2 Hun Hy2) as (y' & Hy' & E). assert (y' = y) as -> by congruence.
      assert (timer_of y2 = None) as Ht by (rewrite <- timer_no_next, E, timer_no_next; by apply (no_timer _ n fd e)).
      by apply (io_mask_insert l2 w y2). }
    by apply (same_priorities_insert l2 _ w y2 (with_active 0 y2)).
Qed.

(** What stopping an active watcher gives, but for the queues. *)
Lemma stop_chain l fd I d todo P w x n e :
  io_state l I d todo P -> bare l !! w = Some x -> body x = ev_io n fd e -> active x <> 0 ->
  exists l', (l ← wlist_del fd w l; l ← ev_stop w l; fd_change fd EV_ANFD_REIFY l) = Some l' /\
    io_state l' (put I fd (remove w (I fd))) d (mark fd todo) P /\ io_frame l l' /\
    io_map l' = alter deactivate w (io_map l) /\
    (forall i, i <> fd -> array_get (anfds l') i = array_get (anfds l) i) /\ noted_frame l l' /\
    pendings l' = pendings l /\ pendingcnt l' = pendingcnt l /\ pendingpri l' = pendingpri l.
Proof.
  intros Hs Hx Hb Hact. pose proof Hs as [Hok Hch Hp Hpri Hlim Hd Huser].
  pose proof (io_active _ _ _ _ Hok w x n fd e Hx Hb Hact) as Hin.
  destruct (io_member _ _ _ _ _ _ Hok Hin) as (a & n0 & e0 & Ha & _).
  pose proof (io_nodup _ _ _ _ Hok fd) as Hnd. pose proof (io_chain _ _ _ _ Hok fd a Ha) as Hc.
  destruct (list_elem_of_split _ _ Hin) as (ws1 & ws2 & Hws).
  rewrite Hws in Hnd, Hc |- *. rewrite (remove_mid w ws1 ws2) by done. pose proof Hnd as [Hni Hnd']%NoDup_middle.
  destruct (unlink_ok l fd a ws1 w ws2 Ha Hc Hnd)
    as (l3 & a' & Hrun & Hfs & Ea' & Hc' & Hsame & Hina & Hpe & Hpc & Hpp & Hcs & Hcc & Hfr).
  assert (array_get (anfds l3) fd = Some a') as Ha' by (rewrite Hfs; by apply (get_insert _ _ a)).
  assert (changes l3 (d ++ todo)) as Hch3 by (unfold changes; by rewrite Hcc, Hcs).
  assert (Z.of_nat (length (d ++ todo)) < 2 ^ 25) as Hlen.
  { pose proof (todo_length _ _ _ _ _ Hs). unfold fd_limit in *. rewrite length_app. lia. }
  destruct (fd_change_ok l3 fd EV_ANFD_REIFY a' (d ++ todo) Ha' Hch3 Hlen)
    as (l4 & Hrun4 & Hm4 & Hpe4 & Hpc4 & Hpp4 & Hfs4 & Hch4 & Hfr4).
  destruct (io_reify _ _ _ _ Hok fd a Ha) as [Hr8 Hr]. destruct (io_sync _ _ _ _ Hok fd a Ha) as [He2 _].
  assert (reify a' = reify a) as Er by (by rewrite Ea').
  destruct (or_nonzero (reify a) EV_ANFD_REIFY Hr8) as [Hn8 Hn0]; [done|done|].
  assert (bare l4 = bare l3) as Hbare by (unfold bare; by rewrite Hm4).
  assert (inactivated w l l4) as Hina4 by (unfold inactivated, unlinked in *; by rewrite Hm4).
  assert (io_frame l l4) as Hframe by (by eapply io_frame_trans).
  destruct (wlist_del fd w l) as [l2|]; [|done]. cbn [mbind option_bind] in *. rewrite Hrun. cbn [mbind option_bind].
  exists l4. split; [done|]. split_and!; [split| |by apply inactivated_io_map| | |congruence..];
    [| | | | | | | |intros i Hi; rewrite Hfs4, Hfs, list_insert_insert_eq; by apply (get_insert_ne _ _ _ a)
     |apply (noted_insert l _ (anfds l) fd a (with_reify (u8 (reify a' .| EV_ANFD_REIFY)) a')); [done|auto|by rewrite Hfs4, Hfs, list_insert_insert_eq|by rewrite Ea'|cbn [reify with_reify]; rewrite Er; by apply flags_grow]]; [|
    |apply (inactivated_pending w l); congruence|apply (all_priorities_same l); [apply Hframe|done]| |done| |done].
  - rewrite Hfs4, Hfs, list_insert_insert_eq.
    eapply (io_ok_put _ _ _ _ _ _ fd); [exact Hok| |by apply extends_insert with a|by rewrite length_insert
      |by apply (get_insert _ _ a)| |done| |by rewrite Er|by rewrite Er|by rewrite Ea'].
    + intros w' fd' Hne Hw'. assert (w' ∉ I fd) as Hnin by (intros Hi; apply Hne; by apply (io_one _ _ _ _ _ _ w' Hok)).
      rewrite Hws in Hnin. rewrite Hbare. apply Hsame. set_solver.
    + by rewrite Hbare.
    + intros w' x' n' f e' Hx' Hb' Ha0. destruct (inactivated_active w l l4 w' x' n' f e') as (Hne & z & n2 & Hz & Hbz & Haz); [done..|].
      pose proof (io_active _ _ _ _ Hok w' z n2 f e' Hz Hbz Haz) as Hin'. unfold put. case_decide as Ef; [|done].
      rewrite Ef, Hws in Hin'. set_solver.
  - rewrite Er in Hch4. by rewrite (mark_app _ fd d todo Hr) in Hch4.
  - intros fd' H. apply Hlim. unfold put, mark in H. destruct (decide (fd' = fd)) as [->|Hne].
    + left. rewrite Hws. by destruct ws1.
    + destruct H as [H|H]; [by left|]. case_decide; [by right|]. apply elem_of_app in H as [?|?]; [by right|set_solver].
  - rewrite (inactivated_io_map w l l4 Hina4), !lookup_alter_None. done.
Qed.

Lemma io_state_frame l l' I d todo P P' :
  io_state l I d todo P -> pending_frame l l' -> pending_ok l' P' -> io_state l' I d todo P'.
Proof.
  intros [Hok Hch Hp Hpri Hlim Hd Huser] Hf Hp'. destruct (pending_changes _ _ Hf) as (E1 & E2 & E3).
  split; rewrite ?(pending_bare _ _ Hf), ?E1, ?(io_map_pending _ _ Hf); try done.
  - unfold changes in *. by rewrite E2, E3.
  - by apply (all_priorities_same l); [apply frame_priorities|].
Qed.

(** A watcher of the client. *)
Lemma io_watcher_user l I d todo P w i :
  io_state l I d todo P -> io_map l !! w = Some i ->
  exists x n, mem l !! w = Some x /\ body x = ev_io n (i_fd i) (i_events i) /\
    i_active i = bool_decide (active x <> 0) /\ w <> pending_w /\ w <> null /\ priority_ok x.
Proof.
  intros Hs Hw. destruct (io_map_lookup l w i Hw) as (x & n & Hx & Hb & Ha). exists x, n.
  destruct (ios_user _ _ _ _ _ Hs) as [H1 H2].
  split_and!; [done..|congruence|congruence|by apply (ios_priorities _ _ _ _ _ Hs w)].
Qed.

(** What the operations do to the chains and the changes. *)
Definition stop_chains (w : W) (i : iow) (I : chains) : chains :=
  if i_active i then put I (i_fd i) (remove w (I (i_fd i))) else I.
Definition stop_todo (i : iow) (todo : list Z) : list Z := if i_active i then mark (i_fd i) todo else todo.

Lemma io_stop_ok l I d todo P w i :
  io_state l I d todo P -> io_map l !! w = Some i ->
  exists l', ev_io_stop w l = Some l' /\
    io_state l' (stop_chains w i I) d (stop_todo i todo) (cleared P w (prio l w)) /\ io_frame l l' /\
    io_map l' = alter deactivate w (io_map l) /\ (forall n, roomy n l -> roomy n l') /\
    (forall j, j <> i_fd i -> array_get (anfds l') j = array_get (anfds l) j) /\ noted_frame l l'.
Proof.
  intros Hs Hw. destruct (io_watcher_user _ _ _ _ _ _ _ Hs Hw) as (x & n & Hx & Hb & Ha & Hwp & _ & Hxp).
  pose proof (ios_pending _ _ _ _ _ Hs) as Hp.
  destruct (clear_pending_ok l P w x Hp Hx) as (l1 & Hrun & Hp1 & Hf & Hm1 & _ & Hroom).
  assert (pending_ok l1 (cleared P w (prio l w))) as Hp1'.
  { apply (cleared_either l l1 P w x Hp Hx Hwp Hxp). intros P0 HP0.
    destruct (clear_pending_ok l P0 w x HP0 Hx) as (l2 & Hrun2 & Hp2 & _). by assert (l2 = l1) as -> by congruence. }
  pose proof (io_state_frame l l1 _ _ _ _ _ Hs Hf Hp1') as Hs1.
  unfold ev_io_stop. rewrite Hrun. cbn [mbind option_bind]. rewrite Hm1, lookup_insert_eq. cbn [mbind option_bind active with_pending].
  unfold stop_chains, stop_todo. rewrite Ha. destruct (Z.eqb_spec (active x) 0) as [E|E].
  - rewrite bool_decide_false by auto. exists l1. split_and!; [done|done|by apply pending_io_frame| |done|by destruct (pending_changes _ _ Hf) as [-> _]|apply noted_frame_same; by destruct (pending_changes _ _ Hf)].
    rewrite (io_map_pending _ _ Hf). apply map_eq. intros w'. destruct (decide (w' = w)) as [->|Hne]; [|by rewrite lookup_alter_ne].
    rewrite lookup_alter_eq, Hw. simpl. destruct i as [f e b]. simpl in *. by rewrite Ha, bool_decide_false by auto.
  - rewrite bool_decide_true by done.
    assert (bare l1 !! w = Some (with_pending 0 x)) as Hx1 by (rewrite (pending_bare _ _ Hf); by apply bare_lookup).
    destruct (stop_chain l1 (i_fd i) I d todo _ w _ n (i_events i) Hs1 Hx1 Hb E)
      as (l2 & Hrun2 & Hs2 & Hf2 & Hm2 & Ho2 & Hno2 & Hpe & Hpc & Hpp).
    pose proof (io_active _ _ _ _ (ios_ok _ _ _ _ _ Hs1) w _ n _ _ Hx1 Hb E) as Hin.
    destruct (io_member _ _ _ _ _ _ (ios_ok _ _ _ _ _ Hs1) Hin) as (a & _ & _ & [Hr _]%array_get_Some & _).
    unfold io_of at 1. cbn [body with_pending]. rewrite Hb. cbn [mbind option_bind].
    rewrite (proj2 (Z.leb_le _ _)), (proj2 (Z.ltb_lt _ _)) by lia. cbn [andb negb]. rewrite Hrun2.
    exists l2. split_and!; [done|done| |by rewrite Hm2, (io_map_pending _ _ Hf)| | |].
    + eapply io_frame_trans; [by apply pending_io_frame|done].
    + intros k Hk pri q Hq. rewrite (stack_same l1) in Hq by congruence. by apply (Hroom k Hk pri q).
    + intros j Hj. rewrite Ho2 by done. by destruct (pending_changes _ _ Hf) as [-> _].
    + eapply noted_frame_trans; [|done]. apply noted_frame_same. by destruct (pending_changes _ _ Hf).
Qed.

(** ** Starting *)

Definition legal (events : Z) : bool := events .& Z.lnot (EV__IOFDSET .| EV_READ .| EV_WRITE) =? 0.

Lemma legal_mask e : legal e = true -> in_u 2 (e .& Z.lnot EV__IOFDSET).
Proof.
  unfold legal. intros He%Z.eqb_eq.
  assert (e .& Z.lnot EV__IOFDSET = e .& Z.ones 2) as ->.
  { apply Z.bits_inj'. intros j Hj. apply (f_equal (fun z => Z.testbit z j)) in He.
    change (EV__IOFDSET .| EV_READ .| EV_WRITE) with (EV__IOFDSET .| Z.ones 2) in He.
    rewrite Z.land_spec, Z.lnot_spec, Z.lor_spec, Z.testbit_0_l in He by done.
    rewrite !Z.land_spec, Z.lnot_spec by done.
    destruct (Z.testbit e j), (Z.testbit EV__IOFDSET j) eqn:H7, (Z.testbit (Z.ones 2) j) eqn:H3; try done.
    rewrite Z.testbit_ones_nonneg, Z.ltb_lt in H3 by lia.
    assert (j = 0 \/ j = 1) as [-> | ->] by lia; done. }
  rewrite Z.land_ones by done. by apply Z.mod_pos_bound.
Qed.

Lemma start_flags e : exists f, e .& EV__IOFDSET .| EV_ANFD_REIFY = f /\ in_u 8 f /\ f <> 0.
Proof.
  eexists. split; [done|]. split; [|rewrite Z.lor_eq_0_iff; by intros [_ ?]].
  apply in_u_lor; [done| |done]. rewrite Z.land_comm. by apply in_u_land_l.
Qed.

Lemma pri_adjust_id x : priority_ok x -> pri_adjust x = x.
Proof.
  unfold priority_ok, ABSPRI, NUMPRI, pri_adjust, EV_MAXPRI, EV_MINPRI. intros H.
  destruct (Z.ltb_spec (priority x) (-2)); [lia|]. destruct (Z.ltb_spec 2 (priority x)); [lia|]. by destruct x.
Qed.

(** Room for a descriptor in the table. *)
Lemma room_ok (fs : list ANFD) fd :
  0 <= fd < fd_limit ->
  exists fs' a, array_needsize 16 fs (fd + 1) zero_anfd = Some fs' /\ array_get fs' fd = Some a /\
    (length fs <= length fs')%nat /\
    (forall i, array_get fs' i = array_get fs i \/ (array_get fs i = None /\ array_get fs' i = Some zero_anfd) ).
Proof.
  intros Hfd. destruct (needsize_replicate 16 fs (fd + 1) zero_anfd) as (k & Hk & Hlen); [lia|unfold fd_limit in *; lia|].
  destruct (array_get_range (fs ++ replicate k zero_anfd) fd) as [a Ha]; [lia|].
  exists (fs ++ replicate k zero_anfd), a. split_and!; [done|done|rewrite length_app; lia|].
  intros i. destruct (Z_lt_le_dec i (Z.of_nat (length fs))) as [Hi|Hi]; [left; by apply array_get_app_l|].
  assert (array_get fs i = None) as Hnone.
  { destruct (array_get fs i) eqn:E; [|done]. apply array_get_Some in E as [? _]. lia. }
  destruct (array_get (fs ++ replicate k zero_anfd) i) as [b|] eqn:E; [|left; congruence]. right. split; [done|].
  apply array_get_Some in E as [_ E]. rewrite lookup_app_r in E by lia. by apply lookup_replicate in E as [-> _].
Qed.

Definition start_chains (w : W) (i : iow) (I : chains) : chains :=
  if i_active i then I else put I (i_fd i) (w :: I (i_fd i)).
Definition start_todo (i : iow) (todo : list Z) : list Z := if i_active i then todo else mark (i_fd i) todo.
Definition activate (i : iow) : iow :=
  if i_active i then i else IoW (i_fd i) (i_events i .& Z.lnot EV__IOFDSET) true.

(** The watcher after ev_io_start. *)
Definition started (x : ev_watcher) (n : W) (fd e : Z) : ev_watcher :=
  Watcher 1 (pending x) (priority x) (ev_io n fd (e .& Z.lnot EV__IOFDSET)).

(** The steps of ev_io_start, put together. *)
Lemma io_start_run l w x n fd e cs :
  mem l !! w = Some x -> body x = ev_io n fd e -> active x = 0 -> priority_ok x -> 0 <= fd < fd_limit ->
  legal e = true -> changes l cs -> Z.of_nat (length cs) < 2 ^ 25 ->
  (forall a, array_get (anfds l) fd = Some a -> head a <> w) -> w <> null ->
  exists l' fs a f, ev_io_start w l = Some l' /\
    mem l' = <[w := started x (head a) fd e]> (mem l) /\
    array_get fs fd = Some a /\ (length (anfds l) <= length fs)%nat /\
    (forall i, array_get fs i = array_get (anfds l) i \/ (array_get (anfds l) i = None /\ array_get fs i = Some zero_anfd)) /\
    in_u 8 f /\ f <> 0 /\
    anfds l' = <[Z.to_nat fd := with_reify (u8 (reify a .| f)) (with_head w a)]> fs /\
    changes l' (if reify a =? 0 then cs ++ [fd] else cs) /\
    pendings l' = pendings l /\ pendingcnt l' = pendingcnt l /\ pendingpri l' = pendingpri l /\ io_frame l l'.
Proof.
  intros Hx Hb Ha Hpri Hfd Hleg Hch Hlen Hhead Hw0. unfold ev_io_start. rewrite Hx. cbn [mbind option_bind].
  rewrite (proj2 (io_of_body x n fd e) Hb). cbn [mbind option_bind]. rewrite Ha. cbn [negb Z.eqb].
  rewrite (proj2 (Z.ltb_ge _ _)) by lia. fold (legal e). rewrite Hleg. cbn [negb].
  unfold ev_start. rewrite (update_ok l w x _ Hx). cbn [mbind option_bind]. rewrite pri_adjust_id by done.
  destruct (room_ok (anfds l) fd Hfd) as (fs & a & Hfs & Hget & Hl & Hext).
  change (anfds (ev_ref _)) with (anfds l). unfold zero_anfd in Hfs. rewrite Hfs. cbn [mbind option_bind].
  unfold wlist_add. cbn [anfds set_anfds]. rewrite Hget. cbn [mbind option_bind].
  erewrite update_ok by (cbn [mem set_anfds ev_ref set_activecnt set_mem]; by rewrite lookup_insert_eq).
  cbn [mbind option_bind]. erewrite anfd_update_ok by exact Hget. cbn [mbind option_bind].
  set (l1 := set_anfds _ _).
  assert (mem l1 = <[w := Watcher 1 (pending x) (priority x) (ev_io (head a) fd e)]> (mem l)) as Hm1.
  { subst l1. cbn [mem set_anfds set_mem ev_ref set_activecnt]. rewrite insert_insert_eq. f_equal.
    unfold set_next. cbn [body with_active]. by rewrite Hb. }
  assert (get_link fd (Some w) l1 = Some (head a)) as ->.
  { unfold get_link. rewrite Hm1, lookup_insert_eq. done. }
  cbn [mbind option_bind]. rewrite (proj2 (Z.eqb_neq _ _)).
  2: { destruct (Hext fd) as [E|[_ E]]; [apply Hhead; congruence|]. rewrite E in Hget. injection Hget as <-. simpl. congruence. }
  destruct (start_flags e) as (f & -> & Hf8 & Hf0).
  assert (array_get (anfds l1) fd = Some (with_head w a)) as Hget1 by (subst l1; by apply (get_insert _ _ a)).
  destruct (fd_change_ok l1 fd f _ cs Hget1) as (l2 & -> & Hm2 & Hpe & Hpc & Hpp & Hfs2 & Hch2 & Hfr); [done|done|].
  cbn [mbind option_bind]. erewrite update_ok by (rewrite Hm2, Hm1; by rewrite lookup_insert_eq).
  eexists _, fs, a, f. split; [done|]. split_and!; try done.
  - cbn [mem set_mem]. rewrite Hm2, Hm1, insert_insert_eq. done.
  - cbn [anfds set_mem]. rewrite Hfs2. subst l1. cbn [anfds set_anfds]. by rewrite list_insert_insert_eq.
  - split; [| | |].
    4:{ cbn [anfds set_mem]. rewrite Hfs2. subst l1. cbn [anfds set_anfds]. by rewrite !length_insert. }
    + transitivity (io_mask l2).
      { eapply io_mask_insert; [by rewrite Hm2, Hm1, lookup_insert_eq|done|done]. }
      rewrite (if_mask _ _ Hfr). apply io_mask_mem; [rewrite Hm1|subst l1; by destruct l].
      apply (clocks_insert _ _ x); [done|by apply (no_timer _ n fd e)|done].
    + intros i. change (marks l2 i = marks l i). rewrite (if_marks _ _ Hfr). unfold marks.
      change (anfds l1) with (<[Z.to_nat fd := with_head w a]> fs).
      destruct (decide (i = fd)) as [->|Hne].
      * rewrite (get_insert _ _ a) by done. simpl. destruct (Hext fd) as [E|[E1 E2]].
        -- by rewrite <- E, Hget.
        -- rewrite E1. rewrite E2 in Hget. by injection Hget as <-.
      * rewrite (get_insert_ne fs fd i a (with_head w a)) by done.
        destruct (Hext i) as [->|[-> ->]]; done.
    + apply (same_priorities_insert l _ w x (started x (head a) fd e)); [done|done|].
      cbn [mem set_mem]. by rewrite Hm2, Hm1, insert_insert_eq.
Qed.

(** An entry of the table, new or old. *)
Lemma entry_ok m fs I todo fs' fd a :
  io_ok m fs I todo -> array_get fs' fd = Some a ->
  array_get fs' fd = array_get fs fd \/ (array_get fs fd = None /\ array_get fs' fd = Some zero_anfd) ->
  chain m fd (head a) (I fd) /\ in_u 8 (reify a) /\ (reify a <> 0 <-> fd ∈ todo) /\ in_u 2 (fd_events a).
Proof.
  intros Hok Ha [E|[E1 E2]].
  - rewrite E in Ha. destruct (io_reify _ _ _ _ Hok fd a Ha), (io_sync _ _ _ _ Hok fd a Ha).
    split_and!; try done; try tauto. by apply (io_chain _ _ _ _ Hok).
  - rewrite E2 in Ha. injection Ha as <-. rewrite (io_none _ _ _ _ Hok fd E1). split_and!; try done.
    split; [done|]. intros Hin. apply (io_range _ _ _ _ Hok) in Hin.
    destruct (array_get_range fs fd Hin). congruence.
Qed.

Lemma io_start_ok l I d todo P w i :
  io_state l I d todo P -> io_map l !! w = Some i ->
  (i_active i = false -> 0 <= i_fd i < fd_limit /\ legal (i_events i) = true) ->
  exists l', ev_io_start w l = Some l' /\
    io_state l' (start_chains w i I) d (start_todo i todo) P /\ io_frame l l' /\
    io_map l' = alter activate w (io_map l) /\ noted_frame l l' /\ (forall n, roomy n l -> roomy n l').
Proof.
  intros Hs Hw Hi. destruct (io_watcher_user _ _ _ _ _ _ _ Hs Hw) as (x & n & Hx & Hb & Ha & Hwp & Hw0 & Hxp).
  pose proof Hs as [Hok Hch Hp Hpri Hlim Hd Huser].
  assert (io_map l = <[w := i]> (io_map l)) as Hid by (symmetry; by apply insert_id).
  assert (alter activate w (io_map l) = <[w := activate i]> (io_map l)) as ->.
  { apply map_eq. intros w'. destruct (decide (w' = w)) as [->|]; [by rewrite lookup_alter_eq, lookup_insert_eq, Hw|].
    by rewrite lookup_alter_ne, lookup_insert_ne. }
  unfold start_chains, start_todo, activate. destruct (i_active i) eqn:Hact.
  { symmetry in Ha. apply bool_decide_eq_true in Ha. unfold ev_io_start. rewrite Hx. cbn [mbind option_bind].
    rewrite (proj2 (io_of_body _ _ _ _) Hb). cbn [mbind option_bind]. rewrite (proj2 (Z.eqb_neq _ _) Ha). cbn [negb].
    exists l. split_and!; try done. by apply noted_frame_same. }
  destruct (Hi eq_refl) as [Hfd Hleg]. symmetry in Ha. apply bool_decide_eq_false in Ha.
  assert (active x = 0) as Ha0 by (destruct (decide (active x = 0)); [done|by destruct Ha]).
  assert (forall fd, w ∉ I fd) as Hnotin.
  { intros fd Hin. destruct (io_member _ _ _ _ _ _ Hok Hin) as (_ & _ & _ & _ & y & Hy & _ & Hya & _).
    rewrite (bare_lookup _ _ _ Hx) in Hy. injection Hy as <-. simpl in Hya. lia. }
  assert (Z.of_nat (length (d ++ todo)) < 2 ^ 25) as Hlen.
  { pose proof (todo_length _ _ _ _ _ Hs). unfold fd_limit in *. rewrite length_app. lia. }
  destruct (io_start_run l w x n (i_fd i) (i_events i) (d ++ todo)) as
    (l' & fs & a & f & Hrun & Hm & Hget & Hl & Hext & Hf8 & Hf0 & Hfs & Hch' & Hpe & Hpc & Hpp & Hfr); try done.
  { intros a Hget. pose proof (io_chain _ _ _ _ Hok _ a Hget) as Hc. specialize (Hnotin (i_fd i)).
    destruct (I (i_fd i)) as [|w1 ws]; simpl in Hc; [congruence|]. destruct Hc as [-> _]. set_solver. }
  destruct (entry_ok _ _ _ _ fs (i_fd i) a Hok Hget (Hext _)) as (Hc & Hr8 & Hr & He2).
  assert (bare l' = <[w := with_pending 0 (started x (head a) (i_fd i) (i_events i))]> (bare l)) as Hbare.
  { unfold bare. rewrite Hm. by rewrite fmap_insert. }
  assert (forall w', w' <> w -> bare l' !! w' = bare l !! w') as Hother by (intros; rewrite Hbare; by apply lookup_insert_ne).
  destruct (or_nonzero (reify a) f Hr8 Hf8 Hf0) as [Hn8 Hn0].
  assert (io_map l' = <[w := IoW (i_fd i) (i_events i .& Z.lnot EV__IOFDSET) true]> (io_map l)) as Hiomap.
  { unfold io_map. rewrite Hm. by apply omap_insert_Some. }
  exists l'. split; [done|]. split_and!; [split|done|done| |].
  - rewrite Hfs. eapply (io_ok_put _ _ _ _ _ _ (i_fd i)); [exact Hok| | | |by apply (get_insert _ _ a)| | | |done|done|done].
    + intros w' fd' _ Hw'. apply Hother. intros ->. by apply (Hnotin fd').
    + intros fd' Hne. rewrite (get_insert_ne fs _ _ a) by done. apply Hext.
    + by rewrite length_insert.
    + cbn [head with_reify with_head]. split; [done|]. exists (head a), (i_events i .& Z.lnot EV__IOFDSET). split.
      * exists (with_pending 0 (started x (head a) (i_fd i) (i_events i))). rewrite Hbare, lookup_insert_eq.
        split_and!; try done. by apply legal_mask.
      * eapply chain_ext; [|exact Hc]. intros w' Hw'. apply Hother. intros ->. by apply (Hnotin (i_fd i)).
    + constructor; [apply Hnotin|apply (io_nodup _ _ _ _ Hok)].
    + intros w' x' n' fd' e' Hx' Hb' Hact'. unfold put. destruct (decide (w' = w)) as [->|Hne].
      * rewrite Hbare, lookup_insert_eq in Hx'. injection Hx' as <-. simpl in Hb'. injection Hb' as _ <- _.
        rewrite decide_True by done. by left.
      * rewrite Hother in Hx' by done. pose proof (io_active _ _ _ _ Hok w' x' n' fd' e' Hx' Hb' Hact').
        case_decide; [subst; by right|done].
  - by rewrite (mark_app _ _ d todo Hr) in Hch'.
  - apply (pending_ok_insert l P w x (started x (head a) (i_fd i) (i_events i))); try done. by rewrite Hm.
  - by apply (all_priorities_same l); [apply Hfr|].
  - intros fd' H. unfold put, mark in H. destruct (decide (fd' = i_fd i)) as [->|Hne]; [lia|]. apply Hlim.
    destruct H as [H|H]; [by left|]. case_decide; [by right|]. apply elem_of_app in H as [?|?]; [by right|set_solver].
  - done.
  - rewrite Hiomap, !lookup_insert_ne by congruence. done.
  - apply (noted_insert l l' fs (i_fd i) a (with_reify (u8 (reify a .| f)) (with_head w a))); try done.
    cbn [reify with_reify]. by apply flags_grow.
  - intros k Hk pri q Hq. rewrite (stack_same l) in Hq by congruence. by apply (Hk pri q).
Qed.
