(* ===== verification/EvIoEvents.v ===== *)
(** Events of the io watchers of EvIo.v: setting a watcher, feeding the events
    of a descriptor to its watchers, and stopping all of them with an error. The
    contract: scripts of calls of a client act on a map of watchers, on the chains
    of active watchers and on the queues of pending events. *)
From S2P Require Import Prelude EvTime Ev EvPending EvTimer EvIo EvIoRep EvIoOps.

Open Scope c_scope.

(** Equal chains. *)
Lemma io_ok_ext m fs I I' todo : (forall fd, I' fd = I fd) -> io_ok m fs I todo -> io_ok m fs I' todo.
Proof.
  intros E [H1 H2 H3 H4 H5 H6 H7 H8]. split; try done; intros; rewrite ?E; eauto.
Qed.

Lemma io_state_ext l I I' d todo P : (forall fd, I' fd = I fd) -> io_state l I d todo P -> io_state l I' d todo P.
Proof.
  intros E [H1 H2 H3 H4 H5 H6 H7]. split; try done; [by apply (io_ok_ext _ _ I)|].
  intros fd. rewrite E. apply H5.
Qed.

(** Watchers in no chain may change. *)
Lemma io_ok_mem m m' fs I todo :
  (forall w fd, w ∈ I fd -> m' !! w = m !! w) ->
  (forall w x n fd e, m' !! w = Some x -> body x = ev_io n fd e -> active x <> 0 -> w ∈ I fd) ->
  io_ok m fs I todo -> io_ok m' fs I todo.
Proof.
  intros Hm Ha [H1 H2 H3 H4 H5 H6 H7 H8]. split; try done.
  - intros fd a Hfd. eapply chain_ext; [|by apply H1]. intros w. apply Hm.
  - intros fd a Hfd. destruct (H8 fd a Hfd) as [G1 G2]. split; [done|]. intros E. rewrite (G2 E).
    symmetry. apply interest_ext. intros w. apply Hm.
Qed.

(** ** ev_io_set *)

Lemma io_set_ok l I d todo P w i fd ev :
  io_state l I d todo P -> io_map l !! w = Some i -> i_active i = false ->
  exists l', ev_io_set w fd ev l = Some l' /\ io_state l' I d todo P /\ io_frame l l' /\
    io_map l' = <[w := IoW fd (ev .| EV__IOFDSET) false]> (io_map l) /\ noted_frame l l' /\ (forall n, roomy n l -> roomy n l').
Proof.
  intros Hs Hw Hact. destruct (io_watcher_user _ _ _ _ _ _ _ Hs Hw) as (x & n & Hx & Hb & Ha & Hwp & Hw0 & Hxp).
  pose proof Hs as [Hok Hch Hp Hpri Hlim Hd Huser].
  rewrite Hact in Ha. symmetry in Ha. apply bool_decide_eq_false in Ha.
  assert (active x = 0) as Ha0 by (destruct (decide (active x = 0)); [done|by destruct Ha]).
  unfold ev_io_set. rewrite (update_ok l w x _ Hx). rewrite Hb. eexists. split; [done|].
  set (x' := with_body _ x).
  assert (io_map (set_mem (<[w := x']> (mem l)) l) = <[w := IoW fd (ev .| EV__IOFDSET) false]> (io_map l)) as Hmap.
  { unfold io_map. simpl. apply omap_insert_Some. unfold iow_of, io_of. simpl. rewrite bool_decide_false by auto. done. }
  assert (forall fd, w ∉ I fd) as Hnotin.
  { intros f Hin. destruct (io_member _ _ _ _ _ _ Hok Hin) as (_ & _ & _ & _ & y & Hy & _ & Hya & _).
    rewrite (bare_lookup _ _ _ Hx) in Hy. injection Hy as <-. simpl in Hya. lia. }
  assert (same_priorities l (set_mem (<[w := x']> (mem l)) l)) as Hsp by (by apply (same_priorities_insert l _ w x x')).
  split_and!; [split|split|done|by apply noted_frame_same|done]; try done.
  - rewrite bare_insert. apply (io_ok_mem (bare l)); [| |done].
    + intros w' f Hw'. apply lookup_insert_ne. intros ->. by apply (Hnotin f).
    + intros w' y m f e Hy Hbody Hactive. destruct (decide (w' = w)) as [->|Hne].
      * rewrite lookup_insert_eq in Hy. injection Hy as <-. simpl in Hactive. lia.
      * rewrite lookup_insert_ne in Hy by done. by apply (io_active _ _ _ _ Hok w' y m f e).
  - by apply (pending_ok_insert l P w x x').
  - by apply (all_priorities_same l).
  - rewrite Hmap, !lookup_insert_ne by congruence. done.
  - apply (io_mask_insert l w x x'); [done|by apply (no_timer _ n (i_fd i) (i_events i))|done].
Qed.

(** ** Marks *)

Lemma deactivate_commute (m : gmap W iow) w ws :
  foldr (alter deactivate) (alter deactivate w m) ws = alter deactivate w (foldr (alter deactivate) m ws).
Proof.
  induction ws as [|w' ws IH]; [done|]. simpl. rewrite IH. destruct (decide (w = w')) as [->|Hne]; [done|].
  by apply alter_alter_ne.
Qed.

Lemma mark_elem fd todo : fd ∈ mark fd todo.
Proof. unfold mark. case_decide; [done|]. set_solver. Qed.

Lemma mark_subset fd todo i : i ∈ todo -> i ∈ mark fd todo.
Proof. intros H. unfold mark. case_decide; [done|set_solver]. Qed.

Lemma mark_twice fd todo : mark fd (mark fd todo) = mark fd todo.
Proof. unfold mark at 1. rewrite decide_True; [done|]. apply mark_elem. Qed.

(** ** Feeding *)

Section feeding.
Context (pri : W -> Z).

(** The queues when the watchers of a chain are fed what they wait for. *)
Definition fd_fed (m : gmap W ev_watcher) (revents : Z) (ws : list W) (P : queues) : queues :=
  foldl (fun P w => let ev := mask_of m w .& revents in if ev =? 0 then P else fed P w (pri w) ev) P ws.

Lemma fd_event_loop_ok fd ws p l P revents fuel :
  chain (bare l) fd p ws -> (forall w, prio l w = pri w) -> pending_ok l P ->
  roomy (Z.of_nat (length ws)) l -> (length ws < fuel)%nat ->
  exists l', fd_event_loop fuel p revents l = Some l' /\ pending_ok l' (fd_fed (bare l) revents ws P) /\
    pending_frame l l' /\ forall n, roomy (n + Z.of_nat (length ws)) l -> roomy n l'.
Proof.
  revert p l P fuel. induction ws as [|w ws IH]; intros p l P fuel Hc Hpri Hp Hroom Hf;
    (destruct fuel as [|fuel]; [simpl in Hf; lia|]); cbn [fd_event_loop].
  - simpl in Hc. rewrite Hc. exists l. split_and!; [done|done|by apply pending_frame_refl|].
    intros n Hn pr q Hq. specialize (Hn pr q Hq). simpl in Hn. lia.
  - destruct Hc as [-> (n & e & Hw & Hc)]. pose proof Hw as (x & Hx & Hb & _ & Hxp & _ & Hw0 & Hwp).
    destruct (bare_back _ _ _ Hx) as (y & Hy & ->). simpl in Hb.
    rewrite (proj2 (Z.eqb_neq _ _)) by exact Hw0. rewrite Hy. cbn [mbind option_bind].
    rewrite (proj2 (io_of_body y n fd e) Hb). cbn [mbind option_bind fd_fed foldl].
    rewrite (mask_of_io _ _ _ _ _ Hw). set (ev := e .& revents).
    assert (exists l1, (if negb (ev =? 0) then ev_feed_event w ev l else Some l) = Some l1 /\
      pending_ok l1 (if ev =? 0 then P else fed P w (pri w) ev) /\ pending_frame l l1 /\
      forall k, roomy (k + 1) l -> roomy k l1) as (l1 & Hrun & Hp1 & Hf1 & Hr1).
    { destruct (ev =? 0); cbn [negb].
      - exists l. split_and!; [done|done|apply pending_frame_refl|]. intros k Hk pr q Hq. specialize (Hk pr q Hq). lia.
      - destruct (feed_event_ok l P w y ev Hp) as (l1 & Hrun & Hp1 & Hf1 & _ & Hr1); try done.
        + intros pr q Hq. specialize (Hroom pr q Hq). simpl in Hroom. lia.
        + exists l1. split_and!; try done. rewrite <- Hpri. unfold prio. by rewrite Hy. }
    rewrite Hrun. cbn [mbind option_bind]. pose proof (pending_bare _ _ Hf1) as Hb1.
    assert (bare l1 !! w = Some (with_pending 0 y)) as Hx1 by (by rewrite Hb1).
    destruct (bare_back _ _ _ Hx1) as (y1 & Hy1 & Ey1). rewrite Hy1. cbn [mbind option_bind].
    assert (body y1 = ev_io n fd e) as Hb'. { rewrite <- Hb. change (body (with_pending 0 y1) = body (with_pending 0 y)). by rewrite Ey1. }
    rewrite (proj2 (io_of_body y1 n fd e) Hb'). cbn [mbind option_bind].
    destruct (IH n l1 (if ev =? 0 then P else fed P w (pri w) ev) fuel) as (l2 & Hrun2 & Hp2 & Hf2 & Hr2).
    + by rewrite Hb1.
    + intros w'. rewrite <- Hpri. apply prio_same. by apply frame_priorities.
    + done.
    + apply Hr1. intros pr q Hq. specialize (Hroom pr q Hq). simpl in Hroom. lia.
    + simpl in Hf. lia.
    + exists l2. split_and!; [done|by rewrite Hb1 in Hp2|by eapply pending_frame_trans|].
      intros k Hk. apply Hr2, Hr1. intros pr q Hq. specialize (Hk pr q Hq). simpl in Hk. lia.
Qed.

(** The queues after fd_event: a descriptor that changed is left out. *)
Lemma fd_event_ok fd l I d todo P a revents :
  io_state l I d todo P -> array_get (anfds l) fd = Some a -> (forall w, prio l w = pri w) ->
  roomy (Z.of_nat (length (I fd))) l ->
  exists l', fd_event fd revents l = Some l' /\
    io_state l' I d todo (if decide (fd ∈ todo) then P else fd_fed (bare l) revents (I fd) P) /\ pending_frame l l' /\
    forall n, roomy (n + Z.of_nat (length (I fd))) l -> roomy n l'.
Proof.
  intros Hs Ha Hpri Hroom. pose proof (ios_ok _ _ _ _ _ Hs) as Hok. unfold fd_event. rewrite Ha. cbn [mbind option_bind].
  destruct (io_reify _ _ _ _ Hok fd a Ha) as [_ Hr]. destruct (Z.eqb_spec (reify a) 0) as [E|E].
  - rewrite decide_False by (rewrite <- Hr; congruence). unfold fd_event_nocheck. rewrite Ha. cbn [mbind option_bind].
    pose proof (io_chain _ _ _ _ Hok fd a Ha) as Hc.
    destruct (fd_event_loop_ok fd (I fd) (head a) l P revents (S (size (mem l)))) as (l' & Hrun & Hp & Hf & Hr'); try done.
    + apply Hs.
    + pose proof (chain_size _ _ _ _ Hc (io_nodup _ _ _ _ Hok fd)) as Hl. rewrite bare_size in Hl. lia.
    + exists l'. split_and!; try done. by apply (io_state_frame l l' _ _ _ P).
  - rewrite decide_True by (by apply Hr). exists l. split_and!; [done|done|apply pending_frame_refl|].
    intros n Hn pr q Hq. specialize (Hn pr q Hq). lia.
Qed.

(** ** Killing *)

Definition EV_KILLED : Z := EV_ERROR .| EV_READ .| EV_WRITE.

(** The queues when the watchers of a chain are stopped and fed an error. *)
Definition killed (ws : list W) (P : queues) : queues :=
  foldl (fun P w => fed (cleared P w (pri w)) w (pri w) EV_KILLED) P ws.

Lemma fd_kill_loop_ok fd ws l I d todo P fuel a :
  io_state l I d todo P -> I fd = ws -> array_get (anfds l) fd = Some a -> (forall w, prio l w = pri w) ->
  roomy (Z.of_nat (length ws)) l -> (length ws < fuel)%nat ->
  exists l', fd_kill_loop fuel fd l = Some l' /\
    io_state l' (put I fd []) d (if decide (ws = []) then todo else mark fd todo) (killed ws P) /\ io_frame l l' /\
    io_map l' = foldr (alter deactivate) (io_map l) ws /\
    (forall i, i <> fd -> array_get (anfds l') i = array_get (anfds l) i) /\
    forall n, roomy (n + Z.of_nat (length ws)) l -> roomy n l'.
Proof.
  revert l I todo P fuel a. induction ws as [|w ws IH]; intros l I todo P fuel a Hs Hws Ha Hpri Hroom Hf;
    (destruct fuel as [|fuel]; [simpl in Hf; lia|]); cbn [fd_kill_loop]; rewrite Ha; cbn [mbind option_bind];
    pose proof (io_chain _ _ _ _ (ios_ok _ _ _ _ _ Hs) fd a Ha) as Hc; rewrite Hws in Hc.
  - simpl in Hc. rewrite Hc. exists l. split_and!; [done| |apply io_frame_refl|done|done|].
    + apply (io_state_ext l I); [|done]. intros f. unfold put. case_decide; congruence.
    + intros n Hn. by rewrite Z.add_0_r in Hn.
  - destruct Hc as [-> (n & e & Hw & Hc)]. pose proof Hw as (x & Hx & Hb & Hxa & Hxp & _ & Hw0 & Hwp).
    destruct (bare_back _ _ _ Hx) as (y & Hy & ->). simpl in Hb, Hxa.
    rewrite (proj2 (Z.eqb_neq _ _)) by exact Hw0.
    assert (io_map l !! w = Some (IoW fd e true)) as Hwm.
    { unfold io_map. rewrite lookup_omap, Hy. simpl. rewrite (iow_of_body _ _ _ _ Hb). by rewrite Hxa. }
    destruct (io_stop_ok l I d todo P w _ Hs Hwm) as (l1 & Hrun & Hs1 & Hf1 & Hm1 & Hr1 & Ho1 & _). rewrite Hrun. cbn [mbind option_bind].
    unfold stop_chains, stop_todo in Hs1. cbn [i_active i_fd] in Hs1.
    assert (remove w (I fd) = ws) as Hrem.
    { rewrite Hws. apply (remove_mid w []). rewrite <- Hws. apply (io_nodup _ _ _ _ (ios_ok _ _ _ _ _ Hs)). }
    rewrite Hrem, Hpri in Hs1.
    assert (forall w, prio l1 w = pri w) as Hpri1 by (intros w'; rewrite <- Hpri; apply prio_same, Hf1).
    assert (io_map l1 !! w = Some (deactivate (IoW fd e true))) as Hw1 by (by rewrite Hm1, lookup_alter_eq, Hwm).
    destruct (io_watcher_user _ _ _ _ _ _ _ Hs1 Hw1) as (y1 & n1 & Hy1 & _ & _ & _ & _ & Hp1).
    assert (roomy (Z.of_nat (length ws) + 1) l1) as Hroom1.
    { apply Hr1. intros pr q Hq. specialize (Hroom pr q Hq). simpl in Hroom. lia. }
    destruct (feed_event_ok l1 _ w y1 EV_KILLED (ios_pending _ _ _ _ _ Hs1)) as (l2 & Hrun2 & Hp2 & Hf2 & _ & Hr2); try done.
    { intros pr q Hq. specialize (Hroom1 pr q Hq). lia. }
    unfold EV_KILLED in Hrun2. rewrite Hrun2. cbn [mbind option_bind].
    assert (ABSPRI y1 = pri w) as Hap by (rewrite <- Hpri1; unfold prio; by rewrite Hy1). rewrite Hap in Hp2.
    pose proof (io_state_frame l1 l2 _ _ _ _ _ Hs1 Hf2 Hp2) as Hs2.
    pose proof (mark_elem fd todo) as Hmark.
    destruct (array_get_range (anfds l2) fd) as [a2 Ha2]; [by apply (io_range _ _ _ _ (ios_ok _ _ _ _ _ Hs2))|].
    destruct (IH l2 (put I fd ws) (mark fd todo) _ fuel a2 Hs2) as (l3 & Hrun3 & Hs3 & Hf3 & Hm3 & Ho3 & Hr3).
    + unfold put. by rewrite decide_True.
    + done.
    + intros w'. rewrite <- Hpri1. apply prio_same. by apply frame_priorities.
    + by apply Hr2.
    + simpl in Hf. lia.
    + exists l3. split_and!; [done| | | | |].
      * rewrite mark_twice in Hs3. rewrite (decide_False (P := w :: ws = [])) by done. cbn [killed foldl].
        replace (if decide (ws = []) then mark fd todo else mark fd todo) with (mark fd todo) in Hs3 by (by destruct (decide (ws = []))).
        eapply io_state_ext; [|exact Hs3]. intros f. unfold put. by destruct (decide (f = fd)).
      * eapply io_frame_trans; [exact Hf1|]. eapply io_frame_trans; [by apply pending_io_frame|done].
      * rewrite Hm3, (io_map_pending _ _ Hf2), Hm1. cbn [foldr]. by apply deactivate_commute.
      * intros i Hi. rewrite Ho3 by done. destruct (pending_changes _ _ Hf2) as [-> _]. by apply Ho1.
      * intros k Hk. apply Hr3, Hr2, Hr1. intros pr q Hq. specialize (Hk pr q Hq). simpl in Hk. lia.
Qed.
Lemma fd_kill_ok fd l I d todo P a :
  io_state l I d todo P -> array_get (anfds l) fd = Some a -> (forall w, prio l w = pri w) ->
  roomy (Z.of_nat (length (I fd))) l ->
  exists l', fd_kill fd l = Some l' /\
    io_state l' (put I fd []) d (if decide (I fd = []) then todo else mark fd todo) (killed (I fd) P) /\ io_frame l l' /\
    io_map l' = foldr (alter deactivate) (io_map l) (I fd) /\
    (forall i, i <> fd -> array_get (anfds l') i = array_get (anfds l) i) /\
    forall n, roomy (n + Z.of_nat (length (I fd))) l -> roomy n l'.
Proof.
  intros Hs Ha Hpri Hroom. unfold fd_kill. apply (fd_kill_loop_ok fd (I fd) l I d todo P _ a); try done.
  pose proof (io_chain _ _ _ _ (ios_ok _ _ _ _ _ Hs) fd a Ha) as Hc.
  pose proof (chain_size _ _ _ _ Hc (io_nodup _ _ _ _ (ios_ok _ _ _ _ _ Hs) fd)) as Hl. rewrite bare_size in Hl. lia.
Qed.
End feeding.

(** * Scripts of calls *)

Inductive io_call :=
| ISet (w : W) (fd events : Z) | IStart (w : W) | IStop (w : W) | IFdEvent (fd revents : Z).

Definition run_io_call (c : io_call) (l : ev_loop) : option ev_loop :=
  match c with
  | ISet w fd events => ev_io_set w fd events l
  | IStart w => ev_io_start w l
  | IStop w => ev_io_stop w l
  | IFdEvent fd revents => ev_feed_fd_event fd revents l
  end.

Fixpoint run_io_calls (cs : list io_call) (l : ev_loop) : option ev_loop :=
  match cs with [] => Some l | c :: cs => l ← run_io_call c l; run_io_calls cs l end.

(** ** The specification *)

Definition io_spec : Type := gmap W iow * chains * queues.

Definition events_of (M : gmap W iow) (w : W) : Z := match M !! w with Some i => i_events i | None => 0 end.

Lemma mask_events l w : mask_of (bare l) w = events_of (io_map l) w.
Proof.
  unfold mask_of, events_of, bare, io_map. rewrite lookup_fmap, lookup_omap. destruct (mem l !! w) as [x|]; [|done].
  cbn [fmap option_fmap option_map mbind option_bind]. unfold iow_of, io_of. cbn [body with_pending]. by destruct (body x).
Qed.

Section spec.
Context (pri : W -> Z).

(** The watchers of a chain are fed those of the events that they wait for. *)
Definition fed_to (M : gmap W iow) (revents : Z) (ws : list W) (P : queues) : queues :=
  foldl (fun P w => let ev := events_of M w .& revents in if ev =? 0 then P else fed P w (pri w) ev) P ws.

Lemma fd_fed_to l revents ws P : fd_fed pri (bare l) revents ws P = fed_to (io_map l) revents ws P.
Proof.
  revert P. induction ws as [|w ws IH]; intros P; [done|]. cbn [fd_fed fed_to foldl]. rewrite mask_events. apply IH.
Qed.

Definition spec_io_call (c : io_call) (s : io_spec) : io_spec :=
  let '(M, J, P) := s in
  match c with
  | ISet w fd events => (<[w := IoW fd (events .| EV__IOFDSET) false]> M, J, P)
  | IStart w => match M !! w with Some i => (alter activate w M, start_chains w i J, P) | None => s end
  | IStop w => match M !! w with
               | Some i => (alter deactivate w M, stop_chains w i J, cleared P w (pri w))
               | None => s
               end
  | IFdEvent fd revents => (M, J, fed_to M revents (J fd) P)
  end.

Definition spec_io_calls (cs : list io_call) (s : io_spec) : io_spec := foldl (fun s c => spec_io_call c s) s cs.

(** What the documentation asks of the calls: ev_io_set is for inactive watchers;
    a watcher that is started has a descriptor, of those that fit the tables,
    and no events but EV_READ and EV_WRITE. *)
Definition io_call_ok (M : gmap W iow) (c : io_call) : bool :=
  match c with
  | ISet w _ _ => match M !! w with Some i => negb (i_active i) | None => false end
  | IStart w => match M !! w with
                | Some i => i_active i || (0 <=? i_fd i) && (i_fd i <? fd_limit) && legal (i_events i)
                | None => false
                end
  | IStop w => bool_decide (is_Some (M !! w))
  | IFdEvent _ _ => true
  end.

Fixpoint io_calls_ok (s : io_spec) (cs : list io_call) : bool :=
  match cs with
  | [] => true
  | c :: cs => io_call_ok s.1.1 c && io_calls_ok (spec_io_call c s) cs
  end.

(** The number of events that may become pending. *)
Definition io_call_cost (I : chains) (c : io_call) : Z :=
  match c with IFdEvent fd _ => Z.of_nat (length (I fd)) | _ => 0 end.

Fixpoint io_calls_cost (s : io_spec) (cs : list io_call) : Z :=
  match cs with
  | [] => 0
  | c :: cs => io_call_cost s.1.2 c + io_calls_cost (spec_io_call c s) cs
  end.

Lemma io_calls_cost_nonneg s cs : 0 <= io_calls_cost s cs.
Proof.
  revert s. induction cs as [|c cs IH]; intros s; cbn [io_calls_cost]; [done|].
  specialize (IH (spec_io_call c s)). destruct c; cbn [io_call_cost]; lia.
Qed.

(** ** Refinement *)

(** The loop implements [s]. *)
Definition io_implements (l : ev_loop) (s : io_spec) : Prop :=
  exists todo, io_state l s.1.2 [] todo s.2 /\ io_map l = s.1.1.

(** What a call gives, from room for [n] events. *)
Definition io_call_gives (l : ev_loop) (s : io_spec) (cost : Z) (res : option ev_loop) : Prop :=
  exists l', res = Some l' /\ io_implements l' s /\ io_frame l l' /\ noted_frame l l' /\ forall n, roomy (n + cost) l -> roomy n l'.

Lemma feed_fd_ok fd revents l I todo P :
  io_state l I [] todo P -> (forall w, prio l w = pri w) -> roomy (Z.of_nat (length (I fd))) l ->
  io_call_gives l (io_map l, I, fed_to (io_map l) revents (I fd) P) (Z.of_nat (length (I fd))) (ev_feed_fd_event fd revents l).
Proof.
  intros Hs Hpri Hroom. pose proof (ios_ok _ _ _ _ _ Hs) as Hok. unfold ev_feed_fd_event.
  destruct ((0 <=? fd) && (fd <? Z.of_nat (length (anfds l)))) eqn:Hr.
  - apply andb_prop in Hr as [H1%Z.leb_le H2%Z.ltb_lt]. destruct (array_get_range (anfds l) fd) as [a Ha]; [lia|].
    unfold fd_event_nocheck. rewrite Ha. cbn [mbind option_bind]. pose proof (io_chain _ _ _ _ Hok fd a Ha) as Hc.
    destruct (fd_event_loop_ok pri fd (I fd) (head a) l P revents (S (size (mem l)))) as (l' & Hrun & Hp & Hf & Hr'); try done.
    { apply Hs. } { pose proof (chain_size _ _ _ _ Hc (io_nodup _ _ _ _ Hok fd)) as Hl. rewrite bare_size in Hl. lia. }
    exists l'. split_and!; [done| |by apply pending_io_frame|apply noted_frame_same; by destruct (pending_changes _ _ Hf)|done]. exists todo. cbn [fst snd]. rewrite <- fd_fed_to.
    split; [by apply (io_state_frame l l' _ _ _ P)|by apply io_map_pending].
  - assert (I fd = []) as HI.
    { apply (io_none _ _ _ _ Hok). destruct (array_get (anfds l) fd) eqn:Ha; [|done]. apply array_get_Some in Ha as [? _].
      rewrite (proj2 (Z.leb_le _ _)), (proj2 (Z.ltb_lt _ _)) in Hr by lia. done. }
    rewrite HI. exists l. split_and!; [done|by exists todo|apply io_frame_refl|by apply noted_frame_same|].
    intros n Hn pr q Hq. specialize (Hn pr q Hq). simpl in Hn. lia.
Qed.

Lemma run_io_call_ok c l s :
  io_implements l s -> (forall w, prio l w = pri w) -> io_call_ok s.1.1 c = true -> roomy (io_call_cost s.1.2 c) l ->
  io_call_gives l (spec_io_call c s) (io_call_cost s.1.2 c) (run_io_call c l).
Proof.
  destruct s as [[M J] P]. intros (todo & Hs & HM) Hpri Hc Hroom. cbn [fst snd] in *. subst M.
  assert (forall l', (forall n, roomy n l -> roomy n l') -> forall n, roomy (n + 0) l -> roomy n l') as H0.
  { intros l' Hr n Hn. rewrite Z.add_0_r in Hn. by apply Hr. }
  destruct c as [w fd ev|w|w|fd revents]; cbn [io_call_ok spec_io_call io_call_cost run_io_call] in *.
  - destruct (io_map l !! w) as [i|] eqn:Hw; [|done]. apply negb_true_iff in Hc.
    destruct (io_set_ok l J [] todo P w i fd ev Hs Hw Hc) as (l' & Hrun & Hs' & Hf & Hm & Hno & Hr).
    exists l'. split_and!; [done|by exists todo|done|done|by apply H0].
  - destruct (io_map l !! w) as [i|] eqn:Hw; [|done].
    destruct (io_start_ok l J [] todo P w i Hs Hw) as (l' & Hrun & Hs' & Hf & Hm & Hno & Hr).
    { intros Ha. rewrite Ha in Hc. cbn [orb] in Hc. apply andb_prop in Hc as [[H1%Z.leb_le H2%Z.ltb_lt]%andb_prop H3]. by split; [lia|]. }
    exists l'. split_and!; [done| |done|done|by apply H0]. eexists. by split.
  - apply bool_decide_eq_true in Hc as [i Hw]. rewrite Hw.
    destruct (io_stop_ok l J [] todo P w i Hs Hw) as (l' & Hrun & Hs' & Hf & Hm & Hr & _ & Hno). rewrite Hpri in Hs'.
    exists l'. split_and!; [done| |done|done|by apply H0]. eexists. by split.
  - by apply (feed_fd_ok fd revents l J todo P).
Qed.

Lemma run_io_calls_ok cs : forall l s,
  io_implements l s -> (forall w, prio l w = pri w) -> io_calls_ok s cs = true -> roomy (io_calls_cost s cs) l ->
  io_call_gives l (spec_io_calls cs s) (io_calls_cost s cs) (run_io_calls cs l).
Proof.
  induction cs as [|c cs IH]; intros l s Hs Hpri Hc Hroom.
  - exists l. split_and!; [done|done|apply io_frame_refl|by apply noted_frame_same|]. intros n Hn. cbn in Hn. by rewrite Z.add_0_r in Hn.
  - cbn [io_calls_ok io_calls_cost run_io_calls] in *. apply andb_prop in Hc as [Hc1 Hc2].
    pose proof (io_calls_cost_nonneg (spec_io_call c s) cs) as Hnn.
    destruct (run_io_call_ok c l s Hs Hpri Hc1) as (l1 & -> & Hs1 & Hf1 & Hno1 & Hr1).
    { intros pr q Hq. specialize (Hroom pr q Hq). lia. }
    cbn [mbind option_bind]. destruct (IH l1 (spec_io_call c s)) as (l2 & Hrun & Hs2 & Hf2 & Hno2 & Hr2); try done.
    + intros w. rewrite <- Hpri. apply prio_same, Hf1.
    + apply Hr1. intros pr q Hq. specialize (Hroom pr q Hq). lia.
    + exists l2. split_and!; [done|done|by eapply io_frame_trans|by eapply noted_frame_trans|].
      intros n Hn. apply Hr2, Hr1. intros pr q Hq. specialize (Hn pr q Hq). lia.
Qed.
End spec.
