(* ===== verification/EvIoReify.v ===== *)
(** fd_reify of EvIo.v: whatever a backend does with a descriptor that it can
    not watch, in the end every descriptor is watched for the events that its
    active watchers wait for. *)
From S2P Require Import Prelude EvTime Ev EvPending EvTimer EvIo EvIoRep EvIoOps EvIoEvents.

Open Scope c_scope.

Section backend.
Context {K : Type} (backend_modify : Z -> Z -> Z -> ev_loop * K -> option (ev_loop * K)).
(** [watches s fd m]: the backend reports the events [m] of [fd]; [steady s fd]:
    what it has noted of [fd] is right; [kept s s' fd]: what was right of [fd] in
    [s] still is in [s']; [sane n s]: what else the backend relies on, with room
    for [n] changes; [refuses k fd]: it could not watch [fd]. *)
Context (watches : ev_loop * K -> Z -> Z -> Prop) (steady : ev_loop * K -> Z -> Prop).
Context (kept : ev_loop * K -> ev_loop * K -> Z -> Prop).
Context (sane : Z -> ev_loop * K -> Prop) (refuses : K -> Z -> Prop) (pri : W -> Z).

(** What a call of backend_modify for [fd] may give: the descriptor is watched
    for the new events, or its watchers are stopped and fed an error. *)
Definition modified (I : chains) (d todo : list Z) (P : queues) (fd new : Z) (l l' : ev_loop) (k' : K) : Prop :=
  io_state l' I d todo P /\ io_map l' = io_map l /\ (forall n, roomy n l -> roomy n l') /\
  (new <> 0 -> steady (l', k') fd -> watches (l', k') fd new).

Definition gave_up (I : chains) (d todo : list Z) (P : queues) (fd new : Z) (l l' : ev_loop) (k' : K) : Prop :=
  new <> 0 /\ (I fd <> [] /\ refuses k' fd) /\
  io_state l' (put I fd []) d (mark fd todo) (killed pri (I fd) P) /\
  io_map l' = foldr (alter deactivate) (io_map l) (I fd) /\
  (forall n, roomy (n + Z.of_nat (length (I fd))) l -> roomy n l').

Class Backend : Prop := {
  watches_frame l l' k fd m : io_frame l l' -> watches (l, k) fd m -> watches (l', k) fd m;
  steady_frame l l' k fd : io_frame l l' -> steady (l', k) fd -> steady (l, k) fd;
  kept_frame l l' k fd : io_frame l l' -> kept (l, k) (l', k) fd;
  kept_trans s1 s2 s3 fd : kept s1 s2 fd -> kept s2 s3 fd -> kept s1 s3 fd;
  sane_frame l l' k n : io_frame l l' -> sane n (l, k) -> sane n (l', k);
  sane_mono s n n' : n' <= n -> sane n s -> sane n' s;
  modify_ok l k I d todo P fd old a n :
    io_state l I d todo P -> 0 <= n -> sane (n + 1) (l, k) -> (forall w, prio l w = pri w) ->
    array_get (anfds l) fd = Some a -> reify a = 0 -> roomy (Z.of_nat (length (I fd))) l ->
    exists l' k', backend_modify fd old (fd_events a) (l, k) = Some (l', k') /\ sane n (l', k') /\
      same_priorities l l' /\ clock_frame l l' /\
      (forall i, i <> fd -> array_get (anfds l') i = array_get (anfds l) i) /\
      (forall i, refuses k i -> refuses k' i) /\
      (forall i, i <> fd -> kept (l, k) (l', k') i /\ (steady (l', k') i -> steady (l, k) i) /\
         forall m, watches (l, k) i m -> watches (l', k') i m) /\
      (modified I d todo P fd (fd_events a) l l' k' /\ kept (l, k) (l', k') fd /\
         (exists a', array_get (anfds l') fd = Some a' /\ fd_events a' = fd_events a)
       \/ gave_up I d todo P fd (fd_events a) l l' k');
}.

Context `{!Backend}.

(** Outside fd_reify, every steady descriptor that is not to be registered anew
    is watched for the events noted in the table. *)
Definition watched (s : ev_loop * K) (I : chains) (todo : list Z) : Prop :=
  forall fd a, array_get (anfds s.1) fd = Some a -> I fd <> [] \/ fd ∉ todo ->
    fd_events a <> 0 -> reify a .& EV__IOFDSET = 0 -> steady s fd -> watches s fd (fd_events a).

(** ** One descriptor *)

(** The marks of a descriptor are taken back. *)
Lemma unmark_ok l I d fd todo P a :
  io_state l I d (fd :: todo) P -> array_get (anfds l) fd = Some a -> Z.of_nat (length d) < 2 ^ 24 ->
  let ev := interest (bare l) (I fd) in
  exists l1 l', anfd_update fd (fun a => with_events 0 (with_reify 0 a)) l = Some l1 /\
    chain_events (S (size (mem l1))) (head a) 0 l1 = Some ev /\ anfd_update fd (with_events ev) l1 = Some l' /\
    mem l' = mem l /\ anfds l' = <[Z.to_nat fd := with_events ev (with_reify 0 a)]> (anfds l) /\
    io_state l' I (d ++ [fd]) todo P /\ io_frame l l' /\ (forall n, roomy n l -> roomy n l').
Proof.
  intros Hs Ha Hd ev. pose proof Hs as [Hok Hch Hp Hpri Hlim Hdone Huser].
  pose proof (io_chain _ _ _ _ Hok fd a Ha) as Hc. pose proof (io_nodup _ _ _ _ Hok fd) as Hnd.
  rewrite (anfd_update_ok l fd _ a Ha). set (a1 := with_events 0 _). eexists _, _. split; [done|]. split; [|split].
  { rewrite (chain_events_ok _ fd (head a) (I fd)); [|exact Hc|done|].
    - by rewrite Z.lor_0_l.
    - pose proof (chain_size _ _ _ _ Hc Hnd) as Hl. rewrite bare_size in Hl. simpl. lia. }
  { erewrite anfd_update_ok by (cbn [anfds set_anfds]; by apply (get_insert _ _ a)). done. }
  cbn [anfds set_anfds]. rewrite list_insert_insert_eq.
  change (with_events ev a1) with (with_events ev (with_reify 0 a)). set (a2 := with_events ev (with_reify 0 a)).
  assert (in_u 2 ev) as Hev by (by eapply interest_range).
  assert (forall i, i <> fd -> array_get (<[Z.to_nat fd := a2]> (anfds l)) i = array_get (anfds l) i) as Hne
    by (intros i Hi; by apply (get_insert_ne _ _ _ a)).
  assert (array_get (<[Z.to_nat fd := a2]> (anfds l)) fd = Some a2) as Heq by (by apply (get_insert _ _ a)).
  pose proof (io_todo _ _ _ _ Hok) as [Hni Hnd2]%NoDup_cons.
  split_and!; [done|done| | |done].
  - split; try done.
    + change (bare (set_anfds _ _)) with (bare l). cbn [anfds set_anfds]. split; try done.
      * intros i b. destruct (decide (i = fd)) as [->|Hi]; [rewrite Heq|rewrite Hne by done; apply (io_chain _ _ _ _ Hok)].
        by intros [= <-].
      * intros i. destruct (decide (i = fd)) as [->|Hi]; [by rewrite Heq|]. rewrite Hne by done. apply (io_none _ _ _ _ Hok).
      * apply (io_nodup _ _ _ _ Hok).
      * apply (io_active _ _ _ _ Hok).
      * intros i b. destruct (decide (i = fd)) as [->|Hi].
        -- rewrite Heq. intros [= <-]. by split.
        -- rewrite Hne by done. intros Hb. destruct (io_reify _ _ _ _ Hok i b Hb) as [H1 H2]. split; [done|].
           rewrite H2, elem_of_cons. intuition.
      * intros i Hi. rewrite length_insert. apply (io_range _ _ _ _ Hok). by right.
      * intros i b. destruct (decide (i = fd)) as [->|Hi].
        -- rewrite Heq. intros [= <-]. by split.
        -- rewrite Hne by done. apply (io_sync _ _ _ _ Hok).
    + unfold changes in *. cbn [fdchangecnt fdchanges set_anfds]. rewrite <- app_assoc. exact Hch.
    + apply (pending_ok_mem l); try done. intros w. cbn [mem set_anfds]. by destruct (mem l !! w).
    + intros i Hi. apply Hlim. set_solver.
    + rewrite length_app. simpl. lia.
  - split; [by destruct l| |done|cbn [anfds set_anfds]; by rewrite length_insert]. by apply (marks_insert l _ fd a a2).
Qed.

(** What processing one changed descriptor gives. *)
Definition processed (I : chains) (d todo : list Z) (P : queues) (fd : Z) (l : ev_loop) (k : K) (l' : ev_loop) (k' : K) : Prop :=
  (io_state l' I (d ++ [fd]) todo P /\ watched (l', k') I todo /\ kept (l, k) (l', k') fd /\ io_map l' = io_map l /\
     forall n, roomy n l -> roomy n l') \/
  ((I fd <> [] /\ refuses k' fd) /\ io_state l' (put I fd []) (d ++ [fd]) (mark fd todo) (killed pri (I fd) P) /\
     watched (l', k') (put I fd []) (mark fd todo) /\
     io_map l' = foldr (alter deactivate) (io_map l) (I fd) /\
     forall n, roomy (n + Z.of_nat (length (I fd))) l -> roomy n l').

Lemma reify_one_ok l k I d fd todo P n :
  io_state l I d (fd :: todo) P -> 0 <= n -> sane (n + 1) (l, k) -> watched (l, k) I (fd :: todo) -> (forall w, prio l w = pri w) ->
  roomy (Z.of_nat (length (I fd))) l -> Z.of_nat (length d) < 2 ^ 24 ->
  exists l' k', fd_reify_one backend_modify fd (l, k) = Some (l', k') /\ sane n (l', k') /\ same_priorities l l' /\ clock_frame l l' /\
    (forall i, refuses k i -> refuses k' i) /\ (forall i, i <> fd -> kept (l, k) (l', k') i) /\
    processed I d todo P fd l k l' k'.
Proof.
  intros Hs Hn Hsane Hwat Hpri Hroom Hd. pose proof (io_todo _ _ _ _ (ios_ok _ _ _ _ _ Hs)) as [Hni _]%NoDup_cons.
  destruct (array_get_range (anfds l) fd) as [a Ha]; [apply (io_range _ _ _ _ (ios_ok _ _ _ _ _ Hs)); by left|].
  destruct (unmark_ok l I d fd todo P a Hs Ha Hd) as (l1 & l2 & Hrun1 & Hev & Hrun2 & Hm & Hfs & Hs2 & Hf2 & Hr2).
  set (ev := interest (bare l) (I fd)) in *. set (a2 := with_events ev (with_reify 0 a)) in *.
  assert (array_get (anfds l2) fd = Some a2) as Ha2 by (rewrite Hfs; by apply (get_insert _ _ a)).
  assert (forall i, i <> fd -> array_get (anfds l2) i = array_get (anfds l) i) as Hne
    by (intros i Hi; rewrite Hfs; by apply (get_insert_ne _ _ _ a)).
  assert (io_map l2 = io_map l) as Hmap by (unfold io_map; by rewrite Hm).
  assert (forall i b, i <> fd -> array_get (anfds l) i = Some b -> I i <> [] \/ i ∉ todo ->
            fd_events b <> 0 -> reify b .& EV__IOFDSET = 0 -> steady (l2, k) i -> watches (l2, k) i (fd_events b)) as Hothers.
  { intros i b Hi Hb Hin He Hr Hst. apply (watches_frame l); [done|]. apply (Hwat i b Hb); try done; [set_solver|].
    by apply (steady_frame l l2). }
  unfold fd_reify_one. rewrite Ha. cbn [mbind option_bind]. rewrite Hrun1. cbn [mbind option_bind]. rewrite Hev.
  cbn [mbind option_bind]. rewrite Hrun2. cbn [mbind option_bind].
  destruct (negb ((if negb (fd_events a =? ev) then EV__IOFDSET else reify a) .& EV__IOFDSET =? 0)) eqn:Hcall.
  - destruct (modify_ok l2 k I (d ++ [fd]) todo P fd (fd_events a) a2 n Hs2) as
      (l' & k' & Hrun & Hsane' & Hpr & Hclk & Hother & Href & Hwo & Hres); try done.
    { by apply (sane_frame l). } { intros w. rewrite <- Hpri. apply prio_same, Hf2. } { by apply Hr2. }
    exists l', k'. split; [exact Hrun|]. split; [done|]. split; [by eapply same_priorities_trans; [apply Hf2|]|].
    split; [eapply clock_frame_trans; [by apply io_frame_clock|done]|]. split; [done|].
    split; [intros i Hi; apply (kept_trans _ (l2, k)); [by apply kept_frame|by apply Hwo]|].
    assert (forall i b, i <> fd -> array_get (anfds l') i = Some b -> I i <> [] \/ i ∉ todo ->
            fd_events b <> 0 -> reify b .& EV__IOFDSET = 0 -> steady (l', k') i -> watches (l', k') i (fd_events b)) as Hothers'.
    { intros i b Hi Hb Hin He Hr Hst. rewrite Hother, Hne in Hb by done. destruct (Hwo i Hi) as (_ & Hst2 & Hw2).
      apply Hw2. apply Hothers; try done. by apply Hst2. }
    destruct Hres as [((Hs3 & Hm3 & Hr3 & Hw3) & Hk3 & a' & Ha' & Ea')|(Hn0 & HI & Hs3 & Hm3 & Hr3)].
    + left. split_and!; [done| |apply (kept_trans _ (l2, k)); [by apply kept_frame|done]|congruence|by intros m Hm'; apply Hr3, Hr2].
      intros i b Hb Hin He Hr Hst. cbn [fst] in Hb. destruct (decide (i = fd)) as [->|Hi]; [|by apply Hothers'].
      assert (b = a') as -> by congruence. rewrite Ea' in *. by apply Hw3.
    + right. split_and!; [apply HI|apply HI|done| |by rewrite Hm3, Hmap|by intros m Hm'; apply Hr3, Hr2].
      intros i b Hb Hin He Hr Hst. cbn [fst] in Hb. destruct (decide (i = fd)) as [->|Hi].
      * exfalso. destruct Hin as [Hin|Hin]; [|apply Hin, mark_elem]. apply Hin. unfold put. by rewrite decide_True.
      * apply Hothers'; try done. unfold put in Hin. rewrite decide_False in Hin by done.
        destruct Hin as [?|Hin]; [by left|right]. intros Hin'. apply Hin. by apply mark_subset.
  - exists l2, k. split; [done|]. split; [apply (sane_frame l); [done|]; apply (sane_mono _ (n + 1)); [lia|done]|]. split; [apply Hf2|]. split; [by apply io_frame_clock|].
    split; [done|]. split; [intros i _; by apply kept_frame|]. left. split_and!; [done| |by apply kept_frame|done|done].
    intros i b Hb Hin He Hr Hst. cbn [fst] in Hb. destruct (decide (i = fd)) as [->|Hi]; [|rewrite Hne in Hb by done; by apply Hothers].
    assert (b = a2) as -> by congruence. change (fd_events a2) with ev in *.
    destruct (Z.eqb_spec (fd_events a) ev) as [E|E]; cbn [negb] in Hcall; [|done].
    apply negb_false_iff, Z.eqb_eq in Hcall. rewrite <- E in He |- *. apply (watches_frame l); [done|].
    apply (Hwat fd a Ha); [|done|done|by apply (steady_frame l l2)]. left. intros HI. apply He. rewrite E. unfold ev. by rewrite HI.
Qed.

(** ** All descriptors *)

(** The descriptors [D] are given up. *)
Definition without (D : list Z) (I : chains) : chains := foldl (fun I fd => put I fd []) I D.
Definition abandon (I : chains) (D : list Z) (P : queues) : queues := foldl (fun P fd => killed pri (I fd) P) P D.
Definition given_up (I : chains) (D : list Z) (M : gmap W iow) : gmap W iow :=
  foldl (fun M fd => foldr (alter deactivate) M (I fd)) M D.

Lemma abandon_ext I I' D P : (forall i, i ∈ D -> I' i = I i) -> abandon I' D P = abandon I D P.
Proof.
  revert P. induction D as [|fd D IH]; intros P E; [done|]. cbn [abandon foldl]. rewrite E by (by left).
  apply IH. intros i Hi. apply E. by right.
Qed.

Lemma given_up_ext I I' D M : (forall i, i ∈ D -> I' i = I i) -> given_up I' D M = given_up I D M.
Proof.
  revert M. induction D as [|fd D IH]; intros M E; [done|]. cbn [given_up foldl]. rewrite E by (by left).
  apply IH. intros i Hi. apply E. by right.
Qed.

(** The number of watchers of the descriptors [A]. *)
Definition total (I : chains) (A : list Z) : Z := foldr (fun fd n => Z.of_nat (length (I fd)) + n) 0 A.

Lemma total_nonneg I A : 0 <= total I A.
Proof. induction A as [|fd A IH]; simpl; lia. Qed.

Lemma total_remove I fd A : fd ∈ A -> Z.of_nat (length (I fd)) + total (put I fd []) (remove fd A) <= total I A.
Proof.
  assert (forall A, total (put I fd []) (remove fd A) <= total I A) as Hle.
  { clear A. induction A as [|x A IH]; [done|]. unfold remove in *. simpl.
    destruct (decide (x = fd)) as [->|Hne]; [rewrite bool_decide_true by done|rewrite bool_decide_false by done]; simpl; [lia|].
    unfold put at 1. rewrite decide_False by done. lia. }
  intros Hin. induction A as [|x A IH]; [by apply elem_of_nil in Hin|]. simpl.
  destruct (decide (x = fd)) as [->|Hne].
  - unfold remove. simpl. rewrite bool_decide_true by done. simpl. specialize (Hle A). unfold remove in Hle. lia.
  - apply elem_of_cons in Hin as [|Hin]; [done|]. specialize (IH Hin). unfold remove in *. simpl.
    rewrite bool_decide_false by done. simpl. unfold put at 1. rewrite decide_False by done. lia.
Qed.

Lemma length_remove fd A : fd ∈ A -> (length (remove fd A) < length A)%nat.
Proof.
  assert (forall A, length (remove fd A) <= length A)%nat as Hle.
  { clear A. induction A as [|x A IH]; [done|]. unfold remove in *. simpl. destruct (negb _); simpl; lia. }
  intros Hin. induction A as [|x A IH]; [by apply elem_of_nil in Hin|]. unfold remove in *. simpl.
  destruct (decide (x = fd)) as [->|Hne].
  - rewrite bool_decide_true by done. simpl. specialize (Hle A). lia.
  - apply elem_of_cons in Hin as [|Hin]; [done|]. specialize (IH Hin). rewrite bool_decide_false by done. simpl. lia.
Qed.

Lemma elem_remove fd x A : x ∈ A -> x <> fd -> x ∈ remove fd A.
Proof.
  intros Hin Hne. unfold remove. apply list_elem_of_In, List.filter_In. split; [by apply list_elem_of_In|].
  by rewrite bool_decide_false.
Qed.

Lemma mark_length fd todo : (length (mark fd todo) <= S (length todo))%nat.
Proof. unfold mark. case_decide; [lia|]. rewrite length_app. simpl. lia. Qed.

(** What the loop gives: some of the descriptors are given up. *)
Definition all_processed (n : Z) (I : chains) (A : list Z) (P : queues) (l : ev_loop) (k : K) (l' : ev_loop) (k' : K) (D : list Z) : Prop :=
  fdchangecnt l' = 0 /\ io_state l' (without D I) [] [] (abandon I D P) /\
  watched (l', k') (without D I) [] /\ (forall fd, fd ∉ D -> kept (l, k) (l', k') fd) /\ (forall fd, refuses k fd -> refuses k' fd) /\
  sane n (l', k') /\ same_priorities l l' /\ clock_frame l l' /\
  io_map l' = given_up I D (io_map l) /\ forall m, roomy (m + total I A) l -> roomy m l'.

Lemma changes_next l d fd todo :
  changes l (d ++ fd :: todo) -> (Z.of_nat (length d) <? fdchangecnt l) = true /\
  array_get (fdchanges l) (Z.of_nat (length d)) = Some fd.
Proof.
  intros [Hc [rest Hcs]]. split; [apply Z.ltb_lt; rewrite Hc, length_app; simpl; lia|].
  unfold array_get. destruct (Z.ltb_spec (Z.of_nat (length d)) 0); [lia|]. rewrite Hcs, Nat2Z.id, <- app_assoc.
  apply lookup_app_mid.
Qed.

Lemma reify_loop_ok n fuel : 0 <= n -> forall l k I d todo P A,
  io_state l I d todo P -> sane (n + Z.of_nat (length todo + length A)) (l, k) -> watched (l, k) I todo -> (forall w, prio l w = pri w) ->
  (forall fd, I fd <> [] -> fd ∈ A) -> roomy (total I A) l ->
  Z.of_nat (length d + length todo + length A) <= 2 ^ 24 -> (length todo + length A < fuel)%nat ->
  exists l' k' D, fd_reify_loop backend_modify fuel (Z.of_nat (length d)) (l, k) = Some (l', k') /\
    NoDup D /\ (forall fd, fd ∈ D -> fd ∈ todo /\ I fd <> [] /\ refuses k' fd) /\ all_processed n I A P l k l' k' D.
Proof.
  intros Hn. induction fuel as [|fuel IH]; intros l k I d todo P A Hs Hsane Hwat Hpri HA Hroom Hbound Hf; [lia|].
  cbn [fd_reify_loop fst snd]. destruct todo as [|fd todo].
  - pose proof (ios_changes _ _ _ _ _ Hs) as [Hc _]. rewrite app_nil_r in Hc. rewrite Hc, Z.ltb_irrefl.
    exists (set_fdchangecnt 0 l), k, []. split; [done|]. split; [constructor|]. split; [by intros ? ?%elem_of_nil|].
    pose proof Hs as [Hok _ Hp Hpr Hlim _ Huser].
    assert (io_frame l (set_fdchangecnt 0 l)) as Hfr by (split; [by destruct l|done|done|done]).
    split_and!; [done|split; try done| |intros fd _; by apply kept_frame|done|apply (sane_frame l), (sane_mono _ (n + Z.of_nat (0 + length A))); done || lia|done|done|done|].
    + split; [done|]. by exists (fdchanges l).
    + apply (pending_ok_mem l); try done. intros w. cbn [mem set_fdchangecnt]. by destruct (mem l !! w).
    + intros i b Hb Hin He Hr Hst. apply (watches_frame l); [done|]. apply (Hwat i b); try done. by apply (steady_frame l _ k i Hfr).
    + intros m Hm pr q Hq. specialize (Hm pr q Hq). pose proof (total_nonneg I A). lia.
  - destruct (changes_next l d fd todo (ios_changes _ _ _ _ _ Hs)) as [-> ->]. cbn [mbind option_bind].
    simpl in Hf, Hbound.
    assert (roomy (Z.of_nat (length (I fd))) l) as Hroom1.
    { intros pr q Hq. specialize (Hroom pr q Hq). destruct (decide (I fd = [])) as [E|E].
      - rewrite E. simpl. pose proof (total_nonneg I A). lia.
      - pose proof (total_remove I fd A (HA fd E)). pose proof (total_nonneg (put I fd []) (remove fd A)). lia. }
    destruct (reify_one_ok l k I d fd todo P (n + Z.of_nat (length todo + length A)) Hs) as (l1 & k1 & Hrun & Hsane1 & Hpr1 & Hclk1 & Href1 & Hk1 & Hres); [lia| |done..|lia|].
    { eapply sane_mono; [|exact Hsane]. simpl. lia. }
    rewrite Hrun. cbn [mbind option_bind].
    assert (forall w, prio l1 w = pri w) as Hpri1 by (intros w; rewrite <- Hpri; by apply prio_same).
    pose proof (io_todo _ _ _ _ (ios_ok _ _ _ _ _ Hs)) as [Hni Hndt]%NoDup_cons.
    replace (Z.of_nat (length d) + 1) with (Z.of_nat (length (d ++ [fd]))) by (rewrite length_app; simpl; lia).
    destruct Hres as [(Hs1 & Hw1 & Hkfd & Hm1 & Hr1)|([HI Href] & Hs1 & Hw1 & Hm1 & Hr1)].
    + destruct (IH l1 k1 I (d ++ [fd]) todo P A) as (l' & k' & D & Hrun' & Hnd & HD & Hall); try done;
        [by apply Hr1|rewrite length_app; simpl; lia|lia|].
      exists l', k', D. split; [done|]. split; [done|]. split.
      { intros i Hi. destruct (HD i Hi). split; [by right|done]. }
      destruct Hall as (H1 & H2 & H3 & G1 & G2 & H4 & H5 & H7 & H6 & H8).
      split_and!; try done; [intros i Hi; apply (kept_trans _ (l1, k1)); [destruct (decide (i = fd)) as [->|Hne]; [done|by apply Hk1]|by apply G1]|intros i Hi; by apply G2, Href1|by eapply same_priorities_trans|by eapply clock_frame_trans|by rewrite H6, Hm1|by intros m Hm; apply H8, Hr1].
    + pose proof (total_remove I fd A (HA fd HI)) as Htot. pose proof (length_remove fd A (HA fd HI)) as Hlen.
      pose proof (mark_length fd todo) as Hml.
      destruct (IH l1 k1 (put I fd []) (d ++ [fd]) (mark fd todo) (killed pri (I fd) P) (remove fd A))
        as (l' & k' & D & Hrun' & Hnd & HD & Hall); try done.
      * eapply sane_mono; [|exact Hsane1]. unfold W in *. lia.
      * intros i Hi. unfold put in Hi. case_decide as E; [done|]. by apply elem_remove; [apply HA|].
      * apply Hr1. intros pr q Hq. specialize (Hroom pr q Hq). unfold W in *. lia.
      * rewrite length_app. cbn [length]. unfold W in *. lia.
      * unfold W in *. lia.
      * exists l', k', (fd :: D). split; [done|].
        assert (forall i, i ∈ D -> i <> fd) as HDfd.
        { intros i Hi ->. destruct (HD fd Hi) as (_ & Hp & _). apply Hp. unfold put. by rewrite decide_True. }
        destruct Hall as (H1' & H2' & H3' & G1 & G2 & H4' & H5' & H7' & H6' & H8').
        split; [constructor; [intros Hi; by apply (HDfd fd Hi)|done]|]. split.
        { intros i [->|Hi]%elem_of_cons; [split; [by left|split; [done|by apply G2]]|]. destruct (HD i Hi) as (H1 & H2 & H3).
          pose proof (HDfd i Hi). unfold put in H2. rewrite decide_False in H2 by done. split; [|done].
          right. unfold mark in H1. case_decide; [done|]. apply elem_of_app in H1 as [?|?]; [done|set_solver]. }
        assert (forall i, i ∈ D -> put I fd [] i = I i) as Hput.
        { intros i Hi. unfold put. by rewrite decide_False by (by apply HDfd). }
        split_and!; try done; [| | |by eapply same_priorities_trans|by eapply clock_frame_trans| |].
        -- replace (abandon I (fd :: D) P) with (abandon (put I fd []) D (killed pri (I fd) P)); [done|].
           cbn [abandon foldl]. by apply abandon_ext.
        -- intros i [Hne Hi]%not_elem_of_cons. apply (kept_trans _ (l1, k1)); [by apply Hk1|by apply G1].
        -- intros i Hi. by apply G2, Href1.
        -- rewrite H6', Hm1. cbn [given_up foldl]. by apply given_up_ext.
        -- intros m Hm. apply H8', Hr1. intros pr q Hq. specialize (Hm pr q Hq). unfold W in *. lia.
Qed.

(** The descriptors in use. *)
Definition used (l : ev_loop) : list Z := seqZ 0 (Z.min (Z.of_nat (length (anfds l))) fd_limit).

Lemma used_all l I d todo P fd : io_state l I d todo P -> I fd <> [] -> fd ∈ used l.
Proof.
  intros Hs HI. unfold used. rewrite elem_of_seqZ. pose proof (ios_limit _ _ _ _ _ Hs fd (or_introl HI)).
  destruct (array_get (anfds l) fd) as [a|] eqn:Ha; [|by rewrite (io_none _ _ _ _ (ios_ok _ _ _ _ _ Hs) fd Ha) in HI].
  apply array_get_Some in Ha as [? _]. lia.
Qed.

Lemma used_length l : (length (used l) <= length (anfds l))%nat /\ Z.of_nat (length (used l)) <= fd_limit.
Proof. unfold used. rewrite length_seqZ. unfold fd_limit. lia. Qed.

Lemma todo_used l I d todo P : io_state l I d todo P -> (length todo <= length (used l))%nat.
Proof.
  intros Hs. apply submseteq_length, NoDup_submseteq; [apply (ios_ok _ _ _ _ _ Hs)|]. intros fd Hfd.
  unfold used. rewrite elem_of_seqZ. pose proof (ios_limit _ _ _ _ _ Hs fd (or_intror Hfd)).
  pose proof (io_range _ _ _ _ (ios_ok _ _ _ _ _ Hs) fd Hfd). lia.
Qed.

(** fd_reify: the budget of the loop is enough. *)
Lemma fd_reify_ok l k I todo P n :
  io_state l I [] todo P -> 0 <= n -> sane (n + 2 * Z.of_nat (length (used l))) (l, k) -> watched (l, k) I todo ->
  (forall w, prio l w = pri w) -> roomy (total I (used l)) l ->
  exists l' k' D, fd_reify backend_modify (l, k) = Some (l', k') /\
    NoDup D /\ (forall fd, fd ∈ D -> fd ∈ todo /\ I fd <> [] /\ refuses k' fd) /\ all_processed n I (used l) P l k l' k' D.
Proof.
  intros Hs Hn Hsane Hwat Hpri Hroom. destruct (used_length l) as [H1 H2]. pose proof (todo_used _ _ _ _ _ Hs) as H3.
  unfold fd_reify. cbn [fst]. unfold fd_limit in H2.
  apply (reify_loop_ok n _ Hn l k I [] todo P (used l)); try done.
  - eapply sane_mono; [|exact Hsane]. lia.
  - intros fd Hfd. by eapply used_all.
  - cbn [length]. lia.
  - lia.
Qed.
End backend.

(** * Descriptors registered anew *)

Definition rearmed (a : ANFD) : ANFD := with_reify (u8 (reify a .| (EV__IOFDSET .| EV_ANFD_REIFY))) (with_emask 0 (with_events 0 a)).

(** What fd_rearm_all keeps. *)
Record rearm_frame (l l' : ev_loop) : Prop := RearmFrame {
  rf_mask : io_mask l' = io_mask l;
  rf_mem : mem l' = mem l;
  rf_pending : pendings l' = pendings l /\ pendingcnt l' = pendingcnt l;
  rf_length : length (anfds l') = length (anfds l);
}.

Lemma rearm_frame_refl l : rearm_frame l l.
Proof. by split. Qed.

Lemma rearm_frame_trans l1 l2 l3 : rearm_frame l1 l2 -> rearm_frame l2 l3 -> rearm_frame l1 l3.
Proof. intros [A1 A2 [A3 A4] A5] [B1 B2 [B3 B4] B5]. split; try congruence. split; congruence. Qed.

(** The entry of a descriptor is changed, and marked. *)
Lemma io_ok_mark m fs I todo fd a a' :
  io_ok m fs I todo -> array_get fs fd = Some a -> head a' = head a -> in_u 8 (reify a') -> reify a' <> 0 -> in_u 2 (fd_events a') ->
  io_ok m (<[Z.to_nat fd := a']> fs) I (mark fd todo).
Proof.
  intros Hok Ha Eh Hr8 Hr Hev. apply (io_ok_ext _ _ (put I fd (I fd))).
  { intros i. unfold put. by case_decide as E; [rewrite E|]. }
  eapply (io_ok_put _ _ _ _ m _ fd (I fd) a'); try done.
  - intros i Hi. left. by apply (get_insert_ne _ _ _ a).
  - by rewrite length_insert.
  - by apply (get_insert _ _ a).
  - rewrite Eh. by apply (io_chain _ _ _ _ Hok).
  - apply (io_nodup _ _ _ _ Hok).
  - intros w x n i e Hx Hb Hact. pose proof (io_active _ _ _ _ Hok w x n i e Hx Hb Hact) as Hin.
    unfold put. by case_decide as E; [rewrite <- E|].
Qed.

Lemma rearm_one_ok l I todo P fd a :
  io_state l I [] todo P -> array_get (anfds l) fd = Some a -> fd_events a <> 0 ->
  exists l', (l ← anfd_update fd (fun a => with_emask 0 (with_events 0 a)) l; fd_change fd (EV__IOFDSET .| EV_ANFD_REIFY) l) = Some l' /\
    io_state l' I [] (mark fd todo) P /\ anfds l' = <[Z.to_nat fd := rearmed a]> (anfds l) /\ rearm_frame l l'.
Proof.
  intros Hs Ha He. pose proof Hs as [Hok Hch Hp Hpri Hlim Hd Huser].
  rewrite (anfd_update_ok l fd _ a Ha). cbn [mbind option_bind]. set (a1 := with_emask 0 (with_events 0 a)).
  set (l1 := set_anfds (<[Z.to_nat fd := a1]> (anfds l)) l).
  assert (array_get (anfds l1) fd = Some a1) as Ha1 by (by apply (get_insert _ _ a)).
  pose proof (todo_length _ _ _ _ _ Hs) as Hlen. unfold fd_limit in Hlen.
  destruct (fd_change_ok l1 fd (EV__IOFDSET .| EV_ANFD_REIFY) a1 todo Ha1 Hch) as (l2 & Hrun & Hm & Hpe & Hpc & _ & Hfs & Hch2 & Hfr); [lia|].
  destruct (io_reify _ _ _ _ Hok fd a Ha) as [Hr8 Hr]. destruct (or_nonzero (reify a) (EV__IOFDSET .| EV_ANFD_REIFY) Hr8) as [Hn8 Hn0]; [done|done|].
  unfold l1 in Hfs. cbn [anfds set_anfds] in Hfs. rewrite list_insert_insert_eq in Hfs.
  exists l2. split; [done|]. split; [split|split; [exact Hfs|split]]; try done.
  - unfold bare. rewrite Hm, Hfs. by apply (io_ok_mark _ _ _ _ _ a).
  - change (reify a1) with (reify a) in Hch2. rewrite <- (mark_app (reify a) fd [] todo Hr). exact Hch2.
  - apply (pending_ok_mem l); try done. intros w. rewrite Hm. cbn [mem l1 set_anfds]. by destruct (mem l !! w).
  - unfold all_priorities. by rewrite Hm.
  - intros i [H|H]; [apply Hlim; by left|]. unfold mark in H. case_decide as D; [apply Hlim; by right|].
    apply elem_of_app in H as [H| ->%list_elem_of_singleton]; [apply Hlim; by right|]. apply Hlim.
    destruct (decide (reify a = 0)) as [E|E]; [left|right; by apply Hr]. destruct (io_sync _ _ _ _ Hok fd a Ha) as [_ Hsync].
    intros HI. apply He. by rewrite Hsync, HI.
  - unfold io_map. by rewrite Hm.
  - rewrite (if_mask _ _ Hfr). by destruct l.
  - rewrite Hfs. by rewrite length_insert.
Qed.

(** fd_rearm_all: every entry with events. *)
Lemma rearm_loop_ok fds : forall l I todo P,
  io_state l I [] todo P -> (forall fd, fd ∈ fds -> is_Some (array_get (anfds l) fd)) ->
  exists l' todo', rearm_loop fds l = Some l' /\ io_state l' I [] todo' P /\ rearm_frame l l' /\
    forall i, array_get (anfds l') i =
      (fun a => if bool_decide (i ∈ fds) && negb (fd_events a =? 0) then rearmed a else a) <$> array_get (anfds l) i.
Proof.
  induction fds as [|fd fds IH]; intros l I todo P Hs Hin.
  { exists l, todo. split_and!; [done|done|apply rearm_frame_refl|]. intros i. rewrite bool_decide_false by apply not_elem_of_nil.
    by destruct (array_get (anfds l) i). }
  cbn [rearm_loop]. destruct (Hin fd ltac:(by left)) as [a Ha]. rewrite Ha. cbn [mbind option_bind].
  destruct (Z.eqb_spec (fd_events a) 0) as [E|E]; cbn [negb].
  - cbn [mbind option_bind]. destruct (IH l I todo P Hs) as (l' & todo' & Hrun & Hs' & Hf & Hfs); [intros i Hi; apply Hin; by right|].
    exists l', todo'. split_and!; try done. intros i. rewrite Hfs. destruct (array_get (anfds l) i) as [b|] eqn:Hb; [|done].
    cbn [fmap option_fmap option_map]. f_equal. destruct (decide (i = fd)) as [->|Hne].
    + assert (b = a) as -> by congruence. rewrite E, Z.eqb_refl. cbn [negb]. by rewrite !andb_false_r.
    + by rewrite (bool_decide_ext (i ∈ fd :: fds) (i ∈ fds)) by set_solver.
  - destruct (rearm_one_ok l I todo P fd a Hs Ha E) as (l1 & Hrun1 & Hs1 & Hfs1 & Hf1). rewrite Hrun1. cbn [mbind option_bind].
    assert (array_get (anfds l1) fd = Some (rearmed a)) as Ha1 by (rewrite Hfs1; by apply (get_insert _ _ a)).
    assert (forall i, i <> fd -> array_get (anfds l1) i = array_get (anfds l) i) as Hne
      by (intros i Hi; rewrite Hfs1; by apply (get_insert_ne _ _ _ a)).
    destruct (IH l1 I (mark fd todo) P Hs1) as (l' & todo' & Hrun & Hs' & Hf & Hfs).
    { intros i Hi. destruct (decide (i = fd)) as [->|Hi']; [by eexists|]. rewrite Hne by done. apply Hin. by right. }
    exists l', todo'. split_and!; [done|done|by eapply rearm_frame_trans|]. intros i. rewrite Hfs. destruct (decide (i = fd)) as [->|Hi].
    + rewrite Ha1, Ha. cbn [fmap option_fmap option_map]. rewrite (bool_decide_true (fd ∈ fd :: fds)) by (by left).
      rewrite (proj2 (Z.eqb_neq _ _) E). cbn [andb negb]. by rewrite andb_false_r.
    + rewrite Hne by done. destruct (array_get (anfds l) i); [|done]. cbn [fmap option_fmap option_map]. f_equal.
      by rewrite (bool_decide_ext (i ∈ fd :: fds) (i ∈ fds)) by set_solver.
Qed.

Lemma fd_rearm_all_ok l I todo P :
  io_state l I [] todo P ->
  exists l' todo', fd_rearm_all l = Some l' /\ io_state l' I [] todo' P /\ rearm_frame l l' /\
    forall i, array_get (anfds l') i = (fun a => if negb (fd_events a =? 0) then rearmed a else a) <$> array_get (anfds l) i.
Proof.
  intros Hs. destruct (rearm_loop_ok (seqZ 0 (Z.of_nat (length (anfds l)))) l I todo P Hs) as (l' & todo' & Hrun & Hs' & Hf & Hfs).
  { intros fd Hfd%elem_of_seqZ. destruct (array_get_range (anfds l) fd) as [a Ha]; [lia|by eexists]. }
  exists l', todo'. split_and!; try done. intros i. rewrite Hfs. destruct (array_get (anfds l) i) as [a|] eqn:Ha; [|done].
  rewrite bool_decide_true; [done|]. apply elem_of_seqZ. apply array_get_Some in Ha as [? _]. lia.
Qed.
