(* ===== verification/EvEpoll.v ===== *)
(** The epoll backend of libev (src/libev-4.15/ev_epoll.c): registering
    descriptors with the kernel, and the events that the kernel reports. The
    kernel is a parameter: its state and epoll_ctl, and for the theorems the
    registrations it holds and the calls made so far. *)
From S2P Require Import Prelude EvTime Ev EvIo.

Open Scope c_scope.

Definition EPOLLIN : Z := 1.
Definition EPOLLOUT : Z := 4.
Definition EPOLLERR : Z := 8.
Definition EPOLLHUP : Z := 16.

Inductive epoll_op := EPOLL_CTL_ADD | EPOLL_CTL_DEL | EPOLL_CTL_MOD.
Inductive errno := ENOENT | EEXIST | EPERM | EOTHER.

#[export] Instance epoll_op_eq_dec : EqDecision epoll_op.
Proof. solve_decision. Defined.
#[export] Instance errno_eq_dec : EqDecision errno.
Proof. solve_decision. Defined.

(** A [struct epoll_event]: its data and its events. *)
Definition epoll_event : Type := Z * Z.

(** A call of epoll_ctl for a descriptor, and its error. *)
Definition epoll_call : Type := epoll_op * Z * option errno.

(** [registered] and [history] are for the theorems only: the registrations that
    the kernel holds, and the calls of epoll_ctl so far, the last one first. *)
Class Kernel (K : Type) := {
  epoll_ctl : epoll_op -> Z -> epoll_event -> K -> option errno * K;
  registered : K -> Z -> option epoll_event;
  history : K -> list epoll_call;
}.

Definition EV_EMASK_EPERM : Z := 128.

Definition epoll_bits (ev : Z) : Z :=
  (if negb (ev .& EV_READ =? 0) then EPOLLIN else 0) .| (if negb (ev .& EV_WRITE =? 0) then EPOLLOUT else 0).

(** The generation counter in the upper 32 bits, the descriptor in the lower. *)
Definition epoll_data (fd egen : Z) : Z := u32 fd .| u64 (egen .<< 32).

Section epoll.
Context {K : Type} `{!Kernel K}.

(** The label dec_egen. *)
Definition dec_egen (fd : Z) (s : ev_loop * K) : option (ev_loop * K) :=
  l ← anfd_update fd (fun a => with_egen (u32 (egen a - 1)) a) s.1; Some (l, s.2).

Definition kill_dec_egen (fd : Z) (s : ev_loop * K) : option (ev_loop * K) :=
  l ← fd_kill fd s.1; dec_egen fd (l, s.2).

(** On EPERM. *)
Definition add_eperm (fd oldmask : Z) (l : ev_loop) : option ev_loop :=
  l ← anfd_update fd (with_emask EV_EMASK_EPERM) l;
  if oldmask .& EV_EMASK_EPERM =? 0 then
    es ← array_needsize 4 (epoll_eperms l) (epoll_epermcnt l + 1) 0;
    es ← array_set es (epoll_epermcnt l) fd;
    Some (set_epoll_epermcnt (epoll_epermcnt l + 1) (set_epoll_eperms es l))
  else Some l.

Definition epoll_modify (fd oev nev : Z) (s : ev_loop * K) : option (ev_loop * K) :=
  let '(l, k) := s in
  if nev =? 0 then Some (l, k)
  else
    a ← array_get (anfds l) fd;
    let oldmask := emask a in
    l ← anfd_update fd (fun a => with_egen (u32 (egen a + 1)) (with_emask (u8 nev) a)) l;
    let ev := (epoll_data fd (u32 (egen a + 1)), epoll_bits nev) in
    let op := if negb (oev =? 0) && negb (oldmask =? nev) then EPOLL_CTL_MOD else EPOLL_CTL_ADD in
    let '(err, k) := epoll_ctl op fd ev k in
    match err with
    | None => Some (l, k)
    | Some ENOENT =>
        if nev =? 0 then dec_egen fd (l, k)
        else
          let '(err, k) := epoll_ctl EPOLL_CTL_ADD fd ev k in
          if decide (err = None) then Some (l, k) else kill_dec_egen fd (l, k)
    | Some EEXIST =>
        if oldmask =? nev then dec_egen fd (l, k)
        else
          let '(err, k) := epoll_ctl EPOLL_CTL_MOD fd ev k in
          if decide (err = None) then Some (l, k) else kill_dec_egen fd (l, k)
    | Some EPERM => l ← add_eperm fd oldmask l; Some (l, k)
    | Some EOTHER => kill_dec_egen fd (l, k)
    end.

(** The events of libev in those that the kernel reports. *)
Definition got_of (events : Z) : Z :=
  (if negb (events .& (EPOLLOUT .| EPOLLERR .| EPOLLHUP) =? 0) then EV_WRITE else 0) .|
  (if negb (events .& (EPOLLIN .| EPOLLERR .| EPOLLHUP) =? 0) then EV_READ else 0).

(** The body of the first loop of epoll_poll. *)
Definition poll_one (ev : epoll_event) (s : ev_loop * K) : option (ev_loop * K) :=
  let '(data, events) := ev in
  let '(l, k) := s in
  let fd := s32 (u32 data) in
  a ← array_get (anfds l) fd;
  let want := fd_events a in
  let got := got_of events in
  if negb (u32 (egen a) =? u32 (data .>> 32)) then Some (set_postfork 1 l, k)
  else if negb (got .& Z.lnot want =? 0) then
    l ← anfd_update fd (with_emask want) l;
    let '(err, k) := epoll_ctl (if negb (want =? 0) then EPOLL_CTL_MOD else EPOLL_CTL_DEL) fd (data, epoll_bits want) k in
    if decide (err = None) then l ← fd_event fd got l; Some (l, k) else Some (set_postfork 1 l, k)
  else l ← fd_event fd got l; Some (l, k).

Fixpoint poll_loop (evs : list epoll_event) (s : ev_loop * K) : option (ev_loop * K) :=
  match evs with
  | [] => Some s
  | ev :: evs => s ← poll_one ev s; poll_loop evs s
  end.

(** The last loop, for the descriptors that epoll refuses; [i] is the number of
    entries that are left. *)
Fixpoint eperm_loop (i : nat) (l : ev_loop) : option ev_loop :=
  match i with
  | O => Some l
  | S i =>
      fd ← array_get (epoll_eperms l) (Z.of_nat i);
      a ← array_get (anfds l) fd;
      let events := u8 (fd_events a .& (EV_READ .| EV_WRITE)) in
      l ← (if negb (emask a .& EV_EMASK_EPERM =? 0) && negb (events =? 0) then fd_event fd events l
           else
             let l := set_epoll_epermcnt (epoll_epermcnt l - 1) l in
             last ← array_get (epoll_eperms l) (epoll_epermcnt l);
             es ← array_set (epoll_eperms l) (Z.of_nat i) last;
             Some (set_epoll_eperms es l));
      eperm_loop i l
  end.

(** [received]: what epoll_wait gives, [None] when a signal interrupts it. For
    other errors the function calls ev_syserr, which does not return. The
    buffer for the events is not part of the state of the loop. *)
Definition epoll_poll (received : option (list epoll_event)) (s : ev_loop * K) : option (ev_loop * K) :=
  match received with
  | None => Some s
  | Some evs =>
      '(l, k) ← poll_loop evs s;
      l ← eperm_loop (Z.to_nat (epoll_epermcnt l)) l;
      Some (l, k)
  end.

(** [epoll_create]: the kernel after the loop has closed its epoll instance and
    got a new one. *)
Definition epoll_fork (epoll_create : K -> K) (s : ev_loop * K) : option (ev_loop * K) :=
  l ← fd_rearm_all s.1; Some (l, epoll_create s.2).
End epoll.

(** What epoll_ctl(2) documents. Any call may fail, with ENOMEM for instance, and
    then changes nothing. *)
Class KernelLaws (K : Type) `{!Kernel K} : Prop := {
  ctl_other op fd ev k fd' : fd' <> fd -> registered (epoll_ctl op fd ev k).2 fd' = registered k fd';
  ctl_failed op fd ev k err : (epoll_ctl op fd ev k).1 = Some err ->
    registered (epoll_ctl op fd ev k).2 fd = registered k fd;
  ctl_set op fd ev k : (epoll_ctl op fd ev k).1 = None ->
    registered (epoll_ctl op fd ev k).2 fd = (match op with EPOLL_CTL_DEL => None | _ => Some ev end);
  (** EEXIST: the descriptor is already registered. *)
  ctl_eexist op fd ev k : (epoll_ctl op fd ev k).1 = Some EEXIST -> op = EPOLL_CTL_ADD /\ registered k fd <> None;
  (** ENOENT: it is not registered, and was to be modified or deleted. *)
  ctl_enoent op fd ev k : (epoll_ctl op fd ev k).1 = Some ENOENT -> op <> EPOLL_CTL_ADD /\ registered k fd = None;
  (** EPERM: its file does not support epoll. *)
  ctl_eperm op fd ev k : (epoll_ctl op fd ev k).1 = Some EPERM -> registered k fd = None;
  ctl_history op fd ev k : history (epoll_ctl op fd ev k).2 = (op, fd, (epoll_ctl op fd ev k).1) :: history k;
}.

(** Any implementation of epoll_ctl can be given a history. *)
Definition with_history {K} (ctl : epoll_op -> Z -> epoll_event -> K -> option errno * K)
    (reg : K -> Z -> option epoll_event) : Kernel (K * list epoll_call) := {|
  epoll_ctl op fd ev k := let '(err, k') := ctl op fd ev k.1 in (err, (k', (op, fd, err) :: k.2));
  registered k := reg k.1;
  history k := k.2;
|}.

Section calls.
Context {K : Type} `{!Kernel K}.

(** The kernel gives this answer in some state. *)
Definition real (c : epoll_call) : Prop := exists ev k, (epoll_ctl c.1.1 c.1.2 ev k).1 = c.2.

(** From [k] to [k'] the calls [cs] were made, the last one first. *)
Definition made (k : K) (cs : list epoll_call) (k' : K) : Prop := history k' = cs ++ history k /\ Forall real cs.

Lemma made_nil k : made k [] k.
Proof. by split. Qed.

Lemma made_trans k cs k1 cs' k' : made k cs k1 -> made k1 cs' k' -> made k (cs' ++ cs) k'.
Proof. intros [E1 H1] [E2 H2]. split; [by rewrite E2, E1, app_assoc|by apply Forall_app]. Qed.

Lemma made_ctl `{!KernelLaws K} op fd ev k : made k [(op, fd, (epoll_ctl op fd ev k).1)] (epoll_ctl op fd ev k).2.
Proof. split; [apply ctl_history|]. constructor; [by exists ev, k|constructor]. Qed.

(** The kernel refuses [fd] in one of the calls: it gives an error that
    epoll_modify does not know, or the descriptor is not registered and cannot
    be added. *)
Definition refusal (cs : list epoll_call) (fd : Z) : Prop :=
  (exists op, op <> EPOLL_CTL_DEL /\ (op, fd, Some EOTHER) ∈ cs) \/
  ((EPOLL_CTL_MOD, fd, Some ENOENT) ∈ cs /\ (EPOLL_CTL_ADD, fd, Some EPERM) ∈ cs).

(** The file of [fd] does not support epoll. *)
Definition always_eperm (fd : Z) : Prop :=
  forall op ev (k : K), op <> EPOLL_CTL_DEL -> (epoll_ctl op fd ev k).1 = Some EPERM.

Lemma always_eperm_refusal cs fd : Forall real cs -> always_eperm fd -> ~ refusal cs fd.
Proof.
  intros Hr Ha. assert (forall op err, op <> EPOLL_CTL_DEL -> (op, fd, err) ∈ cs -> err = Some EPERM) as H.
  { intros op err Hop Hin. rewrite List.Forall_forall in Hr. destruct (Hr _ (proj1 (list_elem_of_In _ _) Hin)) as (ev & k & E). cbn [fst snd] in E. rewrite <- E. by apply Ha. }
  intros [(op & Hop & Hin)|[Hin _]]; by apply H in Hin.
Qed.

(** Some call for [fd] failed. *)
Definition failed (cs : list epoll_call) (fd : Z) : Prop := exists op err, (op, fd, Some err) ∈ cs.
End calls.
