(* ===== verification/EvEpollOk.v ===== *)
(** epoll_modify of EvEpoll.v keeps the registrations of the kernel in step with
    the table of descriptors: it is a backend in the sense of EvIoReify.v. *)
From S2P Require Import Prelude EvTime Ev EvPending EvTimer EvIo EvIoRep EvIoOps EvIoEvents EvIoReify EvEpoll.

Open Scope c_scope.

(** * States that differ in the notes of the backend *)

Definition same_entry (a a' : ANFD) : Prop := head a' = head a /\ fd_events a' = fd_events a /\ reify a' = reify a.

Definition same_entries (fs fs' : list ANFD) : Prop :=
  length fs' = length fs /\
  forall fd, match array_get fs fd, array_get fs' fd with
             | Some a, Some a' => same_entry a a'
             | None, None => True
             | _, _ => False
             end.

Lemma same_entries_refl fs : same_entries fs fs.
Proof. split; [done|]. intros fd. by destruct (array_get fs fd). Qed.

Lemma same_entries_insert fs fd a a' :
  array_get fs fd = Some a -> same_entry a a' -> same_entries fs (<[Z.to_nat fd := a']> fs).
Proof.
  intros Ha He. split; [apply length_insert|]. intros i. destruct (decide (i = fd)) as [->|Hne].
  - by rewrite (get_insert _ _ a), Ha.
  - rewrite (get_insert_ne _ _ _ a) by done. by destruct (array_get fs i).
Qed.

Lemma io_ok_entries m fs fs' I todo : same_entries fs fs' -> io_ok m fs I todo -> io_ok m fs' I todo.
Proof.
  intros [Hl He] [H1 H2 H3 H4 H5 H6 H7 H8].
  assert (forall fd a', array_get fs' fd = Some a' -> exists a, array_get fs fd = Some a /\ same_entry a a') as Hback.
  { intros fd a' Ha'. specialize (He fd). rewrite Ha' in He. destruct (array_get fs fd); [eauto|done]. }
  split; try done.
  - intros fd a' Ha'. destruct (Hback fd a' Ha') as (a & Ha & -> & _). by apply H1.
  - intros fd Hn. specialize (He fd). rewrite Hn in He. destruct (array_get fs fd) eqn:E; [done|]. by apply H2.
  - intros fd a' Ha'. destruct (Hback fd a' Ha') as (a & Ha & _ & _ & ->). by apply H5.
  - intros fd Hfd. rewrite Hl. by apply H7.
  - intros fd a' Ha'. destruct (Hback fd a' Ha') as (a & Ha & _ & -> & ->). by apply H8.
Qed.

(** The parts of the loop that the io watchers are about. *)
Record io_same (l l' : ev_loop) : Prop := IoSame {
  is_mem : mem l' = mem l;
  is_anfds : same_entries (anfds l) (anfds l');
  is_changes : fdchanges l' = fdchanges l /\ fdchangecnt l' = fdchangecnt l;
  is_pending : pendings l' = pendings l /\ pendingcnt l' = pendingcnt l;
  is_clock : clock_frame l l';
}.

Lemma io_same_state l l' I d todo P : io_same l l' -> io_state l I d todo P -> io_state l' I d todo P.
Proof.
  intros [Hm Ha [Hc1 Hc2] [Hp1 Hp2] _] [H1 H2 H3 H4 H5 H6 H7]. split; try done.
  - unfold bare. rewrite Hm. by apply (io_ok_entries _ (anfds l)).
  - unfold changes. by rewrite Hc1, Hc2.
  - apply (pending_ok_mem l); try done. intros w. rewrite Hm. by destruct (mem l !! w).
  - unfold all_priorities. by rewrite Hm.
  - unfold io_map. by rewrite Hm.
Qed.

Lemma io_same_roomy l l' n : io_same l l' -> roomy n l -> roomy n l'.
Proof. intros [_ _ _ [Hp1 Hp2] _] H pri q Hq. apply (H pri q). rewrite <- Hq. symmetry. apply stack_same; congruence. Qed.

Lemma io_same_map l l' : io_same l l' -> io_map l' = io_map l.
Proof. intros [Hm _ _ _ _]. unfold io_map. by rewrite Hm. Qed.

Lemma io_same_priorities l l' : io_same l l' -> same_priorities l l'.
Proof. intros [Hm _ _ _ _]. unfold same_priorities. by rewrite Hm. Qed.

Lemma io_same_length l l' : io_same l l' -> length (anfds l') = length (anfds l).
Proof. intros [_ [Hl _] _ _ _]. exact Hl. Qed.

Lemma io_same_trans l1 l2 l3 : io_same l1 l2 -> io_same l2 l3 -> io_same l1 l3.
Proof.
  intros [A1 [B1 B1'] [C1 C1'] [D1 D1'] E1] [A2 [B2 B2'] [C2 C2'] [D2 D2'] E2].
  split; try (split; congruence); [congruence| |by eapply clock_frame_trans].
  split; [congruence|]. intros fd. specialize (B1' fd). specialize (B2' fd). unfold same_entry in *.
  destruct (array_get (anfds l1) fd), (array_get (anfds l2) fd), (array_get (anfds l3) fd); intuition congruence.
Qed.

(** A note of the backend. *)
Lemma note_ok l fd g a :
  array_get (anfds l) fd = Some a -> same_entry a (g a) ->
  exists l', anfd_update fd g l = Some l' /\ l' = set_anfds (<[Z.to_nat fd := g a]> (anfds l)) l /\ io_same l l' /\
    array_get (anfds l') fd = Some (g a) /\
    (forall i, i <> fd -> array_get (anfds l') i = array_get (anfds l) i) /\
    (forall i, marks l' i = if decide (i = fd) then (emask (g a), egen (g a)) else marks l i).
Proof.
  intros Ha He. eexists. split; [by apply anfd_update_ok|]. split; [done|].
  assert (array_get (<[Z.to_nat fd := g a]> (anfds l)) fd = Some (g a)) as Hg by (by apply (get_insert _ _ a)).
  assert (forall i, i <> fd -> array_get (<[Z.to_nat fd := g a]> (anfds l)) i = array_get (anfds l) i) as Hne
    by (intros; by eapply get_insert_ne).
  split_and!; [split; try done; by apply (same_entries_insert _ _ a)|done|done|].
  intros i. unfold marks. cbn [anfds set_anfds]. destruct (decide (i = fd)) as [->|Hi]; [by rewrite Hg|by rewrite Hne].
Qed.

(** ** Numbers *)

Lemma epoll_bits_inj m m' : in_u 2 m -> in_u 2 m' -> epoll_bits m = epoll_bits m' -> m = m'.
Proof.
  intros Hm Hm'. assert (forall x, in_u 2 x -> x = 0 \/ x = 1 \/ x = 2 \/ x = 3) as H by (intros x [? ?]; lia).
  destruct (H m Hm) as [-> | [-> | [-> | ->]]], (H m' Hm') as [-> | [-> | [-> | ->]]]; by vm_compute.
Qed.

Lemma egen_back g : in_u 32 g -> u32 (u32 (g + 1) - 1) = g.
Proof. intros [? ?]. unfold wrap. rewrite Zminus_mod_idemp_l, Z.add_simpl_r. by apply Z.mod_small. Qed.

Lemma u8_mask m : in_u 2 m -> u8 m = m.
Proof. intros H. apply wrap_id. by apply (in_u_mono 2). Qed.

Lemma mask_no_eperm m : in_u 2 m -> m .& EV_EMASK_EPERM = 0.
Proof.
  intros [? ?]. assert (m = 0 \/ m = 1 \/ m = 2 \/ m = 3) as [-> | [-> | [-> | ->]]] by lia; done.
Qed.

(** * The invariant *)

Section epoll.
Context {K : Type} `{!Kernel K, !KernelLaws K}.

Definition eperms (l : ev_loop) : list Z := take (Z.to_nat (epoll_epermcnt l)) (epoll_eperms l).

(** A registration that carries the current generation; the mask of the
    descriptor is one of events. *)
Definition noted (l : ev_loop) (fd : Z) (ev : epoll_event) : Prop :=
  ev.1 = epoll_data fd (marks l fd).2 /\ in_u 2 (marks l fd).1.

Record epoll_ok (n : Z) (s : ev_loop * K) : Prop := EpollOk {
  ek_registered : forall fd ev, registered s.2 fd = Some ev -> noted s.1 fd ev;
  ek_egen : forall fd, in_u 32 (marks s.1 fd).2;
  ek_table : forall fd, fd ∈ eperms s.1 -> 0 <= fd < Z.of_nat (length (anfds s.1));
  ek_room : 0 <= epoll_epermcnt s.1 <= Z.of_nat (length (epoll_eperms s.1)) /\ epoll_epermcnt s.1 + n <= 2 ^ 25;
}.

(** epoll_modify noted that epoll does not support the descriptor. *)
Definition snubbed (l : ev_loop) (fd : Z) : Prop := (marks l fd).1 .& EV_EMASK_EPERM <> 0.

(** The notes of a descriptor are right: it is registered, if at all, for the
    events noted, and is among the always ready ones if it is snubbed. *)
Definition in_step (s : ev_loop * K) (fd : Z) : Prop :=
  (forall ev, registered s.2 fd = Some ev -> ev = (epoll_data fd (marks s.1 fd).2, epoll_bits (marks s.1 fd).1)) /\
  (snubbed s.1 fd -> fd ∈ eperms s.1).

(** It is snubbed and not among them: neither the kernel nor epoll_poll knows it. *)
Definition forgotten (l : ev_loop) (fd : Z) : Prop := snubbed l fd /\ fd ∉ eperms l.

(** What epoll_modify keeps of a descriptor that it does not give up. *)
Definition epoll_kept (s s' : ev_loop * K) (fd : Z) : Prop :=
  (in_step s fd -> in_step s' fd) /\ (always_eperm (K := K) fd -> forgotten s.1 fd -> forgotten s'.1 fd).

Lemma epoll_kept_refl s fd : epoll_kept s s fd.
Proof. by split. Qed.

Lemma epoll_kept_trans s1 s2 s3 fd : epoll_kept s1 s2 fd -> epoll_kept s2 s3 fd -> epoll_kept s1 s3 fd.
Proof. intros [A1 B1] [A2 B2]. split; auto. Qed.

(** Events that the kernel reports, or that epoll_poll makes up. *)
Definition epoll_watches (s : ev_loop * K) (fd m : Z) : Prop :=
  registered s.2 fd = Some (epoll_data fd (marks s.1 fd).2, epoll_bits m) \/
  (snubbed s.1 fd /\ fd ∈ eperms s.1).

(** The same notes of a descriptor. *)
Record similar (s s' : ev_loop * K) (fd : Z) : Prop := Similar {
  sm_marks : marks s'.1 fd = marks s.1 fd;
  sm_registered : registered s'.2 fd = registered s.2 fd;
  sm_eperms : fd ∈ eperms s'.1 <-> fd ∈ eperms s.1;
}.

Lemma similar_kept s s' fd : similar s s' fd ->
  epoll_kept s s' fd /\ (in_step s' fd -> in_step s fd) /\ forall m, epoll_watches s fd m -> epoll_watches s' fd m.
Proof.
  intros [E1 E2 E3]. unfold epoll_kept, in_step, forgotten, epoll_watches, snubbed. rewrite E1, E2, E3. naive_solver.
Qed.

Lemma frame_epoll l l' : io_frame l l' -> epoll_eperms l' = epoll_eperms l /\ epoll_epermcnt l' = epoll_epermcnt l.
Proof. intros [H _ _]. split; [by apply (f_equal epoll_eperms) in H|by apply (f_equal epoll_epermcnt) in H]. Qed.

(** What the backend notes is the same. *)
Record notes_frame (l l' : ev_loop) : Prop := NotesFrame {
  nf_marks : forall fd, marks l' fd = marks l fd;
  nf_eperms : epoll_eperms l' = epoll_eperms l /\ epoll_epermcnt l' = epoll_epermcnt l;
  nf_length : (length (anfds l) <= length (anfds l'))%nat;
}.

Lemma io_notes l l' : io_frame l l' -> notes_frame l l'.
Proof. intros Hf. split; [apply Hf|by apply frame_epoll|apply Hf]. Qed.

Lemma notes_frame_refl l : notes_frame l l.
Proof. by split. Qed.

Lemma notes_frame_trans l1 l2 l3 : notes_frame l1 l2 -> notes_frame l2 l3 -> notes_frame l1 l3.
Proof. intros [H1 [H2 H3] H4] [G1 [G2 G3] G4]. split; [intros fd; by rewrite G1|split; congruence|lia]. Qed.

Lemma notes_similar l l' k fd : notes_frame l l' -> similar (l, k) (l', k) fd.
Proof. intros [Em [E1 E2] _]. split; cbn [fst snd]; [done|done|]. unfold eperms. by rewrite E1, E2. Qed.

Lemma epoll_watches_notes l l' k fd m : notes_frame l l' -> epoll_watches (l, k) fd m -> epoll_watches (l', k) fd m.
Proof. intros H. by apply similar_kept, notes_similar. Qed.

Lemma in_step_notes l l' k fd : notes_frame l l' -> in_step (l', k) fd -> in_step (l, k) fd.
Proof. intros H. by apply similar_kept, notes_similar. Qed.

Lemma epoll_kept_notes l l' k fd : notes_frame l l' -> epoll_kept (l, k) (l', k) fd.
Proof. intros H. by apply similar_kept, notes_similar. Qed.

Lemma epoll_ok_notes l l' k n : notes_frame l l' -> epoll_ok n (l, k) -> epoll_ok n (l', k).
Proof.
  intros [Em [E1 E2] Hl] [H1 H2 H5 H4]. unfold noted in *. cbn [fst snd] in *.
  split; unfold noted, eperms; cbn [fst snd]; rewrite ?E1, ?E2; try done; intros fd; [rewrite Em..|intros Hfd; specialize (H5 fd Hfd); lia]; [apply H1|apply H2].
Qed.

Lemma epoll_watches_frame l l' k fd m : io_frame l l' -> epoll_watches (l, k) fd m -> epoll_watches (l', k) fd m.
Proof. intros Hf. by apply epoll_watches_notes, io_notes. Qed.

Lemma epoll_ok_frame l l' k n : io_frame l l' -> epoll_ok n (l, k) -> epoll_ok n (l', k).
Proof. intros Hf. by apply epoll_ok_notes, io_notes. Qed.

Lemma epoll_ok_mono s n n' : n' <= n -> epoll_ok n s -> epoll_ok n' s.
Proof. intros Hn [H1 H2 H5 H4]. split; try done. lia. Qed.

(** ** Steps *)

(** The note and the registration of one descriptor change. *)
Lemma epoll_step l l' (k k' : K) fd n c :
  epoll_ok (n + c) (l, k) -> (forall i, i <> fd -> marks l' i = marks l i) ->
  (forall i, i <> fd -> registered k' i = registered k i) ->
  (forall ev, registered k' fd = Some ev -> noted l' fd ev) -> in_u 32 (marks l' fd).2 ->
  (forall i, i <> fd -> i ∈ eperms l' <-> i ∈ eperms l) ->
  (length (anfds l) <= length (anfds l'))%nat -> 0 <= fd < Z.of_nat (length (anfds l')) ->
  epoll_epermcnt l <= epoll_epermcnt l' <= epoll_epermcnt l + c ->
  epoll_epermcnt l' <= Z.of_nat (length (epoll_eperms l')) ->
  epoll_ok n (l', k') /\ forall i, i <> fd -> similar (l, k) (l', k') i.
Proof.
  intros [H1 H2 H5 H4] Hm Hr Hev Hg Hi Hlen Hfd Hc Hl. cbn [fst snd] in *. split; [split|]; cbn [fst snd].
  - intros i ev Hi'. destruct (decide (i = fd)) as [->|Hne]; [by apply Hev|]. rewrite Hr in Hi' by done.
    unfold noted. rewrite Hm by done. by apply H1.
  - intros i. destruct (decide (i = fd)) as [->|Hne]; [done|]. by rewrite Hm.
  - intros i Hin. destruct (decide (i = fd)) as [->|Hne]; [done|]. apply Hi, H5 in Hin; [lia|done].
  - lia.
  - intros i Hne. split; cbn [fst snd]; auto.
Qed.

(** What a call of epoll_modify gives, with the calls [cs] of epoll_ctl. *)
Definition modify_gives (pri : W -> Z) (I : chains) (d todo : list Z) (P : queues) (fd n : Z) (a : ANFD)
    (s : ev_loop * K) (res : option (ev_loop * K)) : Prop :=
  exists l' k' cs, res = Some (l', k') /\ made s.2 cs k' /\ epoll_ok n (l', k') /\ same_priorities s.1 l' /\ clock_frame s.1 l' /\
    (forall i, i <> fd -> array_get (anfds l') i = array_get (anfds s.1) i) /\
    (forall i, i <> fd -> similar s (l', k') i) /\
    (modified epoll_watches in_step I d todo P fd (fd_events a) s.1 l' k' /\ epoll_kept s (l', k') fd /\
       (exists a', array_get (anfds l') fd = Some a' /\ fd_events a' = fd_events a)
     \/ gave_up (fun _ => refusal cs) pri I d todo P fd (fd_events a) s.1 l' k').

(** The descriptor is kept. *)
Lemma gives_modified pri l l' k k' cs I d todo P fd n a a' :
  io_state l I d todo P -> io_same l l' -> array_get (anfds l') fd = Some a' -> fd_events a' = fd_events a ->
  (forall i, i <> fd -> array_get (anfds l') i = array_get (anfds l) i) -> made k cs k' ->
  (epoll_ok n (l', k') /\ forall i, i <> fd -> similar (l, k) (l', k') i) ->
  (in_step (l', k') fd -> epoll_watches (l', k') fd (fd_events a)) -> epoll_kept (l, k) (l', k') fd ->
  modify_gives pri I d todo P fd n a (l, k) (Some (l', k')).
Proof.
  intros Hs Hsame Ha' Ea Hother Hcs [Hok Hw] Hfd Hk. exists l', k', cs. cbn [fst snd].
  split_and!; [done|done|done|by apply io_same_priorities|by apply is_clock|done|done|]. left. split; [|split; [done|by exists a']].
  split_and!; [by apply (io_same_state l)|by apply io_same_map|intros m; by apply io_same_roomy|done].
Qed.

(** The kernel refuses the descriptor. *)
Lemma gives_killed pri l l1 k k' cs I d todo P fd n a a1 :
  io_state l I d todo P -> (forall w, prio l w = pri w) -> I fd <> [] -> roomy (Z.of_nat (length (I fd))) l ->
  fd_events a <> 0 -> in_u 2 (fd_events a) -> in_u 32 (egen a) -> marks l fd = (emask a, egen a) ->
  io_same l l1 -> array_get (anfds l1) fd = Some a1 -> a1 = with_egen (u32 (egen a + 1)) (with_emask (fd_events a) a) ->
  (forall i, i <> fd -> array_get (anfds l1) i = array_get (anfds l) i) ->
  (forall i, marks l1 i = if decide (i = fd) then (emask a1, egen a1) else marks l i) ->
  epoll_eperms l1 = epoll_eperms l /\ epoll_epermcnt l1 = epoll_epermcnt l ->
  epoll_ok (n + 1) (l, k) -> (forall i, i <> fd -> registered k' i = registered k i) -> registered k' fd = registered k fd ->
  made k cs k' -> refusal cs fd ->
  modify_gives pri I d todo P fd n a (l, k) (kill_dec_egen fd (l1, k')).
Proof.
  intros Hs Hpri HI Hroom He0 He Hg Hmold Hsame Ha1 Ea1 Hother Hmarks [Ee1 Ee2] Hok Hr Hsamereg Hcs Href.
  destruct (fd_kill_ok pri fd l1 I d todo P a1) as (l2 & Hrun & Hs2 & Hf & Hm2 & Ho2 & Hr2);
    [by apply (io_same_state l)|done|intros w; rewrite <- Hpri; apply prio_same; by apply io_same_priorities|by apply (io_same_roomy l)|].
  rewrite decide_False in Hs2 by done. unfold kill_dec_egen. cbn [fst snd]. rewrite Hrun. cbn [mbind option_bind].
  destruct (array_get_range (anfds l2) fd) as [a2 Ha2].
  { apply (io_range _ _ _ _ (ios_ok _ _ _ _ _ Hs2)). apply mark_elem. }
  assert (marks l2 fd = (emask a1, egen a1)) as Hm2fd by (by rewrite (if_marks _ _ Hf), Hmarks, decide_True).
  pose proof Hm2fd as Hm2a. unfold marks in Hm2a. rewrite Ha2 in Hm2a. injection Hm2a as Em Eg.
  destruct (note_ok l2 fd (fun a => with_egen (u32 (egen a - 1)) a) a2 Ha2) as (l3 & Hrun3 & El3 & Hs3 & Ha3 & Ho3 & Hm3); [done|].
  unfold dec_egen. cbn [fst snd]. rewrite Hrun3. cbn [mbind option_bind].
  destruct (frame_epoll _ _ Hf) as [Ef1 Ef2].
  assert (epoll_eperms l3 = epoll_eperms l /\ epoll_epermcnt l3 = epoll_epermcnt l) as [Eg1 Eg2] by (rewrite El3; cbn; split; congruence).
  assert (eperms l3 = eperms l) as Ep by (unfold eperms; by rewrite Eg1, Eg2).
  assert (marks l3 fd = (fd_events a, egen a)) as Hm3fd.
  { rewrite Hm3, decide_True by done. cbn [emask egen with_egen]. rewrite Em, Eg, Ea1. cbn [emask egen with_egen with_emask].
    by rewrite egen_back. }
  exists l3, k', cs. cbn [fst snd]. split; [done|]. split; [done|].
  assert (length (anfds l) <= length (anfds l3))%nat as Hlen.
  { rewrite (io_same_length l2 l3), <- (io_same_length l l1) by done. apply Hf. }
  destruct (epoll_step l l3 k k' fd n 1 Hok) as [Hok3 Hw3]; rewrite ?Hm3fd, ?Eg1, ?Eg2, ?Ep; cbn [fst snd]; try done.
  - intros i Hi. by rewrite Hm3, decide_False, (if_marks _ _ Hf), Hmarks, decide_False.
  - intros ev. rewrite Hsamereg. intros Hev. destruct (ek_registered _ _ Hok fd ev Hev) as [Hd _]. cbn [fst] in Hd.
    unfold noted. rewrite Hm3fd. cbn [fst snd]. split; [|done]. by rewrite Hd, Hmold.
  - by apply array_get_Some in Ha3 as [? _].
  - lia.
  - by destruct Hok as [_ _ _ [[? ?] _]].
  - split_and!; [done| | | |done|right].
    + eapply same_priorities_trans; [by apply io_same_priorities|]. eapply same_priorities_trans; [apply Hf|by apply io_same_priorities].
    + eapply clock_frame_trans; [by apply is_clock|]. eapply clock_frame_trans; [by apply io_frame_clock|by apply is_clock].
    + intros i Hi. by rewrite Ho3, Ho2, Hother.
    + split_and!; [done|done|done|by apply (io_same_state l2)| |].
      * by rewrite (io_same_map l2 l3), Hm2, (io_same_map l l1).
      * intros m Hm'. apply (io_same_roomy l2); [done|]. apply Hr2. by apply (io_same_roomy l).
Qed.

(** The descriptor is noted as always ready. *)
Lemma add_eperm_ok l fd oldmask a :
  array_get (anfds l) fd = Some a -> 0 <= epoll_epermcnt l <= Z.of_nat (length (epoll_eperms l)) ->
  epoll_epermcnt l < 2 ^ 25 ->
  exists l', add_eperm fd oldmask l = Some l' /\ io_same l l' /\
    array_get (anfds l') fd = Some (with_emask EV_EMASK_EPERM a) /\
    (forall i, i <> fd -> array_get (anfds l') i = array_get (anfds l) i) /\
    (forall i, marks l' i = if decide (i = fd) then (EV_EMASK_EPERM, egen a) else marks l i) /\
    (forall i, i ∈ eperms l' <-> i ∈ eperms l \/ (i = fd /\ oldmask .& EV_EMASK_EPERM = 0)) /\
    epoll_epermcnt l <= epoll_epermcnt l' <= epoll_epermcnt l + 1 /\
    epoll_epermcnt l' <= Z.of_nat (length (epoll_eperms l')).
Proof.
  intros Ha Hcnt Hmax. unfold add_eperm.
  destruct (note_ok l fd (with_emask EV_EMASK_EPERM) a Ha) as (l1 & Hrun & El1 & Hs1 & Ha1 & Ho1 & Hm1); [done|].
  rewrite Hrun. cbn [mbind option_bind].
  assert (epoll_eperms l1 = epoll_eperms l /\ epoll_epermcnt l1 = epoll_epermcnt l) as [E1 E2] by (by rewrite El1).
  rewrite E1, E2. destruct (Z.eqb_spec (oldmask .& EV_EMASK_EPERM) 0) as [E|E].
  - destruct (needsize_replicate 4 (epoll_eperms l) (epoll_epermcnt l + 1) 0) as (j & Hj & Hl); [lia|lia|].
    rewrite Hj. cbn [mbind option_bind]. rewrite array_set_Some by lia. cbn [mbind option_bind].
    set (es := <[_ := fd]> _). eexists. split; [done|].
    assert (take (Z.to_nat (epoll_epermcnt l + 1)) es = eperms l ++ [fd]) as Htake.
    { replace (Z.to_nat (epoll_epermcnt l + 1)) with (S (Z.to_nat (epoll_epermcnt l))) by lia.
      rewrite (take_S_r _ _ fd) by (apply list_lookup_insert_eq; lia). f_equal. unfold es, eperms.
      rewrite take_insert_ge by lia. by rewrite take_app_le by lia. }
    assert (Z.of_nat (length es) = Z.of_nat (length (epoll_eperms l ++ replicate j 0))) as Hes by (unfold es; by rewrite length_insert).
    unfold eperms. cbn [epoll_eperms epoll_epermcnt set_epoll_epermcnt set_epoll_eperms]. rewrite Htake.
    split_and!; try done; try lia.
    2:{ intros i. rewrite elem_of_app, list_elem_of_singleton. intuition. }
    eapply io_same_trans; [exact Hs1|]. split; try done. apply same_entries_refl.
  - exists l1. unfold eperms in *. rewrite E1, E2. split_and!; try done; try lia. intros i. split; [by left|by intros [?|[_ ?]]].
Qed.

(** ** epoll_modify *)

Section modify.
Context (pri : W -> Z) (l : ev_loop) (k : K) (I : chains) (d todo : list Z) (P : queues) (fd n : Z) (a : ANFD).
Hypothesis Hs : io_state l I d todo P.
Hypothesis Hok : epoll_ok (n + 1) (l, k).
Hypothesis Hpri : forall w, prio l w = pri w.
Hypothesis Ha : array_get (anfds l) fd = Some a.
Hypothesis Hr : reify a = 0.
Hypothesis Hroom : roomy (Z.of_nat (length (I fd))) l.
Hypothesis Hwant : fd_events a <> 0.
Hypothesis Hn : 0 <= n.

Let a1 : ANFD := with_egen (u32 (egen a + 1)) (with_emask (fd_events a) a).
Let ev : epoll_event := (epoll_data fd (u32 (egen a + 1)), epoll_bits (fd_events a)).
Let gives := modify_gives pri I d todo P fd n a (l, k).

Lemma modify_facts :
  in_u 2 (fd_events a) /\ I fd <> [] /\ marks l fd = (emask a, egen a) /\ in_u 32 (egen a) /\
  0 <= epoll_epermcnt l <= Z.of_nat (length (epoll_eperms l)) /\ epoll_epermcnt l + (n + 1) <= 2 ^ 25.
Proof.
  destruct (io_sync _ _ _ _ (ios_ok _ _ _ _ _ Hs) fd a Ha) as [He Hint]. specialize (Hint Hr).
  assert (marks l fd = (emask a, egen a)) as Hm by (unfold marks; by rewrite Ha).
  pose proof (ek_egen _ _ Hok fd) as Hg. pose proof (ek_room _ _ Hok) as [Hcnt Hmax]. cbn [fst] in *.
  rewrite Hm in Hg. split_and!; try done; [|lia..]. intros E. apply Hwant. by rewrite Hint, E.
Qed.

(** The loop after the note of the new mask and generation. *)
Lemma modify_noted :
  exists l1, anfd_update fd (fun a0 => with_egen (u32 (egen a0 + 1)) (with_emask (fd_events a) a0)) l = Some l1 /\
    io_same l l1 /\ array_get (anfds l1) fd = Some a1 /\
    (forall i, i <> fd -> array_get (anfds l1) i = array_get (anfds l) i) /\
    (forall i, marks l1 i = if decide (i = fd) then (emask a1, egen a1) else marks l i) /\
    epoll_eperms l1 = epoll_eperms l /\ epoll_epermcnt l1 = epoll_epermcnt l.
Proof.
  destruct (note_ok l fd (fun a0 => with_egen (u32 (egen a0 + 1)) (with_emask (fd_events a) a0)) a Ha)
    as (l1 & Hrun & El1 & Hs1 & Ha1 & Ho1 & Hm1); [done|].
  exists l1. by rewrite El1 in *.
Qed.

Section call.
Context (l1 : ev_loop) (k' : K).
Hypothesis Hs1 : io_same l l1.
Hypothesis Ha1 : array_get (anfds l1) fd = Some a1.
Hypothesis Ho1 : forall i, i <> fd -> array_get (anfds l1) i = array_get (anfds l) i.
Hypothesis Hm1 : forall i, marks l1 i = if decide (i = fd) then (emask a1, egen a1) else marks l i.
Hypothesis Hp1 : epoll_eperms l1 = epoll_eperms l /\ epoll_epermcnt l1 = epoll_epermcnt l.
Hypothesis Hk : forall i, i <> fd -> registered k' i = registered k i.
Context (cs : list epoll_call).
Hypothesis Hcs : made k cs k'.

Lemma eperms_noted : eperms l1 = eperms l.
Proof. unfold eperms. destruct Hp1 as [-> ->]. done. Qed.

Lemma fd_in_table : 0 <= fd < Z.of_nat (length (anfds l1)).
Proof. by apply array_get_Some in Ha1 as [? _]. Qed.

(** The kernel takes the descriptor. *)
Lemma modify_taken : ~ always_eperm (K := K) fd -> registered k' fd = Some ev -> gives (Some (l1, k')).
Proof.
  intros Hne Hset. destruct modify_facts as (He & HI & Hm & Hg & Hcnt & Hmax). pose proof fd_in_table as Hfd. destruct Hp1 as [E1 E2].
  assert (marks l1 fd = (fd_events a, u32 (egen a + 1))) as Hm1fd by (by rewrite Hm1, decide_True).
  apply (gives_modified _ _ _ _ _ cs _ _ _ _ _ _ _ a1); try done.
  - apply (epoll_step l l1 k k' fd n 1 Hok); rewrite ?Hm1fd, ?E1, ?E2, ?eperms_noted; cbn [fst snd]; try done; try lia.
    + intros i Hi. by rewrite Hm1, decide_False.
    + intros ev' Hev'. assert (ev' = ev) as -> by congruence. unfold noted. by rewrite Hm1fd.
    + by apply wrap_in_u.
    + by rewrite (io_same_length l l1).
  - intros _. left. cbn [fst snd]. by rewrite Hset, Hm1fd.
  - split; [intros _|by intros ?]. unfold in_step, snubbed. cbn [fst snd]. rewrite Hm1fd. cbn [fst snd]. split.
    + intros ev' Hev'. assert (ev' = ev) as -> by congruence. done.
    + by rewrite mask_no_eperm.
Qed.

(** The kernel refuses it. *)
Lemma modify_refused : registered k' fd = registered k fd -> refusal cs fd -> gives (kill_dec_egen fd (l1, k')).
Proof.
  intros Hreg Href. destruct modify_facts as (He & HI & Hm & Hg & _). by apply (gives_killed pri l l1 k k' cs I d todo P fd n a a1).
Qed.

(** It is registered already, and for the same events if the notes are right. *)
Lemma modify_kept : ~ always_eperm (K := K) fd -> registered k fd <> None -> registered k' fd = registered k fd ->
  emask a = fd_events a -> gives (dec_egen fd (l1, k')).
Proof.
  intros Hne Hreg Hset Em. destruct modify_facts as (He & HI & Hm & Hg & Hcnt & Hmax). pose proof fd_in_table as Hfd. destruct Hp1 as [E1 E2].
  destruct (note_ok l1 fd (fun a => with_egen (u32 (egen a - 1)) a) a1 Ha1) as (l2 & Hrun2 & El2 & Hs2 & Ha2 & Ho2 & Hm2); [done|].
  unfold dec_egen. cbn [fst snd]. rewrite Hrun2. cbn [mbind option_bind].
  assert (marks l2 fd = marks l fd) as Hm2fd.
  { rewrite Hm2, decide_True, Hm by done. unfold a1. cbn [emask egen with_egen with_emask]. by rewrite egen_back, Em. }
  assert (epoll_eperms l2 = epoll_eperms l /\ epoll_epermcnt l2 = epoll_epermcnt l) as [Ef1 Ef2] by (by rewrite El2).
  assert (eperms l2 = eperms l) as Ep2 by (unfold eperms; by rewrite Ef1, Ef2).
  apply (gives_modified _ _ _ _ _ cs _ _ _ _ _ _ _ (with_egen (u32 (egen a1 - 1)) a1)); try done.
  - by eapply io_same_trans.
  - intros i Hi. by rewrite Ho2, Ho1.
  - apply (epoll_step l l2 k k' fd n 1 Hok); rewrite ?Hm2fd, ?Hm, ?Ef1, ?Ef2, ?Ep2; cbn [fst snd]; try done; try lia.
    + intros i Hi. by rewrite Hm2, decide_False, Hm1, decide_False.
    + intros ev' Hev'. rewrite Hset in Hev'. destruct (ek_registered _ _ Hok fd ev' Hev') as [Hd Hu]. unfold noted. by rewrite Hm2fd.
    + by rewrite (io_same_length l1 l2), (io_same_length l l1).
    + by rewrite (io_same_length l1 l2).
  - intros [Hst _]. left. cbn [fst snd] in *. rewrite Hset in Hst |- *. destruct (registered k fd) as [ev'|]; [|done].
    rewrite (Hst ev' eq_refl), Hm2fd, Hm. cbn [fst]. by rewrite Em.
  - apply similar_kept. split; cbn [fst snd]; [done|done|]. by rewrite Ep2.
Qed.

(** It is always ready. *)
Lemma modify_eperm : registered k' fd = None -> gives (l ← add_eperm fd (emask a) l1; Some (l, k')).
Proof.
  intros Hnone. destruct modify_facts as (He & HI & Hm & Hg & Hcnt & Hmax). pose proof fd_in_table as Hfd. destruct Hp1 as [E1 E2].
  destruct (add_eperm_ok l1 fd (emask a) a1 Ha1) as (l2 & Hrun2 & Hs2 & Ha2 & Ho2 & Hm2 & Hin & Hc2 & Hl2);
    [by rewrite E1, E2|rewrite E2; lia|].
  rewrite Hrun2. cbn [mbind option_bind]. rewrite eperms_noted in Hin. rewrite E2 in Hc2.
  assert (marks l2 fd = (EV_EMASK_EPERM, u32 (egen a + 1))) as Hm2fd by (by rewrite Hm2, decide_True).
  assert (snubbed l2 fd) as Hsn by (unfold snubbed; by rewrite Hm2fd).
  assert (snubbed l fd <-> emask a .& EV_EMASK_EPERM <> 0) as Hold by (unfold snubbed; by rewrite Hm).
  apply (gives_modified _ _ _ _ _ cs _ _ _ _ _ _ _ (with_emask EV_EMASK_EPERM a1)); try done.
  - by eapply io_same_trans.
  - intros i Hi. by rewrite Ho2, Ho1.
  - apply (epoll_step l l2 k k' fd n 1 Hok); rewrite ?Hm2fd; cbn [fst snd]; try done.
    + intros i Hi. by rewrite Hm2, decide_False, Hm1, decide_False.
    + by rewrite Hnone.
    + by apply wrap_in_u.
    + intros i Hi. rewrite Hin. intuition.
    + by rewrite (io_same_length l1 l2), (io_same_length l l1).
    + by rewrite (io_same_length l1 l2).
  - intros [_ Hst]. right. split; [done|]. by apply Hst.
  - split.
    + intros [_ Hst]. split; cbn [fst snd] in *; [by rewrite Hnone|]. intros _. apply Hin.
      destruct (decide (emask a .& EV_EMASK_EPERM = 0)) as [E|E]; [by right|left]. by apply Hst, Hold.
    + intros _ [Hs1' Hni]. cbn [fst] in *. split; [done|]. rewrite Hin. intros [?|[_ E]]; [done|]. by apply Hold in Hs1'.
Qed.
End call.
End modify.

(** The outcomes of a call. *)
Lemma ctl_cases op fd ev (k : K) : op <> EPOLL_CTL_DEL ->
  let '(err, k') := epoll_ctl op fd ev k in
  made k [(op, fd, err)] k' /\ (err <> Some EPERM -> ~ always_eperm (K := K) fd) /\
  (forall i, i <> fd -> registered k' i = registered k i) /\
  match err with
  | None => registered k' fd = Some ev
  | Some err => registered k' fd = registered k fd /\
      match err with
      | ENOENT => op = EPOLL_CTL_MOD /\ registered k fd = None
      | EEXIST => op = EPOLL_CTL_ADD /\ registered k fd <> None
      | EPERM => registered k fd = None
      | EOTHER => True
      end
  end.
Proof.
  intros Hdel. pose proof (ctl_other op fd ev k) as Hother. pose proof (ctl_failed op fd ev k) as Hfailed.
  pose proof (ctl_set op fd ev k) as Hset. pose proof (ctl_enoent op fd ev k) as Hen. pose proof (ctl_eexist op fd ev k) as Hex.
  pose proof (ctl_eperm op fd ev k) as Hep. pose proof (made_ctl op fd ev k) as Hmade.
  assert ((epoll_ctl op fd ev k).1 <> Some EPERM -> ~ always_eperm (K := K) fd) as Hal by (intros H Ha; by apply H, Ha).
  destruct (epoll_ctl op fd ev k) as [[err|] k']; cbn [fst snd] in *; (split; [done|split; [exact Hal|]]; split; [intros i Hi; by apply Hother|]).
  - split; [by apply (Hfailed err)|]. destruct err; auto. destruct (Hen eq_refl) as [? ?]. split; [|done]. by destruct op.
  - rewrite Hset by done. by destruct op.
Qed.

(** epoll_modify: every branch. *)
Lemma epoll_modify_ok pri l k I d todo P fd old a n :
  io_state l I d todo P -> 0 <= n -> epoll_ok (n + 1) (l, k) -> (forall w, prio l w = pri w) ->
  array_get (anfds l) fd = Some a -> reify a = 0 -> roomy (Z.of_nat (length (I fd))) l ->
  modify_gives pri I d todo P fd n a (l, k) (epoll_modify fd old (fd_events a) (l, k)).
Proof.
  intros Hs Hn Hok Hpri Ha Hr Hroom. unfold epoll_modify. destruct (Z.eqb_spec (fd_events a) 0) as [E0|E0].
  { exists l, k, []. cbn [fst snd]. split_and!; [done|apply made_nil|by apply (epoll_ok_mono _ (n + 1)); [lia|]|done|apply clock_frame_refl|done|done|].
    left. split; [by split_and!|]. split; [apply epoll_kept_refl|by exists a]. }
  destruct (modify_facts l k I d todo P fd n a Hs Hok Ha Hr E0) as (He & _).
  destruct (modify_noted l fd a Ha) as (l1 & Hrun & Hs1 & Ha1 & Ho1 & Hm1 & Hp1).
  rewrite Ha. cbn [mbind option_bind]. rewrite (u8_mask _ He), Hrun. cbn [mbind option_bind].
  set (op := if negb (old =? 0) && negb (emask a =? fd_events a) then EPOLL_CTL_MOD else EPOLL_CTL_ADD).
  set (ev := (epoll_data fd (u32 (egen a + 1)), epoll_bits (fd_events a))).
  pose proof (ctl_cases op fd ev k ltac:(unfold op; by destruct (_ && _))) as Hcall.
  destruct (epoll_ctl op fd ev k) as [[err|] k1]; destruct Hcall as (Hmade & Hal & Hother & Hres); [destruct Hres as [Hsame Hres]; destruct err|].
  - destruct Hres as [Eop Hnone]. pose proof (ctl_cases EPOLL_CTL_ADD fd ev k1 ltac:(done)) as Hcall2.
    destruct (epoll_ctl EPOLL_CTL_ADD fd ev k1) as [err k2]. destruct Hcall2 as (Hmade2 & Hal2 & Hother2 & Hres2).
    pose proof (made_trans _ _ _ _ _ Hmade Hmade2) as Hmade12. rewrite Eop in Hmade12.
    assert (forall i, i <> fd -> registered k2 i = registered k i) as Hk2 by (intros i Hi; by rewrite Hother2, Hother).
    destruct err as [err|]; [rewrite decide_False by done|rewrite decide_True by done].
    + destruct Hres2 as [Hsame2 Hres2]. eapply modify_refused; try done; [congruence|]. cbn [app].
      destruct err; [by destruct Hres2|by destruct Hres2 as [_ []]; rewrite Hsame|right|left; exists EPOLL_CTL_ADD; split; [done|by left]].
      split; [right; by left|by left].
    + eapply modify_taken; try done. by apply Hal.
  - destruct Hres as [Eop Hreg]. destruct (Z.eqb_spec (emask a) (fd_events a)) as [Em|Em].
    { eapply modify_kept; try done. by apply Hal. }
    pose proof (ctl_cases EPOLL_CTL_MOD fd ev k1 ltac:(done)) as Hcall2.
    destruct (epoll_ctl EPOLL_CTL_MOD fd ev k1) as [err k2]. destruct Hcall2 as (Hmade2 & Hal2 & Hother2 & Hres2).
    pose proof (made_trans _ _ _ _ _ Hmade Hmade2) as Hmade12.
    assert (forall i, i <> fd -> registered k2 i = registered k i) as Hk2 by (intros i Hi; by rewrite Hother2, Hother).
    destruct err as [err|]; [rewrite decide_False by done|rewrite decide_True by done].
    + destruct Hres2 as [Hsame2 Hres2]. rewrite Hsame in Hres2. eapply modify_refused; try done; [congruence|]. cbn [app].
      destruct err; [by destruct Hres2 as [_ Hn2]; apply Hreg in Hn2|by destruct Hres2|by apply Hreg in Hres2|left; exists EPOLL_CTL_MOD; split; [done|by left]].
    + eapply modify_taken; try done. by apply Hal.
  - eapply modify_eperm; try done. congruence.
  - eapply modify_refused; try done. left. exists op. split; [unfold op; by destruct (_ && _)|by left].
  - eapply modify_taken; try done. by apply Hal.
Qed.

(** ** The instance *)

Section instance.
Context (h0 : list epoll_call).

(** Since the history [h0], the kernel refused [fd]. *)
Definition refused_since (k : K) (fd : Z) : Prop := exists cs, history k = cs ++ h0 /\ Forall (real (K := K)) cs /\ refusal cs fd.

Definition epoll_sane (n : Z) (s : ev_loop * K) : Prop :=
  epoll_ok n s /\ exists cs, history s.2 = cs ++ h0 /\ Forall (real (K := K)) cs.

Lemma refusal_more cs cs' fd : refusal cs fd -> refusal (cs' ++ cs) fd.
Proof.
  intros [(op & Hop & H)|[H1 H2]]; [left; exists op; split; [done|]|right; split]; apply elem_of_app; by right.
Qed.

#[export] Instance epoll_backend pri : Backend epoll_modify epoll_watches in_step epoll_kept epoll_sane refused_since pri.
Proof.
  split.
  - intros. by eapply epoll_watches_frame.
  - intros l l' k fd Hf H. by apply (in_step_notes l l'); [apply io_notes|].
  - intros l l' k fd Hf. by apply epoll_kept_notes, io_notes.
  - intros. by eapply epoll_kept_trans.
  - intros l l' k n Hf [Hok Hh]. split; [by eapply epoll_ok_frame|done].
  - intros s n n' Hn [Hok Hh]. split; [by eapply epoll_ok_mono|done].
  - intros l k I d todo P fd old a n Hs Hn [Hok (cs0 & Hh0 & Hr0)] Hpri Ha Hr Hroom. cbn [snd] in Hh0.
    destruct (epoll_modify_ok pri l k I d todo P fd old a n Hs Hn Hok Hpri Ha Hr Hroom) as
      (l' & k' & cs & Hrun & [Hh Hreal] & Hok' & Hpr & Hclk & Hother & Hsim & Hres). cbn [fst snd] in *.
    assert (history k' = (cs ++ cs0) ++ h0) as Hh' by (by rewrite Hh, Hh0, app_assoc).
    assert (Forall (real (K := K)) (cs ++ cs0)) as Hr' by (by apply Forall_app).
    exists l', k'. split_and!; try done; [split; [done|by exists (cs ++ cs0)]| | |].
    + intros i (cs1 & Hh1 & _ & Hi). exists (cs ++ cs0). split_and!; [done|done|].
      rewrite Hh0 in Hh1. apply app_inv_tail in Hh1 as ->. by apply refusal_more.
    + intros i Hi. by apply similar_kept, Hsim.
    + destruct Hres as [Hres|(H1 & (H2 & H3) & H4 & H5 & H6)]; [by left|right]. split_and!; try done.
      exists (cs ++ cs0). split_and!; [done|done|]. destruct H3 as [(op & Hop & H)|[G1 G2]]; [left; exists op; split; [done|]|right; split]; apply elem_of_app; by left.
Qed.
End instance.
End epoll.
