(* ===== verification/EvPoll.v ===== *)
(** epoll_poll of EvEpoll.v: the events that the kernel reports reach the
    watchers that wait for them. *)
From S2P Require Import Prelude EvTime Ev EvPending EvTimer EvIo EvIoRep EvIoOps EvIoEvents EvIoReify EvEpoll EvEpollOk.

Open Scope c_scope.

(** * Numbers *)

Lemma epoll_data_eq fd g : 0 <= fd < 2 ^ 31 -> in_u 32 g -> epoll_data fd g = g * 2 ^ 32 + fd.
Proof.
  intros Hfd [Hg1 Hg2]. unfold epoll_data. rewrite (wrap_id 32 fd) by (unfold in_u; lia).
  rewrite (wrap_id 64) by (rewrite Z.shiftl_mul_pow2 by done; unfold in_u; lia).
  rewrite Z.lor_comm. apply lor_shiftl_add; [done|]. unfold in_u. lia.
Qed.

Lemma data_fd fd g : 0 <= fd < 2 ^ 31 -> in_u 32 g -> s32 (u32 (epoll_data fd g)) = fd.
Proof.
  intros Hfd Hg. rewrite epoll_data_eq by done. unfold wrap. rewrite Z.add_comm, Z.mod_add by done.
  rewrite Z.mod_small by lia. apply swrap_id; simpl; lia.
Qed.

Lemma data_egen fd g : 0 <= fd < 2 ^ 31 -> in_u 32 g -> u32 (epoll_data fd g .>> 32) = g.
Proof.
  intros Hfd Hg. rewrite epoll_data_eq by done. rewrite Z.shiftr_div_pow2 by done.
  rewrite Z.div_add_l, Z.div_small, Z.add_0_r by lia. by apply wrap_id.
Qed.

(** * Reports *)

(** An event that the kernel reports: the descriptor, the generation of its
    registration, and the events. *)
Record report := Report { r_fd : Z; r_egen : Z; r_events : Z }.
Definition event_of (r : report) : epoll_event := (epoll_data (r_fd r) (r_egen r), r_events r).

Definition current (l : ev_loop) (r : report) : bool := bool_decide (r_egen r = (marks l (r_fd r)).2).

Section poll.
Context {K : Type} `{!Kernel K, !KernelLaws K}.
Context (pri : W -> Z).

(** The queues after a report. *)
Definition delivered (l : ev_loop) (I : chains) (todo : list Z) (r : report) (P : queues) : queues :=
  if decide (r_fd r ∉ todo /\ current l r = true) then fd_fed pri (bare l) (got_of (r_events r)) (I (r_fd r)) P else P.

(** What is reported: descriptors of the table, but with the current generation
    none that is snubbed, since its generation changed with that. *)
Definition report_ok (l : ev_loop) (r : report) : Prop :=
  0 <= r_fd r < 2 ^ 31 /\ in_u 32 (r_egen r) /\ is_Some (array_get (anfds l) (r_fd r)) /\
  (current l r = true -> ~ snubbed l (r_fd r)).

(** What epoll_poll keeps. *)
Record poll_frame (l l' : ev_loop) : Prop := PollFrame {
  pf_bare : bare l' = bare l;
  pf_map : io_map l' = io_map l;
  pf_priorities : same_priorities l l';
  pf_clock : clock_frame l l';
  pf_egen i : (marks l' i).2 = (marks l i).2;
  pf_eperm i : (marks l' i).1 .& EV_EMASK_EPERM = (marks l i).1 .& EV_EMASK_EPERM;
  pf_table i : match array_get (anfds l) i, array_get (anfds l') i with
               | Some a, Some a' => fd_events a' = fd_events a
               | None, None => True
               | _, _ => False
               end;
  pf_eperms : epoll_eperms l' = epoll_eperms l /\ epoll_epermcnt l' = epoll_epermcnt l;
  pf_postfork : postfork l = 1 -> postfork l' = 1;
}.

Lemma poll_frame_refl l : poll_frame l l.
Proof. split; try done. intros i. by destruct (array_get (anfds l) i). Qed.

Lemma poll_frame_trans l1 l2 l3 : poll_frame l1 l2 -> poll_frame l2 l3 -> poll_frame l1 l3.
Proof.
  intros [A1 A2 A3 A8 A4 A0 A5 [A6 A7] A9] [B1 B2 B3 B8 B4 B0 B5 [B6 B7] B9].
  split; [congruence|congruence|by eapply same_priorities_trans|by eapply clock_frame_trans|intros i; by rewrite B4|intros i; by rewrite B0| |split; congruence|auto].
  intros i. specialize (A5 i). specialize (B5 i).
  destruct (array_get (anfds l1) i), (array_get (anfds l2) i), (array_get (anfds l3) i); congruence || done.
Qed.

Lemma postfork_pending l l' : pending_frame l l' -> postfork l' = postfork l.
Proof. by intros (m & pss & cnts & q & -> & _). Qed.

Lemma pending_poll_frame l l' : pending_frame l l' -> poll_frame l l'.
Proof.
  intros Hf. destruct (pending_changes _ _ Hf) as (E & _). pose proof (pending_io_frame _ _ Hf) as Hio.
  destruct (frame_epoll _ _ Hio) as [E1 E2].
  split; [by apply pending_bare|by apply io_map_pending|by apply frame_priorities|by apply clock_frame_pending|intros i; by rewrite (if_marks _ _ Hio)|intros i; by rewrite (if_marks _ _ Hio)| |done|by rewrite (postfork_pending _ _ Hf)].
  intros i. rewrite E. by destruct (array_get (anfds l) i).
Qed.

Lemma same_poll_frame l l' :
  io_same l l' -> (forall i, (marks l' i).2 = (marks l i).2) ->
  (forall i, (marks l' i).1 .& EV_EMASK_EPERM = (marks l i).1 .& EV_EMASK_EPERM) ->
  epoll_eperms l' = epoll_eperms l /\ epoll_epermcnt l' = epoll_epermcnt l -> (postfork l = 1 -> postfork l' = 1) -> poll_frame l l'.
Proof.
  intros Hs Hm Hp He Hpf. split; [|by apply io_same_map|by apply io_same_priorities|by apply is_clock|done|done| |done|done].
  - unfold bare. by destruct Hs as [-> _ _ _ _].
  - intros i. destruct Hs as [_ [_ H] _ _ _]. specialize (H i).
    destruct (array_get (anfds l) i), (array_get (anfds l') i); try done. apply H.
Qed.

Lemma poll_frame_current l l' r : poll_frame l l' -> current l' r = current l r.
Proof. intros Hf. unfold current. by rewrite (pf_egen _ _ Hf). Qed.

Lemma poll_frame_delivered l l' I todo r P : poll_frame l l' -> delivered l' I todo r P = delivered l I todo r P.
Proof. intros Hf. unfold delivered. by rewrite (poll_frame_current l l'), (pf_bare _ _ Hf). Qed.

Lemma poll_frame_eperms l l' : poll_frame l l' -> eperms l' = eperms l.
Proof. intros Hf. unfold eperms. by destruct (pf_eperms _ _ Hf) as [-> ->]. Qed.

Lemma poll_frame_snubbed l l' fd : poll_frame l l' -> snubbed l' fd <-> snubbed l fd.
Proof. intros Hf. unfold snubbed. by rewrite (pf_eperm _ _ Hf). Qed.

Lemma poll_frame_report l l' r : poll_frame l l' -> report_ok l r -> report_ok l' r.
Proof.
  intros Hf (H1 & H2 & [a Ha] & H3). split; [done|]. split; [done|]. split.
  - pose proof (pf_table _ _ Hf (r_fd r)) as Ht. rewrite Ha in Ht. destruct (array_get (anfds l') (r_fd r)); [by eexists|done].
  - by rewrite (poll_frame_current l l'), (poll_frame_snubbed l l').
Qed.

(** ** One report *)

Lemma watched_frame l l' (k : K) I todo :
  io_frame l l' -> anfds l' = anfds l -> watched epoll_watches in_step (l, k) I todo -> watched epoll_watches in_step (l', k) I todo.
Proof.
  intros Hf Hfs Hw fd a Ha Hin He Hr Hst. cbn [fst] in Ha. rewrite Hfs in Ha.
  apply (epoll_watches_frame l); [done|]. apply (Hw fd a); try done. by apply (in_step_notes l l'); [apply io_notes|].
Qed.

(** The watchers of the descriptor are fed. *)
Lemma deliver_ok n l k I d todo P fd a got :
  io_state l I d todo P -> epoll_ok n (l, k) -> watched epoll_watches in_step (l, k) I todo -> (forall w, prio l w = pri w) ->
  array_get (anfds l) fd = Some a -> roomy (Z.of_nat (length (I fd))) l ->
  exists l', fd_event fd got l = Some l' /\
    io_state l' I d todo (if decide (fd ∈ todo) then P else fd_fed pri (bare l) got (I fd) P) /\
    epoll_ok n (l', k) /\ watched epoll_watches in_step (l', k) I todo /\ poll_frame l l' /\ notes_frame l l' /\
    forall m, roomy (m + Z.of_nat (length (I fd))) l -> roomy m l'.
Proof.
  intros Hs Hok Hw Hpri Ha Hroom. destruct (fd_event_ok pri fd l I d todo P a got Hs Ha Hpri Hroom) as (l' & Hrun & Hs' & Hf & Hr).
  pose proof (pending_io_frame _ _ Hf) as Hio.
  exists l'. split_and!; [done|done|by apply (epoll_ok_frame l)| |by apply pending_poll_frame|by apply io_notes|done].
  apply (watched_frame l); [done| |done]. by destruct (pending_changes _ _ Hf).
Qed.

(** Events that nobody waits for are to be taken back from the kernel. *)
Lemma adjust_ok n l k I d todo P fd a :
  io_state l I d todo P -> epoll_ok n (l, k) -> watched epoll_watches in_step (l, k) I todo ->
  array_get (anfds l) fd = Some a -> ~ snubbed l fd ->
  let want := fd_events a in
  let op := if negb (want =? 0) then EPOLL_CTL_MOD else EPOLL_CTL_DEL in
  exists l1 err k1, anfd_update fd (with_emask want) l = Some l1 /\
    epoll_ctl op fd (epoll_data fd (egen a), epoll_bits want) k = (err, k1) /\ made k [(op, fd, err)] k1 /\
    io_same l l1 /\ array_get (anfds l1) fd = Some (with_emask want a) /\
    epoll_ok n (l1, k1) /\ watched epoll_watches in_step (l1, k1) I todo /\ poll_frame l l1 /\
    (forall i, i <> fd -> similar (l, k) (l1, k1) i) /\ (err = None -> in_step (l1, k1) fd).
Proof.
  intros Hs Hok Hw Ha Hsn want op. destruct (io_sync _ _ _ _ (ios_ok _ _ _ _ _ Hs) fd a Ha) as [He _].
  destruct (note_ok l fd (with_emask want) a Ha) as (l1 & Hrun & El1 & Hs1 & Ha1 & Ho1 & Hm1); [done|].
  assert (marks l fd = (emask a, egen a)) as Hm by (unfold marks; by rewrite Ha).
  assert (marks l1 fd = (want, egen a)) as Hm1fd by (by rewrite Hm1, decide_True).
  assert (epoll_eperms l1 = epoll_eperms l /\ epoll_epermcnt l1 = epoll_epermcnt l) as [E1 E2] by (by rewrite El1).
  assert (eperms l1 = eperms l) as Ep by (unfold eperms; by rewrite E1, E2).
  set (ev := (epoll_data fd (egen a), epoll_bits want)).
  pose proof (ctl_set op fd ev k) as Hset. pose proof (ctl_failed op fd ev k) as Hfailed.
  pose proof (fun i => ctl_other op fd ev k i) as Hother. pose proof (made_ctl op fd ev k) as Hmade.
  destruct (epoll_ctl op fd ev k) as [err k1]. cbn [fst snd] in *.
  pose proof (ek_egen _ _ Hok fd) as Hg. cbn [fst] in Hg. rewrite Hm in Hg.
  assert (want .& EV_EMASK_EPERM = 0) as Hnm by (by rewrite mask_no_eperm).
  destruct (epoll_step l l1 k k1 fd n 0) as [Hok1 Hw1]; rewrite ?Hm1fd, ?E1, ?E2, ?Ep; cbn [fst snd]; try done; try lia.
  { by rewrite Z.add_0_r. } { intros i Hi. by rewrite Hm1, decide_False. }
  { intros ev' Hev'. unfold noted. rewrite Hm1fd. cbn [fst snd]. split; [|done]. destruct err as [err|].
    - rewrite (Hfailed err eq_refl) in Hev'. destruct (ek_registered _ _ Hok fd ev' Hev') as [-> _]. cbn [fst]. by rewrite Hm.
    - rewrite (Hset eq_refl) in Hev'. unfold op in Hev'. destruct (negb _); [by injection Hev' as <-|done]. }
  { by rewrite (io_same_length l l1). } { by apply array_get_Some in Ha1 as [? _]. }
  { pose proof (ek_room _ _ Hok) as [? _]. cbn [fst] in *. lia. }
  exists l1, err, k1. split_and!; try done.
  - intros i b Hb Hin Hb0 Hr Hst. cbn [fst] in Hb. destruct (decide (i = fd)) as [->|Hne].
    + rewrite Ha1 in Hb. injection Hb as <-. cbn [fd_events with_emask reify] in *. left. cbn [fst snd]. rewrite Hm1fd. cbn [snd].
      destruct Hst as [Hst _]. cbn [fst snd] in Hst. rewrite Hm1fd in Hst. cbn [fst snd] in Hst. destruct err as [err|].
      * rewrite (Hfailed err eq_refl) in Hst |- *. destruct (registered k fd) as [ev'|] eqn:Hreg; [by rewrite (Hst ev' eq_refl)|exfalso].
        destruct (Hw fd a Ha Hin Hb0 Hr) as [Hw0|[Hw0 _]]; cbn [fst snd] in *; [|congruence|done].
        split; cbn [fst snd]; [by rewrite Hreg|done].
      * rewrite (Hset eq_refl). unfold op. by rewrite (proj2 (Z.eqb_neq want 0) Hb0).
    + rewrite Ho1 in Hb by done. destruct (similar_kept _ _ _ (Hw1 i Hne)) as (_ & Hst' & Hw').
      apply Hw'. apply (Hw i b); try done. by apply Hst'.
  - apply same_poll_frame; [done| | |done|by rewrite El1]; intros i; rewrite Hm1; case_decide as Ei; try done; subst i; rewrite Hm; [done|].
    cbn [fst emask with_emask]. rewrite Hnm. unfold snubbed in Hsn. rewrite Hm in Hsn. cbn [fst] in Hsn. lia.
  - intros ->. split; cbn [fst snd]; rewrite ?Hm1fd; cbn [fst snd].
    + intros ev'. rewrite (Hset eq_refl). unfold op. destruct (negb _); [by intros [= <-]|done].
    + unfold snubbed. by rewrite Hm1fd.
Qed.

(** The mark that asks for a new epoll instance. *)
Lemma postfork_ok n l (k : K) I d todo P :
  io_state l I d todo P -> epoll_ok n (l, k) -> watched epoll_watches in_step (l, k) I todo ->
  let l' := set_postfork 1 l in
  io_state l' I d todo P /\ epoll_ok n (l', k) /\ watched epoll_watches in_step (l', k) I todo /\ poll_frame l l' /\
  notes_frame l l' /\ postfork l' = 1 /\ forall m, roomy m l -> roomy m l'.
Proof.
  intros Hs Hok Hw l'. assert (io_same l l') as Hsame by (split; try done; apply same_entries_refl).
  split_and!; [by apply (io_same_state l)| | | |done|done|intros m; by apply io_same_roomy].
  - destruct Hok as [A1 A2 A3 A4]. by split.
  - intros i b Hb Hin He Hr Hst. apply (Hw i b Hb Hin He Hr Hst).
  - by apply same_poll_frame.
Qed.

(** The queues after some reports. *)
Definition delivered_all (l : ev_loop) (I : chains) (todo : list Z) (rs : list report) (P : queues) : queues :=
  foldl (fun P r => delivered l I todo r P) P rs.

(** What becomes of a report: its events are delivered, or it is dropped and the
    mark that asks for a new epoll instance is set, because its generation is old
    or because a call of epoll_ctl for its descriptor failed. *)
Definition accounted (l l' : ev_loop) (cs : list epoll_call) (fed : list report) (r : report) : Prop :=
  (current l r = true /\ r ∈ fed) \/ (postfork l' = 1 /\ (current l r = false \/ failed cs (r_fd r))).

Lemma poll_one_ok n l k I d todo P r :
  io_state l I d todo P -> epoll_ok n (l, k) -> watched epoll_watches in_step (l, k) I todo -> (forall w, prio l w = pri w) ->
  report_ok l r -> roomy (Z.of_nat (length (I (r_fd r)))) l ->
  exists l' k' cs fed, poll_one (event_of r) (l, k) = Some (l', k') /\ made k cs k' /\
    sublist fed [r] /\ accounted l l' cs fed r /\
    io_state l' I d todo (delivered_all l I todo fed P) /\ epoll_ok n (l', k') /\ watched epoll_watches in_step (l', k') I todo /\
    poll_frame l l' /\ (forall i, ~ failed cs i -> in_step (l, k) i -> in_step (l', k') i) /\
    forall m, roomy (m + Z.of_nat (length (I (r_fd r)))) l -> roomy m l'.
Proof.
  destruct r as [fd g e]. intros Hs Hok Hw Hpri (Hfd & Hg & [a Ha] & Hcur) Hroom. cbn [r_fd r_egen r_events fst snd] in *.
  unfold poll_one, event_of. cbn [r_fd r_egen r_events].
  rewrite (data_fd fd g Hfd Hg), Ha. cbn [mbind option_bind]. rewrite (data_egen fd g Hfd Hg).
  assert (marks l fd = (emask a, egen a)) as Hm by (unfold marks; by rewrite Ha).
  pose proof (ek_egen _ _ Hok fd) as Hga. cbn [fst] in Hga. rewrite Hm in Hga. cbn [snd] in Hga. rewrite (wrap_id 32) by done.
  assert (current l (Report fd g e) = bool_decide (g = egen a)) as Ec by (unfold current; cbn [r_fd r_egen]; by rewrite Hm).
  assert (forall (m : Z) l', roomy m l' -> forall m', m' <= m -> roomy m' l') as Hless.
  { intros m l' H m' Hm' pr q Hq. specialize (H pr q Hq). lia. }
  destruct (Z.eqb_spec (egen a) g) as [Eg|Eg]; cbn [negb].
  2:{ rewrite bool_decide_false in Ec by congruence. destruct (postfork_ok n l k I d todo P Hs Hok Hw) as (G1 & G2 & G3 & G4 & G5 & G6 & G7).
      exists (set_postfork 1 l), k, [], []. split_and!; try done.
      - apply sublist_nil_l. - right. split; [done|by left].
      - intros m Hm'. apply G7, (Hless _ _ Hm'). lia. }
  subst g. rewrite bool_decide_true in Ec by done. rewrite Ec in Hcur. specialize (Hcur eq_refl).
  assert (forall l1 k1 cs, made k cs k1 -> io_same l l1 -> is_Some (array_get (anfds l1) fd) -> epoll_ok n (l1, k1) ->
    watched epoll_watches in_step (l1, k1) I todo -> poll_frame l l1 ->
    (forall i, ~ failed cs i -> in_step (l, k) i -> in_step (l1, k1) i) ->
    exists l' k' cs fed, (l ← fd_event fd (got_of e) l1; Some (l, k1)) = Some (l', k') /\ made k cs k' /\
      sublist fed [Report fd (egen a) e] /\ accounted l l' cs fed (Report fd (egen a) e) /\
      io_state l' I d todo (delivered_all l I todo fed P) /\ epoll_ok n (l', k') /\ watched epoll_watches in_step (l', k') I todo /\
      poll_frame l l' /\ (forall i, ~ failed cs i -> in_step (l, k) i -> in_step (l', k') i) /\
      forall m, roomy (m + Z.of_nat (length (I fd))) l -> roomy m l') as Hdeliver.
  { intros l1 k1 cs Hcs Hsame [a1 Ha1] Hok1 Hw1 Hf1 Hst1.
    destruct (deliver_ok n l1 k1 I d todo P fd a1 (got_of e)) as (l2 & Hrun & Hs2 & Hok2 & Hw2 & Hf2 & Hn2 & Hr2); try done.
    { by apply (io_same_state l). } { intros w. rewrite <- Hpri. apply prio_same, Hf1. } { by apply (io_same_roomy l). }
    rewrite Hrun. cbn [mbind option_bind]. exists l2, k1, cs, [Report fd (egen a) e]. rewrite (pf_bare _ _ Hf1) in Hs2. split_and!; try done.
    - left. split; [done|by left].
    - cbn [delivered_all foldl]. unfold delivered. cbn [r_fd r_events]. rewrite Ec.
      destruct (decide (fd ∈ todo)); [rewrite decide_False by (by intros [? _])|rewrite decide_True by done]; done.
    - by eapply poll_frame_trans.
    - intros i Hi Hst. apply (epoll_kept_notes l1 l2 k1 i Hn2). by apply Hst1.
    - intros m Hm'. apply Hr2. by apply (io_same_roomy l). }
  destruct (negb (got_of e .& Z.lnot (fd_events a) =? 0)).
  - destruct (adjust_ok n l k I d todo P fd a Hs Hok Hw Ha Hcur) as
      (l1 & err & k1 & Hrun & Hctl & Hmade & Hsame & Ha1 & Hok1 & Hw1 & Hf1 & Hsim & Hst1).
    rewrite Hrun. cbn [mbind option_bind]. rewrite Hctl. set (op := if negb (fd_events a =? 0) then _ else _) in *.
    assert (forall i, ~ failed [(op, fd, err)] i -> in_step (l, k) i -> in_step (l1, k1) i) as Hst.
    { intros i Hi Hst. destruct (decide (i = fd)) as [->|Hne]; [|by apply (similar_kept _ _ _ (Hsim i Hne))].
      apply Hst1. destruct err as [err|]; [|done]. destruct Hi. exists op, err. by left. }
    destruct err as [err|]; [rewrite decide_False by done|rewrite decide_True by done; by eapply Hdeliver].
    destruct (postfork_ok n l1 k1 I d todo P) as (G1 & G2 & G3 & G4 & G5 & G6 & G7); [by apply (io_same_state l)|done|done|].
    exists (set_postfork 1 l1), k1, [(op, fd, Some err)], []. split_and!; try done.
    + apply sublist_nil_l.
    + right. split; [done|]. right. exists op, err. by left.
    + by eapply poll_frame_trans.
    + intros m Hm'. apply G7, (io_same_roomy l); [done|]. apply (Hless _ _ Hm'). lia.
  - eapply (Hdeliver l k []); try done; [split; try done; apply same_entries_refl|apply poll_frame_refl].
Qed.

(** ** All reports *)

Definition reports_ok (l : ev_loop) (rs : list report) : Prop := forall r, r ∈ rs -> report_ok l r.

Lemma delivered_all_frame l l' I todo rs P : poll_frame l l' -> delivered_all l' I todo rs P = delivered_all l I todo rs P.
Proof.
  intros Hf. revert P. induction rs as [|r rs IH]; intros P; [done|]. cbn [delivered_all foldl].
  rewrite (poll_frame_delivered l l') by done. apply IH.
Qed.

Lemma failed_app cs cs' fd : failed (cs' ++ cs) fd <-> failed cs fd \/ failed cs' fd.
Proof.
  unfold failed. split; [intros (op & err & [H|H]%elem_of_app); eauto|].
  intros [(op & err & H)|(op & err & H)]; exists op, err; apply elem_of_app; auto.
Qed.

Lemma poll_loop_ok n rs : forall l k I d todo P,
  io_state l I d todo P -> epoll_ok n (l, k) -> watched epoll_watches in_step (l, k) I todo -> (forall w, prio l w = pri w) ->
  reports_ok l rs -> roomy (total I (r_fd <$> rs)) l ->
  exists l' k' cs fed, poll_loop (event_of <$> rs) (l, k) = Some (l', k') /\ made k cs k' /\
    sublist fed rs /\ (forall r, r ∈ rs -> accounted l l' cs fed r) /\
    io_state l' I d todo (delivered_all l I todo fed P) /\ epoll_ok n (l', k') /\ watched epoll_watches in_step (l', k') I todo /\
    poll_frame l l' /\ (forall i, ~ failed cs i -> in_step (l, k) i -> in_step (l', k') i) /\
    forall m, roomy (m + total I (r_fd <$> rs)) l -> roomy m l'.
Proof.
  induction rs as [|r rs IH]; intros l k I d todo P Hs Hok Hw Hpri Hrs Hroom.
  - exists l, k, [], []. split_and!; try done; [by intros r ?%elem_of_nil|apply poll_frame_refl|].
    intros m Hm pr q Hq. specialize (Hm pr q Hq). simpl in Hm. lia.
  - rewrite !fmap_cons in *. cbn [poll_loop]. pose proof (total_nonneg I (r_fd <$> rs)) as Hnn.
    assert (total I (r_fd r :: (r_fd <$> rs)) = Z.of_nat (length (I (r_fd r))) + total I (r_fd <$> rs)) as Htot by done.
    rewrite Htot in Hroom |- *.
    assert (roomy (Z.of_nat (length (I (r_fd r)))) l) as Hroom1 by (intros pr q Hq; specialize (Hroom pr q Hq); lia).
    destruct (poll_one_ok n l k I d todo P r Hs Hok Hw Hpri (Hrs r ltac:(by left)) Hroom1)
      as (l1 & k1 & cs1 & fed1 & Hrun & Hcs1 & Hsub1 & Hacc1 & Hs1 & Hok1 & Hw1 & Hf1 & Hst1 & Hr1).
    rewrite Hrun. cbn [mbind option_bind].
    destruct (IH l1 k1 I d todo (delivered_all l I todo fed1 P)) as
      (l2 & k2 & cs2 & fed2 & Hrun2 & Hcs2 & Hsub2 & Hacc2 & Hs2 & Hok2 & Hw2 & Hf2 & Hst2 & Hr2); try done.
    + intros w. rewrite <- Hpri. apply prio_same, Hf1.
    + intros r' Hr'. apply (poll_frame_report l l1); [done|]. apply Hrs. by right.
    + apply Hr1. intros pr q Hq. specialize (Hroom pr q Hq). lia.
    + exists l2, k2, (cs2 ++ cs1), (fed1 ++ fed2). rewrite (delivered_all_frame l l1) in Hs2 by done. split_and!; try done.
      * by eapply made_trans.
      * change (r :: rs) with ([r] ++ rs). by apply sublist_app.
      * intros r' [->|Hr']%elem_of_cons.
        -- destruct Hacc1 as [[Hc Hin]|[Hp Hc]]; [left; split; [done|apply elem_of_app; by left]|right].
           split; [by apply (pf_postfork _ _ Hf2)|]. rewrite failed_app. intuition.
        -- destruct (Hacc2 r' Hr') as [[Hc Hin]|[Hp Hc]]; rewrite (poll_frame_current l l1) in Hc by done;
             [left; split; [done|apply elem_of_app; by right]|right]. split; [done|]. rewrite failed_app. intuition.
      * unfold delivered_all in *. by rewrite foldl_app.
      * by eapply poll_frame_trans.
      * intros i Hi Hst. rewrite failed_app in Hi. apply Hst2; [intuition|]. apply Hst1; intuition.
      * intros m Hm. apply Hr2, Hr1. intros pr q Hq. specialize (Hm pr q Hq). lia.
Qed.

(** ** Descriptors that are always ready *)

(** Still of that kind, and with watchers. *)
Definition alive (l : ev_loop) (fd : Z) : bool :=
  match array_get (anfds l) fd with
  | Some a => negb (emask a .& EV_EMASK_EPERM =? 0) && negb (fd_events a =? 0)
  | None => false
  end.

Definition ready_all (l : ev_loop) (I : chains) (todo : list Z) (fds : list Z) (P : queues) : queues :=
  foldl (fun P fd => if decide (fd ∈ todo) then P else fd_fed pri (bare l) (EV_READ .| EV_WRITE) (I fd) P) P fds.

Lemma fd_fed_ext m r r' ws P : (forall w, w ∈ ws -> mask_of m w .& r = mask_of m w .& r') -> fd_fed pri m r ws P = fd_fed pri m r' ws P.
Proof.
  revert P. induction ws as [|w ws IH]; intros P E; [done|]. cbn [fd_fed foldl]. rewrite E by (by left).
  apply IH. intros w' Hw'. apply E. by right.
Qed.

(** The union of the interests contains each of them. *)
Lemma interest_absorbs m ws w : w ∈ ws -> mask_of m w .& interest m ws = mask_of m w.
Proof.
  induction ws as [|w' ws IH]; [by intros ?%elem_of_nil|]. cbn [interest foldr].
  intros Hin. apply Z.bits_inj'. intros i Hi. rewrite Z.land_spec, Z.lor_spec. apply elem_of_cons in Hin as [->|Hin].
  - by destruct (Z.testbit (mask_of m w') i).
  - specialize (IH Hin). apply (f_equal (fun z => Z.testbit z i)) in IH. rewrite Z.land_spec in IH. unfold interest in IH.
    by destruct (Z.testbit (mask_of m w) i), (Z.testbit (mask_of m w') i), (Z.testbit (foldr _ 0 ws) i).
Qed.

Lemma mask_read_write m fd w n e : io_watcher m fd w n e -> mask_of m w .& (EV_READ .| EV_WRITE) = mask_of m w.
Proof.
  intros Hw. rewrite (mask_of_io _ _ _ _ _ Hw). destruct Hw as (_ & _ & _ & _ & _ & [H1 H2] & _).
  assert (e = 0 \/ e = 1 \/ e = 2 \/ e = 3) as [-> | [-> | [-> | ->]]] by lia; done.
Qed.

(** What the last loop keeps. *)
Record eperm_frame (l l' : ev_loop) : Prop := EpermFrame {
  ef_bare : bare l' = bare l;
  ef_map : io_map l' = io_map l;
  ef_priorities : same_priorities l l';
  ef_anfds : anfds l' = anfds l;
  ef_clock : clock_frame l l';
  ef_postfork : postfork l' = postfork l;
}.

Lemma eperm_frame_refl l : eperm_frame l l.
Proof. by split. Qed.

Lemma eperm_frame_trans l1 l2 l3 : eperm_frame l1 l2 -> eperm_frame l2 l3 -> eperm_frame l1 l3.
Proof. intros [A1 A2 A3 A4 A5 A6] [B1 B2 B3 B4 B5 B6]. split; try congruence. by eapply clock_frame_trans. Qed.

Lemma ready_all_frame l l' I todo fds P : eperm_frame l l' -> ready_all l' I todo fds P = ready_all l I todo fds P.
Proof.
  intros Hf. unfold ready_all. by rewrite (ef_bare _ _ Hf).
Qed.

Lemma alive_frame l l' fd : eperm_frame l l' -> alive l' fd = alive l fd.
Proof. intros Hf. unfold alive. by rewrite (ef_anfds _ _ Hf). Qed.

(** One entry. *)
Lemma eperm_alive_ok l I d todo P fd a :
  io_state l I d todo P -> (forall w, prio l w = pri w) -> array_get (anfds l) fd = Some a ->
  roomy (Z.of_nat (length (I fd))) l ->
  exists l', fd_event fd (u8 (fd_events a .& (EV_READ .| EV_WRITE))) l = Some l' /\
    io_state l' I d todo (ready_all l I todo [fd] P) /\ eperm_frame l l' /\
    epoll_eperms l' = epoll_eperms l /\ epoll_epermcnt l' = epoll_epermcnt l /\ (forall i, marks l' i = marks l i) /\
    forall m, roomy (m + Z.of_nat (length (I fd))) l -> roomy m l'.
Proof.
  intros Hs Hpri Ha Hroom.
  destruct (fd_event_ok pri fd l I d todo P a (u8 (fd_events a .& (EV_READ .| EV_WRITE))) Hs Ha Hpri Hroom) as (l' & Hrun & Hs' & Hf & Hr).
  pose proof (pending_io_frame _ _ Hf) as Hio. destruct (frame_epoll _ _ Hio) as [E1 E2].
  destruct (pending_changes _ _ Hf) as (Ea & _). pose proof (ios_ok _ _ _ _ _ Hs) as Hok.
  exists l'. split_and!; [done| | |done|done|apply Hio|done].
  - cbn [ready_all foldl]. destruct (decide (fd ∈ todo)) as [Hin|Hin]; [done|].
    destruct (io_sync _ _ _ _ Hok fd a Ha) as [He Hsync]. destruct (io_reify _ _ _ _ Hok fd a Ha) as [_ Hre].
    assert (reify a = 0) as H0. { destruct (decide (reify a = 0)); [done|]. exfalso. apply Hin. by apply Hre. }
    rewrite (fd_fed_ext _ _ (EV_READ .| EV_WRITE)) in Hs'; [done|]. intros w Hw.
    destruct (io_member _ _ _ _ _ _ Hok Hw) as (_ & n & e & _ & Hiow). rewrite (mask_read_write _ _ _ _ _ Hiow).
    replace (u8 (fd_events a .& (EV_READ .| EV_WRITE))) with (fd_events a).
    + rewrite Hsync by done. by apply interest_absorbs.
    + destruct He as [? ?]. assert (fd_events a = 0 \/ fd_events a = 1 \/ fd_events a = 2 \/ fd_events a = 3) as [-> | [-> | [-> | ->]]] by lia; done.
  - split; [by apply pending_bare|by apply io_map_pending|by apply frame_priorities|done|by apply clock_frame_pending|by apply postfork_pending].
Qed.

Lemma eperm_dead_ok l I d todo P fds fd kept rest :
  io_state l I d todo P -> epoll_eperms l = fds ++ fd :: kept ++ rest ->
  epoll_epermcnt l = Z.of_nat (length fds + S (length kept)) ->
  exists l' kept' rest', (let l := set_epoll_epermcnt (epoll_epermcnt l - 1) l in
      last ← array_get (epoll_eperms l) (epoll_epermcnt l);
      es ← array_set (epoll_eperms l) (Z.of_nat (length fds)) last; Some (set_epoll_eperms es l)) = Some l' /\
    kept' ≡ₚ kept /\ epoll_eperms l' = fds ++ kept' ++ rest' /\ epoll_epermcnt l' = Z.of_nat (length fds + length kept') /\
    io_state l' I d todo P /\ eperm_frame l l' /\ forall m, roomy m l -> roomy m l'.
Proof.
  intros Hs Hes Hcnt. cbv zeta. cbn [epoll_eperms epoll_epermcnt set_epoll_epermcnt]. rewrite Hes, Hcnt.
  assert (exists last kept', array_get (fds ++ fd :: kept ++ rest) (Z.of_nat (length fds + S (length kept)) - 1) = Some last /\
    kept' ≡ₚ kept /\ exists rest', <[length fds := last]> (fds ++ fd :: kept ++ rest) = fds ++ kept' ++ rest') as (last & kept' & Hget & Hperm & rest' & Hins).
  { assert (forall x xs n, (fds ++ x :: xs) !! (length fds + n)%nat = (x :: xs) !! n) as Hl by (intros; rewrite lookup_app_r by lia; f_equal; lia).
    unfold array_get. destruct (Z.ltb_spec (Z.of_nat (length fds + S (length kept)) - 1) 0); [lia|].
    replace (Z.to_nat (Z.of_nat (length fds + S (length kept)) - 1)) with (length fds + length kept)%nat by lia. rewrite Hl.
    destruct kept as [|x kept0 _] using rev_ind.
    - exists fd, []. split; [done|]. split; [done|]. exists (fd :: rest). by rewrite insert_app_r_alt, Nat.sub_diag by lia.
    - exists x, (x :: kept0). rewrite length_app. cbn [length]. rewrite Nat.add_1_r. cbn [lookup list_lookup].
      rewrite <- app_assoc. cbn [app]. split; [by apply lookup_app_mid|]. split; [by rewrite Permutation_app_comm|].
      exists (x :: rest). rewrite insert_app_r_alt, Nat.sub_diag by lia. done. }
  rewrite Hget. cbn [mbind option_bind]. rewrite array_set_Some by (rewrite length_app; simpl; lia). rewrite Nat2Z.id, Hins. cbn [mbind option_bind].
  eexists _, kept', rest'. split; [done|].
  assert (forall l', io_same l l' -> anfds l' = anfds l -> postfork l' = postfork l -> io_state l' I d todo P /\ eperm_frame l l' /\ forall m, roomy m l -> roomy m l') as Hsame.
  { intros l' Hsame Ean Epf. split_and!; [by apply (io_same_state l)| |intros m; by apply io_same_roomy].
    split; [unfold bare; by rewrite (is_mem _ _ Hsame)|by apply io_same_map|by apply io_same_priorities|done|by apply is_clock|done]. }
  cbn [epoll_eperms epoll_epermcnt set_epoll_epermcnt set_epoll_eperms]. split_and!; try done.
  - rewrite Hperm. lia.
  - apply Hsame; [split; try done; apply same_entries_refl|done|done].
Qed.

Definition alive_fds (l : ev_loop) (fds : list Z) : list Z := List.filter (alive l) fds.

Lemma alive_fds_frame l l' fds : eperm_frame l l' -> alive_fds l' fds = alive_fds l fds.
Proof. intros Hf. apply List.filter_ext. intros fd. by apply alive_frame. Qed.

Lemma total_app I A B : total I (A ++ B) = total I A + total I B.
Proof. induction A as [|fd A IH]; [done|]. cbn [app total foldr] in *. unfold total in *. lia. Qed.

Lemma eperm_loop_ok fds : forall l kept rest I d todo P,
  io_state l I d todo P -> (forall w, prio l w = pri w) -> epoll_eperms l = fds ++ kept ++ rest ->
  epoll_epermcnt l = Z.of_nat (length fds + length kept) ->
  (forall fd, fd ∈ fds -> is_Some (array_get (anfds l) fd)) -> roomy (total I (alive_fds l fds)) l ->
  exists l', eperm_loop (length fds) l = Some l' /\
    io_state l' I d todo (ready_all l I todo (reverse (alive_fds l fds)) P) /\ eperm_frame l l' /\
    eperms l' ≡ₚ alive_fds l fds ++ kept /\
    0 <= epoll_epermcnt l' <= epoll_epermcnt l /\ epoll_epermcnt l' <= Z.of_nat (length (epoll_eperms l')) /\
    forall m, roomy (m + total I (alive_fds l fds)) l -> roomy m l'.
Proof.
  induction fds as [|fd fds IH] using rev_ind; intros l kept rest I d todo P Hs Hpri Hes Hcnt Hin Hroom.
  { cbn [length eperm_loop]. exists l. cbn [app length] in *.
    assert (eperms l = kept) as -> by (unfold eperms; rewrite Hes, Hcnt, Nat2Z.id; apply take_app_length).
    rewrite Hes, length_app. split_and!; try done; try lia. intros m. cbn [alive_fds List.filter total foldr]. by rewrite Z.add_0_r. }
  rewrite <- app_assoc in Hes. cbn [app] in Hes. rewrite length_app in Hcnt |- *. cbn [length] in Hcnt |- *.
  rewrite Nat.add_1_r. cbn [eperm_loop]. destruct (Hin fd) as [a Ha]; [set_solver|].
  assert (array_get (epoll_eperms l) (Z.of_nat (length fds)) = Some fd) as Hget.
  { rewrite Hes. unfold array_get. destruct (Z.ltb_spec (Z.of_nat (length fds)) 0); [lia|]. rewrite Nat2Z.id. apply lookup_app_mid. }
  rewrite Hget. cbn [mbind option_bind]. rewrite Ha. cbn [mbind option_bind].
  assert (negb (emask a .& EV_EMASK_EPERM =? 0) && negb (u8 (fd_events a .& (EV_READ .| EV_WRITE)) =? 0) = alive l fd) as ->.
  { unfold alive. rewrite Ha. destruct (io_sync _ _ _ _ (ios_ok _ _ _ _ _ Hs) fd a Ha) as [[? ?] _].
    assert (fd_events a = 0 \/ fd_events a = 1 \/ fd_events a = 2 \/ fd_events a = 3) as [-> | [-> | [-> | ->]]] by lia; done. }
  assert (alive_fds l (fds ++ [fd]) = alive_fds l fds ++ if alive l fd then [fd] else []) as Ealive
    by (unfold alive_fds; rewrite List.filter_app; cbn [List.filter]; by destruct (alive l fd)).
  rewrite Ealive in Hroom |- *. rewrite reverse_app. destruct (alive l fd) eqn:Hal.
  - rewrite total_app in Hroom. cbn [total foldr] in Hroom. pose proof (total_nonneg I (alive_fds l fds)).
    assert (roomy (Z.of_nat (length (I fd))) l) as Hroom1 by (intros pr q Hq; specialize (Hroom pr q Hq); lia).
    destruct (eperm_alive_ok l I d todo P fd a Hs Hpri Ha Hroom1) as (l1 & Hrun & Hs1 & Hf1 & E1 & E2 & _ & Hr1).
    rewrite Hrun. cbn [mbind option_bind].
    destruct (IH l1 (fd :: kept) rest I d todo (ready_all l I todo [fd] P)) as (l2 & Hrun2 & Hs2 & Hf2 & Hp2 & Hc2 & Hl2 & Hr2); try done.
    + intros w. rewrite <- Hpri. apply prio_same, Hf1.
    + by rewrite E1, Hes.
    + rewrite E2, Hcnt. simpl. lia.
    + intros i Hi. rewrite (ef_anfds _ _ Hf1). apply Hin. set_solver.
    + rewrite (alive_fds_frame l) by done. apply Hr1. intros pr q Hq. specialize (Hroom pr q Hq). lia.
    + exists l2. rewrite (alive_fds_frame l), (ready_all_frame l) in * by done. split_and!; try done; try lia.
      * by eapply eperm_frame_trans.
      * rewrite Hp2. by rewrite <- app_assoc.
      * rewrite total_app. cbn [total foldr]. intros m Hm. apply Hr2, Hr1. intros pr q Hq. specialize (Hm pr q Hq). unfold total in *. lia.
  - rewrite app_nil_r in Hroom |- *.
    destruct (eperm_dead_ok l I d todo P fds fd kept rest Hs Hes) as (l1 & kept' & rest' & Hrun & Hperm & E1 & E2 & Hs1 & Hf1 & Hr1); [lia|].
    cbv zeta in Hrun |- *. rewrite Hrun. cbn [mbind option_bind].
    destruct (IH l1 kept' rest' I d todo P) as (l2 & Hrun2 & Hs2 & Hf2 & Hp2 & Hc2 & Hl2 & Hr2); try done.
    + intros w. rewrite <- Hpri. apply prio_same, Hf1.
    + intros i Hi. rewrite (ef_anfds _ _ Hf1). apply Hin. set_solver.
    + rewrite (alive_fds_frame l) by done. by apply Hr1.
    + exists l2. rewrite (alive_fds_frame l), (ready_all_frame l) in * by done. rewrite E2, Hperm in Hc2. split_and!; try done; try lia.
      * by eapply eperm_frame_trans.
      * by rewrite Hp2, Hperm.
      * intros m Hm. by apply Hr2, Hr1.
Qed.

(** ** epoll_poll *)

(** What a call does: the reported descriptors, then those that are always ready. *)
Definition polled (l : ev_loop) (I : chains) (todo : list Z) (rs : list report) (P : queues) : queues :=
  ready_all l I todo (reverse (alive_fds l (eperms l))) (delivered_all l I todo rs P).

Lemma poll_frame_alive l l' fd : poll_frame l l' -> alive l' fd = alive l fd.
Proof.
  intros Hf. pose proof (pf_table _ _ Hf fd) as Ht. pose proof (pf_eperm _ _ Hf fd) as Hp. unfold alive, marks in *.
  destruct (array_get (anfds l) fd), (array_get (anfds l') fd); try done. cbn [fst] in Hp. by rewrite Hp, Ht.
Qed.

Lemma elem_of_alive l fds fd : fd ∈ alive_fds l fds <-> fd ∈ fds /\ alive l fd = true.
Proof. unfold alive_fds. by rewrite list_elem_of_In, List.filter_In, <- list_elem_of_In. Qed.

(** The last loop keeps the entries that are alive. *)
Lemma kept_eperms n l l' (k : K) I todo :
  eperm_frame l l' -> eperms l' ≡ₚ alive_fds l (eperms l) ->
  0 <= epoll_epermcnt l' <= epoll_epermcnt l -> epoll_epermcnt l' <= Z.of_nat (length (epoll_eperms l')) ->
  epoll_ok n (l, k) -> watched epoll_watches in_step (l, k) I todo ->
  epoll_ok n (l', k) /\ watched epoll_watches in_step (l', k) I todo /\ (forall i, marks l' i = marks l i) /\
  forall i, (snubbed l i -> alive l i = true) -> in_step (l, k) i -> in_step (l', k) i.
Proof.
  intros Hf Hp Hc Hl [A1 A2 A3 A4] Hw. cbn [fst snd] in *.
  assert (forall i, marks l' i = marks l i) as Hm by (intros i; unfold marks; by rewrite (ef_anfds _ _ Hf)).
  split_and!; [split|..]; cbn [fst snd]; [| | |lia| |done|].
  - intros fd ev Hev. unfold noted. rewrite Hm. by apply A1.
  - intros fd. by rewrite Hm.
  - intros fd. rewrite Hp, (ef_anfds _ _ Hf), elem_of_alive. intros [Hfd _]. by apply A3.
  - intros fd a Hfd Hin He Hr [Hst1 Hst2]. cbn [fst] in Hfd. rewrite (ef_anfds _ _ Hf) in Hfd.
    unfold epoll_watches, snubbed in *. cbn [fst snd] in *. rewrite Hm in *.
    destruct (Hw fd a Hfd Hin He Hr) as [H|[H1 H2]]; cbn [fst snd] in *; [|by left|right; by auto].
    split; cbn [fst snd]; [done|]. intros H. specialize (Hst2 H). rewrite Hp, elem_of_alive in Hst2. apply Hst2.
  - intros fd Hal [Hst1 Hst2]. unfold in_step, snubbed in *. cbn [fst snd] in *. rewrite Hm. split; [done|].
    intros H. rewrite Hp, elem_of_alive. auto.
Qed.

Lemma epoll_poll_ok n l k I d todo P rs :
  io_state l I d todo P -> epoll_ok n (l, k) -> watched epoll_watches in_step (l, k) I todo -> (forall w, prio l w = pri w) ->
  reports_ok l rs ->
  roomy (total I (alive_fds l (eperms l)) + total I (r_fd <$> rs)) l ->
  exists l' k' cs fed, epoll_poll (Some (event_of <$> rs)) (l, k) = Some (l', k') /\ made k cs k' /\
    sublist fed rs /\ (forall r, r ∈ rs -> accounted l l' cs fed r) /\
    io_state l' I d todo (polled l I todo fed P) /\ epoll_ok n (l', k') /\ watched epoll_watches in_step (l', k') I todo /\
    same_priorities l l' /\ clock_frame l l' /\ io_map l' = io_map l /\ eperms l' ≡ₚ alive_fds l (eperms l) /\
    (forall i, snubbed l' i <-> snubbed l i) /\
    (forall i, ~ failed cs i -> (snubbed l i -> alive l i = true) -> in_step (l, k) i -> in_step (l', k') i) /\
    forall m, roomy (m + (total I (alive_fds l (eperms l)) + total I (r_fd <$> rs))) l -> roomy m l'.
Proof.
  intros Hs Hok Hw Hpri Hrs Hroom. pose proof (total_nonneg I (alive_fds l (eperms l))) as Hnn.
  destruct (poll_loop_ok n rs l k I d todo P Hs Hok Hw Hpri Hrs) as
    (l1 & k1 & cs & fed & Hrun & Hcs & Hsub & Hacc & Hs1 & Hok1 & Hw1 & Hf1 & Hst1 & Hr1).
  { intros pr q Hq. specialize (Hroom pr q Hq). lia. }
  cbn [epoll_poll]. rewrite Hrun. cbn [mbind option_bind]. destruct (pf_eperms _ _ Hf1) as [E1 E2].
  pose proof (ek_room _ _ Hok) as [Hcnt Hmax]. cbn [fst] in Hcnt, Hmax.
  assert (length (eperms l) = Z.to_nat (epoll_epermcnt l)) as Hlen by (unfold eperms; rewrite length_take; lia).
  assert (alive_fds l1 (eperms l) = alive_fds l (eperms l)) as Ealive by (apply List.filter_ext; intros; by apply poll_frame_alive).
  destruct (eperm_loop_ok (eperms l) l1 [] (drop (Z.to_nat (epoll_epermcnt l)) (epoll_eperms l)) I d todo (delivered_all l I todo fed P))
    as (l2 & Hrun2 & Hs2 & Hf2 & Hp2 & Hc2 & Hl2 & Hr2); try done.
  - intros w. rewrite <- Hpri. apply prio_same, Hf1.
  - rewrite E1. cbn [app]. unfold eperms. by rewrite take_drop.
  - rewrite E2, Hlen. cbn [length]. lia.
  - intros fd Hfd. destruct (array_get_range (anfds l) fd (ek_table _ _ Hok fd Hfd)) as [a Ha]. pose proof (pf_table _ _ Hf1 fd) as Ht. rewrite Ha in Ht.
    destruct (array_get (anfds l1) fd); [by eexists|done].
  - rewrite Ealive. apply Hr1. exact Hroom.
  - rewrite E2. rewrite <- Hlen, Hrun2. cbn [mbind option_bind]. exists l2, k1, cs, fed. rewrite app_nil_r in Hp2.
    pose proof (poll_frame_eperms _ _ Hf1) as Ep. rewrite <- Ep in Hp2.
    destruct (kept_eperms n l1 l2 k1 I todo Hf2 Hp2 Hc2 Hl2 Hok1 Hw1) as (G1 & G2 & G3 & G4).
    rewrite Ep, Ealive in *. split_and!; try done.
    + intros r Hr. destruct (Hacc r Hr) as [?|[? ?]]; [by left|right]. by rewrite (ef_postfork _ _ Hf2).
    + unfold polled. unfold ready_all in *. by rewrite (pf_bare _ _ Hf1) in Hs2.
    + eapply same_priorities_trans; [apply Hf1|apply Hf2].
    + eapply clock_frame_trans; [apply Hf1|apply Hf2].
    + by rewrite (ef_map _ _ Hf2), (pf_map _ _ Hf1).
    + intros i. rewrite <- (poll_frame_snubbed l l1) by done. unfold snubbed. by rewrite G3.
    + intros i Hi Hal Hst. apply G4; [|by apply Hst1]. rewrite (poll_frame_snubbed l l1), (poll_frame_alive l l1) by done. exact Hal.
    + intros m Hm. apply Hr2, Hr1. intros pr q Hq. specialize (Hm pr q Hq). lia.
Qed.
End poll.
