(* ===== verification/EvWakeup.v ===== *)
(** The contract of the io watchers of ev.c with the epoll backend: calls of a
    client, the registration of descriptors, the delivery of events, and the new
    epoll instance after a fork; and two bugs, descriptors that are forgotten and
    the mask noted for a registration that failed. *)
From S2P Require Import Prelude EvTime Ev EvPending EvTimer EvIo EvIoRep EvIoOps EvIoEvents EvIoReify EvEpoll EvEpollOk EvPoll.

Open Scope c_scope.

(** * A new loop *)

Definition fresh_io (x : ev_watcher) : Prop := active x = 0 /\ pending x = 0 /\ priority_ok x.

Lemma init_io_ok rt now ws :
  ws !! pending_w = None -> ws !! null = None -> map_Forall (fun _ => fresh_io) ws ->
  io_state (loop_init rt now ws) (fun _ => []) [] [] (fun _ => []).
Proof.
  intros Hnone Hnull Hws.
  assert (forall w x, mem (loop_init rt now ws) !! w = Some x -> fresh_io x) as Hall.
  { intros w x. simpl. destruct (decide (w = pending_w)) as [->|Hne]; [rewrite lookup_insert_eq; by intros [= <-]|].
    rewrite lookup_insert_ne by done. apply Hws. }
  assert (forall fd, array_get (anfds (loop_init rt now ws)) fd = None) as Hnil
    by (intros fd; unfold array_get; simpl; by destruct (fd <? 0)).
  split; [split|..]; try done; try (intros fd a Hfd; by rewrite Hnil in Hfd).
  - constructor.
  - intros w x n fd e (y & Hy & ->)%bare_back _ Ha. destruct (Hall w y Hy) as [H _]. simpl in Ha. congruence.
  - constructor.
  - intros fd Hfd. by apply elem_of_nil in Hfd.
  - split; [done|]. by exists [].
  - apply init_pending_ok. intros w x Hx. apply (Hws w x Hx).
  - intros w x Hx. apply (Hall w x Hx).
  - intros fd [H|H]; [done|by apply elem_of_nil in H].
  - unfold io_map. simpl. rewrite !lookup_omap, lookup_insert_eq, lookup_insert_ne by done. by rewrite Hnull.
Qed.

(** * Events in queues *)

Lemma feed_in w revents (st : queue) : exists e, (w, e) ∈ feed w revents st /\ revents .| e = e.
Proof.
  unfold feed. case_decide as H.
  - apply list_elem_of_fmap in H as ([w' e] & -> & Hin). exists (e .| revents). split.
    + apply list_elem_of_fmap. exists (w', e). split; [by rewrite decide_True|done].
    + by rewrite Z.lor_comm, <- Z.lor_assoc, Z.lor_diag.
  - exists revents. split; [set_solver|apply Z.lor_diag].
Qed.

Lemma feed_keeps w e w' revents (st : queue) :
  (w, e) ∈ st -> exists e', (w, e') ∈ feed w' revents st /\ e .| e' = e'.
Proof.
  intros Hin. unfold feed. case_decide as H.
  - destruct (decide (w = w')) as [->|Hne].
    + exists (e .| revents). split; [|by rewrite Z.lor_assoc, Z.lor_diag].
      apply list_elem_of_fmap. exists (w', e). split; [by rewrite decide_True|done].
    + exists e. split; [|apply Z.lor_diag]. apply list_elem_of_fmap. exists (w, e). split; [by rewrite decide_False|done].
  - exists e. split; [set_solver|apply Z.lor_diag].
Qed.

Lemma feed_inv w e w' revents (st : queue) :
  (w, e) ∈ feed w' revents st -> (w, e) ∈ st \/ (w = w' /\ exists e0, e = e0 .| revents /\ ((w, e0) ∈ st \/ e0 = 0)).
Proof.
  unfold feed. case_decide as H.
  - intros ([w0 e0] & E & Hin)%list_elem_of_fmap. case_decide as D; simpl in *.
    + injection E as -> ->. subst. right. split; [done|]. exists e0. auto.
    + injection E as -> ->. by left.
  - intros [?|[= -> ->]%list_elem_of_singleton]%elem_of_app; [by left|]. right. split; [done|]. exists 0.
    split; [by rewrite Z.lor_0_l|by right].
Qed.

(** [w] is pending with at least the events [e]. *)
Definition awaits (P : queues) (pri : Z) (w : W) (e : Z) : Prop := exists e', (w, e') ∈ P pri /\ e .| e' = e'.

Section queues.
Context (pri : W -> Z).

Lemma fed_awaits P w e : awaits (fed P w (pri w) e) (pri w) w e.
Proof. unfold awaits, fed, upd. rewrite decide_True by done. apply feed_in. Qed.

Lemma fed_keeps P w p e w' e' : awaits P p w e -> awaits (fed P w' (pri w') e') p w e.
Proof.
  intros (e0 & Hin & He). unfold awaits, fed, upd. case_decide as D; [|by exists e0]. subst p.
  destruct (feed_keeps w e0 w' e' (P (pri w')) Hin) as (e1 & Hin1 & He1). exists e1. split; [done|].
  rewrite <- He1, Z.lor_assoc, He. done.
Qed.

Lemma fd_fed_keeps m r ws P p w e : awaits P p w e -> awaits (fd_fed pri m r ws P) p w e.
Proof.
  revert P. induction ws as [|w' ws IH]; intros P H; [done|]. cbn [fd_fed foldl]. apply IH.
  destruct (mask_of m w' .& r =? 0); [done|]. by apply fed_keeps.
Qed.

Lemma fd_fed_awaits m r ws P w :
  w ∈ ws -> mask_of m w .& r <> 0 -> awaits (fd_fed pri m r ws P) (pri w) w (mask_of m w .& r).
Proof.
  revert P. induction ws as [|w' ws IH]; intros P; [by intros ?%elem_of_nil|]. cbn [fd_fed foldl].
  intros [->|Hin]%elem_of_cons H; [|by apply IH]. apply (fd_fed_keeps m r ws). rewrite (proj2 (Z.eqb_neq _ _)) by done. apply fed_awaits.
Qed.
End queues.

(** * The loop between its steps *)

Section epoll.
Context {K : Type} `{!Kernel K, !KernelLaws K}.

(** No descriptor has changed since the kernel was told; [n] more changes fit. *)
Record settled (n : Z) (s : ev_loop * K) (I : chains) (P : queues) : Prop := Settled {
  se_io : io_state s.1 I [] [] P;
  se_epoll : epoll_ok n s;
  se_watched : watched epoll_watches in_step s I [];
}.

(** What the active watchers of [fd] wait for. *)
Definition wanted (l : ev_loop) (I : chains) (fd : Z) : Z := interest (bare l) (I fd).

Lemma settled_events l I P fd a :
  io_state l I [] [] P -> array_get (anfds l) fd = Some a -> reify a = 0 /\ fd_events a = wanted l I fd.
Proof.
  intros Hs Ha. pose proof (ios_ok _ _ _ _ _ Hs) as Hok.
  assert (reify a = 0) as Hr.
  { destruct (io_reify _ _ _ _ Hok fd a Ha) as [_ H]. destruct (decide (reify a = 0)) as [|Hne]; [done|]. apply H in Hne. by apply elem_of_nil in Hne. }
  split; [done|]. by apply (io_sync _ _ _ _ Hok fd a Ha).
Qed.

Lemma settled_wanted n l (k : K) I P fd :
  settled n (l, k) I P -> in_step (l, k) fd -> wanted l I fd <> 0 -> epoll_watches (l, k) fd (wanted l I fd).
Proof.
  intros [Hs _ Hw] Hst Hwant. cbn [fst] in Hs. pose proof (ios_ok _ _ _ _ _ Hs) as Hok. unfold wanted in *.
  destruct (array_get (anfds l) fd) as [a|] eqn:Ha.
  2:{ rewrite (io_none _ _ _ _ Hok fd Ha) in Hwant. done. }
  destruct (settled_events l I P fd a Hs Ha) as [Hr E]. unfold wanted in E. rewrite <- E in Hwant |- *.
  apply (Hw fd a Ha); [right; by intros ?%elem_of_nil|done|by rewrite Hr|done].
Qed.

(** Descriptors that are always ready and have watchers. *)
Lemma alive_wanted n l (k : K) I P fd :
  settled n (l, k) I P -> alive l fd = true <-> snubbed l fd /\ wanted l I fd <> 0.
Proof.
  intros [Hs _ _]. cbn [fst] in Hs. unfold alive, snubbed, marks. destruct (array_get (anfds l) fd) as [a|] eqn:Ha.
  - destruct (settled_events l I P fd a Hs Ha) as [_ <-]. cbn [fst]. rewrite andb_true_iff, !negb_true_iff, !Z.eqb_neq. done.
  - cbn [fst]. split; [done|by intros [H _]].
Qed.

(** ** Telling the kernel *)

Lemma reify_settles n l (k : K) I todo P :
  io_state l I [] todo P -> 0 <= n -> epoll_ok (n + 2 * Z.of_nat (length (used l))) (l, k) ->
  watched epoll_watches in_step (l, k) I todo -> roomy (total I (used l)) l ->
  exists l' k' D cs, fd_reify epoll_modify (l, k) = Some (l', k') /\ NoDup D /\ made k cs k' /\
    (forall fd, fd ∈ D -> fd ∈ todo /\ I fd <> [] /\ refusal cs fd) /\
    settled n (l', k') (without D I) (abandon (prio l) I D P) /\ (forall fd, fd ∉ D -> epoll_kept (l, k) (l', k') fd) /\ io_map l' = given_up I D (io_map l) /\
    same_priorities l l' /\ clock_frame l l' /\ forall m, roomy (m + total I (used l)) l -> roomy m l'.
Proof.
  intros Hs Hn Hok Hw Hroom.
  destruct (fd_reify_ok epoll_modify epoll_watches in_step epoll_kept (epoll_sane (history k)) (refused_since (history k)) (prio l)
      l k I todo P n Hs Hn) as
    (l' & k' & D & Hrun & Hnd & HD & _ & Hs' & Hw' & Hk & _ & [Hok' (cs & Hh & Hreal)] & Hpr & Hclk & Hm & Hr); [|done..|].
  { split; [done|]. exists []. by split. }
  exists l', k', D, cs. split_and!; try done. intros fd Hfd. destruct (HD fd Hfd) as (H1 & H2 & cs' & Hh' & _ & H3).
  cbn [snd] in Hh. rewrite Hh in Hh'. by apply app_inv_tail in Hh' as <-.
Qed.

(** ** Calls of the client *)

(** The events noted for [fd] are to be registered anew. *)
Definition announced (l : ev_loop) (fd : Z) : Prop :=
  forall a, array_get (anfds l) fd = Some a -> fd_events a <> 0 -> reify a .& EV__IOFDSET <> 0.

(** Descriptors that the client closes are not registered any more; one that it
    uses again was announced, by ev_io_set. *)
Definition reopened (l : ev_loop) (k k' : K) : Prop :=
  forall fd, registered k' fd = registered k fd \/ (registered k' fd = None /\ announced l fd).

Lemma reopened_watched l l' k k' I I' todo :
  watched epoll_watches in_step (l, k) I [] -> notes_frame l l' -> noted_frame l l' -> reopened l' k k' ->
  watched epoll_watches in_step (l', k') I' todo.
Proof.
  intros Hw Hf Hno Hk fd a' Ha' _ He Hr Hst. cbn [fst] in Ha'. destruct (Hno fd a' Ha' He Hr) as (a & Ha & Ee & Hr0).
  assert (epoll_watches (l, k) fd (fd_events a)) as Hfd.
  { apply (Hw fd a Ha); [right; by intros ?%elem_of_nil|congruence|done|]. apply (in_step_notes l l'); [done|].
    destruct (Hk fd) as [E|[_ Hann]]; [|by destruct (Hann a' Ha' He)]. destruct Hst as [Hst1 Hst2]. split; cbn [fst snd] in *; [by rewrite <- E|done]. }
  rewrite Ee in Hfd. apply (epoll_watches_notes l l') in Hfd; [|done]. destruct Hfd as [Hfd|Hfd]; [left|by right].
  cbn [fst snd] in *. destruct (Hk fd) as [->|[_ Hann]]; [done|]. by destruct (Hann a' Ha' He).
Qed.

Lemma reopened_epoll n l l' k k' : epoll_ok n (l, k) -> notes_frame l l' -> reopened l' k k' -> epoll_ok n (l', k').
Proof.
  intros Hok Hf Hk. destruct (epoll_ok_notes l l' k n Hf Hok) as [A1 A2 A3 A4]. split; try done.
  intros fd ev Hev. cbn [snd] in *. apply A1. destruct (Hk fd) as [E|[E _]]; cbn [snd]; congruence.
Qed.

Lemma reopened_kept l l' k k' fd : notes_frame l l' -> reopened l' k k' -> epoll_kept (l, k) (l', k') fd.
Proof.
  intros Hf Hk. apply (epoll_kept_trans _ (l', k)); [by apply epoll_kept_notes|]. split; [|done].
  intros [H1 H2]. split; cbn [fst snd] in *; [|done]. intros ev Hev. apply H1. destruct (Hk fd) as [E|[E _]]; congruence.
Qed.

(** There are not more active watchers than watchers. *)
Lemma total_size l I todo d P : io_state l I d todo P -> total I (used l) <= Z.of_nat (size (mem l)).
Proof.
  intros Hs. pose proof (ios_ok _ _ _ _ _ Hs) as Hok.
  assert (forall A, total I A = Z.of_nat (length (A ≫= I))) as ->.
  { intros A. induction A as [|fd A IH]; [done|]. cbn [total foldr mbind list_bind]. rewrite length_app. unfold total in IH. rewrite IH. lia. }
  rewrite <- bare_size, <- length_map_to_list, <- (length_fmap fst (map_to_list (bare l))).
  assert (length (used l ≫= I) <= length (map_to_list (bare l)).*1)%nat; [|lia].
  apply submseteq_length, NoDup_submseteq.
  - unfold used. generalize (NoDup_seqZ 0 (Z.min (Z.of_nat (length (anfds l))) fd_limit)). generalize (seqZ 0 (Z.min (Z.of_nat (length (anfds l))) fd_limit)).
    induction l0 as [|fd A IH]; [constructor|]. intros [Hni Hnd]%NoDup_cons. cbn [mbind list_bind]. apply NoDup_app.
    split_and!; [apply (io_nodup _ _ _ _ Hok)| |by apply IH]. intros w Hw (fd' & Hw' & Hfd')%list_elem_of_bind.
    assert (fd' = fd) as -> by (by apply (io_one _ _ _ _ _ _ w Hok)). done.
  - intros w (fd & Hw & _)%list_elem_of_bind. destruct (io_member _ _ _ _ _ _ Hok Hw) as (_ & n & e & _ & x & Hx & _).
    apply list_elem_of_fmap. exists (w, x). split; [done|]. by apply elem_of_map_to_list.
Qed.

Lemma killed_same pri pri' ws P : (forall w, pri' w = pri w) -> killed pri' ws P = killed pri ws P.
Proof.
  intros E. revert P. induction ws as [|w ws IH]; intros P; [done|]. cbn [killed foldl]. rewrite E. apply IH.
Qed.

Lemma abandon_same pri pri' I D P : (forall w, pri' w = pri w) -> abandon pri' I D P = abandon pri I D P.
Proof.
  intros E. revert P. induction D as [|fd D IH]; intros P; [done|]. cbn [abandon foldl].
  rewrite (killed_same pri) by done. apply IH.
Qed.

Lemma same_size l l' : same_priorities l l' -> size (mem l') = size (mem l).
Proof. intros E. rewrite <- (map_size_fmap priority), E. apply map_size_fmap. Qed.

(** ** Polling *)

Lemma delivered_keeps pri l I todo r P p w e : awaits P p w e -> awaits (delivered pri l I todo r P) p w e.
Proof. intros H. unfold delivered. case_decide; [by apply fd_fed_keeps|done]. Qed.

Lemma delivered_all_keeps pri l I todo rs P p w e : awaits P p w e -> awaits (delivered_all pri l I todo rs P) p w e.
Proof. revert P. induction rs as [|r rs IH]; intros P H; [done|]. cbn [delivered_all foldl]. apply IH. by apply delivered_keeps. Qed.

Lemma delivered_all_awaits pri l I rs r P w :
  r ∈ rs -> current l r = true -> w ∈ I (r_fd r) -> mask_of (bare l) w .& got_of (r_events r) <> 0 ->
  awaits (delivered_all pri l I [] rs P) (pri w) w (mask_of (bare l) w .& got_of (r_events r)).
Proof.
  intros Hr Hc Hw He. revert P. induction rs as [|r' rs IH]; intros P; [by apply elem_of_nil in Hr|]. cbn [delivered_all foldl].
  apply elem_of_cons in Hr as [->|Hr]; [|by apply IH]. apply (delivered_all_keeps pri l I [] rs). unfold delivered.
  rewrite decide_True by (split; [by intros ?%elem_of_nil|done]). by apply fd_fed_awaits.
Qed.

Lemma ready_all_keeps pri l I todo fds P p w e : awaits P p w e -> awaits (ready_all pri l I todo fds P) p w e.
Proof.
  revert P. induction fds as [|fd fds IH]; intros P H; [done|]. cbn [ready_all foldl]. apply IH. case_decide; [done|]. by apply fd_fed_keeps.
Qed.

Lemma ready_all_awaits pri l I fds fd P w :
  fd ∈ fds -> w ∈ I fd -> mask_of (bare l) w .& (EV_READ .| EV_WRITE) <> 0 ->
  awaits (ready_all pri l I [] fds P) (pri w) w (mask_of (bare l) w .& (EV_READ .| EV_WRITE)).
Proof.
  intros Hfd Hw He. revert P. induction fds as [|fd' fds IH]; intros P; [by apply elem_of_nil in Hfd|]. cbn [ready_all foldl].
  apply elem_of_cons in Hfd as [->|Hfd]; [|by apply IH]. apply (ready_all_keeps pri l I [] fds).
  rewrite decide_False by (by intros ?%elem_of_nil). by apply fd_fed_awaits.
Qed.

(** ** Where pending events come from *)

Section explained.
Context (cause : W -> Z -> Prop).

(** Every pending watcher has a cause, and so has each of its events. *)
Definition explained (P : queues) : Prop :=
  forall p w e, (w, e) ∈ P p ->
    (exists e', cause w e') /\ forall i, Z.testbit e i = true -> exists e', cause w e' /\ Z.testbit e' i = true.

Lemma explained_nil P : (forall p, P p = []) -> explained P.
Proof. intros HP p w e. rewrite HP. by intros ?%elem_of_nil. Qed.

Lemma explained_fed P w p r : explained P -> cause w r -> explained (fed P w p r).
Proof.
  intros HP Hc p' w' e. unfold fed, upd. case_decide as D; [|apply HP]. subst p'.
  intros [H|(-> & e0 & -> & H)]%feed_inv; [by apply HP in H|]. split; [by exists r|]. intros i. rewrite Z.lor_spec.
  intros [Hi|Hi]%orb_true_iff; [|by exists r].
  destruct H as [H| ->]; [by apply (HP _ _ _ H)|by rewrite Z.bits_0 in Hi].
Qed.

Lemma explained_cleared P w p : explained P -> explained (cleared P w p).
Proof.
  intros HP p' w' e. unfold cleared, upd. case_decide as D; [|apply HP]. subst p'. unfold unfeed.
  intros [H _]%list_elem_of_In%List.filter_In. apply (HP p w' e). by apply list_elem_of_In.
Qed.

Lemma explained_fd_fed pri m r ws P :
  (forall w, w ∈ ws -> mask_of m w .& r <> 0 -> cause w (mask_of m w .& r)) -> explained P -> explained (fd_fed pri m r ws P).
Proof.
  revert P. induction ws as [|w ws IH]; intros P Hws HP; [done|]. cbn [fd_fed foldl].
  apply IH; [intros w' Hw'; apply Hws; by right|]. destruct (Z.eqb_spec (mask_of m w .& r) 0); [done|].
  apply explained_fed; [done|]. apply Hws; [by left|done].
Qed.
End explained.

(** The events that epoll_poll is to deliver: those that the kernel reports, with
    the current generation of the descriptor, and those of descriptors that are
    always ready. *)
Inductive wakes (l : ev_loop) (I : chains) (rs : list report) (w : W) : Z -> Prop :=
| wakes_report r :
    r ∈ rs -> current l r = true -> w ∈ I (r_fd r) -> events_of (io_map l) w .& got_of (r_events r) <> 0 ->
    wakes l I rs w (events_of (io_map l) w .& got_of (r_events r))
| wakes_always fd :
    fd ∈ alive_fds l (eperms l) -> w ∈ I fd -> events_of (io_map l) w <> 0 -> wakes l I rs w (events_of (io_map l) w).

Section polled.
Context (pri : W -> Z) (l : ev_loop) (I : chains) (rs : list report) (P : queues).
(** Watchers wait for reading and writing only. *)
Context (Hmask : forall fd w, w ∈ I fd -> mask_of (bare l) w .& (EV_READ .| EV_WRITE) = mask_of (bare l) w).

Lemma polled_awaits w e : wakes l I rs w e -> awaits (polled pri l I [] rs P) (pri w) w e.
Proof.
  intros [r Hr Hc Hw He|fd Hfd Hw He]; rewrite <- mask_events in He |- *.
  - apply ready_all_keeps. by apply delivered_all_awaits.
  - rewrite <- (Hmask _ _ Hw) in He |- *. apply (ready_all_awaits _ _ _ _ fd); [by apply elem_of_reverse|done|done].
Qed.

Context (cause : W -> Z -> Prop) (Hcause : forall w e, wakes l I rs w e -> cause w e).

Lemma explained_delivered rs' P' :
  (forall r, r ∈ rs' -> r ∈ rs) -> explained cause P' -> explained cause (delivered_all pri l I [] rs' P').
Proof.
  revert P'. induction rs' as [|r rs' IH]; intros P' Hsub HP; [done|]. cbn [delivered_all foldl].
  apply IH; [intros r' Hr'; apply Hsub; by right|]. unfold delivered. case_decide as D; [|done].
  apply explained_fd_fed; [|done]. intros w Hw He. apply Hcause. rewrite mask_events in He |- *.
  apply wakes_report; [apply Hsub; by left|apply D|done|done].
Qed.

Lemma explained_ready fds P' :
  (forall fd, fd ∈ fds -> fd ∈ alive_fds l (eperms l)) -> explained cause P' -> explained cause (ready_all pri l I [] fds P').
Proof.
  revert P'. induction fds as [|fd fds IH]; intros P' Hsub HP; [done|]. cbn [ready_all foldl].
  apply IH; [intros fd' Hfd'; apply Hsub; by right|]. case_decide; [done|].
  apply explained_fd_fed; [|done]. intros w Hw He. apply Hcause. rewrite (Hmask _ _ Hw), mask_events in *.
  apply (wakes_always _ _ _ _ fd); [apply Hsub; by left|done|done].
Qed.

Lemma explained_polled : explained cause P -> explained cause (polled pri l I [] rs P).
Proof.
  intros HP. apply explained_ready; [|by apply explained_delivered]. intros fd. by rewrite elem_of_reverse.
Qed.
End polled.

(** The watchers of a chain wait for reading and writing only. *)
Lemma chain_masks l I d todo P :
  io_state l I d todo P -> forall fd w, w ∈ I fd -> mask_of (bare l) w .& (EV_READ .| EV_WRITE) = mask_of (bare l) w.
Proof.
  intros Hs fd w Hw. destruct (io_member _ _ _ _ _ _ (ios_ok _ _ _ _ _ Hs) Hw) as (_ & q & e & _ & Hiow).
  exact (mask_read_write _ _ _ _ _ Hiow).
Qed.

(** epoll_poll from a settled state. *)
Lemma poll_settled n l (k : K) I P rs :
  settled n (l, k) I P -> reports_ok l rs ->
  roomy (total I (alive_fds l (eperms l)) + total I (r_fd <$> rs)) l ->
  exists l' k' cs fed, epoll_poll (Some (event_of <$> rs)) (l, k) = Some (l', k') /\ made k cs k' /\
    sublist fed rs /\ (forall r, r ∈ rs -> accounted l l' cs fed r) /\
    settled n (l', k') I (polled (prio l) l I [] fed P) /\ same_priorities l l' /\ clock_frame l l' /\ io_map l' = io_map l /\
    (forall fd, snubbed l fd -> fd ∉ eperms l \/ wanted l I fd = 0 -> forgotten l' fd) /\
    (forall fd, ~ failed cs fd -> (snubbed l fd -> wanted l I fd <> 0) -> in_step (l, k) fd -> in_step (l', k') fd) /\
    eperms l' ≡ₚ alive_fds l (eperms l) /\
    forall m, roomy (m + (total I (alive_fds l (eperms l)) + total I (r_fd <$> rs))) l -> roomy m l'.
Proof.
  intros Hse Hrs Hroom. pose proof Hse as [Hs Hok Hw]. cbn [fst] in Hs.
  destruct (epoll_poll_ok (prio l) n l k I [] [] P rs Hs Hok Hw) as
    (l' & k' & cs & fed & Hrun & Hcs & Hsub & Hacc & Hs' & Hok' & Hw' & Hpr & Hclk & Hm & Hp & Hsn & Hst & Hr'); try done.
  exists l', k', cs, fed. split_and!; try done.
  - intros fd Hfd H. split; [by apply Hsn|]. rewrite Hp, elem_of_alive, (alive_wanted n l k I P) by done. tauto.
  - intros fd Hfd Hal. apply Hst; [done|]. intros H. apply (alive_wanted n l k I P); auto.
Qed.

(** ** A new epoll instance *)

Lemma fork_ok (epoll_create : K -> K) n l (k : K) I P :
  (forall k fd, registered (epoll_create k) fd = None) -> settled n (l, k) I P ->
  exists l1 todo, epoll_fork epoll_create (l, k) = Some (l1, epoll_create k) /\ io_state l1 I [] todo P /\
    epoll_ok n (l1, epoll_create k) /\ watched epoll_watches in_step (l1, epoll_create k) I todo /\ rearm_frame l l1 /\
    forall fd, wanted l I fd <> 0 -> in_step (l1, epoll_create k) fd.
Proof.
  intros Hnew [Hs [H1 H2 H3 H4] _]. cbn [fst snd] in *.
  destruct (fd_rearm_all_ok l I [] P Hs) as (l1 & todo & Hrun & Hs1 & Hf & Hfs).
  assert (epoll_eperms l1 = epoll_eperms l /\ epoll_epermcnt l1 = epoll_epermcnt l) as [E1 E2].
  { split; [exact (f_equal epoll_eperms (rf_mask _ _ Hf))|exact (f_equal epoll_epermcnt (rf_mask _ _ Hf))]. }
  exists l1, todo. unfold epoll_fork. cbn [fst snd]. rewrite Hrun. split_and!; [done|done|split| |done|]; cbn [fst snd].
  - intros fd ev. by rewrite Hnew.
  - intros fd. specialize (H2 fd). unfold marks in *. rewrite Hfs. destruct (array_get (anfds l) fd) as [a|]; [|done].
    cbn [fmap option_fmap option_map]. by destruct (negb _).
  - intros fd. unfold eperms. rewrite E1, E2, (rf_length _ _ Hf). apply H3.
  - by rewrite E1, E2.
  - intros fd b Hb _ He. cbn [fst] in Hb. rewrite Hfs in Hb. destruct (array_get (anfds l) fd) as [a|]; [|done].
    injection Hb as <-. destruct (Z.eqb_spec (fd_events a) 0); cbn [negb] in He; [by rewrite e in He|done].
  - intros fd Hwant. split; cbn [fst snd]; [by rewrite Hnew|]. unfold snubbed, marks. rewrite Hfs.
    destruct (array_get (anfds l) fd) as [a|] eqn:Ha; [|done]. destruct (settled_events l I P fd a Hs Ha) as [_ E].
    cbn [fmap option_fmap option_map]. by rewrite E, (proj2 (Z.eqb_neq _ _) Hwant).
Qed.

(** ** Longer runs *)

(** The steps of a loop that never gets a new epoll instance: calls of the client,
    fd_reify, epoll_poll, and whatever does not touch the descriptors (timers,
    the time, taking pending events from the queues). *)
Inductive step : ev_loop * K -> ev_loop * K -> Prop :=
| step_calls l k s cs l' k' :
    io_implements l s -> io_calls_ok (prio l) s cs = true -> roomy (io_calls_cost (prio l) s cs) l ->
    run_io_calls cs l = Some l' -> reopened l' k k' -> step (l, k) (l', k')
| step_reify n l k I todo P l' k' :
    io_state l I [] todo P -> 0 <= n -> epoll_ok (n + 2 * Z.of_nat (length (used l))) (l, k) ->
    watched epoll_watches in_step (l, k) I todo -> roomy (total I (used l)) l ->
    fd_reify epoll_modify (l, k) = Some (l', k') -> step (l, k) (l', k')
| step_poll n l k I P rs l' k' :
    settled n (l, k) I P -> reports_ok l rs -> roomy (total I (alive_fds l (eperms l)) + total I (r_fd <$> rs)) l ->
    epoll_poll (Some (event_of <$> rs)) (l, k) = Some (l', k') -> step (l, k) (l', k')
| step_other l k l' :
    anfds l' = anfds l -> epoll_eperms l' = epoll_eperms l -> epoll_epermcnt l' = epoll_epermcnt l -> step (l, k) (l', k).


(** Calls of the client, and fd_reify. *)
Lemma calls_reify_ok m l (k : K) I P cs :
  settled m (l, k) I P -> io_calls_ok (prio l) (io_map l, I, P) cs = true ->
  roomy (io_calls_cost (prio l) (io_map l, I, P) cs + Z.of_nat (size (mem l))) l ->
  exists l1, run_io_calls cs l = Some l1 /\ forall k1 n, reopened l1 k k1 -> 0 <= n -> n + 2 * Z.of_nat (length (used l1)) <= m ->
    let '(M1, I1, P1) := spec_io_calls (prio l) cs (io_map l, I, P) in
    exists l' k' D calls, fd_reify epoll_modify (l1, k1) = Some (l', k') /\ made k1 calls k' /\
      (forall fd, fd ∈ D -> I1 fd <> [] /\ refusal calls fd) /\
      settled n (l', k') (without D I1) (abandon (prio l) I1 D P1) /\ io_map l' = given_up I1 D M1 /\
      (forall fd, fd ∉ D -> epoll_kept (l, k) (l', k') fd) /\ rtc step (l, k) (l', k') /\ same_priorities l l'.
Proof.
  intros [Hs Hok Hw] Hcs Hroom. cbn [fst] in Hs. pose proof (io_calls_cost_nonneg (prio l) (io_map l, I, P) cs) as Hc.
  assert (io_implements l (io_map l, I, P)) as Himp by (by exists []).
  assert (roomy (io_calls_cost (prio l) (io_map l, I, P) cs) l) as Hroom0 by (intros pr q Hq; specialize (Hroom pr q Hq); lia).
  destruct (run_io_calls_ok (prio l) cs l (io_map l, I, P)) as (l1 & Hrun & (todo & Hs1 & Hm1) & Hf1 & Hno1 & Hr1); [done..|].
  exists l1. split; [done|]. intros k1 n Hk1 Hn Hused.
  pose proof (step_calls l k _ cs l1 k1 Himp Hcs Hroom0 Hrun Hk1) as Hst1.
  destruct (spec_io_calls _ _ _) as [[M1 I1] P1]. cbn [fst snd] in *.
  pose proof (same_size l l1 (if_priorities _ _ Hf1)) as Hsize.
  assert (epoll_ok (n + 2 * Z.of_nat (length (used l1))) (l1, k1)) as Hok1.
  { apply (epoll_ok_mono _ m); [lia|]. by apply (reopened_epoll _ l l1 k); [|apply io_notes|]. }
  assert (watched epoll_watches in_step (l1, k1) I1 todo) as Hw1 by (by apply (reopened_watched l l1 k k1 I); [|apply io_notes| |]).
  assert (roomy (total I1 (used l1)) l1) as Hroom1.
  { pose proof (total_size _ _ _ _ _ Hs1) as Ht. rewrite Hsize in Ht. intros pr q Hq.
    assert (roomy (Z.of_nat (size (mem l))) l1) as Hr; [|specialize (Hr pr q Hq); lia].
    apply Hr1. intros pr' q' Hq'. specialize (Hroom pr' q' Hq'). lia. }
  destruct (reify_settles n l1 k1 I1 todo P1 Hs1 Hn Hok1 Hw1 Hroom1) as
    (l' & k' & D & calls & Hrun' & _ & Hmade & HD & Hse & Hkept & Hm & Hpr & _).
  assert (abandon (prio l1) I1 D P1 = abandon (prio l) I1 D P1) as E by (apply abandon_same; intros w; apply prio_same, Hf1).
  exists l', k', D, calls. rewrite <- E, <- Hm1. split_and!; try done.
  - intros fd Hfd. by apply HD.
  - intros fd Hfd. apply (epoll_kept_trans _ (l1, k1)); [|by apply Hkept]. by apply (reopened_kept l l1 k k1 fd (io_notes _ _ Hf1)).
  - apply (rtc_l _ _ (l1, k1)); [done|]. apply rtc_once. by apply (step_reify n l1 k1 I1 todo P1).
  - eapply same_priorities_trans; [apply Hf1|done].
Qed.

(** *** Events of other watchers *)





End epoll.

(** ** Descriptors given up *)

Lemma without_notin D fd (J : chains) : fd ∉ D -> without D J fd = J fd.
Proof.
  revert J. induction D as [|i D IH]; intros J Hfd; [done|]. cbn [without foldl]. rewrite not_elem_of_cons in Hfd.
  destruct Hfd as [Hne Hfd]. change (without D (put J i []) fd = J fd). rewrite (IH (put J i []) Hfd). unfold put. by rewrite decide_False.
Qed.

Lemma without_empty D fd (J : chains) : J fd = [] -> without D J fd = [].
Proof.
  revert J. induction D as [|i D IH]; intros J Hfd; [done|]. apply (IH (put J i [])). unfold put. by case_decide.
Qed.

Lemma without_in D fd (J : chains) : fd ∈ D -> without D J fd = [].
Proof.
  revert J. induction D as [|i D IH]; intros J; [by intros ?%elem_of_nil|]. intros [->|Hfd]%elem_of_cons.
  - apply (without_empty D i (put J i [])). unfold put. by rewrite decide_True.
  - by apply (IH (put J i [])).
Qed.

(** Giving up descriptors changes no events. *)
Lemma given_up_events (J : chains) D (N : gmap W iow) w : events_of (given_up J D N) w = events_of N w.
Proof.
  revert N. induction D as [|fd D IH]; intros N; [done|]. cbn [given_up foldl]. etrans; [apply IH|].
  induction (J fd) as [|w' ws IHw]; [done|]. cbn [foldr]. rewrite <- IHw. unfold events_of.
  destruct (decide (w = w')) as [->|Hne]; [|by rewrite lookup_alter_ne]. rewrite lookup_alter_eq. by destruct (_ !! w').
Qed.

Lemma interest_masks m m' ws : (forall w, mask_of m' w = mask_of m w) -> interest m' ws = interest m ws.
Proof. intros E. unfold interest. induction ws as [|w ws IH]; [done|]. cbn [foldr]. by rewrite E, IH. Qed.

(** * Properties *)

(** C37: after every sequence of calls of the client, and whatever descriptors
    it closes and opens again meanwhile, fd_reify with the epoll backend ends,
    whatever the kernel answers. Only the watchers of descriptors that the kernel
    refused, in a call of epoll_ctl made by this fd_reify, are stopped and fed an
    error. All other descriptors that were in step with the kernel still are;
    those that are in step and have watchers are registered for exactly the
    events that these wait for and with the current generation, or are noted as
    always ready. The calls are those that the documentation allows, and the
    queues have room for an event per watcher, up to 2^25. (Out of step is a descriptor after a failed epoll_ctl, which may
    leave an old registration, and one that epoll_poll has forgotten.) *)
Theorem reify_registers {K} `{!Kernel K, !KernelLaws K} n l (k : K) I P cs :
  settled (n + 2 ^ 24) (l, k) I P -> 0 <= n -> io_calls_ok (prio l) (io_map l, I, P) cs = true ->
  roomy (io_calls_cost (prio l) (io_map l, I, P) cs + Z.of_nat (size (mem l))) l ->
  exists l1, run_io_calls cs l = Some l1 /\ forall k1, reopened l1 k k1 ->
    let '(M1, I1, P1) := spec_io_calls (prio l) cs (io_map l, I, P) in
    exists l' k' D calls, fd_reify epoll_modify (l1, k1) = Some (l', k') /\ made k1 calls k' /\
      (forall fd, fd ∈ D -> I1 fd <> [] /\ refusal calls fd) /\
      settled n (l', k') (without D I1) (abandon (prio l) I1 D P1) /\ io_map l' = given_up I1 D M1 /\
      (forall fd, fd ∉ D -> in_step (l, k) fd -> in_step (l', k') fd) /\
      forall fd, in_step (l', k') fd -> wanted l' (without D I1) fd <> 0 ->
        epoll_watches (l', k') fd (wanted l' (without D I1) fd).
Proof.
  intros Hse Hn Hcs Hroom. destruct (calls_reify_ok _ l k I P cs Hse Hcs Hroom) as (l1 & Hrun & H). exists l1. split; [done|].
  intros k1 Hk1. destruct (used_length l1) as [_ Hused]. unfold fd_limit in Hused. specialize (H k1 n Hk1 Hn ltac:(lia)).
  destruct (spec_io_calls _ _ _) as [[M1 I1] P1]. destruct H as (l' & k' & D & calls & Hrun' & Hmade & HD & Hse' & Hm & Hkept & _).
  exists l', k', D, calls. split_and!; try done; [intros fd Hfd; by apply Hkept|]. intros fd. by apply (settled_wanted n l' k' _ _ fd Hse').
Qed.

(** C38: epoll_poll wakes up exactly whom it should. The reports of the kernel
    are delivered, except those of older generations, of descriptors that were
    closed and used again, and those where the kernel fails to take back events
    that nobody waits for; whenever one is dropped, postfork is set, which asks
    for a new epoll instance. Every active watcher gets those of the events it
    waits for that are delivered for its descriptor, or all of them if the
    descriptor is in the list of always ready ones; no watcher gets any other
    event. Descriptors stay in step with the kernel, unless a call of epoll_ctl
    for them failed or they are always ready and have no watchers. Reports are of
    descriptors in the table, and carry the current generation only if epoll does
    not refuse the descriptor with EPERM (noting that changed the generation);
    the queues have room for the events, up to 2^25. *)
Theorem epoll_poll_exact {K} `{!Kernel K, !KernelLaws K} n l (k : K) I P rs :
  settled n (l, k) I P -> reports_ok l rs ->
  roomy (total I (alive_fds l (eperms l)) + total I (r_fd <$> rs)) l ->
  exists l' k' P' cs fed, epoll_poll (Some (event_of <$> rs)) (l, k) = Some (l', k') /\ settled n (l', k') I P' /\
    made k cs k' /\ sublist fed rs /\ (forall r, r ∈ rs -> accounted l l' cs fed r) /\
    (forall w e, wakes l I fed w e -> awaits P' (prio l w) w e) /\
    explained (fun w e => wakes l I fed w e \/ exists p, (w, e) ∈ P p) P' /\
    forall fd, ~ failed cs fd -> (snubbed l fd -> wanted l I fd <> 0) -> in_step (l, k) fd -> in_step (l', k') fd.
Proof.
  intros Hse Hrs Hroom.
  destruct (poll_settled n l k I P rs Hse Hrs Hroom) as (l' & k' & cs & fed & Hrun & Hcs & Hsub & Hacc & Hs' & _ & _ & _ & _ & Hst & _ & _).
  pose proof (chain_masks _ _ _ _ _ (se_io _ _ _ _ Hse)) as Hm. cbn [fst] in Hm.
  exists l', k', (polled (prio l) l I [] fed P), cs, fed. split_and!; try done.
  - intros w e Hw. by apply polled_awaits.
  - apply explained_polled; [done|auto|]. intros p w e Hin. split; [exists e; eauto|]. intros i Hi. exists e. eauto.
Qed.


(** C40: epoll_fork, which the loop calls when postfork is set, repairs whatever
    went wrong before: after it and the next fd_reify every descriptor with
    watchers that the kernel did not refuse just then is registered with the new
    epoll instance for exactly the events that its watchers wait for, or is in
    the list of always ready ones, even if it was out of step or forgotten. *)
Theorem fork_recovers {K} `{!Kernel K, !KernelLaws K} (epoll_create : K -> K) n l (k : K) I P :
  (forall k fd, registered (epoll_create k) fd = None) ->
  settled (n + 2 ^ 24) (l, k) I P -> 0 <= n -> roomy (Z.of_nat (size (mem l))) l ->
  exists l1 l' k' D calls, epoll_fork epoll_create (l, k) = Some (l1, epoll_create k) /\
    fd_reify epoll_modify (l1, epoll_create k) = Some (l', k') /\ made (epoll_create k) calls k' /\
    (forall fd, fd ∈ D -> I fd <> [] /\ refusal calls fd) /\
    settled n (l', k') (without D I) (abandon (prio l) I D P) /\ io_map l' = given_up I D (io_map l) /\
    forall fd, fd ∉ D -> wanted l I fd <> 0 -> epoll_watches (l', k') fd (wanted l I fd).
Proof.
  intros Hnew Hse Hn Hroom. destruct (fork_ok epoll_create (n + 2 ^ 24) l k I P Hnew Hse) as
    (l1 & todo & Hrun1 & Hs1 & Hok1 & Hw1 & Hf1 & Hst1). pose proof (rf_mem _ _ Hf1) as Hm1.
  destruct (used_length l1) as [_ Hused]. unfold fd_limit in Hused.
  destruct (reify_settles n l1 (epoll_create k) I todo P Hs1 Hn) as
    (l' & k' & D & calls & Hrun & _ & Hmade & HD & Hse' & Hkept & Hmap & _).
  - apply (epoll_ok_mono _ (n + 2 ^ 24)); [lia|done].
  - exact Hw1.
  - pose proof (total_size _ _ _ _ _ Hs1) as Ht. rewrite Hm1 in Ht. intros pr q Hq.
    rewrite (stack_same l) in Hq by (destruct (rf_pending _ _ Hf1); congruence). specialize (Hroom pr q Hq). lia.
  - assert (io_map l1 = io_map l) as Emap by (unfold io_map; by rewrite Hm1). rewrite Emap in Hmap.
    exists l1, l', k', D, calls. split_and!; try done.
    + intros fd Hfd. by apply HD.
    + by rewrite (abandon_same (prio l1)) by (intros w; unfold prio; by rewrite Hm1).
    + intros fd Hfd Hwant. assert (wanted l' (without D I) fd = wanted l I fd) as E.
      { unfold wanted. rewrite without_notin by done. apply interest_masks. intros w. rewrite !mask_events, Hmap. apply given_up_events. }
      rewrite <- E. apply (settled_wanted n l' k' _ _ fd Hse'); [|by rewrite E]. apply (Hkept fd Hfd). by apply Hst1.
Qed.

(** * Instances *)

(** A kernel that refuses the descriptor 5, a regular file, with EPERM and 6,
    which is not open, with another error, and that has not the memory to modify
    the registration of 8. *)
Abbreviation regs := (gmap Z epoll_event).
Abbreviation table := (regs * list epoll_call)%type.

Definition table_ctl (op : epoll_op) (fd : Z) (ev : epoll_event) (k : regs) : option errno * regs :=
  if fd =? 5 then (Some EPERM, k)
  else if fd =? 6 then (Some EOTHER, k)
  else match op, k !! fd with
       | EPOLL_CTL_ADD, Some _ => (Some EEXIST, k)
       | EPOLL_CTL_ADD, None => (None, <[fd := ev]> k)
       | EPOLL_CTL_MOD, Some _ => if fd =? 8 then (Some EOTHER, k) else (None, <[fd := ev]> k)
       | EPOLL_CTL_DEL, Some _ => (None, delete fd k)
       | _, None => (Some ENOENT, k)
       end.

#[export] Instance table_kernel : Kernel table :=
  with_history table_ctl (fun k fd => if (fd =? 5) || (fd =? 6) then None else k !! fd).

Definition no_table : table := (∅, []).

#[export] Instance table_laws : KernelLaws table.
Proof.
  split; unfold epoll_ctl, registered, history, table_kernel, with_history, table_ctl; intros op fd ev [k h]; cbn [fst snd].
  1: intros fd' Hne; destruct ((fd' =? 5) || (fd' =? 6)); [by destruct (fd =? 5), (fd =? 6), op, (k !! fd), (fd =? 8)|].
  all: destruct (fd =? 5), (fd =? 6), op, (k !! fd) eqn:E, (fd =? 8); cbn [orb fst snd]; intros;
    first [done|by rewrite lookup_insert_ne by congruence|by rewrite lookup_delete_ne by congruence|by rewrite lookup_insert_eq|by rewrite lookup_delete_eq].
Qed.

Definition demo_io (fd events : Z) : ev_watcher := Watcher 0 0 0 (ev_io null fd (events .| EV__IOFDSET)).
Definition demo_ios : gmap W ev_watcher := {[ 1 := demo_io 3 EV_READ; 2 := demo_io 5 EV_WRITE; 3 := demo_io 6 EV_READ; 4 := demo_io 3 EV_WRITE; 6 := demo_io 8 EV_READ ]}.
Definition demo_io_loop : ev_loop := loop_init fzero fzero demo_ios.
Definition no_chains : chains := fun _ => [].
Definition no_queues : queues := fun _ => [].

Lemma demo_io_state : io_state demo_io_loop no_chains [] [] no_queues.
Proof.
  apply init_io_ok; [done|done|]. intros w x Hx. unfold demo_ios in Hx.
  repeat (apply lookup_insert_Some in Hx as [[_ <-]|[_ Hx]]; [done|]). by apply lookup_singleton_Some in Hx as [_ <-].
Qed.

(** A new loop and an empty kernel. *)
Lemma init_settled rt now ws n :
  io_state (loop_init rt now ws) no_chains [] [] no_queues -> n <= 2 ^ 25 ->
  settled n (loop_init rt now ws, no_table) no_chains no_queues.
Proof.
  intros Hs Hn. assert (forall fd, array_get (anfds (loop_init rt now ws)) fd = None) as Hnil
    by (intros fd; unfold array_get; simpl; by destruct (fd <? 0)).
  assert (forall fd, marks (loop_init rt now ws) fd = (0, 0)) as Hm by (intros fd; unfold marks; by rewrite Hnil).
  split; [exact Hs|split|]; cbn [fst snd].
  - intros fd ev. unfold registered, table_kernel, with_history, no_table. cbn [fst]. destruct (_ || _); [done|]. by rewrite lookup_empty.
  - intros fd. by rewrite Hm.
  - intros fd Hfd. by apply elem_of_nil in Hfd.
  - simpl. lia.
  - intros fd a Ha. cbn [fst] in Ha. by rewrite Hnil in Ha.
Qed.

(** Everything is in step with it. *)
Lemma init_in_step rt now ws fd : in_step (loop_init rt now ws, no_table) fd.
Proof.
  assert (marks (loop_init rt now ws) fd = (0, 0)) as Hm.
  { unfold marks, array_get. simpl. by destruct (fd <? 0). }
  split; unfold snubbed; cbn [fst snd]; rewrite Hm; [|done].
  intros ev. unfold registered, table_kernel, with_history, no_table. cbn [fst]. destruct (_ || _); [done|]. by rewrite lookup_empty.
Qed.

Lemma demo_settled_init n : n <= 2 ^ 25 -> settled n (demo_io_loop, no_table) no_chains no_queues.
Proof. apply init_settled. exact demo_io_state. Qed.

Definition demo_spec : io_spec := (io_map demo_io_loop, no_chains, no_queues).

Lemma demo_implements : io_implements demo_io_loop demo_spec.
Proof. exists []. split; [exact demo_io_state|done]. Qed.

(** The loop after the first calls, and the kernel. *)
Definition demo_ready : option (ev_loop * table) :=
  l ← run_io_calls [IStart 1; IStart 4; IStart 2; IStart 6] demo_io_loop; fd_reify epoll_modify (l, no_table).

(** A report, one of an older generation, and one of events that nobody waits
    for. *)
Definition demo_report : report := Report 3 1 EPOLLIN.
Definition demo_reports : list report := [demo_report; Report 3 0 EPOLLOUT; Report 8 1 EPOLLOUT].

Definition demo_view (s : ev_loop * table) : list W * list Z * list bool * list bool * list Z * list Z * nat :=
  (omap (fun fd => head <$> array_get (anfds s.1) fd) [3; 5; 8], pendingcnt s.1,
   current s.1 <$> demo_reports, (fun fd => bool_decide (snubbed s.1 fd)) <$> [3; 5; 8], eperms s.1,
   events_of (io_map s.1) <$> [1; 2; 4; 6], length (used s.1)).
Definition demo_seen := ([4; 2; 6], [0; 0; 0; 0; 0], [true; false; true], [false; true; false], [5], [EV_READ; EV_WRITE; EV_WRITE; EV_READ], 10%nat).

Lemma demo_heads s fd : demo_view s = demo_seen -> fd = 3 \/ fd = 5 \/ fd = 8 ->
  exists a, array_get (anfds s.1) fd = Some a /\ head a <> null.
Proof.
  intros H Hfd. unfold demo_view, demo_seen in H. injection H as H _ _ _ _ _ _. cbn [omap list_omap] in H.
  destruct (array_get (anfds s.1) 3) as [a|] eqn:E3; destruct (array_get (anfds s.1) 5) as [b|] eqn:E5;
    destruct (array_get (anfds s.1) 8) as [c|] eqn:E8; try done.
  injection H as Ha Hb Hc. destruct Hfd as [-> |[-> | ->]].
  - exists a. split; [exact E3|]. rewrite Ha. discriminate.
  - exists b. split; [exact E5|]. rewrite Hb. discriminate.
  - exists c. split; [exact E8|]. rewrite Hc. discriminate.
Qed.

Lemma roomy_empty l n : pendingcnt l = [0; 0; 0; 0; 0] -> n <= 2 ^ 25 -> roomy n l.
Proof.
  intros Hc Hn pr q (_ & _ & Hq & _)%stack_Some. rewrite Hc in Hq. apply array_get_Some in Hq as [_ Hq].
  apply (lookup_replicate_1 5 0) in Hq as [Hq _]. lia.
Qed.

(** Watchers 1 and 4 wait on descriptor 3, 2 on descriptor 5, and 6 on 8. *)
Lemma demo_ready_settled :
  exists l k J, demo_ready = Some (l, k) /\ settled (2 ^ 24) (l, k) J no_queues /\ J 3 = [4; 1] /\ J 5 = [2] /\ J 8 = [6] /\
    demo_view (l, k) = demo_seen /\ (forall w, prio l w = prio demo_io_loop w) /\ size (mem l) = size (mem demo_io_loop) /\
    forall fd, fd ∉ [6] -> in_step (l, k) fd.
Proof.
  destruct (calls_reify_ok (2 ^ 25) demo_io_loop no_table no_chains no_queues [IStart 1; IStart 4; IStart 2; IStart 6]) as (l1 & Hrun & H).
  - apply demo_settled_init. done.
  - vm_compute. reflexivity.
  - apply init_roomy. vm_compute. discriminate.
  - destruct (used_length l1) as [_ Hused]. unfold fd_limit in Hused.
    specialize (H no_table (2 ^ 24) ltac:(intros fd; by left) ltac:(done) ltac:(lia)).
    assert ((spec_io_calls (prio demo_io_loop) [IStart 1; IStart 4; IStart 2; IStart 6] (io_map demo_io_loop, no_chains, no_queues)).1.2 =
      put (put (put (put no_chains 3 [1]) 3 [4; 1]) 5 [2]) 8 [6]) as HJ by (vm_compute; reflexivity).
    assert ((spec_io_calls (prio demo_io_loop) [IStart 1; IStart 4; IStart 2; IStart 6] (io_map demo_io_loop, no_chains, no_queues)).2 =
      no_queues) as HP by (vm_compute; reflexivity).
    destruct (spec_io_calls _ _ _) as [[M J] P]. cbn [fst snd] in HJ, HP. subst P.
    destruct H as (l & k & D & cs & Hrun2 & _ & HD & Hse & _ & Hkept & _ & Hpr).
    assert (J 3 = [4; 1] /\ J 5 = [2] /\ J 8 = [6] /\ forall fd, fd <> 3 -> fd <> 5 -> fd <> 8 -> J fd = []) as (HJ3 & HJ5 & HJ8 & HJn).
    { rewrite HJ. split_and!; [done|done|done|]. intros fd H3 H5 H8. unfold put. by rewrite !decide_False. }
    assert (demo_ready = Some (l, k)) as Hready by (unfold demo_ready; rewrite Hrun; exact Hrun2).
    assert (demo_view <$> demo_ready = Some demo_seen) as Hview by (vm_compute; reflexivity).
    rewrite Hready in Hview. apply (inj Some) in Hview.
    pose proof (ios_ok _ _ _ _ _ (se_io _ _ _ _ Hse)) as Hio. cbn [fst] in Hio.
    assert (forall fd, fd = 3 \/ fd = 5 \/ fd = 8 -> fd ∉ D) as Hin.
    { intros fd Hfd358 Hfd. destruct (demo_heads _ _ Hview Hfd358) as (a & Ha & Hn). pose proof (io_chain _ _ _ _ Hio fd a Ha) as Hc.
      rewrite (without_in D fd J Hfd) in Hc. exact (Hn Hc). }
    assert (D = []) as ->.
    { destruct D as [|fd D]; [reflexivity|exfalso]. assert (fd ∈ fd :: D) as Hfd by (apply list_elem_of_here).
      destruct (HD fd Hfd) as (HJfd & _). apply HJfd, HJn; intros E; apply (Hin fd); auto. }
    exists l, k, J. split_and!; [exact Hready|exact Hse|done..|exact Hview| |by apply same_size|].
    + intros w. by apply prio_same.
    + intros fd _. apply (Hkept fd); [by apply not_elem_of_nil|]. apply init_in_step.
Qed.

(** The calls that epoll_poll or fd_reify make. *)
Definition calls_between (k k' : table) : list epoll_call := take (length (history k') - length (history k)) (history k').

Lemma made_between (k : table) cs k' : made k cs k' -> calls_between k k' = cs.
Proof. intros [E _]. unfold calls_between. rewrite E, length_app, Nat.add_sub. apply take_app_length. Qed.

Definition demo_first : list io_call := [IStart 1; IStart 3; IStart 6].

Definition demo_first_seen : option (list epoll_call * Z * option iow) :=
  l ← run_io_calls demo_first demo_io_loop; '(l, k) ← fd_reify epoll_modify (l, no_table);
  Some (calls_between no_table k, events_of (io_map l) 1, io_map l !! 3).

(** Descriptor 3 is registered, and 6, which is not open, given up. *)
Lemma reify_registers_witness :
  exists l1 l' k', run_io_calls demo_first demo_io_loop = Some l1 /\
    fd_reify epoll_modify (l1, no_table) = Some (l', k') /\ epoll_watches (l', k') 3 EV_READ /\
    io_map l' !! 3 = Some (IoW 6 EV_READ false).
Proof.
  destruct (reify_registers 0 demo_io_loop no_table no_chains no_queues demo_first) as (l1 & Hrun & H).
  - apply demo_settled_init. vm_compute. discriminate.
  - done.
  - vm_compute. reflexivity.
  - apply init_roomy. vm_compute. discriminate.
  - assert (reopened l1 no_table no_table) as Hk by (intros fd; by left). specialize (H no_table Hk).
    assert ((spec_io_calls (prio demo_io_loop) demo_first (io_map demo_io_loop, no_chains, no_queues)).1.2 3 = [1]) as HI
      by (vm_compute; reflexivity).
    destruct (spec_io_calls _ _ _) as [[M1 I1] P1]. cbn [fst snd] in HI.
    destruct H as (l' & k' & D & calls & Hrun' & Hmade & HD & _ & _ & Hkept & Hwat).
    exists l1, l', k'. split; [exact Hrun|]. split; [exact Hrun'|].
    assert (demo_first_seen = Some ([(EPOLL_CTL_ADD, 8, None); (EPOLL_CTL_ADD, 6, Some EOTHER); (EPOLL_CTL_ADD, 3, None)],
      EV_READ, Some (IoW 6 EV_READ false))) as E by (vm_compute; reflexivity).
    unfold demo_first_seen in E. rewrite Hrun in E. cbn [mbind option_bind] in E. rewrite Hrun' in E. cbn [mbind option_bind] in E.
    rewrite (made_between _ _ _ Hmade) in E. injection E as Ecalls E1 E2. split; [|exact E2].
    assert (3 ∉ D) as H3.
    { intros Hin. destruct (HD 3 Hin) as (_ & [(op & _ & Hr)|[Hr _]]); rewrite Ecalls in Hr;
        repeat (apply elem_of_cons in Hr as [Hr|Hr]; [discriminate|]); by apply elem_of_nil in Hr. }
    assert (wanted l' (without D I1) 3 = EV_READ) as Hwant.
    { unfold wanted. rewrite without_notin, HI by exact H3. cbn [interest foldr]. rewrite mask_events. by rewrite E1. }
    rewrite <- Hwant. apply Hwat; [|by rewrite Hwant]. apply Hkept; [exact H3|]. apply init_in_step.
Defined.

Lemma demo_reports_ok l (k : table) : demo_view (l, k) = demo_seen -> reports_ok l demo_reports.
Proof.
  intros H. destruct (demo_heads _ 3 H) as (a & Ha & _); [by left|]. destruct (demo_heads _ 8 H) as (b & Hb & _); [auto|].
  apply (f_equal (fun v => v.1.1.1.2)) in H. injection H as H3 _ H8. apply bool_decide_eq_false in H3, H8. unfold demo_reports, demo_report.
  intros r Hr. set_unfold in Hr. destruct Hr as [-> |[-> |[-> |[]]]]; (split; [by vm_compute|]; split; [by vm_compute|]; split; [by eexists|done]).
Qed.

Definition demo_poll_calls : option (list epoll_call) :=
  '(l, k) ← demo_ready; '(_, k') ← epoll_poll (Some (event_of <$> demo_reports)) (l, k); Some (calls_between k k').

(** Watcher 6 waits for reading on 8, but the kernel reports that 8 is writable
    and fails to take this back: the report is dropped. *)
Lemma epoll_poll_exact_witness :
  exists l k l' k' (P' : queues), demo_ready = Some (l, k) /\ epoll_poll (Some (event_of <$> demo_reports)) (l, k) = Some (l', k') /\
    awaits P' 2 1 EV_READ /\ awaits P' 2 2 EV_WRITE /\ postfork l' = 1 /\ in_step (l', k') 3.
Proof.
  destruct demo_ready_settled as (l & k & J & Hready & Hse & HJ3 & HJ5 & HJ8 & Hview & Hpri & _ & Hstep).
  pose proof (demo_reports_ok l k Hview) as Hrs. 
  pose proof (f_equal (fun v => v.1.1.1.1.1.2) Hview) as Hcnt. pose proof (f_equal (fun v => v.1.1.1.1.2) Hview) as Hcur.
  pose proof (f_equal (fun v => v.1.1.1.2) Hview) as Hsn. pose proof (f_equal (fun v => v.1.1.2) Hview) as Hep.
  pose proof (f_equal (fun v => v.1.2) Hview) as Hev. cbn [demo_view demo_seen fst snd] in Hcnt, Hep.
  injection Hcur as Hc1 Hc2 Hc3. injection Hev as H1 H2 _ _. injection Hsn as Hs3 Hs5 _.
  assert (alive_fds l (eperms l) = [5]) as Hal.
  { rewrite Hep. unfold alive_fds. cbn [List.filter]. rewrite (proj2 (alive_wanted _ l k J no_queues 5 Hse)); [done|].
    split; [by apply bool_decide_eq_true in Hs5|]. unfold wanted. rewrite HJ5. cbn [interest foldr].
    rewrite mask_events, H2. discriminate. }
  destruct (epoll_poll_exact (2 ^ 24) l k J no_queues demo_reports Hse Hrs) as
    (l' & k' & P' & cs & fed & Hrun & _ & Hmade & _ & Hacc & Hwake & _ & Hst).
  - rewrite Hal. unfold total. cbn [foldr fmap list_fmap demo_reports demo_report r_fd]. rewrite HJ3, HJ5, HJ8. cbn [length].
    apply roomy_empty; [exact Hcnt|done].
  - assert (demo_poll_calls = Some [(EPOLL_CTL_MOD, 8, Some EOTHER)]) as Hcalls by (vm_compute; reflexivity).
    unfold demo_poll_calls in Hcalls. rewrite Hready in Hcalls. cbn [mbind option_bind] in Hcalls. rewrite Hrun in Hcalls.
    cbn [mbind option_bind] in Hcalls. rewrite (made_between _ _ _ Hmade) in Hcalls. apply (inj Some) in Hcalls. subst cs.
    assert (~ failed [(EPOLL_CTL_MOD, 8, Some EOTHER)] 3) as Hnf.
    { intros (op & err & [= _ E]%list_elem_of_singleton). }
    assert (demo_report ∈ fed) as Hfed.
    { destruct (Hacc demo_report (list_elem_of_here _ _)) as [[_ Hin]|[_ [Hin|Hin]]]; [exact Hin|rewrite Hc1 in Hin; discriminate|exfalso; exact (Hnf Hin)]. }
    exists l, k, l', k', P'. split; [exact Hready|]. split; [exact Hrun|]. split_and!.
    + pose proof (wakes_report l J fed 1 demo_report Hfed Hc1) as Hw. rewrite H1 in Hw. specialize (Hwake 1 EV_READ).
      rewrite Hpri in Hwake. apply Hwake, Hw; [|discriminate]. cbn [demo_report r_fd]. rewrite HJ3. apply list_elem_of_further, list_elem_of_here.
    + pose proof (wakes_always l J fed 2 5) as Hw. rewrite H2 in Hw. specialize (Hwake 2 EV_WRITE).
      rewrite Hpri in Hwake. apply Hwake, Hw; [rewrite Hal; apply list_elem_of_here| |discriminate]. rewrite HJ5. apply list_elem_of_here.
    + destruct (Hacc (Report 3 0 EPOLLOUT)) as [[Hc _]|[Hp _]]; [apply list_elem_of_further, list_elem_of_here|rewrite Hc2 in Hc; discriminate|exact Hp].
    + apply Hst; [exact Hnf| |apply Hstep; by apply (bool_decide_unpack _)]. intros Hsn'. apply bool_decide_eq_false in Hs3. exact (False_ind _ (Hs3 Hsn')).
Defined.

(** ** A forgotten descriptor *)






(** ** A failed call *)

(** Watcher 6 waits for reading on descriptor 8. It is stopped, set to writing and
    started; the kernel fails to modify the registration, and the watcher gets
    an error. When it is started again the kernel says that the descriptor is
    registered, and epoll_modify, which noted the new events before the call
    that failed, takes it to be registered for them. *)
Definition failed_mod_session : option (option iow * option iow * option epoll_event) :=
  l ← run_io_calls [IStart 6] demo_io_loop; '(l, k) ← fd_reify epoll_modify (l, no_table);
  l ← run_io_calls [IStop 6; ISet 6 8 EV_WRITE; IStart 6] l; '(l, k) ← fd_reify epoll_modify (l, k);
  let killed := io_map l !! 6 in
  l ← run_io_calls [IStart 6] l; '(l, k) ← fd_reify epoll_modify (l, k);
  Some (killed, io_map l !! 6, registered k 8).

Lemma failed_mod_recorded :
  failed_mod_session = Some (Some (IoW 8 EV_WRITE false), Some (IoW 8 EV_WRITE true), Some (epoll_data 8 1, EPOLLIN)).
Proof. vm_compute. reflexivity. Qed.

(** ** A new epoll instance *)

Definition demo_create (k : table) : table := (∅, k.2).

Definition demo_fork_calls : option (list epoll_call) :=
  '(l, k) ← demo_ready; '(l, k) ← epoll_fork demo_create (l, k); '(l, k') ← fd_reify epoll_modify (l, k); Some (calls_between k k').

(** Descriptors 3 and 5 are registered and noted again. *)
Lemma fork_recovers_witness :
  exists l k l1 l' k', demo_ready = Some (l, k) /\ epoll_fork demo_create (l, k) = Some (l1, demo_create k) /\
    fd_reify epoll_modify (l1, demo_create k) = Some (l', k') /\ epoll_watches (l', k') 3 (EV_READ .| EV_WRITE) /\
    epoll_watches (l', k') 5 EV_WRITE.
Proof.
  destruct demo_ready_settled as (l & k & J & Hready & Hse & HJ3 & HJ5 & HJ8 & Hview & Hpri & Hsize & _).
  pose proof (f_equal (fun v => v.1.1.1.1.1.2) Hview) as Hcnt. pose proof (f_equal (fun v => v.1.2) Hview) as Hev.
  cbn [demo_view demo_seen fst snd] in Hcnt. injection Hev as H1 H2 H4 _.
  destruct (fork_recovers demo_create 0 l k J no_queues) as (l1 & l' & k' & D & calls & Hfork & Hrun & Hmade & HD & _ & _ & Hwat).
  - intros k0 fd. unfold registered, table_kernel, with_history, demo_create. cbn [fst]. rewrite lookup_empty. by destruct (_ || _).
  - exact Hse.
  - lia.
  - apply roomy_empty; [exact Hcnt|]. rewrite Hsize. vm_compute. discriminate.
  - exists l, k, l1, l', k'. split; [exact Hready|]. split; [exact Hfork|]. split; [exact Hrun|].
    assert (demo_fork_calls = Some [(EPOLL_CTL_ADD, 8, None); (EPOLL_CTL_ADD, 5, Some EPERM); (EPOLL_CTL_ADD, 3, None)]) as Hcalls
      by (vm_compute; reflexivity).
    unfold demo_fork_calls in Hcalls. rewrite Hready in Hcalls. cbn [mbind option_bind] in Hcalls. rewrite Hfork in Hcalls.
    cbn [mbind option_bind] in Hcalls. rewrite Hrun in Hcalls. cbn [mbind option_bind] in Hcalls.
    rewrite (made_between _ _ _ Hmade) in Hcalls. apply (inj Some) in Hcalls.
    assert (forall fd, fd ∉ D) as HDn.
    { intros fd Hin. destruct (HD fd Hin) as (_ & [(op & _ & Hr)|[Hr _]]); rewrite Hcalls in Hr;
        repeat (apply elem_of_cons in Hr as [Hr|Hr]; [discriminate|]); by apply elem_of_nil in Hr. }
    assert (wanted l J 3 = EV_READ .| EV_WRITE) as W3.
    { unfold wanted. rewrite HJ3. cbn [interest foldr]. rewrite !mask_events, H1, H4. reflexivity. }
    assert (wanted l J 5 = EV_WRITE) as W5.
    { unfold wanted. rewrite HJ5. cbn [interest foldr]. rewrite mask_events, H2. reflexivity. }
    split; [rewrite <- W3|rewrite <- W5]; apply Hwat; [apply HDn|rewrite W3; discriminate|apply HDn|rewrite W5; discriminate].
Defined.
