(* ===== verification/EvClient.v ===== *)
(** A client with timers and io watchers on one loop: its calls, and an
    iteration of the loop with the epoll backend. *)
From stdpp Require Import sorting.
From S2P Require Import Prelude EvTime Ev EvPending EvTimer EvReify EvLoop EvIo EvIoRep EvIoOps EvIoEvents EvIoReify EvEpoll EvEpollOk EvPoll EvWakeup.

Open Scope c_scope.

(** * What timers and io watchers leave to each other *)

Lemma masked_fields l l' :
  rmask l' = rmask l -> others (mem l') = others (mem l) /\ anfds l' = anfds l /\ fdchanges l' = fdchanges l /\ fdchangecnt l' = fdchangecnt l.
Proof.
  intros H. split_and!; [exact (f_equal mem H)|exact (f_equal anfds H)|exact (f_equal fdchanges H)|exact (f_equal fdchangecnt H)].
Qed.

Lemma others_bare l l' w x :
  others (mem l') = others (mem l) -> bare l !! w = Some x -> timer_of x = None -> bare l' !! w = Some x.
Proof.
  intros Eo Hx Ht. destruct (bare_back _ _ _ Hx) as (y & Hy & ->). pose proof (others_lookup (mem l) w y Ht Hy) as Ho.
  rewrite <- Eo in Ho. unfold others in Ho. rewrite lookup_omap in Ho. destruct (mem l' !! w) as [y'|] eqn:Hy'; [|done].
  cbn [mbind option_bind] in Ho. rewrite (bare_lookup _ _ _ Hy'). by destruct (timer_of y').
Qed.

Lemma io_not_timer x n fd e : body x = ev_io n fd e -> timer_of x = None.
Proof. unfold timer_of. by intros ->. Qed.

Lemma masked_io_ok l l' fs I todo : others (mem l') = others (mem l) -> io_ok (bare l) fs I todo -> io_ok (bare l') fs I todo.
Proof.
  intros Eo Hok. apply (io_ok_mem (bare l)); [| |done].
  - intros w fd Hw. destruct (io_member _ _ _ _ _ _ Hok Hw) as (a & n & e & _ & x & Hx & Hb & _).
    rewrite Hx. apply (others_bare l); [done|done|by eapply io_not_timer].
  - intros w x n fd e Hx Hb Ha. apply (io_active _ _ _ _ Hok w x n fd e); [|done|done].
    apply (others_bare l'); [done|done|by eapply io_not_timer].
Qed.

Lemma io_map_others l : io_map l = omap iow_of (others (mem l)).
Proof.
  apply map_eq. intros w. unfold io_map, others. rewrite !lookup_omap. destruct (mem l !! w) as [x|]; [|done]. cbn [mbind option_bind].
  unfold iow_of, io_of, timer_of. by destruct x as [a p pr []].
Qed.

(** Operations on timers keep the io watchers. *)
Lemma masked_io_state l l' I d todo P P' :
  rmask l' = rmask l -> same_priorities l l' -> pending_ok l' P' -> io_state l I d todo P ->
  io_state l' I d todo P' /\ io_map l' = io_map l.
Proof.
  intros Hm Hpr Hp' [H1 H2 H3 H4 H5 H6 H7]. destruct (masked_fields l l' Hm) as (Eo & Ef & Ec & En).
  assert (io_map l' = io_map l) as Emap by (by rewrite !io_map_others, Eo).
  split; [|done]. split; try done; rewrite ?Ef, ?Emap; try done.
  - by apply (masked_io_ok l).
  - unfold changes in *. by rewrite Ec, En.
  - by apply (all_priorities_same l).
Qed.

(** Operations on io watchers keep the timers. *)
Lemma clock_loop_state l l' M P P' :
  clock_frame l l' -> same_priorities l l' -> pending_ok l' P' -> loop_state l M P -> loop_state l' M P'.
Proof.
  intros (E1 & E2 & E3 & E4 & E5 & E6) Hpr Hp' [[Hok Hp [Hr Hr0]] Hm Hpri]. split.
  - split; [by apply (timers_ok_mem l)|done|]. unfold rfeeds_ok in *. by rewrite E4, E5.
  - by rewrite timer_map_clocks, E6, <- timer_map_clocks.
  - by apply (all_priorities_same l).
Qed.

(** * Scripts of a client *)

Inductive client_call := Clock (c : call) | Io (c : io_call).

Definition run_client_call (c : client_call) (l : ev_loop) : option ev_loop :=
  match c with Clock c => run_call c l | Io c => run_io_call c l end.

Fixpoint run_client (cs : list client_call) (l : ev_loop) : option ev_loop :=
  match cs with [] => Some l | c :: cs => l ← run_client_call c l; run_client cs l end.

(** The timers; the io watchers, their chains, and the queues of both. *)
Definition client : Type := gmap W timer * io_spec.

Section spec.
Context (now : ev_tstamp) (pri : W -> Z).

Definition spec_client_call (c : client_call) (s : client) : client :=
  let '(M, (N, J, P)) := s in
  match c with
  | Clock c => let s := spec_call now pri c (M, P) in (s.1, (N, J, s.2))
  | Io c => (M, spec_io_call pri c (N, J, P))
  end.

Definition spec_client (cs : list client_call) (s : client) : client := foldl (fun s c => spec_client_call c s) s cs.

Definition client_call_ok (s : client) (c : client_call) : bool :=
  match c with Clock c => call_ok s.1 c | Io c => io_call_ok s.2.1.1 c end.

Fixpoint client_ok (s : client) (cs : list client_call) : bool :=
  match cs with [] => true | c :: cs => client_call_ok s c && client_ok (spec_client_call c s) cs end.

(** The number of events that may become pending. *)
Definition client_call_cost (s : client) (c : client_call) : Z :=
  match c with Clock _ => 1 | Io c => io_call_cost s.2.1.2 c end.

Fixpoint client_cost (s : client) (cs : list client_call) : Z :=
  match cs with [] => 0 | c :: cs => client_call_cost s c + client_cost (spec_client_call c s) cs end.

Lemma client_cost_nonneg s cs : 0 <= client_cost s cs.
Proof.
  revert s. induction cs as [|c cs IH]; intros s; cbn [client_cost]; [lia|]. specialize (IH (spec_client_call c s)).
  destruct c as [|[]]; cbn [client_call_cost io_call_cost]; lia.
Qed.

(** The calls do not make new timers. *)
Lemma client_call_size s c : client_call_ok s c = true -> size (spec_client_call c s).1 = size s.1.
Proof. destruct s as [M [[N J] P]], c as [c|c]; [intros Hc; exact (spec_call_size now pri c M P Hc)|done]. Qed.
End spec.

(** The loop implements [s]. *)
Definition client_state (l : ev_loop) (s : client) : Prop := loop_state l s.1 s.2.2 /\ io_implements l s.2.

(** What a call gives. *)
Definition client_gives (l : ev_loop) (s : client) (cost : Z) (res : option ev_loop) : Prop :=
  exists l', res = Some l' /\ client_state l' s /\ mn_now l' = mn_now l /\ same_priorities l l' /\
    notes_frame l l' /\ noted_frame l l' /\ forall n, roomy (n + cost) l -> roomy n l'.

Lemma masked_notes l l' : rmask l' = rmask l -> notes_frame l l' /\ noted_frame l l'.
Proof.
  intros Hm. destruct (masked_fields l l' Hm) as (_ & Ef & _ & _). split; [|by apply noted_frame_same].
  split; [|split; [exact (f_equal epoll_eperms Hm)|exact (f_equal epoll_epermcnt Hm)]|by rewrite Ef].
  intros fd. unfold marks. by rewrite Ef.
Qed.

Lemma clock_call_ok c l M s :
  client_state l (M, s) -> Z.of_nat (size M) < 2 ^ 24 -> roomy 1 l -> call_ok M c = true ->
  client_gives l (spec_client_call (mn_now l) (prio l) (Clock c) (M, s)) 1 (run_call c l).
Proof.
  destruct s as [[N J] P]. intros [Hls (todo & Hio & Hmap)] Hsize Hroom Hc. cbn [fst snd] in *.
  destruct (run_call_ok c l M P Hls Hsize Hroom Hc) as (l' & -> & Hls' & Hm & Hpr & Hr).
  destruct (masked_io_state l l' J [] todo P (spec_call (mn_now l) (prio l) c (M, P)).2 (rmask_mask _ _ Hm) Hpr) as [Hio' Hmap'];
    [apply (re_pending _ _ (ls_ready _ _ _ Hls'))|done|]. destruct (masked_notes l l' (rmask_mask _ _ Hm)) as [Hn1 Hn2].
  exists l'. cbn [spec_client_call]. split_and!; try done; [|by apply frame_now].
  split; [done|]. exists todo. cbn [fst snd]. split; [done|congruence].
Qed.

Lemma io_client_call_ok c l M s :
  client_state l (M, s) -> io_call_ok s.1.1 c = true -> roomy (io_call_cost s.1.2 c) l ->
  client_gives l (spec_client_call (mn_now l) (prio l) (Io c) (M, s)) (io_call_cost s.1.2 c) (run_io_call c l).
Proof.
  destruct s as [[N J] P]. intros [Hls Hio] Hc Hroom. cbn [fst snd] in *.
  destruct (run_io_call_ok (prio l) c l (N, J, P) Hio) as (l' & -> & Hio' & Hf & Hno & Hr); [done..|].
  pose proof (io_frame_clock _ _ Hf) as Hclk. pose proof Hio' as (todo & Hs' & _).
  exists l'. cbn [spec_client_call]. split_and!; try done; [|apply Hclk|apply Hf|by apply io_notes].
  split; [|done]. cbn [fst snd]. apply (clock_loop_state l l' M P); [done|apply Hf|apply (ios_pending _ _ _ _ _ Hs')|done].
Qed.

Lemma client_call_same now pri pri' c s : (forall w, pri' w = pri w) -> spec_client_call now pri' c s = spec_client_call now pri c s.
Proof.
  intros E. destruct s as [M [[N J] P]], c as [c|c]; cbn [spec_client_call]; [by rewrite (spec_call_same now pri pri' c (M, P) E)|].
  f_equal. destruct c; cbn [spec_io_call]; rewrite ?E; try done. f_equal.
  unfold fed_to. revert P. induction (J fd) as [|w ws IH]; intros P; [done|]. cbn [foldl]. by rewrite E, IH.
Qed.

Lemma client_same now pri pri' cs s :
  (forall w, pri' w = pri w) ->
  spec_client now pri' cs s = spec_client now pri cs s /\ client_ok now pri' s cs = client_ok now pri s cs /\
  client_cost now pri' s cs = client_cost now pri s cs.
Proof.
  intros E. revert s. induction cs as [|c cs IH]; intros s; [done|]. unfold spec_client in *. cbn [foldl client_ok client_cost].
  rewrite (client_call_same now pri pri' c s E). destruct (IH (spec_client_call now pri c s)) as (-> & -> & ->). done.
Qed.

Lemma run_client_ok cs : forall l s,
  client_state l s -> Z.of_nat (size s.1) < 2 ^ 24 -> client_ok (mn_now l) (prio l) s cs = true ->
  roomy (client_cost (mn_now l) (prio l) s cs) l ->
  client_gives l (spec_client (mn_now l) (prio l) cs s) (client_cost (mn_now l) (prio l) s cs) (run_client cs l).
Proof.
  induction cs as [|c cs IH]; intros l s Hs Hsize Hok Hroom.
  { exists l. split_and!; try done; [by apply noted_frame_same|]. intros n. cbn [client_cost]. by rewrite Z.add_0_r. }
  cbn [client_ok client_cost run_client] in *. apply andb_prop in Hok as [Hc Hcs].
  pose proof (client_cost_nonneg (mn_now l) (prio l) (spec_client_call (mn_now l) (prio l) c s) cs) as Hnn.
  assert (client_gives l (spec_client_call (mn_now l) (prio l) c s) (client_call_cost s c) (run_client_call c l))
    as (l1 & -> & Hs1 & En & Hpr & Hn1 & Hno1 & Hr1).
  { assert (roomy (client_call_cost s c) l) as H1 by (intros pr q Hq; specialize (Hroom pr q Hq); lia).
    destruct s as [M s], c as [c|c]; [by apply clock_call_ok|by apply io_client_call_ok]. }
  cbn [mbind option_bind]. destruct (client_same (mn_now l) (prio l) (prio l1) cs (spec_client_call (mn_now l) (prio l) c s))
    as (E1 & E2 & E3); [intros w; by apply prio_same|].
  destruct (IH l1 (spec_client_call (mn_now l) (prio l) c s)) as (l2 & -> & Hs2 & En2 & Hpr2 & Hn2 & Hno2 & Hr2);
    rewrite ?En, ?E1, ?E2, ?E3 in *; [done|by rewrite client_call_size|done| |].
  { apply Hr1. intros pr q Hq. specialize (Hroom pr q Hq). lia. }
  exists l2. split_and!; [done|done|congruence|by eapply same_priorities_trans|by eapply notes_frame_trans|by eapply noted_frame_trans|].
  intros n Hn. apply Hr2, Hr1. intros pr q Hq. specialize (Hn pr q Hq). lia.
Qed.

(** A new loop. *)
Lemma init_client_ok rt now ws :
  finite now -> ws !! pending_w = None -> ws !! null = None -> map_Forall (fun _ => fresh) ws ->
  client_state (loop_init rt now ws) (omap timer_state ws, (io_map (loop_init rt now ws), fun _ => [], fun _ => [])).
Proof.
  intros Hn H1 H2 Hf. split; [by apply loop_init_ok|]. exists []. split; [|done]. apply init_io_ok; [done|done|].
  intros w x Hx. by destruct (Hf w x Hx) as (? & ? & ? & _).
Qed.

(** * The loop and the kernel *)

Section running.
Context {K : Type} `{!Kernel K, !KernelLaws K}.

(** The loop and the kernel between the steps of an iteration; [n] more changes fit. *)
Record running (n : Z) (s : ev_loop * K) (c : client) : Prop := Running {
  ru_client : client_state s.1 c;
  ru_epoll : epoll_ok n s;
  ru_watched : watched epoll_watches in_step s c.2.1.2 [];
}.

(** After a script of the client, which may have closed and opened descriptors. *)
Lemma running_client n l (k : K) s cs :
  running n (l, k) s -> Z.of_nat (size s.1) < 2 ^ 24 -> client_ok (mn_now l) (prio l) s cs = true ->
  roomy (client_cost (mn_now l) (prio l) s cs) l ->
  exists l', run_client cs l = Some l' /\ mn_now l' = mn_now l /\ same_priorities l l' /\
    (forall m, roomy (m + client_cost (mn_now l) (prio l) s cs) l -> roomy m l') /\
    forall k', reopened l' k k' -> running n (l', k') (spec_client (mn_now l) (prio l) cs s).
Proof.
  intros [Hs Hok Hw] Hsize Hc Hroom. cbn [fst snd] in *.
  destruct (run_client_ok cs l s Hs Hsize Hc Hroom) as (l' & Hrun & Hs' & En & Hpr & Hn & Hno & Hr).
  exists l'. split_and!; try done. intros k' Hk. split; [done|by apply (reopened_epoll n l l' k)|].
  by apply (reopened_watched l l' k k' s.2.1.2).
Qed.

(** After fd_reify. *)
Lemma running_reify n l (k : K) M N J P :
  running (n + 2 ^ 24) (l, k) (M, (N, J, P)) -> 0 <= n -> roomy (Z.of_nat (size (mem l))) l ->
  exists l1 k1 D cs, fd_reify epoll_modify (l, k) = Some (l1, k1) /\ NoDup D /\ made k cs k1 /\
    (forall fd, fd ∈ D -> J fd <> [] /\ refusal cs fd) /\
    settled n (l1, k1) (without D J) (abandon (prio l) J D P) /\
    loop_state l1 M (abandon (prio l) J D P) /\ io_map l1 = given_up J D N /\
    mn_now l1 = mn_now l /\ same_priorities l l1 /\ forall m, roomy (m + Z.of_nat (size (mem l))) l -> roomy m l1.
Proof.
  intros [[Hls (todo & Hio & Hmap)] Hok Hw] Hn Hroom. cbn [fst snd] in *.
  pose proof (total_size l J todo [] P Hio) as Hsize. destruct (used_length l) as [_ Hused]. unfold fd_limit in Hused.
  destruct (reify_settles n l k J todo P Hio Hn) as (l1 & k1 & D & cs & Hrun & Hnd & Hmade & HD & Hse & _ & Hm & Hpr & Hclk & Hr).
  - apply (epoll_ok_mono _ (n + 2 ^ 24)); [lia|done].
  - intros fd a Ha _. apply (Hw fd a Ha). right. by intros ?%elem_of_nil.
  - intros pr q Hq. specialize (Hroom pr q Hq). lia.
  - exists l1, k1, D, cs. split_and!; try done.
    + intros fd Hfd. by destruct (HD fd Hfd).
    + apply (clock_loop_state l l1 M P); [done|done|apply (ios_pending _ _ _ _ _ (se_io _ _ _ _ Hse))|done].
    + congruence.
    + apply Hclk.
    + intros m Hm'. apply Hr. intros pr q Hq. specialize (Hm' pr q Hq). lia.
Qed.
End running.

(** * The contract *)

(** C36: every sequence of calls that set, start, stop and restart timers, set,
    start and stop io watchers, and feed and clear events, in any order and with
    the arguments that the documentation asks for, succeeds: no assertion fails
    and no access is outside an array. It acts on the map of timers, the map of
    io watchers, the chains of active watchers of each descriptor and the queues
    of pending events as specified. *)
Theorem client_refines cs l s :
  client_state l s -> Z.of_nat (size s.1) < 2 ^ 24 -> client_ok (mn_now l) (prio l) s cs = true ->
  roomy (client_cost (mn_now l) (prio l) s cs) l ->
  exists l', run_client cs l = Some l' /\ client_state l' (spec_client (mn_now l) (prio l) cs s).
Proof.
  intros Hs Hsize Hok Hroom. destruct (run_client_ok cs l s Hs Hsize Hok Hroom) as (l' & Hrun & Hs' & _). by exists l'.
Qed.

(** ** An instance: the io watchers of EvWakeup and a timer. *)

Definition demo_both : gmap W ev_watcher := <[7 := demo_timer 5 0]> demo_ios.
Definition demo_both_loop : ev_loop := loop_init fzero fzero demo_both.
Definition demo_client : client := (omap timer_state demo_both, (io_map demo_both_loop, no_chains, no_queues)).

Lemma demo_client_state : client_state demo_both_loop demo_client.
Proof.
  apply init_client_ok; [done|done|done|]. intros w x Hx. unfold demo_both, demo_ios in Hx.
  repeat (apply lookup_insert_Some in Hx as [[_ <-]|[_ Hx]]; [by vm_compute|]). apply lookup_singleton_Some in Hx as [_ <-]. by vm_compute.
Qed.

Definition demo_script : list client_call :=
  [Io (ISet 2 5 (EV_READ .| EV_WRITE)); Io (IStart 1); Clock (CStart 7); Io (IStart 4); Clock (CAgain 7); Io (IFdEvent 3 EV_READ);
   Clock (CFeed 7 EV_READ); Io (IStop 4)].

Lemma client_refines_witness :
  exists l, run_client demo_script demo_both_loop = Some l /\
    io_map l !! 1 = Some (IoW 3 EV_READ true) /\ io_map l !! 4 = Some (IoW 3 EV_WRITE false) /\
    t_active <$> timer_map l !! 7 = Some false.
Proof.
  destruct (client_refines demo_script demo_both_loop demo_client) as (l & Hrun & [_ Hm _] & todo & _ & Hio).
  - exact demo_client_state.
  - vm_compute. reflexivity.
  - vm_compute. reflexivity.
  - apply init_roomy. vm_compute. discriminate.
  - exists l. split; [exact Hrun|]. rewrite Hio, Hm. split_and!; vm_compute; reflexivity.
Defined.
