(* ===== verification/EvIteration.v ===== *)
(** An iteration of the loop with the epoll backend: fd_reify, epoll_poll,
    timers_reify and ev_invoke_pending, in the order of ev_run. *)
From stdpp Require Import sorting.
From S2P Require Import Prelude EvTime Ev EvPending EvTimer EvReify EvLoop EvIo EvIoRep EvIoOps EvIoEvents EvIoReify EvEpoll EvEpollOk EvPoll EvWakeup EvClient.

Open Scope c_scope.

(** * The calls of ev_invoke_pending *)

Lemma waiting_in P (p : W * Z) : p ∈ waiting P <-> exists pri, 0 <= pri < NUMPRI /\ p ∈ P pri.
Proof.
  unfold waiting. rewrite list_elem_of_bind. split.
  - intros (pri & Hp & Hpri). rewrite elem_of_reverse in Hp. exists pri. split; [|done].
    unfold NUMPRI, EV_MAXPRI, EV_MINPRI. set_solver by lia.
  - intros (pri & Hpri & Hp). exists pri. rewrite elem_of_reverse. split; [done|].
    unfold NUMPRI, EV_MAXPRI, EV_MINPRI in Hpri. assert (pri = 4 \/ pri = 3 \/ pri = 2 \/ pri = 1 \/ pri = 0) as H by lia.
    set_solver.
Qed.

Section queues.
Context (l : ev_loop) (P : queues) (Hp : pending_ok l P).

(** A watcher is in the queue of its priority only, and there once. *)
Lemma queued pri w e : 0 <= pri < NUMPRI -> (w, e) ∈ P pri -> prio l w = pri /\ w <> pending_w.
Proof.
  intros Hr Hin. destruct (po_stack _ _ Hp pri Hr) as (q & Hq & Eq). rewrite Eq in Hin.
  apply list_elem_of_omap in Hin as ([w' e'] & Hin & Hl). unfold live in Hl. case_decide as D; [done|]. injection Hl as -> ->.
  apply list_elem_of_lookup in Hin as [j Hj]. destruct (po_entry _ _ Hp pri q j _ Hq Hj D) as (x & Hx & _ & Ex).
  unfold prio. cbn [p_w] in Hx. by rewrite Hx.
Qed.

Lemma queue_nodup pri : 0 <= pri < NUMPRI -> NoDup (P pri).*1.
Proof.
  intros Hr. destruct (po_stack _ _ Hp pri Hr) as (q & Hq & ->).
  assert (forall j j' p p', q !! j = Some p -> q !! j' = Some p' -> p_w p <> pending_w -> p_w p = p_w p' -> j = j') as Hone.
  { intros j j' p p' Hj Hj' Hn E. destruct (po_entry _ _ Hp pri q j p Hq Hj Hn) as (x & Hx & Ex & _).
    destruct (po_entry _ _ Hp pri q j' p' Hq Hj') as (x' & Hx' & Ex' & _); [by rewrite <- E|].
    rewrite E in Hx. assert (x' = x) as -> by congruence. lia. }
  clear Hq. induction q as [|p q IH]; [constructor|]. rewrite live_cons. case_decide as D; cbn [app fmap list_fmap fst].
  - apply IH. intros j j' a b Ha Hb Hn E. specialize (Hone (S j) (S j') a b Ha Hb Hn E). lia.
  - constructor.
    + intros (a & Ha & E)%live_fst. apply list_elem_of_lookup in Ha as [j Hj].
      specialize (Hone O (S j) p a eq_refl Hj D (eq_sym E)). lia.
    + apply IH. intros j j' a b Ha Hb Hn E. specialize (Hone (S j) (S j') a b Ha Hb Hn E). lia.
Qed.

Lemma waiting_nodup : NoDup (waiting P).*1.
Proof.
  assert (forall pris, NoDup pris -> (forall pri, pri ∈ pris -> 0 <= pri < NUMPRI) ->
    NoDup (pris ≫= fun pri => reverse (P pri)).*1) as H.
  { induction pris as [|pri pris IH]; intros Hnd Hr; [constructor|]. apply NoDup_cons in Hnd as [Hni Hnd].
    cbn [mbind list_bind]. rewrite fmap_app. apply NoDup_app. split_and!.
    - rewrite fmap_reverse, reverse_Permutation. apply queue_nodup, Hr. by left.
    - intros w ([w1 e1] & -> & H1)%list_elem_of_fmap ([w2 e2] & E & (pri' & H2 & Hpri')%list_elem_of_bind)%list_elem_of_fmap.
      cbn [fst] in E. subst w2. rewrite elem_of_reverse in H1, H2.
      destruct (queued pri w1 e1) as [E1 _]; [apply Hr; by left|done|]. destruct (queued pri' w1 e2) as [E2 _]; [apply Hr; by right|done|].
      apply Hni. congruence.
    - apply IH; [done|]. intros pri' Hpri'. apply Hr. by right. }
  apply H; [by apply (bool_decide_unpack _)|]. intros pri Hpri. unfold NUMPRI, EV_MAXPRI, EV_MINPRI. set_solver by lia.
Qed.

(** Higher priorities come first. *)
Definition by_prio (a b : W * Z) : Prop := prio l b.1 <= prio l a.1.

Lemma waiting_sorted : StronglySorted by_prio (waiting P).
Proof.
  assert (forall pris, StronglySorted Z.ge pris -> (forall pri, pri ∈ pris -> 0 <= pri < NUMPRI) ->
    StronglySorted by_prio (pris ≫= fun pri => reverse (P pri))) as H.
  { induction pris as [|pri pris IH]; intros Hs Hr; [constructor|]. apply StronglySorted_inv in Hs as [Hs Hall].
    cbn [mbind list_bind]. apply StronglySorted_app_2.
    - intros [w1 e1] [w2 e2] H1 (pri' & H2 & Hpri')%list_elem_of_bind. rewrite elem_of_reverse in H1, H2.
      destruct (queued pri w1 e1) as [E1 _]; [apply Hr; by left|done|]. destruct (queued pri' w2 e2) as [E2 _]; [apply Hr; by right|done|].
      unfold by_prio. cbn [fst]. rewrite E1, E2. rewrite List.Forall_forall in Hall. specialize (Hall pri' (proj1 (list_elem_of_In _ _) Hpri')). lia.
    - assert (forall q : queue, (forall a, a ∈ q -> prio l a.1 = pri) -> StronglySorted by_prio q) as Hq.
      { induction q as [|a q IHq]; intros Hq; constructor; [apply IHq; intros b Hb; apply Hq; by right|].
        apply List.Forall_forall. intros b Hb. unfold by_prio. rewrite !Hq; [lia|by left|right; by apply list_elem_of_In]. }
      apply Hq. intros [w e] Hin. rewrite elem_of_reverse in Hin. apply (queued pri w e); [apply Hr; by left|done].
    - apply IH; [done|]. intros pri' Hpri'. apply Hr. by right. }
  apply H; [repeat (constructor; [|]); repeat constructor; lia|]. intros pri Hpri. unfold NUMPRI, EV_MAXPRI, EV_MINPRI. set_solver by lia.
Qed.
End queues.

(** * The queues along an iteration *)

Lemma unfeed_keeps w e w' (st : queue) : (w, e) ∈ st -> w <> w' -> (w, e) ∈ unfeed w' st.
Proof.
  intros Hin Hne. unfold unfeed. apply list_elem_of_In, List.filter_In. split; [by apply list_elem_of_In|].
  cbn [fst]. by rewrite bool_decide_false.
Qed.

Lemma cleared_keeps P w p e w' p' : awaits P p w e -> w <> w' -> awaits (cleared P w' p') p w e.
Proof.
  intros (e' & Hin & He) Hne. exists e'. split; [|done]. unfold cleared, upd. case_decide as D; [|done].
  subst. by apply unfeed_keeps.
Qed.

Lemma unfeed_notin w (st : queue) : w ∉ st.*1 -> unfeed w st = st.
Proof.
  intros H. unfold unfeed. induction st as [|[w' e'] st IH]; [done|]. cbn [List.filter fst]. cbn [fmap list_fmap fst] in H.
  rewrite not_elem_of_cons in H. destruct H as [H1 H2]. rewrite bool_decide_false by done. cbn [negb]. by rewrite IH.
Qed.

(** ** Descriptors given up *)

Section given_up.
Context (pri : W -> Z).

Lemma killed_keeps ws P w : awaits P (pri w) w EV_KILLED -> awaits (killed pri ws P) (pri w) w EV_KILLED.
Proof.
  revert P. induction ws as [|w' ws IH]; intros P H; [done|]. cbn [killed foldl]. apply IH.
  destruct (decide (w = w')) as [->|Hne]; [by apply fed_awaits|]. by apply fed_keeps, cleared_keeps.
Qed.

Lemma killed_awaits ws P w : w ∈ ws -> awaits (killed pri ws P) (pri w) w EV_KILLED.
Proof.
  intros Hw. revert P. induction ws as [|w' ws IH]; intros P; [by apply elem_of_nil in Hw|]. cbn [killed foldl].
  apply elem_of_cons in Hw as [<-|Hw]; [|by apply IH]. apply (killed_keeps ws). by apply fed_awaits.
Qed.

Lemma abandon_awaits (J : chains) D P fd w : fd ∈ D -> w ∈ J fd -> awaits (abandon pri J D P) (pri w) w EV_KILLED.
Proof.
  intros Hfd Hw. assert (forall D P, awaits P (pri w) w EV_KILLED -> awaits (abandon pri J D P) (pri w) w EV_KILLED) as Hkeep.
  { clear. induction D as [|fd D IH]; intros P H; [done|]. cbn [abandon foldl]. by apply IH, killed_keeps. }
  revert P. induction D as [|fd' D IH]; intros P; [by apply elem_of_nil in Hfd|]. cbn [abandon foldl].
  apply elem_of_cons in Hfd as [<-|Hfd]; [|by apply IH]. apply (Hkeep D). by apply killed_awaits.
Qed.

Lemma explained_abandon cause (J : chains) D P :
  (forall fd w, fd ∈ D -> w ∈ J fd -> cause w EV_KILLED) -> explained cause P -> explained cause (abandon pri J D P).
Proof.
  revert P. induction D as [|fd D IH]; intros P Hc HP; [done|]. cbn [abandon foldl].
  apply IH; [intros fd' w Hfd'; apply Hc; by right|].
  assert (forall w, w ∈ J fd -> cause w EV_KILLED) as Hk by (intros w; apply Hc; by left). clear Hc IH.
  revert P HP. induction (J fd) as [|w ws IH]; intros P HP; [done|]. cbn [killed foldl].
  apply IH; [intros w' Hw'; apply Hk; by right|]. apply explained_fed; [by apply explained_cleared|]. apply Hk. by left.
Qed.
End given_up.

(** ** Expired timers *)

Section expired.
Context (l : ev_loop) (fs : list (W * timer)).

Lemma expired_awaits P w : w ∈ fs.*1 -> awaits (expired_queues l P fs) (prio l w) w EV_TIMER.
Proof.
  unfold expired_queues. generalize (stop_queues l P fs) as P0. induction fs.*1 as [|w' ws IH]; intros P0 Hw; [by apply elem_of_nil in Hw|].
  cbn [foldr]. apply elem_of_cons in Hw as [->|Hw]; [by apply fed_awaits|]. by apply fed_keeps, IH.
Qed.

Lemma stop_queues_keeps P p w e : w ∉ fs.*1 -> awaits P p w e -> awaits (stop_queues l P fs) p w e.
Proof.
  unfold stop_queues. revert P. induction fs as [|[w' t] fs' IH]; intros P Hw H; [done|]. cbn [foldl].
  cbn [fmap list_fmap fst] in Hw. rewrite not_elem_of_cons in Hw. destruct Hw as [Hne Hw]. apply IH; [done|].
  unfold stop_queue. destruct (nonzero _); [done|]. by apply cleared_keeps.
Qed.

Lemma expired_keeps P p w e : w ∉ fs.*1 -> awaits P p w e -> awaits (expired_queues l P fs) p w e.
Proof.
  intros Hw H. pose proof (stop_queues_keeps P p w e Hw H) as H0. unfold expired_queues. clear Hw H.
  revert H0. generalize (stop_queues l P fs) as P0. induction fs.*1 as [|w' ws IH]; intros P0 H; [done|].
  cbn [foldr]. by apply fed_keeps, IH.
Qed.

Lemma explained_expired cause P :
  (forall w, w ∈ fs.*1 -> cause w EV_TIMER) -> explained cause P -> explained cause (expired_queues l P fs).
Proof.
  intros Hc HP. unfold expired_queues.
  assert (explained cause (stop_queues l P fs)) as H0.
  { clear Hc. revert P HP. unfold stop_queues. induction fs as [|[w t] fs' IH]; intros P HP; [done|]. cbn [foldl]. apply IH.
    unfold stop_queue. destruct (nonzero _); [done|]. by apply explained_cleared. }
  revert H0. generalize (stop_queues l P fs) as P0. revert Hc. induction fs.*1 as [|w ws IH]; intros Hc P0 H0; [done|].
  cbn [foldr]. apply explained_fed; [|apply Hc; by left]. apply IH; [|done]. intros w' Hw'. apply Hc. by right.
Qed.
End expired.

(** * What callbacks may rely on *)

(** The invariants of timers and io watchers, without the pending events. *)
Definition sound (l : ev_loop) : Prop :=
  timers_ok l /\ (rfeeds_ok l /\ rfeedcnt l = 0) /\ all_priorities l /\
  exists J todo, io_ok (bare l) (anfds l) J todo /\ changes l todo /\
    (forall fd, J fd <> [] \/ fd ∈ todo -> fd < fd_limit) /\ io_map l !! pending_w = None /\ io_map l !! null = None.

Lemma client_sound l s : client_state l s -> sound l.
Proof.
  intros [[[Hok _ Hr] _ Hpri] (todo & [H1 H2 _ _ H5 _ H7] & _)]. do 3 (split; [done|]).
  exists s.2.1.2, todo. by split_and!; try apply H7.
Qed.

Lemma sound_client l P : sound l -> pending_ok l P -> exists J, client_state l (timer_map l, (io_map l, J, P)).
Proof.
  intros (Hok & Hr & Hpri & J & todo & H1 & H2 & H3 & H4) Hp. exists J. split; [by split|].
  exists todo. cbn [fst snd]. split; [|done]. by split.
Qed.

Lemma sound_frame l l' : pending_frame l l' -> sound l -> sound l'.
Proof.
  intros Hf (Hok & Hr & Hpri & J & todo & H1 & H2 & H3 & H4). pose proof (pending_mask _ _ Hf) as Hm.
  destruct (rfeeds_mask _ _ Hm) as [E1 E2]. destruct (masked_fields l l' (rmask_mask _ _ Hm)) as (Eo & Ef & Ec & En).
  split; [by apply (timers_frame l)|]. split; [unfold rfeeds_ok in *; by rewrite E1, E2|]. split.
  - apply (all_priorities_same l); [by apply frame_priorities|done].
  - exists J, todo. rewrite Ef, (io_map_pending l l' Hf). split_and!; try done; try apply H4; [by apply (masked_io_ok l)|].
    unfold changes in *. by rewrite Ec, En.
Qed.

(** Io watchers are no timers. *)
Lemma chain_no_timer l I d todo P fd w : io_state l I d todo P -> w ∈ I fd -> timer_map l !! w = None.
Proof.
  intros Hs Hw. destruct (io_member _ _ _ _ _ _ (ios_ok _ _ _ _ _ Hs) Hw) as (_ & n & e & _ & x & Hx & Hb & _).
  destruct (bare_io _ _ _ Hx) as (y & Hy & Eb & _). unfold timer_map. rewrite lookup_omap, Hy. cbn [mbind option_bind].
  unfold timer_state, timer_of. by rewrite Eb, Hb.
Qed.

(** * An iteration *)

(** The events that an iteration is to deliver: the watchers of the descriptors
    [D] that the kernel refuses get an error. *)
Inductive due (l1 : ev_loop) (J : chains) (D : list Z) (rs : list report) (M : gmap W timer) (now : ev_tstamp) (w : W) : Z -> Prop :=
| due_wakes e : wakes l1 (without D J) rs w e -> due l1 J D rs M now w e
| due_refused fd : fd ∈ D -> w ∈ J fd -> due l1 J D rs M now w EV_KILLED
| due_timer t : M !! w = Some t -> is_late now t = true -> due l1 J D rs M now w EV_TIMER.

Section iteration.
Context {K : Type} `{!Kernel K, !KernelLaws K}.

(** epoll_poll and timers_reify, after fd_reify. *)
Lemma poll_and_expire n l1 (k1 : K) M J P rs now :
  settled n (l1, k1) J P -> loop_state l1 M P -> reports_ok l1 rs -> finite now -> Z.of_nat (size M) < 2 ^ 24 ->
  roomy (2 ^ 24 + (total J (alive_fds l1 (eperms l1)) + total J (r_fd <$> rs))) l1 ->
  exists l2 k2 cs fed l3 fs, epoll_poll (Some (event_of <$> rs)) (l1, k1) = Some (l2, k2) /\
    made k1 cs k2 /\ sublist fed rs /\ (forall r, r ∈ rs -> accounted l1 l2 cs fed r) /\ timers_reify (set_mn_now now l2) = Some l3 /\ same_priorities l1 l2 /\ same_priorities l1 l3 /\
    (forall w, w ∈ fs.*1 <-> exists t, M !! w = Some t /\ is_late now t = true) /\
    client_state l3 (expire now <$> M, (io_map l1, J, expired_queues (set_mn_now now l2) (polled (prio l1) l1 J [] fed P) fs)).
Proof.
  intros Hse Hls Hrs Hnow Hsize Hroom. pose proof (total_nonneg J (alive_fds l1 (eperms l1))) as Hn1. pose proof (total_nonneg J (r_fd <$> rs)) as Hn2.
  destruct (poll_settled n l1 k1 J P rs Hse Hrs) as (l2 & k2 & cs & fed & Hpoll & Hcs & Hsub & Hacc & Hse2 & Hpr2 & Hclk2 & Hm2 & _ & _ & _ & Hr2).
  { intros pr q Hq. specialize (Hroom pr q Hq). lia. }
  pose proof (se_io _ _ _ _ Hse2) as Hio2. cbn [fst] in Hio2. set (P2 := polled (prio l1) l1 J [] fed P) in *.
  assert (loop_state (set_mn_now now l2) M P2) as Hls2.
  { apply set_now_ok; [done|]. apply (clock_loop_state l1 l2 M P); [done|done|apply (ios_pending _ _ _ _ _ Hio2)|done]. }
  pose proof (heap_count _ (re_timers _ _ (ls_ready _ _ _ Hls2))) as Hcnt. rewrite (ls_map _ _ _ Hls2) in Hcnt.
  destruct (timers_reify_ok _ P2 (ls_ready _ _ _ Hls2)) as (l3 & fs & Hrun3 & Hfs & _ & _ & Hmap3 & Hready3 & _ & _ & Hpr3 & Hmask3);
    [lia|by apply Hr2|].
  exists l2, k2, cs, fed, l3, fs. split_and!; try done; [exact (same_priorities_trans _ _ _ Hpr2 Hpr3)| |split].
  - intros w. rewrite Hfs, list_elem_of_fmap. split.
    + intros ([w' t] & -> & [Ht Hl]%elem_of_map_to_list%late_lookup). exists t. by rewrite (ls_map _ _ _ Hls2) in Ht.
    + intros (t & Ht & Hl). exists (w, t). split; [done|]. apply elem_of_map_to_list, late_lookup. by rewrite (ls_map _ _ _ Hls2).
  - split; [done|by rewrite Hmap3, (ls_map _ _ _ Hls2)|]. apply (all_priorities_same _ _ Hpr3), (ls_priorities _ _ _ Hls2).
  - destruct (masked_io_state (set_mn_now now l2) l3 J [] [] P2 _ Hmask3 Hpr3 (re_pending _ _ Hready3)) as [Hio3 Hmm3].
    { destruct Hio2 as [A1 A2 [B1 B2 B3 B4] A4 A5 A6 A7]. by split. }
    exists []. split; [done|]. cbn [fst snd]. by rewrite Hmm3.
Qed.
End iteration.

(** ** What is due is delivered *)

Lemma by_prio_same l l' q : same_priorities l l' -> StronglySorted (by_prio l') q -> StronglySorted (by_prio l) q.
Proof.
  intros Hpr. induction 1 as [|a q Hs IH Hall]; constructor; [done|]. eapply List.Forall_impl; [|exact Hall].
  intros b. unfold by_prio. by rewrite !(prio_same l l').
Qed.

Lemma prio_range l w : all_priorities l -> 0 <= prio l w < NUMPRI.
Proof. intros H. unfold prio. destruct (mem l !! w) as [x|] eqn:Hx; [exact (H w x Hx)|done]. Qed.

Lemma awaits_waiting l P w e :
  all_priorities l -> awaits P (prio l w) w e -> exists e', (w, e') ∈ waiting P /\ e .| e' = e'.
Proof.
  intros Hpri (e' & Hin & He). exists e'. split; [|done]. apply waiting_in. exists (prio l w). split; [by apply prio_range|done].
Qed.

Lemma explained_waiting cause P :
  explained cause P -> forall w e, (w, e) ∈ waiting P ->
    (exists e', cause w e') /\ forall i, Z.testbit e i = true -> exists e', cause w e' /\ Z.testbit e' i = true.
Proof. intros HP w e (pri & _ & Hin)%waiting_in. exact (HP pri w e Hin). Qed.

Lemma without_subset (J : chains) D fd w : w ∈ without D J fd -> w ∈ J fd.
Proof.
  revert J. induction D as [|fd' D IH]; intros J; [done|]. intros H. apply (IH (put J fd' [])) in H.
  unfold put in H. case_decide; [by apply elem_of_nil in H|done].
Qed.

Lemma due_awaits {K} `{!Kernel K, !KernelLaws K} n l l1 l2 (k1 : K) M J D P rs now fs w e :
  (exists todo d, io_state l J d todo P) -> timer_map l = M ->
  settled n (l1, k1) (without D J) (abandon (prio l) J D P) -> loop_state l1 M (abandon (prio l) J D P) ->
  same_priorities l l1 -> same_priorities l1 l2 ->
  (forall w, w ∈ fs.*1 <-> exists t, M !! w = Some t /\ is_late now t = true) ->
  due l1 J D rs M now w e ->
  awaits (expired_queues (set_mn_now now l2) (polled (prio l1) l1 (without D J) [] rs (abandon (prio l) J D P)) fs) (prio l1 w) w e.
Proof.
  intros (todo & d & Hio) HM Hse Hls Hpr1 Hpr2 Hfs Hdue.
  assert (forall fd, w ∈ J fd -> w ∉ fs.*1) as Hno.
  { intros fd Hw (t & Ht & _)%Hfs. rewrite <- HM, (chain_no_timer _ _ _ _ _ _ _ Hio Hw) in Ht. done. }
  destruct Hdue as [e Hw|fd Hfd Hw|t Ht Hl].
  - apply expired_keeps; [|apply polled_awaits; [apply (chain_masks _ _ _ _ _ (se_io _ _ _ _ Hse))|done]].
    destruct Hw as [r _ _ Hw _|fd _ Hw _]; eapply Hno; by apply (without_subset _ D).
  - apply expired_keeps; [by apply (Hno fd)|]. unfold polled. apply ready_all_keeps, delivered_all_keeps.
    rewrite (prio_same l l1) by done. by apply (abandon_awaits _ _ _ _ fd).
  - rewrite <- (prio_same l1 l2 w Hpr2). apply (expired_awaits (set_mn_now now l2)). apply Hfs. by exists t.
Qed.

(** C35: an iteration of the loop, with any answers of the kernel, and callbacks
    that may change timers and io watchers but leave the events that are pending
    alone. Every step succeeds; every event that is due is delivered, to the
    callback of its watcher: those that the kernel reports, unless epoll_poll
    drops the report (its generation is old, or the kernel fails to take back
    events that nobody waits for; postfork is set then), those of the descriptors
    in the list of always ready ones, the timers whose time has come, and an error
    for the descriptors that the kernel refused in this iteration. No watcher is
    called twice, none without an event that is due or was pending before the
    iteration, or with an event that is neither, and higher priorities come first.
    The reports carry the current generation only for descriptors that epoll
    does not refuse with EPERM; there are fewer than 2^24 timers, and the queues
    have room, up to 2^25 events. *)
Theorem iteration_exact {K} `{!Kernel K, !KernelLaws K} callback n l (k : K) M N J P now :
  running (n + 2 ^ 24) (l, k) (M, (N, J, P)) -> 0 <= n -> finite now ->
  Z.of_nat (size M) < 2 ^ 24 -> roomy (Z.of_nat (size (mem l))) l ->
  (forall w revents l P, loop_ok sound l P -> exists l', callback w revents l = Some l' /\ loop_ok sound l' P) ->
  exists l1 k1 D calls, fd_reify epoll_modify (l, k) = Some (l1, k1) /\ made k calls k1 /\
    (forall fd, fd ∈ D -> refusal calls fd) /\
    forall rs, reports_ok l1 rs ->
      let J1 := without D J in
      roomy (2 ^ 24 + (total J1 (alive_fds l1 (eperms l1)) + total J1 (r_fd <$> rs))) l1 ->
      exists l2 k2 cs fed l3 fuel l4 log, epoll_poll (Some (event_of <$> rs)) (l1, k1) = Some (l2, k2) /\
        made k1 cs k2 /\ sublist fed rs /\ (forall r, r ∈ rs -> accounted l1 l2 cs fed r) /\
        timers_reify (set_mn_now now l2) = Some l3 /\ ev_invoke_pending callback fuel l3 = Some (l4, log) /\
        NoDup log.*1 /\ StronglySorted (by_prio l) log /\
        (forall w e, due l1 J D fed M now w e -> exists e', (w, e') ∈ log /\ e .| e' = e') /\
        (let cause w e := due l1 J D fed M now w e \/ exists p, (w, e) ∈ P p in
         forall w e, (w, e) ∈ log -> (exists e', cause w e') /\
           forall i, Z.testbit e i = true -> exists e', cause w e' /\ Z.testbit e' i = true) /\
        timer_map l3 = expire now <$> M /\ sound l4 /\
        forall pri, 0 <= pri < NUMPRI -> omap live (default [] (stack l4 pri)) = [].
Proof.
  intros Hrun Hn Hnow Hsize Hroom Hcb.
  pose proof (ru_client _ _ _ Hrun) as [Hls0 (todo & Hio0 & _)]. cbn [fst snd] in Hls0, Hio0.
  destruct (running_reify n l k M N J P Hrun Hn Hroom) as (l1 & k1 & D & calls & Hreify & _ & Hmade & HD & Hse & Hls1 & Hm1 & _ & Hpr1 & _).
  exists l1, k1, D, calls. split; [done|]. split; [done|]. split; [intros fd Hfd; by destruct (HD fd Hfd)|]. intros rs Hrs J1 Hroom1.
  set (P1 := abandon (prio l) J D P) in *.
  destruct (poll_and_expire n l1 k1 M J1 P1 rs now Hse Hls1 Hrs Hnow Hsize Hroom1) as
    (l2 & k2 & cs & fed & l3 & fs & Hpoll & Hcs & Hsub & Hacc & Htimers & Hpr2 & Hpr3 & Hfs & Hs3). cbv zeta in Hs3.
  set (P3 := expired_queues _ _ fs) in *. pose proof (re_pending _ _ (ls_ready _ _ _ (proj1 Hs3))) as Hp3. cbn [fst snd] in Hp3.
  destruct (spec_invoke_all (S (length (waiting P3))) P3) as (P' & Hs & HP'); [lia|].
  destruct (invoke_pending_ok callback (fun _ _ P => P) sound sound_frame Hcb _ l3 _ P' _ Hp3 (client_sound _ _ Hs3) Hs)
    as (fuel & l4 & Hinv & Hp4 & _ & Hsound).
  exists l2, k2, cs, fed, l3, fuel, l4, (waiting P3). split_and!; try done.
  - by apply (waiting_nodup l3).
  - apply (by_prio_same l l3); [by eapply same_priorities_trans|]. by apply waiting_sorted.
  - intros w e Hdue. apply (awaits_waiting l3 P3); [apply (ls_priorities _ _ _ (proj1 Hs3))|].
    rewrite (prio_same l1 l3) by done. apply (due_awaits n l l1 l2 k1 M J D P fed now fs); try done; [by eauto|apply Hls0].
  - intros cause. apply (explained_waiting cause). apply explained_expired.
    + intros w (t & Ht & Hl)%Hfs. left. by apply (due_timer _ _ _ _ _ _ _ t).
    + apply explained_polled; [apply (chain_masks _ _ _ _ _ (se_io _ _ _ _ Hse))|intros w e Hw; left; by apply due_wakes|].
      apply explained_abandon; [intros fd w ? ?; left; by apply (due_refused _ _ _ _ _ _ _ fd)|].
      intros p w e Hin. split; [exists e; right; eauto|]. intros i Hi. exists e. split; [right; eauto|done].
  - apply (ls_map _ _ _ (proj1 Hs3)).
  - intros pri Hr. destruct (po_stack l4 P' Hp4 pri Hr) as (q & -> & HPq). simpl. rewrite <- HPq. by apply HP'.
Qed.

(** * An instance *)

(** Watchers 1 and 4 wait on descriptor 3, and 2 on descriptor 5, which is always
    ready; the timer 7 runs for 5 seconds. *)
Definition demo_start : list client_call := [Io (IStart 1); Io (IStart 4); Io (IStart 2); Clock (CStart 7)].
Definition demo_chains : chains := put (put (put no_chains 3 [1]) 3 [4; 1]) 5 [2].

Definition demo_spec_start : client := spec_client (mn_now demo_both_loop) (prio demo_both_loop) demo_start demo_client.

Lemma demo_start_facts :
  demo_spec_start.2.1.2 = demo_chains /\
  demo_spec_start.1 !! 7 = Some (Timer true (of_int 5) fzero) /\ Z.of_nat (size demo_spec_start.1) < 2 ^ 24.
Proof. split_and!; vm_compute; reflexivity. Qed.

(** The state after these calls. *)
Lemma demo_running :
  exists l M N P, run_client demo_start demo_both_loop = Some l /\ running (2 ^ 24) (l, no_table) (M, (N, demo_chains, P)) /\
    M !! 7 = Some (Timer true (of_int 5) fzero) /\ Z.of_nat (size M) < 2 ^ 24 /\
    roomy (Z.of_nat (size (mem l))) l.
Proof.
  pose proof demo_client_state as Hcs. pose proof Hcs as [_ (todo & Hio & _)]. cbn [demo_client fst snd] in Hio.
  assert (todo = []) as ->.
  { destruct todo as [|fd todo]; [done|]. pose proof (io_range _ _ _ _ (ios_ok _ _ _ _ _ Hio) fd (list_elem_of_here _ _)) as Hr. simpl in Hr. lia. }
  destruct (init_settled fzero fzero demo_both (2 ^ 24) Hio ltac:(done)) as [_ Hok Hw].
  destruct (running_client (2 ^ 24) demo_both_loop no_table demo_client demo_start) as (l & Hrun & _ & Hpr & Hr & Hall).
  - by split.
  - vm_compute. reflexivity.
  - vm_compute. reflexivity.
  - apply init_roomy. vm_compute. discriminate.
  - fold demo_spec_start in Hall. destruct demo_start_facts as (F2 & F3 & F4).
    destruct demo_spec_start as [M [[N J] P]]. cbn [fst snd] in F2, F3, F4. subst J.
    exists l, M, N, P. split; [exact Hrun|]. split; [apply Hall; intros fd; by left|]. split_and!; [done..|].
    rewrite (same_size _ _ Hpr). apply Hr, init_roomy. vm_compute. discriminate.
Qed.

Lemma total_without (J : chains) D A : total (without D J) A <= total J A.
Proof.
  assert (forall fd, length (without D J fd) <= length (J fd))%nat as H.
  { intros fd. destruct (decide (fd ∈ D)) as [Hin|Hin]; [rewrite without_in by done; simpl; lia|by rewrite without_notin]. }
  unfold total. induction A as [|fd A IH]; [done|]. cbn [foldr]. specialize (H fd). lia.
Qed.

Lemma demo_report_ok l :
  current l demo_report = true -> ~ snubbed l 3 -> is_Some (array_get (anfds l) 3) -> reports_ok l [demo_report].
Proof.
  intros Hcur Hsn Htab r ->%list_elem_of_singleton. split; [by vm_compute|]. split; [by vm_compute|]. by split.
Qed.

Definition demo_reified : option (list Z * (bool * bool) * bool * list Z * Z * list epoll_call) :=
  l ← run_client demo_start demo_both_loop; '(l, k) ← fd_reify epoll_modify (l, no_table);
  Some (pendingcnt l, (current l demo_report, bool_decide (snubbed l 3)),
        bool_decide (is_Some (array_get (anfds l) 3)), alive_fds l (eperms l), events_of (io_map l) 1, calls_between no_table k).

Definition demo_polled_calls : option (list epoll_call) :=
  l ← run_client demo_start demo_both_loop; '(l, k) ← fd_reify epoll_modify (l, no_table);
  '(_, k') ← epoll_poll (Some [event_of demo_report]) (l, k); Some (calls_between k k').

Lemma demo_late : is_late (of_int 10) (Timer true (of_int 5) fzero) = true.
Proof. vm_compute. reflexivity. Qed.

Lemma iteration_exact_witness :
  exists l l1 k1 l2 k2 l3 fuel l4 log e1 e7, run_client demo_start demo_both_loop = Some l /\
    fd_reify epoll_modify (l, no_table) = Some (l1, k1) /\
    epoll_poll (Some [event_of demo_report]) (l1, k1) = Some (l2, k2) /\
    timers_reify (set_mn_now (of_int 10) l2) = Some l3 /\
    ev_invoke_pending (fun _ _ l => Some l) fuel l3 = Some (l4, log) /\
    (1, e1) ∈ log /\ EV_READ .| e1 = e1 /\ (7, e7) ∈ log /\ EV_TIMER .| e7 = e7.
Proof.
  destruct demo_running as (l & M & N & P & Hrun & Hr & HM & Hsize & Hroom).
  destruct (iteration_exact (fun _ _ l => Some l) 0 l no_table M N demo_chains P (of_int 10)) as (l1 & k1 & D & calls & Hreify & Hmade & HD & H).
  - exact Hr.
  - lia.
  - vm_compute. reflexivity.
  - exact Hsize.
  - exact Hroom.
  - intros w e l' P' Hl'. exists l'. split; [reflexivity|exact Hl'].
  - assert (demo_reified = Some ([0; 0; 0; 0; 0], (true, false), true, [5], EV_READ,
      [(EPOLL_CTL_ADD, 5, Some EPERM); (EPOLL_CTL_ADD, 3, None)])) as Hview by (vm_compute; reflexivity).
    unfold demo_reified in Hview. rewrite Hrun in Hview. cbn [mbind option_bind] in Hview. rewrite Hreify in Hview. cbn [mbind option_bind] in Hview.
    rewrite (made_between _ _ _ Hmade) in Hview. injection Hview as Hcnt Hcur Hsn Htab Hal Hev Hcalls.
    apply bool_decide_eq_true in Htab. apply bool_decide_eq_false in Hsn.
    assert (3 ∉ D) as H3.
    { intros Hin. destruct (HD 3 Hin) as [(op & _ & Hc)|[Hc _]]; rewrite Hcalls in Hc;
        repeat (apply elem_of_cons in Hc as [Hc|Hc]; [discriminate|]); by apply elem_of_nil in Hc. }
    assert (1 ∈ without D demo_chains 3) as Hw1 by (rewrite without_notin by exact H3; apply list_elem_of_further, list_elem_of_here).
    destruct (H [demo_report]) as (l2 & k2 & cs & fed & l3 & fuel & l4 & log & Hpoll & Hcs & _ & Hacc & Htim & Hinv & _ & _ & Hdue & _).
    + exact (demo_report_ok l1 Hcur Hsn Htab).
    + rewrite Hal. apply roomy_empty; [exact Hcnt|]. pose proof (total_without demo_chains D [5]) as H5.
      pose proof (total_without demo_chains D (r_fd <$> [demo_report])) as H6.
      change (total demo_chains [5]) with 1 in H5. change (total demo_chains (r_fd <$> [demo_report])) with 2 in H6. lia.
    + cbn [fmap list_fmap] in Hpoll.
      assert (demo_polled_calls = Some []) as Hno by (vm_compute; reflexivity).
      unfold demo_polled_calls in Hno. rewrite Hrun in Hno. cbn [mbind option_bind] in Hno. rewrite Hreify in Hno. cbn [mbind option_bind] in Hno.
      rewrite Hpoll in Hno. cbn [mbind option_bind] in Hno. rewrite (made_between _ _ _ Hcs) in Hno. apply (inj Some) in Hno. subst cs.
      assert (demo_report ∈ fed) as Hfed.
      { destruct (Hacc demo_report (list_elem_of_here _ _)) as [[_ Hin]|[_ [Hc|(op & err & Hc)]]];
          [exact Hin|rewrite Hcur in Hc; discriminate|exfalso; exact (proj1 (elem_of_nil _) Hc)]. }
      destruct (Hdue 1 EV_READ) as (e1 & Hin1 & He1).
      { apply due_wakes. pose proof (wakes_report l1 (without D demo_chains) fed 1 demo_report) as Hw.
        rewrite Hev in Hw. apply Hw; [exact Hfed|exact Hcur|exact Hw1|discriminate]. }
      destruct (Hdue 7 EV_TIMER) as (e7 & Hin7 & He7); [exact (due_timer _ _ _ _ _ _ _ _ HM demo_late)|].
      exists l, l1, k1, l2, k2, l3, fuel, l4, log, e1, e7. split_and!; assumption.
Defined.
