(* ===== verification/Utf8.v ===== *)
(** UTF-8 text: the reference encodings, and the character functions of
    src/glib-2.56.1/glib/gutf8.c: the length table, the macros, decoding and
    encoding of one character, validation, and navigation in a text.

    A buffer is the list of its bytes, a pointer into it an index; a read
    outside the buffer fails ([None]).  The loops run by [iter] with a fuel
    that the theorems show to be enough. *)
From S2P Require Import Prelude.

Open Scope c_scope.

(** * Loops *)

(** [iter fuel body a]: the loop that repeats [body] from the local variables
    [a]: the body ends with new values ([inl]) or leaves the loop ([inr]). *)
Fixpoint iter {A B} (fuel : nat) (body : A -> option (A + B)) (a : A) : option B :=
  match fuel with
  | O => None
  | S fuel =>
      r ← body a;
      match r with
      | inl a => iter fuel body a
      | inr b => Some b
      end
  end.

(** * The reference encodings *)

(** The bytes of a character of up to 31 bits, as arithmetic (RFC 2279). *)
Definition encode (c : Z) : list Z :=
  if c <? 0x80 then [c]
  else if c <? 0x800 then [0xc0 + c / 2 ^ 6; 0x80 + c mod 2 ^ 6]
  else if c <? 0x10000 then [0xe0 + c / 2 ^ 12; 0x80 + c / 2 ^ 6 mod 2 ^ 6; 0x80 + c mod 2 ^ 6]
  else if c <? 0x200000 then
    [0xf0 + c / 2 ^ 18; 0x80 + c / 2 ^ 12 mod 2 ^ 6; 0x80 + c / 2 ^ 6 mod 2 ^ 6; 0x80 + c mod 2 ^ 6]
  else if c <? 0x4000000 then
    [0xf8 + c / 2 ^ 24; 0x80 + c / 2 ^ 18 mod 2 ^ 6; 0x80 + c / 2 ^ 12 mod 2 ^ 6;
     0x80 + c / 2 ^ 6 mod 2 ^ 6; 0x80 + c mod 2 ^ 6]
  else
    [0xfc + c / 2 ^ 30; 0x80 + c / 2 ^ 24 mod 2 ^ 6; 0x80 + c / 2 ^ 18 mod 2 ^ 6;
     0x80 + c / 2 ^ 12 mod 2 ^ 6; 0x80 + c / 2 ^ 6 mod 2 ^ 6; 0x80 + c mod 2 ^ 6].

Definition encodes (cs : list Z) : list Z := cs ≫= encode.

(** A Unicode scalar value: a code point that is not a surrogate. *)
Definition scalar (c : Z) : Prop := 0 <= c < 0x110000 /\ ~ 0xd800 <= c < 0xe000.

#[export] Instance scalar_dec c : Decision (scalar c).
Proof. unfold scalar. apply _. Defined.

(** A character that a text holds: the terminator is none. *)
Definition text_char (c : Z) : Prop := scalar c /\ c <> 0.

(** * Bytes and pointers *)

(** [*(p)] of the buffer [s] *)
Definition rd (s : list Z) (p : Z) : option Z := array_get s p.

(** [n] bytes from [a] on *)
Definition slice (s : list Z) (a n : Z) : option (list Z) :=
  if decide (0 <= a /\ 0 <= n /\ a + n <= Z.of_nat (length s))
  then Some (take (Z.to_nat n) (drop (Z.to_nat a) s)) else None.

(** The C library's [strlen] of the text at [p] *)
Definition strlen (s : list Z) (p : Z) : option Z :=
  iter (S (length s)) (fun q => c ← rd s q; Some (if c =? 0 then inr (q - p) else inl (q + 1))) p.

(** * Macros and the table of lengths *)

(** The mask and the length; the mask is 0 before. *)
Definition UTF8_COMPUTE (Char : Z) : Z * Z :=
  if Char <? 128 then (0x7f, 1)
  else if Char .& 0xe0 =? 0xc0 then (0x1f, 2)
  else if Char .& 0xf0 =? 0xe0 then (0x0f, 3)
  else if Char .& 0xf8 =? 0xf0 then (0x07, 4)
  else if Char .& 0xfc =? 0xf8 then (0x03, 5)
  else if Char .& 0xfe =? 0xfc then (0x01, 6)
  else (0, -1).

Definition UTF8_LENGTH (Char : Z) : Z :=
  if Char <? 0x80 then 1
  else if Char <? 0x800 then 2
  else if Char <? 0x10000 then 3
  else if Char <? 0x200000 then 4
  else if Char <? 0x4000000 then 5 else 6.

(** The loop of the macro: [n] rounds are left, [Count] is next. *)
Fixpoint UTF8_GET_loop (s : list Z) (p : Z) (n : nat) (Count Result : Z) : option Z :=
  match n with
  | O => Some Result
  | S n =>
      ch ← rd s (p + Count);
      if ch .& 0xc0 =? 0x80
      then UTF8_GET_loop s p n (Count + 1) (u32 (Result .<< 6) .| (ch .& 0x3f))
      else Some (u32 (-1))
  end.

Definition UTF8_GET (s : list Z) (p Mask Len : Z) : option Z :=
  ch ← rd s p; UTF8_GET_loop s p (Z.to_nat (Len - 1)) 1 (ch .& Mask).

Definition UNICODE_VALID (Char : Z) : bool :=
  (Char <? 0x110000) && negb (Char .& 0xFFFFF800 =? 0xD800).

Definition utf8_skip_data : list Z :=
  [1;1;1;1;1;1;1;1;1;1;1;1;1;1;1;1;1;1;1;1;1;1;1;1;1;1;1;1;1;1;1;1;
   1;1;1;1;1;1;1;1;1;1;1;1;1;1;1;1;1;1;1;1;1;1;1;1;1;1;1;1;1;1;1;1;
   1;1;1;1;1;1;1;1;1;1;1;1;1;1;1;1;1;1;1;1;1;1;1;1;1;1;1;1;1;1;1;1;
   1;1;1;1;1;1;1;1;1;1;1;1;1;1;1;1;1;1;1;1;1;1;1;1;1;1;1;1;1;1;1;1;
   1;1;1;1;1;1;1;1;1;1;1;1;1;1;1;1;1;1;1;1;1;1;1;1;1;1;1;1;1;1;1;1;
   1;1;1;1;1;1;1;1;1;1;1;1;1;1;1;1;1;1;1;1;1;1;1;1;1;1;1;1;1;1;1;1;
   2;2;2;2;2;2;2;2;2;2;2;2;2;2;2;2;2;2;2;2;2;2;2;2;2;2;2;2;2;2;2;2;
   3;3;3;3;3;3;3;3;3;3;3;3;3;3;3;3;4;4;4;4;4;4;4;4;5;5;5;5;6;6;1;1].

Definition g_utf8_skip (c : Z) : Z := utf8_skip_data !!! Z.to_nat c.

Definition g_utf8_next_char (s : list Z) (p : Z) : option Z :=
  c ← rd s p; Some (p + g_utf8_skip c).

(** * Navigation *)

(** The result [None] inside is the null pointer. *)
Definition g_utf8_find_prev_char (s : list Z) (str p : Z) : option (option Z) :=
  iter (S (Z.to_nat (p - str))) (fun p =>
    if str <=? p then
      c ← rd s p;
      Some (if negb (c .& 0xc0 =? 0x80) then inr (Some p) else inl (p - 1))
    else Some (inr None)) (p - 1).

Definition g_utf8_find_next_char (s : list Z) (p : Z) (end_ : option Z) : option (option Z) :=
  match end_ with
  | Some e =>
      p ← iter (S (Z.to_nat (e - p))) (fun p =>
            if p <? e then
              c ← rd s p; Some (if c .& 0xc0 =? 0x80 then inl (p + 1) else inr p)
            else Some (inr p)) (p + 1);
      Some (if e <=? p then None else Some p)
  | None =>
      p ← iter (S (length s)) (fun p =>
            c ← rd s p; Some (if c .& 0xc0 =? 0x80 then inl (p + 1) else inr p)) (p + 1);
      Some (Some p)
  end.

Definition g_utf8_prev_char (s : list Z) (p : Z) : option Z :=
  iter (S (Z.to_nat p)) (fun p =>
    let p := p - 1 in
    c ← rd s p; Some (if negb (c .& 0xc0 =? 0x80) then inr p else inl p)) p.

Definition g_utf8_strlen (s : list Z) (p max : Z) : option Z :=
  let start := p in
  if max <? 0 then
    iter (S (length s)) (fun '(p, len) =>
      c ← rd s p;
      if c =? 0 then Some (inr len)
      else q ← g_utf8_next_char s p; Some (inl (q, len + 1))) (p, 0)
  else if max =? 0 then Some 0
  else
    c ← rd s p;
    if c =? 0 then Some 0
    else
      p ← g_utf8_next_char s p;
      '(p, len) ← iter (S (length s)) (fun '(p, len) =>
          if p - start <? max then
            c ← rd s p;
            if c =? 0 then Some (inr (p, len))
            else q ← g_utf8_next_char s p; Some (inl (q, len + 1))
          else Some (inr (p, len))) (p, 0);
      Some (if p - start <=? max then len + 1 else len).

Definition g_utf8_pointer_to_offset (s : list Z) (str pos : Z) : option Z :=
  let count str pos :=
    iter (S (Z.to_nat (pos - str))) (fun '(p, offset) =>
      if p <? pos then q ← g_utf8_next_char s p; Some (inl (q, offset + 1))
      else Some (inr offset)) (str, 0) in
  if pos <? str then offset ← count pos str; Some (- offset)
  else count str pos.

(** One round of the backward loop: the pointer steps [offset] bytes back and
    then to the start of its character. *)
Definition stutter_step (s : list Z) : Z * Z -> option (Z * Z + Z) := fun '(p, offset) =>
  if offset =? 0 then Some (inr p)
  else
    let s1 := p in
    p ← iter (S (Z.to_nat (p + offset))) (fun p =>
          c ← rd s p; Some (if c .& 0xc0 =? 0x80 then inl (p - 1) else inr p)) (p + offset);
    d ← g_utf8_pointer_to_offset s p s1;
    Some (inl (p, offset + d)).

Definition g_utf8_offset_to_pointer (s : list Z) (str offset : Z) : option Z :=
  if 0 <? offset then
    iter (S (Z.to_nat offset)) (fun '(p, offset) =>
      if offset =? 0 then Some (inr p)
      else q ← g_utf8_next_char s p; Some (inl (q, offset - 1))) (str, offset)
  else iter (S (Z.to_nat (- offset))) (stutter_step s) (str, offset).

Definition g_utf8_substring (s : list Z) (str start_pos end_pos : Z) : option (list Z) :=
  start ← g_utf8_offset_to_pointer s str start_pos;
  end_ ← g_utf8_offset_to_pointer s start (end_pos - start_pos);
  out ← slice s start (end_ - start);
  Some (out ++ [0]).

(** The C library's [strncpy]: the bytes before a terminator, then zeros. *)
Fixpoint strncpy (src : list Z) (n : nat) : option (list Z) :=
  match n with
  | O => Some []
  | S n' =>
      match src with
      | [] => None
      | c :: src => if c =? 0 then Some (replicate n 0) else l ← strncpy src n'; Some (c :: l)
      end
  end.

(** The buffer [dest] after the call; the text is at [p]. *)
Definition g_utf8_strncpy (dest s : list Z) (p n : Z) : option (list Z) :=
  let src := p in
  p ← iter (S (length s)) (fun '(p, n) =>
        if n =? 0 then Some (inr p)
        else c ← rd s p;
             if c =? 0 then Some (inr p)
             else q ← g_utf8_next_char s p; Some (inl (q, n - 1))) (p, n);
  l ← strncpy (drop (Z.to_nat src) s) (Z.to_nat (p - src));
  if decide (length l < length dest)%nat then Some (l ++ [0] ++ drop (S (length l)) dest) else None.

(** * One character *)

Definition g_utf8_get_char (s : list Z) (p : Z) : option Z :=
  c ← rd s p;
  let (mask, len) := UTF8_COMPUTE c in
  if len =? -1 then Some (u32 (-1)) else UTF8_GET s p mask len.

(** The length and the bits of the first byte *)
Definition unichar_head (c : Z) : Z * nat :=
  if c <? 0x80 then (0, 1%nat)
  else if c <? 0x800 then (0xc0, 2%nat)
  else if c <? 0x10000 then (0xe0, 3%nat)
  else if c <? 0x200000 then (0xf0, 4%nat)
  else if c <? 0x4000000 then (0xf8, 5%nat)
  else (0xfc, 6%nat).

(** The loop that writes [outbuf[i]], ..., [outbuf[1]] *)
Fixpoint unichar_tail (buf : list Z) (outbuf : Z) (i : nat) (c : Z) : option (list Z * Z) :=
  match i with
  | O => Some (buf, c)
  | S i' =>
      buf ← array_set buf (outbuf + Z.of_nat i) (u8 ((c .& 0x3f) .| 0x80));
      unichar_tail buf outbuf i' (c .>> 6)
  end.

(** [outbuf] is a place of the buffer [buf], or null. *)
Definition g_unichar_to_utf8 (c : Z) (buf : list Z) (outbuf : option Z) : option (Z * list Z) :=
  let (first, len) := unichar_head c in
  match outbuf with
  | Some out =>
      '(buf, c) ← unichar_tail buf out (len - 1) c;
      buf ← array_set buf out (u8 (c .| first));
      Some (Z.of_nat len, buf)
  | None => Some (Z.of_nat len, buf)
  end.

Definition partial_sequence : Z := u32 (-2).
Definition malformed_sequence : Z := u32 (-1).

(** The loop over a sequence that [max_len] cuts off *)
Fixpoint get_char_cut (s : list Z) (p : Z) (n : nat) (i : Z) : option Z :=
  match n with
  | O => Some partial_sequence
  | S n =>
      ch ← rd s (p + i);
      if negb (ch .& 0xc0 =? 0x80) then Some malformed_sequence else get_char_cut s p n (i + 1)
  end.

(** The loop over a sequence, and the test of its value *)
Fixpoint get_char_rest (s : list Z) (p : Z) (n : nat) (i wc min_code : Z) : option Z :=
  match n with
  | O => Some (if wc <? min_code then malformed_sequence else wc)
  | S n =>
      ch ← rd s (p + i);
      if negb (ch .& 0xc0 =? 0x80) then
        Some (if negb (ch =? 0) then malformed_sequence else partial_sequence)
      else get_char_rest s p n (i + 1) (u32 (wc .<< 6) .| (ch .& 0x3f)) min_code
  end.

Definition g_utf8_get_char_extended (s : list Z) (p max_len : Z) : option Z :=
  wc ← rd s p;
  let sequence len wc min_code :=
    if (0 <=? max_len) && (max_len <? len) then get_char_cut s p (Z.to_nat (max_len - 1)) 1
    else get_char_rest s p (Z.to_nat (len - 1)) 1 wc min_code in
  if wc <? 0x80 then Some wc
  else if wc <? 0xc0 then Some malformed_sequence
  else if wc <? 0xe0 then sequence 2 (wc .& 0x1f) (1 .<< 7)
  else if wc <? 0xf0 then sequence 3 (wc .& 0x0f) (1 .<< 11)
  else if wc <? 0xf8 then sequence 4 (wc .& 0x07) (1 .<< 16)
  else if wc <? 0xfc then sequence 5 (wc .& 0x03) (1 .<< 21)
  else if wc <? 0xfe then sequence 6 (wc .& 0x01) (1 .<< 26)
  else Some malformed_sequence.

Definition g_utf8_get_char_validated (s : list Z) (p max_len : Z) : option Z :=
  if max_len =? 0 then Some (u32 (-2))
  else
    result ← g_utf8_get_char_extended s p max_len;
    Some (if negb (result .& 0x80000000 =? 0) then result
          else if negb (UNICODE_VALID result) then u32 (-1) else result).

Definition g_unichar_validate (ch : Z) : bool := UNICODE_VALID ch.

(** * Validation *)

(** The macro: [goto error] leaves the loop with the start of the sequence,
    otherwise the control goes on with [k]. *)
Definition VALIDATE_BYTE (s : list Z) (last p mask expect : Z) (k : option (Z + Z)) : option (Z + Z) :=
  c ← rd s p; if negb (c .& mask =? expect) then Some (inr last) else k.

(** One round of the loop of fast_validate and fast_validate_len.  The second
    differs by its tests of the length: [room p n] says that there are [n]
    bytes from [p] on. *)
Definition validate_step (room : Z -> Z -> bool) (s : list Z) (p : Z) : option (Z + Z) :=
  if negb (room p 1) then Some (inr p)
  else
    c ← rd s p;
    let last := p in
    let error := Some (inr last) in
    let validate := VALIDATE_BYTE s last in
    let final p := let p := p + 1 in validate p 0xc0 0x80 (Some (inl (p + 1))) in
    if c =? 0 then Some (inr p)
    else if c <? 128 then Some (inl (p + 1))
    else if c <? 0xe0 then
      if negb (room p 2) then error
      else if c <? 0xc2 then error else final p
    else if c <? 0xf0 then
      if negb (room p 3) then error
      else
        let p := p + 1 in
        if c .& 0x0f =? 0 then validate p 0xe0 0xa0 (final p)
        else if c .& 0x0f =? 0x0d then validate p 0xe0 0x80 (final p)
        else validate p 0xc0 0x80 (final p)
    else if c <? 0xf5 then
      if negb (room p 4) then error
      else
        let p := p + 1 in
        let third := let p := p + 1 in validate p 0xc0 0x80 (final p) in
        if c .& 0x07 =? 0 then
          validate p 0xc0 0x80 (b ← rd s p; if b .& 0x30 =? 0 then error else third)
        else if c .& 0x07 =? 4 then validate p 0xf0 0x80 third
        else validate p 0xc0 0x80 third
    else error.

Definition fast_validate (s : list Z) (str : Z) : option Z :=
  iter (S (length s)) (validate_step (fun _ _ => true) s) str.

Definition fast_validate_len (s : list Z) (str max_len : Z) : option Z :=
  iter (S (length s)) (validate_step (fun p n => n <=? max_len - (p - str)) s) str.

(** The result, and the end of the valid data. *)
Definition g_utf8_validate (s : list Z) (str max_len : Z) : option (bool * Z) :=
  p ← (if max_len <? 0 then fast_validate s str else fast_validate_len s str max_len);
  invalid ← (if 0 <=? max_len then Some (negb (p =? str + max_len))
             else c ← rd s p; Some (negb (c =? 0)));
  Some (negb invalid, p).
