(* ===== verification/Utf8Char.v ===== *)
(** Theory of the character functions of gutf8.c: loops, places of a buffer,
    the shape of an encoded character, and what decoding answers on any
    bytes. *)
From S2P Require Import Prelude Utf8.

Open Scope c_scope.

(** * Loops *)

(** A loop that keeps an invariant and decreases a measure ends, if the fuel is
    more than the measure. *)
Lemma iter_total {A B} (body : A -> option (A + B)) (Inv : A -> Prop) (m : A -> nat) (Post : B -> Prop) :
  (forall a, Inv a -> exists r, body a = Some r /\
     match r with inl a' => Inv a' /\ (m a' < m a)%nat | inr b => Post b end) ->
  forall fuel a, Inv a -> (m a < fuel)%nat -> exists b, iter fuel body a = Some b /\ Post b.
Proof.
  intros Hbody. induction fuel as [|fuel IH]; intros a Ha Hm; [lia|]. cbn.
  destruct (Hbody a Ha) as (r & -> & Hr). cbn.
  destruct r as [a'|b]; [|by exists b]. destruct Hr as [Ha' Hlt]. apply IH; [done|lia].
Qed.

(** The rule for a result that is known. *)
Lemma iter_yields {A B} (body : A -> option (A + B)) (Inv : A -> Prop) (m : A -> nat) (b : B) fuel a :
  (forall a, Inv a -> exists r, body a = Some r /\
     match r with inl a' => Inv a' /\ (m a' < m a)%nat | inr b' => b' = b end) ->
  Inv a -> (m a < fuel)%nat -> iter fuel body a = Some b.
Proof.
  intros Hbody Ha Hm. by destruct (iter_total body Inv m (fun b' => b' = b) Hbody fuel a Ha Hm) as (b' & -> & ->).
Qed.

(** * Places of a buffer *)

(** [place s p t]: the pointer [p] into [s], and the rest [t] of the buffer. *)
Definition place (s : list Z) (p : Z) (t : list Z) : Prop := 0 <= p <= Z.of_nat (length s) /\ drop (Z.to_nat p) s = t.

Lemma place_app pre t : place (pre ++ t) (Z.of_nat (length pre)) t.
Proof. split; [rewrite length_app; lia|]. by rewrite Nat2Z.id, drop_app_length. Qed.

Lemma place_rd s p t i : place s p t -> 0 <= i -> rd s (p + i) = t !! Z.to_nat i.
Proof.
  intros [? <-] Hi. unfold rd, array_get. destruct (Z.ltb_spec (p + i) 0); [lia|].
  rewrite lookup_drop. f_equal. lia.
Qed.

Lemma place_rd0 s p t : place s p t -> rd s p = head t.
Proof. intros H. replace p with (p + 0) by lia. rewrite (place_rd _ _ _ _ H) by lia. by destruct t. Qed.

Lemma place_length s p t : place s p t -> p + Z.of_nat (length t) = Z.of_nat (length s).
Proof. intros [? <-]. rewrite length_drop. lia. Qed.

Lemma place_step s p u t : place s p (u ++ t) -> place s (p + Z.of_nat (length u)) t.
Proof.
  intros H. pose proof (place_length _ _ _ H) as Hl. rewrite length_app in Hl. destruct H as [? H].
  split; [lia|]. replace (Z.to_nat (p + Z.of_nat (length u))) with (Z.to_nat p + length u)%nat by lia.
  by rewrite <- drop_drop, H, drop_app_length.
Qed.

Lemma place_inj s p t t' : place s p t -> place s p t' -> t = t'.
Proof. intros [_ <-] [_ <-]. done. Qed.

(** * Bytes *)

Abbreviation bytes := (Forall (in_u 8)).

(** A continuation byte *)
Definition cont (b : Z) : Prop := 0x80 <= b < 0xc0.

#[export] Instance cont_dec b : Decision (cont b).
Proof. unfold cont. apply _. Defined.

Ltac all_bytes b Hb P :=
  let H := fresh in let H' := fresh in
  assert (H : forall_range 0 256 P = true) by (vm_compute; reflexivity);
  pose proof (forall_range_spec 0 256 P H b Hb) as H'; cbv beta in H'; clear H.

Lemma cont_test b : in_u 8 b -> (b .& 0xc0 =? 0x80) = bool_decide (cont b).
Proof.
  intros Hb. all_bytes b Hb (fun b => Bool.eqb (b .& 0xc0 =? 0x80) (bool_decide (cont b))).
  by apply Bool.eqb_prop.
Qed.

Lemma low6 b : b .& 0x3f = b mod 2 ^ 6.
Proof. apply (Z.land_ones b 6). lia. Qed.

(** One more continuation byte *)
Lemma push_byte w b : 0 <= w < 2 ^ 26 -> u32 (w .<< 6) .| (b .& 0x3f) = w * 64 + b mod 64.
Proof.
  intros Hw. rewrite low6. pose proof (Z.mod_pos_bound b (2 ^ 6)).
  rewrite wrap_id by (unfold in_u; rewrite Z.shiftl_mul_pow2 by lia; lia).
  rewrite lor_shiftl_add; [done|lia|unfold in_u; lia].
Qed.

Ltac div_lia := Z.to_euclidean_division_equations; lia.

(** * The shape of an encoded character *)

(** The length that a first byte announces; 0 for a byte that is none. *)
Definition lead_len (b : Z) : nat :=
  if b <? 0x80 then 1 else if b <? 0xc0 then 0 else if b <? 0xe0 then 2 else if b <? 0xf0 then 3
  else if b <? 0xf8 then 4 else if b <? 0xfc then 5 else if b <? 0xfe then 6 else 0.

(** The marker bits of a first byte, and the least character, per length. *)
Definition marker (n : nat) : Z :=
  match n with 2%nat => 0xc0 | 3%nat => 0xe0 | 4%nat => 0xf0 | 5%nat => 0xf8 | 6%nat => 0xfc | _ => 0 end.
Definition least (n : nat) : Z :=
  match n with
  | 2%nat => 2 ^ 7 | 3%nat => 2 ^ 11 | 4%nat => 2 ^ 16 | 5%nat => 2 ^ 21 | 6%nat => 2 ^ 26 | _ => 0
  end.

(** The length of a character *)
Definition width (c : Z) : nat := snd (unichar_head c).

(** The last [n] bytes of the character [c] *)
Fixpoint tails (n : nat) (c : Z) : list Z :=
  match n with
  | O => []
  | S n => 0x80 + c / 64 ^ Z.of_nat n mod 64 :: tails n c
  end.

(** The value of continuation bytes behind the bits [w] *)
Definition value (w : Z) (ks : list Z) : Z := foldl (fun v b => v * 64 + b mod 64) w ks.

Lemma width_cases c :
  0 <= c < 2 ^ 31 ->
  width c = 1%nat /\ c < 2 ^ 7 \/ width c = 2%nat /\ 2 ^ 7 <= c < 2 ^ 11 \/
  width c = 3%nat /\ 2 ^ 11 <= c < 2 ^ 16 \/ width c = 4%nat /\ 2 ^ 16 <= c < 2 ^ 21 \/
  width c = 5%nat /\ 2 ^ 21 <= c < 2 ^ 26 \/ width c = 6%nat /\ 2 ^ 26 <= c.
Proof.
  intros Hc. unfold width, unichar_head.
  repeat match goal with |- context [?a <? ?b] => destruct (Z.ltb_spec a b) end; cbn [snd]; lia.
Qed.

Ltac pow64 :=
  repeat match goal with
  | |- context [64 ^ Z.of_nat ?n] =>
      let v := eval vm_compute in (64 ^ Z.of_nat n) in change (64 ^ Z.of_nat n) with v
  end.

Ltac widths c Hc :=
  let E := fresh "E" in let Hw := fresh "Hw" in
  destruct (width_cases c Hc) as [[E Hw]|[[E Hw]|[[E Hw]|[[E Hw]|[[E Hw]|[E Hw]]]]]]; rewrite ?E;
  cbn [marker least Nat.sub]; pow64.

Lemma encode_shape c :
  0 <= c < 2 ^ 31 ->
  encode c = marker (width c) + c / 64 ^ Z.of_nat (width c - 1) :: tails (width c - 1) c.
Proof.
  intros Hc. unfold encode, width, unichar_head.
  repeat match goal with |- context [?a <? ?b] => destruct (Z.ltb_spec a b) end;
    cbn [snd marker tails Nat.sub]; pow64; rewrite ?Z.div_1_r; done.
Qed.

Lemma tails_length n c : length (tails n c) = n.
Proof. induction n; cbn; lia. Qed.

Lemma tails_cont n c : Forall cont (tails n c).
Proof.
  induction n as [|n IH]; cbn; constructor; [|done].
  unfold cont. pose proof (Z.mod_pos_bound (c / 64 ^ Z.of_nat n) 64). lia.
Qed.

Lemma width_bounds c : (1 <= width c <= 6)%nat.
Proof. unfold width, unichar_head. repeat case_match; cbn; lia. Qed.

Lemma encode_length c : 0 <= c < 2 ^ 31 -> length (encode c) = width c.
Proof. intros Hc. rewrite encode_shape by done. cbn. rewrite tails_length. pose proof (width_bounds c). lia. Qed.

Lemma UTF8_LENGTH_width c : UTF8_LENGTH c = Z.of_nat (width c).
Proof. unfold UTF8_LENGTH, width, unichar_head. repeat case_match; done. Qed.

(** The first byte announces the length. *)
Lemma lead_len_encode c :
  0 <= c < 2 ^ 31 ->
  let b := marker (width c) + c / 64 ^ Z.of_nat (width c - 1) in in_u 8 b /\ lead_len b = width c.
Proof.
  intros Hc. cbv zeta. unfold in_u, lead_len.
  widths c Hc; rewrite ?Z.div_1_r;
  repeat match goal with |- context [?a <? ?b] => destruct (Z.ltb_spec a b) end; try div_lia.
Qed.

(** Splitting off at most [n] continuation bytes *)
Fixpoint run (n : nat) (u : list Z) : list Z * list Z :=
  match n, u with
  | S n, b :: u' => if decide (cont b) then let (ks, r) := run n u' in (b :: ks, r) else ([], u)
  | _, _ => ([], u)
  end.

Lemma run_app n u : u = fst (run n u) ++ snd (run n u).
Proof.
  revert u. induction n as [|n IH]; intros [|b u]; cbn; try done.
  case_decide; [|done]. specialize (IH u). destruct (run n u); cbn in *. by f_equal.
Qed.

Lemma run_cont n u : Forall cont (fst (run n u)) /\ (length (fst (run n u)) <= n)%nat.
Proof.
  revert u. induction n as [|n IH]; intros [|b u]; cbn; try (split; [constructor|lia]).
  destruct (decide (cont b)); [|split; [constructor|cbn; lia]].
  specialize (IH u). destruct (run n u); cbn in *. destruct IH. split; [by constructor|lia].
Qed.

(** The run stops before its end only at a byte that does not continue. *)
Lemma run_stop n u b r : (length (fst (run n u)) < n)%nat -> snd (run n u) = b :: r -> ~ cont b.
Proof.
  revert u. induction n as [|n IH]; intros [|b' u]; cbn; try lia; [done|].
  destruct (decide (cont b')); [|intros _ E; by injection E as -> ->].
  specialize (IH u). destruct (run n u); cbn in *. intros. apply IH; [lia|done].
Qed.

Lemma run_all n ks r : Forall cont ks -> length ks = n -> run n (ks ++ r) = (ks, r).
Proof.
  intros Hk <-. induction Hk as [|b ks Hb _ IH]; cbn; [by destruct r|].
  rewrite decide_True by done. by rewrite IH.
Qed.

Lemma pow64_S n : 64 ^ Z.of_nat (S n) = 64 ^ Z.of_nat n * 64.
Proof. rewrite Nat2Z.inj_succ, Z.pow_succ_r by lia. lia. Qed.

Lemma value_tails n c : 0 <= c -> value (c / 64 ^ Z.of_nat n) (tails n c) = c.
Proof.
  intros Hc. induction n as [|n IH]; [apply Z.div_1_r|]. unfold value in *. cbn [tails foldl].
  etrans; [|exact IH]. f_equal.
  rewrite pow64_S, <- Z.div_div by lia.
  generalize (c / 64 ^ Z.of_nat n). intros x. div_lia.
Qed.

Lemma value_inv n w ks :
  0 <= w -> Forall cont ks -> length ks = n ->
  w = value w ks / 64 ^ Z.of_nat n /\ ks = tails n (value w ks).
Proof.
  intros Hw Hk <-. revert w Hw. induction Hk as [|b ks Hb _ IH]; intros w Hw; [cbn; by rewrite Z.div_1_r|].
  unfold value in *. cbn [foldl length tails]. pose proof (Z.mod_pos_bound b 64).
  destruct (IH (w * 64 + b mod 64)) as [H1 H2]; [lia|]. split.
  - rewrite pow64_S, <- Z.div_div by lia. rewrite <- H1. div_lia.
  - rewrite <- H1, <- H2. f_equal. unfold cont in Hb. div_lia.
Qed.

Lemma value_bounds w ks : 0 <= w -> w * 64 ^ Z.of_nat (length ks) <= value w ks < (w + 1) * 64 ^ Z.of_nat (length ks).
Proof.
  revert w. induction ks as [|b ks IH]; intros w Hw; cbn [length]; [cbn; lia|].
  unfold value in *. cbn [foldl]. pose proof (Z.mod_pos_bound b 64).
  specialize (IH (w * 64 + b mod 64)). rewrite pow64_S. nia.
Qed.

Lemma width_least n v :
  (2 <= n <= 6)%nat -> least n <= v < 2 ^ (7 - Z.of_nat n) * 64 ^ Z.of_nat (n - 1) -> width v = n.
Proof.
  intros Hn. assert (n = 2 \/ n = 3 \/ n = 4 \/ n = 5 \/ n = 6)%nat as [-> | [-> | [-> | [-> | ->]]]] by lia.
  all: cbn [least Nat.sub]; pow64; intros Hv; unfold width, unichar_head.
  all: repeat match goal with |- context [?a <? ?b] => destruct (Z.ltb_spec a b) end; cbn [snd]; lia.
Qed.

Lemma lead_range l :
  in_u 8 l -> (2 <= lead_len l)%nat -> 0 <= l - marker (lead_len l) < 2 ^ (7 - Z.of_nat (lead_len l)).
Proof.
  unfold in_u, lead_len.
  repeat match goal with |- context [?a <? ?b] => destruct (Z.ltb_spec a b) end; cbn; lia.
Qed.

Lemma lead_room l :
  in_u 8 l -> (2 <= lead_len l)%nat ->
  0 <= l - marker (lead_len l) /\ (l - marker (lead_len l) + 1) * 64 ^ Z.of_nat (lead_len l - 1) <= 2 ^ 31.
Proof.
  intros Hl H2. pose proof (lead_range l Hl H2) as H. split; [lia|]. revert H. clear. unfold lead_len.
  repeat match goal with |- context [?a <? ?b] => destruct (Z.ltb_spec a b) end;
    cbn [marker Nat.sub]; pow64; cbn [Z.of_nat Pos.of_succ_nat Pos.succ Z.sub Z.opp Z.add]; lia.
Qed.

(** What a first byte and its continuation bytes encode *)
Lemma encode_value l ks :
  in_u 8 l -> (2 <= lead_len l)%nat -> Forall cont ks -> S (length ks) = lead_len l ->
  let v := value (l - marker (lead_len l)) ks in
  0 <= v < 2 ^ 31 /\ (least (lead_len l) <= v -> encode v = l :: ks).
Proof.
  intros Hl H2 Hk Hn. cbv zeta. set (n := lead_len l) in *.
  pose proof (lead_range l Hl H2) as Hw. fold n in Hw.
  pose proof (value_bounds (l - marker n) ks ltac:(lia)) as Hv.
  destruct (value_inv (length ks) (l - marker n) ks) as [Hd Ht]; [lia|done|done|].
  set (v := value _ ks) in *.
  assert (2 <= n <= 6)%nat by (subst n; unfold lead_len in *; repeat case_match; lia).
  assert (Hr : 0 <= v < 2 ^ (7 - Z.of_nat n) * 64 ^ Z.of_nat (n - 1)).
  { replace (length ks) with (n - 1)%nat in Hv by lia. nia. }
  assert (Hle : 2 ^ (7 - Z.of_nat n) * 64 ^ Z.of_nat (n - 1) <= 2 ^ 31).
  { clear -H. clearbody n. destruct n as [|[|[|[|[|[|[|]]]]]]]; try lia; by vm_compute. }
  split; [lia|]. intros Hmin. assert (Hwd : width v = n) by (apply width_least; lia).
  rewrite encode_shape, Hwd by lia. replace (n - 1)%nat with (length ks) by lia.
  rewrite <- Ht. f_equal. rewrite <- Hd. lia.
Qed.

(** * Decoding any bytes *)

Lemma lead_len_le l : (lead_len l <= 6)%nat.
Proof. unfold lead_len. repeat case_match; lia. Qed.

Lemma place_tail s p b u : place s p (b :: u) -> place s (p + 1) u.
Proof. apply (place_step s p [b] u). Qed.

Lemma get_char_rest_run s p n i wc min_code u :
  place s (p + i) u -> bytes u -> 0 <= wc -> (wc + 1) * 64 ^ Z.of_nat n <= 2 ^ 32 ->
  get_char_rest s p n i wc min_code =
  let (ks, r) := run n u in
  if decide (length ks = n) then Some (if value wc ks <? min_code then malformed_sequence else value wc ks)
  else match r with b :: _ => Some (if b =? 0 then partial_sequence else malformed_sequence) | [] => None end.
Proof.
  revert i wc u. induction n as [|n IH]; intros i wc u Hu Hb Hwc Hmax; [by destruct u|].
  cbn [get_char_rest]. rewrite (place_rd0 _ _ _ Hu). destruct u as [|b u]; [done|]. cbn [head mbind option_bind run].
  apply Forall_cons in Hb as [Hb Hbs]. rewrite cont_test by done.
  destruct (decide (cont b)) as [Hc|Hc].
  - rewrite bool_decide_true by done. cbn [negb]. apply place_tail in Hu. rewrite <- Z.add_assoc in Hu.
    rewrite pow64_S in Hmax. pose proof (Z.pow_pos_nonneg 64 (Z.of_nat n)). pose proof (Z.mod_pos_bound b 64).
    rewrite push_byte by nia. rewrite (IH _ _ u) by (done || nia).
    destruct (run n u) as [ks r]. cbn [length].
    destruct (decide (length ks = n)); [rewrite (decide_True (P := S _ = _)) by lia; done|].
    by rewrite decide_False by lia.
  - rewrite bool_decide_false by done. cbn. by destruct (Z.eqb_spec b 0).
Qed.

Lemma get_char_cut_run s p n i u :
  place s (p + i) u -> bytes u ->
  get_char_cut s p n i =
  let (ks, r) := run n u in
  if decide (length ks = n) then Some partial_sequence
  else match r with _ :: _ => Some malformed_sequence | [] => None end.
Proof.
  revert i u. induction n as [|n IH]; intros i u Hu Hb; [by destruct u|].
  cbn [get_char_cut]. rewrite (place_rd0 _ _ _ Hu). destruct u as [|b u]; [done|]. cbn [head mbind option_bind run].
  apply Forall_cons in Hb as [Hb Hbs]. rewrite cont_test by done.
  destruct (decide (cont b)) as [Hc|Hc].
  - rewrite bool_decide_true by done. cbn [negb]. apply place_tail in Hu. rewrite <- Z.add_assoc in Hu.
    rewrite (IH _ u) by done. destruct (run n u) as [ks r]. cbn [length].
    destruct (decide (length ks = n)); [rewrite (decide_True (P := S _ = _)) by lia; done|].
    by rewrite decide_False by lia.
  - by rewrite bool_decide_false by done.
Qed.

Lemma lead_bits l :
  in_u 8 l ->
  (0xc0 <= l < 0xe0 -> l .& 0x1f = l - 0xc0) /\ (0xe0 <= l < 0xf0 -> l .& 0x0f = l - 0xe0) /\
  (0xf0 <= l < 0xf8 -> l .& 0x07 = l - 0xf0) /\ (0xf8 <= l < 0xfc -> l .& 0x03 = l - 0xf8) /\
  (0xfc <= l < 0xfe -> l .& 0x01 = l - 0xfc).
Proof.
  intros _. pose proof (Z.land_ones l 5) as H5. pose proof (Z.land_ones l 4) as H4.
  pose proof (Z.land_ones l 3) as H3. pose proof (Z.land_ones l 2) as H2. pose proof (Z.land_ones l 1) as H1.
  change (Z.ones 5) with 0x1f in H5. change (Z.ones 4) with 0x0f in H4. change (Z.ones 3) with 7 in H3.
  change (Z.ones 2) with 3 in H2. change (Z.ones 1) with 1 in H1.
  rewrite H5, H4, H3, H2, H1 by lia. clear. repeat split; intros; div_lia.
Qed.

(** The cases of the first byte *)
Lemma get_char_extended_lead s p m l u :
  place s p (l :: u) -> in_u 8 l ->
  g_utf8_get_char_extended s p m =
  match lead_len l with
  | O => Some malformed_sequence
  | 1%nat => Some l
  | n => if decide (0 <= m < Z.of_nat n) then get_char_cut s p (Z.to_nat (m - 1)) 1
         else get_char_rest s p (n - 1) 1 (l - marker n) (least n)
  end.
Proof.
  intros Hp Hl. unfold g_utf8_get_char_extended. rewrite (place_rd0 _ _ _ Hp). cbn [head mbind option_bind].
  assert (Hif : forall (A : Type) n (x y : A),
    (if (0 <=? m) && (m <? n) then x else y) = if decide (0 <= m < n) then x else y).
  { intros. destruct (Z.leb_spec 0 m), (Z.ltb_spec m n); cbn; [rewrite decide_True|rewrite decide_False..]; done || lia. }
  destruct (lead_bits l Hl) as (H2 & H3 & H4 & H5 & H6). rewrite !Hif. clear Hif. unfold lead_len.
  destruct (Z.ltb_spec l 0x80); [done|]. destruct (Z.ltb_spec l 0xc0); [done|].
  destruct (Z.ltb_spec l 0xe0); [by rewrite H2 by lia|].
  destruct (Z.ltb_spec l 0xf0); [by rewrite H3 by lia|].
  destruct (Z.ltb_spec l 0xf8); [by rewrite H4 by lia|].
  destruct (Z.ltb_spec l 0xfc); [by rewrite H5 by lia|].
  destruct (Z.ltb_spec l 0xfe); [by rewrite H6 by lia|done].
Qed.

(** The answer in terms of the run of continuation bytes *)
Lemma get_char_extended_run s p m l u :
  place s p (l :: u) -> in_u 8 l -> bytes u ->
  g_utf8_get_char_extended s p m =
  match lead_len l with
  | O => Some malformed_sequence
  | 1%nat => Some l
  | n =>
      if decide (0 <= m < Z.of_nat n) then
        let (ks, r) := run (Z.to_nat (m - 1)) u in
        if decide (length ks = Z.to_nat (m - 1)) then Some partial_sequence
        else match r with _ :: _ => Some malformed_sequence | [] => None end
      else
        let (ks, r) := run (n - 1) u in
        if decide (length ks = n - 1)%nat then
          Some (if value (l - marker n) ks <? least n then malformed_sequence else value (l - marker n) ks)
        else match r with b :: _ => Some (if b =? 0 then partial_sequence else malformed_sequence) | [] => None end
  end.
Proof.
  intros Hp Hl Hu. rewrite (get_char_extended_lead _ _ _ _ _ Hp Hl). apply place_tail in Hp.
  pose proof (lead_room l Hl) as Hr. destruct (lead_len l) as [|[|n]]; [done..|]. cbv zeta.
  destruct (decide (0 <= m < Z.of_nat (S (S n)))).
  { by rewrite (get_char_cut_run _ _ _ _ u) by done. }
  by rewrite (get_char_rest_run _ _ _ _ _ _ u) by (done || lia).
Qed.

(** What a call with the limit [m] may read: that many bytes, or a text with a
    terminator. *)
Definition readable (t : list Z) (m : Z) : Prop :=
  0 < m <= Z.of_nat (length t) \/ 0 ∈ t /\ (m < 0 \/ 6 <= m).

(** The character [c] is next, within the limit. *)
Definition char_at (t : list Z) (m c : Z) : Prop :=
  0 <= c < 2 ^ 31 /\ encode c `prefix_of` t /\ (0 <= m -> Z.of_nat (length (encode c)) <= m).

(** A sequence is next that the limit or the terminator cuts off. *)
Definition partial_at (t : list Z) (m : Z) : Prop :=
  exists l ks r, t = l :: ks ++ r /\ Forall cont ks /\ (S (length ks) < lead_len l)%nat /\
    (m = Z.of_nat (S (length ks)) \/ head r = Some 0 /\ (0 <= m -> Z.of_nat (lead_len l) <= m)).

(** [cut]: the limit ends before the sequence does. *)
Lemma char_at_inv t m c :
  char_at t m c ->
  exists l ks r, t = l :: ks ++ r /\ Forall cont ks /\ lead_len l = S (length ks) /\ width c = S (length ks) /\
    in_u 8 l /\ l - marker (width c) = c / 64 ^ Z.of_nat (length ks) /\ ks = tails (length ks) c /\ 0 <= c < 2 ^ 31 /\
    (0 <= m -> Z.of_nat (S (length ks)) <= m).
Proof.
  intros (Hc & [r ->] & Hm). pose proof (lead_len_encode c Hc) as [Hl Hn]. pose proof (width_bounds c).
  rewrite encode_length in Hm by done. rewrite encode_shape by done. cbn [app].
  exists (marker (width c) + c / 64 ^ Z.of_nat (width c - 1)), (tails (width c - 1) c), r.
  rewrite tails_length, Hn. replace (S (width c - 1)) with (width c) by lia.
  split_and!; try done; [apply tails_cont|lia|lia|lia].
Qed.

Lemma least_width c : 0 <= c < 2 ^ 31 -> least (width c) <= c.
Proof. intros Hc. widths c Hc; lia. Qed.

(** A character that is next is what the call answers. *)
Lemma get_char_extended_char s p t m c :
  place s p t -> bytes t -> char_at t m c -> g_utf8_get_char_extended s p m = Some c.
Proof.
  intros Hp Hb Hc. destruct (char_at_inv _ _ _ Hc) as (l & ks & r & -> & Hk & Hn & Hw & Hl & Hv & Ht & Hr & Hm).
  apply Forall_cons in Hb as [_ Hb]. rewrite (get_char_extended_run _ _ _ _ _ Hp Hl Hb), Hn.
  destruct (decide (length ks = 0)%nat) as [E|E].
  { rewrite Hw, E, Z.div_1_r in Hv. cbn in Hv. rewrite E. f_equal. lia. }
  destruct (length ks) as [|n] eqn:En; [done|].
  rewrite decide_False by lia. rewrite <- En, Nat.sub_succ, Nat.sub_0_r, run_all, decide_True by done.
  rewrite En, <- Hw, Hv, Ht, value_tails by lia. pose proof (least_width c Hr).
  by destruct (Z.ltb_spec c (least (width c))); [lia|].
Qed.

Lemma run_short n ks b r : Forall cont ks -> (length ks < n)%nat -> ~ cont b -> run n (ks ++ b :: r) = (ks, b :: r).
Proof.
  intros Hk. revert n. induction Hk as [|k ks Hc _ IH]; intros [|n] Hn Hb; cbn in *; try lia.
  - by rewrite decide_False.
  - rewrite decide_True by done. by rewrite IH by (done || lia).
Qed.

Lemma get_char_extended_partial s p t m :
  place s p t -> bytes t -> partial_at t m -> g_utf8_get_char_extended s p m = Some partial_sequence.
Proof.
  intros Hp Hb (l & ks & r & -> & Hk & Hn & Hm).
  apply Forall_cons in Hb as [Hl Hb]. rewrite (get_char_extended_run _ _ _ _ _ Hp Hl Hb).
  destruct (lead_len l) as [|[|n]] eqn:El; [lia..|]. cbv zeta. destruct Hm as [-> | [Hr Hm]].
  - rewrite decide_True by lia. replace (Z.to_nat _) with (length ks) by lia. by rewrite run_all, decide_True.
  - rewrite decide_False by lia. destruct r as [|b r]; [done|]. injection Hr as ->.
    rewrite run_short by (done || lia || (unfold cont; lia)). by rewrite decide_False by lia.
Qed.

(** Any readable place has one of three answers. *)
Lemma get_char_extended_answer s p t m :
  place s p t -> bytes t -> readable t m ->
  exists r, g_utf8_get_char_extended s p m = Some r /\
    (char_at t m r \/ r = partial_sequence /\ partial_at t m \/ r = malformed_sequence).
Proof.
  intros Hp Hb Hr. destruct t as [|l u].
  { destruct Hr as [? | [H _]]; [cbn in *; lia|by apply elem_of_nil in H]. }
  apply Forall_cons in Hb as [Hl Hb]. rewrite (get_char_extended_run _ _ _ _ _ Hp Hl Hb).
  pose proof (lead_len_le l). destruct (lead_len l) as [|[|n]] eqn:El; cbv zeta; [by eauto| |].
  { exists l. split; [done|]. left. assert (l < 0x80) by (unfold lead_len in El; repeat case_match; lia).
    unfold in_u in Hl. split; [lia|]. unfold encode. destruct (Z.ltb_spec l 128); [|lia].
    split; [by exists u|]. cbn. intros. destruct Hr as [? | [? ?]]; lia. }
  destruct (decide (0 <= m < Z.of_nat (S (S n)))) as [Hm|Hm].
  - assert (Hlen : m <= Z.of_nat (length (l :: u)) /\ 0 < m) by (destruct Hr as [? | [? ?]]; lia).
    pose proof (run_app (Z.to_nat (m - 1)) u) as Hu. pose proof (run_cont (Z.to_nat (m - 1)) u) as [Hk Hkl].
    destruct (run _ u) as [ks r]. cbn [fst snd length] in *. case_decide.
    + eexists; split; [done|]. right; left. split; [done|]. exists l, ks, r. rewrite El.
      split_and!; [by f_equal|done|lia|left; lia].
    + destruct r as [|b r]; [|by eauto]. apply (f_equal length) in Hu. rewrite length_app in Hu. cbn in Hu. lia.
  - pose proof (run_app (S (S n) - 1) u) as Hu. pose proof (run_cont (S (S n) - 1) u) as [Hk Hkl].
    destruct (run _ u) as [ks r]. cbn [fst snd length] in *. case_decide as Hfull.
    + pose proof (encode_value l ks Hl) as He. rewrite El in He. destruct He as [Hv He]; [lia|done|lia|].
      destruct (Z.ltb_spec (value (l - marker (S (S n))) ks) (least (S (S n)))); [by eauto|].
      eexists; split; [done|]. left. split; [done|]. rewrite He by done. split; [exists r; by rewrite Hu|].
      cbn [length]. lia.
    + destruct r as [|b r].
      { exfalso. rewrite app_nil_r in Hu. subst u. destruct Hr as [? | [Hz _]]; [cbn in *; lia|].
        apply elem_of_cons in Hz as [<- | Hz]; [done|]. rewrite Forall_forall in Hk. apply Hk in Hz. unfold cont in Hz. lia. }
      eexists; split; [done|]. destruct (Z.eqb_spec b 0) as [->|]; [|by eauto]. right; left. split; [done|].
      exists l, ks, (0 :: r). rewrite El. split_and!; [by f_equal|done|lia|]. right. split; [done|lia].
Qed.

Lemma error_values : partial_sequence = 2 ^ 32 - 2 /\ malformed_sequence = 2 ^ 32 - 1.
Proof. done. Qed.

(** The exact answer: a character of up to 31 bits is answered if and only if
    its bytes are next, within the limit; [partial_sequence] if and only if the
    limit or the terminator cuts a sequence off; otherwise
    [malformed_sequence]. *)
Lemma get_char_extended_exact s p t m :
  place s p t -> bytes t -> readable t m ->
  exists r, g_utf8_get_char_extended s p m = Some r /\
    (0 <= r < 2 ^ 31 \/ r = partial_sequence \/ r = malformed_sequence) /\
    (forall c, 0 <= c < 2 ^ 31 -> r = c <-> char_at t m c) /\ (r = partial_sequence <-> partial_at t m).
Proof.
  intros Hp Hb Hr. destruct (get_char_extended_answer s p t m Hp Hb Hr) as (r & Hres & Hcase).
  destruct error_values as [Ep Em]. exists r. split_and!; [done| | |].
  - destruct Hcase as [[? _] | [[? _] | ?]]; auto.
  - intros c Hc. split.
    + intros ->. destruct Hcase as [? | [[? _] | ?]]; [done|lia|lia].
    + intros H. apply (get_char_extended_char s p t) in H; [|done|done]. congruence.
  - split.
    + intros ->. destruct Hcase as [[? _] | [[_ ?] | ?]]; [lia|done|lia].
    + intros H. apply (get_char_extended_partial s p t) in H; [|done|done]. congruence.
Qed.

(** Encoded characters are a prefix code. *)
Lemma encode_bytes c : 0 <= c < 2 ^ 31 -> bytes (encode c).
Proof.
  intros Hc. rewrite encode_shape by done. constructor; [by apply lead_len_encode|].
  eapply Forall_impl; [apply tails_cont|]. unfold cont, in_u. lia.
Qed.

Lemma encode_prefix_inj c c' t :
  0 <= c < 2 ^ 31 -> 0 <= c' < 2 ^ 31 -> encode c `prefix_of` t -> encode c' `prefix_of` t -> c = c'.
Proof.
  intros Hc Hc' H H'.
  assert (forall c1 c2, 0 <= c1 < 2 ^ 31 -> 0 <= c2 < 2 ^ 31 ->
    encode c1 `prefix_of` encode c2 -> c1 = c2) as Hin.
  { intros c1 c2 H1 H2 Hp.
    pose proof (get_char_extended_char _ 0 (encode c2) (-1) c1 (place_app [] _) (encode_bytes c2 H2)) as E1.
    pose proof (get_char_extended_char _ 0 (encode c2) (-1) c2 (place_app [] _) (encode_bytes c2 H2)) as E2.
    rewrite E1 in E2; [injection E2 as ->; done|..]; (split; [done|split; [done || reflexivity|lia]]). }
  destruct (prefix_weak_total _ _ _ H H') as [?|?]; [by apply Hin|symmetry; by apply Hin].
Qed.
