(* ===== verification/Utf8Valid.v ===== *)
(** Validation and the one-character functions of gutf8.c are exact: the
    grammar of RFC 3629, the encoder, and the longest valid prefix. *)
From S2P Require Import Prelude Utf8 Utf8Char.

Open Scope c_scope.

(** * The grammar of RFC 3629, section 4 *)

(** The sequences, with a first byte and its continuation bytes; the terminator
    is left out. *)
Definition rfc3629 (l : Z) (ks : list Z) : Prop :=
  match ks with
  | [] => 0 < l < 0x80
  | [b1] => 0xc2 <= l < 0xe0 /\ cont b1
  | [b1; b2] =>
      0xe0 <= l < 0xf0 /\
      (if decide (l = 0xe0) then 0xa0 <= b1 < 0xc0
       else if decide (l = 0xed) then 0x80 <= b1 < 0xa0 else cont b1) /\ cont b2
  | [b1; b2; b3] =>
      0xf0 <= l < 0xf5 /\
      (if decide (l = 0xf0) then 0x90 <= b1 < 0xc0
       else if decide (l = 0xf4) then 0x80 <= b1 < 0x90 else cont b1) /\ cont b2 /\ cont b3
  | _ => False
  end.

Lemma scalar_range c : scalar c -> 0 <= c < 2 ^ 31.
Proof. unfold scalar. lia. Qed.

(** The grammar derives the encodings of the scalar values. *)
Lemma rfc3629_sound c l ks : text_char c -> encode c = l :: ks -> rfc3629 l ks.
Proof.
  intros [Hc Hz] He. pose proof (scalar_range c Hc) as Hr. unfold scalar in Hc. revert He. unfold encode.
  change (2 ^ 6) with 64. change (2 ^ 12) with 4096. change (2 ^ 18) with 262144.
  repeat match goal with |- context [c <? ?b] => destruct (Z.ltb_spec c b) end; try lia;
    intros [= <- <-]; cbn [rfc3629]; unfold cont; repeat case_decide; div_lia.
Qed.

Lemma rfc3629_complete l ks : rfc3629 l ks -> exists c, text_char c /\ encode c = l :: ks.
Proof.
  intros H. exists (value (l - marker (S (length ks))) ks). unfold text_char, scalar.
  destruct ks as [|b1 [|b2 [|b3 [|]]]]; cbn [rfc3629] in H; try done; cbn [value foldl length marker]; unfold cont in H;
    repeat case_decide; (split; [div_lia|]); unfold encode;
    change (2 ^ 6) with 64; change (2 ^ 12) with 4096; change (2 ^ 18) with 262144;
    repeat match goal with |- context [?c <? ?b] => destruct (Z.ltb_spec c b) end; try div_lia;
    repeat f_equal; div_lia.
Qed.

(** * The library's functions on a text *)

Lemma strncpy_bytes l r : Forall (fun x => x <> 0) l -> strncpy (l ++ r) (length l) = Some l.
Proof.
  induction 1 as [|x l Hx _ IH]; [by destruct r|]. cbn. apply Z.eqb_neq in Hx. rewrite Hx, IH. done.
Qed.

Lemma strlen_bytes s p l t :
  place s p (l ++ 0 :: t) -> Forall (fun x => x <> 0) l -> strlen s p = Some (Z.of_nat (length l)).
Proof.
  intros Hp Hl. unfold strlen. pose proof (place_length _ _ _ Hp) as Hlen. rewrite length_app in Hlen. cbn in Hlen.
  apply (iter_yields _ (fun q => exists done todo, l = done ++ todo /\ q = p + Z.of_nat (length done))
    (fun q => Z.to_nat (Z.of_nat (length s) - q))).
  - intros q (done & todo & E & ->). rewrite (place_rd _ _ _ _ Hp) by lia.
    assert (Hd : (length l = length done + length todo)%nat) by (rewrite E, length_app; done).
    assert (El : l ++ 0 :: t = done ++ todo ++ 0 :: t) by (by rewrite E, <- app_assoc).
    rewrite Nat2Z.id, El. destruct todo as [|x todo]; cbn [app]; rewrite lookup_app_mid; cbn [mbind option_bind].
    + eexists; split; [done|]. cbn in *. lia.
    + rewrite E, Forall_app, Forall_cons in Hl. destruct Hl as (_ & Hx & _). apply Z.eqb_neq in Hx. rewrite Hx.
      eexists; split; [done|]. cbn [length] in Hd. split; [|lia].
      exists (done ++ [x]), todo. split; [by rewrite <- app_assoc|rewrite length_app; cbn; lia].
  - exists [], l. split; [done|cbn; lia].
  - destruct Hp. lia.
Qed.

(** * One round of the validation *)

(** [n] bytes fit into the limit [m]; a negative one is no limit. *)
Definition fits (m n : Z) : Prop := m < 0 \/ n <= m.

(** What may be validated: within the buffer, or up to a terminator. *)
Definition bounded (t : list Z) (m : Z) : Prop := (0 <= m /\ m <= Z.of_nat (length t)) \/ (m < 0 /\ 0 ∈ t).

(** A well-formed sequence is next. *)
Definition valid_at (t : list Z) (m : Z) (l : Z) (ks : list Z) : Prop :=
  rfc3629 l ks /\ (l :: ks) `prefix_of` t /\ fits m (Z.of_nat (S (length ks))).

Lemma byte_tests b :
  in_u 8 b ->
  (b .& 0xe0 =? 0xa0) = bool_decide (0xa0 <= b < 0xc0) /\ (b .& 0xe0 =? 0x80) = bool_decide (0x80 <= b < 0xa0) /\
  (b .& 0xf0 =? 0x80) = bool_decide (0x80 <= b < 0x90) /\
  (cont b -> (b .& 0x30 =? 0) = bool_decide (b < 0x90)).
Proof.
  intros Hb. all_bytes b Hb (fun b =>
    Bool.eqb (b .& 0xe0 =? 0xa0) (bool_decide (0xa0 <= b < 0xc0)) &&
    Bool.eqb (b .& 0xe0 =? 0x80) (bool_decide (0x80 <= b < 0xa0)) &&
    Bool.eqb (b .& 0xf0 =? 0x80) (bool_decide (0x80 <= b < 0x90)) &&
    implb (bool_decide (cont b)) (Bool.eqb (b .& 0x30 =? 0) (bool_decide (b < 0x90)))).
  rewrite !andb_true_iff, !Bool.eqb_true_iff in H0. destruct H0 as [[[? ?] ?] H1]. split_and!; [done..|].
  intros Hc. rewrite bool_decide_true in H1 by done. cbn in H1. by apply Bool.eqb_prop.
Qed.

Lemma VALIDATE_BYTE_at s last p b t mask e k (P : Prop) `{!Decision P} :
  place s p (b :: t) -> (b .& mask =? e) = bool_decide P ->
  VALIDATE_BYTE s last p mask e k = if decide P then k else Some (inr last).
Proof.
  intros Hp HP. unfold VALIDATE_BYTE. rewrite (place_rd0 _ _ _ Hp). cbn [head mbind option_bind]. rewrite HP.
  destruct (decide P); [rewrite bool_decide_true|rewrite bool_decide_false]; done.
Qed.

(** The second byte of a longer sequence is there to be read. *)
Lemma bounded_next t m b u : bounded (t ++ b :: u) m -> b <> 0 -> fits m (Z.of_nat (length t) + 2) ->
  Forall (fun x => x <> 0) t -> exists b' u', u = b' :: u'.
Proof.
  intros [[Hm Hl] | [Hm Hz]] Hb Hf Ht.
  - rewrite length_app in Hl. cbn in Hl. destruct u as [|b' u]; [cbn in *; unfold fits in Hf; lia|eauto].
  - rewrite elem_of_app, elem_of_cons in Hz. rewrite Forall_forall in Ht.
    destruct u as [|b' u]; [|eauto]. destruct Hz as [Hz|[Hz|Hz]]; [by apply Ht in Hz|done|by apply elem_of_nil in Hz].
Qed.

(** No well-formed sequence is next: by the cases of the grammar. *)
Ltac none :=
  let HG := fresh "HG" in let HF := fresh "HF" in let E := fresh "E" in let ks := fresh "ks" in
  eexists; split; [reflexivity|]; right; split; [done|];
  intros ? ks (HG & [? E] & HF); destruct ks as [|? [|? [|? [|]]]]; cbn in HG; try done; cbn in E;
  simplify_eq; repeat match goal with H : ?u = _ :: _, H' : ?u = _ |- _ => rewrite H in H'; simplify_eq end;
  unfold fits, cont in *; cbn in HF; repeat case_decide; lia.

Section step.
Context (room : Z -> Z -> bool) (s : list Z) (p m l : Z) (u : list Z).
Context (Hp : place s p (l :: u)) (Hl : in_u 8 l) (Hu : bytes u) (Hb : bounded (l :: u) m) (Hl0 : l <> 0).
Context (Hroom : forall n, 1 <= n -> room p n = true <-> fits m n).

(** What the round has to answer *)
Definition answered (a : option (Z + Z)) : Prop :=
  exists r, a = Some r /\
    ((exists l' ks, valid_at (l :: u) m l' ks /\ r = inl (p + Z.of_nat (S (length ks)))) \/
     (r = inr p /\ forall l' ks, ~ valid_at (l :: u) m l' ks)).

(** The test of one byte, behind [pre] *)
Lemma check_byte pre q mask e (P : Z -> Prop) `{!forall b, Decision (P b)} k :
  q = p + Z.of_nat (length pre) + 1 -> pre `prefix_of` u -> fits m (Z.of_nat (length pre) + 2) ->
  Forall (fun x => x <> 0) pre ->
  (forall b, in_u 8 b -> (pre ++ [b]) `prefix_of` u -> (b .& mask =? e) = bool_decide (P b)) ->
  (forall ks r, rfc3629 l ks -> u = ks ++ r -> exists b ks', ks = pre ++ b :: ks' /\ P b) ->
  (forall b u', u = pre ++ b :: u' -> P b -> answered k) ->
  answered (VALIDATE_BYTE s p q mask e k).
Proof.
  intros -> [u' Eu] Hf Hnz Htest Hg Hk. rewrite Eu in Hp, Hb, Hu.
  assert (exists b u'', u' = b :: u'') as (b & u'' & ->).
  { destruct pre as [|x pre] using rev_ind; [by apply (bounded_next [] m l u')|].
    rewrite <- app_assoc in Hb. rewrite Forall_app, Forall_singleton in Hnz. destruct Hnz.
    apply (bounded_next (l :: pre) m x u' Hb); [done| |by constructor].
    rewrite length_app in Hf. cbn in *. unfold fits in *. lia. }
  assert (Hq : place s (p + Z.of_nat (length pre) + 1) (b :: u'')).
  { replace (_ + 1) with (p + Z.of_nat (length (l :: pre))) by (cbn; lia). by apply place_step. }
  apply Forall_app in Hu as [_ Hu]. apply Forall_cons in Hu as [Hbb _].
  assert (Hpre : (pre ++ [b]) `prefix_of` u) by (exists u''; rewrite Eu; by rewrite <- app_assoc).
  rewrite (VALIDATE_BYTE_at _ _ _ _ _ _ _ _ _ Hq (Htest b Hbb Hpre)). destruct (decide (P b)) as [Hc|Hc]; [by eapply Hk|].
  eexists; split; [done|]. right. split; [done|]. intros l' ks (HG & [r E] & _). cbn in E. injection E as <- E.
  destruct (Hg ks r HG E) as (b' & ks' & -> & Hb'). rewrite Eu, <- app_assoc in E. apply app_inv_head in E.
  by injection E as <- _.
Qed.

(** The last byte of a sequence *)
Lemma last_byte pre q :
  q = p + Z.of_nat (length pre) + 1 -> pre `prefix_of` u -> fits m (Z.of_nat (length pre) + 2) ->
  Forall (fun x => x <> 0) pre ->
  (forall b, cont b -> rfc3629 l (pre ++ [b])) ->
  (forall ks r, rfc3629 l ks -> u = ks ++ r -> exists b ks', ks = pre ++ b :: ks' /\ cont b) ->
  answered (VALIDATE_BYTE s p q 0xc0 0x80 (Some (inl (q + 1)))).
Proof.
  intros -> Hpre Hf Hnz Hg Hg'. apply (check_byte pre _ _ _ cont); try done; [by intros; apply cont_test|].
  intros b u' Eu Hc. eexists; split; [done|]. left. exists l, (pre ++ [b]). split.
  - split; [by apply Hg|]. split; [exists u'; rewrite Eu; cbn; by rewrite <- app_assoc|].
    rewrite length_app. unfold fits in *. cbn. lia.
  - f_equal. rewrite length_app. cbn. lia.
Qed.

(** The cases of the first byte *)
Ltac grammar :=
  let ks := fresh "ks" in intros ks ? ? ?; destruct ks as [|? [|? [|? [|]]]]; cbn in *; try lia; simplify_eq;
  do 2 eexists; (split; [reflexivity|]); unfold cont in *; repeat case_decide; lia.

Ltac second_byte P tests :=
  apply (check_byte [] _ _ _ P);
    [cbn; lia|by exists u|unfold fits in *; cbn; lia|apply Forall_nil_2|by intros; apply tests|grammar|].

Lemma validate_two : 0x80 <= l < 0xe0 ->
  answered (if negb (room p 2) then Some (inr p) else if l <? 0xc2 then Some (inr p)
            else VALIDATE_BYTE s p (p + 1) 0xc0 0x80 (Some (inl (p + 1 + 1)))).
Proof.
  intros Hr. pose proof (Hroom 2 ltac:(lia)) as Hf. destruct (room p 2); cbn [negb]; [|none].
  destruct (Z.ltb_spec l 0xc2); [none|].
  apply (last_byte []); [cbn; lia|by exists u|by apply Hf|apply Forall_nil_2|intros; cbn; split; done || lia|grammar].
Qed.

Lemma validate_three : 0xe0 <= l < 0xf0 ->
  answered (if negb (room p 3) then Some (inr p)
            else
              let final := VALIDATE_BYTE s p (p + 1 + 1) 0xc0 0x80 (Some (inl (p + 1 + 1 + 1))) in
              if l .& 0x0f =? 0 then VALIDATE_BYTE s p (p + 1) 0xe0 0xa0 final
              else if l .& 0x0f =? 0x0d then VALIDATE_BYTE s p (p + 1) 0xe0 0x80 final
              else VALIDATE_BYTE s p (p + 1) 0xc0 0x80 final).
Proof.
  intros Hr. pose proof (Hroom 3 ltac:(lia)) as Hf. destruct (room p 3); cbn [negb]; [|none].
  destruct Hf as [Hf _]. specialize (Hf eq_refl). cbv zeta.
  assert (Hfin : forall b u', u = b :: u' ->
    (if decide (l = 0xe0) then 0xa0 <= b < 0xc0 else if decide (l = 0xed) then 0x80 <= b < 0xa0 else cont b) ->
    answered (VALIDATE_BYTE s p (p + 1 + 1) 0xc0 0x80 (Some (inl (p + 1 + 1 + 1))))).
  { intros b u' Eu Hc. apply (last_byte [b]); [cbn; lia|by exists u'|done| |intros; cbn; split_and!; done || lia|grammar].
    constructor; [|done]. unfold cont in Hc. repeat case_decide; lia. }
  destruct (lead_bits l Hl) as (_ & Hbits & _). rewrite Hbits by lia.
  destruct (Z.eqb_spec (l - 0xe0) 0); [|destruct (Z.eqb_spec (l - 0xe0) 0x0d)].
  - second_byte (fun b => 0xa0 <= b < 0xc0) byte_tests; intros b u' Eu Hc; apply (Hfin b u' Eu); repeat case_decide; done || lia.
  - second_byte (fun b => 0x80 <= b < 0xa0) byte_tests; intros b u' Eu Hc; apply (Hfin b u' Eu); repeat case_decide; done || lia.
  - second_byte cont cont_test; intros b u' Eu Hc; apply (Hfin b u' Eu); repeat case_decide; done || lia.
Qed.

Lemma validate_four : 0xf0 <= l < 0xf5 ->
  answered (if negb (room p 4) then Some (inr p)
            else
              let third := VALIDATE_BYTE s p (p + 1 + 1) 0xc0 0x80
                (VALIDATE_BYTE s p (p + 1 + 1 + 1) 0xc0 0x80 (Some (inl (p + 1 + 1 + 1 + 1)))) in
              if l .& 0x07 =? 0 then
                VALIDATE_BYTE s p (p + 1) 0xc0 0x80
                  (b ← rd s (p + 1); if b .& 0x30 =? 0 then Some (inr p) else third)
              else if l .& 0x07 =? 4 then VALIDATE_BYTE s p (p + 1) 0xf0 0x80 third
              else VALIDATE_BYTE s p (p + 1) 0xc0 0x80 third).
Proof.
  intros Hr. pose proof (Hroom 4 ltac:(lia)) as Hf. destruct (room p 4); cbn [negb]; [|none].
  destruct Hf as [Hf _]. specialize (Hf eq_refl). cbv zeta.
  assert (Hfin : forall b u', u = b :: u' ->
    (if decide (l = 0xf0) then 0x90 <= b < 0xc0 else if decide (l = 0xf4) then 0x80 <= b < 0x90 else cont b) ->
    answered (VALIDATE_BYTE s p (p + 1 + 1) 0xc0 0x80
      (VALIDATE_BYTE s p (p + 1 + 1 + 1) 0xc0 0x80 (Some (inl (p + 1 + 1 + 1 + 1)))))).
  { intros b u' Eu Hc. assert (b <> 0) by (unfold cont in Hc; repeat case_decide; lia).
    apply (check_byte [b] _ _ _ cont); [cbn; lia|by exists u'|unfold fits in *; cbn; lia|by repeat constructor| |grammar|].
    { intros. by apply cont_test. }
    intros b2 u2 Eu2 Hc2. apply (last_byte [b; b2]); [cbn; lia|by exists u2|done| |intros; cbn; split_and!; done || lia|grammar].
    unfold cont in Hc2. repeat constructor; lia. }
  destruct (lead_bits l Hl) as (_ & _ & Hbits & _). rewrite Hbits by lia.
  destruct (Z.eqb_spec (l - 0xf0) 0); [|destruct (Z.eqb_spec (l - 0xf0) 4)].
  - second_byte cont cont_test. intros b u' Eu Hc. cbn in Eu. pose proof Hp as Hq. apply place_tail in Hq. rewrite Eu in Hq.
    rewrite (place_rd0 _ _ _ Hq). cbn [head mbind option_bind app].
    assert (in_u 8 b) as Hin by (rewrite Eu in Hu; by apply Forall_cons in Hu as [? _]).
    destruct (byte_tests b Hin) as (_ & _ & _ & ->); [|done]. case_bool_decide.
    + none.
    + apply (Hfin b u' Eu). unfold cont in *. rewrite decide_True by lia. lia.
  - second_byte (fun b => 0x80 <= b < 0x90) byte_tests; intros b u' Eu Hc; apply (Hfin b u' Eu); repeat case_decide; done || lia.
  - second_byte cont cont_test; intros b u' Eu Hc; apply (Hfin b u' Eu); repeat case_decide; done || lia.
Qed.

(** The round is exact. *)
Lemma validate_step_lead : answered (validate_step room s p).
Proof.
  unfold validate_step. pose proof (Hroom 1 ltac:(lia)) as Hf. destruct (room p 1); cbn [negb]; [|none].
  destruct Hf as [Hf _]. specialize (Hf eq_refl). rewrite (place_rd0 _ _ _ Hp). cbn [head mbind option_bind].
  unfold in_u in Hl. destruct (Z.eqb_spec l 0); [done|].
  destruct (Z.ltb_spec l 128).
  { eexists; split; [done|]. left. exists l, []. split; [split; [cbn; lia|split; [by exists u|done]]|cbn; f_equal; lia]. }
  destruct (Z.ltb_spec l 0xe0); [apply validate_two; lia|].
  destruct (Z.ltb_spec l 0xf0); [apply validate_three; lia|].
  destruct (Z.ltb_spec l 0xf5); [apply validate_four; lia|none].
Qed.
End step.

(** A text character is next, within the limit. *)
Definition next_is (t : list Z) (m c : Z) : Prop :=
  text_char c /\ encode c `prefix_of` t /\ fits m (Z.of_nat (length (encode c))).

Lemma text_char_range c : text_char c -> 0 <= c < 2 ^ 31.
Proof. intros [? _]. by apply scalar_range. Qed.

Lemma next_is_valid_at t m c l ks : encode c = l :: ks -> next_is t m c -> valid_at t m l ks.
Proof.
  intros E (Hc & Hp & Hf). rewrite E in Hp, Hf. split; [by eapply rfc3629_sound|]. done.
Qed.

Lemma encode_cons c : exists l ks, encode c = l :: ks.
Proof. unfold encode. repeat case_match; eauto. Qed.

Lemma encode_length_pos c : 0 < Z.of_nat (length (encode c)) <= 6.
Proof. unfold encode. repeat case_match; cbn; lia. Qed.

(** A round steps over the next character or stops where none is. *)
Lemma validate_step_spec room s p m t :
  place s p t -> bytes t -> bounded t m -> (forall n, 1 <= n -> room p n = true <-> fits m n) ->
  exists r, validate_step room s p = Some r /\
    ((exists c, next_is t m c /\ r = inl (p + Z.of_nat (length (encode c)))) \/
     (r = inr p /\ forall c, ~ next_is t m c)).
Proof.
  intros Hp Ht Hb Hroom.
  assert (Hstop : (forall l ks, ~ valid_at t m l ks) -> forall c, ~ next_is t m c).
  { intros Hn c Hc. destruct (encode_cons c) as (l & ks & E). by eapply (Hn l ks), next_is_valid_at. }
  destruct t as [|l u]; [|destruct (decide (l = 0)) as [->|Hl0]].
  - exists (inr p). destruct Hb as [[? Hm] | [_ Hz]]; [|by apply elem_of_nil in Hz]. cbn in Hm.
    unfold validate_step. destruct (room p 1) eqn:E; [apply Hroom in E; unfold fits in E; lia|].
    split; [done|]. right. split; [done|]. apply Hstop. by intros l ks (_ & [r E'] & _).
  - exists (inr p). split.
    + unfold validate_step. destruct (room p 1); [|done]. cbn [negb]. by rewrite (place_rd0 _ _ _ Hp).
    + right. split; [done|]. apply Hstop. intros l ks (HG & [r E'] & _). injection E' as <- _.
      destruct ks as [|? [|? [|? [|]]]]; cbn in HG; lia.
  - apply Forall_cons in Ht as [Hl Hu].
    destruct (validate_step_lead room s p m l u Hp Hl Hu Hb Hl0 Hroom) as (r & Hr & [(l' & ks & Hv & ->) | [-> Hn]]).
    + eexists; split; [done|]. left. destruct Hv as (HG & Hpre & Hf).
      destruct (rfc3629_complete l' ks HG) as (c & Hc & E). exists c. unfold next_is. rewrite E. done.
    + eexists; split; [done|]. right. split; [done|]. by apply Hstop.
Qed.

(** * The whole validation *)

(** The limit that is left behind [k] bytes *)
Definition left_of (m k : Z) : Z := if m <? 0 then m else m - k.

Lemma encodes_app cs cs' : encodes (cs ++ cs') = encodes cs ++ encodes cs'.
Proof. apply bind_app. Qed.

Lemma fits_left m k n : fits m k -> 0 <= n -> fits (left_of m k) n <-> fits m (k + n).
Proof. unfold fits, left_of. intros. destruct (Z.ltb_spec m 0); lia. Qed.

(** If no character is next, every valid prefix is a prefix of the text before. *)
Lemma longest cs t m cs' :
  Forall text_char cs -> fits m (Z.of_nat (length (encodes cs))) ->
  (forall c, ~ next_is t (left_of m (Z.of_nat (length (encodes cs)))) c) ->
  Forall text_char cs' -> encodes cs' `prefix_of` encodes cs ++ t -> fits m (Z.of_nat (length (encodes cs'))) ->
  cs' `prefix_of` cs.
Proof.
  intros Hcs. revert m cs'. induction Hcs as [|c cs Hc _ IH]; intros m cs' Hf Hn Hcs' Hpre Hf'.
  - destruct cs' as [|c' cs']; [done|]. exfalso. apply Forall_cons in Hcs' as [Hc' _]. apply (Hn c'). cbn in *.
    split; [done|]. split; [etrans; [|exact Hpre]; by eexists|]. apply (fits_left _ _ _ Hf); [lia|].
    rewrite length_app in Hf'. unfold fits in *. lia.
  - destruct cs' as [|c' cs']; [apply prefix_nil|]. apply Forall_cons in Hcs' as [Hc' Hcs'].
    unfold encodes in *. cbn [mbind list_bind] in *. rewrite <- !app_assoc in Hpre.
    assert (c' = c) as ->.
    { apply (encode_prefix_inj _ _ (encode c ++ (cs ≫= encode) ++ t)); try by apply text_char_range.
      - etrans; [|exact Hpre]. by eexists. - by eexists. }
    apply prefix_app_inv in Hpre. apply prefix_cons. rewrite length_app in *.
    assert (Hfc : fits m (Z.of_nat (length (encode c)))) by (unfold fits in *; lia).
    apply (IH (left_of m (Z.of_nat (length (encode c))))); try done.
    + apply (fits_left _ _ _ Hfc); [lia|]. unfold fits in *. lia.
    + intros c0. replace (left_of _ _) with (left_of m (Z.of_nat (length (encode c) + length (cs ≫= encode)))); [apply Hn|].
      unfold left_of. repeat match goal with |- context [?a <? ?b] => destruct (Z.ltb_spec a b) end; unfold fits in *; lia.
    + apply (fits_left _ _ _ Hfc); [lia|]. unfold fits in *. lia.
Qed.

Lemma bounded_left t m u : bounded (u ++ t) m -> fits m (Z.of_nat (length u)) -> Forall (fun x => x <> 0) u ->
  bounded t (left_of m (Z.of_nat (length u))).
Proof.
  unfold bounded, fits, left_of. intros Hb Hf Hnz. rewrite length_app, elem_of_app, Forall_forall in *.
  destruct (Z.ltb_spec m 0); [|lia]. right. split; [done|]. destruct Hb as [|[_ [Hz|Hz]]]; [lia|by apply Hnz in Hz|done].
Qed.

Lemma encode_nonzero c : 0 < c < 2 ^ 31 -> Forall (fun x => x <> 0) (encode c).
Proof.
  intros Hc. rewrite encode_shape by lia. pose proof (lead_len_encode c ltac:(lia)) as [_ Hl].
  constructor; [|eapply Forall_impl; [apply tails_cont|unfold cont; lia]].
  intros E. rewrite E in Hl. cbn in Hl. rewrite <- Hl in E. cbn in E. rewrite Z.div_1_r in E. lia.
Qed.

Lemma encodes_nonzero cs : Forall (fun c => 0 < c < 2 ^ 31) cs -> Forall (fun x => x <> 0) (encodes cs).
Proof. intros H. apply Forall_bind. eapply Forall_impl; [exact H|]. apply encode_nonzero. Qed.

Lemma text_char_pos c : text_char c -> 0 < c < 2 ^ 31.
Proof. intros Hc. pose proof (text_char_range c Hc). destruct Hc. lia. Qed.

(** The text of valid characters in front of [t'] is the longest valid prefix of
    [t] within the limit. *)
Definition longest_valid (t : list Z) (m : Z) (cs t' : list Z) : Prop :=
  t = encodes cs ++ t' /\ Forall text_char cs /\ fits m (Z.of_nat (length (encodes cs))) /\
  forall c, ~ next_is t' (left_of m (Z.of_nat (length (encodes cs)))) c.

Lemma validate_loop room s str t m :
  place s str t -> bytes t -> bounded t m ->
  (forall p n, 1 <= n -> fits m (p - str) -> room p n = true <-> fits m (p - str + n)) ->
  exists p, iter (S (length s)) (validate_step room s) str = Some p /\
    exists cs t', longest_valid t m cs t' /\ place s p t' /\ p = str + Z.of_nat (length (encodes cs)).
Proof.
  intros Hp Hbt Hb Hroom.
  apply (iter_total _ (fun p => exists cs t', t = encodes cs ++ t' /\ Forall text_char cs /\
    fits m (Z.of_nat (length (encodes cs))) /\ place s p t' /\ p = str + Z.of_nat (length (encodes cs)))
    (fun p => Z.to_nat (Z.of_nat (length s) - p))).
  - intros p (cs & t' & Et & Hcs & Hf & Hp' & Ep). set (k := Z.of_nat (length (encodes cs))) in *.
    destruct (validate_step_spec room s p (left_of m k) t') as (r & Hr & Hcase); [done| | | |].
    { rewrite Et in Hbt. by apply Forall_app in Hbt as [_ ?]. }
    { apply bounded_left; [by rewrite <- Et|done|]. apply encodes_nonzero.
      eapply Forall_impl; [exact Hcs|apply text_char_pos]. }
    { intros n Hn. replace k with (p - str) in * by lia. rewrite (Hroom p n) by done.
      symmetry. apply fits_left; [done|lia]. }
    exists r. split; [done|]. destruct Hcase as [(c & (Hc & [t2 E2] & Hfc) & ->) | [-> Hn]].
    + split.
      * exists (cs ++ [c]), t2. rewrite encodes_app, Forall_app, Forall_singleton, length_app. cbn. rewrite app_nil_r.
        split_and!; [by rewrite Et, E2, app_assoc|done|done| |apply place_step; by rewrite <- E2|lia].
        apply fits_left in Hfc; [|done|lia]. by rewrite Nat2Z.inj_add.
      * destruct (encode_cons c) as (l & ks & Ec). apply place_length in Hp'. rewrite E2, length_app, Ec in Hp'.
        rewrite Ec. cbn in *. lia.
    + by exists cs, t'.
  - exists [], t. cbn. split_and!; try done; [|lia]. destruct Hb as [[? ?] | [? ?]]; unfold fits; lia.
  - destruct Hp. lia.
Qed.

(** Nothing that is valid ends later than the longest valid prefix. *)
Lemma longest_valid_max t m cs t' cs' :
  longest_valid t m cs t' -> Forall text_char cs' -> encodes cs' `prefix_of` t ->
  fits m (Z.of_nat (length (encodes cs'))) -> cs' `prefix_of` cs.
Proof. intros (-> & Hcs & Hf & Hn) ???. by eapply longest. Qed.

Lemma validate_runs s str t m :
  place s str t -> bytes t -> bounded t m ->
  exists cs t', longest_valid t m cs t' /\ place s (str + Z.of_nat (length (encodes cs))) t' /\
    g_utf8_validate s str m =
      Some (if m <? 0 then bool_decide (head t' = Some 0) else bool_decide (Z.of_nat (length (encodes cs)) = m),
            str + Z.of_nat (length (encodes cs))).
Proof.
  intros Hp Hbt Hb. unfold g_utf8_validate. destruct (Z.ltb_spec m 0) as [Hm|Hm].
  - destruct (validate_loop (fun _ _ => true) s str t m Hp Hbt Hb) as (p & Hi & cs & t' & Hl & Hp' & ->).
    { intros. unfold fits. split; [lia|done]. }
    exists cs, t'. split; [done|]. split; [done|]. unfold fast_validate. rewrite Hi. cbn [mbind option_bind].
    destruct (Z.leb_spec 0 m); [lia|]. rewrite (place_rd0 _ _ _ Hp').
    destruct Hl as (-> & Hcs & _). destruct Hb as [|[_ Hz]]; [lia|].
    destruct t' as [|b t'].
    { rewrite app_nil_r in Hz. assert (Hnz : Forall (fun x => x <> 0) (encodes cs)).
      { apply encodes_nonzero. eapply Forall_impl; [exact Hcs|apply text_char_pos]. }
      rewrite Forall_forall in Hnz. by apply Hnz in Hz. }
    cbn. rewrite negb_involutive. repeat f_equal. destruct (Z.eqb_spec b 0); [subst; by rewrite bool_decide_true|].
    rewrite bool_decide_false; [done|congruence].
  - destruct (validate_loop (fun p n => n <=? m - (p - str)) s str t m Hp Hbt Hb) as (p & Hi & cs & t' & Hl & Hp' & ->).
    { intros. unfold fits. rewrite Z.leb_le. lia. }
    exists cs, t'. split; [done|]. split; [done|]. unfold fast_validate_len. rewrite Hi. cbn [mbind option_bind].
    destruct (Z.leb_spec 0 m); [|lia]. cbn [mbind option_bind]. rewrite negb_involutive. do 2 f_equal.
    destruct (Z.eqb_spec (str + Z.of_nat (length (encodes cs))) (str + m));
      [rewrite bool_decide_true|rewrite bool_decide_false]; done || lia.
Qed.

(** C14: [g_utf8_validate] is exact for any bytes, with a limit or up to a
    terminator: it never reads outside them, its end is the end of the longest
    prefix that encodes a text of Unicode scalar values without terminator (any
    other such prefix is a prefix of it), and it answers true if and only if
    that is all there is up to the limit or the terminator. *)
Theorem validate_exact s str t m :
  place s str t -> bytes t -> bounded t m ->
  exists ok cs t', g_utf8_validate s str m = Some (ok, str + Z.of_nat (length (encodes cs))) /\
    t = encodes cs ++ t' /\ Forall text_char cs /\ fits m (Z.of_nat (length (encodes cs))) /\
    (forall cs', Forall text_char cs' -> encodes cs' `prefix_of` t -> fits m (Z.of_nat (length (encodes cs'))) ->
       cs' `prefix_of` cs) /\
    (ok = true <-> if decide (m < 0) then head t' = Some 0 else Z.of_nat (length (encodes cs)) = m).
Proof.
  intros Hp Hbt Hb. destruct (validate_runs s str t m Hp Hbt Hb) as (cs & t' & Hl & _ & Hres).
  eexists _, cs, t'. split; [exact Hres|]. pose proof Hl as (? & ? & ? & _). split_and!; try done.
  - intros cs' ???. by eapply longest_valid_max.
  - destruct (Z.ltb_spec m 0); [rewrite decide_True by lia|rewrite decide_False by lia]; apply bool_decide_eq_true.
Qed.

Definition validate_demo : list Z := [0x41; 0xe2; 0x82; 0xac; 0xed; 0xa0; 0x80; 0].

Lemma validate_exact_witness :
  place validate_demo 0 validate_demo /\ bytes validate_demo /\ bounded validate_demo (-1) /\
  g_utf8_validate validate_demo 0 (-1) = Some (false, 4) /\
  exists ok cs t', g_utf8_validate validate_demo 0 (-1) = Some (ok, 0 + Z.of_nat (length (encodes cs))) /\
    validate_demo = encodes cs ++ t' /\ Forall text_char cs /\ fits (-1) (Z.of_nat (length (encodes cs))) /\
    (forall cs', Forall text_char cs' -> encodes cs' `prefix_of` validate_demo ->
       fits (-1) (Z.of_nat (length (encodes cs'))) -> cs' `prefix_of` cs) /\
    (ok = true <-> if decide (-1 < 0) then head t' = Some 0 else Z.of_nat (length (encodes cs)) = -1).
Proof.
  assert (Hp : place validate_demo 0 validate_demo) by (split; [vm_compute; split; congruence|reflexivity]).
  assert (Hb : bytes validate_demo) by (repeat constructor; vm_compute; congruence).
  assert (Hd : bounded validate_demo (-1)).
  { right. split; [lia|]. apply list_elem_of_In. vm_compute. tauto. }
  split; [exact Hp|]. split; [exact Hb|]. split; [exact Hd|]. split; [vm_compute; reflexivity|].
  exact (validate_exact validate_demo 0 validate_demo (-1) Hp Hb Hd).
Defined.

(** * Encoding and decoding one character *)

Lemma array_set_mid {A} (l1 l2 : list A) x v i :
  i = Z.of_nat (length l1) -> array_set (l1 ++ x :: l2) i v = Some (l1 ++ v :: l2).
Proof.
  intros ->. rewrite array_set_Some by (rewrite length_app; cbn; lia). rewrite Nat2Z.id. f_equal.
  rewrite insert_app_r_alt by lia. by rewrite Nat.sub_diag.
Qed.

Lemma tails_snoc n c : 0 <= c -> tails (S n) c = tails n (c / 64) ++ [0x80 + c mod 64].
Proof.
  intros Hc. induction n as [|n IH]; [cbn; by rewrite Z.div_1_r|].
  cbn [tails] in IH |- *. rewrite IH. cbn [app]. do 2 f_equal.
  rewrite Nat2Z.inj_succ, Z.pow_succ_r, <- Z.div_div by lia. done.
Qed.

Lemma cont_bits c : 0 <= c -> u8 ((c .& 0x3f) .| 0x80) = 0x80 + c mod 64.
Proof.
  intros Hc. rewrite low6. pose proof (Z.mod_pos_bound c 64 ltac:(lia)) as H. change (2 ^ 6) with 64.
  revert H. generalize (c mod 64). clear. intros x Hx.
  assert (H : forall_range 0 64 (fun x => u8 (x .| 0x80) =? 0x80 + x) = true) by (vm_compute; reflexivity).
  apply (forall_range_spec _ _ _ H) in Hx. by apply Z.eqb_eq.
Qed.

(** The loop writes the last bytes, from the end. *)
Lemma unichar_tail_spec pre x mid post c :
  0 <= c ->
  unichar_tail (pre ++ x :: mid ++ post) (Z.of_nat (length pre)) (length mid) c =
  Some (pre ++ x :: tails (length mid) c ++ post, c / 64 ^ Z.of_nat (length mid)).
Proof.
  revert post c. induction mid as [|y mid IH] using rev_ind; intros post c Hc; [cbn; by rewrite Z.div_1_r|].
  rewrite length_app, Nat.add_comm. cbn [length Nat.add unichar_tail]. rewrite cont_bits by done.
  replace (pre ++ x :: (mid ++ [y]) ++ post) with ((pre ++ x :: mid) ++ y :: post) by (by rewrite <- !app_assoc).
  rewrite array_set_mid by (rewrite length_app; cbn; lia). cbn [mbind option_bind].
  replace ((pre ++ x :: mid) ++ (128 + c mod 64) :: post) with (pre ++ x :: mid ++ (128 + c mod 64) :: post) by (by rewrite <- app_assoc).
  change 6 with (Z.of_nat 6). rewrite Z.shiftr_div_pow2 by lia. change (2 ^ Z.of_nat 6) with 64.
  rewrite IH by (apply Z.div_pos; lia). rewrite tails_snoc by done. f_equal. f_equal; [by rewrite <- app_assoc|].
  rewrite pow64_S, Z.mul_comm. rewrite Z.div_div by lia. done.
Qed.

Lemma first_bits n x :
  (1 <= n <= 6)%nat -> 0 <= x < (if decide (n = 1)%nat then 2 ^ 7 else 2 ^ (7 - Z.of_nat n)) ->
  u8 (x .| marker n) = marker n + x.
Proof.
  intros Hn Hx. destruct n as [|[|[|[|[|[|[|]]]]]]]; try lia; revert x Hx;
    match goal with |- forall x, _ <= x < ?b -> u8 (x .| ?k) = _ =>
      let n := eval vm_compute in (Z.to_nat b) in
      assert (H : forall_range 0 n (fun x => u8 (x .| k) =? k + x) = true) by (vm_compute; reflexivity) end;
    intros x Hx; apply Z.eqb_eq; apply (forall_range_spec _ _ _ H);
    match type of Hx with _ <= _ < ?b => let b' := eval vm_compute in b in change b with b' in Hx end; lia.
Qed.

Lemma unichar_head_spec c : unichar_head c = (marker (width c), width c).
Proof. unfold width, unichar_head. repeat case_match; done. Qed.

(** The encoder writes the reference encoding to its place, and nothing else. *)
Lemma unichar_to_utf8_spec c pre mid post :
  0 <= c < 2 ^ 31 -> length mid = length (encode c) ->
  g_unichar_to_utf8 c (pre ++ mid ++ post) (Some (Z.of_nat (length pre))) =
  Some (Z.of_nat (length (encode c)), pre ++ encode c ++ post).
Proof.
  intros Hc Hm. rewrite encode_length in * by done. unfold g_unichar_to_utf8. rewrite unichar_head_spec.
  pose proof (width_bounds c) as Hw. destruct mid as [|x mid]; [cbn in Hm; lia|]. cbn in Hm.
  replace (width c - 1)%nat with (length mid) by lia. cbn [app]. rewrite unichar_tail_spec by lia.
  cbn [mbind option_bind]. rewrite array_set_mid by done. cbn [mbind option_bind].
  rewrite encode_shape by done. replace (length mid) with (width c - 1)%nat by lia. repeat f_equal.
  rewrite first_bits; [done|done|]. widths c Hc; rewrite ?decide_True, ?decide_False by lia; div_lia.
Qed.

Lemma skip_lead l :
  in_u 8 l -> g_utf8_skip l = if decide (lead_len l = 0)%nat then 1 else Z.of_nat (lead_len l).
Proof.
  intros Hl. all_bytes l Hl (fun l => g_utf8_skip l =? if decide (lead_len l = 0)%nat then 1 else Z.of_nat (lead_len l)).
  by apply Z.eqb_eq.
Qed.

Lemma compute_lead l :
  in_u 8 l -> lead_len l <> 0%nat ->
  exists mask, UTF8_COMPUTE l = (mask, Z.of_nat (lead_len l)) /\ l .& mask = l - marker (lead_len l).
Proof.
  intros Hl Hn. exists (fst (UTF8_COMPUTE l)).
  all_bytes l Hl (fun l => bool_decide (lead_len l = 0%nat) ||
    (snd (UTF8_COMPUTE l) =? Z.of_nat (lead_len l)) && (l .& fst (UTF8_COMPUTE l) =? l - marker (lead_len l))).
  rewrite bool_decide_false in H0 by done. cbn [orb] in H0. apply andb_true_iff in H0 as [H1 H2].
  apply Z.eqb_eq in H1, H2. rewrite <- H1. by destruct (UTF8_COMPUTE l).
Qed.

Lemma get_loop_spec s p i wc ks r :
  place s (p + i) (ks ++ r) -> Forall cont ks -> 0 <= wc -> (wc + 1) * 64 ^ Z.of_nat (length ks) <= 2 ^ 32 ->
  UTF8_GET_loop s p (length ks) i wc = Some (value wc ks).
Proof.
  intros Hp Hk. revert i wc Hp. induction Hk as [|b ks Hb _ IH]; intros i wc Hp Hwc Hmax; [done|].
  cbn [length UTF8_GET_loop]. rewrite (place_rd0 _ _ _ Hp). cbn [head app mbind option_bind].
  rewrite cont_test by (unfold in_u, cont in *; lia). rewrite bool_decide_true by done.
  cbn [length] in Hmax. rewrite pow64_S in Hmax. pose proof (Z.pow_pos_nonneg 64 (Z.of_nat (length ks))).
  pose proof (Z.mod_pos_bound b 64). rewrite push_byte by nia. apply IH; [|lia|nia].
  rewrite Z.add_assoc. by apply (place_tail _ _ b).
Qed.

(** Reading a place where a character is *)
Section at_char.
Context (s : list Z) (p c : Z) (t : list Z).
Context (Hp : place s p (encode c ++ t)) (Hc : 0 <= c < 2 ^ 31).

Lemma next_char_spec : g_utf8_next_char s p = Some (p + Z.of_nat (length (encode c))).
Proof.
  unfold g_utf8_next_char. rewrite encode_shape in Hp by done. rewrite (place_rd0 _ _ _ Hp). cbn [head app mbind option_bind].
  destruct (lead_len_encode c Hc) as [Hl Hn]. rewrite skip_lead, Hn, encode_length by done.
  pose proof (width_bounds c). by rewrite decide_False by lia.
Qed.

Lemma next_char_place : place s (p + Z.of_nat (length (encode c))) t.
Proof. by apply place_step. Qed.

Lemma get_char_spec : g_utf8_get_char s p = Some c.
Proof.
  unfold g_utf8_get_char. rewrite encode_shape in Hp by done. rewrite (place_rd0 _ _ _ Hp). cbn [head app mbind option_bind].
  destruct (lead_len_encode c Hc) as [Hl Hn]. pose proof (width_bounds c) as Hw.
  destruct (compute_lead _ Hl ltac:(lia)) as (mask & -> & Hmask).
  destruct (Z.eqb_spec (Z.of_nat (lead_len (marker (width c) + c / 64 ^ Z.of_nat (width c - 1)))) (-1)); [lia|].
  unfold UTF8_GET. rewrite (place_rd0 _ _ _ Hp). cbn [head app mbind option_bind]. rewrite Hmask, Hn.
  replace (marker (width c) + _ - _) with (c / 64 ^ Z.of_nat (width c - 1)) by lia.
  replace (Z.to_nat (Z.of_nat (width c) - 1)) with (length (tails (width c - 1) c)) by (rewrite tails_length; lia).
  rewrite (get_loop_spec _ _ _ _ _ t).
  - by rewrite value_tails by lia.
  - apply place_tail in Hp. exact Hp.
  - apply tails_cont.
  - apply Z.div_pos; lia.
  - rewrite tails_length. pose proof (lead_room _ Hl) as Hr. rewrite Hn in Hr.
    destruct (decide (width c = 1)%nat) as [E|E].
    + rewrite E. change (64 ^ Z.of_nat (1 - 1)) with 1. rewrite Z.div_1_r. lia.
    + replace (marker (width c) + _ - _) with (c / 64 ^ Z.of_nat (width c - 1)) in Hr by lia. etrans; [apply Hr; lia|lia].
Qed.
End at_char.

Lemma high_bit r :
  0 <= r < 2 ^ 31 \/ r = partial_sequence \/ r = malformed_sequence ->
  (r .& 0x80000000 =? 0) = bool_decide (0 <= r < 2 ^ 31).
Proof.
  intros [Hr | [-> | ->]]; [|by vm_compute..]. rewrite bool_decide_true by done. apply Z.eqb_eq.
  apply Z.bits_inj'. intros i Hi. rewrite Z.land_spec, Z.testbit_0_l. change 0x80000000 with (2 ^ 31).
  rewrite Z.pow2_bits_eqb by lia. destruct (Z.eqb_spec 31 i); [|by rewrite andb_false_r].
  by rewrite (testbit_above 31 r) by (done || lia).
Qed.

Lemma UNICODE_VALID_spec c : 0 <= c < 2 ^ 32 -> UNICODE_VALID c = bool_decide (scalar c).
Proof.
  intros Hc. unfold UNICODE_VALID, scalar. destruct (Z.ltb_spec c 0x110000); [|by rewrite bool_decide_false by lia].
  cbn [andb]. assert (E : c .& 0xFFFFF800 = c / 2 ^ 11 * 2 ^ 11).
  { rewrite <- Z.shiftl_mul_pow2, <- Z.shiftr_div_pow2 by lia. apply Z.bits_inj'. intros i Hi.
    rewrite Z.land_spec. change 0xFFFFF800 with (Z.shiftl (Z.ones 21) 11).
    destruct (decide (i < 11)).
    - rewrite !Z.shiftl_spec_low by lia. by rewrite andb_false_r.
    - rewrite !Z.shiftl_spec_high, Z.shiftr_spec by lia. replace (i - 11 + 11) with i by lia.
      destruct (decide (i < 32)).
      + rewrite Z.ones_spec_low by lia. by rewrite andb_true_r.
      + rewrite (testbit_above 32 c) by (unfold in_u; lia). done. }
  rewrite E. destruct (Z.eqb_spec (c / 2 ^ 11 * 2 ^ 11) 0xD800);
    [rewrite bool_decide_false|rewrite bool_decide_true]; try done; div_lia.
Qed.

(** C15: encoding and decoding one character are inverse and exact.  The encoder
    writes the reference encoding of any character of 31 bits to its place of
    the buffer and nothing else, and the length macro and the decoder agree with
    it.  On any readable bytes [g_utf8_get_char_validated] answers a scalar
    value if and only if its bytes are next within the limit, -2 if and only if
    the limit or the terminator cuts a sequence off, and -1 otherwise. *)
Theorem codec_exact :
  (forall c pre mid post, 0 <= c < 2 ^ 31 -> length mid = length (encode c) ->
     let s := pre ++ encode c ++ post in let p := Z.of_nat (length pre) in
     g_unichar_to_utf8 c (pre ++ mid ++ post) (Some p) = Some (UTF8_LENGTH c, s) /\
     g_unichar_to_utf8 c [] None = Some (UTF8_LENGTH c, []) /\
     g_utf8_get_char s p = Some c /\ g_utf8_next_char s p = Some (p + UTF8_LENGTH c)) /\
  (forall s p t m, place s p t -> bytes t -> m = 0 \/ readable t m ->
     exists r, g_utf8_get_char_validated s p m = Some r /\
       (r = 2 ^ 32 - 2 <-> m = 0 \/ partial_at t m) /\
       (forall c, scalar c -> r = c <-> m <> 0 /\ char_at t m c) /\
       (g_unichar_validate r = false -> r = 2 ^ 32 - 2 \/ r = 2 ^ 32 - 1)).
Proof.
  split.
  - intros c pre mid post Hc Hm. cbv zeta. pose proof (place_app pre (encode c ++ post)) as Hp.
    rewrite (unichar_to_utf8_spec _ _ _ _ Hc Hm), UTF8_LENGTH_width, encode_length by done.
    rewrite (get_char_spec _ _ _ _ Hp), (next_char_spec _ _ _ _ Hp), encode_length by done.
    split_and!; try done. unfold g_unichar_to_utf8. by rewrite unichar_head_spec.
  - intros s p t m Hp Ht Hm. unfold g_utf8_get_char_validated, g_unichar_validate.
    destruct (Z.eqb_spec m 0) as [->|Hm0].
    { exists (2 ^ 32 - 2). split; [done|]. split; [|split]; [tauto| |by left].
      intros c [? _]. split; [intros <-; lia|tauto]. }
    destruct Hm as [?|Hm]; [done|].
    destruct (get_char_extended_exact s p t m Hp Ht Hm) as (r & -> & Hcase & Hchar & Hpart).
    cbn [mbind option_bind]. rewrite high_bit by done. destruct error_values as [Ep Em]. rewrite Ep in *. rewrite Em in *.
    destruct (decide (0 <= r < 2 ^ 31)) as [Hr|Hr]; [rewrite (bool_decide_true (_ <= _ < _)) by done|rewrite (bool_decide_false (_ <= _ < _)) by done]; cbn [negb].
    + rewrite UNICODE_VALID_spec by lia. case_bool_decide as Hs; cbn [negb].
      * exists r. split; [done|]. split; [|split].
        -- rewrite Hpart. tauto.
        -- intros c Hc. rewrite Hchar by by apply scalar_range. tauto.
        -- rewrite UNICODE_VALID_spec by lia. rewrite bool_decide_true by done. done.
      * exists (u32 (-1)). change (u32 (-1)) with (2 ^ 32 - 1). split; [done|]. split; [|split]; [| |by right].
        -- split; [done|]. intros [?|Hp']; [done|]. apply Hpart in Hp'. lia.
        -- intros c Hc. pose proof (scalar_range c Hc). split; [lia|]. intros [_ H']. apply Hchar in H'; [|done]. by subst.
    + exists r. split; [done|]. split; [|split].
      * rewrite Hpart. tauto.
      * intros c Hc. rewrite Hchar by by apply scalar_range. tauto.
      * intros _. destruct Hcase as [?|[?|?]]; auto; done.
Qed.

Lemma codec_exact_witness :
  (0 <= 0x20ac < 2 ^ 31 /\ length [9; 9; 9] = length (encode 0x20ac)) /\
  g_unichar_to_utf8 0x20ac [7; 9; 9; 9; 7] (Some 1) = Some (3, [7; 0xe2; 0x82; 0xac; 7]) /\
  g_utf8_get_char [7; 0xe2; 0x82; 0xac; 7] 1 = Some 0x20ac.
Proof.
  assert (H : 0 <= 0x20ac < 2 ^ 31) by (vm_compute; split; congruence).
  assert (H' : length [9; 9; 9] = length (encode 0x20ac)) by reflexivity.
  split; [exact (conj H H')|].
  destruct (proj1 codec_exact 0x20ac [7] [9; 9; 9] [7] H H') as (H1 & _ & H2 & _). exact (conj H1 H2).
Defined.
