(* ===== verification/Utf8Nav.v ===== *)
(** Navigation in a UTF-8 text: the functions of gutf8.c that count characters
    and move by characters, forwards and backwards. *)
From S2P Require Import Prelude Utf8 Utf8Char Utf8Valid.

Open Scope c_scope.

(** * Positions of characters *)

(** The place of the [i]-th character of a text behind [n] bytes *)
Definition pos (n : Z) (cs : list Z) (i : nat) : Z := n + Z.of_nat (length (encodes (take i cs))).

Section text.
Context (pre cs post : list Z) (Hcs : Forall (fun c => 0 <= c < 2 ^ 31) cs).

Let s : list Z := pre ++ encodes cs ++ post.
Let at_ (i : nat) : Z := pos (Z.of_nat (length pre)) cs i.

Lemma char_range i c : cs !! i = Some c -> 0 <= c < 2 ^ 31.
Proof. intros Hi. rewrite Forall_lookup in Hcs. by eapply Hcs. Qed.

Lemma at_S i c : cs !! i = Some c -> at_ (S i) = at_ i + Z.of_nat (length (encode c)).
Proof.
  intros Hi. unfold at_, pos. rewrite (take_S_r _ _ _ Hi), encodes_app, length_app. cbn. rewrite app_nil_r. lia.
Qed.

Lemma at_place i : (i <= length cs)%nat -> place s (at_ i) (encodes (drop i cs) ++ post).
Proof.
  intros Hi. unfold at_, pos, s. rewrite <- (take_drop i cs) at 1. rewrite encodes_app, <- app_assoc.
  apply place_step, place_app.
Qed.

Lemma at_char i c : cs !! i = Some c -> place s (at_ i) (encode c ++ encodes (drop (S i) cs) ++ post).
Proof.
  intros Hi. pose proof (lookup_lt_Some _ _ _ Hi). pose proof (at_place i ltac:(lia)) as Hp.
  rewrite (drop_S _ _ _ Hi) in Hp. by rewrite app_assoc.
Qed.

Lemma at_lt i j : (i < j <= length cs)%nat -> at_ i + Z.of_nat (j - i) <= at_ j.
Proof.
  intros [Hij Hj]. induction Hij as [|j Hij IH].
  - destruct (lookup_lt_is_Some_2 cs i) as [c Hc]; [lia|]. rewrite (at_S i c Hc).
    pose proof (encode_length_pos c). lia.
  - destruct (lookup_lt_is_Some_2 cs j) as [c Hc]; [lia|]. rewrite (at_S j c Hc).
    pose proof (encode_length_pos c). lia.
Qed.

Lemma at_nonneg i : 0 <= at_ i.
Proof. unfold at_, pos. lia. Qed.

Lemma at_inj i j : (i <= length cs)%nat -> (j <= length cs)%nat -> at_ i < at_ j <-> (i < j)%nat.
Proof.
  intros Hi Hj. destruct (decide (i < j)%nat); [pose proof (at_lt i j); lia|].
  destruct (decide (i = j)) as [->|]; [lia|]. pose proof (at_lt j i). lia.
Qed.

(** Between two characters there are continuation bytes only. *)
Lemma inner_byte i c q :
  cs !! i = Some c -> at_ i < q < at_ (S i) -> exists b, rd s q = Some b /\ cont b.
Proof.
  intros Hi Hq. rewrite (at_S i c Hi) in Hq. pose proof (at_char i c Hi) as Hp. pose proof (char_range i c Hi) as Hc.
  replace q with (at_ i + (q - at_ i)) by lia. rewrite (place_rd _ _ _ _ Hp) by lia.
  assert (exists b, encode c !! Z.to_nat (q - at_ i) = Some b) as [b Hb] by (apply lookup_lt_is_Some_2; lia).
  exists b. rewrite (lookup_app_l_Some _ _ _ _ Hb). split; [done|]. rewrite encode_shape in Hb by done.
  destruct (Z.to_nat (q - at_ i)) as [|k] eqn:E; [lia|]. cbn in Hb.
  pose proof (tails_cont (width c - 1) c) as Ht. rewrite Forall_lookup in Ht. by eapply Ht.
Qed.

Lemma lead_byte i c : cs !! i = Some c -> exists b, rd s (at_ i) = Some b /\ in_u 8 b /\ ~ cont b.
Proof.
  intros Hi. pose proof (at_char i c Hi) as Hp. pose proof (char_range i c Hi) as Hc.
  rewrite (place_rd0 _ _ _ Hp), encode_shape by done. eexists; split; [done|].
  destruct (lead_len_encode c Hc) as [Hl Hn]. split; [done|]. intros Hco. pose proof (width_bounds c).
  unfold lead_len, cont in *. repeat case_match; rewrite ?Z.ltb_ge, ?Z.ltb_lt in *; lia.
Qed.

Lemma at_next i c : cs !! i = Some c -> g_utf8_next_char s (at_ i) = Some (at_ (S i)).
Proof.
  intros Hi. rewrite (at_S i c Hi). by apply (next_char_spec _ _ _ _ (at_char i c Hi)), (char_range i).
Qed.

(** Every place of the text is in a character. *)
Lemma in_char q j : (j <= length cs)%nat -> at_ 0 <= q < at_ j ->
  exists i c, (i < j)%nat /\ cs !! i = Some c /\ at_ i <= q < at_ (S i).
Proof.
  intros Hj. induction j as [|j IH]; intros Hq; [lia|]. destruct (decide (q < at_ j)) as [H|H].
  - destruct IH as (i & c & ? & ? & ?); [lia|lia|]. exists i, c. split_and!; done || lia.
  - destruct (lookup_lt_is_Some_2 cs j) as [c Hc]; [lia|]. exists j, c. split_and!; done || lia.
Qed.

(** * Counting and moving *)

Lemma pointer_to_offset_spec i j :
  (i <= length cs)%nat -> (j <= length cs)%nat ->
  g_utf8_pointer_to_offset s (at_ i) (at_ j) = Some (Z.of_nat j - Z.of_nat i).
Proof.
  intros Hi Hj. unfold g_utf8_pointer_to_offset.
  assert (Hcount : forall i j, (i <= j <= length cs)%nat ->
    iter (S (Z.to_nat (at_ j - at_ i))) (fun '(p, offset) =>
      if p <? at_ j then q ← g_utf8_next_char s p; Some (inl (q, offset + 1)) else Some (inr offset)) (at_ i, 0)
    = Some (Z.of_nat j - Z.of_nat i)).
  { clear i j Hi Hj. intros i j Hij. apply (iter_yields _ (fun '(p, offset) =>
      exists k, (i <= k <= j)%nat /\ p = at_ k /\ offset = Z.of_nat k - Z.of_nat i)
      (fun '(p, _) => Z.to_nat (at_ j - p))).
    - intros [p o] (k & Hk & -> & ->). destruct (Z.ltb_spec (at_ k) (at_ j)) as [H|H].
      + apply at_inj in H as Hkj; [|lia..]. destruct (lookup_lt_is_Some_2 cs k) as [c Hc]; [lia|].
        rewrite (at_next k c Hc). cbn [mbind option_bind]. eexists; split; [done|]. cbn. split.
        * exists (S k). split_and!; [lia..|done|lia].
        * rewrite (at_S k c Hc). pose proof (encode_length_pos c). lia.
      + eexists; split; [done|]. cbn. assert (k = j) by (pose proof (at_inj k j); lia). lia.
    - exists i. split_and!; [lia..|done|lia].
    - lia. }
  destruct (Z.ltb_spec (at_ j) (at_ i)) as [H|H].
  - apply at_inj in H; [|lia..]. rewrite Hcount by lia. cbn. f_equal. lia.
  - rewrite Hcount; [done|]. pose proof (at_inj j i). lia.
Qed.

(** Stepping back to the start of a character *)
Lemma back_to_start i c q :
  cs !! i = Some c -> at_ i <= q < at_ (S i) ->
  iter (S (Z.to_nat q)) (fun p => ch ← rd s p; Some (if ch .& 0xc0 =? 0x80 then inl (p - 1) else inr p)) q = Some (at_ i).
Proof.
  intros Hi Hq. apply (iter_yields _ (fun q => at_ i <= q < at_ (S i)) (fun q => Z.to_nat (q - at_ i))); [|done|pose proof (at_nonneg i); lia].
  clear q Hq. intros q Hq. destruct (decide (q = at_ i)) as [->|].
  - destruct (lead_byte i c Hi) as (b & -> & Hb & Hn). cbn [mbind option_bind]. rewrite cont_test by done.
    rewrite bool_decide_false by done. by eexists.
  - destruct (inner_byte i c q Hi) as (b & -> & Hn); [lia|]. cbn [mbind option_bind].
    rewrite cont_test by (unfold in_u, cont in *; lia). rewrite bool_decide_true by done.
    eexists; split; [done|]. cbn. lia.
Qed.

Lemma offset_to_pointer_spec i j :
  (i <= length cs)%nat -> (j <= length cs)%nat ->
  g_utf8_offset_to_pointer s (at_ i) (Z.of_nat j - Z.of_nat i) = Some (at_ j).
Proof.
  intros Hi Hj. unfold g_utf8_offset_to_pointer. destruct (Z.ltb_spec 0 (Z.of_nat j - Z.of_nat i)).
  - apply (iter_yields _ (fun '(p, offset) => exists k, (i <= k <= j)%nat /\ p = at_ k /\ offset = Z.of_nat j - Z.of_nat k)
      (fun '(_, offset) => Z.to_nat offset)).
    + intros [p o] (k & Hk & -> & ->). destruct (Z.eqb_spec (Z.of_nat j - Z.of_nat k) 0).
      * eexists; split; [done|]. cbn. by replace k with j by lia.
      * destruct (lookup_lt_is_Some_2 cs k) as [c Hc]; [lia|]. rewrite (at_next k c Hc). cbn [mbind option_bind].
        eexists; split; [done|]. cbn. split; [exists (S k); split_and!; [lia..|done|lia]|lia].
    + exists i. split_and!; [lia..|done|lia].
    + lia.
  - apply (iter_yields _ (fun '(p, offset) => exists k, (j <= k <= i)%nat /\ p = at_ k /\ offset = Z.of_nat j - Z.of_nat k)
      (fun '(_, offset) => Z.to_nat (- offset))).
    + intros [p o] (k & Hk & -> & ->). unfold stutter_step. destruct (Z.eqb_spec (Z.of_nat j - Z.of_nat k) 0).
      * eexists; split; [done|]. cbn. by replace k with j by lia.
      * pose proof (at_lt j k ltac:(lia)) as Hjk.
        assert (at_ 0 <= at_ j) by (destruct (decide (j = 0)%nat) as [->|]; [lia|pose proof (at_lt 0 j); lia]).
        destruct (in_char (at_ k + (Z.of_nat j - Z.of_nat k)) k) as (m & c & Hmk & Hc & Hq); [lia|lia|].
        rewrite (back_to_start m c) by done. cbn [mbind option_bind].
        rewrite pointer_to_offset_spec by lia. cbn [mbind option_bind]. eexists; split; [done|]. cbn.
        assert (j <= m)%nat.
        { destruct (decide (j <= m)%nat); [done|]. pose proof (at_lt m j). exfalso.
          assert (at_ (S m) <= at_ j) by (destruct (decide (S m = j)) as [->|]; [lia|pose proof (at_lt (S m) j); lia]). lia. }
        split; [exists m; split_and!; [lia..|done|lia]|lia].
    + exists i. split_and!; [lia..|done|lia].
    + lia.
Qed.

Lemma scan_byte i c q :
  cs !! i = Some c -> at_ i <= q < at_ (S i) ->
  exists b, rd s q = Some b /\ (b .& 0xc0 =? 0x80) = bool_decide (q <> at_ i).
Proof.
  intros Hi Hq. destruct (decide (q = at_ i)) as [->|].
  - destruct (lead_byte i c Hi) as (b & Hb & Hr & Hn). exists b. split; [done|]. rewrite cont_test by done.
    rewrite !bool_decide_false; [done|tauto|done].
  - destruct (inner_byte i c q Hi) as (b & Hb & Hn); [lia|]. exists b. split; [done|].
    rewrite cont_test by (unfold in_u, cont in *; lia). by rewrite !bool_decide_true.
Qed.

Lemma at_le_S i c : cs !! i = Some c -> at_ i < at_ (S i).
Proof. intros Hi. rewrite (at_S i c Hi). pose proof (encode_length_pos c). lia. Qed.

(** From inside or behind a character, the start of it *)
Lemma prev_char_spec i c q :
  cs !! i = Some c -> at_ i < q <= at_ (S i) -> g_utf8_prev_char s q = Some (at_ i).
Proof.
  intros Hi Hq. apply (iter_yields _ (fun q => at_ i < q <= at_ (S i)) (fun q => Z.to_nat (q - at_ i)));
    [|done|pose proof (at_nonneg i); lia].
  clear q Hq. intros q Hq. cbv zeta. destruct (scan_byte i c (q - 1) Hi) as (b & Hrd & Hbb); [lia|]. rewrite Hrd. cbn [mbind option_bind]. rewrite Hbb. eexists; split; [done|]. case_bool_decide; cbn [negb]; lia.
Qed.

Lemma find_prev_char_spec i c q :
  cs !! i = Some c -> at_ i < q <= at_ (S i) ->
  g_utf8_find_prev_char s (Z.of_nat (length pre)) q = Some (Some (at_ i)).
Proof.
  intros Hi Hq. assert (Hp : Z.of_nat (length pre) <= at_ i) by (unfold at_, pos; lia).
  apply (iter_yields _ (fun q => at_ i <= q < at_ (S i)) (fun q => Z.to_nat (q - at_ i))); [|lia|lia].
  clear q Hq. intros q Hq. cbv zeta. destruct (Z.leb_spec (Z.of_nat (length pre)) q); [|lia].
  destruct (scan_byte i c q Hi) as (b & Hrd & Hbb); [lia|]. rewrite Hrd. cbn [mbind option_bind]. rewrite Hbb. eexists; split; [done|]. case_bool_decide as H'; cbn [negb]; [lia|].
  do 2 f_equal. destruct (decide (q = at_ i)); [done|tauto].
Qed.

Lemma find_prev_char_none : g_utf8_find_prev_char s (Z.of_nat (length pre)) (Z.of_nat (length pre)) = Some None.
Proof.
  unfold g_utf8_find_prev_char. rewrite Z.sub_diag. cbn [Z.to_nat iter mbind option_bind].
  by destruct (Z.leb_spec (Z.of_nat (length pre)) (Z.of_nat (length pre) - 1)); [lia|].
Qed.

(** From a character, or from inside it, to the next; the byte behind the text
    is no continuation byte. *)
Context (Hpost : exists b, head post = Some b /\ in_u 8 b /\ ~ cont b).

Lemma next_start i : (i <= length cs)%nat -> exists b, rd s (at_ i) = Some b /\ in_u 8 b /\ ~ cont b.
Proof.
  intros Hi. destruct (decide (i = length cs)) as [->|].
  - destruct Hpost as (b & Hb & Hn). exists b. split; [|done]. rewrite (place_rd0 _ _ _ (at_place _ Hi)).
    by rewrite drop_all.
  - destruct (lookup_lt_is_Some_2 cs i) as [c Hc]; [lia|]. by apply (lead_byte i c).
Qed.

Lemma scan_next i c q :
  cs !! i = Some c -> at_ i < q <= at_ (S i) ->
  exists b, rd s q = Some b /\ (b .& 0xc0 =? 0x80) = bool_decide (q <> at_ (S i)).
Proof.
  intros Hi Hq. pose proof (lookup_lt_Some _ _ _ Hi). destruct (decide (q = at_ (S i))) as [->|].
  - destruct (next_start (S i)) as (b & Hb & Hr & Hn); [lia|]. exists b. split; [done|]. rewrite cont_test by done.
    rewrite !bool_decide_false; [done|tauto|done].
  - destruct (inner_byte i c q Hi) as (b & Hb & Hn); [lia|]. exists b. split; [done|].
    rewrite cont_test by (unfold in_u, cont in *; lia). by rewrite !bool_decide_true.
Qed.

Lemma at_length i : (i <= length cs)%nat -> at_ i <= Z.of_nat (length s).
Proof. intros Hi. destruct (at_place i Hi) as [? _]. lia. Qed.

Lemma find_next_char_spec i c q :
  cs !! i = Some c -> at_ i <= q < at_ (S i) ->
  g_utf8_find_next_char s q None = Some (Some (at_ (S i))) /\
  g_utf8_find_next_char s q (Some (at_ (length cs))) =
    Some (if decide (S i = length cs) then None else Some (at_ (S i))).
Proof.
  intros Hi Hq. pose proof (lookup_lt_Some _ _ _ Hi) as Hlen. pose proof (at_length (S i) ltac:(lia)).
  assert (Hend : at_ (S i) <= at_ (length cs)).
  { destruct (decide (S i = length cs)) as [->|]; [lia|]. pose proof (at_lt (S i) (length cs)). lia. }
  pose proof (at_nonneg i). split; unfold g_utf8_find_next_char.
  - rewrite (iter_yields _ (fun q => at_ i < q <= at_ (S i)) (fun q => Z.to_nat (at_ (S i) - q)) (at_ (S i))); [done| |lia|lia].
    clear q Hq. intros q Hq. destruct (scan_next i c q Hi Hq) as (b & Hrd & Hbb). rewrite Hrd. cbn [mbind option_bind]. rewrite Hbb.
    eexists; split; [done|]. case_bool_decide as H'; [lia|]. destruct (decide (q = at_ (S i))); [done|tauto].
  - rewrite (iter_yields _ (fun q => at_ i < q <= at_ (S i)) (fun q => Z.to_nat (at_ (S i) - q)) (at_ (S i))); [| |lia|lia].
    + cbn [mbind option_bind]. f_equal. destruct (decide (S i = length cs)) as [->|].
      * by destruct (Z.leb_spec (at_ (length cs)) (at_ (length cs))); [|lia].
      * pose proof (at_lt (S i) (length cs)). by destruct (Z.leb_spec (at_ (length cs)) (at_ (S i))); [lia|].
    + clear q Hq. intros q Hq. destruct (Z.ltb_spec q (at_ (length cs))).
      * destruct (scan_next i c q Hi Hq) as (b & Hrd & Hbb). rewrite Hrd. cbn [mbind option_bind]. rewrite Hbb.
        eexists; split; [done|]. case_bool_decide as H'; [lia|]. destruct (decide (q = at_ (S i))); [done|tauto].
      * eexists; split; [done|]. cbn. lia.
Qed.
End text.

(** * Texts with a terminator *)

Section terminated.
Context (pre cs rest : list Z) (Hcs : Forall (fun c => 0 < c < 2 ^ 31) cs).

Let s : list Z := pre ++ encodes cs ++ 0 :: rest.
Let at_ (i : nat) : Z := pos (Z.of_nat (length pre)) cs i.

Lemma weak : Forall (fun c => 0 <= c < 2 ^ 31) cs.
Proof. eapply Forall_impl; [exact Hcs|]. cbn. lia. Qed.

Lemma step_next i c : cs !! i = Some c -> g_utf8_next_char s (at_ i) = Some (at_ (S i)).
Proof. apply (at_next pre cs (0 :: rest) weak). Qed.

Lemma step_lt i c : cs !! i = Some c -> at_ i < at_ (S i) <= Z.of_nat (length s).
Proof.
  intros Hc. split; [by apply (at_le_S pre cs i c)|]. apply (at_length pre cs (0 :: rest)).
  apply lookup_lt_Some in Hc. lia.
Qed.

(** The terminator is read behind the text, and only there. *)
Lemma at_byte i : (i <= length cs)%nat -> exists b, rd s (at_ i) = Some b /\ (b =? 0) = bool_decide (i = length cs).
Proof.
  intros Hi. pose proof (at_place pre cs (0 :: rest) i Hi) as Hp. fold s in Hp. unfold at_.
  destruct (decide (i = length cs)) as [->|].
  - exists 0. rewrite (place_rd0 _ _ _ Hp), drop_all. by rewrite bool_decide_true.
  - destruct (lookup_lt_is_Some_2 cs i) as [c Hc]; [lia|]. rewrite (place_rd0 _ _ _ Hp), (drop_S _ _ _ Hc).
    rewrite Forall_lookup in Hcs. pose proof (encode_nonzero c (Hcs _ _ Hc)) as Hnz.
    destruct (encode_cons c) as (l & ks & E). rewrite E in Hnz. apply Forall_cons in Hnz as [Hl _].
    unfold encodes. cbn [mbind list_bind]. rewrite E. exists l. split; [done|].
    rewrite bool_decide_false by done. by apply Z.eqb_neq.
Qed.

Lemma at_fuel i : (i <= length cs)%nat -> 0 <= at_ i <= Z.of_nat (length s).
Proof. intros Hi. split; [apply at_nonneg|]. by apply (at_length pre cs (0 :: rest)). Qed.

Lemma strlen_spec i : (i <= length cs)%nat -> g_utf8_strlen s (at_ i) (-1) = Some (Z.of_nat (length cs - i)).
Proof.
  intros Hi. unfold g_utf8_strlen. cbn [Z.ltb Z.compare].
  apply (iter_yields _ (fun '(p, len) => exists k, (i <= k <= length cs)%nat /\ p = at_ k /\ len = Z.of_nat k - Z.of_nat i)
    (fun '(p, _) => Z.to_nat (Z.of_nat (length s) - p))).
  - intros [p len] (k & Hk & -> & ->). destruct (at_byte k) as (b & Hrd & Hbb); [lia|]. rewrite Hrd. cbn [mbind option_bind]. rewrite Hbb.
    case_bool_decide as E; [eexists; split; [done|]; cbn; lia|].
    destruct (lookup_lt_is_Some_2 cs k) as [c Hc]; [lia|]. rewrite (step_next k c Hc).
    cbn [mbind option_bind]. eexists; split; [done|]. cbn. split.
    + exists (S k). split_and!; [lia..|done|lia].
    + pose proof (step_lt k c Hc). lia.
  - exists i. split_and!; [lia..|done|lia].
  - pose proof (at_fuel i Hi). lia.
Qed.

(** With a limit: as many characters as are complete within it *)
Lemma strlen_max_spec i max :
  (i <= length cs)%nat -> 0 <= max ->
  exists k, g_utf8_strlen s (at_ i) max = Some (Z.of_nat k) /\ (i + k <= length cs)%nat /\ at_ (i + k) - at_ i <= max /\
    ((i + k < length cs)%nat -> max < at_ (S (i + k)) - at_ i).
Proof.
  intros Hi Hm. unfold g_utf8_strlen. destruct (Z.ltb_spec max 0); [lia|]. destruct (Z.eqb_spec max 0) as [->|Hm0].
  { exists 0%nat. rewrite Nat.add_0_r. split_and!; [done|done|lia|]. intros Hlt.
    destruct (lookup_lt_is_Some_2 cs i) as [c Hc]; [lia|]. pose proof (step_lt i c Hc). lia. }
  destruct (at_byte i Hi) as (b & Hrd & Hbb). rewrite Hrd. cbn [mbind option_bind]. rewrite Hbb.
  case_bool_decide as Hend.
  { exists 0%nat. rewrite Nat.add_0_r. split_and!; [done|done|lia|lia]. }
  destruct (lookup_lt_is_Some_2 cs i) as [c Hc]; [lia|]. rewrite (step_next i c Hc). cbn [mbind option_bind].
  destruct (iter_total (fun '(p, len) => if p - at_ i <? max then c ← rd s p; if c =? 0 then Some (inr (p, len))
      else q ← g_utf8_next_char s p; Some (inl (q, len + 1)) else Some (inr (p, len)))
    (fun '(p, len) => exists k, (i + k < length cs)%nat /\ p = at_ (S (i + k)) /\ len = Z.of_nat k /\ at_ (i + k) - at_ i <= max)
    (fun '(p, _) => Z.to_nat (Z.of_nat (length s) - p))
    (fun '(p, len) => exists k, (i + k < length cs)%nat /\ p = at_ (S (i + k)) /\ len = Z.of_nat k /\ at_ (i + k) - at_ i <= max /\
       (max <= p - at_ i \/ S (i + k) = length cs)))
    with (fuel := S (length s)) (a := (at_ (S i), 0)) as ([p len] & -> & k & Hk & -> & -> & Hle & Hstop).
  - intros [p len] (k & Hk & -> & -> & Hle). destruct (Z.ltb_spec (at_ (S (i + k)) - at_ i) max).
    + destruct (at_byte (S (i + k)) ltac:(lia)) as (b' & Hrd' & Hbb'). rewrite Hrd'. cbn [mbind option_bind]. rewrite Hbb'.
      case_bool_decide; [eexists; split; [done|]; exists k; split_and!; auto|].
      destruct (lookup_lt_is_Some_2 cs (S (i + k))) as [c' Hc']; [lia|]. rewrite (step_next _ c' Hc'). cbn [mbind option_bind].
      eexists; split; [done|]. split; [|pose proof (step_lt _ c' Hc'); lia].
      exists (S k). rewrite Nat.add_succ_r. split_and!; [lia|done|lia|lia].
    + eexists; split; [done|]. exists k. split_and!; auto.
  - exists 0%nat. rewrite Nat.add_0_r. split_and!; [lia|done|done|lia].
  - pose proof (step_lt i c Hc). pose proof (at_fuel i Hi). lia.
  - cbn [mbind option_bind]. destruct (Z.leb_spec (at_ (S (i + k)) - at_ i) max).
    + exists (S k). rewrite Nat.add_succ_r. split_and!; [f_equal; lia|lia|done|]. intros Hlt.
      destruct (lookup_lt_is_Some_2 cs (S (i + k))) as [c' Hc']; [lia|]. pose proof (step_lt _ c' Hc'). lia.
    + exists k. split_and!; [done|lia|done|lia].
Qed.

(** The bytes between two characters *)
Lemma at_between i j : (i <= j <= length cs)%nat -> at_ j - at_ i = Z.of_nat (length (encodes (take (j - i) (drop i cs)))).
Proof.
  intros Hij. unfold at_, pos. replace (take j cs) with (take i cs ++ take (j - i) (drop i cs)).
  - rewrite encodes_app, length_app. lia.
  - rewrite take_drop_commute. replace (i + (j - i))%nat with j by lia.
    rewrite <- (take_drop i (take j cs)) at 2. by rewrite take_take, Nat.min_l by lia.
Qed.

Lemma slice_spec i j :
  (i <= j <= length cs)%nat -> slice s (at_ i) (at_ j - at_ i) = Some (encodes (take (j - i) (drop i cs))).
Proof.
  intros Hij. pose proof (at_between i j Hij) as Hb. pose proof (at_fuel i ltac:(lia)). pose proof (at_fuel j ltac:(lia)).
  unfold slice. rewrite decide_True by lia. f_equal.
  destruct (at_place pre cs (0 :: rest) i ltac:(lia)) as [_ Hd]. unfold s, at_ in *. rewrite Hd, Hb, Nat2Z.id.
  rewrite <- (take_drop (j - i) (drop i cs)) at 2. rewrite encodes_app, <- app_assoc. apply take_app_length.
Qed.

Lemma substring_spec i j :
  (i <= j <= length cs)%nat ->
  g_utf8_substring s (at_ 0) (Z.of_nat i) (Z.of_nat j) = Some (encodes (take (j - i) (drop i cs)) ++ [0]).
Proof.
  intros Hij. unfold g_utf8_substring.
  pose proof (offset_to_pointer_spec pre cs (0 :: rest) weak 0 i ltac:(lia) ltac:(lia)) as H1.
  pose proof (offset_to_pointer_spec pre cs (0 :: rest) weak i j ltac:(lia) ltac:(lia)) as H2.
  pose proof (slice_spec i j Hij) as H3. change (Z.of_nat 0) with 0 in H1. rewrite Z.sub_0_r in H1.
  unfold at_, s in *. rewrite H1. cbn [mbind option_bind]. rewrite H2. cbn [mbind option_bind]. by rewrite H3.
Qed.

Lemma utf8_strncpy_spec dest i n :
  (i <= length cs)%nat -> 0 <= n ->
  let text := encodes (take (Z.to_nat n) (drop i cs)) in
  (length text < length dest)%nat ->
  g_utf8_strncpy dest s (at_ i) n = Some (text ++ 0 :: drop (S (length text)) dest).
Proof.
  intros Hi Hn. cbv zeta. intros Hd. unfold g_utf8_strncpy.
  set (j := Nat.min (i + Z.to_nat n) (length cs)).
  rewrite (iter_yields _ (fun '(p, m) => exists k, (i <= k <= j)%nat /\ p = at_ k /\ m = n - (Z.of_nat k - Z.of_nat i))
    (fun '(p, _) => Z.to_nat (Z.of_nat (length s) - p)) (at_ j)).
  - cbn [mbind option_bind]. rewrite at_between by lia. rewrite Nat2Z.id.
    assert (Etext : take (j - i) (drop i cs) = take (Z.to_nat n) (drop i cs)).
    { subst j. destruct (decide (i + Z.to_nat n <= length cs)%nat); [by replace (_ - i)%nat with (Z.to_nat n) by lia|].
      rewrite !firstn_all2; [done|rewrite length_drop; lia..]. }
    rewrite Etext. destruct (at_place pre cs (0 :: rest) i Hi) as [_ Hdrop]. unfold at_, s. rewrite Hdrop.
    rewrite <- (take_drop (Z.to_nat n) (drop i cs)) at 1. rewrite encodes_app, <- app_assoc.
    rewrite strncpy_bytes.
    + cbn [mbind option_bind]. by rewrite decide_True.
    + apply encodes_nonzero. by apply Forall_take, Forall_drop.
  - intros [p m] (k & Hk & -> & ->). destruct (Z.eqb_spec (n - (Z.of_nat k - Z.of_nat i)) 0).
    { eexists; split; [done|]. cbn. f_equal. lia. }
    destruct (at_byte k) as (b & Hrd & Hbb); [lia|]. rewrite Hrd. cbn [mbind option_bind]. rewrite Hbb.
    case_bool_decide; [eexists; split; [done|]; cbn; f_equal; lia|].
    destruct (lookup_lt_is_Some_2 cs k) as [c Hc]; [lia|]. rewrite (step_next k c Hc). cbn [mbind option_bind].
    eexists; split; [done|]. cbn. split; [exists (S k); split_and!; [lia..|done|lia]|pose proof (step_lt k c Hc); lia].
  - exists i. split_and!; [lia..|done|lia].
  - pose proof (at_fuel i Hi). lia.
Qed.
End terminated.

(** * Moving and counting are right *)

(** C16: in a buffer that holds a text of characters of up to 31 bits, between any
    bytes and a byte that starts a character, the functions that move agree with
    the characters: an offset steps from any character to any other, forwards
    and backwards (the backward loop that guesses a place and corrects its count
    ends); the offset between two places is the number of characters; and from
    every byte of a character the start of it, of the one before and of the one
    behind are found.  In front of a terminator, [g_utf8_strlen] counts the
    characters from any character on, and with a limit those that are complete
    within it; [g_utf8_substring] copies the characters between two offsets; and
    [g_utf8_strncpy] copies that many characters, or what is left, and a
    terminator, and nothing behind it. *)
Theorem navigation_exact pre cs post :
  Forall (fun c => 0 <= c < 2 ^ 31) cs -> (exists b, head post = Some b /\ in_u 8 b /\ ~ cont b) ->
  let s := pre ++ encodes cs ++ post in
  let at_ := pos (Z.of_nat (length pre)) cs in
  (forall i j, (i <= length cs)%nat -> (j <= length cs)%nat ->
     g_utf8_offset_to_pointer s (at_ i) (Z.of_nat j - Z.of_nat i) = Some (at_ j) /\
     g_utf8_pointer_to_offset s (at_ i) (at_ j) = Some (Z.of_nat j - Z.of_nat i)) /\
  (forall i c q, cs !! i = Some c ->
     (at_ i < q <= at_ (S i) ->
        g_utf8_prev_char s q = Some (at_ i) /\ g_utf8_find_prev_char s (at_ 0%nat) q = Some (Some (at_ i))) /\
     (at_ i <= q < at_ (S i) ->
        g_utf8_find_next_char s q None = Some (Some (at_ (S i))) /\
        g_utf8_find_next_char s q (Some (at_ (length cs))) =
          Some (if decide (S i = length cs) then None else Some (at_ (S i))))) /\
  g_utf8_find_prev_char s (at_ 0%nat) (at_ 0%nat) = Some None /\
  (Forall (fun c => c <> 0) cs -> head post = Some 0 ->
   (forall i, (i <= length cs)%nat ->
      g_utf8_strlen s (at_ i) (-1) = Some (Z.of_nat (length cs - i)) /\
      (forall max, 0 <= max -> exists k, g_utf8_strlen s (at_ i) max = Some (Z.of_nat k) /\
         (i + k <= length cs)%nat /\ at_ (i + k)%nat - at_ i <= max /\
         ((i + k < length cs)%nat -> max < at_ (S (i + k)) - at_ i)) /\
      (forall n dest, 0 <= n -> let text := encodes (take (Z.to_nat n) (drop i cs)) in
         (length text < length dest)%nat ->
         g_utf8_strncpy dest s (at_ i) n = Some (text ++ 0 :: drop (S (length text)) dest))) /\
   (forall i j, (i <= j <= length cs)%nat ->
      g_utf8_substring s (at_ 0%nat) (Z.of_nat i) (Z.of_nat j) = Some (encodes (take (j - i) (drop i cs)) ++ [0]))).
Proof.
  intros Hcs Hpost. cbv zeta. assert (E0 : pos (Z.of_nat (length pre)) cs 0 = Z.of_nat (length pre)) by apply Z.add_0_r.
  split; [|split; [|split]].
  - intros i j Hi Hj. split; [by apply offset_to_pointer_spec|by apply pointer_to_offset_spec].
  - intros i c q Hi. split; intros Hq.
    + rewrite E0. split; [by eapply prev_char_spec|by eapply find_prev_char_spec].
    + by apply (find_next_char_spec pre cs post Hcs Hpost i c).
  - rewrite E0. by apply find_prev_char_none.
  - intros Hnz Hend. destruct post as [|b rest]; [done|]. injection Hend as ->.
    assert (Hpos : Forall (fun c => 0 < c < 2 ^ 31) cs).
    { rewrite Forall_forall in *. intros c Hc. pose proof (Hcs c Hc). pose proof (Hnz c Hc). cbn in *. lia. }
    split; [|intros i j Hij; by apply substring_spec].
    intros i Hi. split_and!; [by apply strlen_spec|intros max Hm; by apply strlen_max_spec|].
    intros n dest Hn. by apply utf8_strncpy_spec.
Qed.

(** The text aé€ and the bytes around it *)
Definition nav_text : list Z := [0x61; 0xe9; 0x20ac].

Lemma navigation_exact_witness :
  (Forall (fun c => 0 <= c < 2 ^ 31) nav_text /\ (exists b, head [0] = Some b /\ in_u 8 b /\ ~ cont b) /\
   Forall (fun c => c <> 0) nav_text) /\
  g_utf8_offset_to_pointer ([7] ++ encodes nav_text ++ [0]) 7 (-2) = Some 2 /\
  g_utf8_strlen ([7] ++ encodes nav_text ++ [0]) 1 (-1) = Some 3 /\
  g_utf8_substring ([7] ++ encodes nav_text ++ [0]) 1 1 3 = Some [0xc3; 0xa9; 0xe2; 0x82; 0xac; 0].
Proof.
  assert (H : Forall (fun c => 0 <= c < 2 ^ 31) nav_text) by (repeat constructor; vm_compute; congruence).
  assert (H' : exists b, head [0] = Some b /\ in_u 8 b /\ ~ cont b)
    by (exists 0; unfold in_u, cont; split; [reflexivity|split; lia]).
  assert (H'' : Forall (fun c => c <> 0) nav_text) by (repeat constructor; vm_compute; congruence).
  split; [exact (conj H (conj H' H''))|].
  destruct (navigation_exact [7] nav_text [0] H H') as (Hmove & _ & _ & Hcount).
  destruct (Hcount H'' eq_refl) as [Hlen Hsub].
  split; [exact (proj1 (Hmove 3%nat 1%nat (le_n 3) ltac:(cbn; lia)))|].
  split; [exact (proj1 (Hlen 0%nat ltac:(cbn; lia)))|exact (Hsub 1%nat 3%nat ltac:(cbn; lia))].
Defined.
