(* ===== verification/Utf8Search.v ===== *)
(** Searching for a character: g_utf8_strchr and g_utf8_strrchr of gutf8.c, on
    the substring searches of src/glib-2.56.1/glib/gstrfuncs.c. *)
From S2P Require Import Prelude Utf8 Utf8Char Utf8Valid Utf8Nav.

Open Scope c_scope.

(** * Searching for bytes *)

(** The inner loops: the bytes of [needle] at [p] *)
Fixpoint matches (s : list Z) (p : Z) (needle : list Z) : option bool :=
  match needle with
  | [] => Some true
  | x :: needle => b ← rd s p; if negb (b =? x) then Some false else matches s (p + 1) needle
  end.

(** The C library's [strstr] *)
Definition strstr (s : list Z) (haystack : Z) (needle : list Z) : option (option Z) :=
  iter (S (length s)) (fun p =>
    m ← matches s p needle;
    if (m : bool) then Some (inr (Some p))
    else c ← rd s p; Some (if c =? 0 then inr None else inl (p + 1))) haystack.

(** The bytes of a needle before its terminator *)
Definition needle_bytes (needle : list Z) : option (list Z) :=
  n ← strlen needle 0; Some (take (Z.to_nat n) needle).

Definition g_strstr_len (s : list Z) (haystack haystack_len : Z) (needle : list Z) : option (option Z) :=
  needle ← needle_bytes needle;
  if haystack_len <? 0 then strstr s haystack needle
  else
    let needle_len := Z.of_nat (length needle) in
    if needle_len =? 0 then Some (Some haystack)
    else if haystack_len <? needle_len then Some None
    else
      let end_ := haystack + haystack_len - needle_len in
      iter (S (length s)) (fun p =>
        if p <=? end_ then
          c ← rd s p;
          if c =? 0 then Some (inr None)
          else m ← matches s p needle; Some (if (m : bool) then inr (Some p) else inl (p + 1))
        else Some (inr None)) haystack.

(** The loops that go back from [p] *)
Definition search_back (s : list Z) (haystack : Z) (needle : list Z) (p : Z) : option (option Z) :=
  iter (S (length s)) (fun p =>
    if haystack <=? p then
      m ← matches s p needle; Some (if (m : bool) then inr (Some p) else inl (p - 1))
    else Some (inr None)) p.

Definition g_strrstr (s : list Z) (haystack : Z) (needle : list Z) : option (option Z) :=
  needle ← needle_bytes needle;
  let needle_len := Z.of_nat (length needle) in
  haystack_len ← strlen s haystack;
  if needle_len =? 0 then Some (Some haystack)
  else if haystack_len <? needle_len then Some None
  else search_back s haystack needle (haystack + haystack_len - needle_len).

Definition g_strrstr_len (s : list Z) (haystack haystack_len : Z) (needle : list Z) : option (option Z) :=
  if haystack_len <? 0 then g_strrstr s haystack needle
  else
    needle ← needle_bytes needle;
    let needle_len := Z.of_nat (length needle) in
    let haystack_max := haystack + haystack_len in
    p ← iter (S (length s)) (fun p =>
          if p <? haystack_max then c ← rd s p; Some (if c =? 0 then inr p else inl (p + 1))
          else Some (inr p)) haystack;
    if p <? haystack + needle_len then Some None
    else search_back s haystack needle (p - needle_len).

(** * Searching for a character *)

(** The array ch with the character and a terminator; [mem] is what it held. *)
Definition char_needle (mem : nat -> Z) (c : Z) : option (list Z) :=
  '(charlen, ch) ← g_unichar_to_utf8 c (mem <$> seq 0 10) (Some 0);
  array_set ch charlen 0.

Definition g_utf8_strchr (mem : nat -> Z) (s : list Z) (p len c : Z) : option (option Z) :=
  ch ← char_needle mem c; g_strstr_len s p len ch.

Definition g_utf8_strrchr (mem : nat -> Z) (s : list Z) (p len c : Z) : option (option Z) :=
  ch ← char_needle mem c; g_strrstr_len s p len ch.

(** * The needle *)

Lemma matches_spec s q needle u v :
  place s q (u ++ 0 :: v) -> Forall (fun x => x <> 0) needle ->
  matches s q needle = Some (bool_decide (needle `prefix_of` u)).
Proof.
  intros Hp Hn. revert q u Hp. induction Hn as [|x needle Hx _ IH]; intros q u Hp.
  - cbn. by rewrite bool_decide_true by apply prefix_nil.
  - cbn [matches]. rewrite (place_rd0 _ _ _ Hp). destruct u as [|b u]; cbn [app head mbind option_bind].
    + destruct (Z.eqb_spec 0 x); [congruence|]. cbn. rewrite bool_decide_false; [done|]. by intros [? ?].
    + destruct (Z.eqb_spec b x) as [->|Hb]; cbn [negb].
      * apply place_tail in Hp. rewrite (IH _ u Hp). f_equal. apply bool_decide_ext. split; [apply prefix_cons|].
        intros H. by apply prefix_cons_inv_2 in H.
      * rewrite bool_decide_false; [done|]. intros H. by apply prefix_cons_inv_1 in H.
Qed.

Lemma needle_spec mem c :
  0 < c < 2 ^ 31 -> (ch ← char_needle mem c; needle_bytes ch) = Some (encode c).
Proof.
  intros Hc. unfold char_needle. pose proof (encode_length_pos c) as Hl. set (buf := mem <$> seq 0 10).
  assert (Hb : length buf = 10%nat) by (subst buf; by rewrite length_fmap).
  pose proof (unichar_to_utf8_spec c [] (take (length (encode c)) buf) (drop (length (encode c)) buf)) as Hw.
  rewrite take_drop in Hw. cbn [app length] in Hw. change (Z.of_nat 0) with 0 in Hw.
  rewrite Hw by (lia || (rewrite length_take; lia)). cbn [mbind option_bind].
  destruct (drop (length (encode c)) buf) as [|x r] eqn:E; [apply (f_equal length) in E; rewrite length_drop in E; cbn in E; lia|].
  rewrite array_set_mid by done. cbn [mbind option_bind]. unfold needle_bytes.
  rewrite (strlen_bytes _ 0 (encode c) r); [|apply (place_app [])|by apply encode_nonzero]. cbn [mbind option_bind].
  by rewrite Nat2Z.id, take_app_length.
Qed.

(** * Searches find characters *)

Section search.
Context (pre cs rest : list Z) (Hcs : Forall (fun c => 0 < c < 2 ^ 31) cs) (c : Z) (Hc : 0 < c < 2 ^ 31).

Let s : list Z := pre ++ encodes cs ++ 0 :: rest.
Let at_ (i : nat) : Z := pos (Z.of_nat (length pre)) cs i.

(** The bytes of a character are found where that character is, and nowhere
    else in the text: not inside another character, and not across two. *)
Lemma matches_char q :
  at_ 0 <= q <= at_ (length cs) ->
  exists b, matches s q (encode c) = Some b /\
    (b = true <-> exists i, q = at_ i /\ cs !! i = Some c).
Proof.
  intros Hq. pose proof (weak cs Hcs) as Hw.
  assert (Hbyte : forall i, (i <= length cs)%nat -> matches s (at_ i) (encode c) = Some (bool_decide (cs !! i = Some c))).
  { intros i Hi. pose proof (at_place pre cs (0 :: rest) i Hi) as Hp. fold s in Hp. fold (at_ i) in Hp.
    rewrite (matches_spec _ _ _ _ _ Hp) by by apply encode_nonzero. f_equal. apply bool_decide_ext. split.
    - intros Hpre. destruct (drop i cs) as [|c' l] eqn:E.
      + destruct Hpre as [r Er]. destruct (encode_cons c) as (b & ks & El). by rewrite El in Er.
      + pose proof (lookup_drop cs i 0) as Hlk. rewrite E, Nat.add_0_r in Hlk. cbn in Hlk. rewrite <- Hlk. f_equal.
        symmetry. apply (encode_prefix_inj c c' (encodes (c' :: l))); [lia| |done|by eexists].
        by apply (char_range cs Hw i c').
    - intros Hi'. rewrite (drop_S _ _ _ Hi'). by eexists. }
  destruct (decide (q = at_ (length cs))) as [->|Hne].
  { eexists; split; [by apply Hbyte|]. rewrite bool_decide_eq_true. split; [eauto|].
    intros (i & E & Hi). pose proof (lookup_lt_Some _ _ _ Hi). pose proof (at_lt pre cs i (length cs)). unfold at_ in *. lia. }
  destruct (in_char pre cs q (length cs) ltac:(done)) as (i & c' & Hi & Hc' & Hqi); [unfold at_ in *; lia|].
  fold (at_ i) (at_ (S i)) in Hqi. destruct (decide (q = at_ i)) as [->|Hni].
  - eexists; split; [apply Hbyte; lia|]. rewrite bool_decide_eq_true. split; [eauto|].
    intros (j & E & Hj). replace i with j; [done|]. pose proof (lookup_lt_Some _ _ _ Hj).
    pose proof (at_inj pre cs i j ltac:(lia) ltac:(lia)). pose proof (at_inj pre cs j i ltac:(lia) ltac:(lia)). unfold at_ in *. lia.
  - destruct (inner_byte pre cs (0 :: rest) Hw i c' q Hc') as (b & Hb & Hcont); [unfold at_ in *; lia|]. fold s in Hb.
    exists false. split.
    + destruct (encode_cons c) as (l & ks & El). rewrite El. cbn [matches]. rewrite Hb. cbn [mbind option_bind].
      destruct (Z.eqb_spec b l) as [->|]; [|done]. exfalso.
      destruct (lead_len_encode c ltac:(lia)) as [_ Hn]. rewrite encode_shape in El by lia. injection El as El _.
      rewrite El in Hn. pose proof (width_bounds c). unfold lead_len, cont in *. repeat case_match; rewrite ?Z.ltb_ge, ?Z.ltb_lt in *; lia.
    + split; [done|]. intros (j & E & Hj). exfalso. pose proof (lookup_lt_Some _ _ _ Hj).
      pose proof (at_inj pre cs i j ltac:(lia) ltac:(lia)). pose proof (at_inj pre cs j (S i) ltac:(lia) ltac:(lia)).
      unfold at_ in *. lia.
Qed.

Lemma at_end : at_ (length cs) = at_ 0 + Z.of_nat (length (encodes cs)) /\ at_ 0 = Z.of_nat (length pre) /\
  at_ (length cs) < Z.of_nat (length s).
Proof.
  unfold at_, pos. rewrite firstn_all. change (encodes (take 0 cs)) with (@nil Z). unfold s. rewrite !length_app. cbn. lia.
Qed.

Lemma at_mono i j : (i <= j <= length cs)%nat -> at_ i <= at_ j.
Proof. intros Hij. destruct (decide (i = j)) as [->|]; [lia|]. pose proof (at_lt pre cs i j). unfold at_ in *. lia. Qed.

(** The terminator is the only zero in sight. *)
Lemma text_byte q : at_ 0 <= q <= at_ (length cs) -> exists b, rd s q = Some b /\ (b = 0 <-> q = at_ (length cs)).
Proof.
  intros Hq. destruct at_end as (He & H0 & Hs). pose proof (place_app pre (encodes cs ++ 0 :: rest)) as Hp. fold s in Hp.
  replace q with (Z.of_nat (length pre) + (q - at_ 0)) by lia. rewrite (place_rd _ _ _ _ Hp) by lia.
  destruct (decide (q = at_ (length cs))) as [->|Hne].
  - exists 0. replace (Z.to_nat _) with (length (encodes cs)) by lia. rewrite lookup_app_mid. split; [done|]. split; [lia|done].
  - assert (exists b, encodes cs !! Z.to_nat (q - at_ 0) = Some b) as [b Hb] by (apply lookup_lt_is_Some_2; lia).
    exists b. rewrite (lookup_app_l_Some _ _ _ _ Hb). split; [done|].
    pose proof (encodes_nonzero cs Hcs) as Hnz. rewrite Forall_lookup in Hnz. pose proof (Hnz _ _ Hb). lia.
Qed.

(** The character [i] is complete within the limit. *)
Definition within (len : Z) (i : nat) : Prop := len < 0 \/ at_ (S i) - at_ 0 <= len.

Definition first_found (len : Z) (r : option Z) : Prop :=
  match r with
  | Some q => exists i, q = at_ i /\ cs !! i = Some c /\ within len i /\ (forall j, cs !! j = Some c -> (i <= j)%nat)
  | None => forall i, cs !! i = Some c -> ~ within len i
  end.

Definition last_found (len : Z) (r : option Z) : Prop :=
  match r with
  | Some q => exists i, q = at_ i /\ cs !! i = Some c /\ within len i /\
      (forall j, cs !! j = Some c -> within len j -> (j <= i)%nat)
  | None => forall i, cs !! i = Some c -> ~ within len i
  end.

Lemma at_char_end i : cs !! i = Some c -> at_ (S i) = at_ i + Z.of_nat (length (encode c)) /\ at_ 0 <= at_ i /\ at_ (S i) <= at_ (length cs).
Proof.
  intros Hi. pose proof (lookup_lt_Some _ _ _ Hi). split; [by apply (at_S pre cs i c)|].
  split; apply at_mono; lia.
Qed.

Lemma at_order i j : (i < length cs)%nat -> (j < length cs)%nat -> at_ i <= at_ j -> (i <= j)%nat.
Proof. intros Hi Hj H. pose proof (at_inj pre cs j i ltac:(lia) ltac:(lia)). unfold at_ in *. lia. Qed.

(** The state of a forward search: no occurrence is behind *)
Definition ahead (q : Z) : Prop := at_ 0 <= q <= at_ (length cs) /\ forall i, cs !! i = Some c -> q <= at_ i.

Lemma ahead_start : ahead (at_ 0).
Proof. split; [split; [lia|apply at_mono; lia]|]. intros i Hi. by apply at_char_end. Qed.

Lemma ahead_found len q i :
  ahead q -> q = at_ i -> cs !! i = Some c -> within len i -> first_found len (Some q).
Proof.
  intros [_ Hah] -> Hi Hw. exists i. split_and!; try done. intros j Hj.
  apply at_order; [by eapply lookup_lt_Some..|by apply Hah].
Qed.

Lemma ahead_next q : ahead q -> (~ exists i, q = at_ i /\ cs !! i = Some c) -> q <> at_ (length cs) -> ahead (q + 1).
Proof.
  intros [Hq Hah] Hn Hne. split; [lia|]. intros i Hi. pose proof (Hah i Hi).
  destruct (decide (q = at_ i)); [exfalso; eauto|lia].
Qed.

Lemma ahead_end : ahead (at_ (length cs)) -> forall i, cs !! i <> Some c.
Proof.
  intros [_ Hah] i Hi. pose proof (Hah i Hi). pose proof (at_char_end i Hi). pose proof (encode_length_pos c). lia.
Qed.

Lemma strstr_first : exists r, strstr s (at_ 0) (encode c) = Some r /\ first_found (-1) r.
Proof.
  destruct at_end as (_ & H0 & Hs). unfold strstr.
  apply (iter_total _ ahead (fun q => Z.to_nat (Z.of_nat (length s) - q))); [|apply ahead_start|lia].
  intros q Hah. pose proof Hah as [Hq _]. destruct (matches_char q Hq) as (b & -> & Hb). cbn [mbind option_bind]. destruct b.
  - destruct (proj1 Hb eq_refl) as (i & E & Hi). eexists; split; [done|]. eapply ahead_found; [done..|]. left. lia.
  - destruct (text_byte q Hq) as (x & -> & Hx). cbn [mbind option_bind]. destruct (Z.eqb_spec x 0) as [E|E].
    + eexists; split; [done|]. apply Hx in E. subst q. intros i Hi. by apply ahead_end in Hi.
    + eexists; split; [done|]. split; [|lia]. apply ahead_next; [done| |by rewrite <- Hx]. rewrite <- Hb. done.
Qed.

Lemma strchr_first mem len : exists r, g_utf8_strchr mem s (at_ 0) len c = Some r /\ first_found len r.
Proof.
  destruct at_end as (_ & H0 & Hs). unfold g_utf8_strchr. pose proof (needle_spec mem c Hc) as Hnd.
  destruct (char_needle mem c) as [ch|]; [|done]. cbn [mbind option_bind] in Hnd |- *. unfold g_strstr_len. rewrite Hnd.
  cbn [mbind option_bind]. destruct (Z.ltb_spec len 0).
  { destruct strstr_first as (r & Hr & Hf). exists r. split; [done|]. destruct r as [q|].
    - destruct Hf as (i & E & Hi & _ & Hfirst). exists i. split_and!; try done. by left.
    - intros i Hi. exfalso. apply (Hf i Hi). left. lia. }
  pose proof (encode_length_pos c) as Hl. destruct (Z.eqb_spec (Z.of_nat (length (encode c))) 0); [lia|].
  destruct (Z.ltb_spec len (Z.of_nat (length (encode c)))).
  { eexists; split; [done|]. intros i Hi [?|?]; [lia|]. pose proof (at_char_end i Hi). lia. }
  apply (iter_total _ ahead (fun q => Z.to_nat (Z.of_nat (length s) - q))); [|apply ahead_start|lia].
  intros q Hah. pose proof Hah as [Hq _]. destruct (Z.leb_spec q (at_ 0 + len - Z.of_nat (length (encode c)))) as [Hle|Hle].
  - destruct (text_byte q Hq) as (x & -> & Hx). cbn [mbind option_bind]. destruct (Z.eqb_spec x 0) as [E|E].
    + eexists; split; [done|]. apply Hx in E. subst q. intros i Hi. by apply ahead_end in Hi.
    + destruct (matches_char q Hq) as (b & -> & Hb). cbn [mbind option_bind]. destruct b; (eexists; split; [done|]).
      * destruct (proj1 Hb eq_refl) as (i & Ei & Hi). eapply ahead_found; [done..|]. right.
        pose proof (at_char_end i Hi). lia.
      * split; [|lia]. apply ahead_next; [done| |by rewrite <- Hx]. rewrite <- Hb. done.
  - eexists; split; [done|]. intros i Hi [?|?]; [lia|]. destruct Hah as [_ Hah]. pose proof (Hah i Hi).
    pose proof (at_char_end i Hi). lia.
Qed.

(** The backward loop finds the last occurrence that starts up to [p0]. *)
Lemma search_back_last p0 :
  p0 <= at_ (length cs) ->
  exists r, search_back s (at_ 0) (encode c) p0 = Some r /\
    match r with
    | Some q => exists i, q = at_ i /\ cs !! i = Some c /\ q <= p0 /\ (forall j, cs !! j = Some c -> at_ j <= p0 -> (j <= i)%nat)
    | None => forall i, cs !! i = Some c -> p0 < at_ i
    end.
Proof.
  intros Hp0. destruct at_end as (_ & H0 & Hs). unfold search_back.
  apply (iter_total _ (fun q => q <= p0 /\ forall i, cs !! i = Some c -> at_ i <= p0 -> at_ i <= q)
    (fun q => Z.to_nat (q - at_ 0 + 1))); [|by split|lia].
  intros q [Hq Hbe]. destruct (Z.leb_spec (at_ 0) q) as [Hle|Hle].
  - destruct (matches_char q) as (b & -> & Hb); [lia|]. cbn [mbind option_bind]. destruct b; (eexists; split; [done|]).
    + destruct (proj1 Hb eq_refl) as (i & Ei & Hi). exists i. split_and!; try done. intros j Hj Hjp.
      apply at_order; [by eapply lookup_lt_Some..|]. rewrite <- Ei. by apply Hbe.
    + split; [|lia]. split; [lia|]. intros i Hi Hip. pose proof (Hbe i Hi Hip).
      destruct (decide (at_ i = q)) as [E|E]; [|lia]. exfalso. assert (false = true) by (apply Hb; eauto). done.
  - eexists; split; [done|]. intros i Hi. destruct (decide (p0 < at_ i)); [done|]. pose proof (Hbe i Hi). pose proof (at_char_end i Hi). lia.
Qed.

Lemma strrchr_last mem len : exists r, g_utf8_strrchr mem s (at_ 0) len c = Some r /\ last_found len r.
Proof.
  destruct at_end as (He & H0 & Hs). unfold g_utf8_strrchr. pose proof (needle_spec mem c Hc) as Hnd.
  destruct (char_needle mem c) as [ch|]; [|done]. cbn [mbind option_bind] in Hnd |- *. unfold g_strrstr_len, g_strrstr.
  rewrite Hnd. cbn [mbind option_bind]. pose proof (encode_length_pos c) as Hl. destruct (Z.ltb_spec len 0).
  - rewrite (strlen_bytes s (at_ 0) (encodes cs) rest).
    2:{ rewrite H0. apply place_app. }
    2:{ by apply encodes_nonzero. }
    cbn [mbind option_bind]. destruct (Z.eqb_spec (Z.of_nat (length (encode c))) 0); [lia|].
    destruct (Z.ltb_spec (Z.of_nat (length (encodes cs))) (Z.of_nat (length (encode c)))).
    { eexists; split; [done|]. intros i Hi. pose proof (at_char_end i Hi). lia. }
    destruct (search_back_last (at_ 0 + Z.of_nat (length (encodes cs)) - Z.of_nat (length (encode c)))) as (r & -> & Hr); [lia|].
    eexists; split; [done|]. destruct r as [q|].
    + destruct Hr as (i & E & Hi & Hle & Hlast). exists i. split_and!; try done; [by left|].
      intros j Hj _. apply Hlast; [done|]. pose proof (at_char_end j Hj). lia.
    + intros i Hi _. pose proof (Hr i Hi). pose proof (at_char_end i Hi). lia.
  - set (stop := Z.min (at_ (length cs)) (at_ 0 + len)).
    rewrite (iter_yields _ (fun q => at_ 0 <= q <= stop) (fun q => Z.to_nat (stop - q)) stop).
    + cbn [mbind option_bind]. destruct (Z.ltb_spec stop (at_ 0 + Z.of_nat (length (encode c)))).
      { eexists; split; [done|]. intros i Hi [?|?]; [lia|]. pose proof (at_char_end i Hi). lia. }
      destruct (search_back_last (stop - Z.of_nat (length (encode c)))) as (r & -> & Hr); [lia|].
      eexists; split; [done|]. destruct r as [q|].
      * destruct Hr as (i & E & Hi & Hle & Hlast). exists i. split_and!; try done.
        -- right. pose proof (at_char_end i Hi). lia.
        -- intros j Hj [?|?]; [lia|]. apply Hlast; [done|]. pose proof (at_char_end j Hj). lia.
      * intros i Hi [?|?]; [lia|]. pose proof (Hr i Hi). pose proof (at_char_end i Hi). lia.
    + intros q Hq. destruct (Z.ltb_spec q (at_ 0 + len)).
      * destruct (text_byte q) as (x & -> & Hx); [lia|]. cbn [mbind option_bind]. eexists; split; [done|].
        destruct (Z.eqb_spec x 0) as [E|E]; [apply Hx in E; lia|]. assert (q <> at_ (length cs)) by by rewrite <- Hx. lia.
      * eexists; split; [done|]. cbn. lia.
    + pose proof (at_mono 0 (length cs) ltac:(lia)). lia.
    + lia.
Qed.
End search.

(** C17: in a text with its terminator, [g_utf8_strchr] finds the first and
    [g_utf8_strrchr] the last occurrence of a character that is complete within
    the limit, and null if there is none: the search for its bytes finds only
    whole characters, never a place inside a character or across two. *)
Theorem search_exact pre cs rest c mem len :
  Forall (fun c => 0 < c < 2 ^ 31) cs -> 0 < c < 2 ^ 31 ->
  let s := pre ++ encodes cs ++ 0 :: rest in
  let at_ := pos (Z.of_nat (length pre)) cs in
  (exists r, g_utf8_strchr mem s (at_ 0%nat) len c = Some r /\ first_found pre cs c len r) /\
  (exists r, g_utf8_strrchr mem s (at_ 0%nat) len c = Some r /\ last_found pre cs c len r).
Proof. intros Hcs Hc. cbv zeta. split; [by apply strchr_first|by apply strrchr_last]. Qed.

(** The last € of the text €aé€ that is complete within eight bytes *)
Definition search_text : list Z := [0x20ac; 0x61; 0xe9; 0x20ac].

Lemma search_exact_witness :
  (Forall (fun c => 0 < c < 2 ^ 31) search_text /\ 0 < 0x20ac < 2 ^ 31) /\
  g_utf8_strrchr (fun _ => 7) ([7] ++ encodes search_text ++ [0]) 1 8 0x20ac = Some (Some 1) /\
  g_utf8_strrchr (fun _ => 7) ([7] ++ encodes search_text ++ [0]) 1 (-1) 0x20ac = Some (Some 7) /\
  exists r, g_utf8_strchr (fun _ => 7) ([7] ++ encodes search_text ++ [0]) 1 8 0x20ac = Some r /\
    first_found [7] search_text 0x20ac 8 r.
Proof.
  assert (H1 : Forall (fun c => 0 < c < 2 ^ 31) search_text) by (repeat constructor; vm_compute; congruence).
  assert (H2 : 0 < 0x20ac < 2 ^ 31) by (vm_compute; split; congruence).
  split; [exact (conj H1 H2)|]. split; [vm_compute; reflexivity|]. split; [vm_compute; reflexivity|].
  exact (proj1 (search_exact [7] search_text [] 0x20ac (fun _ => 7) 8 H1 H2)).
Defined.
