(* ===== verification/Utf8Convert.v ===== *)
(** Conversions between UTF-8, UTF-16 and UCS-4, the reversal of a text and the
    repair of invalid text: the second half of src/glib-2.56.1/glib/gutf8.c.

    The C library's [malloc] is a parameter: it fails or gives memory with any
    contents.  A counter of type gint fails ([None]) beyond its range. *)
From S2P Require Import Prelude Utf8.

Open Scope c_scope.

(** * Results *)

Inductive convert_error := NO_MEMORY | ILLEGAL_SEQUENCE | PARTIAL_INPUT.

(** What a call gives: its result, the values it stores through its pointer
    arguments, and the error.  The caller may pass no place for the number of
    items read; the place for the number written is always passed. *)
Record converted := Converted {
  result : option (list Z);
  items_read : option Z;
  items_written : option Z;
  error : option convert_error }.

(** The value of a gint *)
Definition gint (x : Z) : option Z := if decide (- 2 ^ 31 <= x < 2 ^ 31) then Some x else None.

(** A call that jumps to err_out, and one that succeeds *)
Definition failed (want_read : bool) (read : Z) (e : convert_error) : converted :=
  Converted None (if want_read then Some read else None) None (Some e).
Definition succeeded (want_read : bool) (read written : Z) (out : list Z) : converted :=
  Converted (Some out) (if want_read then Some read else None) (Some written) None.

(** * Memory *)

Definition G_MAXSIZE : Z := 2 ^ 64 - 1.

Definition SIZE_OVERFLOWS (a b : Z) : bool := (0 <? b) && (G_MAXSIZE / b <? a).

Definition g_try_malloc (malloc : Z -> option (nat -> Z)) (n_bytes : Z) : option (nat -> Z) := if n_bytes =? 0 then None else malloc n_bytes.

(** The memory as [n_blocks] items *)
Definition g_try_malloc_n (malloc : Z -> option (nat -> Z)) (n_blocks n_block_bytes : Z) : option (list Z) :=
  if SIZE_OVERFLOWS n_blocks n_block_bytes then None
  else mem ← g_try_malloc malloc (n_blocks * n_block_bytes); Some (mem <$> seq 0 (Z.to_nat n_blocks)).

(** * Writing a character *)

(** Each writes the character to its place of the result and gives the next
    place. *)
Definition put_ucs4 (buf : list Z) (i wc : Z) : option (list Z * Z) :=
  buf ← array_set buf i wc; Some (buf, i + 1).

Definition put_utf8 (buf : list Z) (p wc : Z) : option (list Z * Z) :=
  '(k, buf) ← g_unichar_to_utf8 wc buf (Some p); Some (buf, p + k).

Definition put_utf16 (buf : list Z) (i wc : Z) : option (list Z * Z) :=
  if wc <? 0x10000 then buf ← array_set buf i (u16 wc); Some (buf, i + 1)
  else
    buf ← array_set buf i (u16 ((wc - 0x10000) / 0x400 + 0xd800));
    buf ← array_set buf (i + 1) (u16 ((wc - 0x10000) mod 0x400 + 0xdc00));
    Some (buf, i + 2).

(** A place in bytes; the memory is used in units of four. *)
Definition put_gunichar (buf : list Z) (out wc : Z) : option (list Z * Z) :=
  buf ← array_set buf (out / 4) wc; Some (buf, out + 4).

(** * From UTF-8 *)

Definition CONT_BYTE_FAST (s : list Z) (p : Z) : option (Z * Z) := c ← rd s p; Some (c .& 0x3f, p + 1).

(** The loop over the bytes of an out-of-range sequence *)
Definition fast_rest (s : list Z) (p wc : Z) : option (Z * Z) :=
  '(wc, mask, p) ← iter 4 (fun '(wc, mask, p) =>
    if negb (wc .& mask =? 0) then
      '(ch, p) ← CONT_BYTE_FAST s p;
      Some (inl (u32 (wc .<< 6) .| ch, u32 (mask .<< 5), p))
    else Some (inr (wc, mask, p))) (wc, 1 .<< 20, p);
  Some (wc .& u32 (mask - 1), p).

(** One character of g_utf8_to_ucs4_fast, and the place behind it *)
Definition fast_char (s : list Z) (p : Z) : option (Z * Z) :=
  first ← rd s p;
  let p := p + 1 in
  if first <? 0xc0 then Some (first, p)
  else
    '(c1, p) ← CONT_BYTE_FAST s p;
    if first <? 0xe0 then Some (((first .& 0x1f) .<< 6) .| c1, p)
    else
      '(c2, p) ← CONT_BYTE_FAST s p;
      if first <? 0xf0 then Some (((first .& 0x0f) .<< 12) .| (c1 .<< 6) .| c2, p)
      else
        '(c3, p) ← CONT_BYTE_FAST s p;
        let wc := ((first .& 0x07) .<< 18) .| (c1 .<< 12) .| (c2 .<< 6) .| c3 in
        if 0xf8 <=? first then fast_rest s p wc else Some (wc, p).

(** [buf] is the memory that [g_new] gives; it aborts the program if there is
    none.  The text starts the buffer [s].  The result: the string, and the
    number of items written. *)
Definition g_utf8_to_ucs4_fast (mem : nat -> Z) (s : list Z) (len : Z) : option (list Z * Z) :=
  n_chars ← iter (S (length s)) (fun '(p, n_chars) =>
    if (len <? 0) || (p <? len) then
      c ← rd s p;
      if c =? 0 then Some (inr n_chars)
      else q ← g_utf8_next_char s p; n ← gint (n_chars + 1); Some (inl (q, n))
    else Some (inr n_chars)) (0, 0);
  n1 ← gint (n_chars + 1);
  let buf := mem <$> seq 0 (Z.to_nat n1) in
  '(i, buf) ← iter (S (Z.to_nat n_chars)) (fun '(i, p, buf) =>
    if i <? n_chars then
      '(wc, p) ← fast_char s p;
      buf ← array_set buf i wc;
      Some (inl (i + 1, p, buf))
    else Some (inr (i, buf))) (0, 0, buf);
  buf ← array_set buf i 0;
  Some (buf, i).

(** The loop that checks and counts: where it stops, the count, and the error.
    [size] gives the items of a character, or its error. *)
Definition utf8_scan (size : Z -> Z + convert_error) (s : list Z) (len : Z) (want_read : bool)
  : option (Z * Z * option convert_error) :=
  iter (S (length s)) (fun '(inp, n) =>
    if (len <? 0) || (0 <? len - inp) then
      c ← rd s inp;
      if c =? 0 then Some (inr (inp, n, None))
      else
        wc ← g_utf8_get_char_extended s inp (if len <? 0 then 6 else len - inp);
        if negb (wc .& 0x80000000 =? 0) then
          if wc =? u32 (-2) then
            if want_read then Some (inr (inp, n, None)) else Some (inr (inp, n, Some PARTIAL_INPUT))
          else Some (inr (inp, n, Some ILLEGAL_SEQUENCE))
        else
          match size wc with
          | inl k => n ← gint (n + k); q ← g_utf8_next_char s inp; Some (inl (q, n))
          | inr e => Some (inr (inp, n, Some e))
          end
    else Some (inr (inp, n, None))) (0, 0).

(** The loop that converts, up to [n] items *)
Definition utf8_convert (put : list Z -> Z -> Z -> option (list Z * Z)) (s : list Z) (n : Z) (buf : list Z)
  : option (Z * Z * list Z) :=
  iter (S (Z.to_nat n)) (fun '(inp, i, buf) =>
    if i <? n then
      wc ← g_utf8_get_char s inp;
      '(buf, i) ← put buf i wc;
      q ← g_utf8_next_char s inp;
      Some (inl (q, i, buf))
    else Some (inr (inp, i, buf))) (0, 0, buf).

Definition g_utf8_to_ucs4 (malloc : Z -> option (nat -> Z)) (s : list Z) (len : Z) (want_read : bool)
  : option converted :=
  '(inp, n_chars, e) ← utf8_scan (fun _ => inl 1) s len want_read;
  match e with
  | Some e => Some (failed want_read inp e)
  | None =>
      n1 ← gint (n_chars + 1);
      match g_try_malloc_n malloc n1 4 with
      | None => Some (failed want_read inp NO_MEMORY)
      | Some buf =>
          '(inp, i, buf) ← utf8_convert put_ucs4 s n_chars buf;
          buf ← array_set buf i 0;
          Some (succeeded want_read inp n_chars buf)
      end
  end.

(** The number of UTF-16 units of a character *)
Definition utf16_size (wc : Z) : Z + convert_error :=
  if wc <? 0xd800 then inl 1
  else if wc <? 0xe000 then inr ILLEGAL_SEQUENCE
  else if wc <? 0x10000 then inl 1
  else if wc <? 0x110000 then inl 2
  else inr ILLEGAL_SEQUENCE.

Definition g_utf8_to_utf16 (malloc : Z -> option (nat -> Z)) (s : list Z) (len : Z) (want_read : bool)
  : option converted :=
  '(inp, n16, e) ← utf8_scan utf16_size s len want_read;
  match e with
  | Some e => Some (failed want_read inp e)
  | None =>
      n1 ← gint (n16 + 1);
      match g_try_malloc_n malloc n1 2 with
      | None => Some (failed want_read inp NO_MEMORY)
      | Some buf =>
          '(inp, i, buf) ← utf8_convert put_utf16 s n16 buf;
          buf ← array_set buf i 0;
          Some (succeeded want_read inp n16 buf)
      end
  end.

(** * From UCS-4 *)

(** The loop that checks and counts *)
Definition ucs4_scan (size : Z -> Z + convert_error) (s : list Z) (len : Z)
  : option (Z * Z * option convert_error) :=
  iter (S (length s)) (fun '(i, n) =>
    if (len <? 0) || (i <? len) then
      wc ← rd s i;
      if wc =? 0 then Some (inr (i, n, None))
      else
        match size wc with
        | inl k => n ← gint (n + k); i ← gint (i + 1); Some (inl (i, n))
        | inr e => Some (inr (i, n, Some e))
        end
    else Some (inr (i, n, None))) (0, 0).

Definition utf8_size (wc : Z) : Z + convert_error :=
  if 0x80000000 <=? wc then inr ILLEGAL_SEQUENCE else inl (UTF8_LENGTH wc).

(** The loop that converts, up to [n] items *)
Definition ucs4_convert (put : list Z -> Z -> Z -> option (list Z * Z)) (s : list Z) (n : Z) (buf : list Z)
  : option (Z * Z * list Z) :=
  iter (S (Z.to_nat n)) (fun '(i, j, buf) =>
    if j <? n then
      wc ← rd s i;
      '(buf, j) ← put buf j wc;
      Some (inl (i + 1, j, buf))
    else Some (inr (i, j, buf))) (0, 0, buf).

Definition g_ucs4_to_utf8 (malloc : Z -> option (nat -> Z)) (s : list Z) (len : Z) (want_read : bool)
  : option converted :=
  '(i, result_length, e) ← ucs4_scan utf8_size s len;
  match e with
  | Some e => Some (failed want_read i e)
  | None =>
      n1 ← gint (result_length + 1);
      match g_try_malloc_n malloc n1 1 with
      | None => Some (failed want_read i NO_MEMORY)
      | Some buf =>
          '(i, p, buf) ← ucs4_convert put_utf8 s result_length buf;
          buf ← array_set buf p 0;
          Some (succeeded want_read i p buf)
      end
  end.

Definition g_ucs4_to_utf16 (malloc : Z -> option (nat -> Z)) (s : list Z) (len : Z) (want_read : bool)
  : option converted :=
  '(i, n16, e) ← ucs4_scan utf16_size s len;
  match e with
  | Some e => Some (failed want_read i e)
  | None =>
      n1 ← gint (n16 + 1);
      match g_try_malloc_n malloc n1 2 with
      | None => Some (failed want_read i NO_MEMORY)
      | Some buf =>
          '(i, j, buf) ← ucs4_convert put_utf16 s n16 buf;
          buf ← array_set buf j 0;
          Some (succeeded want_read i n16 buf)
      end
  end.

(** * From UTF-16 *)

Definition SURROGATE_VALUE (h l : Z) : Z := u32 ((h - 0xd800) * 0x400 + l - 0xdc00 + 0x10000).

Definition low_surrogate (c : Z) : bool := (0xdc00 <=? c) && (c <? 0xe000).
Definition high_surrogate (c : Z) : bool := (0xd800 <=? c) && (c <? 0xdc00).

(** The loop that checks and counts, with the surrogate that waits for its
    second half (0 for none); [size] gives the bytes of a character. *)
Definition utf16_scan (size : Z -> Z) (s : list Z) (len : Z) (want_read : bool)
  : option (Z * Z * option convert_error) :=
  '(inp, n, high, e) ← iter (S (length s)) (fun '(inp, n, high) =>
    let next1 n high := Some (inl (inp + 1, n, high)) in
    let count wc high := n ← gint (n + size wc); next1 n high in
    if (len <? 0) || (inp <? len) then
      c ← rd s inp;
      if c =? 0 then Some (inr (inp, n, high, None))
      else if low_surrogate c then
        if negb (high =? 0) then count (SURROGATE_VALUE high c) 0
        else Some (inr (inp, n, high, Some ILLEGAL_SEQUENCE))
      else
        if negb (high =? 0) then Some (inr (inp, n, high, Some ILLEGAL_SEQUENCE))
        else if high_surrogate c then next1 n c
        else count c high
    else Some (inr (inp, n, high, None))) (0, 0, 0);
  match e with
  | Some e => Some (inp, n, Some e)
  | None => Some (inp, n, if negb (high =? 0) && negb want_read then Some PARTIAL_INPUT else None)
  end.

(** The loop that converts; [put] writes a character. *)
Definition utf16_convert (put : list Z -> Z -> Z -> option (list Z * Z)) (s : list Z) (n_bytes : Z) (buf : list Z)
  : option (Z * Z * list Z) :=
  iter (S (length s)) (fun '(inp, out, high, buf) =>
    if out <? n_bytes then
      c ← rd s inp;
      if low_surrogate c then
        '(buf, out) ← put buf out (SURROGATE_VALUE high c); Some (inl (inp + 1, out, 0, buf))
      else if high_surrogate c then Some (inl (inp + 1, out, c, buf))
      else '(buf, out) ← put buf out c; Some (inl (inp + 1, out, high, buf))
    else Some (inr (inp, out, buf))) (0, 0, 0, buf).

Definition g_utf16_to_utf8 (malloc : Z -> option (nat -> Z)) (s : list Z) (len : Z) (want_read : bool)
  : option converted :=
  '(inp, n_bytes, e) ← utf16_scan UTF8_LENGTH s len want_read;
  match e with
  | Some e => Some (failed want_read inp e)
  | None =>
      n1 ← gint (n_bytes + 1);
      match g_try_malloc_n malloc n1 1 with
      | None => Some (failed want_read inp NO_MEMORY)
      | Some buf =>
          '(inp, out, buf) ← utf16_convert put_utf8 s n_bytes buf;
          buf ← array_set buf out 0;
          Some (succeeded want_read inp out buf)
      end
  end.

(** The memory, of n_bytes + 4 bytes, is used in units of four. *)
Definition g_utf16_to_ucs4 (malloc : Z -> option (nat -> Z)) (s : list Z) (len : Z) (want_read : bool)
  : option converted :=
  '(inp, n_bytes, e) ← utf16_scan (fun _ => 4) s len want_read;
  match e with
  | Some e => Some (failed want_read inp e)
  | None =>
      n4 ← gint (n_bytes + 4);
      match (if SIZE_OVERFLOWS n4 1 then None else g_try_malloc malloc n4) with
      | None => Some (failed want_read inp NO_MEMORY)
      | Some mem =>
          '(inp, out, buf) ← utf16_convert put_gunichar s n_bytes (mem <$> seq 0 (Z.to_nat (n4 / 4)));
          buf ← array_set buf (out / 4) 0;
          Some (succeeded want_read inp (out / 4) buf)
      end
  end.

(** * Reversal *)

(** The loop that copies [skip] bytes from [p] to [m] *)
Fixpoint copy_char (s : list Z) (p : Z) (buf : list Z) (m : Z) (skip : nat) : option (list Z) :=
  match skip with
  | O => Some buf
  | S skip => c ← rd s p; buf ← array_set buf m c; copy_char s (p + 1) buf (m + 1) skip
  end.

Definition g_utf8_strreverse (mem : nat -> Z) (s : list Z) (len : Z) : option (list Z) :=
  len ← (if len <? 0 then strlen s 0 else Some len);
  let buf := mem <$> seq 0 (Z.to_nat (len + 1)) in
  buf ← iter (S (Z.to_nat len)) (fun '(r, p, buf) =>
    if 0 <? r then
      c ← rd s p;
      let skip := g_utf8_skip c in
      let r := r - skip in
      buf ← copy_char s p buf r (Z.to_nat skip);
      Some (inl (r, p + skip, buf))
    else Some (inr buf)) (len, 0, buf);
  array_set buf len 0.

(** * Repair *)

(** gstrfuncs.c: the copy of at most [n] bytes, with a terminator *)
Definition g_strndup (s : list Z) (n : Z) : option (list Z) :=
  l ← strncpy s (Z.to_nat n); Some (l ++ [0]).

(** A GString is the list of its bytes. *)
Definition g_utf8_make_valid (s : list Z) (len : Z) : option (list Z) :=
  len ← (if len <? 0 then strlen s 0 else Some len);
  '(string, remainder, remaining_bytes) ← iter (S (Z.to_nat len)) (fun '(string, remainder, remaining_bytes) =>
    if negb (remaining_bytes =? 0) then
      '(valid, invalid) ← g_utf8_validate s remainder remaining_bytes;
      if (valid : bool) then Some (inr (string, remainder, remaining_bytes))
      else
        let valid_bytes := invalid - remainder in
        let string := default [] string in
        l ← slice s remainder valid_bytes;
        Some (inl (Some (string ++ l ++ [0xef; 0xbf; 0xbd]), invalid + 1, remaining_bytes - (valid_bytes + 1)))
    else Some (inr (string, remainder, remaining_bytes))) (None, 0, len);
  match string with
  | None => g_strndup s len
  | Some string =>
      l ← slice s remainder remaining_bytes;
      let string := string ++ l ++ [0] in
      '(valid, _) ← g_utf8_validate string 0 (-1);
      if (valid : bool) then Some string else None
  end.
