(* ===== verification/Utf8Scan.v ===== *)
(** The conversions of gutf8.c are exact: where the checking loops stop and with
    what, and what the converting loops write. *)
From S2P Require Import Prelude Utf8 Utf8Char Utf8Valid Utf8Convert.

Open Scope c_scope.

(** * Specifications *)

(** The UTF-16 units of a character *)
Definition utf16 (c : Z) : list Z :=
  if c <? 0x10000 then [c] else [0xd800 + (c - 0x10000) / 0x400; 0xdc00 + (c - 0x10000) mod 0x400].

Definition utf16s (cs : list Z) : list Z := cs ≫= utf16.

(** How an input ends: at its limit or terminator, within a character, or at
    something that is none. *)
Inductive ending := Complete | Partial | Illegal.

Definition ending_error (want_read : bool) (e : ending) : option convert_error :=
  match e with
  | Complete => None
  | Partial => if want_read then None else Some PARTIAL_INPUT
  | Illegal => Some ILLEGAL_SEQUENCE
  end.

(** The call that reads [read] items up to the ending [e], which is found at
    [stop], and has [out] as its result, in items of [unit] bytes: it fails with
    the error of the ending or for want of memory. *)
Definition answer (malloc : Z -> option (nat -> Z)) (want_read : bool) (e : ending) (stop read unit : Z)
    (out : list Z) : converted :=
  match ending_error want_read e with
  | Some err => failed want_read stop err
  | None =>
      match malloc ((Z.of_nat (length out) + 1) * unit) with
      | None => failed want_read stop NO_MEMORY
      | Some _ => succeeded want_read read (Z.of_nat (length out)) (out ++ [0])
      end
  end.

Lemma gint_small x : - 2 ^ 31 <= x < 2 ^ 31 -> gint x = Some x.
Proof. intros. unfold gint. by rewrite decide_True. Qed.

Lemma try_malloc_n_spec malloc n unit :
  0 < n < 2 ^ 31 -> 0 < unit <= 4 ->
  g_try_malloc_n malloc n unit =
  match malloc (n * unit) with Some mem => Some (mem <$> seq 0 (Z.to_nat n)) | None => None end.
Proof.
  intros Hn Hu. unfold g_try_malloc_n, SIZE_OVERFLOWS, g_try_malloc, G_MAXSIZE.
  assert (H : n <= (2 ^ 64 - 1) / unit) by (apply Z.div_le_lower_bound; nia).
  destruct (Z.ltb_spec 0 unit); [|lia]. destruct (Z.ltb_spec ((2 ^ 64 - 1) / unit) n); [lia|]. cbn [andb].
  destruct (Z.eqb_spec (n * unit) 0); [nia|]. by destruct (malloc _).
Qed.

Lemma mem_length (mem : nat -> Z) n : length (mem <$> seq 0 n) = n.
Proof. by rewrite length_fmap, length_seq. Qed.

(** * Writing *)

(** [put] writes the [units] of a character to its place; [width] is the size of
    a unit in steps of the place. *)
Definition writes (put : list Z -> Z -> Z -> option (list Z * Z)) (units : Z -> list Z) (w c : Z) : Prop :=
  forall pre mid post, length mid = length (units c) ->
    put (pre ++ mid ++ post) (w * Z.of_nat (length pre)) c =
    Some (pre ++ units c ++ post, w * Z.of_nat (length pre) + w * Z.of_nat (length (units c))).

Lemma put_ucs4_writes c : writes put_ucs4 (fun c => [c]) 1 c.
Proof.
  intros pre mid post Hm. unfold put_ucs4. destruct mid as [|x [|]]; try done. cbn [app].
  rewrite array_set_mid by lia. cbn [mbind option_bind]. repeat f_equal; cbn; lia.
Qed.

Lemma put_gunichar_writes c : writes put_gunichar (fun c => [c]) 4 c.
Proof.
  intros pre mid post Hm. unfold put_gunichar. destruct mid as [|x [|]]; try done. cbn [app].
  rewrite array_set_mid by div_lia. cbn [mbind option_bind]. repeat f_equal; cbn; lia.
Qed.

Lemma put_utf8_writes c : 0 <= c < 2 ^ 31 -> writes put_utf8 encode 1 c.
Proof.
  intros Hc pre mid post Hm. unfold put_utf8. rewrite Z.mul_1_l, unichar_to_utf8_spec by done.
  cbn [mbind option_bind]. repeat f_equal; lia.
Qed.

Lemma put_utf16_writes c : scalar c -> writes put_utf16 utf16 1 c.
Proof.
  intros [Hc _] pre mid post Hm. unfold put_utf16, utf16 in *. destruct (Z.ltb_spec c 0x10000).
  - destruct mid as [|x [|]]; try done. cbn [app]. rewrite array_set_mid by lia. cbn [mbind option_bind].
    rewrite wrap_id by (unfold in_u; lia). repeat f_equal; cbn; lia.
  - destruct mid as [|x [|y [|]]]; try done. cbn [app]. rewrite array_set_mid by lia. cbn [mbind option_bind].
    replace (pre ++ u16 _ :: y :: post) with ((pre ++ [u16 ((c - 0x10000) / 0x400 + 0xd800)]) ++ y :: post)
      by (by rewrite <- app_assoc).
    rewrite array_set_mid by (rewrite length_app; cbn; lia). cbn [mbind option_bind].
    rewrite !wrap_id by (unfold in_u; div_lia). rewrite <- app_assoc. cbn [app].
    rewrite (Z.add_comm 0xd800), (Z.add_comm 0xdc00). repeat f_equal; cbn; lia.
Qed.

(** The end of every conversion: the terminator fills the memory. *)
Lemma terminate out buf w :
  w <> 0 -> length buf = S (length out) -> array_set (out ++ drop (length out) buf) (w * Z.of_nat (length out) / w) 0 = Some (out ++ [0]).
Proof.
  intros Hw Hb. destruct (drop (length out) buf) as [|x [|y r]] eqn:E; apply (f_equal length) in E;
    rewrite length_drop in E; cbn in E; try lia.
  apply array_set_mid. by rewrite Z.mul_comm, Z.div_mul.
Qed.

(** The units of a character: itself, or a high and a low surrogate *)
Lemma utf16_cases c :
  scalar c ->
  utf16 c = [c] /\ low_surrogate c = false /\ high_surrogate c = false \/
  exists hi lo, utf16 c = [hi; lo] /\ low_surrogate hi = false /\ high_surrogate hi = true /\
    low_surrogate lo = true /\ SURROGATE_VALUE hi lo = c /\ hi <> 0 /\ lo <> 0.
Proof.
  intros Hc. unfold scalar in Hc. unfold utf16, low_surrogate, high_surrogate. destruct (Z.ltb_spec c 0x10000).
  - left. rewrite <- !not_true_iff_false, !andb_true_iff, !Z.leb_le, !Z.ltb_lt. split_and!; [done|lia|lia].
  - right. do 2 eexists. split; [reflexivity|].
    rewrite <- not_true_iff_false, !andb_true_iff, !Z.leb_le, !Z.ltb_lt.
    split_and!; [div_lia..| | |]; [|div_lia..]. unfold SURROGATE_VALUE. rewrite wrap_id; unfold in_u; div_lia.
Qed.

Section convert.
Context (put : list Z -> Z -> Z -> option (list Z * Z)) (units : Z -> list Z) (w : Z) (cs : list Z).
Context (Hw : 0 < w) (Hput : Forall (writes put units w) cs) (Hunits : Forall (fun c => units c <> []) cs).

Abbreviation out l := (l ≫= units).

(** One more character behind those that are done *)
Lemma write_step done c todo buf :
  cs = done ++ c :: todo -> (length (out cs) <= length buf)%nat ->
  put (out done ++ drop (length (out done)) buf) (w * Z.of_nat (length (out done))) c =
  Some (out (done ++ [c]) ++ drop (length (out (done ++ [c]))) buf, w * Z.of_nat (length (out (done ++ [c])))).
Proof.
  intros E Hb. assert (Hc : writes put units w c).
  { rewrite E, Forall_app, Forall_cons in Hput. tauto. }
  rewrite E, !bind_app in *. cbn [mbind list_bind] in *. rewrite app_nil_r in *. rewrite !length_app in *.
  rewrite <- (take_drop (length (units c)) (drop (length (out done)) buf)) at 1.
  rewrite Hc by (rewrite length_take, length_drop; lia). rewrite drop_drop, <- app_assoc. do 2 f_equal. lia.
Qed.

Lemma done_lt done c todo : cs = done ++ c :: todo -> (length (out done) < length (out (done ++ [c])) <= length (out cs))%nat.
Proof.
  intros ->. rewrite Forall_app, Forall_cons in Hunits. destruct Hunits as (_ & Hc & _).
  rewrite !bind_app, !length_app. cbn [mbind list_bind]. rewrite app_nil_r, !length_app. destruct (units c); [done|cbn; lia].
Qed.

Lemma done_all done todo : cs = done ++ todo -> (length (out cs) <= length (out done))%nat -> todo = [].
Proof.
  intros E Hl. destruct todo as [|c todo]; [done|]. pose proof (done_lt done c todo E). lia.
Qed.

Context (buf : list Z) (Hbuf : length buf = S (length (out cs))).
Let n : Z := w * Z.of_nat (length (out cs)).

Lemma utf8_convert_spec s t :
  place s 0 (encodes cs ++ t) -> Forall (fun c => 0 <= c < 2 ^ 31) cs ->
  utf8_convert put s n buf = Some (Z.of_nat (length (encodes cs)), n, out cs ++ drop (length (out cs)) buf).
Proof.
  intros Hp Hcs. unfold utf8_convert.
  apply (iter_yields _ (fun '(inp, i, b) => exists done todo, cs = done ++ todo /\ inp = Z.of_nat (length (encodes done)) /\
      place s inp (encodes todo ++ t) /\ i = w * Z.of_nat (length (out done)) /\ b = out done ++ drop (length (out done)) buf)
    (fun '(_, i, _) => Z.to_nat (n - i))).
  - intros [[inp i] b] (done & todo & E & Ei & Hpl & -> & ->). destruct (Z.ltb_spec (w * Z.of_nat (length (out done))) n).
    + destruct todo as [|c todo]; [rewrite app_nil_r in E; subst done; unfold n in *; lia|].
      unfold encodes in Hpl. cbn [mbind list_bind] in Hpl. rewrite <- app_assoc in Hpl.
      assert (Hc : 0 <= c < 2 ^ 31) by (rewrite E, Forall_app, Forall_cons in Hcs; tauto).
      rewrite (get_char_spec _ _ _ _ Hpl Hc). cbn [mbind option_bind]. rewrite (write_step done c todo) by (done || lia).
      cbn [mbind option_bind]. rewrite (next_char_spec _ _ _ _ Hpl Hc). cbn [mbind option_bind].
      eexists; split; [reflexivity|]. pose proof (done_lt done c todo E). split; [|unfold n in *; nia].
      exists (done ++ [c]), todo. split_and!; [by rewrite <- app_assoc| |by apply place_step|done|done].
      rewrite encodes_app, length_app. cbn. rewrite app_nil_r. lia.
    + assert (todo = []) as -> by (apply (done_all done todo E); unfold n in *; nia).
      rewrite app_nil_r in E. subst done. eexists; split; [done|]. cbn. by rewrite Ei.
  - exists [], cs. rewrite drop_0. cbn. split_and!; done || lia.
  - unfold n. cbn. lia.
Qed.

Lemma ucs4_convert_spec s t :
  place s 0 (cs ++ t) ->
  ucs4_convert put s n buf = Some (Z.of_nat (length cs), n, out cs ++ drop (length (out cs)) buf).
Proof.
  intros Hp. unfold ucs4_convert.
  apply (iter_yields _ (fun '(i, j, b) => exists done todo, cs = done ++ todo /\ i = Z.of_nat (length done) /\
      j = w * Z.of_nat (length (out done)) /\ b = out done ++ drop (length (out done)) buf)
    (fun '(_, j, _) => Z.to_nat (n - j))).
  - intros [[i j] b] (done & todo & E & -> & -> & ->). destruct (Z.ltb_spec (w * Z.of_nat (length (out done))) n).
    + destruct todo as [|c todo]; [rewrite app_nil_r in E; subst done; unfold n in *; lia|].
      pose proof (place_rd _ _ _ (Z.of_nat (length done)) Hp ltac:(lia)) as Hrd.
      rewrite Z.add_0_l, Nat2Z.id, E, <- app_assoc in Hrd. cbn [app] in Hrd. rewrite lookup_app_mid in Hrd. rewrite Hrd. cbn [mbind option_bind].
      rewrite (write_step done c todo) by (done || lia). cbn [mbind option_bind].
      eexists; split; [reflexivity|]. pose proof (done_lt done c todo E). split; [|unfold n in *; nia].
      exists (done ++ [c]), todo. split_and!; [by rewrite <- app_assoc| |done|done]. rewrite length_app. cbn. lia.
    + assert (todo = []) as -> by (apply (done_all done todo E); unfold n in *; nia).
      rewrite app_nil_r in E. subst done. eexists; split; [done|]. done.
  - exists [], cs. rewrite drop_0. cbn. split_and!; done || lia.
  - unfold n. cbn. lia.
Qed.

(** The loop over UTF-16 is between two characters, or between the halves of
    one. *)
Lemma utf16_convert_spec s t :
  place s 0 (utf16s cs ++ t) -> Forall scalar cs ->
  utf16_convert put s n buf = Some (Z.of_nat (length (utf16s cs)), n, out cs ++ drop (length (out cs)) buf).
Proof.
  intros Hp Hcs. unfold utf16_convert.
  apply (iter_yields _ (fun '(inp, o, high, b) => exists done todo, cs = done ++ todo /\
      o = w * Z.of_nat (length (out done)) /\ b = out done ++ drop (length (out done)) buf /\
      (inp = Z.of_nat (length (utf16s done)) /\ high = 0 /\ place s inp (utf16s todo ++ t) \/
       exists c todo' lo, todo = c :: todo' /\ inp = Z.of_nat (length (utf16s done)) + 1 /\
         utf16 c = [high; lo] /\ place s inp (lo :: utf16s todo' ++ t)))
    (fun '(inp, _, _, _) => Z.to_nat (Z.of_nat (length s) - inp))).
  - intros [[[inp o] high] b] (done & todo & E & -> & -> & Hst).
    destruct (Z.ltb_spec (w * Z.of_nat (length (out done))) n).
    + assert (Hstep : forall c todo' hi, todo = c :: todo' -> scalar c /\
        put (out done ++ drop (length (out done)) buf) (w * Z.of_nat (length (out done))) c =
          Some (out (done ++ [c]) ++ drop (length (out (done ++ [c]))) buf, w * Z.of_nat (length (out (done ++ [c])))) /\
        utf16s (done ++ [c]) = utf16s done ++ utf16 c /\ (utf16 c = [hi] -> hi = c)).
      { intros c todo' hi ->. split_and!.
        - rewrite E, Forall_app, Forall_cons in Hcs. tauto.
        - apply (write_step done c todo'); [done|lia].
        - unfold utf16s. rewrite bind_app. cbn. by rewrite app_nil_r.
        - unfold utf16. case_match; congruence. }
      destruct Hst as [(-> & -> & Hpl) | (c & todo' & lo & -> & -> & Hc & Hpl)].
      * destruct todo as [|c todo]; [rewrite app_nil_r in E; subst done; unfold n in *; lia|].
        change (utf16s (c :: todo)) with (utf16 c ++ utf16s todo) in Hpl. rewrite <- app_assoc in Hpl.
        destruct (utf16_cases c) as [(Hu & Hlo & Hhi) | (hi & lo & Hu & Hlo & Hhi & _)]; [by apply (Hstep c todo 0)|..].
        -- rewrite Hu in Hpl. cbn [app] in Hpl. rewrite (place_rd0 _ _ _ Hpl). cbn [head mbind option_bind].
           rewrite Hlo, Hhi. destruct (Hstep c todo 0 eq_refl) as (_ & -> & Hd & _). cbn [mbind option_bind].
           eexists; split; [reflexivity|]. split; [|apply place_length in Hpl; cbn in Hpl; lia].
           exists (done ++ [c]), todo. split_and!; [by rewrite <- app_assoc|done|done|]. left.
           rewrite Hd, Hu, length_app. cbn. split_and!; [lia|done|]. by apply place_tail in Hpl.
        -- rewrite Hu in Hpl. cbn [app] in Hpl. rewrite (place_rd0 _ _ _ Hpl). cbn [head mbind option_bind].
           rewrite Hlo, Hhi. eexists; split; [reflexivity|]. split; [|apply place_length in Hpl; cbn in Hpl; lia].
           exists done, (c :: todo). split_and!; [done..|]. right. exists c, todo, lo. split_and!; try done.
           by apply place_tail in Hpl.
      * destruct (Hstep c todo' 0 eq_refl) as (Hsc & Hput' & Hd & _).
        destruct (utf16_cases c Hsc) as [(Hu & _) | (hi' & lo' & Hu & _ & _ & Hlo & Hv & _)]; [congruence|].
        rewrite Hu in Hc. injection Hc as <- <-. rewrite (place_rd0 _ _ _ Hpl). cbn [head mbind option_bind].
        rewrite Hlo, Hv, Hput'. cbn [mbind option_bind]. eexists; split; [reflexivity|].
        split; [|apply place_length in Hpl; cbn in Hpl; lia].
        exists (done ++ [c]), todo'. split_and!; [by rewrite <- app_assoc|done|done|]. left.
        rewrite Hd, Hu, length_app. cbn. split_and!; [lia|done|]. by apply place_tail in Hpl.
    + assert (todo = []) as -> by (apply (done_all done todo E); unfold n in *; nia).
      destruct Hst as [(-> & -> & _) | (c & ? & ? & ? & _)]; [|done].
      rewrite app_nil_r in E. subst done. eexists; split; [done|]. done.
  - exists [], cs. rewrite drop_0. cbn. split_and!; try done; [lia|]. by left.
  - apply place_length in Hp. lia.
Qed.
End convert.

(** * Checking UTF-8 *)

(** The limit that the loop passes on *)
Definition limit (m : Z) : Z := if m <? 0 then 6 else m.

Section utf8_scan.
Context (size : Z -> Z + convert_error).

(** The characters that are counted, and the items of a text *)
Definition counts (c : Z) : Prop := 0 < c < 2 ^ 31 /\ exists k, size c = inl k /\ 0 <= k.
Definition items (cs : list Z) : Z := foldr (fun c n => match size c with inl k => k + n | inr _ => n end) 0 cs.

Lemma items_nonneg cs : Forall counts cs -> 0 <= items cs.
Proof. induction 1 as [|c cs (_ & k & Hk & Hk0) _ IH]; [done|]. unfold items in *. cbn. rewrite Hk. lia. Qed.

(** What the loop finds at its end *)
Definition utf8_stop (t : list Z) (m : Z) (e : ending) : Prop :=
  match e with
  | Complete => m = 0 \/ head t = Some 0
  | Partial => m <> 0 /\ partial_at t (limit m)
  | Illegal => m <> 0 /\ head t <> Some 0 /\ ~ partial_at t (limit m) /\
      forall c, char_at t (limit m) c -> size c = inr ILLEGAL_SEQUENCE
  end.

Lemma readable_next t m : bounded t m -> m <> 0 -> readable t (limit m).
Proof.
  unfold bounded, readable, limit. intros [? | [? ?]] ?; destruct (Z.ltb_spec m 0); try lia.
  right. split; [done|lia].
Qed.

Lemma char_at_next t m c : m <> 0 -> char_at t (limit m) c -> fits m (Z.of_nat (length (encode c))).
Proof. intros ? (_ & _ & H). unfold limit, fits in *. destruct (Z.ltb_spec m 0); lia. Qed.

Lemma next_char_at t m c r : 0 <= c < 2 ^ 31 -> t = encode c ++ r -> fits m (Z.of_nat (length (encode c))) -> char_at t (limit m) c.
Proof.
  intros Hc -> Hf. split; [done|]. split; [by eexists|]. rewrite encode_length in * by done.
  pose proof (width_bounds c). unfold limit, fits in *. destruct (Z.ltb_spec m 0); lia.
Qed.

Context (Hsize : forall c, 0 <= c < 2 ^ 31 -> (exists k, size c = inl k /\ 0 <= k) \/ size c = inr ILLEGAL_SEQUENCE).

(** Any bytes are a text of characters that are counted, up to an ending. *)
Lemma utf8_parse t m :
  bytes t -> bounded t m ->
  exists cs t' e, t = encodes cs ++ t' /\ Forall counts cs /\ fits m (Z.of_nat (length (encodes cs))) /\
    utf8_stop t' (left_of m (Z.of_nat (length (encodes cs)))) e.
Proof.
  remember (length t) as n eqn:En. revert t m En. induction (lt_wf n) as [n _ IH]. intros t m -> Hbt Hb.
  assert (Hnow : forall e, utf8_stop t m e -> exists cs t' e, t = encodes cs ++ t' /\ Forall counts cs /\
    fits m (Z.of_nat (length (encodes cs))) /\ utf8_stop t' (left_of m (Z.of_nat (length (encodes cs)))) e).
  { intros e He. exists [], t, e. cbn. split_and!; try done.
    - destruct Hb; unfold fits; lia.
    - unfold left_of. destruct (Z.ltb_spec m 0); [done|by rewrite Z.sub_0_r]. }
  destruct (decide (m = 0)) as [Hm|Hm]; [by apply (Hnow Complete); left|].
  destruct (decide (head t = Some 0)) as [Hh|Hh]; [by apply (Hnow Complete); right|].
  destruct (get_char_extended_exact t 0 t (limit m) (place_app [] t) Hbt (readable_next t m Hb Hm)) as (r & _ & Hcase & Hchar & Hpart).
  destruct error_values as [Ep Em]. destruct Hcase as [Hr | [Hr | Hr]].
  - pose proof (proj1 (Hchar r Hr) eq_refl) as Hc. destruct (Hsize r Hr) as [Hk | Hill].
    + pose proof (char_at_next t m r Hm Hc) as Hf. destruct Hc as (_ & [u Hu] & _).
      assert (r <> 0) by (intros ->; apply Hh; by rewrite Hu).
      pose proof (encode_nonzero r ltac:(lia)) as Hnz. destruct (encode_cons r) as (l & ks & El).
      destruct (IH (length u)) with (t := u) (m := left_of m (Z.of_nat (length (encode r)))) as (cs & t' & e & Eu & Hcs & Hfc & He).
      * rewrite Hu, length_app, El. cbn. lia.
      * done.
      * rewrite Hu in Hbt. by apply Forall_app in Hbt as [_ ?].
      * apply bounded_left; [by rewrite <- Hu|done|done].
      * exists (r :: cs), t', e. change (encodes (r :: cs)) with (encode r ++ encodes cs).
        rewrite length_app, Nat2Z.inj_add. apply fits_left in Hfc; [|done|lia].
        split_and!; [by rewrite Hu, Eu, app_assoc|constructor; [split; [lia|done]|done]|done|].
        replace (left_of m (_ + _)) with (left_of (left_of m (Z.of_nat (length (encode r)))) (Z.of_nat (length (encodes cs)))); [done|].
        unfold left_of, fits in *. repeat match goal with |- context [?a <? ?b] => destruct (Z.ltb_spec a b) end; lia.
    + apply (Hnow Illegal). split_and!; try done.
      * rewrite <- Hpart. lia.
      * intros c Hcc. pose proof (proj1 Hcc) as Hr'. apply Hchar in Hcc; [|done]. by subst.
  - apply (Hnow Partial). split; [done|]. by apply Hpart.
  - apply (Hnow Illegal). split_and!; try done.
    + rewrite <- Hpart. lia.
    + intros c Hc. pose proof (proj1 Hc) as Hr'. apply Hchar in Hc; [|done]. lia.
Qed.

(** The loop counts the characters of the text and stops at its ending. *)
Lemma utf8_scan_spec s len want_read cs t e :
  s = encodes cs ++ t -> bytes s -> bounded s len -> Forall counts cs -> fits len (Z.of_nat (length (encodes cs))) ->
  utf8_stop t (left_of len (Z.of_nat (length (encodes cs)))) e -> items cs < 2 ^ 31 ->
  utf8_scan size s len want_read = Some (Z.of_nat (length (encodes cs)), items cs, ending_error want_read e).
Proof.
  intros Es Hbs Hb Hcs Hf He Hmax. unfold utf8_scan.
  apply (iter_yields _ (fun '(inp, n) => exists done todo, cs = done ++ todo /\ inp = Z.of_nat (length (encodes done)) /\
      place s inp (encodes todo ++ t) /\ n + items todo = items cs /\ 0 <= n)
    (fun '(inp, _) => Z.to_nat (Z.of_nat (length s) - inp))).
  - intros [inp n] (done & todo & E & Ei & Hp & Hn & Hn0).
    assert (Hleft : (if len <? 0 then 6 else len - inp) = limit (left_of len inp)).
    { assert (fits len inp) by (rewrite E, encodes_app, length_app in Hf; unfold fits in *; lia).
      unfold limit, left_of, fits in *. destruct (Z.ltb_spec len 0); [by destruct (Z.ltb_spec len 0); [|lia]|].
      by destruct (Z.ltb_spec (len - inp) 0); [lia|]. }
    assert (Hbt : bytes (encodes todo ++ t)).
    { rewrite Es, E, encodes_app, <- app_assoc in Hbs. by apply Forall_app in Hbs as [_ ?]. }
    assert (Hguard : ((len <? 0) || (0 <? len - inp)) = bool_decide (left_of len inp <> 0)).
    { assert (fits len inp) by (rewrite E, encodes_app, length_app in Hf; unfold fits in *; lia).
      unfold left_of, fits in *. destruct (Z.ltb_spec len 0); [by rewrite bool_decide_true by lia|].
      destruct (Z.ltb_spec 0 (len - inp)); [rewrite bool_decide_true|rewrite bool_decide_false]; done || lia. }
    rewrite Hguard, Hleft. destruct todo as [|c todo].
    + rewrite app_nil_r in E. subst done. rewrite <- Ei in *. cbn in Hn, Hp, Hbt. rewrite Z.add_0_r in Hn. subst n.
      case_bool_decide as Hm0; [|eexists; split; [done|]; destruct e; [done|by destruct He|by destruct He]].
      assert (Hbd : bounded t (left_of len inp)).
      { rewrite Ei. apply bounded_left; [by rewrite <- Es|by rewrite <- Ei|]. apply encodes_nonzero.
        eapply Forall_impl; [exact Hcs|]. intros c [? _]. done. }
      pose proof (readable_next _ _ Hbd Hm0) as Hr.
      destruct (get_char_extended_exact s inp t _ Hp Hbt Hr) as (r & Hget & Hcase & Hchar & Hpart).
      rewrite (place_rd0 _ _ _ Hp). destruct t as [|b t]; [destruct Hr as [? | [Hz _]]; [cbn in *; lia|by apply elem_of_nil in Hz]|].
      cbn [head mbind option_bind]. destruct (Z.eqb_spec b 0) as [->|Hb0].
      { eexists; split; [done|]. destruct e; [done| |by destruct He as (_ & ? & _)].
        destruct He as (_ & l & ks & u & El & _ & Hl & _). injection El as <- _. cbn in Hl. lia. }
      rewrite Hget. cbn [mbind option_bind]. rewrite high_bit by done. destruct error_values as [Ep Em].
      destruct e; cbn [utf8_stop] in He.
      * destruct He as [?|He]; [done|]. by injection He.
      * destruct He as [_ He]. apply Hpart in He. rewrite He. rewrite bool_decide_false by lia. cbn [negb].
        change (partial_sequence =? u32 (-2)) with true. cbn. destruct want_read; by eexists.
      * destruct He as (_ & _ & Hnp & Hill). rewrite <- Hpart in Hnp. case_bool_decide as Hr31; cbn [negb].
        -- pose proof (proj1 (Hchar r Hr31) eq_refl) as Hc. rewrite (Hill _ Hc). by eexists.
        -- destruct Hcase as [?|[?| ->]]; [lia|done|]. change (malformed_sequence =? u32 (-2)) with false. by eexists.
    + assert (Hc : counts c) by (rewrite E, Forall_app, Forall_cons in Hcs; tauto).
      destruct Hc as [Hc (k & Hk & Hk0)].
      change (encodes (c :: todo)) with (encode c ++ encodes todo) in *. rewrite <- app_assoc in Hp, Hbt.
      assert (Hfc : fits (left_of len inp) (Z.of_nat (length (encode c)))).
      { rewrite E, encodes_app, length_app in Hf. change (encodes (c :: todo)) with (encode c ++ encodes todo) in Hf.
        rewrite length_app in Hf. unfold fits, left_of in *. destruct (Z.ltb_spec len 0); lia. }
      pose proof (encode_length_pos c) as Hlen. rewrite bool_decide_true by (unfold fits, left_of in *; destruct (Z.ltb_spec len 0); lia).
      rewrite (place_rd0 _ _ _ Hp). pose proof (encode_nonzero c Hc) as Hnz. destruct (encode_cons c) as (l & ks & El).
      rewrite El in Hnz |- *. apply Forall_cons in Hnz as [Hl _]. cbn [head app mbind option_bind].
      apply Z.eqb_neq in Hl. rewrite Hl.
      rewrite (get_char_extended_char s inp _ _ c Hp Hbt) by (eapply next_char_at; [lia|done|done]).
      cbn [mbind option_bind]. rewrite high_bit, bool_decide_true by lia. cbn [negb]. rewrite Hk.
      assert (Hit : items (c :: todo) = k + items todo) by (cbn; by rewrite Hk).
      assert (0 <= items todo) by (apply items_nonneg; rewrite E, Forall_app, Forall_cons in Hcs; tauto).
      rewrite gint_small by lia. cbn [mbind option_bind]. rewrite (next_char_spec _ _ _ _ Hp) by lia. cbn [mbind option_bind].
      eexists; split; [reflexivity|]. split; [|apply place_length in Hp; rewrite length_app in Hp; lia].
      exists (done ++ [c]), todo. split_and!; [by rewrite <- app_assoc| |by apply place_step|lia|lia].
      rewrite encodes_app, length_app. cbn. rewrite app_nil_r. lia.
  - exists [], cs. split_and!; [done|done| |lia|lia]. rewrite <- Es. apply (place_app [] s).
  - lia.
Qed.
End utf8_scan.
