(* ===== verification/Utf16Scan.v ===== *)
(** The checking loops of the conversions from UCS-4 and UTF-16 are exact. *)
From S2P Require Import Prelude Utf8 Utf8Char Utf8Valid Utf8Convert Utf8Scan.

Open Scope c_scope.

Lemma guard_left len k :
  fits len k -> ((len <? 0) || (k <? len)) = bool_decide (left_of len k <> 0).
Proof.
  unfold fits, left_of. intros H. destruct (Z.ltb_spec len 0); [by rewrite bool_decide_true by lia|].
  destruct (Z.ltb_spec k len); [rewrite bool_decide_true|rewrite bool_decide_false]; done || lia.
Qed.

Lemma fits_weaken m k n : fits m n -> k <= n -> fits m k.
Proof. unfold fits. lia. Qed.

Lemma left_left m j k : fits m j -> 0 <= j -> left_of (left_of m j) k = left_of m (j + k).
Proof. unfold left_of, fits. intros. destruct (Z.ltb_spec m 0); destruct (Z.ltb_spec (m - j) 0); try lia; by destruct (Z.ltb_spec m 0); lia. Qed.

Lemma bounded_fits0 t m : bounded t m -> fits m 0.
Proof. unfold fits. intros [?|[? _]]; lia. Qed.

Lemma bounded_head t m : bounded t m -> m <> 0 -> exists c r, t = c :: r.
Proof.
  intros Hb Hm. destruct t as [|c r]; [|by eauto]. destruct Hb as [[? H] | [_ H]]; [cbn in H; lia|by apply elem_of_nil in H].
Qed.

(** * Checking UCS-4 *)

Section ucs4_scan.
Context (size : Z -> Z + convert_error).

(** The characters that are counted *)
Definition ucounts (c : Z) : Prop := c <> 0 /\ exists k, size c = inl k /\ 0 <= k.

Definition ucs4_stop (t : list Z) (m : Z) (e : ending) : Prop :=
  match e with
  | Complete => m = 0 \/ head t = Some 0
  | Partial => False
  | Illegal => m <> 0 /\ exists c r, t = c :: r /\ c <> 0 /\ size c = inr ILLEGAL_SEQUENCE
  end.

Lemma ucs4_parse t m :
  (forall c, c ∈ t -> (exists k, size c = inl k /\ 0 <= k) \/ size c = inr ILLEGAL_SEQUENCE) -> bounded t m ->
  exists cs t' e, t = cs ++ t' /\ Forall ucounts cs /\ fits m (Z.of_nat (length cs)) /\
    ucs4_stop t' (left_of m (Z.of_nat (length cs))) e.
Proof.
  intros Hsize. revert m. induction t as [|c t IH]; intros m Hb.
  - exists [], [], Complete. split_and!; try done; [by eapply bounded_fits0|]. left.
    destruct Hb as [[? H] | [_ H]]; [cbn in H|by apply elem_of_nil in H]. unfold left_of. destruct (Z.ltb_spec m 0); cbn; lia.
  - pose proof (bounded_fits0 _ _ Hb) as Hf0. assert (Hl0 : left_of m 0 = m) by (unfold left_of; case_match; lia).
    destruct (decide (m = 0)) as [->|Hm]; [exists [], (c :: t), Complete; split_and!; try done; by left|].
    destruct (decide (c = 0)) as [->|Hc]; [exists [], (0 :: t), Complete; split_and!; try done; by right|].
    destruct (Hsize c) as [Hk | Hill]; [by left| |].
    + assert (Hf1 : fits m 1) by (destruct Hb as [?|[? _]]; unfold fits; lia).
      destruct (IH (fun c' H => Hsize c' (list_elem_of_further _ _ _ H)) (left_of m 1)) as (cs & t' & e & -> & Hcs & Hf & He).
      { apply (bounded_left _ _ [c] Hb); [done|]. by repeat constructor. }
      apply fits_left in Hf; [|done|lia]. exists (c :: cs), t', e. cbn [length]. rewrite Nat2Z.inj_succ, <- Z.add_1_l.
      split_and!; [done|constructor; [done|done]|done|]. by rewrite <- left_left by (done || lia).
    + exists [], (c :: t), Illegal. do 3 (split; [done|]). change (Z.of_nat (length [])) with 0. rewrite Hl0. split; [done|]. by exists c, t.
Qed.

Lemma ucs4_scan_spec s len cs t e :
  s = cs ++ t -> bounded s len -> Forall ucounts cs -> fits len (Z.of_nat (length cs)) ->
  ucs4_stop t (left_of len (Z.of_nat (length cs))) e -> items size cs < 2 ^ 31 -> Z.of_nat (length s) < 2 ^ 31 ->
  ucs4_scan size s len = Some (Z.of_nat (length cs), items size cs, ending_error true e).
Proof.
  intros Es Hb Hcs Hf He Hmax Hlen. unfold ucs4_scan.
  apply (iter_yields _ (fun '(i, n) => exists done todo, cs = done ++ todo /\ i = Z.of_nat (length done) /\
      place s i (todo ++ t) /\ n + items size todo = items size cs /\ 0 <= n)
    (fun '(i, _) => Z.to_nat (Z.of_nat (length s) - i))).
  - intros [i n] (done & todo & E & Ei & Hp & Hn & Hn0).
    assert (Hfi : fits len i) by (eapply fits_weaken; [exact Hf|rewrite E, length_app; lia]).
    rewrite (guard_left _ _ Hfi). destruct todo as [|c todo].
    + rewrite app_nil_r in E. subst done. rewrite <- Ei in *. cbn in Hn, Hp. rewrite Z.add_0_r in Hn. subst n.
      destruct e; cbn in He; [|done|].
      * case_bool_decide; [|by eexists]. destruct He as [?|He]; [done|]. rewrite (place_rd0 _ _ _ Hp), He. by eexists.
      * destruct He as (Hm & c & r & -> & Hc & Hill). rewrite bool_decide_true, (place_rd0 _ _ _ Hp) by done.
        cbn [head mbind option_bind]. apply Z.eqb_neq in Hc. rewrite Hc, Hill. by eexists.
    + assert (Hc : ucounts c) by (rewrite E, Forall_app, Forall_cons in Hcs; tauto).
      destruct Hc as (Hc0 & k & Hk & Hk0). rewrite bool_decide_true.
      2:{ unfold fits, left_of in *. rewrite E, length_app in Hf. cbn in Hf. destruct (Z.ltb_spec len 0); lia. }
      rewrite (place_rd0 _ _ _ Hp). cbn [head app mbind option_bind]. apply Z.eqb_neq in Hc0. rewrite Hc0, Hk.
      assert (Hit : items size (c :: todo) = k + items size todo) by (cbn; by rewrite Hk).
      assert (0 <= items size todo).
      { rewrite E, Forall_app, Forall_cons in Hcs. destruct Hcs as (_ & _ & Ht). clear -Ht. unfold items.
        induction Ht as [|c' l (_ & k & Hk & Hk0) _ IH]; [done|]. cbn. rewrite Hk. lia. }
      pose proof (place_length _ _ _ Hp) as Hpl. cbn in Hpl. rewrite !gint_small by lia. cbn [mbind option_bind].
      eexists; split; [reflexivity|]. split; [|lia].
      exists (done ++ [c]), todo. split_and!; [by rewrite <- app_assoc| |by apply place_tail in Hp|lia|lia].
      rewrite length_app. cbn. lia.
  - exists [], cs. split_and!; [done|done| |lia|lia]. rewrite <- Es. apply (place_app [] s).
  - lia.
Qed.
End ucs4_scan.

(** * Checking UTF-16 *)

(** What the loop finds at the ending: how many units it has read of it. *)
Definition utf16_stop (t : list Z) (m : Z) (e : ending) (k : Z) : Prop :=
  match e with
  | Complete => (m = 0 \/ head t = Some 0) /\ k = 0
  | Partial => m <> 0 /\ (exists hi r, t = hi :: r /\ high_surrogate hi = true /\ (m = 1 \/ head r = Some 0)) /\ k = 1
  | Illegal => m <> 0 /\ exists c r, t = c :: r /\
      (low_surrogate c = true /\ k = 0 \/
       high_surrogate c = true /\ m <> 1 /\ (exists c' r', r = c' :: r' /\ c' <> 0 /\ low_surrogate c' = false) /\ k = 1)
  end.

Lemma low_surrogate_spec c : low_surrogate c = bool_decide (0xdc00 <= c < 0xe000).
Proof. unfold low_surrogate. destruct (Z.leb_spec 0xdc00 c), (Z.ltb_spec c 0xe000); cbn; [rewrite bool_decide_true|rewrite bool_decide_false..]; done || lia. Qed.

Lemma high_surrogate_spec c : high_surrogate c = bool_decide (0xd800 <= c < 0xdc00).
Proof. unfold high_surrogate. destruct (Z.leb_spec 0xd800 c), (Z.ltb_spec c 0xdc00); cbn; [rewrite bool_decide_true|rewrite bool_decide_false..]; done || lia. Qed.

(** A pair of surrogates is a character. *)
Lemma surrogates_char hi lo :
  high_surrogate hi = true -> low_surrogate lo = true ->
  exists c, text_char c /\ utf16 c = [hi; lo].
Proof.
  rewrite high_surrogate_spec, low_surrogate_spec, !bool_decide_eq_true. intros Hh Hl.
  exists ((hi - 0xd800) * 0x400 + lo - 0xdc00 + 0x10000). unfold text_char, scalar, utf16. split; [lia|].
  destruct (Z.ltb_spec ((hi - 0xd800) * 0x400 + lo - 0xdc00 + 0x10000) 0x10000); [lia|]. repeat f_equal; div_lia.
Qed.

Lemma utf16_pos c : text_char c -> Forall (fun x => x <> 0) (utf16 c).
Proof.
  intros [Hc Hz]. destruct (utf16_cases c Hc) as [(-> & _) | (hi & lo & -> & _ & _ & _ & _ & ? & ?)]; by repeat constructor.
Qed.

Lemma utf16_parse t m :
  Forall (in_u 16) t -> bounded t m ->
  exists cs t' e k, t = utf16s cs ++ t' /\ Forall text_char cs /\ fits m (Z.of_nat (length (utf16s cs))) /\
    utf16_stop t' (left_of m (Z.of_nat (length (utf16s cs)))) e k.
Proof.
  remember (length t) as n eqn:En. revert t m En. induction (lt_wf n) as [n _ IH]. intros t m -> Ht Hb.
  pose proof (bounded_fits0 _ _ Hb) as Hf0. assert (Hl0 : left_of m 0 = m) by (unfold left_of; case_match; lia).
  assert (Hnow : forall e k, utf16_stop t m e k -> exists cs t' e k, t = utf16s cs ++ t' /\ Forall text_char cs /\
    fits m (Z.of_nat (length (utf16s cs))) /\ utf16_stop t' (left_of m (Z.of_nat (length (utf16s cs)))) e k).
  { intros e k He. exists [], t, e, k. change (Z.of_nat (length (utf16s []))) with 0. rewrite Hl0. done. }
  assert (Hchar : forall c r, t = utf16 c ++ r -> text_char c -> fits m (Z.of_nat (length (utf16 c))) ->
    exists cs t' e k, t = utf16s cs ++ t' /\ Forall text_char cs /\
    fits m (Z.of_nat (length (utf16s cs))) /\ utf16_stop t' (left_of m (Z.of_nat (length (utf16s cs)))) e k).
  { intros c r E Hc Hf. destruct (IH (length r)) with (t := r) (m := left_of m (Z.of_nat (length (utf16 c))))
      as (cs & t' & e & k & Er & Hcs & Hfc & He).
    - rewrite E, length_app. unfold utf16. case_match; cbn; lia.
    - done.
    - rewrite E, Forall_app in Ht. tauto.
    - apply bounded_left; [by rewrite <- E|done|by apply utf16_pos].
    - exists (c :: cs), t', e, k. change (utf16s (c :: cs)) with (utf16 c ++ utf16s cs).
      rewrite length_app, Nat2Z.inj_add. apply fits_left in Hfc; [|done|lia].
      split_and!; [by rewrite E, Er, app_assoc|by constructor|done|]. by rewrite <- left_left by (done || lia). }
  destruct (decide (m = 0)) as [Hm|Hm]; [apply (Hnow Complete 0); split; [by left|done]|].
  destruct (bounded_head t m Hb Hm) as (c & r & E). rewrite E in Ht. apply Forall_cons in Ht as [Hc _].
  destruct (decide (c = 0)) as [Hc0|Hc0]; [apply (Hnow Complete 0); split; [right; by rewrite E, Hc0|done]|].
  destruct (low_surrogate c) eqn:El.
  { apply (Hnow Illegal 0). split; [done|]. exists c, r. split; [done|]. by left. }
  destruct (high_surrogate c) eqn:Eh.
  - destruct (decide (m = 1)) as [Hm1|Hm1].
    { apply (Hnow Partial 1). split; [done|]. split; [|done]. exists c, r. eauto. }
    assert (exists c' r', r = c' :: r') as (c' & r' & Er).
    { destruct r as [|c' r']; [|by eauto]. exfalso. rewrite E in Hb. destruct Hb as [[? H] | [_ H]]; [cbn in H; lia|].
      apply list_elem_of_singleton in H. congruence. }
    destruct (decide (c' = 0)) as [Hc'0|Hc'0].
    { apply (Hnow Partial 1). split; [done|]. split; [|done]. exists c, r. split; [done|]. split; [done|]. right. by rewrite Er, Hc'0. }
    destruct (low_surrogate c') eqn:El'.
    + destruct (surrogates_char c c' Eh El') as (x & Hx & Eu). apply (Hchar x r'); [by rewrite Eu, E, Er|done|].
      rewrite Eu. destruct Hb as [?|[? _]]; unfold fits; cbn; lia.
    + apply (Hnow Illegal 1). split; [done|]. exists c, r. split; [done|]. right. split_and!; try done. by exists c', r'.
  - assert (Hs : text_char c).
    { rewrite low_surrogate_spec, high_surrogate_spec, !bool_decide_eq_false in *. unfold in_u in Hc.
      unfold text_char, scalar. lia. }
    assert (Eu : utf16 c = [c]) by (unfold utf16, in_u in *; destruct (Z.ltb_spec c 0x10000); [done|lia]).
    apply (Hchar c r); [by rewrite Eu|done|]. rewrite Eu. destruct Hb as [?|[? _]]; unfold fits; cbn; lia.
Qed.

Section utf16_scan.
Context (size : Z -> Z) (Hsize : forall c, 0 <= size c).

Definition tally (cs : list Z) : Z := foldr (fun c n => size c + n) 0 cs.

Lemma tally_nonneg cs : 0 <= tally cs.
Proof. induction cs as [|c cs IH]; [done|]. unfold tally in *. cbn. pose proof (Hsize c). lia. Qed.

Context (s : list Z) (len : Z) (cs t : list Z).
Context (Es : s = utf16s cs ++ t) (Hcs : Forall text_char cs) (Hf : fits len (Z.of_nat (length (utf16s cs)))).
Context (Hmax : tally cs < 2 ^ 31).

Let stop : Z := Z.of_nat (length (utf16s cs)).

(** Where the loop may be: between two characters, within one, or behind a
    surrogate that starts the ending *)
Inductive scanning (e : ending) : Z * Z * Z -> Prop :=
| between done todo n :
    cs = done ++ todo -> 0 <= n -> n + tally todo = tally cs ->
    place s (Z.of_nat (length (utf16s done))) (utf16s todo ++ t) -> scanning e (Z.of_nat (length (utf16s done)), n, 0)
| within done c todo n hi lo :
    cs = done ++ c :: todo -> utf16 c = [hi; lo] -> 0 <= n -> n + tally (c :: todo) = tally cs ->
    place s (Z.of_nat (length (utf16s done)) + 1) (lo :: utf16s todo ++ t) ->
    scanning e (Z.of_nat (length (utf16s done)) + 1, n, hi)
| ended hi r :
    e <> Complete -> t = hi :: r -> high_surrogate hi = true -> place s (stop + 1) r -> scanning e (stop + 1, tally cs, hi).

(** What the loop answers *)
Definition scanned (e : ending) (k : Z) : Z * Z * Z * option convert_error -> Prop := fun '(inp, n, high, err) =>
  inp = stop + k /\ n = tally cs /\
  match e with
  | Complete => high = 0 /\ err = None
  | Partial => high <> 0 /\ err = None
  | Illegal => err = Some ILLEGAL_SEQUENCE
  end.

Lemma high_nonzero hi : high_surrogate hi = true -> (hi =? 0) = false /\ low_surrogate hi = false.
Proof. rewrite high_surrogate_spec, low_surrogate_spec, bool_decide_eq_true, Z.eqb_neq, bool_decide_eq_false. lia. Qed.

Lemma left_stop : left_of len stop <> 0 -> fits len (stop + 1).
Proof. unfold left_of, fits in *. fold stop in Hf. destruct (Z.ltb_spec len 0); lia. Qed.

(** One round of the loop *)
Abbreviation round := (fun '(inp, n, high) =>
    let next1 n high := Some (inl (inp + 1, n, high)) in
    let count wc high := n ← gint (n + size wc); next1 n high in
    if (len <? 0) || (inp <? len) then
      c ← rd s inp;
      if c =? 0 then Some (inr (inp, n, high, None))
      else if low_surrogate c then
        if negb (high =? 0) then count (SURROGATE_VALUE high c) 0
        else Some (inr (inp, n, high, Some ILLEGAL_SEQUENCE))
      else
        if negb (high =? 0) then Some (inr (inp, n, high, Some ILLEGAL_SEQUENCE))
        else if high_surrogate c then next1 n c
        else count c high
    else Some (inr (inp, n, high, None))).

Definition round_ok (e : ending) (k : Z) (a : Z * Z * Z) : Prop :=
  exists r, round a = Some r /\
    match r with
    | inl a' => scanning e a' /\ (Z.to_nat (Z.of_nat (length s) - fst (fst a')) < Z.to_nat (Z.of_nat (length s) - fst (fst a)))%nat
    | inr b => scanned e k b
    end.

Lemma next_round e k inp n high inp' a :
  place s inp a -> a <> [] -> inp' = inp + 1 -> scanning e (inp', n, high) ->
  exists r, Some (inl (inp', n, high) : Z * Z * Z + Z * Z * Z * option convert_error) = Some r /\
    match r with
    | inl a' => scanning e a' /\ (Z.to_nat (Z.of_nat (length s) - fst (fst a')) < Z.to_nat (Z.of_nat (length s) - inp))%nat
    | inr b => scanned e k b
    end.
Proof.
  intros Hp Ha -> Hs. eexists; split; [done|]. split; [done|]. cbn. apply place_length in Hp.
  destruct a; [done|]. cbn in Hp. lia.
Qed.

Context (e : ending) (k : Z) (He : utf16_stop t (left_of len (Z.of_nat (length (utf16s cs)))) e k).

(** At the ending, and behind a surrogate that starts it *)
Ltac stops := eexists; split; [done|]; cbn; split_and!; done || lia.

Lemma round_stop : place s stop t -> round_ok e k (stop, tally cs, 0).
Proof.
  intros Hp. unfold round_ok. cbv zeta. pose proof (guard_left len stop Hf) as Hg. rewrite Hg. fold stop in He.
  destruct e; cbn [utf16_stop] in He.
  - destruct He as [[Hm|Hh] Hk].
    + rewrite bool_decide_false by tauto. stops.
    + case_bool_decide; [rewrite (place_rd0 _ _ _ Hp), Hh; cbn [mbind option_bind Z.eqb]|];
        stops.
  - destruct He as (Hm & (hi & r & E & Hhi & _) & Hk). rewrite bool_decide_true, (place_rd0 _ _ _ Hp), E by done.
    cbn [head mbind option_bind]. destruct (high_nonzero hi Hhi) as [-> ->]. cbn [negb Z.eqb]. rewrite Hhi.
    apply (next_round _ _ stop _ _ _ t Hp); [by rewrite E|done|]. apply (ended _ hi r); [done..|]. rewrite E in Hp. by apply place_tail in Hp.
  - destruct He as (Hm & c & r & E & Hc). rewrite bool_decide_true, (place_rd0 _ _ _ Hp), E by done.
    cbn [head mbind option_bind]. destruct Hc as [[Hl Hk] | (Hhi & _ & _ & Hk)].
    + assert (Hc0 : (c =? 0) = false) by (rewrite low_surrogate_spec, bool_decide_eq_true in Hl; lia). rewrite Hc0, Hl.
      stops.
    + destruct (high_nonzero c Hhi) as [-> ->]. cbn [negb Z.eqb]. rewrite Hhi.
      apply (next_round _ _ stop _ _ _ t Hp); [by rewrite E|done|]. apply (ended _ c r); [done..|]. rewrite E in Hp. by apply place_tail in Hp.
Qed.

Lemma round_ended hi r :
  e <> Complete -> t = hi :: r -> high_surrogate hi = true -> place s (stop + 1) r -> round_ok e k (stop + 1, tally cs, hi).
Proof.
  intros Hne E Hhi Hp. unfold round_ok. cbv zeta. destruct (high_nonzero hi Hhi) as [Hz Hlow].
  assert (Hz' : hi <> 0) by by apply Z.eqb_neq.
  assert (Hm : left_of len stop <> 0) by (fold stop in He; destruct e; [done|apply He..]).
  assert (Hg : ((len <? 0) || (stop + 1 <? len)) = bool_decide (left_of len stop <> 1)).
  { rewrite (guard_left _ _ (left_stop Hm)). apply bool_decide_ext. unfold left_of, fits in *. fold stop in Hf.
    destruct (Z.ltb_spec len 0); lia. }
  rewrite Hg. fold stop in He. destruct e; cbn [utf16_stop] in He; [done| |].
  - destruct He as (_ & (hi' & r' & E' & _ & Hend) & Hk). rewrite E in E'. injection E' as <- <-. case_bool_decide.
    + destruct Hend as [?|Hh]; [done|]. rewrite (place_rd0 _ _ _ Hp), Hh. cbn [mbind option_bind Z.eqb].
      stops.
    + stops.
  - destruct He as (_ & c & r' & E' & Hc). rewrite E in E'. injection E' as <- <-.
    destruct Hc as [[Hl _] | (_ & Hm1 & (c' & r' & -> & Hc' & Hl') & Hk)]; [congruence|].
    rewrite bool_decide_true, (place_rd0 _ _ _ Hp) by done. cbn [head mbind option_bind].
    apply Z.eqb_neq in Hc'. rewrite Hc', Hl', Hz. cbn [negb]. stops.
Qed.

Lemma guard_inside j : 0 <= j < stop -> ((len <? 0) || (j <? len)) = true.
Proof.
  intros Hj. assert (H : fits len j) by (eapply fits_weaken; [exact Hf|fold stop; lia]). rewrite (guard_left _ _ H).
  apply bool_decide_true. unfold left_of, fits in *. fold stop in Hf. destruct (Z.ltb_spec len 0); lia.
Qed.

Lemma utf16s_split done c todo : cs = done ++ c :: todo ->
  text_char c /\ utf16s (done ++ [c]) = utf16s done ++ utf16 c /\ tally (c :: todo) = size c + tally todo /\
  Z.of_nat (length (utf16s done)) + Z.of_nat (length (utf16 c)) <= stop.
Proof.
  intros E. unfold stop. split_and!.
  - rewrite E, Forall_app, Forall_cons in Hcs. tauto.
  - unfold utf16s. rewrite bind_app. cbn. by rewrite app_nil_r.
  - done.
  - rewrite E. unfold utf16s. rewrite bind_app. cbn [mbind list_bind]. rewrite !length_app. lia.
Qed.

(** Every round goes on as it has to. *)
Lemma round_all a : scanning e a -> round_ok e k a.
Proof.
  intros [done todo n E Hn Htot Hp|done c todo n hi lo E Hu Hn Htot Hp|hi r Hne E Hhi Hp].
  - destruct todo as [|c todo].
    { rewrite app_nil_r in E. subst done. cbn in Htot, Hp. rewrite Z.add_0_r in Htot. subst n. by apply round_stop. }
    destruct (utf16s_split done c todo E) as (Hc & Hd & Ht & Hlen). pose proof (utf16_pos c Hc) as Hnz.
    pose proof (tally_nonneg todo) as Hpos. pose proof (Hsize c) as Hsz.
    change (utf16s (c :: todo)) with (utf16 c ++ utf16s todo) in Hp. rewrite <- app_assoc in Hp.
    unfold round_ok. cbv zeta. destruct (utf16_cases c (proj1 Hc)) as [(Hu & Hl & Hh) | (hi & lo & Hu & Hl & Hh & _)];
      rewrite Hu in *; cbn [length] in Hlen; rewrite guard_inside, (place_rd0 _ _ _ Hp) by lia; cbn [head app mbind option_bind];
      apply Forall_cons in Hnz as [Hc0 _]; apply Z.eqb_neq in Hc0; rewrite Hc0, Hl; cbn [negb Z.eqb]; rewrite Hh.
    + rewrite gint_small by lia. cbn [mbind option_bind]. apply (next_round _ _ _ _ _ _ _ Hp); [done|done|].
      replace (Z.of_nat (length (utf16s done)) + 1) with (Z.of_nat (length (utf16s (done ++ [c]))))
        by (rewrite Hd, length_app; cbn; lia).
      apply (between _ (done ++ [c]) todo); [by rewrite <- app_assoc|lia|lia|].
      rewrite Hd. change (utf16s done ++ [c]) with (utf16s done ++ [c]). rewrite length_app, Nat2Z.inj_add. by apply place_step.
    + apply (next_round _ _ _ _ _ _ _ Hp); [done|done|]. apply (within _ done c todo n hi lo); [done..|].
      by apply place_tail in Hp.
  - destruct (utf16s_split done c todo E) as (Hc & Hd & Ht & Hlen). pose proof (utf16_pos c Hc) as Hnz.
    pose proof (tally_nonneg todo) as Hpos. pose proof (Hsize c) as Hsz.
    destruct (utf16_cases c (proj1 Hc)) as [(Hu' & _) | (hi' & lo' & Hu' & _ & _ & Hl & Hv & Hhi0 & Hlo0)]; [congruence|].
    rewrite Hu in Hu'. injection Hu' as <- <-. rewrite Hu in *. cbn [length] in Hlen.
    unfold round_ok. cbv zeta. rewrite guard_inside, (place_rd0 _ _ _ Hp) by lia. cbn [head app mbind option_bind].
    apply Z.eqb_neq in Hlo0, Hhi0. rewrite Hlo0, Hl, Hhi0, Hv. cbn [negb]. rewrite gint_small by lia. cbn [mbind option_bind].
    apply (next_round _ _ _ _ _ _ _ Hp); [done|done|].
    replace (Z.of_nat (length (utf16s done)) + 1 + 1) with (Z.of_nat (length (utf16s (done ++ [c]))))
      by (rewrite Hd, length_app; cbn; lia).
    apply (between _ (done ++ [c]) todo); [by rewrite <- app_assoc|lia|lia|].
    replace (Z.of_nat (length (utf16s (done ++ [c])))) with (Z.of_nat (length (utf16s done)) + 1 + 1)
      by (rewrite Hd, length_app; cbn; lia). by apply place_tail in Hp.
  - by eapply round_ended.
Qed.

Lemma utf16_scan_spec want_read :
  utf16_scan size s len want_read = Some (stop + k, tally cs, ending_error want_read e).
Proof.
  unfold utf16_scan. cbv zeta.
  destruct (iter_total round (scanning e) (fun a => Z.to_nat (Z.of_nat (length s) - fst (fst a))) (scanned e k) round_all
    (S (length s)) (0, 0, 0)) as ([[[inp n] high] err] & Hit & -> & -> & Hend).
  - apply (between _ [] cs 0); [done|lia|lia|]. rewrite <- Es. apply (place_app [] s).
  - cbn. lia.
  - cbv zeta in Hit. rewrite Hit. cbn [mbind option_bind]. destruct e; cbn [ending_error].
    + destruct Hend as [-> ->]. done.
    + destruct Hend as [Hh ->]. apply Z.eqb_neq in Hh. rewrite Hh. by destruct want_read.
    + by rewrite Hend.
Qed.
End utf16_scan.
