(* ===== verification/Utf8ConvertOk.v ===== *)
(** The conversions between UTF-8, UTF-16 and UCS-4 are exact on any input, and
    inverse to each other on texts. *)
From S2P Require Import Prelude Utf8 Utf8Char Utf8Valid Utf8Convert Utf8Scan Utf16Scan.

Open Scope c_scope.

(** * Counting *)

Lemma bind_singleton (cs : list Z) : cs ≫= (fun c => [c]) = cs.
Proof. induction cs as [|c cs IH]; [done|]. cbn. by f_equal. Qed.

Lemma items_units size (units : Z -> list Z) cs :
  Forall (fun c => size c = inl (Z.of_nat (length (units c)))) cs -> items size cs = Z.of_nat (length (cs ≫= units)).
Proof.
  induction 1 as [|c cs Hc _ IH]; [done|]. unfold items in *. cbn. rewrite Hc, IH, length_app. lia.
Qed.

Lemma tally_units size (units : Z -> list Z) cs :
  Forall (fun c => size c = Z.of_nat (length (units c))) cs -> tally size cs = Z.of_nat (length (cs ≫= units)).
Proof.
  induction 1 as [|c cs Hc _ IH]; [done|]. unfold tally in *. cbn. rewrite Hc, IH, length_app. lia.
Qed.

Lemma utf16_size_spec c : 0 <= c -> utf16_size c = if decide (scalar c) then inl (Z.of_nat (length (utf16 c))) else inr ILLEGAL_SEQUENCE.
Proof.
  intros Hc. unfold utf16_size, utf16, scalar.
  repeat match goal with |- context [?a <? ?b] => destruct (Z.ltb_spec a b) end; case_decide; done || lia.
Qed.

Lemma utf8_size_spec c : 0 <= c -> utf8_size c = if decide (c < 2 ^ 31) then inl (Z.of_nat (length (encode c))) else inr ILLEGAL_SEQUENCE.
Proof.
  intros Hc. unfold utf8_size. change (2 ^ 31) with 0x80000000. destruct (Z.leb_spec 0x80000000 c), (decide (c < 0x80000000)); try lia; [done|].
  by rewrite UTF8_LENGTH_width, encode_length.
Qed.

Lemma length_units (units : Z -> list Z) k cs :
  (forall c, (length (units c) <= k)%nat) -> (length (cs ≫= units) <= k * length cs)%nat.
Proof.
  intros Hu. induction cs as [|c cs IH]; [cbn; lia|]. cbn. rewrite length_app. pose proof (Hu c). lia.
Qed.

Lemma length_units_ge (units : Z -> list Z) cs :
  Forall (fun c => units c <> []) cs -> (length cs <= length (cs ≫= units))%nat.
Proof.
  induction 1 as [|c cs Hc _ IH]; [cbn; lia|]. cbn. rewrite length_app. destruct (units c); [done|cbn; lia].
Qed.

Lemma utf16_nonempty c : utf16 c <> [].
Proof. unfold utf16. by case_match. Qed.

Lemma encode_nonempty c : encode c <> [].
Proof. destruct (encode_cons c) as (? & ? & ->). done. Qed.

Lemma utf16_length c : (1 <= length (utf16 c) <= 2)%nat.
Proof. unfold utf16. case_match; cbn; lia. Qed.

Lemma encode_length6 c : (length (encode c) <= 6)%nat.
Proof. pose proof (encode_length_pos c). lia. Qed.

(** A character takes at most as many units of UTF-16 as bytes. *)
Lemma utf16s_shorter cs : Forall scalar cs -> (length (utf16s cs) <= length (encodes cs))%nat.
Proof.
  unfold utf16s, encodes. induction 1 as [|c cs Hc _ IH]; [done|]. cbn. rewrite !length_app.
  enough (length (utf16 c) <= length (encode c))%nat by lia. unfold utf16, encode, scalar in *.
  repeat match goal with |- context [?a <? ?b] => destruct (Z.ltb_spec a b) end; cbn; lia.
Qed.

(** * From the loops to the functions *)

Lemma terminate1 out buf :
  length buf = S (length out) -> array_set (out ++ drop (length out) buf) (Z.of_nat (length out)) 0 = Some (out ++ [0]).
Proof. intros Hb. pose proof (terminate out buf 1 ltac:(lia) Hb) as H. by rewrite Z.div_1_r, Z.mul_1_l in H. Qed.

Lemma UTF8_LENGTH_nonneg c : 0 <= UTF8_LENGTH c.
Proof. rewrite UTF8_LENGTH_width. lia. Qed.

Section conversions.
Context (malloc : Z -> option (nat -> Z)) (want_read : bool) (len : Z) (s t cs : list Z) (e : ending).
Context (Hlen : 6 * Z.of_nat (length s) + 4 < 2 ^ 31) (Hb : bounded s len).

(** The common end, for memory in units of the result *)
Lemma finish units unit n stop read (convert : list Z -> option (Z * Z * list Z)) (fin : Z -> Z -> list Z -> option converted) :
  n = Z.of_nat (length (cs ≫= units)) -> n + 1 < 2 ^ 31 -> 0 < unit <= 4 ->
  (forall buf, length buf = S (length (cs ≫= units)) ->
     convert buf = Some (read, n, (cs ≫= units) ++ drop (length (cs ≫= units)) buf)) ->
  (forall buf, fin read n buf = Some (succeeded want_read read n buf)) ->
  match ending_error want_read e with
  | Some err => Some (failed want_read stop err)
  | None =>
      n1 ← gint (n + 1);
      match g_try_malloc_n malloc n1 unit with
      | None => Some (failed want_read stop NO_MEMORY)
      | Some buf => '(inp, i, buf) ← convert buf; buf ← array_set buf i 0; fin inp i buf
      end
  end = Some (answer malloc want_read e stop read unit (cs ≫= units)).
Proof.
  intros Hn Hmax Hu Hconv Hfin. unfold answer. destruct (ending_error want_read e); [done|].
  rewrite gint_small by lia. cbn [mbind option_bind]. rewrite try_malloc_n_spec by lia. rewrite <- Hn.
  destruct (malloc _) as [mem|]; [|done]. rewrite Hconv by (rewrite mem_length; lia).
  cbn [mbind option_bind].
  pose proof (terminate1 (cs ≫= units) (mem <$> seq 0 (Z.to_nat (n + 1))) ltac:(rewrite mem_length; lia)) as Ht.
  rewrite <- Hn in Ht. rewrite Ht.
  cbn [mbind option_bind]. apply Hfin.
Qed.

Lemma forall_writes put units (P : Z -> Prop) : (forall c, P c -> writes put units 1 c) -> Forall P cs -> Forall (writes put units 1) cs.
Proof. intros H Hcs. eapply Forall_impl; [exact Hcs|exact H]. Qed.

Lemma singles : Forall (fun c : Z => [c] <> []) cs.
Proof. by apply Forall_true. Qed.

Lemma utf16_nonempties : Forall (fun c => utf16 c <> []) cs.
Proof. apply Forall_true, utf16_nonempty. Qed.

Lemma encode_nonempties : Forall (fun c => encode c <> []) cs.
Proof. apply Forall_true, encode_nonempty. Qed.

Section from_utf8.
Context (Es : s = encodes cs ++ t) (Hs : bytes s) (Hf : fits len (Z.of_nat (length (encodes cs)))).

Lemma from_utf8_place : place s 0 (encodes cs ++ t).
Proof. rewrite Es. apply (place_app []). Qed.

Lemma encodes_short : (length cs <= length (encodes cs) <= length s)%nat.
Proof. rewrite Es, length_app. split; [apply length_units_ge, encode_nonempties|lia]. Qed.

Lemma utf8_to_ucs4_spec :
  Forall (fun c => 0 < c < 2 ^ 31) cs -> utf8_stop (fun _ => inl 1) t (left_of len (Z.of_nat (length (encodes cs)))) e ->
  g_utf8_to_ucs4 malloc s len want_read =
  Some (answer malloc want_read e (Z.of_nat (length (encodes cs))) (Z.of_nat (length (encodes cs))) 4 cs).
Proof.
  intros Hcs He. unfold g_utf8_to_ucs4. pose proof encodes_short.
  assert (Hit : items (fun _ => inl 1) cs = Z.of_nat (length (cs ≫= (fun c => [c])))).
  { apply (items_units (fun _ => inl 1)). by apply Forall_true. }
  pose proof (bind_singleton cs) as Hbs.
  rewrite (utf8_scan_spec _ s len want_read cs t e) by
    (done || (eapply Forall_impl; [exact Hcs|]; intros c Hc; split; [done|]; exists 1; split; [done|lia]) ||
     (rewrite Hit, Hbs; lia)).
  cbn [mbind option_bind].
  transitivity (Some (answer malloc want_read e (Z.of_nat (length (encodes cs))) (Z.of_nat (length (encodes cs))) 4
    (cs ≫= (fun c => [c])))); [|by rewrite Hbs].
  rewrite Hit. set (n := Z.of_nat (length (cs ≫= _))).
  apply (finish (fun c => [c]) 4 n _ _ (utf8_convert put_ucs4 s n) (fun inp _ buf => Some (succeeded want_read inp n buf)));
    [done|subst n; rewrite Hbs; lia|lia| |done].
  intros buf Hbuf. replace n with (1 * n) by lia. apply (utf8_convert_spec _ _ 1) with (t := t); try done; try lia.
  - eapply forall_writes; [intros; apply put_ucs4_writes|exact Hcs].
  - apply singles.
  - apply from_utf8_place.
  - eapply Forall_impl; [exact Hcs|]. cbn. lia.
Qed.

Lemma utf8_to_utf16_spec :
  Forall text_char cs -> utf8_stop utf16_size t (left_of len (Z.of_nat (length (encodes cs)))) e ->
  g_utf8_to_utf16 malloc s len want_read =
  Some (answer malloc want_read e (Z.of_nat (length (encodes cs))) (Z.of_nat (length (encodes cs))) 2 (utf16s cs)).
Proof.
  intros Hcs He. unfold g_utf8_to_utf16. pose proof encodes_short.
  assert (Hsc : Forall scalar cs) by (eapply Forall_impl; [exact Hcs|]; by intros c [? _]).
  assert (Hsz : forall c, scalar c -> utf16_size c = inl (Z.of_nat (length (utf16 c)))).
  { intros c Hc. pose proof (scalar_range c Hc). rewrite utf16_size_spec by lia. by rewrite decide_True. }
  assert (Hit : items utf16_size cs = Z.of_nat (length (utf16s cs))).
  { apply items_units. eapply Forall_impl; [exact Hsc|exact Hsz]. }
  pose proof (utf16s_shorter cs Hsc).
  rewrite (utf8_scan_spec _ s len want_read cs t e) by
    (done || lia || (eapply Forall_impl; [exact Hcs|]; intros c Hc; split; [by apply text_char_pos|];
       eexists; split; [apply Hsz, Hc|lia])).
  cbn [mbind option_bind].
  rewrite Hit. set (n := Z.of_nat (length (utf16s cs))).
  apply (finish utf16 2 n _ _ (utf8_convert put_utf16 s n) (fun inp _ buf => Some (succeeded want_read inp n buf)));
    [done|lia|lia| |done].
  intros buf Hbuf. replace n with (1 * n) by lia. apply (utf8_convert_spec _ _ 1) with (t := t); try done; try lia.
  - eapply forall_writes; [intros; by apply put_utf16_writes|exact Hsc].
  - apply utf16_nonempties.
  - apply from_utf8_place.
  - eapply Forall_impl; [exact Hcs|]. apply text_char_range.
Qed.
End from_utf8.

Section from_ucs4.
Context (Es : s = cs ++ t) (Hf : fits len (Z.of_nat (length cs))).

Lemma from_ucs4_place : place s 0 (cs ++ t).
Proof. rewrite Es. apply (place_app []). Qed.

Lemma ucs4_short : (length cs <= length s)%nat.
Proof. rewrite Es, length_app. lia. Qed.

(** UCS-4 has no partial ending. *)
Lemma ucs4_error size : ucs4_stop size t (left_of len (Z.of_nat (length cs))) e -> ending_error true e = ending_error want_read e.
Proof. by destruct e. Qed.

Lemma ucs4_to_utf8_spec :
  Forall (fun c => 0 < c < 2 ^ 31) cs -> ucs4_stop utf8_size t (left_of len (Z.of_nat (length cs))) e ->
  g_ucs4_to_utf8 malloc s len want_read =
  Some (answer malloc want_read e (Z.of_nat (length cs)) (Z.of_nat (length cs)) 1 (encodes cs)).
Proof.
  intros Hcs He. unfold g_ucs4_to_utf8. pose proof ucs4_short. pose proof (length_units encode 6 cs encode_length6) as Hl6.
  assert (Hsz : forall c, 0 < c < 2 ^ 31 -> utf8_size c = inl (Z.of_nat (length (encode c)))).
  { intros c Hc. rewrite utf8_size_spec by lia. by rewrite decide_True by lia. }
  assert (Hit : items utf8_size cs = Z.of_nat (length (cs ≫= encode))).
  { apply items_units. eapply Forall_impl; [exact Hcs|exact Hsz]. }
  rewrite (ucs4_scan_spec _ s len cs t e) by
    (done || lia || (rewrite Hit; lia) || (eapply Forall_impl; [exact Hcs|]; cbn; intros c Hc; split; [lia|]; eexists; split; [by apply Hsz|lia])).
  rewrite (ucs4_error _ He). cbn [mbind option_bind]. rewrite Hit. set (n := Z.of_nat (length (cs ≫= encode))) in *.
  apply (finish encode 1 n _ _ (ucs4_convert put_utf8 s n) (fun i p buf => Some (succeeded want_read i p buf)));
    [done|lia|lia| |done].
  intros buf Hbuf. replace n with (1 * n) by lia. apply (ucs4_convert_spec _ _ 1) with (t := t); try done; try lia.
  - eapply forall_writes; [|exact Hcs]. cbn. intros c Hc. apply put_utf8_writes. lia.
  - apply encode_nonempties.
  - apply from_ucs4_place.
Qed.

Lemma ucs4_to_utf16_spec :
  Forall text_char cs -> ucs4_stop utf16_size t (left_of len (Z.of_nat (length cs))) e ->
  g_ucs4_to_utf16 malloc s len want_read =
  Some (answer malloc want_read e (Z.of_nat (length cs)) (Z.of_nat (length cs)) 2 (utf16s cs)).
Proof.
  intros Hcs He. unfold g_ucs4_to_utf16. pose proof ucs4_short.
  pose proof (length_units utf16 2 cs (fun c => proj2 (utf16_length c))) as Hl2.
  assert (Hsz : forall c, text_char c -> utf16_size c = inl (Z.of_nat (length (utf16 c)))).
  { intros c Hc. pose proof (text_char_range c Hc). rewrite utf16_size_spec by lia. by rewrite decide_True by apply Hc. }
  assert (Hit : items utf16_size cs = Z.of_nat (length (cs ≫= utf16))).
  { apply items_units. eapply Forall_impl; [exact Hcs|exact Hsz]. }
  rewrite (ucs4_scan_spec _ s len cs t e) by
    (done || lia || (rewrite Hit; lia) || (eapply Forall_impl; [exact Hcs|]; intros c Hc; split; [apply Hc|]; eexists; split; [by apply Hsz|lia])).
  rewrite (ucs4_error _ He). cbn [mbind option_bind]. rewrite Hit. set (n := Z.of_nat (length (cs ≫= utf16))) in *.
  apply (finish utf16 2 n _ _ (ucs4_convert put_utf16 s n) (fun i _ buf => Some (succeeded want_read i n buf)));
    [done|lia|lia| |done].
  intros buf Hbuf. replace n with (1 * n) by lia. apply (ucs4_convert_spec _ _ 1) with (t := t); try done; try lia.
  - eapply forall_writes; [|exact Hcs]. intros c Hc. apply put_utf16_writes, Hc.
  - apply utf16_nonempties.
  - apply from_ucs4_place.
Qed.
End from_ucs4.

Section from_utf16.
Context (k : Z) (Es : s = utf16s cs ++ t) (Hf : fits len (Z.of_nat (length (utf16s cs)))) (Hcs : Forall text_char cs).
Context (He : utf16_stop t (left_of len (Z.of_nat (length (utf16s cs)))) e k).

Lemma from_utf16_place : place s 0 (utf16s cs ++ t).
Proof. rewrite Es. apply (place_app []). Qed.

Lemma utf16s_short : (length cs <= length s)%nat.
Proof. rewrite Es, length_app. pose proof (length_units_ge utf16 cs utf16_nonempties). unfold utf16s. lia. Qed.

Lemma text_scalars : Forall scalar cs.
Proof. eapply Forall_impl; [exact Hcs|]. by intros c [? _]. Qed.

Lemma utf16_to_utf8_spec :
  g_utf16_to_utf8 malloc s len want_read =
  Some (answer malloc want_read e (Z.of_nat (length (utf16s cs)) + k) (Z.of_nat (length (utf16s cs))) 1 (encodes cs)).
Proof.
  unfold g_utf16_to_utf8. pose proof utf16s_short. pose proof (length_units encode 6 cs encode_length6) as Hl6.
  assert (Hit : tally UTF8_LENGTH cs = Z.of_nat (length (cs ≫= encode))).
  { apply tally_units. eapply Forall_impl; [exact Hcs|]. intros c Hc. cbn.
    by rewrite UTF8_LENGTH_width, encode_length by by apply text_char_range. }
  rewrite (utf16_scan_spec UTF8_LENGTH UTF8_LENGTH_nonneg s len cs t) with (e := e) (k := k) by (done || lia).
  cbn [mbind option_bind]. rewrite Hit. set (n := Z.of_nat (length (cs ≫= encode))) in *.
  apply (finish encode 1 n _ _ (utf16_convert put_utf8 s n) (fun inp out buf => Some (succeeded want_read inp out buf)));
    [done|lia|lia| |done].
  intros buf Hbuf. replace n with (1 * n) by lia. apply (utf16_convert_spec _ _ 1) with (t := t); try done; try lia.
  - eapply forall_writes; [|exact Hcs]. intros c Hc. apply put_utf8_writes. by apply text_char_range.
  - apply encode_nonempties.
  - apply from_utf16_place.
  - apply text_scalars.
Qed.

Lemma utf16_to_ucs4_spec :
  g_utf16_to_ucs4 malloc s len want_read =
  Some (answer malloc want_read e (Z.of_nat (length (utf16s cs)) + k) (Z.of_nat (length (utf16s cs))) 4 cs).
Proof.
  unfold g_utf16_to_ucs4. pose proof utf16s_short. pose proof (bind_singleton cs) as Hbs.
  assert (Hit : tally (fun _ => 4) cs = 4 * Z.of_nat (length (cs ≫= (fun c => [c])))).
  { rewrite Hbs. clear. induction cs as [|c l IH]; [done|]. unfold tally in *. cbn [foldr length]. lia. }
  rewrite (utf16_scan_spec (fun _ => 4) (fun _ => ltac:(lia)) s len cs t) with (e := e) (k := k) by (done || (rewrite Hit, Hbs; lia)).
  cbn [mbind option_bind]. unfold answer. destruct (ending_error want_read e); [done|].
  rewrite Hit, Hbs, gint_small by lia. cbn [mbind option_bind].
  assert (Hso : SIZE_OVERFLOWS (4 * Z.of_nat (length cs) + 4) 1 = false).
  { unfold SIZE_OVERFLOWS, G_MAXSIZE. rewrite Z.div_1_r. cbn [andb]. apply Z.ltb_ge. lia. }
  rewrite Hso. unfold g_try_malloc. destruct (Z.eqb_spec (4 * Z.of_nat (length cs) + 4) 0); [lia|].
  replace ((Z.of_nat (length cs) + 1) * 4) with (4 * Z.of_nat (length cs) + 4) by lia.
  destruct (malloc _) as [mem|]; [|done]. set (buf := mem <$> _).
  assert (Hbuf : length buf = S (length cs)) by (subst buf; rewrite mem_length; div_lia).
  rewrite <- Hbs at 1. rewrite (utf16_convert_spec put_gunichar (fun c => [c]) 4 cs ltac:(lia)) with (t := t);
    [|by apply Forall_true, put_gunichar_writes|apply singles|by rewrite Hbs|apply from_utf16_place|apply text_scalars].
  cbn [mbind option_bind]. rewrite Hbs. rewrite (terminate cs buf 4) by done. cbn [mbind option_bind].
  rewrite Z.mul_comm, Z.div_mul by lia. done.
Qed.
End from_utf16.
End conversions.

(** * The conversion without checks *)

Lemma cont_low s p t c :
  place s p (0x80 + c mod 2 ^ 6 :: t) -> CONT_BYTE_FAST s p = Some (c mod 64, p + 1).
Proof.
  intros Hp. unfold CONT_BYTE_FAST. rewrite (place_rd0 _ _ _ Hp). cbn [head mbind option_bind]. rewrite low6. do 2 f_equal. div_lia.
Qed.

(** One character of up to 21 bits *)
Lemma fast_char_spec s p c t :
  place s p (encode c ++ t) -> 0 <= c < 2 ^ 21 -> fast_char s p = Some (c, p + Z.of_nat (length (encode c))).
Proof.
  intros Hp Hc. unfold fast_char. revert Hp. unfold encode.
  destruct (Z.ltb_spec c 0x80).
  { intros Hp. rewrite (place_rd0 _ _ _ Hp). cbn [head app mbind option_bind]. by destruct (Z.ltb_spec c 0xc0); [|lia]. }
  destruct (Z.ltb_spec c 0x800).
  { intros Hp. rewrite (place_rd0 _ _ _ Hp). cbn [head app mbind option_bind length]. cbn [app] in Hp.
    destruct (lead_bits (0xc0 + c / 2 ^ 6)) as (Hb & _); [unfold in_u; div_lia|].
    destruct (Z.ltb_spec (0xc0 + c / 2 ^ 6) 0xc0); [div_lia|]. apply place_tail in Hp.
    rewrite (cont_low _ _ _ _ Hp). cbn [mbind option_bind].
    destruct (Z.ltb_spec (0xc0 + c / 2 ^ 6) 0xe0); [|div_lia]. rewrite Hb by div_lia.
    rewrite lor_shiftl_add by (unfold in_u; div_lia). do 2 f_equal; [div_lia|lia]. }
  destruct (Z.ltb_spec c 0x10000).
  { intros Hp. rewrite (place_rd0 _ _ _ Hp). cbn [head app mbind option_bind length]. cbn [app] in Hp.
    destruct (lead_bits (0xe0 + c / 2 ^ 12)) as (_ & Hb & _); [unfold in_u; div_lia|].
    destruct (Z.ltb_spec (0xe0 + c / 2 ^ 12) 0xc0); [div_lia|]. apply place_tail in Hp.
    rewrite (cont_low _ _ _ _ Hp). cbn [mbind option_bind]. apply place_tail in Hp.
    destruct (Z.ltb_spec (0xe0 + c / 2 ^ 12) 0xe0); [div_lia|]. rewrite (cont_low _ _ _ _ Hp). cbn [mbind option_bind].
    destruct (Z.ltb_spec (0xe0 + c / 2 ^ 12) 0xf0); [|div_lia]. rewrite Hb by div_lia.
    rewrite <- Z.lor_assoc, (lor_shiftl_add 6) by (lia || (unfold in_u; div_lia)).
    rewrite (lor_shiftl_add 12) by (lia || (unfold in_u; div_lia)). do 2 f_equal; [div_lia|lia]. }
  destruct (Z.ltb_spec c 0x200000); [|lia].
  intros Hp. rewrite (place_rd0 _ _ _ Hp). cbn [head app mbind option_bind length]. cbn [app] in Hp.
  destruct (lead_bits (0xf0 + c / 2 ^ 18)) as (_ & _ & Hb & _); [unfold in_u; div_lia|].
  destruct (Z.ltb_spec (0xf0 + c / 2 ^ 18) 0xc0); [div_lia|]. apply place_tail in Hp.
  rewrite (cont_low _ _ _ _ Hp). cbn [mbind option_bind]. apply place_tail in Hp.
  destruct (Z.ltb_spec (0xf0 + c / 2 ^ 18) 0xe0); [div_lia|]. rewrite (cont_low _ _ _ _ Hp). cbn [mbind option_bind].
  apply place_tail in Hp.
  destruct (Z.ltb_spec (0xf0 + c / 2 ^ 18) 0xf0); [div_lia|]. rewrite (cont_low _ _ _ _ Hp). cbn [mbind option_bind].
  destruct (Z.leb_spec 0xf8 (0xf0 + c / 2 ^ 18)); [div_lia|]. rewrite Hb by div_lia.
  rewrite <- !Z.lor_assoc, (lor_shiftl_add 6) by (lia || (unfold in_u; div_lia)).
  rewrite (lor_shiftl_add 12) by (lia || (unfold in_u; div_lia)).
  rewrite (lor_shiftl_add 18) by (lia || (unfold in_u; div_lia)). do 2 f_equal; [div_lia|lia].
Qed.

(** A sequence of five bytes is counted as one character and read as four
    bytes: the value is wrong, and so is the place of the next character. *)
Lemma fast_char_long :
  encode 0x200000 = [0xf8; 0x88; 0x80; 0x80; 0x80] /\ g_utf8_get_char (encode 0x200000) 0 = Some 0x200000 /\
  g_utf8_next_char (encode 0x200000) 0 = Some 5 /\ fast_char (encode 0x200000) 0 = Some (0x8000, 4).
Proof. by vm_compute. Qed.

Lemma utf8_to_ucs4_fast_spec mem s len cs t :
  s = encodes cs ++ t -> Forall (fun c => 0 < c < 2 ^ 21) cs -> Z.of_nat (length s) + 1 < 2 ^ 31 ->
  len < 0 /\ head t = Some 0 \/ len = Z.of_nat (length (encodes cs)) ->
  g_utf8_to_ucs4_fast mem s len = Some (cs ++ [0], Z.of_nat (length cs)).
Proof.
  intros Es Hcs Hmax Hend. unfold g_utf8_to_ucs4_fast.
  assert (Hchars : forall done c todo, cs = done ++ c :: todo -> 0 < c < 2 ^ 21).
  { intros done c todo ->. rewrite Forall_app, Forall_cons in Hcs. tauto. }
  assert (Hplace : forall done todo, cs = done ++ todo -> place s (Z.of_nat (length (encodes done))) (encodes todo ++ t)).
  { intros done todo ->. rewrite Es, encodes_app, <- app_assoc. apply place_app. }
  assert (Hlen : (length cs <= length (encodes cs))%nat) by apply length_units_ge, Forall_true, encode_nonempty.
  assert (Hs : (length (encodes cs) <= length s)%nat) by (rewrite Es, length_app; lia).
  rewrite (iter_yields _ (fun '(p, n) => exists done todo, cs = done ++ todo /\ p = Z.of_nat (length (encodes done)) /\
      n = Z.of_nat (length done)) (fun '(p, _) => Z.to_nat (Z.of_nat (length s) - p)) (Z.of_nat (length cs))).
  - cbn [mbind option_bind]. rewrite gint_small by lia. cbn [mbind option_bind]. set (buf := mem <$> _).
    assert (Hbuf : length buf = S (length cs)) by (subst buf; rewrite mem_length; lia).
    rewrite (iter_yields _ (fun '(i, p, b) => exists done todo, cs = done ++ todo /\ i = Z.of_nat (length done) /\
        p = Z.of_nat (length (encodes done)) /\ b = done ++ drop (length done) buf)
      (fun '(i, _, _) => Z.to_nat (Z.of_nat (length cs) - i)) (Z.of_nat (length cs), cs ++ drop (length cs) buf)).
    + cbn [mbind option_bind]. by rewrite (terminate1 cs buf) by done.
    + intros [[i p] b] (done & todo & E & -> & -> & ->). destruct todo as [|c todo].
      * rewrite app_nil_r in E. subst done. rewrite Z.ltb_irrefl. by eexists.
      * assert (Hl : length cs = (length done + S (length todo))%nat) by (rewrite E, length_app; done).
        destruct (Z.ltb_spec (Z.of_nat (length done)) (Z.of_nat (length cs))); [|lia].
        pose proof (Hplace done (c :: todo) E) as Hp. change (encodes (c :: todo)) with (encode c ++ encodes todo) in Hp.
        rewrite <- app_assoc in Hp. pose proof (Hchars done c todo E).
        rewrite (fast_char_spec _ _ c _ Hp) by lia. cbn [mbind option_bind].
        destruct (drop (length done) buf) as [|x r] eqn:Ed; [apply (f_equal length) in Ed; rewrite length_drop in Ed; cbn in Ed; lia|].
        rewrite array_set_mid by done. cbn [mbind option_bind]. eexists; split; [reflexivity|]. split; [|lia].
        exists (done ++ [c]), todo. rewrite encodes_app, !length_app. cbn [length]. split_and!; [by rewrite <- app_assoc|lia| |].
        -- change (encodes [c]) with (encode c ++ []). rewrite app_nil_r. lia.
        -- rewrite <- app_assoc. cbn [app]. do 2 f_equal. rewrite <- drop_drop, Ed. done.
    + exists [], cs. rewrite drop_0. done.
    + cbn. lia.
  - intros [p n] (done & todo & E & -> & ->). pose proof (Hplace done todo E) as Hp. destruct todo as [|c todo].
    + rewrite app_nil_r in E. subst done. change (encodes [] ++ t) with t in Hp. destruct Hend as [[Hneg Hh] | ->].
      * destruct (Z.ltb_spec len 0); [|lia]. cbn [orb]. rewrite (place_rd0 _ _ _ Hp), Hh. by eexists.
      * destruct (Z.ltb_spec (Z.of_nat (length (encodes cs))) 0); [lia|]. rewrite Z.ltb_irrefl. by eexists.
    + pose proof (Hchars done c todo E) as Hc. change (encodes (c :: todo)) with (encode c ++ encodes todo) in Hp.
      rewrite <- app_assoc in Hp. pose proof (place_length _ _ _ Hp) as Hpl. rewrite length_app in Hpl.
      pose proof (encode_length_pos c) as Hlc.
      assert (Hg : ((len <? 0) || (Z.of_nat (length (encodes done)) <? len)) = true).
      { apply orb_true_iff. rewrite !Z.ltb_lt. destruct Hend as [[? _] | ->]; [by left|right].
        rewrite E, encodes_app, length_app. change (encodes (c :: todo)) with (encode c ++ encodes todo). rewrite length_app. lia. }
      rewrite Hg, (place_rd0 _ _ _ Hp). pose proof (encode_nonzero c ltac:(lia)) as Hnz.
      destruct (encode_cons c) as (l & ks & El). rewrite El in Hnz |- *. apply Forall_cons in Hnz as [Hl _].
      cbn [head app mbind option_bind]. apply Z.eqb_neq in Hl. rewrite Hl.
      rewrite (next_char_spec _ _ _ _ Hp) by lia. cbn [mbind option_bind].
      assert (Hd : (length cs = length done + S (length todo))%nat) by (rewrite E, length_app; done).
      rewrite gint_small by lia. cbn [mbind option_bind]. eexists; split; [reflexivity|]. split; [|lia].
      exists (done ++ [c]), todo. rewrite encodes_app, !length_app. cbn [length]. split_and!; [by rewrite <- app_assoc| |lia].
      change (encodes [c]) with (encode c ++ []). rewrite app_nil_r. lia.
  - exists [], cs. done.
  - lia.
Qed.

(** * The conversions on any input *)

(** C18: every checked conversion is exact on any input, within a limit or up to a
    terminator, with or without a place for the number of items read: the input
    is a text followed by an ending, at the limit or terminator, within a
    character or at something that is none, and the call answers the text in
    the other encoding with a terminator and what it read and wrote, or the
    error of the ending and its place, or the want of memory.  What is read is
    counted in units of the input (bytes of UTF-8, words of UTF-16, characters of
    UCS-4, where the documentation of g_ucs4_to_utf16 says bytes).  All accesses
    stay in their buffers. *)
Theorem conversions_exact malloc want_read len s :
  6 * Z.of_nat (length s) + 4 < 2 ^ 31 -> bounded s len ->
  (bytes s ->
     (exists cs t e, s = encodes cs ++ t /\ Forall (fun c => 0 < c < 2 ^ 31) cs /\
        let n := Z.of_nat (length (encodes cs)) in
        fits len n /\ utf8_stop (fun _ => inl 1) t (left_of len n) e /\
        g_utf8_to_ucs4 malloc s len want_read = Some (answer malloc want_read e n n 4 cs)) /\
     (exists cs t e, s = encodes cs ++ t /\ Forall text_char cs /\
        let n := Z.of_nat (length (encodes cs)) in
        fits len n /\ utf8_stop utf16_size t (left_of len n) e /\
        g_utf8_to_utf16 malloc s len want_read = Some (answer malloc want_read e n n 2 (utf16s cs)))) /\
  (Forall (in_u 32) s ->
     (exists cs t e, s = cs ++ t /\ Forall (fun c => 0 < c < 2 ^ 31) cs /\
        let n := Z.of_nat (length cs) in
        fits len n /\ ucs4_stop utf8_size t (left_of len n) e /\
        g_ucs4_to_utf8 malloc s len want_read = Some (answer malloc want_read e n n 1 (encodes cs))) /\
     (exists cs t e, s = cs ++ t /\ Forall text_char cs /\
        let n := Z.of_nat (length cs) in
        fits len n /\ ucs4_stop utf16_size t (left_of len n) e /\
        g_ucs4_to_utf16 malloc s len want_read = Some (answer malloc want_read e n n 2 (utf16s cs)))) /\
  (Forall (in_u 16) s ->
     exists cs t e k, s = utf16s cs ++ t /\ Forall text_char cs /\
        let n := Z.of_nat (length (utf16s cs)) in
        fits len n /\ utf16_stop t (left_of len n) e k /\
        g_utf16_to_utf8 malloc s len want_read = Some (answer malloc want_read e (n + k) n 1 (encodes cs)) /\
        g_utf16_to_ucs4 malloc s len want_read = Some (answer malloc want_read e (n + k) n 4 cs)).
Proof.
  intros Hlen Hb. split_and!.
  - intros Hs. split.
    + destruct (utf8_parse (fun _ => inl 1)) with (t := s) (m := len) as (cs & t & e & Es & Hcs & Hf & He); try done.
      { intros. left. exists 1. split; [done|lia]. }
      assert (Hcs' : Forall (fun c => 0 < c < 2 ^ 31) cs) by (eapply Forall_impl; [exact Hcs|]; by intros c [? _]).
      exists cs, t, e. cbv zeta. split_and!; try done. by eapply utf8_to_ucs4_spec.
    + destruct (utf8_parse utf16_size) with (t := s) (m := len) as (cs & t & e & Es & Hcs & Hf & He); try done.
      { intros c Hc. rewrite utf16_size_spec by lia. case_decide; [left; eexists; split; [done|lia]|by right]. }
      assert (Hcs' : Forall text_char cs).
      { eapply Forall_impl; [exact Hcs|]. intros c (Hc & k & Hk & _). rewrite utf16_size_spec in Hk by lia.
        case_decide; [split; [done|lia]|done]. }
      exists cs, t, e. cbv zeta. split_and!; try done. by eapply utf8_to_utf16_spec.
  - intros Hs. rewrite Forall_forall in Hs. split.
    + destruct (ucs4_parse utf8_size s len) as (cs & t & e & Es & Hcs & Hf & He); [|done|].
      { intros c Hc. destruct (Hs c Hc). rewrite utf8_size_spec by done. case_decide; [left; eexists; split; [done|lia]|by right]. }
      assert (Hcs' : Forall (fun c => 0 < c < 2 ^ 31) cs).
      { rewrite Forall_forall in Hcs |- *. intros c Hc. destruct (Hcs c Hc) as (Hc0 & k & Hk & _).
        destruct (Hs c) as [? _]; [rewrite Es; apply elem_of_app; by left|]. rewrite utf8_size_spec in Hk by done.
        case_decide; [lia|done]. }
      exists cs, t, e. cbv zeta. split_and!; try done. by eapply ucs4_to_utf8_spec.
    + destruct (ucs4_parse utf16_size s len) as (cs & t & e & Es & Hcs & Hf & He); [|done|].
      { intros c Hc. destruct (Hs c Hc). rewrite utf16_size_spec by done. case_decide; [left; eexists; split; [done|lia]|by right]. }
      assert (Hcs' : Forall text_char cs).
      { rewrite Forall_forall in Hcs |- *. intros c Hc. destruct (Hcs c Hc) as (Hc0 & k & Hk & _).
        destruct (Hs c) as [? _]; [rewrite Es; apply elem_of_app; by left|]. rewrite utf16_size_spec in Hk by done.
        case_decide; done. }
      exists cs, t, e. cbv zeta. split_and!; try done. by eapply ucs4_to_utf16_spec.
  - intros Hs. destruct (utf16_parse s len Hs Hb) as (cs & t & e & k & Es & Hcs & Hf & He).
    exists cs, t, e, k. cbv zeta. split_and!; try done; [by eapply utf16_to_utf8_spec|by eapply utf16_to_ucs4_spec].
Qed.

(** * Texts *)

Lemma encodes_length4 cs : Forall text_char cs -> (length (encodes cs) <= 4 * length cs)%nat.
Proof.
  induction 1 as [|c cs [Hc _] _ IH]; [done|]. unfold encodes in *. cbn [mbind list_bind length]. rewrite length_app.
  enough (length (encode c) <= 4)%nat by lia. unfold encode, scalar in *.
  repeat match goal with |- context [?a <? ?b] => destruct (Z.ltb_spec a b) end; cbn; lia.
Qed.

Lemma bounded_terminated (l : list Z) : bounded (l ++ [0]) (-1).
Proof. right. split; [lia|]. apply elem_of_app. right. by apply list_elem_of_singleton. Qed.

Lemma answer_complete malloc want_read stop read unit out :
  (forall n, malloc n <> None) ->
  answer malloc want_read Complete stop read unit out = succeeded want_read read (Z.of_nat (length out)) (out ++ [0]).
Proof. intros Hm. unfold answer. cbn [ending_error]. by destruct (malloc _) eqn:E; [|apply Hm in E]. Qed.

Ltac side :=
  first [match goal with H : forall l : list Z, _ -> 6 * _ + 4 < _ |- _ => apply H; lia end
        | by auto using bounded_terminated | by right | by (split; [right|])].

(** The six checked conversions are inverse to each other on every text:
    each turns the text in its encoding, with a terminator, into the same text
    in the other, with its terminator, and reads and writes all of it; and the
    conversion without checks agrees with the checked one, within the limit or
    up to the terminator. *)
Theorem text_roundtrip malloc mem want_read cs :
  Forall text_char cs -> 24 * Z.of_nat (length cs) + 10 < 2 ^ 31 -> (forall n, malloc n <> None) ->
  let u8 := encodes cs in
  let u16 := utf16s cs in
  let n (l : list Z) := Z.of_nat (length l) in
  g_utf8_to_utf16 malloc (u8 ++ [0]) (-1) want_read = Some (succeeded want_read (n u8) (n u16) (u16 ++ [0])) /\
  g_utf16_to_utf8 malloc (u16 ++ [0]) (-1) want_read = Some (succeeded want_read (n u16) (n u8) (u8 ++ [0])) /\
  g_utf8_to_ucs4 malloc (u8 ++ [0]) (-1) want_read = Some (succeeded want_read (n u8) (n cs) (cs ++ [0])) /\
  g_ucs4_to_utf8 malloc (cs ++ [0]) (-1) want_read = Some (succeeded want_read (n cs) (n u8) (u8 ++ [0])) /\
  g_utf16_to_ucs4 malloc (u16 ++ [0]) (-1) want_read = Some (succeeded want_read (n u16) (n cs) (cs ++ [0])) /\
  g_ucs4_to_utf16 malloc (cs ++ [0]) (-1) want_read = Some (succeeded want_read (n cs) (n u16) (u16 ++ [0])) /\
  g_utf8_to_ucs4_fast mem (u8 ++ [0]) (-1) = Some (cs ++ [0], n cs) /\
  g_utf8_to_ucs4_fast mem u8 (n u8) = Some (cs ++ [0], n cs).
Proof.
  intros Hcs Hmax Hm. cbv zeta. pose proof (encodes_length4 cs Hcs) as H4.
  pose proof (length_units utf16 2 cs (fun c => proj2 (utf16_length c))) as H2. fold (utf16s cs) in H2.
  assert (Hsmall : forall l : list Z, (length l <= 4 * length cs)%nat -> 6 * Z.of_nat (length (l ++ [0])) + 4 < 2 ^ 31).
  { intros l Hl. rewrite length_app. cbn. lia. }
  assert (Hb8 : bytes (encodes cs ++ [0])).
  { apply Forall_app. split; [|by repeat constructor]. apply Forall_bind. eapply Forall_impl; [exact Hcs|].
    intros c Hc. by apply encode_bytes, text_char_range. }
  assert (Hpos : Forall (fun c => 0 < c < 2 ^ 31) cs) by (eapply Forall_impl; [exact Hcs|apply text_char_pos]).
  assert (Hpos21 : Forall (fun c => 0 < c < 2 ^ 21) cs).
  { eapply Forall_impl; [exact Hcs|]. intros c [Hc ?]. unfold scalar in Hc. cbn. lia. }
  assert (Hf : forall n, fits (-1) n) by (left; lia).
  split_and!.
  - rewrite (utf8_to_utf16_spec malloc want_read (-1) _ [0] cs Complete) by side.
    by rewrite answer_complete.
  - rewrite (utf16_to_utf8_spec malloc want_read (-1) _ [0] cs Complete) with (k := 0) by side.
    by rewrite answer_complete.
  - rewrite (utf8_to_ucs4_spec malloc want_read (-1) _ [0] cs Complete) by side.
    by rewrite answer_complete.
  - rewrite (ucs4_to_utf8_spec malloc want_read (-1) _ [0] cs Complete) by side.
    by rewrite answer_complete.
  - rewrite (utf16_to_ucs4_spec malloc want_read (-1) _ [0] cs Complete) with (k := 0) by side.
    by rewrite answer_complete.
  - rewrite (ucs4_to_utf16_spec malloc want_read (-1) _ [0] cs Complete) by side.
    by rewrite answer_complete.
  - apply (utf8_to_ucs4_fast_spec mem _ _ cs [0]); [done|done|rewrite length_app; cbn; lia|by left].
  - apply (utf8_to_ucs4_fast_spec mem _ _ cs []); [by rewrite app_nil_r|done|lia|by right].
Qed.

Definition some_memory (n : Z) : option (nat -> Z) := if n <? 64 then Some (fun _ => 7) else None.

(** The text a€, cut off within the second character *)
Definition cut_input : list Z := [0x61; 0xe2; 0x82].

Lemma conversions_exact_witness :
  (6 * Z.of_nat (length cut_input) + 4 < 2 ^ 31 /\ bounded cut_input 3 /\ bytes cut_input) /\
  g_utf8_to_ucs4 some_memory cut_input 3 false = Some (failed false 1 PARTIAL_INPUT) /\
  g_utf8_to_ucs4 some_memory cut_input 3 true = Some (succeeded true 1 1 [0x61; 0]) /\
  exists cs t e, cut_input = encodes cs ++ t /\ Forall (fun c => 0 < c < 2 ^ 31) cs /\
    let n := Z.of_nat (length (encodes cs)) in
    fits 3 n /\ utf8_stop (fun _ => inl 1) t (left_of 3 n) e /\
    g_utf8_to_ucs4 some_memory cut_input 3 true = Some (answer some_memory true e n n 4 cs).
Proof.
  assert (H1 : 6 * Z.of_nat (length cut_input) + 4 < 2 ^ 31) by (vm_compute; reflexivity).
  assert (H2 : bounded cut_input 3) by (left; vm_compute; split; congruence).
  assert (H3 : bytes cut_input) by (repeat constructor; vm_compute; congruence).
  split; [exact (conj H1 (conj H2 H3))|]. split; [vm_compute; reflexivity|]. split; [vm_compute; reflexivity|].
  exact (proj1 (proj1 (conversions_exact some_memory true 3 cut_input H1 H2) H3)).
Defined.

(** The text a€ and a character of two UTF-16 units *)
Definition three_chars : list Z := [0x61; 0x20ac; 0x1f600].

Lemma text_roundtrip_witness :
  (Forall text_char three_chars /\ 24 * Z.of_nat (length three_chars) + 10 < 2 ^ 31) /\
  g_utf8_to_utf16 (fun _ => Some (fun _ => 7)) [0x61; 0xe2; 0x82; 0xac; 0xf0; 0x9f; 0x98; 0x80; 0] (-1) true =
    Some (succeeded true 8 4 [0x61; 0x20ac; 0xd83d; 0xde00; 0]).
Proof.
  assert (H1 : Forall text_char three_chars).
  { repeat constructor; try lia; intros [? ?]; lia. }
  assert (H2 : 24 * Z.of_nat (length three_chars) + 10 < 2 ^ 31) by (vm_compute; reflexivity).
  split; [exact (conj H1 H2)|].
  exact (proj1 (text_roundtrip (fun _ => Some (fun _ => 7)) (fun _ => 7) true three_chars H1 H2 ltac:(discriminate))).
Defined.
