(* ===== verification/Utf8Repair.v ===== *)
(** The reversal of a text and the repair of invalid text, in gutf8.c. *)
From S2P Require Import Prelude Utf8 Utf8Char Utf8Valid Utf8Convert.

Open Scope c_scope.

(** * The length of a text *)

(** What a call with the length [len] works on: so many bytes, or the text up to
    the terminator. *)
Definition argument (s : list Z) (len : Z) (l tail : list Z) : Prop :=
  s = l ++ tail /\
  (len = Z.of_nat (length l) \/ len < 0 /\ head tail = Some 0 /\ Forall (fun x => x <> 0) l).

Lemma argument_length s len l tail :
  argument s len l tail -> (if len <? 0 then strlen s 0 else Some len) = Some (Z.of_nat (length l)).
Proof.
  intros [Es [-> | (Hn & Ht & Hl)]].
  - by destruct (Z.ltb_spec (Z.of_nat (length l)) 0); [lia|].
  - destruct (Z.ltb_spec len 0); [|lia]. destruct tail as [|b tail]; [done|]. injection Ht as ->.
    apply (strlen_bytes _ _ _ tail); [|done]. rewrite Es. apply (place_app []).
Qed.

(** * Reversal *)

Lemma copy_char_spec s p bs t pre mid post :
  place s p (bs ++ t) -> length mid = length bs ->
  copy_char s p (pre ++ mid ++ post) (Z.of_nat (length pre)) (length bs) = Some (pre ++ bs ++ post).
Proof.
  revert p pre mid. induction bs as [|b bs IH]; intros p pre mid Hp Hm; [by destruct mid|].
  destruct mid as [|x mid]; [done|]. cbn [length copy_char]. rewrite (place_rd0 _ _ _ Hp). cbn [head app mbind option_bind].
  rewrite array_set_mid by done. cbn [mbind option_bind]. apply place_tail in Hp. injection Hm as Hm.
  pose proof (IH (p + 1) (pre ++ [b]) mid Hp Hm) as H. rewrite length_app, <- !app_assoc in H. cbn [length app] in H.
  by rewrite Nat2Z.inj_add in H.
Qed.

Lemma encodes_reverse_length l : length (encodes (reverse l)) = length (encodes l).
Proof.
  induction l as [|c l IH]; [done|]. rewrite reverse_cons, encodes_app, length_app, IH.
    change (encodes (c :: l)) with (encode c ++ encodes l). rewrite length_app. cbn. rewrite app_nil_r. lia.
Qed.

(** The reversal copies the characters of a text, each with its bytes in
    order, from the last to the first, and puts a terminator behind them. *)
Theorem strreverse_correct mem s len cs tail :
  Forall (fun c => 0 <= c < 2 ^ 31) cs -> argument s len (encodes cs) tail ->
  g_utf8_strreverse mem s len = Some (encodes (reverse cs) ++ [0]).
Proof.
  intros Hcs Harg. unfold g_utf8_strreverse. rewrite (argument_length _ _ _ _ Harg). cbn [mbind option_bind].
  destruct Harg as [Es _]. set (n := Z.of_nat (length (encodes cs))).
  pose proof encodes_reverse_length as Hrev.
  destruct (iter_total (fun '(r, p, buf) =>
      if 0 <? r then
        c ← rd s p;
        let skip := g_utf8_skip c in
        let r := r - skip in
        buf ← copy_char s p buf r (Z.to_nat skip);
        Some (inl (r, p + skip, buf))
      else Some (inr buf))
    (fun '(r, p, buf) => exists done todo junk x, cs = done ++ todo /\ p = Z.of_nat (length (encodes done)) /\
      r = Z.of_nat (length (encodes todo)) /\ length junk = length (encodes todo) /\
      buf = junk ++ encodes (reverse done) ++ [x])
    (fun '(r, _, _) => Z.to_nat r) (fun buf => exists x, buf = encodes (reverse cs) ++ [x]))
    with (fuel := S (Z.to_nat n)) (a := (n, 0, mem <$> seq 0 (Z.to_nat (n + 1)))) as (buf & Hit & x & ->).
  - intros [[r p] buf] (done & todo & junk & x & E & -> & -> & Hj & ->). destruct todo as [|c todo].
    + cbn. eexists; split; [done|]. exists x. destruct junk; [|done]. by rewrite app_nil_r in E; subst.
    + change (encodes (c :: todo)) with (encode c ++ encodes todo) in *. rewrite length_app in *.
      assert (Hc : 0 <= c < 2 ^ 31) by (rewrite E, Forall_app, Forall_cons in Hcs; tauto).
      pose proof (encode_length_pos c) as Hl.
      destruct (Z.ltb_spec 0 (Z.of_nat (length (encode c) + length (encodes todo)))); [|lia].
      assert (Hp : place s (Z.of_nat (length (encodes done))) (encode c ++ encodes todo ++ tail)).
      { rewrite Es, E, encodes_app, <- app_assoc. change (encodes (c :: todo)) with (encode c ++ encodes todo).
        rewrite <- app_assoc. apply place_app. }
      pose proof (next_char_spec _ _ _ _ Hp Hc) as Hnext. unfold g_utf8_next_char in Hnext.
      destruct (rd s (Z.of_nat (length (encodes done)))) as [b|]; [|done]. cbn [mbind option_bind] in Hnext |- *.
      assert (Hskip : g_utf8_skip b = Z.of_nat (length (encode c))) by (injection Hnext; lia).
      cbv zeta. rewrite Hskip, Nat2Z.id.
      replace (Z.of_nat (length (encode c) + length (encodes todo)) - Z.of_nat (length (encode c))) with
        (Z.of_nat (length (take (length (encodes todo)) junk))) by (rewrite length_take; lia).
      replace (junk ++ encodes (reverse done) ++ [x]) with (take (length (encodes todo)) junk ++
        drop (length (encodes todo)) junk ++ encodes (reverse done) ++ [x]) by (by rewrite app_assoc, take_drop).
      rewrite (copy_char_spec _ _ _ _ _ _ _ Hp) by (rewrite length_drop; lia). cbn [mbind option_bind].
      eexists; split; [reflexivity|]. rewrite length_take. split; [|lia].
      exists (done ++ [c]), todo, (take (length (encodes todo)) junk), x.
      rewrite encodes_app, reverse_app, encodes_app, length_app, length_take. cbn. rewrite !app_nil_r.
      split_and!; [by rewrite <- app_assoc|lia|lia|lia|]. by rewrite <- app_assoc.
  - destruct (mem <$> seq 0 (Z.to_nat (n + 1))) as [|x l] eqn:E using rev_ind; apply (f_equal length) in E;
      rewrite length_fmap, length_seq in E; [cbn in E; lia|]. rewrite length_app in E. cbn in E.
    exists [], cs, l, x. split_and!; try done. lia.
  - lia.
  - cbv zeta in Hit. rewrite Hit. cbn [mbind option_bind]. subst n. rewrite <- Hrev. by apply array_set_mid.
Qed.

(** The text ab€ *)
Lemma strreverse_correct_witness :
  (Forall (fun c => 0 <= c < 2 ^ 31) [0x61; 0x62; 0x20ac] /\
   argument [0x61; 0x62; 0xe2; 0x82; 0xac; 0] (-1) (encodes [0x61; 0x62; 0x20ac]) [0]) /\
  g_utf8_strreverse (fun _ => 7) [0x61; 0x62; 0xe2; 0x82; 0xac; 0] (-1) = Some [0xe2; 0x82; 0xac; 0x62; 0x61; 0].
Proof.
  assert (H1 : Forall (fun c => 0 <= c < 2 ^ 31) [0x61; 0x62; 0x20ac]) by (repeat constructor; vm_compute; congruence).
  assert (H2 : argument [0x61; 0x62; 0xe2; 0x82; 0xac; 0] (-1) (encodes [0x61; 0x62; 0x20ac]) [0]).
  { split; [reflexivity|]. right. split; [lia|]. split; [reflexivity|]. repeat constructor; vm_compute; congruence. }
  split; [exact (conj H1 H2)|].
  exact (strreverse_correct (fun _ => 7) _ (-1) [0x61; 0x62; 0x20ac] [0] H1 H2).
Defined.

(** * Repair *)

(** The characters of the repaired bytes: the characters that are there, and
    U+FFFD for every byte where none is. *)
Inductive repaired : list Z -> list Z -> Prop :=
| repaired_text cs : Forall text_char cs -> repaired (encodes cs) cs
| repaired_byte cs b l cs' :
    Forall text_char cs -> (forall c, text_char c -> ~ encode c `prefix_of` b :: l) ->
    repaired l cs' -> repaired (encodes cs ++ b :: l) (cs ++ 0xFFFD :: cs').

Lemma replacement_char : text_char 0xFFFD.
Proof. unfold text_char, scalar. lia. Qed.

Lemma repaired_chars l cs : repaired l cs -> Forall text_char cs.
Proof.
  induction 1 as [|cs b l cs' Hcs _ _ IH]; [done|]. apply Forall_app. split; [done|]. constructor; [apply replacement_char|done].
Qed.

(** The last characters in front of a place where none is are determined. *)
Lemma stuck_unique cs1 cs2 u1 u2 :
  Forall text_char cs1 -> Forall text_char cs2 ->
  (forall c, text_char c -> ~ encode c `prefix_of` u1) -> (forall c, text_char c -> ~ encode c `prefix_of` u2) ->
  encodes cs1 ++ u1 = encodes cs2 ++ u2 -> cs1 = cs2 /\ u1 = u2.
Proof.
  intros H1 H2 Hu1 Hu2 E.
  assert (Hmax : forall cs u cs' u', Forall text_char cs -> Forall text_char cs' ->
    (forall c, text_char c -> ~ encode c `prefix_of` u) -> encodes cs ++ u = encodes cs' ++ u' -> cs' `prefix_of` cs).
  { intros cs u cs' u' Hcs Hcs' Hu E'. apply (longest cs u (-1) cs' Hcs); [by left| |done| |by left].
    - intros c (Hc & Hp & _). by apply (Hu c). - rewrite E'. by eexists. }
  assert (cs1 = cs2) as <-.
  { apply (anti_symm prefix); [by eapply (Hmax cs2 u2 cs1 u1)|by eapply (Hmax cs1 u1 cs2 u2)]. }
  split; [done|]. by apply app_inv_head in E.
Qed.

Lemma no_char_nil c : text_char c -> ~ encode c `prefix_of` [].
Proof. intros _ [r E]. destruct (encode_cons c) as (l & ks & El). by rewrite El in E. Qed.

(** The repaired characters are determined by the bytes. *)
Lemma repaired_unique l cs cs' : repaired l cs -> repaired l cs' -> cs = cs'.
Proof.
  intros H. revert cs'. induction H as [cs Hcs|cs b l cs1 Hcs Hb _ IH]; intros cs' H'; inversion H' as [cs2 Hcs2 E|cs2 b2 l2 cs3 Hcs2 Hb2 H2 E]; subst.
  - apply (stuck_unique cs cs' [] []); [done|done|apply no_char_nil..|by rewrite !app_nil_r].
  - destruct (stuck_unique cs cs2 [] (b2 :: l2)) as [_ ?]; [done|done|apply no_char_nil|done|by rewrite app_nil_r|done].
  - destruct (stuck_unique cs cs' (b :: l) []) as [_ ?]; [done|done|done|apply no_char_nil|by rewrite app_nil_r|done].
  - destruct (stuck_unique cs cs2 (b :: l) (b2 :: l2)) as [-> Eu]; [done..|]. injection Eu as -> ->. by rewrite (IH cs3).
Qed.

Lemma text_bytes cs : Forall text_char cs -> bytes (encodes cs) /\ Forall (fun x => x <> 0) (encodes cs).
Proof.
  intros Hcs. split.
  - apply Forall_bind. eapply Forall_impl; [exact Hcs|]. intros c Hc. by apply encode_bytes, text_char_range.
  - apply encodes_nonzero. eapply Forall_impl; [exact Hcs|apply text_char_pos].
Qed.

(** A text with its terminator is valid. *)
Lemma validate_text cs :
  Forall text_char cs -> g_utf8_validate (encodes cs ++ [0]) 0 (-1) = Some (true, Z.of_nat (length (encodes cs))).
Proof.
  intros Hcs. destruct (text_bytes cs Hcs) as [Hb Hnz].
  destruct (validate_runs (encodes cs ++ [0]) 0 (encodes cs ++ [0]) (-1)) as (cs' & t' & Hl & _ & ->).
  - apply (place_app []).
  - apply Forall_app. split; [done|by repeat constructor].
  - right. split; [lia|]. apply elem_of_app. right. by apply list_elem_of_singleton.
  - pose proof (longest_valid_max _ _ _ _ cs Hl Hcs ltac:(by eexists) ltac:(by left)) as [x ->].
    destruct Hl as (E & Hcs' & _). rewrite encodes_app, <- app_assoc in E. apply app_inv_head in E.
    destruct x as [|c x].
    + rewrite app_nil_r. cbn in E. by rewrite <- E.
    + exfalso. apply Forall_app in Hcs' as [_ Hx]. apply Forall_cons in Hx as [Hc _].
      destruct (encode_cons c) as (b & ks & El). change (encodes (c :: x)) with (encode c ++ encodes x) in E.
      rewrite El in E. injection E as E _. pose proof (encode_nonzero c (text_char_pos c Hc)) as Hnz'.
      rewrite El in Hnz'. by apply Forall_cons in Hnz' as [? _].
Qed.

(** One round: the rest is a text, or it has a byte where no character is. *)
Lemma validate_rest s p l tail :
  place s p (l ++ tail) -> bytes s ->
  exists cs, Forall text_char cs /\
    (l = encodes cs /\ g_utf8_validate s p (Z.of_nat (length l)) = Some (true, p + Z.of_nat (length l)) \/
     exists b l', l = encodes cs ++ b :: l' /\ (forall c, text_char c -> ~ encode c `prefix_of` b :: l') /\
       g_utf8_validate s p (Z.of_nat (length l)) = Some (false, p + Z.of_nat (length (encodes cs)))).
Proof.
  intros Hp Hb.
  assert (Hbt : bytes (l ++ tail)) by (destruct Hp as [_ <-]; by apply Forall_drop).
  destruct (validate_runs s p (l ++ tail) (Z.of_nat (length l)) Hp Hbt) as (cs & t' & Hl & _ & ->).
  { left. rewrite length_app. lia. }
  destruct Hl as (E & Hcs & Hf & Hn). exists cs. split; [done|].
  destruct (Z.ltb_spec (Z.of_nat (length l)) 0); [lia|].
  assert (Hle : (length (encodes cs) <= length l)%nat) by (unfold fits in Hf; lia).
  case_bool_decide as Hd.
  - left. apply (f_equal (take (length l))) in E. rewrite take_app_length, take_app_length' in E by lia. subst. done.
  - right. assert (El : l = encodes cs ++ take (length l - length (encodes cs)) t').
    { apply (f_equal (take (length l))) in E. by rewrite take_app_length, take_app, firstn_all2 in E by lia. }
    destruct (take (length l - length (encodes cs)) t') as [|b l'] eqn:Et.
    { rewrite app_nil_r in El. rewrite El in Hd. done. }
    exists b, l'. split; [done|]. split; [|done]. intros c Hc Hpre. apply (Hn c). split; [done|]. split.
    + etrans; [exact Hpre|]. rewrite <- Et. apply prefix_take.
    + apply fits_left; [done|lia|]. apply prefix_length in Hpre. rewrite El, length_app. unfold fits. lia.
Qed.

Lemma slice_place s p l t : place s p (l ++ t) -> slice s p (Z.of_nat (length l)) = Some l.
Proof.
  intros Hp. pose proof (place_length _ _ _ Hp) as Hl. rewrite length_app in Hl. destruct Hp as [? Hd].
  unfold slice. rewrite decide_True by lia. by rewrite Hd, Nat2Z.id, take_app_length.
Qed.

(** The state of the loop: the characters that are done, and the rest. *)
Definition repairing (s l tail out rest : list Z) (string : option (list Z)) (remainder remaining : Z) : Prop :=
  place s remainder (rest ++ tail) /\ remaining = Z.of_nat (length rest) /\
  (forall cs, repaired rest cs -> repaired l (out ++ cs)) /\
  (string = None /\ out = [] /\ rest = l \/ string = Some (encodes out) /\ Forall text_char out).

(** C19: the repaired copy is a text: exactly the characters that are in the
    bytes, and U+FFFD for every byte where no character is (which determines
    it), with a terminator; a text is copied unchanged, the loop ends for any
    bytes, and the assertion behind it holds. *)
Theorem make_valid_correct s len l tail :
  bytes s -> argument s len l tail ->
  exists cs, g_utf8_make_valid s len = Some (encodes cs ++ [0]) /\ Forall text_char cs /\ repaired l cs /\
    (forall cs', repaired l cs' -> cs' = cs) /\ (forall cs', Forall text_char cs' -> l = encodes cs' -> cs' = cs).
Proof.
  intros Hb Harg. enough (exists cs, g_utf8_make_valid s len = Some (encodes cs ++ [0]) /\ repaired l cs) as (cs & Hres & Hcs).
  { exists cs. split_and!; [done|by eapply repaired_chars|done|by intros; eapply repaired_unique|].
    intros cs' Hcs' ->. apply (repaired_unique (encodes cs')); [by apply repaired_text|done]. }
  unfold g_utf8_make_valid. rewrite (argument_length _ _ _ _ Harg). cbn [mbind option_bind]. destruct Harg as [Es _].
  match goal with |- exists _, iter ?f ?round ?st ≫= _ = _ /\ _ =>
    destruct (iter_total round
      (fun '(string, remainder, remaining) => exists out rest, repairing s l tail out rest string remainder remaining)
      (fun '(_, _, remaining) => Z.to_nat remaining)
      (fun '(string, remainder, remaining) => exists out cs, Forall text_char cs /\
         repairing s l tail out (encodes cs) string remainder remaining))
      with (fuel := f) (a := st) as ([[string remainder] remaining] & -> & out & cs & Hcs & Hp & -> & Hrep & Hstr) end.
  - intros [[string remainder] remaining] (out & rest & Hp & -> & Hrep & Hstr).
    destruct (Z.eqb_spec (Z.of_nat (length rest)) 0) as [Hz|Hz]; cbn [negb].
    + eexists; split; [done|]. exists out, []. split; [done|]. destruct rest; [|done]. done.
    + destruct (validate_rest s remainder rest tail Hp Hb) as (cs & Hcs & [[-> ->] | (b & rest' & -> & Hno & ->)]);
        cbn [mbind option_bind].
      * eexists; split; [done|]. by exists out, cs.
      * replace (remainder + Z.of_nat (length (encodes cs)) - remainder) with (Z.of_nat (length (encodes cs))) by lia.
        rewrite <- app_assoc in Hp. rewrite (slice_place _ _ _ _ Hp). cbn [mbind option_bind].
        eexists; split; [reflexivity|]. rewrite length_app. cbn [length]. split; [|lia].
        exists (out ++ cs ++ [0xFFFD]), rest'. split_and!.
        -- apply (place_step _ _ (encodes cs) ((b :: rest') ++ tail)) in Hp. by apply place_tail in Hp.
        -- lia.
        -- intros cs' Hcs'. rewrite <- !app_assoc. apply Hrep. by apply repaired_byte.
        -- right. rewrite !encodes_app. destruct Hstr as [(-> & -> & _) | [-> Hout]].
           ++ split; [done|]. cbn [app]. apply Forall_app. split; [done|]. constructor; [apply replacement_char|done].
           ++ split; [done|]. rewrite !Forall_app. split_and!; [done|done|]. constructor; [apply replacement_char|done].
  - exists [], l. split_and!; [rewrite <- Es; apply (place_app [] s)|done|done|by left].
  - lia.
  - cbn [mbind option_bind]. exists (out ++ cs). split; [|by apply Hrep, repaired_text].
    destruct Hstr as [(-> & -> & Hl) | [-> Hout]].
    + unfold g_strndup. rewrite Nat2Z.id, Es, <- Hl. destruct (text_bytes cs Hcs) as [_ Hnz].
      rewrite (strncpy_bytes _ tail Hnz). done.
    + rewrite (slice_place _ _ _ _ Hp). cbn [mbind option_bind]. rewrite app_assoc, <- encodes_app.
      rewrite validate_text; [done|]. by apply Forall_app.
Qed.

(** An invalid byte, a cut-off sequence and a surrogate between the letters a,
    b and c *)
Definition broken : list Z := [0x61; 0xff; 0x62; 0xe2; 0x82; 0x63; 0xed; 0xa0; 0x80].

Lemma make_valid_correct_witness :
  (bytes broken /\ argument broken 9 broken []) /\
  g_utf8_make_valid broken 9 = Some (encodes [0x61; 0xFFFD; 0x62; 0xFFFD; 0xFFFD; 0x63; 0xFFFD; 0xFFFD; 0xFFFD] ++ [0]) /\
  exists cs, g_utf8_make_valid broken 9 = Some (encodes cs ++ [0]) /\ Forall text_char cs /\ repaired broken cs /\
    (forall cs', repaired broken cs' -> cs' = cs) /\ (forall cs', Forall text_char cs' -> broken = encodes cs' -> cs' = cs).
Proof.
  assert (H1 : bytes broken) by (repeat constructor; vm_compute; congruence).
  assert (H2 : argument broken 9 broken []) by (split; [reflexivity|left; reflexivity]).
  split; [exact (conj H1 H2)|]. split; [vm_compute; reflexivity|]. exact (make_valid_correct broken 9 broken [] H1 H2).
Defined.
