(* ===== verification/Date.v ===== *)
(** Dates: src/glib-2.56.1/glib/gdate.c, the part that does not depend on the
    locale (g_date_set_parse and g_date_strftime are left out).

    A [GDate] holds a day in one or both of two representations, a day number
    ([julian_days], day 1 is 1 January of year 1) and day, month and year; the
    flags [julian] and [dmy] say which are up to date. The functions fill the
    other representation when they need it, through pointers to const: so all
    of them run in the store monad, on a store of dates. The store counts the
    critical warnings of g_return_if_fail, after which a function returns at
    once. *)
From S2P Require Import Prelude Store.

(** * Data: gdate.h *)

Record GDate := mkGDate {
  julian_days : Z;
  julian : bool;
  dmy : bool;
  day : Z;
  month : Z;
  year : Z;
}.

#[export] Instance GDate_eq_dec : EqDecision GDate.
Proof. solve_decision. Defined.

Definition G_DATE_BAD_JULIAN : Z := 0.
Definition G_DATE_BAD_DAY : Z := 0.
Definition G_DATE_BAD_YEAR : Z := 0.
Definition G_DATE_BAD_MONTH : Z := 0.
Definition G_DATE_BAD_WEEKDAY : Z := 0.
Definition G_DATE_MONDAY : Z := 1.
Definition G_DATE_SUNDAY : Z := 7.

(** Assignments to the bit fields keep 32, 6, 4 and 16 bits. *)
Definition with_julian_days (x : Z) (d : GDate) : GDate :=
  mkGDate (u32 x) (julian d) (dmy d) (day d) (month d) (year d).
Definition with_julian (b : bool) (d : GDate) : GDate :=
  mkGDate (julian_days d) b (dmy d) (day d) (month d) (year d).
Definition with_dmy (b : bool) (d : GDate) : GDate :=
  mkGDate (julian_days d) (julian d) b (day d) (month d) (year d).
Definition with_day (x : Z) (d : GDate) : GDate :=
  mkGDate (julian_days d) (julian d) (dmy d) (wrap 6 x) (month d) (year d).
Definition with_month (x : Z) (d : GDate) : GDate :=
  mkGDate (julian_days d) (julian d) (dmy d) (day d) (wrap 4 x) (year d).
Definition with_year (x : Z) (d : GDate) : GDate :=
  mkGDate (julian_days d) (julian d) (dmy d) (day d) (month d) (u16 x).

(** All bytes zero. *)
Definition zero_date : GDate := mkGDate 0 false false 0 0 0.

(** The fields of struct tm that the code reads or sets to other than zero. *)
Record tm := mkTm {
  tm_mday : Z;
  tm_mon : Z;
  tm_year : Z;
  tm_wday : Z;
  tm_yday : Z;
  tm_isdst : Z;
}.

(** * The store *)

Record Dates := mkDates { dates : gmap loc GDate; criticals : nat }.

#[export] Instance dates_mem : HasMem Dates GDate := {|
  mem_of := dates;
  set_mem m h := mkDates m (criticals h);
  mem_of_set_mem m h := eq_refl;
|}.

(** Where memory for a new object is found, on the heap or in a stack frame,
    and what that memory holds. *)
Class Placement := {
  place : Dates -> loc;
  garbage : Dates -> GDate;
}.

Definition critical : cmd Dates unit :=
  fun h => Some (tt, mkDates (dates h) (S (criticals h))).

Notation "'return_unless' c 'giving' v ;; k" :=
  (if (c : bool) then k else mbind (M := cmd Dates) (fun _ => mret v) critical)
  (at level 200, c at level 99, v at level 99, k at level 200, right associativity,
   format "'return_unless'  c  'giving'  v ;; '//' k").

(** g_assert stops the program. *)
Definition g_assert (c : bool) : cmd Dates unit := if c then mret tt else fault.

Definition not_null (d : loc) : bool := negb (d =? NULL).

Definition allocate (contents : GDate) (p : loc) : cmd Dates unit :=
  fun h => Some (tt, mkDates (<[p := contents]> (dates h)) (criticals h)).
Definition release (p : loc) : cmd Dates unit :=
  fun h => match dates h !! p with
           | Some _ => Some (tt, mkDates (delete p (dates h)) (criticals h))
           | None => None
           end.

Definition g_new `{Placement} : cmd Dates loc :=
  fun h => (_ ← allocate (garbage h) (place h); mret (place h)) h.
Definition g_new0 `{Placement} : cmd Dates loc :=
  fun h => (_ ← allocate zero_date (place h); mret (place h)) h.

(** A local variable of type GDate: its memory goes when the block returns. *)
Definition with_local `{Placement} {A} (body : loc -> cmd Dates A) : cmd Dates A :=
  p ← g_new;
  r ← body p;
  _ ← release p;
  mret r.

(** A read outside a table is an error. *)
Definition table (t : list Z) (i : Z) : cmd Dates Z :=
  match array_get t i with Some x => mret x | None => fault end.

(** * Validity and the calendar tables *)

Definition days_in_months (idx : bool) : list Z :=
  if idx then [0; 31; 29; 31; 30; 31; 30; 31; 31; 30; 31; 30; 31]
  else [0; 31; 28; 31; 30; 31; 30; 31; 31; 30; 31; 30; 31].
Definition days_in_year (idx : bool) : list Z :=
  if idx then [0; 0; 31; 60; 91; 121; 152; 182; 213; 244; 274; 305; 335; 366]
  else [0; 0; 31; 59; 90; 120; 151; 181; 212; 243; 273; 304; 334; 365].

Definition g_date_valid (d : loc) : cmd Dates bool :=
  return_unless not_null d giving false;;
  j ← rd julian d;
  if j : bool then mret true else rd dmy d.

Definition g_date_valid_month (m : Z) : bool := (m >? G_DATE_BAD_MONTH) && (m <? 13).
Definition g_date_valid_year (y : Z) : bool := y >? G_DATE_BAD_YEAR.
Definition g_date_valid_day (d : Z) : bool := (d >? G_DATE_BAD_DAY) && (d <? 32).
Definition g_date_valid_weekday (w : Z) : bool := (w >? G_DATE_BAD_WEEKDAY) && (w <? 8).
Definition g_date_valid_julian (j : Z) : bool := j >? G_DATE_BAD_JULIAN.

Definition g_date_is_leap_year (year : Z) : cmd Dates bool :=
  return_unless g_date_valid_year year giving false;;
  mret ((year mod 4 =? 0) && negb (year mod 100 =? 0) || (year mod 400 =? 0)).

Definition g_date_valid_dmy (d m y : Z) : cmd Dates bool :=
  if (m >? G_DATE_BAD_MONTH) && (m <? 13) && (d >? G_DATE_BAD_DAY) && (y >? G_DATE_BAD_YEAR)
  then leap ← g_date_is_leap_year y;
       n ← table (days_in_months leap) m;
       mret (d <=? n)
  else mret false.

(** * The two representations *)

Definition add_julian_days (d : loc) (n : Z) : cmd Dates unit :=
  j ← rd julian_days d; wr (with_julian_days (j + n)) d.

Definition g_date_update_julian (d : loc) : cmd Dates unit :=
  return_unless not_null d giving tt;;
  dm ← rd dmy d;
  return_unless dm giving tt;;
  j ← rd julian d;
  return_unless negb j giving tt;;
  dd ← rd day d; m ← rd month d; y ← rd year d;
  v ← g_date_valid_dmy dd m y;
  return_unless v giving tt;;
  let year0 := u16 (y - 1) in
  _ ← wr (with_julian_days (year0 * 365)) d;
  let year1 := u16 (year0 .>> 2)%C in
  _ ← add_julian_days d year1;
  let year2 := u16 (year1 / 25) in
  _ ← add_julian_days d (- year2);
  _ ← add_julian_days d (year2 .>> 2)%C;
  idx ← g_date_is_leap_year y;
  n ← table (days_in_year idx) m;
  _ ← add_julian_days d (n + dd);
  jd ← rd julian_days d;
  return_unless g_date_valid_julian jd giving tt;;
  wr (with_julian true) d.

Definition g_date_update_dmy (d : loc) : cmd Dates unit :=
  return_unless not_null d giving tt;;
  j ← rd julian d;
  return_unless j giving tt;;
  dm ← rd dmy d;
  return_unless negb dm giving tt;;
  jd ← rd julian_days d;
  return_unless g_date_valid_julian jd giving tt;;
  let A := u32 (jd + 1721425 + 32045) in
  let B := u32 (u32 (4 * (A + 36524)) / 146097 - 1) in
  let C := u32 (A - u32 (146097 * B) / 4) in
  let D := u32 (u32 (4 * (C + 365)) / 1461 - 1) in
  let E := u32 (C - u32 (1461 * D) / 4) in
  let M := u32 (5 * (E - 1) + 2) / 153 in
  let m := u32 (M + 3 - 12 * (M / 10)) in
  let dd := u8 (u32 (E - u32 (153 * M + 2) / 5)) in
  let y := u16 (u32 (100 * B + D - 4800 + M / 10)) in
  _ ← wr (with_month m) d;
  _ ← wr (with_day dd) d;
  _ ← wr (with_year y) d;
  wr (with_dmy true) d.

(** if (!d->julian) g_date_update_julian (d) *)
Definition need_julian (d : loc) : cmd Dates unit :=
  j ← rd julian d; if j : bool then mret tt else g_date_update_julian d.
(** if (!d->dmy) g_date_update_dmy (d) *)
Definition need_dmy (d : loc) : cmd Dates unit :=
  dm ← rd dmy d; if dm : bool then mret tt else g_date_update_dmy d.

(** * Making and destroying dates *)

Section allocation.
Context `{Placement}.

Definition g_date_new : cmd Dates loc := g_new0.

Definition g_date_new_dmy (dd m y : Z) : cmd Dates loc :=
  v ← g_date_valid_dmy dd m y;
  return_unless v giving NULL;;
  d ← g_new;
  _ ← wr (with_julian false) d;
  _ ← wr (with_dmy true) d;
  _ ← wr (with_month m) d;
  _ ← wr (with_day dd) d;
  _ ← wr (with_year y) d;
  ok ← g_date_valid d;
  _ ← g_assert ok;
  mret d.

Definition g_date_new_julian (j : Z) : cmd Dates loc :=
  return_unless g_date_valid_julian j giving NULL;;
  d ← g_new;
  _ ← wr (with_julian true) d;
  _ ← wr (with_dmy false) d;
  _ ← wr (with_julian_days j) d;
  ok ← g_date_valid d;
  _ ← g_assert ok;
  mret d.

Definition g_date_free (d : loc) : cmd Dates unit :=
  return_unless not_null d giving tt;;
  release d.
End allocation.

(** * Accessors *)

Definition g_date_get_weekday (d : loc) : cmd Dates Z :=
  v ← g_date_valid d;
  return_unless v giving G_DATE_BAD_WEEKDAY;;
  _ ← need_julian d;
  j ← rd julian d;
  return_unless j giving G_DATE_BAD_WEEKDAY;;
  jd ← rd julian_days d;
  mret (u32 (u32 (jd - 1) mod 7 + 1)).

Definition g_date_get_month (d : loc) : cmd Dates Z :=
  v ← g_date_valid d;
  return_unless v giving G_DATE_BAD_MONTH;;
  _ ← need_dmy d;
  dm ← rd dmy d;
  return_unless dm giving G_DATE_BAD_MONTH;;
  rd month d.

Definition g_date_get_year (d : loc) : cmd Dates Z :=
  v ← g_date_valid d;
  return_unless v giving G_DATE_BAD_YEAR;;
  _ ← need_dmy d;
  dm ← rd dmy d;
  return_unless dm giving G_DATE_BAD_YEAR;;
  rd year d.

Definition g_date_get_day (d : loc) : cmd Dates Z :=
  v ← g_date_valid d;
  return_unless v giving G_DATE_BAD_DAY;;
  _ ← need_dmy d;
  dm ← rd dmy d;
  return_unless dm giving G_DATE_BAD_DAY;;
  rd day d.

Definition g_date_get_julian (d : loc) : cmd Dates Z :=
  v ← g_date_valid d;
  return_unless v giving G_DATE_BAD_JULIAN;;
  _ ← need_julian d;
  j ← rd julian d;
  return_unless j giving G_DATE_BAD_JULIAN;;
  rd julian_days d.

Definition g_date_get_day_of_year (d : loc) : cmd Dates Z :=
  v ← g_date_valid d;
  return_unless v giving 0;;
  _ ← need_dmy d;
  dm ← rd dmy d;
  return_unless dm giving 0;;
  y ← rd year d;
  idx ← g_date_is_leap_year y;
  m ← rd month d;
  n ← table (days_in_year idx) m;
  dd ← rd day d;
  mret (n + dd).

(** memset over [ndates] objects from [d]; an array of dates has its elements
    at consecutive addresses. *)
Fixpoint clear_dates (d : loc) (ndates : nat) : cmd Dates unit :=
  match ndates with
  | O => mret tt
  | S n => _ ← wr (fun _ => zero_date) d; clear_dates (d + 1) n
  end.

Definition g_date_clear (d : loc) (ndates : nat) : cmd Dates unit :=
  return_unless not_null d giving tt;;
  return_unless negb (Nat.eqb ndates 0) giving tt;;
  clear_dates d ndates.

Definition g_date_set_dmy (d : loc) (dd m y : Z) : cmd Dates unit :=
  return_unless not_null d giving tt;;
  v ← g_date_valid_dmy dd m y;
  return_unless v giving tt;;
  _ ← wr (with_julian false) d;
  _ ← wr (with_month m) d;
  _ ← wr (with_day dd) d;
  _ ← wr (with_year y) d;
  wr (with_dmy true) d.

Section weeks.
Context `{Placement}.

Definition g_date_get_monday_week_of_year (d : loc) : cmd Dates Z :=
  with_local (fun first =>
  v ← g_date_valid d;
  return_unless v giving 0;;
  _ ← need_dmy d;
  dm ← rd dmy d;
  return_unless dm giving 0;;
  _ ← g_date_clear first 1;
  y ← rd year d;
  _ ← g_date_set_dmy first 1 1 y;
  w ← g_date_get_weekday first;
  let wd := u32 (w - 1) in
  n ← g_date_get_day_of_year d;
  let day := u32 (n - 1) in
  mret (u32 (u32 (day + wd) / 7 + (if wd =? 0 then 1 else 0)))).

Definition g_date_get_sunday_week_of_year (d : loc) : cmd Dates Z :=
  with_local (fun first =>
  v ← g_date_valid d;
  return_unless v giving 0;;
  _ ← need_dmy d;
  dm ← rd dmy d;
  return_unless dm giving 0;;
  _ ← g_date_clear first 1;
  y ← rd year d;
  _ ← g_date_set_dmy first 1 1 y;
  w ← g_date_get_weekday first;
  let wd := if w =? 7 then 0 else w in
  n ← g_date_get_day_of_year d;
  let day := u32 (n - 1) in
  mret (u32 (u32 (day + wd) / 7 + (if wd =? 0 then 1 else 0)))).

(** The tail shared by the two functions that count the weeks of a year:
    [first] is G_DATE_MONDAY or G_DATE_SUNDAY. *)
Definition weeks_in_year (first year : Z) : cmd Dates Z :=
  with_local (fun d =>
  return_unless g_date_valid_year year giving 0;;
  _ ← g_date_clear d 1;
  _ ← g_date_set_dmy d 1 1 year;
  w ← g_date_get_weekday d;
  if w =? first then mret 53 else
  _ ← g_date_set_dmy d 31 12 year;
  w ← g_date_get_weekday d;
  if w =? first then mret 53 else
  leap ← g_date_is_leap_year year;
  if leap : bool then
    _ ← g_date_set_dmy d 2 1 year;
    w ← g_date_get_weekday d;
    if w =? first then mret 53 else
    _ ← g_date_set_dmy d 30 12 year;
    w ← g_date_get_weekday d;
    if w =? first then mret 53 else mret 52
  else mret 52).

Definition g_date_get_monday_weeks_in_year (year : Z) : cmd Dates Z :=
  weeks_in_year G_DATE_MONDAY year.
Definition g_date_get_sunday_weeks_in_year (year : Z) : cmd Dates Z :=
  weeks_in_year G_DATE_SUNDAY year.
End weeks.

Definition g_date_get_iso8601_week_of_year (d : loc) : cmd Dates Z :=
  v ← g_date_valid d;
  return_unless v giving 0;;
  _ ← need_julian d;
  ok ← rd julian d;
  return_unless ok giving 0;;
  jd ← rd julian_days d;
  let j := u32 (jd + 1721425) in
  let d4 := u32 (j + 31741 - j mod 7) mod 146097 mod 36524 mod 1461 in
  let L := d4 / 1460 in
  let d1 := u32 (u32 (d4 - L) mod 365 + L) in
  let w := u32 (d1 / 7 + 1) in
  mret w.

Definition g_date_days_between (d1 d2 : loc) : cmd Dates Z :=
  v1 ← g_date_valid d1;
  return_unless v1 giving 0;;
  v2 ← g_date_valid d2;
  return_unless v2 giving 0;;
  j2 ← g_date_get_julian d2;
  j1 ← g_date_get_julian d1;
  mret (s32 (s32 j2 - s32 j1)).

Definition g_date_get_days_in_month (month year : Z) : cmd Dates Z :=
  return_unless g_date_valid_year year giving 0;;
  return_unless g_date_valid_month month giving 0;;
  idx ← g_date_is_leap_year year;
  table (days_in_months idx) month.

Definition g_date_copy `{Placement} (date : loc) : cmd Dates loc :=
  return_unless not_null date giving NULL;;
  v ← g_date_valid date;
  if v : bool then j ← g_date_get_julian date; g_date_new_julian j
  else
    res ← g_date_new;
    src ← rd id date;
    _ ← wr (fun _ => src) res;
    mret res.

(** * Setting *)

(** localtime_r is the operating system's; time_t is 64 bits wide. *)
Definition g_date_set_time_t (localtime_r : Z -> tm) (date : loc) (timet : Z) : cmd Dates unit :=
  return_unless not_null date giving tt;;
  let tm := localtime_r timet in
  _ ← wr (with_julian false) date;
  _ ← wr (with_month (tm_mon tm + 1)) date;
  _ ← wr (with_day (tm_mday tm)) date;
  _ ← wr (with_year (tm_year tm + 1900)) date;
  dd ← rd day date; m ← rd month date; y ← rd year date;
  v ← g_date_valid_dmy dd m y;
  return_unless v giving tt;;
  wr (with_dmy true) date.

Definition g_date_set_time (localtime_r : Z -> tm) (date : loc) (time_ : Z) : cmd Dates unit :=
  g_date_set_time_t localtime_r date (s64 time_).
(** [tv_sec] is the seconds field of the GTimeVal. *)
Definition g_date_set_time_val (localtime_r : Z -> tm) (date : loc) (tv_sec : Z) : cmd Dates unit :=
  g_date_set_time_t localtime_r date (s64 tv_sec).

(** The common frame of g_date_set_month, g_date_set_day and g_date_set_year
    around the assignment [set]. *)
Definition set_field (d : loc) (set : GDate -> GDate) : cmd Dates unit :=
  j ← rd julian d; dm ← rd dmy d;
  _ ← (if j && negb dm then g_date_update_dmy d else mret tt);
  _ ← wr (with_julian false) d;
  _ ← wr set d;
  dd ← rd day d; m ← rd month d; y ← rd year d;
  v ← g_date_valid_dmy dd m y;
  if v : bool then wr (with_dmy true) d else wr (with_dmy false) d.

Definition g_date_set_month (d : loc) (m : Z) : cmd Dates unit :=
  return_unless not_null d giving tt;;
  return_unless g_date_valid_month m giving tt;;
  set_field d (with_month m).

Definition g_date_set_day (d : loc) (day : Z) : cmd Dates unit :=
  return_unless not_null d giving tt;;
  return_unless g_date_valid_day day giving tt;;
  set_field d (with_day day).

Definition g_date_set_year (d : loc) (y : Z) : cmd Dates unit :=
  return_unless not_null d giving tt;;
  return_unless g_date_valid_year y giving tt;;
  set_field d (with_year y).

Definition g_date_set_julian (d : loc) (j : Z) : cmd Dates unit :=
  return_unless not_null d giving tt;;
  return_unless g_date_valid_julian j giving tt;;
  _ ← wr (with_julian_days j) d;
  _ ← wr (with_julian true) d;
  wr (with_dmy false) d.

Definition g_date_is_first_of_month (d : loc) : cmd Dates bool :=
  v ← g_date_valid d;
  return_unless v giving false;;
  _ ← need_dmy d;
  dm ← rd dmy d;
  return_unless dm giving false;;
  dd ← rd day d;
  mret (dd =? 1).

Definition g_date_is_last_of_month (d : loc) : cmd Dates bool :=
  v ← g_date_valid d;
  return_unless v giving false;;
  _ ← need_dmy d;
  dm ← rd dmy d;
  return_unless dm giving false;;
  y ← rd year d;
  idx ← g_date_is_leap_year y;
  dd ← rd day d; m ← rd month d;
  n ← table (days_in_months idx) m;
  mret (dd =? n).

(** * Arithmetic *)

Definition g_date_add_days (d : loc) (ndays : Z) : cmd Dates unit :=
  v ← g_date_valid d;
  return_unless v giving tt;;
  _ ← need_julian d;
  j ← rd julian d;
  return_unless j giving tt;;
  jd ← rd julian_days d;
  _ ← wr (with_julian_days (jd + ndays)) d;
  wr (with_dmy false) d.

Definition g_date_subtract_days (d : loc) (ndays : Z) : cmd Dates unit :=
  v ← g_date_valid d;
  return_unless v giving tt;;
  _ ← need_julian d;
  j ← rd julian d;
  return_unless j giving tt;;
  jd ← rd julian_days d;
  return_unless (jd >? ndays) giving tt;;
  _ ← wr (with_julian_days (jd - ndays)) d;
  wr (with_dmy false) d.

(** The end of g_date_add_months and g_date_subtract_months: a day the month
    does not have becomes its last day. *)
Definition limit_day (d : loc) : cmd Dates unit :=
  y ← rd year d;
  idx ← g_date_is_leap_year y;
  dd ← rd day d; m ← rd month d;
  n ← table (days_in_months idx) m;
  _ ← (if dd >? n then wr (with_day n) d else mret tt);
  _ ← wr (with_julian false) d;
  v ← g_date_valid d;
  return_unless v giving tt;;
  mret tt.

Definition g_date_add_months (d : loc) (nmonths : Z) : cmd Dates unit :=
  v ← g_date_valid d;
  return_unless v giving tt;;
  _ ← need_dmy d;
  dm ← rd dmy d;
  return_unless dm giving tt;;
  m ← rd month d;
  let nmonths := u32 (nmonths + (m - 1)) in
  let years := nmonths / 12 in
  let months := nmonths mod 12 in
  _ ← wr (with_month (months + 1)) d;
  y ← rd year d;
  _ ← wr (with_year (y + years)) d;
  limit_day d.

Definition g_date_subtract_months (d : loc) (nmonths : Z) : cmd Dates unit :=
  v ← g_date_valid d;
  return_unless v giving tt;;
  _ ← need_dmy d;
  dm ← rd dmy d;
  return_unless dm giving tt;;
  let years := nmonths / 12 in
  let months := nmonths mod 12 in
  y ← rd year d;
  return_unless (y >? years) giving tt;;
  _ ← wr (with_year (y - years)) d;
  m ← rd month d;
  _ ← (if m >? months then wr (with_month (m - months)) d
       else let months := u32 (months - m) in
            _ ← wr (with_month (u32 (12 - months))) d;
            y ← rd year d;
            wr (with_year (y - 1)) d);
  limit_day d.

(** The end of g_date_add_years and g_date_subtract_years. *)
Definition leave_leap_day (d : loc) : cmd Dates unit :=
  m ← rd month d; dd ← rd day d;
  _ ← (if (m =? 2) && (dd =? 29)
       then y ← rd year d;
            leap ← g_date_is_leap_year y;
            if negb leap then wr (with_day 28) d else mret tt
       else mret tt);
  wr (with_julian false) d.

Definition g_date_add_years (d : loc) (nyears : Z) : cmd Dates unit :=
  v ← g_date_valid d;
  return_unless v giving tt;;
  _ ← need_dmy d;
  dm ← rd dmy d;
  return_unless dm giving tt;;
  y ← rd year d;
  _ ← wr (with_year (y + nyears)) d;
  leave_leap_day d.

Definition g_date_subtract_years (d : loc) (nyears : Z) : cmd Dates unit :=
  v ← g_date_valid d;
  return_unless v giving tt;;
  _ ← need_dmy d;
  dm ← rd dmy d;
  return_unless dm giving tt;;
  y ← rd year d;
  return_unless (y >? nyears) giving tt;;
  _ ← wr (with_year (y - nyears)) d;
  leave_leap_day d.

(** * Order *)

(** [if (a < b) return -1; else if (a > b) return 1; else k] *)
Definition ordered (a b k : Z) : Z := if a <? b then -1 else if a >? b then 1 else k.

Definition compare_round (lhs rhs : loc) : cmd Dates (unit + Z) :=
  lj ← rd julian lhs; rj ← rd julian rhs;
  if lj && rj then
    a ← rd julian_days lhs; b ← rd julian_days rhs;
    mret (inr (ordered a b 0))
  else
  ld ← rd dmy lhs; rdm ← rd dmy rhs;
  if ld && rdm then
    ly ← rd year lhs; ry ← rd year rhs;
    lm ← rd month lhs; rm ← rd month rhs;
    ldd ← rd day lhs; rdd ← rd day rhs;
    mret (inr (ordered ly ry (ordered lm rm (ordered ldd rdd 0))))
  else
    _ ← need_julian lhs;
    _ ← need_julian rhs;
    lj ← rd julian lhs;
    return_unless lj giving inr 0;;
    rj ← rd julian rhs;
    return_unless rj giving inr 0;;
    mret (inl tt).

(** The loop of g_date_compare takes a second round only after both day numbers
    have been filled: a budget of two rounds. *)
Definition g_date_compare (lhs rhs : loc) : cmd Dates Z :=
  return_unless not_null lhs giving 0;;
  return_unless not_null rhs giving 0;;
  v ← g_date_valid lhs;
  return_unless v giving 0;;
  v ← g_date_valid rhs;
  return_unless v giving 0;;
  loop 2 (fun _ => compare_round lhs rhs) tt.

(** What is written to [*tm], nothing after a warning; [null_tm] says that the
    pointer is NULL. *)
Definition g_date_to_struct_tm (d : loc) (null_tm : bool) : cmd Dates (option tm) :=
  v ← g_date_valid d;
  return_unless v giving None;;
  return_unless negb null_tm giving None;;
  _ ← need_dmy d;
  dm ← rd dmy d;
  return_unless dm giving None;;
  dd ← rd day d; m ← rd month d; y ← rd year d;
  w ← g_date_get_weekday d;
  let wday := if w =? 7 then 0 else w in
  n ← g_date_get_day_of_year d;
  mret (Some (mkTm dd (m - 1) (y - 1900) (s32 wday) (s32 (u32 (n - 1))) (-1))).

(** [*dst = *src] *)
Definition assign_date (dst src : loc) : cmd Dates unit :=
  v ← rd id src; wr (fun _ => v) dst.

Definition g_date_clamp (date min_date max_date : loc) : cmd Dates unit :=
  v ← g_date_valid date;
  return_unless v giving tt;;
  v ← (if not_null min_date then g_date_valid min_date else mret true);
  return_unless v giving tt;;
  v ← (if not_null max_date then g_date_valid max_date else mret true);
  return_unless v giving tt;;
  c ← (if not_null min_date && not_null max_date then g_date_compare min_date max_date else mret 0);
  return_unless (c <=? 0) giving tt;;
  c ← (if not_null min_date then g_date_compare date min_date else mret 0);
  _ ← (if c <? 0 then assign_date date min_date else mret tt);
  c ← (if not_null max_date then g_date_compare max_date date else mret 0);
  if c <? 0 then assign_date date max_date else mret tt.

Definition g_date_order (date1 date2 : loc) : cmd Dates unit :=
  v ← g_date_valid date1;
  return_unless v giving tt;;
  v ← g_date_valid date2;
  return_unless v giving tt;;
  c ← g_date_compare date1 date2;
  if c >? 0 then
    tmp ← rd id date1;
    _ ← assign_date date1 date2;
    wr (fun _ => tmp) date2
  else mret tt.
