(* ===== verification/DateCalendar.v ===== *)
(** The calendar that the dates of Date are proved against, and the arithmetic
    of the two conversion formulas of gdate.c.

    The reference is counting: [civil n] is reached from 1 January of year 1 by
    n - 1 steps to the next day. [number] and [split_number] are the formulas of
    g_date_update_julian and g_date_update_dmy without their machine integers. *)
From S2P Require Import Prelude Utf8Char Date.

(** * The reference calendar *)

(** Year, month and day. *)
Definition ymd : Type := Z * Z * Z.

Definition leap (y : Z) : bool :=
  (y mod 4 =? 0) && negb (y mod 100 =? 0) || (y mod 400 =? 0).

Definition month_length (y m : Z) : Z :=
  if m =? 2 then (if leap y then 29 else 28)
  else if (m =? 4) || (m =? 6) || (m =? 9) || (m =? 11) then 30 else 31.

Definition next_day (x : ymd) : ymd :=
  let '(y, m, d) := x in
  if d <? month_length y m then (y, m, d + 1)
  else if m <? 12 then (y, m + 1, 1)
  else (y + 1, 1, 1).

(** The calendar day with number [n]. *)
Definition civil (n : Z) : ymd := Nat.iter (Z.to_nat (n - 1)) next_day (1, 1, 1).

Definition real_day (x : ymd) : Prop :=
  let '(y, m, d) := x in 1 <= y /\ 1 <= m <= 12 /\ 1 <= d <= month_length y m.

#[export] Instance real_day_dec x : Decision (real_day x).
Proof. destruct x as [[y m] d]. unfold real_day. apply _. Defined.

(** The last day of year 65535. *)
Definition MAX_DAY : Z := 23936166.

(** * The formulas *)

(** Days of the year before month [m]. *)
Definition before (y m : Z) : Z := default 0 (array_get (days_in_year (leap y)) m).

Definition year_start (y : Z) : Z := 365 * (y - 1) + (y - 1) / 4 - (y - 1) / 100 + (y - 1) / 400.

Definition number (x : ymd) : Z :=
  let '(y, m, d) := x in year_start y + before y m + d.

Definition split_number (j : Z) : ymd :=
  let A := j + 1721425 + 32045 in
  let B := 4 * (A + 36524) / 146097 - 1 in
  let C := A - 146097 * B / 4 in
  let D := 4 * (C + 365) / 1461 - 1 in
  let E := C - 1461 * D / 4 in
  let M := (5 * (E - 1) + 2) / 153 in
  (100 * B + D - 4800 + M / 10, M + 3 - 12 * (M / 10), E - (153 * M + 2) / 5).

Lemma month_cases m (P : Z -> Prop) :
  1 <= m <= 12 -> P 1 -> P 2 -> P 3 -> P 4 -> P 5 -> P 6 -> P 7 -> P 8 -> P 9 -> P 10 -> P 11 -> P 12 -> P m.
Proof.
  intros Hm. assert (Hc : m = 1 \/ m = 2 \/ m = 3 \/ m = 4 \/ m = 5 \/ m = 6 \/ m = 7 \/ m = 8 \/ m = 9 \/
    m = 10 \/ m = 11 \/ m = 12) by lia.
  by repeat destruct Hc as [->|Hc]; subst.
Qed.

Ltac by_month m := pattern m; apply month_cases; [lia|..].

Lemma month_length_bounds y m : 28 <= month_length y m <= 31.
Proof. unfold month_length. repeat case_match; lia. Qed.

(** ** Leap years *)

Lemma leap_decomposition y :
  leap y = true <-> y mod 400 = 0 \/ (y mod 4 = 0 /\ y mod 100 <> 0).
Proof. unfold leap. rewrite orb_true_iff, andb_true_iff, negb_true_iff, !Z.eqb_eq, Z.eqb_neq. lia. Qed.

Lemma year_start_succ y : year_start (y + 1) = year_start y + 365 + (if leap y then 1 else 0).
Proof.
  unfold year_start. destruct (leap y) eqn:Hl.
  - apply leap_decomposition in Hl. div_lia.
  - assert (~ (y mod 400 = 0 \/ (y mod 4 = 0 /\ y mod 100 <> 0)))
      by (rewrite <- leap_decomposition; congruence). div_lia.
Qed.

Lemma before_succ y m : 1 <= m < 12 -> before y (m + 1) = before y m + month_length y m.
Proof.
  intros Hm. unfold before, month_length.
  assert (Hc : m = 1 \/ m = 2 \/ m = 3 \/ m = 4 \/ m = 5 \/ m = 6 \/ m = 7 \/ m = 8 \/ m = 9 \/
    m = 10 \/ m = 11) by lia.
  destruct (leap y); repeat destruct Hc as [->|Hc]; subst; reflexivity.
Qed.

Lemma before_year y : before y 12 + month_length y 12 = 365 + (if leap y then 1 else 0).
Proof. unfold before, month_length. by destruct (leap y). Qed.

Lemma number_next x : real_day x -> number (next_day x) = number x + 1 /\ real_day (next_day x).
Proof.
  destruct x as [[y m] d]. unfold real_day, next_day. intros (Hy & Hm & Hd).
  pose proof (month_length_bounds y m) as Hl.
  destruct (Z.ltb_spec d (month_length y m)); [unfold number; split; [lia|repeat split; lia]|].
  destruct (Z.ltb_spec m 12).
  - pose proof (before_succ y m ltac:(lia)). pose proof (month_length_bounds y (m + 1)).
    unfold number. split; [lia|repeat split; lia].
  - assert (m = 12) as -> by lia. pose proof (before_year y). pose proof (year_start_succ y).
    pose proof (month_length_bounds (y + 1) 1).
    assert (before (y + 1) 1 = 0) by (unfold before; by destruct (leap (y + 1))).
    unfold number. split; [lia|repeat split; lia].
Qed.

Lemma civil_succ n : 1 <= n -> civil (n + 1) = next_day (civil n).
Proof.
  intros Hn. unfold civil. replace (Z.to_nat (n + 1 - 1)) with (S (Z.to_nat (n - 1))) by lia. done.
Qed.

Lemma civil_spec n : 1 <= n -> number (civil n) = n /\ real_day (civil n).
Proof.
  intros Hn. replace n with (1 + Z.of_nat (Z.to_nat (n - 1))) by lia.
  induction (Z.to_nat (n - 1)) as [|k IH]; [by vm_compute|].
  replace (1 + Z.of_nat (S k)) with (1 + Z.of_nat k + 1) by lia.
  rewrite civil_succ by lia. destruct IH as [Hk Hr].
  destruct (number_next _ Hr) as [-> Hr']. split; [lia|done].
Qed.

(** ** The formula of the Calendar FAQ

    It counts the days from 1 March of year -4800, in years that start in March:
    the leap day is then the last day of its year, and the lengths of the months
    before month [m] sum up to (153 m + 2) / 5. *)
Lemma split_march Y m d (Y' := Y + 4800) :
  0 <= Y' -> 0 <= m <= 11 ->
  1 <= d -> (153 * m + 2) / 5 + d <= (153 * (m + 1) + 2) / 5 ->
  (m = 11 -> (153 * m + 2) / 5 + d <= 365 + (if leap (Y + 1) then 1 else 0)) ->
  let A := 365 * Y' + Y' / 4 - Y' / 100 + Y' / 400 + (153 * m + 2) / 5 + d in
  split_number (A - 1721425 - 32045) = (Y + m / 10, m + 3 - 12 * (m / 10), d).
Proof.
  intros HY Hm Hd Hlen Hfeb A.
  set (q := Y' / 400). set (c := Y' mod 400 / 100). set (k := Y' mod 100 / 4). set (r := Y' mod 4).
  set (e := (153 * m + 2) / 5 + d) in *.
  assert (HYs : Y' = 400 * q + 100 * c + 4 * k + r) by (subst q c k r; clear; div_lia).
  assert (Hc : 0 <= c <= 3) by (subst c; clear; div_lia).
  assert (Hk : 0 <= k <= 24) by (subst k; clear; div_lia).
  assert (Hr : 0 <= r <= 3) by (subst r; clear; div_lia).
  assert (HA : A = 146097 * q + 36524 * c + 1461 * k + 365 * r + e)
    by (subst A e; clearbody q c k r Y'; generalize ((153 * m + 2) / 5); clear - HYs Hc Hk Hr; intros; div_lia).
  assert (He : 1 <= e <= 366 /\ (e = 366 -> r = 3 /\ (k <= 23 \/ c = 3))).
  { assert (1 <= e <= 367) by (subst e; clear - Hd Hlen Hm; div_lia).
    destruct (decide (e <= 365)); [lia|].
    assert (m = 11) by (subst e; clear - n Hd Hlen Hm; div_lia).
    specialize (Hfeb H0). destruct (leap (Y + 1)) eqn:Hl; [|lia]. apply leap_decomposition in Hl.
    split; [lia|]. intros _. clearbody q c k r e. clear - Hl HYs Hc Hk Hr. subst Y'. div_lia. }
  clearbody q c k r. clear HY Hfeb.
  unfold split_number. replace (A - 1721425 - 32045 + 1721425 + 32045) with A by lia.
  assert (HB : 4 * (A + 36524) / 146097 - 1 = 4 * q + c) by (clearbody e; clear Hlen; div_lia).
  rewrite HB.
  assert (HC : A - 146097 * (4 * q + c) / 4 = 1461 * k + 365 * r + e) by (clearbody e; clear Hlen; div_lia).
  rewrite HC.
  assert (HD : 4 * (1461 * k + 365 * r + e + 365) / 1461 - 1 = 4 * k + r) by (clearbody e; clear Hlen HA HC HB; div_lia).
  rewrite HD.
  assert (HE : 1461 * k + 365 * r + e - 1461 * (4 * k + r) / 4 = e) by (clearbody e; clear Hlen HA HC HB; div_lia).
  rewrite HE.
  assert (HM : (5 * (e - 1) + 2) / 153 = m) by (subst e; clear - Hd Hlen Hm; div_lia).
  rewrite HM. repeat f_equal; subst e; lia.
Qed.

Lemma split_number_number x : real_day x -> split_number (number x) = x.
Proof.
  destruct x as [[y m] d]. intros (Hy & Hm & Hd).
  destruct (decide (3 <= m)) as [H3|H3].
  - pose proof (split_march y (m - 3) d) as Hs. cbv zeta in Hs.
    assert (Hd' : (153 * (m - 3) + 2) / 5 + d <= (153 * (m - 3 + 1) + 2) / 5).
    { revert Hd H3. unfold month_length. by_month m; try lia; cbn -[Z.add Z.mul Z.div Z.sub Z.le leap]; div_lia. }
    specialize (Hs ltac:(lia) ltac:(lia) ltac:(lia) Hd' ltac:(lia)).
    assert (Hm10 : (m - 3) / 10 = 0) by (apply Z.div_small; lia).
    rewrite Hm10 in Hs. replace (y + 0) with y in Hs by lia.
    replace (m - 3 + 3 - 12 * 0) with m in Hs by lia. etransitivity; [|exact Hs]. f_equal.
    unfold number, year_start.
    assert (Hb : before y m = 59 + (153 * (m - 3) + 2) / 5 + (if leap y then 1 else 0)).
    { revert H3. unfold before. by_month m; try lia; by destruct (leap y). }
    rewrite Hb. pose proof (year_start_succ y) as Hys. unfold year_start in Hys.
    replace (y + 1 - 1) with y in Hys by lia.
    clear - Hys. destruct (leap y); div_lia.
  - pose proof (split_march (y - 1) (m + 9) d) as Hs. cbv zeta in Hs.
    assert (Hd' : (153 * (m + 9) + 2) / 5 + d <= (153 * (m + 9 + 1) + 2) / 5).
    { revert Hd. unfold month_length.
      assert (Hc : m = 1 \/ m = 2) by lia. destruct Hc as [->| ->]; cbn -[Z.add Z.mul Z.div Z.sub Z.le leap]; destruct (leap y); div_lia. }
    assert (Hf : m + 9 = 11 -> (153 * (m + 9) + 2) / 5 + d <= 365 + (if leap (y - 1 + 1) then 1 else 0)).
    { intros H11. assert (m = 2) as -> by lia. revert Hd. unfold month_length. cbn -[Z.add Z.mul Z.div Z.sub Z.le leap].
      replace (y - 1 + 1) with y by lia. destruct (leap y); div_lia. }
    specialize (Hs ltac:(lia) ltac:(lia) ltac:(lia) Hd' Hf).
    assert (Hm10 : (m + 9) / 10 = 1) by (clear - H3 Hm; div_lia).
    rewrite Hm10 in Hs. replace (y - 1 + 1) with y in Hs by lia.
    replace (m + 9 + 3 - 12 * 1) with m in Hs by lia. etransitivity; [|exact Hs]. f_equal.
    unfold number, year_start.
    assert (Hb : before y m = (153 * (m + 9) + 2) / 5 - 306).
    { unfold before. assert (Hc : m = 1 \/ m = 2) by lia. destruct Hc as [->| ->]; by destruct (leap y). }
    rewrite Hb. clear. div_lia.
Qed.

Lemma split_number_civil n : 1 <= n -> split_number n = civil n.
Proof.
  intros Hn. destruct (civil_spec n Hn) as [Hnum Hr]. rewrite <- (split_number_number _ Hr). by rewrite Hnum.
Qed.

Lemma number_pos x : real_day x -> 1 <= number x.
Proof.
  destruct x as [[y m] d]. intros (Hy & Hm & Hd). unfold number.
  assert (0 <= before y m) by (unfold before; by_month m; by destruct (leap y)).
  assert (0 <= year_start y) by (unfold year_start; clear - Hy; div_lia). lia.
Qed.

Lemma civil_number x : real_day x -> civil (number x) = x.
Proof.
  intros Hr. rewrite <- split_number_civil by (by apply number_pos). by apply split_number_number.
Qed.

Lemma number_inj x x' : real_day x -> real_day x' -> number x = number x' -> x = x'.
Proof. intros H H' E. rewrite <- (civil_number x H), <- (civil_number x' H'). by rewrite E. Qed.

(** ** Ranges *)

Lemma before_bounds y m : 1 <= m <= 12 -> 0 <= before y m <= 334 + (if leap y then 1 else 0).
Proof. intros Hm. unfold before. by_month m; destruct (leap y); split; discriminate. Qed.

Lemma day_of_year_bounds x :
  real_day x -> 1 <= before x.1.1 x.1.2 + x.2 <= 365 + (if leap x.1.1 then 1 else 0).
Proof.
  destruct x as [[y m] d]. cbn [fst snd]. intros (Hy & Hm & Hd). pose proof (before_bounds y m Hm).
  split; [lia|]. destruct (decide (m = 12)) as [->|H12].
  - pose proof (before_year y). lia.
  - pose proof (before_succ y m ltac:(lia)). pose proof (before_bounds y (m + 1) ltac:(lia)). lia.
Qed.

Lemma number_max y m d : real_day (y, m, d) -> number (y, m, d) <= MAX_DAY <-> y <= 65535.
Proof.
  intros Hr. pose proof (day_of_year_bounds _ Hr) as Hb. cbn [fst snd] in Hb. destruct Hr as (Hy & Hm & Hd).
  unfold number, MAX_DAY. split; intros H.
  - destruct (decide (65536 <= y)); [|lia]. exfalso.
    assert (23936166 <= year_start y) by (clear - l; unfold year_start; div_lia). lia.
  - pose proof (year_start_succ y) as Hs.
    assert (year_start (y + 1) <= 23936166) by (clear - H; unfold year_start; div_lia). lia.
Qed.

(** The civil day of a number in range fits the fields of a GDate. *)
Lemma civil_bounds n y m d :
  1 <= n <= MAX_DAY -> civil n = (y, m, d) ->
  1 <= y <= 65535 /\ 1 <= m <= 12 /\ 1 <= d <= 31 /\ d <= month_length y m.
Proof.
  intros Hn Hc. destruct (civil_spec n ltac:(lia)) as [Hnum Hr]. rewrite Hc in Hnum, Hr.
  assert (y <= 65535) by (apply (number_max y m d); [done|lia]).
  destruct Hr as (Hy & Hm & Hd). pose proof (month_length_bounds y m). lia.
Qed.

(** * Weekdays and weeks *)

(** Monday is 1; day 1 was one. *)
Definition weekday (n : Z) : Z := (n - 1) mod 7 + 1.

(** How many of the days [a .. a + len - 1] fall on weekday [w]. *)
Definition count_weekday (w a : Z) (len : nat) : Z :=
  Z.of_nat (length (filter (fun n => weekday n = w) (seqZ a (Z.of_nat len)))).

Lemma count_weekday_succ w a len :
  count_weekday w a (S len) =
  count_weekday w a len + (if decide (weekday (a + Z.of_nat len) = w) then 1 else 0).
Proof.
  unfold count_weekday. rewrite Nat2Z.inj_succ, <- Z.add_1_r, seqZ_app by lia.
  rewrite filter_app, length_app, Nat2Z.inj_add. f_equal.
  rewrite (seqZ_cons _ 1) by lia. replace (Z.pred 1) with 0 by lia. rewrite seqZ_nil by lia.
  rewrite filter_cons, filter_nil. by destruct (decide _).
Qed.

Lemma count_weekday_formula w a len :
  1 <= w <= 7 -> count_weekday w a len = (a + Z.of_nat len - 1 - w) / 7 - (a - 1 - w) / 7.
Proof.
  intros Hw. induction len as [|len IH].
  - unfold count_weekday. rewrite seqZ_nil by lia. rewrite filter_nil. cbn [length].
    replace (a + Z.of_nat 0 - 1 - w) with (a - 1 - w) by lia. lia.
  - rewrite count_weekday_succ, IH, Nat2Z.inj_succ. clear IH.
    destruct (decide _) as [H|H]; unfold weekday in H; revert H; generalize (Z.of_nat len); intros; div_lia.
Qed.

(** The number of days [w] of the year of day [n] up to day [n]. *)
Definition weeks_until (w n : Z) : Z :=
  let '(y, m, d) := civil n in count_weekday w (year_start y + 1) (Z.to_nat (n - year_start y)).

(** The number of days [w] in year [y]. *)
Definition weeks_of_year (w y : Z) : Z :=
  count_weekday w (year_start y + 1) (Z.to_nat (365 + (if leap y then 1 else 0))).

(** ISO 8601: the first week of a year is the one with its first Thursday; so
    the week of a day is the count of Thursdays, in the year of the Thursday of
    its week, up to that one. *)
Definition iso_week (n : Z) : Z := weeks_until 4 (n - weekday n + 4).

Lemma weeks_until_formula w n y m d :
  1 <= w <= 7 -> 1 <= n -> civil n = (y, m, d) ->
  weeks_until w n = (n - w) / 7 - (year_start y - w) / 7.
Proof.
  intros Hw Hn Hc. destruct (civil_spec n Hn) as [Hnum Hr]. unfold weeks_until. rewrite Hc in *.
  pose proof (day_of_year_bounds _ Hr) as Hb. cbn [fst snd] in Hb. unfold number in Hnum.
  rewrite count_weekday_formula by done. rewrite Z2Nat.id by lia. f_equal; f_equal; lia.
Qed.

Lemma weeks_of_year_formula w y :
  1 <= w <= 7 ->
  weeks_of_year w y = (year_start y + 365 + (if leap y then 1 else 0) - w) / 7 - (year_start y - w) / 7.
Proof.
  intros Hw. unfold weeks_of_year. rewrite count_weekday_formula by done.
  rewrite Z2Nat.id by (case_match; lia). f_equal; f_equal; lia.
Qed.

(** The position of a year in its cycle of 400. *)
Lemma year_cycle y :
  1 <= y -> exists q c k r,
    y - 1 = 400 * q + 100 * c + 4 * k + r /\ 0 <= q /\ 0 <= c <= 3 /\ 0 <= k <= 24 /\ 0 <= r <= 3 /\
    year_start y = 146097 * q + 36524 * c + 1461 * k + 365 * r /\
    (leap y = true -> r = 3 /\ (k <= 23 \/ c = 3)).
Proof.
  intros Hy. exists ((y - 1) / 400), ((y - 1) mod 400 / 100), ((y - 1) mod 100 / 4), ((y - 1) mod 4).
  unfold year_start. rewrite leap_decomposition. clear -Hy. repeat split; div_lia.
Qed.

(** The formula of g_date_get_iso8601_week_of_year without machine integers. *)
Lemma iso_formula n :
  1 <= n ->
  let j := n + 1721425 in
  let d4 := (j + 31741 - j mod 7) mod 146097 mod 36524 mod 1461 in
  let L := d4 / 1460 in
  ((d4 - L) mod 365 + L) / 7 + 1 = iso_week n.
Proof.
  intros Hn j d4 L. unfold iso_week.
  assert (Ht : exists t, n - weekday n + 4 = t /\ 1 <= t /\ (t - 4) mod 7 = 0 /\ j + 31741 - j mod 7 = t - 1 + 1753164).
  { exists (n - weekday n + 4). unfold weekday. subst j. clear - Hn. repeat split; div_lia. }
  destruct Ht as (t & -> & Ht & Hthu & Hj). destruct (civil t) as [[y m] d] eqn:Hc.
  rewrite (weeks_until_formula 4 t y m d) by (done || lia).
  destruct (civil_spec t Ht) as [Hnum Hr]. rewrite Hc in Hnum, Hr.
  pose proof (day_of_year_bounds _ Hr) as Hb. cbn [fst snd] in Hb. unfold number in Hnum.
  destruct (year_cycle y) as (q & c & k & r & Hy & Hq & Hc' & Hk & Hr' & Hys & Hl); [apply Hr|].
  set (e := before y m + d - 1). assert (He : t - 1 = year_start y + e) by lia.
  assert (He' : 0 <= e <= 365 /\ (e = 365 -> r = 3 /\ (k <= 23 \/ c = 3))).
  { destruct (leap y); subst e; (split; [lia|]); intros; [by apply Hl|lia]. }
  clearbody e. clear Hb Hl Hr Hnum Hc.
  assert (Hd4 : d4 = 365 * r + e).
  { subst d4. rewrite Hj, He, Hys. clear j L Hj. clear - Hq Hc' Hk Hr' He' Hthu He Hys.
    assert (H1 : (146097 * q + 36524 * c + 1461 * k + 365 * r + e + 1753164) mod 146097 =
      36524 * c + 1461 * k + 365 * r + e) by div_lia.
    rewrite H1. clear H1.
    assert (H2 : (36524 * c + 1461 * k + 365 * r + e) mod 36524 = 1461 * k + 365 * r + e) by div_lia.
    rewrite H2. clear - Hk Hr' He'. div_lia. }
  subst L. rewrite Hd4. clear d4 Hd4 j Hj.
  assert (H3 : (365 * r + e - (365 * r + e) / 1460) mod 365 + (365 * r + e) / 1460 = e).
  { clear - Hr' He'. div_lia. }
  rewrite H3. clear - Hthu He He'. div_lia.
Qed.
