(* ===== verification/DateRep.v ===== *)
(** What a GDate stands for, and the rules by which the functions of gdate.c are
    proved to act on that: [rep] relates an object to an abstract date,
    [models] a store to a map of them, and [acts] is the logic of total
    correctness on abstract states. The abstract machine of dates: what every
    function of Date does to a map of abstract dates; it answers [None] where the
    arguments are outside the range a GDate can hold. *)
From S2P Require Import Prelude Store Utf8Char Date DateCalendar.

(** * Abstract dates *)

(** An existing day; fields that do not make one; memory that was never set. *)
Inductive adate :=
  | Day (n : Z)
  | Incomplete (x : ymd)
  | Raw.

#[export] Instance adate_eq_dec : EqDecision adate.
Proof. solve_decision. Defined.

Definition fields (d : GDate) : ymd := (year d, month d, day d).

Record fits (d : GDate) : Prop := {
  fits_julian_days : in_u 32 (julian_days d);
  fits_day : in_u 6 (day d);
  fits_month : in_u 4 (month d);
  fits_year : in_u 16 (year d);
}.

Definition rep (d : GDate) (a : adate) : Prop :=
  fits d /\
  match a with
  | Day n =>
      1 <= n <= MAX_DAY /\ julian d || dmy d = true /\
      (julian d = true -> julian_days d = n) /\ (dmy d = true -> fields d = civil n)
  | Incomplete x => julian d = false /\ dmy d = false /\ fields d = x
  | Raw => True
  end.

(** The numbers of warnings are part of the abstract state. *)
Record astate := mkAstate { adates : gmap loc adate; warnings : nat }.

Definition aput (p : loc) (a : adate) (s : astate) : astate :=
  mkAstate (<[p := a]> (adates s)) (warnings s).
Definition warn (k : nat) (s : astate) : astate := mkAstate (adates s) (k + warnings s).

Record models (h : Dates) (s : astate) : Prop := {
  models_null : dates h !! NULL = None;
  models_dates p : option_relation rep (fun _ => False) (fun _ => False) (dates h !! p) (adates s !! p);
  models_warnings : criticals h = warnings s;
}.

(** * Running commands on a date *)

Create HintDb c_date discriminated.

Definition put (p : loc) (d : GDate) (h : Dates) : Dates :=
  mkDates (<[p := d]> (dates h)) (criticals h).
Definition warned (k : nat) (h : Dates) : Dates := mkDates (dates h) (k + criticals h).

Implicit Types (h : Dates) (p : loc) (d : GDate).

Lemma run_bind {A B} (c : cmd Dates A) (k : A -> cmd Dates B) h a h' :
  c h = Some (a, h') -> mbind k c h = k a h'.
Proof. unfold mbind, cmd_bind. by intros ->. Qed.

Lemma run_rd {A B} (f : GDate -> A) p d h (k : A -> cmd Dates B) :
  dates h !! p = Some d -> mbind k (rd f p) h = k (f d) h.
Proof. intros E. apply run_bind. unfold rd. cbn. by rewrite E. Qed.

Lemma run_wr {B} (g : GDate -> GDate) p d h (k : unit -> cmd Dates B) :
  dates h !! p = Some d -> mbind k (wr g p) h = k tt (put p (g d) h).
Proof. intros E. apply run_bind. unfold wr. cbn. by rewrite E. Qed.

Lemma run_assoc {A B C} (c : cmd Dates A) (k : A -> cmd Dates B) (l : B -> cmd Dates C) h :
  mbind l (mbind k c) h = mbind (fun a => mbind l (k a)) c h.
Proof. unfold mbind, cmd_bind. by destruct (c h) as [[]|]. Qed.
Lemma run_rd_last {A} (f : GDate -> A) p d h : dates h !! p = Some d -> rd f p h = Some (f d, h).
Proof. unfold rd. cbn. by intros ->. Qed.
Lemma run_wr_last (g : GDate -> GDate) p d h : dates h !! p = Some d -> wr g p h = Some (tt, put p (g d) h).
Proof. unfold wr. cbn. by intros ->. Qed.

Lemma put_put p d d' h : put p d (put p d' h) = put p d h.
Proof. unfold put. cbn. by rewrite insert_insert_eq. Qed.
Lemma put_id p d h : dates h !! p = Some d -> put p d h = h.
Proof. intros E. unfold put. rewrite insert_id by done. by destruct h. Qed.
Lemma lookup_put p d h : dates (put p d h) !! p = Some d.
Proof. apply lookup_insert_eq. Qed.
Lemma lookup_put_ne p q d h : p <> q -> dates (put p d h) !! q = dates h !! q.
Proof. apply lookup_insert_ne. Qed.
Lemma lookup_warned k h p : dates (warned k h) !! p = dates h !! p.
Proof. done. Qed.

#[export] Hint Resolve lookup_put : c_date.
#[export] Hint Extern 5 (dates (put _ _ _) !! _ = Some _) =>
  rewrite lookup_put_ne by congruence : c_date.

(** Look up a date in a store that commands have changed. *)
Ltac dlook := solve [eauto with c_date].

(** Run the next reads, writes and returns. *)
Ltac dstep :=
  match goal with
  | |- context [mbind ?k (rd ?f ?p) ?h] => erewrite (run_rd f p _ h k) by dlook
  | |- context [mbind ?k (wr ?g ?p) ?h] => erewrite (run_wr g p _ h k) by dlook
  | |- context [mbind ?k (mret ?a) ?h] => change (mbind k (mret a) h) with (k a h)
  | |- context [rd ?f ?p ?h] => erewrite (run_rd_last f p _ h) by dlook
  | |- context [wr ?g ?p ?h] => erewrite (run_wr_last g p _ h) by dlook
  end; cbv beta; rewrite ?put_put.

Lemma with_julian_days_fits x d : fits d -> fits (with_julian_days x d).
Proof. intros []. split; try done. by apply wrap_in_u. Qed.
Lemma with_julian_fits b d : fits d -> fits (with_julian b d).
Proof. by intros []. Qed.
Lemma with_dmy_fits b d : fits d -> fits (with_dmy b d).
Proof. by intros []. Qed.
Lemma with_day_fits x d : fits d -> fits (with_day x d).
Proof. intros []. split; try done. by apply wrap_in_u. Qed.
Lemma with_month_fits x d : fits d -> fits (with_month x d).
Proof. intros []. split; try done. by apply wrap_in_u. Qed.
Lemma with_year_fits x d : fits d -> fits (with_year x d).
Proof. intros []. split; try done. by apply wrap_in_u. Qed.
Lemma zero_date_fits : fits zero_date.
Proof. by split. Qed.
#[export] Hint Resolve with_julian_days_fits with_julian_fits with_dmy_fits with_day_fits with_month_fits
  with_year_fits zero_date_fits : c_date.

(** [lia] with the widths of the fields. *)
Ltac bits_lia :=
  unfold in_u, MAX_DAY in *;
  change (2 ^ 32) with 4294967296 in *; change (2 ^ 16) with 65536 in *;
  change (2 ^ 8) with 256 in *; change (2 ^ 6) with 64 in *; change (2 ^ 4) with 16 in *; lia.

(** * Validity tests *)

Lemma leap_run y h : 1 <= y -> g_date_is_leap_year y h = Some (leap y, h).
Proof.
  intros Hy. unfold g_date_is_leap_year, g_date_valid_year, G_DATE_BAD_YEAR.
  destruct (Z.gtb_spec y 0); [done|lia].
Qed.

Lemma leap_bind {B} y h (k : bool -> cmd Dates B) :
  1 <= y -> mbind k (g_date_is_leap_year y) h = k (leap y) h.
Proof. intros Hy. by apply run_bind, leap_run. Qed.

Lemma months_table y m : 1 <= m <= 12 -> array_get (days_in_months (leap y)) m = Some (month_length y m).
Proof. intros Hm. by_month m; unfold month_length; by destruct (leap y). Qed.

Lemma year_table y m : 1 <= m <= 12 -> array_get (days_in_year (leap y)) m = Some (before y m).
Proof. intros Hm. unfold before. by_month m; by destruct (leap y). Qed.

Lemma table_run {B} t i v h (k : Z -> cmd Dates B) :
  array_get t i = Some v -> mbind k (table t i) h = k v h.
Proof. intros E. unfold table. by rewrite E. Qed.

Lemma table_run_last t i v h : array_get t i = Some v -> table t i h = Some (v, h).
Proof. intros E. unfold table. by rewrite E. Qed.

(** g_date_valid_dmy decides whether a day exists, without a warning. *)
Lemma valid_dmy_run dd m y h :
  g_date_valid_dmy dd m y h = Some (bool_decide (real_day (y, m, dd)), h).
Proof.
  unfold g_date_valid_dmy, G_DATE_BAD_MONTH, G_DATE_BAD_DAY, G_DATE_BAD_YEAR.
  destruct (_ && _) eqn:E.
  - rewrite !andb_true_iff, !Z.gtb_lt, Z.ltb_lt in E. destruct E as [[[? ?] ?] ?].
    rewrite leap_bind by lia. erewrite table_run by (apply months_table; lia).
    unfold mret, cmd_ret. do 2 f_equal. unfold real_day.
    destruct (Z.leb_spec dd (month_length y m)); symmetry.
    + apply bool_decide_eq_true. lia.
    + apply bool_decide_eq_false. lia.
  - unfold mret, cmd_ret. do 2 f_equal. symmetry. apply bool_decide_eq_false. intros (? & ? & ?).
    rewrite !andb_false_iff in E. destruct E as [[[E|E]|E]|E]; lia.
Qed.

Lemma not_null_true p : p <> NULL -> not_null p = true.
Proof. unfold not_null. rewrite negb_true_iff, Z.eqb_neq. done. Qed.

Lemma valid_run p d h :
  p <> NULL -> dates h !! p = Some d -> g_date_valid p h = Some (julian d || dmy d, h).
Proof.
  intros Hp Hd. unfold g_date_valid. rewrite not_null_true by done. dstep.
  destruct (julian d); [done|]. by dstep.
Qed.

(** * Filling in the other representation *)

Definition fill_julian (d : GDate) : GDate :=
  if julian d then d else mkGDate (number (fields d)) true (dmy d) (day d) (month d) (year d).

Definition fill_dmy (d : GDate) : GDate :=
  if dmy d then d
  else let '(y, m, dd) := civil (julian_days d) in mkGDate (julian_days d) (julian d) true dd m y.

Lemma fields_bounds d :
  fits d -> real_day (fields d) -> 1 <= year d <= 65535 /\ 1 <= month d <= 12 /\ 1 <= day d <= 31.
Proof.
  intros [] (Hy & Hm & Hd). cbn in *. unfold in_u in *. pose proof (month_length_bounds (year d) (month d)). lia.
Qed.

Lemma wrap_add_l w x y : 0 <= w -> wrap w (wrap w x + y) = wrap w (x + y).
Proof. intros. unfold wrap. by rewrite Zplus_mod_idemp_l. Qed.

Lemma wrap_sum5 w (a b c d e : Z) :
  0 <= w -> wrap w (wrap w (wrap w (wrap w (wrap w a + b) + c) + d) + e) = wrap w (a + b + c + d + e).
Proof.
  intros Hw. rewrite (wrap_add_l w a), (wrap_add_l w (a + b)), (wrap_add_l w (a + b + c)),
    (wrap_add_l w (a + b + c + d)) by done. done.
Qed.

Lemma with_julian_days_twice x y d : with_julian_days x (with_julian_days y d) = with_julian_days x d.
Proof. done. Qed.

Lemma number_fits d : fits d -> real_day (fields d) -> 1 <= number (fields d) <= MAX_DAY.
Proof.
  intros Hf Hr. pose proof (fields_bounds d Hf Hr). split; [by apply number_pos|].
  apply number_max; [done|]. lia.
Qed.

Lemma year_parts y :
  1 <= y <= 65535 ->
  u16 (y - 1) * 365 + u16 (u16 (y - 1) .>> 2)%C + - u16 (u16 (u16 (y - 1) .>> 2)%C / 25) +
    (u16 (u16 (u16 (y - 1) .>> 2)%C / 25) .>> 2)%C = year_start y.
Proof.
  intros Hy. rewrite !Z.shiftr_div_pow2 by lia. change (2 ^ 2) with 4.
  assert (Hs : forall x, 0 <= x <= 65535 -> u16 x = x).
  { intros x Hx. apply wrap_id. unfold in_u. change (2 ^ 16) with 65536. lia. }
  rewrite (Hs (y - 1)) by lia. rewrite (Hs ((y - 1) / 4)) by div_lia.
  rewrite (Hs ((y - 1) / 4 / 25)) by div_lia. unfold year_start. div_lia.
Qed.

Lemma update_julian_run p d h :
  p <> NULL -> dates h !! p = Some d -> fits d ->
  dmy d = true -> julian d = false -> real_day (fields d) ->
  g_date_update_julian p h = Some (tt, put p (fill_julian d) h).
Proof.
  intros Hp Hd Hf Hdm Hj Hr. destruct (fields_bounds d Hf Hr) as (Hy & Hm & Hdd).
  unfold g_date_update_julian. rewrite not_null_true by done. repeat dstep.
  rewrite Hdm. dstep. rewrite Hj. cbn [negb]. do 3 dstep.
  rewrite (run_bind _ _ _ _ _ (valid_dmy_run _ _ _ _)). rewrite bool_decide_true by done. cbv zeta.
  unfold add_julian_days. repeat (rewrite ?run_assoc; dstep).
  rewrite leap_bind by lia. rewrite (table_run _ _ _ _ _ (year_table _ _ Hm)).
  rewrite run_assoc. repeat dstep. rewrite !with_julian_days_twice.
  cbn [julian_days with_julian_days]. unfold with_julian_days.
  rewrite wrap_sum5, year_parts by (done || lia).
  assert (Hn : u32 (year_start (year d) + (before (year d) (month d) + day d)) = number (fields d)).
  { pose proof (number_fits d Hf Hr) as Hn.
    assert (Hnum : number (fields d) = year_start (year d) + before (year d) (month d) + day d) by done.
    rewrite Hnum in *. unfold MAX_DAY in Hn. rewrite wrap_id; [lia|]. unfold in_u.
    change (2 ^ 32) with 4294967296. lia. }
  rewrite Hn. assert (g_date_valid_julian (number (fields d)) = true) as ->.
  { unfold g_date_valid_julian. apply Z.gtb_lt. pose proof (number_fits d Hf Hr). unfold G_DATE_BAD_JULIAN. lia. }
  repeat dstep. unfold fill_julian, with_julian_days, with_julian. rewrite Hj. done.
Qed.

(** The machine integers of g_date_update_dmy do not wrap. *)
Definition machine_split (jd : Z) : ymd :=
  let A := u32 (jd + 1721425 + 32045) in
  let B := u32 (u32 (4 * (A + 36524)) / 146097 - 1) in
  let C := u32 (A - u32 (146097 * B) / 4) in
  let D := u32 (u32 (4 * (C + 365)) / 1461 - 1) in
  let E := u32 (C - u32 (1461 * D) / 4) in
  let M := u32 (5 * (E - 1) + 2) / 153 in
  (u16 (u32 (100 * B + D - 4800 + M / 10)), u32 (M + 3 - 12 * (M / 10)), u8 (u32 (E - u32 (153 * M + 2) / 5))).

Lemma machine_split_civil n : 1 <= n <= MAX_DAY -> machine_split n = civil n.
Proof.
  intros Hn. rewrite <- split_number_civil by lia.
  destruct (split_number n) as [[y m] d] eqn:Hs. rewrite split_number_civil in Hs by lia.
  pose proof (civil_bounds n y m d Hn Hs) as Hb. rewrite <- split_number_civil in Hs by lia.
  revert Hs. unfold split_number, machine_split. unfold MAX_DAY in Hn.
  assert (Hs : forall x, 0 <= x < 4294967296 -> u32 x = x) by (intros; by apply wrap_id).
  set (A := n + 1721425 + 32045). assert (HA : 1753471 <= A <= 25700000) by lia.
  rewrite (Hs A) by lia. rewrite (Hs (4 * (A + 36524))) by lia.
  set (B0 := 4 * (A + 36524) / 146097 - 1). assert (HB : 47 <= B0 <= 704) by (subst B0; clear - HA; div_lia).
  assert (HB' : 146097 * B0 / 4 <= A) by (subst B0; clear - HA; div_lia).
  rewrite (Hs B0) by lia. rewrite (Hs (146097 * B0)) by lia.
  set (C0 := A - 146097 * B0 / 4). assert (HC : 1 <= C0 <= 36525) by (subst C0 B0; clear - HA; div_lia).
  rewrite (Hs C0) by lia. rewrite (Hs (4 * (C0 + 365))) by lia.
  set (D0 := 4 * (C0 + 365) / 1461 - 1).
  assert (HD : 0 <= D0 <= 100 /\ 1461 * D0 / 4 <= C0) by (clearbody C0; subst D0; clear - HC; div_lia).
  rewrite (Hs D0) by lia. rewrite (Hs (1461 * D0)) by lia.
  assert (HE : 1 <= C0 - 1461 * D0 / 4 <= 366).
  { subst D0. clear - HC. div_lia. }
  set (E0 := C0 - 1461 * D0 / 4) in *. rewrite (Hs E0) by lia. clearbody E0 D0 B0.
  rewrite (Hs (5 * (E0 - 1) + 2)) by lia. set (M0 := (5 * (E0 - 1) + 2) / 153).
  assert (HM : 0 <= M0 <= 11 /\ 0 <= E0 - (153 * M0 + 2) / 5 <= 31) by (subst M0; clear - HE; div_lia).
  clearbody M0.
  assert (HM10 : 0 <= M0 / 10 <= 1 /\ 0 <= M0 + 3 - 12 * (M0 / 10)) by (clear - HM; div_lia).
  rewrite (Hs (153 * M0 + 2)), (Hs (M0 + 3 - _)), (Hs (E0 - _)) by lia.
  intros [= Hy Hm Hd]. rewrite (Hs (100 * B0 + D0 - 4800 + M0 / 10)) by lia. rewrite Hy, Hm, Hd.
  f_equal; [f_equal|]; apply wrap_id; unfold in_u; [change (2 ^ 16) with 65536|change (2 ^ 8) with 256]; lia.
Qed.

Lemma update_dmy_run p d h :
  p <> NULL -> dates h !! p = Some d -> dmy d = false -> julian d = true -> 1 <= julian_days d <= MAX_DAY ->
  g_date_update_dmy p h = Some (tt, put p (fill_dmy d) h).
Proof.
  intros Hp Hd Hdm Hj Hn. unfold g_date_update_dmy. rewrite not_null_true by done. dstep.
  rewrite Hj. dstep. rewrite Hdm. cbn [negb]. dstep.
  assert (g_date_valid_julian (julian_days d) = true) as ->.
  { unfold g_date_valid_julian, G_DATE_BAD_JULIAN. apply Z.gtb_lt. lia. }
  pose proof (machine_split_civil _ Hn) as Hs. unfold machine_split in Hs. cbv zeta in Hs |- *.
  unfold fill_dmy. rewrite Hdm. destruct (civil (julian_days d)) as [[y m] dd] eqn:Hc.
  pose proof (civil_bounds _ _ _ _ Hn Hc) as Hb. injection Hs as -> -> ->. repeat dstep.
  unfold with_dmy, with_year, with_day, with_month. cbn.
  rewrite !wrap_id by bits_lia. done.
Qed.

(** Both representations stand for the same day. *)
Lemma fill_julian_rep n d : rep d (Day n) -> rep (fill_julian d) (Day n) /\ julian (fill_julian d) = true /\
  julian_days (fill_julian d) = n /\ dmy (fill_julian d) = dmy d.
Proof.
  intros H. pose proof H as (Hf & Hn & Hv & Hj & Hd). unfold fill_julian.
  destruct (julian d) eqn:Ej; [by auto|].
  cbn in Hv. specialize (Hd Hv). destruct (civil_spec n ltac:(lia)) as [Hnum Hr].
  rewrite Hd, Hnum. repeat split; cbn -[Z.pow]; try done; try apply Hf; try bits_lia.
Qed.

Lemma fill_dmy_rep n d : rep d (Day n) -> rep (fill_dmy d) (Day n) /\ dmy (fill_dmy d) = true /\
  fields (fill_dmy d) = civil n /\ julian (fill_dmy d) = julian d.
Proof.
  intros H. pose proof H as (Hf & Hn & Hv & Hj & Hd). unfold fill_dmy. destruct (dmy d) eqn:Ed; [by auto|].
  rewrite orb_false_r in Hv. rewrite (Hj Hv). destruct (civil n) as [[y m] dd] eqn:Hc.
  pose proof (civil_bounds _ _ _ _ Hn Hc) as Hb.
  repeat split; cbn -[Z.pow]; try done; bits_lia.
Qed.

Lemma need_julian_run n p d h :
  p <> NULL -> dates h !! p = Some d -> rep d (Day n) ->
  need_julian p h = Some (tt, put p (fill_julian d) h).
Proof.
  intros Hp Hd (Hf & Hn & Hv & _ & Hdm). unfold need_julian. dstep. destruct (julian d) eqn:Ej.
  - unfold fill_julian. rewrite Ej, put_id by done. done.
  - cbn in Hv. specialize (Hdm Hv). apply update_julian_run; try done.
    rewrite Hdm. apply civil_spec. lia.
Qed.

Lemma need_dmy_run n p d h :
  p <> NULL -> dates h !! p = Some d -> rep d (Day n) ->
  need_dmy p h = Some (tt, put p (fill_dmy d) h).
Proof.
  intros Hp Hd (Hf & Hn & Hv & Hj & _). unfold need_dmy. dstep. destruct (dmy d) eqn:Ed.
  - unfold fill_dmy. rewrite Ed, put_id by done. done.
  - rewrite orb_false_r in Hv. specialize (Hj Hv). apply update_dmy_run; try done. lia.
Qed.

(** * How every function starts *)

Section start.
Context {B : Type} (bad : B) (k : cmd Dates B).

(** g_return_val_if_fail (g_date_valid (d), bad) *)
Definition guard_valid (p : loc) : cmd Dates B :=
  v ← g_date_valid p; return_unless v giving bad;; k.

Lemma guard_valid_null h : guard_valid NULL h = Some (bad, warned 2 h).
Proof. done. Qed.

Lemma guard_valid_incomplete p d x h :
  p <> NULL -> dates h !! p = Some d -> rep d (Incomplete x) -> guard_valid p h = Some (bad, warned 1 h).
Proof.
  intros Hp Hd (_ & Hj & Hm & _). unfold guard_valid. rewrite (run_bind _ _ _ _ _ (valid_run p d h Hp Hd)).
  by rewrite Hj, Hm.
Qed.

Lemma guard_valid_day p d n h :
  p <> NULL -> dates h !! p = Some d -> rep d (Day n) -> guard_valid p h = k h.
Proof.
  intros Hp Hd (_ & _ & Hv & _). unfold guard_valid. rewrite (run_bind _ _ _ _ _ (valid_run p d h Hp Hd)).
  by rewrite Hv.
Qed.

(** ... followed by the representation the function needs. *)
Lemma guard_dmy_day p d n h :
  p <> NULL -> dates h !! p = Some d -> rep d (Day n) ->
  (_ ← need_dmy p; dm ← rd dmy p; return_unless dm giving bad;; k) h = k (put p (fill_dmy d) h).
Proof.
  intros Hp Hd Hr. rewrite (run_bind _ _ _ _ _ (need_dmy_run n p d h Hp Hd Hr)).
  dstep. by destruct (fill_dmy_rep n d Hr) as (_ & -> & _).
Qed.

Lemma guard_julian_day p d n h :
  p <> NULL -> dates h !! p = Some d -> rep d (Day n) ->
  (_ ← need_julian p; j ← rd julian p; return_unless j giving bad;; k) h = k (put p (fill_julian d) h).
Proof.
  intros Hp Hd Hr. rewrite (run_bind _ _ _ _ _ (need_julian_run n p d h Hp Hd Hr)).
  dstep. by destruct (fill_julian_rep n d Hr) as (_ & -> & _).
Qed.
End start.

(** * The logic of abstract states *)

(** [c], run in any store that [s] describes, ends with a result and a store
    described by some state such that [Q] holds of both. *)
Definition acts {A} (s : astate) (c : cmd Dates A) (Q : A -> astate -> Prop) : Prop :=
  forall h, models h s -> exists v h' s', c h = Some (v, h') /\ models h' s' /\ Q v s'.

Lemma acts_ret {A} s (v : A) Q : Q v s -> acts s (mret v) Q.
Proof. intros HQ h Hh. by exists v, h, s. Qed.

Lemma acts_bind {A B} s (c : cmd Dates A) (k : A -> cmd Dates B) Q :
  acts s c (fun v s' => acts s' (k v) Q) -> acts s (mbind k c) Q.
Proof.
  intros Hc h Hh. destruct (Hc h Hh) as (v & h' & s' & E & Hh' & Hk).
  rewrite (run_bind _ _ _ _ _ E). by apply Hk.
Qed.

Lemma acts_mono {A} s (c : cmd Dates A) (Q Q' : A -> astate -> Prop) :
  acts s c Q -> (forall v s', Q v s' -> Q' v s') -> acts s c Q'.
Proof. intros Hc HQ h Hh. destruct (Hc h Hh) as (v & h' & s' & E & Hh' & HQv). eauto 7. Qed.

(** The result and the state afterwards are known. *)
Definition gives {A} (s : astate) (c : cmd Dates A) (v : A) (s' : astate) : Prop :=
  acts s c (fun v' s'' => v' = v /\ s'' = s').

Lemma gives_bind {A B} s (c : cmd Dates A) (k : A -> cmd Dates B) v s' Q :
  gives s c v s' -> acts s' (k v) Q -> acts s (mbind k c) Q.
Proof. intros Hc Hk. apply acts_bind. eapply acts_mono; [exact Hc|]. by intros ? ? [-> ->]. Qed.

Lemma gives_ret {A} s (v : A) : gives s (mret v) v s.
Proof. by apply acts_ret. Qed.

Lemma models_put h s p d a :
  models h s -> p <> NULL -> rep d a -> models (put p d h) (aput p a s).
Proof.
  intros [H0 Hd Hw] Hp Hr. split; [by rewrite lookup_put_ne| |done]. intros q. cbn.
  destruct (decide (p = q)) as [->|Hq]; [rewrite !lookup_insert_eq; done|].
  rewrite !lookup_insert_ne by done. apply Hd.
Qed.

Lemma models_warned k h s : models h s -> models (warned k h) (warn k s).
Proof. intros [? ? ?]. split; [done..|]. cbn. congruence. Qed.

Lemma models_lookup h s p a :
  models h s -> adates s !! p = Some a -> p <> NULL /\ exists d, dates h !! p = Some d /\ rep d a.
Proof.
  intros [H0 Hd Hw] Ha. specialize (Hd p). rewrite Ha in Hd.
  destruct (dates h !! p) as [d|] eqn:E; [|done]. split; [congruence|]. by exists d.
Qed.

Lemma aput_id p a s : adates s !! p = Some a -> aput p a s = s.
Proof. intros E. unfold aput. rewrite insert_id by done. by destruct s. Qed.
Lemma aput_aput p a a' s : aput p a (aput p a' s) = aput p a s.
Proof. unfold aput. cbn. by rewrite insert_insert_eq. Qed.
Lemma lookup_aput p a s : adates (aput p a s) !! p = Some a.
Proof. apply lookup_insert_eq. Qed.
Lemma lookup_aput_ne p q a s : p <> q -> adates (aput p a s) !! q = adates s !! q.
Proof. apply lookup_insert_ne. Qed.
Lemma warn_aput k p a s : warn k (aput p a s) = aput p a (warn k s).
Proof. done. Qed.

Lemma gives_critical {A} s (v : A) : gives s (_ ← critical; mret v) v (warn 1 s).
Proof. intros h Hh. exists v, (warned 1 h), (warn 1 s). split; [done|]. split; [by apply models_warned|done]. Qed.

(** A command that works on the object at [p] only. *)
Lemma gives_object {A} s p a (c : cmd Dates A) v a' :
  adates s !! p = Some a ->
  (forall h d, p <> NULL -> dates h !! p = Some d -> rep d a ->
     exists d', c h = Some (v, put p d' h) /\ rep d' a') ->
  gives s c v (aput p a' s).
Proof.
  intros Ha Hc h Hh. destruct (models_lookup h s p a Hh Ha) as (Hp & d & Hd & Hr).
  destruct (Hc h d Hp Hd Hr) as (d' & E & Hr'). exists v, (put p d' h), (aput p a' s).
  split; [done|]. split; [by apply models_put|done].
Qed.

(** ... and leaves it the day it is. *)
Lemma gives_reading {A} s p a (c : cmd Dates A) v :
  adates s !! p = Some a ->
  (forall h d, p <> NULL -> dates h !! p = Some d -> rep d a ->
     exists d', c h = Some (v, put p d' h) /\ rep d' a) ->
  gives s c v s.
Proof. intros Ha Hc. rewrite <- (aput_id p a s Ha) at 2. by apply gives_object with a. Qed.

Lemma gives_guard_null {B} s (bad : B) k : gives s (guard_valid bad k NULL) bad (warn 2 s).
Proof. intros h Hh. rewrite guard_valid_null. eexists _, _, _. split; [done|]. split; [by apply models_warned|done]. Qed.

Lemma gives_guard_incomplete {B} s p x (bad : B) k :
  adates s !! p = Some (Incomplete x) -> gives s (guard_valid bad k p) bad (warn 1 s).
Proof.
  intros Ha h Hh. destruct (models_lookup h s p _ Hh Ha) as (Hp & d & Hd & Hr).
  rewrite (guard_valid_incomplete _ _ p d x) by done.
  eexists _, _, _. split; [done|]. split; [by apply models_warned|done].
Qed.

Lemma acts_guard_day {B} s p n (bad : B) k Q :
  adates s !! p = Some (Day n) -> acts s k Q -> acts s (guard_valid bad k p) Q.
Proof.
  intros Ha Hk h Hh. destruct (models_lookup h s p _ Hh Ha) as (Hp & d & Hd & Hr).
  rewrite (guard_valid_day _ _ p d n) by done. by apply Hk.
Qed.

(** * Tests on the arguments *)

(** The outcome on a day, after the guard that all functions on a valid date
    start with: two warnings for NULL (g_date_valid has one of its own), one for
    a date that is not valid. *)
Definition on_day {A} (p : loc) (bad : A) (s : astate) (f : Z -> option (A * astate)) : option (A * astate) :=
  if decide (p = NULL) then Some (bad, warn 2 s)
  else match adates s !! p with
       | Some (Day n) => f n
       | Some (Incomplete _) => Some (bad, warn 1 s)
       | _ => None
       end.

Definition not_nil {A} (p : loc) (bad : A) (s : astate) (k : option (A * astate)) : option (A * astate) :=
  if decide (p = NULL) then Some (bad, warn 1 s) else k.

Definition fails_if {A} (c : bool) (bad : A) (s : astate) (k : option (A * astate)) : option (A * astate) :=
  if c then Some (bad, warn 1 s) else k.

(** * Reading *)

Definition reads {A} (p : loc) (bad : A) (f : Z -> A) (s : astate) : option (A * astate) :=
  on_day p bad s (fun n => Some (f n, s)).

Definition year_of (n : Z) : Z := (civil n).1.1.
Definition month_of (n : Z) : Z := (civil n).1.2.
Definition day_of (n : Z) : Z := (civil n).2.
Definition day_of_year (n : Z) : Z := n - year_start (year_of n).
Definition last_of_month (n : Z) : Z := month_length (year_of n) (month_of n).

(** struct tm counts months from 0, years from 1900 and weekdays from Sunday. *)
Definition broken_down (n : Z) : tm :=
  mkTm (day_of n) (month_of n - 1) (year_of n - 1900) (weekday n mod 7) (day_of_year n - 1) (-1).

(** * Setting *)

Definition becomes (p : loc) (a : adate) (s : astate) : option (unit * astate) :=
  match adates s !! p with Some _ => Some (tt, aput p a s) | None => None end.

Definition spec_set_dmy (p : loc) (d m y : Z) (s : astate) : option (unit * astate) :=
  not_nil p tt s
    (if decide (real_day (y, m, d))
     then if decide (in_u 16 y) then becomes p (Day (number (y, m, d))) s else None
     else Some (tt, warn 1 s)).

Definition spec_set_julian (p : loc) (j : Z) (s : astate) : option (unit * astate) :=
  not_nil p tt s
    (if decide (j = 0) then Some (tt, warn 1 s)
     else if decide (1 <= j <= MAX_DAY) then becomes p (Day j) s else None).

(** The date with fields [x]. *)
Definition from_fields (x : ymd) : adate := if decide (real_day x) then Day (number x) else Incomplete x.

Definition spec_set_field (p : loc) (f : ymd -> ymd) (s : astate) : option (unit * astate) :=
  match adates s !! p with
  | Some (Day n) => Some (tt, aput p (from_fields (f (civil n))) s)
  | Some (Incomplete x) => Some (tt, aput p (from_fields (f x)) s)
  | _ => None
  end.

Definition spec_set_month (p : loc) (m : Z) (s : astate) : option (unit * astate) :=
  not_nil p tt s
    (if decide (1 <= m <= 12) then spec_set_field p (fun '(y, _, d) => (y, m, d)) s
     else Some (tt, warn 1 s)).
Definition spec_set_day (p : loc) (d : Z) (s : astate) : option (unit * astate) :=
  not_nil p tt s
    (if decide (1 <= d <= 31) then spec_set_field p (fun '(y, m, _) => (y, m, d)) s
     else Some (tt, warn 1 s)).
Definition spec_set_year (p : loc) (y : Z) (s : astate) : option (unit * astate) :=
  if decide (in_u 16 y) then
  not_nil p tt s
    (if decide (1 <= y) then spec_set_field p (fun '(_, m, d) => (y, m, d)) s
     else Some (tt, warn 1 s))
  else None.

(** [ndates] dates from [p] on. *)
Fixpoint clear_all (p : loc) (ndates : nat) (s : astate) : option (unit * astate) :=
  match ndates with
  | O => Some (tt, s)
  | S n => match adates s !! p with
           | Some _ => clear_all (p + 1) n (aput p (Incomplete (0, 0, 0)) s)
           | None => None
           end
  end.

Definition spec_clear (p : loc) (ndates : nat) (s : astate) : option (unit * astate) :=
  not_nil p tt s (fails_if (Nat.eqb ndates 0) tt s (clear_all p ndates s)).

(** The local day of a time, if it is one and its year fits. *)
Definition spec_set_time (p : loc) (t : tm) (s : astate) : option (unit * astate) :=
  not_nil p tt s
    (let x := (tm_year t + 1900, tm_mon t + 1, tm_mday t) in
     if decide (real_day x /\ tm_year t + 1900 <= 65535) then becomes p (Day (number x)) s else None).

(** * Arithmetic *)

(** The day [d] of month [m], or the last day of that month. *)
Definition limited (y m d : Z) : Z := number (y, m, d `min` month_length y m).

(** [k] months after day [n], or before it for a negative [k]. *)
Definition shift_months (k n : Z) : Z :=
  let '(y, m, d) := civil n in
  let total := 12 * y + (m - 1) + k in
  limited (total / 12) (total mod 12 + 1) d.

Definition shift_years (k n : Z) : Z :=
  let '(y, m, d) := civil n in limited (y + k) m d.

(** The year of the month [k] after that of [n]. *)
Definition shifted_year (k n : Z) : Z := (12 * year_of n + (month_of n - 1) + k) / 12.

Definition spec_add_days (p : loc) (k : Z) (s : astate) : option (unit * astate) :=
  on_day p tt s (fun n =>
    if decide (0 <= k /\ n + k <= MAX_DAY) then Some (tt, aput p (Day (n + k)) s) else None).
Definition spec_subtract_days (p : loc) (k : Z) (s : astate) : option (unit * astate) :=
  on_day p tt s (fun n =>
    if decide (0 <= k) then
      if decide (k < n) then Some (tt, aput p (Day (n - k)) s) else Some (tt, warn 1 s)
    else None).
Definition spec_add_months (p : loc) (k : Z) (s : astate) : option (unit * astate) :=
  on_day p tt s (fun n =>
    if decide (0 <= k /\ shifted_year k n <= 65535) then Some (tt, aput p (Day (shift_months k n)) s) else None).
Definition spec_subtract_months (p : loc) (k : Z) (s : astate) : option (unit * astate) :=
  on_day p tt s (fun n =>
    if decide (0 <= k) then
      if decide (year_of n <= k / 12) then Some (tt, warn 1 s)
      else if decide (1 <= shifted_year (- k) n) then Some (tt, aput p (Day (shift_months (- k) n)) s)
      else None
    else None).
Definition spec_add_years (p : loc) (k : Z) (s : astate) : option (unit * astate) :=
  on_day p tt s (fun n =>
    if decide (0 <= k /\ year_of n + k <= 65535) then Some (tt, aput p (Day (shift_years k n)) s) else None).
Definition spec_subtract_years (p : loc) (k : Z) (s : astate) : option (unit * astate) :=
  on_day p tt s (fun n =>
    if decide (0 <= k) then
      if decide (k < year_of n) then Some (tt, aput p (Day (shift_years (- k) n)) s) else Some (tt, warn 1 s)
    else None).

(** * Two dates *)

Definition sign (a b : Z) : Z := if a <? b then -1 else if b <? a then 1 else 0.

Definition spec_compare (p q : loc) (s : astate) : option (Z * astate) :=
  not_nil p 0 s (not_nil q 0 s (on_day p 0 s (fun n => on_day q 0 s (fun m => Some (sign n m, s))))).

Definition spec_days_between (p q : loc) (s : astate) : option (Z * astate) :=
  on_day p 0 s (fun n => on_day q 0 s (fun m => Some (m - n, s))).

(** The smaller date comes first. *)
Definition spec_order (p q : loc) (s : astate) : option (unit * astate) :=
  on_day p tt s (fun n => on_day q tt s (fun m =>
    Some (tt, if decide (m < n) then aput q (Day n) (aput p (Day m) s) else s))).

(** An optional bound: NULL is none. *)
Definition on_bound (q : loc) (s : astate) (f : option Z -> option (unit * astate)) : option (unit * astate) :=
  if decide (q = NULL) then f None else on_day q tt s (fun m => f (Some m)).

Definition crossed (l u : option Z) : bool :=
  match l, u with Some l, Some u => u <? l | _, _ => false end.
Definition raise_to (n : Z) (l : option Z) : Z := match l with Some l => Z.max n l | None => n end.
Definition lower_to (n : Z) (u : option Z) : Z := match u with Some u => Z.min n u | None => n end.

Definition spec_clamp (p lo hi : loc) (s : astate) : option (unit * astate) :=
  on_day p tt s (fun n => on_bound lo s (fun l => on_bound hi s (fun u =>
    fails_if (crossed l u) tt s (Some (tt, aput p (Day (lower_to (raise_to n l) u)) s))))).
