(* ===== verification/DateOps.v ===== *)
(** Each function of Date acts as the machine of DateRep says. *)
From S2P Require Import Prelude Store Utf8Char Date DateCalendar DateRep.

(** * Guards *)

Lemma gives_on_day {A} s p (bad : A) k f v s' :
  on_day p bad s f = Some (v, s') ->
  (forall n, adates s !! p = Some (Day n) -> f n = Some (v, s') -> gives s k v s') ->
  gives s (guard_valid bad k p) v s'.
Proof.
  unfold on_day. intros E Hk. destruct (decide (p = NULL)) as [->|Hp].
  - injection E as <- <-. apply gives_guard_null.
  - destruct (adates s !! p) as [[n|x|]|] eqn:Ha; [|injection E as <- <-|done..].
    + apply acts_guard_day with n; [done|]. by apply (Hk n).
    + by apply gives_guard_incomplete with x.
Qed.

Lemma gives_not_nil {A} s p (bad : A) k (c : cmd Dates A) v s' :
  not_nil p bad s k = Some (v, s') ->
  (p <> NULL -> k = Some (v, s') -> gives s c v s') ->
  gives s (return_unless not_null p giving bad;; c) v s'.
Proof.
  unfold not_nil. intros E Hk. destruct (decide (p = NULL)) as [->|Hp].
  - injection E as <- <-. apply gives_critical.
  - rewrite not_null_true by done. by apply Hk.
Qed.

Lemma civil_fields n d : fields d = civil n -> year d = year_of n /\ month d = month_of n /\ day d = day_of n.
Proof. intros E. unfold year_of, month_of, day_of. by rewrite <- E. Qed.

Lemma civil_parts n : civil n = (year_of n, month_of n, day_of n).
Proof. unfold year_of, month_of, day_of. by destruct (civil n) as [[]]. Qed.

Lemma day_range n : 1 <= n <= MAX_DAY ->
  1 <= year_of n <= 65535 /\ 1 <= month_of n <= 12 /\ 1 <= day_of n <= 31 /\ day_of n <= last_of_month n.
Proof. intros Hn. apply (civil_bounds n); [done|]. apply civil_parts. Qed.

Lemma day_of_year_sum n : 1 <= n -> day_of_year n = before (year_of n) (month_of n) + day_of n.
Proof.
  intros Hn. destruct (civil_spec n Hn) as [Hnum _]. unfold day_of_year. rewrite civil_parts in Hnum.
  unfold number in Hnum. lia.
Qed.

Lemma day_of_year_range n : 1 <= n -> 1 <= day_of_year n <= 365 + (if leap (year_of n) then 1 else 0).
Proof.
  intros Hn. destruct (civil_spec n Hn) as [_ Hr]. rewrite day_of_year_sum by done.
  pose proof (day_of_year_bounds _ Hr) as Hb. by rewrite civil_parts in Hb.
Qed.

(** A reading of day, month and year, or of the day number. *)
Lemma reads_dmy {A} s p n (bad : A) (k : cmd Dates A) v :
  adates s !! p = Some (Day n) ->
  (forall h d, p <> NULL -> dates h !! p = Some d -> rep d (Day n) -> dmy d = true ->
     year d = year_of n -> month d = month_of n -> day d = day_of n -> 1 <= n <= MAX_DAY ->
     exists d', k h = Some (v, put p d' h) /\ rep d' (Day n)) ->
  gives s (_ ← need_dmy p; dm ← rd dmy p; return_unless dm giving bad;; k) v s.
Proof.
  intros Ha Hk. apply gives_reading with p (Day n); [done|]. intros h d Hp Hd Hr.
  rewrite (guard_dmy_day bad k p d n) by done. destruct (fill_dmy_rep n d Hr) as (Hr' & Hm & Hf & _).
  destruct (civil_fields _ _ Hf) as (? & ? & ?).
  destruct (Hk (put p (fill_dmy d) h) (fill_dmy d)) as (d' & -> & ?);
    [done|apply lookup_put|done..|apply Hr|]. rewrite put_put. eauto.
Qed.

Lemma reads_julian {A} s p n (bad : A) (k : cmd Dates A) v :
  adates s !! p = Some (Day n) ->
  (forall h d, p <> NULL -> dates h !! p = Some d -> rep d (Day n) -> julian d = true ->
     julian_days d = n -> 1 <= n <= MAX_DAY -> exists d', k h = Some (v, put p d' h) /\ rep d' (Day n)) ->
  gives s (_ ← need_julian p; j ← rd julian p; return_unless j giving bad;; k) v s.
Proof.
  intros Ha Hk. apply gives_reading with p (Day n); [done|]. intros h d Hp Hd Hr.
  rewrite (guard_julian_day bad k p d n) by done. destruct (fill_julian_rep n d Hr) as (Hr' & Hm & Hf & _).
  destruct (Hk (put p (fill_julian d) h) (fill_julian d)) as (d' & -> & ?);
    [done|apply lookup_put|done..|apply Hr|]. rewrite put_put. eauto.
Qed.

Lemma same_object {A} p d n h (v : A) r :
  dates h !! p = Some d -> rep d (Day n) -> r = Some (v, h) ->
  exists d', r = Some (v, put p d' h) /\ rep d' (Day n).
Proof. intros Hd Hr ->. exists d. by rewrite put_id. Qed.

(** Prove a function that reads one date: unfold, apply the guard and evaluate. *)
Ltac read_with rule :=
  eapply gives_on_day; [eassumption|]; intros n Ha [= <- <-];
  apply rule with n; [done|]; intros h d Hp Hd Hr; intros;
  eapply same_object; [eassumption..|]; repeat dstep.

Section read.
Context (s : astate) (p : loc).

Lemma get_weekday_gives v s' :
  reads p 0 weekday s = Some (v, s') -> gives s (g_date_get_weekday p) v s'.
Proof.
  intros E. read_with @reads_julian. unfold weekday.
  replace (julian_days d) with n.
  assert (Hs : forall x, 0 <= x < 4294967296 -> u32 x = x) by (intros; by apply wrap_id).
  unfold MAX_DAY in *. rewrite (Hs (n - 1)), Hs by div_lia. done.
Qed.

Lemma get_month_gives v s' : reads p 0 month_of s = Some (v, s') -> gives s (g_date_get_month p) v s'.
Proof. intros E. read_with @reads_dmy. congruence. Qed.
Lemma get_year_gives v s' : reads p 0 year_of s = Some (v, s') -> gives s (g_date_get_year p) v s'.
Proof. intros E. read_with @reads_dmy. congruence. Qed.
Lemma get_day_gives v s' : reads p 0 day_of s = Some (v, s') -> gives s (g_date_get_day p) v s'.
Proof. intros E. read_with @reads_dmy. congruence. Qed.
Lemma get_julian_gives v s' : reads p 0 id s = Some (v, s') -> gives s (g_date_get_julian p) v s'.
Proof. intros E. read_with @reads_julian. unfold id. congruence. Qed.

Lemma get_day_of_year_gives v s' :
  reads p 0 day_of_year s = Some (v, s') -> gives s (g_date_get_day_of_year p) v s'.
Proof.
  intros E. read_with @reads_dmy. destruct (day_range n) as (? & ? & ? & ?); [done|]. rewrite leap_bind by lia. dstep.
  rewrite (table_run _ _ _ _ _ (year_table (year d) (month d) ltac:(lia))).
  dstep. rewrite day_of_year_sum by lia. unfold mret, cmd_ret. congruence.
Qed.

Lemma is_first_gives v s' :
  reads p false (fun n => day_of n =? 1) s = Some (v, s') -> gives s (g_date_is_first_of_month p) v s'.
Proof. intros E. read_with @reads_dmy. unfold mret, cmd_ret. congruence. Qed.

Lemma is_last_gives v s' :
  reads p false (fun n => day_of n =? last_of_month n) s = Some (v, s') ->
  gives s (g_date_is_last_of_month p) v s'.
Proof.
  intros E. read_with @reads_dmy. destruct (day_range n) as (? & ? & ? & ?); [done|]. rewrite leap_bind by lia. repeat dstep.
  rewrite (table_run _ _ _ _ _ (months_table (year d) (month d) ltac:(lia))).
  unfold last_of_month, mret, cmd_ret. congruence.
Qed.

Lemma get_iso8601_week_gives v s' :
  reads p 0 iso_week s = Some (v, s') -> gives s (g_date_get_iso8601_week_of_year p) v s'.
Proof.
  intros E. read_with @reads_julian. unfold MAX_DAY in *. replace (julian_days d) with n.
  pose proof (iso_formula n ltac:(lia)) as Hi. cbv zeta in Hi |- *. rewrite <- Hi. clear Hi E Hr.
  assert (Hs : forall x, 0 <= x < 4294967296 -> u32 x = x) by (intros; by apply wrap_id).
  rewrite (Hs (n + 1721425)) by lia. set (j := n + 1721425).
  assert (Hj : 0 <= j mod 7 < 7 /\ 0 <= j <= 25700000) by (subst j; clear - H1; div_lia).
  rewrite (Hs (j + 31741 - j mod 7)) by lia.
  set (d4 := (j + 31741 - j mod 7) mod 146097 mod 36524 mod 1461).
  assert (Hd4 : 0 <= d4 <= 1460) by (subst d4; clear; div_lia).
  assert (HL : 0 <= d4 / 1460 <= 1 /\ d4 / 1460 <= d4) by (clearbody d4; clear - Hd4; div_lia).
  rewrite (Hs (d4 - _)) by lia. clearbody d4. clear Hj.
  assert (Hm : 0 <= (d4 - d4 / 1460) mod 365 < 365) by (clear; div_lia).
  rewrite (Hs (_ mod 365 + _)) by lia. rewrite Hs; [done|]. generalize dependent (d4 / 1460). clear - Hs.
  intros L HL. generalize ((d4 - L) mod 365). intros z Hz. div_lia.
Qed.
End read.

Lemma days_in_month_gives s m y v s' :
  (if decide (y <= 0) then Some (0, warn 1 s)
   else if decide (1 <= m <= 12) then Some (month_length y m, s) else Some (0, warn 1 s)) = Some (v, s') ->
  0 <= y -> gives s (g_date_get_days_in_month m y) v s'.
Proof.
  intros E Hy. unfold g_date_get_days_in_month, g_date_valid_year, g_date_valid_month, G_DATE_BAD_YEAR, G_DATE_BAD_MONTH.
  destruct (decide (y <= 0)).
  - injection E as <- <-. destruct (Z.gtb_spec y 0); [lia|]. apply gives_critical.
  - destruct (Z.gtb_spec y 0); [|lia]. destruct (decide (1 <= m <= 12)) as [Hm|Hm]; injection E as <- <-.
    + destruct (Z.gtb_spec m 0); [|lia]. destruct (Z.ltb_spec m 13); [|lia]. cbn [andb].
      intros h Hh. rewrite leap_bind by lia. rewrite (table_run_last _ _ _ _ (months_table y m Hm)).
      by eexists _, _, _.
    + replace ((m >? 0) && (m <? 13)) with false; [apply gives_critical|].
      symmetry. apply andb_false_iff. destruct (Z.gtb_spec m 0), (Z.ltb_spec m 13); auto; lia.
Qed.

(** * Setters *)

(** The object that four assignments make of [d]. *)
Definition dmy_object (d : GDate) (x : ymd) : GDate :=
  let '(y, m, dd) := x in mkGDate (julian_days d) false true dd m y.

Lemma dmy_object_rep d x :
  fits d -> real_day x -> x.1.1 <= 65535 -> rep (dmy_object d x) (Day (number x)).
Proof.
  destruct x as [[y m] dd]. cbn [fst]. intros Hf Hr Hy.
  pose proof (number_pos _ Hr). pose proof (proj2 (number_max y m dd Hr) Hy).
  pose proof (civil_number _ Hr) as Hc. destruct Hr as (? & ? & ?). pose proof (month_length_bounds y m).
  split.
  - destruct Hf. split; cbn [dmy_object julian_days day month year]; bits_lia.
  - cbn -[number civil]. repeat split; [lia..|done|done].
Qed.

Lemma gives_becomes s p a a' (c : cmd Dates unit) s' :
  becomes p a' s = Some (tt, s') -> adates s !! p = Some a ->
  (forall h d, p <> NULL -> dates h !! p = Some d -> rep d a ->
     exists d', c h = Some (tt, put p d' h) /\ rep d' a') ->
  gives s c tt s'.
Proof. unfold becomes. intros E Ha Hc. rewrite Ha in E. injection E as <-. by apply gives_object with a. Qed.

Lemma becomes_inv p a s v s' :
  becomes p a s = Some (v, s') -> exists b, adates s !! p = Some b /\ s' = aput p a s.
Proof. unfold becomes. destruct (adates s !! p); [|done]. intros [= <- <-]. eauto. Qed.

Lemma gives_valid_dmy s dd m y : gives s (g_date_valid_dmy dd m y) (bool_decide (real_day (y, m, dd))) s.
Proof. intros h Hh. rewrite valid_dmy_run. by eexists _, _, _. Qed.

Section set.
Context (s : astate) (p : loc).
Implicit Types v : unit.

Lemma set_dmy_gives dd m y v s' :
  spec_set_dmy p dd m y s = Some (v, s') -> gives s (g_date_set_dmy p dd m y) v s'.
Proof.
  intros E. eapply gives_not_nil; [exact E|]. intros Hp E'. eapply gives_bind; [apply gives_valid_dmy|].
  destruct (decide (real_day (y, m, dd))) as [Hr|Hr].
  - rewrite bool_decide_true by done. destruct (decide (in_u 16 y)) as [Hy|]; [|done]. destruct v.
    destruct (becomes_inv _ _ _ _ _ E') as (b & Hb & _). eapply gives_becomes; [exact E'|exact Hb|].
    intros h d _ Hd [Hf _]. repeat dstep. exists (dmy_object d (y, m, dd)).
    pose proof Hr as (? & ? & ?). pose proof (month_length_bounds y m). split.
    + unfold with_dmy, with_year, with_day, with_month, with_julian, dmy_object. cbn.
      rewrite !wrap_id by bits_lia. done.
    + apply dmy_object_rep; [done..|]. cbn. bits_lia.
  - rewrite bool_decide_false by done. injection E' as <- <-. apply gives_critical.
Qed.

Lemma set_julian_gives j v s' :
  spec_set_julian p j s = Some (v, s') -> gives s (g_date_set_julian p j) v s'.
Proof.
  intros E. eapply gives_not_nil; [exact E|]. intros Hp E'. unfold g_date_valid_julian, G_DATE_BAD_JULIAN.
  destruct (decide (j = 0)) as [->|]; [injection E' as <- <-; apply gives_critical|].
  destruct (decide (1 <= j <= MAX_DAY)) as [Hj|]; [|done]. destruct (Z.gtb_spec j 0); [|lia]. destruct v.
  destruct (becomes_inv _ _ _ _ _ E') as (b & Hb & _). eapply gives_becomes; [exact E'|exact Hb|].
  intros h d _ Hd [Hf _]. repeat dstep. eexists. split; [done|]. split; [auto with c_date|].
  cbn. rewrite wrap_id by bits_lia. repeat split; [lia..|done].
Qed.

Lemma set_time_gives localtime_r t v s' :
  spec_set_time p (localtime_r t) s = Some (v, s') -> gives s (g_date_set_time_t localtime_r p t) v s'.
Proof.
  intros E. eapply gives_not_nil; [exact E|]. intros Hp E'. cbv zeta in E' |- *.
  destruct (localtime_r t) as [md mo ye ? ? ?]. cbn [tm_year tm_mon tm_mday] in *.
  destruct (decide _) as [[Hr Hy]|]; [|done]. destruct v.
  destruct (becomes_inv _ _ _ _ _ E') as (b & Hb & _). eapply gives_becomes; [exact E'|exact Hb|].
  intros h d _ Hd [Hf _]. pose proof Hr as (? & ? & ?). pose proof (month_length_bounds (ye + 1900) (mo + 1)).
  repeat dstep. cbn [day month year with_year with_day with_month with_julian].
  rewrite (wrap_id 4), (wrap_id 6), (wrap_id 16) by bits_lia.
  rewrite (run_bind _ _ _ _ _ (valid_dmy_run _ _ _ _)), bool_decide_true by done. dstep.
  exists (dmy_object d (ye + 1900, mo + 1, md)). split.
  - unfold with_dmy, with_year, with_day, with_month, with_julian, dmy_object. cbn.
    rewrite !wrap_id by bits_lia. done.
  - by apply dmy_object_rep.
Qed.

(** The fields of an object after [set_field] has filled them in. *)
Definition known_fields (a : adate) : option ymd :=
  match a with Day n => Some (civil n) | Incomplete x => Some x | Raw => None end.

Lemma set_field_fill h d a x :
  p <> NULL -> dates h !! p = Some d -> rep d a -> known_fields a = Some x ->
  exists d', (if julian d && negb (dmy d) then g_date_update_dmy p else mret tt) h = Some (tt, put p d' h) /\
    fits d' /\ fields d' = x.
Proof.
  intros Hp Hd Hr Hx. destruct a as [n|x'|]; [injection Hx as <-|injection Hx as <-|done].
  - destruct (fill_dmy_rep n d Hr) as ([Hf' _] & _ & Hfl & _). exists (fill_dmy d). split; [|done].
    pose proof Hr as (Hf & Hn & Hv & Hj & Hm). destruct (dmy d) eqn:Ed.
    + rewrite andb_false_r. unfold fill_dmy. rewrite Ed, put_id by done. done.
    + rewrite orb_false_r in Hv. rewrite Hv. cbn. apply update_dmy_run; auto. rewrite Hj; done.
  - destruct Hr as (Hf & -> & _ & Hfl). exists d. by rewrite put_id.
Qed.

Lemma set_field_gives f (g : GDate -> GDate) v s' :
  (forall d, fits d -> fits (g d) /\ fields (g d) = f (fields d) /\
     dmy (g d) = dmy d /\ julian (g d) = julian d /\ julian_days (g d) = julian_days d) ->
  spec_set_field p f s = Some (v, s') -> gives s (set_field p g) v s'.
Proof.
  intros Hg E.
  assert (Ha : exists a x, adates s !! p = Some a /\ known_fields a = Some x /\ v = tt /\
    s' = aput p (from_fields (f x)) s).
  { unfold spec_set_field in E. destruct (adates s !! p) as [[n|x|]|]; try done; injection E as <- <-; eauto 8. }
  destruct Ha as (a & x & Ha & Hx & -> & ->). apply gives_object with a; [done|]. intros h d Hp Hd Hr.
  unfold set_field. repeat dstep.
  destruct (set_field_fill h d a x Hp Hd Hr Hx) as (d' & Ed & Hf & Hfl).
  rewrite (run_bind _ _ _ _ _ Ed). repeat dstep. rewrite (run_bind _ _ _ _ _ (valid_dmy_run _ _ _ _)).
  destruct (Hg (with_julian false d')) as (Hf' & Hfl' & Hm' & Hj' & Hjd'); [auto with c_date|].
  change (fields (with_julian false d')) with (fields d') in Hfl'. rewrite Hfl in Hfl'.
  set (d2 := g (with_julian false d')) in *. change (year d2, month d2, day d2) with (fields d2).
  rewrite Hfl'. unfold from_fields. destruct (decide (real_day (f x))) as [Hreal|Hreal].
  - rewrite bool_decide_true by done. dstep. eexists. split; [done|]. split; [auto with c_date|].
    rewrite <- Hfl' in *. pose proof (number_fits d2 Hf' Hreal). cbn -[number civil]. repeat split; try lia.
    + rewrite Hj'. done.
    + intros _. by rewrite civil_number.
  - rewrite bool_decide_false by done. dstep. eexists. split; [done|]. split; [auto with c_date|]. by cbn.
Qed.

Lemma set_month_gives m v s' : spec_set_month p m s = Some (v, s') -> gives s (g_date_set_month p m) v s'.
Proof.
  intros E. eapply gives_not_nil; [exact E|]. intros Hp E'. unfold g_date_valid_month, G_DATE_BAD_MONTH.
  destruct (decide (1 <= m <= 12)).
  - destruct (Z.gtb_spec m 0), (Z.ltb_spec m 13); try lia. cbn [andb]. eapply set_field_gives; [|exact E'].
    intros d Hf. split; [auto with c_date|]. unfold fields, with_month. cbn. by rewrite wrap_id by bits_lia.
  - injection E' as <- <-. destruct (Z.gtb_spec m 0), (Z.ltb_spec m 13); try lia; apply gives_critical.
Qed.

Lemma set_day_gives x v s' : spec_set_day p x s = Some (v, s') -> gives s (g_date_set_day p x) v s'.
Proof.
  intros E. eapply gives_not_nil; [exact E|]. intros Hp E'. unfold g_date_valid_day, G_DATE_BAD_DAY.
  destruct (decide (1 <= x <= 31)).
  - destruct (Z.gtb_spec x 0), (Z.ltb_spec x 32); try lia. cbn [andb]. eapply set_field_gives; [|exact E'].
    intros d Hf. split; [auto with c_date|]. unfold fields, with_day. cbn. by rewrite wrap_id by bits_lia.
  - injection E' as <- <-. destruct (Z.gtb_spec x 0), (Z.ltb_spec x 32); try lia; apply gives_critical.
Qed.

Lemma set_year_gives y v s' : spec_set_year p y s = Some (v, s') -> gives s (g_date_set_year p y) v s'.
Proof.
  unfold spec_set_year. destruct (decide (in_u 16 y)) as [Hy|]; [|done].
  intros E. eapply gives_not_nil; [exact E|]. intros Hp E'. unfold g_date_valid_year, G_DATE_BAD_YEAR.
  destruct (decide (1 <= y)).
  - destruct (Z.gtb_spec y 0); try lia. eapply set_field_gives; [|exact E'].
    intros d Hf. split; [auto with c_date|]. unfold fields, with_year. cbn. by rewrite wrap_id by bits_lia.
  - injection E' as <- <-. destruct (Z.gtb_spec y 0); try lia; apply gives_critical.
Qed.
End set.

Lemma clear_all_gives n s p v s' : clear_all p n s = Some (v, s') -> gives s (clear_dates p n) v s'.
Proof.
  revert s p. induction n as [|n IH]; intros s p E; cbn in E |- *.
  - injection E as <- <-. apply gives_ret.
  - destruct (adates s !! p) as [a|] eqn:Ha; [|done]. eapply gives_bind; [|by apply IH].
    apply gives_object with a; [done|]. intros h d Hp Hd Hr. dstep. eexists. split; [done|].
    split; [auto with c_date|done].
Qed.

Lemma clear_gives s p n v s' : spec_clear p n s = Some (v, s') -> gives s (g_date_clear p n) v s'.
Proof.
  intros E. eapply gives_not_nil; [exact E|]. intros Hp E'. unfold fails_if in E'.
  destruct (Nat.eqb n 0); [injection E' as <- <-; apply gives_critical|]. by apply clear_all_gives.
Qed.
