(* ===== verification/DateArith.v ===== *)
(** Arithmetic, comparison and week numbers of Date act as the machine of
    DateRep says. *)
From S2P Require Import Prelude Store Utf8Char Date DateCalendar DateRep DateOps.

(** * Moving a date *)

(** A change of a day through its day, month and year. *)
Lemma moves_dmy s p n m (k : cmd Dates unit) :
  adates s !! p = Some (Day n) ->
  (forall h d, p <> NULL -> dates h !! p = Some d -> fits d -> dmy d = true -> fields d = civil n ->
     1 <= n <= MAX_DAY -> exists d', k h = Some (tt, put p d' h) /\ rep d' (Day m)) ->
  gives s (_ ← need_dmy p; dm ← rd dmy p; return_unless dm giving tt;; k) tt (aput p (Day m) s).
Proof.
  intros Ha Hk. apply gives_object with (Day n); [done|]. intros h d Hp Hd Hr.
  rewrite (guard_dmy_day tt k p d n) by done. destruct (fill_dmy_rep n d Hr) as (Hr' & Hm & Hf & _).
  destruct (Hk (put p (fill_dmy d) h) (fill_dmy d)) as (d' & -> & ?);
    [done|apply lookup_put|apply Hr'|done..|apply Hr|]. rewrite put_put. eauto.
Qed.

(** ... or its day number. *)
Lemma moves_julian s p n m (k : cmd Dates unit) :
  adates s !! p = Some (Day n) ->
  (forall h d, p <> NULL -> dates h !! p = Some d -> fits d -> julian d = true -> julian_days d = n ->
     1 <= n <= MAX_DAY -> exists d', k h = Some (tt, put p d' h) /\ rep d' (Day m)) ->
  gives s (_ ← need_julian p; j ← rd julian p; return_unless j giving tt;; k) tt (aput p (Day m) s).
Proof.
  intros Ha Hk. apply gives_object with (Day n); [done|]. intros h d Hp Hd Hr.
  rewrite (guard_julian_day tt k p d n) by done. destruct (fill_julian_rep n d Hr) as (Hr' & Hm & Hf & _).
  destruct (Hk (put p (fill_julian d) h) (fill_julian d)) as (d' & -> & ?);
    [done|apply lookup_put|apply Hr'|done..|apply Hr|]. rewrite put_put. eauto.
Qed.

(** A function that warns after its guard changes nothing but a cache. *)
Lemma warns_after_dmy {A} s p n (bad : A) (k : cmd Dates A) :
  adates s !! p = Some (Day n) ->
  (forall h d, dates h !! p = Some d -> rep d (Day n) -> fields d = civil n -> k h = Some (bad, warned 1 h)) ->
  gives s (_ ← need_dmy p; dm ← rd dmy p; return_unless dm giving bad;; k) bad (warn 1 s).
Proof.
  intros Ha Hk h Hh. destruct (models_lookup h s p _ Hh Ha) as (Hp & d & Hd & Hr).
  rewrite (guard_dmy_day bad k p d n) by done. destruct (fill_dmy_rep n d Hr) as (Hr' & Hm & Hf & _).
  rewrite (Hk _ (fill_dmy d)) by (done || apply lookup_put).
  eexists _, _, _. split; [done|]. split; [|done]. apply models_warned.
  rewrite <- (aput_id p _ s Ha). by apply models_put.
Qed.

Lemma warns_after_julian {A} s p n (bad : A) (k : cmd Dates A) :
  adates s !! p = Some (Day n) ->
  (forall h d, dates h !! p = Some d -> rep d (Day n) -> julian_days d = n -> k h = Some (bad, warned 1 h)) ->
  gives s (_ ← need_julian p; j ← rd julian p; return_unless j giving bad;; k) bad (warn 1 s).
Proof.
  intros Ha Hk h Hh. destruct (models_lookup h s p _ Hh Ha) as (Hp & d & Hd & Hr).
  rewrite (guard_julian_day bad k p d n) by done. destruct (fill_julian_rep n d Hr) as (Hr' & Hm & Hf & _).
  rewrite (Hk _ (fill_julian d)) by (done || apply lookup_put).
  eexists _, _, _. split; [done|]. split; [|done]. apply models_warned.
  rewrite <- (aput_id p _ s Ha). by apply models_put.
Qed.

Lemma number_day_rep d j : fits d -> julian d = true -> dmy d = false -> julian_days d = j ->
  1 <= j <= MAX_DAY -> rep d (Day j).
Proof. intros Hf Hj Hm <- Hn. split; [done|]. rewrite Hj, Hm. by repeat split; try lia. Qed.

Lemma real_limited y m dd : 1 <= y -> 1 <= m <= 12 -> 1 <= dd -> real_day (y, m, dd `min` month_length y m).
Proof. intros. pose proof (month_length_bounds y m). repeat split; lia. Qed.

Lemma limit_day_run p d h :
  p <> NULL -> dates h !! p = Some d -> fits d -> dmy d = true ->
  1 <= year d -> 1 <= month d <= 12 -> 1 <= day d ->
  exists d', limit_day p h = Some (tt, put p d' h) /\ rep d' (Day (limited (year d) (month d) (day d))).
Proof.
  intros Hp Hd Hf Hdm Hy Hm Hdd. unfold limit_day. repeat dstep. rewrite leap_bind by lia. repeat dstep.
  rewrite (table_run _ _ _ _ _ (months_table (year d) (month d) Hm)).
  pose proof (month_length_bounds (year d) (month d)) as Hl.
  pose proof (real_limited _ _ _ Hy Hm Hdd) as Hr.
  exists (dmy_object d (year d, month d, day d `min` month_length (year d) (month d))). split.
  - destruct (Z.gtb_spec (day d) (month_length (year d) (month d))); repeat dstep.
    all: erewrite run_bind by (apply valid_run; [done|apply lookup_put]); cbn [dmy with_julian with_day].
    all: rewrite Hdm, orb_true_r; unfold mret, cmd_ret; do 3 f_equal.
    all: unfold with_julian, with_day, dmy_object; cbn [julian_days dmy day month year]; rewrite Hdm.
    + rewrite wrap_id by bits_lia. f_equal. lia.
    + f_equal. lia.
  - apply dmy_object_rep; [done..|]. cbn. destruct Hf. bits_lia.
Qed.

(** The same for the object [o] that has just been written. *)
Lemma limit_written p h o y m dd :
  p <> NULL -> fits o -> dmy o = true -> year o = y -> month o = m -> day o = dd ->
  1 <= y -> 1 <= m <= 12 -> 1 <= dd ->
  exists d', limit_day p (put p o h) = Some (tt, put p d' h) /\ rep d' (Day (limited y m dd)).
Proof.
  intros Hp Hf Hdm <- <- <- Hy Hm Hd.
  destruct (limit_day_run p o (put p o h)) as (d' & -> & Hr); [done|apply lookup_put|done..|].
  exists d'. by rewrite put_put.
Qed.

Lemma leave_leap_day_run p d h :
  p <> NULL -> dates h !! p = Some d -> fits d -> dmy d = true ->
  1 <= year d -> 1 <= month d <= 12 -> 1 <= day d -> (exists y, day d <= month_length y (month d)) ->
  exists d', leave_leap_day p h = Some (tt, put p d' h) /\ rep d' (Day (limited (year d) (month d) (day d))).
Proof.
  intros Hp Hd Hf Hdm Hy Hm Hdd [y0 Hy0]. unfold leave_leap_day. repeat dstep.
  pose proof (real_limited _ _ _ Hy Hm Hdd) as Hr.
  exists (dmy_object d (year d, month d, day d `min` month_length (year d) (month d))). split.
  - assert (Hmin : day d `min` month_length (year d) (month d) =
      if (month d =? 2) && (day d =? 29) && negb (leap (year d)) then 28 else day d).
    { revert Hy0. unfold month_length. destruct (Z.eqb_spec (month d) 2), (Z.eqb_spec (day d) 29); cbn [andb];
        repeat case_match; intros; cbn [negb] in *; try lia; congruence. }
    rewrite Hmin. destruct ((month d =? 2) && (day d =? 29)); cbn [andb].
    + rewrite run_assoc. dstep. rewrite run_assoc, leap_bind by lia. destruct (leap (year d)); cbn [negb]; repeat dstep.
      all: do 3 f_equal; unfold with_julian, with_day, dmy_object; cbn [julian_days dmy day month year]; rewrite Hdm.
      * done.
      * by rewrite wrap_id by bits_lia.
    + repeat dstep. do 3 f_equal. unfold with_julian, dmy_object. by rewrite Hdm.
  - apply dmy_object_rep; [done..|]. cbn. destruct Hf. bits_lia.
Qed.

Section move.
Context (s : astate) (p : loc).
Implicit Types v : unit.

Lemma add_days_gives k v s' : spec_add_days p k s = Some (v, s') -> gives s (g_date_add_days p k) v s'.
Proof.
  intros E. eapply gives_on_day; [exact E|]. intros n Ha E'. cbv beta in E'. destruct (decide _) as [[Hk Hn]|]; [|done].
  injection E' as <- <-. apply moves_julian with n; [done|]. intros h d Hp Hd Hf Hj Hjd Hr. repeat dstep.
  eexists. split; [done|]. apply number_day_rep; [auto with c_date|done|done|cbn|]; [|lia].
  rewrite wrap_id; [lia|bits_lia].
Qed.

Lemma subtract_days_gives k v s' :
  spec_subtract_days p k s = Some (v, s') -> gives s (g_date_subtract_days p k) v s'.
Proof.
  intros E. eapply gives_on_day; [exact E|]. intros n Ha E'. cbv beta in E'. destruct (decide (0 <= k)); [|done].
  destruct (decide (k < n)); injection E' as <- <-.
  - apply moves_julian with n; [done|]. intros h d Hp Hd Hf Hj Hjd Hr. dstep. rewrite Hjd.
    destruct (Z.gtb_spec n k); [|lia]. repeat dstep.
    eexists. split; [done|]. apply number_day_rep; [auto with c_date|done|done|cbn|]; [|lia].
    rewrite wrap_id; [lia|bits_lia].
  - apply warns_after_julian with n; [done|]. intros h d Hd Hr Hjd. dstep. rewrite Hjd.
    destruct (Z.gtb_spec n k); [lia|]. done.
Qed.

Lemma shift_months_spec k n :
  let total := 12 * year_of n + (month_of n - 1) + k in
  shift_months k n = limited (total / 12) (total mod 12 + 1) (day_of n).
Proof. unfold shift_months. by rewrite (civil_parts n). Qed.

Lemma add_months_gives k v s' : spec_add_months p k s = Some (v, s') -> gives s (g_date_add_months p k) v s'.
Proof.
  intros E. eapply gives_on_day; [exact E|]. intros n Ha E'. cbv beta in E'. destruct (decide _) as [[Hk Hn]|]; [|done].
  injection E' as <- <-. unfold shifted_year in Hn. rewrite shift_months_spec. cbv zeta.
  set (total := 12 * year_of n + (month_of n - 1) + k) in *.
  apply moves_dmy with n; [done|]. intros h d Hp Hd Hf Hdm Hfl Hr. dstep. cbv zeta.
  destruct (civil_fields _ _ Hfl) as (Hy & Hm & Hdd). destruct (day_range n Hr) as (? & ? & ? & ?).
  rewrite Hm. assert (Hk' : u32 (k + (month_of n - 1)) = k + (month_of n - 1)).
  { apply wrap_id. unfold in_u. change (2 ^ 32) with 4294967296. subst total. clear - Hn H H0 Hk. div_lia. }
  rewrite Hk'. repeat dstep. cbn [year with_month]. rewrite Hy.
  set (x := k + (month_of n - 1)) in *.
  assert (Ht : total / 12 = year_of n + x / 12 /\ total mod 12 = x mod 12) by (subst total x; clear; div_lia).
  destruct Ht as [Ht1 Ht2].
  assert (Hx : 0 <= x / 12 /\ 0 <= x mod 12 < 12) by (subst x; clear - Hk H0; div_lia).
  rewrite Ht1, Ht2. apply limit_written; [done|auto with c_date|done|..]; cbn; rewrite ?wrap_id by bits_lia; lia.
Qed.

Lemma subtract_months_gives k v s' :
  spec_subtract_months p k s = Some (v, s') -> gives s (g_date_subtract_months p k) v s'.
Proof.
  intros E. eapply gives_on_day; [exact E|]. intros n Ha E'. cbv beta in E'. destruct (decide (0 <= k)) as [Hk|]; [|done].
  destruct (decide (year_of n <= k / 12)) as [Hle|Hgt].
  { injection E' as <- <-. apply warns_after_dmy with n; [done|]. intros h d Hd Hr Hfl. cbv zeta. dstep.
    destruct (civil_fields _ _ Hfl) as (-> & _ & _). destruct (Z.gtb_spec (year_of n) (k / 12)); [lia|]. done. }
  destruct (decide _) as [Hn|]; [|done]. injection E' as <- <-. unfold shifted_year in Hn.
  rewrite shift_months_spec. cbv zeta. set (total := 12 * year_of n + (month_of n - 1) + - k) in *.
  apply moves_dmy with n; [done|]. intros h d Hp Hd Hf Hdm Hfl Hr. cbv zeta. dstep.
  destruct (civil_fields _ _ Hfl) as (Hy & Hm & Hdd). destruct (day_range n Hr) as (? & ? & ? & ?).
  rewrite Hy. destruct (Z.gtb_spec (year_of n) (k / 12)); [|lia]. dstep. dstep. cbn [month with_year]. rewrite Hm.
  assert (Hk12 : 0 <= k / 12 /\ 0 <= k mod 12 < 12) by (clear - Hk; div_lia).
  destruct (Z.gtb_spec (month_of n) (k mod 12)) as [Hgm|Hgm].
  - assert (Ht : total / 12 = year_of n - k / 12 /\ total mod 12 + 1 = month_of n - k mod 12)
      by (subst total; clear - Hgm H0; div_lia). destruct Ht as [Ht1 Ht2].
    dstep.
    rewrite Ht1, Ht2. apply limit_written; [done|auto with c_date|done|..]; cbn; rewrite ?wrap_id by bits_lia; lia.
  - assert (Ht : total / 12 = year_of n - k / 12 - 1 /\ total mod 12 + 1 = 12 - (k mod 12 - month_of n))
      by (subst total; clear - Hgm H0; div_lia). destruct Ht as [Ht1 Ht2].
    rewrite (wrap_id 32 (k mod 12 - month_of n)), (wrap_id 32 (12 - _)) by bits_lia.
    rewrite run_assoc. dstep. rewrite run_assoc. repeat dstep. cbn [year with_month with_year].
    rewrite (wrap_id 16 (year_of n - k / 12)) by bits_lia.
    rewrite Ht1, Ht2. apply limit_written; [done|auto with c_date|done|..]; cbn; rewrite ?wrap_id by bits_lia; lia.
Qed.

Lemma years_run k n h d :
  p <> NULL -> dates h !! p = Some d -> fits d -> dmy d = true -> fields d = civil n -> 1 <= n <= MAX_DAY ->
  1 <= year_of n + k <= 65535 ->
  exists d', leave_leap_day p (put p (with_year (year_of n + k) d) h) = Some (tt, put p d' h) /\
    rep d' (Day (shift_years k n)).
Proof.
  intros Hp Hd Hf Hdm Hfl Hr Hy'. destruct (civil_fields _ _ Hfl) as (Hy & Hm & Hdd).
  destruct (day_range n Hr) as (? & ? & ? & ?).
  set (o := with_year (year_of n + k) d). destruct (leave_leap_day_run p o (put p o h)) as (d' & -> & Hrep).
  - done.
  - apply lookup_put.
  - subst o. auto with c_date.
  - done.
  - cbn. rewrite wrap_id by bits_lia. lia.
  - cbn. lia.
  - cbn. lia.
  - exists (year_of n). cbn. rewrite Hm, Hdd. done.
  - exists d'. rewrite put_put. split; [done|]. revert Hrep. subst o. cbn [year month day with_year].
    rewrite wrap_id, Hm, Hdd by bits_lia. unfold shift_years. by rewrite (civil_parts n).
Qed.

Lemma add_years_gives k v s' : spec_add_years p k s = Some (v, s') -> gives s (g_date_add_years p k) v s'.
Proof.
  intros E. eapply gives_on_day; [exact E|]. intros n Ha E'. cbv beta in E'. destruct (decide _) as [[Hk Hn]|]; [|done].
  injection E' as <- <-. apply moves_dmy with n; [done|]. intros h d Hp Hd Hf Hdm Hfl Hr. repeat dstep.
  destruct (civil_fields _ _ Hfl) as (-> & _ & _). pose proof (day_range n Hr). apply years_run; done || lia.
Qed.

Lemma subtract_years_gives k v s' :
  spec_subtract_years p k s = Some (v, s') -> gives s (g_date_subtract_years p k) v s'.
Proof.
  intros E. eapply gives_on_day; [exact E|]. intros n Ha E'. cbv beta in E'. destruct (decide (0 <= k)) as [Hk|]; [|done].
  destruct (decide (k < year_of n)) as [Hlt|Hge]; injection E' as <- <-.
  - apply moves_dmy with n; [done|]. intros h d Hp Hd Hf Hdm Hfl Hr. dstep.
    destruct (civil_fields _ _ Hfl) as (-> & _ & _). destruct (Z.gtb_spec (year_of n) k); [|lia]. dstep.
    pose proof (day_range n Hr). apply (years_run (- k)); done || lia.
  - apply warns_after_dmy with n; [done|]. intros h d Hd Hr Hfl. dstep.
    destruct (civil_fields _ _ Hfl) as (-> & _ & _). destruct (Z.gtb_spec (year_of n) k); [lia|]. done.
Qed.
End move.

(** * Comparison *)

Lemma year_start_mono y y' : y < y' -> year_start y + 365 + (if leap y then 1 else 0) <= year_start y'.
Proof.
  intros Hy. rewrite <- year_start_succ. replace y' with (y + 1 + Z.of_nat (Z.to_nat (y' - y - 1))) by lia.
  induction (Z.to_nat (y' - y - 1)) as [|k IH]; [by rewrite Z.add_0_r|].
  replace (y + 1 + Z.of_nat (S k)) with (y + 1 + Z.of_nat k + 1) by lia.
  rewrite (year_start_succ (y + 1 + Z.of_nat k)).
  case_match; lia.
Qed.

Lemma before_mono y m m' : 1 <= m < m' -> m' <= 12 -> before y m + month_length y m <= before y m'.
Proof.
  intros Hm Hm'. rewrite <- before_succ by lia.
  assert (Hk : forall k : nat, m + 1 + Z.of_nat k <= 12 -> before y (m + 1) <= before y (m + 1 + Z.of_nat k)).
  { induction k as [|k IH]; intros Hk; [by rewrite Z.add_0_r|].
    replace (m + 1 + Z.of_nat (S k)) with (m + 1 + Z.of_nat k + 1) by lia.
    rewrite (before_succ y (m + 1 + Z.of_nat k)) by lia. pose proof (month_length_bounds y (m + 1 + Z.of_nat k)). lia. }
  specialize (Hk (Z.to_nat (m' - (m + 1)))). rewrite Z2Nat.id in Hk by lia.
  replace (m + 1 + (m' - (m + 1))) with m' in Hk by lia. lia.
Qed.

(** The lexicographic order of the fields is the order of the days. *)
Lemma ordered_fields y m d y' m' d' :
  real_day (y, m, d) -> real_day (y', m', d') ->
  ordered y y' (ordered m m' (ordered d d' 0)) = sign (number (y, m, d)) (number (y', m', d')).
Proof.
  intros Hr Hr'. pose proof (day_of_year_bounds _ Hr) as Hb. pose proof (day_of_year_bounds _ Hr') as Hb'.
  cbn [fst snd] in *. destruct Hr as (Hy & Hm & Hd), Hr' as (Hy' & Hm' & Hd').
  unfold ordered, sign, number. rewrite !Z.gtb_ltb. pose proof (year_start_mono y y') as H1.
  pose proof (year_start_mono y' y) as H2.
  destruct (Z.ltb_spec y y'); [repeat (case_match; try lia)|].
  destruct (Z.ltb_spec y' y); [repeat (case_match; try lia)|].
  assert (y' = y) as -> by lia. clear H1 H2.
  pose proof (before_mono y m m') as H1. pose proof (before_mono y m' m) as H2.
  destruct (Z.ltb_spec m m'); [repeat (case_match; try lia)|].
  destruct (Z.ltb_spec m' m); [repeat (case_match; try lia)|].
  assert (m' = m) as -> by lia. repeat (case_match; try lia).
Qed.

Lemma ordered_sign a b : ordered a b 0 = sign a b.
Proof. unfold ordered, sign. by rewrite Z.gtb_ltb. Qed.

(** A round of the loop on two valid dates answers, or fills both day numbers. *)
Lemma compare_round_run p q n m h d e :
  p <> NULL -> q <> NULL -> dates h !! p = Some d -> dates h !! q = Some e ->
  rep d (Day n) -> rep e (Day m) ->
  compare_round p q h = Some (inr (sign n m), h) \/
  (p <> q /\ compare_round p q h = Some (inl tt, put q (fill_julian e) (put p (fill_julian d) h))).
Proof.
  intros Hp Hq Hd He Hrd Hre. pose proof Hrd as (Hfd & Hn & Hvd & Hjd & Hdd).
  pose proof Hre as (Hfe & Hm & Hve & Hje & Hde). unfold compare_round. do 2 dstep.
  destruct (julian d && julian e) eqn:Hj.
  { left. apply andb_true_iff in Hj as [Ej Ej']. repeat dstep. rewrite (Hjd Ej), (Hje Ej'), ordered_sign. done. }
  do 2 dstep. destruct (dmy d && dmy e) eqn:Hdm.
  { left. apply andb_true_iff in Hdm as [Ed Ed']. specialize (Hdd Ed). specialize (Hde Ed').
    destruct (civil_spec n) as [Hnn Hrn]; [lia|]. destruct (civil_spec m) as [Hnm Hrm]; [lia|].
    rewrite <- Hdd in Hnn, Hrn. rewrite <- Hde in Hnm, Hrm. unfold fields in *.
    repeat dstep. rewrite ordered_fields by done. by rewrite Hnn, Hnm. }
  right. assert (Hpq : p <> q).
  { intros ->. rewrite Hd in He. injection He as <-. destruct (julian d), (dmy d); done. }
  split; [done|]. rewrite (run_bind _ _ _ _ _ (need_julian_run n p d h Hp Hd Hrd)).
  assert (He' : dates (put p (fill_julian d) h) !! q = Some e) by (rewrite lookup_put_ne; done).
  rewrite (run_bind _ _ _ _ _ (need_julian_run m q e _ Hq He' Hre)).
  destruct (fill_julian_rep n d Hrd) as (_ & Hjd' & _). destruct (fill_julian_rep m e Hre) as (_ & Hje' & _).
  assert (Hl : dates (put q (fill_julian e) (put p (fill_julian d) h)) !! p = Some (fill_julian d)).
  { rewrite lookup_put_ne by done. apply lookup_put. }
  rewrite (run_rd _ _ _ _ _ Hl), Hjd'. dstep. rewrite Hje'. done.
Qed.

Lemma compare_gives s p q v s' :
  spec_compare p q s = Some (v, s') -> gives s (g_date_compare p q) v s'.
Proof.
  intros E. eapply gives_not_nil; [exact E|]. intros Hp E1. eapply gives_not_nil; [exact E1|]. intros Hq E2.
  eapply gives_on_day; [exact E2|]. intros n Hn E3. eapply gives_on_day; [exact E3|]. intros m Hm [= <- <-].
  intros h Hh. destruct (models_lookup h s p _ Hh Hn) as (_ & d & Hd & Hrd).
  destruct (models_lookup h s q _ Hh Hm) as (_ & e & He & Hre). cbn [loop].
  destruct (compare_round_run p q n m h d e) as [Er|[Hpq Er]]; [done..| |].
  { rewrite (run_bind _ _ _ _ _ Er). by eexists _, _, _. }
  rewrite (run_bind _ _ _ _ _ Er). set (h1 := put q _ _).
  destruct (fill_julian_rep n d Hrd) as (Hrd' & Hjd' & _). destruct (fill_julian_rep m e Hre) as (Hre' & Hje' & _).
  assert (Hh1 : models h1 s).
  { rewrite <- (aput_id p _ s Hn). rewrite <- (aput_id q (Day m) (aput p (Day n) s)) by (by rewrite lookup_aput_ne).
    subst h1. by repeat apply models_put. }
  destruct (compare_round_run p q n m h1 (fill_julian d) (fill_julian e)) as [Er'|[_ Er']]; try done.
  - subst h1. rewrite lookup_put_ne by done. apply lookup_put.
  - apply lookup_put.
  - rewrite (run_bind _ _ _ _ _ Er'). by eexists _, _, _.
  - exfalso. revert Er'. subst h1. unfold compare_round.
    erewrite run_rd by (rewrite lookup_put_ne by done; apply lookup_put). dstep. rewrite Hjd', Hje'. cbn [andb].
    erewrite run_rd by (rewrite lookup_put_ne by done; apply lookup_put). dstep. done.
Qed.

(** Rules for the composite functions. *)
Lemma gives_valid s p n : adates s !! p = Some (Day n) -> gives s (g_date_valid p) true s.
Proof.
  intros Ha h Hh. destruct (models_lookup h s p _ Hh Ha) as (Hp & d & Hd & Hr).
  rewrite (valid_run p d h Hp Hd). destruct Hr as (_ & _ & -> & _). by eexists _, _, _.
Qed.

Lemma on_day_some {A} p (bad : A) s f n :
  p <> NULL -> adates s !! p = Some (Day n) -> on_day p bad s f = f n.
Proof. intros Hp Ha. unfold on_day. by rewrite decide_False, Ha. Qed.

Lemma days_between_gives s p q v s' :
  spec_days_between p q s = Some (v, s') -> gives s (g_date_days_between p q) v s'.
Proof.
  intros E. eapply gives_on_day; [exact E|]. intros n Hn E1. eapply gives_on_day; [exact E1|]. intros m Hm [= <- <-].
  intros h Hh. pose proof (models_lookup h s p _ Hh Hn) as (Hp & d & _ & (_ & Hrn & _)).
  pose proof (models_lookup h s q _ Hh Hm) as (Hq & e & _ & (_ & Hrm & _)). revert h Hh.
  eapply gives_bind; [eapply get_julian_gives; unfold reads; by rewrite (on_day_some _ _ _ _ m)|].
  eapply gives_bind; [eapply get_julian_gives; unfold reads; by rewrite (on_day_some _ _ _ _ n)|].
  assert (Hs : forall x, - 2147483648 <= x < 2147483648 -> s32 x = x) by (intros; apply swrap_id; [lia|done]).
  unfold id, MAX_DAY in *. rewrite (Hs m), (Hs n), Hs by lia. apply gives_ret.
Qed.

Lemma assign_gives s p q a b :
  p <> NULL -> adates s !! p = Some b -> adates s !! q = Some a -> gives s (assign_date p q) tt (aput p a s).
Proof.
  intros Hp Hb Ha h Hh. destruct (models_lookup h s q _ Hh Ha) as (Hq & e & He & Hr).
  destruct (models_lookup h s p _ Hh Hb) as (_ & d & Hd & _). unfold assign_date. repeat dstep.
  eexists _, _, _. split; [done|]. split; [by apply models_put|done].
Qed.

Lemma spec_compare_days p q s n m :
  p <> NULL -> q <> NULL -> adates s !! p = Some (Day n) -> adates s !! q = Some (Day m) ->
  spec_compare p q s = Some (sign n m, s).
Proof.
  intros Hp Hq Hn Hm. unfold spec_compare, not_nil. rewrite !decide_False by done.
  rewrite (on_day_some _ _ _ _ n) by done. by rewrite (on_day_some _ _ _ _ m).
Qed.
