(* ===== verification/DateCalls.v ===== *)
(** The functions of Date that work on several objects: ordering and clamping,
    week numbers (with a local date), and the creation of dates. *)
From S2P Require Import Prelude Store Utf8Char Date DateCalendar DateRep DateOps DateArith.

(** * Two and three dates *)

Lemma order_gives s p q v s' : spec_order p q s = Some (v, s') -> gives s (g_date_order p q) v s'.
Proof.
  intros E. eapply gives_on_day; [exact E|]. intros n Hn E1. eapply gives_on_day; [exact E1|]. intros m Hm [= <- <-].
  intros h Hh. pose proof (models_lookup h s p _ Hh Hn) as (Hp & _). pose proof (models_lookup h s q _ Hh Hm) as (Hq & _).
  revert h Hh. eapply gives_bind; [by eapply compare_gives, spec_compare_days|].
  destruct (decide (m < n)) as [Hlt|Hge].
  - assert (sign n m >? 0 = true) as -> by (unfold sign; repeat case_match; lia).
    intros h Hh. destruct (models_lookup h s p _ Hh Hn) as (_ & d & Hd & Hrd).
    destruct (models_lookup h s q _ Hh Hm) as (_ & e & He & Hre). assert (p <> q) by (intros ->; assert (n = m) by congruence; lia).
    dstep. unfold assign_date. rewrite run_assoc. dstep. dstep.
    erewrite run_wr_last by (by rewrite lookup_put_ne). eexists _, _, _. split; [done|]. split; [|done].
    by repeat apply models_put.
  - assert (sign n m >? 0 = false) as -> by (unfold sign; repeat case_match; lia). apply gives_ret.
Qed.

(** What the pointer of a bound stands for. *)
Definition bound_is (s : astate) (q : loc) (l : option Z) : Prop :=
  (q = NULL /\ l = None) \/ (exists m, q <> NULL /\ adates s !! q = Some (Day m) /\ l = Some m).

(** The guards of an optional bound. *)
Lemma gives_on_bound s q f (k : cmd Dates unit) s' :
  on_bound q s f = Some (tt, s') ->
  (forall l, bound_is s q l -> f l = Some (tt, s') -> gives s k tt s') ->
  gives s (v ← (if not_null q then g_date_valid q else mret true); return_unless v giving tt;; k) tt s'.
Proof.
  unfold on_bound. destruct (decide (q = NULL)) as [->|Hq]; intros E Hk.
  - apply (Hk None); [by left|done].
  - rewrite not_null_true by done. eapply gives_on_day; [exact E|]. intros m Hm E'. apply (Hk (Some m)); [|done].
    right. by exists m.
Qed.

(** if (bound != NULL && g_date_compare (a, b) < 0) *date = *bound, where one of
    [a] and [b] is the date and the other the bound. *)
Lemma compare_days_gives s p q n m :
  p <> NULL -> q <> NULL -> adates s !! p = Some (Day n) -> adates s !! q = Some (Day m) ->
  gives s (g_date_compare p q) (sign n m) s.
Proof. intros. by apply compare_gives, spec_compare_days. Qed.

Lemma raise_gives s p q n l (k : cmd Dates unit) v s' :
  p <> NULL -> adates s !! p = Some (Day n) -> bound_is s q l ->
  gives (aput p (Day (raise_to n l)) s) k v s' ->
  gives s (c ← (if not_null q then g_date_compare p q else mret 0);
           _ ← (if c <? 0 then assign_date p q else mret tt); k) v s'.
Proof.
  intros Hp Hn Hb Hk. destruct Hb as [[-> ->]|(m & Hq & Hm & ->)].
  - cbn [not_null NULL negb Z.eqb]. eapply gives_bind; [apply gives_ret|]. cbn [Z.ltb Z.compare].
    eapply gives_bind; [apply gives_ret|]. cbn in Hk. by rewrite aput_id in Hk.
  - rewrite not_null_true by done. eapply gives_bind; [by apply (compare_days_gives s p q n m)|].
    cbn in Hk. destruct (Z.ltb_spec (sign n m) 0) as [H|H]; revert H; unfold sign; repeat case_match; intros; try lia.
    + eapply gives_bind; [by apply (assign_gives s p q (Day m) (Day n))|]. by replace (Z.max n m) with m in Hk by lia.
    + eapply gives_bind; [apply gives_ret|]. replace (Z.max n m) with n in Hk by lia. by rewrite aput_id in Hk.
    + eapply gives_bind; [apply gives_ret|]. replace (Z.max n m) with n in Hk by lia. by rewrite aput_id in Hk.
Qed.

Lemma lower_gives s p q n u :
  p <> NULL -> adates s !! p = Some (Day n) -> bound_is s q u ->
  gives s (c ← (if not_null q then g_date_compare q p else mret 0);
           if c <? 0 then assign_date p q else mret tt) tt (aput p (Day (lower_to n u)) s).
Proof.
  intros Hp Hn Hb. destruct Hb as [[-> ->]|(m & Hq & Hm & ->)].
  - cbn [not_null NULL negb Z.eqb]. eapply gives_bind; [apply gives_ret|]. cbn [Z.ltb Z.compare lower_to].
    rewrite aput_id by done. apply gives_ret.
  - rewrite not_null_true by done. eapply gives_bind; [by apply (compare_days_gives s q p m n)|].
    cbn [lower_to]. destruct (Z.ltb_spec (sign m n) 0) as [H|H]; revert H; unfold sign; repeat case_match; intros; try lia.
    + replace (Z.min n m) with m by lia. by apply (assign_gives s p q (Day m) (Day n)).
    + replace (Z.min n m) with n by lia. rewrite aput_id by done. apply gives_ret.
    + replace (Z.min n m) with n by lia. rewrite aput_id by done. apply gives_ret.
Qed.

Lemma clamp_gives s p lo hi v s' : spec_clamp p lo hi s = Some (v, s') -> gives s (g_date_clamp p lo hi) v s'.
Proof.
  intros E. destruct v. eapply gives_on_day; [exact E|]. intros n Hn E1. cbv beta in E1.
  eapply (gives_on_bound s lo); [exact E1|]. intros l Hl E2. cbv beta in E2.
  eapply (gives_on_bound s hi); [exact E2|]. intros u Hu E3. cbv beta in E3. clear E E1 E2.
  intros h Hh. pose proof (models_lookup h s p _ Hh Hn) as (Hp & _). revert h Hh.
  assert (Hc : gives s (if not_null lo && not_null hi then g_date_compare lo hi else mret 0)
    (match l, u with Some l, Some u => sign l u | _, _ => 0 end) s).
  { destruct Hl as [[-> ->]|(a & Hlo & Ha & ->)]; [apply gives_ret|].
    destruct Hu as [[-> ->]|(b & Hhi & Hb & ->)]; [rewrite andb_false_r; apply gives_ret|].
    rewrite !not_null_true by done. by apply compare_days_gives. }
  eapply gives_bind; [exact Hc|]. clear Hc. unfold fails_if in E3.
  assert (Hx : (match l, u with Some l, Some u => sign l u | _, _ => 0 end <=? 0) = negb (crossed l u)).
  { destruct l as [a|], u as [b|]; cbn; try done. unfold sign. repeat case_match; cbn; done || lia. }
  rewrite Hx. destruct (crossed l u) eqn:Hcr; injection E3 as <-; [apply gives_critical|]. cbn [negb].
  eapply raise_gives; [done..|]. rewrite <- (aput_aput p (Day (lower_to (raise_to n l) u)) (Day (raise_to n l))).
  apply lower_gives; [done|apply lookup_aput|]. destruct Hu as [Hu|(b & Hhi & Hb & ->)]; [by left|].
  right. destruct (decide (p = hi)) as [<-|Hne].
  - exists b. split; [done|]. split; [|done]. rewrite lookup_aput. rewrite Hn in Hb. injection Hb as ->.
    destruct Hl as [[-> ->]|(a & Hlo & Ha & ->)]; [done|]. cbn in Hcr |- *. do 2 f_equal. lia.
  - exists b. rewrite lookup_aput_ne by done. done.
Qed.

(** * Local dates and new dates *)

(** Memory that is found is not in use, and its bits fit the fields; no more is
    known of it. *)
Class PlacementLaws `{Placement} : Prop := {
  place_free h : dates h !! place h = None;
  place_not_null h : place h <> NULL;
  garbage_fits h : fits (garbage h);
}.

Definition forget (p : loc) (s : astate) : astate := mkAstate (delete p (adates s)) (warnings s).

Lemma forget_aput p a s : adates s !! p = None -> forget p (aput p a s) = s.
Proof. intros E. unfold forget, aput. cbn. rewrite delete_insert_id by done. by destruct s. Qed.

Lemma models_free h s p : models h s -> dates h !! p = None -> adates s !! p = None.
Proof. intros [_ Hd _] E. specialize (Hd p). rewrite E in Hd. by destruct (adates s !! p). Qed.

Lemma release_gives s p a : adates s !! p = Some a -> gives s (release p) tt (forget p s).
Proof.
  intros Ha h Hh. destruct (models_lookup h s p _ Hh Ha) as (Hp & d & Hd & Hr). unfold release. rewrite Hd.
  eexists _, _, _. split; [done|]. split; [|done]. destruct Hh as [H0 H1 H2]. split; [| |done].
  - cbn. by rewrite lookup_delete_ne.
  - intros q. cbn. destruct (decide (p = q)) as [->|]; [by rewrite !lookup_delete_eq|].
    rewrite !lookup_delete_ne by done. apply H1.
Qed.

Section placement.
Context `{PlacementLaws}.

(** A block with a local date: what it does while the variable has an address
    [p] of its own. *)
Lemma gives_local {A} s (body : loc -> cmd Dates A) v s' :
  (forall p, p <> NULL -> adates s !! p = None ->
     exists s1, gives (aput p Raw s) (body p) v s1 /\ is_Some (adates s1 !! p) /\ forget p s1 = s') ->
  gives s (with_local body) v s'.
Proof.
  intros Hb h Hh. pose proof (place_free h) as Hf. pose proof (place_not_null h) as Hn.
  destruct (Hb (place h) Hn (models_free _ _ _ Hh Hf)) as (s1 & Hg & [a Ha] & <-).
  assert (Hh1 : models (put (place h) (garbage h) h) (aput (place h) Raw s)).
  { apply models_put; [done..|]. split; [apply garbage_fits|done]. }
  unfold with_local. rewrite (run_bind g_new _ h (place h) (put (place h) (garbage h) h)) by done.
  revert Hh1. generalize (put (place h) (garbage h) h). intros h1 Hh1. revert h1 Hh1.
  change (gives (aput (place h) Raw s) (r ← body (place h); _ ← release (place h); mret r) v (forget (place h) s1)).
  eapply gives_bind; [exact Hg|]. eapply gives_bind; [by eapply release_gives|]. apply gives_ret.
Qed.

(** A new object with given contents, at some free address. *)
Lemma new_acts s a (c : cmd Dates loc) :
  (forall h, exists d, c h = Some (place h, put (place h) d h) /\ rep d a) ->
  acts s c (fun p s' => p <> NULL /\ adates s !! p = None /\ s' = aput p a s).
Proof.
  intros Hc h Hh. destruct (Hc h) as (d & E & Hr). exists (place h), (put (place h) d h), (aput (place h) a s).
  split; [done|]. pose proof (place_not_null h). split; [by apply models_put|].
  split; [done|]. split; [|done]. eapply models_free; [done|]. apply place_free.
Qed.

Lemma new_blank s :
  acts s g_date_new (fun p s' => p <> NULL /\ adates s !! p = None /\ s' = aput p (Incomplete (0, 0, 0)) s).
Proof. apply new_acts. intros h. exists zero_date. split; [done|]. split; [auto with c_date|done]. Qed.

Lemma new_dmy_acts s dd m y :
  real_day (y, m, dd) -> y <= 65535 ->
  acts s (g_date_new_dmy dd m y)
    (fun p s' => p <> NULL /\ adates s !! p = None /\ s' = aput p (Day (number (y, m, dd))) s).
Proof.
  intros Hr Hy. apply new_acts. intros h. unfold g_date_new_dmy.
  rewrite (run_bind _ _ _ _ _ (valid_dmy_run _ _ _ _)), bool_decide_true by done.
  rewrite (run_bind g_new _ h (place h) (put (place h) (garbage h) h)) by done. repeat dstep.
  erewrite run_bind by (apply valid_run; [apply place_not_null|apply lookup_put]).
  exists (dmy_object (garbage h) (y, m, dd)). split.
  - cbn. unfold mret, cmd_ret. do 3 f_equal. pose proof Hr as (? & ? & ?). pose proof (month_length_bounds y m).
    unfold with_dmy, with_year, with_day, with_month, with_julian, dmy_object. cbn.
    by rewrite !wrap_id by bits_lia.
  - apply dmy_object_rep; [apply garbage_fits|done|]. done.
Qed.

Lemma new_dmy_bad s dd m y : ~ real_day (y, m, dd) -> gives s (g_date_new_dmy dd m y) NULL (warn 1 s).
Proof.
  intros Hr. eapply gives_bind; [apply gives_valid_dmy|]. rewrite bool_decide_false by done. apply gives_critical.
Qed.

Lemma new_julian_acts s j :
  1 <= j <= MAX_DAY ->
  acts s (g_date_new_julian j) (fun p s' => p <> NULL /\ adates s !! p = None /\ s' = aput p (Day j) s).
Proof.
  intros Hj. apply new_acts. intros h. unfold g_date_new_julian, g_date_valid_julian, G_DATE_BAD_JULIAN.
  destruct (Z.gtb_spec j 0); [|lia].
  rewrite (run_bind g_new _ h (place h) (put (place h) (garbage h) h)) by done. repeat dstep.
  erewrite run_bind by (apply valid_run; [apply place_not_null|apply lookup_put]).
  eexists. split; [done|]. apply number_day_rep; [|done|done| |done].
  - pose proof (garbage_fits h). auto with c_date.
  - cbn. rewrite wrap_id by bits_lia. done.
Qed.

Lemma copy_acts s p a :
  adates s !! p = Some a -> a <> Raw ->
  acts s (g_date_copy p) (fun q s' => q <> NULL /\ adates s !! q = None /\ s' = aput q a s).
Proof.
  intros Ha Hne h Hh. destruct (models_lookup h s p a Hh Ha) as (Hp & d & Hd & Hr).
  unfold g_date_copy. rewrite not_null_true by done. rewrite (run_bind _ _ _ _ _ (valid_run p d h Hp Hd)).
  destruct a as [n|x|]; [| |done].
  - pose proof Hr as (_ & Hn & -> & _). revert h Hh Hd.
    intros h Hh _. revert h Hh. eapply gives_bind; [|by apply new_julian_acts].
    eapply get_julian_gives. unfold reads. by rewrite (on_day_some _ _ _ _ n).
  - pose proof Hr as (Hf & Hj & Hm & Hx). rewrite Hj, Hm. cbn [orb].
    pose proof (place_free h) as Hfree. pose proof (place_not_null h) as Hnn.
    unfold g_date_new. rewrite (run_bind g_new0 _ h (place h) (put (place h) zero_date h)) by done.
    assert (Hd' : dates (put (place h) zero_date h) !! p = Some d) by (rewrite lookup_put_ne by congruence; done).
    rewrite (run_rd _ _ _ _ _ Hd'). dstep. eexists _, _, _. split; [done|]. split; [by apply models_put|].
    split; [done|]. split; [|done]. by eapply models_free.
Qed.

(** ** Week numbers *)

Lemma weekday_range n : 1 <= weekday n <= 7.
Proof. unfold weekday. div_lia. Qed.

Lemma before_jan y : before y 1 = 0.
Proof. unfold before. by destruct (leap y). Qed.
Lemma before_dec y : before y 12 = 334 + (if leap y then 1 else 0).
Proof. unfold before. by destruct (leap y). Qed.

Lemma number_jan y d : number (y, 1, d) = year_start y + d.
Proof. unfold number. rewrite before_jan. lia. Qed.
Lemma number_dec y d : number (y, 12, d) = year_start y + 334 + (if leap y then 1 else 0) + d.
Proof. unfold number. rewrite before_dec. lia. Qed.

(** A day of January or December exists. *)
Ltac by_real_day := split; [lia|]; split; [lia|]; unfold month_length; cbn; lia.

Lemma year_end_max y : y <= 65535 -> 1 <= y -> year_start y + 365 + (if leap y then 1 else 0) <= MAX_DAY.
Proof.
  intros Hy Hy1. assert (Hr : real_day (y, 12, 31)) by by_real_day.
  pose proof (proj2 (number_max y 12 31 Hr) Hy). rewrite number_dec in *. lia.
Qed.

(** In a year, setting a local date and asking for its weekday. *)
Lemma local_set_gives s p a dd m y :
  p <> NULL -> adates s !! p = Some a -> real_day (y, m, dd) -> y <= 65535 ->
  gives s (g_date_set_dmy p dd m y) tt (aput p (Day (number (y, m, dd))) s).
Proof.
  intros Hp Ha Hr Hy. apply set_dmy_gives. unfold spec_set_dmy, not_nil, becomes.
  rewrite !decide_False, !decide_True, Ha by (done || (destruct Hr; bits_lia)). done.
Qed.

Lemma local_weekday_gives s p n :
  p <> NULL -> adates s !! p = Some (Day n) -> gives s (g_date_get_weekday p) (weekday n) s.
Proof. intros Hp Ha. apply get_weekday_gives. unfold reads. by rewrite (on_day_some _ _ _ _ n). Qed.

(** The frame of the two functions on the week of a date: [wd] is how many days
    before 1 January the week began. *)
Lemma week_frame s d first f (k : Z -> Z -> Z) :
  (forall n y, 1 <= n -> y = year_of n -> f n = k (weekday (year_start y + 1)) (day_of_year n)) ->
  forall v s', reads d 0 f s = Some (v, s') ->
  first <> NULL -> adates s !! first = None ->
  exists s1,
    gives (aput first Raw s)
      (v ← g_date_valid d;
       return_unless v giving 0;;
       _ ← need_dmy d;
       dm ← rd dmy d;
       return_unless dm giving 0;;
       _ ← g_date_clear first 1;
       y ← rd year d;
       _ ← g_date_set_dmy first 1 1 y;
       w ← g_date_get_weekday first;
       n ← g_date_get_day_of_year d;
       mret (k w n)) v s1 /\
    is_Some (adates s1 !! first) /\ forget first s1 = s'.
Proof.
  intros Hf v s' E Hp Hfree. unfold reads, on_day in E. set (s0 := aput first Raw s).
  destruct (decide (d = NULL)) as [->|Hd].
  { injection E as <- <-. exists (warn 2 s0). split; [apply (gives_guard_null s0 0 (mret 0))|].
    split; [exists Raw; apply lookup_aput|]. subst s0. rewrite warn_aput. by apply forget_aput. }
  destruct (adates s !! d) as [[n|x|]|] eqn:Ha; [|injection E as <- <-|done..].
  2: { exists (warn 1 s0). split; [|split; [exists Raw; apply lookup_aput|]].
       - apply gives_guard_incomplete with x. subst s0. rewrite lookup_aput_ne by congruence. done.
       - subst s0. rewrite warn_aput. by apply forget_aput. }
  injection E as <- <-. assert (Hne : first <> d) by congruence.
  set (s1 := aput first (Day (number (year_of n, 1, 1))) s). exists s1.
  split; [|split; [exists (Day (number (year_of n, 1, 1))); apply lookup_aput|by apply forget_aput]].
  assert (Ha0 : adates s0 !! d = Some (Day n)) by (subst s0; by rewrite lookup_aput_ne).
  assert (Ha1 : adates s1 !! d = Some (Day n)) by (subst s1; by rewrite lookup_aput_ne).
  apply acts_guard_day with n; [done|]. intros h Hh.
  destruct (models_lookup h s0 d _ Hh Ha0) as (_ & o & Ho & Hr). pose proof Hr as (_ & Hn & _).
  rewrite (guard_dmy_day 0 _ d o n) by done. destruct (fill_dmy_rep n o Hr) as (Hr' & _ & Hfl & _).
  destruct (civil_fields _ _ Hfl) as (Hyo & _ & _). destruct (day_range n Hn) as (Hy & _).
  assert (Hh' : models (put d (fill_dmy o) h) s0) by (rewrite <- (aput_id d _ s0 Ha0); by apply models_put).
  assert (Hj : real_day (year_of n, 1, 1)) by by_real_day.
  assert (Hcl : gives s0 (g_date_clear first 1) tt (aput first (Incomplete (0, 0, 0)) s)).
  { apply clear_gives. unfold spec_clear, not_nil. rewrite decide_False by done. cbn [fails_if Nat.eqb clear_all].
    subst s0. rewrite lookup_aput, aput_aput. done. }
  clear Hh. pose proof (lookup_put d (fill_dmy o) h) as Hlk. revert Hlk Hh'. generalize (put d (fill_dmy o) h).
  intros h1 Hlk Hh1. unfold g_date_clear. rewrite not_null_true by done. cbn [Nat.eqb negb clear_dates].
  rewrite run_assoc. destruct (models_lookup h1 s0 first Raw Hh1 (lookup_aput _ _ _)) as (_ & g & Hg & _).
  dstep. dstep. erewrite run_rd by (rewrite lookup_put_ne by done; exact Hlk). rewrite Hyo.
  assert (Hh2 : models (put first zero_date h1) (aput first (Incomplete (0, 0, 0)) s0))
    by (apply models_put; [done..|]; split; [auto with c_date|done]).
  subst s0. rewrite aput_aput in Hh2. revert Hh2. generalize (put first zero_date h1). clear - Hf Hp Hn Hy Hj Ha1 s1 Hd.
  eapply gives_bind; [eapply (local_set_gives _ first); [done|apply lookup_aput|done|lia]|].
  rewrite aput_aput. fold s1.
  eapply gives_bind; [apply local_weekday_gives; [done|apply lookup_aput]|].
  eapply gives_bind; [eapply get_day_of_year_gives; unfold reads; by rewrite (on_day_some _ _ _ _ n)|].
  rewrite number_jan, (Hf n (year_of n)) by (done || lia). apply gives_ret.
Qed.

Lemma u32_small x : 0 <= x < 4294967296 -> u32 x = x.
Proof. intros. by apply wrap_id. Qed.

Lemma monday_week_formula n y :
  1 <= n -> y = year_of n ->
  weeks_until 1 n =
  (let wd := u32 (weekday (year_start y + 1) - 1) in
   u32 (u32 (u32 (day_of_year n - 1) + wd) / 7 + (if wd =? 0 then 1 else 0))).
Proof.
  intros Hn ->. cbv zeta. rewrite (weeks_until_formula 1 n _ _ _ ltac:(lia) Hn (civil_parts n)).
  pose proof (day_of_year_range n Hn) as Hd. assert (Hd' : 1 <= day_of_year n <= 366) by (case_match; lia).
  unfold weekday. rewrite (u32_small (day_of_year n - 1)) by lia.
  set (ys := year_start (year_of n)) in *. replace (n - 1) with (day_of_year n + ys - 1) by (unfold day_of_year; lia).
  replace (ys + 1 - 1) with ys by lia. generalize dependent (day_of_year n). clearbody ys. clear.
  intros doy _ Hd. assert (Hm : 0 <= ys mod 7 < 7) by div_lia.
  rewrite (u32_small (ys mod 7 + 1 - 1)) by lia. rewrite (u32_small (doy - 1 + _)) by lia.
  destruct (Z.eqb_spec (ys mod 7 + 1 - 1) 0); rewrite u32_small; div_lia.
Qed.

Lemma sunday_week_formula n y :
  1 <= n -> y = year_of n ->
  weeks_until 7 n =
  (let w := weekday (year_start y + 1) in
   let wd := if w =? 7 then 0 else w in
   u32 (u32 (u32 (day_of_year n - 1) + wd) / 7 + (if wd =? 0 then 1 else 0))).
Proof.
  intros Hn ->. cbv zeta. rewrite (weeks_until_formula 7 n _ _ _ ltac:(lia) Hn (civil_parts n)).
  pose proof (day_of_year_range n Hn) as Hd. assert (Hd' : 1 <= day_of_year n <= 366) by (case_match; lia).
  unfold weekday. rewrite (u32_small (day_of_year n - 1)) by lia.
  set (ys := year_start (year_of n)) in *. replace (n - 7) with (day_of_year n + ys - 7) by (unfold day_of_year; lia).
  replace (ys + 1 - 1) with ys by lia. generalize dependent (day_of_year n). clearbody ys. clear.
  intros doy _ Hd. assert (Hm : 0 <= ys mod 7 < 7) by div_lia.
  destruct (Z.eqb_spec (ys mod 7 + 1) 7); cbn [Z.eqb];
    [|destruct (Z.eqb_spec (ys mod 7 + 1) 0); [lia|]];
    rewrite (u32_small (doy - 1 + _)) by lia; rewrite u32_small; div_lia.
Qed.

Lemma monday_week_gives s d v s' :
  reads d 0 (weeks_until 1) s = Some (v, s') -> gives s (g_date_get_monday_week_of_year d) v s'.
Proof.
  intros E. apply gives_local. intros p Hp Hfree.
  exact (week_frame s d p _ _ monday_week_formula v s' E Hp Hfree).
Qed.

Lemma sunday_week_gives s d v s' :
  reads d 0 (weeks_until 7) s = Some (v, s') -> gives s (g_date_get_sunday_week_of_year d) v s'.
Proof.
  intros E. apply gives_local. intros p Hp Hfree.
  exact (week_frame s d p _ _ sunday_week_formula v s' E Hp Hfree).
Qed.

(** ** The weeks of a year *)

Lemma leap_gives s y : 1 <= y -> gives s (g_date_is_leap_year y) (leap y) s.
Proof. intros Hy h Hh. rewrite leap_run by done. by eexists _, _, _. Qed.

(** [c] gives [v] and leaves [s] when the local date at [p] is gone. *)
Definition locally (s : astate) (p : loc) (v : Z) (a : adate) (c : cmd Dates Z) : Prop :=
  exists s1, gives (aput p a s) c v s1 /\ is_Some (adates s1 !! p) /\ forget p s1 = s.

Lemma locally_ret s p v a : adates s !! p = None -> locally s p v a (mret v).
Proof.
  intros Hp. exists (aput p a s). split; [apply gives_ret|]. split; [exists a; apply lookup_aput|by apply forget_aput].
Qed.

Lemma locally_bind {A} s p v a a' (x : A) c (k : A -> cmd Dates Z) :
  gives (aput p a s) c x (aput p a' s) -> locally s p v a' (k x) -> locally s p v a (mbind k c).
Proof. intros Hc (s1 & Hk & H1). exists s1. split; [|done]. by eapply gives_bind. Qed.

(** One test: the local date becomes a day of the year; its weekday is asked. *)
Lemma locally_ask s p v a dd m y w (r : Z) (k : cmd Dates Z) :
  p <> NULL -> adates s !! p = None -> real_day (y, m, dd) -> y <= 65535 ->
  (weekday (number (y, m, dd)) = w -> v = r) ->
  (weekday (number (y, m, dd)) <> w -> locally s p v (Day (number (y, m, dd))) k) ->
  locally s p v a (_ ← g_date_set_dmy p dd m y; x ← g_date_get_weekday p; if x =? w then mret r else k).
Proof.
  intros Hp Hfree Hr Hy Hyes Hno. eapply locally_bind.
  { rewrite <- (aput_aput p (Day (number (y, m, dd))) a). eapply local_set_gives; [done|apply lookup_aput|done..]. }
  eapply locally_bind; [apply local_weekday_gives; [done|apply lookup_aput]|].
  destruct (Z.eqb_spec (weekday (number (y, m, dd))) w) as [E|E]; [|by apply Hno].
  rewrite (Hyes E). by apply locally_ret.
Qed.

Lemma weeks_in_year_gives s w y :
  1 <= w <= 7 -> 1 <= y <= 65535 -> gives s (weeks_in_year w y) (weeks_of_year w y) s.
Proof.
  intros Hw Hy. apply gives_local. intros p Hp Hfree. change (locally s p (weeks_of_year w y) Raw
    (return_unless g_date_valid_year y giving 0;;
     _ ← g_date_clear p 1;
     _ ← g_date_set_dmy p 1 1 y; x ← g_date_get_weekday p; if x =? w then mret 53 else
     _ ← g_date_set_dmy p 31 12 y; x ← g_date_get_weekday p; if x =? w then mret 53 else
     leap ← g_date_is_leap_year y;
     if leap : bool then
       _ ← g_date_set_dmy p 2 1 y; x ← g_date_get_weekday p; if x =? w then mret 53 else
       _ ← g_date_set_dmy p 30 12 y; x ← g_date_get_weekday p; if x =? w then mret 53 else mret 52
     else mret 52)).
  unfold g_date_valid_year, G_DATE_BAD_YEAR. destruct (Z.gtb_spec y 0); [|lia].
  eapply locally_bind.
  { apply clear_gives. unfold spec_clear, not_nil. rewrite decide_False by done.
    cbn [fails_if Nat.eqb clear_all]. by rewrite lookup_aput, aput_aput. }
  rewrite weeks_of_year_formula by done. generalize (number_jan y), (number_dec y). intros Hj Hd.
  apply locally_ask; [done..|by_real_day|lia|rewrite Hj; unfold weekday; case_match; div_lia|].
  rewrite Hj. intros Hw1. apply locally_ask; [done..|by_real_day|lia|rewrite Hd; unfold weekday; case_match; div_lia|].
  rewrite Hd. intros Hw2. eapply locally_bind; [apply leap_gives; lia|].
  destruct (leap y).
  - apply locally_ask; [done..|by_real_day|lia|rewrite Hj; unfold weekday; div_lia|]. rewrite Hj. intros Hw3.
    apply locally_ask; [done..|by_real_day|lia|rewrite Hd; unfold weekday; div_lia|]. rewrite Hd. intros Hw4.
    match goal with |- locally _ _ ?v _ _ => assert (Hv : v = 52) end.
    { unfold weekday in *. clear - Hw Hw1 Hw2 Hw3 Hw4. div_lia. }
    rewrite Hv. by apply locally_ret.
  - match goal with |- locally _ _ ?v _ _ => assert (Hv : v = 52) end.
    { unfold weekday in *. clear - Hw Hw1 Hw2. div_lia. }
    rewrite Hv. by apply locally_ret.
Qed.

End placement.

Definition spec_to_struct_tm (p : loc) (null_tm : bool) (s : astate) : option (option tm * astate) :=
  on_day p None s (fun n => fails_if null_tm None s (Some (Some (broken_down n), s))).

Lemma to_struct_tm_gives s p null_tm v s' :
  spec_to_struct_tm p null_tm s = Some (v, s') -> gives s (g_date_to_struct_tm p null_tm) v s'.
Proof.
  intros E. eapply gives_on_day; [exact E|]. intros n Ha E'. cbv beta in E'. unfold fails_if in E'.
  destruct null_tm; cbn [negb]; injection E' as <- <-; [apply gives_critical|]. clear E.
  intros h Hh. destruct (models_lookup h s p _ Hh Ha) as (Hp & d & Hd & Hr). pose proof Hr as (_ & Hn & _).
  rewrite (guard_dmy_day None _ p d n) by done. destruct (fill_dmy_rep n d Hr) as (Hr' & _ & Hfl & _).
  destruct (civil_fields _ _ Hfl) as (Hy & Hm & Hdd).
  assert (Hh' : models (put p (fill_dmy d) h) s) by (rewrite <- (aput_id p _ s Ha); by apply models_put).
  do 3 dstep. rewrite Hy, Hm, Hdd. clear Hh. revert Hh'. generalize (put p (fill_dmy d) h).
  eapply gives_bind; [by apply local_weekday_gives|].
  eapply gives_bind; [eapply get_day_of_year_gives; unfold reads; by rewrite (on_day_some _ _ _ _ n)|].
  cbv zeta. unfold broken_down. pose proof (day_of_year_range n ltac:(lia)) as Hdoy.
  assert (1 <= day_of_year n <= 366) by (case_match; lia). pose proof (weekday_range n).
  assert (Hs : forall x, - 2147483648 <= x < 2147483648 -> s32 x = x) by (intros; apply swrap_id; [lia|done]).
  rewrite u32_small, (Hs (day_of_year n - 1)) by lia.
  assert (Hw : (if weekday n =? 7 then 0 else weekday n) = weekday n mod 7).
  { destruct (Z.eqb_spec (weekday n) 7) as [->|]; [done|]. rewrite Z.mod_small by lia. done. }
  rewrite Hw. assert (0 <= weekday n mod 7 < 7) by (apply Z.mod_pos_bound; lia). rewrite Hs by lia. apply gives_ret.
Qed.
