(* ===== verification/DateScript.v ===== *)
(** The contract of dates: any sequence of calls acts as the machine of DateRep
    says, and what follows for validity, for moving by months, and for the
    errors. *)
From S2P Require Import Prelude Store Utf8Char Date DateCalendar DateRep DateOps DateArith DateCalls.

(** * Calls *)

Inductive date_call :=
  | CNew | CNewDmy (d m y : Z) | CNewJulian (j : Z) | CCopy (p : loc) | CFree (p : loc)
  | CValid (p : loc) | CValidDmy (d m y : Z) | CLeapYear (y : Z) | CDaysInMonth (m y : Z)
  | CWeekday (p : loc) | CMonth (p : loc) | CYear (p : loc) | CDay (p : loc) | CJulian (p : loc)
  | CDayOfYear (p : loc) | CMondayWeek (p : loc) | CSundayWeek (p : loc) | CIsoWeek (p : loc)
  | CMondayWeeks (y : Z) | CSundayWeeks (y : Z)
  | CIsFirst (p : loc) | CIsLast (p : loc) | CToTm (p : loc) (null_tm : bool)
  | CClear (p : loc) (n : nat) | CSetDmy (p : loc) (d m y : Z) | CSetJulian (p : loc) (j : Z)
  | CSetMonth (p : loc) (m : Z) | CSetDay (p : loc) (d : Z) | CSetYear (p : loc) (y : Z)
  | CSetTime (p : loc) (t : Z)
  | CAddDays (p : loc) (k : Z) | CSubtractDays (p : loc) (k : Z)
  | CAddMonths (p : loc) (k : Z) | CSubtractMonths (p : loc) (k : Z)
  | CAddYears (p : loc) (k : Z) | CSubtractYears (p : loc) (k : Z)
  | CCompare (p q : loc) | CDaysBetween (p q : loc) | CClamp (p lo hi : loc) | COrder (p q : loc).

Inductive value :=
  | VUnit (u : unit) | VBool (b : bool) | VNum (z : Z) | VPtr (p : loc) | VTm (t : option tm).

Definition as_value {A} (f : A -> value) (c : cmd Dates A) : cmd Dates value := x ← c; mret (f x).

Section script.
Context `{PlacementLaws} (localtime_r : Z -> tm).

Definition run_call (c : date_call) : cmd Dates value :=
  match c with
  | CNew => as_value VPtr g_date_new
  | CNewDmy d m y => as_value VPtr (g_date_new_dmy d m y)
  | CNewJulian j => as_value VPtr (g_date_new_julian j)
  | CCopy p => as_value VPtr (g_date_copy p)
  | CFree p => as_value VUnit (g_date_free p)
  | CValid p => as_value VBool (g_date_valid p)
  | CValidDmy d m y => as_value VBool (g_date_valid_dmy d m y)
  | CLeapYear y => as_value VBool (g_date_is_leap_year y)
  | CDaysInMonth m y => as_value VNum (g_date_get_days_in_month m y)
  | CWeekday p => as_value VNum (g_date_get_weekday p)
  | CMonth p => as_value VNum (g_date_get_month p)
  | CYear p => as_value VNum (g_date_get_year p)
  | CDay p => as_value VNum (g_date_get_day p)
  | CJulian p => as_value VNum (g_date_get_julian p)
  | CDayOfYear p => as_value VNum (g_date_get_day_of_year p)
  | CMondayWeek p => as_value VNum (g_date_get_monday_week_of_year p)
  | CSundayWeek p => as_value VNum (g_date_get_sunday_week_of_year p)
  | CIsoWeek p => as_value VNum (g_date_get_iso8601_week_of_year p)
  | CMondayWeeks y => as_value VNum (g_date_get_monday_weeks_in_year y)
  | CSundayWeeks y => as_value VNum (g_date_get_sunday_weeks_in_year y)
  | CIsFirst p => as_value VBool (g_date_is_first_of_month p)
  | CIsLast p => as_value VBool (g_date_is_last_of_month p)
  | CToTm p null_tm => as_value VTm (g_date_to_struct_tm p null_tm)
  | CClear p n => as_value VUnit (g_date_clear p n)
  | CSetDmy p d m y => as_value VUnit (g_date_set_dmy p d m y)
  | CSetJulian p j => as_value VUnit (g_date_set_julian p j)
  | CSetMonth p m => as_value VUnit (g_date_set_month p m)
  | CSetDay p d => as_value VUnit (g_date_set_day p d)
  | CSetYear p y => as_value VUnit (g_date_set_year p y)
  | CSetTime p t => as_value VUnit (g_date_set_time_t localtime_r p t)
  | CAddDays p k => as_value VUnit (g_date_add_days p k)
  | CSubtractDays p k => as_value VUnit (g_date_subtract_days p k)
  | CAddMonths p k => as_value VUnit (g_date_add_months p k)
  | CSubtractMonths p k => as_value VUnit (g_date_subtract_months p k)
  | CAddYears p k => as_value VUnit (g_date_add_years p k)
  | CSubtractYears p k => as_value VUnit (g_date_subtract_years p k)
  | CCompare p q => as_value VNum (g_date_compare p q)
  | CDaysBetween p q => as_value VNum (g_date_days_between p q)
  | CClamp p lo hi => as_value VUnit (g_date_clamp p lo hi)
  | COrder p q => as_value VUnit (g_date_order p q)
  end.

(** * The machine *)

Definition val {A} (f : A -> value) (r : option (A * astate)) : option (value * astate) :=
  '(x, s) ← r; Some (f x, s).

(** A new date at the free address [q]. *)
Definition creates (q : loc) (a : adate) (s : astate) : option (value * astate) := Some (VPtr q, aput q a s).

Definition spec_free (p : loc) (s : astate) : option (unit * astate) :=
  not_nil p tt s (match adates s !! p with Some _ => Some (tt, forget p s) | None => None end).

(** Weeks and lengths of a year that the type GDateYear holds. *)
Definition of_year (y : Z) (s : astate) (k : option (Z * astate)) : option (Z * astate) :=
  if decide (in_u 16 y) then fails_if (y =? 0) 0 s k else None.

(** What [c] does; [q] is the address a new date would get. *)
Definition spec_call (c : date_call) (q : loc) (s : astate) : option (value * astate) :=
  match c with
  | CNew => creates q (Incomplete (0, 0, 0)) s
  | CNewDmy d m y =>
      if decide (real_day (y, m, d)) then
        if decide (y <= 65535) then creates q (Day (number (y, m, d))) s else None
      else Some (VPtr NULL, warn 1 s)
  | CNewJulian j =>
      if decide (j = 0) then Some (VPtr NULL, warn 1 s)
      else if decide (1 <= j <= MAX_DAY) then creates q (Day j) s else None
  | CCopy p =>
      if decide (p = NULL) then Some (VPtr NULL, warn 1 s)
      else match adates s !! p with Some Raw | None => None | Some a => creates q a s end
  | CFree p => val VUnit (spec_free p s)
  | CValid p =>
      val VBool (not_nil p false s
        (match adates s !! p with
         | Some (Day _) => Some (true, s) | Some (Incomplete _) => Some (false, s) | _ => None end))
  | CValidDmy d m y => val VBool (Some (bool_decide (real_day (y, m, d)), s))
  | CLeapYear y => val VBool (if decide (1 <= y) then Some (leap y, s) else Some (false, warn 1 s))
  | CDaysInMonth m y =>
      val VNum (of_year y s
        (if decide (1 <= m <= 12) then Some (month_length y m, s) else Some (0, warn 1 s)))
  | CWeekday p => val VNum (reads p 0 weekday s)
  | CMonth p => val VNum (reads p 0 month_of s)
  | CYear p => val VNum (reads p 0 year_of s)
  | CDay p => val VNum (reads p 0 day_of s)
  | CJulian p => val VNum (reads p 0 id s)
  | CDayOfYear p => val VNum (reads p 0 day_of_year s)
  | CMondayWeek p => val VNum (reads p 0 (weeks_until 1) s)
  | CSundayWeek p => val VNum (reads p 0 (weeks_until 7) s)
  | CIsoWeek p => val VNum (reads p 0 iso_week s)
  | CMondayWeeks y => val VNum (of_year y s (Some (weeks_of_year 1 y, s)))
  | CSundayWeeks y => val VNum (of_year y s (Some (weeks_of_year 7 y, s)))
  | CIsFirst p => val VBool (reads p false (fun n => day_of n =? 1) s)
  | CIsLast p => val VBool (reads p false (fun n => day_of n =? last_of_month n) s)
  | CToTm p null_tm => val VTm (spec_to_struct_tm p null_tm s)
  | CClear p n => val VUnit (spec_clear p n s)
  | CSetDmy p d m y => val VUnit (spec_set_dmy p d m y s)
  | CSetJulian p j => val VUnit (spec_set_julian p j s)
  | CSetMonth p m => val VUnit (spec_set_month p m s)
  | CSetDay p d => val VUnit (spec_set_day p d s)
  | CSetYear p y => val VUnit (spec_set_year p y s)
  | CSetTime p t => val VUnit (spec_set_time p (localtime_r t) s)
  | CAddDays p k => val VUnit (spec_add_days p k s)
  | CSubtractDays p k => val VUnit (spec_subtract_days p k s)
  | CAddMonths p k => val VUnit (spec_add_months p k s)
  | CSubtractMonths p k => val VUnit (spec_subtract_months p k s)
  | CAddYears p k => val VUnit (spec_add_years p k s)
  | CSubtractYears p k => val VUnit (spec_subtract_years p k s)
  | CCompare p q' => val VNum (spec_compare p q' s)
  | CDaysBetween p q' => val VNum (spec_days_between p q' s)
  | CClamp p lo hi => val VUnit (spec_clamp p lo hi s)
  | COrder p q' => val VUnit (spec_order p q' s)
  end.

(** A free address for a new date. *)
Definition is_free (s : astate) (q : loc) : Prop := q <> NULL /\ adates s !! q = None.

(** * Clients

    A client is a program that makes calls and goes on from their results; so it
    can use the addresses of the dates it creates. *)
Inductive client := Stop | Then (c : date_call) (k : value -> client).

Fixpoint run_client (cl : client) : cmd Dates (list value) :=
  match cl with
  | Stop => mret []
  | Then c k => v ← run_call c; vs ← run_client (k v); mret (v :: vs)
  end.

(** The machine can run [cl] from [s], whatever addresses new dates get. *)
Fixpoint safe (cl : client) (s : astate) : Prop :=
  match cl with
  | Stop => True
  | Then c k => forall q, is_free s q -> exists v s1, spec_call c q s = Some (v, s1) /\ safe (k v) s1
  end.

(** A run of [cl] on the machine with results [vs]. *)
Inductive behaves : client -> astate -> list value -> astate -> Prop :=
  | behaves_stop s : behaves Stop s [] s
  | behaves_then c k s q v s1 vs s2 :
      is_free s q -> spec_call c q s = Some (v, s1) -> behaves (k v) s1 vs s2 ->
      behaves (Then c k) s (v :: vs) s2.

(** * Every call acts as specified *)

Lemma free_exists s : exists q, is_free s q.
Proof.
  exists (fresh (dom (adates s) ∪ {[NULL]})).
  pose proof (is_fresh (dom (adates s) ∪ {[NULL]})) as Hf. split; [set_solver|].
  apply not_elem_of_dom. set_solver.
Qed.

(** The outcome of a call: what the machine does for some free address. *)
Definition outcome (s : astate) (c : date_call) (v : value) (s1 : astate) : Prop :=
  exists q, is_free s q /\ spec_call c q s = Some (v, s1).

(** A call whose outcome does not depend on the address. *)
Lemma acts_fixed {A} s c (f : A -> value) op (r : option (A * astate)) :
  run_call c = as_value f op -> (forall q, spec_call c q s = val f r) ->
  (forall x s1, r = Some (x, s1) -> gives s op x s1) ->
  is_Some (val f r) -> acts s (run_call c) (outcome s c).
Proof.
  intros -> Hs Hop Hr. destruct r as [[x s1]|]; [|by destruct Hr].
  eapply gives_bind; [by apply Hop|]. apply acts_ret. destruct (free_exists s) as [q Hq].
  exists q. split; [done|]. by rewrite Hs.
Qed.

(** A call that makes a new date. *)
Lemma acts_new s c (op : cmd Dates loc) a :
  run_call c = as_value VPtr op -> (forall q, spec_call c q s = creates q a s) ->
  acts s op (fun p s' => p <> NULL /\ adates s !! p = None /\ s' = aput p a s) ->
  acts s (run_call c) (outcome s c).
Proof.
  intros -> Hs Hop. apply acts_bind. eapply acts_mono; [exact Hop|]. intros p s' (Hp & Hf & ->).
  apply acts_ret. exists p. split; [done|]. by rewrite Hs.
Qed.

(** ... or fails to. *)
Lemma acts_new_fails s c (op : cmd Dates loc) s1 :
  run_call c = as_value VPtr op -> (forall q, spec_call c q s = Some (VPtr NULL, s1)) ->
  gives s op NULL s1 -> acts s (run_call c) (outcome s c).
Proof.
  intros -> Hs Hop. eapply gives_bind; [exact Hop|]. apply acts_ret. destruct (free_exists s) as [q Hq].
  exists q. split; [done|]. by rewrite Hs.
Qed.

Lemma valid_gives s p v s' :
  not_nil p false s (match adates s !! p with
    | Some (Day _) => Some (true, s) | Some (Incomplete _) => Some (false, s) | _ => None end) = Some (v, s') ->
  gives s (g_date_valid p) v s'.
Proof.
  intros E. eapply gives_not_nil; [exact E|]. intros Hp E1 h Hh.
  destruct (adates s !! p) as [[n|x|]|] eqn:Ha; try done; injection E1 as <- <-;
    destruct (models_lookup h s p _ Hh Ha) as (_ & d & Hd & Hr); dstep; unfold rep in Hr.
  - destruct Hr as (_ & _ & Hv & _). destruct (julian d); [by eexists _, _, _|]. dstep. cbn in Hv. rewrite Hv.
    by eexists _, _, _.
  - destruct Hr as (_ & -> & Hm & _). dstep. rewrite Hm. by eexists _, _, _.
Qed.

Lemma free_gives s p v s' : spec_free p s = Some (v, s') -> gives s (g_date_free p) v s'.
Proof.
  intros E. eapply gives_not_nil; [exact E|]. intros Hp E1. destruct (adates s !! p) as [a|] eqn:Ha; [|done].
  injection E1 as <- <-. by eapply release_gives.
Qed.

Lemma of_year_gives s y k (op : cmd Dates Z) v s' :
  of_year y s k = Some (v, s') -> (y = 0 -> gives s op 0 (warn 1 s)) ->
  (1 <= y <= 65535 -> k = Some (v, s') -> gives s op v s') -> gives s op v s'.
Proof.
  unfold of_year, fails_if. destruct (decide (in_u 16 y)) as [Hy|]; [|done]. intros E H0' Hk.
  destruct (Z.eqb_spec y 0); [injection E as <- <-; auto|]. apply Hk; [bits_lia|done].
Qed.

Lemma weeks_of_year_gives s w y v s' :
  1 <= w <= 7 -> of_year y s (Some (weeks_of_year w y, s)) = Some (v, s') -> gives s (weeks_in_year w y) v s'.
Proof.
  intros Hw E. eapply of_year_gives; [exact E| |].
  - intros ->. apply gives_local. intros p Hp Hf. exists (warn 1 (aput p Raw s)).
    split; [apply gives_critical|]. split; [exists Raw; apply lookup_aput|]. rewrite warn_aput. by apply forget_aput.
  - intros Hy [= <- <-]. by apply weeks_in_year_gives.
Qed.
Lemma leap_year_gives s y v s' :
  (if decide (1 <= y) then Some (leap y, s) else Some (false, warn 1 s)) = Some (v, s') ->
  gives s (g_date_is_leap_year y) v s'.
Proof.
  destruct (decide (1 <= y)); intros [= <- <-]; [by apply leap_gives|].
  unfold g_date_is_leap_year, g_date_valid_year, G_DATE_BAD_YEAR.
  destruct (Z.gtb_spec y 0); [lia|]. apply gives_critical.
Qed.

Lemma days_in_month_call_gives s m y v s' :
  of_year y s (if decide (1 <= m <= 12) then Some (month_length y m, s) else Some (0, warn 1 s)) = Some (v, s') ->
  gives s (g_date_get_days_in_month m y) v s'.
Proof.
  intros E. eapply of_year_gives; [exact E| |].
  - intros ->. by apply days_in_month_gives.
  - intros Hy E1. apply days_in_month_gives; [|lia]. rewrite decide_False by lia. done.
Qed.

Lemma gives_any_valid_dmy s dd m y v s' :
  Some (bool_decide (real_day (y, m, dd)), s) = Some (v, s') -> gives s (g_date_valid_dmy dd m y) v s'.
Proof. intros [= <- <-]. apply gives_valid_dmy. Qed.

Create HintDb date_calls discriminated.
#[local] Hint Resolve free_gives valid_gives leap_year_gives days_in_month_call_gives gives_any_valid_dmy
  get_weekday_gives get_month_gives get_year_gives get_day_gives get_julian_gives get_day_of_year_gives
  monday_week_gives sunday_week_gives get_iso8601_week_gives is_first_gives is_last_gives to_struct_tm_gives
  clear_gives set_dmy_gives set_julian_gives set_month_gives set_day_gives set_year_gives set_time_gives
  add_days_gives subtract_days_gives add_months_gives subtract_months_gives add_years_gives
  subtract_years_gives compare_gives days_between_gives clamp_gives order_gives : date_calls.

Lemma call_acts s c : (forall q, is_free s q -> is_Some (spec_call c q s)) -> acts s (run_call c) (outcome s c).
Proof.
  intros Hs. destruct (free_exists s) as [q Hq]. specialize (Hs q Hq).
  destruct c;
    try (eapply acts_fixed; [reflexivity|intros; reflexivity|by eauto 2 with date_calls|exact Hs]).
  - by eapply acts_new, new_blank.
  - cbn [spec_call] in Hs. destruct (decide (real_day (y, m, d))) as [Hr|Hr].
    + destruct (decide (y <= 65535)); [|by destruct Hs].
      eapply acts_new; [reflexivity| |by apply new_dmy_acts]. intros q'. cbn [spec_call]. by rewrite !decide_True.
    + eapply acts_new_fails; [reflexivity| |by apply new_dmy_bad]. intros q'. cbn [spec_call]. by rewrite decide_False.
  - cbn [spec_call] in Hs. destruct (decide (j = 0)) as [->|Hj].
    + eapply acts_new_fails; [reflexivity|intros; reflexivity|]. apply gives_critical.
    + destruct (decide (1 <= j <= MAX_DAY)); [|by destruct Hs].
      eapply acts_new; [reflexivity| |by apply new_julian_acts]. intros q'. cbn [spec_call]. by rewrite decide_False, decide_True.
  - cbn [spec_call] in Hs. destruct (decide (p = NULL)) as [->|Hp].
    + eapply acts_new_fails; [reflexivity|intros; reflexivity|]. apply gives_critical.
    + destruct (adates s !! p) as [a|] eqn:Ha; [|by destruct Hs].
      assert (a <> Raw) by (intros ->; by destruct Hs).
      eapply acts_new; [reflexivity| |by apply copy_acts]. intros q'. cbn [spec_call]. rewrite decide_False, Ha by done.
      by destruct a.
  - eapply acts_fixed; [reflexivity|reflexivity|intros; by apply weeks_of_year_gives|exact Hs].
  - eapply acts_fixed; [reflexivity|reflexivity|intros; by apply weeks_of_year_gives|exact Hs].
Qed.

Lemma client_acts cl s :
  safe cl s -> acts s (run_client cl) (fun vs s' => behaves cl s vs s').
Proof.
  revert s. induction cl as [|c k IH]; intros s Hs; cbn [run_client].
  - apply acts_ret. constructor.
  - cbn in Hs. apply acts_bind. eapply acts_mono.
    { apply call_acts. intros q Hq. destruct (Hs q Hq) as (v & s1 & E & _). by exists (v, s1). }
    intros v s1 (q & Hq & E). destruct (Hs q Hq) as (v' & s1' & E' & Hk). rewrite E in E'. injection E' as <- <-.
    apply acts_bind. eapply acts_mono; [by apply IH|]. intros vs s2 Hb. apply acts_ret. by econstructor.
Qed.

(** C25: dates implement days: a client that calls the functions of gdate.c in
    any order, with results of calls as arguments, within the range of years
    1 to 65535, runs without touching memory that is not a date, without a
    failed assertion and without endless comparison, and its results, warnings
    and dates are those of the machine, where a valid date is the number of a day
    of the Gregorian calendar and nothing tells which of its representations are
    filled. *)
Theorem dates_refine cl s h :
  models h s -> safe cl s ->
  exists vs h' s', run_client cl h = Some (vs, h') /\ behaves cl s vs s' /\ models h' s'.
Proof. intros Hh Hs. destruct (client_acts cl s Hs h Hh) as (vs & h' & s' & E & Hm & Hb). eauto 6. Qed.
End script.

(** * An example

    Memory is found at the first address that is not in use, and holds ones. *)
#[export] Instance demo_placement : Placement := {|
  place h := fresh (dom (dates h) ∪ {[NULL]});
  garbage _ := mkGDate 1 true true 1 1 1;
|}.

#[export] Instance demo_placement_laws : PlacementLaws.
Proof.
  split; intros h.
  - apply not_elem_of_dom. pose proof (is_fresh (dom (dates h) ∪ {[NULL]})). cbn. set_solver.
  - pose proof (is_fresh (dom (dates h) ∪ {[NULL]})). cbn. set_solver.
  - by split.
Qed.

Definition demo_localtime (t : Z) : tm := mkTm (t / 86400 + 1) 0 70 4 0 0.

(** 31 January of year 4 as day, month and year, and day 1 as a number. *)
Definition demo_dates : Dates :=
  mkDates (<[1 := mkGDate 0 false true 31 1 4]> (<[2 := mkGDate 1 true false 0 0 0]> ∅)) 0.
Definition demo_state : astate := mkAstate (<[1 := Day 1126]> (<[2 := Day 1]> ∅)) 0.

Lemma demo_models : models demo_dates demo_state.
Proof.
  split; [done| |done]. intros p. cbn.
  destruct (decide (1 = p)) as [<-|H1]; [rewrite !lookup_insert_eq|rewrite !lookup_insert_ne by done].
  - vm_compute. repeat split; congruence || done.
  - destruct (decide (2 = p)) as [<-|H2]; [rewrite !lookup_insert_eq|by rewrite !lookup_insert_ne].
    vm_compute. repeat split; congruence || done.
Qed.

(** A month later, the comparison of the two, a week number, a failed move. *)
Definition demo_client : client :=
  Then (CAddMonths 1 1) (fun _ => Then (CDay 1) (fun _ => Then (CCompare 2 1) (fun _ =>
  Then (CMondayWeek 1) (fun _ => Then (CSubtractDays 2 5) (fun _ => Then (CCopy 2) (fun _ => Stop)))))).

Lemma demo_safe : safe demo_localtime demo_client demo_state.
Proof. do 6 (intros ? _; eexists _, _; split; [vm_compute; reflexivity|]). exact I. Qed.

Lemma dates_refine_witness :
  exists vs h' s', run_client demo_localtime demo_client demo_dates = Some (vs, h') /\
    behaves demo_localtime demo_client demo_state vs s' /\ models h' s'.
Proof. exact (dates_refine demo_localtime demo_client demo_state demo_dates demo_models demo_safe). Defined.

(** 29 February, in week 8, after day 1; day 1 can not move back. *)
Example demo_run :
  fst <$> run_client demo_localtime demo_client demo_dates =
  Some [VUnit tt; VNum 29; VNum (-1); VNum 8; VUnit tt; VPtr 3].
Proof. vm_compute. reflexivity. Qed.
