(* ===== verification/DateLaws.v ===== *)
(** What the contract of dates gives its users: conversions agree with the
    calendar, objects stay well-formed, moves can be undone, and what happens at
    the ends of the range, where the code does not look. *)
From S2P Require Import Prelude Store Utf8Char Date DateCalendar DateRep DateOps DateArith DateCalls DateScript.

(** * Conversions *)

(** C26: the formulas are the calendar: g_date_update_dmy computes the day that
    counting from 1 January of year 1 reaches, for every day number up to the end
    of year 65535, and g_date_update_julian computes, for every day that exists,
    the number at which counting reaches it; no machine integer overflows. *)
Theorem conversions_calendar p d h :
  p <> NULL -> dates h !! p = Some d -> fits d ->
  (julian d = true -> dmy d = false -> 1 <= julian_days d <= MAX_DAY ->
   exists d', g_date_update_dmy p h = Some (tt, put p d' h) /\
     dmy d' = true /\ fields d' = civil (julian_days d) /\ julian d' = true /\ julian_days d' = julian_days d) /\
  (dmy d = true -> julian d = false -> real_day (fields d) ->
   exists d', g_date_update_julian p h = Some (tt, put p d' h) /\
     julian d' = true /\ 1 <= julian_days d' <= MAX_DAY /\ civil (julian_days d') = fields d /\
     dmy d' = true /\ fields d' = fields d).
Proof.
  intros Hp Hd Hf. split.
  - intros Hj Hm Hn. exists (fill_dmy d). split; [by apply update_dmy_run|].
    destruct (fill_dmy_rep (julian_days d) d) as (Hr & Hm' & Hfl & Hj').
    { split; [done|]. rewrite Hj, Hm. by repeat split; try lia. }
    rewrite Hj', Hj. repeat split; try done. by apply Hr; rewrite Hj'.
  - intros Hm Hj Hr. exists (fill_julian d). split; [by apply update_julian_run|].
    pose proof (number_fits d Hf Hr) as Hn. unfold fill_julian. rewrite Hj, Hm.
    repeat split; try done; try apply Hn. by apply civil_number.
Qed.

(** * Well-formed objects *)

Record well_typed (d : GDate) : Prop := {
  typed_fits : fits d;
  typed_julian : julian d = true -> 1 <= julian_days d <= MAX_DAY;
  typed_dmy : dmy d = true -> real_day (fields d);
  typed_both : julian d = true -> dmy d = true -> civil (julian_days d) = fields d;
}.

Definition typed_store (h : Dates) : Prop :=
  dates h !! NULL = None /\ forall p d, dates h !! p = Some d -> well_typed d.

(** The abstract date of a well-typed object. *)
Definition abstract (d : GDate) : adate :=
  if julian d then Day (julian_days d) else if dmy d then Day (number (fields d)) else Incomplete (fields d).

Definition abstract_store (h : Dates) : astate := mkAstate (abstract <$> dates h) (criticals h).

Lemma abstract_rep d : well_typed d -> rep d (abstract d).
Proof.
  intros [Hf Hj Hm Hb]. unfold abstract. destruct (julian d) eqn:Ej.
  - split; [done|]. rewrite Ej. specialize (Hj eq_refl). repeat split; try lia. intros Em. symmetry. by apply Hb.
  - destruct (dmy d) eqn:Em.
    + specialize (Hm eq_refl). pose proof (number_fits d Hf Hm). split; [done|]. rewrite Ej, Em.
      repeat split; try lia. intros _. symmetry. by apply civil_number.
    + by repeat split; try apply Hf.
Qed.

Lemma rep_typed d a : rep d a -> a <> Raw -> well_typed d.
Proof.
  destruct a as [n|x|]; [| |done]; intros [Hf Hr] _.
  - destruct Hr as (Hn & Hv & Hj & Hm). split; [done|..].
    + intros Ej. by rewrite (Hj Ej).
    + intros Em. rewrite (Hm Em). apply civil_spec. lia.
    + intros Ej Em. by rewrite (Hj Ej), (Hm Em).
  - destruct Hr as (Hj & Hm & _). by split; [done|..]; rewrite ?Hj, ?Hm.
Qed.

Lemma abstract_models h : typed_store h -> models h (abstract_store h).
Proof.
  intros [H0 Ht]. split; [done| |done]. intros p. cbn. rewrite lookup_fmap.
  destruct (dates h !! p) as [d|] eqn:E; [|done]. by apply abstract_rep, (Ht p).
Qed.

(** The machine never makes raw memory. *)
Definition no_raw (s : astate) : Prop := forall p, adates s !! p <> Some Raw.

Lemma no_raw_aput p a s : no_raw s -> a <> Raw -> no_raw (aput p a s).
Proof.
  intros Hs Ha q. cbn. destruct (decide (p = q)) as [->|]; [rewrite lookup_insert_eq; congruence|].
  rewrite lookup_insert_ne by done. apply Hs.
Qed.

Lemma no_raw_warn k s : no_raw s -> no_raw (warn k s).
Proof. done. Qed.

Lemma no_raw_forget p s : no_raw s -> no_raw (forget p s).
Proof.
  intros Hs q. cbn. destruct (decide (p = q)) as [->|]; [by rewrite lookup_delete_eq|].
  rewrite lookup_delete_ne by done. apply Hs.
Qed.

Lemma no_raw_from_fields x : from_fields x <> Raw.
Proof. unfold from_fields. by case_match. Qed.

(** ... whatever it answers. *)
Definition keeps {A} (r : option (A * astate)) : Prop :=
  match r with Some (_, s) => no_raw s | None => True end.

Lemma keeps_val {A} (f : A -> value) r : keeps r -> keeps (val f r).
Proof. by destruct r as [[]|]. Qed.

Lemma keeps_on_day {A} p (bad : A) s f : no_raw s -> (forall n, keeps (f n)) -> keeps (on_day p bad s f).
Proof. intros Hs Hf. unfold on_day. repeat case_match; try done. Qed.

Lemma keeps_on_bound p s f : no_raw s -> (forall l, keeps (f l)) -> keeps (on_bound p s f).
Proof. intros Hs Hf. unfold on_bound. case_match; [done|]. by apply keeps_on_day. Qed.

Lemma keeps_not_nil {A} p (bad : A) s k : no_raw s -> keeps k -> keeps (not_nil p bad s k).
Proof. intros Hs Hk. unfold not_nil. by case_match. Qed.

Lemma keeps_fails_if {A} c (bad : A) s k : no_raw s -> keeps k -> keeps (fails_if c bad s k).
Proof. intros Hs Hk. unfold fails_if. by case_match. Qed.

Lemma keeps_becomes p a s : no_raw s -> a <> Raw -> keeps (becomes p a s).
Proof. intros Hs Ha. unfold becomes. case_match; [|done]. by apply no_raw_aput. Qed.

Lemma keeps_set_field p f s : no_raw s -> keeps (spec_set_field p f s).
Proof. intros Hs. unfold spec_set_field. repeat case_match; try done; apply no_raw_aput, no_raw_from_fields; done. Qed.

Lemma keeps_clear_all n p s : no_raw s -> keeps (clear_all p n s).
Proof.
  revert p s. induction n as [|n IH]; intros p s Hs; cbn; [done|].
  destruct (adates s !! p); [|done]. apply IH. by apply no_raw_aput.
Qed.

Lemma keeps_some {A} (x : A) s : no_raw s -> keeps (Some (x, s)).
Proof. done. Qed.

Create HintDb no_raw discriminated.
#[export] Hint Resolve no_raw_aput no_raw_warn no_raw_forget keeps_becomes keeps_set_field keeps_clear_all
  keeps_some : no_raw.
#[export] Hint Extern 1 (Day _ <> Raw) => discriminate : no_raw.
#[export] Hint Extern 1 (Incomplete _ <> Raw) => discriminate : no_raw.
#[export] Hint Extern 1 (_ <> Raw) => congruence : no_raw.

Ltac keeps_step :=
  first [ done | apply keeps_val | apply keeps_on_day | apply keeps_on_bound | apply keeps_not_nil
        | apply keeps_fails_if | solve [eauto 6 with no_raw] | match goal with |- forall _, keeps _ => intro end | case_match ].

Lemma keeps_call localtime_r c q s : no_raw s -> keeps (spec_call localtime_r c q s).
Proof.
  intros Hs. destruct c; cbn [spec_call]; unfold creates, spec_free, reads, spec_to_struct_tm, spec_clear,
    spec_set_dmy, spec_set_julian, spec_set_month, spec_set_day, spec_set_year, spec_set_time, of_year,
    spec_add_days, spec_subtract_days, spec_add_months, spec_subtract_months, spec_add_years, spec_subtract_years,
    spec_compare, spec_days_between, spec_order, spec_clamp; repeat keeps_step.
Qed.

Lemma no_raw_behaves localtime_r cl s vs s' : behaves localtime_r cl s vs s' -> no_raw s -> no_raw s'.
Proof.
  induction 1 as [|c k s q v s1 vs s2 _ E _ IH]; [done|]. intros Hs. apply IH.
  pose proof (keeps_call localtime_r c q s Hs) as Hk. by rewrite E in Hk.
Qed.

(** Objects stay dates: the calls of a safe client keep every GDate well-typed:
    its bit fields hold values of their widths, a day number that is marked valid is one of years
    1 to 65535, a day, month and year that are marked valid exist in the
    calendar, and when both are marked they are the same day. *)
Theorem dates_typed `{PlacementLaws} localtime_r cl h :
  typed_store h -> safe localtime_r cl (abstract_store h) ->
  exists vs h', run_client localtime_r cl h = Some (vs, h') /\ typed_store h'.
Proof.
  intros Ht Hs.
  destruct (client_acts localtime_r cl _ Hs h (abstract_models h Ht)) as (vs & h' & s' & E & Hm & Hb).
  exists vs, h'. split; [done|]. split; [apply Hm|]. intros p d Hd.
  assert (Hraw : no_raw s').
  { eapply no_raw_behaves; [exact Hb|]. intros q. cbn. rewrite lookup_fmap.
    destruct (dates h !! q) as [o|]; [|done]. cbn. unfold abstract. repeat case_match; done. }
  destruct Hm as [_ Hdm _]. specialize (Hdm p). rewrite Hd in Hdm.
  destruct (adates s' !! p) as [a|] eqn:Ha; [|done]. apply (rep_typed d a Hdm). intros ->. by apply (Hraw p).
Qed.

(** * Moving there and back *)

Lemma limited_early y m d : 1 <= y -> 1 <= m <= 12 -> 1 <= d <= 28 ->
  limited y m d = number (y, m, d) /\ real_day (y, m, d).
Proof.
  intros Hy Hm Hd. pose proof (month_length_bounds y m). unfold limited. rewrite Z.min_l by lia.
  by repeat split; try lia.
Qed.

Lemma parts_of_number y m d : real_day (y, m, d) ->
  year_of (number (y, m, d)) = y /\ month_of (number (y, m, d)) = m /\ day_of (number (y, m, d)) = d.
Proof. intros Hr. unfold year_of, month_of, day_of. by rewrite civil_number. Qed.

Lemma shift_months_back k n :
  0 <= k -> 1 <= n <= MAX_DAY -> day_of n <= 28 ->
  let m := shift_months k n in
  shift_months (- k) m = n /\ year_of m = shifted_year k n /\ k / 12 < year_of m /\ shifted_year (- k) m = year_of n.
Proof.
  intros Hk Hn Hd m. subst m. destruct (day_range n Hn) as (Hy & Hm & Hd1 & _).
  rewrite (shift_months_spec k n). cbv zeta. unfold shifted_year.
  set (total := 12 * year_of n + (month_of n - 1) + k).
  assert (Hb : 1 <= total / 12 /\ 1 <= total mod 12 + 1 <= 12 /\ k / 12 < total / 12)
    by (subst total; clear - Hk Hy Hm; div_lia).
  destruct Hb as (Hb1 & Hb2 & Hb3).
  destruct (limited_early (total / 12) (total mod 12 + 1) (day_of n)) as [-> Hr]; [lia..|].
  destruct (parts_of_number _ _ _ Hr) as (Ey & Em & Ed). rewrite (shift_months_spec (- k)). cbv zeta.
  rewrite Ey, Em, Ed.
  assert (Ht : 12 * (total / 12) + (total mod 12 + 1 - 1) + - k = 12 * year_of n + (month_of n - 1))
    by (subst total; clear; div_lia).
  rewrite Ht. clear - Hn Hy Hm Hd1 Hd Hb3.
  assert (Hq : (12 * year_of n + (month_of n - 1)) / 12 = year_of n /\
    (12 * year_of n + (month_of n - 1)) mod 12 + 1 = month_of n) by (clear - Hm; div_lia).
  destruct Hq as [-> ->]. destruct (limited_early (year_of n) (month_of n) (day_of n)) as [-> _]; [lia..|].
  rewrite <- civil_parts. destruct (civil_spec n) as [-> _]; [lia|]. done.
Qed.

Lemma shift_years_back k n :
  0 <= k -> 1 <= n <= MAX_DAY -> (month_of n = 2 -> day_of n <= 28) ->
  let m := shift_years k n in shift_years (- k) m = n /\ year_of m = year_of n + k.
Proof.
  intros Hk Hn Hd m. subst m. destruct (day_range n Hn) as (Hy & Hm & Hd1 & Hl). unfold last_of_month in Hl.
  assert (Hlen : forall y, day_of n <= month_length y (month_of n)).
  { intros y. revert Hl. unfold month_length. destruct (Z.eqb_spec (month_of n) 2) as [E|E]; [|done].
    specialize (Hd E). intros _. case_match; lia. }
  assert (Hlim : forall y, 1 <= y -> limited y (month_of n) (day_of n) = number (y, month_of n, day_of n) /\
    real_day (y, month_of n, day_of n)).
  { intros y Hy0. specialize (Hlen y). unfold limited. rewrite Z.min_l by done. by repeat split; try lia. }
  unfold shift_years at 2 3. rewrite (civil_parts n).
  destruct (Hlim (year_of n + k)) as [-> Hr]; [lia|]. destruct (parts_of_number _ _ _ Hr) as (Ey & Em & Ed).
  unfold shift_years. rewrite civil_number by done. replace (year_of n + k + - k) with (year_of n) by lia.
  destruct (Hlim (year_of n)) as [-> _]; [lia|]. rewrite <- civil_parts.
  destruct (civil_spec n) as [-> _]; [lia|]. done.
Qed.

(** Moves can be undone: g_date_subtract_days takes back g_date_add_days,
    g_date_subtract_months takes back g_date_add_months for the days up to the
    28th, and g_date_subtract_years takes back g_date_add_years for all days but
    29 February, by any distance that stays within the range of years. *)
Theorem moves_undone s p n k :
  p <> NULL -> adates s !! p = Some (Day n) -> 1 <= n <= MAX_DAY -> 0 <= k ->
  (n + k <= MAX_DAY -> gives s (_ ← g_date_add_days p k; g_date_subtract_days p k) tt s) /\
  (shifted_year k n <= 65535 -> day_of n <= 28 ->
   gives s (_ ← g_date_add_months p k; g_date_subtract_months p k) tt s) /\
  (year_of n + k <= 65535 -> (month_of n = 2 -> day_of n <= 28) ->
   gives s (_ ← g_date_add_years p k; g_date_subtract_years p k) tt s).
Proof.
  intros Hp Ha Hn Hk. assert (Hback : aput p (Day n) s = s) by by apply aput_id.
  repeat split; intros.
  - eapply gives_bind; [apply add_days_gives; unfold spec_add_days; rewrite (on_day_some _ _ _ _ n) by done;
      by rewrite decide_True|].
    apply subtract_days_gives. unfold spec_subtract_days.
    rewrite (on_day_some _ _ _ _ (n + k)) by (done || apply lookup_aput).
    rewrite !decide_True by lia. rewrite aput_aput. replace (n + k - k) with n by lia. by rewrite Hback.
  - destruct (shift_months_back k n) as (Hb & Hy & Hlt & Hs); [done..|].
    eapply gives_bind; [apply add_months_gives; unfold spec_add_months; rewrite (on_day_some _ _ _ _ n) by done;
      by rewrite decide_True|].
    apply subtract_months_gives. unfold spec_subtract_months.
    rewrite (on_day_some _ _ _ _ (shift_months k n)) by (done || apply lookup_aput).
    pose proof (day_range n Hn). rewrite decide_True, decide_False, decide_True by lia.
    by rewrite aput_aput, Hb, Hback.
  - destruct (shift_years_back k n) as (Hb & Hy); [done..|].
    eapply gives_bind; [apply add_years_gives; unfold spec_add_years; rewrite (on_day_some _ _ _ _ n) by done;
      by rewrite decide_True|].
    apply subtract_years_gives. unfold spec_subtract_years.
    rewrite (on_day_some _ _ _ _ (shift_years k n)) by (done || apply lookup_aput).
    pose proof (day_range n Hn). rewrite !decide_True by lia. by rewrite aput_aput, Hb, Hback.
Qed.

(** * The ends of the range *)

(** The object reads as a valid date, but is not one. *)
Definition lies (d : GDate) : Prop :=
  julian d || dmy d = true /\ forall n, ~ rep d (Day n).

Lemma year_zero_lies d : dmy d = true -> year d = 0 -> lies d.
Proof.
  intros Hm Hy. split; [by rewrite Hm, orb_true_r|]. intros n (_ & Hn & _ & _ & Hf). specialize (Hf Hm).
  destruct (civil_spec n) as [_ Hr]; [lia|]. rewrite <- Hf in Hr. destruct Hr as [Hr _]. lia.
Qed.

Lemma leap_zero_bind {B} h (k : bool -> cmd Dates B) :
  mbind k (g_date_is_leap_year 0) h = k false (warned 1 h).
Proof. done. Qed.

Lemma limit_day_zero p d h :
  p <> NULL -> fits d -> dmy d = true -> year d = 0 -> 1 <= month d <= 12 ->
  exists d', limit_day p (put p d h) = Some (tt, put p d' (warned 1 h)) /\ dmy d' = true /\ year d' = 0.
Proof.
  intros Hp Hf Hm Hy Hmo. unfold limit_day. dstep. rewrite Hy, leap_zero_bind.
  change (warned 1 (put p d h)) with (put p d (warned 1 h)). repeat dstep.
  assert (Ht : exists l, array_get (days_in_months false) (month d) = Some l).
  { by_month (month d); by eexists. }
  destruct Ht as [l Hl]. rewrite (table_run _ _ _ _ _ Hl).
  exists (with_julian false (if day d >? l then with_day l d else d)).
  destruct (day d >? l); repeat dstep; (split; [|done]);
    erewrite run_bind by (apply valid_run; [done|apply lookup_put]); cbn [dmy julian with_julian with_day orb];
    by rewrite Hm.
Qed.

(** C27: unchecked ends of the range: a subtraction of months that leads into
    the December, or any month, before year 1, an addition of years that leads
    to year 65536, and the addition of 2^32 - n days to day n, all leave an object
    that g_date_valid calls valid though it is no day; the check
    g_date_valid at the end of g_date_subtract_months can not fail. *)
Theorem ends_unchecked p d n h k :
  p <> NULL -> dates h !! p = Some d -> rep d (Day n) -> 0 <= k ->
  (k / 12 < year_of n -> shifted_year (- k) n <= 0 ->
   exists d', g_date_subtract_months p k h = Some (tt, put p d' (warned 1 h)) /\ lies d') /\
  (exists d' w, g_date_add_years p (65536 - year_of n) h = Some (tt, put p d' (warned w h)) /\ lies d') /\
  (exists d', g_date_add_days p (2 ^ 32 - n) h = Some (tt, put p d' h) /\ lies d').
Proof.
  intros Hp Hd Hr Hk. pose proof Hr as (_ & Hn & _). destruct (day_range n Hn) as (Hy & Hm & Hdd & _).
  destruct (fill_dmy_rep n d Hr) as ([Hf _] & Hdm & Hfl & _).
  destruct (civil_fields _ _ Hfl) as (Ey & Em & Ed). pose proof (lookup_put p (fill_dmy d) h) as Hlk.
  split; [|split].
  - intros Hlt Hz. unfold shifted_year in Hz.
    assert (Hq : year_of n - k / 12 = 1 /\ month_of n <= k mod 12 < 12) by (clear - Hlt Hz Hk Hy Hm; div_lia).
    destruct Hq as [Hq1 Hq2]. unfold g_date_subtract_months.
    match goal with |- context [mbind (fun v => if v then ?K else _) (g_date_valid p) h] =>
      change (exists d', guard_valid tt K p h = Some (tt, put p d' (warned 1 h)) /\ lies d') end.
    rewrite (guard_valid_day tt _ p d n) by done. rewrite (guard_dmy_day tt _ p d n) by done. cbv zeta.
    dstep. rewrite Ey. destruct (Z.gtb_spec (year_of n) (k / 12)); [|lia]. dstep. dstep.
    cbn [month with_year]. rewrite Em. destruct (Z.gtb_spec (month_of n) (k mod 12)); [lia|].
    rewrite (u32_small (k mod 12 - month_of n)), (u32_small (12 - _)) by lia.
    rewrite run_assoc. dstep. rewrite run_assoc. repeat dstep. cbn [year with_month with_year].
    rewrite Hq1. change (u16 1 - 1) with 0.
    match goal with |- context [limit_day p (put p ?o h)] =>
      destruct (limit_day_zero p o h) as (d' & -> & Hm' & Hy') end; [done|auto with c_date|done|done| |].
    + cbn. rewrite wrap_id by bits_lia. lia.
    + exists d'. split; [done|]. by apply year_zero_lies.
  - unfold g_date_add_years.
    match goal with |- context [mbind (fun v => if v then ?K else _) (g_date_valid p) h] =>
      change (exists d' w, guard_valid tt K p h = Some (tt, put p d' (warned w h)) /\ lies d') end.
    rewrite (guard_valid_day tt _ p d n) by done. rewrite (guard_dmy_day tt _ p d n) by done.
    repeat dstep. rewrite Ey. replace (year_of n + (65536 - year_of n)) with 65536 by lia.
    unfold leave_leap_day. do 2 dstep. cbn [month day with_year]. destruct ((_ =? 2) && _).
    + rewrite run_assoc. dstep. change (year (with_year 65536 (fill_dmy d))) with 0.
      rewrite run_assoc, leap_zero_bind. cbn [negb].
      change (warned 1 (put p ?o h)) with (put p o (warned 1 h)). repeat dstep.
      eexists _, 1%nat. split; [done|]. by apply year_zero_lies.
    + repeat dstep. eexists _, 0%nat. split; [done|]. by apply year_zero_lies.
  - unfold g_date_add_days.
    match goal with |- context [mbind (fun v => if v then ?K else _) (g_date_valid p) h] =>
      change (exists d', guard_valid tt K p h = Some (tt, put p d' h) /\ lies d') end.
    rewrite (guard_valid_day tt _ p d n) by done. rewrite (guard_julian_day tt _ p d n) by done.
    destruct (fill_julian_rep n d Hr) as (_ & Hj & Hjd & _).
    repeat dstep. rewrite Hjd. eexists. split; [done|]. split; [cbn; by rewrite Hj|].
    intros m (_ & Hm' & _ & Hj' & _). cbn in Hj'. specialize (Hj' Hj).
    replace (n + (2 ^ 32 - n)) with (2 ^ 32) in Hj' by lia. change (u32 (2 ^ 32)) with 0 in Hj'. lia.
Qed.

(** * Examples *)

Lemma demo_typed : typed_store demo_dates.
Proof.
  split; [done|]. intros p d Hd. unfold demo_dates in Hd. cbn [dates] in Hd.
  rewrite !lookup_insert_Some, lookup_empty in Hd. destruct Hd as [[<- <-]|[_ [[<- <-]|[_ ?]]]]; [| |done].
  - split; [by split|done| |done]. intros _. by vm_compute.
  - by split; [split| | |].
Qed.

Lemma demo_abstract : abstract_store demo_dates = demo_state.
Proof. by vm_compute. Qed.

Lemma dates_typed_witness :
  exists vs h', run_client demo_localtime demo_client demo_dates = Some (vs, h') /\ typed_store h'.
Proof.
  refine (dates_typed demo_localtime demo_client demo_dates demo_typed _).
  rewrite demo_abstract. exact (demo_safe).
Defined.

Lemma conversions_calendar_witness :
  exists d', g_date_update_julian 1 demo_dates = Some (tt, put 1 d' demo_dates) /\ civil (julian_days d') = (4, 1, 31).
Proof.
  destruct (conversions_calendar 1 (mkGDate 0 false true 31 1 4) demo_dates) as [_ H].
  - discriminate.
  - reflexivity.
  - split; (split; [discriminate|reflexivity]).
  - destruct H as (d' & E & _ & _ & Hc & _); [reflexivity|reflexivity|vm_compute; intuition discriminate|].
    exists d'. split; [exact E|exact Hc].
Defined.

Lemma moves_undone_witness :
  gives demo_state (_ ← g_date_add_years 1 2000; g_date_subtract_years 1 2000) tt demo_state.
Proof.
  apply (moves_undone demo_state 1 1126 2000).
  - discriminate.
  - reflexivity.
  - split; discriminate.
  - discriminate.
  - vm_compute. discriminate.
  - vm_compute. discriminate.
Defined.

(** A month before 31 January of year 4, four times. *)
Lemma ends_unchecked_witness :
  exists d', g_date_subtract_months 1 47 demo_dates = Some (tt, put 1 d' (warned 1 demo_dates)) /\ lies d'.
Proof.
  refine (proj1 (ends_unchecked 1 (mkGDate 0 false true 31 1 4) 1126 demo_dates 47 _ _ _ _) _ _).
  - discriminate.
  - reflexivity.
  - vm_compute. repeat split; congruence || done.
  - discriminate.
  - vm_compute. reflexivity.
  - vm_compute. discriminate.
Defined.
