(* ===== verification/Tree.v ===== *)
(** The balanced tree of src/glib-2.56.1/glib/gtree.c: an AVL tree whose nodes
    use their free child pointers as threads to the nodes before and behind.

    A store holds the nodes and the tree object. Keys and values are numbers;
    the comparison and the functions given to traversals are pure, and the calls
    of the destroy functions are listed. Mirrored branches of the code are one
    definition with a side; [NULL] is the address 0. *)
From S2P Require Import Prelude Store.

Open Scope c_scope.

(** * Data *)

Abbreviation s8 := (swrap 8).

Definition MAX_GTREE_HEIGHT : nat := 40.

(** struct _GTreeNode *)
Record GTreeNode := mkNode {
  key : Z;
  value : Z;
  left : loc;
  right : loc;
  balance : Z;
  left_child : bool;
  right_child : bool;
}.

(** struct _GTree; of the destroy functions, whether they are set. *)
Record GTree := mkTree {
  root : loc;
  key_compare : Z -> Z -> Z;
  key_destroy_func : bool;
  value_destroy_func : bool;
  nnodes : Z;
  ref_count : Z;
}.

(** A call of a destroy function. *)
Inductive destroyed := KeyDestroyed (key : Z) | ValueDestroyed (value : Z).

(** The store: the nodes, the tree object until it is freed, and the calls of
    destroy functions so far. *)
Record World := mkWorld {
  nodes : gmap loc GTreeNode;
  tree : option GTree;
  calls : list destroyed;
}.

#[export] Instance world_mem : HasMem World GTreeNode := {|
  mem_of := nodes;
  set_mem m w := mkWorld m (tree w) (calls w);
  mem_of_set_mem m w := eq_refl;
|}.

(** The sides of a node, and the assignments to its fields. *)
Inductive side := Left | Right.

#[export] Instance side_eq_dec : EqDecision side.
Proof. solve_decision. Defined.

Definition opp (d : side) : side := match d with Left => Right | Right => Left end.
Definition link (d : side) : GTreeNode -> loc := match d with Left => left | Right => right end.
Definition has_child (d : side) : GTreeNode -> bool := match d with Left => left_child | Right => right_child end.

Definition set_key (v : Z) (n : GTreeNode) : GTreeNode :=
  mkNode v (value n) (left n) (right n) (balance n) (left_child n) (right_child n).
Definition set_value (v : Z) (n : GTreeNode) : GTreeNode :=
  mkNode (key n) v (left n) (right n) (balance n) (left_child n) (right_child n).
Definition set_link (d : side) (p : loc) (n : GTreeNode) : GTreeNode :=
  match d with
  | Left => mkNode (key n) (value n) p (right n) (balance n) (left_child n) (right_child n)
  | Right => mkNode (key n) (value n) (left n) p (balance n) (left_child n) (right_child n)
  end.
Definition set_has_child (d : side) (b : bool) (n : GTreeNode) : GTreeNode :=
  match d with
  | Left => mkNode (key n) (value n) (left n) (right n) (balance n) b (right_child n)
  | Right => mkNode (key n) (value n) (left n) (right n) (balance n) (left_child n) b
  end.
(** Assignments to a gint8 *)
Definition set_balance (b : Z) (n : GTreeNode) : GTreeNode :=
  mkNode (key n) (value n) (left n) (right n) (s8 b) (left_child n) (right_child n).
Definition add_balance (b : Z) (n : GTreeNode) : GTreeNode := set_balance (balance n + b) n.

(** What a longer subtree on a side adds to the balance. *)
Definition weight (d : side) : Z := match d with Left => -1 | Right => 1 end.

(** Fields of the tree object; [fault] when it has been freed. *)
Definition tr {A} (f : GTree -> A) : cmd World A :=
  fun w => match tree w with Some t => Some (f t, w) | None => None end.
Definition set_tree (f : GTree -> GTree) : cmd World unit :=
  fun w => match tree w with Some t => Some (tt, mkWorld (nodes w) (Some (f t)) (calls w)) | None => None end.
Definition with_root (p : loc) (t : GTree) : GTree :=
  mkTree p (key_compare t) (key_destroy_func t) (value_destroy_func t) (nnodes t) (ref_count t).
Definition with_nnodes (n : Z) (t : GTree) : GTree :=
  mkTree (root t) (key_compare t) (key_destroy_func t) (value_destroy_func t) (u32 n) (ref_count t).
Definition with_ref_count (n : Z) (t : GTree) : GTree :=
  mkTree (root t) (key_compare t) (key_destroy_func t) (value_destroy_func t) (nnodes t) (s32 n).

Definition record_call (e : destroyed) : cmd World unit :=
  fun w => Some (tt, mkWorld (nodes w) (tree w) (calls w ++ [e])).
(** if (tree->key_destroy_func) tree->key_destroy_func (key) *)
Definition destroy_key (k : Z) : cmd World unit :=
  f ← tr key_destroy_func; if f : bool then record_call (KeyDestroyed k) else mret tt.
Definition destroy_value (v : Z) : cmd World unit :=
  f ← tr value_destroy_func; if f : bool then record_call (ValueDestroyed v) else mret tt.

(** tree->key_compare (key, node->key, tree->key_compare_data) *)
Definition compare (k : Z) (node : loc) : cmd World Z :=
  cmp ← tr key_compare; nk ← rd key node; mret (cmp k nk).

(** Bounds for loops along the nodes *)
Definition budget : cmd World nat := fun w => Some (S (size (nodes w)), w).

(** Where g_slice_new finds memory for a node. *)
Class Slices := new_slice : gmap loc GTreeNode -> loc.

Definition g_slice_new `{Slices} (n : GTreeNode) : cmd World loc :=
  fun w => let p := new_slice (nodes w) in Some (p, mkWorld (<[p := n]> (nodes w)) (tree w) (calls w)).
Definition g_slice_free (p : loc) : cmd World unit :=
  fun w => match nodes w !! p with
           | Some _ => Some (tt, mkWorld (delete p (nodes w)) (tree w) (calls w))
           | None => None
           end.

(** g_assert stops the program. *)
Definition g_assert (c : bool) : cmd World unit := if c then mret tt else fault.

Definition g_tree_node_new `{Slices} (k v : Z) : cmd World loc := g_slice_new (mkNode k v NULL NULL 0 false false).

(** * Creation *)

Definition g_tree_new_full (cmp : Z -> Z -> Z) (key_destroy value_destroy : bool) : cmd World unit :=
  fun w => Some (tt, mkWorld (nodes w) (Some (mkTree NULL cmp key_destroy value_destroy 0 1)) (calls w)).
Definition g_tree_new (cmp : Z -> Z -> Z) : cmd World unit := g_tree_new_full cmp false false.
Definition g_tree_new_with_data (cmp : Z -> Z -> Z) : cmd World unit := g_tree_new_full cmp false false.

(** * Walking along the nodes *)

(** while (tmp->child) tmp = tmp->link, towards one side *)
Definition walk (d : side) (tmp : loc) : cmd World loc :=
  n ← budget;
  loop n (fun tmp =>
    c ← rd (has_child d) tmp;
    if c : bool then p ← rd (link d) tmp; mret (inl p) else mret (inr tmp)) tmp.

Definition g_tree_first_node : cmd World loc :=
  r ← tr root;
  if decide (r = NULL) then mret NULL else walk Left r.

(** g_tree_node_previous and g_tree_node_next *)
Definition node_neighbour (d : side) (node : loc) : cmd World loc :=
  tmp ← rd (link d) node;
  c ← rd (has_child d) node;
  if c : bool then walk (opp d) tmp else mret tmp.
Definition g_tree_node_previous : loc -> cmd World loc := node_neighbour Left.
Definition g_tree_node_next : loc -> cmd World loc := node_neighbour Right.

(** * Rotations *)

(** The balances of [node] and of the child that takes its place, from [a_bal]
    and [b_bal]: first that of the child. *)
Definition left_balances (a_bal b_bal : Z) : Z * Z :=
  if b_bal <=? 0 then (if a_bal >=? 1 then b_bal - 1 else a_bal + b_bal - 2, a_bal - 1)
  else (if a_bal <=? b_bal then a_bal - 2 else b_bal - 1, a_bal - b_bal - 1).
Definition right_balances (a_bal b_bal : Z) : Z * Z :=
  if b_bal <=? 0 then (if b_bal >? a_bal then b_bal + 1 else a_bal + 2, a_bal - b_bal + 1)
  else (if a_bal <=? -1 then b_bal + 1 else a_bal + b_bal + 2, a_bal + 1).

(** The child on side [d] takes the place of [node]. *)
Definition rotate (d : side) (balances : Z -> Z -> Z * Z) (node : loc) : cmd World loc :=
  child ← rd (link d) node;
  c ← rd (has_child (opp d)) child;
  _ ← (if c : bool then inner ← rd (link (opp d)) child; wr (set_link d inner) node
       else _ ← wr (set_has_child d false) node; wr (set_has_child (opp d) true) child);
  _ ← wr (set_link (opp d) node) child;
  a_bal ← rd balance node;
  b_bal ← rd balance child;
  let '(child_bal, node_bal) := balances a_bal b_bal in
  _ ← wr (set_balance child_bal) child;
  _ ← wr (set_balance node_bal) node;
  mret child.
Definition g_tree_node_rotate_left : loc -> cmd World loc := rotate Right left_balances.
Definition g_tree_node_rotate_right : loc -> cmd World loc := rotate Left right_balances.

Definition g_tree_node_balance (node : loc) : cmd World loc :=
  b ← rd balance node;
  if b <? -1 then
    l ← rd left node;
    lb ← rd balance l;
    _ ← (if lb >? 0 then l ← g_tree_node_rotate_left l; wr (set_link Left l) node else mret tt);
    g_tree_node_rotate_right node
  else if b >? 1 then
    r ← rd right node;
    rb ← rd balance r;
    _ ← (if rb <? 0 then r ← g_tree_node_rotate_right r; wr (set_link Right r) node else mret tt);
    g_tree_node_rotate_left node
  else mret node.

(** * The path to a node *)

(** GTreeNode *path[MAX_GTREE_HEIGHT], at first without contents; a read of an
    element without contents or an access outside is an error. *)
Definition new_path : list (option loc) := replicate MAX_GTREE_HEIGHT None.
Definition path_put (path : list (option loc)) (idx : Z) (p : loc) : cmd World (list (option loc)) :=
  match array_set path idx (Some p) with Some path => mret path | None => fault end.
Definition path_get (path : list (option loc)) (idx : Z) : cmd World loc :=
  match array_get path idx with Some (Some p) => mret p | _ => fault end.

Definition side_of (cmp : Z) : side := if cmp <? 0 then Left else Right.

(** bparent && node == bparent->left, with the assertion behind it *)
Definition is_left_node (bparent node : loc) : cmd World bool :=
  if decide (bparent = NULL) then mret false
  else
    l ← rd left bparent;
    r ← rd right bparent;
    _ ← g_assert (bool_decide (l = node) || bool_decide (r = node));
    mret (bool_decide (node = l)).

(** tree->root, bparent->left or bparent->right is set to [node]. *)
Definition replace_child (bparent : loc) (left_node : bool) (node : loc) : cmd World unit :=
  if decide (bparent = NULL) then set_tree (with_root node)
  else wr (set_link (if left_node then Left else Right) node) bparent.

(** The loop that restores the balance after an insertion ([grown]) or a
    removal, from path[idx] to the root *)
Definition restore_balance (grown : bool) (path : list (option loc)) (idx : Z) (node : loc) : cmd World unit :=
  loop (S MAX_GTREE_HEIGHT) (fun '(idx, node) =>
    let idx := idx - 1 in
    bparent ← path_get path idx;
    left_node ← is_left_node bparent node;
    b ← rd balance node;
    node ← (if (b <? -1) || (b >? 1)
            then node ← g_tree_node_balance node; _ ← replace_child bparent left_node node; mret node
            else mret node);
    b ← rd balance node;
    if (if grown then b =? 0 else negb (b =? 0)) || bool_decide (bparent = NULL) then mret (inr tt)
    else
      let w := weight (if left_node : bool then Left else Right) in
      _ ← wr (add_balance (if grown then w else - w)) bparent;
      mret (inl (idx, bparent))) (idx, node).

(** * Insertion *)

(** The branch of an equal key *)
Definition replace_entry (node k v : loc) (replace : bool) : cmd World unit :=
  old ← rd value node;
  _ ← destroy_value old;
  _ ← wr (set_value v) node;
  if replace then
    old ← rd key node;
    _ ← destroy_key old;
    wr (set_key k) node
  else destroy_key k.

(** A new node on side [d] of [node], which has no child there *)
Definition attach `{Slices} (d : side) (node k v : loc) : cmd World unit :=
  child ← g_tree_node_new k v;
  thread ← rd (link d) node;
  _ ← wr (set_link d thread) child;
  _ ← wr (set_link (opp d) node) child;
  _ ← wr (set_link d child) node;
  _ ← wr (set_has_child d true) node;
  _ ← wr (add_balance (weight d)) node;
  n ← tr nnodes;
  set_tree (with_nnodes (n + 1)).

(** The first loop; [None] is the return after a replacement, otherwise the node
    that has got a child. *)
Definition insert_descend `{Slices} (k v : Z) (replace : bool) (path : list (option loc)) (idx : Z) (node : loc) :
    cmd World (option (list (option loc) * Z * loc)) :=
  loop (S MAX_GTREE_HEIGHT) (fun '(path, idx, node) =>
    cmp ← compare k node;
    if cmp =? 0 then _ ← replace_entry node k v replace; mret (inr None)
    else
      let d := side_of cmp in
      c ← rd (has_child d) node;
      if c : bool then
        path ← path_put path idx node;
        next ← rd (link d) node;
        mret (inl (path, idx + 1, next))
      else
        _ ← attach d node k v;
        mret (inr (Some (path, idx, node)))) (path, idx, node).

Definition g_tree_insert_internal `{Slices} (k v : Z) (replace : bool) : cmd World unit :=
  r ← tr root;
  if decide (r = NULL) then
    p ← g_tree_node_new k v;
    _ ← set_tree (with_root p);
    n ← tr nnodes;
    set_tree (with_nnodes (n + 1))
  else
    path ← path_put new_path 0 NULL;
    found ← insert_descend k v replace path 1 r;
    match found with
    | None => mret tt
    | Some (path, idx, node) => restore_balance true path idx node
    end.
Definition g_tree_insert `{Slices} (k v : Z) : cmd World unit := g_tree_insert_internal k v false.
Definition g_tree_replace `{Slices} (k v : Z) : cmd World unit := g_tree_insert_internal k v true.

(** * Removal *)

(** The first loop; [None] is return FALSE. *)
Definition remove_descend (k : Z) (path : list (option loc)) (idx : Z) (node : loc) :
    cmd World (option (list (option loc) * Z * loc)) :=
  loop (S MAX_GTREE_HEIGHT) (fun '(path, idx, node) =>
    cmp ← compare k node;
    if cmp =? 0 then mret (inr (Some (path, idx, node)))
    else
      let d := side_of cmp in
      c ← rd (has_child d) node;
      if negb c then mret (inr None)
      else
        path ← path_put path idx node;
        next ← rd (link d) node;
        mret (inl (path, idx + 1, next))) (path, idx, node).

(** A subtree of [parent] has got shorter. *)
Definition shorten (parent : loc) (left_node : bool) : cmd World unit :=
  wr (add_balance (- weight (if left_node then Left else Right))) parent.

(** [node] has no child. *)
Definition unlink_leaf (parent : loc) (left_node : bool) (node : loc) : cmd World unit :=
  if decide (parent = NULL) then set_tree (with_root NULL)
  else
    let d := if left_node then Left else Right in
    _ ← wr (set_has_child d false) parent;
    thread ← rd (link d) node;
    _ ← wr (set_link d thread) parent;
    shorten parent left_node.

(** [node] has a child on side [d] only. *)
Definition unlink_single (d : side) (parent : loc) (left_node : bool) (node : loc) : cmd World unit :=
  tmp ← node_neighbour d node;
  thread ← rd (link (opp d)) node;
  _ ← wr (set_link (opp d) thread) tmp;
  child ← rd (link d) node;
  _ ← replace_child parent left_node child;
  if decide (parent = NULL) then mret tt else shorten parent left_node.

(** The search for the next node: path, idx, nextp and next. *)
Definition find_next (path : list (option loc)) (idx : Z) (nextp next : loc) :
    cmd World (list (option loc) * Z * loc * loc) :=
  loop (S MAX_GTREE_HEIGHT) (fun '(path, idx, nextp, next) =>
    c ← rd left_child next;
    if c : bool then
      path ← path_put path (idx + 1) next;
      next' ← rd left next;
      mret (inl (path, idx + 1, next, next'))
    else mret (inr (path, idx, nextp, next))) (path, idx, nextp, next).

(** remove 'next' from the tree *)
Definition take_out_next (node nextp next : loc) : cmd World unit :=
  if negb (bool_decide (nextp = node)) then
    c ← rd right_child next;
    _ ← (if c : bool then r ← rd right next; wr (set_link Left r) nextp
         else wr (set_has_child Left false) nextp);
    _ ← wr (add_balance 1) nextp;
    _ ← wr (set_has_child Right true) next;
    r ← rd right node;
    wr (set_link Right r) next
  else wr (add_balance (-1)) node.

(** prepare 'next' to replace 'node' *)
Definition put_next (parent : loc) (left_node : bool) (node next : loc) : cmd World unit :=
  _ ← wr (set_has_child Left true) next;
  l ← rd left node;
  _ ← wr (set_link Left l) next;
  b ← rd balance node;
  _ ← wr (set_balance b) next;
  replace_child parent left_node next.

(** [node] has both children; the path and the index from which the balance is
    restored, and the node there. *)
Definition unlink_double (path : list (option loc)) (idx : Z) (parent : loc) (left_node : bool) (node : loc) :
    cmd World (list (option loc) * Z * loc) :=
  prev ← rd left node;
  next ← rd right node;
  let old_idx := idx + 1 in
  '(path, idx, nextp, next) ← find_next path (idx + 1) node next;
  path ← path_put path old_idx next;
  balance ← path_get path idx;
  _ ← take_out_next node nextp next;
  prev ← walk Right prev;
  _ ← wr (set_link Right next) prev;
  _ ← put_next parent left_node node next;
  mret (path, idx, balance).

(** The four cases; the results as above. *)
Definition unlink (path : list (option loc)) (idx : Z) (parent : loc) (left_node : bool) (node : loc) :
    cmd World (list (option loc) * Z * loc) :=
  l ← rd left_child node;
  r ← rd right_child node;
  match l : bool, r : bool with
  | false, false => _ ← unlink_leaf parent left_node node; mret (path, idx, parent)
  | false, true => _ ← unlink_single Right parent left_node node; mret (path, idx, parent)
  | true, false => _ ← unlink_single Left parent left_node node; mret (path, idx, parent)
  | true, true => unlink_double path idx parent left_node node
  end.

Definition g_tree_remove_internal (k : Z) (steal : bool) : cmd World bool :=
  r ← tr root;
  if decide (r = NULL) then mret false
  else
    path ← path_put new_path 0 NULL;
    found ← remove_descend k path 1 r;
    match found with
    | None => mret false
    | Some (path, idx, node) =>
        let idx := idx - 1 in
        parent ← path_get path idx;
        left_node ← is_left_node parent node;
        '(path, idx, balance) ← unlink path idx parent left_node node;
        _ ← (if decide (balance = NULL) then mret tt else restore_balance false path idx balance);
        _ ← (if steal then mret tt
             else nk ← rd key node; _ ← destroy_key nk; nv ← rd value node; destroy_value nv);
        _ ← g_slice_free node;
        n ← tr nnodes;
        _ ← set_tree (with_nnodes (n - 1));
        mret true
    end.
Definition g_tree_remove (k : Z) : cmd World bool := g_tree_remove_internal k false.
Definition g_tree_steal (k : Z) : cmd World bool := g_tree_remove_internal k true.

(** * Searching *)

(** The loop of g_tree_find_node and g_tree_node_search: [dir] compares with the
    key of a node. *)
Definition search_node (dir : loc -> cmd World Z) (node : loc) : cmd World loc :=
  n ← budget;
  loop n (fun node =>
    cmp ← dir node;
    if cmp =? 0 then mret (inr node)
    else
      let d := side_of cmp in
      c ← rd (has_child d) node;
      if negb c then mret (inr NULL)
      else next ← rd (link d) node; mret (inl next)) node.

Definition g_tree_find_node (k : Z) : cmd World loc :=
  r ← tr root;
  if decide (r = NULL) then mret NULL else search_node (compare k) r.

(** A pointer that is returned is [None] for NULL where values may be 0. *)
Definition g_tree_lookup (k : Z) : cmd World (option Z) :=
  node ← g_tree_find_node k;
  if decide (node = NULL) then mret None else v ← rd value node; mret (Some v).

Definition g_tree_lookup_extended (k : Z) : cmd World (option (Z * Z)) :=
  node ← g_tree_find_node k;
  if decide (node = NULL) then mret None
  else orig_key ← rd key node; v ← rd value node; mret (Some (orig_key, v)).

Definition g_tree_node_search (search_func : Z -> Z) (node : loc) : cmd World (option Z) :=
  if decide (node = NULL) then mret None
  else
    node ← search_node (fun node => k ← rd key node; mret (search_func k)) node;
    if decide (node = NULL) then mret None else v ← rd value node; mret (Some v).

Definition g_tree_search (search_func : Z -> Z) : cmd World (option Z) :=
  r ← tr root;
  if decide (r = NULL) then mret None else g_tree_node_search search_func r.

Definition g_tree_height : cmd World Z :=
  r ← tr root;
  if decide (r = NULL) then mret 0
  else
    n ← budget;
    loop n (fun '(height, node) =>
      b ← rd balance node;
      let height := s32 (height + (1 + Z.max b 0)) in
      c ← rd left_child node;
      if negb c then mret (inr height)
      else node ← rd left node; mret (inl (height, node))) (0, r).

Definition g_tree_nnodes : cmd World Z := n ← tr nnodes; mret (s32 n).

(** * Traversal *)

Section traversal.
(** The function called for the nodes, and the data it updates: it answers
    whether to stop. *)
Context {A : Type} (func : Z -> Z -> A -> A * bool).

Definition visit (node : loc) (a : A) : cmd World (A * bool) :=
  k ← rd key node; v ← rd value node; mret (func k v a).

Definition g_tree_foreach (a : A) : cmd World A :=
  r ← tr root;
  if decide (r = NULL) then mret a
  else
    node ← g_tree_first_node;
    n ← budget;
    loop n (fun '(node, a) =>
      if decide (node = NULL) then mret (inr a)
      else
        '(a, stop) ← visit node a;
        if stop : bool then mret (inr a)
        else next ← g_tree_node_next node; mret (inl (next, a))) (node, a).

(** Visit a child, if there is one. *)
Definition in_child (walk : loc -> A -> cmd World (A * bool)) (d : side) (node : loc) (a : A) : cmd World (A * bool) :=
  c ← rd (has_child d) node;
  if c : bool then p ← rd (link d) node; walk p a else mret (a, false).

(** One visit after another, unless the first one stops. *)
Definition and_then (first : cmd World (A * bool)) (second : A -> cmd World (A * bool)) : cmd World (A * bool) :=
  '(a, stop) ← first; if stop : bool then mret (a, true) else second a.

Fixpoint g_tree_node_pre_order (fuel : nat) (node : loc) (a : A) : cmd World (A * bool) :=
  match fuel with
  | O => fault
  | S fuel =>
      let walk := g_tree_node_pre_order fuel in
      and_then (visit node a) (fun a => and_then (in_child walk Left node a) (in_child walk Right node))
  end.
Fixpoint g_tree_node_in_order (fuel : nat) (node : loc) (a : A) : cmd World (A * bool) :=
  match fuel with
  | O => fault
  | S fuel =>
      let walk := g_tree_node_in_order fuel in
      and_then (in_child walk Left node a) (fun a => and_then (visit node a) (in_child walk Right node))
  end.
Fixpoint g_tree_node_post_order (fuel : nat) (node : loc) (a : A) : cmd World (A * bool) :=
  match fuel with
  | O => fault
  | S fuel =>
      let walk := g_tree_node_post_order fuel in
      and_then (in_child walk Left node a) (fun a => and_then (in_child walk Right node a) (visit node))
  end.

Inductive GTraverseType := G_IN_ORDER | G_PRE_ORDER | G_POST_ORDER | G_LEVEL_ORDER.

(** G_LEVEL_ORDER only warns. *)
Definition g_tree_traverse (traverse_type : GTraverseType) (a : A) : cmd World A :=
  r ← tr root;
  if decide (r = NULL) then mret a
  else
    n ← budget;
    '(a, _) ← match traverse_type with
              | G_PRE_ORDER => g_tree_node_pre_order n r a
              | G_IN_ORDER => g_tree_node_in_order n r a
              | G_POST_ORDER => g_tree_node_post_order n r a
              | G_LEVEL_ORDER => mret (a, false)
              end;
    mret a.
End traversal.

(** * Destruction *)

Definition g_tree_remove_all : cmd World unit :=
  node ← g_tree_first_node;
  n ← budget;
  _ ← loop n (fun node =>
    if decide (node = NULL) then mret (inr tt)
    else
      next ← g_tree_node_next node;
      k ← rd key node; _ ← destroy_key k;
      v ← rd value node; _ ← destroy_value v;
      _ ← g_slice_free node;
      mret (inl next)) node;
  set_tree (fun t => with_nnodes 0 (with_root NULL t)).

(** g_slice_free (GTree, tree) *)
Definition free_tree : cmd World unit :=
  fun w => match tree w with Some _ => Some (tt, mkWorld (nodes w) None (calls w)) | None => None end.

Definition g_tree_ref : cmd World unit := n ← tr ref_count; set_tree (with_ref_count (n + 1)).

Definition g_tree_unref : cmd World unit :=
  n ← tr ref_count;
  _ ← set_tree (with_ref_count (n - 1));
  if s32 (n - 1) =? 0 then
    _ ← g_tree_remove_all;
    free_tree
  else mret tt.

Definition g_tree_destroy : cmd World unit := _ ← g_tree_remove_all; g_tree_unref.

(** * An example *)

#[export] Instance fresh_slices : Slices := fun m => fresh (dom m ∪ {[ NULL ]} : gset loc).

Definition demo_tree : cmd World (list Z * Z * option Z) :=
  _ ← g_tree_new_full (fun a b => a - b) true true;
  _ ← foldr (fun k c => _ ← c; g_tree_insert k (10 * k)) (mret tt) [5; 9; 3; 4; 8; 2; 7; 1; 6; 12; 10; 11];
  _ ← g_tree_remove 8; _ ← g_tree_steal 12; _ ← g_tree_replace 3 33;
  l ← g_tree_foreach (fun k v l => (l ++ [v], false)) [];
  h ← g_tree_height;
  v ← g_tree_lookup 7;
  _ ← g_tree_destroy;
  mret (l, h, v).

Example demo_tree_runs :
  option_map fst (demo_tree (mkWorld ∅ None [])) = Some ([10; 20; 33; 40; 50; 60; 70; 90; 100; 110], 4, Some 70).
Proof. by vm_compute. Qed.
