(* ===== verification/TreeRep.v ===== *)
(** Abstract trees, zippers, and what it means that the nodes of a store are a
    threaded tree. *)
From S2P Require Import Prelude Store Tree.

(** * Abstract trees *)

(** A node by its address and contents. *)
Record item := Item { iloc : loc; ikey : Z; ival : Z }.

Inductive bt :=
| E
| T (l : bt) (i : item) (r : bt).

Fixpoint ht (t : bt) : Z := match t with E => 0 | T l _ r => 1 + Z.max (ht l) (ht r) end.
Fixpoint inorder (t : bt) : list item := match t with E => [] | T l i r => inorder l ++ i :: inorder r end.
Definition locs (t : bt) : list loc := iloc <$> inorder t.
Definition top (t : bt) : option loc := match t with E => None | T _ i _ => Some (iloc i) end.

(** Heights of neighbouring subtrees differ by one at most. *)
Fixpoint avl (t : bt) : Prop :=
  match t with E => True | T l _ r => avl l /\ avl r /\ -1 <= ht r - ht l <= 1 end.

(** The tree with [a] on side [d]. *)
Definition mk (d : side) (a : bt) (i : item) (c : bt) : bt :=
  match d with Left => T a i c | Right => T c i a end.

(** ** Zippers *)

(** The hole is the child on side [fside] of [fitem]. *)
Record frame := Frame { fside : side; fitem : item; fsib : bt }.

Definition fill (f : frame) (t : bt) : bt := mk (fside f) t (fitem f) (fsib f).
Fixpoint plug (C : list frame) (t : bt) : bt := match C with [] => t | f :: C => plug C (fill f t) end.

Fixpoint pre (C : list frame) : list item :=
  match C with
  | [] => []
  | f :: C => pre C ++ match fside f with Left => [] | Right => inorder (fsib f) ++ [fitem f] end
  end.
Fixpoint post (C : list frame) : list item :=
  match C with
  | [] => []
  | f :: C => match fside f with Left => fitem f :: inorder (fsib f) | Right => [] end ++ post C
  end.
Fixpoint clocs (C : list frame) : list loc :=
  match C with [] => [] | f :: C => iloc (fitem f) :: locs (fsib f) ++ clocs C end.

(** A hole for a tree of height [h] in an AVL tree. *)
Fixpoint avlc (C : list frame) (h : Z) : Prop :=
  match C with
  | [] => True
  | f :: C => avl (fsib f) /\ -1 <= ht (fsib f) - h <= 1 /\ avlc C (1 + Z.max h (ht (fsib f)))
  end.

Lemma ht_nonneg t : 0 <= ht t.
Proof. induction t; cbn [ht]; lia. Qed.

Lemma ht_pos t : t <> E -> 1 <= ht t.
Proof. destruct t as [|l i r]; [done|]. intros _. pose proof (ht_nonneg l). cbn [ht]. lia. Qed.

Lemma ht_mk d a i c : ht (mk d a i c) = 1 + Z.max (ht a) (ht c).
Proof. destruct d; cbn; lia. Qed.

Lemma top_mk d a i c : top (mk d a i c) = Some (iloc i).
Proof. by destruct d. Qed.

Lemma avl_mk d a i c : avl (mk d a i c) <-> avl a /\ avl c /\ -1 <= ht a - ht c <= 1.
Proof. destruct d; cbn; intuition lia. Qed.

Lemma inorder_mk d a i c :
  inorder (mk d a i c) = match d with Left => inorder a ++ i :: inorder c | Right => inorder c ++ i :: inorder a end.
Proof. by destruct d. Qed.

Lemma bt_inorder_plug C t : inorder (plug C t) = pre C ++ inorder t ++ post C.
Proof.
  revert t. induction C as [|[[] i sib] C IH]; intros t; cbn.
  - by rewrite app_nil_r.
  - rewrite IH. cbn. by rewrite app_nil_r, <- !app_assoc.
  - rewrite IH. cbn. by rewrite <- !app_assoc.
Qed.

Lemma bt_plug_app C C' t : plug (C ++ C') t = plug C' (plug C t).
Proof. revert t. induction C as [|f C IH]; intros t; cbn; auto. Qed.

Lemma plug_avl C t : avl t -> avlc C (ht t) -> avl (plug C t).
Proof.
  revert t. induction C as [|f C IH]; intros t Ht; cbn [avlc plug]; [done|]. intros (Hs & Hb & HC).
  apply IH; unfold fill; [rewrite avl_mk; split_and!; [done..|lia|lia]|]. by rewrite ht_mk.
Qed.

(** The way to a node of an AVL tree is one to an AVL tree. *)
Lemma avl_plug C t : avl (plug C t) -> avl t /\ avlc C (ht t).
Proof.
  revert t. induction C as [|f C IH]; intros t; cbn [avlc plug]; [done|]. intros H. apply IH in H as [H HC].
  unfold fill in *. apply avl_mk in H as (Ht & Hs & Hb). rewrite ht_mk in HC. split_and!; done || lia.
Qed.

Lemma plug_ht C t : Z.of_nat (length C) + ht t <= ht (plug C t).
Proof.
  revert t. induction C as [|f C IH]; intros t; cbn [plug length]; [lia|]. etrans; [|apply IH].
  unfold fill. rewrite ht_mk. lia.
Qed.

Lemma locs_mk d a i c : locs (mk d a i c) ≡ₚ iloc i :: locs a ++ locs c.
Proof. unfold locs. rewrite inorder_mk. destruct d; rewrite fmap_app, fmap_cons; solve_Permutation. Qed.

Lemma locs_T l i r : locs (T l i r) ≡ₚ iloc i :: locs l ++ locs r.
Proof. apply (locs_mk Left). Qed.

Lemma bt_locs_plug C t : locs (plug C t) ≡ₚ locs t ++ clocs C.
Proof.
  revert t. induction C as [|f C IH]; intros t; cbn [plug clocs]; [by rewrite app_nil_r|].
  rewrite IH. unfold fill. rewrite locs_mk. solve_Permutation.
Qed.

(** * Nodes in a store *)

Definition present (p : option loc) : bool := match p with Some _ => true | None => false end.

(** The node [i] with the children [a] on side [d] and [c] on the other, threads
    [u] and [v] where there is none. *)
Definition nd (d : side) (i : item) (a c : option loc) (u v : loc) (b : Z) : GTreeNode :=
  match d with
  | Left => mkNode (ikey i) (ival i) (default u a) (default v c) b (present a) (present c)
  | Right => mkNode (ikey i) (ival i) (default v c) (default u a) b (present c) (present a)
  end.

(** The neighbours of a subtree, NULL for none: [B Left] before, [B Right] behind. *)
Abbreviation bounds := (side -> loc).
Definition upd (B : bounds) (d : side) (p : loc) : bounds := fun d' => if decide (d' = d) then p else B d'.

Section rep.
Context (m : gmap loc GTreeNode).

Fixpoint rep (t : bt) (B : bounds) : Prop :=
  match t with
  | E => True
  | T l i r =>
      m !! iloc i = Some (nd Left i (top l) (top r) (B Left) (B Right) (ht r - ht l)) /\
      rep l (upd B Right (iloc i)) /\ rep r (upd B Left (iloc i))
  end.

(** The bounds of the hole *)
Fixpoint hole (C : list frame) (B : bounds) : bounds :=
  match C with [] => B | f :: C => upd (hole C B) (opp (fside f)) (iloc (fitem f)) end.

(** The nodes around a hole; the link into the hole is [p], and the balances are
    those for a tree of height [h] in it. *)
Fixpoint repc (C : list frame) (B : bounds) (p : option loc) (h : Z) : Prop :=
  match C with
  | [] => True
  | f :: C =>
      let d := fside f in
      m !! iloc (fitem f) =
        Some (nd d (fitem f) p (top (fsib f)) (hole C B d) (hole C B (opp d)) (weight d * (h - ht (fsib f)))) /\
      rep (fsib f) (upd (hole C B) d (iloc (fitem f))) /\
      repc C B (Some (iloc (fitem f))) (1 + Z.max h (ht (fsib f)))
  end.

Lemma rep_ext t B B' : (forall d, B d = B' d) -> rep t B <-> rep t B'.
Proof.
  revert B B'. induction t as [|l IHl i r IHr]; intros B B' H; cbn [rep]; [done|].
  rewrite !H, (IHl (upd B Right (iloc i)) (upd B' Right (iloc i))), (IHr (upd B Left (iloc i)) (upd B' Left (iloc i))); [done|..];
    intros d; unfold upd; by case_decide.
Qed.

Lemma rep_mk d a i c B :
  rep (mk d a i c) B <->
  m !! iloc i = Some (nd d i (top a) (top c) (B d) (B (opp d)) (weight d * (ht a - ht c))) /\
  rep a (upd B (opp d) (iloc i)) /\ rep c (upd B d (iloc i)).
Proof.
  destruct d; cbn [mk rep opp weight].
  - replace (-1 * (ht a - ht c)) with (ht c - ht a) by lia. done.
  - replace (1 * (ht a - ht c)) with (ht a - ht c) by lia. cbn [nd]. tauto.
Qed.

Lemma bt_rep_plug C t B : rep (plug C t) B <-> rep t (hole C B) /\ repc C B (top t) (ht t).
Proof.
  revert t. induction C as [|f C IH]; intros t; cbn [plug hole repc]; [tauto|].
  rewrite IH. unfold fill. rewrite rep_mk, top_mk, ht_mk. tauto.
Qed.
End rep.

Section frame_lemmas.
Context (m m' : gmap loc GTreeNode).

Lemma bt_rep_frame t B : (forall x, x ∈ locs t -> m' !! x = m !! x) -> rep m t B -> rep m' t B.
Proof.
  revert B. induction t as [|l IHl i r IHr]; intros B H; cbn [rep]; [done|]. intros (? & ? & ?).
  assert (H' : forall x, x = iloc i \/ x ∈ locs l \/ x ∈ locs r -> m' !! x = m !! x).
  { intros x Hx. apply H. rewrite locs_T, elem_of_cons, elem_of_app. done. }
  rewrite H' by (by left). split_and!; [done|apply IHl|apply IHr]; auto.
Qed.

Lemma bt_repc_frame C B p h : (forall x, x ∈ clocs C -> m' !! x = m !! x) -> repc m C B p h -> repc m' C B p h.
Proof.
  revert p h. induction C as [|f C IH]; intros p h H; cbn [repc]; [done|]. cbn [clocs] in H. intros (? & ? & ?).
  rewrite H by (by left). split_and!; [done| |].
  - eapply bt_rep_frame; [|done]. intros; apply H. right. apply elem_of_app. by left.
  - apply IH; [|done]. intros; apply H. right. apply elem_of_app. by right.
Qed.
End frame_lemmas.

(** * The state of the code at a node *)

Definition ends : bounds := fun _ => NULL.

(** The address in tree->root when the link into the hole is [p]. *)
Fixpoint root_of (C : list frame) (p : option loc) : option loc :=
  match C with [] => p | f :: C => root_of C (Some (iloc (fitem f))) end.

(** The store holds the tree [t] in a hole of [C], whose nodes still have the
    link [p] and the balances for the height [h]; [F] are nodes that have been
    taken out, and there are no others. *)
Record focus (w : World) (F : list loc) (C : list frame) (p : option loc) (h : Z) (t : bt) : Prop := {
  fo_rep : rep (nodes w) t (hole C ends);
  fo_ctx : repc (nodes w) C ends p h;
  fo_nodup : NoDup (NULL :: locs t ++ clocs C ++ F);
  fo_dom x : is_Some (nodes w !! x) <-> x ∈ locs t ++ clocs C ++ F;
  fo_root : exists tr, tree w = Some tr /\ root tr = default NULL (root_of C p);
}.

(** All but nodes and root are as before. *)
Definition keeps (w w' : World) : Prop :=
  calls w' = calls w /\ exists r, tree w' = with_root r <$> tree w.

Lemma keeps_refl w : keeps w w.
Proof. split; [done|]. destruct (tree w) as [[]|]; [by eexists|by exists NULL]. Qed.

Lemma keeps_trans w w1 w2 : keeps w w1 -> keeps w1 w2 -> keeps w w2.
Proof. intros [H1 [r1 E1]] [H2 [r2 E2]]. split; [congruence|]. exists r2. rewrite E2, E1. by destruct (tree w). Qed.

Lemma keeps_nodes m m' t l : keeps (mkWorld m t l) (mkWorld m' t l).
Proof. apply (keeps_refl (mkWorld m t l)). Qed.

(** Moving the focus *)
Lemma focus_down w F C f t :
  focus w F C (Some (iloc (fitem f))) (ht (fill f t)) (fill f t) <-> focus w F (f :: C) (top t) (ht t) t.
Proof.
  pose proof (bt_rep_plug (nodes w) [f] t (hole C ends)) as Hr. cbn [plug hole repc] in Hr.
  assert (HL : locs (fill f t) ++ clocs C ++ F ≡ₚ locs t ++ clocs (f :: C) ++ F).
  { unfold fill. rewrite locs_mk. cbn [clocs]. solve_Permutation. }
  split; intros [H1 H2 H3 H4 H5]; unfold fill in *.
  - apply Hr in H1 as (H1 & Hf & Hs & _). split; [done| | | |done].
    + cbn [repc]. rewrite ht_mk in H2. done.
    + by rewrite <- HL.
    + intros x. by rewrite H4, HL.
  - cbn [repc] in H2. destruct H2 as (Hf & Hs & H2). split; [| | | |done].
    + apply Hr. by split_and!.
    + by rewrite ht_mk.
    + by rewrite HL.
    + intros x. by rewrite H4, HL.
Qed.

(** The whole store *)
Abbreviation whole w F t := (focus w F [] (top t) (ht t) t).

Lemma whole_plug w F C t : focus w F C (top t) (ht t) t <-> whole w F (plug C t).
Proof.
  revert t. induction C as [|f C IH]; intros t; cbn [plug]; [done|].
  rewrite <- IH, <- focus_down. unfold fill. by rewrite top_mk.
Qed.

(** Distinctness of the addresses of [L], a reordering of those of [N], as
    separate hypotheses *)
Ltac locs_norm :=
  rewrite ?bt_locs_plug, ?locs_mk, ?locs_T; cbn [clocs fitem fsib]; rewrite ?locs_mk, ?locs_T;
  try change (locs E) with (@nil loc).
Ltac distinct H L :=
  let N := fresh "Hnd" in
  pose proof H as N;
  match type of N with NoDup ?M =>
    let HP := fresh in
    assert (HP : M ≡ₚ L) by (locs_norm; solve_Permutation);
    try rewrite HP in N; clear HP
  end;
  repeat rewrite NoDup_cons in N;
  rewrite ?not_elem_of_cons, ?not_elem_of_app in N;
  destruct_and? N.

(** * Running code *)

Section run.
Context {A : Type} (m : gmap loc GTreeNode) (t : GTree) (ot : option GTree) (l : list destroyed).

Lemma wp_read (f : GTreeNode -> A) p n (Q : A -> World -> Prop) :
  m !! p = Some n -> Q (f n) (mkWorld m ot l) -> wp (rd f p) Q (mkWorld m ot l).
Proof. intros Hp HQ. by eapply wp_rd. Qed.

Lemma wp_write g p n (Q : unit -> World -> Prop) :
  m !! p = Some n -> Q tt (mkWorld (<[p := g n]> m) ot l) -> wp (wr g p) Q (mkWorld m ot l).
Proof. intros Hp HQ. by eapply wp_wr. Qed.

Lemma wp_tr (f : GTree -> A) (Q : A -> World -> Prop) :
  Q (f t) (mkWorld m (Some t) l) -> wp (tr f) Q (mkWorld m (Some t) l).
Proof. done. Qed.

Lemma wp_set_tree g (Q : unit -> World -> Prop) :
  Q tt (mkWorld m (Some (g t)) l) -> wp (set_tree g) Q (mkWorld m (Some t) l).
Proof. done. Qed.
End run.

(** The nodes are given by hypotheses, or have been written. *)
Ltac node_lookup :=
  repeat match goal with
  | |- <[?i := _]> _ !! ?i = _ => rewrite lookup_insert_eq; reflexivity
  | |- <[?i := _]> _ !! ?j = _ => rewrite lookup_insert_ne by congruence
  end; eassumption.

Ltac node_simpl :=
  cbv beta iota;
  cbn [link has_child nd opp default from_option id top present
    set_link set_has_child balance left right left_child right_child key value].
Ltac node_step :=
  node_simpl;
  match goal with
  | |- wp (mbind _ _) _ _ => apply wp_bind
  | |- wp (mret _) _ _ => apply wp_ret
  | |- wp (rd _ _) _ _ => eapply wp_read; [solve [node_lookup]|]
  | |- wp (wr _ _) _ _ => eapply wp_write; [solve [node_lookup]|]
  | |- wp (tr _) _ _ => apply wp_tr
  | |- wp (set_tree _) _ _ => apply wp_set_tree
  end; node_simpl.

(** A node that has been written, with its balance in the range of a gint8 *)
Lemma set_balance_id b n : -128 <= b < 128 -> set_balance b n =
  mkNode (key n) (value n) (left n) (right n) b (left_child n) (right_child n).
Proof.
  intros. unfold set_balance. do 2 f_equal. apply swrap_id; [lia|]. change (2 ^ (8 - 1)) with 128. lia.
Qed.

Ltac written :=
  repeat match goal with
  | |- <[?i := _]> _ !! ?i = _ => rewrite lookup_insert_eq
  | |- <[?i := _]> _ !! ?j = _ => rewrite lookup_insert_ne by congruence
  end;
  unfold add_balance; cbn [balance]; rewrite ?set_balance_id by (cbn [weight]; lia); node_simpl;
  first [reflexivity|assumption|f_equal; f_equal; first [reflexivity|lia]].

(** The store agrees with a chain of updates outside their addresses. *)
Ltac agree_tac :=
  let z := fresh "z" in let Hz := fresh "Hz" in
  intros z Hz; repeat (apply not_elem_of_cons in Hz as [? Hz]); by rewrite ?lookup_insert_ne by congruence.

(** Two stores that agree outside the addresses [W] *)
Definition agree (W : list loc) (m m' : gmap loc GTreeNode) : Prop := forall z, z ∉ W -> m' !! z = m !! z.

Lemma rep_agree W m m' t B : agree W m m' -> (forall z, z ∈ W -> z ∉ locs t) -> rep m t B -> rep m' t B.
Proof. intros Hm HW. apply bt_rep_frame. intros x Hx. apply Hm. intros Hin. by destruct (HW x Hin). Qed.

Lemma repc_agree W m m' C B p h : agree W m m' -> (forall z, z ∈ W -> z ∉ clocs C) -> repc m C B p h -> repc m' C B p h.
Proof. intros Hm HW. apply bt_repc_frame. intros x Hx. apply Hm. intros Hin. by destruct (HW x Hin). Qed.

Lemma agree_dom W m m' (L : list loc) :
  agree W m m' -> (forall z, z ∈ W -> is_Some (m' !! z) /\ z ∈ L) ->
  (forall x, is_Some (m !! x) <-> x ∈ L) -> forall x, is_Some (m' !! x) <-> x ∈ L.
Proof.
  intros Hm HW HL x. destruct (decide (x ∈ W)) as [Hx|Hx]; [|by rewrite Hm]. specialize (HW x Hx). tauto.
Qed.

(** Members of an explicit list of addresses, one at a time *)
Ltac each_written :=
  let z := fresh "z" in let Hz := fresh "Hz" in
  intros z Hz; repeat (apply elem_of_cons in Hz as [->|Hz]); [..|by apply elem_of_nil in Hz].

(** The same bounds, written differently *)
Ltac same_bounds H :=
  eapply rep_ext; [|exact H]; let d' := fresh in intros d'; unfold upd;
  repeat match goal with d : side |- _ => destruct d end; done.


(** Membership in the list of a tree's addresses *)
Ltac here := locs_norm; repeat first [rewrite elem_of_app|rewrite elem_of_cons]; tauto.

Lemma agree_sub W W' m m' : agree W m m' -> (forall z, z ∈ W -> z ∈ W') -> agree W' m m'.
Proof. intros H HW z Hz. apply H. auto. Qed.

Lemma agree_trans W m m1 m2 : agree W m m1 -> agree W m1 m2 -> agree W m m2.
Proof. intros H1 H2 z Hz. by rewrite H2, H1. Qed.

Lemma rep_dom m t B x : rep m t B -> x ∈ locs t -> is_Some (m !! x).
Proof.
  revert B. induction t as [|l IHl i r IHr]; intros B; cbn [rep]; [by intros _ ?%elem_of_nil|].
  intros (Hi & Hl & Hr). rewrite locs_T, elem_of_cons, elem_of_app. intros [->|[H|H]]; eauto.
Qed.

(** The state after a change of the subtree at the focus *)
Lemma focus_local {m ot l F C p h t m' t'} :
  focus (mkWorld m ot l) F C p h t -> agree (locs t) m m' -> rep m' t' (hole C ends) -> locs t' ≡ₚ locs t ->
  focus (mkWorld m' ot l) F C p h t'.
Proof.
  intros [_ HC Hn HD Hroot] Hm Hr HL. split; cbn [nodes tree] in *; try done.
  - eapply repc_agree; [done| |done]. intros z Hz Hc. apply NoDup_cons in Hn as [_ Hn]. apply NoDup_app in Hn as (_ & Hn & _).
    apply (Hn z Hz), elem_of_app. by left.
  - by rewrite HL.
  - intros x. rewrite HL. apply (agree_dom (locs t) m); [done| |done]. intros z Hz. split; [|apply elem_of_app; by left].
    eapply rep_dom; [done|]. by rewrite HL.
Qed.

(** The state after writes to the addresses [W] *)
Lemma focus_written {m ot l F C p h t W m' ot' l' F' C' p' h' t'} :
  focus (mkWorld m ot l) F C p h t -> agree W m m' ->
  (forall z, z ∈ W -> is_Some (m' !! z) /\ z ∈ locs t ++ clocs C ++ F) ->
  locs t' ++ clocs C' ++ F' ≡ₚ locs t ++ clocs C ++ F ->
  rep m' t' (hole C' ends) -> repc m' C' ends p' h' ->
  (exists tr, ot' = Some tr /\ root tr = default NULL (root_of C' p')) ->
  focus (mkWorld m' ot' l') F' C' p' h' t'.
Proof.
  intros [_ _ Hn HD _] Hm HW HL Hr HC Hroot. split; cbn [nodes tree]; try done.
  - by rewrite HL.
  - intros x. rewrite HL. by apply (agree_dom W m).
Qed.

(** Fields of a node *)
Lemma link_nd d i a c u v b : link d (nd d i a c u v b) = default u a.
Proof. by destruct d. Qed.
Lemma link_opp_nd d i a c u v b : link (opp d) (nd d i a c u v b) = default v c.
Proof. by destruct d. Qed.
Lemma has_child_nd d i a c u v b : has_child d (nd d i a c u v b) = present a.
Proof. by destruct d. Qed.
Lemma balance_nd d i a c u v b : balance (nd d i a c u v b) = b.
Proof. by destruct d. Qed.
Lemma key_nd d i a c u v b : key (nd d i a c u v b) = ikey i.
Proof. by destruct d. Qed.
Lemma value_nd d i a c u v b : value (nd d i a c u v b) = ival i.
Proof. by destruct d. Qed.
Lemma set_link_nd d i a c u v b p : set_link d p (nd d i (Some a) c u v b) = nd d i (Some p) c u v b.
Proof. by destruct d. Qed.
Lemma set_thread_nd d i c u v b p : set_link d p (nd d i None c u v b) = nd d i None c p v b.
Proof. by destruct d. Qed.
Lemma nodup_mk d a i c :
  NoDup (locs (mk d a i c)) ->
  iloc i ∉ locs a /\ iloc i ∉ locs c /\ NoDup (locs a) /\ NoDup (locs c) /\ (forall x, x ∈ locs a -> x ∉ locs c).
Proof.
  rewrite locs_mk, NoDup_cons, not_elem_of_app, NoDup_app. tauto.
Qed.
