(* ===== verification/TreeBalance.v ===== *)
(** Rotations, and the way back to the root: the loop that restores the balance
    after an insertion or a removal. *)
From S2P Require Import Prelude Store Tree TreeRep.

Open Scope c_scope.

(** The formulas of the rotations give the differences of the new heights. *)
Definition balances_ok (d : side) (balances : Z -> Z -> Z * Z) : Prop :=
  forall ha hb hc,
    balances (weight d * (1 + Z.max hc hb - ha)) (weight d * (hc - hb)) =
      (weight d * (hc - (1 + Z.max hb ha)), weight d * (hb - ha)).

Lemma left_balances_ok : balances_ok Right left_balances.
Proof.
  intros ha hb hc. cbn [weight]. unfold left_balances.
  destruct (Z.leb_spec (1 * (hc - hb)) 0), (Z.geb_spec (1 * (1 + Z.max hc hb - ha)) 1),
    (Z.leb_spec (1 * (1 + Z.max hc hb - ha)) (1 * (hc - hb))); f_equal; lia.
Qed.

Lemma right_balances_ok : balances_ok Left right_balances.
Proof.
  intros ha hb hc. cbn [weight]. unfold right_balances.
  destruct (Z.leb_spec (-1 * (hc - hb)) 0), (Z.gtb_spec (-1 * (hc - hb)) (-1 * (1 + Z.max hc hb - ha))),
    (Z.leb_spec (-1 * (1 + Z.max hc hb - ha)) (-1)); f_equal; lia.
Qed.

(** A rotation, on the nodes of a subtree only *)
Lemma wp_tree_rotate d balances m ot log B a b c x y (Q : loc -> World -> Prop) :
  balances_ok d balances ->
  rep m (mk d (mk d c y b) x a) B -> NoDup (locs (mk d (mk d c y b) x a)) ->
  -100 <= ht c - (1 + Z.max (ht b) (ht a)) <= 100 -> -100 <= ht b - ht a <= 100 ->
  (forall m', agree (locs (mk d (mk d c y b) x a)) m m' -> rep m' (mk d c y (mk d b x a)) B -> Q (iloc y) (mkWorld m' ot log)) ->
  wp (rotate d balances (iloc x)) Q (mkWorld m ot log).
Proof.
  intros Hok Hr HN Hy1 Hx1 HQ.
  apply rep_mk in Hr as (Hx & Hr & Ha). apply rep_mk in Hr as (Hy & Hc & Hb). rewrite top_mk in Hx. rewrite ht_mk in Hx.
  distinct HN (iloc x :: iloc y :: locs a ++ locs b ++ locs c).
  assert (Hfin : forall m', agree [iloc x; iloc y] m m' ->
    m' !! iloc y = Some (nd d y (top c) (Some (iloc x)) (B d) (B (opp d)) (weight d * (ht c - (1 + Z.max (ht b) (ht a))))) ->
    m' !! iloc x = Some (nd d x (top b) (top a) (iloc y) (B (opp d)) (weight d * (ht b - ht a))) ->
    Q (iloc y) (mkWorld m' ot log)).
  { intros m' Hm Hy' Hx'. apply HQ; [eapply agree_sub; [done|each_written; here]|].
    rewrite !rep_mk, top_mk, ht_mk. split_and!; [done|..].
    - eapply rep_agree; [done|each_written; done|]. same_bounds Hc.
    - rewrite Hx'. unfold upd. by destruct d.
    - eapply rep_agree; [done|each_written; done|]. same_bounds Hb.
    - eapply rep_agree; [done|each_written; done|]. same_bounds Ha. }
  unfold rotate. destruct d; cbn [opp nd link has_child] in *.
  all: repeat node_step; destruct b as [|bl bi br]; repeat node_step; rewrite Hok; repeat node_step.
  all: apply Hfin; [agree_tac|written..].
Qed.

(** The heights after a rebalancing: one less, or the same if the higher
    subtree is balanced, as can happen after a removal. *)
Definition bal (t : bt) : Z := match t with E => 0 | T l _ r => ht r - ht l end.

Definition rebalanced (t t' : bt) (even : Prop) : Prop :=
  avl t' /\ inorder t' = inorder t /\
  ((ht t' = ht t - 1 /\ bal t' = 0) \/ (even /\ ht t' = ht t /\ bal t' <> 0 /\ -1 <= bal t' <= 1)).

(** The two branches of g_tree_node_balance *)
Definition pull (d : side) (inner outer : Z -> Z -> Z * Z) (turn : Z -> bool) (node : loc) : cmd World loc :=
  child ← rd (link d) node;
  cb ← rd balance child;
  _ ← (if turn cb then child ← rotate (opp d) inner child; wr (set_link d child) node else mret tt);
  rotate d outer node.

Lemma mk_opp d a i c : mk (opp d) a i c = mk d c i a.
Proof. by destruct d. Qed.

Lemma mk_inv d t : t <> E -> exists a i c, t = mk d a i c.
Proof. destruct t as [|l i r]; [done|]. intros _. destruct d; [by exists l, i, r|by exists r, i, l]. Qed.

Lemma bal_mk d a i c : bal (mk d a i c) = weight d * (ht a - ht c).
Proof. destruct d; cbn; lia. Qed.

Lemma weight_sign d x : (weight d * (weight d * x) <? 0) = (x <? 0).
Proof. destruct d; cbn [weight]; f_equal; lia. Qed.

Lemma locs_inorder t t' : inorder t = inorder t' -> locs t = locs t'.
Proof. intros H. unfold locs. by rewrite H. Qed.

(** The shapes before and after *)
Lemma rotated_inorder d a b c x y : inorder (mk d c y (mk d b x a)) = inorder (mk d (mk d c y b) x a).
Proof. destruct d; cbn; by rewrite <- app_assoc. Qed.

Lemma inorder_mk_congr d t t' i c : inorder t = inorder t' -> inorder (mk d t i c) = inorder (mk d t' i c).
Proof. intros H. rewrite !inorder_mk, H. done. Qed.

Lemma rebalanced_single d a b c x y :
  avl (mk d c y b) -> avl a -> ht (mk d c y b) = ht a + 2 -> ht b <= ht c ->
  rebalanced (mk d (mk d c y b) x a) (mk d c y (mk d b x a)) (bal (mk d c y b) = 0).
Proof.
  rewrite avl_mk, bal_mk, ht_mk. intros (Hc & Hb & Hd) Ha Hht Hle. split_and!.
  - rewrite !avl_mk, ht_mk. split_and!; done || lia.
  - apply rotated_inorder.
  - rewrite !ht_mk, bal_mk, ht_mk. destruct (decide (ht b = ht c)) as [->|Hne]; [right|left]; destruct d; cbn [weight]; lia.
Qed.

Lemma rebalanced_double d a b1 b2 c x y z P :
  avl (mk d c y (mk d b1 z b2)) -> avl a -> ht (mk d c y (mk d b1 z b2)) = ht a + 2 -> ht c < ht (mk d b1 z b2) ->
  rebalanced (mk d (mk d c y (mk d b1 z b2)) x a) (mk d (mk d c y b1) z (mk d b2 x a)) P.
Proof.
  rewrite !avl_mk, !ht_mk. intros (Hc & (Hb1 & Hb2 & Hd2) & Hd) Ha Hht Hlt. split_and!.
  - rewrite !avl_mk, !ht_mk. split_and!; done || lia.
  - destruct d; cbn; repeat (rewrite <- app_assoc; cbn [app]); done.
  - left. rewrite !ht_mk, bal_mk, !ht_mk. destruct d; cbn [weight]; lia.
Qed.

Lemma wp_pull d inner outer turn m ot log B a x t1 (Q : loc -> World -> Prop) :
  balances_ok (opp d) inner -> balances_ok d outer -> (forall b, turn b = (weight d * b <? 0)) ->
  let t := mk d t1 x a in
  rep m t B -> NoDup (locs t) -> avl t1 -> avl a -> ht t1 = ht a + 2 ->
  (forall m' t', agree (locs t) m m' -> rep m' t' B -> rebalanced t t' (bal t1 = 0) -> Q (default NULL (top t')) (mkWorld m' ot log)) ->
  wp (pull d inner outer turn (iloc x)) Q (mkWorld m ot log).
Proof.
  intros Hin Hout Hturn t Hr HN H1 Ha Hht HQ. pose proof (ht_nonneg a) as Hna. subst t.
  destruct (mk_inv d t1) as (c & y & b & ->); [intros ->; cbn in Hht; lia|].
  pose proof Hr as Hr0. apply rep_mk in Hr as (Hx & Hr1 & Hra). rewrite top_mk in Hx.
  pose proof Hr1 as Hr1'. apply rep_mk in Hr1' as (Hy & _).
  unfold pull. apply wp_bind. eapply wp_read; [exact Hx|]. rewrite link_nd. cbn [default from_option id].
  apply wp_bind. eapply wp_read; [exact Hy|]. rewrite balance_nd.
  rewrite Hturn, weight_sign. apply avl_mk in H1 as H1'. destruct H1' as (Hc & Hb & Hcb). rewrite ht_mk in Hht.
  apply wp_bind. destruct (Z.ltb_spec (ht c - ht b) 0) as [Hlt|Hge].
  - pose proof (ht_nonneg c). destruct (mk_inv d b) as (b1 & z & b2 & ->); [intros ->; cbn in Hlt; lia|].
    rewrite ht_mk in Hht, Hcb, Hlt. apply avl_mk in Hb as Hb'. destruct Hb' as (Hb1 & Hb2 & Hb12).
    assert (Eb : mk d c y (mk d b1 z b2) = mk (opp d) (mk (opp d) b2 z b1) y c) by (by rewrite !mk_opp).
    destruct (nodup_mk _ _ _ _ HN) as (Hxn & Hxa & HN1 & _).
    apply wp_bind. apply (wp_tree_rotate (opp d) inner m ot log (upd B (opp d) (iloc x)) c b1 b2 y z);
      rewrite <- ?Eb; [done|done|done|lia|lia|].
    intros m1 Hm1 Hr1'.
    assert (Hx1 : m1 !! iloc x = m !! iloc x) by (by apply Hm1).
    eapply wp_write; [by rewrite Hx1|]. rewrite set_link_nd.
    set (t1 := mk (opp d) b2 z (mk (opp d) b1 y c)) in *.
    assert (Et1 : t1 = mk d (mk d c y b1) z b2) by (subst t1; by rewrite !mk_opp).
    assert (Hht1 : ht t1 = ht (mk d c y (mk d b1 z b2))) by (rewrite Et1, !ht_mk; lia).
    set (m2 := <[iloc x := _]> m1).
    assert (HL : locs t1 = locs (mk d c y (mk d b1 z b2))).
    { apply locs_inorder. rewrite Et1. symmetry. destruct d; cbn; repeat (rewrite <- app_assoc; cbn [app]); done. }
    assert (Hr2 : rep m2 (mk d t1 x a) B).
    { apply rep_mk. split_and!.
      - subst m2. rewrite lookup_insert_eq. by rewrite Hht1, Et1, top_mk.
      - eapply (rep_agree [iloc x] m1); [subst m2; agree_tac|each_written; by rewrite HL|done].
      - eapply (rep_agree [iloc x] m1); [subst m2; agree_tac|by each_written|].
        eapply (rep_agree _ m); [exact Hm1| |done]. intros u Hu. by apply (nodup_mk _ _ _ _ HN). }
    rewrite Et1 in Hr2. apply (wp_tree_rotate d outer m2 ot log B a b2 (mk d c y b1) x z); [done|done| |rewrite ?ht_mk; lia|lia|].
    + revert HN. apply NoDup_Permutation_proper. locs_norm. solve_Permutation.
    + intros m' Hm' Hr'. apply (HQ m') in Hr' as Hq; [by rewrite top_mk in Hq| |apply rebalanced_double; rewrite ?ht_mk; first [done|lia]].
      apply (agree_trans _ _ m2).
      * apply (agree_trans _ _ m1); [eapply agree_sub; [exact Hm1|]|eapply (agree_sub [iloc x]); [subst m2; agree_tac|each_written; here]].
        intros u. rewrite (locs_mk d _ x). intros. right. apply elem_of_app. by left.
      * eapply agree_sub; [exact Hm'|]. intros u. locs_norm. repeat first [rewrite elem_of_app|rewrite elem_of_cons]. tauto.
  - apply wp_ret. apply (wp_tree_rotate d outer m ot log B a b c x y); [done|done|done|lia|lia|].
    intros m' Hm' Hr'. apply (HQ m') in Hr' as Hq; [by rewrite top_mk in Hq|done|].
    apply rebalanced_single; rewrite ?ht_mk; (done || lia).
Qed.

Definition heavier (l r : bt) : bt := if ht l <? ht r then r else l.

Lemma wp_balance m ot log B l i r (Q : loc -> World -> Prop) :
  rep m (T l i r) B -> NoDup (locs (T l i r)) -> avl l -> avl r -> -2 <= bal (T l i r) <= 2 -> (bal (T l i r) < -1 \/ 1 < bal (T l i r)) ->
  (forall m' t', agree (locs (T l i r)) m m' -> rep m' t' B -> rebalanced (T l i r) t' (bal (heavier l r) = 0) ->
     Q (default NULL (top t')) (mkWorld m' ot log)) ->
  wp (g_tree_node_balance (iloc i)) Q (mkWorld m ot log).
Proof.
  cbn [bal]. intros Hr HN Hl Hr' Hb Hout HQ. unfold heavier in HQ.
  pose proof Hr as Hi. cbn [rep] in Hi. destruct Hi as [Hi _].
  unfold g_tree_node_balance. apply wp_bind. eapply wp_read; [exact Hi|]. rewrite balance_nd.
  destruct (Z.ltb_spec (ht r - ht l) (-1)) as [H1|H1].
  - destruct (Z.ltb_spec (ht l) (ht r)); [lia|].
    apply (wp_pull Left left_balances right_balances (fun b => b >? 0) m ot log B r i l); try done.
    + apply left_balances_ok.
    + apply right_balances_ok.
    + intros b. cbn [weight]. destruct (Z.gtb_spec b 0), (Z.ltb_spec (-1 * b) 0); lia || done.
    + lia.
  - destruct (Z.gtb_spec (ht r - ht l) 1) as [H2|H2]; [|lia]. destruct (Z.ltb_spec (ht l) (ht r)); [|lia].
    apply (wp_pull Right right_balances left_balances (fun b => b <? 0) m ot log B l i r); try done.
    + apply right_balances_ok.
    + apply left_balances_ok.
    + intros b. cbn [weight]. by rewrite Z.mul_1_l.
    + lia.
Qed.

(** * The path *)

(** The contents of the array above a hole *)
Fixpoint anc (C : list frame) : list loc :=
  match C with [] => [NULL] | f :: C => anc C ++ [iloc (fitem f)] end.
Definition path_ok (path : list (option loc)) (C : list frame) : Prop :=
  length path = MAX_GTREE_HEIGHT /\ (Some <$> anc C) `prefix_of` path.
Definition index (C : list frame) : Z := 1 + Z.of_nat (length C).
Definition parent (C : list frame) : loc := match C with [] => NULL | f :: _ => iloc (fitem f) end.
Definition is_left (C : list frame) : bool := match C with [] => false | f :: _ => bool_decide (fside f = Left) end.

Lemma anc_length C : length (anc C) = S (length C).
Proof. induction C as [|f C IH]; [done|]. cbn [anc]. rewrite length_app, IH. cbn. lia. Qed.

Lemma anc_last C : anc C !! length C = Some (parent C).
Proof.
  destruct C as [|f C]; [done|]. cbn [anc parent length]. rewrite lookup_app_r by (rewrite anc_length; lia).
  by rewrite anc_length, Nat.sub_diag.
Qed.

Lemma path_ok_up path f C : path_ok path (f :: C) -> path_ok path C.
Proof.
  intros [Hl Hp]. split; [done|]. etrans; [|exact Hp]. cbn [anc]. rewrite fmap_app. by apply prefix_app_r.
Qed.

Lemma array_get_nat {A} (l : list A) n : array_get l (Z.of_nat n) = l !! n.
Proof. unfold array_get. destruct (Z.ltb_spec (Z.of_nat n) 0); [lia|]. by rewrite Nat2Z.id. Qed.

Lemma wp_path_get path C idx (Q : loc -> World -> Prop) w :
  path_ok path C -> idx = index C - 1 -> Q (parent C) w -> wp (path_get path idx) Q w.
Proof.
  intros [Hl [r Hp]] -> HQ. unfold path_get, index. replace (1 + _ - 1) with (Z.of_nat (length C)) by lia.
  rewrite array_get_nat, Hp, lookup_app_l by (rewrite length_fmap, anc_length; lia).
  by rewrite list_lookup_fmap, anc_last.
Qed.

Lemma path_ok_put path C f :
  path_ok path C -> (S (length C) < MAX_GTREE_HEIGHT)%nat -> path_ok (<[S (length C) := Some (iloc (fitem f))]> path) (f :: C).
Proof.
  intros [Hl [r Hp]] HC. rewrite Hp, length_app, length_fmap, anc_length in Hl. destruct r as [|x r]; [cbn in Hl; lia|].
  replace (S (length C)) with (length (Some <$> anc C) + 0)%nat by (rewrite length_fmap, anc_length; lia).
  rewrite Hp, insert_app_r. cbn [insert list_insert]. split.
  - rewrite length_app, length_fmap, anc_length. cbn in Hl |- *. lia.
  - cbn [anc]. rewrite fmap_app. exists r. by rewrite <- app_assoc.
Qed.

Lemma path_put_at path (n : nat) idx p (Q : list (option loc) -> World -> Prop) w :
  length path = MAX_GTREE_HEIGHT -> idx = Z.of_nat n -> (n < MAX_GTREE_HEIGHT)%nat ->
  Q (<[n := Some p]> path) w -> wp (path_put path idx p) Q w.
Proof.
  intros Hl -> Hn HQ. unfold path_put. rewrite array_set_Some by (rewrite Hl; lia). by rewrite Nat2Z.id.
Qed.

Lemma wp_path_put path C idx p f (Q : list (option loc) -> World -> Prop) w :
  path_ok path C -> idx = index C -> (S (length C) < MAX_GTREE_HEIGHT)%nat -> p = iloc (fitem f) ->
  (forall path, path_ok path (f :: C) -> Q path w) -> wp (path_put path idx p) Q w.
Proof.
  intros Hp -> HC -> HQ. apply (path_put_at path (S (length C))); [apply Hp|unfold index; lia|done|].
  by apply HQ, path_ok_put.
Qed.

(** * The parent *)

Lemma hole_in C d : hole C ends d = NULL \/ hole C ends d ∈ clocs C.
Proof.
  induction C as [|f C IH]; [by left|]. cbn [hole clocs]. unfold upd. case_decide.
  - right. by left.
  - destruct IH as [IH|IH]; [by left|]. right. right. apply elem_of_app. by right.
Qed.

Lemma top_in t x : top t = Some x -> x ∈ locs t.
Proof. destruct t as [|l i r]; [done|]. intros [= <-]. rewrite locs_T. by left. Qed.

(** The link of a node on the other side is not the child on this side. *)
Lemma other_link d i s u v b x y :
  x <> v -> x ∉ locs s -> link (opp d) (nd d i y (top s) u v b) <> x.
Proof.
  intros Hv Hs. rewrite link_opp_nd. destruct (top s) as [z|] eqn:E; cbn; [|congruence].
  apply top_in in E. unfold id. congruence.
Qed.

Lemma wp_is_left_node w F C x h t (Q : bool -> World -> Prop) :
  focus w F C (Some x) h t -> x <> NULL -> x ∉ clocs C -> Q (is_left C) w -> wp (is_left_node (parent C) x) Q w.
Proof.
  intros H Hx HC HQ. destruct w as [m ot log]. unfold is_left_node. destruct C as [|f C]; cbn [parent is_left] in *.
  { by rewrite decide_True. }
  pose proof (fo_ctx _ _ _ _ _ _ H) as Hc. cbn [repc nodes] in Hc. destruct Hc as (Hf & _ & _).
  pose proof (fo_nodup _ _ _ _ _ _ H) as HN. cbn [clocs] in HN, HC. apply not_elem_of_cons in HC as [Hxf HC].
  apply not_elem_of_app in HC as [Hxs HxC].
  rewrite decide_False.
  2:{ intros E. apply NoDup_cons in HN as [HN _]. apply HN. rewrite !elem_of_app, elem_of_cons. right. left. by left. }
  assert (Hlink : link (fside f) (nd (fside f) (fitem f) (Some x) (top (fsib f)) (hole C ends (fside f)) (hole C ends (opp (fside f)))
    (weight (fside f) * (h - ht (fsib f)))) = x) by apply link_nd.
  assert (Hother : link (opp (fside f)) (nd (fside f) (fitem f) (Some x) (top (fsib f)) (hole C ends (fside f)) (hole C ends (opp (fside f)))
    (weight (fside f) * (h - ht (fsib f)))) <> x).
  { apply other_link; [|done]. destruct (hole_in C (opp (fside f))) as [->|Hin]; [done|]. congruence. }
  repeat (apply wp_bind; eapply wp_read; [exact Hf|]; cbv beta). destruct (fside f); cbn [opp link] in Hlink, Hother |- *.
  - rewrite Hlink. rewrite (bool_decide_true (x = x)) by done. cbn [orb g_assert]. by apply wp_bind, wp_ret, wp_ret.
  - rewrite Hlink, (bool_decide_true (x = x)), orb_true_r by done. apply wp_bind, wp_ret, wp_ret.
    rewrite bool_decide_false by congruence. by rewrite bool_decide_false in HQ by done.
Qed.

Lemma nodup_frame t f C F :
  NoDup (NULL :: locs t ++ clocs (f :: C) ++ F) ->
  iloc (fitem f) ∉ locs t /\ iloc (fitem f) ∉ locs (fsib f) /\ iloc (fitem f) ∉ clocs C /\ iloc (fitem f) <> NULL.
Proof.
  cbn [clocs]. intros H. distinct H (NULL :: iloc (fitem f) :: locs t ++ locs (fsib f) ++ clocs C ++ F).
  split_and!; congruence || done.
Qed.

(** A link into the hole is set. *)
Lemma wp_tree_replace_child w F C x h t y (Q : unit -> World -> Prop) :
  focus w F C (Some x) h t ->
  (forall w', keeps w w' -> focus w' F C (Some y) h t -> Q tt w') ->
  wp (replace_child (parent C) (is_left C) y) Q w.
Proof.
  intros H HQ. destruct w as [m ot log]. pose proof H as [Hr HC HN HD (tr & Etr & Hroot)]. cbn [nodes tree] in *.
  subst ot. unfold replace_child. destruct C as [|f C]; cbn [parent is_left].
  - rewrite decide_True by done. apply wp_set_tree, HQ.
    + split; [done|]. by exists y.
    + split; cbn [nodes tree]; try done. exists (with_root y tr). done.
  - destruct (nodup_frame _ _ _ _ HN) as (Hft & Hfs & HfC & Hnull). rewrite decide_False by done.
    cbn [repc] in HC. destruct HC as (Hf & Hs & HC).
    replace (if bool_decide (fside f = Left) then Left else Right) with (fside f) by (by destruct (fside f)).
    eapply wp_write; [exact Hf|]. rewrite set_link_nd. set (m' := <[_ := _]> m).
    assert (Hm : agree [iloc (fitem f)] m m') by (subst m'; agree_tac).
    apply HQ; [apply keeps_nodes|]. apply (focus_written H Hm).
    + each_written. split; [subst m'; by rewrite lookup_insert_eq|]. cbn [clocs]. here.
    + done.
    + eapply rep_agree; [done|by each_written|done].
    + cbn [repc]. split_and!.
      * subst m'. by rewrite lookup_insert_eq.
      * eapply rep_agree; [done|by each_written|done].
      * eapply repc_agree; [done|by each_written|done].
    + exists tr. split; [done|]. by rewrite Hroot.
Qed.

(** The balance of the parent is brought up to date. *)
Lemma wp_up w F f C h t b (Q : unit -> World -> Prop) :
  focus w F (f :: C) (top t) h t -> b = weight (fside f) * (ht t - h) -> -100 <= ht t - ht (fsib f) <= 100 ->
  (forall w', keeps w w' -> focus w' F C (Some (iloc (fitem f))) (1 + Z.max h (ht (fsib f))) (fill f t) -> Q tt w') ->
  wp (wr (add_balance b) (iloc (fitem f))) Q w.
Proof.
  intros H -> Hb1 HQ. destruct w as [m ot log]. pose proof H as [Hr HC HN HD Hroot]. cbn [nodes tree] in *.
  destruct (nodup_frame _ _ _ _ HN) as (Hft & Hfs & HfC & Hnull). cbn [repc] in HC. destruct HC as (Hf & Hs & HC).
  eapply wp_write; [exact Hf|]. set (m' := <[_ := _]> m).
  assert (Hm : agree [iloc (fitem f)] m m') by (subst m'; agree_tac).
  apply HQ; [apply keeps_nodes|]. apply (focus_written H Hm); unfold fill.
  - each_written. split; [subst m'; by rewrite lookup_insert_eq|]. cbn [clocs]. here.
  - locs_norm. solve_Permutation.
  - apply rep_mk. split_and!.
    + subst m'. rewrite lookup_insert_eq. f_equal. unfold add_balance. rewrite balance_nd.
      rewrite set_balance_id by (destruct (fside f); cbn [weight]; lia).
      destruct (fside f); cbn [nd key value left right left_child right_child opp weight]; f_equal; lia.
    + eapply rep_agree; [done|by each_written|done].
    + eapply rep_agree; [done|by each_written|done].
  - eapply repc_agree; [done|by each_written|done].
  - done.
Qed.

(** * The loop *)

(** A subtree of [t] has got longer or shorter, where the context expects the
    height [h]. *)
Definition due (grown : bool) (h : Z) (t : bt) : Prop :=
  match t with
  | E => False
  | T l _ r =>
      avl l /\ avl r /\
      if grown then
        (bal t = 0 /\ ht t = h) \/ (-1 <= bal t <= 1 /\ bal t <> 0 /\ ht t = h + 1) \/
        (-2 <= bal t <= 2 /\ ~ -1 <= bal t <= 1 /\ ht t = h + 1 /\ bal (heavier l r) <> 0)
      else
        (bal t = 0 /\ ht t = h - 1) \/ (-2 <= bal t <= 2 /\ bal t <> 0 /\ ht t = h)
  end.

Definition change (grown : bool) : Z := if grown then 1 else -1.

(** The parent of a subtree whose height has changed *)
Lemma due_parent grown h t f :
  avl t -> avl (fsib f) -> -1 <= ht (fsib f) - h <= 1 -> ht t = h + change grown ->
  (grown = true -> bal t <> 0 \/ ht (fsib f) - h <> -1) ->
  due grown (1 + Z.max h (ht (fsib f))) (fill f t).
Proof.
  intros Ht Hs Hb Hh Hg. unfold fill. destruct (fside f); cbn [mk due]; (split_and!; [done..|]).
  - unfold heavier. destruct grown; cbn [change bal ht] in *.
    + specialize (Hg eq_refl). destruct (Z.ltb_spec (ht t) (ht (fsib f))); lia.
    + lia.
  - unfold heavier. destruct grown; cbn [change bal ht] in *.
    + specialize (Hg eq_refl). destruct (Z.ltb_spec (ht (fsib f)) (ht t)); lia.
    + lia.
Qed.

(** The rebalancing of a node where it is due: the heights afterwards. *)
Definition settled (grown : bool) (h : Z) (t : bt) : Prop :=
  avl t /\ t <> E /\
  if (if grown then bal t =? 0 else negb (bal t =? 0)) then ht t = h else ht t = h + change grown /\ (grown = true -> bal t <> 0).

Lemma due_settled grown h l i r : due grown h (T l i r) -> -1 <= bal (T l i r) <= 1 -> settled grown h (T l i r).
Proof.
  cbn [due]. intros (Hl & Hr & H) Hb. split; [|split; [done|]].
  - cbn [avl bal] in *. split_and!; try done; lia.
  - destruct grown; cbn [change]; destruct (Z.eqb_spec (bal (T l i r)) 0); cbn [negb]; intuition lia.
Qed.

Lemma due_rebalanced grown h l i r t' :
  due grown h (T l i r) -> ~ -1 <= bal (T l i r) <= 1 -> rebalanced (T l i r) t' (bal (heavier l r) = 0) -> settled grown h t'.
Proof.
  cbn [due]. intros (Hl & Hr & H) Hb (Ht' & Hin & Hh). split; [done|].
  split; [intros ->; cbn in Hin; by destruct (inorder l)|].
  destruct grown; cbn [change]; destruct (Z.eqb_spec (bal t') 0); cbn [negb]; intuition lia.
Qed.

Lemma due_avl grown h l i r : due grown h (T l i r) -> avl l /\ avl r /\ -2 <= bal (T l i r) <= 2.
Proof. cbn [due]. intros (Hl & Hr & H). split_and!; [done..|destruct grown; intuition lia|destruct grown; intuition lia]. Qed.

Lemma focus_top_NULL w F C p h l i r : focus w F C p h (T l i r) -> iloc i <> NULL /\ iloc i ∉ clocs C.
Proof.
  intros H. pose proof (fo_nodup _ _ _ _ _ _ H) as HN.
  distinct HN (NULL :: iloc i :: locs l ++ locs r ++ clocs C ++ F). split; congruence || done.
Qed.

(** The rebalancing of a node and the update of the link to it *)
Lemma wp_settle grown w F C h l i r (Q : loc -> World -> Prop) :
  focus w F C (Some (iloc i)) h (T l i r) -> due grown h (T l i r) ->
  (forall w' t', keeps w w' -> focus w' F C (top t') h t' -> settled grown h t' -> inorder t' = inorder (T l i r) ->
     Q (default NULL (top t')) w') ->
  wp (b ← rd balance (iloc i);
      if (b <? -1) || (b >? 1)
      then node ← g_tree_node_balance (iloc i); _ ← replace_child (parent C) (is_left C) node; mret node
      else mret (iloc i)) Q w.
Proof.
  intros H Hdue HQ. destruct w as [m ot log]. pose proof (fo_rep _ _ _ _ _ _ H) as Hr. cbn [nodes] in Hr.
  pose proof Hr as (Hi & _). cbn [rep] in Hr. apply wp_bind. eapply wp_read; [exact Hi|]. rewrite balance_nd.
  change (ht r - ht l) with (bal (T l i r)). destruct (due_avl _ _ _ _ _ Hdue) as (Hl & Hr' & Hb).
  assert (Hstep : ~ -1 <= bal (T l i r) <= 1 ->
    wp (node ← g_tree_node_balance (iloc i); _ ← replace_child (parent C) (is_left C) node; mret node) Q (mkWorld m ot log)).
  { intros Hbig. apply wp_bind. apply (wp_balance m ot log (hole C ends) l i r); [done| |done|done|done|lia|].
    { pose proof (fo_nodup _ _ _ _ _ _ H) as HN. apply NoDup_cons in HN as [_ HN]. by apply NoDup_app in HN as [HN _]. }
    intros m' t' Hm Hrt Hreb. pose proof (due_rebalanced _ _ _ _ _ _ Hdue Hbig Hreb) as Hset.
    destruct t' as [|l' i' r']; [by destruct Hset as (_ & ? & _)|]. pose proof (proj1 (proj2 Hreb)) as Hin.
    apply wp_bind. eapply wp_tree_replace_child.
    { apply (focus_local H Hm Hrt). by rewrite (locs_inorder _ _ Hin). }
    intros w' Hk Hf. apply wp_ret. apply (HQ w' (T l' i' r')); done. }
  destruct (Z.ltb_spec (bal (T l i r)) (-1)); cbn [orb]; [apply Hstep; lia|].
  destruct (Z.gtb_spec (bal (T l i r)) 1); [apply Hstep; lia|].
  apply wp_ret, (HQ _ (T l i r)); [apply keeps_refl|done| |done]. apply due_settled; [done|lia].
Qed.

Lemma path_short path C : path_ok path C -> (length C < MAX_GTREE_HEIGHT)%nat.
Proof. intros [<- Hp]. apply prefix_length in Hp. rewrite length_fmap, anc_length in Hp. lia. Qed.

(** The loop ends with an AVL tree of the same nodes in the same order. *)
Lemma wp_restore grown path w F C h t idx (Q : unit -> World -> Prop) :
  focus w F C (top t) h t -> due grown h t -> avlc C h -> path_ok path C -> idx = index C ->
  (forall w' t', keeps w w' -> whole w' F t' -> avl t' -> inorder t' = inorder (plug C t) -> Q tt w') ->
  wp (restore_balance grown path idx (default NULL (top t))) Q w.
Proof.
  intros H Hdue Havl Hpath Hidx HQ. pose proof (path_short _ _ Hpath) as Hshort. unfold restore_balance.
  match goal with |- wp (loop ?n ?b _) _ _ => set (body := b); assert (Hfuel : (length C < n)%nat) by lia; revert Hfuel; generalize n end.
  clear Hshort. revert w h t idx H Hdue Havl Hpath Hidx HQ.
  induction C as [|f C IH]; intros w h t idx H Hdue Havl Hpath Hidx HQ fuel Hfuel;
    (destruct fuel as [|fuel]; [cbn in Hfuel; lia|]); (destruct t as [|l i r]; [done|]); cbn [loop top default from_option id];
    destruct (focus_top_NULL _ _ _ _ _ _ _ _ H) as [Hi HiC]; apply wp_bind; unfold body at 1; cbv beta iota; apply wp_bind.
  - apply (wp_path_get path []); [done|unfold index in *; cbn in *; lia|]. apply wp_bind.
    apply (wp_is_left_node w F [] (iloc i) h (T l i r)); [done..|]. apply wp_assoc, wp_bind.
    eapply wp_settle; [done|done|]. intros w' t' Hk Hf (Ht' & Hne & Hset) Hin.
    destruct t' as [|l' i' r']; [done|]. apply wp_bind. destruct w' as [m' ot' log'].
    eapply wp_read; [apply (fo_rep _ _ _ _ _ _ Hf)|]. rewrite balance_nd. cbn [parent].
    rewrite (bool_decide_true (NULL = NULL)), orb_true_r by done. apply wp_ret, wp_ret.
    apply (HQ _ (T l' i' r')); [done| |done|done]. destruct Hf as [H1 H2 H3 H4 H5]. by split.
  - apply (wp_path_get path (f :: C)); [done|unfold index in *; cbn in *; lia|]. apply wp_bind.
    apply (wp_is_left_node w F (f :: C) (iloc i) h (T l i r)); [done..|]. apply wp_assoc, wp_bind.
    eapply wp_settle; [done|done|]. intros w' t' Hk Hf (Ht' & Hne & Hset) Hin.
    destruct t' as [|l' i' r']; [done|]. apply wp_bind. destruct w' as [m' ot' log'].
    eapply wp_read; [apply (fo_rep _ _ _ _ _ _ Hf)|]. rewrite balance_nd. change (ht r' - ht l') with (bal (T l' i' r')).
    cbn [avlc] in Havl. destruct Havl as (Hs & Hsb & HavlC).
    set (stop := if grown then bal (T l' i' r') =? 0 else negb (bal (T l' i' r') =? 0)) in *. destruct stop; cbn [orb].
    + apply wp_ret, wp_ret. apply (HQ _ (plug (f :: C) (T l' i' r'))); [done| | |].
      * apply (proj1 (whole_plug _ _ (f :: C) _)). by rewrite Hset.
      * apply plug_avl; [done|]. by rewrite Hset.
      * by rewrite !bt_inorder_plug, Hin.
    + destruct Hset as [Hht Hg]. destruct (nodup_frame _ _ _ _ (fo_nodup _ _ _ _ _ _ Hf)) as (_ & _ & _ & Hnull).
      cbn [parent is_left]. rewrite bool_decide_false by done. apply wp_bind.
      replace (if bool_decide (fside f = Left) then Left else Right) with (fside f) by (by destruct (fside f)).
      eapply (wp_up _ F f C h (T l' i' r')); [done| |rewrite Hht; destruct grown; cbn [change]; lia|].
      { rewrite Hht. destruct grown, (fside f); cbn [change weight]; lia. }
      intros w2 Hk2 Hf2. apply wp_ret.
      assert (Hdue' : due grown (1 + Z.max h (ht (fsib f))) (fill f (T l' i' r'))).
      { apply due_parent; try done. intros Hgr. left. auto. }
      assert (Etop : iloc (fitem f) = default NULL (top (fill f (T l' i' r')))) by (unfold fill; by rewrite top_mk).
      rewrite Etop. apply (IH w2 (1 + Z.max h (ht (fsib f))) (fill f (T l' i' r'))); try done.
      * unfold fill. by rewrite top_mk.
      * by eapply path_ok_up.
      * unfold index in *. cbn in *. lia.
      * intros w3 t3 Hk3 Hw3 Ht3 Hin3. apply (HQ w3 t3); try done; [do 2 (eapply keeps_trans; [done|]); done|].
        rewrite Hin3. cbn [plug]. rewrite !bt_inorder_plug. unfold fill. by rewrite (inorder_mk_congr _ _ _ _ _ Hin).
      * cbn in Hfuel. lia.
Qed.
