(* ===== verification/TreeUnlink.v ===== *)
(** Walking along the nodes, and taking a node out of the tree: one with at most
    one child, and one with two, whose place the next node takes. *)
From S2P Require Import Prelude Store Tree TreeRep TreeBalance.

Open Scope c_scope.

Lemma wp_budget w (Q : nat -> World -> Prop) : Q (S (size (nodes w))) w -> wp budget Q w.
Proof. done. Qed.

(** The nodes of a tree are no more than those of the store. *)
Lemma locs_size m t B : rep m t B -> NoDup (locs t) -> (length (locs t) <= size m)%nat.
Proof.
  intros Hr HN. rewrite <- size_dom, <- (size_list_to_set (locs t) HN (C := gset loc)). apply subseteq_size.
  intros x Hx. apply elem_of_list_to_set in Hx. apply elem_of_dom. by eapply rep_dom.
Qed.

Lemma ht_length t : ht t <= Z.of_nat (length (locs t)).
Proof.
  unfold locs. induction t as [|l IHl i r IHr]; cbn [ht inorder]; [done|].
  rewrite length_fmap in *. rewrite length_app. cbn [length]. lia.
Qed.

Lemma bt_empty t : t = E \/ t <> E.
Proof. destruct t; [by left|by right]. Qed.

Lemma bt_cases d t : t = E \/ exists a i c, t = mk d a i c.
Proof. destruct t as [|l i r]; [by left|right]. by apply mk_inv. Qed.

(** Induction along one side *)
Lemma side_ind (d : side) (P : bt -> Prop) : P E -> (forall a i c, P a -> P (mk d a i c)) -> forall t, P t.
Proof.
  intros H0 Hs t. induction t as [|l IHl i r IHr]; [done|].
  destruct d; [by apply (Hs l i r)|by apply (Hs r i l)].
Qed.

(** * The outermost node on a side *)

Fixpoint outer (d : side) (t : bt) : option item :=
  match t with
  | E => None
  | T l i r =>
      let c := match d with Left => l | Right => r end in
      match c with E => Some i | T _ _ _ => outer d c end
  end.

Lemma outer_mk d a i c : outer d (mk d a i c) = match a with E => Some i | T _ _ _ => outer d a end.
Proof. by destruct d, a. Qed.

Lemma outer_inorder t : outer Left t = head (inorder t) /\ outer Right t = last (inorder t).
Proof.
  induction t as [|l [IHl _] i r [_ IHr]]; [done|]. cbn [outer inorder]. split.
  - destruct l as [|ll li lr]; [done|]. rewrite IHl. cbn [inorder]. by destruct (inorder ll).
  - rewrite last_app_cons, last_cons. destruct r as [|rl ri rr]; [done|]. rewrite IHr. cbn [inorder].
    rewrite last_app_cons, last_cons. by destruct (last (inorder rr)).
Qed.

Lemma outer_some d t : t <> E -> exists i, outer d t = Some i /\ i ∈ inorder t.
Proof.
  induction t as [|a i c IH] using (side_ind d); [done|]. intros _. rewrite outer_mk.
  assert (Hin : forall j, j = i \/ j ∈ inorder a -> j ∈ inorder (mk d a i c)).
  { intros j. rewrite inorder_mk. destruct d; rewrite elem_of_app, elem_of_cons; tauto. }
  destruct a as [|al ai ar]; [exists i; auto|]. destruct IH as (j & -> & Hj); [done|]. exists j. auto.
Qed.

Lemma in_locs i t : i ∈ inorder t -> iloc i ∈ locs t.
Proof. apply list_elem_of_fmap_2. Qed.

Lemma wp_walk_loop d m ot log t B n (Q : loc -> World -> Prop) :
  rep m t B -> t <> E -> ht t < Z.of_nat n ->
  (forall i, outer d t = Some i -> Q (iloc i) (mkWorld m ot log)) ->
  wp (loop n (fun tmp =>
    c ← rd (has_child d) tmp;
    if c : bool then p ← rd (link d) tmp; mret (inl p) else mret (inr tmp)) (default NULL (top t))) Q (mkWorld m ot log).
Proof.
  revert B n. induction t as [|a i c IH] using (side_ind d); intros B n Hr Hne Hn HQ; [done|].
  pose proof (ht_nonneg a). rewrite ht_mk in Hn. destruct n as [|n]; [lia|]. rewrite top_mk. cbn [loop default from_option id].
  rewrite outer_mk in HQ. apply rep_mk in Hr as (Hi & Ha & _). apply wp_bind, wp_bind. eapply wp_read; [exact Hi|].
  rewrite has_child_nd. destruct a as [|al ai ar]; cbn [top present].
  - apply wp_ret, wp_ret. by apply HQ.
  - apply wp_bind. eapply wp_read; [exact Hi|]. rewrite link_nd. apply wp_ret. by apply (IH _ n Ha); [done|lia|].
Qed.

Lemma wp_walk d w t B (Q : loc -> World -> Prop) :
  rep (nodes w) t B -> NoDup (locs t) -> t <> E ->
  (forall i, outer d t = Some i -> Q (iloc i) w) -> wp (walk d (default NULL (top t))) Q w.
Proof.
  intros Hr HN Hne HQ. unfold walk. apply wp_bind, wp_budget. destruct w as [m ot log].
  eapply wp_walk_loop; [exact Hr|done| |exact HQ]. pose proof (locs_size _ _ _ Hr HN). pose proof (ht_length t). cbn [nodes] in *. lia.
Qed.

(** ** The bound of a subtree is the thread of its outermost node. *)

Lemma rep_rethread d m t B i p :
  rep m t B -> NoDup (locs t) -> outer d t = Some i ->
  exists n, m !! iloc i = Some n /\ rep (<[iloc i := set_link d p n]> m) t (upd B d p).
Proof.
  revert B. induction t as [|a j c IH] using (side_ind d); intros B Hr HN Hout; [done|].
  destruct (nodup_mk _ _ _ _ HN) as (Hja & Hjc & HNa & HNc & Hac). rewrite outer_mk in Hout.
  apply rep_mk in Hr as (Hj & Ha & Hc).
  assert (Hopp : forall B q, upd (upd B d p) (opp d) q (opp d) = q) by (intros; unfold upd; by rewrite decide_True).
  destruct a as [|al ai ar].
  - injection Hout as <-. eexists. split; [exact Hj|]. rewrite set_thread_nd. apply rep_mk. split_and!.
    + rewrite lookup_insert_eq. unfold upd. rewrite decide_True by done. rewrite decide_False by (by destruct d). done.
    + done.
    + eapply (rep_agree [iloc j] m); [agree_tac|by each_written|]. same_bounds Hc.
  - set (a := T al ai ar) in *. destruct (IH (upd B (opp d) (iloc j))) as (n & Hn & Hra); [done|done|done|]. exists n. split; [done|].
    assert (Hia : iloc i ∈ locs a).
    { destruct (outer_some d a) as (i' & E & Hi'); [done|]. rewrite Hout in E. injection E as <-. by apply in_locs. }
    apply rep_mk. split_and!.
    + rewrite lookup_insert_ne by (intros E; by rewrite E in Hia). rewrite Hj. unfold upd. f_equal.
      rewrite (decide_False (P := opp d = d)) by (by destruct d). subst a. cbn [top]. by destruct d.
    + same_bounds Hra.
    + eapply (rep_agree [iloc i] m); [agree_tac|each_written; by apply Hac|]. same_bounds Hc.
Qed.

(** * Neighbours *)

Definition loc_or (p : loc) (i : option item) : loc := from_option iloc p i.

(** The next node, in a store that may have lost nodes before *)
Lemma wp_next m0 m ot log t B L1 i L2 (Q : loc -> World -> Prop) :
  rep m0 t B -> NoDup (locs t) -> inorder t = L1 ++ i :: L2 -> (forall x, x ∈ iloc <$> i :: L2 -> m !! x = m0 !! x) ->
  Q (loc_or (B Right) (head L2)) (mkWorld m ot log) -> wp (g_tree_node_next (iloc i)) Q (mkWorld m ot log).
Proof.
  revert B L1 L2. induction t as [|l IHl j r IHr]; intros B L1 L2 Hr HN E Hm HQ; [by destruct L1|].
  destruct (nodup_mk Left _ _ _ HN) as (_ & _ & HNl & HNr & _).
  destruct Hr as (Hj & Hl & Hr).
  assert (Hself : i = j -> L2 = inorder r -> wp (g_tree_node_next (iloc i)) Q (mkWorld m ot log)).
  { intros -> ->. unfold g_tree_node_next, node_neighbour.
    assert (Hmj : m !! iloc j = m0 !! iloc j) by (apply Hm; by left). rewrite Hj in Hmj.
    do 2 (apply wp_bind; eapply wp_read; [exact Hmj|]). cbn [link has_child nd right right_child].
    destruct r as [|rl ri rr]; cbn [top present]; [by apply wp_ret|].
    apply (wp_walk Left (mkWorld m ot log) (T rl ri rr) (upd B Left (iloc j))); [|done|done|].
    { eapply bt_rep_frame; [|exact Hr]. intros x Hx. apply Hm. right. exact Hx. }
    intros k Hk. rewrite (proj1 (outer_inorder _)) in Hk. by rewrite Hk in HQ. }
  cbn [inorder] in E. apply app_eq_inv in E as [(K & El & E)|(K & -> & E)]; (destruct K as [|i' K]; cbn [app] in E).
  - injection E as ??. auto.
  - injection E as -> ->. apply (IHl (upd B Right (iloc j)) L1 K Hl HNl El).
    + intros x Hx. apply Hm. rewrite app_comm_cons, fmap_app. apply elem_of_app. by left.
    + destruct K as [|k K]; [|done]. cbn [head loc_or from_option] in *. unfold upd. by rewrite decide_True.
  - injection E as ??. auto.
  - injection E as <- E. by apply (IHr (upd B Left (iloc j)) K L2 Hr HNr E).
Qed.

Lemma wp_first w t tr (Q : loc -> World -> Prop) :
  whole w [] t -> tree w = Some tr -> NULL ∉ locs t ->
  Q (loc_or NULL (head (inorder t))) w -> wp g_tree_first_node Q w.
Proof.
  intros H Ht Hn HQ. destruct w as [m ot log]. cbn [tree] in Ht. subst ot. unfold g_tree_first_node. apply wp_bind, wp_tr.
  destruct (fo_root _ _ _ _ _ _ H) as (tr' & E & Hroot). cbn [tree] in E. injection E as <-. rewrite Hroot. cbn [root_of].
  destruct t as [|l i r]; [rewrite decide_True by done; by apply wp_ret|].
  rewrite decide_False by (intros E; apply Hn; rewrite <- E, locs_T; by left).
  eapply (wp_walk Left _ (T l i r)); [apply (fo_rep _ _ _ _ _ _ H)| |done|].
  - pose proof (fo_nodup _ _ _ _ _ _ H) as HN. cbn [clocs] in HN. rewrite !app_nil_r in HN. by apply NoDup_cons in HN as [_ HN].
  - intros k Hk. rewrite (proj1 (outer_inorder _)) in Hk. by rewrite Hk in HQ.
Qed.

(** * States after a node has been taken out *)

Lemma repc_dom m C B p h x : repc m C B p h -> x ∈ clocs C -> is_Some (m !! x).
Proof.
  revert p h. induction C as [|f C IH]; intros p h; cbn [repc clocs]; [by intros _ ?%elem_of_nil|].
  intros (Hf & Hs & HC) [->|[Hx|Hx]%elem_of_app]%elem_of_cons; [by eexists|by eapply rep_dom|by eapply IH].
Qed.

Lemma focus_rebuild {m ot l F C p h t m' ot' l' F' C' p' h' t'} :
  focus (mkWorld m ot l) F C p h t -> agree (locs t ++ clocs C ++ F) m m' ->
  locs t' ++ clocs C' ++ F' ≡ₚ locs t ++ clocs C ++ F ->
  rep m' t' (hole C' ends) -> repc m' C' ends p' h' -> (forall z, z ∈ F' -> is_Some (m' !! z)) ->
  (exists tr, ot' = Some tr /\ root tr = default NULL (root_of C' p')) ->
  focus (mkWorld m' ot' l') F' C' p' h' t'.
Proof.
  intros H Hm HL Hr HC HF Hroot. apply (focus_written H Hm); try done. intros z Hz. split; [|done].
  rewrite <- HL in Hz. apply elem_of_app in Hz as [Hz|Hz]; [by eapply rep_dom|].
  apply elem_of_app in Hz as [Hz|Hz]; [by eapply repc_dom|auto].
Qed.

(** A new link into a hole, on its context only *)
Lemma wp_relink m tr log C x h y (Q : unit -> World -> Prop) :
  repc m C ends (Some x) h -> NoDup (NULL :: clocs C) -> root tr = default NULL (root_of C (Some x)) ->
  (forall m' r, agree (clocs C) m m' -> repc m' C ends (Some y) h -> r = default NULL (root_of C (Some y)) ->
     Q tt (mkWorld m' (Some (with_root r tr)) log)) ->
  wp (replace_child (parent C) (is_left C) y) Q (mkWorld m (Some tr) log).
Proof.
  intros HC HN Hroot HQ. unfold replace_child. destruct C as [|f C]; cbn [parent is_left].
  - rewrite decide_True by done. apply wp_set_tree. by apply HQ.
  - cbn [clocs] in HN. distinct HN (NULL :: iloc (fitem f) :: locs (fsib f) ++ clocs C). rewrite decide_False by congruence.
    cbn [repc] in HC. destruct HC as (Hf & Hs & HC).
    replace (if bool_decide (fside f = Left) then Left else Right) with (fside f) by (by destruct (fside f)).
    eapply wp_write; [exact Hf|]. rewrite set_link_nd. set (m' := <[_ := _]> m).
    assert (Hm : agree [iloc (fitem f)] m m') by (subst m'; agree_tac).
    specialize (HQ m' (root tr)). replace (with_root (root tr) tr) with tr in HQ by (by destruct tr). apply HQ.
    + eapply agree_sub; [exact Hm|]. each_written. cbn [clocs]. by left.
    + cbn [repc]. split_and!.
      * subst m'. by rewrite lookup_insert_eq.
      * eapply rep_agree; [done|by each_written|done].
      * eapply repc_agree; [done|by each_written|done].
    + by rewrite Hroot.
Qed.

(** * A node without children *)

(** [a] is in the place of the node [x], one level less, and the balance of the
    parent is up to date. *)
Definition taken_out (w : World) (C : list frame) (x : loc) (a : bt) : Prop :=
  match C with
  | [] => whole w [x] a
  | f :: C =>
      let h := 1 + Z.max (1 + ht a) (ht (fsib f)) in
      focus w [x] C (Some (iloc (fitem f))) h (fill f a) /\ due false h (fill f a)
  end.

Lemma wp_unlink_leaf w C i (Q : unit -> World -> Prop) :
  focus w [] C (Some (iloc i)) 1 (T E i E) -> avlc C 1 ->
  (forall w', keeps w w' -> taken_out w' C (iloc i) E -> Q tt w') ->
  wp (unlink_leaf (parent C) (is_left C) (iloc i)) Q w.
Proof.
  intros H Havl HQ. destruct w as [m ot log]. pose proof H as [Hr HC HN HD (tr & Etr & Hroot)]. cbn [nodes tree] in *. subst ot.
  destruct Hr as (Hi & _). unfold unlink_leaf. destruct C as [|f C]; cbn [parent is_left].
  - rewrite decide_True by done. apply wp_set_tree, HQ; [split; [done|by exists NULL]|].
    apply (focus_rebuild H); [done| |done|done| |by eexists].
    + cbn [clocs]. unfold locs. cbn. done.
    + intros z Hz. apply elem_of_cons in Hz as [->|Hz%elem_of_nil]; [by eexists|done].
  - destruct (nodup_frame _ _ _ _ HN) as (Hft & Hfs & HfC & Hnull). rewrite decide_False by done.
    assert (Hne : iloc i <> iloc (fitem f)) by (intros Ex; apply Hft; rewrite <- Ex, locs_T; by left).
    cbn [repc] in HC. destruct HC as (Hf & Hs & HC). cbn [avlc] in Havl. destruct Havl as (Hsa & Hsb & HavlC).
    replace (if bool_decide (fside f = Left) then Left else Right) with (fside f) by (by destruct (fside f)).
    assert (Hthread : link (fside f) (nd Left i (top E) (top E) (hole (f :: C) ends Left) (hole (f :: C) ends Right) (ht E - ht E))
      = hole C ends (fside f)) by (cbn [hole]; unfold upd; by destruct (fside f)).
    apply wp_bind. eapply wp_write; [exact Hf|]. apply wp_bind. eapply wp_read; [rewrite lookup_insert_ne by done; exact Hi|].
    rewrite Hthread. apply wp_bind. eapply wp_write; [apply lookup_insert_eq|]. unfold shorten.
    replace (if bool_decide (fside f = Left) then Left else Right) with (fside f) by (by destruct (fside f)).
    eapply wp_write; [apply lookup_insert_eq|]. rewrite !insert_insert_eq. set (m' := <[_ := _]> m).
    assert (Hm : agree [iloc (fitem f)] m m') by (subst m'; agree_tac). pose proof (ht_nonneg (fsib f)).
    apply HQ; [apply keeps_nodes|]. split.
    + apply (focus_rebuild H); unfold fill.
      * eapply agree_sub; [exact Hm|]. each_written. cbn [clocs]. here.
      * locs_norm. solve_Permutation.
      * apply rep_mk. split_and!; [|done|by eapply rep_agree; [done|by each_written|done]].
        subst m'. rewrite lookup_insert_eq. f_equal. unfold add_balance.
        rewrite set_balance_id by (destruct (fside f); cbn [weight balance nd set_link set_has_child]; lia).
        destruct (fside f); cbn [weight nd set_link set_has_child key value left right balance left_child right_child top ht present default opp]; f_equal; lia.
      * eapply repc_agree; [done|by each_written|done].
      * intros z Hz. apply elem_of_cons in Hz as [->|Hz%elem_of_nil]; [|done]. rewrite Hm; [by eexists|]. by apply not_elem_of_cons; split; [|apply not_elem_of_nil].
      * by eexists.
    + by apply (due_parent false 1 E f).
Qed.

(** * A node with one child *)

(** The parent of a shortened subtree *)
Lemma wp_shorten w C x a (Q : unit -> World -> Prop) :
  focus w [x] C (top a) (1 + ht a) a -> avl a -> avlc C (1 + ht a) -> ht a < 100 ->
  (forall w', keeps w w' -> taken_out w' C x a -> Q tt w') ->
  wp (if decide (parent C = NULL) then mret tt else shorten (parent C) (is_left C)) Q w.
Proof.
  intros H Ha Havl Hsm HQ. destruct C as [|f C]; cbn [parent is_left].
  - rewrite decide_True by done. apply wp_ret, HQ; [apply keeps_refl|]. destruct H as [H1 H2 H3 H4 H5]. by split.
  - destruct (nodup_frame _ _ _ _ (fo_nodup _ _ _ _ _ _ H)) as (_ & _ & _ & Hnull). rewrite decide_False by done. unfold shorten.
    replace (if bool_decide (fside f = Left) then Left else Right) with (fside f) by (by destruct (fside f)).
    cbn [avlc] in Havl. destruct Havl as (Hs & Hb & HC). pose proof (ht_nonneg a).
    eapply wp_up; [exact H|destruct (fside f); cbn [weight]; lia|lia|]. intros w' Hk Hf. apply HQ; [done|]. split; [done|].
    apply due_parent; try done. cbn [change]. lia.
Qed.

Lemma wp_unlink_single d w C i a (Q : unit -> World -> Prop) :
  focus w [] C (Some (iloc i)) (1 + ht a) (mk d a i E) -> a <> E -> avl a -> avlc C (1 + ht a) -> ht a < 100 ->
  (forall w', keeps w w' -> taken_out w' C (iloc i) a -> Q tt w') ->
  wp (unlink_single d (parent C) (is_left C) (iloc i)) Q w.
Proof.
  intros H Hne Ha Havl Hsm HQ. destruct w as [m ot log]. pose proof H as [Hr HC HN HD (tr & Etr & Hroot)]. cbn [nodes tree] in *. subst ot.
  apply rep_mk in Hr as (Hi & Hra & _).
  assert (HN' : NoDup (NULL :: iloc i :: locs a ++ clocs C)).
  { revert HN. apply NoDup_Permutation_proper. locs_norm. solve_Permutation. }
  apply NoDup_cons in HN' as [Hnull HN']. apply NoDup_cons in HN' as [Hia HN']. apply NoDup_app in HN' as (HNa & Hac & HNC).
  apply not_elem_of_app in Hia as [Hia HiC].
  set (B := hole C ends) in *. unfold unlink_single, node_neighbour.
  assert (Hlink : default (B d) (top a) = default NULL (top a)) by (by destruct a).
  apply wp_bind, wp_bind. eapply wp_read; [exact Hi|]. apply wp_bind. eapply wp_read; [exact Hi|].
  rewrite link_nd, has_child_nd, Hlink. replace (present (top a)) with true by (by destruct a).
  eapply (wp_walk (opp d) (mkWorld m (Some tr) log) a); [exact Hra|done|done|].
  intros pv Hpv. destruct (rep_rethread (opp d) m a _ pv (B (opp d)) Hra HNa Hpv) as (n & Hn & Hra').
  assert (Hpva : iloc pv ∈ locs a).
  { destruct (outer_some (opp d) a Hne) as (pv' & E' & Hin). rewrite Hpv in E'. injection E' as <-. by apply in_locs. }
  assert (Hpvi : iloc pv <> iloc i) by congruence.
  apply wp_bind. eapply wp_read; [exact Hi|]. rewrite link_opp_nd. cbn [default from_option id top].
  apply wp_bind. eapply wp_write; [exact Hn|]. set (m1 := <[_ := _]> m) in *.
  assert (Hm1 : agree [iloc pv] m m1) by (subst m1; agree_tac).
  assert (Hi1 : m1 !! iloc i = m !! iloc i) by (apply Hm1; apply not_elem_of_cons; split; [done|apply not_elem_of_nil]).
  apply wp_bind. eapply wp_read; [rewrite Hi1; exact Hi|]. rewrite link_nd, Hlink. apply wp_bind.
  apply (wp_relink m1 tr log C (iloc i) (1 + ht a)).
  - eapply repc_agree; [exact Hm1|each_written; by apply Hac|exact HC].
  - apply NoDup_cons. split; [|done]. rewrite !not_elem_of_cons, not_elem_of_app in Hnull. tauto.
  - done.
  - intros m' r Hm' HC' Er.
    assert (Htop : top a = Some (default NULL (top a))) by (by destruct a).
    apply (wp_shorten _ C (iloc i) a); [|done|done|done|].
    + apply (focus_rebuild H).
      * apply (agree_trans _ _ m1).
        -- eapply agree_sub; [exact Hm1|]. each_written. here.
        -- eapply agree_sub; [exact Hm'|]. intros z Hz. here.
      * locs_norm. solve_Permutation.
      * eapply rep_agree; [exact Hm'|intros z Hz Hin; by apply (Hac z)|]. subst B. same_bounds Hra'.
      * by rewrite Htop.
      * intros z Hz. apply elem_of_cons in Hz as [->|Hz%elem_of_nil]; [|done]. rewrite Hm' by done. rewrite Hi1. by eexists.
      * exists (with_root r tr). split; [done|]. by rewrite Htop.
    + intros w' Hk. apply HQ. eapply keeps_trans; [|exact Hk]. split; [done|]. by exists r.
Qed.

(** ** Zippers that are put together *)

(** The height at the end of a zipper *)
Fixpoint height_of (C : list frame) (h : Z) : Z :=
  match C with [] => h | f :: C => height_of C (1 + Z.max h (ht (fsib f))) end.

Lemma height_plug D t : height_of D (ht t) = ht (plug D t).
Proof. revert t. induction D as [|f D IH]; intros t; cbn [height_of plug]; [done|]. rewrite <- IH. unfold fill. by rewrite ht_mk. Qed.

Lemma hole_app D C B : hole (D ++ C) B = hole D (hole C B).
Proof. induction D as [|f D IH]; [done|]. cbn [app hole]. by rewrite IH. Qed.

Lemma clocs_app D C : clocs (D ++ C) = clocs D ++ clocs C.
Proof. induction D as [|f D IH]; [done|]. cbn [app clocs]. by rewrite IH, <- app_assoc. Qed.

Lemma root_of_app D C p : root_of (D ++ C) p = root_of C (root_of D p).
Proof. revert p. induction D as [|f D IH]; intros p; [done|]. apply IH. Qed.

Lemma root_of_frame D f C p : root_of (D ++ f :: C) p = root_of C (Some (iloc (fitem f))).
Proof. by rewrite root_of_app. Qed.

Lemma repc_app m D C B p h :
  repc m (D ++ C) B p h <-> repc m D (hole C B) p h /\ repc m C B (root_of D p) (height_of D h).
Proof.
  revert p h. induction D as [|f D IH]; intros p h; cbn [app repc root_of height_of]; [tauto|].
  rewrite IH, hole_app. tauto.
Qed.

Lemma avlc_frame D d i j l C h : avlc (D ++ Frame d i l :: C) h -> avlc (D ++ Frame d j l :: C) h.
Proof. revert h. induction D as [|f D IH]; intros h; cbn [app avlc]; [done|]. intros (? & ? & ?). auto. Qed.

(** Below left frames the bound on the left is that above, and matters for the
    hole only. *)
Definition leftist (D : list frame) : Prop := Forall (fun f => fside f = Left) D.

Lemma hole_left D B : leftist D -> hole D B Left = B Left.
Proof. induction 1 as [|f D Hf _ IH]; [done|]. cbn [hole]. by rewrite Hf. Qed.

Lemma hole_right D B B' : leftist D -> B Right = B' Right -> hole D B Right = hole D B' Right.
Proof. intros H E. induction H as [|f D Hf _ IH]; [done|]. cbn [hole]. rewrite Hf. by unfold upd. Qed.

Lemma repc_left m D B B' p h : leftist D -> B Right = B' Right -> repc m D B (Some p) h -> repc m D B' (Some p) h.
Proof.
  intros H E. revert p h. induction H as [|f D Hf HD IH]; intros p h; cbn [repc]; [done|]. rewrite Hf. cbn [opp].
  intros (Hn & Hs & HC). pose proof (hole_right D B B' HD E) as E'. split_and!.
  - rewrite Hn, E'. done.
  - revert Hs. apply rep_ext. intros []; unfold upd; [done|]. by rewrite !decide_False by done.
  - by apply IH.
Qed.

Lemma pre_left D : leftist D -> pre D = [].
Proof. induction 1 as [|f D Hf _ IH]; [done|]. cbn [pre]. by rewrite IH, Hf. Qed.

(** ** The search for the next node *)

(** The path with an element still to be set, for the next node *)
Definition gap (path : list (option loc)) (D C : list frame) (l : bt) : Prop :=
  length path = MAX_GTREE_HEIGHT /\
  forall j, path_ok (<[S (length C) := Some (iloc j)]> path) (D ++ Frame Right j l :: C).

Lemma gap_start path C l : path_ok path C -> (S (length C) < MAX_GTREE_HEIGHT)%nat -> gap path [] C l.
Proof. intros Hp HC. split; [apply Hp|]. intros j. by apply (path_ok_put path C (Frame Right j l)). Qed.

Lemma wp_gap_put path D C l f idx (Q : list (option loc) -> World -> Prop) w :
  gap path D C l -> idx = Z.of_nat (S (length D + S (length C))) -> (S (length D + S (length C)) < MAX_GTREE_HEIGHT)%nat ->
  (forall path, gap path (f :: D) C l -> Q path w) -> wp (path_put path idx (iloc (fitem f))) Q w.
Proof.
  intros [Hl Hp] -> Hlen HQ. apply (path_put_at path (S (length D + S (length C)))); [done|done|done|].
  apply HQ. split; [by rewrite length_insert|]. intros j. rewrite list_insert_insert_ne by lia.
  replace (S (length D + S (length C))) with (S (length (D ++ Frame Right j l :: C))) by (by rewrite length_app).
  apply path_ok_put; [apply Hp|]. by rewrite length_app.
Qed.

Lemma wp_find_next_loop w l i C t D path idx fuel (Q : list (option loc) * Z * loc * loc -> World -> Prop) :
  rep (nodes w) t (hole (D ++ Frame Right i l :: C) ends) -> t <> E -> ht t < Z.of_nat fuel ->
  leftist D -> gap path D C l -> idx = Z.of_nat (length D + S (length C)) ->
  Z.of_nat (length D + S (length C)) + ht t <= Z.of_nat MAX_GTREE_HEIGHT ->
  (forall D' n c path', plug D' (T E n c) = plug D t -> leftist D' -> gap path' D' C l ->
     Q (path', Z.of_nat (length D' + S (length C)), parent (D' ++ Frame Right i l :: C), iloc n) w) ->
  wp (loop fuel (fun '(path, idx, nextp, next) =>
    c ← rd left_child next;
    if c : bool then
      path ← path_put path (idx + 1) next;
      next' ← rd left next;
      mret (inl (path, idx + 1, next, next'))
    else mret (inr (path, idx, nextp, next)))
    (path, idx, parent (D ++ Frame Right i l :: C), default NULL (top t))) Q w.
Proof.
  intros Hr Hne Hf HD Hg -> Hht HQ. destruct w as [m ot log]. revert D path fuel Hr Hne Hf HD Hg Hht HQ.
  induction t as [|a IH n c _]; intros D path fuel Hr Hne Hf HD Hg Hht HQ; [done|].
  pose proof (ht_nonneg a). pose proof (ht_nonneg c). cbn [ht] in Hf, Hht. destruct fuel as [|fuel]; [lia|].
  cbn [loop top default from_option id]. pose proof Hr as (Hn & Ha & _). apply wp_bind, wp_bind. eapply wp_read; [exact Hn|].
  cbn [nd left_child]. destruct a as [|al ai ar]; cbn [top present].
  - apply wp_ret, wp_ret. by apply (HQ D n c).
  - apply wp_bind. set (f := Frame Left n c).
    assert (Hlong : 1 <= ht (T al ai ar)) by (by apply ht_pos).
    apply (wp_gap_put path D C l f); [done|lia|unfold MAX_GTREE_HEIGHT in *; lia|]. intros path' Hg'.
    apply wp_bind. eapply wp_read; [exact Hn|]. cbn [nd left default from_option id top]. apply wp_ret.
    replace (Z.of_nat (length D + S (length C)) + 1) with (Z.of_nat (length (f :: D) + S (length C))) by (cbn; lia).
    apply (IH (f :: D) path'); try done; [lia|by constructor|cbn [length]; lia].
Qed.

(** ** The next node takes the place of the node. *)

(** The thread of the previous node, the left part of the next one and the link
    to it *)
Lemma wp_settle_next {A} m tr log C i n l nn b rl h (k : cmd World A) (Q : A -> World -> Prop) :
  rep m l (upd (hole C ends) Right (iloc i)) -> l <> E ->
  m !! iloc i = Some (nd Right i rl (top l) (hole C ends Right) (hole C ends Left) b) -> -128 <= b < 128 ->
  m !! iloc n = Some nn -> repc m C ends (Some (iloc i)) h ->
  NoDup (NULL :: iloc i :: iloc n :: locs l ++ clocs C) -> root tr = default NULL (root_of C (Some (iloc i))) ->
  (forall m' r, agree (iloc n :: locs l ++ clocs C) m m' -> rep m' l (upd (hole C ends) Right (iloc n)) ->
     m' !! iloc n = Some (mkNode (key nn) (value nn) (default NULL (top l)) (right nn) b true (right_child nn)) ->
     repc m' C ends (Some (iloc n)) h -> r = default NULL (root_of C (Some (iloc n))) ->
     wp k Q (mkWorld m' (Some (with_root r tr)) log)) ->
  wp (prev ← walk Right (default NULL (top l)); _ ← wr (set_link Right (iloc n)) prev;
      _ ← put_next (parent C) (is_left C) (iloc i) (iloc n); k) Q (mkWorld m (Some tr) log).
Proof.
  intros Hl Hne Hi Hb Hn HC HN Hroot HQ. apply NoDup_cons in HN as [Hnull HN]. apply NoDup_cons in HN as [Hi' HN].
  apply NoDup_cons in HN as [Hn' HN]. apply NoDup_app in HN as (HNl & HlC & HNC).
  rewrite !not_elem_of_cons, not_elem_of_app in Hnull. rewrite not_elem_of_cons, not_elem_of_app in Hi'. rewrite not_elem_of_app in Hn'.
  destruct_and? Hnull. destruct_and? Hi'. destruct_and? Hn'.
  apply wp_bind. eapply (wp_walk Right (mkWorld m (Some tr) log) l); [exact Hl|done|done|].
  intros pv Hpv. destruct (rep_rethread Right m l _ pv (iloc n) Hl HNl Hpv) as (np & Hnp & Hl').
  assert (Hpvl : iloc pv ∈ locs l).
  { destruct (outer_some Right l Hne) as (pv' & E' & Hin). rewrite Hpv in E'. injection E' as <-. by apply in_locs. }
  assert (iloc pv <> iloc i) by congruence. assert (iloc pv <> iloc n) by congruence.
  assert (Ell : left (nd Right i rl (top l) (hole C ends Right) (hole C ends Left) b) = default NULL (top l)) by (cbn; by destruct l).
  assert (Eb : balance (nd Right i rl (top l) (hole C ends Right) (hole C ends Left) b) = b) by done.
  set (ni := nd Right i _ _ _ _ _) in *. clearbody ni.
  apply wp_bind. eapply wp_write; [exact Hnp|]. set (m1 := <[iloc pv := _]> m) in *.
  assert (Hi1 : m1 !! iloc i = Some ni) by (subst m1; by rewrite lookup_insert_ne).
  assert (Hn1 : m1 !! iloc n = Some nn) by (subst m1; by rewrite lookup_insert_ne).
  assert (Hm1 : agree [iloc pv] m m1) by (subst m1; agree_tac). clearbody m1.
  apply wp_bind. unfold put_next. apply wp_bind. eapply wp_write; [exact Hn1|].
  apply wp_bind. eapply wp_read; [by rewrite lookup_insert_ne by done|]. rewrite Ell.
  apply wp_bind. eapply wp_write; [apply lookup_insert_eq|].
  apply wp_bind. eapply wp_read; [by rewrite !lookup_insert_ne by done|]. rewrite Eb.
  apply wp_bind. eapply wp_write; [apply lookup_insert_eq|]. rewrite !insert_insert_eq.
  set (m2 := <[iloc n := _]> m1). assert (Hm2 : agree [iloc n] m1 m2) by (subst m2; agree_tac).
  apply (wp_relink m2 tr log C (iloc i) h).
  - eapply repc_agree; [exact Hm2|by each_written|]. eapply repc_agree; [exact Hm1|each_written; by apply HlC|done].
  - by apply NoDup_cons.
  - done.
  - intros m' r Hm' HC' Hr. apply HQ; [|..|done|done].
    + apply (agree_trans _ _ m2); [apply (agree_trans _ _ m1)|].
      * eapply agree_sub; [exact Hm1|]. each_written. here.
      * eapply agree_sub; [exact Hm2|]. each_written. here.
      * eapply agree_sub; [exact Hm'|]. intros z Hz. here.
    + eapply rep_agree; [exact Hm'|intros z Hz Hin; by apply (HlC z)|].
      eapply rep_agree; [exact Hm2|by each_written|]. same_bounds Hl'.
    + rewrite Hm' by done. subst m2. rewrite lookup_insert_eq. rewrite set_balance_id by done. done.
Qed.

(** The next node is the right child. *)
Lemma wp_take_near {A} m tr log C i n l c h (k : cmd World A) (Q : A -> World -> Prop) :
  focus (mkWorld m (Some tr) log) [] C (Some (iloc i)) h (mk Right (T E n c) i l) -> l <> E ->
  -1 <= ht l - (1 + ht c) <= 1 ->
  (forall w', keeps (mkWorld m (Some tr) log) w' -> focus w' [iloc i] C (Some (iloc n)) h (mk Right c n l) -> wp k Q w') ->
  wp (_ ← take_out_next (iloc i) (iloc i) (iloc n);
      prev ← walk Right (default NULL (top l)); _ ← wr (set_link Right (iloc n)) prev;
      _ ← put_next (parent C) (is_left C) (iloc i) (iloc n); k) Q (mkWorld m (Some tr) log).
Proof.
  intros H Hne Hb HQ. pose proof (ht_nonneg c). pose proof H as [Hr HC HN HD (tr' & Etr & Hroot)]. cbn [nodes tree] in *. injection Etr as <-.
  apply rep_mk in Hr as (Hi & (Hn & _ & Hc) & Hl). cbn [top opp weight ht] in *.
  assert (HN' : NoDup (locs c ++ NULL :: iloc i :: iloc n :: locs l ++ clocs C)).
  { revert HN. apply NoDup_Permutation_proper. locs_norm. solve_Permutation. }
  apply NoDup_app in HN' as (HNc & Hcn & HN').
  assert (Hin : iloc i <> iloc n /\ iloc i ∉ locs l ++ clocs C).
  { apply NoDup_cons in HN' as [_ HN']. apply NoDup_cons in HN' as [HN' _]. rewrite not_elem_of_cons in HN'. tauto. }
  rewrite not_elem_of_app in Hin. destruct Hin as (Hin & Hil & HiC).
  unfold take_out_next. rewrite bool_decide_true by done. cbn [negb].
  apply wp_bind. eapply wp_write; [exact Hi|]. set (m1 := <[_ := _]> m).
  assert (Hm1 : agree [iloc i] m m1) by (subst m1; agree_tac).
  eapply (wp_settle_next m1 tr log C i n l _ (ht c - ht l) (Some (iloc n)) h); [| | |lia| | |exact HN'|exact Hroot|].
  - eapply rep_agree; [exact Hm1|by each_written|exact Hl].
  - done.
  - subst m1. rewrite lookup_insert_eq. unfold add_balance. rewrite balance_nd, set_balance_id by lia. cbn. f_equal. f_equal. lia.
  - subst m1. rewrite lookup_insert_ne by done. exact Hn.
  - eapply repc_agree; [exact Hm1|by each_written|exact HC].
  - intros m' r Hm' Hl' Hn' HC' Hr. apply HQ; [split; [done|by exists r]|]. apply (focus_rebuild H).
    + apply (agree_trans _ _ m1).
      * eapply agree_sub; [exact Hm1|]. each_written. here.
      * eapply agree_sub; [exact Hm'|]. intros z Hz. revert Hz. locs_norm. repeat first [rewrite elem_of_app|rewrite elem_of_cons]. tauto.
    + locs_norm. solve_Permutation.
    + apply rep_mk. split_and!; cbn [opp weight].
      * rewrite Hn'. destruct l as [|ll li lr]; [done|]. cbn [nd key value right right_child top present default from_option id].
        unfold upd. rewrite decide_False by done. f_equal. f_equal; lia.
      * eapply rep_agree; [exact Hm'| |].
        { intros z Hz Hzc. apply (Hcn z Hzc). do 2 right. exact Hz. }
        eapply rep_agree; [exact Hm1| |same_bounds Hc]. each_written. intros Hzc. apply (Hcn _ Hzc). right. by left.
      * exact Hl'.
    + exact HC'.
    + intros z Hz. apply elem_of_cons in Hz as [->|Hz%elem_of_nil]; [|done]. rewrite Hm'.
      * subst m1. rewrite lookup_insert_eq. by eexists.
      * rewrite not_elem_of_cons, not_elem_of_app. done.
    + by exists (with_root r tr).
Qed.

(** The next node is taken from its parent. *)
Lemma wp_take_out_far {A} m ot log i n c f rt ni B (k : cmd World A) (Q : A -> World -> Prop) :
  m !! iloc n = Some (nd Left n None (top c) (B Left) (iloc f.(fitem)) (ht c - 0)) -> m !! iloc i = Some ni -> right ni = rt ->
  m !! iloc (fitem f) =
    Some (nd Left (fitem f) (Some (iloc n)) (top (fsib f)) (B Left) (B Right) (-1 * (1 + ht c - ht (fsib f)))) ->
  -1 <= ht (fsib f) - (1 + ht c) <= 1 ->
  iloc n <> iloc i -> iloc n <> iloc (fitem f) -> iloc i <> iloc (fitem f) ->
  (forall m1 nn, agree [iloc (fitem f); iloc n] m m1 ->
     m1 !! iloc (fitem f) = Some (nd Left (fitem f) (top c) (top (fsib f)) (iloc n) (B Right) (-1 * (ht c - ht (fsib f)))) ->
     m1 !! iloc n = Some nn -> key nn = ikey n -> value nn = ival n -> right nn = rt -> right_child nn = true ->
     wp k Q (mkWorld m1 ot log)) ->
  wp (_ ← take_out_next (iloc i) (iloc (fitem f)) (iloc n); k) Q (mkWorld m ot log).
Proof.
  intros Hn Hi Hrt Hf Hb H1 H2 H3 HQ. unfold take_out_next. rewrite bool_decide_false by congruence. cbn [negb].
  cbn [nd present default from_option id] in Hn, Hf, HQ.
  assert (Hfin : forall m1, agree [iloc (fitem f); iloc n] m m1 ->
    m1 !! iloc (fitem f) = Some (nd Left (fitem f) (top c) (top (fsib f)) (iloc n) (B Right) (-1 * (ht c - ht (fsib f)))) ->
    (exists nn, m1 !! iloc n = Some nn /\ key nn = ikey n /\ value nn = ival n /\ right nn = rt /\ right_child nn = true) ->
    wp k Q (mkWorld m1 ot log)).
  { intros m1 Hm1 Hf1 (nn & Hn1 & ? & ? & ? & ?). by eapply HQ. }
  clear HQ. cbn [nd] in Hfin. repeat node_step. destruct c as [|cl ci cr]; repeat node_step; (apply Hfin; [agree_tac| |]).
  all: try (eexists; split; [rewrite lookup_insert_eq; reflexivity|done]).
  all: rewrite !lookup_insert_ne by congruence; rewrite lookup_insert_eq; cbn [top present default from_option id ht] in *.
  all: unfold add_balance; cbn [balance]; rewrite set_balance_id by lia; cbn; f_equal; f_equal; lia.
Qed.

Lemma root_of_Some D x : exists y, root_of D (Some x) = Some y.
Proof. revert x. induction D as [|f D IH]; intros x; [by exists x|]. apply IH. Qed.

Lemma wp_take_far {A} m tr log C i n l c f D (k : cmd World A) (Q : A -> World -> Prop) :
  focus (mkWorld m (Some tr) log) [] (f :: D ++ Frame Right i l :: C) (Some (iloc n)) (1 + ht c) (T E n c) ->
  leftist (f :: D) -> l <> E -> -1 <= ht (fsib f) - (1 + ht c) <= 1 -> -1 <= ht l - height_of (f :: D) (1 + ht c) <= 1 ->
  (forall w', keeps (mkWorld m (Some tr) log) w' ->
     focus w' [iloc i] (D ++ Frame Right n l :: C) (Some (iloc (fitem f))) (1 + Z.max (1 + ht c) (ht (fsib f))) (fill f c) -> wp k Q w') ->
  wp (_ ← take_out_next (iloc i) (iloc (fitem f)) (iloc n);
      prev ← walk Right (default NULL (top l)); _ ← wr (set_link Right (iloc n)) prev;
      _ ← put_next (parent C) (is_left C) (iloc i) (iloc n); k) Q (mkWorld m (Some tr) log).
Proof.
  intros H HD Hne Hb Hbl HQ. pose proof (ht_nonneg c). pose proof H as [Hr HC HN Hdom (tr' & Etr & Hroot)].
  cbn [nodes tree] in *. injection Etr as <-. inversion HD as [|? ? Hf HD']; subst.
  cbn [repc] in HC. rewrite Hf in HC. destruct HC as (Hfn & Hs & HC). apply repc_app in HC as [HCD HC].
  cbn [repc fside fitem fsib opp weight height_of] in HC. destruct HC as (Hi & Hl & HC).
  destruct (root_of_Some D (iloc (fitem f))) as [rt Ert]. rewrite Ert in Hi. cbn [height_of] in Hbl.
  set (h0 := 1 + Z.max (1 + ht c) (ht (fsib f))) in *. set (hr := height_of D h0) in *.
  destruct Hr as (Hn & _ & Hc). cbn [hole] in Hn, Hc. rewrite Hf in Hn, Hc. cbn [opp] in Hn, Hc.
  set (B := hole (D ++ Frame Right i l :: C) ends) in *.
  assert (HN' : NoDup ((locs c ++ locs (fsib f) ++ clocs D) ++ iloc (fitem f) :: NULL :: iloc i :: iloc n :: locs l ++ clocs C)).
  { revert HN. apply NoDup_Permutation_proper. cbn [clocs]. rewrite clocs_app. locs_norm. solve_Permutation. }
  apply NoDup_app in HN' as (_ & Hsep & HN'). apply NoDup_cons in HN' as [Hfo HN'].
  pose proof HN' as Hd. apply NoDup_cons in Hd as [_ Hd]. apply NoDup_cons in Hd as [Hio Hd]. apply NoDup_cons in Hd as [Hno Hd].
  rewrite !not_elem_of_cons, not_elem_of_app in Hfo. rewrite not_elem_of_cons, not_elem_of_app in Hio. rewrite not_elem_of_app in Hno.
  destruct_and? Hfo. destruct_and? Hio. destruct_and? Hno.
  assert (Hsep' : forall z, z ∈ locs c ++ locs (fsib f) ++ clocs D -> z <> iloc (fitem f) /\ z <> iloc n /\ z ∉ locs l ++ clocs C).
  { intros z Hz. specialize (Hsep z Hz). rewrite !not_elem_of_cons in Hsep. tauto. } clear Hsep.
  eapply (wp_take_out_far m (Some tr) log i n c f rt _ B); [exact Hn|exact Hi|done|exact Hfn|done|done|congruence|congruence|].
  intros m1 nn Hm1 Hf1 Hn1 Ek Ev Er Erc.
  eapply (wp_settle_next m1 tr log C i n l nn (hr - ht l) (Some rt)).
  - eapply rep_agree; [exact Hm1|by each_written|exact Hl].
  - done.
  - rewrite Hm1 by (rewrite !not_elem_of_cons; split_and!; [done|done|apply not_elem_of_nil]). rewrite Hi. do 2 f_equal. lia.
  - lia.
  - exact Hn1.
  - eapply repc_agree; [exact Hm1|by each_written|exact HC].
  - exact HN'.
  - rewrite Hroot. cbn [root_of]. by rewrite root_of_frame.
  - intros m' r Hm' Hl' Hn' HC' Hr. apply HQ; [split; [done|by exists r]|].
    assert (HmL : forall L : list loc, (forall z : loc, z ∈ L -> z ∈ locs c ++ locs (fsib f) ++ clocs D) -> forall x : loc, x ∈ L -> m' !! x = m !! x).
    { intros L HL x Hx. destruct (Hsep' x (HL x Hx)) as (? & ? & ?). rewrite Hm' by (by rewrite not_elem_of_cons).
      apply Hm1. rewrite !not_elem_of_cons. split_and!; [done|done|apply not_elem_of_nil]. }
    assert (HBr : hole (D ++ Frame Right n l :: C) ends Right = B Right).
    { subst B. rewrite !hole_app. by apply hole_right. }
    assert (HBl : hole (D ++ Frame Right n l :: C) ends Left = iloc n).
    { rewrite hole_app, hole_left by done. done. }
    apply (focus_rebuild H).
    + intros z Hz. revert Hz. rewrite not_elem_of_app. cbn [clocs]. rewrite clocs_app. locs_norm.
      repeat first [rewrite not_elem_of_app|rewrite not_elem_of_cons]. intros Hz. destruct_and? Hz.
      rewrite Hm' by (rewrite not_elem_of_cons, not_elem_of_app; done).
      apply Hm1. rewrite !not_elem_of_cons. split_and!; [done|done|apply not_elem_of_nil].
    + unfold fill. cbn [clocs]. rewrite !clocs_app. locs_norm. solve_Permutation.
    + unfold fill. rewrite Hf. apply rep_mk. cbn [opp weight]. split_and!.
      * rewrite Hm' by (rewrite not_elem_of_cons, not_elem_of_app; done). rewrite Hf1, HBl, HBr. done.
      * eapply bt_rep_frame; [apply HmL; intros z Hz; apply elem_of_app; by left|]. revert Hc. apply rep_ext.
        intros []; unfold upd; [|done]. by rewrite HBl.
      * eapply bt_rep_frame; [apply HmL; intros z Hz; apply elem_of_app; right; apply elem_of_app; by left|]. revert Hs. apply rep_ext.
        intros []; unfold upd; [done|]. by rewrite !decide_False, HBr by done.
    + apply repc_app. rewrite Ert. fold hr. split.
      * eapply bt_repc_frame; [apply HmL; intros z Hz; apply elem_of_app; right; apply elem_of_app; by right|].
        revert HCD. by apply repc_left.
      * cbn [repc fside fitem fsib opp weight]. split_and!; [|exact Hl'|exact HC'].
        rewrite Hn', Er, Erc, Ek, Ev. destruct l as [|ll li lr]; [done|]. cbn [nd present top default from_option id].
        f_equal. f_equal. lia.
    + intros z Hz. apply elem_of_cons in Hz as [->|Hz%elem_of_nil]; [|done].
      rewrite Hm' by (rewrite not_elem_of_cons, not_elem_of_app; done).
      rewrite Hm1 by (rewrite !not_elem_of_cons; split_and!; [done|done|apply not_elem_of_nil]). by eexists.
    + exists (with_root r tr). split; [done|]. by rewrite root_of_frame.
Qed.

(** * All cases *)

(** The node [x] has been taken out and the items [L] are left: there is nothing
    to do, or the loop that restores the balance has to start at the results of
    [unlink]. *)
Definition detached (w : World) (x : loc) (L : list item) (res : list (option loc) * Z * loc) : Prop :=
  let '(path, idx, balance) := res in
  (balance = NULL /\ exists t, whole w [x] t /\ avl t /\ inorder t = L) \/
  (exists C h t, focus w [x] C (top t) h t /\ due false h t /\ avlc C h /\ path_ok path C /\ idx = index C /\
     balance = default NULL (top t) /\ inorder (plug C t) = L).

Lemma taken_out_detached w C x a path h :
  taken_out w C x a -> path_ok path C -> avlc C h -> h = 1 + ht a -> avl a ->
  detached w x (pre C ++ inorder a ++ post C) (path, index C - 1, parent C).
Proof.
  intros H Hp Havl -> Ha. destruct C as [|f C]; cbn [taken_out parent] in *.
  - left. split; [done|]. exists a. split_and!; [done|done|]. cbn. by rewrite app_nil_r.
  - right. destruct H as [Hf Hdue]. exists C. eexists. exists (fill f a).
    assert (Etop : top (fill f a) = Some (iloc (fitem f))) by apply top_mk. rewrite Etop.
    split_and!; [exact Hf|exact Hdue|apply Havl|by eapply path_ok_up|unfold index; cbn; lia|done|].
    by rewrite <- (bt_inorder_plug (f :: C)).
Qed.

Lemma wp_unlink_double path C w i l r idx (Q : list (option loc) * Z * loc -> World -> Prop) :
  focus w [] C (Some (iloc i)) (ht (T l i r)) (T l i r) -> avl (T l i r) -> avlc C (ht (T l i r)) -> l <> E -> r <> E ->
  path_ok path C -> idx = index C - 1 -> ht (plug C (T l i r)) <= Z.of_nat MAX_GTREE_HEIGHT ->
  (forall w' res, keeps w w' -> detached w' (iloc i) (pre C ++ (inorder l ++ inorder r) ++ post C) res -> Q res w') ->
  wp (unlink_double path idx (parent C) (is_left C) (iloc i)) Q w.
Proof.
  intros H Havl HavlC Hl Hr Hp -> Hht HQ. destruct w as [m ot log].
  pose proof (fo_rep _ _ _ _ _ _ H) as Hrep. cbn [nodes] in Hrep. destruct (fo_root _ _ _ _ _ _ H) as (tr & Etr & _). cbn [tree] in Etr. subst ot.
  pose proof Hrep as (Hi & Hrl & Hrr). cbn [rep] in Hrep. pose proof (plug_ht C (T l i r)) as Hlen. cbn [ht] in Hlen.
  pose proof (ht_pos r Hr). pose proof (ht_nonneg l). destruct Havl as (Hal & Har & Hbal).
  unfold unlink_double. apply wp_bind. eapply wp_read; [exact Hi|]. apply wp_bind. eapply wp_read; [exact Hi|].
  replace (left _) with (default NULL (top l)) by (cbn; by destruct l). replace (right _) with (default NULL (top r)) by (cbn; by destruct r).
  cbv zeta. replace (index C - 1 + 1) with (Z.of_nat (S (length C))) by (unfold index; lia). apply wp_bind. unfold find_next.
  assert (Hshort : (S (length C) < MAX_GTREE_HEIGHT)%nat) by (unfold MAX_GTREE_HEIGHT in *; lia).
  apply (wp_find_next_loop _ l i C r []); [exact Hrr|done|unfold MAX_GTREE_HEIGHT in *; lia|constructor|by apply gap_start|done| |].
  { cbn [length]. lia. }
  intros D n c path' Eplug HD [Hgl Hg]. cbn [plug] in Eplug. cbv beta iota zeta.
  apply wp_bind. apply (path_put_at path' (S (length C))); [done|done|done|].
  specialize (Hg n). set (path2 := <[_ := _]> path') in *. clearbody path2. apply wp_bind.
  eapply (wp_path_get path2 (D ++ Frame Right n l :: C)); [exact Hg|unfold index; rewrite length_app; cbn; lia|].
  assert (HDC : focus (mkWorld m (Some tr) log) [] (D ++ Frame Right i l :: C) (Some (iloc n)) (1 + ht c) (T E n c) /\
    avl (T E n c) /\ avlc (D ++ Frame Right i l :: C) (1 + ht c)).
  { pose proof (ht_nonneg c). assert (Ht : avl (plug D (T E n c))) by by rewrite Eplug. apply avl_plug in Ht as [Ht HtD]. cbn [ht] in HtD.
    replace (1 + Z.max 0 (ht c)) with (ht (T E n c)) in HtD by done. replace (1 + ht c) with (ht (T E n c)) by (cbn; lia).
    split_and!; [|done|].
    - apply (proj2 (whole_plug _ _ (D ++ Frame Right i l :: C) (T E n c))). rewrite bt_plug_app, Eplug.
      apply (proj1 (whole_plug _ _ C (T l i r))). exact H.
    - apply (proj2 (avl_plug (D ++ Frame Right i l :: C) (T E n c) ltac:(rewrite bt_plug_app, Eplug; by apply (plug_avl C (T l i r))))). }
  destruct HDC as (Hfoc & Hatn & Havn). pose proof (ht_nonneg c) as Hc0.
  assert (HhD : height_of D (1 + ht c) = ht r).
  { rewrite <- Eplug, <- height_plug. f_equal. cbn. lia. }
  assert (Hin : inorder (plug D c) = inorder c ++ post D /\ inorder r = n :: inorder (plug D c)).
  { rewrite <- Eplug, !bt_inorder_plug, (pre_left D HD). done. }
  assert (Hend : forall C' h' t' b w', keeps (mkWorld m (Some tr) log) w' -> focus w' [iloc i] C' b h' t' -> b = top t' -> due false h' t' -> avlc C' h' ->
     path_ok path2 C' -> Z.of_nat (length D + S (length C)) = index C' -> inorder (plug C' t') = pre C ++ (inorder l ++ inorder r) ++ post C ->
     Q (path2, Z.of_nat (length D + S (length C)), default NULL (top t')) w').
  { intros C' h' t' b w' Hk Hf -> Hdue Ha Hp' Hx Hin'. apply HQ; [done|]. right. by exists C', h', t'. }
  destruct HD as [|f D Hf HD]; cbn [app parent].
  - cbn [plug] in Eplug. subst r. cbn [length]. rewrite Nat.add_0_l in *. cbn [ht] in *.
    eapply (wp_take_near m tr log C i n l c); [exact H|done|lia|]. intros w' Hk Hfoc'. apply wp_ret.
    cbn [fitem]. change (iloc n) with (default NULL (top (mk Right c n l))). eapply Hend; [exact Hk|exact Hfoc'|done| |exact HavlC|by eapply path_ok_up|unfold index; lia|].
    + replace (1 + Z.max (ht l) (1 + Z.max 0 (ht c))) with (1 + Z.max (1 + ht c) (ht (fsib (Frame Right n l)))) by (cbn [ht fsib]; lia).
      apply (due_parent false (1 + ht c) c (Frame Right n l)); [apply Hatn|done|cbn [fsib]; lia|cbn [change]; lia|done].
    + rewrite bt_inorder_plug. cbn [mk inorder app]. by rewrite <- !app_assoc.
  - cbn [app] in Havn. destruct Havn as (Hsf & Hbf & HavD).
    eapply (wp_take_far m tr log C i n l c f D); [exact Hfoc| |done|lia|lia|]. { by constructor. }
    intros w' Hk Hfoc'. apply wp_ret. replace (iloc (fitem f)) with (default NULL (top (fill f c))) by (unfold fill; by rewrite top_mk).
    eapply Hend; [exact Hk|exact Hfoc'|unfold fill; by rewrite top_mk| | |by eapply path_ok_up|unfold index; rewrite length_app; cbn; lia|].
    + apply due_parent; [apply Hatn|done|lia|cbn [change]; lia|done].
    + by eapply avlc_frame.
    + rewrite bt_plug_app. cbn [plug]. rewrite bt_inorder_plug. unfold fill at 1. cbn [fside fitem fsib mk inorder].
      destruct Hin as [_ ->]. cbn [plug]. by rewrite <- !app_assoc.
Qed.

Lemma wp_tree_unlink path C w i l r idx (Q : list (option loc) * Z * loc -> World -> Prop) :
  focus w [] C (Some (iloc i)) (ht (T l i r)) (T l i r) -> avl (T l i r) -> avlc C (ht (T l i r)) ->
  path_ok path C -> idx = index C - 1 -> ht (plug C (T l i r)) <= Z.of_nat MAX_GTREE_HEIGHT ->
  (forall w' res, keeps w w' -> detached w' (iloc i) (pre C ++ (inorder l ++ inorder r) ++ post C) res -> Q res w') ->
  wp (unlink path idx (parent C) (is_left C) (iloc i)) Q w.
Proof.
  intros H Havl HavlC Hp Hidx Hht HQ. destruct w as [m ot log].
  pose proof (fo_rep _ _ _ _ _ _ H) as (Hi & _). cbn [nodes] in Hi. pose proof (plug_ht C (T l i r)) as Hlen.
  pose proof Havl as (Hal & Har & Hbal). pose proof (ht_nonneg l). pose proof (ht_nonneg r). cbn [ht] in Hlen.
  unfold unlink. apply wp_bind. eapply wp_read; [exact Hi|]. apply wp_bind. eapply wp_read; [exact Hi|].
  destruct (bt_empty l) as [->|Hl], (bt_empty r) as [->|Hr]; cbn [nd left_child right_child top present].
  - apply wp_bind. eapply wp_unlink_leaf; [exact H|done|]. intros w' Hk Ht. apply wp_ret, HQ; [done|]. subst idx. cbn [inorder app].
    by eapply (taken_out_detached w' C (iloc i) E path 1).
  - replace (present (top r)) with true by (by destruct r). cbn [ht] in *.
    replace (1 + Z.max 0 (ht r)) with (1 + ht r) in * by lia. apply wp_bind.
    eapply (wp_unlink_single Right); [exact H|done|done|done|unfold MAX_GTREE_HEIGHT in *; lia|]. intros w' Hk Ht. apply wp_ret, HQ; [done|].
    subst idx. cbn [inorder app]. by eapply (taken_out_detached w' C (iloc i) r path).
  - replace (present (top l)) with true by (by destruct l). cbn [ht] in *.
    replace (1 + Z.max (ht l) 0) with (1 + ht l) in * by lia. apply wp_bind.
    eapply (wp_unlink_single Left); [exact H|done|done|done|unfold MAX_GTREE_HEIGHT in *; lia|]. intros w' Hk Ht. apply wp_ret, HQ; [done|].
    subst idx. cbn [inorder app]. rewrite app_nil_r. by eapply (taken_out_detached w' C (iloc i) l path).
  - replace (present (top l)) with true by (by destruct l). replace (present (top r)) with true by (by destruct r).
    by eapply wp_unlink_double.
Qed.
