(* ===== verification/TreeRead.v ===== *)
(** Ordered trees: the machine of sorted entries, the way from the root to the
    place of a key, and the functions that read a tree: lookups, searches, height
    and traversals. *)
From stdpp Require Import sorting.
From S2P Require Import Prelude Store Tree TreeRep TreeBalance TreeUnlink.

Open Scope c_scope.

(** * Orders *)

(** What a comparison function has to be: a total preorder on keys. *)
Class KeyOrder (cmp : Z -> Z -> Z) : Prop := {
  cmp_antisym a b : Z.sgn (cmp a b) = - Z.sgn (cmp b a);
  cmp_trans a b c : cmp a b <= 0 -> cmp b c <= 0 -> cmp a c <= 0;
}.

Section order.
Context (cmp : Z -> Z -> Z) `{!KeyOrder cmp}.

Lemma cmp_flip a b : (cmp a b < 0 <-> 0 < cmp b a) /\ (cmp a b = 0 <-> cmp b a = 0).
Proof. pose proof (cmp_antisym a b). lia. Qed.

Lemma cmp_lt_le a b c : cmp a b < 0 -> cmp b c <= 0 -> cmp a c < 0.
Proof.
  intros H1 H2. pose proof (cmp_flip a c) as [H3 H4]. pose proof (cmp_flip a b) as [H5 H6].
  assert (Hac : cmp a c <= 0) by (apply (cmp_trans a b c); lia).
  destruct (decide (cmp a c = 0)) as [E|]; [|lia]. assert (Hba : cmp b a <= 0) by (apply (cmp_trans b c a); lia). lia.
Qed.

Lemma cmp_le_lt a b c : cmp a b <= 0 -> cmp b c < 0 -> cmp a c < 0.
Proof.
  intros H1 H2. pose proof (cmp_flip a c) as [H3 H4]. pose proof (cmp_flip b c) as [H5 H6].
  assert (Hac : cmp a c <= 0) by (apply (cmp_trans a b c); lia).
  destruct (decide (cmp a c = 0)) as [E|]; [|lia]. assert (Hcb : cmp c b <= 0) by (apply (cmp_trans c a b); lia). lia.
Qed.

(** * The machine: entries in ascending order *)

Abbreviation entry := (Z * Z)%type.
Definition before (x y : entry) : Prop := cmp x.1 y.1 < 0.
Abbreviation ascending := (StronglySorted before).

Fixpoint put (k v : Z) (replace : bool) (L : list entry) : list entry :=
  match L with
  | [] => [(k, v)]
  | (k', v') :: L' =>
      let c := cmp k k' in
      if c =? 0 then ((if replace then k else k'), v) :: L'
      else if c <? 0 then (k, v) :: L
      else (k', v') :: put k v replace L'
  end.

Definition find_entry (k : Z) (L : list entry) : option entry := list_find (fun e => cmp k e.1 = 0) L ≫= fun p => Some p.2.

Definition without (k : Z) (L : list entry) : list entry := filter (fun e => cmp k e.1 <> 0) L.

(** Keys on which a search goes right, or left *)
Definition below (dir : Z -> Z) (L : list entry) : Prop := Forall (fun e => 0 < dir e.1) L.
Definition above (dir : Z -> Z) (L : list entry) : Prop := Forall (fun e => dir e.1 < 0) L.

Lemma put_new k v r L1 L2 : below (cmp k) L1 -> above (cmp k) L2 -> put k v r (L1 ++ L2) = L1 ++ (k, v) :: L2.
Proof.
  intros H1 H2. induction H1 as [|[k' v'] L1 H _ IH]; cbn [app put].
  - destruct H2 as [|[k' v'] L2 H _]; [done|]. cbn [fst] in H. cbn [put].
    destruct (Z.eqb_spec (cmp k k') 0); [lia|]. destruct (Z.ltb_spec (cmp k k') 0); [done|lia].
  - cbn [fst] in H. destruct (Z.eqb_spec (cmp k k') 0); [lia|]. destruct (Z.ltb_spec (cmp k k') 0); [lia|]. by rewrite IH.
Qed.

Lemma put_old k v r L1 k' v' L2 :
  below (cmp k) L1 -> cmp k k' = 0 -> put k v r (L1 ++ (k', v') :: L2) = L1 ++ ((if r then k else k'), v) :: L2.
Proof.
  intros H1 H2. induction H1 as [|[k1 v1] L1 H _ IH]; cbn [app put].
  - by rewrite H2.
  - cbn [fst] in H. destruct (Z.eqb_spec (cmp k k1) 0); [lia|]. destruct (Z.ltb_spec (cmp k k1) 0); [lia|]. by rewrite IH.
Qed.

Lemma before_put e k v r L : Forall (before e) L -> cmp e.1 k < 0 -> Forall (before e) (put k v r L).
Proof.
  intros H Hk. induction H as [|[k' v'] L H HL IH]; cbn [put]; [by constructor|].
  destruct (Z.eqb_spec (cmp k k') 0) as [E|N]; [|destruct (Z.ltb_spec (cmp k k') 0)]; constructor; try done.
  - unfold before in *. cbn in *. by destruct r.
  - by constructor.
Qed.

Lemma put_ascending k v r L : ascending L -> ascending (put k v r L).
Proof.
  induction 1 as [|[k' v'] L HL IH H]; cbn [put]; [repeat constructor|].
  destruct (Z.eqb_spec (cmp k k') 0) as [E|N]; [|destruct (Z.ltb_spec (cmp k k') 0) as [Hlt|Hge]]; constructor; try done.
  - destruct r; [|done]. eapply Forall_impl; [exact H|]. unfold before. cbn. intros e He. apply (cmp_le_lt _ k'); [lia|done].
  - by constructor.
  - constructor; [done|]. eapply Forall_impl; [exact H|]. unfold before. cbn. intros e He. by apply (cmp_lt_le _ k'); [|lia].
  - apply before_put; [done|]. cbn. apply cmp_flip. lia.
Qed.

Lemma without_ascending k L : ascending L -> ascending (without k L).
Proof.
  unfold without. induction 1 as [|e L HL IH H]; [constructor|]. rewrite filter_cons. case_decide; [|done].
  constructor; [done|]. apply Forall_forall. intros x Hx. apply list_elem_of_filter in Hx as [_ Hx]. by eapply Forall_forall in H.
Qed.

Lemma filter_keeps_all {A} (P : A -> Prop) `{!forall x, Decision (P x)} L : Forall P L -> filter P L = L.
Proof. induction 1 as [|x L Hx _ IH]; [done|]. by rewrite filter_cons_True, IH. Qed.

Lemma without_below k L : below (cmp k) L -> without k L = L.
Proof. intros H. apply filter_keeps_all. eapply Forall_impl; [exact H|]. cbn. lia. Qed.
Lemma without_above k L : above (cmp k) L -> without k L = L.
Proof. intros H. apply filter_keeps_all. eapply Forall_impl; [exact H|]. cbn. lia. Qed.

Lemma without_old k L1 e L2 : below (cmp k) L1 -> above (cmp k) L2 -> cmp k e.1 = 0 -> without k (L1 ++ e :: L2) = L1 ++ L2.
Proof.
  intros H1 H2 He. unfold without. rewrite filter_app, filter_cons_False by lia.
  fold (without k L1) (without k L2). by rewrite without_below, without_above.
Qed.

Lemma without_none k L1 L2 : below (cmp k) L1 -> above (cmp k) L2 -> without k (L1 ++ L2) = L1 ++ L2.
Proof. intros H1 H2. unfold without. rewrite filter_app. fold (without k L1) (without k L2). by rewrite without_below, without_above. Qed.

Lemma find_none k L1 L2 : below (cmp k) L1 -> above (cmp k) L2 -> find_entry k (L1 ++ L2) = None.
Proof.
  intros H1 H2. unfold find_entry. rewrite (proj2 (list_find_None _ _)); [done|]. apply Forall_app.
  split; [eapply Forall_impl; [exact H1|]|eapply Forall_impl; [exact H2|]]; cbn; lia.
Qed.

Lemma find_old k L1 e L2 : below (cmp k) L1 -> cmp k e.1 = 0 -> find_entry k (L1 ++ e :: L2) = Some e.
Proof.
  intros H1 He. unfold find_entry. induction H1 as [|e1 L1 H _ IH]; cbn [app list_find].
  - by rewrite decide_True.
  - rewrite decide_False by lia. destruct (list_find _ (L1 ++ e :: L2)) as [[n e']|]; [|done]. cbn in *. congruence.
Qed.

(** ** On trees *)

Definition entry_of (i : item) : entry := (ikey i, ival i).
Abbreviation entries L := (entry_of <$> L).

(** The functions that direct a search: along the order, first right of the
    place, then left of it. *)
Definition directs (dir : Z -> Z) : Prop :=
  forall a b, cmp a b < 0 -> (dir a < 0 -> dir b < 0) /\ (0 < dir b -> 0 < dir a).

Lemma cmp_directs k : directs (cmp k).
Proof.
  intros a b Hab. split; intros H.
  - apply (cmp_lt_le _ a); [done|lia].
  - apply cmp_flip. apply (cmp_lt_le _ b); [done|]. pose proof (cmp_flip k b). lia.
Qed.

(** What is searched for is in the hole of [C], or nowhere. *)
Record searching (dir : Z -> Z) (C : list frame) : Prop := {
  se_pre : below dir (entries (pre C));
  se_post : above dir (entries (post C));
}.

Lemma searching_top dir : searching dir [].
Proof. split; constructor. Qed.

Lemma ascending_split L1 e L2 :
  ascending (L1 ++ e :: L2) -> ascending L1 /\ ascending L2 /\ Forall (fun e' => before e' e) L1 /\ Forall (before e) L2.
Proof.
  intros H. apply StronglySorted_app in H as (H1 & H2 & H3). apply StronglySorted_cons in H3 as [H3 H4]. split_and!; try done.
  eapply Forall_impl; [|intros x Hx; exact Hx]. apply Forall_forall. intros x Hx. apply H1; [done|by left].
Qed.

(** A step in the direction given *)
Lemma searching_down dir C d a i c :
  directs dir -> searching dir C -> ascending (entries (inorder (plug C (mk d a i c)))) ->
  dir (ikey i) <> 0 -> side_of (dir (ikey i)) = d -> searching dir (Frame d i c :: C).
Proof.
  intros Hdir [Hpre Hpost] Hs Hk <-. rewrite bt_inorder_plug, inorder_mk in Hs. unfold side_of in *. revert Hs.
  destruct (Z.ltb_spec (dir (ikey i)) 0) as [Hlt|Hge]; intros Hs; cbn [pre post fside fitem fsib] in *.
  - rewrite <- app_assoc, !fmap_app in Hs. cbn [fmap list_fmap app] in Hs. rewrite app_assoc in Hs.
    apply ascending_split in Hs as (_ & _ & _ & H). split; cbn [pre post fside fitem fsib].
    + by rewrite app_nil_r.
    + cbn [fmap list_fmap app]. constructor; [done|]. rewrite fmap_app.
      eapply Forall_impl; [exact H|]. cbn. intros e He. by apply (Hdir (ikey i)).
  - rewrite <- app_assoc, !fmap_app in Hs. cbn [fmap list_fmap app] in Hs. rewrite app_assoc in Hs.
    apply ascending_split in Hs as (_ & _ & H & _). split; cbn [pre post fside fitem fsib].
    + rewrite app_assoc, fmap_app. apply Forall_app. split; [|constructor; [cbn; lia|constructor]].
      rewrite fmap_app. eapply Forall_impl; [exact H|]. cbn. intros e He. apply (Hdir _ (ikey i)); [done|lia].
    + done.
Qed.

(** The sorted entries around a hole *)
Lemma entries_plug C t : entries (inorder (plug C t)) = entries (pre C) ++ entries (inorder t) ++ entries (post C).
Proof. by rewrite bt_inorder_plug, !fmap_app. Qed.

(** The entries around a node with an equal key *)
Lemma searching_found k C l i r :
  ascending (entries (inorder (plug C (T l i r)))) -> cmp k (ikey i) = 0 ->
  below (cmp k) (entries (pre C) ++ entries (inorder l)) /\ above (cmp k) (entries (inorder r) ++ entries (post C)).
Proof.
  intros Hs Hk. rewrite entries_plug in Hs. cbn [inorder] in Hs. rewrite fmap_app, <- app_assoc in Hs.
  cbn [fmap list_fmap app] in Hs. rewrite app_assoc in Hs. apply ascending_split in Hs as (_ & _ & H1 & H2).
  split; [eapply Forall_impl; [exact H1|]|eapply Forall_impl; [exact H2|]]; unfold before; cbn; intros e He.
  - apply cmp_flip. apply (cmp_lt_le _ (ikey i)); [done|]. pose proof (cmp_flip k (ikey i)). lia.
  - apply (cmp_le_lt _ (ikey i)); [lia|done].
Qed.
End order.

Abbreviation entry := (Z * Z)%type.
Abbreviation entries L := (entry_of <$> L).
Abbreviation ascending cmp := (StronglySorted (before cmp)).

(** * Searching *)

Section search.
Context (cmp : Z -> Z -> Z) `{!KeyOrder cmp}.

(** A command that directs a search *)
Definition reads_dir (m : gmap loc GTreeNode) ot log (dirc : loc -> cmd World Z) (dir : Z -> Z) : Prop :=
  forall p n (Q : Z -> World -> Prop), m !! p = Some n -> Q (dir (key n)) (mkWorld m ot log) -> wp (dirc p) Q (mkWorld m ot log).

Lemma compare_reads m tr log k : key_compare tr = cmp -> reads_dir m (Some tr) log (compare k) (cmp k).
Proof.
  intros Hc p n Q Hp HQ. unfold compare. apply wp_bind, wp_tr, wp_bind. eapply wp_read; [exact Hp|].
  apply wp_ret. by rewrite Hc.
Qed.

(** What a search for a zero of [dir] finds *)
Definition found (dir : Z -> Z) (t : bt) (p : loc) : Prop :=
  (exists i, i ∈ inorder t /\ dir (ikey i) = 0 /\ p = iloc i) \/
  (p = NULL /\ Forall (fun i => dir (ikey i) <> 0) (inorder t)).

Lemma ascending_parts l i r :
  ascending cmp (entries (inorder (T l i r))) ->
  ascending cmp (entries (inorder l)) /\ ascending cmp (entries (inorder r)) /\
  Forall (fun j => cmp (ikey j) (ikey i) < 0) (inorder l) /\ Forall (fun j => cmp (ikey i) (ikey j) < 0) (inorder r).
Proof.
  cbn [inorder]. rewrite fmap_app. cbn [fmap list_fmap]. intros H. apply ascending_split in H as (H1 & H2 & H3 & H4).
  rewrite Forall_fmap in H3, H4. split_and!; [done|done|exact H3|exact H4].
Qed.

Lemma wp_search_node m ot log dirc dir t B n (Q : loc -> World -> Prop) :
  reads_dir m ot log dirc dir -> directs cmp dir -> rep m t B -> t <> E -> ascending cmp (entries (inorder t)) ->
  ht t < Z.of_nat n ->
  (forall p, found dir t p -> Q p (mkWorld m ot log)) ->
  wp (loop n (fun node =>
    cmp ← dirc node;
    if cmp =? 0 then mret (inr node)
    else
      let d := side_of cmp in
      c ← rd (has_child d) node;
      if negb c then mret (inr NULL)
      else next ← rd (link d) node; mret (inl next)) (default NULL (top t))) Q (mkWorld m ot log).
Proof.
  intros Hd Hdir. revert B n Q. induction t as [|l IHl i r IHr]; intros B n Q Hr Hne Hs Hn HQ; [done|].
  pose proof (ht_nonneg l). pose proof (ht_nonneg r). cbn [ht] in Hn.
  destruct n as [|n]; [lia|]. cbn [loop top default from_option id].
  pose proof Hr as (Hi & Hl & Hr'). cbn [rep] in Hi. destruct (ascending_parts _ _ _ Hs) as (Hsl & Hsr & Hlt & Hgt).
  assert (Hleft : dir (ikey i) < 0 -> forall p, (p = NULL /\ l = E \/ l <> E /\ found dir l p) -> found dir (T l i r) p).
  { intros Hneg p Hp.
    assert (Hrest : Forall (fun j => dir (ikey j) <> 0) (inorder r)).
    { eapply Forall_impl; [exact Hgt|]. cbn. intros j Hj. pose proof (proj1 (Hdir _ _ Hj) Hneg). lia. }
    destruct Hp as [[-> ->]|[_ [(j & Hj & Ej & ->)|[-> Hall]]]].
    - right. split; [done|]. cbn [inorder app]. constructor; [lia|done].
    - left. exists j. split; [|done]. cbn [inorder]. apply elem_of_app. by left.
    - right. split; [done|]. cbn [inorder]. apply Forall_app. split; [done|]. constructor; [lia|done]. }
  assert (Hright : 0 < dir (ikey i) -> forall p, (p = NULL /\ r = E \/ r <> E /\ found dir r p) -> found dir (T l i r) p).
  { intros Hpos p Hp.
    assert (Hrest : Forall (fun j => dir (ikey j) <> 0) (inorder l)).
    { eapply Forall_impl; [exact Hlt|]. cbn. intros j Hj. pose proof (proj2 (Hdir _ _ Hj) Hpos). lia. }
    destruct Hp as [[-> ->]|[_ [(j & Hj & Ej & ->)|[-> Hall]]]].
    - right. split; [done|]. cbn [inorder]. apply Forall_app. split; [done|]. constructor; [lia|constructor].
    - left. exists j. split; [|done]. cbn [inorder]. apply elem_of_app. right. by right.
    - right. split; [done|]. cbn [inorder]. apply Forall_app. split; [done|]. constructor; [lia|done]. }
  apply wp_bind, wp_bind. eapply Hd; [exact Hi|]. rewrite key_nd.
  destruct (Z.eqb_spec (dir (ikey i)) 0) as [E0|N0].
  { apply wp_ret, wp_ret, HQ. left. exists i. split; [cbn [inorder]; apply elem_of_app; right; by left|done]. }
  unfold side_of. destruct (Z.ltb_spec (dir (ikey i)) 0) as [Hneg|Hpos].
  - apply wp_bind. eapply wp_read; [exact Hi|]. rewrite has_child_nd. destruct l as [|ll li lr]; cbn [top present negb].
    + apply wp_ret, wp_ret, HQ, Hleft; [done|]. by left.
    + apply wp_bind. eapply wp_read; [exact Hi|]. rewrite link_nd. apply wp_ret.
      eapply (IHl _ n); [exact Hl|done|done|lia|]. intros p Hp. apply HQ, Hleft; [done|]. by right.
  - apply wp_bind. eapply wp_read; [exact Hi|]. cbn [has_child nd right_child].
    destruct r as [|rl ri rr]; cbn [top present negb].
    + apply wp_ret, wp_ret, HQ, Hright; [lia|]. by left.
    + apply wp_bind. eapply wp_read; [exact Hi|]. cbn [link nd right default from_option id top]. apply wp_ret.
      eapply (IHr _ n); [exact Hr'|done|done|lia|]. intros p Hp. apply HQ, Hright; [lia|]. by right.
Qed.

(** A tree object and its nodes *)
Record stored (w : World) (t : bt) (tr : GTree) : Prop := {
  st_whole : whole w [] t;
  st_tree : tree w = Some tr;
  st_compare : key_compare tr = cmp;
  st_ascending : ascending cmp (entries (inorder t));
}.

Lemma stored_root w t tr : stored w t tr -> root tr = default NULL (top t).
Proof. intros [H Ht _ _]. destruct (fo_root _ _ _ _ _ _ H) as (tr' & E & Hr). by simplify_eq. Qed.

Lemma stored_nodup w t tr : stored w t tr -> NoDup (locs t) /\ NULL ∉ locs t.
Proof.
  intros [H _ _ _]. pose proof (fo_nodup _ _ _ _ _ _ H) as HN. cbn [clocs] in HN. rewrite !app_nil_r in HN.
  by apply NoDup_cons in HN as [? ?].
Qed.

Lemma stored_budget w t tr : stored w t tr -> ht t < Z.of_nat (S (size (nodes w))).
Proof.
  intros H. pose proof (locs_size _ _ _ (fo_rep _ _ _ _ _ _ (st_whole _ _ _ H)) (proj1 (stored_nodup _ _ _ H))).
  pose proof (ht_length t). lia.
Qed.

Lemma top_NULL w t tr : stored w t tr -> default NULL (top t) = NULL <-> t = E.
Proof.
  intros H. destruct (stored_nodup _ _ _ H) as [_ Hn]. destruct t as [|l i r]; cbn [top default from_option id]; [done|].
  split; [|done]. intros E. destruct Hn. rewrite <- E, locs_T. by left.
Qed.

Lemma wp_search w t tr dirc dir (Q : loc -> World -> Prop) :
  stored w t tr -> reads_dir (nodes w) (tree w) (calls w) dirc dir -> directs cmp dir -> t <> E ->
  (forall p, found dir t p -> Q p w) -> wp (search_node dirc (default NULL (top t))) Q w.
Proof.
  intros H Hd Hdir Hne HQ. unfold search_node. apply wp_bind, wp_budget. destruct w as [m ot log].
  eapply (wp_search_node m ot log dirc dir t ends); try done; [apply (fo_rep _ _ _ _ _ _ (st_whole _ _ _ H))|apply H|].
  apply (stored_budget _ _ _ H).
Qed.

Lemma wp_find_node w t tr k (Q : loc -> World -> Prop) :
  stored w t tr -> (forall p, found (cmp k) t p -> Q p w) -> wp (g_tree_find_node k) Q w.
Proof.
  intros H HQ. unfold g_tree_find_node. destruct w as [m ot log] eqn:Ew. pose proof (st_tree _ _ _ H) as E. cbn [tree] in E. subst ot.
  apply wp_bind, wp_tr. rewrite (stored_root _ _ _ H). destruct (bt_empty t) as [->|Hne].
  - rewrite decide_True by done. apply wp_ret, HQ. right. split; [done|constructor].
  - rewrite decide_False by (by rewrite (top_NULL _ _ _ H)).
    eapply (wp_search _ t tr _ (cmp k)); try done; [|by apply cmp_directs]. apply compare_reads, H.
Qed.

Lemma node_of m t B i : rep m t B -> i ∈ inorder t -> exists n, m !! iloc i = Some n /\ key n = ikey i /\ value n = ival i.
Proof.
  revert B. induction t as [|l IHl j r IHr]; intros B; cbn [rep inorder]; [by intros _ ?%elem_of_nil|].
  intros (Hj & Hl & Hr) [Hi|[->|Hi]%elem_of_cons]%elem_of_app; eauto.
Qed.

(** The entry of a node that has been found *)
Lemma found_entry w t tr k p :
  stored w t tr -> found (cmp k) t p ->
  (p = NULL /\ find_entry cmp k (entries (inorder t)) = None) \/
  exists i n, p = iloc i /\ iloc i <> NULL /\ nodes w !! p = Some n /\ key n = ikey i /\ value n = ival i /\
    find_entry cmp k (entries (inorder t)) = Some (entry_of i).
Proof.
  intros H [(i & Hi & H0 & ->)|[-> Hall]].
  - right. destruct (stored_nodup _ _ _ H) as [_ Hn].
    assert (Hil : iloc i ∈ locs t) by (by apply list_elem_of_fmap_2).
    destruct (node_of _ _ _ _ (fo_rep _ _ _ _ _ _ (st_whole _ _ _ H)) Hi) as (n & En & Ek & Ev). exists i, n. split_and!; try done; [by intros E; rewrite E in Hil|].
    pose proof (st_ascending _ _ _ H) as Hs. apply list_elem_of_split in Hi as (L1 & L2 & E). rewrite E in Hs |- *.
    rewrite fmap_app in Hs |- *. cbn [fmap list_fmap] in Hs |- *. apply ascending_split in Hs as (_ & _ & H1 & _).
    apply find_old; [|done]. eapply Forall_impl; [exact H1|]. unfold before. cbn. intros e He.
    apply (cmp_flip _). apply (cmp_lt_le _ _ (ikey i)); [done|]. pose proof (cmp_flip _ k (ikey i)). lia.
  - left. split; [done|]. unfold find_entry. rewrite (proj2 (list_find_None _ _)); [done|]. by rewrite Forall_fmap.
Qed.

Lemma wp_tree_lookup w t tr k (Q : option Z -> World -> Prop) :
  stored w t tr -> Q (snd <$> find_entry cmp k (entries (inorder t))) w -> wp (g_tree_lookup k) Q w.
Proof.
  intros H HQ. unfold g_tree_lookup. apply wp_bind. eapply wp_find_node; [done|]. intros p Hp.
  destruct (found_entry _ _ _ _ _ H Hp) as [[-> E]|(i & n & -> & Hn & En & Ek & Ev & E)]; rewrite E in HQ.
  - rewrite decide_True by done. by apply wp_ret.
  - rewrite decide_False by done. apply wp_bind. destruct w as [m ot log]. eapply wp_read; [exact En|]. apply wp_ret. by rewrite Ev.
Qed.

Lemma wp_lookup_extended w t tr k (Q : option (Z * Z) -> World -> Prop) :
  stored w t tr -> Q (find_entry cmp k (entries (inorder t))) w -> wp (g_tree_lookup_extended k) Q w.
Proof.
  intros H HQ. unfold g_tree_lookup_extended. apply wp_bind. eapply wp_find_node; [done|]. intros p Hp.
  destruct (found_entry _ _ _ _ _ H Hp) as [[-> E]|(i & n & -> & Hn & En & Ek & Ev & E)]; rewrite E in HQ.
  - rewrite decide_True by done. by apply wp_ret.
  - rewrite decide_False by done. apply wp_bind. destruct w as [m ot log]. eapply wp_read; [exact En|].
    apply wp_bind. eapply wp_read; [exact En|]. apply wp_ret. by rewrite Ek, Ev.
Qed.

(** The value of an entry on which the function is 0, or that there is none *)
Definition search_answer (dir : Z -> Z) (L : list entry) (v : option Z) : Prop :=
  match v with
  | Some x => exists k, (k, x) ∈ L /\ dir k = 0
  | None => Forall (fun e => dir e.1 <> 0) L
  end.

Lemma wp_tree_search w t tr dir (Q : option Z -> World -> Prop) :
  stored w t tr -> directs cmp dir -> (forall v, search_answer dir (entries (inorder t)) v -> Q v w) -> wp (g_tree_search dir) Q w.
Proof.
  intros H Hdir HQ. destruct w as [m ot log]. pose proof (st_tree _ _ _ H) as E. cbn [tree] in E. subst ot.
  unfold g_tree_search. apply wp_bind, wp_tr. rewrite (stored_root _ _ _ H). destruct (bt_empty t) as [->|Hne].
  { rewrite decide_True by done. apply wp_ret, HQ. constructor. }
  rewrite decide_False by (by rewrite (top_NULL _ _ _ H)). unfold g_tree_node_search.
  rewrite decide_False by (by rewrite (top_NULL _ _ _ H)). apply wp_bind.
  eapply (wp_search _ t tr _ dir); try done.
  { intros p n Q' Hp HQ'. apply wp_bind. eapply wp_read; [exact Hp|]. by apply wp_ret. }
  intros p [(i & Hi & E0 & ->)|[-> Hall]].
  - destruct (stored_nodup _ _ _ H) as [_ Hn]. pose proof (in_locs _ _ Hi) as Hil.
    destruct (node_of _ _ _ _ (fo_rep _ _ _ _ _ _ (st_whole _ _ _ H)) Hi) as (n & En & _ & Ev).
    rewrite decide_False by (intros E; by rewrite E in Hil). apply wp_bind. eapply wp_read; [exact En|]. apply wp_ret, HQ.
    exists (ikey i). split; [|done]. rewrite Ev. by apply (list_elem_of_fmap_2 entry_of).
  - rewrite decide_True by done. apply wp_ret, HQ. cbn [search_answer]. by rewrite Forall_fmap.
Qed.

(** * Height *)

Lemma wp_height w t tr (Q : Z -> World -> Prop) :
  stored w t tr -> ht t < 2 ^ 31 -> Q (ht t) w -> wp g_tree_height Q w.
Proof.
  intros H Hb HQ. destruct w as [m ot log]. pose proof (st_tree _ _ _ H) as E. cbn [tree] in E. subst ot.
  unfold g_tree_height. apply wp_bind, wp_tr. rewrite (stored_root _ _ _ H). destruct (bt_empty t) as [->|Hne].
  { rewrite decide_True by done. by apply wp_ret. }
  rewrite decide_False by (by rewrite (top_NULL _ _ _ H)). apply wp_bind, wp_budget.
  pose proof (stored_budget _ _ _ H) as Hn. pose proof (fo_rep _ _ _ _ _ _ (st_whole _ _ _ H)) as Hr. cbn [nodes] in *.
  assert (Hgen : forall t h n B, rep m t B -> t <> E -> 0 <= h -> h + ht t < 2 ^ 31 -> ht t < Z.of_nat n ->
    Q (h + ht t) (mkWorld m (Some tr) log) ->
    wp (loop n (fun '(height, node) =>
      b ← rd balance node;
      let height := s32 (height + (1 + Z.max b 0)) in
      c ← rd left_child node;
      if negb c then mret (inr height)
      else node ← rd left node; mret (inl (height, node))) (h, default NULL (top t))) Q (mkWorld m (Some tr) log)).
  { clear. intros t. induction t as [|l IHl i r _]; intros h n B Hr Hne Hh Hlt Hn HQ; [done|].
    pose proof (ht_nonneg l). pose proof (ht_nonneg r). cbn [ht] in *. destruct n as [|n]; [lia|].
    destruct Hr as (Hi & Hl & _). cbn [loop top default from_option id]. apply wp_bind, wp_bind. eapply wp_read; [exact Hi|].
    rewrite balance_nd. apply wp_bind. eapply wp_read; [exact Hi|]. cbn [nd left_child].
    change (2 ^ 31) with 2147483648 in Hlt. rewrite swrap_id by (change (2 ^ (32 - 1)) with 2147483648; lia).
    destruct l as [|ll li lr]; cbn [top present negb].
    - apply wp_ret, wp_ret. cbn [ht] in *. by replace (h + (1 + Z.max (ht r - 0) 0)) with (h + (1 + Z.max 0 (ht r))) by lia.
    - apply wp_bind. eapply wp_read; [exact Hi|]. cbn [nd left default from_option id top]. apply wp_ret.
      apply (IHl _ n _ Hl); [done|lia|change (2 ^ 31) with 2147483648; lia|lia|].
      replace (h + (1 + Z.max (ht r - ht (T ll li lr)) 0) + ht (T ll li lr)) with (h + (1 + Z.max (ht (T ll li lr)) (ht r))) by lia.
      done. }
  apply (Hgen t 0 _ _ Hr); [done|lia|lia|lia|done].
Qed.

(** * Traversal *)

Section traversal.
Context {A : Type} (func : Z -> Z -> A -> A * bool).

(** The entries are visited in turn until the function answers to stop. *)
Fixpoint visit_all (L : list entry) (a : A) : A * bool :=
  match L with
  | [] => (a, false)
  | (k, v) :: L => let '(a, stop) := func k v a in if stop then (a, true) else visit_all L a
  end.

Lemma visit_all_app L1 L2 a :
  visit_all (L1 ++ L2) a = let '(a, stop) := visit_all L1 a in if stop then (a, true) else visit_all L2 a.
Proof.
  revert a. induction L1 as [|[k v] L1 IH]; intros a; cbn [app visit_all]; [done|].
  destruct (func k v a) as [a' []]; [done|]. apply IH.
Qed.

Lemma wp_visit m ot log p n a (Q : A * bool -> World -> Prop) :
  m !! p = Some n -> Q (func (key n) (value n) a) (mkWorld m ot log) -> wp (visit func p a) Q (mkWorld m ot log).
Proof.
  intros Hp HQ. unfold visit. do 2 (apply wp_bind; eapply wp_read; [exact Hp|]). by apply wp_ret.
Qed.

Lemma wp_foreach w t tr a (Q : A -> World -> Prop) :
  stored w t tr -> Q (fst (visit_all (entries (inorder t)) a)) w -> wp (g_tree_foreach func a) Q w.
Proof.
  intros H HQ. destruct (stored_nodup _ _ _ H) as [HN Hnull]. destruct w as [m ot log].
  pose proof (st_tree _ _ _ H) as E. cbn [tree] in E. subst ot.
  unfold g_tree_foreach. apply wp_bind, wp_tr. rewrite (stored_root _ _ _ H). destruct (bt_empty t) as [->|Hne].
  { rewrite decide_True by done. by apply wp_ret. }
  rewrite decide_False by (by rewrite (top_NULL _ _ _ H)). apply wp_bind.
  eapply wp_first; [apply H|done|done|]. apply wp_bind, wp_budget.
  pose proof (fo_rep _ _ _ _ _ _ (st_whole _ _ _ H)) as Hr. cbn [nodes] in *.
  assert (Hgen : forall L2 L1 a n, inorder t = L1 ++ L2 -> (length L2 < n)%nat ->
    Q (fst (visit_all (entries L2) a)) (mkWorld m (Some tr) log) ->
    wp (loop n (fun '(node, a) =>
      if decide (node = NULL) then mret (inr a)
      else
        '(a, stop) ← visit func node a;
        if stop : bool then mret (inr a)
        else next ← g_tree_node_next node; mret (inl (next, a))) (loc_or NULL (head L2), a)) Q (mkWorld m (Some tr) log)).
  { intros L2. induction L2 as [|i L2 IH]; intros L1 b n E Hn HQ2; (destruct n as [|n]; [cbn in Hn; lia|]);
      cbn [loop head loc_or from_option]; apply wp_bind.
    - rewrite decide_True by done. by apply wp_ret, wp_ret.
    - assert (Hi : i ∈ inorder t) by (rewrite E; apply elem_of_app; right; by left).
      rewrite decide_False by (intros E'; apply Hnull; rewrite <- E'; by apply in_locs).
      destruct (node_of _ _ _ _ Hr Hi) as (nd & En & Ek & Ev). apply wp_bind. eapply wp_visit; [exact En|]. rewrite Ek, Ev.
      cbn [fmap list_fmap visit_all] in HQ2. unfold entry_of at 1 in HQ2. destruct (func (ikey i) (ival i) b) as [b' []].
      + by apply wp_ret, wp_ret.
      + apply wp_bind. eapply (wp_next m m _ _ t _ L1 i L2); [exact Hr|done|done|done|]. apply wp_ret.
        apply (IH (L1 ++ [i])); [by rewrite <- app_assoc|cbn in Hn; lia|done]. }
  apply (Hgen _ []); [done| |done].
  pose proof (locs_size _ _ _ Hr HN) as Hs. unfold locs in Hs. rewrite length_fmap in Hs. lia.
Qed.

(** The other orders *)
Fixpoint preorder (t : bt) : list item := match t with E => [] | T l i r => i :: preorder l ++ preorder r end.
Fixpoint postorder (t : bt) : list item := match t with E => [] | T l i r => postorder l ++ postorder r ++ [i] end.

Definition order_of (o : GTraverseType) (t : bt) : list item :=
  match o with G_PRE_ORDER => preorder t | G_IN_ORDER => inorder t | G_POST_ORDER => postorder t | G_LEVEL_ORDER => [] end.

(** [c] visits the items [L] *)
Definition visits m ot log (c : A -> cmd World (A * bool)) (L : list item) : Prop :=
  forall a (Q : A * bool -> World -> Prop), Q (visit_all (entries L) a) (mkWorld m ot log) -> wp (c a) Q (mkWorld m ot log).

Lemma visits_and_then m ot log c1 c2 L1 L2 :
  visits m ot log c1 L1 -> visits m ot log c2 L2 -> visits m ot log (fun a => and_then (c1 a) c2) (L1 ++ L2).
Proof.
  intros H1 H2 a Q HQ. unfold and_then. apply wp_bind, H1. rewrite fmap_app, visit_all_app in HQ.
  destruct (visit_all (entries L1) a) as [a' []]; [by apply wp_ret|]. by apply H2.
Qed.

Lemma visits_one m ot log i n : m !! iloc i = Some n -> key n = ikey i -> value n = ival i -> visits m ot log (visit func (iloc i)) [i].
Proof.
  intros Hn Hk Hv a Q HQ. eapply wp_visit; [exact Hn|]. rewrite Hk, Hv. cbn [fmap list_fmap visit_all entry_of] in HQ.
  unfold entry_of in HQ. destruct (func (ikey i) (ival i) a) as [a' []]; done.
Qed.

Lemma visits_child m ot log walk d i n s L :
  m !! iloc i = Some n -> has_child d n = present (top s) -> link d n = default NULL (top s) \/ s = E -> (s = E -> L = []) ->
  (s <> E -> visits m ot log (walk (default NULL (top s))) L) -> visits m ot log (in_child walk d (iloc i)) L.
Proof.
  intros Hn Hh Hl HL Hw a Q HQ. unfold in_child. apply wp_bind. eapply wp_read; [exact Hn|]. rewrite Hh.
  destruct s as [|sl si sr]; cbn [top present].
  - rewrite HL in HQ by done. by apply wp_ret.
  - destruct Hl as [Hl|]; [|done]. apply wp_bind. eapply wp_read; [exact Hn|]. rewrite Hl. by apply Hw.
Qed.

(** The recursive functions visit the nodes in the orders of their names. *)
Lemma visits_orders m ot log t B n :
  rep m t B -> t <> E -> ht t <= Z.of_nat n ->
  visits m ot log (g_tree_node_pre_order func n (default NULL (top t))) (preorder t) /\
  visits m ot log (g_tree_node_in_order func n (default NULL (top t))) (inorder t) /\
  visits m ot log (g_tree_node_post_order func n (default NULL (top t))) (postorder t).
Proof.
  revert B n. induction t as [|l IHl i r IHr]; intros B n Hr Hne Hn; [done|].
  pose proof (ht_nonneg l). pose proof (ht_nonneg r). cbn [ht] in Hn. destruct n as [|n]; [lia|].
  destruct Hr as (Hi & Hl & Hr). specialize (fun H => IHl _ n Hl H ltac:(lia)). specialize (fun H => IHr _ n Hr H ltac:(lia)).
  assert (Hone : visits m ot log (visit func (iloc i)) [i]) by (by eapply visits_one).
  assert (Hleft : forall walk L, (l = E -> L = []) -> (l <> E -> visits m ot log (walk (default NULL (top l))) L) ->
    visits m ot log (in_child walk Left (iloc i)) L).
  { intros walk L HL Hw. eapply (visits_child _ _ _ _ _ _ _ l); [exact Hi|done| |done|done]. destruct l; [by right|by left]. }
  assert (Hright : forall walk L, (r = E -> L = []) -> (r <> E -> visits m ot log (walk (default NULL (top r))) L) ->
    visits m ot log (in_child walk Right (iloc i)) L).
  { intros walk L HL Hw. eapply (visits_child _ _ _ _ _ _ _ r); [exact Hi|done| |done|done]. destruct r; [by right|by left]. }
  cbn [g_tree_node_pre_order g_tree_node_in_order g_tree_node_post_order top default from_option id preorder inorder postorder].
  split_and!.
  - apply (visits_and_then _ _ _ _ _ [i]); [done|]. apply visits_and_then; [apply Hleft|apply Hright]; try (by intros ->); intros Hx; (destruct (IHl Hx) as (? & ? & ?) || destruct (IHr Hx) as (? & ? & ?)); done || lia.
  - apply visits_and_then; [apply Hleft|apply (visits_and_then _ _ _ _ _ [i]); [done|apply Hright]]; try (by intros ->); intros Hx; (destruct (IHl Hx) as (? & ? & ?) || destruct (IHr Hx) as (? & ? & ?)); done || lia.
  - apply visits_and_then; [apply Hleft|apply visits_and_then; [apply Hright|done]]; try (by intros ->); intros Hx; (destruct (IHl Hx) as (? & ? & ?) || destruct (IHr Hx) as (? & ? & ?)); done || lia.
Qed.

Lemma wp_traverse w t tr o a (Q : A -> World -> Prop) :
  stored w t tr -> Q (fst (visit_all (entries (order_of o t)) a)) w -> wp (g_tree_traverse func o a) Q w.
Proof.
  intros H HQ. destruct w as [m ot log]. pose proof (st_tree _ _ _ H) as E. cbn [tree] in E. subst ot.
  unfold g_tree_traverse. apply wp_bind, wp_tr. rewrite (stored_root _ _ _ H). destruct (bt_empty t) as [->|Hne].
  { rewrite decide_True by done. apply wp_ret. by destruct o. }
  rewrite decide_False by (by rewrite (top_NULL _ _ _ H)). apply wp_bind, wp_budget, wp_bind.
  pose proof (stored_budget _ _ _ H) as Hn. pose proof (fo_rep _ _ _ _ _ _ (st_whole _ _ _ H)) as Hr.
  destruct (visits_orders _ (Some tr) log t _ (S (size (nodes (mkWorld m (Some tr) log)))) Hr Hne ltac:(lia)) as (H1 & H2 & H3).
  destruct o; cbn [order_of] in HQ; [apply H2|apply H1|apply H3|by apply wp_ret, wp_ret].
  all: destruct (visit_all _ a) as [a' s]; by apply wp_ret.
Qed.
End traversal.
End search.
