(* ===== verification/TreeInsert.v ===== *)
(** Insertion and replacement. *)
From stdpp Require Import sorting.
From S2P Require Import Prelude Store Tree TreeRep TreeBalance TreeUnlink TreeRead.

Open Scope c_scope.

(** g_slice_new finds memory that is not in use. *)
Class SlicesLaws `{Slices} : Prop := {
  slice_fresh m : m !! new_slice m = None;
  slice_not_null m : new_slice m <> NULL;
}.

#[export] Instance fresh_slices_laws : SlicesLaws (H := fresh_slices).
Proof.
  split; intros m; unfold new_slice, fresh_slices; pose proof (is_fresh (dom m ∪ {[ NULL ]} : gset loc)) as Hf;
    rewrite elem_of_union, elem_of_singleton in Hf; [|tauto].
  apply not_elem_of_dom. tauto.
Qed.

Section insert.
Context `{SlicesLaws}.

Lemma wp_new m ot log n (Q : loc -> World -> Prop) :
  Q (new_slice m) (mkWorld (<[new_slice m := n]> m) ot log) -> wp (g_slice_new n) Q (mkWorld m ot log).
Proof. done. Qed.

(** A new node in an empty place *)
Lemma wp_attach d m tr log C p h i c k v (Q : unit -> World -> Prop) :
  focus (mkWorld m (Some tr) log) [] C p h (mk d E i c) -> 0 <= ht c <= 100 ->
  (forall m' q, focus (mkWorld m' (Some (with_nnodes (nnodes tr + 1) tr)) log) [] C p h (mk d (T E (Item q k v) E) i c) ->
     Q tt (mkWorld m' (Some (with_nnodes (nnodes tr + 1) tr)) log)) ->
  wp (attach d (iloc i) k v) Q (mkWorld m (Some tr) log).
Proof.
  intros H1 Hc HQ. pose proof H1 as [Hr HC HN HD Hroot]. cbn [nodes] in *.
  apply rep_mk in Hr as (Hi & _ & Hrc). cbn [top ht] in Hi. set (B := hole C ends) in *. set (q := new_slice m).
  assert (Hq : m !! q = None) by apply slice_fresh. assert (Hqn : q <> NULL) by apply slice_not_null.
  assert (Hold : q ∉ locs (mk d E i c) ++ clocs C ++ []).
  { intros Hin. apply HD in Hin as [n Hn]. congruence. }
  assert (Hqi : q <> iloc i) by congruence.
  assert (Hfin : forall m', agree [q; iloc i] m m' ->
    m' !! q = Some (nd d (Item q k v) None None (B d) (iloc i) 0) ->
    m' !! iloc i = Some (nd d i (Some q) (top c) (B d) (B (opp d)) (weight d * (1 - ht c))) ->
    Q tt (mkWorld m' (Some (with_nnodes (nnodes tr + 1) tr)) log)).
  { intros m' Hm Eq Ei. apply (HQ m' q).
    assert (HL : locs (mk d (T E (Item q k v) E) i c) ++ clocs C ++ [] ≡ₚ q :: locs (mk d E i c) ++ clocs C ++ []).
    { rewrite !locs_mk. unfold locs at 1. cbn [inorder fmap list_fmap app iloc]. unfold locs at 2. cbn [inorder fmap list_fmap app]. solve_Permutation. }
    rewrite app_nil_r in *.
    distinct HN (NULL :: iloc i :: locs c ++ clocs C).
    split; cbn [nodes tree].
    - apply rep_mk. split_and!.
      + rewrite Ei. cbn [ht]. by rewrite Z.max_id.
      + cbn [rep top ht iloc]. split_and!; [|done..]. rewrite Eq. unfold upd. by destruct d.
      + eapply (rep_agree [q; iloc i] m); [done| |done]. each_written; [|done].
        intros Hin. apply Hold. rewrite locs_mk. here.
    - eapply (repc_agree [q; iloc i] m); [done| |done]. each_written; [|done].
      intros Hin. apply Hold. rewrite locs_mk. here.
    - rewrite app_nil_r, HL. apply NoDup_cons in HN as [HN1 HN2]. apply NoDup_cons. split; [|apply NoDup_cons; split; [|done]].
      + apply not_elem_of_cons. by split.
      + done.
    - intros x. rewrite app_nil_r, HL, elem_of_cons, <- HD. destruct (decide (x = q)) as [->|Hxq].
      + rewrite Eq. split; [by left|by eexists].
      + destruct (decide (x = iloc i)) as [->|Hxi]; [rewrite Ei, Hi; split; [by right|by eexists]|].
        rewrite Hm by (rewrite !not_elem_of_cons; split_and!; [done|done|apply not_elem_of_nil]). tauto.
    - destruct Hroot as (tr' & E & Hroot). injection E as <-. by eexists. }
  unfold attach, g_tree_node_new. apply wp_bind, wp_new. fold q.
  destruct d; cbn [opp nd link has_child weight] in *; repeat node_step.
  all: apply Hfin; [agree_tac|written..].
Qed.

(** * An equal key *)

Definition key_calls (tr : GTree) (k : Z) : list destroyed := if key_destroy_func tr then [KeyDestroyed k] else [].
Definition value_calls (tr : GTree) (v : Z) : list destroyed := if value_destroy_func tr then [ValueDestroyed v] else [].

Lemma wp_destroy_key m tr log k (Q : unit -> World -> Prop) :
  Q tt (mkWorld m (Some tr) (log ++ key_calls tr k)) -> wp (destroy_key k) Q (mkWorld m (Some tr) log).
Proof.
  intros HQ. unfold destroy_key, key_calls in *. apply wp_bind, wp_tr.
  destruct (key_destroy_func tr); [exact HQ|]. rewrite app_nil_r in HQ. by apply wp_ret.
Qed.

Lemma wp_destroy_value m tr log v (Q : unit -> World -> Prop) :
  Q tt (mkWorld m (Some tr) (log ++ value_calls tr v)) -> wp (destroy_value v) Q (mkWorld m (Some tr) log).
Proof.
  intros HQ. unfold destroy_value, value_calls in *. apply wp_bind, wp_tr.
  destruct (value_destroy_func tr); [exact HQ|]. rewrite app_nil_r in HQ. by apply wp_ret.
Qed.

(** The contents of a node are changed. *)
Lemma focus_contents m m' ot l l' F C p h a i i' c n' :
  focus (mkWorld m ot l) F C p h (T a i c) -> iloc i' = iloc i -> agree [iloc i] m m' ->
  m' !! iloc i = Some n' ->
  n' = nd Left i' (top a) (top c) (hole C ends Left) (hole C ends Right) (ht c - ht a) ->
  focus (mkWorld m' ot l') F C p h (T a i' c).
Proof.
  intros H1 Ei Hm Hn ->. pose proof H1 as [Hr HC HN HD Hroot]. cbn [nodes] in *. destruct Hr as (Hi & Ha & Hc).
  distinct HN (NULL :: iloc i :: locs a ++ locs c ++ clocs C ++ F).
  apply (focus_written H1 Hm).
  - each_written. split; [by eexists|here].
  - rewrite !locs_T, Ei. done.
  - cbn [rep]. rewrite Ei. split_and!; [done|..]; (eapply rep_agree; [done|by each_written|done]).
  - eapply repc_agree; [done|by each_written|done].
  - done.
Qed.

Definition replaced (i : item) (k v : Z) (r : bool) : item := Item (iloc i) (if r then k else ikey i) v.

Lemma wp_replace_entry m tr log C p h a i c k v (r : bool) (Q : unit -> World -> Prop) :
  focus (mkWorld m (Some tr) log) [] C p h (T a i c) ->
  (forall m', let log' := log ++ value_calls tr (ival i) ++ key_calls tr (if r then ikey i else k) in
     focus (mkWorld m' (Some tr) log') [] C p h (T a (replaced i k v r) c) -> Q tt (mkWorld m' (Some tr) log')) ->
  wp (replace_entry (iloc i) k v r) Q (mkWorld m (Some tr) log).
Proof.
  intros H1 HQ. pose proof (fo_rep _ _ _ _ _ _ H1) as (Hi & _). cbn [nodes] in Hi. cbv zeta in HQ.
  unfold replace_entry. apply wp_bind. eapply wp_read; [exact Hi|]. rewrite value_nd. apply wp_bind, wp_destroy_value, wp_bind.
  eapply wp_write; [exact Hi|]. destruct r.
  - apply wp_bind. eapply wp_read; [apply lookup_insert_eq|]. cbn [set_value key nd]. apply wp_bind, wp_destroy_key.
    eapply wp_write; [apply lookup_insert_eq|]. rewrite <- app_assoc. apply HQ. rewrite insert_insert_eq.
    eapply focus_contents; [exact H1|done|agree_tac|apply lookup_insert_eq|done].
  - apply wp_destroy_key. rewrite <- app_assoc. apply HQ.
    eapply focus_contents; [exact H1|done|agree_tac|apply lookup_insert_eq|done].
Qed.

(** * The first loop *)

Context (cmp : Z -> Z -> Z) `{!KeyOrder cmp}.

(** What the code may rely on at a node on the way to [k] *)
Record on_way (w : World) (tr : GTree) (k : Z) (path : list (option loc)) (C : list frame) (t : bt) : Prop := {
  ow_focus : focus w [] C (top t) (ht t) t;
  ow_tree : tree w = Some tr;
  ow_compare : key_compare tr = cmp;
  ow_path : path_ok path C;
  ow_avl : avl (plug C t);
  ow_height : ht (plug C t) <= Z.of_nat MAX_GTREE_HEIGHT;
  ow_ascending : ascending cmp (entries (inorder (plug C t)));
  ow_searching : searching (cmp k) C;
}.

(** A step down to a child *)
Lemma on_way_down w tr k path C d a i c path' :
  on_way w tr k path C (mk d a i c) -> cmp k (ikey i) <> 0 -> side_of (cmp k (ikey i)) = d -> path_ok path' (Frame d i c :: C) ->
  on_way w tr k path' (Frame d i c :: C) a.
Proof.
  intros [H1 H2 H3 H4 H5 H6 H7 H8] Hk Hd Hp. split; try done.
  - apply focus_down. unfold fill. cbn [fitem fside fsib]. by rewrite top_mk in H1.
  - eapply searching_down; [by apply cmp_directs|done..].
Qed.

Lemma on_way_short w tr k path C d a i c : on_way w tr k path C (mk d a i c) -> a <> E -> (S (length C) < MAX_GTREE_HEIGHT)%nat.
Proof.
  intros H1 Ha. pose proof (ow_height _ _ _ _ _ _ H1) as Hh. pose proof (plug_ht C (mk d a i c)) as Hp. rewrite ht_mk in Hp.
  pose proof (ht_pos a Ha). unfold MAX_GTREE_HEIGHT in *. lia.
Qed.

(** The comparison at a node of the way *)
Lemma wp_compare w tr k path C l i r (Q : Z -> World -> Prop) :
  on_way w tr k path C (T l i r) -> Q (cmp k (ikey i)) w -> wp (compare k (iloc i)) Q w.
Proof.
  intros [H1 H2 H3 _ _ _ _ _] HQ. destruct w as [m ot log]. cbn [tree] in H2. subst ot.
  pose proof (fo_rep _ _ _ _ _ _ H1) as (Hi & _). eapply (compare_reads cmp); [done|exact Hi|]. by rewrite key_nd.
Qed.

Definition leaf (i : item) : bt := T E i E.

Lemma due_attach d i c q : avl (mk d E i c) -> due true (ht (mk d E i c)) (mk d (leaf q) i c).
Proof.
  rewrite avl_mk. cbn [ht]. intros (_ & Hc & Hb). pose proof (ht_nonneg c).
  assert (E1 : ht (mk d E i c) = 1 + Z.max 0 (ht (fsib (Frame d i c)))) by (rewrite ht_mk; done). rewrite E1.
  apply (due_parent true 0 (leaf q) (Frame d i c)); cbn [fsib leaf avl ht bal change]; split_and?; try done; try lia.
Qed.

Lemma wp_tree_insert_descend k v (r : bool) path tr m log t C n idx (Q : option (list (option loc) * Z * loc) -> World -> Prop) :
  on_way (mkWorld m (Some tr) log) tr k path C t -> t <> E -> ht t < Z.of_nat n -> idx = index C ->
  (forall m' i L1 L2 t', let w' := mkWorld m' (Some tr) (log ++ value_calls tr (ival i) ++ key_calls tr (if r then ikey i else k)) in
     entries (inorder (plug C t)) = L1 ++ entry_of i :: L2 -> below (cmp k) L1 -> cmp k (ikey i) = 0 ->
     whole w' [] t' -> avl t' -> entries (inorder t') = L1 ++ entry_of (replaced i k v r) :: L2 -> Q None w') ->
  (forall m' L1 L2 path' C' h t', let w' := mkWorld m' (Some (with_nnodes (nnodes tr + 1) tr)) log in
     entries (inorder (plug C t)) = L1 ++ L2 -> below (cmp k) L1 -> above (cmp k) L2 ->
     focus w' [] C' (top t') h t' -> due true h t' -> avlc C' h -> path_ok path' C' ->
     entries (inorder (plug C' t')) = L1 ++ (k, v) :: L2 -> Q (Some (path', index C', default NULL (top t'))) w') ->
  wp (loop n (fun '(path, idx, node) =>
    cmp ← compare k node;
    if cmp =? 0 then _ ← replace_entry node k v r; mret (inr None)
    else
      let d := side_of cmp in
      c ← rd (has_child d) node;
      if c : bool then
        path ← path_put path idx node;
        next ← rd (link d) node;
        mret (inl (path, idx + 1, next))
      else
        _ ← attach d node k v;
        mret (inr (Some (path, idx, node)))) (path, idx, default NULL (top t))) Q (mkWorld m (Some tr) log).
Proof.
  intros Hw Hne Hn -> Hold Hnew. revert t C path Hw Hne Hn Hold Hnew.
  induction n as [|n IH]; intros t C path Hw Hne Hn Hold Hnew; [pose proof (ht_nonneg t); lia|].
  destruct t as [|l i0 r0]; [done|]. cbn [loop top default from_option id]. apply wp_bind, wp_bind.
  eapply wp_compare; [exact Hw|]. destruct (Z.eqb_spec (cmp k (ikey i0)) 0) as [E0|N0].
  - apply wp_bind. pose proof (ow_focus _ _ _ _ _ _ Hw) as Hf. destruct (avl_plug _ _ (ow_avl _ _ _ _ _ _ Hw)) as [Ht HC].
    eapply wp_replace_entry; [exact Hf|]. intros m' log' Hf'. apply wp_ret, wp_ret.
    assert (Eio : forall j, entries (inorder (plug C (T l j r0))) =
      (entries (pre C) ++ entries (inorder l)) ++ entry_of j :: entries (inorder r0) ++ entries (post C)).
    { intros j. rewrite entries_plug. cbn [inorder]. rewrite fmap_app, <- !app_assoc. done. }
    apply (Hold m' i0 _ _ (plug C (T l (replaced i0 k v r) r0)) (Eio _)); [|done| | |apply Eio].
    + destruct (searching_found cmp k C l i0 r0); [by apply (ow_ascending _ _ _ _ _ _ Hw)|done|done].
    + by apply (proj1 (whole_plug _ _ C _)).
    + by apply plug_avl.
  - destruct (bt_cases (side_of (cmp k (ikey i0))) (T l i0 r0)) as [|(a & i & c & Et)]; [done|]. set (d := side_of _) in *.
    assert (Ei : i = i0) by (by destruct d; injection Et). subst i0.
    pose proof (ow_focus _ _ _ _ _ _ Hw) as Hf. rewrite Et in *. pose proof (fo_rep _ _ _ _ _ _ Hf) as Hr.
    apply rep_mk in Hr as (Hi & _). cbn [nodes] in Hi. apply wp_bind. eapply wp_read; [exact Hi|]. rewrite has_child_nd.
    destruct (bt_empty a) as [->|Ha].
    + cbn [top present]. apply wp_bind. destruct (avl_plug _ _ (ow_avl _ _ _ _ _ _ Hw)) as [Ht HC]. pose proof Ht as Hac.
      apply avl_mk in Hac as (_ & Hac & Hbc). cbn [ht] in Hbc. pose proof (ht_nonneg c).
      eapply wp_attach; [exact Hf|lia|]. intros m' q Hf'. apply wp_ret, wp_ret. fold (leaf (Item q k v)) in Hf'.
      set (f := Frame d i c). assert (Hse : searching (cmp k) (f :: C)).
      { eapply (searching_down cmp); [by apply cmp_directs|apply Hw|apply Hw|done|done]. }
      replace (iloc i) with (default NULL (top (mk d (leaf (Item q k v)) i c))) by (by rewrite top_mk).
      apply (Hnew m' (entries (pre (f :: C))) (entries (post (f :: C))) path C (ht (mk d E i c)) (mk d (leaf (Item q k v)) i c)).
      * apply (entries_plug (f :: C) E).
      * apply Hse.
      * apply Hse.
      * by rewrite top_mk in *.
      * by apply due_attach.
      * done.
      * apply Hw.
      * apply (entries_plug (f :: C) (leaf (Item q k v))).
    + replace (present (top a)) with true by (by destruct a). apply wp_bind.
      eapply (wp_path_put _ C _ _ (Frame d i c)); [apply Hw|done|by eapply on_way_short|done|]. intros path' Hpath'.
      apply wp_bind. eapply wp_read; [exact Hi|]. rewrite link_nd. apply wp_ret.
      replace (default (hole C ends d) (top a)) with (default NULL (top a)) by (by destruct a).
      replace (index C + 1) with (index (Frame d i c :: C)) by (unfold index; cbn; lia).
      apply (IH a (Frame d i c :: C) path'); [|done|rewrite ht_mk in Hn; lia|done|done].
      by eapply on_way_down.
Qed.

(** * The whole function *)

Lemma wp_path_first w (Q : list (option loc) -> World -> Prop) :
  (forall path, path_ok path [] -> Q path w) -> wp (path_put new_path 0 NULL) Q w.
Proof. intros HQ. apply HQ. split; [done|]. by eexists. Qed.

(** The calls of destroy functions, and the tree object, up to its root *)
Definition insert_calls (tr : GTree) (k : Z) (r : bool) (L : list entry) : list destroyed :=
  match find_entry cmp k L with
  | Some (k', v') => value_calls tr v' ++ key_calls tr (if r then k' else k)
  | None => []
  end.
Definition insert_object (tr : GTree) (k : Z) (L : list entry) : GTree :=
  match find_entry cmp k L with Some _ => tr | None => with_nnodes (nnodes tr + 1) tr end.

Record inserted (w : World) (t : bt) (tr : GTree) (k v : Z) (r : bool) (w' : World) (t' : bt) (tr' : GTree) : Prop := {
  in_stored : stored cmp w' t' tr';
  in_avl : avl t';
  in_entries : entries (inorder t') = put cmp k v r (entries (inorder t));
  in_calls : calls w' = calls w ++ insert_calls tr k r (entries (inorder t));
  in_object : exists p, tr' = with_root p (insert_object tr k (entries (inorder t)));
}.

Lemma whole_root w F t tr : whole w F t -> tree w = Some tr -> tr = with_root (default NULL (top t)) tr.
Proof.
  intros H1 H2. destruct (fo_root _ _ _ _ _ _ H1) as (tr' & E & Hr). cbn [root_of] in Hr. rewrite <- Hr.
  assert (tr' = tr) as -> by congruence. by destruct tr.
Qed.

Lemma wp_insert w t tr k v (r : bool) (Q : unit -> World -> Prop) :
  stored cmp w t tr -> avl t -> ht t <= Z.of_nat MAX_GTREE_HEIGHT ->
  (forall w' t' tr', inserted w t tr k v r w' t' tr' -> Q tt w') ->
  wp (g_tree_insert_internal k v r) Q w.
Proof.
  intros Hst Havl Hht HQ. destruct w as [m ot log]. pose proof (st_tree _ _ _ _ Hst) as E. cbn [tree] in E. subst ot.
  pose proof (put_ascending cmp k v r _ (st_ascending _ _ _ _ Hst)) as Hasc.
  unfold g_tree_insert_internal. apply wp_bind, wp_tr. rewrite (stored_root _ _ _ _ Hst). destruct (bt_empty t) as [->|Hne].
  - rewrite decide_True by done. unfold g_tree_node_new. apply wp_bind, wp_new. set (q := new_slice m).
    apply wp_bind, wp_set_tree, wp_bind, wp_tr, wp_set_tree.
    assert (Hq : q <> NULL) by apply slice_not_null. assert (Hfresh : m !! q = None) by apply slice_fresh.
    apply (HQ _ (leaf (Item q k v)) (with_nnodes (nnodes (with_root q tr) + 1) (with_root q tr))). split; try done.
    + split; try done; [|apply (st_compare _ _ _ _ Hst)]. destruct (st_whole _ _ _ _ Hst) as [_ _ HN HD _]. split; cbn [nodes tree].
      * cbn [leaf rep]. rewrite lookup_insert_eq. done.
      * done.
      * unfold locs. cbn. repeat constructor; rewrite ?elem_of_cons, ?elem_of_nil; intuition congruence.
      * intros x. unfold locs. cbn. cbn in HD. destruct (decide (q = x)) as [<-|Hqx].
        -- rewrite lookup_insert_eq. split; [by left|by eexists].
        -- rewrite lookup_insert_ne, HD by done. rewrite elem_of_cons, elem_of_nil. naive_solver.
      * by eexists.
    + by rewrite app_nil_r.
    + by exists q.
  - rewrite decide_False by (by rewrite (top_NULL _ _ _ _ Hst)). apply wp_bind.
    apply wp_path_first. intros path Hpath. apply wp_bind.
    assert (Hway : on_way (mkWorld m (Some tr) log) tr k path [] t).
    { split; cbn [plug]; try done; [apply Hst|apply Hst|apply Hst|apply searching_top]. }
    eapply (wp_tree_insert_descend k v r path tr m log t []); [exact Hway|done|cbn; unfold MAX_GTREE_HEIGHT in *; lia|done|..].
    + intros m' i L1 L2 t' w' Eold Hbelow Ek Hwh Havl' Enew. cbn [plug] in Eold. apply wp_ret, (HQ w' t' tr). split; [|done|..].
      * split; [done|done|apply Hst|]. rewrite Enew. rewrite Eold, (put_old cmp k v r _ (ikey i) (ival i)) in Hasc by done. done.
      * rewrite Enew, Eold. symmetry. by apply (put_old cmp k v r).
      * unfold insert_calls. rewrite Eold. by rewrite (find_old cmp k _ (entry_of i)).
      * unfold insert_object. rewrite Eold, (find_old cmp k _ (entry_of i)) by done.
        exists (default NULL (top t')). by eapply whole_root.
    + intros m' L1 L2 path' C' h t' w' Eold Hbelow Habove Hf Hdue Havlc Hpath' Enew. cbn [plug] in Eold.
      eapply wp_restore; try done. intros w2 t2 [Hcalls [p Hroot]] Hw2 Havl2 Hin2.
      apply (HQ w2 t2 (with_root p (with_nnodes (nnodes tr + 1) tr))). rewrite <- Hin2 in Enew.
      split; [|done|..].
      * split; [done|done|apply Hst|]. rewrite Enew. by rewrite Eold, (put_new cmp) in Hasc.
      * rewrite Enew, Eold. symmetry. by apply (put_new cmp).
      * unfold insert_calls. rewrite Eold, (find_none cmp) by done. by rewrite app_nil_r.
      * unfold insert_object. rewrite Eold, (find_none cmp) by done. by exists p.
Qed.
End insert.
