(* ===== verification/TreeRemove.v ===== *)
(** Removal. *)
From stdpp Require Import sorting.
From S2P Require Import Prelude Store Tree TreeRep TreeBalance TreeUnlink TreeRead TreeInsert.

Open Scope c_scope.

(** * Keys and values *)

(** The functions that change the shape of the tree leave keys and values. *)
Definition same_contents (w w' : World) : Prop :=
  forall x n, nodes w !! x = Some n -> exists n', nodes w' !! x = Some n' /\ key n' = key n /\ value n' = value n.
Definition shapes {A} (c : cmd World A) : Prop := forall w a w', c w = Some (a, w') -> same_contents w w'.

Lemma same_refl w : same_contents w w.
Proof. intros x n Hx. by exists n. Qed.

Lemma same_nodes w w' : nodes w' = nodes w -> same_contents w w'.
Proof. intros H x n Hx. exists n. by rewrite H. Qed.

Create HintDb shapes.

Section shapes.
Lemma shapes_ret {A} (a : A) : shapes (mret a).
Proof. intros w b w' E. injection E as _ <-. apply same_refl. Qed.

Lemma shapes_fault {A} : shapes (A := A) fault.
Proof. intros w a w' E. discriminate E. Qed.

Lemma shapes_bind {A B} (c : cmd World A) (f : A -> cmd World B) : shapes c -> (forall a, shapes (f a)) -> shapes (mbind f c).
Proof.
  intros Hc Hf w b w' E. unfold mbind, cmd_bind in E. destruct (c w) as [[a w1]|] eqn:Ec; [|done].
  specialize (Hc _ _ _ Ec). specialize (Hf _ _ _ _ E). intros x n Hx.
  destruct (Hc x n Hx) as (n1 & E1 & H1 & H2). destruct (Hf x n1 E1) as (n2 & E2 & H3 & H4). exists n2. split_and!; congruence.
Qed.

Lemma shapes_rd {A} (f : GTreeNode -> A) p : shapes (rd f p).
Proof.
  intros w a w' E. apply same_nodes. unfold rd in E. destruct (mem_of w !! p); [|done]. by injection E as _ <-.
Qed.

Lemma shapes_wr f p : (forall n, key (f n) = key n /\ value (f n) = value n) -> shapes (wr f p).
Proof.
  intros Hf w a w' E x n Hx. unfold wr in E. cbn in E. destruct (nodes w !! p) as [np|] eqn:Ep; [|done]. injection E as _ <-. cbn.
  destruct (decide (p = x)) as [->|Hp].
  - rewrite lookup_insert_eq. assert (np = n) as -> by congruence. exists (f n). split; [done|apply Hf].
  - rewrite lookup_insert_ne by done. by exists n.
Qed.

Lemma shapes_loop {S A} n (body : S -> cmd World (S + A)) s : (forall s, shapes (body s)) -> shapes (loop n body s).
Proof.
  intros Hb. revert s. induction n as [|n IH]; intros s; cbn [loop]; [apply shapes_fault|].
  apply shapes_bind; [apply Hb|]. intros [s'|a]; [apply IH|apply shapes_ret].
Qed.

Lemma shapes_set_tree f : shapes (set_tree f).
Proof. intros w a w' E. apply same_nodes. unfold set_tree in E. destruct (tree w); [|done]. by injection E as _ <-. Qed.

Lemma shapes_budget : shapes budget.
Proof. intros w a w' E. injection E as _ <-. apply same_refl. Qed.
End shapes.

Lemma set_link_contents d p n : key (set_link d p n) = key n /\ value (set_link d p n) = value n.
Proof. by destruct d. Qed.
Lemma set_has_child_contents d b n : key (set_has_child d b n) = key n /\ value (set_has_child d b n) = value n.
Proof. by destruct d. Qed.

#[export] Hint Resolve shapes_ret shapes_fault shapes_rd shapes_set_tree shapes_budget : shapes.

Ltac shape_step :=
  cbv beta zeta;
  match goal with
  | |- forall _, _ => intros ?
  | |- shapes (match ?x with _ => _ end) => destruct x
  | |- shapes (mbind _ _) => apply shapes_bind
  | |- shapes (wr _ _) => apply shapes_wr; by first [apply set_link_contents|apply set_has_child_contents|intros []]
  | |- shapes (loop _ _ _) => apply shapes_loop
  | |- shapes _ => solve [eauto with shapes]
  end.
Ltac shape := repeat shape_step.

Lemma shapes_path_put path idx p : shapes (path_put path idx p).
Proof. unfold path_put. shape. Qed.
Lemma shapes_path_get path idx : shapes (path_get path idx).
Proof. unfold path_get. shape. Qed.
Lemma shapes_assert c : shapes (g_assert c).
Proof. unfold g_assert. shape. Qed.
Lemma shapes_walk d p : shapes (walk d p).
Proof. unfold walk. shape. Qed.
Lemma shapes_replace_child p b q : shapes (replace_child p b q).
Proof. unfold replace_child. shape. Qed.
Lemma shapes_rotate d f p : shapes (rotate d f p).
Proof. unfold rotate. shape. Qed.
#[export] Hint Resolve shapes_path_put shapes_path_get shapes_assert shapes_walk shapes_replace_child shapes_rotate : shapes.

Lemma shapes_unlink path idx p b q : shapes (unlink path idx p b q).
Proof.
  unfold unlink, unlink_leaf, unlink_single, unlink_double, node_neighbour, find_next, take_out_next, put_next, shorten. shape.
Qed.
Lemma shapes_restore grown path idx p : shapes (restore_balance grown path idx p).
Proof.
  unfold restore_balance, is_left_node, g_tree_node_balance, g_tree_node_rotate_left, g_tree_node_rotate_right. shape.
Qed.

Lemma wp_shapes {A} (c : cmd World A) (Q : A -> World -> Prop) w :
  shapes c -> wp c (fun a w' => same_contents w w' -> Q a w') w -> wp c Q w.
Proof. intros Hs. unfold wp. destruct (c w) as [[a w']|] eqn:E; [|done]. intros HQ. by apply HQ, (Hs _ a). Qed.

(** The node that has been taken out is freed. *)
Lemma whole_free m tr tr' l l' x t :
  whole (mkWorld m (Some tr) l) [x] t -> root tr' = root tr -> whole (mkWorld (delete x m) (Some tr') l') [] t.
Proof.
  intros [Hr _ HN HD (tr0 & E & Hroot)] Hr'. cbn [nodes tree clocs app] in *. injection E as <-.
  assert (Hx : x ∉ locs t).
  { apply NoDup_cons in HN as [_ HN]. apply NoDup_app in HN as (_ & HN & _). intros Hin. apply (HN x Hin). by left. }
  split; cbn [nodes tree clocs app].
  - eapply bt_rep_frame; [|exact Hr]. intros y Hy. apply lookup_delete_ne. by intros ->.
  - done.
  - rewrite app_nil_r. rewrite app_comm_cons in HN. by apply NoDup_app in HN as [HN _].
  - intros y. rewrite app_nil_r. destruct (decide (y = x)) as [->|Hyx].
    + rewrite lookup_delete_eq. split; [by intros []|done].
    + rewrite lookup_delete_ne, HD, elem_of_app, list_elem_of_singleton by done. tauto.
  - exists tr'. split; [done|]. by rewrite Hr', Hroot.
Qed.

Section remove.
Context (cmp : Z -> Z -> Z) `{!KeyOrder cmp}.

Lemma wp_remove_descend k path tr w t C n idx (Q : option (list (option loc) * Z * loc) -> World -> Prop) :
  on_way cmp w tr k path C t -> t <> E -> ht t < Z.of_nat n -> idx = index C ->
  (forall path' C' l i r, on_way cmp w tr k path' C' (T l i r) -> plug C' (T l i r) = plug C t -> cmp k (ikey i) = 0 ->
     Q (Some (path', index C', iloc i)) w) ->
  (find_entry cmp k (entries (inorder (plug C t))) = None -> without cmp k (entries (inorder (plug C t))) = entries (inorder (plug C t)) -> Q None w) ->
  wp (loop n (fun '(path, idx, node) =>
    cmp ← compare k node;
    if cmp =? 0 then mret (inr (Some (path, idx, node)))
    else
      let d := side_of cmp in
      c ← rd (has_child d) node;
      if negb c then mret (inr None)
      else
        path ← path_put path idx node;
        next ← rd (link d) node;
        mret (inl (path, idx + 1, next))) (path, idx, default NULL (top t))) Q w.
Proof.
  intros Hw Hne Hn -> Hold Hnew. revert t C path Hw Hne Hn Hold Hnew.
  induction n as [|n IH]; intros t C path Hw Hne Hn Hold Hnew; [pose proof (ht_nonneg t); lia|].
  destruct t as [|l i0 r0]; [done|]. cbn [loop top default from_option id]. apply wp_bind, wp_bind.
  eapply wp_compare; [exact Hw|]. destruct (Z.eqb_spec (cmp k (ikey i0)) 0) as [E0|N0].
  { apply wp_ret, wp_ret. by eapply Hold. }
  destruct (bt_cases (side_of (cmp k (ikey i0))) (T l i0 r0)) as [|(a & i & c & Et)]; [done|]. set (d := side_of _) in *.
  assert (Ei : i = i0) by (by destruct d; injection Et). subst i0. rewrite Et in *.
  pose proof (ow_focus _ _ _ _ _ _ _ Hw) as Hf. pose proof (fo_rep _ _ _ _ _ _ Hf) as Hr.
  apply rep_mk in Hr as (Hi & _). destruct w as [m ot log]. cbn [nodes] in Hi. apply wp_bind. eapply wp_read; [exact Hi|]. rewrite has_child_nd.
  destruct (bt_empty a) as [->|Ha].
  - cbn [top present negb]. apply wp_ret, wp_ret. set (f := Frame d i c).
    assert (Hse : searching (cmp k) (f :: C)).
    { eapply (searching_down cmp); [by apply cmp_directs|apply Hw|apply Hw|done|done]. }
    replace (entries (inorder (plug C (mk d E i c)))) with (entries (pre (f :: C)) ++ entries (post (f :: C))) in Hnew
      by (symmetry; apply (entries_plug (f :: C) E)).
    apply Hnew; [apply find_none|apply without_none]; apply Hse.
  - replace (present (top a)) with true by (by destruct a). cbn [negb]. apply wp_bind.
    eapply (wp_path_put _ C _ _ (Frame d i c)); [apply Hw|done|by eapply on_way_short|done|]. intros path' Hpath'.
    apply wp_bind. eapply wp_read; [exact Hi|]. rewrite link_nd. apply wp_ret.
    replace (default (hole C ends d) (top a)) with (default NULL (top a)) by (by destruct a).
    replace (index C + 1) with (index (Frame d i c :: C)) by (unfold index; cbn; lia).
    apply (IH a (Frame d i c :: C) path'); [|done|rewrite ht_mk in Hn; lia|done|done].
    by eapply on_way_down.
Qed.

Definition remove_calls (tr : GTree) (k : Z) (steal : bool) (L : list entry) : list destroyed :=
  match find_entry cmp k L with
  | Some (k', v') => if steal then [] else key_calls tr k' ++ value_calls tr v'
  | None => []
  end.
Definition remove_object (tr : GTree) (k : Z) (L : list entry) : GTree :=
  match find_entry cmp k L with Some _ => with_nnodes (nnodes tr - 1) tr | None => tr end.

Record removed (w : World) (t : bt) (tr : GTree) (k : Z) (steal : bool) (w' : World) (t' : bt) (tr' : GTree) : Prop := {
  rm_stored : stored cmp w' t' tr';
  rm_avl : avl t';
  rm_entries : entries (inorder t') = without cmp k (entries (inorder t));
  rm_calls : calls w' = calls w ++ remove_calls tr k steal (entries (inorder t));
  rm_object : exists p, tr' = with_root p (remove_object tr k (entries (inorder t)));
}.

Lemma wp_free_node m g log x t nx (steal : bool) (Q : bool -> World -> Prop) :
  whole (mkWorld m (Some g) log) [x] t -> m !! x = Some nx ->
  (forall w', whole w' [] t -> tree w' = Some (with_nnodes (nnodes g - 1) g) ->
     calls w' = log ++ (if steal then [] else key_calls g (key nx) ++ value_calls g (value nx)) -> Q true w') ->
  wp (_ ← (if steal then mret tt else nk ← rd key x; _ ← destroy_key nk; nv ← rd value x; destroy_value nv);
      _ ← g_slice_free x; n ← tr nnodes; _ ← set_tree (with_nnodes (n - 1)); mret true) Q (mkWorld m (Some g) log).
Proof.
  intros Hw Hx HQ. apply wp_bind.
  assert (Hend : forall log', log' = log ++ (if steal then [] else key_calls g (key nx) ++ value_calls g (value nx)) ->
    wp (_ ← g_slice_free x; n ← tr nnodes; _ ← set_tree (with_nnodes (n - 1)); mret true) Q (mkWorld m (Some g) log')).
  { intros log' El. apply wp_bind. unfold g_slice_free, wp. cbn [nodes]. rewrite Hx. change (wp (n ← tr nnodes; _ ← set_tree (with_nnodes (n - 1)); mret true) Q (mkWorld (delete x m) (Some g) log')).
    apply wp_bind, wp_tr, wp_bind, wp_set_tree, wp_ret, HQ; [|done|done]. by eapply whole_free. }
  destruct steal.
  - apply wp_ret, Hend. by rewrite app_nil_r.
  - apply wp_bind. eapply wp_read; [exact Hx|]. apply wp_bind, wp_destroy_key, wp_bind.
    eapply wp_read; [exact Hx|]. apply wp_destroy_value, Hend. by rewrite app_assoc.
Qed.

Lemma wp_tree_remove w t tr k (steal : bool) (Q : bool -> World -> Prop) :
  stored cmp w t tr -> avl t -> ht t <= Z.of_nat MAX_GTREE_HEIGHT ->
  (forall w' t' tr', removed w t tr k steal w' t' tr' -> Q (bool_decide (is_Some (find_entry cmp k (entries (inorder t))))) w') ->
  wp (g_tree_remove_internal k steal) Q w.
Proof.
  intros Hst Havl Hht HQ. destruct w as [m ot log]. pose proof (st_tree _ _ _ _ Hst) as E. cbn [tree] in E. subst ot.
  pose proof (without_ascending cmp k _ (st_ascending _ _ _ _ Hst)) as Hasc.
  assert (Hself : find_entry cmp k (entries (inorder t)) = None -> without cmp k (entries (inorder t)) = entries (inorder t) ->
    Q false (mkWorld m (Some tr) log)).
  { intros E1 E2. specialize (HQ (mkWorld m (Some tr) log) t tr). rewrite E1 in HQ. rewrite bool_decide_false in HQ by (by intros []).
    apply HQ. split; [done|done|done|unfold remove_calls; rewrite E1; by rewrite app_nil_r|].
    exists (default NULL (top t)). unfold remove_object. rewrite E1. eapply whole_root; [apply Hst|done]. }
  unfold g_tree_remove_internal. apply wp_bind, wp_tr. rewrite (stored_root _ _ _ _ Hst). destruct (bt_empty t) as [->|Hne].
  { rewrite decide_True by done. apply wp_ret. by apply Hself. }
  rewrite decide_False by (by rewrite (top_NULL _ _ _ _ Hst)). apply wp_bind. apply wp_path_first. intros path Hpath. apply wp_bind.
  assert (Hway : on_way cmp (mkWorld m (Some tr) log) tr k path [] t).
  { split; cbn [plug]; try done; [apply Hst|apply Hst|apply Hst|apply searching_top]. }
  eapply (wp_remove_descend k path tr _ t []); [exact Hway|done|cbn; unfold MAX_GTREE_HEIGHT in *; lia|done|..]; cbn [plug].
  2:{ intros E1 E2. apply wp_ret. by apply Hself. }
  clear Hself Hway Hpath path. intros path C l i r Hway Eplug Ek.
  pose proof (ow_focus _ _ _ _ _ _ _ Hway) as Hf. destruct (avl_plug _ _ (ow_avl _ _ _ _ _ _ _ Hway)) as [Ht HC].
  assert (Eold : entries (inorder t) = (entries (pre C) ++ entries (inorder l)) ++ entry_of i :: entries (inorder r) ++ entries (post C)).
  { rewrite <- Eplug, entries_plug. cbn [inorder]. rewrite fmap_app, <- !app_assoc. done. }
  destruct (searching_found cmp k C l i r) as [Hbelow Habove]; [apply (ow_ascending _ _ _ _ _ _ _ Hway)|done|].
  assert (Efind : find_entry cmp k (entries (inorder t)) = Some (entry_of i)) by (rewrite Eold; by apply find_old).
  assert (Ewithout : without cmp k (entries (inorder t)) = entries (pre C ++ (inorder l ++ inorder r) ++ post C)).
  { rewrite Eold, without_old by done. by rewrite !fmap_app, <- !app_assoc. }
  pose proof (fo_rep _ _ _ _ _ _ Hf) as (Hi & _). cbn [nodes] in Hi.
  cbv zeta. apply wp_bind. apply (wp_path_get path C); [apply Hway|done|]. apply wp_bind.
  destruct (focus_top_NULL _ _ _ _ _ _ _ _ Hf) as [HiN HiC].
  apply (wp_is_left_node _ [] C (iloc i) (ht (T l i r)) (T l i r)); [done|done|done|].
  apply wp_bind, wp_shapes; [apply shapes_unlink|].
  eapply wp_tree_unlink; [exact Hf|done|done|apply Hway|done|apply Hway|]. intros w1 [[path1 idx1] bal1] Hk1 Hdet Hs1.
  cbv beta iota. apply wp_bind.
  assert (Hend : forall w2 t2, keeps w1 w2 -> same_contents w1 w2 -> whole w2 [iloc i] t2 -> avl t2 ->
    inorder t2 = pre C ++ (inorder l ++ inorder r) ++ post C ->
    wp (_ ← (if steal then mret tt else nk ← rd key (iloc i); _ ← destroy_key nk; nv ← rd value (iloc i); destroy_value nv);
      _ ← g_slice_free (iloc i); n ← Tree.tr nnodes; _ ← set_tree (with_nnodes (n - 1)); mret true) Q w2).
  { intros w2 t2 Hk2 Hs2 Hw2 Ha2 Hin2. destruct (Hs1 _ _ Hi) as (n1 & En1 & Hn1 & Hv1). destruct (Hs2 _ _ En1) as (n2 & En2 & Hn2 & Hv2).
    destruct (keeps_trans _ _ _ Hk1 Hk2) as [Hc [p Hp]]. destruct w2 as [m2 ot2 log2]. cbn in Hc, Hp, En2. subst ot2 log2.
    eapply (wp_free_node m2 (with_root p tr)); [exact Hw2|exact En2|]. intros w3 Hw3 Ht3 Hc3. rewrite Efind in HQ.
    rewrite bool_decide_true in HQ by by eexists. apply (HQ w3 t2 (with_nnodes (nnodes tr - 1) (with_root p tr))). rewrite <- Hin2 in Ewithout.
    split; [|done|done|..].
    - split; [done|done|apply Hst|]. by rewrite <- Ewithout.
    - unfold remove_calls. rewrite Efind. cbn [entry_of]. rewrite Hc3, Hn2, Hn1, Hv2, Hv1, key_nd, value_nd. by destruct steal.
    - exists p. unfold remove_object. by rewrite Efind. }
  destruct Hdet as [(-> & t2 & Hw2 & Ha2 & Hin2)|(C2 & h2 & t2 & Hf2 & Hdue2 & Ha2 & Hp2 & -> & -> & Hin2)].
  - rewrite decide_True by done. apply wp_ret. by apply (Hend w1 t2); [apply keeps_refl|apply same_refl|..].
  - rewrite decide_False.
    2:{ destruct t2 as [|l2 i2 r2]; [done|]. by destruct (focus_top_NULL _ _ _ _ _ _ _ _ Hf2). }
    apply wp_shapes; [apply shapes_restore|]. eapply wp_restore; [exact Hf2|done|done|done|done|].
    intros w3 t3 Hk3 Hw3 Ha3 Hin3 Hs3. apply (Hend w3 t3); [done|done|done|done|]. by rewrite Hin3.
Qed.
End remove.
