(* ===== verification/TreeMachine.v ===== *)
(** The whole life of a tree: emptying and freeing it, the height of an AVL
    tree, and the refinement of a machine whose state is a sorted list. *)
From stdpp Require Import sorting.
From S2P Require Import Prelude Store Tree TreeRep TreeBalance TreeUnlink TreeRead TreeInsert TreeRemove.

Open Scope c_scope.

(** * Height and size *)

(** The sizes of the smallest AVL trees of the heights [h] and [h + 1] *)
Fixpoint smallest (h : nat) : Z * Z := match h with O => (0, 1) | S h => let '(a, b) := smallest h in (b, a + b + 1) end.

Lemma smallest_mono h : 0 <= (smallest h).1 < (smallest h).2.
Proof. induction h as [|h IH]; cbn [smallest]; [done|]. destruct (smallest h) as [a b]. cbn in *. lia. Qed.

Lemma smallest_S h : (smallest (S h)).1 = (smallest h).2 /\ (smallest (S h)).2 = (smallest h).1 + (smallest h).2 + 1.
Proof. cbn [smallest]. destruct (smallest h) as [a b]. done. Qed.

Lemma smallest_le h h' : (h <= h')%nat -> (smallest h).1 <= (smallest h').1.
Proof.
  induction 1 as [|h' H IH]; [done|]. pose proof (smallest_mono h'). destruct (smallest_S h') as [-> _]. lia.
Qed.

Lemma avl_size t h : avl t -> ht t = Z.of_nat h -> (smallest h).1 <= Z.of_nat (length (inorder t)).
Proof.
  revert h. induction t as [|l IHl i r IHr]; intros h Ha Hh; cbn [ht inorder length] in *.
  { assert (h = O) as -> by lia. done. }
  destruct Ha as (Hl & Hr & Hb). pose proof (ht_nonneg l). pose proof (ht_nonneg r). rewrite length_app. cbn [length].
  specialize (IHl (Z.to_nat (ht l)) Hl ltac:(lia)). specialize (IHr (Z.to_nat (ht r)) Hr ltac:(lia)).
  destruct h as [|h]; [lia|]. destruct h as [|h].
  { cbn. lia. }
  destruct (smallest_S (S h)) as [E1 _]. destruct (smallest_S h) as [E2 E3]. rewrite E1, E3.
  assert (Hcase : (S h <= Z.to_nat (ht l) /\ h <= Z.to_nat (ht r) \/ h <= Z.to_nat (ht l) /\ S h <= Z.to_nat (ht r))%nat) by lia.
  destruct Hcase as [[H1 H2]|[H1 H2]]; apply smallest_le in H1, H2; rewrite <- E2; lia.
Qed.

(** Trees with fewer nodes fit into the array of a path. *)
Definition MAX_NODES : Z := 433494436.

Lemma small_height t : avl t -> Z.of_nat (length (inorder t)) < MAX_NODES -> ht t <= Z.of_nat MAX_GTREE_HEIGHT.
Proof.
  intros Ha Hs. destruct (Z.le_gt_cases (ht t) (Z.of_nat MAX_GTREE_HEIGHT)) as [|Hbig]; [done|].
  pose proof (avl_size t (Z.to_nat (ht t)) Ha ltac:(lia)).
  assert (H41 : (41 <= Z.to_nat (ht t))%nat) by (unfold MAX_GTREE_HEIGHT in *; lia). apply smallest_le in H41.
  replace ((smallest 41).1) with MAX_NODES in H41 by (by vm_compute). lia.
Qed.

(** * Emptying the tree *)

Definition entry_calls (tr : GTree) (e : entry) : list destroyed := key_calls tr e.1 ++ value_calls tr e.2.

Section destroy.
Context (cmp : Z -> Z -> Z) `{!KeyOrder cmp}.

Lemma wp_remove_all w t tr (Q : unit -> World -> Prop) :
  stored cmp w t tr ->
  Q tt (mkWorld ∅ (Some (with_nnodes 0 (with_root NULL tr))) (calls w ++ concat (entry_calls tr <$> entries (inorder t)))) ->
  wp g_tree_remove_all Q w.
Proof.
  intros H HQ. destruct (stored_nodup _ _ _ _ H) as [HN Hnull]. destruct w as [m0 ot log].
  pose proof (st_tree _ _ _ _ H) as E. cbn [tree calls] in *. subst ot.
  unfold g_tree_remove_all. apply wp_bind. eapply wp_first; [apply H|done|done|]. apply wp_bind, wp_budget, wp_bind.
  pose proof (fo_rep _ _ _ _ _ _ (st_whole _ _ _ _ H)) as Hr. cbn [nodes] in *.
  assert (Hgen : forall L2 L1 m log n, inorder t = L1 ++ L2 -> (length L2 < n)%nat ->
    (forall x, x ∈ iloc <$> L2 -> m !! x = m0 !! x) -> (forall x, is_Some (m !! x) -> x ∈ iloc <$> L2) ->
    Q tt (mkWorld ∅ (Some (with_nnodes 0 (with_root NULL tr))) (log ++ concat (entry_calls tr <$> entries L2))) ->
    wp (loop n (fun node =>
      if decide (node = NULL) then mret (inr tt)
      else
        next ← g_tree_node_next node;
        k ← rd key node; _ ← destroy_key k;
        v ← rd value node; _ ← destroy_value v;
        _ ← g_slice_free node;
        mret (inl next)) (loc_or NULL (head L2)))
      (fun _ => wp (set_tree (fun t => with_nnodes 0 (with_root NULL t))) Q) (mkWorld m (Some tr) log)).
  { clear HQ. intros L2. induction L2 as [|i L2 IH]; intros L1 m log1 n E Hn Hm Hd HQ2; (destruct n as [|n]; [cbn in Hn; lia|]);
      cbn [loop head loc_or from_option]; apply wp_bind.
    - rewrite decide_True by done. apply wp_ret, wp_ret, wp_set_tree. rewrite app_nil_r in HQ2.
      assert (m = ∅) as ->; [|done]. apply map_empty. intros x. apply eq_None_not_Some. intros Hx. apply Hd in Hx. by apply elem_of_nil in Hx.
    - assert (Hi : i ∈ inorder t) by (rewrite E; apply elem_of_app; right; by left).
      rewrite decide_False by (intros E'; apply Hnull; rewrite <- E'; by apply in_locs).
      destruct (node_of _ _ _ _ Hr Hi) as (nd & En & Ek & Ev).
      assert (Eni : m !! iloc i = Some nd) by (rewrite Hm by (by left); done).
      apply wp_bind. eapply (wp_next m0 m _ _ t _ L1 i L2); [exact Hr|done|done|done|].
      apply wp_bind. eapply wp_read; [exact Eni|]. apply wp_bind, wp_destroy_key, wp_bind.
      eapply wp_read; [exact Eni|]. apply wp_bind, wp_destroy_value, wp_bind.
      unfold g_slice_free, wp at 1. cbn [nodes]. rewrite Eni. apply wp_ret.
      assert (Hx : forall x, x ∈ iloc <$> L2 -> x <> iloc i).
      { intros x Hx ->. unfold locs in HN. rewrite E, fmap_app in HN. apply NoDup_app in HN as (_ & _ & HN).
        cbn [fmap list_fmap] in HN. by apply NoDup_cons in HN as [HN _]. }
      apply (IH (L1 ++ [i])); [by rewrite <- app_assoc|cbn in Hn; lia|..]; cbn [tree calls].
      + intros x Hx2. rewrite lookup_delete_ne by (intros E'; by destruct (Hx x)). apply Hm. by right.
      + intros x [y Hy]. apply lookup_delete_Some in Hy as [Hne Hy]. specialize (Hd x ltac:(by eexists)). cbn [fmap list_fmap] in Hd.
        apply elem_of_cons in Hd as [->|Hd]; done.
      + cbn [fmap list_fmap concat] in HQ2. unfold entry_calls at 1 in HQ2. cbn [entry_of fst snd] in HQ2.
        rewrite Ek, Ev, <- !app_assoc. rewrite <- !app_assoc in HQ2. exact HQ2. }
  apply (Hgen _ []); [done| |done| |done].
  - pose proof (locs_size _ _ _ Hr HN) as Hs. unfold locs in Hs. rewrite length_fmap in Hs. lia.
  - intros x Hx. apply (fo_dom _ _ _ _ _ _ (st_whole _ _ _ _ H)) in Hx. cbn [clocs app] in Hx. by rewrite app_nil_r in Hx.
Qed.
End destroy.

(** * Sizes of sorted lists *)

Section sizes.
Context (cmp : Z -> Z -> Z) `{!KeyOrder cmp}.

(** Where a key belongs *)
Lemma locate k L : ascending cmp L ->
  (exists L1 L2, L = L1 ++ L2 /\ below (cmp k) L1 /\ above (cmp k) L2) \/
  (exists L1 e L2, L = L1 ++ e :: L2 /\ below (cmp k) L1 /\ above (cmp k) L2 /\ cmp k e.1 = 0).
Proof.
  induction 1 as [|e L HL IH He]; [left; exists [], []; split_and!; [done|constructor..]|].
  destruct (Z.lt_trichotomy (cmp k e.1) 0) as [Hlt|[H0|Hgt]].
  - left. exists [], (e :: L). split_and!; [done|constructor|]. constructor; [done|].
    eapply Forall_impl; [exact He|]. unfold before. cbn. intros e' He'. apply (cmp_lt_le cmp _ e.1); lia.
  - right. exists [], e, L. split_and!; [done|constructor| |done].
    eapply Forall_impl; [exact He|]. unfold before. cbn. intros e' He'. apply (cmp_le_lt cmp _ e.1); lia.
  - destruct IH as [(L1 & L2 & -> & H1 & H2)|(L1 & e' & L2 & -> & H1 & H2 & H3)].
    + left. exists (e :: L1), L2. split_and!; [done|by constructor|done].
    + right. exists (e :: L1), e', L2. split_and!; [done|by constructor|done|done].
Qed.

Lemma put_length k v r L : ascending cmp L ->
  length (put cmp k v r L) = match find_entry cmp k L with Some _ => length L | None => S (length L) end.
Proof.
  intros H. destruct (locate k L H) as [(L1 & L2 & -> & H1 & H2)|(L1 & [k' v'] & L2 & -> & H1 & H2 & H3)].
  - rewrite put_new, find_none by done. rewrite !length_app. cbn. lia.
  - rewrite put_old, (find_old cmp k L1 (k', v')) by done. rewrite !length_app. done.
Qed.

Lemma without_length k L : ascending cmp L ->
  length L = match find_entry cmp k L with Some _ => S (length (without cmp k L)) | None => length (without cmp k L) end.
Proof.
  intros H. destruct (locate k L H) as [(L1 & L2 & -> & H1 & H2)|(L1 & e & L2 & -> & H1 & H2 & H3)].
  - by rewrite find_none, without_none by done.
  - rewrite find_old, without_old by done. rewrite !length_app. cbn. lia.
Qed.
End sizes.

(** * The machine *)

(** The operations, and their answers. A traversal collects entries until [stop]. *)
Inductive op :=
| Insert (k v : Z)
| Replace (k v : Z)
| Remove (k : Z)
| Steal (k : Z)
| Lookup (k : Z)
| LookupExtended (k : Z)
| Search (dir : Z -> Z)
| Foreach (stop : Z -> Z -> bool)
| Traverse (order : GTraverseType) (stop : Z -> Z -> bool)
| Height
| Nnodes
| Ref
| Unref
| Destroy.

Inductive answer :=
| Done
| Flag (b : bool)
| Found (v : option Z)
| FoundEntry (e : option (Z * Z))
| Visited (L : list (Z * Z))
| Number (n : Z).

Definition collect (stop : Z -> Z -> bool) (k v : Z) (L : list (Z * Z)) : list (Z * Z) * bool := (L ++ [(k, v)], stop k v).

(** The code of an operation *)
Definition exec `{Slices} (o : op) : cmd World answer :=
  match o with
  | Insert k v => _ ← g_tree_insert k v; mret Done
  | Replace k v => _ ← g_tree_replace k v; mret Done
  | Remove k => b ← g_tree_remove k; mret (Flag b)
  | Steal k => b ← g_tree_steal k; mret (Flag b)
  | Lookup k => v ← g_tree_lookup k; mret (Found v)
  | LookupExtended k => e ← g_tree_lookup_extended k; mret (FoundEntry e)
  | Search dir => v ← g_tree_search dir; mret (Found v)
  | Foreach stop => L ← g_tree_foreach (collect stop) []; mret (Visited L)
  | Traverse order stop => L ← g_tree_traverse (collect stop) order []; mret (Visited L)
  | Height => h ← g_tree_height; mret (Number h)
  | Nnodes => n ← g_tree_nnodes; mret (Number n)
  | Ref => _ ← g_tree_ref; mret Done
  | Unref => _ ← g_tree_unref; mret Done
  | Destroy => _ ← g_tree_destroy; mret Done
  end.

Fixpoint exec_all `{Slices} (ops : list op) : cmd World (list answer) :=
  match ops with
  | [] => mret []
  | o :: ops => a ← exec o; l ← exec_all ops; mret (a :: l)
  end.

Section machine.
Context (cmp : Z -> Z -> Z) (kf vf : bool).

(** Entries in ascending order and the reference count, while the tree exists;
    the calls of destroy functions *)
Record machine := Machine { contents : option (list entry * Z); destroyed_log : list destroyed }.

Definition kcalls (k : Z) : list destroyed := if kf then [KeyDestroyed k] else [].
Definition vcalls (v : Z) : list destroyed := if vf then [ValueDestroyed v] else [].

Definition insert_log (k : Z) (replace : bool) (L : list entry) : list destroyed :=
  match find_entry cmp k L with
  | Some (k', v') => vcalls v' ++ kcalls (if replace then k' else k)
  | None => []
  end.
Definition remove_log (k : Z) (steal : bool) (L : list entry) : list destroyed :=
  match find_entry cmp k L with
  | Some (k', v') => if steal then [] else kcalls k' ++ vcalls v'
  | None => []
  end.
Definition clear_log (L : list entry) : list destroyed := concat ((fun e => kcalls e.1 ++ vcalls e.2) <$> L).

Definition step (o : op) (L : list entry) (refs : Z) (log : list destroyed) : machine :=
  match o with
  | Insert k v => Machine (Some (put cmp k v false L, refs)) (log ++ insert_log k false L)
  | Replace k v => Machine (Some (put cmp k v true L, refs)) (log ++ insert_log k true L)
  | Remove k => Machine (Some (without cmp k L, refs)) (log ++ remove_log k false L)
  | Steal k => Machine (Some (without cmp k L, refs)) log
  | Ref => Machine (Some (L, refs + 1)) log
  | Unref => if decide (refs = 1) then Machine None (log ++ clear_log L) else Machine (Some (L, refs - 1)) log
  | Destroy => Machine (if decide (refs = 1) then None else Some ([], refs - 1)) (log ++ clear_log L)
  | _ => Machine (Some (L, refs)) log
  end.

(** The answers that are right for the entries [L]; the shape of the tree
    matters only for its height and for two orders of traversal. *)
Definition answers (o : op) (L : list entry) (a : answer) : Prop :=
  match o with
  | Remove k | Steal k => a = Flag (bool_decide (is_Some (find_entry cmp k L)))
  | Lookup k => a = Found (snd <$> find_entry cmp k L)
  | LookupExtended k => a = FoundEntry (find_entry cmp k L)
  | Search dir => exists v, a = Found v /\ search_answer dir L v
  | Foreach stop => a = Visited (visit_all (collect stop) L []).1
  | Traverse order stop => exists t, avl t /\ entries (inorder t) = L /\ a = Visited (visit_all (collect stop) (entries (order_of order t)) []).1
  | Height => exists t, avl t /\ entries (inorder t) = L /\ a = Number (ht t)
  | Nnodes => a = Number (Z.of_nat (length L))
  | _ => a = Done
  end.

(** What a caller has to see to: a new entry fits, a search follows the order,
    the reference count does not overflow. *)
Definition allowed (o : op) (L : list entry) (refs : Z) : Prop :=
  match o with
  | Insert k v => Z.of_nat (length (put cmp k v false L)) < MAX_NODES
  | Replace k v => Z.of_nat (length (put cmp k v true L)) < MAX_NODES
  | Search dir => directs cmp dir
  | Ref => refs + 1 < 2 ^ 31
  | _ => True
  end.

Fixpoint permitted (ops : list op) (M : machine) : Prop :=
  match ops with
  | [] => True
  | o :: ops =>
      match contents M with
      | Some (L, refs) => allowed o L refs /\ permitted ops (step o L refs (destroyed_log M))
      | None => False
      end
  end.

Fixpoint behaves (ops : list op) (M : machine) (l : list answer) (M' : machine) : Prop :=
  match ops, l with
  | [], [] => M' = M
  | o :: ops, a :: l =>
      match contents M with
      | Some (L, refs) => answers o L a /\ behaves ops (step o L refs (destroyed_log M)) l M'
      | None => False
      end
  | _, _ => False
  end.

(** The state of the code for a state of the machine *)
Definition tree_rel (w : World) (M : machine) : Prop :=
  calls w = destroyed_log M /\
  match contents M with
  | None => nodes w = ∅ /\ tree w = None
  | Some (L, refs) =>
      exists t tr, stored cmp w t tr /\ avl t /\ entries (inorder t) = L /\
        key_destroy_func tr = kf /\ value_destroy_func tr = vf /\ nnodes tr = Z.of_nat (length L) /\
        ref_count tr = refs /\ 1 <= refs < 2 ^ 31 /\ Z.of_nat (length L) < MAX_NODES
  end.
End machine.

#[export] Instance sub_order : KeyOrder Z.sub.
Proof. split; intros; lia. Qed.

Section refinement.
Context `{SlicesLaws} (cmp : Z -> Z -> Z) `{!KeyOrder cmp} (kf vf : bool).

Abbreviation rel := (tree_rel cmp kf vf).
Abbreviation step := (step cmp kf vf).

Lemma key_calls_rel tr k : key_destroy_func tr = kf -> key_calls tr k = kcalls kf k.
Proof. by intros <-. Qed.
Lemma value_calls_rel tr v : value_destroy_func tr = vf -> value_calls tr v = vcalls vf v.
Proof. by intros <-. Qed.

Lemma nnodes_u32 n : 0 <= n < MAX_NODES -> u32 n = n.
Proof. intros Hn. apply wrap_id. unfold in_u, MAX_NODES in *. change (2 ^ 32) with 4294967296. lia. Qed.

Lemma wp_insert_rel w L refs log k v (r : bool) (Q : unit -> World -> Prop) :
  rel w (Machine (Some (L, refs)) log) -> Z.of_nat (length (put cmp k v r L)) < MAX_NODES ->
  (forall w', rel w' (Machine (Some (put cmp k v r L, refs)) (log ++ insert_log cmp kf vf k r L)) -> Q tt w') ->
  wp (g_tree_insert_internal k v r) Q w.
Proof.
  intros (Hlog & t & tr & Hst & Ha & HL & Hkf & Hvf & Hn & Href & Hrefs & Hsize) Hput HQ. cbn in Hlog.
  eapply (wp_insert cmp); [exact Hst|done| |].
  { apply small_height; [done|]. rewrite <- HL, length_fmap in Hsize. done. }
  intros w' t' tr' [Hst' Ha' HL' Hc [p ->]]. rewrite HL in *. apply HQ. split; cbn [contents destroyed_log].
  - rewrite Hc, Hlog. f_equal. unfold insert_calls, insert_log. destruct (find_entry cmp k L) as [[k' v']|]; [|done].
    by rewrite (key_calls_rel tr), (value_calls_rel tr).
  - pose proof (put_length cmp k v r L ltac:(rewrite <- HL; apply Hst)) as Hlen.
    exists t', (with_root p (insert_object cmp tr k L)). unfold insert_object in *. destruct (find_entry cmp k L) as [e|].
    + split_and!; try done; cbn; lia.
    + split_and!; try done; try lia. cbn. rewrite nnodes_u32 by lia. lia.
Qed.

Lemma wp_remove_rel w L refs log k (steal : bool) (Q : bool -> World -> Prop) :
  rel w (Machine (Some (L, refs)) log) ->
  (forall w', rel w' (Machine (Some (without cmp k L, refs)) (log ++ remove_log cmp kf vf k steal L)) ->
     Q (bool_decide (is_Some (find_entry cmp k L))) w') ->
  wp (g_tree_remove_internal k steal) Q w.
Proof.
  intros (Hlog & t & tr & Hst & Ha & HL & Hkf & Hvf & Hn & Href & Hrefs & Hsize) HQ. cbn in Hlog.
  eapply (wp_tree_remove cmp); [exact Hst|done| |].
  { apply small_height; [done|]. rewrite <- HL, length_fmap in Hsize. done. }
  intros w' t' tr' [Hst' Ha' HL' Hc [p ->]]. rewrite HL in *. apply HQ. split; cbn [contents destroyed_log].
  - rewrite Hc, Hlog. f_equal. unfold remove_calls, remove_log. destruct (find_entry cmp k L) as [[k' v']|]; [|done].
    by rewrite (key_calls_rel tr), (value_calls_rel tr).
  - pose proof (without_length cmp k L ltac:(rewrite <- HL; apply Hst)) as Hlen.
    exists t', (with_root p (remove_object cmp tr k L)). unfold remove_object in *. destruct (find_entry cmp k L) as [e|].
    + split_and!; try done; try lia. cbn. rewrite nnodes_u32 by lia. lia.
    + split_and!; try done; try lia. cbn. lia.
Qed.

Lemma clear_log_rel tr L : key_destroy_func tr = kf -> value_destroy_func tr = vf -> concat (entry_calls tr <$> L) = clear_log kf vf L.
Proof. intros <- <-. done. Qed.

Lemma wp_remove_all_rel w L refs log (Q : unit -> World -> Prop) :
  rel w (Machine (Some (L, refs)) log) ->
  (forall w', nodes w' = ∅ -> rel w' (Machine (Some ([], refs)) (log ++ clear_log kf vf L)) -> Q tt w') -> wp g_tree_remove_all Q w.
Proof.
  intros (Hlog & t & tr & Hst & Ha & HL & Hkf & Hvf & Hn & Href & Hrefs & Hsize) HQ. cbn in Hlog.
  eapply (wp_remove_all cmp); [exact Hst|]. apply HQ; [done|]. rewrite HL, (clear_log_rel tr), Hlog by done.
  split; [done|]. exists E, (with_nnodes 0 (with_root NULL tr)). split_and!; try done; try lia; cbn; try lia.
  split; [|done|apply Hst|constructor]. split; cbn; try done.
  - repeat constructor. apply not_elem_of_nil.
  - intros x. rewrite lookup_empty. split; [by intros []|by intros ?%elem_of_nil].
  - by eexists.
Qed.

(** The reference count alone changes. *)
Lemma ref_count_rel w L refs log n :
  rel w (Machine (Some (L, refs)) log) -> 1 <= n < 2 ^ 31 ->
  exists tr, tree w = Some tr /\ ref_count tr = refs /\
    rel (mkWorld (nodes w) (Some (with_ref_count n tr)) (calls w)) (Machine (Some (L, n)) log).
Proof.
  intros (Hlog & t & tr & Hst & Ha & HL & Hkf & Hvf & Hn & Href & Hrefs & Hsize) Hb. exists tr.
  split_and!; [apply Hst|done|]. split; [done|]. exists t, (with_ref_count n tr). split_and!; try done; try lia.
  - destruct Hst as [[H1 H2 H3 H4 (tr' & E & Hroot)] Ht Hc Hs]. split; [|done|done|done]. split; try done.
    exists (with_ref_count n tr). split; [done|]. assert (tr' = tr) as -> by congruence. done.
  - cbn. apply swrap_id; [lia|]. change (2 ^ (32 - 1)) with 2147483648. change (2 ^ 31) with 2147483648 in Hb. lia.
Qed.

Lemma wp_unref_rel w L refs log (Q : unit -> World -> Prop) :
  rel w (Machine (Some (L, refs)) log) -> (forall w', rel w' (step Unref L refs log) -> Q tt w') -> wp g_tree_unref Q w.
Proof.
  intros Hrel HQ. pose proof Hrel as (Hlog & t & tr & Hst & _ & HL & Hkf & Hvf & _ & Href & Hrefs & _). pose proof (st_tree _ _ _ _ Hst) as E.
  change (2 ^ 31) with 2147483648 in Hrefs.
  destruct w as [m ot l]. cbn [tree] in E. subst ot. unfold g_tree_unref. apply wp_bind, wp_tr, wp_bind, wp_set_tree.
  rewrite swrap_id, Href by (change (2 ^ (32 - 1)) with 2147483648; lia). destruct (decide (refs = 1)) as [->|Hne].
  - cbn [Z.sub Z.eqb Z.add Z.opp Z.pos_sub]. apply wp_bind.
    assert (Hst0 : stored cmp (mkWorld m (Some (with_ref_count 0 tr)) l) t (with_ref_count 0 tr)).
    { destruct Hst as [[H1 H2 H3 H4 (tr' & E & Hroot)] Ht Hc Hs]. split; [|done|done|done]. split; try done.
      exists (with_ref_count 0 tr). split; [done|]. cbn [tree] in E. injection E as <-. done. }
    eapply (wp_remove_all cmp); [exact Hst0|]. apply HQ. unfold TreeMachine.step. rewrite decide_True by done.
    split; [|done]. cbn [calls destroyed_log] in *. by rewrite Hlog, HL, (clear_log_rel (with_ref_count 0 tr)).
  - destruct (Z.eqb_spec (refs - 1) 0); [lia|]. apply wp_ret, HQ. unfold TreeMachine.step. rewrite decide_False by done.
    destruct (ref_count_rel _ _ _ _ (refs - 1) Hrel) as (tr' & E & _ & Hr); [change (2 ^ 31) with 2147483648; lia|].
    cbn [tree] in E. injection E as <-. exact Hr.
Qed.

Lemma wp_exec w L refs log o (Q : answer -> World -> Prop) :
  rel w (Machine (Some (L, refs)) log) -> allowed cmp o L refs ->
  (forall a w', answers cmp o L a -> rel w' (step o L refs log) -> Q a w') -> wp (exec o) Q w.
Proof.
  intros Hrel Hok HQ. pose proof Hrel as (Hlog & t & tr & Hst & Ha & HL & Hkf & Hvf & Hn & Href & Hrefs & Hsize).
  assert (Hht : ht t <= Z.of_nat MAX_GTREE_HEIGHT).
  { apply small_height; [done|]. rewrite <- HL, length_fmap in Hsize. done. }
  destruct o; cbn [exec allowed answers TreeMachine.step] in *; apply wp_bind.
  - eapply wp_insert_rel; [exact Hrel|done|]. intros w' Hw'. by apply wp_ret, HQ.
  - eapply wp_insert_rel; [exact Hrel|done|]. intros w' Hw'. by apply wp_ret, HQ.
  - eapply wp_remove_rel; [exact Hrel|]. intros w' Hw'. by apply wp_ret, HQ.
  - eapply wp_remove_rel; [exact Hrel|]. intros w' Hw'. apply wp_ret, HQ; [done|].
    unfold remove_log in Hw'. destruct (find_entry cmp k L) as [[]|]; by rewrite app_nil_r in Hw'.
  - eapply (wp_tree_lookup cmp); [exact Hst|]. apply wp_ret, HQ; [by rewrite HL|done].
  - eapply (wp_lookup_extended cmp); [exact Hst|]. apply wp_ret, HQ; [by rewrite HL|done].
  - eapply (wp_tree_search cmp); [exact Hst|done|]. rewrite HL. intros v Hv. apply wp_ret, HQ; [by exists v|done].
  - eapply (wp_foreach cmp); [exact Hst|]. apply wp_ret, HQ; [by rewrite HL|done].
  - eapply (wp_traverse cmp); [exact Hst|]. apply wp_ret, HQ; [by exists t|done].
  - eapply (wp_height cmp); [exact Hst|change (2 ^ 31) with 2147483648; unfold MAX_GTREE_HEIGHT in Hht; lia|].
    apply wp_ret, HQ; [by exists t|done].
  - destruct w as [m ot l]. pose proof (st_tree _ _ _ _ Hst) as E. cbn [tree] in E. subst ot.
    unfold g_tree_nnodes. apply wp_bind, wp_tr, wp_ret, wp_ret, HQ; [|done]. rewrite Hn, swrap_id; [done|lia|].
    change (2 ^ (32 - 1)) with 2147483648. unfold MAX_NODES in Hsize. lia.
  - destruct (ref_count_rel _ _ _ _ (refs + 1) Hrel) as (tr' & E & Er & Hr); [lia|]. destruct w as [m ot l]. cbn [tree] in E. subst ot.
    unfold g_tree_ref. apply wp_bind, wp_tr, wp_set_tree, wp_ret, HQ; [done|]. rewrite Er. exact Hr.
  - eapply wp_unref_rel; [exact Hrel|]. intros w' Hw'. by apply wp_ret, HQ.
  - unfold g_tree_destroy. apply wp_bind. eapply wp_remove_all_rel; [exact Hrel|]. intros w1 Hw1 Hrel1.
    eapply wp_unref_rel; [exact Hrel1|]. intros w' Hw'. apply wp_ret, HQ; [done|]. unfold TreeMachine.step in Hw'.
    case_decide; [|done]. by rewrite app_nil_r in Hw'.
Qed.

Lemma wp_exec_all ops w M (Q : list answer -> World -> Prop) :
  rel w M -> permitted cmp kf vf ops M -> (forall l w' M', behaves cmp kf vf ops M l M' -> rel w' M' -> Q l w') -> wp (exec_all ops) Q w.
Proof.
  revert w M Q. induction ops as [|o ops IH]; intros w M Q Hrel Hp HQ; cbn [exec_all permitted behaves] in *.
  - apply wp_ret. by apply (HQ [] w M).
  - destruct M as [[[L refs]|] log]; [|done]. cbn [contents destroyed_log] in *. destruct Hp as [Hok Hp].
    apply wp_bind. eapply wp_exec; [exact Hrel|done|]. intros a w1 Ha Hrel1. apply wp_bind. eapply IH; [exact Hrel1|done|].
    intros l w2 M' Hb Hrel2. apply wp_ret. by apply (HQ (a :: l) w2 M').
Qed.

Lemma wp_new_full m0 log (Q : unit -> World -> Prop) :
  m0 = ∅ -> log = [] -> (forall w, rel w (Machine (Some ([], 1)) []) -> Q tt w) -> wp (g_tree_new_full cmp kf vf) Q (mkWorld m0 None log).
Proof.
  intros -> -> HQ. apply HQ. split; [done|]. exists E, (mkTree NULL cmp kf vf 0 1). split_and!; try done.
  split; [|done|done|constructor]. split; cbn; try done.
  - repeat constructor. apply not_elem_of_nil.
  - intros x. rewrite lookup_empty. split; [by intros []|by intros ?%elem_of_nil].
  - by eexists.
Qed.
End refinement.

(** C30: From a new tree, every sequence of calls runs to its end, with the answers
    of a machine that keeps a sorted list of entries and a reference count; the
    destroy functions are called for exactly the keys and values that leave the
    tree, in the machine's order, and with the last reference nothing stays
    allocated. *)
Theorem tree_refines `{SlicesLaws} cmp `{!KeyOrder cmp} kf vf ops :
  permitted cmp kf vf ops (Machine (Some ([], 1)) []) ->
  exists l w M, (_ ← g_tree_new_full cmp kf vf; exec_all ops) (mkWorld ∅ None []) = Some (l, w) /\
    behaves cmp kf vf ops (Machine (Some ([], 1)) []) l M /\ tree_rel cmp kf vf w M.
Proof.
  intros Hp.
  assert (Hwp : wp (_ ← g_tree_new_full cmp kf vf; exec_all ops)
    (fun l w => exists M, behaves cmp kf vf ops (Machine (Some ([], 1)) []) l M /\ tree_rel cmp kf vf w M) (mkWorld ∅ None [])).
  { apply wp_bind. apply (wp_new_full cmp kf vf); [done|done|]. intros w Hrel. eapply (wp_exec_all cmp kf vf); [exact Hrel|done|].
    intros l w' M Hb Hr. by exists M. }
  apply wp_run in Hwp as (l & w & E & M & Hb & Hr). by exists l, w, M.
Qed.

(** A tree that is filled, searched, emptied and destroyed while someone else
    holds a reference *)
Definition life_ops : list op :=
  [Insert 5 50; Insert 3 30; Insert 8 80; Insert 1 10; Insert 3 31; Replace 3 32; Insert 4 40; Insert 2 20; LookupExtended 3;
   Search (Z.sub 4); Traverse G_PRE_ORDER (fun _ _ => false); Height; Remove 3; Steal 8; Remove 7; Ref; Foreach (fun k _ => k =? 4);
   Lookup 8; Nnodes; Destroy; Insert 6 60; Unref].

Lemma tree_refines_witness :
  permitted Z.sub true true life_ops (Machine (Some ([], 1)) []) /\
  exists l w M, (_ ← g_tree_new_full Z.sub true true; exec_all life_ops) (mkWorld ∅ None []) = Some (l, w) /\
    behaves Z.sub true true life_ops (Machine (Some ([], 1)) []) l M /\ tree_rel Z.sub true true w M.
Proof.
  assert (Hp : permitted Z.sub true true life_ops (Machine (Some ([], 1)) [])).
  { unfold life_ops. cbn [permitted contents step allowed]. split_and!; first [apply (cmp_directs Z.sub)|by vm_compute]. }
  split; [exact Hp|]. exact (tree_refines Z.sub true true life_ops Hp).
Defined.
