(* ===== verification/TreeLimits.v ===== *)
(** The limits of the tree: the height is logarithmic in the number of nodes,
    and where the array of a path ends. *)
From stdpp Require Import sorting.
From S2P Require Import Prelude Store Tree TreeRep TreeBalance TreeUnlink TreeRead TreeInsert TreeMachine.

Open Scope c_scope.

Lemma size_ht t : Z.of_nat (length (inorder t)) < 2 ^ ht t.
Proof.
  induction t as [|l IHl i r IHr]; cbn [inorder ht]; [done|]. rewrite length_app. cbn [length].
  pose proof (ht_nonneg l). pose proof (ht_nonneg r). rewrite Z.pow_add_r by lia. change (2 ^ 1) with 2.
  pose proof (Z.pow_le_mono_r 2 (ht l) (Z.max (ht l) (ht r)) ltac:(lia) ltac:(lia)).
  pose proof (Z.pow_le_mono_r 2 (ht r) (Z.max (ht l) (ht r)) ltac:(lia) ltac:(lia)). lia.
Qed.

Lemma height_of_rel cmp `{!KeyOrder cmp} kf vf w L refs log (Q : Z -> World -> Prop) :
  tree_rel cmp kf vf w (Machine (Some (L, refs)) log) ->
  (forall h, (h <= MAX_GTREE_HEIGHT)%nat -> (smallest h).1 <= Z.of_nat (length L) < 2 ^ Z.of_nat h -> Q (Z.of_nat h) w) ->
  wp g_tree_height Q w.
Proof.
  intros (Hlog & t & tr & Hst & Ha & HL & Hkf & Hvf & Hn & Href & Hrefs & Hsize) HQ.
  assert (Hlen : length (inorder t) = length L) by (by rewrite <- HL, length_fmap). pose proof (ht_nonneg t) as Hnn.
  assert (Hht : ht t <= Z.of_nat MAX_GTREE_HEIGHT) by (apply small_height; [done|by rewrite Hlen]).
  eapply (wp_height cmp); [exact Hst|change (2 ^ 31) with 2147483648; unfold MAX_GTREE_HEIGHT in Hht; lia|].
  specialize (HQ (Z.to_nat (ht t))). rewrite Z2Nat.id in HQ by done. apply HQ; [lia|]. rewrite <- Hlen.
  split; [apply avl_size; [done|lia]|apply size_ht].
Qed.

Lemma permitted_alive cmp kf vf ops o M l M' :
  permitted cmp kf vf (ops ++ [o]) M -> behaves cmp kf vf ops M l M' ->
  exists L refs, contents M' = Some (L, refs).
Proof.
  revert M l. induction ops as [|o' ops IH]; intros M l; cbn [app permitted behaves].
  - destruct l as [|]; [|done]. intros Hp ->. destruct (contents M) as [[L refs]|]; [by exists L, refs|done].
  - destruct l as [|a l]; [done|]. destruct (contents M) as [[L refs]|]; [|done]. intros [_ Hp] [_ Hb].
    by apply (IH _ _ Hp Hb).
Qed.

Lemma permitted_app cmp kf vf ops o M : permitted cmp kf vf (ops ++ [o]) M -> permitted cmp kf vf ops M.
Proof.
  revert M. induction ops as [|o' ops IH]; intros M; cbn [app permitted]; [done|].
  destruct (contents M) as [[L refs]|]; [|done]. intros [Hok Hp]. auto.
Qed.

(** C31: After any calls on a new tree, g_tree_height answers a height [h] that is
    no more than the length of a path array, and the number of entries is below
    2^h and at least that of the smallest AVL tree of this height, which grows
    like the numbers of Fibonacci. *)
Theorem heights_logarithmic `{SlicesLaws} cmp `{!KeyOrder cmp} kf vf ops :
  permitted cmp kf vf (ops ++ [Height]) (Machine (Some ([], 1)) []) ->
  exists l h w L refs log,
    (_ ← g_tree_new_full cmp kf vf; l ← exec_all ops; h ← g_tree_height; mret (l, h)) (mkWorld ∅ None []) = Some (l, Z.of_nat h, w) /\
    behaves cmp kf vf ops (Machine (Some ([], 1)) []) l (Machine (Some (L, refs)) log) /\
    (h <= MAX_GTREE_HEIGHT)%nat /\ (smallest h).1 <= Z.of_nat (length L) < 2 ^ Z.of_nat h.
Proof.
  intros Hp.
  assert (Hwp : wp (_ ← g_tree_new_full cmp kf vf; l ← exec_all ops; h ← g_tree_height; mret (l, h))
    (fun lh w => exists h L refs log, lh.2 = Z.of_nat h /\ behaves cmp kf vf ops (Machine (Some ([], 1)) []) lh.1 (Machine (Some (L, refs)) log) /\
      (h <= MAX_GTREE_HEIGHT)%nat /\ (smallest h).1 <= Z.of_nat (length L) < 2 ^ Z.of_nat h) (mkWorld ∅ None [])).
  { apply wp_bind. apply (wp_new_full cmp kf vf); [done|done|]. intros w Hrel. apply wp_bind.
    eapply (wp_exec_all cmp kf vf); [exact Hrel|by eapply permitted_app|]. intros l w' [C log] Hb Hr.
    destruct (permitted_alive _ _ _ _ _ _ _ _ Hp Hb) as (L & refs & HC). cbn [contents] in HC. subst C.
    apply wp_bind. eapply (height_of_rel cmp); [exact Hr|]. intros h Hh Hs. apply wp_ret. by exists h, L, refs, log. }
  apply wp_run in Hwp as ([l hz] & w & E & h & L & refs & log & Eh & Hb & Hh & Hs). cbn [fst snd] in *. subst hz.
  by exists l, h, w, L, refs, log.
Qed.

(** * A tree that is too high *)

(** The AVL tree of height [h] with the fewest nodes, the left subtree the
    higher one; keys count from [base]. *)
Definition nth_item (k : Z) : item := Item (k + 1) k 0.

Fixpoint thin_tree (h : nat) (base : Z) : bt :=
  match h with
  | O => E
  | S h' =>
      match h' with
      | O => T E (nth_item base) E
      | S h'' => let n := (smallest h').1 in T (thin_tree h' base) (nth_item (base + n)) (thin_tree h'' (base + n + 1))
      end
  end.

Lemma nat_ind2 (P : nat -> Prop) : P 0%nat -> P 1%nat -> (forall h, P h -> P (S h) -> P (S (S h))) -> forall h, P h.
Proof. intros H0 H1 H2 h. assert (P h /\ P (S h)) as [? _]; [|done]. induction h as [|h [IH1 IH2]]; auto. Qed.

Lemma thin_inorder h base : inorder (thin_tree h base) = nth_item <$> seqZ base (smallest h).1.
Proof.
  revert base. induction h as [| |h IH1 IH2] using nat_ind2; intros base; [done|done|].
  change (thin_tree (S (S h)) base) with
    (T (thin_tree (S h) base) (nth_item (base + (smallest (S h)).1)) (thin_tree h (base + (smallest (S h)).1 + 1))).
  cbn [inorder]. rewrite IH1, IH2. destruct (smallest_S (S h)) as [-> _]. destruct (smallest_S h) as [E1 ->]. rewrite E1.
  pose proof (smallest_mono h).
  replace ((smallest h).1 + (smallest h).2 + 1) with ((smallest h).2 + (1 + (smallest h).1)) by lia.
  rewrite seqZ_app by lia. rewrite fmap_app. f_equal.
  rewrite (seqZ_cons (base + _)) by lia. cbn [fmap list_fmap]. do 3 f_equal; lia.
Qed.

Lemma thin_avl h base : ht (thin_tree h base) = Z.of_nat h /\ avl (thin_tree h base).
Proof.
  revert base. induction h as [| |h IH1 IH2] using nat_ind2; intros base; [done|cbn; split_and!; done || lia|].
  change (thin_tree (S (S h)) base) with
    (T (thin_tree (S h) base) (nth_item (base + (smallest (S h)).1)) (thin_tree h (base + (smallest (S h)).1 + 1))).
  cbn [ht avl]. destruct (IH2 base) as [-> H2]. destruct (IH1 (base + (smallest (S h)).1 + 1)) as [-> H1]. split_and!; done || lia.
Qed.

(** Nodes for a tree *)
Lemma rep_exists t B : NoDup (locs t) -> exists m, rep m t B /\ forall x, is_Some (m !! x) <-> x ∈ locs t.
Proof.
  revert B. induction t as [|l IHl i r IHr]; intros B HN.
  { exists ∅. split; [done|]. intros x. rewrite lookup_empty. split; [by intros []|by intros ?%elem_of_nil]. }
  destruct (nodup_mk Left _ _ _ HN) as (Hil & Hir & HNl & HNr & Hlr).
  destruct (IHl (upd B Right (iloc i)) HNl) as (ml & Hl & Dl). destruct (IHr (upd B Left (iloc i)) HNr) as (mr & Hr & Dr).
  set (n := nd Left i (top l) (top r) (B Left) (B Right) (ht r - ht l)). exists (<[iloc i := n]> (ml ∪ mr)). split.
  - cbn [rep]. split_and!.
    + apply lookup_insert_eq.
    + revert Hl. apply bt_rep_frame. intros x Hx. rewrite lookup_insert_ne by (by intros <-).
      apply Dl in Hx as [y Hy]. rewrite Hy. by apply lookup_union_Some_l.
    + revert Hr. apply bt_rep_frame. intros x Hx. rewrite lookup_insert_ne by (by intros <-).
      apply lookup_union_r. apply eq_None_not_Some. intros Hxl. apply Dl in Hxl. by apply (Hlr x).
  - intros x. rewrite locs_T, elem_of_cons, elem_of_app, <- Dl, <- Dr. destruct (decide (iloc i = x)) as [<-|Hne].
    + rewrite lookup_insert_eq. split; [by left|by eexists].
    + rewrite lookup_insert_ne, lookup_union_is_Some by done. naive_solver.
Qed.

(** ** Commands that fail *)

Lemma fails_bind2 {A B C} (c : cmd World A) (g : A -> cmd World B) (f : B -> cmd World C) w :
  wp c (fun a w' => mbind f (g a) w' = None) w -> mbind f (mbind g c) w = None.
Proof. unfold wp, mbind, cmd_bind. by destruct (c w) as [[a w']|]. Qed.

Lemma fails_bind {A B} (c : cmd World A) (f : A -> cmd World B) w : wp c (fun a w' => f a w' = None) w -> mbind f c w = None.
Proof. unfold wp, mbind, cmd_bind. by destruct (c w) as [[a w']|]. Qed.

Lemma fails_first {A B} (c : cmd World A) (f : A -> cmd World B) w : c w = None -> mbind f c w = None.
Proof. unfold mbind, cmd_bind. by intros ->. Qed.

Lemma path_put_outside path p w : length path = MAX_GTREE_HEIGHT -> path_put path 40 p w = None.
Proof. intros Hl. unfold path_put, array_set. rewrite decide_False by (rewrite Hl; unfold MAX_GTREE_HEIGHT; lia). done. Qed.

Lemma length_path_put path idx p (Q : list (option loc) -> World -> Prop) w :
  length path = MAX_GTREE_HEIGHT -> 0 <= idx < Z.of_nat MAX_GTREE_HEIGHT ->
  (forall path', length path' = MAX_GTREE_HEIGHT -> Q path' w) -> wp (path_put path idx p) Q w.
Proof.
  intros Hl Hi HQ. apply (path_put_at path (Z.to_nat idx)); [done|lia|lia|]. apply HQ. by rewrite length_insert.
Qed.

Section overflow.
Context `{Slices} (tr : GTree) (m : gmap loc GTreeNode) (log : list destroyed).
Hypothesis Hcmp : key_compare tr = Z.sub.

(** A node on the left spine above the lowest one *)
Lemma thin_node h B :
  rep m (thin_tree (S (S h)) 0) B ->
  let p := default NULL (top (thin_tree (S (S h)) 0)) in
  exists n, m !! p = Some n /\ 0 < key n /\ left_child n = true /\ left n = default NULL (top (thin_tree (S h) 0)) /\
    exists B', rep m (thin_tree (S h) 0) B'.
Proof.
  change (thin_tree (S (S h)) 0) with
    (T (thin_tree (S h) 0) (nth_item (0 + (smallest (S h)).1)) (thin_tree h (0 + (smallest (S h)).1 + 1))).
  cbn [top default from_option id]. intros (Hn & Hl & _). cbv zeta. eexists. split; [exact Hn|]. cbn [key left left_child nd ikey nth_item].
  pose proof (smallest_mono h). destruct (smallest_S h) as [Es _].
  split_and!; [lia|by destruct h|by destruct h|by eexists].
Qed.

(** A loop that goes down the left spine and records the nodes runs out of the
    array. *)
Lemma spine_overflow {A} (body : list (option loc) * Z * loc -> cmd World (list (option loc) * Z * loc + A)) h B path n :
  (forall p nd path idx (f : list (option loc) * Z * loc + A -> cmd World A),
     m !! p = Some nd -> 0 < key nd -> left_child nd = true ->
     (forall path', length path' = MAX_GTREE_HEIGHT -> 0 <= idx < Z.of_nat MAX_GTREE_HEIGHT ->
        f (inl (path', idx + 1, left nd)) (mkWorld m (Some tr) log) = None) ->
     length path = MAX_GTREE_HEIGHT -> 1 <= idx <= 40 ->
     mbind f (body (path, idx, p)) (mkWorld m (Some tr) log) = None) ->
  rep m (thin_tree (S (S h)) 0) B -> (h < MAX_GTREE_HEIGHT)%nat -> length path = MAX_GTREE_HEIGHT ->
  loop n body (path, Z.of_nat (MAX_GTREE_HEIGHT - h), default NULL (top (thin_tree (S (S h)) 0))) (mkWorld m (Some tr) log) = None.
Proof.
  intros Hbody. revert h B path. induction n as [|n IH]; intros h B path Hr Hh Hp; [done|].
  destruct (thin_node h B Hr) as (nd & Hn & Hk & Hc & Hl & B' & Hr'). cbn [loop]. eapply Hbody; [exact Hn|done|done| |done|unfold MAX_GTREE_HEIGHT in *; lia].
  intros path' Hp' Hi. rewrite Hl. destruct h as [|h]; [unfold MAX_GTREE_HEIGHT in Hi; lia|].
  replace (Z.of_nat (MAX_GTREE_HEIGHT - S h) + 1) with (Z.of_nat (MAX_GTREE_HEIGHT - h)) by (unfold MAX_GTREE_HEIGHT in *; lia).
  apply (IH h B'); [done|unfold MAX_GTREE_HEIGHT in *; lia|done].
Qed.

Lemma wp_compare_spine k p nd (Q : Z -> World -> Prop) :
  m !! p = Some nd -> Q (k - key nd) (mkWorld m (Some tr) log) -> wp (compare k p) Q (mkWorld m (Some tr) log).
Proof.
  intros Hp HQ. unfold compare. apply wp_bind, wp_tr, wp_bind. eapply wp_read; [exact Hp|]. apply wp_ret. by rewrite Hcmp.
Qed.

(** The record of a node, and the step to its left child *)
Lemma record_step {A} p nd path idx (f : list (option loc) * Z * loc + A -> cmd World A) :
  m !! p = Some nd ->
  (forall path', length path' = MAX_GTREE_HEIGHT -> 0 <= idx < Z.of_nat MAX_GTREE_HEIGHT ->
     f (inl (path', idx + 1, left nd)) (mkWorld m (Some tr) log) = None) ->
  length path = MAX_GTREE_HEIGHT -> 1 <= idx <= 40 ->
  mbind f (path ← path_put path idx p; next ← rd (link Left) p; mret (inl (path, idx + 1, next))) (mkWorld m (Some tr) log) = None.
Proof.
  intros Hp Hf Hlen Hidx. destruct (decide (idx = 40)) as [->|Hne].
  - apply fails_first, fails_first. by apply path_put_outside.
  - apply fails_bind2. apply length_path_put; [done|unfold MAX_GTREE_HEIGHT; lia|]. intros path' Hp'.
    apply fails_bind2. eapply wp_read; [exact Hp|]. apply Hf; [done|unfold MAX_GTREE_HEIGHT; lia].
Qed.

Lemma insert_overflow k v r t B path :
  t = thin_tree (S (S 39)) 0 -> rep m t B -> k <= 0 -> length path = MAX_GTREE_HEIGHT ->
  insert_descend k v r path 1 (default NULL (top t)) (mkWorld m (Some tr) log) = None.
Proof.
  intros -> Hr Hk Hp. apply (spine_overflow _ 39 B path); [|done|unfold MAX_GTREE_HEIGHT; lia|done].
  clear path Hp. intros p nd path idx f Hn Hkey Hc Hf Hp Hidx. apply fails_bind2. eapply wp_compare_spine; [exact Hn|].
  destruct (Z.eqb_spec (k - key nd) 0); [lia|]. unfold side_of. destruct (Z.ltb_spec (k - key nd) 0); [|lia].
  apply fails_bind2. eapply wp_read; [exact Hn|]. cbn [has_child]. rewrite Hc. by eapply record_step.
Qed.

Lemma remove_overflow k t B path :
  t = thin_tree (S (S 39)) 0 -> rep m t B -> k <= 0 -> length path = MAX_GTREE_HEIGHT ->
  remove_descend k path 1 (default NULL (top t)) (mkWorld m (Some tr) log) = None.
Proof.
  intros -> Hr Hk Hp. apply (spine_overflow _ 39 B path); [|done|unfold MAX_GTREE_HEIGHT; lia|done].
  clear path Hp. intros p nd path idx f Hn Hkey Hc Hf Hp Hidx. apply fails_bind2. eapply wp_compare_spine; [exact Hn|].
  destruct (Z.eqb_spec (k - key nd) 0); [lia|]. unfold side_of. destruct (Z.ltb_spec (k - key nd) 0); [|lia].
  apply fails_bind2. eapply wp_read; [exact Hn|]. cbn [has_child]. rewrite Hc. by eapply record_step.
Qed.
End overflow.

Lemma seqZ_ascending base n : ascending Z.sub ((fun k => (k, 0)) <$> seqZ base n).
Proof.
  destruct (decide (n <= 0)) as [Hn|Hn]; [rewrite seqZ_nil by lia; constructor|]. rewrite <- (Z2Nat.id n) by lia.
  generalize (Z.to_nat n). clear n Hn. intros n. revert base.
  induction n as [|n IH]; intros base; [constructor|]. rewrite seqZ_cons by lia. cbn [fmap list_fmap].
  replace (Z.pred (Z.of_nat (S n))) with (Z.of_nat n) by lia. constructor; [apply IH|].
  apply Forall_fmap, Forall_forall. intros k Hk%elem_of_seqZ. unfold before. cbn. lia.
Qed.

(** The smallest AVL tree of a height, with the keys from 0 in order *)
Lemma thin_state h : exists w tr, stored Z.sub w (thin_tree h 0) tr /\ avl (thin_tree h 0) /\
  nnodes tr = (smallest h).1 /\ entries (inorder (thin_tree h 0)) = (fun k => (k, 0)) <$> seqZ 0 (smallest h).1.
Proof.
  pose proof (thin_inorder h 0) as Ein. pose proof (thin_avl h 0) as [_ Ha]. set (t := thin_tree h 0) in *. clearbody t.
  generalize dependent (smallest h).1. intros n Ein.
  assert (Een : entries (inorder t) = (fun k => (k, 0)) <$> seqZ 0 n) by (rewrite Ein, <- list_fmap_compose; done).
  assert (Eloc : locs t = (fun k => k + 1) <$> seqZ 0 n) by (unfold locs; rewrite Ein, <- list_fmap_compose; done).
  assert (HN : NoDup (locs t)). { rewrite Eloc. apply NoDup_fmap_2; [intros x y; lia|apply NoDup_seqZ]. }
  destruct (rep_exists t ends HN) as (m & Hr & Hd).
  set (tr := mkTree (default NULL (top t)) Z.sub false false n 1).
  exists (mkWorld m (Some tr) []), tr. split_and!; [|done|done|done]. split; [|done|done|].
  - split; cbn [nodes tree clocs app]; rewrite ?app_nil_r; [done|done| |done|by exists tr].
    apply NoDup_cons. split; [|done]. rewrite Eloc. intros (k & E & Hk%elem_of_seqZ)%list_elem_of_fmap. unfold NULL in E. lia.
  - rewrite Een. apply seqZ_ascending.
Qed.

Section functions.
Context `{Slices} (w : World) (tr : GTree) (t : bt).
Hypothesis Et : t = thin_tree (S (S 39)) 0.
Hypothesis Hst : stored Z.sub w t tr.
Hypothesis Hne : t <> E.

Lemma thin_parts : exists m log, w = mkWorld m (Some tr) log /\ rep m t ends /\ key_compare tr = Z.sub /\
  root tr = default NULL (top t) /\ root tr <> NULL.
Proof.
  destruct w as [m ot log]. pose proof (st_tree _ _ _ _ Hst) as E. cbn [tree] in E. subst ot. exists m, log.
  split_and!; [done|apply (fo_rep _ _ _ _ _ _ (st_whole _ _ _ _ Hst))|apply Hst|by eapply stored_root|].
  rewrite (stored_root _ _ _ _ Hst). by rewrite (top_NULL _ _ _ _ Hst).
Qed.

Lemma thin_insert_fails v r : g_tree_insert_internal (-1) v r w = None.
Proof.
  destruct thin_parts as (m & log & -> & Hr & Hc & Hroot & Hnn). unfold g_tree_insert_internal. apply fails_bind, wp_tr.
  rewrite decide_False by done. apply fails_bind, wp_path_first. intros path [Hp _]. rewrite Hroot.
  apply fails_first. by apply (insert_overflow tr m log Hc (-1) v r t ends).
Qed.

Lemma thin_remove_fails steal : g_tree_remove_internal 0 steal w = None.
Proof.
  destruct thin_parts as (m & log & -> & Hr & Hc & Hroot & Hnn). unfold g_tree_remove_internal. apply fails_bind, wp_tr.
  rewrite decide_False by done. apply fails_bind, wp_path_first. intros path [Hp _]. rewrite Hroot.
  apply fails_first. by apply (remove_overflow tr m log Hc 0 t ends).
Qed.
End functions.

(** C32: The path arrays have 40 elements, which is not enough for a guint of
    nodes: there is a well-formed AVL tree with 433494436 nodes, the keys from 0
    on, in which searches work, but where the insertion of a smaller key and the
    removal of the smallest key write behind the array. *)
Theorem path_overflow `{Slices} :
  exists w t tr, stored Z.sub w t tr /\ avl t /\ nnodes tr = 433494436 /\
    entries (inorder t) = (fun k => (k, 0)) <$> seqZ 0 433494436 /\
    g_tree_lookup 0 w = Some (Some 0, w) /\ g_tree_insert (-1) 0 w = None /\ g_tree_remove 0 w = None.
Proof.
  destruct (thin_state (S (S 39))) as (w & tr & Hst & Ha & Hn & He).
  replace ((smallest (S (S 39))).1) with 433494436 in Hn, He by (by vm_compute).
  remember (thin_tree (S (S 39)) 0) as t eqn:Et. exists w, t, tr.
  assert (Hne : t <> E). { intros ->. rewrite seqZ_cons in He by lia. done. }
  split_and!; [exact Hst|exact Ha|exact Hn|exact He|..].
  - assert (Hwp : wp (g_tree_lookup 0) (fun a w' => a = Some 0 /\ w' = w) w).
    { eapply (wp_tree_lookup Z.sub); [exact Hst|]. split; [|done]. rewrite He, seqZ_cons by lia. done. }
    apply wp_run in Hwp as (a & w' & E & -> & ->). exact E.
  - exact (thin_insert_fails w tr t Et Hst Hne 0 false).
  - exact (thin_remove_fails w tr t Et Hst Hne false).
Qed.

(** * Concrete calls *)

Lemma sub_search k : directs Z.sub (Z.sub k).
Proof. apply (cmp_directs Z.sub). Qed.

Definition demo_ops : list op :=
  [Insert 5 50; Insert 3 30; Insert 8 80; Insert 1 10; Insert 3 31; Replace 3 32; Insert 4 40; Insert 2 20; LookupExtended 3;
   Search (Z.sub 4); Traverse G_PRE_ORDER (fun _ _ => false); Remove 3; Steal 8; Remove 7; Ref; Foreach (fun k _ => k =? 4); Lookup 8; Nnodes; Unref].

Lemma heights_logarithmic_witness :
  permitted Z.sub true true (demo_ops ++ [Height]) (Machine (Some ([], 1)) []) /\
  exists l h w L refs log,
    (_ ← g_tree_new_full Z.sub true true; l ← exec_all demo_ops; h ← g_tree_height; mret (l, h)) (mkWorld ∅ None []) = Some (l, Z.of_nat h, w) /\
    behaves Z.sub true true demo_ops (Machine (Some ([], 1)) []) l (Machine (Some (L, refs)) log) /\
    (h <= MAX_GTREE_HEIGHT)%nat /\ (smallest h).1 <= Z.of_nat (length L) < 2 ^ Z.of_nat h.
Proof.
  assert (Hp : permitted Z.sub true true (demo_ops ++ [Height]) (Machine (Some ([], 1)) [])).
  { unfold demo_ops. cbn [app permitted contents step allowed]. split_and!; first [apply sub_search|by vm_compute]. }
  split; [exact Hp|]. exact (heights_logarithmic Z.sub true true demo_ops Hp).
Defined.
