(* ===== verification/Pattern.v ===== *)
(** Glob patterns: src/glib-2.56.1/glib/gpattern.c.

    Strings are buffers with a terminator, pointers indices, as in Utf8, whose
    g_utf8_next_char and g_utf8_strreverse the code calls. *)
From S2P Require Import Prelude Utf8 Utf8Convert.

Open Scope c_scope.

(** The characters * and ? *)
Definition STAR : Z := 42.
Definition JOKER : Z := 63.

Inductive GMatchType := G_MATCH_ALL | G_MATCH_ALL_TAIL | G_MATCH_HEAD | G_MATCH_TAIL | G_MATCH_EXACT.

#[export] Instance GMatchType_eq_dec : EqDecision GMatchType.
Proof. solve_decision. Defined.

Record GPatternSpec := mkPatternSpec {
  match_type : GMatchType;
  pattern_length : Z;
  min_length : Z;
  max_length : Z;
  pattern : list Z;
}.

(** * Matching *)

Section ph_match.
Context (pat s : list Z).

(** ch = *pattern; pattern++; and the next round of the outer loop *)
Definition next_round (pattern string : Z) (w : bool) : option (Z * Z * Z * bool + bool * bool) :=
  ch ← rd pat pattern; Some (inl (ch, pattern + 1, string, w)).

(** The inner loop over wildcards and jokers; [None] inside is [return FALSE]. *)
Definition skip_wildcards (pattern string : Z) : option (option (Z * Z * Z)) :=
  iter (S (length pat)) (fun '(pattern, string) =>
    ch ← rd pat pattern;
    let pattern := pattern + 1 in
    if ch =? JOKER then
      c ← rd s string;
      if c =? 0 then Some (inr None)
      else string ← g_utf8_next_char s string; Some (inl (pattern, string))
    else if ch =? STAR then Some (inl (pattern, string))
    else Some (inr (Some (ch, pattern, string)))) (pattern, string).

(** The search for [ch]; [None] inside is [return FALSE]. *)
Definition search_char (ch string : Z) : option (option Z) :=
  iter (S (length s)) (fun string =>
    c ← rd s string;
    if negb (ch =? c) then
      if c =? 0 then Some (inr None)
      else string ← g_utf8_next_char s string; Some (inl string)
    else Some (inr (Some string))) string.

(** The loop over the places of [ch]: the result of a [return], or the string
    where the loop is left. *)
Definition try_places (ph_match : Z -> Z -> option (bool * bool)) (ch pattern string : Z) : option (bool + Z) :=
  iter (S (length s)) (fun string =>
    found ← search_char ch string;
    match found with
    | None => Some (inr (inl false))
    | Some string =>
        let string := string + 1 in
        '(r, next_wildcard_reached) ← ph_match pattern string;
        if (r : bool) then Some (inr (inl true))
        else if (next_wildcard_reached : bool) then Some (inr (inl false))
        else
          c ← rd s string;
          Some (if negb (c =? 0) then inl string else inr (inr string))
    end) string.

(** A round of the outer loop: [ch] is the current character, [pattern] the rest;
    [w] says that the flag of the caller has been set. *)
Definition ph_round (ph_match : Z -> Z -> option (bool * bool)) :
    Z * Z * Z * bool -> option (Z * Z * Z * bool + bool * bool) := fun '(ch, pattern, string, w) =>
  if ch =? 0 then c ← rd s string; Some (inr (c =? 0, w))
  else if ch =? JOKER then
    c ← rd s string;
    if c =? 0 then Some (inr (false, w))
    else string ← g_utf8_next_char s string; next_round pattern string w
  else if ch =? STAR then
    let w := true in
    skipped ← skip_wildcards pattern string;
    match skipped with
    | None => Some (inr (false, w))
    | Some (ch, pattern, string) =>
        if ch =? 0 then Some (inr (true, w))
        else
          r ← try_places ph_match ch pattern string;
          match r with
          | inl r => Some (inr (r, w))
          | inr string => next_round pattern string w
          end
    end
  else
    c ← rd s string;
    if ch =? c then next_round pattern (string + 1) w else Some (inr (false, w)).

(** The result, and whether *wildcard_reached_p was set; [fuel] bounds the
    depth of the recursion. *)
Fixpoint g_pattern_ph_match (fuel : nat) (match_pattern match_string : Z) : option (bool * bool) :=
  match fuel with
  | O => None
  | S fuel =>
      ch ← rd pat match_pattern;
      iter (S (length pat)) (ph_round (g_pattern_ph_match fuel)) (ch, match_pattern + 1, match_string, false)
  end.
End ph_match.

(** The C library's strcmp (a + p, b + q) == 0 and strncmp (a, b, n) == 0 *)
Definition strcmp_equal (a : list Z) (p : Z) (b : list Z) (q : Z) : option bool :=
  iter (S (length a)) (fun i =>
    x ← rd a (p + i); y ← rd b (q + i);
    Some (if negb (x =? y) then inr false else if x =? 0 then inr true else inl (i + 1))) 0.
Definition strncmp_equal (a b : list Z) (n : Z) : option bool :=
  iter (S (Z.to_nat n)) (fun i =>
    if i =? n then Some (inr true) else
    x ← rd a i; y ← rd b i;
    Some (if negb (x =? y) then inr false else if x =? 0 then inr true else inl (i + 1))) 0.

Section match_.
(** The contents of fresh memory *)
Context (mem : nat -> Z).

(** The pattern of [pspec] against [s]; the flag is not looked at. *)
Definition match_all (pspec : GPatternSpec) (s : list Z) : option bool :=
  '(r, _) ← g_pattern_ph_match (pattern pspec) s (S (length (pattern pspec))) 0 0; Some r.

(** Null pointers are [None]. *)
Definition g_pattern_match (pspec : option GPatternSpec) (string_length : Z) (string string_reversed : option (list Z)) :
    option bool :=
  match pspec, string with
  | Some pspec, Some string =>
      if (string_length <? min_length pspec) || (string_length >? max_length pspec) then Some false
      else
        match match_type pspec with
        | G_MATCH_ALL => match_all pspec string
        | G_MATCH_ALL_TAIL =>
            match string_reversed with
            | Some string_reversed => match_all pspec string_reversed
            | None => tmp ← g_utf8_strreverse mem string string_length; match_all pspec tmp
            end
        | G_MATCH_HEAD =>
            if pattern_length pspec =? string_length then strcmp_equal (pattern pspec) 0 string 0
            else if negb (pattern_length pspec =? 0)
            then strncmp_equal (pattern pspec) string (pattern_length pspec)
            else Some true
        | G_MATCH_TAIL =>
            if negb (pattern_length pspec =? 0)
            then strcmp_equal (pattern pspec) 0 string (u32 (string_length - pattern_length pspec))
            else Some true
        | G_MATCH_EXACT =>
            if negb (pattern_length pspec =? string_length) then Some false
            else strcmp_equal (pattern pspec) 0 string 0
        end
  | _, _ => Some false
  end.

(** * Compiling *)

(** The variables of g_pattern_spec_new: [cs_buf] is pspec->pattern, [cs_len],
    [cs_min] and [cs_max] the lengths of pspec, the rest are locals. *)
Record canon := mkCanon {
  cs_s : Z; cs_i : Z; cs_d : Z; cs_buf : list Z;
  cs_len : Z; cs_min : Z; cs_max : Z;
  follows_wildcard : bool; pending_jokers : Z;
  hw_pos : Z; tw_pos : Z; hj_pos : Z; tj_pos : Z;
}.

(** *d++ = c *)
Definition put_char (c : Z) (st : canon) : option canon :=
  buf ← array_set (cs_buf st) (cs_d st) c;
  Some (mkCanon (cs_s st) (cs_i st) (cs_d st + 1) buf (cs_len st) (cs_min st) (cs_max st)
    (follows_wildcard st) (pending_jokers st) (hw_pos st) (tw_pos st) (hj_pos st) (tj_pos st)).

(** The loops that write the pending jokers: the first one counts [i], the one
    at the end does not. *)
Definition flush_jokers (count : bool) (st : canon) : option canon :=
  iter (S (Z.to_nat (pending_jokers st))) (fun st =>
    if pending_jokers st =? 0 then Some (inr st)
    else
      st ← put_char JOKER st;
      let i := s32 (cs_i st) in
      Some (inl (mkCanon (cs_s st) (if count then u32 (cs_i st + 1) else cs_i st) (cs_d st) (cs_buf st)
        (cs_len st) (cs_min st) (cs_max st) (follows_wildcard st) (u32 (pending_jokers st - 1))
        (hw_pos st) (tw_pos st) (if hj_pos st <? 0 then i else hj_pos st) i))) st.

(** *d++ = *s; i++; and s++ of the loop *)
Definition copy_and_advance (c : Z) (st : canon) : option (canon + canon) :=
  st ← put_char c st;
  Some (inl (mkCanon (cs_s st + 1) (u32 (cs_i st + 1)) (cs_d st) (cs_buf st) (cs_len st) (cs_min st) (cs_max st)
    (follows_wildcard st) (pending_jokers st) (hw_pos st) (tw_pos st) (hj_pos st) (tj_pos st))).

(** A round of the loop over the pattern *)
Definition canon_round (pat : list Z) (st : canon) : option (canon + canon) :=
  c ← rd pat (cs_s st);
  if c =? 0 then Some (inr st)
  else if c =? STAR then
    if follows_wildcard st then
      Some (inl (mkCanon (cs_s st + 1) (cs_i st) (cs_d st) (cs_buf st) (u32 (cs_len st - 1)) (cs_min st) (cs_max st)
        true (pending_jokers st) (hw_pos st) (tw_pos st) (hj_pos st) (tj_pos st)))
    else
      let i := s32 (cs_i st) in
      copy_and_advance c (mkCanon (cs_s st) (cs_i st) (cs_d st) (cs_buf st) (cs_len st) (cs_min st) (cs_max st)
        true (pending_jokers st) (if hw_pos st <? 0 then i else hw_pos st) i (hj_pos st) (tj_pos st))
  else if c =? JOKER then
    Some (inl (mkCanon (cs_s st + 1) (cs_i st) (cs_d st) (cs_buf st) (cs_len st) (u32 (cs_min st + 1))
      (u32 (cs_max st + 4)) (follows_wildcard st) (u32 (pending_jokers st + 1))
      (hw_pos st) (tw_pos st) (hj_pos st) (tj_pos st)))
  else
    st ← flush_jokers true st;
    copy_and_advance c (mkCanon (cs_s st) (cs_i st) (cs_d st) (cs_buf st) (cs_len st) (u32 (cs_min st + 1))
      (u32 (cs_max st + 1)) false (pending_jokers st) (hw_pos st) (tw_pos st) (hj_pos st) (tj_pos st)).

(** The part of g_pattern_spec_new that writes the canonical pattern *)
Definition canonicalize (pat : list Z) : option canon :=
  n ← strlen pat 0;
  let n := u32 n in
  let buf := mem <$> seq 0 (Z.to_nat (u32 (n + 1))) in
  st ← iter (S (length pat)) (canon_round pat) (mkCanon 0 0 0 buf n 0 0 false 0 (-1) (-1) (-1) (-1));
  st ← flush_jokers false st;
  put_char 0 st.

(** memmove (buf, buf + 1, n) *)
Definition move_down (buf : list Z) (n : Z) : option (list Z) :=
  l ← slice buf 1 n; Some (l ++ drop (Z.to_nat n) buf).

(** The last part: matching from the tail or from the head *)
Definition choose_direction (st : canon) (seen_wildcard : bool) (max_length : Z) : option GPatternSpec :=
  let len := cs_len st in
  let tw := s32 (u32 (len - 1 - tw_pos st)) in
  let tj := s32 (u32 (len - 1 - tj_pos st)) in
  let tail := if seen_wildcard then tw >? hw_pos st else tj >? hj_pos st in
  if tail then
    p ← g_utf8_strreverse mem (cs_buf st) len;
    Some (mkPatternSpec G_MATCH_ALL_TAIL len (cs_min st) max_length p)
  else Some (mkPatternSpec G_MATCH_ALL len (cs_min st) max_length (cs_buf st)).

(** The part of g_pattern_spec_new behind the loops *)
Definition finish_spec (st : canon) : option (option GPatternSpec) :=
  let seen_joker := hj_pos st >=? 0 in
  let seen_wildcard := hw_pos st >=? 0 in
  let more_wildcards := seen_wildcard && negb (hw_pos st =? tw_pos st) in
  let max_length := if seen_wildcard then u32 (-1) else cs_max st in
  let len := cs_len st in
  let general := spec ← choose_direction st seen_wildcard max_length; Some (Some spec) in
  if negb seen_joker && negb more_wildcards then
    first ← rd (cs_buf st) 0;
    if first =? STAR then
      let len := u32 (len - 1) in
      buf ← move_down (cs_buf st) len;
      buf ← array_set buf len 0;
      Some (Some (mkPatternSpec G_MATCH_TAIL len (cs_min st) max_length buf))
    else
      last ← (if len >? 0 then rd (cs_buf st) (len - 1) else Some 0);
      if last =? STAR then
        let len := u32 (len - 1) in
        buf ← array_set (cs_buf st) len 0;
        Some (Some (mkPatternSpec G_MATCH_HEAD len (cs_min st) max_length buf))
      else if negb seen_wildcard then
        Some (Some (mkPatternSpec G_MATCH_EXACT len (cs_min st) max_length (cs_buf st)))
      else general
  else general.

Definition g_pattern_spec_new (pat : option (list Z)) : option (option GPatternSpec) :=
  match pat with
  | None => Some None
  | Some pat => st ← canonicalize pat; finish_spec st
  end.

Definition g_pattern_spec_equal (pspec1 pspec2 : option GPatternSpec) : option bool :=
  match pspec1, pspec2 with
  | Some p1, Some p2 =>
      if (pattern_length p1 =? pattern_length p2) && bool_decide (match_type p1 = match_type p2)
      then strcmp_equal (pattern p1) 0 (pattern p2) 0
      else Some false
  | _, _ => Some false
  end.

Definition g_pattern_match_string (pspec : option GPatternSpec) (string : option (list Z)) : option bool :=
  match pspec, string with
  | Some _, Some str => n ← strlen str 0; g_pattern_match pspec (u32 n) string None
  | _, _ => Some false
  end.

Definition g_pattern_match_simple (pat string : option (list Z)) : option bool :=
  match pat, string with
  | Some _, Some str =>
      pspec ← g_pattern_spec_new pat;
      n ← strlen str 0;
      g_pattern_match pspec (u32 n) string None
  | _, _ => Some false
  end.
End match_.

(** * The reference

    A pattern and a string of characters: a star stands for any string, a joker
    for any character. *)
Fixpoint glob (p : list Z) (s : list Z) : bool :=
  match p with
  | [] => bool_decide (s = [])
  | a :: p =>
      if a =? STAR then
        (fix star (s : list Z) : bool := glob p s || match s with [] => false | _ :: s => star s end) s
      else
        match s with
        | [] => false
        | c :: s => ((a =? JOKER) || (a =? c)) && glob p s
        end
  end.

(** a*b?é against "a-bcé" *)
Example pattern_runs :
  g_pattern_match_simple (fun _ => 7) (Some [97; 42; 98; 63; 0xc3; 0xa9; 0]) (Some [97; 45; 98; 99; 0xc3; 0xa9; 0]) = Some true /\
  g_pattern_match_simple (fun _ => 7) (Some [42; 98; 63; 0]) (Some [97; 45; 98; 0xc3; 0xa9; 0]) = Some true /\
  g_pattern_match_simple (fun _ => 7) (Some [97; 42; 42; 0]) (Some [98; 98; 0]) = Some false.
Proof. by vm_compute. Qed.
