(* ===== verification/PatternMatch.v ===== *)
(** The matching function of glob patterns computes the reference: the laws of
    [glob], the first bytes of characters, and the loops of g_pattern_ph_match.

    The recursion may start inside a character, after its first byte has been
    compared; so the statements are about places [l ++ encodes cs], where [l] is a
    rest of continuation bytes. *)
From S2P Require Import Prelude Utf8 Utf8Char Utf8Valid Utf8Convert Pattern.

Open Scope c_scope.

(** * The laws of the reference *)

Lemma glob_star p s : glob (STAR :: p) s = true <-> exists u v, s = u ++ v /\ glob p v = true.
Proof.
  cbn [glob]. change (STAR =? STAR) with true. cbv iota. induction s as [|c s IH].
  - rewrite orb_false_r. split; [by exists [], []|]. intros (u & v & E & H). by destruct u, v.
  - rewrite orb_true_iff, IH. split.
    + intros [H|(u & v & -> & H)]; [by exists [], (c :: s)|by exists (c :: u), v].
    + intros (u & v & E & H). destruct u as [|c' u]; [left; cbn in E; by subst|]. injection E as -> ->. right. by exists u, v.
Qed.

Lemma glob_cons a p s :
  a <> STAR ->
  glob (a :: p) s = match s with [] => false | c :: s => ((a =? JOKER) || (a =? c)) && glob p s end.
Proof. intros Ha. cbn [glob]. destruct (Z.eqb_spec a STAR); done. Qed.

Lemma glob_star_false p s : glob (STAR :: p) s = false <-> forall u v, s = u ++ v -> glob p v = false.
Proof.
  rewrite <- not_true_iff_false, glob_star. split.
  - intros H u v ->. apply not_true_iff_false. intros Hv. apply H. by exists u, v.
  - intros H (u & v & -> & Hv). specialize (H u v eq_refl). congruence.
Qed.

Lemma glob_star_app p u s : glob (STAR :: p) s = true -> glob (STAR :: p) (u ++ s) = true.
Proof. rewrite !glob_star. intros (v & w & -> & H). exists (u ++ v), w. by rewrite app_assoc. Qed.

Lemma glob_star_all s : glob [STAR] s = true.
Proof. apply glob_star. exists s, []. by rewrite app_nil_r. Qed.

Lemma bool_iff (b c : bool) : (b = true <-> c = true) -> b = c.
Proof. destruct b, c; tauto || (intros [H1 H2]; by specialize (H1 eq_refl) || by specialize (H2 eq_refl)). Qed.

Lemma glob_star_star p s : glob (STAR :: STAR :: p) s = glob (STAR :: p) s.
Proof.
  apply bool_iff. rewrite glob_star. split.
  - intros (u & v & -> & H). by apply glob_star_app.
  - intros H. by exists [], s.
Qed.

Lemma glob_star_joker_nil p : glob (STAR :: JOKER :: p) [] = false.
Proof. apply glob_star_false. intros u v E. by destruct u, v. Qed.

Lemma glob_star_joker p c s : glob (STAR :: JOKER :: p) (c :: s) = glob (STAR :: p) s.
Proof.
  apply bool_iff. rewrite !glob_star. split.
  - intros (u & v & E & H). rewrite glob_cons in H by done. destruct v as [|x v]; [done|]. cbn in H.
    destruct u as [|c' u]; injection E as -> ->; [by exists [], v|]. exists (u ++ [x]), v. by rewrite <- app_assoc.
  - intros (u & v & -> & H). destruct u as [|x u _] using rev_ind.
    + exists [], (c :: v). split; [done|]. by rewrite glob_cons.
    + exists (c :: u), (x :: v). rewrite <- app_assoc. split; [done|]. by rewrite glob_cons.
Qed.

(** [A], without stars, takes exactly the characters [X]. *)
Definition eats (A X : list Z) : Prop := Forall2 (fun a c => a <> STAR /\ (a = JOKER \/ a = c)) A X.

Lemma glob_eats A B X Y : eats A X -> glob (A ++ B) (X ++ Y) = glob B Y.
Proof.
  induction 1 as [|a c A X [Ha Hc] _ IH]; [done|]. cbn [app]. rewrite glob_cons by done.
  replace ((a =? JOKER) || (a =? c)) with true; [done|]. symmetry. rewrite orb_true_iff, !Z.eqb_eq. done.
Qed.

Lemma glob_split A B S :
  Forall (fun a => a <> STAR) A -> glob (A ++ B) S = true ->
  exists X Y, S = X ++ Y /\ eats A X /\ glob B Y = true.
Proof.
  intros HA. revert S. induction HA as [|a A Ha _ IH]; intros S H.
  { exists [], S. split; [done|]. split; [constructor|done]. }
  cbn [app] in H. rewrite glob_cons in H by done. destruct S as [|c S]; [done|].
  apply andb_true_iff in H as [Hc H]. destruct (IH S H) as (X & Y & -> & HX & HY).
  exists (c :: X), Y. split; [done|]. split; [|done]. constructor; [|done]. split; [done|].
  rewrite orb_true_iff, !Z.eqb_eq in Hc. done.
Qed.

(** The part of [P] before its next star fits a prefix of [S]: what the flag
    wildcard_reached says. *)
Definition reaches (P S : list Z) : Prop :=
  exists A B X Y, P = A ++ STAR :: B /\ S = X ++ Y /\ eats A X.

(** Then there is no need to look for later places. *)
Lemma no_later P S a v u :
  reaches P S -> glob P S = false -> S = u ++ v -> a <> STAR -> glob (STAR :: a :: P) v = false.
Proof.
  intros (A & B & X & Y & -> & -> & HX) Hf E Ha. rewrite glob_eats in Hf by done.
  apply glob_star_false. intros u1 v1 ->. rewrite glob_cons by done. destruct v1 as [|c v1]; [done|].
  apply andb_false_iff. right. apply not_true_iff_false. intros H.
  destruct (glob_split A (STAR :: B) v1) as (X1 & Y1 & -> & HX1 & HY1); [|done|].
  { clear - HX. induction HX as [|a c A X [Ha _] _ IH]; by constructor. }
  assert (Hl : length X1 = length X) by (by rewrite <- (Forall2_length _ _ _ HX), (Forall2_length _ _ _ HX1)).
  assert (HY : exists w, Y = w ++ Y1).
  { exists (drop (length X) (u ++ u1 ++ c :: X1)).
    assert (E' : X ++ Y = (u ++ u1 ++ c :: X1) ++ Y1) by (rewrite E, <- !app_assoc; done).
    apply (f_equal (drop (length X))) in E'. rewrite drop_app_length, drop_app_le in E'; [done|].
    rewrite !length_app. cbn. lia. }
  destruct HY as [w ->]. by rewrite (glob_star_app _ w _ HY1) in Hf.
Qed.

Lemma reaches_eat a c P S : a <> STAR -> a = JOKER \/ a = c -> reaches P S -> reaches (a :: P) (c :: S).
Proof.
  intros Ha Hc (A & B & X & Y & -> & -> & HX). exists (a :: A), B, (c :: X), Y.
  split; [done|]. split; [done|]. by constructor.
Qed.

Lemma reaches_star P S : reaches (STAR :: P) S.
Proof. exists [], P, [], S. repeat split. constructor. Qed.

(** * First bytes *)

Lemma encode_first a :
  text_char a -> exists l ks, encode a = l :: ks /\ in_u 8 l /\ l <> 0 /\ ~ cont l /\ Forall cont ks /\
    S (length ks) = lead_len l /\ (l < 0x80 -> a = l /\ ks = []) /\ (a < 0x80 -> l = a).
Proof.
  intros Ha. pose proof (text_char_range a Ha) as Hr. pose proof (text_char_pos a Ha) as Hp.
  destruct (lead_len_encode a Hr) as [Hl Hn]. pose proof (encode_nonzero a Hp) as Hnz.
  pose proof (encode_length a Hr) as Hlen. pose proof (width_bounds a) as Hw.
  rewrite encode_shape in Hnz, Hlen by done. apply Forall_cons in Hnz as [Hnz _].
  assert (Hcont : forall b, cont b -> lead_len b = 0%nat) by (intros b [? ?]; unfold lead_len; repeat case_match; lia).
  eexists _, _. split; [by apply encode_shape|]. split; [done|]. split; [done|].
  split; [|split; [apply tails_cont|split; [rewrite tails_length, Hn; lia|]]].
  - intros [H1 H2]. rewrite Hcont in Hn by (split; done). lia.
  - assert (Hsmall : a < 0x80 <-> width a = 1%nat).
    { unfold width, unichar_head. repeat case_match; cbn; lia. }
    split.
    + intros Hlt. assert (Hw1 : width a = 1%nat).
      { rewrite <- Hn. unfold lead_len. apply Z.ltb_lt in Hlt. by rewrite Hlt. }
      rewrite Hw1. cbn. rewrite Z.div_1_r. done.
    + intros Hlt. apply Hsmall in Hlt. rewrite Hlt. cbn. by rewrite Z.div_1_r.
Qed.

Lemma next_char_cont s p k t : place s p (k :: t) -> cont k -> g_utf8_next_char s p = Some (p + 1).
Proof.
  intros Hp Hk. unfold g_utf8_next_char. rewrite (place_rd0 _ _ _ Hp). cbn.
  rewrite skip_lead by (unfold in_u, cont in *; lia).
  assert (lead_len k = 0%nat) as -> by (unfold lead_len, cont in *; repeat case_match; lia). done.
Qed.

Lemma cont_nonzero k : cont k -> k <> 0.
Proof. unfold cont. lia. Qed.

Lemma encodes_cons a cs : encodes (a :: cs) = encode a ++ encodes cs.
Proof. done. Qed.

(** * The loops *)

Section loops.
Context (pat s : list Z).

(** The rest of the buffer from [q]: a rest of a character, characters, and the
    terminator. *)
Definition text_at (buf : list Z) (q : Z) (k S : list Z) : Prop :=
  Forall cont k /\ Forall text_char S /\ exists T, place buf q (k ++ encodes S ++ 0 :: T).

Lemma text_at_rd buf q k S : text_at buf q k S -> exists c, rd buf q = Some c /\
  match k, S with
  | b :: _, _ => c = b
  | [], a :: _ => head (encode a) = Some c
  | [], [] => c = 0
  end.
Proof.
  intros (Hk & HS & T & Hp). rewrite (place_rd0 _ _ _ Hp). destruct k as [|b k]; [|by exists b].
  destruct S as [|a S]; [by exists 0|]. destruct (encode_cons a) as (l & ks & E). exists l.
  rewrite encodes_cons, E. done.
Qed.

Lemma text_at_tail buf q b k S : text_at buf q (b :: k) S -> text_at buf (q + 1) k S.
Proof. intros (Hk & HS & T & Hp). apply Forall_cons in Hk as [_ Hk]. split; [done|]. split; [done|]. exists T. by apply place_tail in Hp. Qed.

Lemma text_at_first buf q a S l ks :
  text_at buf q [] (a :: S) -> encode a = l :: ks -> text_at buf (q + 1) ks S.
Proof.
  intros (_ & HS & T & Hp) E. apply Forall_cons in HS as [Ha HS].
  destruct (encode_first a Ha) as (l' & ks' & E' & _ & _ & _ & Hks & _). rewrite E in E'. injection E' as <- <-.
  split; [done|]. split; [done|]. exists T. rewrite encodes_cons, E in Hp. cbn in Hp. rewrite <- app_assoc in Hp.
  by apply place_tail in Hp.
Qed.

Lemma text_at_next q a S : text_at s q [] (a :: S) -> exists q', g_utf8_next_char s q = Some q' /\ text_at s q' [] S.
Proof.
  intros (_ & HS & T & Hp). apply Forall_cons in HS as [Ha HS]. rewrite encodes_cons, <- app_assoc in Hp. cbn [app] in Hp.
  exists (q + Z.of_nat (length (encode a))).
  split; [eapply next_char_spec; [exact Hp|by apply text_char_range]|].
  split; [done|]. split; [done|]. exists T. by apply place_step in Hp.
Qed.

Lemma text_at_cont q b k S : text_at s q (b :: k) S -> g_utf8_next_char s q = Some (q + 1).
Proof. intros (Hk & _ & T & Hp). apply Forall_cons in Hk as [Hb _]. cbn in Hp. by apply next_char_cont in Hp. Qed.

(** A text is not longer than its buffer. *)
Lemma text_at_length buf q k S : text_at buf q k S -> (length k + length S < length buf)%nat.
Proof.
  intros (_ & HS & T & Hp). pose proof (place_length _ _ _ Hp) as Hl. destruct Hp as [Hq _].
  rewrite !length_app in Hl. cbn in Hl.
  assert (length S <= length (encodes S))%nat.
  { clear. induction S as [|a S IH]; [done|]. rewrite encodes_cons, length_app. pose proof (encode_length_pos a). cbn. lia. }
  lia.
Qed.

(** The first byte of a character that is searched for. *)
Definition first_byte (c : Z) : Prop := c <> 0 /\ ~ cont c.

Lemma search_char_loop ch f q k S :
  first_byte ch -> text_at s q k S -> (length k + length S < f)%nat ->
  (iter f (fun string =>
     c ← rd s string;
     if negb (ch =? c) then
       if c =? 0 then Some (inr None) else string ← g_utf8_next_char s string; Some (inl string)
     else Some (inr (Some string))) q = Some None /\ Forall (fun a => head (encode a) <> Some ch) S) \/
  exists X a Y q', S = X ++ a :: Y /\ Forall (fun a => head (encode a) <> Some ch) X /\
    head (encode a) = Some ch /\ text_at s q' [] (a :: Y) /\
    iter f (fun string =>
     c ← rd s string;
     if negb (ch =? c) then
       if c =? 0 then Some (inr None) else string ← g_utf8_next_char s string; Some (inl string)
     else Some (inr (Some string))) q = Some (Some q').
Proof.
  intros [Hch Hcc]. revert q k S. induction f as [|f IH]; intros q k S Ht Hf; [lia|].
  destruct (text_at_rd _ _ _ _ Ht) as (c & Hrd & Hc). cbn [iter]. rewrite Hrd. cbn [mbind option_bind].
  destruct k as [|b k].
  - destruct S as [|a S].
    + subst c. destruct (Z.eqb_spec ch 0); [done|]. left. by split.
    + destruct (Z.eqb_spec ch c) as [<-|Hne]; cbn [negb].
      { right. exists [], a, S, q. split_and!; done. }
      pose proof Ht as (_ & HS & _). apply Forall_cons in HS as [Ha _].
      destruct (encode_first a Ha) as (l & ks & El & _ & Hl & _). rewrite El in Hc. injection Hc as ->.
      destruct (Z.eqb_spec c 0); [done|]. destruct (text_at_next q a S Ht) as (q1 & -> & Ht1). cbn [mbind option_bind].
      assert (Hna : head (encode a) <> Some ch) by (rewrite El; cbn; congruence).
      destruct (IH q1 [] S Ht1) as [[Hit HS]|(X & a' & Y & q' & -> & HX & Ha' & Hq' & Hit)]; [cbn in *; lia|left|right].
      * split; [exact Hit|]. by constructor.
      * exists (a :: X), a', Y, q'. split_and!; try done. by constructor.
  - subst c. pose proof Ht as (Hk & _). apply Forall_cons in Hk as [Hb _].
    destruct (Z.eqb_spec ch b) as [<-|_]; [done|]. cbn [negb].
    destruct (Z.eqb_spec b 0); [by apply cont_nonzero in Hb|]. rewrite (text_at_cont q b k S Ht). cbn [mbind option_bind].
    apply (IH (q + 1) k S); [by eapply text_at_tail|cbn in *; lia].
Qed.

Lemma search_char_spec ch q k S :
  first_byte ch -> text_at s q k S ->
  (search_char s ch q = Some None /\ Forall (fun a => head (encode a) <> Some ch) S) \/
  exists X a Y q', S = X ++ a :: Y /\ Forall (fun a => head (encode a) <> Some ch) X /\
    head (encode a) = Some ch /\ text_at s q' [] (a :: Y) /\ search_char s ch q = Some (Some q').
Proof. intros Hch Ht. apply (search_char_loop ch _ q k S); [done..|]. pose proof (text_at_length _ _ _ _ Ht). lia. Qed.

(** Behind a star, stars are skipped and jokers take a character each. *)
Lemma skip_wildcards_loop f p q P S :
  text_at pat p [] P -> text_at s q [] S -> (length P < f)%nat ->
  let result := iter f (fun '(pattern, string) =>
    ch ← rd pat pattern;
    let pattern := pattern + 1 in
    if ch =? JOKER then
      c ← rd s string;
      if c =? 0 then Some (inr None)
      else string ← g_utf8_next_char s string; Some (inl (pattern, string))
    else if ch =? STAR then Some (inl (pattern, string))
    else Some (inr (Some (ch, pattern, string)))) (p, q) in
  (result = Some None /\ glob (STAR :: P) S = false) \/
  exists W P' U S' p' q' ch, P = W ++ P' /\ S = U ++ S' /\
    match P' with a :: _ => a <> STAR /\ a <> JOKER | [] => True end /\
    glob (STAR :: P) S = glob (STAR :: P') S' /\
    text_at pat p' [] P' /\ rd pat p' = Some ch /\ text_at s q' [] S' /\ result = Some (Some (ch, p' + 1, q')).
Proof.
  cbv zeta. revert p q P S. induction f as [|f IH]; intros p q P S Hp Hs Hf; [lia|].
  destruct (text_at_rd _ _ _ _ Hp) as (ch & Hrd & Hch). cbn [iter]. rewrite Hrd. cbn [mbind option_bind].
  destruct P as [|a P].
  { subst ch. right. exists [], [], [], S, p, q, 0. split_and!; done. }
  pose proof Hp as (_ & HP & _). apply Forall_cons in HP as [Ha _].
  destruct (encode_first a Ha) as (l & ks & El & Hl8 & Hl0 & Hlc & Hks & _ & Hsmall & Hsmall').
  rewrite El in Hch. injection Hch as ->. pose proof (text_at_first _ _ _ _ _ _ Hp El) as Hp1.
  destruct (Z.eqb_spec ch JOKER) as [->|Hj].
  { destruct Hsmall as [-> ->]; [done|]. destruct (text_at_rd _ _ _ _ Hs) as (c & Hrs & Hc). rewrite Hrs. cbn [mbind option_bind].
    destruct S as [|x S].
    - subst c. left. split; [done|]. apply glob_star_joker_nil.
    - pose proof Hs as (_ & HS & _). apply Forall_cons in HS as [Hx _].
      destruct (encode_first x Hx) as (lx & kx & Ex & _ & Hx0 & _). rewrite Ex in Hc. injection Hc as ->.
      destruct (Z.eqb_spec c 0); [done|]. destruct (text_at_next q x S Hs) as (q1 & -> & Hs1). cbn [mbind option_bind].
      rewrite glob_star_joker.
      destruct (IH (p + 1) q1 P S Hp1 Hs1) as [H|(W & P' & U & S' & p' & q' & c' & -> & -> & H)]; [cbn in *; lia|by left|].
      right. by exists (JOKER :: W), P', (x :: U), S', p', q', c'. }
  destruct (Z.eqb_spec ch STAR) as [->|Hst].
  { destruct Hsmall as [-> ->]; [done|]. rewrite glob_star_star.
    destruct (IH (p + 1) q P S Hp1 Hs) as [H|(W & P' & U & S' & p' & q' & c' & -> & -> & H)]; [cbn in *; lia|by left|].
    right. by exists (STAR :: W), P', U, S', p', q', c'. }
  right. exists [], (a :: P), [], S, p, q, ch. split_and!; try done.
  - intros ->. by apply Hst, Hsmall'.
  - intros ->. by apply Hj, Hsmall'.
Qed.

Lemma skip_wildcards_spec p q P S :
  text_at pat p [] P -> text_at s q [] S ->
  (skip_wildcards pat s p q = Some None /\ glob (STAR :: P) S = false) \/
  exists W P' U S' p' q' ch, P = W ++ P' /\ S = U ++ S' /\
    match P' with a :: _ => a <> STAR /\ a <> JOKER | [] => True end /\
    glob (STAR :: P) S = glob (STAR :: P') S' /\
    text_at pat p' [] P' /\ rd pat p' = Some ch /\ text_at s q' [] S' /\
    skip_wildcards pat s p q = Some (Some (ch, p' + 1, q')).
Proof.
  intros Hp Hs. apply skip_wildcards_loop; [done..|]. pose proof (text_at_length _ _ _ _ Hp). cbn in *. lia.
Qed.

(** The places of a character. *)
Lemma glob_star_try a P b S :
  a <> STAR -> a <> JOKER ->
  glob (STAR :: a :: P) (b :: S) = ((a =? b) && glob P S) || glob (STAR :: a :: P) S.
Proof.
  intros Ha Hj. apply bool_iff. rewrite orb_true_iff, !glob_star. split.
  - intros (u & v & E & H). destruct u as [|c u]; cbn [app] in E.
    + subst v. left. rewrite glob_cons in H by done. by destruct (Z.eqb_spec a JOKER).
    + injection E as -> ->. right. by exists u, v.
  - intros [H|(u & v & -> & H)]; [|by exists (b :: u), v].
    exists [], (b :: S). split; [done|]. rewrite glob_cons by done. by destruct (Z.eqb_spec a JOKER).
Qed.

Lemma glob_star_nil a P : a <> STAR -> glob (STAR :: a :: P) [] = false.
Proof. intros Ha. apply glob_star_false. intros u v E. destruct u, v; try done. by rewrite glob_cons. Qed.

Lemma glob_star_skip a P X S :
  a <> STAR -> a <> JOKER -> Forall (fun x => x <> a) X -> glob (STAR :: a :: P) (X ++ S) = glob (STAR :: a :: P) S.
Proof.
  intros Ha Hj. induction 1 as [|x X Hx _ IH]; [done|]. cbn [app]. rewrite glob_star_try by done.
  destruct (Z.eqb_spec a x); [congruence|]. done.
Qed.

(** Characters with the same first byte are equal if their other bytes are. *)
Lemma encode_inj a b l : text_char a -> text_char b -> encode a = l -> encode b = l -> a = b.
Proof.
  intros Ha Hb Ea Eb. apply (encode_prefix_inj a b l);
    [by apply text_char_range|by apply text_char_range|by rewrite Ea|by rewrite Eb].
Qed.

Lemma same_rest a b l ks kb :
  text_char a -> text_char b -> encode a = l :: ks -> encode b = l :: kb -> bool_decide (ks = kb) = (a =? b).
Proof.
  intros Ha Hb Ea Eb. destruct (Z.eqb_spec a b) as [<-|Hne].
  - rewrite Ea in Eb. injection Eb as <-. by apply bool_decide_true.
  - apply bool_decide_false. intros <-. by apply Hne, (encode_inj a b (l :: ks)).
Qed.

(** What the recursive call promises from the pattern at [p], [ks ++ encodes P]:
    the match, and what its flag says. *)
Definition matches_at (ph_match : Z -> Z -> option (bool * bool)) (p : Z) (ks P : list Z) : Prop :=
  forall q ks' S, text_at s q ks' S -> length ks' = length ks ->
  exists w, ph_match p q = Some (bool_decide (ks = ks') && glob P S, w) /\ (w = true -> ks = ks' /\ reaches P S).

Lemma heads_differ a l ks X :
  encode a = l :: ks -> Forall (fun x => head (encode x) <> Some l) X -> Forall (fun x => x <> a) X.
Proof. intros E H. eapply Forall_impl; [exact H|]. cbv beta. intros x Hx ->. apply Hx. by rewrite E. Qed.

Lemma try_places_loop ph_match f ch p q k a ks P S :
  text_char a -> encode a = ch :: ks -> a <> STAR -> a <> JOKER -> matches_at ph_match p ks P ->
  text_at s q k S -> (length S < f)%nat ->
  let result := iter f (fun string =>
    found ← search_char s ch string;
    match found with
    | None => Some (inr (inl false))
    | Some string =>
        let string := string + 1 in
        '(r, next_wildcard_reached) ← ph_match p string;
        if (r : bool) then Some (inr (inl true))
        else if (next_wildcard_reached : bool) then Some (inr (inl false))
        else
          c ← rd s string;
          Some (if negb (c =? 0) then inl string else inr (inr string))
    end) q in
  result = Some (inl (glob (STAR :: a :: P) S)) \/
  exists q', result = Some (inr q') /\ glob (STAR :: a :: P) S = false /\ glob P [] = false /\
    text_at s q' [] [] /\ ks = [].
Proof.
  intros Ha Ea Hst Hj Hm. cbv zeta.
  destruct (encode_first a Ha) as (l & ks1 & E1 & _ & Hl0 & Hlc & _ & Hlen & _). rewrite Ea in E1. injection E1 as <- <-.
  revert q k S. induction f as [|f IH]; intros q k S Ht Hf; [lia|]. cbn [iter].
  destruct (search_char_spec ch q k S) as [[-> HS]|(X & b & Y & q' & -> & HX & Hb & Hq' & ->)]; [done..| |];
    cbn [mbind option_bind].
  { left. do 2 f_equal. symmetry. rewrite <- (app_nil_r S).
    rewrite glob_star_skip; [by apply glob_star_nil|done..|by eapply heads_differ]. }
  rewrite glob_star_skip by (done || by eapply heads_differ). rewrite glob_star_try by done.
  pose proof Hq' as (_ & HbY & _). apply Forall_cons in HbY as [Hbc HY].
  destruct (encode_first b Hbc) as (lb & kb & Eb & _ & _ & _ & _ & Hlenb & _). rewrite Eb in Hb. injection Hb as ->.
  pose proof (text_at_first _ _ _ _ _ _ Hq' Eb) as Hq1.
  destruct (Hm (q' + 1) kb Y Hq1) as (w & -> & Hw); [lia|]. cbn [mbind option_bind].
  pose proof (same_rest a b ch ks kb Ha Hbc Ea Eb) as Hab. rewrite Hab. destruct ((a =? b) && glob P Y) eqn:Eg; [by left|]. cbn [orb].
  destruct w.
  { left. cbn [mbind option_bind]. do 2 f_equal. symmetry. destruct (Hw eq_refl) as [-> Hr]. rewrite bool_decide_true in Hab by done.
    rewrite <- Hab in Eg. cbn in Eg. by eapply (no_later P Y a Y []). }
  destruct (text_at_rd _ _ _ _ Hq1) as (c & -> & Hc). cbn [mbind option_bind].
  destruct (Z.eqb_spec c 0) as [->|Hc0]; cbn [negb].
  - right. exists (q' + 1). split; [done|].
    assert (HkY : kb = [] /\ Y = []).
    { destruct kb as [|x kb].
      - destruct Y as [|y Y]; [done|]. apply Forall_cons in HY as [Hy _].
        destruct (encode_first y Hy) as (ly & ky & Ey & _ & Hy0 & _). rewrite Ey in Hc. cbn in Hc. congruence.
      - pose proof Hq1 as (Hk & _). apply Forall_cons in Hk as [Hx _]. subst x. by apply cont_nonzero in Hx. }
    destruct HkY as [-> ->]. split; [by apply glob_star_nil|].
    assert (ks = []) as -> by (destruct ks; [done|]; cbn in *; lia).
    rewrite (encode_inj a b [ch]), Z.eqb_refl in Eg by done. done.
  - apply (IH (q' + 1) kb Y Hq1). rewrite length_app in Hf. cbn in Hf. lia.
Qed.

Lemma try_places_spec ph_match ch p q k a ks P S :
  text_char a -> encode a = ch :: ks -> a <> STAR -> a <> JOKER -> matches_at ph_match p ks P ->
  text_at s q k S ->
  try_places s ph_match ch p q = Some (inl (glob (STAR :: a :: P) S)) \/
  exists q', try_places s ph_match ch p q = Some (inr q') /\ glob (STAR :: a :: P) S = false /\ glob P [] = false /\
    text_at s q' [] [] /\ ks = [].
Proof.
  intros Ha Ea Hst Hj Hm Ht. eapply try_places_loop; [done..|]. pose proof (text_at_length _ _ _ _ Ht). lia.
Qed.

(** ** The outer loop, from the character at [p] *)

Definition rounds (ph_match : Z -> Z -> option (bool * bool)) (f : nat) (p q : Z) (w : bool) : option (bool * bool) :=
  ch ← rd pat p; iter f (ph_round pat s ph_match) (ch, p + 1, q, w).

(** The rest of the loop after a round with result [r]. *)
Definition after ph_match (f : nat) (r : option (Z * Z * Z * bool + bool * bool)) : option (bool * bool) :=
  r ← r; match r with inl a => iter f (ph_round pat s ph_match) a | inr b => Some b end.

Lemma rounds_next ph_match f p q w :
  rounds ph_match (S f) p q w = (ch ← rd pat p; after ph_match f (ph_round pat s ph_match (ch, p + 1, q, w))).
Proof. done. Qed.

Lemma after_next ph_match f p q w : after ph_match f (next_round pat p q w) = rounds ph_match f p q w.
Proof. unfold after, next_round, rounds. by destruct (rd pat p). Qed.

Lemma after_return ph_match f b : after ph_match f (Some (inr b)) = Some b.
Proof. done. Qed.

(** The cases of a round. *)
Lemma round_joker ph_match p q w :
  ph_round pat s ph_match (JOKER, p, q, w) =
  (c ← rd s q; if c =? 0 then Some (inr (false, w)) else q ← g_utf8_next_char s q; next_round pat p q w).
Proof. done. Qed.

Lemma round_star ph_match p q w :
  ph_round pat s ph_match (STAR, p, q, w) =
  (skipped ← skip_wildcards pat s p q;
   match skipped with
   | None => Some (inr (false, true))
   | Some (ch, p, q) =>
       if ch =? 0 then Some (inr (true, true))
       else r ← try_places s ph_match ch p q;
            match r with inl r => Some (inr (r, true)) | inr q => next_round pat p q true end
   end).
Proof. done. Qed.

Lemma round_other ph_match ch p q w :
  ch <> 0 -> ch <> JOKER -> ch <> STAR ->
  ph_round pat s ph_match (ch, p, q, w) =
  (c ← rd s q; if ch =? c then next_round pat p (q + 1) w else Some (inr (false, w))).
Proof.
  intros H1 H2 H3. unfold ph_round. destruct (Z.eqb_spec ch 0), (Z.eqb_spec ch JOKER), (Z.eqb_spec ch STAR); done.
Qed.

(** The claim about the loop for a pattern [l ++ encodes P]. *)
Definition rounds_match ph_match (l P : list Z) : Prop :=
  forall f p q w k S, text_at pat p l P -> text_at s q k S -> length k = length l ->
  (length l + length (encodes P) < f)%nat ->
  exists w', rounds ph_match f p q w = Some (bool_decide (l = k) && glob P S, w') /\
    (w' = true -> w = true \/ (l = k /\ reaches P S)).

Lemma rounds_cont ph_match b l P : rounds_match ph_match l P -> Forall cont (b :: l) -> rounds_match ph_match (b :: l) P.
Proof.
  intros IH Hb f p q w k S Hp Hs Hl Hf. destruct f as [|f]; [cbn in Hf; lia|]. destruct k as [|x k]; [done|].
  apply Forall_cons in Hb as [Hb _]. rewrite rounds_next.
  destruct (text_at_rd _ _ _ _ Hp) as (? & -> & ->). cbn [mbind option_bind].
  rewrite round_other by (unfold cont, STAR, JOKER in *; lia).
  destruct (text_at_rd _ _ _ _ Hs) as (? & -> & ->). cbn [mbind option_bind].
  apply text_at_tail in Hp. apply text_at_tail in Hs. destruct (Z.eqb_spec b x) as [->|Hne].
  - rewrite after_next. destruct (IH f (p + 1) (q + 1) w k S Hp Hs) as (w' & -> & Hw); [cbn in *; lia..|].
    exists w'. split.
    + do 3 f_equal. apply bool_decide_ext. split; [by intros ->|by intros [=]].
    + intros H. destruct (Hw H) as [?|[-> ?]]; auto.
  - exists w. rewrite after_return, bool_decide_false by congruence. split; [done|by left].
Qed.

Lemma rounds_nil ph_match : rounds_match ph_match [] [].
Proof.
  intros f p q w k S Hp Hs Hl Hf. destruct f as [|f]; [cbn in Hf; lia|]. destruct k; [|done]. rewrite rounds_next.
  destruct (text_at_rd _ _ _ _ Hp) as (? & -> & ->). destruct (text_at_rd _ _ _ _ Hs) as (c & Hrs & Hc).
  cbn [mbind option_bind]. unfold ph_round. cbn [Z.eqb]. rewrite Hrs. cbn [mbind option_bind].
  exists w. split; [|by left]. rewrite bool_decide_true by done. cbn [andb glob]. do 3 f_equal.
  destruct S as [|a S].
  - by subst c.
  - rewrite bool_decide_false by done. pose proof Hs as (_ & HS & _). apply Forall_cons in HS as [Ha _].
    destruct (encode_first a Ha) as (l & ks & El & _ & Hl0 & _). rewrite El in Hc. injection Hc as ->.
    by destruct (Z.eqb_spec c 0).
Qed.

Lemma text_star_joker : encode STAR = [STAR] /\ encode JOKER = [JOKER].
Proof. done. Qed.

Lemma rounds_joker ph_match P : rounds_match ph_match [] P -> rounds_match ph_match [] (JOKER :: P).
Proof.
  intros IH f p q w k S Hp Hs Hl Hf. destruct f as [|f]; [cbn in Hf; lia|]. destruct k; [|done]. rewrite rounds_next.
  destruct (text_at_rd _ _ _ _ Hp) as (ch & -> & Hch). cbn in Hch. injection Hch as <-. cbn [mbind option_bind].
  destruct (text_at_rd _ _ _ _ Hs) as (c & Hrs & Hc). change 63 with JOKER. rewrite round_joker, Hrs. cbn [mbind option_bind].
  rewrite bool_decide_true by done. cbn [andb]. rewrite glob_cons by done.
  pose proof (text_at_first _ _ _ _ _ _ Hp (proj2 text_star_joker)) as Hp1. destruct S as [|a S].
  - subst c. exists w. split; [done|by left].
  - pose proof Hs as (_ & HS & _). apply Forall_cons in HS as [Ha _].
    destruct (encode_first a Ha) as (l & ks & El & _ & Hl0 & _). rewrite El in Hc. injection Hc as ->.
    destruct (Z.eqb_spec c 0); [done|]. destruct (text_at_next q a S Hs) as (q1 & -> & Hs1). cbn [mbind option_bind].
    rewrite after_next. rewrite encodes_cons, (proj2 text_star_joker) in Hf. cbn in Hf.
    destruct (IH f (p + 1) q1 w [] S Hp1 Hs1) as (w' & -> & Hw); [done|cbn; lia|].
    exists w'. rewrite bool_decide_true by done. split; [done|].
    intros H. destruct (Hw H) as [?|[_ ?]]; [by left|]. right. split; [done|]. apply reaches_eat; auto; done.
Qed.

Lemma rounds_other ph_match a l ks P :
  text_char a -> a <> STAR -> a <> JOKER -> encode a = l :: ks -> rounds_match ph_match ks P ->
  rounds_match ph_match [] (a :: P).
Proof.
  intros Ha Hst Hj Ea IH f p q w k S Hp Hs Hl Hf. destruct f as [|f]; [cbn in Hf; lia|]. destruct k; [|done].
  destruct (encode_first a Ha) as (l' & ks' & E' & _ & Hl0 & _ & _ & Hlen & _ & Hsmall). rewrite Ea in E'. injection E' as <- <-.
  destruct (text_at_rd _ _ _ _ Hp) as (ch & Hrd & Hch). rewrite Ea in Hch. injection Hch as <-.
  rewrite rounds_next, Hrd. cbn [mbind option_bind].
  assert (Hne : l <> JOKER /\ l <> STAR).
  { destruct (encode_first a Ha) as (l' & ks' & E' & _ & _ & _ & _ & _ & Hs' & _). rewrite Ea in E'. injection E' as <- <-.
    split; intros ->; [apply Hj|apply Hst]; by apply Hs'. }
  rewrite round_other by tauto. destruct (text_at_rd _ _ _ _ Hs) as (c & Hrs & Hc). rewrite Hrs. cbn [mbind option_bind].
  rewrite bool_decide_true by done. cbn [andb]. rewrite glob_cons by done. destruct (Z.eqb_spec a JOKER) as [|_]; [done|]. cbn [orb].
  pose proof (text_at_first _ _ _ _ _ _ Hp Ea) as Hp1. destruct S as [|b S].
  - subst c. destruct (Z.eqb_spec l 0); [done|]. exists w. split; [done|by left].
  - pose proof Hs as (_ & HS & _). apply Forall_cons in HS as [Hb _].
    destruct (encode_first b Hb) as (lb & kb & Eb & _ & _ & _ & _ & Hlenb & _). rewrite Eb in Hc. injection Hc as ->.
    destruct (Z.eqb_spec l c) as [<-|Hlc].
    + rewrite after_next. pose proof (text_at_first _ _ _ _ _ _ Hs Eb) as Hs1.
      destruct (IH f (p + 1) (q + 1) w kb S Hp1 Hs1) as (w' & -> & Hw); [lia| |].
      { rewrite encodes_cons, Ea, length_app in Hf. cbn in Hf. lia. }
      exists w'. rewrite (same_rest a b l ks kb) by done. split; [done|].
      intros H. destruct (Hw H) as [?|[-> ?]]; [by left|]. right. split; [done|].
      apply reaches_eat; [done| |done]. right. by apply (encode_inj a b (l :: kb)).
    + exists w. rewrite after_return. destruct (Z.eqb_spec a b) as [<-|_]; [congruence|]. split; [done|by left].
Qed.

Lemma rounds_star n ph_match P :
  (length (encodes P) < n)%nat ->
  (forall l P, (length l + length (encodes P) < n)%nat -> Forall cont l -> Forall text_char P -> rounds_match ph_match l P) ->
  (forall p ks P, (length ks + length (encodes P) < n)%nat -> text_at pat p ks P -> matches_at ph_match p ks P) ->
  rounds_match ph_match [] (STAR :: P).
Proof.
  intros Hn IH Hm f p q w k S Hp Hs Hl Hf. destruct f as [|f]; [cbn in Hf; lia|]. destruct k; [|done].
  destruct (text_at_rd _ _ _ _ Hp) as (ch & Hrd & Hch). injection Hch as <-.
  rewrite rounds_next, Hrd. cbn [mbind option_bind]. change 42 with STAR. rewrite round_star, bool_decide_true by done. cbn [andb].
  pose proof (text_at_first _ _ _ _ _ _ Hp (proj1 text_star_joker)) as Hp1.
  assert (Hreach : forall w', w' = true -> w = true \/ @nil Z = [] /\ reaches (STAR :: P) S)
    by (intros; right; split; [done|apply reaches_star]).
  destruct (skip_wildcards_spec (p + 1) q P S Hp1 Hs) as
    [[-> ->]|(W & P' & U & S' & p' & q' & ch & -> & -> & Hhd & -> & Hp' & Hrd' & Hs' & ->)]; cbn [mbind option_bind].
  { exists true. rewrite after_return. by split; [|apply Hreach]. }
  destruct (text_at_rd _ _ _ _ Hp') as (ch' & Hrd2 & Hch). rewrite Hrd' in Hrd2. injection Hrd2 as <-.
  destruct P' as [|a P'].
  { subst ch. exists true. rewrite glob_star_all. by split; [|apply Hreach]. }
  destruct Hhd as [Hst Hj]. pose proof Hp' as (_ & HaP & _). apply Forall_cons in HaP as [Ha HP'].
  destruct (encode_first a Ha) as (l & ks & El & _ & Hl0 & _ & Hks & _). rewrite El in Hch. injection Hch as ->.
  destruct (Z.eqb_spec ch 0); [done|]. pose proof (text_at_first _ _ _ _ _ _ Hp' El) as Hp2.
  rewrite encodes_app, encodes_cons, El, !length_app in Hn. cbn in Hn.
  destruct (try_places_spec ph_match ch (p' + 1) q' [] a ks P' S' Ha El Hst Hj) as [->|(q2 & -> & Hg & Hg0 & Hs2 & ->)];
    [apply Hm; [lia|done]|done| |]; cbn [mbind option_bind].
  - exists true. rewrite after_return. by split; [|apply Hreach].
  - rewrite after_next. destruct (IH [] P' ltac:(cbn; lia) ltac:(done) HP' f (p' + 1) q2 true [] [] Hp2 Hs2) as (w' & -> & _);
      [done| |].
    { rewrite encodes_cons, encodes_app, encodes_cons, El, !length_app in Hf. cbn in *. lia. }
    exists w'. rewrite Hg, Hg0, andb_false_r. by split; [|apply Hreach].
Qed.

Lemma ph_match_rounds fuel p q :
  g_pattern_ph_match pat s (S fuel) p q = rounds (g_pattern_ph_match pat s fuel) (S (length pat)) p q false.
Proof. done. Qed.

Lemma rounds_matches fuel p ks P :
  rounds_match (g_pattern_ph_match pat s fuel) ks P -> text_at pat p ks P ->
  matches_at (g_pattern_ph_match pat s (S fuel)) p ks P.
Proof.
  intros Hr Hp q ks' T Hs Hl. rewrite ph_match_rounds.
  destruct (Hr (S (length pat)) p q false ks' T Hp Hs Hl) as (w & -> & Hw).
  - destruct Hp as (_ & _ & X & Hp). apply place_length in Hp as Hlen. destruct Hp as [Hp _].
    rewrite !length_app in Hlen. cbn in Hlen. lia.
  - exists w. split; [done|]. intros H. destruct (Hw H); [done|]. tauto.
Qed.

Lemma ph_match_rounds_ok n l P fuel :
  (length l + length (encodes P) < n)%nat -> (n <= S fuel)%nat -> Forall cont l -> Forall text_char P ->
  rounds_match (g_pattern_ph_match pat s fuel) l P.
Proof.
  revert l P fuel. induction n as [|n IH]; intros l P fuel Hn Hfuel Hl HP; [lia|].
  destruct l as [|b l].
  2: { apply rounds_cont; [|done]. apply Forall_cons in Hl as [_ Hl]. apply IH; [cbn in *; lia|lia|done|done]. }
  destruct P as [|a P]; [apply rounds_nil|]. apply Forall_cons in HP as [Ha HP].
  rewrite encodes_cons, length_app in Hn. destruct (encode_first a Ha) as (c & ks & Ec & _ & _ & _ & Hks & _).
  rewrite Ec in Hn. cbn in Hn.
  destruct (decide (a = JOKER)) as [->|Hj]; [apply rounds_joker, IH; [cbn in *; lia|lia|done|done]|].
  destruct (decide (a = STAR)) as [->|Hst].
  - apply (rounds_star n); [cbn in *; lia|intros; apply IH; [done|lia|done|done]|].
    intros p ks' P' Hlt Hp. destruct fuel as [|fuel]; [cbn in *; lia|].
    pose proof Hp as (Hk & HP' & _). apply rounds_matches; [|done]. apply IH; [done|lia|done|done].
  - eapply rounds_other; [done..|exact Ec|]. apply IH; [lia|lia|done|done].
Qed.

(** The matching function on two texts. *)
Lemma ph_match_correct p q P S fuel :
  text_at pat p [] P -> text_at s q [] S -> (length (encodes P) < fuel)%nat ->
  exists w, g_pattern_ph_match pat s fuel p q = Some (glob P S, w).
Proof.
  intros Hp Hs Hf. destruct fuel as [|fuel]; [lia|]. pose proof Hp as (_ & HP & _).
  destruct (rounds_matches fuel p [] P (ph_match_rounds_ok (Datatypes.S fuel) [] P fuel ltac:(cbn; lia) ltac:(lia) ltac:(done) HP)
    Hp q [] S Hs eq_refl) as (w & E & _). exists w. rewrite E, bool_decide_true by done. done.
Qed.
End loops.
