(* ===== verification/PatternOk.v ===== *)
(** Compiled patterns: the canonical form that g_pattern_spec_new computes, the
    kinds of match, and the theorem: matching decides the reference. *)
From S2P Require Import Prelude Utf8 Utf8Char Utf8Valid Utf8Convert Utf8Repair Pattern PatternMatch.

Open Scope c_scope.

(** * The canonical form

    [k] jokers are pending, [f] says that a star has been written since the last
    other character. *)
Fixpoint canonical (k : nat) (f : bool) (P : list Z) : list Z :=
  match P with
  | [] => replicate k JOKER
  | a :: P =>
      if decide (a = STAR) then if f then canonical k true P else STAR :: canonical k true P
      else if decide (a = JOKER) then canonical (S k) f P
      else replicate k JOKER ++ a :: canonical 0 false P
  end.

Lemma canonical_length k f P : (length (canonical k f P) <= k + length P)%nat.
Proof.
  revert k f. induction P as [|a P IH]; intros k f; cbn [canonical]; [rewrite length_replicate; cbn; lia|].
  destruct (decide (a = STAR)); [destruct f|destruct (decide (a = JOKER))]; cbn [length].
  - specialize (IH k true). lia.
  - specialize (IH k true). lia.
  - specialize (IH (S k) f). lia.
  - rewrite length_app, length_replicate. cbn [length]. specialize (IH 0%nat false). lia.
Qed.

(** ** It means the same *)

Lemma glob_congr A Q Q' S : (forall S, glob Q S = glob Q' S) -> glob (A ++ Q) S = glob (A ++ Q') S.
Proof.
  intros H. revert S. induction A as [|a A IH]; intros S; [apply H|]. cbn [app].
  destruct (decide (a = STAR)) as [->|Ha].
  - apply bool_iff. rewrite !glob_star. by setoid_rewrite IH.
  - rewrite !glob_cons by done. destruct S; [done|]. by rewrite IH.
Qed.

Lemma glob_joker_star P S : glob (JOKER :: STAR :: P) S = glob (STAR :: JOKER :: P) S.
Proof.
  rewrite glob_cons by done. destruct S as [|c S]; [by rewrite glob_star_joker_nil|]. by rewrite glob_star_joker.
Qed.

Lemma glob_jokers_star k P S : glob (replicate k JOKER ++ STAR :: P) S = glob (STAR :: replicate k JOKER ++ P) S.
Proof.
  revert S. induction k as [|k IH]; intros S; [done|]. cbn [replicate app].
  etransitivity; [by apply (glob_congr [JOKER] _ (STAR :: replicate k JOKER ++ P)), IH|]. apply glob_joker_star.
Qed.

Lemma replicate_snoc k P : replicate k JOKER ++ JOKER :: P = replicate (S k) JOKER ++ P.
Proof. rewrite replicate_S_end, <- app_assoc. done. Qed.

Lemma glob_canonical_both P : forall k,
  (forall S, glob (canonical k false P) S = glob (replicate k JOKER ++ P) S) /\
  (forall S, glob (STAR :: canonical k true P) S = glob (STAR :: replicate k JOKER ++ P) S).
Proof.
  induction P as [|a P IH]; intros k; cbn [canonical]; [by rewrite app_nil_r|].
  destruct (decide (a = STAR)) as [->|Hst].
  - split; intros S.
    + rewrite (proj2 (IH k)), glob_jokers_star. done.
    + rewrite (proj2 (IH k)). symmetry.
      etransitivity; [apply (glob_congr [STAR] _ (STAR :: replicate k JOKER ++ P)), glob_jokers_star|].
      apply glob_star_star.
  - destruct (decide (a = JOKER)) as [->|Hj].
    + destruct (IH (S k)) as [H1 H2]. split; intros S; [rewrite H1|rewrite H2]; by rewrite replicate_snoc.
    + destruct (IH 0%nat) as [H _]. split; intros S.
      * apply glob_congr. intros S'. by apply (glob_congr [a]).
      * apply (glob_congr [STAR]). intros S'. apply glob_congr. intros S''. by apply (glob_congr [a]).
Qed.

Lemma glob_canonical P S : glob (canonical 0 false P) S = glob P S.
Proof. apply (glob_canonical_both P 0). Qed.

(** ** Bytes and characters *)

Lemma canonical_plain k f l B :
  Forall (fun b => b <> STAR /\ b <> JOKER) l -> l <> [] ->
  canonical k f (l ++ B) = replicate k JOKER ++ l ++ canonical 0 false B.
Proof.
  intros Hl Hne. destruct l as [|b l]; [done|]. apply Forall_cons in Hl as [[H1 H2] Hl]. cbn [app canonical].
  rewrite !decide_False by done. do 2 f_equal. clear Hne. induction Hl as [|c l [H3 H4] _ IH]; [done|].
  cbn [app canonical]. rewrite !decide_False by done. cbn [replicate app]. by rewrite IH.
Qed.

Lemma encode_plain a :
  text_char a -> a <> STAR -> a <> JOKER -> Forall (fun b => b <> STAR /\ b <> JOKER) (encode a).
Proof.
  intros Ha Hst Hj. destruct (encode_first a Ha) as (l & ks & -> & _ & _ & _ & Hks & _ & Hsm & _). constructor.
  - split; intros ->; [apply Hst|apply Hj]; by apply Hsm.
  - eapply Forall_impl; [exact Hks|]. unfold cont, STAR, JOKER. cbv beta. lia.
Qed.

Lemma encodes_jokers k Q : encodes (replicate k JOKER ++ Q) = replicate k JOKER ++ encodes Q.
Proof. induction k as [|k IH]; [done|]. cbn [replicate app]. by rewrite encodes_cons, IH. Qed.

Lemma canonical_encodes P : Forall text_char P -> forall k f, canonical k f (encodes P) = encodes (canonical k f P).
Proof.
  induction 1 as [|a P Ha _ IH]; intros k f.
  - change (replicate k JOKER = encodes (replicate k JOKER)). pose proof (encodes_jokers k []) as E.
    change (encodes []) with (@nil Z) in E. by rewrite !app_nil_r in E.
  - rewrite encodes_cons. cbn [canonical]. destruct (decide (a = STAR)) as [->|Hst].
    { change (encode STAR) with [STAR]. cbn [app canonical]. rewrite decide_True by done. destruct f; [apply IH|].
      by rewrite encodes_cons, IH. }
    destruct (decide (a = JOKER)) as [->|Hj].
    { change (encode JOKER) with [JOKER]. cbn [app canonical]. apply IH. }
    destruct (encode_cons a) as (l & ks & E).
    rewrite canonical_plain; [|by apply encode_plain|by rewrite E]. by rewrite encodes_jokers, encodes_cons, IH.
Qed.

Lemma canonical_text P : Forall text_char P -> forall k f, Forall text_char (canonical k f P).
Proof.
  assert (HJ : text_char JOKER) by (unfold text_char, scalar, JOKER; lia).
  assert (HS : text_char STAR) by (unfold text_char, scalar, STAR; lia).
  assert (Hrep : forall k, Forall text_char (replicate k JOKER)) by (intros; by apply Forall_replicate).
  induction 1 as [|a P Ha _ IH]; intros k f; cbn [canonical]; [done|]. repeat case_decide; [destruct f|..]; auto.
  apply Forall_app. auto.
Qed.

(** ** Bounds of the length *)

(** The least and the greatest number of bytes that a pattern takes; the
    greatest is for patterns without stars. *)
Definition least_bytes (B : list Z) : Z := Z.of_nat (length (filter (fun b => b <> STAR) B)).
Definition most_bytes (B : list Z) : Z :=
  Z.of_nat (length (filter (fun b => b <> STAR /\ b <> JOKER) B)) + 4 * Z.of_nat (length (filter (fun b => b = JOKER) B)).

Lemma least_app B B' : least_bytes (B ++ B') = least_bytes B + least_bytes B'.
Proof. unfold least_bytes. rewrite filter_app, length_app. lia. Qed.
Lemma most_app B B' : most_bytes (B ++ B') = most_bytes B + most_bytes B'.
Proof. unfold most_bytes. rewrite !filter_app, !length_app. lia. Qed.

Lemma plain_bytes l :
  Forall (fun b => b <> STAR /\ b <> JOKER) l ->
  least_bytes l = Z.of_nat (length l) /\ most_bytes l = Z.of_nat (length l).
Proof.
  induction 1 as [|b l [H1 H2] _ [IH1 IH2]]; [done|].
  change (b :: l) with ([b] ++ l). rewrite least_app, most_app, IH1, IH2, length_app.
  unfold least_bytes, most_bytes. rewrite !filter_cons, !filter_nil.
  rewrite !decide_True, decide_False by done. cbn. lia.
Qed.

Lemma special_bytes : least_bytes [STAR] = 0 /\ least_bytes [JOKER] = 1 /\ most_bytes [JOKER] = 4 /\ most_bytes [STAR] = 0.
Proof. done. Qed.

Lemma text_char_bytes c : text_char c -> 1 <= Z.of_nat (length (encode c)) <= 4.
Proof. intros [[Hc _] _]. unfold encode. repeat case_match; cbn; lia. Qed.

Lemma glob_least P S :
  Forall text_char P -> Forall text_char S -> glob P S = true -> least_bytes (encodes P) <= Z.of_nat (length (encodes S)).
Proof.
  intros HP. revert S. induction HP as [|a P Ha _ IH]; intros S HS H; [change (least_bytes (encodes [])) with 0; lia|].
  rewrite encodes_cons, least_app. destruct (decide (a = STAR)) as [->|Hst].
  - change (encode STAR) with [STAR]. rewrite (proj1 special_bytes). apply glob_star in H as (u & v & -> & H).
    apply Forall_app in HS as [_ HS]. specialize (IH v HS H). rewrite encodes_app, length_app. lia.
  - rewrite glob_cons in H by done. destruct S as [|c S]; [done|]. apply andb_true_iff in H as [Hc H].
    apply Forall_cons in HS as [HcS HS]. specialize (IH S HS H). rewrite encodes_cons, length_app.
    pose proof (text_char_bytes c HcS) as Hb. destruct (decide (a = JOKER)) as [->|Hj].
    + change (encode JOKER) with [JOKER]. pose proof special_bytes. lia.
    + destruct (plain_bytes (encode a)) as [-> _]; [by apply encode_plain|].
      destruct (Z.eqb_spec a JOKER), (Z.eqb_spec a c); try done. subst. lia.
Qed.

Lemma glob_most P S :
  Forall text_char P -> Forall text_char S -> Forall (fun a => a <> STAR) P -> glob P S = true ->
  Z.of_nat (length (encodes S)) <= most_bytes (encodes P).
Proof.
  intros HP HS Hns. revert S HS. induction HP as [|a P Ha _ IH]; intros S HS H.
  - cbn in H. apply bool_decide_eq_true in H. by subst.
  - apply Forall_cons in Hns as [Hst Hns]. specialize (IH Hns). rewrite encodes_cons, most_app.
    rewrite glob_cons in H by done. destruct S as [|c S]; [done|]. apply andb_true_iff in H as [Hc H].
    apply Forall_cons in HS as [HcS HS]. specialize (IH S HS H). rewrite encodes_cons, length_app.
    pose proof (text_char_bytes c HcS) as Hb. destruct (decide (a = JOKER)) as [->|Hj].
    + change (encode JOKER) with [JOKER]. pose proof special_bytes. lia.
    + destruct (plain_bytes (encode a)) as [_ ->]; [by apply encode_plain|].
      destruct (Z.eqb_spec a JOKER), (Z.eqb_spec a c); try done. subst. lia.
Qed.

(** * The loop that writes the canonical pattern *)

(** [hw] and [tw] are the first and the last place of a star in [out]. *)
Definition stars_ok (hw tw : Z) (out : list Z) : Prop :=
  (STAR ∉ out /\ hw = -1 /\ tw = -1) \/
  exists A1 B1 A2 B2, out = A1 ++ STAR :: B1 /\ hw = Z.of_nat (length A1) /\ STAR ∉ A1 /\
    out = A2 ++ STAR :: B2 /\ tw = Z.of_nat (length A2) /\ STAR ∉ B2.

Definition jokers_ok (hj : Z) (out : list Z) : Prop :=
  (JOKER ∉ out /\ hj = -1) \/ (JOKER ∈ out /\ 0 <= hj).

Lemma stars_other hw tw out b : b <> STAR -> stars_ok hw tw out -> stars_ok hw tw (out ++ [b]).
Proof.
  intros Hb [(Hn & -> & ->)|(A1 & B1 & A2 & B2 & E1 & Hhw & H1 & E2 & Htw & H2)].
  - left. split; [|done]. rewrite elem_of_app, list_elem_of_singleton. intros [H|H]; [done|congruence].
  - right. exists A1, (B1 ++ [b]), A2, (B2 ++ [b]). rewrite E1 at 1. rewrite <- !app_assoc. cbn [app].
    split; [done|]. split; [done|]. split; [done|]. rewrite E2 at 1. rewrite <- app_assoc. split; [done|]. split; [done|].
    rewrite elem_of_app, list_elem_of_singleton. intros [H|H]; [done|congruence].
Qed.

Lemma stars_star hw tw out :
  stars_ok hw tw out ->
  stars_ok (if hw <? 0 then Z.of_nat (length out) else hw) (Z.of_nat (length out)) (out ++ [STAR]).
Proof.
  intros [(Hn & -> & ->)|(A1 & B1 & A2 & B2 & E1 & Hhw & H1 & E2 & Htw & H2)]; right.
  - exists out, [], out, []. split_and!; try done. by apply not_elem_of_nil.
  - exists A1, (B1 ++ [STAR]), out, []. destruct (Z.ltb_spec hw 0); [lia|]. split_and!; try done.
    + by rewrite E1, <- app_assoc.
    + by apply not_elem_of_nil.
Qed.

Lemma jokers_other hj out b : b <> JOKER -> jokers_ok hj out -> jokers_ok hj (out ++ [b]).
Proof.
  intros Hb [[Hn ->]|[Hj Hh]]; [left|right]; rewrite elem_of_app, list_elem_of_singleton; (split; [|done]);
    [intros [?|?]; [done|congruence]|by left].
Qed.

Lemma jokers_joker hj out i : 0 <= i -> jokers_ok hj out -> jokers_ok (if hj <? 0 then i else hj) (out ++ [JOKER]).
Proof.
  intros Hi H. right. rewrite elem_of_app, list_elem_of_singleton. split; [by right|].
  destruct (Z.ltb_spec hj 0); [done|]. lia.
Qed.

(** The state with [out] written, [k] jokers pending, and [rest] to read. *)
Record canon_ok (pat : list Z) (st : canon) (out : list Z) (k : nat) (f : bool) (rest : list Z) : Prop := {
  ok_s : exists t, place pat (cs_s st) (rest ++ 0 :: t);
  ok_buf : exists junk, cs_buf st = out ++ junk /\ (length (canonical k f rest) < length junk)%nat;
  ok_d : cs_d st = Z.of_nat (length out);
  ok_len : cs_len st = Z.of_nat (length out + k + length rest);
  ok_min : cs_min st = least_bytes out + Z.of_nat k;
  ok_max : cs_max st = most_bytes out + 4 * Z.of_nat k;
  ok_f : follows_wildcard st = f;
  ok_k : pending_jokers st = Z.of_nat k;
  ok_stars : stars_ok (hw_pos st) (tw_pos st) out;
  ok_jokers : jokers_ok (hj_pos st) out;
  ok_bound : (length out + k + length rest < Z.to_nat (2 ^ 30))%nat;
}.

Lemma least_bounds B : 0 <= least_bytes B <= Z.of_nat (length B).
Proof. unfold least_bytes. pose proof (length_filter (fun b => b <> STAR) B). lia. Qed.

Lemma most_bounds B : 0 <= most_bytes B <= 4 * Z.of_nat (length B).
Proof.
  induction B as [|b B IH]; [change (most_bytes []) with 0; cbn; lia|]. change (b :: B) with ([b] ++ B). rewrite most_app, length_app.
  assert (0 <= most_bytes [b] <= 4); [|cbn; lia]. unfold most_bytes. rewrite !filter_cons, !filter_nil.
  repeat case_decide; cbn; lia.
Qed.

Lemma put_char_run c st out x junk :
  cs_buf st = out ++ x :: junk -> cs_d st = Z.of_nat (length out) ->
  put_char c st = Some (mkCanon (cs_s st) (cs_i st) (cs_d st + 1) (out ++ c :: junk) (cs_len st) (cs_min st) (cs_max st)
    (follows_wildcard st) (pending_jokers st) (hw_pos st) (tw_pos st) (hj_pos st) (tj_pos st)).
Proof. intros Eb Ed. unfold put_char. by rewrite Eb, Ed, array_set_mid. Qed.

Lemma canonical_jokers k f rest : exists l, canonical k f rest = l /\ (k <= length l)%nat.
Proof.
  eexists. split; [done|]. revert k f. induction rest as [|a rest IH]; intros k f; cbn [canonical]; [by rewrite length_replicate|].
  repeat case_decide; [destruct f|..]; cbn [length]; rewrite ?length_app, ?length_replicate; try lia.
  - apply IH. - specialize (IH k true). lia. - specialize (IH (S k) f). lia.
Qed.

(** Writing the pending jokers before another character, or at the end. *)
Lemma flush_run pat count out0 k0 f rest : forall k st out fuel,
  canon_ok pat st out k f rest -> out = out0 ++ replicate (k0 - k) JOKER -> (k <= k0)%nat ->
  (rest = [] \/ exists b r, rest = b :: r /\ b <> STAR /\ b <> JOKER) ->
  0 <= cs_i st < 2 ^ 30 -> (count = true -> cs_i st = Z.of_nat (length out)) -> (k < fuel)%nat ->
  exists st', iter fuel (fun st =>
    if pending_jokers st =? 0 then Some (inr st)
    else
      st ← put_char JOKER st;
      let i := s32 (cs_i st) in
      Some (inl (mkCanon (cs_s st) (if count then u32 (cs_i st + 1) else cs_i st) (cs_d st) (cs_buf st)
        (cs_len st) (cs_min st) (cs_max st) (follows_wildcard st) (u32 (pending_jokers st - 1))
        (hw_pos st) (tw_pos st) (if hj_pos st <? 0 then i else hj_pos st) i))) st = Some st' /\
    canon_ok pat st' (out0 ++ replicate k0 JOKER) 0 f rest /\
    (count = true -> cs_i st' = Z.of_nat (length out0 + k0)) /\ cs_s st' = cs_s st.
Proof.
  induction k as [|k IH]; intros st out fuel Hok Eo Hk Hrest Hi Hc Hf; (destruct fuel as [|fuel]; [lia|]); cbn [iter].
  - pose proof (ok_k _ _ _ _ _ _ Hok) as Hp. rewrite Hp. exists st. split; [done|].
    rewrite Nat.sub_0_r in Eo. subst out. split; [done|]. split; [|done].
    intros H. rewrite (Hc H), length_app, length_replicate. done.
  - pose proof Hok as [Hs (junk & Eb & Hj) Hd Hlen Hmin Hmax Hfo Hp Hst Hjo Hb].
    rewrite Hp. destruct (Z.eqb_spec (Z.of_nat (S k)) 0); [lia|].
    assert (Hcl : (S (length (canonical k f rest)) = length (canonical (S k) f rest))%nat).
    { destruct Hrest as [->|(b & r & -> & H1 & H2)]; cbn [canonical]; [by rewrite !length_replicate|].
      rewrite !decide_False by done. rewrite !length_app, !length_replicate. cbn. lia. }
    destruct junk as [|x junk]; [cbn in Hj; lia|]. rewrite (put_char_run _ _ _ _ _ Eb Hd). cbn [mbind option_bind]. cbv zeta.
    cbn [cs_s cs_i cs_d cs_buf cs_len cs_min cs_max follows_wildcard pending_jokers hw_pos tw_pos hj_pos tj_pos].
    change (2 ^ 30) with 1073741824 in *.
    assert (Hs32 : s32 (cs_i st) = cs_i st) by (apply swrap_id; [lia|change (2 ^ (32 - 1)) with 2147483648; lia]).
    rewrite Hs32.
    match goal with |- context [iter fuel _ ?o] =>
      destruct (IH o (out ++ [JOKER]) fuel) as (st' & Hit & H1 & H2 & H3) end;
      [| |lia|done| | |lia|exists st'; split; [exact Hit|done]].
    + split; cbn [cs_s cs_i cs_d cs_buf cs_len cs_min cs_max follows_wildcard pending_jokers hw_pos tw_pos hj_pos tj_pos].
      * done.
      * exists junk. rewrite <- app_assoc. split; [done|]. cbn [length] in Hj. lia.
      * rewrite Hd, length_app. cbn. lia.
      * rewrite Hlen, length_app. cbn. lia.
      * rewrite Hmin, least_app, (proj1 (proj2 special_bytes)). lia.
      * rewrite Hmax, most_app, (proj1 (proj2 (proj2 special_bytes))). lia.
      * done.
      * unfold wrap. rewrite Z.mod_small; [lia|]. change (2 ^ 32) with 4294967296. lia.
      * by apply stars_other.
      * apply jokers_joker; [lia|done].
      * rewrite length_app. cbn. change (2 ^ 30) with 1073741824. lia.
    + rewrite Eo, <- app_assoc, <- replicate_S_end. do 2 f_equal. lia.
    + cbn. destruct count; [|done]. rewrite (Hc eq_refl) in *. unfold wrap. rewrite Z.mod_small; change (2 ^ 32) with 4294967296; lia.
    + intros H. cbn. rewrite H, (Hc H), length_app. unfold wrap. cbn.
      rewrite Z.mod_small; change (2 ^ 32) with 4294967296; lia.
Qed.

Lemma flush_jokers_run pat count st out k f rest :
  canon_ok pat st out k f rest -> (rest = [] \/ exists b r, rest = b :: r /\ b <> STAR /\ b <> JOKER) ->
  0 <= cs_i st < 2 ^ 30 -> (count = true -> cs_i st = Z.of_nat (length out)) ->
  exists st', flush_jokers count st = Some st' /\ canon_ok pat st' (out ++ replicate k JOKER) 0 f rest /\
    (count = true -> cs_i st' = Z.of_nat (length out + k)) /\ cs_s st' = cs_s st.
Proof.
  intros Hok Hrest Hi Hc. apply (flush_run pat count out k f rest k st out); try done.
  - by rewrite Nat.sub_diag, app_nil_r.
  - pose proof (ok_k _ _ _ _ _ _ Hok) as ->. lia.
Qed.

(** A round of the loop reads one byte. *)
Lemma canon_round_end pat st out k f :
  canon_ok pat st out k f [] -> canon_round pat st = Some (inr st).
Proof. intros [[t Hs] _ _ _ _ _ _ _ _ _ _]. unfold canon_round. by rewrite (place_rd0 _ _ _ Hs). Qed.

(** The fields of an explicit state. *)
Ltac fields := cbn [cs_s cs_i cs_d cs_buf cs_len cs_min cs_max follows_wildcard pending_jokers hw_pos tw_pos hj_pos tj_pos].

Lemma small_u32 x : 0 <= x < 4294967296 -> u32 x = x.
Proof. intros. by apply wrap_id. Qed.

Lemma canon_round_step pat st out k f b rest :
  canon_ok pat st out k f (b :: rest) -> cs_i st = Z.of_nat (length out) -> b <> 0 ->
  exists st' out' k' f', canon_round pat st = Some (inl st') /\
    canon_ok pat st' out' k' f' rest /\ cs_i st' = Z.of_nat (length out') /\ cs_s st' = cs_s st + 1 /\
    out' ++ canonical k' f' rest = out ++ canonical k f (b :: rest).
Proof.
  intros Hok Hi Hb0. pose proof Hok as [(t & Hs) (junk & Eb & Hj) Hd Hlen Hmin Hmax Hfo Hp Hst Hjo Hbd].
  change (2 ^ 30) with 1073741824 in Hbd. cbn [length] in Hbd, Hlen.
  assert (Hs32 : s32 (cs_i st) = cs_i st) by (apply swrap_id; [lia|change (2 ^ (32 - 1)) with 2147483648; lia]).
  pose proof (least_bounds out) as Hlb. pose proof (most_bounds out) as Hmb.
  unfold canon_round. rewrite (place_rd0 _ _ _ Hs). cbn [app head mbind option_bind].
  destruct (Z.eqb_spec b 0) as [|_]; [done|]. cbn [canonical] in Hj |- *. apply place_tail in Hs.
  destruct (Z.eqb_spec b STAR) as [->|Hbs]; [rewrite decide_True in Hj |- * by done|rewrite decide_False in Hj |- * by done].
  - rewrite Hfo. destruct f.
    + eexists _, out, k, true. split; [done|]. split; [|done].
      split; fields; try done; [by exists t|by exists junk|rewrite Hlen, small_u32; lia|cbn; lia].
    + destruct junk as [|x junk]; [cbn in Hj; lia|]. unfold copy_and_advance.
      erewrite put_char_run by (fields; done). cbn [mbind option_bind]. fields. cbv zeta.
      eexists _, (out ++ [STAR]), k, true. split; [done|]. rewrite Hs32, Hi. split; [|fields; split_and!].
      * split; fields; try done.
        -- by exists t.
        -- exists junk. rewrite <- app_assoc. split; [done|]. cbn in Hj. lia.
        -- rewrite Hd, length_app. cbn. lia.
        -- rewrite Hlen, length_app. cbn. lia.
        -- rewrite Hmin, least_app, (proj1 special_bytes). lia.
        -- rewrite Hmax, most_app. change (most_bytes [STAR]) with 0. lia.
        -- by eapply stars_star.
        -- by apply jokers_other.
        -- rewrite length_app. cbn. change (2 ^ 30) with 1073741824. lia.
      * rewrite small_u32, length_app by lia. cbn. lia.
      * done.
      * by rewrite <- app_assoc.
  - destruct (Z.eqb_spec b JOKER) as [->|Hbj]; [rewrite decide_True in Hj |- * by done|rewrite decide_False in Hj |- * by done].
    + eexists _, out, (S k), f. split; [done|]. split; [|done].
      split; fields; try done; [by exists t|by exists junk|lia|rewrite Hmin, small_u32; lia|rewrite Hmax, small_u32; lia|
        rewrite Hp, small_u32; lia|lia].
    + destruct (flush_jokers_run pat true st out k f (b :: rest) Hok) as (st1 & -> & Hok1 & Hi1 & Hss).
      { right. by exists b, rest. } { change (2 ^ 30) with 1073741824. lia. } { done. }
      cbn [mbind option_bind].
      set (out1 := out ++ replicate k JOKER) in *. specialize (Hi1 eq_refl).
      destruct Hok1 as [(t1 & Hs1) (junk1 & Eb1 & Hj1) Hd1 Hlen1 Hmin1 Hmax1 Hfo1 Hp1 Hst1 Hjo1 Hbd1].
      change (2 ^ 30) with 1073741824 in Hbd1. cbn [length] in Hbd1, Hlen1.
      pose proof (least_bounds out1) as Hlb1. pose proof (most_bounds out1) as Hmb1.
      cbn [canonical] in Hj1. rewrite !decide_False in Hj1 by done. cbn [replicate app length] in Hj1.
      destruct junk1 as [|x junk1]; [cbn in Hj1; lia|]. unfold copy_and_advance.
      erewrite put_char_run by (fields; done). cbn [mbind option_bind]. fields.
      destruct (plain_bytes [b]) as [Hl1 Hm1]; [by repeat constructor|]. cbn [length] in Hl1, Hm1.
      assert (Hlo : length out1 = (length out + k)%nat) by (subst out1; by rewrite length_app, length_replicate).
      eexists _, (out1 ++ [b]), 0%nat, false. split; [done|]. split; [|fields; split_and!].
      * split; fields; try done.
        -- exists t1. by apply place_tail in Hs1.
        -- exists junk1. rewrite <- app_assoc. split; [done|]. cbn in Hj1. lia.
        -- rewrite Hd1, length_app. cbn. lia.
        -- rewrite Hlen1, length_app. cbn. lia.
        -- rewrite Hmin1, small_u32, least_app, Hl1 by lia. lia.
        -- rewrite Hmax1, small_u32, most_app, Hm1 by lia. lia.
        -- by apply stars_other.
        -- by apply jokers_other.
        -- rewrite length_app. cbn. change (2 ^ 30) with 1073741824. lia.
      * rewrite Hi1, small_u32, length_app, Hlo by lia. cbn. lia.
      * by rewrite Hss.
      * subst out1. by rewrite <- !app_assoc.
Qed.

(** The canonical pattern, in a buffer with a terminator, and what is known of it. *)
Lemma canonicalize_run mem B t :
  Forall (fun b => b <> 0) B -> Z.of_nat (length B) < 2 ^ 30 ->
  let out := canonical 0 false B in
  exists st junk, canonicalize mem (B ++ 0 :: t) = Some st /\ cs_buf st = out ++ 0 :: junk /\
    cs_len st = Z.of_nat (length out) /\ cs_min st = least_bytes out /\ cs_max st = most_bytes out /\
    stars_ok (hw_pos st) (tw_pos st) out /\ jokers_ok (hj_pos st) out.
Proof.
  intros Hnz Hlen out. set (pat := B ++ 0 :: t). change (2 ^ 30) with 1073741824 in Hlen.
  assert (Hp0 : place pat 0 (B ++ 0 :: t)) by apply (place_app []).
  unfold canonicalize. rewrite (strlen_bytes pat 0 B t Hp0 Hnz). cbn [mbind option_bind].
  rewrite (small_u32 (Z.of_nat (length B))), (small_u32 (_ + 1)) by lia.
  set (buf := mem <$> seq 0 (Z.to_nat (Z.of_nat (length B) + 1))).
  assert (Hbuf : length buf = S (length B)) by (subst buf; rewrite length_fmap, length_seq; lia).
  destruct (iter_total (canon_round pat)
    (fun st => exists o k f rest, canon_ok pat st o k f rest /\ cs_i st = Z.of_nat (length o) /\
       Forall (fun b => b <> 0) rest /\ o ++ canonical k f rest = out)
    (fun st => Z.to_nat (Z.of_nat (length pat) - cs_s st))
    (fun st => exists o k f, canon_ok pat st o k f [] /\ cs_i st = Z.of_nat (length o) /\ o ++ replicate k JOKER = out))
    with (fuel := S (length pat)) (a := mkCanon 0 0 0 buf (Z.of_nat (length B)) 0 0 false 0 (-1) (-1) (-1) (-1))
    as (st & -> & o & k & f & Hok & Hi & Ho).
  - intros st (o & k & f & rest & Hok & Hi & Hr & Ho). destruct rest as [|b rest].
    + exists (inr st). split; [by eapply canon_round_end|]. by exists o, k, f.
    + apply Forall_cons in Hr as [Hb Hr].
      destruct (canon_round_step _ _ _ _ _ _ _ Hok Hi Hb) as (st' & o' & k' & f' & -> & Hok' & Hi' & Hs' & Ho').
      exists (inl st'). split; [done|]. split; [exists o', k', f', rest; by rewrite Ho'|].
      destruct Hok as [[t' Hs] _ _ _ _ _ _ _ _ _ _]. pose proof (place_length _ _ _ Hs) as Hl. cbn in Hl. lia.
  - exists [], 0%nat, false, B. split; [|done]. split; fields; cbn [length app]; try done.
    + by exists t.
    + exists buf. split; [done|]. rewrite Hbuf. pose proof (canonical_length 0 false B). lia.
    + left. split_and!; [apply not_elem_of_nil|done..].
    + left. split; [apply not_elem_of_nil|done].
    + change (2 ^ 30) with 1073741824. lia.
  - fields. lia.
  - cbn [mbind option_bind].
    destruct (flush_jokers_run pat false st o k f [] Hok) as (st1 & -> & Hok1 & _ & _).
    { by left. } { rewrite Hi. pose proof (ok_bound _ _ _ _ _ _ Hok). cbn in *. lia. } { done. }
    cbn [mbind option_bind]. rewrite Ho in Hok1.
    destruct Hok1 as [_ (junk & Eb & Hj) Hd Hlen1 Hmin1 Hmax1 _ _ Hst1 Hjo1 _].
    destruct junk as [|x junk]; [cbn in Hj; lia|]. rewrite (put_char_run _ _ _ _ _ Eb Hd).
    eexists _, junk. split; [done|]. fields. split_and!; try done; [rewrite Hlen1; cbn; lia|lia|lia].
Qed.
