(* ===== verification/PatternSpec.v ===== *)
(** The kinds of match of a compiled pattern and the contract: matching a string
    against a pattern decides the reference, and canonical patterns that match the
    same strings are equal. *)
From S2P Require Import Prelude Utf8 Utf8Char Utf8Valid Utf8Convert Utf8Repair Pattern PatternMatch PatternOk.

Open Scope c_scope.

(** * More laws of the reference *)

Lemma glob_app P Q S : glob (P ++ Q) S = true <-> exists X Y, S = X ++ Y /\ glob P X = true /\ glob Q Y = true.
Proof.
  revert S. induction P as [|a P IH]; intros S.
  - cbn [app]. split.
    + intros H. by exists [], S.
    + intros (X & Y & -> & HX & HY). cbn in HX. apply bool_decide_eq_true in HX. by subst.
  - cbn [app]. destruct (decide (a = STAR)) as [->|Ha].
    + rewrite glob_star. split.
      * intros (u & v & -> & H). apply IH in H as (X & Y & -> & HX & HY). exists (u ++ X), Y. rewrite <- app_assoc.
        split; [done|].
        split; [|done]. apply glob_star. by exists u, X.
      * intros (X & Y & -> & HX & HY). apply glob_star in HX as (u & v & -> & HX). exists u, (v ++ Y).
        rewrite <- app_assoc. split; [done|]. apply IH. by exists v, Y.
    + rewrite glob_cons by done. destruct S as [|c S].
      * split; [done|]. intros (X & Y & E & HX & HY). symmetry in E. apply app_eq_nil in E as [-> ->].
        by rewrite glob_cons in HX.
      * rewrite andb_true_iff, IH. split.
        -- intros (Hc & X & Y & -> & HX & HY). exists (c :: X), Y. split; [done|]. split; [|done].
           rewrite glob_cons by done. by rewrite Hc.
        -- intros (X & Y & E & HX & HY). rewrite glob_cons in HX by done. destruct X as [|c' X]; [done|].
           injection E as -> ->. apply andb_true_iff in HX as [Hc HX]. split; [done|]. by exists X, Y.
Qed.

Lemma glob_single a S :
  glob [a] S = true <-> if decide (a = STAR) then True else exists c, S = [c] /\ (a = JOKER \/ a = c).
Proof.
  destruct (decide (a = STAR)) as [->|Ha]; [by rewrite glob_star_all|]. rewrite glob_cons by done.
  destruct S as [|c [|d S]].
  - split; [done|]. by intros (c & ? & _).
  - cbn [glob]. rewrite andb_true_r, orb_true_iff, !Z.eqb_eq. split; [by exists c|]. by intros (c' & [= ->] & H).
  - cbn [glob]. rewrite andb_false_r. split; [done|]. by intros (c' & ? & _).
Qed.

(** A pattern and a string can be read from behind. *)
Lemma glob_reverse P S : glob (reverse P) (reverse S) = glob P S.
Proof.
  assert (Himp : forall P S, glob P S = true -> glob (reverse P) (reverse S) = true).
  { clear. intros P. induction P as [|a P IH]; intros S H.
    - cbn in H. apply bool_decide_eq_true in H. by subst.
    - apply (glob_app [a] P) in H as (X & Y & -> & HX & HY). rewrite reverse_cons, reverse_app.
      apply glob_app. exists (reverse Y), (reverse X). split; [done|]. split; [by apply IH|].
      rewrite glob_single in HX |- *. destruct (decide (a = STAR)); [done|]. destruct HX as (c & -> & H). by exists c. }
  apply bool_iff. split; [|apply Himp]. intros H. apply Himp in H. by rewrite !reverse_involutive in H.
Qed.

Definition plain (L : list Z) : Prop := Forall (fun a => a <> STAR /\ a <> JOKER) L.

Lemma glob_plain L S : plain L -> glob L S = bool_decide (L = S).
Proof.
  intros HL. revert S. induction HL as [|a L [Ha Hj] _ IH]; intros S.
  - cbn. apply bool_decide_ext. by split.
  - rewrite glob_cons by done. destruct S as [|c S]; [by rewrite bool_decide_false|]. rewrite IH.
    destruct (Z.eqb_spec a JOKER), (Z.eqb_spec a c) as [->|Hne]; try done; cbn [orb andb].
    + apply bool_decide_ext. split; [by intros ->|by intros [=]].
    + rewrite bool_decide_false by congruence. done.
Qed.

Lemma glob_head L S : plain L -> glob (L ++ [STAR]) S = true <-> L `prefix_of` S.
Proof.
  intros HL. rewrite glob_app. split.
  - intros (X & Y & -> & HX & _). rewrite glob_plain in HX by done. apply bool_decide_eq_true in HX as ->. by exists Y.
  - intros [Y ->]. exists L, Y. split; [done|]. rewrite glob_plain, glob_star_all by done. split; [|done]. by apply bool_decide_true.
Qed.

Lemma glob_tail L S : plain L -> glob (STAR :: L) S = true <-> L `suffix_of` S.
Proof.
  intros HL. rewrite glob_star. split.
  - intros (u & v & -> & H). rewrite glob_plain in H by done. apply bool_decide_eq_true in H as ->. by exists u.
  - intros [u ->]. exists u, L. split; [done|]. rewrite glob_plain by done. by apply bool_decide_true.
Qed.

(** * Prefixes and suffixes of bytes are those of characters *)

Lemma encodes_prefix L S :
  Forall text_char L -> Forall text_char S -> encodes L `prefix_of` encodes S <-> L `prefix_of` S.
Proof.
  intros HL HS. split.
  - revert S HS. induction HL as [|a L Ha _ IH]; intros S HS [r E]; [by exists S|].
    destruct S as [|c S].
    + destruct (encode_cons a) as (l & ks & El). rewrite encodes_cons, El in E. done.
    + apply Forall_cons in HS as [Hc HS]. rewrite !encodes_cons in E.
      assert (a = c) as ->.
      { apply (encode_prefix_inj a c (encode c ++ encodes S)); [by apply text_char_range..| |by eexists].
        rewrite E, <- app_assoc. by eexists. }
      rewrite <- app_assoc in E. apply app_inv_head in E. apply prefix_cons, IH; [done|]. by exists r.
  - intros [r ->]. rewrite encodes_app. by eexists.
Qed.

(** The last character is determined by the bytes. *)
Lemma last_char x y ks ks' l l' :
  Forall cont ks -> Forall cont ks' -> ~ cont l -> ~ cont l' -> x ++ l :: ks = y ++ l' :: ks' -> l :: ks = l' :: ks'.
Proof.
  revert ks'. induction ks as [|k ks IH] using rev_ind; intros ks' Hk Hk' Hl Hl' E.
  - destruct ks' as [|k' ks' _] using rev_ind.
    + by apply app_inj_tail in E as [_ ->].
    + rewrite app_comm_cons, app_assoc in E. apply app_inj_tail in E as [_ ->].
      apply Forall_app in Hk' as [_ Hk']. by apply Forall_cons in Hk' as [? _].
  - destruct ks' as [|k' ks' _] using rev_ind.
    + rewrite app_comm_cons, app_assoc in E. apply app_inj_tail in E as [_ <-].
      apply Forall_app in Hk as [_ Hk]. by apply Forall_cons in Hk as [? _].
    + rewrite !app_comm_cons, !app_assoc in E. apply app_inj_tail in E as [E ->].
      apply Forall_app in Hk as [Hk _]. apply Forall_app in Hk' as [Hk' _].
      rewrite !app_comm_cons. f_equal. by apply (IH ks').
Qed.

Lemma encodes_suffix L S :
  Forall text_char L -> Forall text_char S -> encodes L `suffix_of` encodes S <-> L `suffix_of` S.
Proof.
  intros HL HS. split.
  - revert S HS. induction L as [|a L IH] using rev_ind; intros S HS [r E]; [by exists S; rewrite app_nil_r|].
    apply Forall_app in HL as [HL Ha]. apply Forall_cons in Ha as [Ha _].
    destruct S as [|c S _] using rev_ind.
    + rewrite encodes_app in E. destruct (encode_cons a) as (l & ks & El). cbn in E. rewrite El in E.
      symmetry in E. apply app_eq_nil in E as [_ E]. apply app_eq_nil in E as [_ E]. done.
    + apply Forall_app in HS as [HS Hc]. apply Forall_cons in Hc as [Hc _]. rewrite !encodes_app in E.
      assert (Hone : forall x, encodes [x] = encode x) by (intros; rewrite encodes_cons; apply app_nil_r).
      rewrite !Hone in E.
      destruct (encode_first a Ha) as (l & ks & El & _ & _ & Hl & Hks & _).
      destruct (encode_first c Hc) as (l' & ks' & El' & _ & _ & Hl' & Hks' & _).
      assert (Eac : encode a = encode c).
      { rewrite El, El' in E |- *. rewrite app_assoc in E. symmetry in E. by eapply last_char. }
      assert (a = c) as -> by (by eapply encode_inj).
      rewrite app_assoc in E. apply app_inv_tail in E. destruct (IH HL S HS) as [r' ->]; [by exists r|].
      exists r'. by rewrite app_assoc.
  - intros [r ->]. rewrite encodes_app. by eexists.
Qed.

Lemma encodes_inj L S : Forall text_char L -> Forall text_char S -> encodes L = encodes S -> L = S.
Proof.
  intros HL HS E. apply (anti_symm prefix); apply encodes_prefix; try done; rewrite E; done.
Qed.

(** * Comparing zero-terminated strings *)

Lemma strcmp_run a p b q x y t t' :
  place a p (x ++ 0 :: t) -> place b q (y ++ 0 :: t') ->
  Forall (fun c => c <> 0) x -> Forall (fun c => c <> 0) y ->
  strcmp_equal a p b q = Some (bool_decide (x = y)).
Proof.
  intros Ha Hb Hx Hy. unfold strcmp_equal.
  assert (Hgen : forall f i x y, (length x < f)%nat -> 0 <= i -> place a (p + i) (x ++ 0 :: t) -> place b (q + i) (y ++ 0 :: t') ->
    Forall (fun c => c <> 0) x -> Forall (fun c => c <> 0) y ->
    iter f (fun i => u ← rd a (p + i); v ← rd b (q + i);
      Some (if negb (u =? v) then inr false else if u =? 0 then inr true else inl (i + 1))) i =
    Some (bool_decide (x = y))).
  { clear. induction f as [|f IH]; intros i x y Hf Hi Ha Hb Hx Hy; [lia|]. cbn [iter].
    rewrite (place_rd0 _ _ _ Ha), (place_rd0 _ _ _ Hb). destruct x as [|c x], y as [|d y]; cbn [app head mbind option_bind].
    - rewrite Z.eqb_refl. cbn. by rewrite bool_decide_true.
    - apply Forall_cons in Hy as [Hd _]. destruct (Z.eqb_spec 0 d); [congruence|]. by rewrite bool_decide_false.
    - apply Forall_cons in Hx as [Hc _]. destruct (Z.eqb_spec c 0); [done|]. by rewrite bool_decide_false.
    - apply Forall_cons in Hx as [Hc Hx]. apply Forall_cons in Hy as [Hd Hy].
      destruct (Z.eqb_spec c d) as [<-|Hne]; cbn [negb].
      + destruct (Z.eqb_spec c 0); [done|]. apply place_tail in Ha. apply place_tail in Hb.
        rewrite <- Z.add_assoc in Ha, Hb. rewrite (IH (i + 1) x y); try done; [|cbn in Hf; lia|lia].
        f_equal. apply bool_decide_ext. split; [by intros ->|by intros [=]].
      + rewrite bool_decide_false by congruence. done. }
  apply Hgen; try done; [|rewrite Z.add_0_r..]; try done.
  pose proof (place_length _ _ _ Ha) as Hl. destruct Ha as [Ha _]. rewrite length_app in Hl. cbn in Hl. lia.
Qed.

Lemma strncmp_run a b x y t t' :
  place a 0 (x ++ t) -> place b 0 (y ++ 0 :: t') ->
  Forall (fun c => c <> 0) x -> Forall (fun c => c <> 0) y ->
  strncmp_equal a b (Z.of_nat (length x)) = Some (bool_decide (x `prefix_of` y)).
Proof.
  intros Ha Hb Hx Hy. unfold strncmp_equal. rewrite Nat2Z.id.
  assert (Hgen : forall f i x' y, (length x' < f)%nat -> 0 <= i -> i + Z.of_nat (length x') = Z.of_nat (length x) ->
    place a i (x' ++ t) -> place b i (y ++ 0 :: t') ->
    Forall (fun c => c <> 0) x' -> Forall (fun c => c <> 0) y ->
    iter f (fun i => if i =? Z.of_nat (length x) then Some (inr true) else u ← rd a i; v ← rd b i;
      Some (if negb (u =? v) then inr false else if u =? 0 then inr true else inl (i + 1))) i =
    Some (bool_decide (x' `prefix_of` y))).
  { clear. induction f as [|f IH]; intros i x' y Hf Hi Hlen Ha Hb Hx Hy; [lia|]. cbn [iter].
    destruct x' as [|c x'].
    - cbn in Hlen. destruct (Z.eqb_spec i (Z.of_nat (length x))); [|lia]. cbn. rewrite bool_decide_true; [done|]. apply prefix_nil.
    - cbn in Hlen. destruct (Z.eqb_spec i (Z.of_nat (length x))); [lia|].
      rewrite (place_rd0 _ _ _ Ha), (place_rd0 _ _ _ Hb). apply Forall_cons in Hx as [Hc Hx].
      destruct y as [|d y]; cbn [app head mbind option_bind].
      + destruct (Z.eqb_spec c 0); [done|]. cbn. rewrite bool_decide_false; [done|]. by apply prefix_nil_not.
      + apply Forall_cons in Hy as [Hd Hy]. destruct (Z.eqb_spec c d) as [<-|Hne]; cbn [negb].
        * destruct (Z.eqb_spec c 0); [done|]. apply place_tail in Ha. apply place_tail in Hb.
          rewrite (IH (i + 1) x' y); try done; [|cbn in Hf; lia|lia|lia].
          f_equal. apply bool_decide_ext. split; [by apply prefix_cons|by intros ?%prefix_cons_inv_2].
        * rewrite bool_decide_false; [done|]. by intros ?%prefix_cons_inv_1. }
  apply Hgen; try done; lia.
Qed.

(** * Compiled patterns *)

(** What a pattern text [Q] of a given kind matches. *)
Definition kind_matches (m : GMatchType) (Q S : list Z) : bool :=
  match m with
  | G_MATCH_ALL => glob Q S
  | G_MATCH_ALL_TAIL => glob Q (reverse S)
  | G_MATCH_HEAD => bool_decide (Q `prefix_of` S)
  | G_MATCH_TAIL => bool_decide (Q `suffix_of` S)
  | G_MATCH_EXACT => bool_decide (Q = S)
  end.

(** [sp] is compiled from a pattern that means [P]. *)
Record compiled (sp : GPatternSpec) (Q P : list Z) : Prop := {
  compiled_buf : exists junk, pattern sp = encodes Q ++ 0 :: junk;
  compiled_text : Forall text_char Q;
  compiled_length : pattern_length sp = Z.of_nat (length (encodes Q));
  compiled_min S : Forall text_char S -> glob P S = true -> min_length sp <= Z.of_nat (length (encodes S));
  compiled_max S : Forall text_char S -> glob P S = true ->
    Z.of_nat (length (encodes S)) < 2 ^ 32 -> Z.of_nat (length (encodes S)) <= max_length sp;
  compiled_tail : match_type sp = G_MATCH_TAIL -> Z.of_nat (length (encodes Q)) <= min_length sp;
  compiled_kind S : Forall text_char S -> kind_matches (match_type sp) Q S = glob P S;
}.

Lemma text_nonzero cs : Forall text_char cs -> Forall (fun b => b <> 0) (encodes cs).
Proof. intros H. apply encodes_nonzero. eapply Forall_impl; [exact H|]. apply text_char_pos. Qed.

Lemma place_start l : place l 0 l.
Proof. apply (place_app []). Qed.

Lemma text_at_start cs t : Forall text_char cs -> text_at (encodes cs ++ 0 :: t) 0 [] cs.
Proof. intros H. split; [constructor|]. split; [done|]. exists t. apply place_start. Qed.

Lemma match_all_run sp Q junk S t :
  pattern sp = encodes Q ++ 0 :: junk -> Forall text_char Q -> Forall text_char S ->
  match_all sp (encodes S ++ 0 :: t) = Some (glob Q S).
Proof.
  intros Eb HQ HS. unfold match_all. rewrite Eb.
  destruct (ph_match_correct (encodes Q ++ 0 :: junk) (encodes S ++ 0 :: t) 0 0 Q S
    (Datatypes.S (length (encodes Q ++ 0 :: junk)))) as (w & ->); [by apply text_at_start..| |done].
  rewrite length_app. lia.
Qed.

Lemma match_run mem sp Q P S t reversed :
  compiled sp Q P -> Forall text_char S -> Z.of_nat (length (encodes S)) < 2 ^ 32 ->
  (forall r, reversed = Some r -> exists t', r = encodes (reverse S) ++ 0 :: t') ->
  g_pattern_match mem (Some sp) (Z.of_nat (length (encodes S))) (Some (encodes S ++ 0 :: t)) reversed = Some (glob P S).
Proof.
  intros [(junk & Eb) HQ Hlen Hmin Hmax Htail Hkind] HS Hb Hrev. unfold g_pattern_match.
  destruct (Z.ltb_spec (Z.of_nat (length (encodes S))) (min_length sp)) as [Hlt|Hge]; cbn [orb].
  { f_equal. symmetry. apply not_true_iff_false. intros H. specialize (Hmin S HS H). lia. }
  destruct (Z.gtb_spec (Z.of_nat (length (encodes S))) (max_length sp)) as [Hgt|Hle].
  { f_equal. symmetry. apply not_true_iff_false. intros H. specialize (Hmax S HS H Hb). lia. }
  rewrite <- Hkind by done. pose proof (text_nonzero Q HQ) as HQn. pose proof (text_nonzero S HS) as HSn.
  assert (HSr : Forall text_char (reverse S)) by (by apply Forall_reverse).
  assert (Hcmp : strcmp_equal (pattern sp) 0 (encodes S ++ 0 :: t) 0 = Some (bool_decide (Q = S))).
  { rewrite Eb. rewrite (strcmp_run _ _ _ _ (encodes Q) (encodes S) junk t) by (done || apply place_start).
    f_equal. apply bool_decide_ext. split; [by apply encodes_inj|by intros ->]. }
  destruct (match_type sp) eqn:Ek; cbn [kind_matches].
  - by eapply match_all_run.
  - destruct reversed as [r|].
    + destruct (Hrev r eq_refl) as [t' ->]. by eapply match_all_run.
    + rewrite (strreverse_correct mem _ _ S (0 :: t)).
      * cbn [mbind option_bind]. by eapply (match_all_run sp Q junk (reverse S) []).
      * eapply Forall_impl; [exact HS|apply text_char_range].
      * split; [done|]. by left.
  - rewrite Hlen. destruct (Z.eqb_spec (Z.of_nat (length (encodes Q))) (Z.of_nat (length (encodes S)))) as [El|Hne].
    + rewrite Hcmp. f_equal. apply bool_decide_ext. split; [by intros ->|]. intros Hp.
      pose proof (proj2 (encodes_prefix Q S HQ HS) Hp) as [r Er]. rewrite Er, length_app in El.
      assert (r = []) as -> by (destruct r; [done|cbn in El; lia]). rewrite app_nil_r in Er. symmetry in Er. by apply encodes_inj.
    + destruct (Z.eqb_spec (Z.of_nat (length (encodes Q))) 0) as [E0|_]; cbn [negb].
      * f_equal. symmetry. apply bool_decide_eq_true. destruct Q as [|a Q]; [apply prefix_nil|].
        rewrite encodes_cons, length_app in E0. pose proof (encode_length_pos a). lia.
      * rewrite Eb, (strncmp_run _ _ (encodes Q) (encodes S) (0 :: junk) t) by (done || apply place_start).
        f_equal. apply bool_decide_ext. by apply encodes_prefix.
  - rewrite Hlen. destruct (Z.eqb_spec (Z.of_nat (length (encodes Q))) 0) as [E0|_]; cbn [negb].
    + f_equal. symmetry. apply bool_decide_eq_true. destruct Q as [|a Q]; [by exists S; rewrite app_nil_r|].
      rewrite encodes_cons, length_app in E0. pose proof (encode_length_pos a). lia.
    + specialize (Htail eq_refl). change (2 ^ 32) with 4294967296 in Hb. rewrite small_u32 by lia.
      set (n := (length (encodes S) - length (encodes Q))%nat).
      pose proof (take_drop n (encodes S)) as Etd. set (X := take n (encodes S)) in *. set (Y := drop n (encodes S)) in *.
      assert (HlY : length Y = length (encodes Q)) by (subst Y n; rewrite length_drop; lia).
      assert (HlX : length X = n) by (subst X n; rewrite length_take; lia).
      assert (HY : place (encodes S ++ 0 :: t) (Z.of_nat (length (encodes S)) - Z.of_nat (length (encodes Q))) (Y ++ 0 :: t)).
      { replace (_ - _) with (Z.of_nat (length X)) by lia. rewrite <- Etd, <- app_assoc. apply place_app. }
      assert (HYn : Forall (fun b => b <> 0) Y) by (rewrite <- Etd in HSn; by apply Forall_app in HSn as [_ HSn]).
      rewrite Eb, (strcmp_run _ _ _ _ (encodes Q) Y junk t) by (done || apply place_start).
      f_equal. apply bool_decide_ext. rewrite <- encodes_suffix by done. split.
      * intros ->. exists X. by rewrite Etd.
      * intros [r Er]. rewrite <- Etd in Er. apply app_inj_2 in Er as [_ ->]; done.
  - rewrite Hlen. destruct (Z.eqb_spec (Z.of_nat (length (encodes Q))) (Z.of_nat (length (encodes S)))) as [El|Hne]; cbn [negb].
    + by rewrite Hcmp.
    + f_equal. symmetry. apply bool_decide_eq_false. by intros ->.
Qed.

(** * Compiling *)

Lemma one_star_split (A B A' B' : list Z) :
  A ++ STAR :: B = A' ++ STAR :: B' -> STAR ∉ A' -> STAR ∉ B' -> A = A' /\ B = B'.
Proof.
  revert A'. induction A as [|a A IH]; intros [|a' A'] E HA HB; cbn [app] in E.
  - by injection E as ->.
  - injection E as <- E. destruct HA. by left.
  - injection E as -> <-. destruct HB. rewrite elem_of_app. right. by left.
  - injection E as -> E. apply IH in E as [-> ->]; [done| |done]. intros H. apply HA. by right.
Qed.

(** Equal first and last positions mean one star. *)
Lemma one_star hw tw out A B :
  stars_ok hw tw out -> hw = tw -> out = A ++ STAR :: B -> STAR ∉ A /\ STAR ∉ B.
Proof.
  intros [(Hn & _)|(A1 & B1 & A2 & B2 & E1 & -> & H1 & E2 & -> & H2)] Heq E.
  - destruct Hn. rewrite E, elem_of_app. right. by left.
  - rewrite E1 in E2. apply app_inj_1 in E2 as [<- E2]; [|lia]. injection E2 as <-.
    rewrite E1 in E. symmetry in E. by apply one_star_split in E as [-> ->].
Qed.

Lemma stars_seen hw tw out : stars_ok hw tw out -> (hw >=? 0) = bool_decide (STAR ∈ out).
Proof.
  intros [(Hn & -> & _)|(A1 & B1 & _ & _ & -> & -> & _)].
  - by rewrite bool_decide_false.
  - rewrite bool_decide_true; [|rewrite elem_of_app; right; by left]. destruct (Z.geb_spec (Z.of_nat (length A1)) 0); [done|lia].
Qed.

Lemma jokers_seen hj out : jokers_ok hj out -> (hj >=? 0) = bool_decide (JOKER ∈ out).
Proof.
  intros [[Hn ->]|[Hj H]]; [by rewrite bool_decide_false|]. rewrite bool_decide_true by done.
  destruct (Z.geb_spec hj 0); [done|lia].
Qed.

Lemma ascii_in_encodes a Q : In a [STAR; JOKER] -> a ∈ Q -> a ∈ encodes Q.
Proof.
  intros Ha H. apply list_elem_of_split in H as (A & B & ->). rewrite encodes_app, elem_of_app, encodes_cons. right.
  apply elem_of_app. left. by destruct Ha as [<-|[<-|[]]]; left.
Qed.

Lemma plain_of_bytes Q : STAR ∉ encodes Q -> JOKER ∉ encodes Q -> plain Q.
Proof.
  intros HS HJ. apply Forall_forall. intros a Ha. split; intros ->; [apply HS|apply HJ];
    (apply ascii_in_encodes; [|done]); [by left|right; by left].
Qed.

Lemma plain_encodes Q : plain Q -> Forall text_char Q -> plain (encodes Q).
Proof.
  induction 1 as [|a Q [H1 H2] _ IH]; intros HQ; [constructor|]. apply Forall_cons in HQ as [Ha HQ].
  rewrite encodes_cons. apply Forall_app. split; [by apply encode_plain|by apply IH].
Qed.

Lemma encodes_star Q R : encodes (Q ++ [STAR]) = encodes Q ++ [STAR] /\ encodes (STAR :: R) = STAR :: encodes R.
Proof. by rewrite encodes_app, !encodes_cons. Qed.

Lemma text_star : Forall text_char [STAR].
Proof. constructor; [|done]. unfold text_char, scalar, STAR. lia. Qed.

(** The bounds on the length that any compiled pattern has. *)
Lemma length_bounds Q :
  Forall text_char Q ->
  forall S, Forall text_char S -> glob Q S = true ->
  least_bytes (encodes Q) <= Z.of_nat (length (encodes S)) /\
  (Z.of_nat (length (encodes S)) < 2 ^ 32 ->
   Z.of_nat (length (encodes S)) <= if bool_decide (STAR ∈ encodes Q) then u32 (-1) else most_bytes (encodes Q)).
Proof.
  intros HQ S HS H. split; [by apply glob_least|]. intros Hb. case_bool_decide as Hst.
  - change (u32 (-1)) with 4294967295. change (2 ^ 32) with 4294967296 in Hb. lia.
  - apply glob_most; try done. apply Forall_forall. intros a Ha ->. destruct Hst. apply ascii_in_encodes; [by left|done].
Qed.

(** A star only at the start or behind a plain character; [w] says that a star
    or a joker comes before. *)
Fixpoint canon_form (w : bool) (P : list Z) : Prop :=
  match P with
  | [] => True
  | a :: P => (a = STAR -> w = false) /\ canon_form (bool_decide (a = STAR \/ a = JOKER)) P
  end.

Lemma canon_form_jokers k w a P :
  a <> STAR -> a <> JOKER -> canon_form false P -> canon_form w (replicate k JOKER ++ a :: P).
Proof.
  intros Ha Hj HP. revert w. induction k as [|k IH]; intros w; cbn [replicate app canon_form].
  - split; [done|]. by rewrite bool_decide_false by tauto.
  - split; [done|]. apply IH.
Qed.

Lemma canonical_form P : forall k f, canon_form f (canonical k f P).
Proof.
  induction P as [|a P IH]; intros k f; cbn [canonical].
  - revert f. induction k as [|k IH]; intros f; [done|]. split; [done|]. apply IH.
  - destruct (decide (a = STAR)) as [->|Ha]; [destruct f; [apply IH|]|destruct (decide (a = JOKER)) as [->|Hj]; [apply IH|]].
    + split; [done|]. rewrite bool_decide_true by (by left). apply IH.
    + apply canon_form_jokers; [done..|]. apply IH.
Qed.

Lemma canon_form_app A P w :
  canon_form w (A ++ P) -> canon_form (match last A with Some a => bool_decide (a = STAR \/ a = JOKER) | None => w end) P.
Proof.
  revert w. induction A as [|a A IH]; intros w; [done|]. intros [_ H]. apply IH in H. rewrite last_cons.
  by destruct (last A).
Qed.

(** Behind a character that is not a star there are jokers, and then a plain
    character or the end. *)
Lemma canon_form_run P :
  (exists w, canon_form w P) -> head P <> Some STAR ->
  exists k T, P = replicate k JOKER ++ T /\ (T = [] \/ exists a R, T = a :: R /\ a <> STAR /\ a <> JOKER).
Proof.
  induction P as [|a P IH]; intros [w Hc] Hh; [exists 0%nat, []; by split; [|left]|].
  cbn [head] in Hh. destruct Hc as [_ Hc].
  destruct (decide (a = JOKER)) as [->|Hj].
  - destruct IH as (k & T & -> & HT); [by eexists| |by exists (S k), T].
    rewrite bool_decide_true in Hc by (by right). destruct P as [|b P]; [done|]. intros [= ->]. by destruct Hc as [Hc _]; specialize (Hc eq_refl).
  - exists 0%nat, (a :: P). split; [done|]. right. exists a, P. split; [done|]. split; [congruence|done].
Qed.

(** * The shortest strings *)

Definition plain_text (P : list Z) : list Z := filter (fun a => a <> STAR) P.

Lemma plain_text_cons a P : plain_text (a :: P) = if decide (a = STAR) then plain_text P else a :: plain_text P.
Proof. unfold plain_text. rewrite filter_cons. by repeat case_decide. Qed.

Lemma plain_text_app P Q : plain_text (P ++ Q) = plain_text P ++ plain_text Q.
Proof. apply filter_app. Qed.

Lemma glob_long P S : glob P S = true -> (length (plain_text P) <= length S)%nat.
Proof.
  revert S. induction P as [|a P IH]; intros S H; [cbn; lia|]. rewrite plain_text_cons. case_decide as Ha.
  - subst a. apply glob_star in H as (u & v & -> & H). rewrite length_app. specialize (IH v H). lia.
  - rewrite glob_cons in H by done. destruct S as [|c S]; [done|]. apply andb_true_iff in H as [_ H].
    specialize (IH S H). cbn. lia.
Qed.

Lemma glob_tight P S :
  glob P S = true -> length S = length (plain_text P) -> Forall2 (fun a c => a = JOKER \/ a = c) (plain_text P) S.
Proof.
  revert S. induction P as [|a P IH]; intros S H Hl.
  - by destruct S; [constructor|].
  - rewrite plain_text_cons in Hl |- *. case_decide as Ha.
    + subst a. apply glob_star in H as (u & v & -> & H). pose proof (glob_long P v H). rewrite length_app in Hl.
      destruct u; [|cbn in Hl; lia]. by apply IH.
    + rewrite glob_cons in H by done. destruct S as [|c S]; [done|]. apply andb_true_iff in H as [Hc H].
      constructor; [|apply IH; [done|by injection Hl]]. apply orb_true_iff in Hc. by rewrite !Z.eqb_eq in Hc.
Qed.

Section fresh.
(** A character that neither of the patterns has *)
Context (z : Z).

(** The shortest string of a pattern with [z] for the jokers *)
Definition shortest (P : list Z) : list Z := (fun a => if decide (a = JOKER) then z else a) <$> plain_text P.

Lemma shortest_app P Q : shortest (P ++ Q) = shortest P ++ shortest Q.
Proof. unfold shortest. by rewrite plain_text_app, fmap_app. Qed.

Lemma shortest_length P : length (shortest P) = length (plain_text P).
Proof. apply length_fmap. Qed.

Lemma glob_shortest P : glob P (shortest P) = true.
Proof.
  induction P as [|a P IH]; [done|]. unfold shortest. rewrite plain_text_cons. case_decide as Ha.
  - subst a. apply glob_star. by exists [], (shortest P).
  - rewrite glob_cons by done. cbn [fmap list_fmap]. apply andb_true_iff. split; [|done].
    apply orb_true_iff. case_decide; [left|right]; by apply Z.eqb_eq.
Qed.

Lemma shortest_text P : Forall text_char P -> text_char z -> Forall text_char (shortest P).
Proof.
  intros HP Hz. unfold shortest. apply Forall_fmap, Forall_forall. intros a Ha. cbn. case_decide; [done|].
  apply list_elem_of_filter in Ha as [_ Ha]. by eapply Forall_forall in HP.
Qed.

(** The shortest strings of a pattern determine its plain text. *)
Lemma plain_text_same P Q :
  z ∉ P -> z ∉ Q -> glob Q (shortest P) = true -> glob P (shortest Q) = true -> plain_text P = plain_text Q.
Proof.
  intros HzP HzQ H1 H2. pose proof (glob_long _ _ H1) as L1. pose proof (glob_long _ _ H2) as L2.
  rewrite shortest_length in L1, L2.
  pose proof (glob_tight _ _ H1) as F1. rewrite shortest_length in F1. specialize (F1 ltac:(lia)).
  pose proof (glob_tight _ _ H2) as F2. rewrite shortest_length in F2. specialize (F2 ltac:(lia)).
  unfold shortest in F1, F2. apply Forall2_fmap_r in F1, F2. clear H1 H2 L1 L2.
  assert (HP : Forall (fun a => a <> z) (plain_text P)).
  { apply Forall_forall. intros a Ha ->. by apply list_elem_of_filter in Ha as [_ Ha]. }
  assert (HQ : Forall (fun a => a <> z) (plain_text Q)).
  { apply Forall_forall. intros a Ha ->. by apply list_elem_of_filter in Ha as [_ Ha]. }
  revert F1 F2 HP HQ. generalize (plain_text P), (plain_text Q). clear. intros P Q F1.
  induction F1 as [|b a Q P Hba _ IH]; intros F2 HP HQ; [done|].
  apply Forall2_cons in F2 as [Hab F2]. apply Forall_cons in HP as [Ha HP]. apply Forall_cons in HQ as [Hb HQ].
  f_equal; [|by apply IH]. unfold compose in *. repeat case_decide; destruct Hab, Hba; congruence.
Qed.

(** Where two patterns with the same plain text first differ, one has a star. *)
Lemma first_difference P Q :
  plain_text P = plain_text Q -> P <> Q ->
  exists A R T, ((P = A ++ STAR :: R /\ Q = A ++ T) \/ (Q = A ++ STAR :: R /\ P = A ++ T)) /\ head T <> Some STAR.
Proof.
  revert Q. induction P as [|a P IH]; intros Q E Hne.
  - destruct Q as [|b Q]; [done|]. rewrite plain_text_cons in E. case_decide; [subst b|done].
    exists [], Q, []. split; [by right|done].
  - destruct Q as [|b Q].
    { rewrite plain_text_cons in E. case_decide; [subst a|done]. exists [], P, []. split; [by left|done]. }
    destruct (decide (a = b)) as [->|Hab].
    + assert (E' : plain_text P = plain_text Q).
      { rewrite !plain_text_cons in E. case_decide; [done|by injection E]. }
      destruct (IH Q E') as (A & R & T & HPQ & HT); [congruence|]. exists (b :: A), R, T. split; [|done].
      destruct HPQ as [[-> ->]|[-> ->]]; [by left|by right].
    + destruct (decide (a = STAR)) as [->|Ha].
      { exists [], P, (b :: Q). split; [by left|]. cbn. congruence. }
      destruct (decide (b = STAR)) as [->|Hb].
      { exists [], Q, (a :: P). split; [by right|]. cbn. congruence. }
      rewrite !plain_text_cons, !decide_False in E by done. congruence.
Qed.

Lemma glob_jokers k X : glob (replicate k JOKER) X = true -> length X = k.
Proof.
  revert X. induction k as [|k IH]; intros X; cbn [replicate]; [by destruct X|].
  rewrite glob_cons by done. destruct X as [|c X]; [done|]. intros [_ H]%andb_true_iff. cbn. f_equal. by apply IH.
Qed.

Lemma shortest_jokers k : shortest (replicate k JOKER) = replicate k z.
Proof.
  induction k as [|k IH]; [done|]. cbn [replicate]. unfold shortest in *. rewrite plain_text_cons. case_decide; [done|].
  cbn [fmap list_fmap]. by rewrite IH.
Qed.

(** A [z] too many is matched neither before jokers and a plain character, *)
Lemma extra_behind k T :
  z ∉ T -> (T = [] \/ exists a R, T = a :: R /\ a <> STAR /\ a <> JOKER) ->
  glob (replicate k JOKER ++ T) (z :: replicate k z ++ shortest T) = false.
Proof.
  intros Hz HT. apply not_true_iff_false. intros H. apply glob_app in H as (X & Y & E & HX & HY).
  apply glob_jokers in HX. rewrite app_comm_cons in E. change (z :: replicate k z) with (replicate (S k) z) in E.
  rewrite replicate_S_end, <- app_assoc in E. apply app_inj_1 in E as [_ E]; [|by rewrite length_replicate].
  cbn [app] in E. subst Y. destruct HT as [->|(a & R & -> & Ha & Hj)]; [done|].
  rewrite glob_cons in HY by done. apply andb_true_iff in HY as [HY _]. apply orb_true_iff in HY as [HY|HY]; apply Z.eqb_eq in HY.
  - done. - subst a. destruct Hz. by left.
Qed.

(** nor behind a plain character or at the start. *)
Lemma extra_before A :
  z ∉ A -> match last A with Some a => bool_decide (a = STAR \/ a = JOKER) | None => false end = false ->
  glob A (shortest A ++ [z]) = false.
Proof.
  intros Hz HA. apply not_true_iff_false. intros H. destruct A as [|l A _] using rev_ind; [done|].
  rewrite last_snoc in HA. apply bool_decide_eq_false in HA. apply glob_app in H as (X & Y & E & _ & HY).
  apply glob_single in HY. case_decide; [tauto|]. destruct HY as (c & -> & [Hj|<-]); [tauto|].
  apply app_inj_tail in E as [_ <-]. apply Hz, elem_of_app. right. by left.
Qed.

(** A star that the other pattern does not have there: [z] put into its place
    is matched by the one and not by the other. *)
Lemma star_separates A R T :
  canon_form false (A ++ STAR :: R) -> canon_form false (A ++ T) -> head T <> Some STAR ->
  plain_text R = plain_text T -> z ∉ A -> z ∉ T ->
  glob (A ++ STAR :: R) (shortest A ++ z :: shortest R) = true /\
  glob (A ++ T) (shortest A ++ z :: shortest R) = false.
Proof.
  intros HP HQ HT E HzA HzT. split.
  { apply glob_app. exists (shortest A), (z :: shortest R). split; [done|]. split; [apply glob_shortest|].
    apply glob_star. exists [z], (shortest R). split; [done|]. apply glob_shortest. }
  apply not_true_iff_false. intros H. apply canon_form_app in HP, HQ. destruct HP as [HA _]. specialize (HA eq_refl).
  destruct (canon_form_run T) as (k & T' & -> & HT'); [by eexists|done|].
  assert (Er : shortest R = shortest (replicate k JOKER ++ T')) by (unfold shortest; by rewrite E).
  rewrite Er in H. clear E Er HQ HT R. rewrite shortest_app, shortest_jokers in H.
  assert (HzT' : z ∉ T') by (intros Hin; apply HzT, elem_of_app; by right).
  apply glob_app in H as (X & Y & EXY & HX & HY).
  pose proof (glob_long _ _ HX) as LX. rewrite <- (shortest_length A) in LX.
  pose proof (glob_long _ _ HY) as LY. rewrite <- (shortest_length (_ ++ _)), shortest_app, shortest_jokers in LY.
  pose proof (f_equal length EXY) as L. rewrite !length_app in L. cbn [length] in L. rewrite length_app in L, LY.
  destruct (decide (length X = length (shortest A))) as [EX|NX].
  - apply app_inj_1 in EXY as [_ <-]; [|done]. by rewrite extra_behind in HY.
  - change (z :: replicate k z ++ shortest T') with ([z] ++ (replicate k z ++ shortest T')) in EXY.
    rewrite app_assoc in EXY. apply app_inj_1 in EXY as [<- _]; [|rewrite length_app; cbn; lia].
    by rewrite extra_before in HX.
Qed.

Lemma text_split P Q : z ∉ P ++ Q -> z ∉ P /\ z ∉ Q.
Proof. rewrite elem_of_app. tauto. Qed.

(** A pattern that has a star where the other one has none matches more. *)
Lemma star_distinguishes A R T :
  text_char z -> z ∉ A ++ T -> Forall text_char (A ++ STAR :: R) ->
  canon_form false (A ++ STAR :: R) -> canon_form false (A ++ T) -> head T <> Some STAR ->
  plain_text (A ++ STAR :: R) = plain_text (A ++ T) ->
  exists S, Forall text_char S /\ glob (A ++ STAR :: R) S = true /\ glob (A ++ T) S = false.
Proof.
  intros Hz HzT Ht HP HQ HT E. apply text_split in HzT as [HzA HzT].
  rewrite !plain_text_app in E. apply app_inv_head in E. rewrite plain_text_cons, decide_True in E by done.
  destruct (star_separates A R T HP HQ HT E HzA HzT) as [H1 H2]. eexists. split; [|by split].
  apply Forall_app in Ht as [HtA HtR]. apply Forall_cons in HtR as [_ HtR].
  apply Forall_app. split; [by apply shortest_text|]. constructor; [done|]. by apply shortest_text.
Qed.

(** Canonical patterns that match the same texts are equal. *)
Lemma canonical_unique P Q :
  text_char z -> z ∉ P -> z ∉ Q -> Forall text_char P -> Forall text_char Q ->
  canon_form false P -> canon_form false Q -> (forall S, Forall text_char S -> glob P S = glob Q S) -> P = Q.
Proof.
  intros Hz HzP HzQ HtP HtQ HP HQ Heq.
  assert (Epl : plain_text P = plain_text Q).
  { apply plain_text_same; [done..|rewrite <- Heq by (by apply shortest_text)|rewrite Heq by (by apply shortest_text)];
      apply glob_shortest. }
  destruct (decide (P = Q)) as [|Hne]; [done|]. exfalso.
  destruct (first_difference P Q Epl Hne) as (A & R & T & [[-> ->]|[-> ->]] & HT).
  - destruct (star_distinguishes A R T) as (S & HS & H1 & H2); try done. rewrite Heq in H1 by done. congruence.
  - destruct (star_distinguishes A R T) as (S & HS & H1 & H2); try done. rewrite <- Heq in H1 by done. congruence.
Qed.
End fresh.
