(* ===== verification/PatternLaws.v ===== *)
(** Compiling a pattern, and the contract of the module: every way of matching
    decides the reference, and two specifications are equal exactly when they
    match the same strings. *)
From S2P Require Import Prelude Utf8 Utf8Char Utf8Valid Utf8Convert Utf8Repair Pattern PatternMatch PatternOk PatternSpec.

Open Scope c_scope.

(** * Compiling *)

(** The kind and the text chosen for the canonical text [Q], from the positions
    the first part of g_pattern_spec_new has found. *)
Definition plan_all (hw tw hj tj : Z) (Q : list Z) : GMatchType * list Z :=
  let len := Z.of_nat (length (encodes Q)) in
  if (if hw >=? 0 then s32 (u32 (len - 1 - tw)) >? hw else s32 (u32 (len - 1 - tj)) >? hj)
  then (G_MATCH_ALL_TAIL, reverse Q) else (G_MATCH_ALL, Q).

Definition plan (hw tw hj tj : Z) (Q : list Z) : GMatchType * list Z :=
  if negb (hj >=? 0) && negb ((hw >=? 0) && negb (hw =? tw)) then
    if bool_decide (head Q = Some STAR) then (G_MATCH_TAIL, tail Q)
    else if bool_decide (last Q = Some STAR) then (G_MATCH_HEAD, take (length Q - 1) Q)
    else if negb (hw >=? 0) then (G_MATCH_EXACT, Q)
    else plan_all hw tw hj tj Q
  else plan_all hw tw hj tj Q.

Lemma compiled_intro m len mn mx buf Q' Q junk :
  Forall text_char Q' -> Forall text_char Q ->
  buf = encodes Q' ++ 0 :: junk -> len = Z.of_nat (length (encodes Q')) ->
  mn = least_bytes (encodes Q) -> mx = (if bool_decide (STAR ∈ encodes Q) then u32 (-1) else most_bytes (encodes Q)) ->
  (m = G_MATCH_TAIL -> Z.of_nat (length (encodes Q')) <= least_bytes (encodes Q)) ->
  (forall S, kind_matches m Q' S = glob Q S) ->
  compiled (mkPatternSpec m len mn mx buf) Q' Q.
Proof.
  intros HQ' HQ -> -> -> -> Htail Hkind.
  split; cbn [pattern pattern_length min_length max_length match_type]; try done; [by eexists|..];
    intros S HS H; by apply (length_bounds Q).
Qed.

(** The state at the end of the first part *)
Record written (st : canon) (Q : list Z) : Prop := {
  wr_text : Forall text_char Q;
  wr_buf : exists junk, cs_buf st = encodes Q ++ 0 :: junk;
  wr_len : cs_len st = Z.of_nat (length (encodes Q));
  wr_min : cs_min st = least_bytes (encodes Q);
  wr_max : cs_max st = most_bytes (encodes Q);
  wr_stars : stars_ok (hw_pos st) (tw_pos st) (encodes Q);
  wr_jokers : jokers_ok (hj_pos st) (encodes Q);
  wr_small : Z.of_nat (length (encodes Q)) < 2 ^ 30;
}.

Definition the_max (st : canon) : Z := if hw_pos st >=? 0 then u32 (-1) else cs_max st.

Lemma the_max_eq st Q :
  written st Q -> the_max st = if bool_decide (STAR ∈ encodes Q) then u32 (-1) else most_bytes (encodes Q).
Proof. intros H. unfold the_max. by rewrite (stars_seen _ _ _ (wr_stars _ _ H)), (wr_max _ _ H). Qed.

Lemma choose_run mem st Q :
  written st Q ->
  exists sp Q', choose_direction mem st (hw_pos st >=? 0) (the_max st) = Some sp /\ compiled sp Q' Q /\
    plan_all (hw_pos st) (tw_pos st) (hj_pos st) (tj_pos st) Q = (match_type sp, Q').
Proof.
  intros H. pose proof H as [HQ (junk & Eb) Hlen Hmin _ _ _ _]. pose proof (the_max_eq _ _ H) as Hmax.
  unfold choose_direction, plan_all. rewrite Hlen. set (back := if _ >=? 0 then _ else _). destruct back.
  - rewrite Eb, (strreverse_correct mem _ _ Q (0 :: junk)).
    + cbn [mbind option_bind]. eexists _, _. split; [done|]. split; [|done].
      apply (compiled_intro _ _ _ _ _ _ _ []); try done.
      * by apply Forall_reverse.
      * by rewrite encodes_reverse_length.
      * intros S. cbn [kind_matches]. apply glob_reverse.
    + eapply Forall_impl; [exact HQ|apply text_char_range].
    + split; [done|]. by left.
  - eexists _, _. split; [done|]. split; [|done]. by apply (compiled_intro _ _ _ _ _ _ _ junk).
Qed.

Lemma move_down_run c l r : exists x, move_down (c :: l ++ r) (Z.of_nat (length l)) = Some (l ++ x :: r).
Proof.
  unfold move_down. rewrite (slice_place _ 1 l r) by (apply (place_app [c])). cbn [mbind option_bind]. rewrite Nat2Z.id.
  assert (Hl : length (drop (length l) (c :: l)) = 1%nat) by (rewrite length_drop; cbn; lia).
  destruct (drop (length l) (c :: l)) as [|x [|]] eqn:E; try done. exists x.
  change (c :: l ++ r) with ((c :: l) ++ r). rewrite drop_app_le by (cbn; lia). by rewrite E.
Qed.

(** The last two cases of the special forms, for a text with one star *)
Lemma tail_compiled st R junk :
  written st (STAR :: R) -> plain R ->
  compiled (mkPatternSpec G_MATCH_TAIL (u32 (cs_len st - 1)) (cs_min st) (the_max st) (encodes R ++ 0 :: junk)) R (STAR :: R).
Proof.
  intros H HR. pose proof H as [HQ _ Hlen Hmin _ _ _ Hsm]. pose proof (the_max_eq _ _ H) as Hmax.
  apply Forall_cons in HQ as HR'. destruct HR' as [_ HR'].
  rewrite (proj2 (encodes_star [] R)) in Hlen, Hsm. cbn [length] in Hlen, Hsm. change (2 ^ 30) with 1073741824 in Hsm.
  apply (compiled_intro _ _ _ _ _ _ _ junk); try done.
  - rewrite Hlen, small_u32; lia.
  - intros _. rewrite (proj2 (encodes_star [] R)). change (STAR :: encodes R) with ([STAR] ++ encodes R).
    rewrite least_app, (proj1 special_bytes). destruct (plain_bytes (encodes R)) as [-> _]; [|lia].
    apply plain_encodes; [done|]. apply HR'.
  - intros S. cbn [kind_matches]. apply bool_iff. rewrite bool_decide_eq_true, glob_tail by done. done.
Qed.

Lemma head_compiled st L junk :
  written st (L ++ [STAR]) -> plain L ->
  compiled (mkPatternSpec G_MATCH_HEAD (u32 (cs_len st - 1)) (cs_min st) (the_max st) (encodes L ++ 0 :: junk)) L (L ++ [STAR]).
Proof.
  intros H HL. pose proof H as [HQ _ Hlen Hmin _ _ _ Hsm]. pose proof (the_max_eq _ _ H) as Hmax.
  apply Forall_app in HQ as HL'. destruct HL' as [HL' _].
  rewrite (proj1 (encodes_star L [])) in Hlen, Hsm. rewrite length_app in Hlen, Hsm. cbn [length] in Hlen, Hsm.
  change (2 ^ 30) with 1073741824 in Hsm.
  apply (compiled_intro _ _ _ _ _ _ _ junk); try done.
  - rewrite Hlen, small_u32; lia.
  - intros S. cbn [kind_matches]. apply bool_iff. rewrite bool_decide_eq_true, glob_head by done. done.
Qed.

Lemma exact_compiled st Q junk :
  written st Q -> plain Q -> cs_buf st = encodes Q ++ 0 :: junk ->
  compiled (mkPatternSpec G_MATCH_EXACT (cs_len st) (cs_min st) (the_max st) (cs_buf st)) Q Q.
Proof.
  intros H HL Eb. pose proof H as [HQ _ Hlen Hmin _ _ _ Hsm]. pose proof (the_max_eq _ _ H) as Hmax.
  apply (compiled_intro _ _ _ _ _ _ _ junk); try done. intros S. cbn [kind_matches]. by rewrite glob_plain.
Qed.

(** The bytes the code looks at to find the special forms *)
Lemma first_byte_star Q junk :
  Forall text_char Q ->
  exists b, rd (encodes Q ++ 0 :: junk) 0 = Some b /\ (b =? STAR) = bool_decide (head Q = Some STAR).
Proof.
  intros HQ. rewrite (place_rd0 _ _ _ (place_start _)). destruct Q as [|a Q].
  - by exists 0.
  - apply Forall_cons in HQ as [Ha _]. destruct (encode_first a Ha) as (l & ks & El & _ & _ & _ & _ & _ & Hsm & _).
    exists l. rewrite encodes_cons, El. split; [done|]. apply bool_iff. rewrite bool_decide_eq_true, Z.eqb_eq. cbn [head]. split.
    + intros ->. f_equal. by apply Hsm.
    + intros [= ->]. by injection El as <- _.
Qed.

Lemma last_byte_star Q junk :
  Forall text_char Q ->
  let len := Z.of_nat (length (encodes Q)) in
  exists b, (if len >? 0 then rd (encodes Q ++ 0 :: junk) (len - 1) else Some 0) = Some b /\
    (b =? STAR) = bool_decide (last Q = Some STAR).
Proof.
  intros HQ len. destruct Q as [|a Q _] using rev_ind; [by exists 0|]. rewrite last_snoc.
  assert (Hone : encodes [a] = encode a) by (rewrite encodes_cons; apply app_nil_r).
  apply Forall_app in HQ as HQ'. destruct HQ' as [HQ' Ha]. apply Forall_cons in Ha as [Ha _].
  destruct (encodes (Q ++ [a])) as [|b B _] eqn:E using rev_ind.
  { rewrite encodes_app, Hone in E. destruct (encode_cons a) as (l & ks & El). rewrite El in E. by destruct (encodes Q). }
  exists b. subst len. rewrite length_app. cbn [length]. destruct (Z.gtb_spec (Z.of_nat (length B + 1)) 0); [|lia].
  replace (Z.of_nat (length B + 1) - 1) with (Z.of_nat (length B)) by lia. rewrite <- app_assoc.
  rewrite (place_rd0 _ _ _ (place_app B _)). split; [done|]. apply bool_iff. rewrite bool_decide_eq_true, Z.eqb_eq.
  pose proof (encodes_suffix [STAR] (Q ++ [a]) text_star HQ) as Hs. change (encodes [STAR]) with [STAR] in Hs. rewrite E in Hs.
  split.
  - intros ->. f_equal. destruct (proj1 Hs) as [r Er]; [by exists B|]. by apply app_inj_tail in Er as [_ ->].
  - intros [= ->]. destruct (proj2 Hs) as [r Er]; [by exists Q|]. by apply app_inj_tail in Er as [_ ->].
Qed.

(** A text whose canonical form has one star and no joker *)
Lemma one_star_plain st Q A B :
  written st Q -> (hj_pos st >=? 0) = false -> hw_pos st = tw_pos st -> Q = A ++ STAR :: B -> plain A /\ plain B.
Proof.
  intros H Hj Hw ->. rewrite (jokers_seen _ _ (wr_jokers _ _ H)) in Hj. apply bool_decide_eq_false in Hj.
  destruct (one_star _ _ _ (encodes A) (encodes B) (wr_stars _ _ H) Hw) as [HA HB].
  { by rewrite encodes_app, (proj2 (encodes_star [] B)). }
  rewrite encodes_app, (proj2 (encodes_star [] B)), elem_of_app in Hj.
  split; apply plain_of_bytes; try done; intros H1; apply Hj; [by left|right; by right].
Qed.

Lemma finish_run mem st Q :
  written st Q ->
  exists sp Q', finish_spec mem st = Some (Some sp) /\ compiled sp Q' Q /\
    plan (hw_pos st) (tw_pos st) (hj_pos st) (tj_pos st) Q = (match_type sp, Q').
Proof.
  intros Hw. destruct (choose_run mem st Q Hw) as (sp0 & Q0 & Egen & Hc0 & Hp0).
  unfold finish_spec, plan. fold (the_max st). rewrite Egen. cbn [mbind option_bind].
  destruct (hj_pos st >=? 0) eqn:Ej; cbn [negb andb]; [by exists sp0, Q0|].
  pose proof Hw as [HQ (junk & Eb) Hlen _ _ Hst _ Hsm]. change (2 ^ 30) with 1073741824 in Hsm.
  destruct (negb ((hw_pos st >=? 0) && negb (hw_pos st =? tw_pos st))) eqn:Em; [|by exists sp0, Q0].
  assert (Heq : STAR ∈ Q -> hw_pos st = tw_pos st).
  { intros Hin. apply (ascii_in_encodes STAR Q (or_introl eq_refl)) in Hin. rewrite (stars_seen _ _ _ Hst), bool_decide_true in Em by done.
    by destruct (Z.eqb_spec (hw_pos st) (tw_pos st)). }
  destruct (first_byte_star Q junk HQ) as (b & E1 & Hb1). destruct (last_byte_star Q junk HQ) as (c & E2 & Hb2).
  rewrite <- Eb in E1, E2. rewrite <- Hlen in E2. rewrite E1, E2. cbn [mbind option_bind]. rewrite Hb1, Hb2. clear E1 E2 Hb1 Hb2.
  case_bool_decide as Ehd; [|case_bool_decide as Elast].
  - destruct Q as [|a R]; [done|]. injection Ehd as ->.
    destruct (one_star_plain st _ [] R Hw Ej) as [_ HR]; [apply Heq; by left|done|].
    pose proof (fun junk => tail_compiled st R junk Hw HR) as Hc.
    rewrite (proj2 (encodes_star [] R)) in Hlen, Hsm, Eb. cbn [length] in Hlen, Hsm.
    destruct (move_down_run STAR (encodes R) (0 :: junk)) as (x & Emv).
    assert (El : u32 (cs_len st - 1) = Z.of_nat (length (encodes R))) by (rewrite Hlen, small_u32; lia).
    rewrite El, Eb. cbn [app]. rewrite Emv. cbn [mbind option_bind].
    rewrite array_set_mid by done. cbn [mbind option_bind]. rewrite <- El.
    eexists _, R. split; [done|]. split; [apply Hc|done].
  - destruct Q as [|a L _] using rev_ind; [done|]. rewrite last_snoc in Elast. injection Elast as ->.
    destruct (one_star_plain st _ L [] Hw Ej) as [HL _]; [apply Heq, elem_of_app; right; by left|done|].
    pose proof (fun junk => head_compiled st L junk Hw HL) as Hc.
    rewrite (proj1 (encodes_star L [])) in Hlen, Hsm, Eb. rewrite length_app in Hlen, Hsm. cbn [length] in Hlen, Hsm.
    assert (El : u32 (cs_len st - 1) = Z.of_nat (length (encodes L))) by (rewrite Hlen, small_u32; lia).
    rewrite El, Eb, <- app_assoc. cbn [app]. rewrite array_set_mid by done. cbn [mbind option_bind]. rewrite <- El.
    eexists _, L. split; [done|]. split; [apply Hc|]. rewrite length_app. cbn [length].
    by rewrite Nat.add_sub, take_app_length.
  - destruct (hw_pos st >=? 0) eqn:Es; cbn [negb]; [by exists sp0, Q0|].
    rewrite (stars_seen _ _ _ Hst) in Es. rewrite (jokers_seen _ _ (wr_jokers _ _ Hw)) in Ej.
    apply bool_decide_eq_false in Es, Ej. eexists _, Q. split; [done|]. split; [|done].
    eapply exact_compiled; [done| |done]. by apply plain_of_bytes.
Qed.

(** The positions of the stars are determined by the text. *)
Lemma stars_unique hw tw hw' tw' out : stars_ok hw tw out -> stars_ok hw' tw' out -> hw = hw' /\ tw = tw'.
Proof.
  assert (Hone : forall A B A' B', A ++ STAR :: B = A' ++ STAR :: B' -> STAR ∉ A -> STAR ∉ A' -> length A = length A').
  { intros A. induction A as [|a A IH]; intros B [|a' A'] B' E HA HA'; cbn [app] in E; [done|..].
    - injection E as <- _. destruct HA'. by left.
    - injection E as -> _. destruct HA. by left.
    - injection E as -> E. cbn. f_equal. eapply IH; [exact E|..]; intros H; [apply HA|apply HA']; by right. }
  intros [(Hn & -> & ->)|(A1 & B1 & A2 & B2 & E1 & -> & H1 & E2 & -> & H2)]
         [(Hn' & -> & ->)|(A1' & B1' & A2' & B2' & E1' & -> & H1' & E2' & -> & H2')]; try done.
  - destruct Hn. rewrite E1', elem_of_app. right. by left.
  - destruct Hn'. rewrite E1, elem_of_app. right. by left.
  - split; f_equal; [rewrite E1 in E1'; by eapply Hone|].
    rewrite E2 in E2'. pose proof (f_equal length E2') as El. rewrite !length_app in El. cbn in El.
    apply (f_equal reverse) in E2'. rewrite !reverse_app, !reverse_cons, <- !app_assoc in E2'.
    apply Hone in E2'; [|by rewrite elem_of_reverse..]. rewrite !length_reverse in E2'. lia.
Qed.

(** g_pattern_spec_new compiles every pattern. *)
Lemma spec_new_run mem P t :
  Forall text_char P -> Z.of_nat (length (encodes P)) < 2 ^ 30 ->
  exists sp Q' hw tw hj tj, let Q := canonical 0 false P in
    g_pattern_spec_new mem (Some (encodes P ++ 0 :: t)) = Some (Some sp) /\ compiled sp Q' P /\
    stars_ok hw tw (encodes Q) /\ jokers_ok hj (encodes Q) /\ plan hw tw hj tj Q = (match_type sp, Q').
Proof.
  intros HP Hlen. set (Q := canonical 0 false P).
  destruct (canonicalize_run mem (encodes P) t) as (st & junk & Ec & Eb & El & Emin & Emax & Hst & Hjo);
    [by apply text_nonzero|done|].
  rewrite canonical_encodes in Eb, El, Emin, Emax, Hst, Hjo by done. fold Q in Eb, El, Emin, Emax, Hst, Hjo.
  assert (Hq : Z.of_nat (length (encodes Q)) < 2 ^ 30).
  { subst Q. rewrite <- canonical_encodes by done. pose proof (canonical_length 0 false (encodes P)). lia. }
  destruct (finish_run mem st Q) as (sp & Q' & E & [Hb Ht Hl Hmin Hmax Htl Hk] & Hp).
  { split; try done; [by apply canonical_text|by exists junk]. }
  exists sp, Q', (hw_pos st), (tw_pos st), (hj_pos st), (tj_pos st). cbv zeta. unfold g_pattern_spec_new.
  rewrite Ec. cbn [mbind option_bind]. rewrite E. split; [done|]. split; [|done].
  assert (Hg : forall S, glob Q S = glob P S) by apply glob_canonical.
  split; try done; intros S HS; rewrite <- Hg; auto.
Qed.

(** * Equality of specifications *)

Lemma spec_equal_run sp1 sp2 Q1 Q2 P1 P2 :
  compiled sp1 Q1 P1 -> compiled sp2 Q2 P2 ->
  g_pattern_spec_equal (Some sp1) (Some sp2) = Some (bool_decide (match_type sp1 = match_type sp2 /\ Q1 = Q2)).
Proof.
  intros [(j1 & E1) H1 L1 _ _ _ _] [(j2 & E2) H2 L2 _ _ _ _]. unfold g_pattern_spec_equal.
  assert (Hcmp : strcmp_equal (pattern sp1) 0 (pattern sp2) 0 = Some (bool_decide (Q1 = Q2))).
  { rewrite E1, E2. rewrite (strcmp_run _ _ _ _ (encodes Q1) (encodes Q2) j1 j2); try apply place_start; try by apply text_nonzero.
    f_equal. apply bool_decide_ext. split; [by apply encodes_inj|by intros ->]. }
  destruct (Z.eqb_spec (pattern_length sp1) (pattern_length sp2)) as [_|Hl]; cbn [andb].
  - destruct (decide (match_type sp1 = match_type sp2)) as [Ht|Ht].
    + rewrite bool_decide_true, Hcmp by done. f_equal. apply bool_decide_ext. tauto.
    + by rewrite !bool_decide_false by tauto.
  - rewrite bool_decide_false; [done|]. intros [_ ->]. congruence.
Qed.

Lemma canonical_nostar k P : STAR ∉ canonical k false P -> canonical k false P = replicate k JOKER ++ P.
Proof.
  revert k. induction P as [|a P IH]; intros k; cbn [canonical]; [by rewrite app_nil_r|].
  destruct (decide (a = STAR)) as [|Ha]; [|destruct (decide (a = JOKER)) as [->|Hj]]; intros H.
  - destruct H. by left.
  - rewrite IH by done. by rewrite replicate_snoc.
  - rewrite IH; [done|]. intros Hin. apply H, elem_of_app. right. by right.
Qed.

Lemma canonical_elem z P : forall k f, z ∈ canonical k f P -> z ∈ P \/ (z = JOKER /\ (0 < k)%nat).
Proof.
  induction P as [|a P IH]; intros k f; cbn [canonical].
  - intros [-> H]%elem_of_replicate. right. split; [done|lia].
  - destruct (decide (a = STAR)) as [->|Ha]; [destruct f|destruct (decide (a = JOKER)) as [->|Hj]]; rewrite ?elem_of_app, !elem_of_cons.
    + intros [H|H]%IH; tauto.
    + intros [->|[H|H]%IH]; tauto.
    + intros [H|[-> _]]%IH; tauto.
    + intros [[-> H]%elem_of_replicate|[->|[H|[_ H]]%IH]]; [right; split; [done|lia]|tauto|tauto|lia].
Qed.

(** With a star in it the canonical text determines the plan. *)
Lemma plan_same hw tw hj tj hw' tw' hj' tj' Q :
  Forall text_char Q -> STAR ∈ Q -> stars_ok hw tw (encodes Q) -> stars_ok hw' tw' (encodes Q) ->
  jokers_ok hj (encodes Q) -> jokers_ok hj' (encodes Q) -> plan hw tw hj tj Q = plan hw' tw' hj' tj' Q.
Proof.
  intros HQ Hin Hs Hs' Hj Hj'. destruct (stars_unique _ _ _ _ _ Hs Hs') as [<- <-].
  apply (ascii_in_encodes STAR Q (or_introl eq_refl)) in Hin.
  pose proof (stars_seen _ _ _ Hs) as E. rewrite bool_decide_true in E by done.
  unfold plan, plan_all. by rewrite (jokers_seen _ _ Hj), (jokers_seen _ _ Hj'), E.
Qed.

(** Two patterns that match the same texts are compiled alike. *)
Lemma compiled_same mem P1 P2 z sp1 sp2 :
  Forall text_char P1 -> Forall text_char P2 ->
  Z.of_nat (length (encodes P1)) < 2 ^ 30 -> Z.of_nat (length (encodes P2)) < 2 ^ 30 ->
  text_char z -> z ∉ P1 -> z ∉ P2 -> (forall S, Forall text_char S -> glob P1 S = glob P2 S) ->
  g_pattern_spec_new mem (Some (encodes P1 ++ [0])) = Some (Some sp1) ->
  g_pattern_spec_new mem (Some (encodes P2 ++ [0])) = Some (Some sp2) ->
  g_pattern_spec_equal (Some sp1) (Some sp2) = Some true.
Proof.
  intros H1 H2 L1 L2 Hz Hz1 Hz2 Hsame N1 N2.
  destruct (spec_new_run mem P1 [] H1 L1) as (sp1' & Q1 & hw1 & tw1 & hj1 & tj1 & E1 & C1 & S1 & J1 & Pl1).
  destruct (spec_new_run mem P2 [] H2 L2) as (sp2' & Q2 & hw2 & tw2 & hj2 & tj2 & E2 & C2 & S2 & J2 & Pl2).
  rewrite N1 in E1. injection E1 as <-. rewrite N2 in E2. injection E2 as <-.
  assert (Hcan : forall P, z ∉ P -> z ∉ canonical 0 false P) by (intros P HzP [?|[_ ?]]%canonical_elem; [done|lia]).
  assert (Ecan : canonical 0 false P1 = canonical 0 false P2).
  { apply (canonical_unique z); auto using canonical_text, canonical_form. intros S HS. rewrite !glob_canonical. auto. }
  destruct (decide (STAR ∈ canonical 0 false P1)) as [Hst|Hst].
  - rewrite (spec_equal_run _ _ _ _ _ _ C1 C2). f_equal. apply bool_decide_eq_true. rewrite <- Ecan in *.
    rewrite (plan_same hw1 tw1 hj1 tj1 hw2 tw2 hj2 tj2), Pl2 in Pl1; [by injection Pl1|by apply canonical_text|done..].
  - pose proof Hst as Hst2. rewrite Ecan in Hst2. apply canonical_nostar in Hst, Hst2. rewrite Hst, Hst2 in Ecan.
    cbn [replicate app] in Ecan. subst P2. rewrite N1 in N2. injection N2 as <-.
    rewrite (spec_equal_run _ _ _ _ _ _ C1 C1). f_equal. by apply bool_decide_eq_true.
Qed.

(** * The contract *)

(** C28: a pattern in which a star stands for any string and a joker for any
    character is compiled, and a text is matched by the specification exactly
    when the pattern matches it: with g_pattern_match_simple, with
    g_pattern_match_string, and with g_pattern_match, whether or not the caller
    has the reversed text. *)
Theorem patterns_exact mem P S t t' :
  Forall text_char P -> Z.of_nat (length (encodes P)) < 2 ^ 30 ->
  Forall text_char S -> Z.of_nat (length (encodes S)) < 2 ^ 32 ->
  let pat := encodes P ++ 0 :: t in
  let str := encodes S ++ 0 :: t' in
  g_pattern_match_simple mem (Some pat) (Some str) = Some (glob P S) /\
  exists pspec, g_pattern_spec_new mem (Some pat) = Some (Some pspec) /\
    g_pattern_match_string mem (Some pspec) (Some str) = Some (glob P S) /\
    g_pattern_match mem (Some pspec) (Z.of_nat (length (encodes S))) (Some str) None = Some (glob P S) /\
    forall r, g_pattern_match mem (Some pspec) (Z.of_nat (length (encodes S))) (Some str)
      (Some (encodes (reverse S) ++ 0 :: r)) = Some (glob P S).
Proof.
  intros HP LP HS LS pat str.
  destruct (spec_new_run mem P t HP LP) as (sp & Q & _ & _ & _ & _ & E & C & _).
  assert (Hlen : strlen str 0 = Some (Z.of_nat (length (encodes S)))).
  { rewrite (strlen_bytes str 0 (encodes S) t' (place_start _) (text_nonzero S HS)). done. }
  assert (Hrun : forall reversed, (forall r, reversed = Some r -> exists t', r = encodes (reverse S) ++ 0 :: t') ->
    g_pattern_match mem (Some sp) (Z.of_nat (length (encodes S))) (Some str) reversed = Some (glob P S)).
  { intros. by apply (match_run mem sp Q). }
  change (2 ^ 32) with 4294967296 in LS. split; [|exists sp; split; [done|split_and!]].
  - unfold g_pattern_match_simple. subst pat. rewrite E. cbn [mbind option_bind]. rewrite Hlen. cbn [mbind option_bind].
    rewrite small_u32 by lia. by apply Hrun.
  - unfold g_pattern_match_string. rewrite Hlen. cbn [mbind option_bind]. rewrite small_u32 by lia. by apply Hrun.
  - by apply Hrun.
  - intros r. apply Hrun. intros r' [= <-]. by exists r.
Qed.

(** C29: specifications of two patterns are equal for g_pattern_spec_equal exactly
    when the patterns match the same texts, if there is a character [z] that
    neither of them has. *)
Theorem specs_equal_exact mem P1 P2 z :
  Forall text_char P1 -> Forall text_char P2 ->
  Z.of_nat (length (encodes P1)) < 2 ^ 30 -> Z.of_nat (length (encodes P2)) < 2 ^ 30 ->
  text_char z -> z ∉ P1 -> z ∉ P2 ->
  exists sp1 sp2 b,
    g_pattern_spec_new mem (Some (encodes P1 ++ [0])) = Some (Some sp1) /\
    g_pattern_spec_new mem (Some (encodes P2 ++ [0])) = Some (Some sp2) /\
    g_pattern_spec_equal (Some sp1) (Some sp2) = Some b /\
    (b = true <-> forall S, Forall text_char S -> glob P1 S = glob P2 S).
Proof.
  intros H1 H2 L1 L2 Hz Hz1 Hz2.
  destruct (spec_new_run mem P1 [] H1 L1) as (sp1 & Q1 & _ & _ & _ & _ & E1 & C1 & _).
  destruct (spec_new_run mem P2 [] H2 L2) as (sp2 & Q2 & _ & _ & _ & _ & E2 & C2 & _).
  pose proof (spec_equal_run _ _ _ _ _ _ C1 C2) as Eq. eexists sp1, sp2, _. split_and!; [done..|]. split.
  - intros [Ht ->]%bool_decide_eq_true S HS.
    rewrite <- (compiled_kind _ _ _ C1), <- (compiled_kind _ _ _ C2) by done. by rewrite Ht.
  - intros Hsame. rewrite (compiled_same mem P1 P2 z) in Eq by done. by injection Eq.
Qed.

(** a?* and a*?, and "aé" *)
Lemma patterns_exact_witness :
  g_pattern_match_simple (fun _ => 7) (Some [97; 63; 42; 0]) (Some [97; 0xc3; 0xa9; 0]) = Some true.
Proof.
  change [97; 63; 42; 0] with (encodes [97; 63; 42] ++ [0]).
  change [97; 0xc3; 0xa9; 0] with (encodes [97; 0xe9] ++ [0]).
  change true with (glob [97; 63; 42] [97; 0xe9]).
  apply (patterns_exact (fun _ => 7) [97; 63; 42] [97; 0xe9] [] []).
  1,3: repeat constructor; unfold scalar; lia.
  all: by vm_compute.
Defined.

Lemma specs_equal_exact_witness :
  exists sp1 sp2 b,
    g_pattern_spec_new (fun _ => 7) (Some [97; 63; 42; 0]) = Some (Some sp1) /\
    g_pattern_spec_new (fun _ => 7) (Some [97; 42; 63; 0]) = Some (Some sp2) /\
    g_pattern_spec_equal (Some sp1) (Some sp2) = Some b /\
    (b = true <-> forall S, Forall text_char S -> glob [97; 63; 42] S = glob [97; 42; 63] S).
Proof.
  change [97; 63; 42; 0] with (encodes [97; 63; 42] ++ [0]).
  change [97; 42; 63; 0] with (encodes [97; 42; 63] ++ [0]).
  apply (specs_equal_exact (fun _ => 7) [97; 63; 42] [97; 42; 63] 98).
  1,2,5: repeat constructor; unfold scalar; lia.
  1,2: by vm_compute.
  all: rewrite !elem_of_cons, elem_of_nil; lia.
Defined.
